(* ===== verification/_CoqProject ===== *)
-Q . S2P
Prelude.v
Outcome.v
CText.v
PageTable.v
GuestDump.v
HostTranslator.v
Augmentor.v
Pipeline.v
Hashtable.v
DrVector.v
DrTable.v
BTree.v
BTreeTree.v
BTreeProof.v
BTreeMap.v
BTreeDelete.v
BTreeShrink.v
BTreeDeleteProof.v
BTreeDeleteMap.v
BTreeSpec.v
BTreeMain.v
CachingDevice.v
CachingProof.v
CacheRequest.v
CacheSpec.v
CacheLru.v
Tlb.v
PageWalk.v
WalkProof.v
WalkSpec.v
LoadSpec.v
SimSpec.v
VmVector.v
VmVectorProof.v
VmVectorRanges.v
VmVectorCover.v
VmVectorRemove.v
VmVectorSearch.v
VmVectorPlain.v
VmVectorSpec.v
MemCache.v
MemCacheProof.v
MemCacheState.v
MemCacheUpdate.v
MemCacheSpec.v
TraceEntry.v
Raw2Trace.v
Raw2TraceTerm.v
Raw2TraceView.v
Raw2TraceBlock.v
Capture.v
TraceWords.v
Raw2TraceMerge.v
Raw2TraceSpec.v
Reader.v
ReaderRun.v
ReaderSpec.v
CaptureSim.v
IoPrint.v
IoScan.v
IoPrintProof.v
IoRound.v
IoItems.v
IoSpec.v
ModTrack.v
ModTrackSpec.v
ModList.v
ModListPrint.v
ModListSpec.v
ModListMain.v
ModuleMapper.v
ModuleCodec.v
ModuleSpec.v
ReuseDistance.v
ReuseProof.v
ReuseList.v
ReuseSpec.v
Tools.v
ToolsSpec.v
