(* ===== verification/Prelude.v ===== *)
(** * Verification of the SagePTE page-table pipeline and its simulator

    SagePTE measures the page walks of a workload that runs in a virtual
    machine.  A kernel module in the guest dumps the workload's page table; a
    kernel module on the host translates the guest frames that the dump names
    by walking QEMU's page table; a small program fills in the levels that the
    host does not have; and a cache simulator, a client of DynamoRIO, replays a
    memory trace and walks both tables at every TLB miss.  This library models
    these programs, the container library that the client's runtime uses, the
    parts of DynamoRIO that keep track of the traced process's address space and
    of its modules and that print and scan text, and the B+ tree workload, and
    proves what makes them correct.

    ** Files, and the code each models

    - [Prelude]: machine integers, finite lists, small tactics.  [Outcome]: a
      value, an abort or no fuel, with its monad.  [CText]: the
      C library's and the kernel's text functions (printf, scanf, strtoull,
      strtok, fgets), with their print and scan round trips.
    - [PageTable]: the kernel's page-table accessors as the class [KernelPT],
      its laws, and a four-level x86 instance.
    - [GuestDump]: src/PageTables/Guest/dump_pagetables.c.  The two walkers, the
      seq_file operations ([pt_seq_start], [pt_seq_next], [pt_seq_show]), the
      write handler, the kprobe, module load and unload.
    - [HostTranslator]: src/PageTables/Host/host_gpa_translator.c.  The state is
      the module's globals ([config], [table], [session]); every handler of its
      proc files is a function of that state.
    - [Augmentor]: src/PageTables/Host/host_pt_augmentor.c, a function from the
      input file to the exit code and the output file.
    - [Pipeline]: the three composed through the texts they exchange.
    - [CachingDevice], [CachingProof], [CacheRequest], [CacheSpec], [CacheLru]:
      the simulated caches (src/Simulator/clients/drcachesim/simulator,
      caching_device.cpp, cache.cpp, cache_lru.cpp, cache_fifo.cpp,
      prefetcher.cpp and the two files of statistics).  Devices share parents,
      so they live in a store and a pointer to one is its index.
    - [Tlb]: tlb.cpp and the construction of the TLBs in tlb_simulator.cpp.
    - [PageWalk]: cache_simulator.cpp, simulator.cpp and tlb_simulator.cpp.  The
      state [sim_t] holds the caches, the TLB simulator, the threads' cores, the
      two page tables and the counters; [process_memref] is one reference.
      [WalkProof], [WalkSpec], [LoadSpec] and [SimSpec] are its theorems.
    - [Hashtable], [DrVector], [DrTable]: hashtable.c, drvector.c and drtable.c
      of src/Simulator/ext/drcontainers (the copy under src/Tracer is the same).
    - [BTree], [BTreeDelete], [BTreeMain]: src/Workloads/btree/btree.c.
      [BTreeTree], [BTreeProof], [BTreeMap], [BTreeShrink], [BTreeDeleteProof],
      [BTreeDeleteMap] and [BTreeSpec] relate its store of nodes to trees and
      these to maps.
    - [VmVector]: the vectors of address ranges of src/Simulator/core/vmareas.c
      and vmareas.h.  The state is the array with its capacity, flags and
      callbacks; the payloads' memory is a world that the callbacks change.
      [VmVectorProof], [VmVectorRanges], [VmVectorCover], [VmVectorRemove] and
      [VmVectorSearch] relate the array to a list of areas; [VmVectorPlain] and
      [VmVectorSpec] are the interface that clients see.
    - [MemCache]: src/Simulator/core/unix/memcache.c, a client of [VmVector]
      with a heap of payloads.  [MemCacheProof], [MemCacheState],
      [MemCacheUpdate] and [MemCacheSpec] read it as a map of the address space.
    - [TraceEntry]: the two trace formats of common/trace_entry.h (from here on
      under src/Simulator/clients/drcachesim), and the functions of
      tracer/instru_offline.cpp and tracer/instru_online.cpp that write them;
      [TraceWords]: the words and their bit fields.
    - [Raw2Trace]: tracer/raw2trace.cpp and raw2trace.h, in a monad of the
      converter's state, errors and aborts.  [Raw2TraceTerm]: it ends.
      [Raw2TraceView], [Raw2TraceBlock] and [Raw2TraceMerge]: what its
      functions do on the files of a [Capture], which is the specification;
      [Raw2TraceSpec]: the conversion of a capture.
    - [Reader]: reader/reader.cpp, reader/file_reader.cpp and the loop of
      analyzer.cpp.  [ReaderRun], [ReaderSpec]: the references of a converted
      capture; [CaptureSim]: the simulator on them.
    - [IoPrint]: [our_vsnprintf] of src/Simulator/core/iox.h, in its narrow
      version.  [IoScan]: [our_vsscanf] and [parse_int] of core/io.c.
      [IoPrintProof], [IoRound] and [IoItems]: digits, the size of the buffer,
      formats as lists of items; [IoSpec]: their theorems.
    - [ModTrack]: src/Simulator/ext/drcovlib/modules.c, the tracking of modules:
      a table of segments, the global cache and one for each thread.
      [ModTrackSpec]: its refinement.  [ModList]: the same file's list of
      modules, printed and read.  [ModListPrint], [ModListSpec] and
      [ModListMain]: its theorems, for callbacks of the class [CustomCodec].
    - [ModuleMapper]: the custom field that offline_instru_t
      (tracer/instru_offline.cpp) puts into the list, and module_mapper_t
      (tracer/raw2trace.cpp), which reads the list and maps the modules.
      [ModuleCodec]: the field as an instance of [CustomCodec]; [ModuleSpec]:
      the way of an index from the traced process to the converter.
    - [ReuseDistance]: tools/reuse_distance.h and .cpp, a list of cache lines in
      the order of their last references with a skip list over it, in a store
      of nodes.  [ReuseProof]: its loops; [ReuseList]: it refines a list;
      [ReuseSpec]: the distances.  [Tools]: tools/reuse_time.cpp, histogram.cpp,
      basic_counts.cpp and opcode_mix.cpp; [ToolsSpec]: their theorems.

    ** How the parts meet

    The guest's dump is a header and a line per page, an address and five
    frames ([Pipeline.record]); the translator reads the frames, keeps one
    entry for each, and prints a line per frame; the augmentor replaces the
    fields "NAN" and puts the number of lines in front; the simulator loads
    both tables with fscanf ([PageWalk.load_page_table]).  Before the guest's
    dump is loaded a driver script puts the number of its records in place of
    the header.  In the simulator a reference goes to the TLBs; on a miss the
    two tables are walked, each entry of the host's tables being an access to
    the data cache of the reference's core, except for those that a page-walk
    cache knows; then the reference itself goes to a cache at its physical
    address.  The references come from the traced threads: each writes words of
    blocks, addresses and markers to its file; the converter merges the files
    by time, decodes the blocks and writes the entries; the reader turns them
    into references, which the analyzer's loop hands to the simulator or to
    another tool; the opcode mix finds the instructions' bytes with the module
    mapper.  Below
    the client, DynamoRIO caches the process's memory map in an
    area vector: the functions of memcache.c call those of vmareas.c, which
    call back to compare, copy and free the payloads.  While tracing, the
    client asks the module table of drcovlib for the module of an address; the
    index goes into the trace, and the table at the end into a file, as lines
    that dr_snprintf prints with a field of the tracer's in each.  The converter
    reads that file with dr_sscanf, lets [parse_custom_module_data] take the
    field, and maps the modules; an index of the trace is an index there.

    ** What the theorems show

    - Dumper: a complete read prints one line per mapped page, huge pages
      included; the frame of an EPT entry; the selection of a process.
    - Translator: however the dump is cut into writes, the table ends up with
      the translation of every frame named, each as a reference page walk has
      it; reading the output from any position; the choice of guest RAM.
    - Augmentor and pipeline: the records come out the same with every missing
      level replaced by a frame of its own, from the guest's tables to the
      file.
    - Loader: the table in the simulator is the guest's, and the translator's.
    - Caches and TLBs: no sequence of operations fails an assertion; which
      level answers; what a request leaves; what LRU keeps and what it does not.
    - Walk: the simulator performs the two-dimensional walk of the
      architecture ([WalkSpec.walk_plan]), entry by entry; a whole trace is
      simulated to its end and its walks are counted.
    - Containers: the hash table refines a map, the vector a list; persistence,
      range removal, iteration; allocation of table entries.
    - Area vectors: the interface refines a sorted list of areas, payloads
      included ([VmVectorSpec.vmvector_refines_areas]); with any flags and
      callbacks the areas stay sorted and disjoint and cover what was added
      last; the search and the iterator.
    - Address-space cache: any history of a process's memory keeps the map it
      describes, without dangling payloads or leaks; what a query answers.
    - Trace: the converter ends on any files and converts every capture's
      without an error into its segments in the order of their times; reading
      it back gives the references of the capture with their threads; the
      simulator runs on them; what fits the tracer's words comes back.
    - Formatted text: [our_vsnprintf] ends, writes inside its buffer only and
      gives a smaller buffer a prefix; what it prints of numbers [our_vsscanf]
      reads back; the scan's count is that of the values stored.
    - Modules: whatever is loaded, unloaded and cached, a look-up finds the
      segment of a loaded module; the list reads back whatever stands behind
      it, and what a buffer of any size gets of it; the dump to a file ends;
      an index and a base that a look-up gave while tracing mean the same
      module in the converter; the search with a cache is the search.
    - Tools: every reuse distance is the number of different lines since, with
      the counts of each line, whatever the skip list; reuse times; totals; the
      opcodes of the instructions, up to the first that is not found.
    - Workload: the B+ tree refines a map and stays balanced; the generator is
      the 48-bit linear congruential one; the main function ends.
    - Where the code does not do what it means to, a theorem says what it does
      instead: the counters left by the module's self-test, the gap array that
      cannot grow, the vector's index 0, the table's later chunks, ranges of
      the tree, the caches' shortcut, LRU, walks one after the other, freed
      payloads that stay in an area, areas of different flags that are merged,
      images behind a gap, and a NUL behind the buffer of a module list;
      examples show others, such as contiguous modules that are loaded again and
      a skip list with a node for each line.

    ** Failure, fuel and bounds

    Undefined behaviour, a failed assertion and a load outside an object are
    outcomes of their own, as are the errors the code returns; a theorem on an
    operation shows which outcome it has.  Recursion that is not structural
    takes fuel, and its theorems show that the fuel given is enough: a read of
    the guest's file needs one step per page of the address space; reading the
    translator's output, one per entry and one more; the augmentor, one per
    line; the chains of a hash table and the paths of a tree, their lengths; a
    request to a cache, its depth in the hierarchy and two (the parents, and
    one prefetch), which [length s + 2] covers; a TLB, 3; adding a range, which
    recurses behind the area it met, the number of areas and one; a binary
    search, their number and one; an update that keeps types, the length of
    its range and one; the converter, the number of words of its files; the
    analyzer's loop, the number of references and one; printing and scanning, the
    length of the format and one; the dump of a module list doubles its buffer
    for as many rounds as [ModListMain.dump_ends] shows to exist; the loops over
    the lines of the reuse distances, the number of their nodes and one.  Integers are [Z] with
    the wrap-around of their width written where the code computes; the bounds
    that a theorem needs to exclude one (the size of a dump, the number of
    records) are its hypotheses.

    ** Not modelled

    Locking and concurrency (each handler runs alone under its mutex; the
    simulator has one thread), messages and printed statistics, freeing memory
    where nothing is read after it.  The kernel, the C library's allocator and
    process look-up are parameters with their laws.  Of the simulator: the
    constructor from a configuration file, warm-up by the loaded fraction,
    scheduling by CPU markers and contention accesses, all off by default, and
    the ranges, which are loaded and not read.  Of the workload: printing and
    the timing.  Of DynamoRIO's vmareas.c only the vectors are modelled, without
    the lists of fragments and the coarse-grain units that two of its own
    vectors hold; of memcache.c all but the handler of mmap and the walk of
    /proc/self/maps.  Of the formatted text: the wide versions and the text of
    floating-point values, which is a parameter.  Of drcovlib only modules.c
    is modelled, without its registration with drmgr, the freeing of the table,
    reads of the caches during an event, and the columns of Windows.  Of the
    trace's way: the instrumentation that the tracer
    inserts, the decoder (a parameter, with a [Raw2Trace.instr_t] of answers),
    the mapping of a file (a parameter) and the unmapping, the tool that prints
    disassembly, the printing of the others' results,
    compressed files and pipes.  The rest of DynamoRIO, its other extensions, clients,
    tools and tests, the third-party workloads and the shell scripts are
    outside. *)
From stdpp Require Export base list gmap.
From Stdlib Require Export ZArith Lia.
#[global] Open Scope Z_scope.

(** * Machine integers

    A C integer of width w is a [Z]; the wrap-around of each width is
    written out where the source computes.  [u64] is the conversion to
    [unsigned long] / [uint64_t], [u32] to [unsigned int] / [uint32_t],
    [s32] to [int]. *)

Abbreviation w64 := 18446744073709551616 (only parsing).
Abbreviation w32 := 4294967296 (only parsing).

Definition u64 (z : Z) : Z := z mod w64.
Definition u32 (z : Z) : Z := z mod w32.
Definition s32 (z : Z) : Z := (z + 2147483648) mod w32 - 2147483648.

(** [ULONG_MAX], [UINT64_MAX] and [-1UL] are the same value. *)
Definition ULONG_MAX : Z := 18446744073709551615.

Lemma u64_bound z : 0 <= u64 z < w64.
Proof. apply Z.mod_pos_bound. lia. Qed.
Lemma u32_bound z : 0 <= u32 z < w32.
Proof. apply Z.mod_pos_bound. lia. Qed.
Lemma u64_small z : 0 <= z < w64 -> u64 z = z.
Proof. apply Z.mod_small. Qed.
Lemma u32_small z : 0 <= z < w32 -> u32 z = z.
Proof. apply Z.mod_small. Qed.
Lemma s32_small z : -2147483648 <= z < 2147483648 -> s32 z = z.
Proof. intros. unfold s32. rewrite Z.mod_small; lia. Qed.
Lemma u64_idemp z : u64 (u64 z) = u64 z.
Proof. apply Z.mod_mod. lia. Qed.
Lemma u64_add_l a b : u64 (u64 a + b) = u64 (a + b).
Proof. apply Zplus_mod_idemp_l. Qed.

Create HintDb words.
#[export] Hint Rewrite u64_idemp u64_add_l : words.
#[export] Hint Resolve u64_bound u32_bound : words.

(** * Results of C code

    [Undef] is the outcome of a run that leaves the language's defined
    behaviour (a load through NULL, an access outside an array). *)

Inductive cres (A : Type) : Type :=
| Val (a : A)
| Undef.
Arguments Val {A} a.
Arguments Undef {A}.

#[export] Instance cres_ret : MRet cres := fun A a => Val a.
#[export] Instance cres_bind : MBind cres :=
  fun A B f m => match m with Val a => f a | Undef => Undef end.

Definition cres_of_option {A} (o : option A) : cres A :=
  match o with Some a => Val a | None => Undef end.

#[export] Instance cres_eq_dec `{EqDecision A} : EqDecision (cres A).
Proof. solve_decision. Defined.

(** * Shifts and masks as division and remainder *)

Lemma shiftr_div a n : 0 <= n -> Z.shiftr a n = a / 2 ^ n.
Proof. apply Z.shiftr_div_pow2. Qed.
Lemma shiftl_mul a n : 0 <= n -> Z.shiftl a n = a * 2 ^ n.
Proof. apply Z.shiftl_mul_pow2. Qed.
Lemma land_mask a n : 0 <= n -> Z.land a (2 ^ n - 1) = a mod 2 ^ n.
Proof.
  intros. replace (2 ^ n - 1) with (Z.ones n) by (rewrite Z.ones_equiv; lia).
  by apply Z.land_ones.
Qed.

(** [ALIGN_FORWARD]: the next multiple of a power of two. *)
Definition align_forward (x alignment : Z) : Z := Z.land (u64 (x + (alignment - 1))) (Z.lnot (alignment - 1)).

Lemma align_forward_spec x n : 0 <= n -> 0 <= x -> x + 2 ^ n <= w64 ->
  x <= align_forward x (2 ^ n) < x + 2 ^ n /\ (2 ^ n | align_forward x (2 ^ n)).
Proof.
  intros Hn Hx Hb. pose proof (Z.pow_pos_nonneg 2 n ltac:(lia) Hn). unfold align_forward.
  rewrite u64_small by lia. set (y := x + (2 ^ n - 1)).
  assert (Z.land y (Z.lnot (2 ^ n - 1)) = y / 2 ^ n * 2 ^ n) as ->.
  { replace (2 ^ n - 1) with (Z.ones n) by (rewrite Z.ones_equiv; lia).
    rewrite <- Z.ldiff_land, Z.ldiff_ones_r by lia. by rewrite shiftr_div, shiftl_mul by lia. }
  pose proof (Z.div_mod y (2 ^ n) ltac:(lia)). pose proof (Z.mod_pos_bound y (2 ^ n) ltac:(lia)).
  split; [unfold y in *; nia|]. by exists (y / 2 ^ n).
Qed.

(** Two numbers in the same block of size [s], one of them below an aligned
    bound, lie on the same side of it. *)
Lemma div_between a b s q :
  0 < s -> q * s <= a < (q + 1) * s -> q * s <= b < (q + 1) * s -> a / s = b / s.
Proof.
  intros Hs Ha Hb.
  assert (a / s = q) as -> by (symmetry; apply (Z.div_unique_pos a s q (a - q * s)); lia).
  apply (Z.div_unique_pos b s q (b - q * s)); lia.
Qed.

Lemma div_block a s : 0 < s -> (a / s) * s <= a < (a / s + 1) * s.
Proof.
  intros. pose proof (Z.div_mod a s ltac:(lia)).
  pose proof (Z.mod_pos_bound a s ltac:(lia)). nia.
Qed.

(** A coarser block determines nothing finer, but a finer block determines
    the coarser ones. *)
Lemma div_coarser a b s t :
  0 < s -> 0 < t -> (s | t) -> a / s = b / s -> a / t = b / t.
Proof.
  intros Hs Ht [k ->] E.
  assert (0 < k) by nia.
  rewrite (Z.mul_comm k s), <- !Z.div_div by lia. by rewrite E.
Qed.

(** * Lists *)

(** Adjacent elements are strictly increasing. *)
Fixpoint incr (l : list Z) : bool :=
  match l with
  | a :: ((b :: _) as t) => (a <? b) && incr t
  | _ => true
  end.

Lemma incr_cons a l : incr (a :: l) = true <-> (forall x, x ∈ l -> a < x) /\ incr l = true.
Proof.
  revert a; induction l as [|b l IH]; intros a.
  - split; [|done]. intros _; split; [|done]. intros x Hx. by apply elem_of_nil in Hx.
  - change (incr (a :: b :: l)) with ((a <? b) && incr (b :: l)).
    rewrite andb_true_iff, Z.ltb_lt. split.
    + intros [H1 H2]. split; [|done]. pose proof (proj1 (proj1 (IH b) H2)) as H3.
      intros x Hx. apply elem_of_cons in Hx as [->|Hx]; [done|]. specialize (H3 x Hx). lia.
    + intros [H1 H2]. split; [|done]. apply H1. apply elem_of_cons; by left.
Qed.

Lemma incr_app l1 l2 :
  incr (l1 ++ l2) = true <->
  incr l1 = true /\ incr l2 = true /\ (forall x y, x ∈ l1 -> y ∈ l2 -> x < y).
Proof.
  induction l1 as [|a l1 IH]; cbn [app].
  - split; [|naive_solver]. intros H. split_and!; try done.
    intros x y Hx. by apply elem_of_nil in Hx.
  - rewrite !incr_cons, IH. setoid_rewrite elem_of_app. setoid_rewrite elem_of_cons.
    naive_solver.
Qed.

Lemma incr_NoDup l : incr l = true -> NoDup l.
Proof.
  induction l as [|a l IH]; [constructor|]. rewrite incr_cons. intros [H1 H2].
  constructor; [|by apply IH]. intros Hin. specialize (H1 _ Hin). lia.
Qed.

Lemma incr_seqZ a n : incr (seqZ a n) = true.
Proof.
  assert (H : forall k b, incr (seqZ b (Z.of_nat k)) = true).
  { induction k as [|k IH]; intros b; [done|]. rewrite seqZ_cons by lia. apply incr_cons. split.
    - intros x Hx. apply elem_of_seqZ in Hx. lia.
    - replace (Z.pred (Z.of_nat (S k))) with (Z.of_nat k) by lia. apply IH. }
  destruct (Z.le_gt_cases n 0); [by rewrite seqZ_nil|]. rewrite <- (Z2Nat.id n) by lia. apply H.
Qed.

(** A [filter] by a boolean test, as the loops of the code compute it. *)
Lemma filter_bool_app {A} (p : A -> bool) (l1 l2 : list A) :
  List.filter p (l1 ++ l2) = List.filter p l1 ++ List.filter p l2.
Proof. apply List.filter_app. Qed.

(** Number of elements passing a boolean test. *)
Definition countb {A} (p : A -> bool) (l : list A) : Z := Z.of_nat (length (List.filter p l)).

Lemma countb_cons {A} (p : A -> bool) a l :
  countb p (a :: l) = (if p a then 1 else 0) + countb p l.
Proof. unfold countb. cbn. destruct (p a); cbn [length]; lia. Qed.
Lemma countb_app {A} (p : A -> bool) l1 l2 : countb p (l1 ++ l2) = countb p l1 + countb p l2.
Proof. unfold countb. rewrite List.filter_app, length_app. lia. Qed.
Lemma countb_one {A} (p : A -> bool) a : countb p [a] = if p a then 1 else 0.
Proof. unfold countb. cbn. by destruct (p a). Qed.
Lemma countb_le {A} (p : A -> bool) l : countb p l <= Z.of_nat (length l).
Proof. induction l; [done|]. rewrite countb_cons. cbn [length]. case_match; lia. Qed.
Lemma countb_nonneg {A} (p : A -> bool) l : 0 <= countb p l.
Proof. unfold countb. lia. Qed.

(** Destruct the matched boolean or option in the goal, keeping the equation. *)
Ltac case_eqn E :=
  match goal with
  | |- context [if ?b then _ else _] => destruct b eqn:E
  | |- context [match ?x with _ => _ end] => destruct x eqn:E
  end.

(** Turn boolean comparisons on [Z] in the context into propositions. *)
Ltac zbool :=
  repeat match goal with
  | H : (_ <? _) = true |- _ => apply Z.ltb_lt in H
  | H : (_ <? _) = false |- _ => apply Z.ltb_ge in H
  | H : (_ <=? _) = true |- _ => apply Z.leb_le in H
  | H : (_ <=? _) = false |- _ => apply Z.leb_gt in H
  | H : (_ =? _) = true |- _ => apply Z.eqb_eq in H
  | H : (_ =? _) = false |- _ => apply Z.eqb_neq in H
  | H : (_ && _) = true |- _ => apply andb_true_iff in H; destruct H
  | H : (_ || _) = false |- _ => apply orb_false_iff in H; destruct H
  | H : negb _ = true |- _ => apply negb_true_iff in H
  | H : negb _ = false |- _ => apply negb_false_iff in H
  end.
