(* ===== verification/Outcome.v ===== *)
(** * Outcomes

    A run of a program without an environment of its own: a value, an abort (a
    failed assertion or an access outside an object), or no fuel left. *)
From S2P Require Export Prelude.

Inductive outcome (A : Type) : Type :=
| Ret (a : A)
| Abort
| Out_of_fuel.
Arguments Ret {A} a.
Arguments Abort {A}.
Arguments Out_of_fuel {A}.

#[export] Instance outcome_ret : MRet outcome := fun A a => Ret a.
#[export] Instance outcome_bind : MBind outcome :=
  fun A B f m => match m with Ret a => f a | Abort => Abort | Out_of_fuel => Out_of_fuel end.

Definition or_abort {A} (o : option A) : outcome A := match o with Some a => Ret a | None => Abort end.
