(* ===== verification/CText.v ===== *)
(** * C strings, number formatting and scanning

    The library routines the sources call on text, as functions on lists of
    characters: [%lx], [%016lx], [%d] and [%16d] of the printf family, the
    [%lx] conversion of the kernel's and of the C library's scanf family,
    [strtoull] base 16, [kstrtoint] base 10, [strchr], [strrchr], [strtok]
    with one separator and [fgets].  A C string is the part of a buffer before
    its first NUL ([cstr]).  The lemmas are the print/scan round trips the
    components share. *)
From Stdlib Require Export Ascii.
From Stdlib Require String.
From S2P Require Export Prelude.
Export String (string(..)).
Export (notations) String.

Abbreviation text := (list ascii).

Definition s2l (s : string) : text := String.list_ascii_of_string s.
Arguments s2l s%_string.


#[export] Instance ascii_eq_dec : EqDecision ascii := ascii_dec.

Definition code (c : ascii) : Z := Z.of_N (N_of_ascii c).
Definition NUL : ascii := "000"%char.
Definition NL : ascii := "010"%char.
Definition COMMA : ascii := ","%char.

Definition is_space (c : ascii) : bool := ((9 <=? code c) && (code c <=? 13)) || (code c =? 32).

(** ** Digits *)

Definition hexval (c : ascii) : option Z :=
  let k := code c in
  if (48 <=? k) && (k <=? 57) then Some (k - 48)
  else if (97 <=? k) && (k <=? 102) then Some (k - 87)
  else if (65 <=? k) && (k <=? 70) then Some (k - 55)
  else None.

Definition decval (c : ascii) : option Z :=
  let k := code c in if (48 <=? k) && (k <=? 57) then Some (k - 48) else None.

Definition hexchar (d : Z) : ascii :=
  ascii_of_N (Z.to_N (if d <? 10 then 48 + d else 87 + d)).

(** ** printf *)

(** [k] digits of [n] in base 16 / base 10, most significant first. *)
Fixpoint hex_pad (k : nat) (n : Z) : text :=
  match k with
  | O => []
  | S k => hex_pad k (n / 16) ++ [hexchar (n mod 16)]
  end.

Fixpoint dec_pad (k : nat) (n : Z) : text :=
  match k with
  | O => []
  | S k => dec_pad k (n / 10) ++ [hexchar (n mod 10)]
  end.

(** Drop leading zeros, keeping one digit. *)
Fixpoint strip0 (l : text) : text :=
  match l with
  | c :: ((_ :: _) as t) => if decide (c = "0"%char) then strip0 t else l
  | _ => l
  end.

(** [%lx] and [%016lx] of an [unsigned long]. *)
Definition fmt_lx (n : Z) : text := strip0 (hex_pad 16 n).
Definition fmt_016lx (n : Z) : text := hex_pad 16 n.

(** [%d] of an [int]; [%16d] pads with blanks to sixteen columns. *)
Definition fmt_d (n : Z) : text :=
  if n <? 0 then "-"%char :: strip0 (dec_pad 10 (- n)) else strip0 (dec_pad 10 n).
(** [%lu] of an [unsigned long]. *)
Definition fmt_lu (n : Z) : text := strip0 (dec_pad 20 n).
Definition pad_left (w : nat) (l : text) : text := repeat " "%char (w - length l) ++ l.
Definition fmt_16d (n : Z) : text := pad_left 16 (fmt_d n).

(** ** scanf and strtoull *)

Fixpoint skip_spaces (l : text) : text :=
  match l with c :: t => if is_space c then skip_spaces t else l | [] => [] end.

(** The maximal run of digits at the head of [l]: its value and what follows. *)
Fixpoint hex_run (acc : Z) (l : text) : Z * text :=
  match l with
  | c :: t => match hexval c with Some d => hex_run (acc * 16 + d) t | None => (acc, l) end
  | [] => (acc, [])
  end.

Fixpoint dec_run (acc : Z) (l : text) : Z * text :=
  match l with
  | c :: t => match decval c with Some d => dec_run (acc * 10 + d) t | None => (acc, l) end
  | [] => (acc, [])
  end.

(** A base-16 conversion may carry a [0x] prefix. *)
Definition drop_0x (l : text) : text :=
  match l with
  | c :: x :: t =>
      if decide (c = "0"%char) then
        if decide (x = "x"%char \/ x = "X"%char) then t else l
      else l
  | _ => l
  end.

Definition is_hex (c : ascii) : bool := match hexval c with Some _ => true | None => false end.

(** One [%lx] conversion of the kernel's sscanf: blanks, then digits; the
    value wraps. *)
Definition kscan_lx (l : text) : option (Z * text) :=
  match skip_spaces l with
  | c :: t =>
      if is_hex c then let '(v, r) := hex_run 0 (drop_0x (c :: t)) in Some (u64 v, r) else None
  | [] => None
  end.

(** [sscanf (l, "%lx,%lx,...")] with [n] conversions: the values converted
    before the first mismatch. *)
Fixpoint kscan_fields (n : nat) (l : text) : list Z :=
  match n with
  | O => []
  | S n' =>
      match kscan_lx l with
      | None => []
      | Some (v, r) =>
          v :: match n', r with
               | O, _ => []
               | _, c :: r' => if decide (c = COMMA) then kscan_fields n' r' else []
               | _, [] => []
               end
      end
  end.

(** The C library saturates where the kernel wraps, and accepts a sign. *)
Definition sat64 (v : Z) : Z := if w64 <=? v then ULONG_MAX else v.

Definition strtoull16 (l : text) : Z :=
  match skip_spaces l with
  | c :: t =>
      if decide (c = "-"%char) then
        let v := fst (hex_run 0 (drop_0x t)) in if w64 <=? v then ULONG_MAX else u64 (- v)
      else if decide (c = "+"%char) then sat64 (fst (hex_run 0 (drop_0x t)))
      else sat64 (fst (hex_run 0 (drop_0x (c :: t))))
  | [] => 0
  end.

(** [kstrtoint (l, 10, &v)]: the whole string is an optional sign, at least
    one digit and at most one trailing newline, and the value fits an [int];
    blanks are refused. *)
Definition kstrto_digits (l : text) : option Z :=
  match l with
  | c :: _ =>
      match decval c with
      | None => None
      | Some _ =>
          let '(v, r) := dec_run 0 l in
          match r with
          | [] => Some v
          | [x] => if decide (x = NL) then Some v else None
          | _ => None
          end
      end
  | [] => None
  end.

Definition kstrtoint (l : text) : option Z :=
  let signed :=
    match l with
    | c :: t =>
        if decide (c = "-"%char) then Z.opp <$> kstrto_digits t
        else if decide (c = "+"%char) then kstrto_digits t else kstrto_digits l
    | [] => None
    end in
  match signed with
  | Some v => if (-2147483648 <=? v) && (v <=? 2147483647) then Some v else None
  | None => None
  end.

(** ** String functions *)

Fixpoint cstr (l : text) : text :=
  match l with c :: t => if decide (c = NUL) then [] else c :: cstr t | [] => [] end.

(** [strchr]: what precedes and what follows the first [c]. *)
Fixpoint split_at (c : ascii) (l : text) : option (text * text) :=
  match l with
  | [] => None
  | x :: t =>
      if decide (x = c) then Some ([], t)
      else match split_at c t with Some (a, b) => Some (x :: a, b) | None => None end
  end.

(** [strrchr]: the text up to and including the last [c], and what follows. *)
Fixpoint rsplit_at (c : ascii) (l : text) : option (text * text) :=
  match l with
  | [] => None
  | x :: t =>
      match rsplit_at c t with
      | Some (a, b) => Some (x :: a, b)
      | None => if decide (x = c) then Some ([x], t) else None
      end
  end.

(** The lines of [l], each without its newline, and the text after the last
    newline: successive [strchr (line, '\n')]. *)
Fixpoint lines_of (l : text) : list text * text :=
  match l with
  | [] => ([], [])
  | x :: t =>
      let '(ls, r) := lines_of t in
      if decide (x = NL) then ([] :: ls, r)
      else match ls with
           | [] => ([], x :: r)
           | a :: ls' => ((x :: a) :: ls', r)
           end
  end.

(** [strtok (l, sep)] repeated to the end: the non-empty fields. *)
Fixpoint strtok (sep : ascii) (l : text) : list text :=
  match l with
  | [] => []
  | x :: t =>
      if decide (x = sep) then strtok sep t
      else match t with
           | [] => [[x]]
           | y :: _ =>
               if decide (y = sep) then [x] :: strtok sep t
               else match strtok sep t with
                    | a :: r => (x :: a) :: r
                    | [] => [[x]]
                    end
           end
  end.

(** [fgets] with room for [n] characters: the characters read, up to and
    including a newline, and the rest of the stream. *)
Fixpoint fgets (n : nat) (l : text) : text * text :=
  match n, l with
  | O, _ => ([], l)
  | _, [] => ([], [])
  | S n', x :: t =>
      if decide (x = NL) then ([x], t) else let '(a, b) := fgets n' t in (x :: a, b)
  end.

(** ** Lemmas: digits *)

Definition all_hex (l : text) : Prop := Forall (fun c => is_hex c = true) l.
Definition stops (l : text) : Prop := match l with c :: _ => hexval c = None | [] => True end.

Lemma small_digit (P : Z -> Prop) (b : Z) (n : nat) d :
  b = Z.of_nat n -> 0 <= d < b -> (forall i, (i < n)%nat -> P (Z.of_nat i)) -> P d.
Proof. intros -> Hd H. replace d with (Z.of_nat (Z.to_nat d)) by lia. apply H. lia. Qed.

Ltac enum_digit := intros i Hi; do 16 (destruct i as [|i]; [first [exfalso; clear -Hi; lia | vm_compute; split_and?; congruence]|]); exfalso; lia.

Lemma hexval_hexchar d : 0 <= d < 16 -> hexval (hexchar d) = Some d.
Proof. intros H. pattern d. apply (small_digit _ 16 16 d eq_refl H). enum_digit. Qed.
Lemma decval_hexchar d : 0 <= d < 10 -> decval (hexchar d) = Some d.
Proof. intros H. pattern d. apply (small_digit _ 10 10 d eq_refl H). enum_digit. Qed.
Lemma hexchar_plain d : 0 <= d < 16 ->
  is_space (hexchar d) = false /\ hexchar d <> "x"%char /\ hexchar d <> "X"%char /\
  hexchar d <> COMMA /\ hexchar d <> NL /\ hexchar d <> NUL /\ hexchar d <> "-"%char /\
  hexchar d <> "+"%char /\ hexchar d <> "N"%char.
Proof. intros H. pattern d. apply (small_digit _ 16 16 d eq_refl H). enum_digit. Qed.

Lemma hex_run_pad k n acc r :
  0 <= n < 16 ^ Z.of_nat k -> hex_run acc (hex_pad k n ++ r) = hex_run (acc * 16 ^ Z.of_nat k + n) r.
Proof.
  revert n acc r. induction k as [|k IH]; intros n acc r Hn.
  - change (16 ^ Z.of_nat 0) with 1 in *. cbn [hex_pad app]. f_equal. lia.
  - rewrite Nat2Z.inj_succ, Z.pow_succ_r in * by lia. cbn [hex_pad].
    rewrite <- app_assoc, IH by (split; [apply Z.div_pos|apply Z.div_lt_upper_bound]; lia).
    cbn [app hex_run]. rewrite hexval_hexchar by (apply Z.mod_pos_bound; lia). f_equal.
    pose proof (Z.div_mod n 16 ltac:(lia)). lia.
Qed.

Lemma dec_run_pad k n acc r :
  0 <= n < 10 ^ Z.of_nat k -> dec_run acc (dec_pad k n ++ r) = dec_run (acc * 10 ^ Z.of_nat k + n) r.
Proof.
  revert n acc r. induction k as [|k IH]; intros n acc r Hn.
  - change (10 ^ Z.of_nat 0) with 1 in *. cbn [dec_pad app]. f_equal. lia.
  - rewrite Nat2Z.inj_succ, Z.pow_succ_r in * by lia. cbn [dec_pad].
    rewrite <- app_assoc, IH by (split; [apply Z.div_pos|apply Z.div_lt_upper_bound]; lia).
    cbn [app dec_run]. rewrite decval_hexchar by (apply Z.mod_pos_bound; lia). f_equal.
    pose proof (Z.div_mod n 10 ltac:(lia)). lia.
Qed.

Lemma strip0_cons (c : ascii) t :
  strip0 (c :: t) = match t with [] => [c] | _ => if decide (c = "0"%char) then strip0 t else c :: t end.
Proof. by destruct t. Qed.

Lemma hex_run_strip0 l r : hex_run 0 (strip0 l ++ r) = hex_run 0 (l ++ r).
Proof.
  induction l as [|c t IH]; [done|]. rewrite strip0_cons.
  destruct t as [|c' t']; [done|]. case_decide as Hc; [|done].
  rewrite IH. subst c. reflexivity.
Qed.

Lemma dec_run_strip0 l r : dec_run 0 (strip0 l ++ r) = dec_run 0 (l ++ r).
Proof.
  induction l as [|c t IH]; [done|]. rewrite strip0_cons.
  destruct t as [|c' t']; [done|]. case_decide as Hc; [|done].
  rewrite IH. subst c. reflexivity.
Qed.

(** Any property of every character of [l] holds of what [strip0] keeps. *)
Lemma Forall_strip0 (P : ascii -> Prop) l : Forall P l -> Forall P (strip0 l).
Proof.
  induction 1 as [|c t Hc Ht IH]; [constructor|]. rewrite strip0_cons.
  destruct t; [by constructor|]. case_decide; [done|by constructor].
Qed.
Lemma strip0_nonnil l : l <> [] -> strip0 l <> [].
Proof.
  induction l as [|c t IH]; [done|]. intros _. rewrite strip0_cons.
  destruct t; [done|]. case_decide; [by apply IH|done].
Qed.

Lemma Forall_hex_pad (P : ascii -> Prop) k n :
  (forall d, 0 <= d < 16 -> P (hexchar d)) -> Forall P (hex_pad k n).
Proof.
  intros HP. revert n. induction k as [|k IH]; intros n; cbn; [constructor|].
  apply Forall_app; split; [apply IH|]. constructor; [|constructor].
  apply HP, Z.mod_pos_bound. lia.
Qed.
Lemma Forall_dec_pad (P : ascii -> Prop) k n :
  (forall d, 0 <= d < 10 -> P (hexchar d)) -> Forall P (dec_pad k n).
Proof.
  intros HP. revert n. induction k as [|k IH]; intros n; cbn; [constructor|].
  apply Forall_app; split; [apply IH|]. constructor; [|constructor].
  apply HP, Z.mod_pos_bound. lia.
Qed.
Lemma hex_pad_nonnil k n : hex_pad (S k) n <> [].
Proof. cbn. by destruct (hex_pad k _). Qed.
Lemma dec_pad_nonnil k n : dec_pad (S k) n <> [].
Proof. cbn. by destruct (dec_pad k _). Qed.
Lemma length_hex_pad k n : length (hex_pad k n) = k.
Proof. revert n. induction k; intros; cbn; [done|]. rewrite length_app, IHk. cbn. lia. Qed.

(** The characters a number is printed with. *)
Definition digit_char (c : ascii) : Prop := exists d, 0 <= d < 16 /\ c = hexchar d.

Lemma digits_hex_pad k n : Forall digit_char (hex_pad k n).
Proof. apply Forall_hex_pad. intros d ?. by exists d. Qed.
Lemma digits_fmt_lx n : Forall digit_char (fmt_lx n).
Proof. apply Forall_strip0, digits_hex_pad. Qed.
Lemma fmt_lx_nonnil n : fmt_lx n <> [].
Proof. apply strip0_nonnil, hex_pad_nonnil. Qed.

Lemma digit_char_facts c : digit_char c ->
  is_hex c = true /\ is_space c = false /\ c <> "x"%char /\ c <> "X"%char /\
  c <> COMMA /\ c <> NL /\ c <> NUL /\ c <> "-"%char /\ c <> "+"%char /\ c <> "N"%char.
Proof.
  intros (d & Hd & ->). unfold is_hex. rewrite hexval_hexchar by done.
  pose proof (hexchar_plain d Hd). tauto.
Qed.

Lemma hex_run_stop acc r : stops r -> hex_run acc r = (acc, r).
Proof. destruct r as [|c t]; cbn; [done|]. by intros ->. Qed.

(** ** Lemmas: scanning what was printed *)

(** The text after a printed field: the end, a comma or a newline. *)
Definition sep_start (r : text) : Prop :=
  match r with [] => True | c :: _ => c = COMMA \/ c = NL end.

Lemma sep_start_stops r : sep_start r -> stops r.
Proof. destruct r as [|c t]; [done|]. by intros [->| ->]. Qed.

Lemma digits_skip_spaces l r : l <> [] -> Forall digit_char l -> skip_spaces (l ++ r) = l ++ r.
Proof.
  intros Hl HF. destruct HF as [|c t Hc Ht]; [done|]. cbn.
  by rewrite (proj1 (proj2 (digit_char_facts c Hc))).
Qed.

Lemma digits_drop_0x l r : l <> [] -> Forall digit_char l -> sep_start r -> drop_0x (l ++ r) = l ++ r.
Proof.
  intros Hl HF Hr. destruct HF as [|c t Hc Ht]; [done|].
  destruct Ht as [|c' t' Hc' Ht']; cbn.
  - destruct r as [|x r']; [done|]. case_decide; [|done].
    by destruct Hr as [->| ->].
  - case_decide; [|done]. destruct (digit_char_facts c' Hc') as (_ & _ & H1 & H2 & _).
    case_decide; [naive_solver|done].
Qed.

Lemma kscan_digits l r v :
  l <> [] -> Forall digit_char l -> sep_start r -> hex_run 0 (l ++ r) = (v, r) ->
  kscan_lx (l ++ r) = Some (u64 v, r).
Proof.
  intros Hl HF Hr Hv. unfold kscan_lx. rewrite digits_skip_spaces by done.
  destruct l as [|c t]; [done|]. cbn [app].
  inversion_clear HF as [|? ? Hc Ht]. rewrite (proj1 (digit_char_facts c Hc)).
  change (c :: t ++ r) with ((c :: t) ++ r). rewrite digits_drop_0x by (try constructor; done).
  by rewrite Hv.
Qed.

Lemma pow_16_16 : 16 ^ Z.of_nat 16 = w64. Proof. reflexivity. Qed.

Lemma hex_run_fmt_016lx n r : 0 <= n < w64 -> stops r -> hex_run 0 (fmt_016lx n ++ r) = (n, r).
Proof.
  intros Hn Hr. unfold fmt_016lx. rewrite hex_run_pad by (rewrite pow_16_16; lia).
  rewrite hex_run_stop by done. f_equal; lia.
Qed.
Lemma hex_run_fmt_lx n r : 0 <= n < w64 -> stops r -> hex_run 0 (fmt_lx n ++ r) = (n, r).
Proof. intros. unfold fmt_lx. rewrite hex_run_strip0. by apply hex_run_fmt_016lx. Qed.

Lemma kscan_fmt_lx n r : 0 <= n < w64 -> sep_start r -> kscan_lx (fmt_lx n ++ r) = Some (n, r).
Proof.
  intros Hn Hr. erewrite kscan_digits.
  - by rewrite u64_small.
  - apply fmt_lx_nonnil.
  - apply digits_fmt_lx.
  - done.
  - by apply hex_run_fmt_lx, sep_start_stops.
Qed.

Lemma strtoull16_fmt_lx n r : 0 <= n < w64 -> sep_start r -> strtoull16 (fmt_lx n ++ r) = n.
Proof.
  intros Hn Hr. unfold strtoull16.
  pose proof (fmt_lx_nonnil n) as Hl. pose proof (digits_fmt_lx n) as HF.
  rewrite digits_skip_spaces by done.
  destruct (fmt_lx n) as [|c t] eqn:E; [done|]. cbn [app].
  pose proof (Forall_inv HF) as Hc.
  destruct (digit_char_facts c Hc) as (_ & _ & _ & _ & _ & _ & _ & H1 & H2 & _).
  rewrite !decide_False by done. change (c :: t ++ r) with ((c :: t) ++ r).
  rewrite digits_drop_0x by done. rewrite <- E, hex_run_fmt_lx by (auto using sep_start_stops).
  cbn. unfold sat64. destruct (_ <=? _) eqn:E2; [apply Z.leb_le in E2; lia|done].
Qed.

(** Comma-separated fields. *)
Fixpoint joinc (c : ascii) (ls : list text) : text :=
  match ls with
  | [] => []
  | [a] => a
  | a :: t => a ++ c :: joinc c t
  end.

Lemma join_cons c a b t : joinc c (a :: b :: t) = a ++ c :: joinc c (b :: t).
Proof. done. Qed.

Lemma kscan_fields_join vs r :
  vs <> [] -> Forall (fun v => 0 <= v < w64) vs -> sep_start r ->
  (match r with c :: _ => c = NL | [] => True end) ->
  kscan_fields (length vs) (joinc COMMA (map fmt_lx vs) ++ r) = vs.
Proof.
  intros Hne HF Hr Hnl. revert Hne. induction HF as [|v vs Hv HF IH]; [done|]. intros _.
  destruct vs as [|w vs]; cbn [map length].
  - cbn [joinc kscan_fields]. by rewrite kscan_fmt_lx.
  - rewrite join_cons, <- app_assoc. cbn [app].
    cbn [kscan_fields]. rewrite kscan_fmt_lx by (cbn; auto).
    rewrite decide_True by done. f_equal. by apply IH.
Qed.

(** ** Lemmas: splitting *)

Definition no_char (c : ascii) (l : text) : Prop := Forall (fun x => x <> c) l.

Lemma no_char_app c l1 l2 : no_char c (l1 ++ l2) <-> no_char c l1 /\ no_char c l2.
Proof. apply Forall_app. Qed.

Lemma digits_no_char c l : (forall d, digit_char d -> d <> c) -> Forall digit_char l -> no_char c l.
Proof. intros H HF. eapply Forall_impl; [exact HF|]. exact H. Qed.

Lemma fmt_lx_no_comma n : no_char COMMA (fmt_lx n).
Proof. eapply digits_no_char, digits_fmt_lx. intros d Hd. pose proof (digit_char_facts d Hd). tauto. Qed.
Lemma fmt_lx_no_NL n : no_char NL (fmt_lx n).
Proof. eapply digits_no_char, digits_fmt_lx. intros d Hd. pose proof (digit_char_facts d Hd). tauto. Qed.
Lemma fmt_lx_no_NUL n : no_char NUL (fmt_lx n).
Proof. eapply digits_no_char, digits_fmt_lx. intros d Hd. pose proof (digit_char_facts d Hd). tauto. Qed.

Lemma cstr_no_NUL l : no_char NUL l -> cstr l = l.
Proof. induction 1 as [|c t Hc Ht IH]; [done|]. cbn. rewrite decide_False by done. by f_equal. Qed.

Lemma cstr_spec l : no_char NUL (cstr l).
Proof. induction l as [|c t IH]; cbn; [constructor|]. case_decide; by constructor. Qed.

Lemma split_at_app c a b : no_char c a -> split_at c (a ++ c :: b) = Some (a, b).
Proof.
  induction 1 as [|x t Hx Ht IH]; cbn; [by rewrite decide_True|].
  rewrite decide_False by done. by rewrite IH.
Qed.
Lemma split_at_none c l : no_char c l -> split_at c l = None.
Proof. induction 1 as [|x t Hx Ht IH]; cbn; [done|]. rewrite decide_False by done. by rewrite IH. Qed.

Lemma rsplit_at_none c l : rsplit_at c l = None <-> no_char c l.
Proof.
  induction l as [|x t IH]; cbn; [split; [constructor|done]|].
  unfold no_char in *. rewrite Forall_cons. destruct (rsplit_at c t) as [[a b]|].
  - split; [done|]. intros [_ H]. by apply IH in H.
  - case_decide; naive_solver.
Qed.
Lemma rsplit_at_some c l a b : rsplit_at c l = Some (a, b) ->
  l = a ++ b /\ no_char c b /\ exists a', a = a' ++ [c].
Proof.
  revert a b; induction l as [|x t IH]; intros a b; cbn; [done|].
  destruct (rsplit_at c t) as [[a1 b1]|] eqn:E.
  - intros [= <- <-]. destruct (IH _ _ eq_refl) as (-> & ? & a' & ->).
    split_and!; [done|done|]. by exists (x :: a').
  - case_decide; [|done]. intros [= <- <-]. subst. split_and!; [done| |by exists []].
    by apply rsplit_at_none.
Qed.

(** Lines. *)
Lemma lines_of_app_NL a b :
  no_char NL a -> lines_of (a ++ NL :: b) = (a :: fst (lines_of b), snd (lines_of b)).
Proof.
  induction 1 as [|x t Hx Ht IH]; cbn -[NL].
  - destruct (lines_of b) as [ls r]. by rewrite decide_True.
  - rewrite IH. by rewrite decide_False.
Qed.

Lemma lines_of_no_NL l : no_char NL l -> lines_of l = ([], l).
Proof.
  induction 1 as [|x t Hx Ht IH]; cbn -[NL]; [done|]. rewrite IH. by rewrite decide_False.
Qed.

(** Text that ends in a newline is split off from what follows it. *)
Lemma lines_of_app a b :
  lines_of ((a ++ [NL]) ++ b) =
  (fst (lines_of (a ++ [NL])) ++ fst (lines_of b), snd (lines_of b)).
Proof.
  induction a as [|x t IH]; cbn -[NL].
  - destruct (lines_of b). by rewrite decide_True.
  - rewrite IH. destruct (lines_of (t ++ [NL])) as [ls r] eqn:E. cbn [fst].
    case_decide; [done|]. destruct ls as [|a0 ls]; [|done].
    exfalso. clear -E. revert r E. induction t as [|y t IHt]; intros r; cbn -[NL].
    + by rewrite decide_True.
    + destruct (lines_of (t ++ [NL])) as [ls r'] eqn:E'. case_decide; [done|].
      destruct ls; [|done]. intros _. by eapply IHt.
Qed.

Lemma lines_of_snd_NL a : snd (lines_of (a ++ [NL])) = [].
Proof.
  pose proof (lines_of_app a []) as H. rewrite app_nil_r in H. by rewrite H.
Qed.

Definition unlines (ls : list text) : text := concat (map (fun l => l ++ [NL]) ls).

Lemma lines_of_unlines ls : Forall (no_char NL) ls -> lines_of (unlines ls) = (ls, []).
Proof.
  induction 1 as [|l ls Hl HF IH]; [done|]. unfold unlines in *. cbn -[NL].
  rewrite <- app_assoc. change ([NL] ++ ?x) with (NL :: x). rewrite lines_of_app_NL by done. by rewrite IH.
Qed.

Lemma unlines_app l1 l2 : unlines (l1 ++ l2) = unlines l1 ++ unlines l2.
Proof. unfold unlines. by rewrite map_app, concat_app. Qed.

(** [strtok] on a field without separators, and on comma-joined fields. *)
Lemma strtok_none c a : a <> [] -> no_char c a -> strtok c a = [a].
Proof.
  intros Hne HF. induction HF as [|x t Hx Ht IH]; [done|]. cbn. rewrite decide_False by done.
  destruct Ht as [|y t' Hy Ht']; [done|]. rewrite decide_False by done. by rewrite IH.
Qed.

Lemma strtok_app c a b : a <> [] -> no_char c a -> strtok c (a ++ c :: b) = a :: strtok c b.
Proof.
  intros Hne HF. induction HF as [|x t Hx Ht IH]; [done|]. cbn. rewrite decide_False by done.
  destruct Ht as [|y t' Hy Ht']; cbn [app].
  - rewrite decide_True by done. cbn. by rewrite decide_True.
  - rewrite decide_False by done. cbn [app] in IH. by rewrite IH.
Qed.

Lemma strtok_join c ls :
  Forall (fun a => a <> [] /\ no_char c a) ls -> strtok c (joinc c ls) = ls.
Proof.
  induction 1 as [|a ls [Ha Hc] HF IH]; [done|].
  destruct ls as [|b ls]; [by apply strtok_none|].
  rewrite join_cons, strtok_app by done. by rewrite IH.
Qed.

(** [fgets] with enough room reads one whole line. *)
Lemma fgets_line n a b : no_char NL a -> (length a < n)%nat -> fgets n (a ++ NL :: b) = (a ++ [NL], b).
Proof.
  intros HF. revert n. induction HF as [|x t Hx Ht IH]; intros [|n] Hn; cbn -[NL] in *; try lia.
  - by rewrite decide_True.
  - rewrite decide_False by done. rewrite IH by lia. done.
Qed.

Lemma fgets_split n l : fst (fgets n l) ++ snd (fgets n l) = l.
Proof.
  revert n. induction l as [|x t IH]; intros [|n]; cbn -[NL]; try done.
  case_decide; [done|]. specialize (IH n). destruct (fgets n t). cbn in *. by f_equal.
Qed.

Lemma fgets_progress n x t : (0 < n)%nat -> (length (snd (fgets n (x :: t))) <= length t)%nat.
Proof.
  destruct n as [|n]; [lia|]. intros _. cbn -[NL]. case_decide; [done|].
  pose proof (f_equal length (fgets_split n t)) as Hs. rewrite length_app in Hs.
  destruct (fgets n t). cbn in *. lia.
Qed.

Lemma no_char_join (c d : ascii) ls : c <> d -> Forall (no_char d) ls -> no_char d (joinc c ls).
Proof.
  intros Hcd. induction 1 as [|a ls Ha HF IH]; [constructor|].
  destruct ls as [|b ls]; [done|]. rewrite join_cons. apply no_char_app. split; [done|].
  constructor; done.
Qed.

Create HintDb text.
#[export] Hint Resolve fmt_lx_no_comma fmt_lx_no_NL fmt_lx_no_NUL fmt_lx_nonnil : text.

(** ** Lemmas: [%d] and kstrtoint *)

Lemma pow_10_10 : 10 ^ Z.of_nat 10 = 10000000000. Proof. reflexivity. Qed.

Lemma dec_digit_facts c : (exists d, 0 <= d < 10 /\ c = hexchar d) ->
  (exists d, decval c = Some d) /\ digit_char c.
Proof.
  intros (d & Hd & ->). split; [exists d; by apply decval_hexchar|exists d; split; [lia|done]].
Qed.

Lemma fmt_d_digits n : 0 <= n -> fmt_d n <> [] /\ Forall (fun c => exists d, 0 <= d < 10 /\ c = hexchar d) (fmt_d n).
Proof.
  intros Hn. unfold fmt_d. rewrite (proj2 (Z.ltb_ge n 0)) by lia. split.
  - apply strip0_nonnil, dec_pad_nonnil.
  - apply Forall_strip0, Forall_dec_pad. intros d ?. by exists d.
Qed.

Lemma fmt_d_no_NUL n : 0 <= n -> no_char NUL (fmt_d n).
Proof.
  intros Hn. eapply Forall_impl; [apply (proj2 (fmt_d_digits n Hn))|].
  intros c Hc. apply dec_digit_facts in Hc as [_ Hc]. pose proof (digit_char_facts c Hc). tauto.
Qed.

Lemma length_strip0 l : (length (strip0 l) <= length l)%nat.
Proof.
  induction l as [|c t IH]; [done|]. rewrite strip0_cons. destruct t; [done|].
  case_decide; [|done]. cbn [length] in *. lia.
Qed.
Lemma length_dec_pad k n : length (dec_pad k n) = k.
Proof. revert n. induction k; intros; cbn; [done|]. rewrite length_app, IHk. cbn. lia. Qed.
Lemma length_fmt_d n : 0 <= n -> (1 <= length (fmt_d n) <= 10)%nat.
Proof.
  intros Hn. destruct (fmt_d_digits n Hn) as [H1 _]. split; [destruct (fmt_d n); [done|cbn; lia]|].
  unfold fmt_d. rewrite (proj2 (Z.ltb_ge n 0)) by lia.
  etrans; [apply length_strip0|]. by rewrite length_dec_pad.
Qed.

Lemma dec_run_fmt_d n r :
  0 <= n < 10000000000 -> match r with c :: _ => decval c = None | [] => True end ->
  dec_run 0 (fmt_d n ++ r) = (n, r).
Proof.
  intros Hn Hr. unfold fmt_d. rewrite (proj2 (Z.ltb_ge n 0)) by lia.
  rewrite dec_run_strip0, dec_run_pad by (rewrite pow_10_10; lia).
  destruct r as [|c t]; cbn; [f_equal; lia|]. rewrite Hr. f_equal; lia.
Qed.

Lemma kstrtoint_fmt_d n nl :
  0 <= n < 2147483648 -> nl = [] \/ nl = [NL] -> kstrtoint (fmt_d n ++ nl) = Some n.
Proof.
  intros Hn Hnl. destruct (fmt_d_digits n ltac:(lia)) as [Hne HF].
  assert (Hrun : dec_run 0 (fmt_d n ++ nl) = (n, nl)).
  { apply dec_run_fmt_d; [lia|]. by destruct Hnl as [-> | ->]. }
  unfold kstrtoint, kstrto_digits.
  destruct (fmt_d n) as [|c t]; [done|]. apply Forall_inv in HF.
  apply dec_digit_facts in HF as [[d Hd] Hc]. pose proof (digit_char_facts c Hc).
  cbn [app]. rewrite !decide_False by tauto. rewrite Hd. cbn [app] in Hrun. rewrite Hrun.
  destruct Hnl as [-> | ->]; cbn -[NL]; [|rewrite decide_True by done];
    by rewrite (proj2 (Z.leb_le _ n)), (proj2 (Z.leb_le n _)) by lia.
Qed.

(** [kstrtoint] refuses the blank padding of [%16d]. *)
Lemma kstrtoint_fmt_16d n : 0 <= n < 2147483648 -> kstrtoint (fmt_16d n) = None.
Proof.
  intros Hn. unfold fmt_16d, pad_left. pose proof (length_fmt_d n ltac:(lia)) as Hl.
  destruct (16 - length (fmt_d n))%nat as [|k] eqn:E; [lia|]. done.
Qed.

(** Lines of a text read in two pieces. *)
Lemma lines_of_split a b :
  lines_of (a ++ b) =
  (fst (lines_of a) ++ fst (lines_of (snd (lines_of a) ++ b)), snd (lines_of (snd (lines_of a) ++ b))).
Proof.
  induction a as [|x t IH]; cbn -[NL]; [by destruct (lines_of b)|].
  rewrite IH. destruct (lines_of t) as [ls r] eqn:E. cbn [fst snd] in *.
  destruct (lines_of (r ++ b)) as [ls' r'] eqn:E'. cbn [fst snd] in *.
  case_decide as Hx; cbn -[NL]; [by rewrite E'|].
  destruct ls as [|l ls]; cbn -[NL].
  - rewrite E'. rewrite decide_False by done. by destruct ls'.
  - by rewrite E'.
Qed.

Lemma lines_of_rest l : no_char NL (snd (lines_of l)).
Proof.
  induction l as [|x t IH]; cbn -[NL]; [constructor|].
  destruct (lines_of t) as [ls r]. case_decide; cbn in *; [done|].
  destruct ls; cbn; [by constructor|done].
Qed.

Lemma rsplit_lines l a b : rsplit_at NL l = Some (a, b) -> lines_of l = (fst (lines_of a), b).
Proof.
  intros H. apply rsplit_at_some in H as (-> & Hb & a' & ->).
  by rewrite lines_of_app, (lines_of_no_NL b Hb), app_nil_r.
Qed.

Lemma length_lines_of l : (length (fst (lines_of l)) <= length l)%nat.
Proof.
  induction l as [|x t IH]; cbn -[NL]; [done|].
  destruct (lines_of t) as [ls r]. case_decide; cbn in *; [lia|]. destruct ls; cbn in *; lia.
Qed.
