(* ===== verification/PageTable.v ===== *)
(** * The kernel's page-table interface

    The two kernel modules under src/PageTables call the accessors of
    <linux/pgtable.h>: none / bad / leaf / pfn tests per level, the offset
    functions that follow an entry to the next table, the index functions and
    the level sizes.  That code is not part of the repository, so it is the
    class [KernelPT] here; [KernelPTLaws] states what the modules rely on
    (x86-64: 4 KB pages, 512 entries per table below the top, an offset
    depends on the address only through the index bits of its level), and
    [X86_4level] is the concrete four-level instance that discharges it. *)
From S2P Require Export Prelude.

(** A snapshot of the memory the tables live in: the 64-bit word at a pointer. *)
Abbreviation memory := (Z -> Z).

(** Accessors of one table level, on the value of an entry. *)
Record level_ops := {
  l_none : Z -> bool;
  l_bad : Z -> bool;
  l_leaf : Z -> bool;
  l_pfn : Z -> Z
}.

Class KernelPT := {
  PAGE_SIZE : Z; PMD_SIZE : Z; PUD_SIZE : Z; P4D_SIZE : Z; PGDIR_SIZE : Z;
  TASK_SIZE_MAX : Z; PAGE_OFFSET : Z;
  pgd_index : Z -> Z; p4d_index : Z -> Z; pud_index : Z -> Z; pmd_index : Z -> Z; pte_index : Z -> Z;
  pgd_ops : level_ops; p4d_ops : level_ops; pud_ops : level_ops; pmd_ops : level_ops;
  pte_none : Z -> bool; pte_present : Z -> bool; pte_pfn : Z -> Z;
  pgd_val : Z -> Z; p4d_val : Z -> Z; pud_val : Z -> Z; pmd_val : Z -> Z; pte_val : Z -> Z;
  pgd_offset_pgd : Z -> Z -> Z;
  p4d_offset : memory -> Z -> Z -> Z;
  pud_offset : memory -> Z -> Z -> Z;
  pmd_offset : memory -> Z -> Z -> Z;
  pte_offset_map : memory -> Z -> Z -> Z;
  pa : Z -> Z; va : Z -> Z
}.

Class KernelPTLaws `(K : KernelPT) : Prop := {
  page_size : PAGE_SIZE = 4096;
  pmd_size : PMD_SIZE = 512 * PAGE_SIZE;
  pud_size : PUD_SIZE = 512 * PMD_SIZE;
  p4d_size : P4D_SIZE = 512 * PUD_SIZE;
  pgdir_size : (P4D_SIZE | PGDIR_SIZE) /\ (PGDIR_SIZE | w64) /\ 0 < PGDIR_SIZE;
  task_size : 0 < TASK_SIZE_MAX < w64 - PGDIR_SIZE;
  pgd_local root a b : a / PGDIR_SIZE = b / PGDIR_SIZE -> pgd_offset_pgd root a = pgd_offset_pgd root b;
  p4d_local m p a b : a / P4D_SIZE = b / P4D_SIZE -> p4d_offset m p a = p4d_offset m p b;
  pud_local m p a b : a / PUD_SIZE = b / PUD_SIZE -> pud_offset m p a = pud_offset m p b;
  pmd_local m p a b : a / PMD_SIZE = b / PMD_SIZE -> pmd_offset m p a = pmd_offset m p b;
  pgd_index_spec a : pgd_index a = (a / PGDIR_SIZE) mod 512;
  pud_index_spec a : pud_index a = (a / PUD_SIZE) mod 512;
  pmd_index_spec a : pmd_index a = (a / PMD_SIZE) mod 512;
  pte_index_spec a : pte_index a = (a / PAGE_SIZE) mod 512;
  p4d_index_spec a : p4d_index a = (a / P4D_SIZE) mod (PGDIR_SIZE / P4D_SIZE)
}.

(** Four-level paging: the P4D level is folded into the PGD, so the P4D entry
    of an address is its PGD entry. *)
Class FoldedP4D `(K : KernelPT) : Prop := {
  p4d_folded m p a : p4d_offset m p a = p;
  p4d_folded_pfn v : l_pfn p4d_ops v = l_pfn pgd_ops v
}.

Section Sizes.
Context `{KL : KernelPTLaws}.

Lemma page_size_pos : 0 < PAGE_SIZE. Proof. rewrite page_size. lia. Qed.
Lemma sizes_chain :
  0 < PAGE_SIZE /\ (PAGE_SIZE | PMD_SIZE) /\ 0 < PMD_SIZE /\ (PMD_SIZE | PUD_SIZE) /\
  0 < PUD_SIZE /\ (PUD_SIZE | P4D_SIZE) /\ 0 < P4D_SIZE /\ (P4D_SIZE | PGDIR_SIZE) /\ 0 < PGDIR_SIZE.
Proof.
  pose proof pgdir_size as (H1 & _ & H2).
  rewrite p4d_size, pud_size, pmd_size, page_size in *. split_and!; try lia; try done.
  all: eexists; reflexivity.
Qed.
End Sizes.

(** ** Four-level x86-64 *)

Definition PFN_MASK : Z := Z.ones 52 - Z.ones 12.
Definition x86_pfn (v : Z) : Z := Z.shiftr (Z.land v PFN_MASK) 12.
Definition x86_va (p : Z) : Z := u64 (p + 0xffff888000000000).
Definition x86_index (s : Z) (a : Z) : Z := (a / s) mod 512.
Definition x86_level (bad_mask : Z) : level_ops := {|
  l_none v := v =? 0;
  l_bad v := negb (Z.land v 1 =? 1);
  l_leaf v := Z.land v bad_mask =? bad_mask;
  l_pfn := x86_pfn
|}.
Definition x86_top : level_ops := {|
  l_none v := v =? 0; l_bad v := negb (Z.land v 1 =? 1); l_leaf v := false; l_pfn := x86_pfn |}.

#[export] Instance X86_4level : KernelPT := {|
  PAGE_SIZE := 4096; PMD_SIZE := 2097152; PUD_SIZE := 1073741824;
  P4D_SIZE := 549755813888; PGDIR_SIZE := 549755813888;
  TASK_SIZE_MAX := 140737488351232; PAGE_OFFSET := 0xffff888000000000;
  pgd_index := x86_index 549755813888; p4d_index a := 0;
  pud_index := x86_index 1073741824; pmd_index := x86_index 2097152; pte_index := x86_index 4096;
  pgd_ops := x86_top; p4d_ops := x86_top; pud_ops := x86_level 129; pmd_ops := x86_level 129;
  pte_none v := v =? 0; pte_present v := Z.land v 1 =? 1; pte_pfn := x86_pfn;
  pgd_val v := v; p4d_val v := v; pud_val v := v; pmd_val v := v; pte_val v := v;
  pgd_offset_pgd root a := root + 8 * x86_index 549755813888 a;
  p4d_offset m p a := p;
  pud_offset m p a := x86_va (x86_pfn (m p) * 4096) + 8 * x86_index 1073741824 a;
  pmd_offset m p a := x86_va (x86_pfn (m p) * 4096) + 8 * x86_index 2097152 a;
  pte_offset_map m p a := x86_va (x86_pfn (m p) * 4096) + 8 * x86_index 4096 a;
  pa p := u64 (p - 0xffff888000000000); va := x86_va
|}.

#[export] Instance X86_4level_laws : KernelPTLaws X86_4level.
Proof.
  constructor; cbn; unfold x86_index; intros; try done; try congruence.
  - split_and!; [by exists 1|by exists 33554432|lia].
  - by rewrite Z.mod_1_r.
Qed.

#[export] Instance X86_4level_folded : FoldedP4D X86_4level.
Proof. by constructor. Qed.
