(* ===== verification/GuestDump.v ===== *)
(** * The guest page-table dumper (src/PageTables/Guest/dump_pagetables.c)

    The kernel module behind /proc/page_tables: the two table walkers (the
    process walker and the EPT walker), the seq_file operations that drive
    them, the write handler that selects a process, and the kprobe that
    captures a virtual machine's root table. *)
From S2P Require Export CText PageTable.

(** ** Globals of the module *)

Definition PT64_ROOT_5LEVEL : Z := 5.
Definition PT64_ROOT_4LEVEL : Z := 4.

Record globals := {
  selected_pid : Z;
  selected_mode : ascii;
  vmroot_pid : Z;
  vmroot_pgtbl : Z;
  vmroot_direct : bool;
  vmroot_type : Z;
  vmroot_maxphys : Z
}.

Definition init_globals : globals := {|
  selected_pid := 1; selected_mode := "0"%char; vmroot_pid := 1; vmroot_pgtbl := 0;
  vmroot_direct := true; vmroot_type := PT64_ROOT_4LEVEL; vmroot_maxphys := 47 |}.

Definition is_vmroot_mode (g : globals) : bool := bool_decide (selected_mode g = "V"%char).
Definition is_userspace_mode (g : globals) : bool := bool_decide (selected_mode g = "U"%char).

Section Dump.
Context `{K : KernelPT}.

(** ** Printing an entry *)

Definition cr3_pfn (root : Z) : Z := Z.shiftr (pa root) 12.

Definition print_entry (root va p4dp pudp pmdp ptep : Z) : text :=
  if ptep =? 0 then []
  else fmt_016lx va ++ COMMA ::
       joinc COMMA (map fmt_lx [cr3_pfn root; p4dp; pudp; pmdp; ptep]) ++ [NL].

(** A leaf found at [level]: the frames of the levels below are the leaf's own
    frame plus the index of the address at that level.  Returns the text
    printed and the next address. *)
Definition handle_normal_page (root addr pgdp p4dp pudp pmdp ptep level : Z) : text * Z :=
  let p4dp := if level <=? 0 then u64 (pgdp + p4d_index addr * (P4D_SIZE / PAGE_SIZE)) else p4dp in
  let pudp := if level <=? 1 then u64 (p4dp + pud_index addr * (PUD_SIZE / PAGE_SIZE)) else pudp in
  let pmdp := if level <=? 2 then u64 (pudp + pmd_index addr * (PMD_SIZE / PAGE_SIZE)) else pmdp in
  if (0 <=? level) && (level <=? 3) then
    let ptep := u64 (pmdp + pte_index addr * (PAGE_SIZE / PAGE_SIZE)) in
    (print_entry root addr p4dp pudp pmdp ptep, u64 (addr + PAGE_SIZE))
  else ([], addr).

Definition handle_ept_page := handle_normal_page.

(** ** The walkers

    The two walkers differ only in the accessors they call. *)

Record walk_ops := {
  wo_pgd : level_ops; wo_p4d : level_ops; wo_pud : level_ops; wo_pmd : level_ops;
  wo_pte_none : Z -> bool; wo_pte_ok : Z -> bool; wo_pte_pfn : Z -> Z;
  wo_pgd_off : Z -> Z -> Z;
  wo_p4d_off : Z -> Z -> Z; wo_pud_off : Z -> Z -> Z;
  wo_pmd_off : Z -> Z -> Z; wo_pte_off : Z -> Z -> Z
}.

Inductive lstep := Leaf (pfn : Z) | Next (pfn ptr : Z).

(** One level: [if (p && !none( *p)) { pfn = ...; if (leaf) return ...;
    if (!bad) next = ...; }] *)
Definition visit (m : memory) (l : level_ops) (ptr next : Z) : lstep :=
  if negb (ptr =? 0) && negb (l_none l (m ptr)) then
    if l_leaf l (m ptr) then Leaf (l_pfn l (m ptr))
    else Next (l_pfn l (m ptr)) (if l_bad l (m ptr) then 0 else next)
  else Next 0 0.

Inductive walked :=
| Huge (level pgdp p4dp pudp pmdp : Z)
| Walked (pgdp p4dp pudp pmdp ptep : Z).

Definition walk (m : memory) (o : walk_ops) (root addr : Z) : walked :=
  let pgd := wo_pgd_off o root addr in
  match visit m (wo_pgd o) pgd (wo_p4d_off o pgd addr) with
  | Leaf pgdp => Huge 0 pgdp 0 0 0
  | Next pgdp p4d =>
  match visit m (wo_p4d o) p4d (wo_pud_off o p4d addr) with
  | Leaf p4dp => Huge 1 pgdp p4dp 0 0
  | Next p4dp pud =>
  match visit m (wo_pud o) pud (wo_pmd_off o pud addr) with
  | Leaf pudp => Huge 2 pgdp p4dp pudp 0
  | Next pudp pmd =>
  match visit m (wo_pmd o) pmd (wo_pte_off o pmd addr) with
  | Leaf pmdp => Huge 3 pgdp p4dp pudp pmdp
  | Next pmdp pte =>
    let ptep := if negb (pte =? 0) && negb (wo_pte_none o (m pte)) && wo_pte_ok o (m pte)
                then wo_pte_pfn o (m pte) else 0 in
    Walked pgdp p4dp pudp pmdp ptep
  end end end end.

(** How far the walker moves on: past everything the highest absent level
    covers. *)
Definition walk_step (pgdp p4dp pudp pmdp ptep : Z) : Z :=
  let step := PAGE_SIZE in
  let step := if ptep =? 0 then PAGE_SIZE else step in
  let step := if pmdp =? 0 then PMD_SIZE else step in
  let step := if pudp =? 0 then PUD_SIZE else step in
  let step := if p4dp =? 0 then P4D_SIZE else step in
  if pgdp =? 0 then PGDIR_SIZE else step.

Definition table_walker (m : memory) (o : walk_ops) (root addr : Z) : text * Z :=
  match walk m o root addr with
  | Huge level pgdp p4dp pudp pmdp => handle_normal_page root addr pgdp p4dp pudp pmdp 0 level
  | Walked pgdp p4dp pudp pmdp ptep =>
      (print_entry root addr p4dp pudp pmdp ptep,
       u64 (addr + walk_step pgdp p4dp pudp pmdp ptep))
  end.

(** *** Process tables *)

Definition normal_ops (m : memory) : walk_ops := {|
  wo_pgd := pgd_ops; wo_p4d := p4d_ops; wo_pud := pud_ops; wo_pmd := pmd_ops;
  wo_pte_none := pte_none; wo_pte_ok := pte_present; wo_pte_pfn := pte_pfn;
  wo_pgd_off := pgd_offset_pgd;
  wo_p4d_off := p4d_offset m; wo_pud_off := pud_offset m;
  wo_pmd_off := pmd_offset m; wo_pte_off := pte_offset_map m |}.

Definition normal_table_walker (m : memory) (root addr : Z) : text * Z :=
  table_walker m (normal_ops m) root addr.

(** *** Extended page tables *)

Section Ept.
Variable maxphys : Z.

Definition EPT_PHYS_MAX : Z := u64 (u64 (Z.shiftl 1 maxphys) - 1).
Definition EPT_PFN_MASK : Z := Z.land EPT_PHYS_MAX (u64 (Z.lnot (Z.shiftl 1 12 - 1))).

Definition ept_none (val : Z -> Z) (entry : Z) : bool := Z.land (val entry) 7 =? 0.
Definition ept_bad (entry : Z) : bool := false.
Definition ept_pfn (val : Z -> Z) (entry : Z) : Z := Z.shiftr (Z.land (val entry) EPT_PFN_MASK) 12.
Definition ept_leaf (val : Z -> Z) (entry : Z) : bool := negb (Z.land (val entry) 128 =? 0).
Definition ept_page_vaddr (val : Z -> Z) (entry : Z) : Z := va (Z.land (val entry) EPT_PFN_MASK).

Definition ept_functions (val : Z -> Z) : level_ops := {|
  l_none := ept_none val; l_bad := ept_bad; l_leaf := ept_leaf val; l_pfn := ept_pfn val |}.

(** [ept_offset (from, to, ent, addr)]: entry [to_index (addr)] of the table
    that [ent] points to. *)
Definition ept_offset (val index : Z -> Z) (ent addr : Z) : Z :=
  u64 (ept_page_vaddr val ent + 8 * index addr).

Definition ept_p4d_offset (m : memory) (type pgd addr : Z) : Z :=
  if negb (type =? PT64_ROOT_5LEVEL) then pgd
  else u64 (ept_page_vaddr pgd_val (m pgd) + 8 * p4d_index addr).

Definition ept_ops (m : memory) (type : Z) : walk_ops := {|
  wo_pgd := ept_functions pgd_val; wo_p4d := ept_functions p4d_val;
  wo_pud := ept_functions pud_val; wo_pmd := ept_functions pmd_val;
  wo_pte_none := ept_none pte_val; wo_pte_ok e := negb (ept_bad e); wo_pte_pfn := ept_pfn pte_val;
  wo_pgd_off root addr := u64 (root + 8 * pgd_index addr);
  wo_p4d_off := ept_p4d_offset m type;
  wo_pud_off p addr := ept_offset p4d_val pud_index (m p) addr;
  wo_pmd_off p addr := ept_offset pud_val pmd_index (m p) addr;
  wo_pte_off p addr := ept_offset pmd_val pte_index (m p) addr |}.

Definition ept_table_walker (m : memory) (type root addr : Z) : text * Z :=
  table_walker m (ept_ops m type) root addr.
End Ept.

(** ** The proc file *)

Definition EAGAIN : Z := 11.
Definition EINVAL : Z := 22.
Definition ENOMEM : Z := 12.

Section Proc.
(** [pid_task (find_vpid (pid), PIDTYPE_PID)] and [get_task_mm]: the root
    table ([mm->pgd]) of the process, if it and its [mm] exist. *)
Context {T : Type} (find_task : Z -> option T) (task_mm : T -> option Z) (m : memory).

Definition get_mm_from_pid (pid : Z) : option Z :=
  match find_task pid with
  | None => None
  | Some task => match task_mm task with None => None | Some mm => Some mm end
  end.

(** Returns the error code, the text printed and the new [*spos]. *)
Definition pt_seq_show (g : globals) (spos : Z) : Z * text * Z :=
  let head := if spos =? 0 then fmt_16d (selected_pid g) ++ [NL] else [] in
  if is_vmroot_mode g && vmroot_direct g then
    if negb (vmroot_pid g =? selected_pid g) then
      (- EAGAIN, head ++ s2l "VM enter event not fired, please wait a while." ++ [NL], spos)
    else if negb (vmroot_type g =? PT64_ROOT_4LEVEL) && negb (vmroot_type g =? PT64_ROOT_5LEVEL) then
      (- EINVAL, head ++ s2l "Legacy VM mapping mode is not supported." ++ [NL], spos)
    else
      let '(out, spos') :=
        ept_table_walker (vmroot_maxphys g) m (vmroot_type g) (va (vmroot_pgtbl g)) spos in
      (0, head ++ out, spos')
  else
    match get_mm_from_pid (selected_pid g) with
    | None =>
        (- EINVAL, head ++ s2l "Cannot access mm_struct for " ++ fmt_d (selected_pid g) ++ [NL], spos)
    | Some root =>
        let '(out, spos') := normal_table_walker m root spos in (0, head ++ out, spos')
    end.

(** [kmalloc] may fail; a terminated sequence is not restarted. *)
Definition pt_seq_start (kmalloc_ok : bool) (pos : Z) : option Z :=
  if pos =? ULONG_MAX then None else if kmalloc_ok then Some pos else None.

(** Returns whether to continue, the new [*spos] and the new [*pos]. *)
Definition pt_seq_next (g : globals) (spos pos : Z) : bool * Z * Z :=
  let terminate := (false, ULONG_MAX, ULONG_MAX) in
  if spos <=? pos then terminate
  else if is_vmroot_mode g && (EPT_PHYS_MAX (vmroot_maxphys g) <=? spos) then terminate
  else if TASK_SIZE_MAX <=? spos then
    if is_userspace_mode g then terminate
    else let spos := if spos <? PAGE_OFFSET then PAGE_OFFSET else spos in (true, spos, spos)
  else (true, spos, spos).

(** One complete read: seq_file calls start once, then alternates show and
    next until next ends the sequence or show fails. *)
Fixpoint seq_pass (fuel : nat) (g : globals) (spos pos : Z) : option (Z * text) :=
  match fuel with
  | O => None
  | S f =>
      let '(ret, out, spos1) := pt_seq_show g spos in
      if negb (ret =? 0) then Some (ret, out)
      else match pt_seq_next g spos1 pos with
           | (false, _, _) => Some (0, out)
           | (true, spos2, pos2) =>
               match seq_pass f g spos2 pos2 with
               | Some (r, rest) => Some (r, out ++ rest)
               | None => None
               end
           end
  end.
End Proc.
End Dump.

(** ** Selecting a process *)

Definition set_pid (g : globals) (pid : Z) : globals := {|
  selected_pid := pid; selected_mode := selected_mode g; vmroot_pid := vmroot_pid g;
  vmroot_pgtbl := vmroot_pgtbl g; vmroot_direct := vmroot_direct g;
  vmroot_type := vmroot_type g; vmroot_maxphys := vmroot_maxphys g |}.
Definition set_mode (g : globals) (c : ascii) : globals := {|
  selected_pid := selected_pid g; selected_mode := c; vmroot_pid := vmroot_pid g;
  vmroot_pgtbl := vmroot_pgtbl g; vmroot_direct := vmroot_direct g;
  vmroot_type := vmroot_type g; vmroot_maxphys := vmroot_maxphys g |}.

(** [pt_write]: [user] is the buffer, [copied] whether copy_from_user
    succeeded, [current_pid] the writer.  Returns the result and the state. *)
Definition pt_write (user : text) (copied : bool) (current_pid : Z) (g : globals) : Z * globals :=
  let count := Z.of_nat (length user) in
  let mylen := if count <? 64 then count else 64 in
  if mylen =? 0 then (count, g)
  else if negb copied then (-1, g)
  else
    let mybuf := firstn (Z.to_nat mylen) user in
    match mybuf with
    | [] => (count, g)
    | c :: tl =>
        let g := set_mode g c in
        if (code c <? code "0"%char) || (code "9"%char <? code c) then
          if mylen - 1 =? 0 then (count, g)
          else match kstrtoint (cstr tl) with
               | Some pid => (count, set_pid g pid)
               | None => (count, set_pid g current_pid)
               end
        else
          let g := set_mode g "0"%char in
          match kstrtoint (cstr mybuf) with
          | Some pid => (count, set_pid g pid)
          | None => (count, set_pid g current_pid)
          end
    end.

(** ** The kprobe on vcpu_load *)

Record vcpu := {
  kvm_userspace_pid : Z; mmu_root_hpa : Z; mmu_shadow_root_level : Z;
  mmu_direct_map : bool; arch_maxphyaddr : Z
}.

Definition extract_tdp_root (cpu : vcpu) (g : globals) : Z * globals :=
  if kvm_userspace_pid cpu =? selected_pid g then
    (0, {| selected_pid := selected_pid g; selected_mode := selected_mode g;
           vmroot_pid := kvm_userspace_pid cpu; vmroot_pgtbl := mmu_root_hpa cpu;
           vmroot_direct := mmu_direct_map cpu; vmroot_type := mmu_shadow_root_level cpu;
           vmroot_maxphys := arch_maxphyaddr cpu |})
  else (0, g).

(** ** Loading and unloading *)

Record module_regs := { proc_file : bool; kprobe_on : bool }.

(** [proc_ok] is whether proc_create returned an entry, [kp_ret] the result of
    register_kprobe. *)
Definition init_module (proc_ok : bool) (kp_ret : Z) : Z * module_regs :=
  if negb proc_ok then (- ENOMEM, {| proc_file := false; kprobe_on := false |})
  else if kp_ret <? 0 then (kp_ret, {| proc_file := false; kprobe_on := false |})
  else (0, {| proc_file := true; kprobe_on := true |}).

Definition cleanup_module (r : module_regs) : module_regs :=
  {| proc_file := false; kprobe_on := false |}.

(** * Proofs *)

(** ** Locality of the walk

    An offset depends on the address only through the block of its level, so
    does everything the walker has found by then. *)

Class WalkLocal `{K : KernelPT} (o : walk_ops) : Prop := {
  wl_pgd root a b : a / PGDIR_SIZE = b / PGDIR_SIZE -> wo_pgd_off o root a = wo_pgd_off o root b;
  wl_p4d p a b : a / P4D_SIZE = b / P4D_SIZE -> wo_p4d_off o p a = wo_p4d_off o p b;
  wl_pud p a b : a / PUD_SIZE = b / PUD_SIZE -> wo_pud_off o p a = wo_pud_off o p b;
  wl_pmd p a b : a / PMD_SIZE = b / PMD_SIZE -> wo_pmd_off o p a = wo_pmd_off o p b
}.

#[export] Instance normal_local `{KL : KernelPTLaws} m : WalkLocal (normal_ops m).
Proof.
  constructor; cbn; [apply pgd_local|apply p4d_local|apply pud_local|apply pmd_local].
Qed.

#[export] Instance ept_local `{KL : KernelPTLaws} maxphys m type : WalkLocal (ept_ops maxphys m type).
Proof.
  constructor; cbn; unfold ept_p4d_offset, ept_offset; intros.
  - rewrite !pgd_index_spec. congruence.
  - rewrite !p4d_index_spec. by rewrite H.
  - rewrite !pud_index_spec. congruence.
  - rewrite !pmd_index_spec. congruence.
Qed.

(** No table in use sits at physical frame 0 (Linux reserves it), so a
    present, non-leaf entry has a non-zero frame number. *)
Record frames_nonzero (m : memory) (o : walk_ops) : Prop := {
  fn_pgd p : l_none (wo_pgd o) (m p) = false -> l_leaf (wo_pgd o) (m p) = false -> l_pfn (wo_pgd o) (m p) <> 0;
  fn_p4d p : l_none (wo_p4d o) (m p) = false -> l_leaf (wo_p4d o) (m p) = false -> l_pfn (wo_p4d o) (m p) <> 0;
  fn_pud p : l_none (wo_pud o) (m p) = false -> l_leaf (wo_pud o) (m p) = false -> l_pfn (wo_pud o) (m p) <> 0;
  fn_pmd p : l_none (wo_pmd o) (m p) = false -> l_leaf (wo_pmd o) (m p) = false -> l_pfn (wo_pmd o) (m p) <> 0
}.

Lemma visit_zero m l ptr next p :
  (forall q, l_none l (m q) = false -> l_leaf l (m q) = false -> l_pfn l (m q) <> 0) ->
  visit m l ptr next = Next 0 p -> p = 0 /\ forall next', visit m l ptr next' = Next 0 0.
Proof.
  intros Hnz. unfold visit.
  destruct (negb (ptr =? 0) && negb (l_none l (m ptr))) eqn:E; [|by intros [= <-]].
  destruct (l_leaf l (m ptr)) eqn:El; [done|]. intros [= H _].
  apply andb_true_iff in E as [_ E]. apply negb_true_iff in E. by destruct (Hnz ptr E El).
Qed.

Lemma visit_null m l next : visit m l 0 next = Next 0 0.
Proof. done. Qed.

Section WalkFacts.
Context `{KL : KernelPTLaws} (m : memory) (o : walk_ops) (root : Z).
Context {WL : WalkLocal o} (FN : frames_nonzero m o).

(** The frame the walker prints for an address (0 when it prints nothing) and
    the distance it then moves. *)
Definition stride (addr : Z) : Z :=
  match walk m o root addr with
  | Huge _ _ _ _ _ => PAGE_SIZE
  | Walked pgdp p4dp pudp pmdp ptep => walk_step pgdp p4dp pudp pmdp ptep
  end.

Definition page_line (addr : Z) : text := fst (table_walker m o root addr).

Definition mapped (addr : Z) : Prop := page_line addr <> [].

Lemma print_entry_nil r v a b c : print_entry r v a b c 0 = [].
Proof. done. Qed.

Lemma handle_normal_page_next r a g p u d t l :
  0 <= l <= 3 -> snd (handle_normal_page r a g p u d t l) = u64 (a + PAGE_SIZE).
Proof.
  intros Hl. unfold handle_normal_page.
  by rewrite (proj2 (Z.leb_le 0 l)), (proj2 (Z.leb_le l 3)) by lia.
Qed.

Lemma walk_huge_level addr l g p u d : walk m o root addr = Huge l g p u d -> 0 <= l <= 3.
Proof.
  unfold walk. repeat case_match; intros [=]; lia.
Qed.

Lemma table_walker_next addr : snd (table_walker m o root addr) = u64 (addr + stride addr).
Proof.
  unfold table_walker, stride. destruct (walk m o root addr) eqn:E; [|done].
  apply walk_huge_level in E. by apply handle_normal_page_next.
Qed.

Lemma walk_step_absent p u d t :
  walk_step 0 p u d t = PGDIR_SIZE.
Proof. done. Qed.

Lemma walk_step_p4d g u d t : g <> 0 -> walk_step g 0 u d t = P4D_SIZE.
Proof. intros H. unfold walk_step. by rewrite (proj2 (Z.eqb_neq g 0)). Qed.
Lemma walk_step_pud g p d t : g <> 0 -> p <> 0 -> walk_step g p 0 d t = PUD_SIZE.
Proof. intros H1 H2. unfold walk_step. by rewrite (proj2 (Z.eqb_neq g 0)), (proj2 (Z.eqb_neq p 0)). Qed.
Lemma walk_step_pmd g p u t : g <> 0 -> p <> 0 -> u <> 0 -> walk_step g p u 0 t = PMD_SIZE.
Proof.
  intros H1 H2 H3. unfold walk_step.
  by rewrite (proj2 (Z.eqb_neq g 0)), (proj2 (Z.eqb_neq p 0)), (proj2 (Z.eqb_neq u 0)).
Qed.
Lemma walk_step_pte g p u d t :
  g <> 0 -> p <> 0 -> u <> 0 -> d <> 0 -> walk_step g p u d t = PAGE_SIZE.
Proof.
  intros H1 H2 H3 H4. unfold walk_step.
  rewrite (proj2 (Z.eqb_neq g 0)), (proj2 (Z.eqb_neq p 0)), (proj2 (Z.eqb_neq u 0)),
    (proj2 (Z.eqb_neq d 0)) by done. by destruct (t =? 0).
Qed.

(** What the walker finds at [b] it finds in the whole block it skips. *)
Lemma stride_block a b :
  stride b = PAGE_SIZE \/
  (a / stride b = b / stride b ->
   page_line a = [] /\ stride a = stride b).
Proof.
  pose proof sizes_chain as (HP & HPM & HM & HMU & HU & HUD & HD & HDG & HG).
  unfold page_line, table_walker, stride, walk.
  destruct (visit m (wo_pgd o) (wo_pgd_off o root b) _) as [g|g p4d] eqn:E1; [by left|].
  destruct (Z.eq_dec g 0) as [->|Hg].
  { destruct (visit_zero _ _ _ _ _ (fn_pgd _ _ FN) E1) as [-> H1].
    rewrite !visit_null, walk_step_absent. right. intros E.
    rewrite (wl_pgd root a b E), H1, !visit_null. by rewrite walk_step_absent. }
  destruct (visit m (wo_p4d o) p4d _) as [p|p pud] eqn:E2; [by left|].
  destruct (Z.eq_dec p 0) as [->|Hp].
  { destruct (visit_zero _ _ _ _ _ (fn_p4d _ _ FN) E2) as [-> H2].
    rewrite !visit_null, walk_step_p4d by done. right. intros E.
    rewrite (wl_pgd root a b (div_coarser _ _ _ _ HD HG HDG E)), (wl_p4d _ a b E), E1, H2, !visit_null.
    by rewrite walk_step_p4d. }
  destruct (visit m (wo_pud o) pud _) as [u|u pmd] eqn:E3; [by left|].
  destruct (Z.eq_dec u 0) as [->|Hu].
  { destruct (visit_zero _ _ _ _ _ (fn_pud _ _ FN) E3) as [-> H3].
    rewrite !visit_null, walk_step_pud by done. right. intros E.
    pose proof (div_coarser _ _ _ _ HU HD HUD E) as E'.
    rewrite (wl_pgd root a b (div_coarser _ _ _ _ HD HG HDG E')), (wl_p4d _ a b E'), E1,
      (wl_pud _ a b E), E2, H3, !visit_null. by rewrite walk_step_pud. }
  destruct (visit m (wo_pmd o) pmd _) as [d|d pte] eqn:E4; [by left|].
  destruct (Z.eq_dec d 0) as [->|Hd].
  { destruct (visit_zero _ _ _ _ _ (fn_pmd _ _ FN) E4) as [-> H4].
    rewrite Z.eqb_refl. cbn [negb andb]. rewrite walk_step_pmd by done. right. intros E.
    pose proof (div_coarser _ _ _ _ HM HU HMU E) as E'.
    pose proof (div_coarser _ _ _ _ HU HD HUD E') as E''.
    rewrite (wl_pgd root a b (div_coarser _ _ _ _ HD HG HDG E'')), (wl_p4d _ a b E''), E1,
      (wl_pud _ a b E'), E2, (wl_pmd _ a b E), E3, H4, Z.eqb_refl. cbn [negb andb].
    by rewrite walk_step_pmd. }
  left. by apply walk_step_pte.
Qed.

(** The distances the walker moves are the five level sizes. *)
Lemma stride_size a :
  stride a = PAGE_SIZE \/ stride a = PMD_SIZE \/ stride a = PUD_SIZE \/
  stride a = P4D_SIZE \/ stride a = PGDIR_SIZE.
Proof.
  unfold stride. destruct (walk m o root a); [tauto|]. unfold walk_step.
  repeat case_match; tauto.
Qed.
End WalkFacts.

(** ** The sweep over an address space *)

Section Sweep.
Context `{KL : KernelPTLaws} (m : memory) (o : walk_ops) (root : Z).
Context {WL : WalkLocal o} (FN : frames_nonzero m o).
Abbreviation strd := (stride m o root).

Lemma stride_pos a : 0 < strd a /\ (PAGE_SIZE | strd a) /\ strd a <= PGDIR_SIZE.
Proof.
  pose proof sizes_chain as (HP & HPM & HM & HMU & HU & HUD & HD & HDG & HG).
  assert (HPU : (PAGE_SIZE | PUD_SIZE)) by (by etrans).
  assert (HPD : (PAGE_SIZE | P4D_SIZE)) by (by etrans).
  pose proof (Z.divide_pos_le _ _ HG HDG). pose proof (Z.divide_pos_le _ _ HD HUD).
  pose proof (Z.divide_pos_le _ _ HU HMU). pose proof (Z.divide_pos_le _ _ HM HPM).
  destruct (stride_size m o root a) as [->|[->|[->|[->| ->]]]]; split_and!; try done; try lia.
  by etrans.
Qed.

Lemma strides_nested a b : (strd a | strd b) \/ (strd b | strd a).
Proof.
  pose proof sizes_chain as (HP & HPM & HM & HMU & HU & HUD & HD & HDG & HG).
  assert (HPU : (PAGE_SIZE | PUD_SIZE)) by (by etrans).
  assert (HPD : (PAGE_SIZE | P4D_SIZE)) by (by etrans).
  assert (HPG : (PAGE_SIZE | PGDIR_SIZE)) by (by etrans).
  assert (HMD : (PMD_SIZE | P4D_SIZE)) by (by etrans).
  assert (HMG : (PMD_SIZE | PGDIR_SIZE)) by (by etrans).
  assert (HUG : (PUD_SIZE | PGDIR_SIZE)) by (by etrans).
  destruct (stride_size m o root a) as [->|[->|[->|[->| ->]]]],
    (stride_size m o root b) as [->|[->|[->|[->| ->]]]];
    first [by left; (done || reflexivity) | by right].
Qed.

(** An address reached from an aligned one is aligned to its own stride. *)
Lemma stride_aligned a : (strd a | a) -> (strd (a + strd a) | a + strd a).
Proof.
  intros Ha. set (a' := a + strd a).
  pose proof (stride_pos a) as (Hs & Hps & _). pose proof (stride_pos a') as (Hs' & Hps' & _).
  assert (Ha' : (strd a | a')) by (apply Z.divide_add_r; [done|reflexivity]).
  assert (Ea : a = a' - strd a) by (unfold a'; lia). clearbody a'.
  destruct (strides_nested a' a) as [Hn|Hn]; [by etrans|].
  destruct (stride_block m o root FN a a') as [E|Hb].
  { rewrite E. etrans; [exact Hps|done]. }
  destruct (Z.eq_dec (a' mod strd a') 0) as [E|Hnd]; [by apply Z.mod_divide in E; [|lia]|].
  assert (Hmod : 0 < a' mod strd a') by (pose proof (Z.mod_pos_bound a' (strd a') Hs'); lia).
  assert (Hm : (strd a | a' mod strd a')).
  { rewrite Z.mod_eq by lia. apply Z.divide_sub_r; [done|]. by apply Z.divide_mul_l. }
  pose proof (Z.divide_pos_le _ _ Hmod Hm) as Hle.
  destruct Hb as [_ Hb].
  { apply (div_between _ _ _ (a' / strd a') Hs'); [|by apply div_block].
    assert (Hnz : strd a' <> 0) by lia. pose proof (Z.div_mod a' (strd a') Hnz) as Hdm.
    pose proof (Z.mod_pos_bound a' (strd a') Hs') as Hr.
    rewrite Z.mul_add_distr_r, Z.mul_1_l, (Z.mul_comm (a' / strd a')). lia. }
  rewrite <- Hb. done.
Qed.

(** Nothing printable lies strictly inside a stride. *)
Lemma stride_gap a x :
  (strd a | a) -> a < x < a + strd a -> (PAGE_SIZE | x) -> page_line m o root x = [].
Proof.
  intros Ha Hx Hpx. pose proof (stride_pos a) as (Hs & Hps & _).
  destruct (stride_block m o root FN x a) as [E|Hb].
  - exfalso. rewrite E in *. assert (Hd : (PAGE_SIZE | x - a)) by (by apply Z.divide_sub_r).
    apply Z.divide_pos_le in Hd; lia.
  - apply Hb. destruct Ha as [k Hk]. apply (div_between _ _ _ k Hs); nia.
Qed.

(** The addresses the walker prints, from an aligned address up to a limit. *)
Definition swept (a lim : Z) (vas : list Z) : Prop :=
  incr vas = true /\
  forall x, x ∈ vas <-> a <= x < lim /\ (PAGE_SIZE | x) /\ mapped m o root x.

Definition here (a : Z) : list Z := match page_line m o root a with [] => [] | _ => [a] end.

Lemma here_line a : concat (map (page_line m o root) (here a)) = page_line m o root a.
Proof. unfold here. destruct (page_line m o root a) eqn:E; cbn; [done|]. by rewrite E, app_nil_r. Qed.

Lemma here_in a x : x ∈ here a <-> x = a /\ mapped m o root a.
Proof.
  unfold here, mapped. destruct (page_line m o root a).
  - split; [by intros ?%elem_of_nil|naive_solver].
  - rewrite elem_of_cons, elem_of_nil. naive_solver.
Qed.

Lemma swept_end a lim : (strd a | a) -> a < lim -> lim <= a + strd a -> swept a lim (here a).
Proof.
  intros Ha Hal Hl. split.
  - unfold here. by destruct (page_line m o root a).
  - intros x. rewrite here_in. split.
    + intros [-> Hm]. split_and!; try lia; try done. etrans; [apply stride_pos|done].
    + intros (Hx & Hp & Hm). destruct (Z.eq_dec x a) as [->|]; [done|].
      exfalso. apply Hm. apply (stride_gap a); try done; lia.
Qed.

Lemma swept_step a lim vas :
  (strd a | a) -> a + strd a < lim -> swept (a + strd a) lim vas -> swept a lim (here a ++ vas).
Proof.
  intros Ha Hl [Hi Hv]. pose proof (stride_pos a) as (Hs & Hps & _). split.
  - apply incr_app. split_and!; [unfold here; by destruct (page_line m o root a)|done|].
    intros x y [-> _]%here_in [? _]%Hv. lia.
  - intros x. rewrite elem_of_app, here_in, Hv. split.
    + intros [[-> Hm]|(Hx & Hp & Hm)]; split_and!; try lia; try done. etrans; [exact Hps|done].
    + intros (Hx & Hp & Hm). destruct (Z.eq_dec x a) as [->|]; [by left|]. right.
      split_and!; try done; [|lia].
      destruct (Z.lt_ge_cases x (a + strd a)); [|lia].
      exfalso. apply Hm. apply (stride_gap a); try done; lia.
Qed.
End Sweep.

(** ** A complete read of /proc/page_tables in user-space mode *)

Section UserDump.
Context `{KL : KernelPTLaws} {T : Type} (find_task : Z -> option T) (task_mm : T -> option Z).
Context (m : memory) (g : globals) (root : Z).
Hypothesis Hmode : is_userspace_mode g = true.
Hypothesis Hmm : get_mm_from_pid find_task task_mm (selected_pid g) = Some root.
Hypothesis FN : frames_nonzero m (normal_ops m).

Abbreviation line := (page_line m (normal_ops m) root).
Abbreviation next a := (a + stride m (normal_ops m) root a).

Lemma user_not_vmroot : is_vmroot_mode g = false.
Proof using Hmode.
  unfold is_userspace_mode, is_vmroot_mode in *.
  apply bool_decide_eq_true in Hmode. rewrite Hmode. by apply bool_decide_eq_false.
Qed.

Lemma user_show a :
  0 <= a < TASK_SIZE_MAX ->
  pt_seq_show find_task task_mm m g a =
  (0, (if a =? 0 then fmt_16d (selected_pid g) ++ [NL] else []) ++ line a, next a).
Proof using KL Hmode Hmm.
  intros Ha. unfold pt_seq_show. rewrite user_not_vmroot. cbn [andb]. rewrite Hmm.
  pose proof (table_walker_next m (normal_ops m) root a) as Hn.
  unfold normal_table_walker, page_line.
  destruct (table_walker m (normal_ops m) root a) as [out sp]. cbn [fst snd] in *.
  rewrite Hn, u64_small; [done|].
  pose proof (stride_pos m (normal_ops m) root a). pose proof task_size. lia.
Qed.

Lemma user_next a :
  0 <= a < TASK_SIZE_MAX ->
  pt_seq_next g (next a) a =
  if TASK_SIZE_MAX <=? next a then (false, ULONG_MAX, ULONG_MAX) else (true, next a, next a).
Proof using KL Hmode.
  intros Ha. unfold pt_seq_next. pose proof (stride_pos m (normal_ops m) root a).
  rewrite (proj2 (Z.leb_gt (next a) a)) by lia. rewrite user_not_vmroot, Hmode. done.
Qed.

Lemma user_pass fuel a :
  0 <= a < TASK_SIZE_MAX -> (stride m (normal_ops m) root a | a) ->
  TASK_SIZE_MAX - a <= PAGE_SIZE * Z.of_nat fuel ->
  exists vas,
    seq_pass find_task task_mm m fuel g a a =
      Some (0, (if a =? 0 then fmt_16d (selected_pid g) ++ [NL] else []) ++ concat (map line vas)) /\
    swept m (normal_ops m) root a TASK_SIZE_MAX vas.
Proof using KL Hmode Hmm FN.
  revert a. induction fuel as [|f IH]; intros a Ha Hal Hf; [lia|].
  pose proof (stride_pos m (normal_ops m) root a) as (Hs & Hps & _).
  pose proof page_size_pos.
  cbn [seq_pass]. rewrite user_show by done. cbn [negb Z.eqb].
  change (negb (0 =? 0)) with false. cbn iota. rewrite user_next by done.
  destruct (TASK_SIZE_MAX <=? next a) eqn:E; zbool.
  - exists (here m (normal_ops m) root a). rewrite here_line. split; [done|].
    apply (swept_end m (normal_ops m) root FN); try done; lia.
  - destruct (IH (next a)) as (vas & HE & HV).
    + lia.
    + by apply (stride_aligned m (normal_ops m) root FN).
    + apply Z.divide_pos_le in Hps; lia.
    + rewrite HE, (proj2 (Z.eqb_neq (next a) 0)) by lia.
      exists (here m (normal_ops m) root a ++ vas).
      rewrite map_app, concat_app, here_line. split; [by rewrite <- app_assoc|].
      by apply (swept_step m (normal_ops m) root FN).
Qed.
End UserDump.

(** C18. A complete read of /proc/page_tables in user-space mode terminates (one
    page per unit of fuel is enough), returns success, and prints the header
    and then exactly one line per mapped user page, in increasing address
    order: the walker's skipping of absent ranges loses no page and repeats
    none. *)
Theorem user_dump_complete `{KL : KernelPTLaws} {T : Type} (find_task : Z -> option T)
    (task_mm : T -> option Z) (m : memory) (g : globals) (root : Z) (fuel : nat) :
  is_userspace_mode g = true ->
  get_mm_from_pid find_task task_mm (selected_pid g) = Some root ->
  frames_nonzero m (normal_ops m) ->
  TASK_SIZE_MAX <= PAGE_SIZE * Z.of_nat fuel ->
  exists vas,
    seq_pass find_task task_mm m fuel g 0 0 =
      Some (0, (fmt_16d (selected_pid g) ++ [NL]) ++ concat (map (page_line m (normal_ops m) root) vas)) /\
    incr vas = true /\
    forall a, a ∈ vas <-> 0 <= a < TASK_SIZE_MAX /\ (PAGE_SIZE | a) /\ mapped m (normal_ops m) root a.
Proof.
  intros Hmode Hmm FN Hf. pose proof task_size.
  destruct (user_pass find_task task_mm m g root Hmode Hmm FN fuel 0) as (vas & HE & Hi & HV);
    [lia|apply Z.divide_0_r|lia|]. eauto.
Qed.

(** A one-page address space: PML4, PDPT, PD and PT at frames 16 to 19, one
    page at 0x5000 backed by frame 77. *)
Definition demo_root : Z := x86_va (16 * 4096).
Definition demo_memory : memory := fun p =>
  if p =? x86_va (16 * 4096) then 17 * 4096 + 103
  else if p =? x86_va (17 * 4096) then 18 * 4096 + 103
  else if p =? x86_va (18 * 4096) then 19 * 4096 + 103
  else if p =? x86_va (19 * 4096) + 40 then 77 * 4096 + 103 else 0.
Definition demo_globals : globals := set_mode (set_pid init_globals 4242) "U"%char.

Lemma demo_frames : frames_nonzero demo_memory (normal_ops demo_memory).
Proof. constructor; intros p; cbn; unfold demo_memory; repeat case_match; vm_compute; congruence. Qed.

Lemma user_dump_complete_witness :
  exists vas,
    seq_pass (fun _ => Some tt) (fun _ => Some demo_root) demo_memory (Z.to_nat 34359738368)
      demo_globals 0 0 =
      Some (0, (fmt_16d 4242 ++ [NL]) ++
               concat (map (page_line demo_memory (normal_ops demo_memory) demo_root) vas)) /\
    incr vas = true /\
    forall a, a ∈ vas <->
      0 <= a < TASK_SIZE_MAX /\ (PAGE_SIZE | a) /\ mapped demo_memory (normal_ops demo_memory) demo_root a.
Proof.
  apply (user_dump_complete (fun _ => Some tt) (fun _ => Some demo_root) demo_memory demo_globals demo_root).
  - reflexivity.
  - reflexivity.
  - exact demo_frames.
  - rewrite Z2Nat.id; vm_compute; congruence.
Defined.

Example demo_line :
  page_line demo_memory (normal_ops demo_memory) demo_root 0x5000 =
  s2l "0000000000005000,10,11,12,13,4d" ++ [NL].
Proof. vm_compute. reflexivity. Qed.

(** ** Leaves above the last level *)

Definition leaf_size `{K : KernelPT} (level : Z) : Z :=
  if level =? 0 then PGDIR_SIZE else if level =? 1 then P4D_SIZE
  else if level =? 2 then PUD_SIZE else PMD_SIZE.

Lemma mod_split a s k : 0 < s -> 0 < k -> a mod (s * k) = ((a / s) mod k) * s + a mod s.
Proof. intros. rewrite Z.rem_mul_r by lia. lia. Qed.

Section HugePages.
Context `{KL : KernelPTLaws}.

(** Frames of a block, counted one level down. *)
Lemma frames_split a s k i :
  (PAGE_SIZE | s) -> 0 < s -> 0 < k -> i = (a / s) mod k ->
  (a mod (s * k)) / PAGE_SIZE = i * (s / PAGE_SIZE) + (a mod s) / PAGE_SIZE.
Proof.
  intros [c ->] Hs Hk ->. pose proof page_size_pos.
  rewrite mod_split, Z.div_mul by lia.
  rewrite Z.mul_assoc, Z.add_comm, Z.div_add by lia. lia.
Qed.

Lemma pte_frames a : (a mod PMD_SIZE) / PAGE_SIZE = pte_index a.
Proof.
  pose proof page_size_pos. rewrite pmd_size, Z.mul_comm.
  rewrite (frames_split a PAGE_SIZE 512 (pte_index a)) by (lia || reflexivity || apply pte_index_spec).
  rewrite Z.div_same by lia. rewrite (Z.div_small (a mod PAGE_SIZE)) by (by apply Z.mod_pos_bound). lia.
Qed.

Lemma pmd_frames a :
  (a mod PUD_SIZE) / PAGE_SIZE = pmd_index a * (PMD_SIZE / PAGE_SIZE) + pte_index a.
Proof.
  pose proof sizes_chain as (HP & HPM & HM & HMU & HU & HUD & HD & HDG & HG).
  rewrite pud_size, Z.mul_comm, (frames_split a PMD_SIZE 512 (pmd_index a)), pte_frames;
    (lia || apply pmd_index_spec || done).
Qed.

Lemma pud_frames a :
  (a mod P4D_SIZE) / PAGE_SIZE =
  pud_index a * (PUD_SIZE / PAGE_SIZE) + pmd_index a * (PMD_SIZE / PAGE_SIZE) + pte_index a.
Proof.
  pose proof sizes_chain as (HP & HPM & HM & HMU & HU & HUD & HD & HDG & HG).
  rewrite p4d_size, Z.mul_comm, (frames_split a PUD_SIZE 512 (pud_index a)), pmd_frames;
    (lia || apply pud_index_spec || by etrans).
Qed.

Lemma p4d_frames a :
  (a mod PGDIR_SIZE) / PAGE_SIZE =
  p4d_index a * (P4D_SIZE / PAGE_SIZE) + pud_index a * (PUD_SIZE / PAGE_SIZE)
  + pmd_index a * (PMD_SIZE / PAGE_SIZE) + pte_index a.
Proof.
  pose proof sizes_chain as (HP & HPM & HM & HMU & HU & HUD & HD & HDG & HG).
  assert (E : PGDIR_SIZE = P4D_SIZE * (PGDIR_SIZE / P4D_SIZE)).
  { destruct HDG as [k ->]. rewrite Z.div_mul by lia. lia. }
  assert (0 < PGDIR_SIZE / P4D_SIZE) by nia.
  rewrite E at 1. rewrite (frames_split a P4D_SIZE _ (p4d_index a)), pud_frames;
    (lia || apply p4d_index_spec || (do 2 (etrans; [done|]); done)).
Qed.

Lemma index_nonneg a :
  0 <= p4d_index a /\ 0 <= pud_index a /\ 0 <= pmd_index a /\ 0 <= pte_index a.
Proof.
  pose proof sizes_chain as (HP & HPM & HM & HMU & HU & HUD & HD & HDG & HG).
  assert (0 < PGDIR_SIZE / P4D_SIZE).
  { destruct HDG as [k HE]. rewrite HE, Z.div_mul by lia. nia. }
  rewrite p4d_index_spec, pud_index_spec, pmd_index_spec, pte_index_spec.
  split_and!; apply Z.mod_pos_bound; lia.
Qed.

Lemma size_ratios :
  0 < PMD_SIZE / PAGE_SIZE /\ 0 < PUD_SIZE / PAGE_SIZE /\ 0 < P4D_SIZE / PAGE_SIZE /\
  PAGE_SIZE / PAGE_SIZE = 1.
Proof.
  rewrite p4d_size, pud_size, pmd_size, page_size. vm_compute. split_and!; done.
Qed.

Definition leaf_base (level g p u d : Z) : Z :=
  if level =? 0 then g else if level =? 1 then p else if level =? 2 then u else d.

#[local] Ltac leaf_arith :=
  generalize dependent (P4D_SIZE / PAGE_SIZE); generalize dependent (PUD_SIZE / PAGE_SIZE);
  generalize dependent (PMD_SIZE / PAGE_SIZE); intros;
  repeat (rewrite u64_add_l || rewrite <- Z.add_assoc); rewrite u64_small; nia.

(** The frame printed for an address inside a leaf. *)
Lemma handle_normal_page_frame root a g p u d level :
  0 <= level <= 3 ->
  0 <= leaf_base level g p u d ->
  leaf_base level g p u d + (a mod leaf_size level) / PAGE_SIZE < w64 ->
  exists p' u' d',
    handle_normal_page root a g p u d 0 level =
    (print_entry root a p' u' d' (leaf_base level g p u d + (a mod leaf_size level) / PAGE_SIZE),
     u64 (a + PAGE_SIZE)).
Proof.
  intros Hl Hb Hlt. unfold handle_normal_page.
  rewrite (proj2 (Z.leb_le 0 level)), (proj2 (Z.leb_le level 3)) by lia. cbn [andb].
  do 3 eexists. f_equal. f_equal.
  pose proof (index_nonneg a) as (I0 & I1 & I2 & I3). pose proof size_ratios as (R1 & R2 & R3 & R4).
  rewrite R4 in *. revert Hlt. unfold leaf_base, leaf_size in *.
  assert (level = 0 \/ level = 1 \/ level = 2 \/ level = 3) as [-> |[-> |[-> | ->]]] by lia;
    cbn [Z.eqb Z.leb Z.compare Pos.compare Pos.compare_cont Pos.eqb] in *; intros Hlt.
  - rewrite p4d_frames in *. leaf_arith.
  - rewrite pud_frames in *. leaf_arith.
  - rewrite pmd_frames in *. leaf_arith.
  - rewrite pte_frames in *. leaf_arith.
Qed.
End HugePages.

(** A leaf above the last level (a huge page) is dumped as 4 KB pages: the
    frame printed for an address is the leaf's own frame plus the number of
    pages between the start of the leaf and the address, and the walker then
    moves exactly one page. *)
Theorem huge_page_frames `{KL : KernelPTLaws} (m : memory) (o : walk_ops) (root a level g p u d : Z) :
  walk m o root a = Huge level g p u d ->
  0 <= leaf_base level g p u d ->
  leaf_base level g p u d + (a mod leaf_size level) / PAGE_SIZE < w64 ->
  exists p' u' d',
    table_walker m o root a =
    (print_entry root a p' u' d' (leaf_base level g p u d + (a mod leaf_size level) / PAGE_SIZE),
     u64 (a + PAGE_SIZE)).
Proof.
  intros E Hb Hlt. unfold table_walker. rewrite E.
  apply walk_huge_level in E. by apply handle_normal_page_frame.
Qed.

(** A 2 MB leaf at frame 512 covering the addresses from 0. *)
Definition huge_memory : memory := fun p =>
  if p =? x86_va (16 * 4096) then 17 * 4096 + 103
  else if p =? x86_va (17 * 4096) then 18 * 4096 + 103
  else if p =? x86_va (18 * 4096) then 512 * 4096 + 231 else 0.

Lemma huge_page_frames_witness :
  walk huge_memory (normal_ops huge_memory) demo_root 0x5000 = Huge 3 17 17 18 512 /\
  exists p' u' d',
    table_walker huge_memory (normal_ops huge_memory) demo_root 0x5000 =
    (print_entry demo_root 0x5000 p' u' d'
       (leaf_base 3 17 17 18 512 + (0x5000 mod leaf_size 3) / PAGE_SIZE), u64 (0x5000 + PAGE_SIZE)).
Proof.
  split; [vm_compute; reflexivity|].
  apply (huge_page_frames huge_memory (normal_ops huge_memory) demo_root 0x5000 3 17 17 18 512);
    vm_compute; congruence.
Defined.

Example huge_line :
  page_line huge_memory (normal_ops huge_memory) demo_root 0x5000 =
  s2l "0000000000005000,10,11,12,200,205" ++ [NL].
Proof. vm_compute. reflexivity. Qed.

(** ** EPT entries *)

Lemma ept_pfn_mask_bits maxphys i :
  12 <= maxphys < 64 -> 0 <= i ->
  Z.testbit (EPT_PFN_MASK maxphys) i = (12 <=? i) && (i <? maxphys).
Proof.
  intros Hm Hi. unfold EPT_PFN_MASK, EPT_PHYS_MAX.
  assert (Hp : 0 < 2 ^ maxphys < w64).
  { split; [apply Z.pow_pos_nonneg; lia|]. change w64 with (2 ^ 64). apply Z.pow_lt_mono_r; lia. }
  rewrite Z.shiftl_1_l, (u64_small (2 ^ maxphys)), u64_small by lia.
  replace (2 ^ maxphys - 1) with (Z.ones maxphys) by (rewrite Z.ones_equiv; lia).
  replace (u64 (Z.lnot (Z.shiftl 1 12 - 1))) with (Z.ones 64 - Z.ones 12) by reflexivity.
  rewrite Z.land_spec, Z.testbit_ones_nonneg by lia.
  replace (Z.ones 64 - Z.ones 12) with (Z.shiftl (Z.ones 52) 12) by reflexivity.
  rewrite Z.shiftl_spec by lia.
  destruct (12 <=? i) eqn:E; zbool.
  - rewrite Z.testbit_ones_nonneg by lia. destruct (i <? maxphys) eqn:E2; zbool; [|done].
    cbn. apply Z.ltb_lt. lia.
  - rewrite Z.testbit_neg_r by lia. by rewrite andb_false_r.
Qed.

(** The frame number the EPT accessors extract is bits 12 to maxphys-1 of
    the entry, for every physical-address width the processor can report. *)
Theorem ept_pfn_spec `{K : KernelPT} (maxphys : Z) (val : Z -> Z) (entry : Z) :
  12 <= maxphys < 64 -> 0 <= val entry ->
  ept_pfn maxphys val entry = (val entry / 4096) mod 2 ^ (maxphys - 12).
Proof.
  intros Hm He. unfold ept_pfn. change 4096 with (2 ^ 12). rewrite <- (shiftr_div (val entry) 12) by lia.
  rewrite <- Z.land_ones by lia. apply Z.bits_inj'. intros i Hi.
  rewrite Z.shiftr_spec, Z.land_spec, ept_pfn_mask_bits, Z.land_spec, Z.shiftr_spec,
    Z.testbit_ones_nonneg by lia.
  rewrite (proj2 (Z.leb_le 12 (i + 12))) by lia. f_equal.
  destruct (i <? maxphys - 12) eqn:E; zbool; cbn; [apply Z.ltb_lt|apply Z.ltb_ge]; lia.
Qed.

Lemma ept_pfn_spec_witness :
  (12 <= 47 < 64 /\ 0 <= 0x8000012345678007) /\
  ept_pfn 47 (fun v => v) 0x8000012345678007 = (0x8000012345678007 / 4096) mod 2 ^ (47 - 12).
Proof. split; [lia|]. apply (ept_pfn_spec 47 (fun v => v)); lia. Defined.

(** ** Selecting a process *)

Lemma pt_write_text c s current g :
  (1 <= length s <= 11)%nat -> no_char NUL s ->
  (code c <? code "0"%char) || (code "9"%char <? code c) = true ->
  pt_write (c :: s) true current g =
  (Z.of_nat (S (length s)),
   match kstrtoint s with
   | Some pid => set_pid (set_mode g c) pid
   | None => set_pid (set_mode g c) current
   end).
Proof.
  intros Hl Hn Hc. unfold pt_write. cbn [length].
  rewrite (proj2 (Z.ltb_lt _ 64)) by lia. rewrite (proj2 (Z.eqb_neq (Z.of_nat (S (length s))) 0)) by lia.
  cbn [negb]. rewrite Nat2Z.id. rewrite firstn_all2 by (cbn; lia).
  rewrite Hc, (proj2 (Z.eqb_neq _ 0)) by lia. rewrite cstr_no_NUL by done. by destruct (kstrtoint s).
Qed.

(** Writing a mode character followed by a process id selects both; the
    newline an [echo] appends is accepted, and the whole write is consumed. *)
Theorem pt_write_selects (g : globals) (c : ascii) (pid current : Z) (nl : text) :
  0 <= pid < 2147483648 -> (nl = [] \/ nl = [NL]) ->
  (code c <? code "0"%char) || (code "9"%char <? code c) = true ->
  exists n, n = Z.of_nat (length (c :: fmt_d pid ++ nl)) /\
  pt_write (c :: fmt_d pid ++ nl) true current g = (n, set_pid (set_mode g c) pid).
Proof.
  intros Hp Hnl Hc. eexists; split; [reflexivity|].
  pose proof (length_fmt_d pid ltac:(lia)).
  rewrite pt_write_text; [by rewrite kstrtoint_fmt_d|..|done].
  - rewrite length_app. destruct Hnl as [-> | ->]; cbn [length]; lia.
  - apply no_char_app. split; [apply fmt_d_no_NUL; lia|].
    destruct Hnl as [-> | ->]; repeat constructor; done.
Qed.

Lemma pt_write_selects_witness :
  exists n, n = 6 /\ pt_write (s2l "U4242" ++ [NL]) true 1 init_globals =
            (n, set_pid (set_mode init_globals "U"%char) 4242).
Proof.
  assert (H : 0 <= 4242 < 2147483648) by lia.
  exact (pt_write_selects init_globals "U"%char 4242 1 [NL] H (or_intror eq_refl) eq_refl).
Defined.
