(* ===== verification/HostTranslator.v ===== *)
(** * The host GPA-to-HPA translator (src/PageTables/Host/host_gpa_translator.c)

    The kernel module that reads a guest dump line by line, translates every
    guest frame by walking QEMU's page tables, keeps one entry per distinct
    frame, and prints the entries.  The kernel's hash table is the class
    [PfnHash]; allocation is an oracle indexed by the number of allocations
    made so far; process and memory-map look-ups are parameters. *)
From S2P Require Export CText PageTable.

Definition INVALID_PFN : Z := ULONG_MAX.
Definition PAGE_SHIFT : Z := 12.
Definition EINVAL : Z := 22.
Definition EFAULT : Z := 14.
Definition ENOENT : Z := 2.
Definition ENOMEM : Z := 12.
Definition ESRCH : Z := 3.

(** ** Data *)

(** The frames met on the way down: [chain_pfn1] to [chain_pfn5]. *)
Record chain := { chain_pfn1 : Z; chain_pfn2 : Z; chain_pfn3 : Z; chain_pfn4 : Z; chain_pfn5 : Z }.
Definition no_chain : chain :=
  {| chain_pfn1 := INVALID_PFN; chain_pfn2 := INVALID_PFN; chain_pfn3 := INVALID_PFN;
     chain_pfn4 := INVALID_PFN; chain_pfn5 := INVALID_PFN |}.

(** A cached translation ([struct pfn_translation], without its hash link). *)
Record pfn_translation := { gpa_pfn : Z; hpa_pfn : Z; pt_chain : chain }.

(** An array entry ([struct translation_entry]). *)
Record translation_entry := { te_gpa_pfn : Z; te_hpa_pfn : Z; te_chain : chain }.
Definition zero_entry : translation_entry :=
  {| te_gpa_pfn := 0; te_hpa_pfn := 0;
     te_chain := {| chain_pfn1 := 0; chain_pfn2 := 0; chain_pfn3 := 0; chain_pfn4 := 0; chain_pfn5 := 0 |} |}.
(** [sizeof (struct translation_entry)]: seven unsigned longs. *)
Definition sizeof_entry : Z := 56.

Record vm_area := { vm_start : Z; vm_end : Z; vm_file : bool; vm_read : bool; vm_write : bool }.
Record mm_struct := { mm_pgd : Z; mm_vmas : list vm_area }.

(** *** The kernel's hash table

    [hash_for_each_possible] walks the chain of a key's bucket, [hash_add]
    puts an element at the head of the chain of its key's bucket, and two keys
    may share a bucket. *)
Class PfnHash (H : Type) := {
  hash_init : H;
  hash_possible : H -> Z -> list pfn_translation;
  hash_add : H -> pfn_translation -> Z -> H;
  hash_del_all : H -> H
}.
Class PfnHashLaws (H : Type) `{PfnHash H} : Prop := {
  possible_init k : hash_possible hash_init k = [];
  possible_del_all h k : hash_possible (hash_del_all h) k = [];
  possible_add_same h e k : hash_possible (hash_add h e k) k = e :: hash_possible h k;
  possible_add_other h e k k' :
    hash_possible (hash_add h e k) k' = hash_possible h k' \/
    hash_possible (hash_add h e k) k' = e :: hash_possible h k'
}.

(** The module's globals, in three groups. *)
Record config := { qemu_pid : Z; guest_pid : Z; guest_ram_base : Z; guest_ram_size : Z }.

Record table (H : Type) := {
  entry_count : Z;
  translated_count : Z;
  successful_translations : Z;
  unsuccessful_translations : Z;
  pfn_translation_hash : H;
  translation_entries : option (list translation_entry);
  translation_capacity : Z;
  nalloc : nat
}.
Arguments Build_table {H}.
Arguments entry_count {H}. Arguments translated_count {H}.
Arguments successful_translations {H}. Arguments unsuccessful_translations {H}.
Arguments pfn_translation_hash {H}. Arguments translation_entries {H}.
Arguments translation_capacity {H}. Arguments nalloc {H}.

Record session := {
  total_lines_processed : Z;
  processed : Z;
  partial_line : option text;
  temp_guest_pid : Z
}.

Record state (H : Type) := { st_config : config; st_table : table H; st_session : session }.
Arguments Build_state {H}. Arguments st_config {H}. Arguments st_table {H}. Arguments st_session {H}.

Definition set_guest_pid (c : config) (p : Z) : config :=
  {| qemu_pid := qemu_pid c; guest_pid := p; guest_ram_base := guest_ram_base c;
     guest_ram_size := guest_ram_size c |}.
Definition set_qemu_pid (c : config) (p : Z) : config :=
  {| qemu_pid := p; guest_pid := guest_pid c; guest_ram_base := guest_ram_base c;
     guest_ram_size := guest_ram_size c |}.
Definition set_guest_ram (c : config) (base size : Z) : config :=
  {| qemu_pid := qemu_pid c; guest_pid := guest_pid c; guest_ram_base := base; guest_ram_size := size |}.

(** ** Finding guest RAM *)

(** The scan over the VMAs: the size and start of the largest anonymous,
    readable and writable area over 100 MB so far. *)
Definition scan_vma (best : Z * Z) (v : vm_area) : Z * Z :=
  let '(max_size, base) := best in
  if negb (vm_file v) && vm_read v && vm_write v then
    let vma_size := u64 (vm_end v - vm_start v) in
    if (100 * 1024 * 1024 <? vma_size) && (max_size <? vma_size) then (vma_size, vm_start v) else best
  else best.

Definition find_guest_ram_base (c : config) (mm : option mm_struct) : Z * config :=
  match mm with
  | None => (- EINVAL, c)
  | Some mm =>
      let '(size, base) := fold_left scan_vma (mm_vmas mm) (0, 0) in
      if base =? 0 then (- ENOENT, c) else (0, set_guest_ram c base size)
  end.

Section Translate.
Context `{K : KernelPT}.

(** ** Walking QEMU's page tables

    Returns the error code, the host physical address and the chain as far as
    the walk got. *)
Definition translate_gpa_to_hpa (m : memory) (mm : option mm_struct) (c : config) (gpa : Z)
  : Z * Z * chain :=
  let fail ch := (- EFAULT, 0, ch) in
  match mm with
  | None => (- EINVAL, 0, no_chain)
  | Some mm =>
  if guest_ram_base c =? 0 then (- EINVAL, 0, no_chain) else
  let qemu_va := u64 (guest_ram_base c + gpa) in
  let page_offset := Z.land qemu_va (PAGE_SIZE - 1) in
  let pgd := pgd_offset_pgd (mm_pgd mm) qemu_va in
  if l_none pgd_ops (m pgd) || l_bad pgd_ops (m pgd) then fail no_chain else
  let c1 := l_pfn pgd_ops (m pgd) in
  let ch1 := {| chain_pfn1 := c1; chain_pfn2 := INVALID_PFN; chain_pfn3 := INVALID_PFN;
                chain_pfn4 := INVALID_PFN; chain_pfn5 := INVALID_PFN |} in
  let p4d := p4d_offset m pgd qemu_va in
  if l_none p4d_ops (m p4d) || l_bad p4d_ops (m p4d) then fail ch1 else
  let c2 := l_pfn p4d_ops (m p4d) in
  let ch2 := {| chain_pfn1 := c1; chain_pfn2 := c2; chain_pfn3 := INVALID_PFN;
                chain_pfn4 := INVALID_PFN; chain_pfn5 := INVALID_PFN |} in
  let pud := pud_offset m p4d qemu_va in
  if l_none pud_ops (m pud) then fail ch2 else
  let c3 := l_pfn pud_ops (m pud) in
  let ch3 := {| chain_pfn1 := c1; chain_pfn2 := c2; chain_pfn3 := c3;
                chain_pfn4 := INVALID_PFN; chain_pfn5 := INVALID_PFN |} in
  if l_leaf pud_ops (m pud) then
    (0, Z.lor (u64 (Z.shiftl c3 PAGE_SHIFT)) (Z.land qemu_va (PUD_SIZE - 1)),
     {| chain_pfn1 := c1; chain_pfn2 := c2; chain_pfn3 := c3; chain_pfn4 := INVALID_PFN; chain_pfn5 := c3 |})
  else if l_bad pud_ops (m pud) then fail ch3 else
  let pmd := pmd_offset m pud qemu_va in
  if l_none pmd_ops (m pmd) then fail ch3 else
  let c4 := l_pfn pmd_ops (m pmd) in
  let ch4 := {| chain_pfn1 := c1; chain_pfn2 := c2; chain_pfn3 := c3;
                chain_pfn4 := c4; chain_pfn5 := INVALID_PFN |} in
  if l_leaf pmd_ops (m pmd) then
    (0, Z.lor (u64 (Z.shiftl c4 PAGE_SHIFT)) (Z.land qemu_va (PMD_SIZE - 1)),
     {| chain_pfn1 := c1; chain_pfn2 := c2; chain_pfn3 := c3; chain_pfn4 := c4; chain_pfn5 := c4 |})
  else if l_bad pmd_ops (m pmd) then fail ch4 else
  let pte := pte_offset_map m pmd qemu_va in
  if pte =? 0 then fail ch4 else
  if pte_none (m pte) || negb (pte_present (m pte)) then fail ch4 else
  let pfn := pte_pfn (m pte) in
  (0, Z.lor (u64 (Z.shiftl pfn PAGE_SHIFT)) page_offset,
   {| chain_pfn1 := c1; chain_pfn2 := c2; chain_pfn3 := c3; chain_pfn4 := c4; chain_pfn5 := pfn |})
  end.
End Translate.

Section Module_.
Context `{K : KernelPT} {H : Type} `{HH : PfnHash H}.
(** [alloc_ok i n]: whether the [i]-th allocation, of [n] bytes, succeeds;
    [junk]: what an uninitialised slot of a vmalloc'ed array reads as. *)
Context (alloc_ok : nat -> Z -> bool) (junk : translation_entry) (m : memory).

Definition sizeof_translation : Z := 72.

(** ** The translation cache *)

Definition tab_alloc (t : table H) : table H :=
  {| entry_count := entry_count t; translated_count := translated_count t;
     successful_translations := successful_translations t;
     unsuccessful_translations := unsuccessful_translations t;
     pfn_translation_hash := pfn_translation_hash t; translation_entries := translation_entries t;
     translation_capacity := translation_capacity t; nalloc := S (nalloc t) |}.

(** Returns the cached or new translation and whether it is new ([None] for
    NULL). *)
Definition get_or_translate_pfn (c : config) (mm : option mm_struct) (gpa : Z) (t : table H)
  : option (pfn_translation * bool) * table H :=
  if gpa =? 0 then (None, t) else
  match List.find (fun e => gpa_pfn e =? gpa) (hash_possible (pfn_translation_hash t) gpa) with
  | Some e => (Some (e, false), t)
  | None =>
      let '(ret, hpa, ch) := translate_gpa_to_hpa m mm c (u64 (Z.shiftl gpa PAGE_SHIFT)) in
      if negb (alloc_ok (nalloc t) sizeof_translation) then (None, tab_alloc t) else
      let ok := ret =? 0 in
      let e := {| gpa_pfn := gpa;
                  hpa_pfn := if ok then Z.shiftr hpa PAGE_SHIFT else INVALID_PFN;
                  pt_chain := ch |} in
      (Some (e, true),
       {| entry_count := entry_count t; translated_count := u64 (translated_count t + 1);
          successful_translations :=
            if ok then u64 (successful_translations t + 1) else successful_translations t;
          unsuccessful_translations :=
            if ok then unsuccessful_translations t else u64 (unsuccessful_translations t + 1);
          pfn_translation_hash := hash_add (pfn_translation_hash t) e gpa;
          translation_entries := translation_entries t;
          translation_capacity := translation_capacity t; nalloc := S (nalloc t) |})
  end.

(** ** The entry array *)

(** Doubling: the new array, or NULL.  vzalloc clears the first array; vmalloc
    does not clear the later ones, which start with a copy of the old. *)
Definition new_array (t : table H) (new_capacity : Z) : option (list translation_entry) :=
  let bytes := u64 (new_capacity * sizeof_entry) in
  let slots := Z.to_nat (bytes / sizeof_entry) in
  if negb (alloc_ok (nalloc t) bytes) then None
  else match translation_entries t with
       | None => Some (repeat zero_entry slots)
       | Some old =>
           let n := Z.to_nat (entry_count t) in
           Some (firstn n old ++ repeat junk (slots - n))
       end.

Definition grow_array (t : table H) : option (table H) * table H :=
  if translation_capacity t <=? entry_count t then
    let new_capacity := if translation_capacity t =? 0 then 1024 else u64 (translation_capacity t * 2) in
    match new_array t new_capacity with
    | None => (None, tab_alloc t)
    | Some a =>
        let t' := {| entry_count := entry_count t; translated_count := translated_count t;
                     successful_translations := successful_translations t;
                     unsuccessful_translations := unsuccessful_translations t;
                     pfn_translation_hash := pfn_translation_hash t;
                     translation_entries := Some a;
                     translation_capacity := new_capacity; nalloc := S (nalloc t) |} in
        (Some t', t')
    end
  else (Some t, t).

(** [Undef] when the slot written is outside the array. *)
Definition add_translation_entry (e : translation_entry) (t : table H) : cres (table H) :=
  match grow_array t with
  | (None, t) => Val t
  | (Some t, _) =>
      match translation_entries t with
      | None => Undef
      | Some a =>
          if Z.of_nat (length a) <=? entry_count t then Undef
          else Val {| entry_count := u64 (entry_count t + 1); translated_count := translated_count t;
                      successful_translations := successful_translations t;
                      unsuccessful_translations := unsuccessful_translations t;
                      pfn_translation_hash := pfn_translation_hash t;
                      translation_entries := Some (<[Z.to_nat (entry_count t) := e]> a);
                      translation_capacity := translation_capacity t; nalloc := nalloc t |}
      end
  end.

(** The session's [total_lines_processed], which the function also resets, is
    reset by its two callers below. *)
Definition clear_translations (t : table H) : table H := {|
  entry_count := 0; translated_count := 0; successful_translations := 0;
  unsuccessful_translations := 0;
  pfn_translation_hash := hash_del_all (pfn_translation_hash t);
  translation_entries := None;
  translation_capacity := match translation_entries t with Some _ => 0 | None => translation_capacity t end;
  nalloc := nalloc t |}.

(** ** One record of the guest dump *)

(** The block repeated for each of the five frames. *)
Definition process_pfn (c : config) (mm : option mm_struct) (pfn : Z) (t : table H) : cres (table H) :=
  if pfn =? 0 then Val t else
  match get_or_translate_pfn c mm pfn t with
  | (Some (trans, true), t) =>
      add_translation_entry
        {| te_gpa_pfn := pfn; te_hpa_pfn := hpa_pfn trans; te_chain := pt_chain trans |} t
  | (_, t) => Val t
  end.

Definition process_entry (c : config) (mm : option mm_struct) (pfn1 pfn2 pfn3 pfn4 pfn5 : Z)
    (t : table H) : cres (table H) :=
  t ← process_pfn c mm pfn1 t;
  t ← process_pfn c mm pfn2 t;
  t ← process_pfn c mm pfn3 t;
  t ← process_pfn c mm pfn4 t;
  process_pfn c mm pfn5 t.

Definition parse_and_translate (c : config) (mm : option mm_struct) (line : text) (t : table H)
  : cres (Z * table H) :=
  match line with
  | [] => Val (0, t)
  | x :: _ =>
      if decide (x = NL) then Val (0, t) else
      match split_at COMMA line with
      | None => Val (- EINVAL, t)
      | Some (_, rest) =>
          match kscan_fields 5 rest with
          | [p1; p2; p3; p4; p5] =>
              t ← process_entry c mm p1 p2 p3 p4 p5 t; Val (0, t)
          | _ => Val (- EINVAL, t)
          end
      end
  end.

(** ** The QEMU process *)

Section Processes.
Context {P T : Type} (find_get_pid : Z -> option P) (pid_task : P -> option T)
        (get_task_mm : T -> option mm_struct) (task_comm : T -> text).

Definition get_qemu_mm (c : config) : option mm_struct :=
  if qemu_pid c =? 0 then None
  else match find_get_pid (qemu_pid c) with
       | None => None
       | Some p => match pid_task p with None => None | Some t => get_task_mm t end
       end.

(** Returns the error code, the command name and the table's physical address
    ([comm] is filled before the memory map is looked at). *)
Definition get_qemu_info (c : config) (comm_size : nat) : Z * text * Z :=
  if qemu_pid c =? 0 then (- EINVAL, [], 0)
  else match find_get_pid (qemu_pid c) with
       | None => (- ESRCH, [], 0)
       | Some p =>
           match pid_task p with
           | None => (- ESRCH, [], 0)
           | Some t =>
               let comm := firstn (comm_size - 1) (cstr (task_comm t)) in
               match get_task_mm t with
               | None => (- ESRCH, comm, 0)
               | Some mm => (0, comm, pa (mm_pgd mm))
               end
           end
       end.

(** ** The config file *)

Definition PROC_CONFIG : text := s2l "host_gpa_config".
Definition TASK_COMM_LEN : nat := 16.

Definition config_show (s : state H) : text :=
  let c := st_config s in
  let t := st_table s in
  s2l "Host GPA to HPA Translator - Step 5 (Final)" ++ [NL] ++
  s2l "==========================================" ++ [NL; NL] ++
  (if qemu_pid c =? 0 then
     s2l "Status: Not configured" ++ [NL] ++
     s2l "Usage: echo <qemu_pid> > /proc/" ++ PROC_CONFIG ++ [NL]
   else
     s2l "Status: Configured" ++ [NL] ++ s2l "QEMU PID: " ++ fmt_d (qemu_pid c) ++ [NL] ++
     (let '(ret, comm, pgd_pa) := get_qemu_info c TASK_COMM_LEN in
      if ret =? 0 then
        s2l "QEMU Process: " ++ comm ++ [NL] ++
        s2l "QEMU PGD (Host PA): 0x" ++ fmt_lx pgd_pa ++ [NL] ++
        s2l "Process Status: FOUND ✓" ++ [NL]
      else s2l "Process Status: NOT FOUND" ++ [NL]) ++
     (if negb (guest_ram_base c =? 0) then
        s2l "Guest RAM Base: 0x" ++ fmt_lx (guest_ram_base c) ++ [NL] ++
        s2l "Guest RAM Size: " ++ fmt_lu (guest_ram_size c / 1024 / 1024) ++ s2l " MB" ++ [NL]
      else []) ++
     [NL] ++ s2l "Guest PID: " ++ fmt_d (guest_pid c) ++ [NL] ++
     s2l "Unique entries: " ++ fmt_lu (entry_count t) ++ [NL] ++
     s2l "Translated: " ++ fmt_lu (translated_count t) ++ [NL] ++
     s2l "Successful translations: " ++ fmt_lu (successful_translations t) ++ [NL] ++
     s2l "Unsuccessful translations: " ++ fmt_lu (unsuccessful_translations t) ++ [NL]).

Definition config_write (user : text) (copied : bool) (s : state H) : Z * state H :=
  let len := Nat.min (length user) 31 in
  if negb copied then (- EFAULT, s)
  else match kstrtoint (cstr (firstn len user)) with
       | None => (- EINVAL, s)
       | Some pid =>
           let c := set_qemu_pid (st_config s) pid in
           let c := match get_qemu_mm c with
                    | None => c
                    | Some mm => snd (find_guest_ram_base c (Some mm))
                    end in
           (Z.of_nat (length user),
            {| st_config := c; st_table := st_table s; st_session := st_session s |})
       end.

(** ** The input file *)

(** What the loop over the complete lines carries: the header flag, the
    configuration, the table, the header value and the line count. *)
Record line_state := {
  first_line : bool; ls_config : config; ls_table : table H; ls_temp_pid : Z; ls_processed : Z
}.

Definition process_line (mm : option mm_struct) (s : line_state) (line : text) : cres line_state :=
  match line with
  | [] => Val s
  | _ =>
      if first_line s then
        let pid := default 0 (kstrtoint line) in
        Val {| first_line := false; ls_config := set_guest_pid (ls_config s) pid;
               ls_table := ls_table s; ls_temp_pid := pid; ls_processed := ls_processed s |}
      else
        '(ret, t) ← parse_and_translate (ls_config s) mm line (ls_table s);
        Val {| first_line := false; ls_config := ls_config s; ls_table := t;
               ls_temp_pid := ls_temp_pid s;
               ls_processed := if ret =? 0 then u64 (ls_processed s + 1) else ls_processed s |}
  end.

Fixpoint process_lines (mm : option mm_struct) (s : line_state) (ls : list text) : cres line_state :=
  match ls with
  | [] => Val s
  | l :: ls => s ← process_line mm s l; process_lines mm s ls
  end.

Definition start_session (s : state H) : state H :=
  {| st_config := st_config s; st_table := clear_translations (st_table s);
     st_session := {| total_lines_processed := 0; processed := 0; partial_line := None;
                      temp_guest_pid := 0 |} |}.

Definition with_nalloc (s : state H) (n : nat) : state H :=
  let t := st_table s in
  {| st_config := st_config s; st_session := st_session s;
     st_table := {| entry_count := entry_count t; translated_count := translated_count t;
                    successful_translations := successful_translations t;
                    unsuccessful_translations := unsuccessful_translations t;
                    pfn_translation_hash := pfn_translation_hash t;
                    translation_entries := translation_entries t;
                    translation_capacity := translation_capacity t; nalloc := n |} |}.

Definition with_partial (s : state H) (p : option text) : state H :=
  let e := st_session s in
  {| st_config := st_config s; st_table := st_table s;
     st_session := {| total_lines_processed := total_lines_processed e; processed := processed e;
                      partial_line := p; temp_guest_pid := temp_guest_pid e |} |}.

(** One write to the input file: the result, the state and the new [*ppos]. *)
Definition input_write (user : text) (copied : bool) (ppos : Z) (s : state H)
  : cres (Z * state H * Z) :=
  let count := Z.of_nat (length user) in
  let s := if ppos =? 0 then start_session s else s in
  let n := nalloc (st_table s) in
  if negb (alloc_ok n (count + 1)) then Val (- ENOMEM, with_nalloc s (S n), ppos) else
  if negb copied then Val (- EFAULT, with_nalloc s (S n), ppos) else
  let prefix := default [] (partial_line (st_session s)) in
  if negb (alloc_ok (S n) (Z.of_nat (length prefix) + count + 1)) then
    Val (- ENOMEM, with_nalloc s (S (S n)), ppos) else
  let full_buf := cstr (prefix ++ user) in
  match rsplit_at NL full_buf with
  | None => Val (count, with_partial (with_nalloc s (S (S n))) (Some full_buf), u64 (ppos + count))
  | Some (complete, remaining) =>
      let keep := match remaining with [] => false | _ => true end in
      let s := with_partial (with_nalloc s (if keep then S (S (S n)) else S (S n)))
                 (if keep && alloc_ok (S (S n)) (Z.of_nat (length remaining) + 1)
                  then Some remaining else None) in
      match get_qemu_mm (st_config s) with
      | None => Val (- ESRCH, s, ppos)
      | Some mm =>
          let e := st_session s in
          r ← process_lines (Some mm)
                {| first_line := ppos =? 0; ls_config := st_config s; ls_table := st_table s;
                   ls_temp_pid := temp_guest_pid e; ls_processed := processed e |}
                (fst (lines_of complete));
          let t := ls_table r in
          Val (count,
               {| st_config := ls_config r;
                  st_table := {| entry_count := entry_count t;
                                 translated_count := u64 (translated_count t + ls_processed r);
                                 successful_translations := successful_translations t;
                                 unsuccessful_translations := unsuccessful_translations t;
                                 pfn_translation_hash := pfn_translation_hash t;
                                 translation_entries := translation_entries t;
                                 translation_capacity := translation_capacity t;
                                 nalloc := nalloc t |};
                  st_session := {| total_lines_processed := u64 (total_lines_processed e + ls_processed r);
                                   processed := ls_processed r; partial_line := partial_line e;
                                   temp_guest_pid := ls_temp_pid r |} |},
               u64 (ppos + count))
      end
  end.
End Processes.

Definition input_show (s : state H) : text :=
  s2l "Write guest page table dump here" ++ [NL] ++
  s2l "Format: <PID>\n<VA,PFN1,PFN2,PFN3,PFN4,PFN5>\n..." ++ [NL] ++
  s2l "Note: VA is ignored, all PFNs are in hex" ++ [NL] ++
  [NL] ++ s2l "Total entries: " ++ fmt_lu (entry_count (st_table s)) ++ [NL] ++
  s2l "Unique PFNs translated: " ++ fmt_lu (translated_count (st_table s)) ++ [NL].

(** ** The output file *)

(** What the iterator points at: the header marker or an array slot. *)
Inductive out_ptr := OutHeader | OutEntry (idx : Z).

Definition output_start (t : table H) (pos : Z) : option out_ptr :=
  if pos =? 0 then Some OutHeader
  else match translation_entries t with
       | None => None
       | Some _ =>
           if entry_count t =? 0 then None
           else if entry_count t <=? u64 (pos - 1) then None else Some (OutEntry (pos - 1))
       end.

Definition output_next (t : table H) (v : out_ptr) (pos : Z) : option out_ptr * Z :=
  let pos := pos + 1 in
  (match v with
   | OutHeader =>
       match translation_entries t with
       | None => None
       | Some _ => if entry_count t =? 0 then None else Some (OutEntry 0)
       end
   | OutEntry _ =>
       if entry_count t <=? u64 (pos - 1) then None else Some (OutEntry (pos - 1))
   end, pos).

Definition fmt_field (pfn : Z) : text := if pfn =? INVALID_PFN then s2l "NAN" else fmt_lx pfn.

Definition show_entry (e : translation_entry) : text :=
  fmt_lx (u64 (Z.shiftl (te_gpa_pfn e) 12)) ++ COMMA ::
  joinc COMMA (map fmt_field
    [chain_pfn1 (te_chain e); chain_pfn2 (te_chain e); chain_pfn3 (te_chain e);
     chain_pfn4 (te_chain e); chain_pfn5 (te_chain e)]) ++ [NL].

Definition output_show (s : state H) (v : out_ptr) : cres text :=
  match v with
  | OutHeader => Val (fmt_d (guest_pid (st_config s)) ++ [NL])
  | OutEntry idx =>
      match translation_entries (st_table s) with
      | None => Undef
      | Some a => e ← cres_of_option (a !! Z.to_nat idx); Val (show_entry e)
      end
  end.

(** seq_file's protocol for one complete read: show, then next, until next
    returns NULL. *)
Fixpoint output_pass (fuel : nat) (s : state H) (v : out_ptr) (pos : Z) : option (cres text) :=
  match fuel with
  | O => None
  | S f =>
      match output_next (st_table s) v pos with
      | (None, _) => Some (output_show s v)
      | (Some v', pos') =>
          rest ← output_pass f s v' pos';
          Some (out ← output_show s v; r ← rest; Val (out ++ r))
      end
  end.

(** ** Loading and unloading *)

Definition test_line : text := s2l "00007f1396583000,15171e,215fb0,131b3a,107adc,34c1614".

Definition boot_config : config :=
  {| qemu_pid := 0; guest_pid := 0; guest_ram_base := 0; guest_ram_size := 0 |}.
Definition boot_state (h : H) : state H := {|
  st_config := boot_config;
  st_table := {| entry_count := 0; translated_count := 0; successful_translations := 0;
                 unsuccessful_translations := 0; pfn_translation_hash := h;
                 translation_entries := None; translation_capacity := 0; nalloc := 0 |};
  st_session := {| total_lines_processed := 0; processed := 0; partial_line := None; temp_guest_pid := 0 |} |}.

(** The module tests its parser on a fixed line with no memory map, then
    resets the hash table and the array.  [created] says which of the three
    proc entries proc_create returned. *)
Definition translator_init (created : bool * bool * bool) (s : state H) : cres (Z * state H) :=
  '(_, t) ← parse_and_translate (st_config s) None test_line (st_table s);
  let s := {| st_config := st_config s;
              st_table := {| entry_count := entry_count t; translated_count := translated_count t;
                             successful_translations := successful_translations t;
                             unsuccessful_translations := unsuccessful_translations t;
                             pfn_translation_hash := hash_init;
                             translation_entries := None; translation_capacity := 0;
                             nalloc := nalloc t |};
              st_session := st_session s |} in
  let '(c1, c2, c3) := created in
  Val (if c1 && c2 && c3 then 0 else - ENOMEM, s).

Definition translator_exit (s : state H) : state H :=
  let e := st_session s in
  {| st_config := st_config s; st_table := clear_translations (st_table s);
     st_session := {| total_lines_processed := 0; processed := processed e; partial_line := None;
                      temp_guest_pid := temp_guest_pid e |} |}.
End Module_.

(** * Proofs *)

(** ** A concrete hash table: 2^14 chains *)

Definition TRANS_HASH_BITS : Z := 14.
Definition bucket (k : Z) : Z := Z.shiftr (u64 (k * 0x61C8864680B583EB)) (64 - TRANS_HASH_BITS).
Abbreviation chains := (gmap Z (list pfn_translation)).

#[export] Instance chained_hash : PfnHash chains := {|
  hash_init := ∅;
  hash_possible h k := default [] (h !! bucket k);
  hash_add h e k := <[bucket k := e :: default [] (h !! bucket k)]> h;
  hash_del_all h := ∅
|}.
#[export] Instance chained_hash_laws : PfnHashLaws chains.
Proof.
  constructor; cbn; intros; try by rewrite lookup_empty.
  - by rewrite lookup_insert_eq.
  - destruct (decide (bucket k = bucket k')) as [E|E].
    + right. by rewrite <- E, lookup_insert_eq.
    + left. by rewrite lookup_insert_ne.
Qed.

(** ** What the table stands for

    [known] lists the distinct frames translated so far, oldest first. *)

Definition add_pfn (known : list Z) (p : Z) : list Z :=
  if decide (p = 0 \/ p ∈ known) then known else known ++ [p].

Section Refinement.
Context `{K : KernelPT} {H : Type} `{HH : PfnHash H} `{HL : !PfnHashLaws H}.
Context (alloc_ok : nat -> Z -> bool) (junk : translation_entry) (m : memory).
Context (c : config) (mm : option mm_struct).

(** The translation of a frame, as a cache entry and as an array entry. *)
Definition translation_of (p : Z) : pfn_translation :=
  let '(ret, hpa, ch) := translate_gpa_to_hpa m mm c (u64 (Z.shiftl p PAGE_SHIFT)) in
  {| gpa_pfn := p; hpa_pfn := if ret =? 0 then Z.shiftr hpa PAGE_SHIFT else INVALID_PFN; pt_chain := ch |}.
Definition entry_of (p : Z) : translation_entry :=
  {| te_gpa_pfn := p; te_hpa_pfn := hpa_pfn (translation_of p); te_chain := pt_chain (translation_of p) |}.

Definition translates (p : Z) : bool :=
  let '(ret, _, _) := translate_gpa_to_hpa m mm c (u64 (Z.shiftl p PAGE_SHIFT)) in ret =? 0.

(** The entries the output prints. *)
Definition entries_of (t : table H) : list translation_entry :=
  match translation_entries t with
  | Some a => firstn (Z.to_nat (entry_count t)) a
  | None => []
  end.

Definition cached (h : H) (k : Z) : option pfn_translation :=
  List.find (fun e => gpa_pfn e =? k) (hash_possible h k).

Definition stats (t : table H) : Z * Z := (successful_translations t, unsuccessful_translations t).
Definition known_stats (known : list Z) : Z * Z :=
  (countb translates known, countb (fun p => negb (translates p)) known).

Definition cache_rep (h : H) (known : list Z) : Prop :=
  forall k, cached h k = if decide (k ∈ known) then Some (translation_of k) else None.

Record array_rep (t : table H) (known : list Z) : Prop := {
  rep_count : entry_count t = Z.of_nat (length known);
  rep_entries : entries_of t = map entry_of known;
  rep_array : match translation_entries t with
              | None => known = [] /\ translation_capacity t = 0
              | Some a => Z.of_nat (length a) = translation_capacity t /\ 0 < translation_capacity t /\
                          (translation_capacity t <= Z.max 1024 (2 * entry_count t))
              end
}.

Record table_rep (t : table H) (known : list Z) : Prop := {
  rep_cache : cache_rep (pfn_translation_hash t) known;
  rep_nodup : NoDup known;
  rep_nonzero : 0 ∉ known;
  rep_arr : array_rep t known;
  rep_stats : stats t = known_stats known
}.

Lemma cached_add h e k k' :
  gpa_pfn e = k -> cached (hash_add h e k) k' = if decide (k' = k) then Some e else cached h k'.
Proof.
  intros Hk. unfold cached. case_decide as E.
  - subst k'. rewrite possible_add_same. cbn. by rewrite Hk, Z.eqb_refl.
  - destruct (possible_add_other h e k k') as [->| ->]; [done|]. cbn.
    by rewrite Hk, (proj2 (Z.eqb_neq k k')) by done.
Qed.

Hypothesis alloc_enough : forall i n, 0 < n <= 2 ^ 48 -> alloc_ok i n = true.

Lemma array_bound t known a :
  array_rep t known -> translation_entries t = Some a -> (length known <= length a)%nat.
Proof using.
  intros R Ea. pose proof (f_equal length (rep_entries _ _ R)) as Hl. unfold entries_of in Hl.
  rewrite Ea, length_map, length_firstn in Hl. lia.
Qed.

Lemma grow_array_rep t known :
  array_rep t known -> Z.of_nat (length known) < 2 ^ 40 ->
  exists t', fst (grow_array alloc_ok junk t) = Some t' /\ array_rep t' known /\
    pfn_translation_hash t' = pfn_translation_hash t /\ stats t' = stats t /\
    (exists a, translation_entries t' = Some a) /\ entry_count t' < translation_capacity t'.
Proof using alloc_enough.
  intros R Hb. unfold grow_array.
  destruct (_ <=? _) eqn:E; zbool.
  - set (nc := if translation_capacity t =? 0 then 1024 else u64 (translation_capacity t * 2)).
    assert (Hnc : Z.of_nat (length known) < nc < 2 ^ 42 /\ nc <= Z.max 1024 (2 * Z.of_nat (length known))).
    { pose proof (rep_array _ _ R) as Ha. pose proof (rep_count _ _ R). unfold nc.
      destruct (translation_entries t) as [a|] eqn:Ea.
      - destruct Ha as (Hl & Hp & _). rewrite (proj2 (Z.eqb_neq _ 0)) by lia.
        pose proof (array_bound _ _ _ R Ea). rewrite u64_small; lia.
      - destruct Ha as [-> ->]. cbn. lia. }
    clearbody nc. unfold new_array.
    rewrite (u64_small (nc * sizeof_entry)) by (unfold sizeof_entry; lia).
    rewrite alloc_enough by (unfold sizeof_entry; lia). cbn [negb].
    replace (nc * sizeof_entry / sizeof_entry) with nc by (symmetry; apply Z.div_mul; done).
    pose proof (fun a => array_bound t known a R) as Hab.
    destruct R as [R4 R5 R6]. unfold entries_of in *.
    destruct (translation_entries t) as [a|] eqn:Ea; cbn [fst]; eexists; split_and!; try reflexivity.
    all: try (eauto; done). all: try (cbn; lia).
    all: try specialize (Hab a eq_refl); constructor; cbn; try done; try (rewrite R4, Nat2Z.id in * ).
    + rewrite firstn_app, length_firstn.
      replace (length known - _)%nat with 0%nat by lia.
      by rewrite firstn_O, app_nil_r, firstn_firstn, Nat.min_id.
    + rewrite length_app, length_firstn, repeat_length. lia.
    + destruct R6 as [-> _]. done.
    + rewrite repeat_length. lia.
  - exists t. split_and!; try done; pose proof (rep_array _ _ R) as Ha; pose proof (rep_count _ _ R);
      destruct (translation_entries t); try eauto; lia.
Qed.

Lemma add_entry_rep t known p :
  array_rep t known -> Z.of_nat (length known) < 2 ^ 40 ->
  exists t', add_translation_entry alloc_ok junk (entry_of p) t = Val t' /\
    array_rep t' (known ++ [p]) /\ pfn_translation_hash t' = pfn_translation_hash t /\
    stats t' = stats t.
Proof using alloc_enough.
  intros R Hb. unfold add_translation_entry.
  destruct (grow_array_rep t known R Hb) as (t1 & Hg & R1 & Hh & Hst & [a Ea] & Hc).
  destruct (grow_array alloc_ok junk t) as [o t0]. cbn in Hg. subst o.
  pose proof (array_bound _ _ _ R1 Ea) as Hab.
  destruct R1 as [R4 R5 R6]. unfold entries_of in R5. rewrite Ea in *.
  destruct R6 as (Hl & Hp & Hm). rewrite (proj2 (Z.leb_gt _ _)) by lia.
  eexists; split_and!; [reflexivity| |done|done].
  constructor; unfold entries_of; cbn.
  - rewrite length_app, u64_small; cbn [length]; lia.
  - rewrite u64_small, R4 by lia. replace (Z.to_nat (Z.of_nat (length known) + 1)) with (S (length known)) by lia.
    rewrite Nat2Z.id, map_app, <- R5, R4, Nat2Z.id. cbn.
    erewrite take_S_r by (apply list_lookup_insert_eq; lia).
    by rewrite take_insert_ge by lia.
  - rewrite length_insert, u64_small by lia. lia.
Qed.

Lemma get_rep t known p :
  table_rep t known -> p <> 0 -> Z.of_nat (length known) < 2 ^ 40 ->
  exists t', get_or_translate_pfn alloc_ok m c mm p t = (Some (translation_of p, negb (bool_decide (p ∈ known))), t') /\
    array_rep t' known /\
    cache_rep (pfn_translation_hash t') (if decide (p ∈ known) then known else known ++ [p]) /\
    stats t' = known_stats (if decide (p ∈ known) then known else known ++ [p]).
Proof using alloc_enough HL.
  intros R Hp Hb. unfold get_or_translate_pfn. rewrite (proj2 (Z.eqb_neq p 0)) by done.
  pose proof (rep_cache _ _ R p) as Hc. unfold cached in Hc. rewrite Hc.
  unfold bool_decide. destruct (decide_rel elem_of p known) as [Hin|Hin] eqn:E; cbn [negb].
  - rewrite decide_True by done. exists t. rewrite !decide_True by done. split_and!; (done || apply R).
  - rewrite decide_False by done.
    destruct (translate_gpa_to_hpa m mm c (u64 (Z.shiftl p PAGE_SHIFT))) as [[ret hpa] ch] eqn:Et.
    rewrite alloc_enough by done. cbn [negb].
    assert (Hof : {| gpa_pfn := p; hpa_pfn := if ret =? 0 then Z.shiftr hpa PAGE_SHIFT else INVALID_PFN;
                     pt_chain := ch |} = translation_of p) by (unfold translation_of; by rewrite Et).
    rewrite Hof. eexists; split_and!; [done|..].
    + destruct R as [_ _ _ [R4 R5 R6] _]. by constructor.
    + cbn. rewrite decide_False by done. intros k. rewrite cached_add by by rewrite <- Hof.
      rewrite (rep_cache _ _ R k). destruct (decide (k = p)) as [->|Hk].
      * rewrite decide_True; [done|]. set_solver.
      * destruct (decide (k ∈ known)) as [Hk'|Hk'].
        -- rewrite decide_True; [done|set_solver].
        -- rewrite decide_False; [done|set_solver].
    + rewrite decide_False by done. pose proof (rep_stats _ _ R) as HS.
      unfold stats, known_stats in *. cbn [successful_translations unsuccessful_translations].
      injection HS as -> ->. rewrite !countb_app, !countb_one.
      assert (translates p = (ret =? 0)) as -> by (unfold translates; by rewrite Et).
      pose proof (countb_le translates known). pose proof (countb_le (fun p => negb (translates p)) known).
      pose proof (countb_nonneg translates known). pose proof (countb_nonneg (fun p => negb (translates p)) known).
      destruct (ret =? 0); cbn [negb]; rewrite u64_small by lia; f_equal; lia.
Qed.

Lemma process_pfn_rep t known p :
  table_rep t known -> Z.of_nat (length known) < 2 ^ 40 ->
  exists t', process_pfn alloc_ok junk m c mm p t = Val t' /\ table_rep t' (add_pfn known p).
Proof using alloc_enough HL.
  intros R Hb. unfold process_pfn, add_pfn. destruct (p =? 0) eqn:E; zbool.
  { subst. rewrite decide_True by auto. eauto. }
  destruct (get_rep t known p R E Hb) as (t1 & -> & R1 & C1 & S1).
  unfold bool_decide. destruct (decide_rel elem_of p known) as [Hin|Hin] eqn:Ed; cbn [negb].
  - rewrite decide_True by auto. rewrite decide_True in C1, S1 by done.
    exists t1. split; [done|]. constructor; (apply R || done).
  - rewrite decide_False by naive_solver. rewrite decide_False in C1, S1 by done.
    destruct (add_entry_rep t1 known p R1 Hb) as (t2 & H2 & R2 & Hh & Hst).
    exists t2. split; [exact H2|]. destruct R as [_ Rn Rz _ _].
    constructor; [by rewrite Hh| |set_solver|done|by rewrite Hst].
    apply NoDup_app. split_and!; [done|set_solver|apply NoDup_singleton].
Qed.

(** ** From lines to frames *)

(** The frames a record asks for; [None]: the line is refused. *)
Definition record_pfns (line : text) : option (list Z) :=
  match split_at COMMA line with
  | None => None
  | Some (_, rest) => let ps := kscan_fields 5 rest in if (length ps =? 5)%nat then Some ps else None
  end.

Definition add_line (known : list Z) (line : text) : list Z :=
  fold_left add_pfn (default [] (record_pfns line)) known.

Lemma length_add_pfns ps known :
  (length known <= length (fold_left add_pfn ps known) <= length known + length ps)%nat.
Proof using.
  revert known. induction ps as [|p ps IH]; intros known; cbn [fold_left length]; [lia|].
  specialize (IH (add_pfn known p)). unfold add_pfn in *. case_decide; [lia|].
  rewrite length_app in IH. cbn in IH. lia.
Qed.

Lemma process_entry_rep t known p1 p2 p3 p4 p5 :
  table_rep t known -> Z.of_nat (length known) + 5 < 2 ^ 40 ->
  exists t', process_entry alloc_ok junk m c mm p1 p2 p3 p4 p5 t = Val t' /\
    table_rep t' (fold_left add_pfn [p1; p2; p3; p4; p5] known).
Proof using alloc_enough HL.
  intros R Hb. unfold process_entry.
  pose proof (fun ps => length_add_pfns ps known) as HB.
  destruct (process_pfn_rep t known p1 R) as (t1 & -> & R1); [lia|]. cbn [mbind cres_bind].
  pose proof (HB [p1]); pose proof (HB [p1; p2]); pose proof (HB [p1; p2; p3]);
  pose proof (HB [p1; p2; p3; p4]); cbn in *.
  destruct (process_pfn_rep t1 _ p2 R1) as (t2 & -> & R2); [lia|]. cbn [mbind cres_bind].
  destruct (process_pfn_rep t2 _ p3 R2) as (t3 & -> & R3); [lia|]. cbn [mbind cres_bind].
  destruct (process_pfn_rep t3 _ p4 R3) as (t4 & -> & R4); [lia|]. cbn [mbind cres_bind].
  apply (process_pfn_rep t4 _ p5 R4). lia.
Qed.

Lemma parse_rep t known line :
  table_rep t known -> Z.of_nat (length known) + 5 < 2 ^ 40 -> line <> [] -> no_char NL line ->
  exists t', parse_and_translate alloc_ok junk m c mm line t =
    Val (if decide (is_Some (record_pfns line)) then 0 else - EINVAL, t') /\ table_rep t' (add_line known line).
Proof using alloc_enough HL.
  intros R Hb Hne Hnl. unfold parse_and_translate, add_line, record_pfns.
  destruct line as [|x l]; [done|]. rewrite decide_False by (by inversion Hnl).
  destruct (split_at COMMA (x :: l)) as [[va rest]|]; [|rewrite decide_False by (by intros [? ?]); eauto].
  destruct (kscan_fields 5 rest) as [|p1 [|p2 [|p3 [|p4 [|p5 [|p6 ps]]]]]] eqn:E; cbn [length Nat.eqb];
    try (rewrite decide_False by (by intros [? ?]); eauto; done).
  rewrite decide_True by eauto.
  destruct (process_entry_rep t known p1 p2 p3 p4 p5 R Hb) as (t' & -> & R'). cbn. eauto.
Qed.
End Refinement.

(** ** Writing a whole dump *)

Section Writing.
Context `{K : KernelPT} {H : Type} `{HH : PfnHash H} `{HL : !PfnHashLaws H}.
Context (alloc_ok : nat -> Z -> bool) (junk : translation_entry) (m : memory).
Context {P T : Type} (find_get_pid : Z -> option P) (pid_task : P -> option T)
        (get_task_mm : T -> option mm_struct).
Context (c : config) (mm : mm_struct).
Hypothesis alloc_enough : forall i n, 0 < n <= 2 ^ 48 -> alloc_ok i n = true.
Hypothesis qemu_mm : get_qemu_mm find_get_pid pid_task get_task_mm c = Some mm.

#[local] Abbreviation rep := (table_rep m c (Some mm)).
#[local] Abbreviation write := (input_write alloc_ok junk m find_get_pid pid_task get_task_mm).
#[local] Abbreviation run_lines := (process_lines alloc_ok junk m (Some mm)).

(** A client that writes the chunks one after the other and stops at the first
    short or failed write. *)
Fixpoint write_chunks (chunks : list text) (ppos : Z) (s : state H) : cres (option (state H * Z)) :=
  match chunks with
  | [] => Val (Some (s, ppos))
  | u :: us =>
      '(ret, s, ppos) ← write u true ppos s;
      if ret =? Z.of_nat (length u) then write_chunks us ppos s else Val None
  end.

Lemma length_add_line known line : (length (add_line known line) <= length known + 5)%nat.
Proof using.
  unfold add_line, record_pfns. destruct (split_at COMMA line) as [[va rest]|]; cbn [default]; [|cbn; lia].
  generalize (kscan_fields 5 rest) as ps. intros ps. cbn zeta.
  destruct (_ =? 5)%nat eqn:E; cbn [default from_option]; [|cbn; lia]. apply Nat.eqb_eq in E.
  pose proof (length_add_pfns ps known). unfold id. lia.
Qed.

(** Only [guest_ram_base] is read during translation. *)
Lemma parse_guest_pid p mm' line (t : table H) :
  parse_and_translate alloc_ok junk m (set_guest_pid c p) mm' line t =
  parse_and_translate alloc_ok junk m c mm' line t.
Proof using. reflexivity. Qed.

Lemma process_lines_rep ls s p known :
  Forall (no_char NL) ls -> first_line s = false -> ls_config s = set_guest_pid c p ->
  rep (ls_table s) known -> Z.of_nat (length known) + 5 * Z.of_nat (length ls) < 2 ^ 40 ->
  exists s', run_lines s ls = Val s' /\ ls_config s' = set_guest_pid c p /\
    rep (ls_table s') (fold_left add_line ls known).
Proof using alloc_enough HL.
  intros HF. revert s known. induction HF as [|l ls Hl HF IH]; intros s known Hfl Hc R Hb; cbn; [eauto|].
  destruct l as [|x l].
  - cbn. apply IH; try done. cbn in Hb. lia.
  - unfold process_line. rewrite Hfl, Hc, parse_guest_pid. cbn [length] in Hb.
    destruct (parse_rep alloc_ok junk m c (Some mm) alloc_enough (ls_table s) known (x :: l) R) as (t' & -> & R');
      try done; [lia|]. cbn [mbind cres_bind].
    apply IH; try done. pose proof (length_add_line known (x :: l)). lia.
Qed.

Lemma rep_bump t known n k : rep t known ->
  rep {| entry_count := entry_count t; translated_count := k;
         successful_translations := successful_translations t;
         unsuccessful_translations := unsuccessful_translations t;
         pfn_translation_hash := pfn_translation_hash t;
         translation_entries := translation_entries t;
         translation_capacity := translation_capacity t; nalloc := n |} known.
Proof using.
  intros [R1 R2 R3 [R4 R5 R6] R7].
  constructor; [exact R1|exact R2|exact R3|constructor; [exact R4|exact R5|exact R6]|exact R7].
Qed.

Lemma rep_cleared (t : table H) :
  (translation_entries t = None -> translation_capacity t = 0) -> rep (clear_translations t) [].
Proof using HL.
  clear alloc_enough qemu_mm.
  intros Hw. constructor; [|constructor|set_solver|constructor; cbn; try done|done].
  - intros k. unfold cached. cbn. by rewrite possible_del_all.
  - split; [done|]. destruct (translation_entries t); [done|]. by apply Hw.
Qed.

(** One write, once its allocations have succeeded. *)
Lemma input_write_eq u ppos (s s1 : state H) :
  s1 = (if ppos =? 0 then start_session s else s) ->
  get_qemu_mm find_get_pid pid_task get_task_mm (st_config s1) = Some mm ->
  let prefix := default [] (partial_line (st_session s1)) in
  no_char NUL (prefix ++ u) -> Z.of_nat (length (prefix ++ u)) < 2 ^ 40 ->
  exists n,
  write u true ppos s =
  match rsplit_at NL (prefix ++ u) with
  | None => Val (Z.of_nat (length u), with_partial (with_nalloc s1 n) (Some (prefix ++ u)),
                 u64 (ppos + Z.of_nat (length u)))
  | Some (complete, remaining) =>
      let s2 := with_partial (with_nalloc s1 n) (match remaining with [] => None | _ => Some remaining end) in
      r ← run_lines {| first_line := ppos =? 0; ls_config := st_config s1; ls_table := st_table s2;
                       ls_temp_pid := temp_guest_pid (st_session s1);
                       ls_processed := processed (st_session s1) |} (fst (lines_of complete));
      let t := ls_table r in
      Val (Z.of_nat (length u),
           {| st_config := ls_config r;
              st_table := {| entry_count := entry_count t;
                             translated_count := u64 (translated_count t + ls_processed r);
                             successful_translations := successful_translations t;
                             unsuccessful_translations := unsuccessful_translations t;
                             pfn_translation_hash := pfn_translation_hash t;
                             translation_entries := translation_entries t;
                             translation_capacity := translation_capacity t; nalloc := nalloc t |};
              st_session := {| total_lines_processed :=
                                 u64 (total_lines_processed (st_session s1) + ls_processed r);
                               processed := ls_processed r; partial_line := partial_line (st_session s2);
                               temp_guest_pid := ls_temp_pid r |} |},
           u64 (ppos + Z.of_nat (length u)))
  end.
Proof using alloc_enough.
  intros Hs Hmm prefix Hn Hl. rewrite length_app in Hl. unfold input_write. rewrite <- Hs. clear Hs s.
  rewrite !alloc_enough by lia. cbn [negb]. fold prefix.
  rewrite alloc_enough by lia. cbn [negb]. rewrite cstr_no_NUL by done.
  destruct (rsplit_at NL (prefix ++ u)) as [[complete remaining]|] eqn:E; [|eauto].
  apply rsplit_at_some in E as (E & _). pose proof (f_equal length E) as Hl'. rewrite !length_app in Hl'.
  destruct remaining as [|x r].
  - eexists. cbn [andb]. cbn [st_config with_partial with_nalloc st_session]. rewrite Hmm. reflexivity.
  - rewrite alloc_enough by lia. cbn [andb]. eexists.
    cbn [st_config with_partial with_nalloc st_session]. rewrite Hmm. reflexivity.
Qed.

(** The state after the text [done], of which [header] was the first line. *)
Record dump_rep (header done : text) (data : list text) (s : state H) : Prop := {
  dr_lines : fst (lines_of done) = header :: data;
  dr_config : st_config s = set_guest_pid c (default 0 (kstrtoint header));
  dr_partial : default [] (partial_line (st_session s)) = snd (lines_of done);
  dr_table : rep (st_table s) (fold_left add_line data [])
}.

Lemma length_add_lines ls known :
  Z.of_nat (length (fold_left add_line ls known)) <= Z.of_nat (length known) + 5 * Z.of_nat (length ls).
Proof using.
  clear alloc_enough qemu_mm.
  revert known. induction ls as [|l ls IH]; intros known; cbn [fold_left length]; [lia|].
  specialize (IH (add_line known l)). pose proof (length_add_line known l). lia.
Qed.

Lemma lines_no_NL l : Forall (no_char NL) (fst (lines_of l)).
Proof using.
  clear alloc_enough qemu_mm.
  induction l as [|x t IH]; cbn -[NL]; [constructor|].
  destruct (lines_of t) as [ls r]. case_decide as Hx; cbn in *; [by repeat constructor|].
  destruct ls as [|a ls]; cbn; [constructor|]. inversion_clear IH.
  constructor; [by constructor|done].
Qed.

Lemma no_NUL_rest l : no_char NUL l -> no_char NUL (snd (lines_of l)).
Proof using.
  clear alloc_enough qemu_mm.
  induction 1 as [|x t Hx Ht IH]; cbn -[NL]; [constructor|].
  destruct (lines_of t) as [ls r]. case_decide; cbn in *; [done|]. destruct ls; cbn; [by constructor|done].
Qed.

Lemma length_rest l : (length (snd (lines_of l)) + length (fst (lines_of l)) <= length l)%nat.
Proof using.
  clear alloc_enough qemu_mm.
  induction l as [|x t IH]; cbn -[NL]; [done|].
  destruct (lines_of t) as [ls r]. case_decide; cbn in *; [lia|]. destruct ls; cbn in *; lia.
Qed.

(** A later write carries the invariant on. *)
Lemma input_write_rep header done data u (s : state H) :
  dump_rep header done data s -> done <> [] -> no_char NUL (done ++ u) ->
  Z.of_nat (length (done ++ u)) < 2 ^ 36 ->
  exists s' data',
    write u true (Z.of_nat (length done)) s =
      Val (Z.of_nat (length u), s', Z.of_nat (length (done ++ u))) /\
    dump_rep header (done ++ u) data' s'.
Proof using alloc_enough qemu_mm HL.
  intros [D1 D2 D3 D4] Hne Hn Hl.
  pose proof (length_rest done) as Hr. pose proof (lines_of_split done u) as Hsplit.
  assert (Hpos : (Z.of_nat (length done) =? 0) = false) by (destruct done; [done|apply Z.eqb_neq; cbn; lia]).
  pose proof Hn as Hn'. apply no_char_app in Hn' as [Hnd Hnu].
  assert (Hnp : no_char NUL (snd (lines_of done) ++ u)) by (apply no_char_app; auto using no_NUL_rest).
  rewrite length_app in Hl. rewrite <- D3 in *.
  destruct (input_write_eq u (Z.of_nat (length done)) s s) as [n ->].
  { by rewrite Hpos. } { rewrite D2. exact qemu_mm. } { done. } { rewrite length_app. lia. }
  rewrite u64_small, <- Nat2Z.inj_add, <- length_app by lia.
  destruct (rsplit_at NL _) as [[complete remaining]|] eqn:E.
  - pose proof (rsplit_lines _ _ _ E) as Hfull. rewrite Hfull in Hsplit. cbn [fst snd] in Hsplit.
    rewrite Hpos. cbn zeta.
    pose proof (length_lines_of complete) as Hll.
    apply rsplit_at_some in E as (E & _ & _). apply (f_equal length) in E. rewrite !length_app in E.
    edestruct (process_lines_rep (fst (lines_of complete))) as (r & -> & Rc & Rt);
      [apply lines_no_NL|reflexivity|exact D2|apply rep_bump; exact D4| |].
    + pose proof (length_add_lines data []). rewrite D1 in Hr. cbn [length] in *. lia.
    + cbn [mbind cres_bind]. do 2 eexists. split; [done|]. constructor; cbn [st_config st_session st_table partial_line].
      * rewrite Hsplit, D1. reflexivity.
      * exact Rc.
      * rewrite Hsplit. by destruct remaining.
      * rewrite fold_left_app. by apply rep_bump.
  - apply rsplit_at_none in E. rewrite (lines_of_no_NL _ E) in Hsplit. cbn [fst snd] in Hsplit.
    do 2 eexists. split; [done|]. rewrite app_nil_r in Hsplit.
    constructor; [by rewrite Hsplit| done | by rewrite Hsplit |]. by apply rep_bump.
Qed.

(** The first write, which carries the header line. *)
Lemma input_write_first header body (s : state H) :
  header <> [] -> no_char NL header -> no_char NUL (header ++ NL :: body) ->
  Z.of_nat (length (header ++ NL :: body)) < 2 ^ 36 ->
  st_config s = c ->
  (translation_entries (st_table s) = None -> translation_capacity (st_table s) = 0) ->
  exists s' data,
    write (header ++ NL :: body) true 0 s =
      Val (Z.of_nat (length (header ++ NL :: body)), s', Z.of_nat (length (header ++ NL :: body))) /\
    dump_rep header (header ++ NL :: body) data s'.
Proof using alloc_enough qemu_mm HL.
  intros Hne Hnl Hn Hl Hc Hw.
  destruct (input_write_eq (header ++ NL :: body) 0 s (start_session s)) as [n ->]; try done.
  { cbn. by rewrite Hc. } { cbn. lia. }
  rewrite u64_small by lia. cbn [start_session st_session partial_line default app].
  change (default [] None ++ header ++ NL :: body) with (header ++ NL :: body).
  destruct (rsplit_at NL _) as [[complete remaining]|] eqn:E.
  - pose proof (rsplit_lines _ _ _ E) as Hfull. rewrite lines_of_app_NL in Hfull by done.
    injection Hfull as Hf Hr. rewrite <- Hf. cbn [process_lines].
    destruct header as [|x header]; [done|]. cbn [process_line first_line Z.eqb mbind cres_bind].
    pose proof (length_lines_of body) as Hll. rewrite length_app in Hl. cbn [length] in Hl.
    edestruct (process_lines_rep (fst (lines_of body))) as (r & -> & Rc & Rt);
      [apply lines_no_NL|reflexivity|cbn; by rewrite Hc|apply rep_bump, rep_cleared; exact Hw| |].
    + cbn [length]. lia.
    + cbn [mbind cres_bind]. do 2 eexists. split; [done|].
      constructor; cbn [st_config st_session st_table partial_line].
      * rewrite lines_of_app_NL by done. reflexivity.
      * exact Rc.
      * rewrite lines_of_app_NL by done. cbn [snd]. rewrite Hr. by destruct remaining.
      * by apply rep_bump.
  - exfalso. apply rsplit_at_none in E. apply no_char_app in E as [_ E]. by inversion E.
Qed.

(** Writing the rest of the dump, chunk by chunk. *)
Lemma write_chunks_rep header chunks done data (s : state H) :
  dump_rep header done data s -> done <> [] -> no_char NUL (done ++ concat chunks) ->
  Z.of_nat (length (done ++ concat chunks)) < 2 ^ 36 ->
  exists s' data',
    write_chunks chunks (Z.of_nat (length done)) s =
      Val (Some (s', Z.of_nat (length (done ++ concat chunks)))) /\
    dump_rep header (done ++ concat chunks) data' s'.
Proof using alloc_enough qemu_mm HL.
  revert done data s. induction chunks as [|u us IH]; intros done data s D Hne Hn Hl; cbn [concat write_chunks] in *.
  - rewrite app_nil_r in *. eauto.
  - rewrite app_assoc in *. destruct (input_write_rep header done data u s) as (s1 & data1 & -> & D1); try done.
    { by apply no_char_app in Hn as [? _]. } { rewrite length_app in Hl. lia. }
    cbn [mbind cres_bind]. rewrite Z.eqb_refl. apply (IH (done ++ u) data1 s1); try done.
    by destruct done.
Qed.
End Writing.

(** ** Reading the output *)

Section Reading.
Context {H : Type}.
Implicit Types (t : table H) (s : state H).

(** The array holds as many entries as are counted, or it is absent. *)
Definition array_ok t : Prop :=
  match translation_entries t with
  | Some a => 0 <= entry_count t <= Z.of_nat (length a) /\ entry_count t < 2 ^ 63
  | None => True
  end.

(** What a read that starts at position [pos] prints: position 0 is the header
    line, position [k + 1] the [k]-th entry. *)
Definition output_from s (pos : nat) : text :=
  match pos with
  | O => fmt_d (guest_pid (st_config s)) ++ [NL] ++ concat (map show_entry (entries_of (st_table s)))
  | S k => concat (map show_entry (drop k (entries_of (st_table s))))
  end.

Definition output_read (fuel : nat) s (pos : nat) : option (cres text) :=
  match output_start (st_table s) (Z.of_nat pos) with
  | None => Some (Val [])
  | Some v => output_pass fuel s v (Z.of_nat pos)
  end.

Lemma output_pass_entry s a i fuel :
  array_ok (st_table s) -> translation_entries (st_table s) = Some a ->
  Z.of_nat i < entry_count (st_table s) -> entry_count (st_table s) - Z.of_nat i <= Z.of_nat fuel ->
  output_pass fuel s (OutEntry (Z.of_nat i)) (Z.of_nat (S i)) =
  Some (Val (concat (map show_entry (drop i (entries_of (st_table s)))))).
Proof.
  unfold array_ok. intros Hok Ha. rewrite Ha in Hok. revert i.
  induction fuel as [|f IH]; intros i Hi Hf; [lia|].
  destruct (lookup_lt_is_Some_2 (entries_of (st_table s)) i) as [e He].
  { unfold entries_of. rewrite Ha, length_firstn. lia. }
  assert (Hea : a !! i = Some e).
  { unfold entries_of in He. rewrite Ha, lookup_take_Some in He. tauto. }
  assert (Hshow : output_show s (OutEntry (Z.of_nat i)) = Val (show_entry e)).
  { cbn. by rewrite Ha, Nat2Z.id, Hea. }
  rewrite (drop_S _ _ _ He). cbn [output_pass output_next map concat].
  replace (Z.of_nat (S i) + 1 - 1) with (Z.of_nat (S i)) by lia.
  rewrite u64_small by lia.
  destruct (_ <=? _) eqn:E; zbool.
  - rewrite Hshow. rewrite drop_ge; [by rewrite app_nil_r|].
    unfold entries_of. rewrite Ha, length_firstn. lia.
  - replace (Z.of_nat (S i) + 1) with (Z.of_nat (S (S i))) by lia.
    rewrite IH by lia. cbn [mbind option_bind]. by rewrite Hshow.
Qed.

Lemma entries_length s a :
  array_ok (st_table s) -> translation_entries (st_table s) = Some a ->
  Z.of_nat (length (entries_of (st_table s))) = entry_count (st_table s).
Proof.
  unfold array_ok, entries_of. intros Hok Ha. rewrite Ha in *. rewrite length_firstn. lia.
Qed.

Lemma output_read_spec s pos fuel :
  array_ok (st_table s) -> entry_count (st_table s) < Z.of_nat fuel -> (0 < fuel)%nat -> Z.of_nat pos < 2 ^ 63 ->
  output_read fuel s pos = Some (Val (output_from s pos)).
Proof.
  intros Hok Hf H0 Hp. unfold output_read, output_start.
  destruct (translation_entries (st_table s)) as [a|] eqn:Ea.
  - pose proof (entries_length s a Hok Ea) as Hl.
    destruct pos as [|k].
    + destruct fuel as [|f]; [lia|]. change (Z.of_nat 0) with 0. cbn [Z.eqb output_pass output_next].
      rewrite Ea. destruct (entry_count (st_table s) =? 0) eqn:E; zbool.
      * cbn. destruct (entries_of (st_table s)); [done|cbn in Hl; lia].
      * change (0 + 1) with (Z.of_nat 1). change (OutEntry 0) with (OutEntry (Z.of_nat 0)).
                rewrite (output_pass_entry s a 0 f) by (done || lia). cbn. by rewrite <- app_assoc.
    + rewrite (proj2 (Z.eqb_neq _ 0)) by lia. rewrite u64_small by lia.
      replace (Z.of_nat (S k) - 1) with (Z.of_nat k) by lia. cbn [output_from].
      destruct (entry_count (st_table s) =? 0) eqn:E; zbool.
      * rewrite drop_ge by lia. done.
      * destruct (_ <=? _) eqn:E2; zbool; [by rewrite drop_ge by lia|].
        apply (output_pass_entry s a); (done || lia).
  - assert (En : entries_of (st_table s) = []) by (unfold entries_of; by rewrite Ea).
    unfold output_from. rewrite En. destruct pos as [|k].
    + destruct fuel as [|f]; [lia|]. cbn. by rewrite Ea.
    + rewrite (proj2 (Z.eqb_neq _ 0)) by lia. by rewrite drop_nil.
Qed.
End Reading.

(** The invariant carried through a whole dump; also used by the composition of
    the stages. *)
Lemma chunked_write_rep `{K : KernelPT} {H : Type} `{HL : PfnHashLaws H}
    (alloc_ok : nat -> Z -> bool) (junk : translation_entry) (m : memory) {P T : Type}
    (find_get_pid : Z -> option P) (pid_task : P -> option T) (get_task_mm : T -> option mm_struct)
    (c : config) (mm : mm_struct) (s : state H) (header first : text) (chunks : list text) :
  (forall i n, 0 < n <= 2 ^ 48 -> alloc_ok i n = true) ->
  get_qemu_mm find_get_pid pid_task get_task_mm c = Some mm ->
  st_config s = c ->
  (translation_entries (st_table s) = None -> translation_capacity (st_table s) = 0) ->
  header <> [] -> no_char NL header ->
  let body := first ++ concat chunks in
  let dump := header ++ NL :: body in
  no_char NUL dump -> Z.of_nat (length dump) < 2 ^ 36 ->
  exists s',
    write_chunks alloc_ok junk m find_get_pid pid_task get_task_mm
      ((header ++ NL :: first) :: chunks) 0 s = Val (Some (s', Z.of_nat (length dump))) /\
    st_config s' = set_guest_pid c (default 0 (kstrtoint header)) /\
    table_rep m c (Some mm) (st_table s') (fold_left add_line (fst (lines_of body)) []) /\
    default [] (partial_line (st_session s')) = snd (lines_of body).
Proof.
  intros Ha Hmm Hc Hw Hne Hnl body dump Hn Hl.
  assert (Hd : dump = (header ++ NL :: first) ++ concat chunks) by (unfold dump, body; by rewrite <- app_assoc).
  rewrite Hd in *. pose proof Hn as Hn'. apply no_char_app in Hn' as [Hn1 _].
  cbn [write_chunks].
  destruct (input_write_first alloc_ok junk m find_get_pid pid_task get_task_mm c mm Ha Hmm header first s)
    as (s1 & data1 & -> & D1); try done.
  { rewrite length_app in Hl. lia. }
  cbn [mbind cres_bind]. rewrite Z.eqb_refl.
  destruct (write_chunks_rep alloc_ok junk m find_get_pid pid_task get_task_mm c mm Ha Hmm header chunks _ _ s1 D1)
    as (s2 & data2 & -> & [D2 D3 D4 D5]); try done.
  { by destruct header. }
  exists s2. rewrite <- Hd in D2, D4. unfold dump in D2, D4. rewrite lines_of_app_NL in D2, D4 by done.
  cbn [fst snd] in *. injection D2 as <-. split_and!; done.
Qed.

(** C5. Whatever way the guest dump is cut into writes, as long as the header
    line arrives in the first one, every write is accepted in full, the header
    sets the guest's process id (0 when it does not parse), and the table then
    holds the translation of every distinct non-zero frame of the complete
    records, once, in order of first appearance; the counters count the
    translations that succeeded and failed. *)
Theorem chunked_write_complete `{K : KernelPT} {H : Type} `{HL : PfnHashLaws H}
    (alloc_ok : nat -> Z -> bool) (junk : translation_entry) (m : memory) {P T : Type}
    (find_get_pid : Z -> option P) (pid_task : P -> option T) (get_task_mm : T -> option mm_struct)
    (c : config) (mm : mm_struct) (s : state H) (header first : text) (chunks : list text) :
  (forall i n, 0 < n <= 2 ^ 48 -> alloc_ok i n = true) ->
  get_qemu_mm find_get_pid pid_task get_task_mm c = Some mm ->
  st_config s = c ->
  (translation_entries (st_table s) = None -> translation_capacity (st_table s) = 0) ->
  header <> [] -> no_char NL header ->
  let body := first ++ concat chunks in
  let dump := header ++ NL :: body in
  no_char NUL dump -> Z.of_nat (length dump) < 2 ^ 36 ->
  exists s',
    write_chunks alloc_ok junk m find_get_pid pid_task get_task_mm
      ((header ++ NL :: first) :: chunks) 0 s = Val (Some (s', Z.of_nat (length dump))) /\
    st_config s' = set_guest_pid c (default 0 (kstrtoint header)) /\
    table_rep m c (Some mm) (st_table s') (fold_left add_line (fst (lines_of body)) []) /\
    default [] (partial_line (st_session s')) = snd (lines_of body).
Proof. apply chunked_write_rep. Qed.

(** ** The walk against a reference page walk *)

(** An entry that points to a table of the next level. *)
Definition table_entry (o : level_ops) (v : Z) : Prop := l_none o v = false /\ l_bad o v = false.

(** [backing m root va f size]: the tables under [root] map [va] by a leaf
    with frame [f] and size [size]. *)
Section Backing.
Context `{K : KernelPT} (m : memory) (root va : Z).
#[local] Abbreviation pgd := (pgd_offset_pgd root va).
#[local] Abbreviation p4d := (p4d_offset m pgd va).
#[local] Abbreviation pud := (pud_offset m p4d va).
#[local] Abbreviation pmd := (pmd_offset m pud va).
#[local] Abbreviation pte := (pte_offset_map m pmd va).

Inductive backing : Z -> Z -> Prop :=
| backing_1g :
    table_entry pgd_ops (m pgd) -> table_entry p4d_ops (m p4d) ->
    l_none pud_ops (m pud) = false -> l_leaf pud_ops (m pud) = true ->
    backing (l_pfn pud_ops (m pud)) PUD_SIZE
| backing_2m :
    table_entry pgd_ops (m pgd) -> table_entry p4d_ops (m p4d) ->
    table_entry pud_ops (m pud) -> l_leaf pud_ops (m pud) = false ->
    l_none pmd_ops (m pmd) = false -> l_leaf pmd_ops (m pmd) = true ->
    backing (l_pfn pmd_ops (m pmd)) PMD_SIZE
| backing_4k :
    table_entry pgd_ops (m pgd) -> table_entry p4d_ops (m p4d) ->
    table_entry pud_ops (m pud) -> l_leaf pud_ops (m pud) = false ->
    table_entry pmd_ops (m pmd) -> l_leaf pmd_ops (m pmd) = false ->
    pte <> 0 -> pte_none (m pte) = false -> pte_present (m pte) = true ->
    backing (pte_pfn (m pte)) PAGE_SIZE.
End Backing.

Lemma lor_add a b n : 0 <= n -> (2 ^ n | a) -> 0 <= b < 2 ^ n -> Z.lor a b = a + b.
Proof.
  intros Hn [k ->] Hb. pose proof (Z.add_lor_land (k * 2 ^ n) b) as E.
  assert (Z.land (k * 2 ^ n) b = 0) as E0; [|lia].
  rewrite <- shiftl_mul by done. rewrite <- (Z.mod_small b (2 ^ n)) by done.
  rewrite <- Z.land_ones by done. apply Z.bits_inj'. intros i Hi.
  rewrite !Z.land_spec, Z.bits_0, Z.shiftl_spec, Z.testbit_ones_nonneg by done.
  destruct (i <? n) eqn:Ei; zbool; [|by rewrite !andb_false_r].
  by rewrite Z.testbit_neg_r by lia.
Qed.

Lemma join_frame f va n :
  12 <= n -> (2 ^ n | f * 4096) -> 0 <= f * 4096 < w64 -> 
  Z.lor (u64 (Z.shiftl f 12)) (Z.land va (2 ^ n - 1)) = f * 4096 + va mod 2 ^ n.
Proof.
  intros Hn Hd Hb. rewrite land_mask by lia. rewrite shiftl_mul by lia. change (2 ^ 12) with 4096.
  rewrite u64_small by done. apply (lor_add _ _ n); [lia|done|].
  apply Z.mod_pos_bound. apply Z.pow_pos_nonneg; lia.
Qed.

Section Walk.
Context `{KL : KernelPTLaws} (m : memory) (mm : mm_struct) (c : config).

Lemma leaf_sizes : PAGE_SIZE = 2 ^ 12 /\ PMD_SIZE = 2 ^ 21 /\ PUD_SIZE = 2 ^ 30.
Proof. rewrite pud_size, pmd_size, page_size. done. Qed.

#[local] Ltac walk_cases :=
  repeat match goal with
  | |- context [if ?b then _ else _] =>
      match b with
      | context [if _ then _ else _] => fail 1
      | _ => let E := fresh "E" in destruct b eqn:E
      end
  end.

(** What the translator returns: the leaf it finds, or failure. *)
Lemma translate_spec gpa :
  guest_ram_base c <> 0 ->
  let va := u64 (guest_ram_base c + gpa) in
  let '(ret, hpa, ch) := translate_gpa_to_hpa m (Some mm) c gpa in
  (ret = 0 /\ exists f sz, backing m (mm_pgd mm) va f sz /\ chain_pfn5 ch = f /\
     hpa = Z.lor (u64 (Z.shiftl f 12)) (Z.land va (sz - 1))) \/
  (ret = - EFAULT /\ hpa = 0 /\ chain_pfn5 ch = INVALID_PFN /\ forall f sz, ~ backing m (mm_pgd mm) va f sz).
Proof using KL.
  intros Hb va. unfold translate_gpa_to_hpa. rewrite (proj2 (Z.eqb_neq _ 0)) by done.
  fold va. cbv zeta. 
  walk_cases; zbool; try (left; split; [done|]; do 2 eexists; split; [|split; reflexivity];
    econstructor; (done || by split)).
  all: right; split_and!; try done; intros f sz HB; inversion HB; unfold table_entry in *;
    repeat match goal with
    | H : (_ || _) = true |- _ => apply orb_true_iff in H as [H|H]
    | H : _ /\ _ |- _ => destruct H
    | H : negb _ = true |- _ => apply negb_true_iff in H
    end; congruence.
Qed.
End Walk.

Lemma backing_unique `{K : KernelPT} m root va f sz f' sz' :
  backing m root va f sz -> backing m root va f' sz' -> f = f' /\ sz = sz'.
Proof.
  intros H1 H2. inversion H1; inversion H2; first [exfalso; congruence | split; congruence].
Qed.

(** C19. The translator agrees with a page walk of QEMU's tables: it succeeds
    exactly when they map the frame's address, the physical address it returns
    is the leaf's frame plus the offset in the leaf, and the last frame of the
    chain it reports is the leaf's first frame, which for a huge page is not
    the frame the address falls in. *)
Theorem translate_refines_walk `{KL : KernelPTLaws} (m : memory) (mm : mm_struct) (c : config) (gpa : Z) :
  guest_ram_base c <> 0 ->
  let va := u64 (guest_ram_base c + gpa) in
  (forall f sz, backing m (mm_pgd mm) va f sz -> (sz | f * 4096) /\ 0 <= f * 4096 < w64) ->
  let '(ret, hpa, ch) := translate_gpa_to_hpa m (Some mm) c gpa in
  (ret = 0 <-> exists f sz, backing m (mm_pgd mm) va f sz) /\
  forall f sz, backing m (mm_pgd mm) va f sz ->
    hpa = f * 4096 + va mod sz /\ Z.shiftr hpa PAGE_SHIFT = f + va mod sz / 4096 /\ chain_pfn5 ch = f.
Proof.
  intros Hb va Hal. pose proof (translate_spec m mm c gpa Hb) as HS. cbv zeta in HS. fold va in HS.
  destruct (translate_gpa_to_hpa m (Some mm) c gpa) as [[ret hpa] ch].
  destruct HS as [(-> & f & sz & HB & H5 & ->)|(-> & -> & _ & HN)].
  - split; [split; eauto|]. intros f' sz' HB'. destruct (backing_unique _ _ _ _ _ _ _ HB HB') as [<- <-].
    destruct (Hal f sz HB) as [Hd Hr]. pose proof leaf_sizes as (S1 & S2 & S3).
    assert (E : Z.lor (u64 (Z.shiftl f 12)) (Z.land va (sz - 1)) = f * 4096 + va mod sz).
    { assert (sz = 2 ^ 12 \/ sz = 2 ^ 21 \/ sz = 2 ^ 30) as [-> | [-> | ->]]
        by (inversion HB; subst; auto); apply join_frame; (lia || done). }
    rewrite E. split_and!; [done| |done]. rewrite shiftr_div by done. change (2 ^ PAGE_SHIFT) with 4096.
    by rewrite Z.div_add_l by lia.
  - split; [split; [done|intros (f & sz & HB); by destruct (HN f sz)]|].
    intros f sz HB. by destruct (HN f sz).
Qed.

(** QEMU's tables at frames 16 to 19: a 2 MB leaf at frame 512 for the first
    two megabytes of guest RAM, then a 4 KB page at frame 77. *)
Definition qemu_memory : memory := fun p =>
  if p =? x86_va (16 * 4096) then 17 * 4096 + 103
  else if p =? x86_va (17 * 4096) + 8 then 18 * 4096 + 103
  else if p =? x86_va (18 * 4096) then 512 * 4096 + 231
  else if p =? x86_va (18 * 4096) + 8 then 19 * 4096 + 103
  else if p =? x86_va (19 * 4096) + 40 then 77 * 4096 + 103 else 0.
Definition qemu_mm_demo : mm_struct := {| mm_pgd := x86_va (16 * 4096); mm_vmas := [] |}.
Definition qemu_config : config :=
  {| qemu_pid := 7; guest_pid := 0; guest_ram_base := 1073741824; guest_ram_size := 1073741824 |}.

Lemma translate_refines_walk_witness :
  let va := u64 (guest_ram_base qemu_config + 0x5000) in
  let '(ret, hpa, ch) := translate_gpa_to_hpa qemu_memory (Some qemu_mm_demo) qemu_config 0x5000 in
  (ret = 0 <-> exists f sz, backing qemu_memory (mm_pgd qemu_mm_demo) va f sz) /\
  forall f sz, backing qemu_memory (mm_pgd qemu_mm_demo) va f sz ->
    hpa = f * 4096 + va mod sz /\ Z.shiftr hpa PAGE_SHIFT = f + va mod sz / 4096 /\ chain_pfn5 ch = f.
Proof.
  apply (translate_refines_walk qemu_memory qemu_mm_demo qemu_config 0x5000); [done|].
  intros f sz HB.
  assert (f = 512 /\ sz = 2097152) as [-> ->].
  { inversion HB as [H1 H2 H3 H4 Hf Hs|H1 H2 H3 H4 H5 H6 Hf Hs|H1 H2 H3 H4 H5 H6 H7 H8 H9 Hf Hs].
    - vm_compute in H4. done.
    - split; vm_compute; done.
    - vm_compute in H6. done. }
  split; [by exists 1|lia].
Defined.

Example translate_huge :
  translate_gpa_to_hpa qemu_memory (Some qemu_mm_demo) qemu_config 0x5000 =
  (0, 0x205000, {| chain_pfn1 := 17; chain_pfn2 := 17; chain_pfn3 := 18; chain_pfn4 := 512; chain_pfn5 := 512 |}).
Proof. vm_compute. reflexivity. Qed.
Example translate_small :
  translate_gpa_to_hpa qemu_memory (Some qemu_mm_demo) qemu_config 0x205000 =
  (0, 0x4d000, {| chain_pfn1 := 17; chain_pfn2 := 17; chain_pfn3 := 18; chain_pfn4 := 19; chain_pfn5 := 77 |}).
Proof. vm_compute. reflexivity. Qed.

(** With four-level paging the first two frames of every chain are the same
    (the P4D is folded into the PGD), so the chain holds the frames of the
    tables at levels 2 to 4 and not that of the root table. *)
Theorem folded_chain_repeats `{F : FoldedP4D} (m : memory) (mm : option mm_struct) (c : config) (gpa : Z) :
  let '(_, _, ch) := translate_gpa_to_hpa m mm c gpa in
  chain_pfn2 ch = INVALID_PFN \/ chain_pfn1 ch = chain_pfn2 ch.
Proof.
  unfold translate_gpa_to_hpa. destruct mm as [mm|]; [|cbn; auto]. cbv zeta. rewrite p4d_folded, p4d_folded_pfn.
  repeat case_match; simplify_eq/=; auto.
Qed.

Lemma folded_chain_repeats_witness :
  let '(_, _, ch) := translate_gpa_to_hpa qemu_memory (Some qemu_mm_demo) qemu_config 0x205000 in
  chain_pfn2 ch = INVALID_PFN \/ chain_pfn1 ch = chain_pfn2 ch.
Proof. exact (@folded_chain_repeats X86_4level X86_4level_folded qemu_memory (Some qemu_mm_demo) qemu_config 0x205000). Defined.

(** ** Finding guest RAM *)

Definition vma_size (v : vm_area) : Z := u64 (vm_end v - vm_start v).
Definition ram_candidate (v : vm_area) : bool :=
  negb (vm_file v) && vm_read v && vm_write v && (100 * 1024 * 1024 <? vma_size v).

Lemma scan_vma_spec best v :
  scan_vma best v =
  if ram_candidate v && (fst best <? vma_size v) then (vma_size v, vm_start v) else best.
Proof.
  unfold scan_vma, ram_candidate. destruct best as [sz base]. cbn [fst]. fold (vma_size v).
  destruct (negb (vm_file v)), (vm_read v), (vm_write v); cbn [andb]; try done.
Qed.

(** The scan keeps the first largest candidate. *)
Lemma scan_vmas vmas sz base :
  0 <= sz ->
  let '(sz', base') := fold_left scan_vma vmas (sz, base) in
  sz <= sz' /\ (forall v, v ∈ vmas -> ram_candidate v = true -> vma_size v <= sz') /\
  ((sz', base') = (sz, base) \/
   exists v, v ∈ vmas /\ ram_candidate v = true /\ sz' = vma_size v /\ base' = vm_start v).
Proof.
  revert sz base. induction vmas as [|v vmas IH]; intros sz base Hsz; cbn [fold_left].
  - split_and!; [lia|set_solver|by left].
  - rewrite scan_vma_spec. cbn [fst].
    destruct (ram_candidate v && (sz <? vma_size v)) eqn:E.
    + apply andb_true_iff in E as [E1 E2]. apply Z.ltb_lt in E2.
      specialize (IH (vma_size v) (vm_start v) ltac:(lia)).
      destruct (fold_left scan_vma vmas _) as [sz' base']. destruct IH as (H1 & H2 & H3).
      split_and!; [lia| |].
      * intros v' [->|Hv']%elem_of_cons; auto.
      * destruct H3 as [[= -> ->]|(v' & ? & ? & ? & ?)]; right; [exists v|exists v']; set_solver.
    + specialize (IH sz base Hsz). destruct (fold_left scan_vma vmas _) as [sz' base'].
      destruct IH as (H1 & H2 & H3). split_and!; [lia| |set_solver].
      intros v' [->|Hv']%elem_of_cons Hc; [|auto]. rewrite Hc in E. cbn in E. zbool. lia.
Qed.

(** Guest RAM is the largest anonymous, readable and writable area over
    100 MB of the QEMU process; when there is none the configuration is left
    alone and the search fails. *)
Theorem find_guest_ram_base_spec (c : config) (mm : mm_struct) :
  (forall v, v ∈ mm_vmas mm -> vm_start v <> 0) ->
  let '(ret, c') := find_guest_ram_base c (Some mm) in
  (ret = 0 /\ exists v, v ∈ mm_vmas mm /\ ram_candidate v = true /\
     c' = set_guest_ram c (vm_start v) (vma_size v) /\
     forall v', v' ∈ mm_vmas mm -> ram_candidate v' = true -> vma_size v' <= vma_size v) \/
  (ret = - ENOENT /\ c' = c /\ forall v, v ∈ mm_vmas mm -> ram_candidate v = false).
Proof.
  intros Hnz. unfold find_guest_ram_base. pose proof (scan_vmas (mm_vmas mm) 0 0 ltac:(lia)) as HS.
  destruct (fold_left scan_vma _ _) as [sz base]. destruct HS as (_ & H2 & [[= -> ->]|(v & Hv & Hc & -> & ->)]).
  - cbn. right. split_and!; try done. intros v Hv. destruct (ram_candidate v) eqn:E; [|done].
    specialize (H2 v Hv E). unfold ram_candidate in E. zbool. lia.
  - rewrite (proj2 (Z.eqb_neq _ 0)) by auto. left. eauto 10.
Qed.

Definition demo_vmas : list vm_area := [
  {| vm_start := 4096; vm_end := 8192; vm_file := true; vm_read := true; vm_write := false |};
  {| vm_start := 1073741824; vm_end := 3221225472; vm_file := false; vm_read := true; vm_write := true |};
  {| vm_start := 4294967296; vm_end := 4496293888; vm_file := false; vm_read := true; vm_write := true |}].

Lemma find_guest_ram_base_spec_witness :
  (forall v, v ∈ demo_vmas -> vm_start v <> 0) /\
  let '(ret, c') := find_guest_ram_base boot_config (Some {| mm_pgd := 4096; mm_vmas := demo_vmas |}) in
  (ret = 0 /\ exists v, v ∈ demo_vmas /\ ram_candidate v = true /\
     c' = set_guest_ram boot_config (vm_start v) (vma_size v) /\
     forall v', v' ∈ demo_vmas -> ram_candidate v' = true -> vma_size v' <= vma_size v) \/
  (ret = - ENOENT /\ c' = boot_config /\ forall v, v ∈ demo_vmas -> ram_candidate v = false).
Proof.
  assert (Hnz : forall v, v ∈ demo_vmas -> vm_start v <> 0).
  { apply Forall_forall. repeat constructor; done. }
  split; [exact Hnz|]. exact (find_guest_ram_base_spec boot_config {| mm_pgd := 4096; mm_vmas := demo_vmas |} Hnz).
Defined.

Example find_ram_demo :
  find_guest_ram_base boot_config (Some {| mm_pgd := 4096; mm_vmas := demo_vmas |}) =
  (0, set_guest_ram boot_config 1073741824 2147483648).
Proof. vm_compute. reflexivity. Qed.

(** ** Reading what was written *)

(** What a read prints, from the invariant; also used by the composition of the
    stages. *)
Lemma output_of_rep `{K : KernelPT} {H : Type} `{HL : PfnHashLaws H} (m : memory) (mm : option mm_struct)
    (c : config) (s : state H) (known : list Z) (pos fuel : nat) :
  table_rep m c mm (st_table s) known -> Z.of_nat (length known) < 2 ^ 40 -> Z.of_nat pos < 2 ^ 40 ->
  (length known < fuel)%nat ->
  output_read fuel s pos =
  Some (Val (match pos with
             | O => fmt_d (guest_pid (st_config s)) ++ [NL] ++ concat (map (fun p => show_entry (entry_of m c mm p)) known)
             | S k => concat (map (fun p => show_entry (entry_of m c mm p)) (drop k known))
             end)).
Proof.
  intros R Hk Hp Hf. pose proof (rep_arr _ _ _ _ _ R) as HA.
  pose proof (rep_count _ _ _ _ _ HA) as Hc. pose proof (rep_entries _ _ _ _ _ HA) as He.
  rewrite output_read_spec; try lia.
  - unfold output_from. rewrite He. destruct pos; [by rewrite map_map|].
    by rewrite <- (map_map (entry_of m c mm)), !skipn_map.
  - unfold array_ok. destruct (translation_entries (st_table s)) as [a|] eqn:Ea; [|done].
    pose proof (array_bound _ _ _ _ _ _ HA Ea). lia.
Qed.

(** Once the table holds the frames [known], a read of the output file
    from any position terminates and prints, from there on, the header line
    (the guest's process id) and one line per frame in order. *)
Theorem output_complete `{K : KernelPT} {H : Type} `{HL : PfnHashLaws H} (m : memory) (mm : option mm_struct)
    (c : config) (s : state H) (known : list Z) (pos fuel : nat) :
  table_rep m c mm (st_table s) known -> Z.of_nat (length known) < 2 ^ 40 -> Z.of_nat pos < 2 ^ 40 ->
  (length known < fuel)%nat ->
  output_read fuel s pos =
  Some (Val (match pos with
             | O => fmt_d (guest_pid (st_config s)) ++ [NL] ++ concat (map (fun p => show_entry (entry_of m c mm p)) known)
             | S k => concat (map (fun p => show_entry (entry_of m c mm p)) (drop k known))
             end)).
Proof. apply output_of_rep. Qed.

(** ** The state after loading *)

Lemma boot_rep `{K : KernelPT} {H : Type} `{HL : PfnHashLaws H} m c mm :
  table_rep m c mm (st_table (boot_state (hash_init (H := H)))) [].
Proof.
  constructor; [|constructor|set_solver|constructor; cbn; auto|done].
  intros k. unfold cached. cbn. by rewrite possible_init.
Qed.

(** Loading the module translates the frames of its built-in test line
    against no process, and then drops the hash table and the array but not the
    counters: until the first write the module reports five entries and five
    failed translations that it does not hold. *)
Theorem init_leaves_counters `{K : KernelPT} {H : Type} `{HL : PfnHashLaws H}
    (alloc_ok : nat -> Z -> bool) (junk : translation_entry) (m : memory) (created : bool * bool * bool) :
  (forall i n, 0 < n <= 2 ^ 48 -> alloc_ok i n = true) ->
  exists s,
    translator_init alloc_ok junk m created (boot_state (hash_init (H := H))) =
      Val (let '(a, b, d) := created in if a && b && d then 0 else - ENOMEM, s) /\
    entry_count (st_table s) = 5 /\ unsuccessful_translations (st_table s) = 5 /\
    successful_translations (st_table s) = 0 /\
    translation_entries (st_table s) = None /\ (forall k, hash_possible (pfn_translation_hash (st_table s)) k = []).
Proof.
  intros Ha. unfold translator_init.
  destruct (parse_rep alloc_ok junk m boot_config None Ha (st_table (boot_state (hash_init (H := H)))) [] test_line)
    as (t & E & R); try done.
  { apply boot_rep. } { repeat constructor; done. }
  change (st_config (boot_state hash_init)) with boot_config. rewrite E. cbn [mbind cres_bind].
  destruct created as [[c1 c2] c3]. eexists. split; [reflexivity|]. cbn.
  pose proof (rep_count _ _ _ _ _ (rep_arr _ _ _ _ _ R)) as Hc. pose proof (rep_stats _ _ _ _ _ R) as HS.
  injection HS as Hs Hu. rewrite Hc, Hu, Hs. split_and!; try (vm_compute; reflexivity). apply possible_init.
Qed.

(** ** Concrete runs *)

Definition demo_alloc (i : nat) (n : Z) : bool := (0 <? n) && (n <=? 2 ^ 48).
Lemma demo_alloc_enough i n : 0 < n <= 2 ^ 48 -> demo_alloc i n = true.
Proof. intros. apply andb_true_iff. split; [apply Z.ltb_lt|apply Z.leb_le]; lia. Qed.

Definition demo_header : text := s2l "4242".
Definition demo_first : text := s2l "0000000000005000,10,11,".
Definition demo_rest : text := s2l "12,13,205" ++ [NL] ++ s2l "0000000000006000,10,11,12,13,3f0000" ++ [NL].
Definition demo_boot : state chains :=
  let b := boot_state (H := chains) hash_init in
  {| st_config := qemu_config; st_table := st_table b; st_session := st_session b |}.
#[local] Abbreviation demo_write :=
  (write_chunks demo_alloc zero_entry qemu_memory (fun _ => Some tt) (fun _ => Some tt) (fun _ => Some qemu_mm_demo)).

Lemma chunked_write_complete_witness :
  exists s',
    demo_write [demo_header ++ NL :: demo_first; demo_rest] 0 demo_boot =
      Val (Some (s', Z.of_nat (length (demo_header ++ NL :: demo_first ++ demo_rest)))) /\
    st_config s' = set_guest_pid qemu_config (default 0 (kstrtoint demo_header)) /\
    table_rep qemu_memory qemu_config (Some qemu_mm_demo) (st_table s')
      (fold_left add_line (fst (lines_of (demo_first ++ demo_rest))) []) /\
    default [] (partial_line (st_session s')) = snd (lines_of (demo_first ++ demo_rest)).
Proof.
  assert (Hc : demo_first ++ demo_rest = demo_first ++ concat [demo_rest]) by reflexivity.
  rewrite Hc.
  apply (chunked_write_complete demo_alloc zero_entry qemu_memory (fun _ => Some tt) (fun _ => Some tt)
           (fun _ => Some qemu_mm_demo) qemu_config qemu_mm_demo demo_boot demo_header demo_first [demo_rest]);
    try reflexivity.
  - exact demo_alloc_enough.
  - vm_compute. discriminate.
  - repeat constructor; vm_compute; discriminate.
  - repeat constructor; vm_compute; discriminate.
Defined.

(** A table that holds frame 16. *)
Lemma one_frame : exists t : table chains,
  process_pfn demo_alloc zero_entry qemu_memory qemu_config (Some qemu_mm_demo) 16 (st_table demo_boot) = Val t /\
  table_rep qemu_memory qemu_config (Some qemu_mm_demo) t [16].
Proof.
  apply (process_pfn_rep demo_alloc zero_entry qemu_memory qemu_config (Some qemu_mm_demo) demo_alloc_enough _ [] 16);
    [apply boot_rep|done].
Qed.

Lemma output_complete_witness :
  exists s : state chains,
    table_rep qemu_memory qemu_config (Some qemu_mm_demo) (st_table s) [16] /\
    output_read 3 s 1 =
    Some (Val (concat (map (fun p => show_entry (entry_of qemu_memory qemu_config (Some qemu_mm_demo) p)) (drop 0 [16])))).
Proof.
  destruct one_frame as (t & _ & R).
  exists {| st_config := qemu_config; st_table := t; st_session := st_session demo_boot |}. split; [exact R|].
  apply (output_complete qemu_memory (Some qemu_mm_demo) qemu_config
           {| st_config := qemu_config; st_table := t; st_session := st_session demo_boot |} [16] 1 3).
  - exact R.
  - reflexivity.
  - reflexivity.
  - repeat constructor.
Defined.

Lemma init_leaves_counters_witness :
  exists s,
    translator_init demo_alloc zero_entry qemu_memory (true, true, true) (boot_state (H := chains) hash_init) = Val (0, s) /\
    entry_count (st_table s) = 5 /\ unsuccessful_translations (st_table s) = 5 /\
    successful_translations (st_table s) = 0 /\
    translation_entries (st_table s) = None /\ (forall k, hash_possible (pfn_translation_hash (st_table s)) k = []).
Proof. exact (init_leaves_counters demo_alloc zero_entry qemu_memory (true, true, true) demo_alloc_enough). Defined.

(** The output of the demonstration run: six distinct frames, of which those
    that QEMU's tables do not map have no last frame. *)
Definition demo_output (chunks : list text) : option (cres text) :=
  match demo_write chunks 0 demo_boot with
  | Val (Some (s, _)) => output_read 20 s 0
  | _ => None
  end.

Example demo_run :
  demo_output [demo_header ++ NL :: demo_first; demo_rest] =
  Some (Val (unlines (map s2l ["4242"; "10000,11,11,12,200,200"; "11000,11,11,12,200,200";
    "12000,11,11,12,200,200"; "13000,11,11,12,200,200"; "205000,11,11,12,13,4d";
    "3f0000000,11,11,NAN,NAN,NAN"]%string))).
Proof. vm_compute. reflexivity. Qed.

(** [translated_count] is advanced once per new frame, and again by the number
    of lines of the whole session at the end of every write. *)
Example translated_overcount :
  (match demo_write [demo_header ++ NL :: demo_first; demo_rest] 0 demo_boot with
   | Val (Some (s, _)) => (entry_count (st_table s), translated_count (st_table s))
   | _ => (0, 0)
   end) = (6, 8).
Proof. vm_compute. reflexivity. Qed.

(** A first write that ends before the header's newline: the second write no
    longer sees the start of the file, and the header is read as a record. *)
Example split_header_lost :
  demo_output [s2l "42"; s2l "42" ++ NL :: demo_first; demo_rest] =
  Some (Val (unlines (map s2l ["0"; "10000,11,11,12,200,200"; "11000,11,11,12,200,200";
    "12000,11,11,12,200,200"; "13000,11,11,12,200,200"; "205000,11,11,12,13,4d";
    "3f0000000,11,11,NAN,NAN,NAN"]%string))).
Proof. vm_compute. reflexivity. Qed.
