(* ===== verification/Augmentor.v ===== *)
(** * The host page-table augmentor (src/PageTables/Host/host_pt_augmentor.c)

    The program between the translator and the simulator: it reads the
    translator's output, collects the page frames it mentions, finds the frame
    numbers in the gaps between them, writes one of those for every missing
    level ("NAN"), and puts the record count in front.

    Files are texts.  Each [realloc] whose result the program checks has an
    oracle indexed by the capacity asked for (a call site asks for each capacity
    once); [strdup] and the small per-entry [malloc] are taken to succeed.  The
    messages on stderr are not modelled. *)
From stdpp Require Export sorting.
From S2P Require Export CText.

Definition MAX_LINE_LEN : nat := 4096.
Definition MAX_FIELDS : nat := 32.
Definition INT_MAX : Z := 2147483647.

Definition NAN : text := s2l "NAN".

(** ** Entries *)

Record entry_t := { virtual_addr : text; pt_pfns : list text; data_pfn : text }.

Definition parse_hex (str : text) : Z :=
  if decide (str = NAN) then ULONG_MAX else strtoull16 str.

Definition compare_uint64 (va vb : Z) : Z :=
  if va <? vb then -1 else if vb <? va then 1 else 0.

(** The order [qsort] sorts by. *)
Definition sorts_before (a b : Z) : Prop := compare_uint64 a b <= 0.
#[export] Instance sorts_before_dec : RelDecision sorts_before :=
  fun a b => Z_le_dec (compare_uint64 a b) 0.

(** *** Reading

    The text of the line up to its newline. *)
Definition chomp (line : text) : text :=
  match split_at NL (cstr line) with Some (a, _) => a | None => cstr line end.

(** The fields of a line: at most [MAX_FIELDS] tokens. *)
Definition fields_of (line : text) : list text := firstn MAX_FIELDS (strtok COMMA line).

(** A record from its fields; [None] when there are fewer than two. *)
Definition make_entry (fields : list text) : option entry_t :=
  match fields with
  | va :: f :: fs =>
      Some {| virtual_addr := va; pt_pfns := removelast (f :: fs); data_pfn := List.last (f :: fs) [] |}
  | _ => None
  end.

Section Augment.
Context (entries_alloc pfns_alloc gaps_alloc : Z -> bool).

Record reader := {
  entries : list entry_t;
  capacity : Z;
  all_pfns : list Z;
  all_pfn_capacity : Z
}.

(** The results of a step of [main]: go on, or leave with an exit code. *)
Inductive flow (A : Type) := Go (a : A) | Exit (code : Z).
Arguments Go {A}. Arguments Exit {A}.

(** A capacity that doubles from [start]; [Undef] when the int overflows. *)
Definition grow (alloc : Z -> bool) (start count cap : Z) : cres (flow Z) :=
  if cap <=? count then
    let cap := if negb (cap =? 0) then cap * 2 else start in
    if INT_MAX <? cap then Undef else if alloc cap then Val (Go cap) else Val (Exit 1)
  else Val (Go cap).

Definition collect_pfn (r : reader) (field : text) : cres (flow reader) :=
  let pfn := parse_hex field in
  if negb (pfn =? ULONG_MAX) then
    f ← grow pfns_alloc 65536 (Z.of_nat (length (all_pfns r))) (all_pfn_capacity r);
    match f with
    | Exit e => Val (Exit e)
    | Go cap =>
        Val (Go {| entries := entries r; capacity := capacity r;
                   all_pfns := all_pfns r ++ [pfn]; all_pfn_capacity := cap |})
    end
  else Val (Go r).

Fixpoint collect_pfns (r : reader) (fields : list text) : cres (flow reader) :=
  match fields with
  | [] => Val (Go r)
  | f :: fs =>
      x ← collect_pfn r f;
      match x with Exit e => Val (Exit e) | Go r => collect_pfns r fs end
  end.

Definition read_line (r : reader) (raw : text) : cres (flow reader) :=
  let line := chomp raw in
  match line with
  | [] => Val (Go r)
  | _ =>
      f ← grow entries_alloc 1024 (Z.of_nat (length (entries r))) (capacity r);
      match f with
      | Exit e => Val (Exit e)
      | Go cap =>
          let r := {| entries := entries r; capacity := cap; all_pfns := all_pfns r;
                      all_pfn_capacity := all_pfn_capacity r |} in
          let fields := fields_of line in
          match make_entry fields with
          | None => Val (Go r)
          | Some e =>
              collect_pfns {| entries := entries r ++ [e]; capacity := capacity r; all_pfns := all_pfns r;
                              all_pfn_capacity := all_pfn_capacity r |} (tl fields)
          end
      end
  end.

(** [while (fgets (...))]: the loop ends when the input does; [None] is
    running out of fuel. *)
Fixpoint read_lines (fuel : nat) (r : reader) (input : text) : option (cres (flow reader)) :=
  match fuel with
  | O => None
  | S fuel =>
      match input with
      | [] => Some (Val (Go r))
      | _ =>
          let '(line, rest) := fgets (MAX_LINE_LEN - 1) input in
          match read_line r line with
          | Undef => Some Undef
          | Val (Exit e) => Some (Val (Exit e))
          | Val (Go r) => read_lines fuel r rest
          end
      end
  end.

(** ** Sorting and removing duplicates *)

Definition qsort (l : list Z) : list Z := merge_sort sorts_before l.

(** The in-place loop: [i] runs over the array, [unique] is the number of
    values kept so far at its front. *)
Definition dedup_step (i : nat) (a : list Z) (unique : nat) : list Z * nat :=
  if (i =? 0)%nat || negb (a !!! i =? a !!! (i - 1)%nat) then
    ((if negb (i =? unique)%nat then <[unique := a !!! i]> a else a), S unique)
  else (a, unique).

Fixpoint dedup_loop (n i : nat) (a : list Z) (unique : nat) : list Z * nat :=
  match n with
  | O => (a, unique)
  | S n => let '(a, unique) := dedup_step i a unique in dedup_loop n (S i) a unique
  end.

Definition dedup (a : list Z) : list Z :=
  let '(a, unique) := dedup_loop (length a) 0 a 0 in firstn unique a.

(** ** Gaps *)

(** The inner loop over the [n] frames from [pfn] on; [inl] is the early
    return, with the number of frames stored so far. *)
Fixpoint add_gap (n : nat) (pfn : Z) (arr : list Z) (cap : Z) : Z + (list Z * Z) :=
  match n with
  | O => inr (arr, cap)
  | S n =>
      let count := Z.of_nat (length arr) in
      if cap <=? count then
        if 1000000000 <=? cap then inl count
        else
          let cap := if cap <? 500000000 then cap * 2 else cap + 100000000 in
          if gaps_alloc cap then add_gap n (u64 (pfn + 1)) (arr ++ [pfn]) cap else inl count
      else add_gap n (u64 (pfn + 1)) (arr ++ [pfn]) cap
  end.

Fixpoint scan_gaps (pfns : list Z) (arr : list Z) (cap : Z) : Z + (list Z * Z) :=
  match pfns with
  | a :: ((b :: _) as t) =>
      if (a =? ULONG_MAX) || (b =? ULONG_MAX) then scan_gaps t arr cap
      else
        let gap_start := u64 (a + 1) in
        let gap_end := u64 (b - 1) in
        if gap_start <=? gap_end then
          let len := u64 (gap_end - gap_start + 1) in
          if 100000000 <? len then scan_gaps t arr cap
          else match add_gap (Z.to_nat len) gap_start arr cap with
               | inl count => inl count
               | inr (arr, cap) => scan_gaps t arr cap
               end
        else scan_gaps t arr cap
  | _ => inr (arr, cap)
  end.

(** Returns [*unallocated], [*unalloc_count] and [*total_unalloc_size]. *)
Definition find_gaps (pfns : list Z) : option (list Z) * Z * Z :=
  if (length pfns <? 2)%nat then (None, 0, 0)
  else
    let cap := 1024 * 1024 in
    if negb (gaps_alloc cap) then (None, 0, 0)
    else match scan_gaps pfns [] cap with
         | inl count => (None, count, count)
         | inr (arr, _) =>
             let count := Z.of_nat (length arr) in
             (if 0 <? count then Some arr else None, count, count)
         end.

(** ** Filling the missing levels *)

Definition is_nan (f : text) : bool := bool_decide (f = NAN).

Definition nan_count (es : list entry_t) : Z :=
  foldr (fun e n => countb is_nan (pt_pfns e) + (if is_nan (data_pfn e) then 1 else 0) + n) 0 es.

Section Fill.
Context (unallocated_pfns : option (list Z)) (unalloc_count : Z).

(** One field: [Undef] when the array read is NULL or shorter than counted. *)
Definition fill_field (f : text) (idx : Z) : cres (text * Z) :=
  if is_nan f && (idx <? unalloc_count) then
    match unallocated_pfns with
    | None => Undef
    | Some a => p ← cres_of_option (a !! Z.to_nat idx); Val (fmt_lx p, idx + 1)
    end
  else Val (f, idx).

Fixpoint fill_fields (fs : list text) (idx : Z) : cres (list text * Z) :=
  match fs with
  | [] => Val ([], idx)
  | f :: fs =>
      '(f, idx) ← fill_field f idx;
      '(fs, idx) ← fill_fields fs idx;
      Val (f :: fs, idx)
  end.

Fixpoint fill_entries (es : list entry_t) (idx : Z) : cres (list entry_t * Z) :=
  match es with
  | [] => Val ([], idx)
  | e :: es =>
      '(pts, idx) ← fill_fields (pt_pfns e) idx;
      '(d, idx) ← fill_field (data_pfn e) idx;
      '(es, idx) ← fill_entries es idx;
      Val ({| virtual_addr := virtual_addr e; pt_pfns := pts; data_pfn := d |} :: es, idx)
  end.
End Fill.

(** ** Writing *)

Definition write_entry (e : entry_t) : text :=
  virtual_addr e ++ concat (map (fun p => COMMA :: p) (pt_pfns e)) ++ COMMA :: data_pfn e ++ [NL].

Definition write_file (es : list entry_t) : text :=
  fmt_d (Z.of_nat (length es)) ++ [NL] ++ concat (map write_entry es).

(** ** The program

    [argc_ok]: two arguments were given; [input]: the input file, if it opens;
    [out_ok]: the output file opens.  Returns the exit code, the output file if
    one is written, and the standard output. *)
Record outcome := { exit_code : Z; out_file : option text; std_out : text }.
Definition failed : outcome := {| exit_code := 1; out_file := None; std_out := [] |}.

Definition finish (r : reader) (out_ok : bool) (out_name : text) : cres outcome :=
  let pfns := dedup (qsort (all_pfns r)) in
  let '(unallocated, unalloc_count, total) := find_gaps pfns in
  let log :=
    s2l "Read " ++ fmt_d (Z.of_nat (length (entries r))) ++ s2l " entries" ++ [NL] ++
    s2l "Collected " ++ fmt_d (Z.of_nat (length (all_pfns r))) ++ s2l " valid PFNs" ++ [NL] ++
    s2l "Unique PFNs: " ++ fmt_d (Z.of_nat (length pfns)) ++ [NL] ++
    s2l "Unallocated PFN count: " ++ fmt_d unalloc_count ++ [NL] ++
    s2l "Total unallocated PFN size: " ++ fmt_lu total ++ [NL] ++
    s2l "NAN entries to fill: " ++ fmt_d (nan_count (entries r)) ++ [NL] in
  '(es, filled) ← fill_entries unallocated unalloc_count (entries r) 0;
  if negb out_ok then Val {| exit_code := 1; out_file := None; std_out := log |}
  else Val {| exit_code := 0; out_file := Some (write_file es);
              std_out := log ++ s2l "Augmented file written to " ++ out_name ++ [NL] ++
                         s2l "Filled " ++ fmt_d filled ++ s2l " NAN entries" ++ [NL] |}.

Definition main (fuel : nat) (argc_ok : bool) (input : option text) (out_ok : bool) (out_name : text)
  : option (cres outcome) :=
  if negb argc_ok then Some (Val failed)
  else match input with
  | None => Some (Val failed)
  | Some [] => Some (Val failed)
  | Some input =>
      let '(_, rest) := fgets (MAX_LINE_LEN - 1) input in
      match read_lines fuel {| entries := []; capacity := 0; all_pfns := []; all_pfn_capacity := 0 |} rest with
      | None => None
      | Some Undef => Some Undef
      | Some (Val (Exit e)) => Some (Val {| exit_code := e; out_file := None; std_out := [] |})
      | Some (Val (Go r)) => Some (finish r out_ok out_name)
      end
  end.
End Augment.
Arguments Go {A}. Arguments Exit {A}.

(** * Proofs *)

(** ** Sorting and removing duplicates *)

Lemma sorts_before_le a b : sorts_before a b <-> a <= b.
Proof.
  unfold sorts_before, compare_uint64. destruct (a <? b) eqn:E1; [zbool; lia|].
  destruct (b <? a) eqn:E2; zbool; lia.
Qed.

#[export] Instance sorts_before_total : Total sorts_before.
Proof. intros a b. rewrite !sorts_before_le. lia. Qed.
#[export] Instance sorts_before_trans : Transitive sorts_before.
Proof. intros a b d. rewrite !sorts_before_le. lia. Qed.

Lemma qsort_perm l : qsort l ≡ₚ l.
Proof. apply merge_sort_Permutation. Qed.

Lemma qsort_sorted l : StronglySorted Z.le (qsort l).
Proof.
  assert (H : StronglySorted sorts_before (qsort l)) by (apply StronglySorted_merge_sort; apply _).
  induction H as [|a t Ht IH HF]; constructor; [done|].
  eapply Forall_impl; [exact HF|]. intros x. apply sorts_before_le.
Qed.

(** Adjacent duplicates removed, functionally. *)
Fixpoint uniq (l : list Z) : list Z :=
  match l with
  | a :: ((b :: _) as t) => if a =? b then uniq t else a :: uniq t
  | _ => l
  end.

Lemma uniq_cons2 a b t : uniq (a :: b :: t) = if a =? b then uniq (b :: t) else a :: uniq (b :: t).
Proof. done. Qed.

Lemma uniq_snoc l y x :
  uniq (l ++ [y; x]) = if y =? x then uniq (l ++ [y]) else uniq (l ++ [y]) ++ [x].
Proof.
  induction l as [|a l IH].
  - cbn. destruct (y =? x) eqn:E; zbool; by subst.
  - destruct l as [|b l].
    + cbn [app] in *. rewrite !uniq_cons2. destruct (a =? y) eqn:E1; cbn; destruct (y =? x) eqn:E2; zbool; by subst.
    + cbn [app] in *. rewrite !uniq_cons2, IH. destruct (a =? b), (y =? x); done.
Qed.

Lemma elem_of_uniq x l : x ∈ uniq l <-> x ∈ l.
Proof.
  induction l as [|a l IH]; [done|]. destruct l as [|b t]; [done|]. rewrite uniq_cons2.
  destruct (a =? b) eqn:E; zbool; [subst; rewrite IH; set_solver|].
  rewrite !elem_of_cons, IH, elem_of_cons. done.
Qed.

Lemma uniq_incr l : StronglySorted Z.le l -> incr (uniq l) = true.
Proof.
  induction 1 as [|a t Ht IH HF]; [done|]. destruct t as [|b t]; [done|]. rewrite uniq_cons2.
  destruct (a =? b) eqn:E; zbool; [done|]. apply incr_cons. split; [|done].
  intros x Hx. rewrite elem_of_uniq in Hx. pose proof (Forall_inv HF) as Hab. cbn in Hab.
  apply elem_of_cons in Hx as [->|Hx]; [lia|].
  inversion Ht as [|? ? ? HF']; subst. rewrite Forall_forall in HF'. specialize (HF' x Hx). lia.
Qed.

Lemma length_uniq l : (length (uniq l) <= length l)%nat.
Proof.
  induction l as [|a l IH]; [done|]. destruct l as [|b t]; [done|]. rewrite uniq_cons2.
  case_match; cbn [length] in *; lia.
Qed.

(** The loop works in place and reads [all_pfns[i-1]] after it may have
    overwritten earlier slots: what is left to read is untouched. *)
Lemma dedup_loop_uniq s n i a u :
  length s = (i + n)%nat -> length a = length s -> (u <= i)%nat -> (0 < i)%nat ->
  drop (i - 1) a = drop (i - 1) s -> firstn u a = uniq (firstn i s) ->
  let '(a', u') := dedup_loop n i a u in firstn u' a' = uniq s.
Proof.
  revert i a u. induction n as [|n IH]; intros i a u Hs Ha Hu Hi Hd Hf; cbn [dedup_loop].
  - rewrite Hf, firstn_all2 by lia. done.
  - unfold dedup_step. rewrite (proj2 (Nat.eqb_neq i 0)) by lia. cbn [orb].
    destruct (lookup_lt_is_Some_2 s i ltac:(lia)) as [x Hx].
    destruct (lookup_lt_is_Some_2 s (i - 1) ltac:(lia)) as [y Hy].
    assert (Hax : a !! i = Some x).
    { replace i with ((i - 1) + 1)%nat by lia. rewrite <- lookup_drop, Hd, lookup_drop, <- Hx. f_equal. lia. }
    assert (Hay : a !! (i - 1)%nat = Some y).
    { replace (i - 1)%nat with ((i - 1) + 0)%nat at 1 by lia. rewrite <- lookup_drop, Hd, lookup_drop, <- Hy. f_equal. lia. }
    rewrite (list_lookup_total_correct _ _ _ Hax), (list_lookup_total_correct _ _ _ Hay).
    assert (Hsn : firstn (S i) s = firstn (i - 1) s ++ [y; x]).
    { rewrite (take_S_r _ _ _ Hx). replace i with (S (i - 1)) at 1 by lia.
      rewrite (take_S_r _ _ _ Hy), <- app_assoc. done. }
    assert (Hsi : firstn i s = firstn (i - 1) s ++ [y]).
    { replace i with (S (i - 1)) at 1 by lia. by rewrite (take_S_r _ _ _ Hy). }
    assert (Hd' : drop i a = drop i s).
    { replace i with (1 + (i - 1))%nat by lia. by rewrite <- !skipn_skipn, Hd. }
    destruct (x =? y) eqn:E; cbn [negb]; zbool.
    + subst y. apply IH; try lia.
      * by replace (S i - 1)%nat with i by lia.
      * rewrite Hf, Hsn, uniq_snoc, Z.eqb_refl, Hsi. done.
    + destruct (i =? u)%nat eqn:Eu; cbn [negb].
      * apply Nat.eqb_eq in Eu. subst u. apply IH; try lia.
        -- by replace (S i - 1)%nat with i by lia.
        -- rewrite (take_S_r _ _ _ Hax), Hf, Hsn, uniq_snoc, (proj2 (Z.eqb_neq y x)), Hsi by congruence. done.
      * apply Nat.eqb_neq in Eu. apply IH; rewrite ?length_insert; try lia.
        -- replace (S i - 1)%nat with i by lia. by rewrite drop_insert_lt by lia.
        -- rewrite (take_S_r _ _ x) by (apply list_lookup_insert_eq; lia).
           rewrite take_insert_ge by lia.
           rewrite Hf, Hsn, uniq_snoc, (proj2 (Z.eqb_neq y x)), Hsi by congruence. done.
Qed.

Lemma dedup_uniq l : dedup l = uniq l.
Proof.
  unfold dedup. destruct l as [|x l]; [done|]. cbn [length dedup_loop].
  pose proof (dedup_loop_uniq (x :: l) (length l) 1 (x :: l) 1) as H.
  unfold dedup_step. cbn [Nat.eqb orb negb].
  destruct (dedup_loop _ _ _ _). apply H; first [done|lia].
Qed.

(** The frames whose gaps are searched: sorted, without duplicates. *)
Definition known_pfns (l : list Z) : list Z := uniq (qsort l).

Lemma elem_of_known x l : x ∈ known_pfns l <-> x ∈ l.
Proof. unfold known_pfns. by rewrite elem_of_uniq, qsort_perm. Qed.
Lemma known_incr l : incr (known_pfns l) = true.
Proof. apply uniq_incr, qsort_sorted. Qed.

(** ** Gaps *)

(** The frame numbers strictly between two consecutive frames, gaps of more
    than 100 million left out. *)
Fixpoint gaps (pfns : list Z) : list Z :=
  match pfns with
  | a :: ((b :: _) as t) => (if b - a - 1 <=? 100000000 then seqZ (a + 1) (b - a - 1) else []) ++ gaps t
  | _ => []
  end.

Lemma gaps_cons2 a b t :
  gaps (a :: b :: t) = (if b - a - 1 <=? 100000000 then seqZ (a + 1) (b - a - 1) else []) ++ gaps (b :: t).
Proof. done. Qed.

Lemma gaps_lower a t x : incr (a :: t) = true -> x ∈ gaps (a :: t) -> a < x.
Proof.
  revert a. induction t as [|b t IH]; intros a Hi Hx; [by apply elem_of_nil in Hx|].
  rewrite gaps_cons2 in Hx. apply incr_cons in Hi as [Hi1 Hi2]. apply elem_of_app in Hx as [Hx|Hx].
  - case_match; [|by apply elem_of_nil in Hx]. apply elem_of_seqZ in Hx. lia.
  - specialize (IH b Hi2 Hx). specialize (Hi1 b). set_solver by lia.
Qed.

Lemma gaps_fresh pfns x : incr pfns = true -> x ∈ gaps pfns -> x ∉ pfns.
Proof.
  induction pfns as [|a t IH]; intros Hi Hx; [set_solver|].
  pose proof (gaps_lower a t x Hi Hx) as Hax. destruct t as [|b t]; [by apply elem_of_nil in Hx|].
  rewrite gaps_cons2 in Hx. apply incr_cons in Hi as [Hi1 Hi2].
  intros [->|Hin]%elem_of_cons; [lia|]. apply elem_of_app in Hx as [Hx|Hx]; [|by apply IH].
  case_match; [|by apply elem_of_nil in Hx]. apply elem_of_seqZ in Hx.
  apply incr_cons in Hi2 as [Hi2 _]. apply elem_of_cons in Hin as [->|Hin]; [lia|].
  specialize (Hi2 x Hin). lia.
Qed.

Lemma gaps_range lo hi pfns : Forall (fun p => lo <= p < hi) pfns -> Forall (fun p => lo <= p < hi) (gaps pfns).
Proof.
  induction 1 as [|a t Ha HF IH]; [constructor|]. destruct t as [|b t]; [constructor|].
  rewrite gaps_cons2. apply Forall_app. split; [|exact IH]. apply Forall_inv in HF.
  case_match; [|constructor]. apply Forall_forall. intros x Hx. apply elem_of_seqZ in Hx. lia.
Qed.

Lemma gaps_incr pfns : incr pfns = true -> incr (gaps pfns) = true.
Proof.
  induction pfns as [|a t IH]; intros Hi; [done|]. destruct t as [|b t]; [done|].
  rewrite gaps_cons2. apply incr_cons in Hi as [Hi1 Hi2].
  apply incr_app. split_and!; [case_match; [apply incr_seqZ|done]|by apply IH|].
  intros x y Hx Hy. apply (gaps_lower b t y Hi2) in Hy.
  case_match; [|by apply elem_of_nil in Hx]. apply elem_of_seqZ in Hx. lia.
Qed.

(** ** The gap search *)

Section Search.
Context (gaps_alloc : Z -> bool).

Lemma add_gap_ok n pfn arr cap :
  (forall k, gaps_alloc k = true) -> 0 <= pfn -> pfn + Z.of_nat n < w64 ->
  Z.of_nat (length arr) <= cap -> 0 < cap -> Z.of_nat (length arr) + Z.of_nat n <= 1000000000 ->
  exists cap', add_gap gaps_alloc n pfn arr cap = inr (arr ++ seqZ pfn (Z.of_nat n), cap') /\
    Z.of_nat (length arr) + Z.of_nat n <= cap' /\ 0 < cap'.
Proof.
  intros Ha. revert pfn arr cap. induction n as [|n IH]; intros pfn arr cap H1 H2 H3 H4 H5.
  - cbn. rewrite app_nil_r. eexists. split; [done|]. lia.
  - cbn [add_gap]. rewrite seqZ_cons by lia. replace (Z.pred (Z.of_nat (S n))) with (Z.of_nat n) by lia.
    unfold Z.succ. rewrite (u64_small (pfn + 1)) by lia.
    rewrite (cons_middle pfn arr (seqZ _ _)), app_assoc.
    destruct (cap <=? _) eqn:E; zbool.
    + rewrite (proj2 (Z.leb_gt 1000000000 cap)) by lia. rewrite Ha.
      edestruct (IH (pfn + 1) (arr ++ [pfn])) as (cap' & -> & ? & ?);
        [lia|lia| | |rewrite length_app; cbn [length]; lia|eexists; split; [done|]].
      * rewrite length_app. cbn [length]. destruct (cap <? 500000000); lia.
      * destruct (cap <? 500000000); lia.
      * rewrite length_app in *. cbn [length] in *. lia.
    + edestruct (IH (pfn + 1) (arr ++ [pfn]) cap) as (cap' & -> & ? & ?);
        rewrite ?length_app; cbn [length]; try lia.
      eexists; split; [done|]. rewrite length_app in *. cbn [length] in *. lia.
Qed.

Lemma scan_gaps_cons2 a b t arr cap :
  scan_gaps gaps_alloc (a :: b :: t) arr cap =
  if (a =? ULONG_MAX) || (b =? ULONG_MAX) then scan_gaps gaps_alloc (b :: t) arr cap
  else if u64 (a + 1) <=? u64 (b - 1) then
    let len := u64 (u64 (b - 1) - u64 (a + 1) + 1) in
    if 100000000 <? len then scan_gaps gaps_alloc (b :: t) arr cap
    else match add_gap gaps_alloc (Z.to_nat len) (u64 (a + 1)) arr cap with
         | inl count => inl count
         | inr (arr, cap) => scan_gaps gaps_alloc (b :: t) arr cap
         end
  else scan_gaps gaps_alloc (b :: t) arr cap.
Proof. reflexivity. Qed.

Lemma scan_gaps_ok pfns arr cap :
  (forall k, gaps_alloc k = true) -> incr pfns = true -> Forall (fun p => 0 <= p < ULONG_MAX) pfns ->
  Z.of_nat (length arr) <= cap -> 0 < cap ->
  Z.of_nat (length arr) + Z.of_nat (length (gaps pfns)) <= 1000000000 ->
  exists cap', scan_gaps gaps_alloc pfns arr cap = inr (arr ++ gaps pfns, cap').
Proof.
  intros Ha. revert arr cap. induction pfns as [|a t IH]; intros arr cap Hi HF Hc Hp Hl.
  { cbn. rewrite app_nil_r. eauto. }
  destruct t as [|b t]; [cbn; rewrite app_nil_r; eauto|].
  inversion HF as [|? ? Hpa HF']; subst. pose proof (Forall_inv HF') as Hpb.
  apply incr_cons in Hi as [Hi1 Hi2]. specialize (Hi1 b ltac:(set_solver)).
  rewrite gaps_cons2 in *. rewrite length_app in Hl. rewrite scan_gaps_cons2.
  unfold ULONG_MAX in *. rewrite (proj2 (Z.eqb_neq a _)), (proj2 (Z.eqb_neq b _)) by lia. cbn [orb].
  rewrite !u64_small by lia. replace (b - 1 - (a + 1) + 1) with (b - a - 1) by lia.
  destruct (a + 1 <=? b - 1) eqn:E; zbool.
  - destruct (100000000 <? b - a - 1) eqn:E2; zbool.
    + rewrite (proj2 (Z.leb_gt _ _)) in * by lia. apply IH; (done || cbn in *; lia).
    + rewrite (proj2 (Z.leb_le _ _)) in * by lia. rewrite length_seqZ in Hl.
      destruct (add_gap_ok (Z.to_nat (b - a - 1)) (a + 1) arr cap) as (cap' & -> & ? & ?);
        try done; try lia. rewrite Z2Nat.id by lia.
      destruct (IH (arr ++ seqZ (a + 1) (b - a - 1)) cap') as (cap2 & ->); try done;
        rewrite ?length_app, ?length_seqZ; try lia. rewrite <- app_assoc. eauto.
  - rewrite (proj2 (Z.leb_le _ _)) in * by lia. rewrite seqZ_nil in * by lia. by apply IH.
Qed.

Lemma find_gaps_ok pfns :
  (forall k, gaps_alloc k = true) -> incr pfns = true -> Forall (fun p => 0 <= p < ULONG_MAX) pfns ->
  Z.of_nat (length (gaps pfns)) <= 1000000000 ->
  let n := Z.of_nat (length (gaps pfns)) in
  find_gaps gaps_alloc pfns = (if 0 <? n then Some (gaps pfns) else None, n, n).
Proof.
  intros Ha Hi HF Hl. unfold find_gaps. destruct (_ <? 2)%nat eqn:E.
  - apply Nat.ltb_lt in E. destruct pfns as [|a [|b t]]; cbn in *; (done || lia).
  - rewrite Ha. cbn [negb].
    destruct (scan_gaps_ok pfns [] (1024 * 1024) Ha Hi HF) as (cap' & ->); cbn [length]; try lia. done.
Qed.
End Search.

(** ** Filling *)

(** [filled fs fresh gs]: [gs] is [fs] with its missing fields replaced, in
    order, by the frames of [fresh]. *)
Inductive filled : list text -> list Z -> list text -> Prop :=
| filled_nil : filled [] [] []
| filled_keep f fs ps gs : f <> NAN -> filled fs ps gs -> filled (f :: fs) ps (f :: gs)
| filled_nan fs p ps gs : filled fs ps gs -> filled (NAN :: fs) (p :: ps) (fmt_lx p :: gs).

Lemma filled_app f1 p1 g1 f2 p2 g2 :
  filled f1 p1 g1 -> filled f2 p2 g2 -> filled (f1 ++ f2) (p1 ++ p2) (g1 ++ g2).
Proof. intros H1 H2. induction H1; cbn; [done|by constructor|by constructor]. Qed.

Lemma filled_length fs ps gs : filled fs ps gs -> length gs = length fs.
Proof. induction 1; cbn; congruence. Qed.

Definition tail_fields (e : entry_t) : list text := pt_pfns e ++ [data_pfn e].
Definition same_shape (e e' : entry_t) : Prop :=
  virtual_addr e' = virtual_addr e /\ length (pt_pfns e') = length (pt_pfns e).

Section Filling.
Context (arr : list Z) (unallocated : option (list Z)).
Context (Harr : unallocated = Some arr \/ arr = []).
#[local] Abbreviation count := (Z.of_nat (length arr)).

Lemma nans_cons f fs : countb is_nan (f :: fs) = (if is_nan f then 1 else 0) + countb is_nan fs.
Proof using. apply countb_cons. Qed.

Lemma fill_field_ok f (i : nat) :
  Z.of_nat i + (if is_nan f then 1 else 0) <= count ->
  exists g (j : nat), fill_field unallocated count f (Z.of_nat i) = Val (g, Z.of_nat j) /\
    Z.of_nat j = Z.of_nat i + (if is_nan f then 1 else 0) /\
    filled [f] (firstn (j - i) (skipn i arr)) [g].
Proof using Harr.
  intros Hi. unfold fill_field. destruct (is_nan f) eqn:E; cbn [andb].
  - apply bool_decide_eq_true in E. subst f. rewrite (proj2 (Z.ltb_lt _ _)) by lia.
    destruct Harr as [->|Hn]; [|rewrite Hn in Hi; cbn in Hi; lia].
    destruct (lookup_lt_is_Some_2 arr i ltac:(lia)) as [p Hp]. rewrite Nat2Z.id, Hp. cbn.
    exists (fmt_lx p), (S i). split; [by rewrite Nat2Z.inj_succ|]. split; [lia|].
    replace (S i - i)%nat with 1%nat by lia. rewrite (drop_S _ _ _ Hp). cbn. repeat constructor.
  - apply bool_decide_eq_false in E. exists f, i. split; [done|]. split; [lia|].
    rewrite Nat.sub_diag. cbn. by repeat constructor.
Qed.

Lemma take_split (i j k : nat) : (i <= j <= k)%nat ->
  firstn (k - i) (skipn i arr) = firstn (j - i) (skipn i arr) ++ firstn (k - j) (skipn j arr).
Proof using.
  intros H. replace (k - i)%nat with ((j - i) + (k - j))%nat by lia.
  rewrite <- (take_take_drop _ (j - i)). f_equal. rewrite drop_drop. f_equal. f_equal. lia.
Qed.

Lemma fill_fields_ok fs (i : nat) :
  Z.of_nat i + countb is_nan fs <= count ->
  exists gs (j : nat), fill_fields unallocated count fs (Z.of_nat i) = Val (gs, Z.of_nat j) /\
    Z.of_nat j = Z.of_nat i + countb is_nan fs /\ filled fs (firstn (j - i) (skipn i arr)) gs.
Proof using Harr.
  revert i. induction fs as [|f fs IH]; intros i Hi.
  - exists [], i. split; [done|]. split; [unfold countb; cbn; lia|]. rewrite Nat.sub_diag. constructor.
  - rewrite nans_cons in *. pose proof (countb_nonneg is_nan fs).
    destruct (fill_field_ok f i) as (g & j & E1 & H1 & F1); [lia|].
    destruct (IH j) as (gs & k & E2 & H2 & F2); [lia|].
    exists (g :: gs), k. cbn [fill_fields]. rewrite E1. cbn [mbind cres_bind]. rewrite E2.
    split; [done|]. split; [lia|].
    rewrite (take_split i j k) by (destruct (is_nan f); lia). by apply (filled_app [f] _ [g]).
Qed.

Lemma nan_count_cons e es : nan_count (e :: es) = countb is_nan (tail_fields e) + nan_count es.
Proof using.
  unfold tail_fields. change (nan_count (e :: es)) with
    (countb is_nan (pt_pfns e) + (if is_nan (data_pfn e) then 1 else 0) + nan_count es).
  rewrite countb_app, countb_one. lia.
Qed.

Lemma nan_count_nonneg es : 0 <= nan_count es.
Proof using. induction es; [done|]. rewrite nan_count_cons. pose proof (countb_nonneg is_nan (tail_fields a)). lia. Qed.

Lemma fill_entries_ok es (i : nat) :
  Z.of_nat i + nan_count es <= count ->
  exists es' (j : nat), fill_entries unallocated count es (Z.of_nat i) = Val (es', Z.of_nat j) /\
    Z.of_nat j = Z.of_nat i + nan_count es /\ Forall2 same_shape es es' /\
    filled (concat (map tail_fields es)) (firstn (j - i) (skipn i arr)) (concat (map tail_fields es')).
Proof using Harr.
  revert i. induction es as [|e es IH]; intros i Hi.
  - exists [], i. split; [done|]. split; [cbn; lia|]. rewrite Nat.sub_diag. repeat constructor.
  - rewrite nan_count_cons in *. unfold tail_fields in Hi. rewrite countb_app, countb_one in Hi.
    pose proof (nan_count_nonneg es). pose proof (countb_nonneg is_nan (pt_pfns e)).
    destruct (fill_fields_ok (pt_pfns e) i) as (gs & j & E1 & H1 & F1); [destruct (is_nan (data_pfn e)); lia|].
    destruct (fill_field_ok (data_pfn e) j) as (g & k & E2 & H2 & F2); [destruct (is_nan (data_pfn e)); lia|].
    destruct (IH k) as (es' & l & E3 & H3 & S3 & F3); [lia|].
    eexists _, l. cbn [fill_entries]. rewrite E1. cbn [mbind cres_bind]. rewrite E2. cbn [mbind cres_bind].
    rewrite E3. split; [done|]. unfold tail_fields at 1. rewrite countb_app, countb_one. split; [lia|].
    split; [constructor; [split; cbn; [done|by eapply filled_length]|done]|].
    cbn [map concat]. rewrite (take_split i k l) by (destruct (is_nan (data_pfn e)); lia).
    apply filled_app; [|done].
    rewrite (take_split i j k) by (destruct (is_nan (data_pfn e)); lia).
    by apply filled_app.
Qed.
End Filling.

(** ** Reading *)

Section Reading.
Context (entries_alloc pfns_alloc : Z -> bool).
Hypothesis entries_alloc_ok : forall k, entries_alloc k = true.
Hypothesis pfns_alloc_ok : forall k, pfns_alloc k = true.

Definition collected (fs : list text) : list Z :=
  List.filter (fun p => negb (p =? ULONG_MAX)) (map parse_hex fs).

(** The capacities keep ahead of the counts without overflowing. *)
Definition cap_ok (start count cap : Z) : Prop := count <= cap <= Z.max start (2 * count).
Record reader_ok (r : reader) : Prop := {
  ok_entries : cap_ok 1024 (Z.of_nat (length (entries r))) (capacity r);
  ok_pfns : cap_ok 65536 (Z.of_nat (length (all_pfns r))) (all_pfn_capacity r)
}.

Lemma grow_ok alloc start count cap :
  (forall k, alloc k = true) -> 0 < start <= 65536 -> 0 <= count < 2 ^ 29 -> cap_ok start count cap ->
  exists cap', grow alloc start count cap = Val (Go cap') /\ cap_ok start (count + 1) cap'.
Proof using.
  unfold cap_ok. intros Ha Hs Hc Hk. unfold grow. destruct (cap <=? count) eqn:E; zbool.
  - destruct (cap =? 0) eqn:E0; zbool; cbn [negb];
      (rewrite (proj2 (Z.ltb_ge INT_MAX _)) by (unfold INT_MAX; lia)); rewrite Ha; eexists; (split; [done|lia]).
  - eexists. split; [done|lia].
Qed.

Lemma collect_pfns_ok r fs :
  reader_ok r -> Z.of_nat (length (all_pfns r)) + Z.of_nat (length fs) < 2 ^ 29 ->
  exists r', collect_pfns pfns_alloc r fs = Val (Go r') /\ reader_ok r' /\
    entries r' = entries r /\ all_pfns r' = all_pfns r ++ collected fs.
Proof using pfns_alloc_ok.
  revert r. induction fs as [|f fs IH]; intros r R Hb; cbn [collect_pfns length] in *.
  { exists r. by rewrite app_nil_r. }
  unfold collect_pfn, collected. cbn [map List.filter].
  destruct (negb _) eqn:E; cbn [mbind cres_bind].
  - destruct (grow_ok pfns_alloc 65536 (Z.of_nat (length (all_pfns r))) (all_pfn_capacity r)) as (cap & -> & Hcap);
      try (done || lia || apply R). cbn [mbind cres_bind].
    edestruct (IH {| entries := entries r; capacity := capacity r; all_pfns := all_pfns r ++ [parse_hex f];
                     all_pfn_capacity := cap |}) as (r' & -> & R' & He & Hp).
    + constructor; cbn; [apply R|]. rewrite length_app, Nat2Z.inj_add. exact Hcap.
    + cbn. rewrite length_app. cbn [length]. lia.
    + exists r'. split_and!; try done. rewrite Hp. cbn. by rewrite <- app_assoc.
  - destruct (IH r R) as (r' & -> & R' & He & Hp); [lia|]. eauto.
Qed.

(** A line as the translator writes it. *)
Record line_ok (fs : list text) : Prop := {
  lo_fields : Forall (fun f => f <> [] /\ no_char COMMA f /\ no_char NL f /\ no_char NUL f) fs;
  lo_count : (2 <= length fs <= MAX_FIELDS)%nat;
  lo_length : (length (joinc COMMA fs) < MAX_LINE_LEN - 1)%nat
}.

Definition entry_of_fields (fs : list text) : entry_t :=
  {| virtual_addr := hd [] fs; pt_pfns := removelast (tl fs); data_pfn := List.last (tl fs) [] |}.

Lemma chomp_line l : no_char NL l -> no_char NUL l -> chomp (l ++ [NL]) = l.
Proof using.
  intros H1 H2. unfold chomp. rewrite cstr_no_NUL.
  - by rewrite split_at_app.
  - apply no_char_app. split; [done|]. repeat constructor. done.
Qed.

Lemma join_no_char c fs : c <> COMMA -> Forall (no_char c) fs -> no_char c (joinc COMMA fs).
Proof using. intros. by apply no_char_join. Qed.

Lemma line_ok_text fs : line_ok fs ->
  no_char NL (joinc COMMA fs) /\ no_char NUL (joinc COMMA fs) /\ joinc COMMA fs <> [] /\
  fields_of (joinc COMMA fs) = fs /\ make_entry fs = Some (entry_of_fields fs).
Proof using.
  intros [HF Hc Hl]. split_and!.
  - apply join_no_char; [done|]. eapply Forall_impl; [exact HF|]. naive_solver.
  - apply join_no_char; [done|]. eapply Forall_impl; [exact HF|]. naive_solver.
  - destruct fs as [|a [|b t]]; [cbn in Hc; lia|cbn in Hc; lia|]. by destruct a.
  - unfold fields_of. rewrite strtok_join; [by apply firstn_all2; lia|].
    eapply Forall_impl; [exact HF|]. naive_solver.
  - destruct fs as [|a [|b t]]; [cbn in Hc; lia|cbn in Hc; lia|]. done.
Qed.

Lemma read_line_ok r fs :
  reader_ok r -> line_ok fs -> Z.of_nat (length (entries r)) < 2 ^ 29 ->
  Z.of_nat (length (all_pfns r)) + Z.of_nat (length (tl fs)) < 2 ^ 29 ->
  exists r', read_line entries_alloc pfns_alloc r (joinc COMMA fs ++ [NL]) = Val (Go r') /\ reader_ok r' /\
    entries r' = entries r ++ [entry_of_fields fs] /\ all_pfns r' = all_pfns r ++ collected (tl fs).
Proof using entries_alloc_ok pfns_alloc_ok.
  intros R L He Hp. destruct (line_ok_text fs L) as (H1 & H2 & H3 & H4 & H5).
  unfold read_line. rewrite chomp_line by done.
  destruct (joinc COMMA fs) as [|x l] eqn:E; [done|]. rewrite <- E in *. clear E x l.
  destruct (grow_ok entries_alloc 1024 (Z.of_nat (length (entries r))) (capacity r)) as (cap & -> & Hcap);
    try (done || lia || apply R).
  cbn [mbind cres_bind]. rewrite H4, H5. cbn [entries capacity all_pfns all_pfn_capacity].
  edestruct collect_pfns_ok as (r' & -> & R' & Hent & Hpf); [|cbn; exact Hp|].
  - constructor; cbn; [|apply R]. rewrite length_app, Nat2Z.inj_add. exact Hcap.
  - exists r'. split_and!; done.
Qed.

Lemma read_lines_ok lines r fuel :
  reader_ok r -> Forall line_ok lines -> (length lines < fuel)%nat ->
  Z.of_nat (length (entries r)) + Z.of_nat (length lines) < 2 ^ 29 ->
  Z.of_nat (length (all_pfns r)) + 32 * Z.of_nat (length lines) < 2 ^ 29 ->
  exists r', read_lines entries_alloc pfns_alloc fuel r (unlines (map (joinc COMMA) lines)) = Some (Val (Go r')) /\
    entries r' = entries r ++ map entry_of_fields lines /\
    all_pfns r' = all_pfns r ++ collected (concat (map (@tl text) lines)).
Proof using entries_alloc_ok pfns_alloc_ok.
  intros R HF. revert r fuel R. induction HF as [|fs lines L HF IH]; intros r fuel R Hf He Hp.
  - destruct fuel; [cbn in Hf; lia|]. exists r. cbn. by rewrite !app_nil_r.
  - destruct fuel as [|fuel]; [cbn in Hf; lia|]. cbn [length] in *.
    destruct (line_ok_text fs L) as (H1 & H2 & H3 & H4 & H5). pose proof (lo_count _ L) as Hc. unfold MAX_FIELDS in Hc.
    assert (Ht : (length (tl fs) <= 31)%nat) by (destruct fs; cbn in *; lia).
    destruct (read_line_ok r fs R L) as (r1 & E1 & R1 & He1 & Hp1); [lia|lia|].
    assert (Hlen : (length (collected (tl fs)) <= 31)%nat).
    { unfold collected. etrans; [apply List.filter_length_le|]. by rewrite length_map. }
    destruct (IH r1 fuel R1) as (r' & E2 & He2 & Hp2); [lia|rewrite He1, length_app; cbn; lia|rewrite Hp1, length_app; lia|].
    unfold unlines. cbn [map concat]. fold (unlines (map (joinc COMMA) lines)).
    cbn [read_lines]. rewrite <- app_assoc. cbn [app].
    destruct (joinc COMMA fs) as [|x l] eqn:E; [done|]. rewrite <- E in *. 
    change (joinc COMMA fs ++ NL :: ?x) with (joinc COMMA fs ++ NL :: x).
    destruct (joinc COMMA fs ++ NL :: unlines (map (joinc COMMA) lines)) eqn:E'; [by destruct (joinc COMMA fs)|].
    rewrite <- E'. rewrite fgets_line by (done || apply L). rewrite E1, E2.
    exists r'. split; [done|]. rewrite He2, Hp2, He1, Hp1. cbn [map concat].
    unfold collected. by rewrite map_app, List.filter_app, <- !app_assoc.
Qed.
End Reading.

Lemma hex_run_nonneg l acc : 0 <= acc -> 0 <= fst (hex_run acc l).
Proof.
  revert acc. induction l as [|c t IH]; intros acc Ha; cbn; [done|].
  destruct (hexval c) as [d|] eqn:E; [|done]. apply IH.
  assert (0 <= d); [|lia]. unfold hexval in E. repeat case_match; zbool; simplify_eq; lia.
Qed.

Lemma sat64_bound v : 0 <= v -> 0 <= sat64 v < w64.
Proof. intros. unfold sat64. destruct (_ <=? _) eqn:E; zbool; unfold ULONG_MAX; lia. Qed.

Lemma strtoull16_bound l : 0 <= strtoull16 l < w64.
Proof.
  unfold strtoull16. destruct (skip_spaces l) as [|c t]; [lia|].
  case_decide; [cbv zeta; case_match; [unfold ULONG_MAX; lia|apply u64_bound]|].
  case_decide; apply sat64_bound, hex_run_nonneg; lia.
Qed.

Lemma parse_hex_bound f : 0 <= parse_hex f < w64.
Proof. unfold parse_hex. case_decide; [unfold ULONG_MAX; lia|]. apply strtoull16_bound. Qed.

Lemma collected_range fs : Forall (fun p => 0 <= p < ULONG_MAX) (collected fs).
Proof.
  apply Forall_forall. intros p Hp. apply list_elem_of_In in Hp. unfold collected in Hp.
  apply List.filter_In in Hp as [Hp Hn]. apply in_map_iff in Hp as (f & <- & _). zbool.
  pose proof (parse_hex_bound f). unfold ULONG_MAX in *. lia.
Qed.

Lemma known_range fs : Forall (fun p => 0 <= p < ULONG_MAX) (known_pfns (collected fs)).
Proof.
  pose proof (collected_range fs) as H. rewrite Forall_forall in *. intros p Hp. apply H. by apply elem_of_known.
Qed.

Lemma incr_take n l : incr l = true -> incr (firstn n l) = true.
Proof. rewrite <- (firstn_skipn n l) at 1. rewrite incr_app. tauto. Qed.

(** The fields of the records written. *)
Definition fields_of_entry (e : entry_t) : list text := virtual_addr e :: tail_fields e.

Lemma write_entry_join e : write_entry e = joinc COMMA (fields_of_entry e) ++ [NL].
Proof.
  unfold write_entry, fields_of_entry, tail_fields. destruct e as [va pts d]; cbn [virtual_addr pt_pfns data_pfn].
  revert va. induction pts as [|p pts IH]; intros va.
  - cbn [map concat joinc app]. by rewrite <- app_assoc.
  - cbn [map concat app]. rewrite join_cons, <- !app_assoc. cbn [app]. f_equal. f_equal.
    exact (IH p).
Qed.

Lemma tail_of_entry fs : (2 <= length fs)%nat ->
  fields_of_entry (entry_of_fields fs) = fs.
Proof.
  destruct fs as [|a [|b t]]; cbn [length]; [lia|lia|]. intros _.
  unfold fields_of_entry, tail_fields, entry_of_fields. cbn [hd tl virtual_addr pt_pfns data_pfn].
  f_equal. symmetry. by apply app_removelast_last.
Qed.

Lemma concat_tails lines : Forall line_ok lines ->
  concat (map tail_fields (map entry_of_fields lines)) = concat (map (@tl text) lines).
Proof.
  induction 1 as [|fs lines L HF IH]; [done|]. cbn [map concat]. rewrite IH. f_equal.
  pose proof (tail_of_entry fs (proj1 (lo_count _ L))) as E. by rewrite <- E at 2.
Qed.

Lemma write_file_unlines es :
  write_file es = fmt_d (Z.of_nat (length es)) ++ [NL] ++ unlines (map (joinc COMMA) (map fields_of_entry es)).
Proof.
  unfold write_file, unlines. do 2 f_equal. rewrite !map_map. f_equal. apply map_ext.
  intros e. apply write_entry_join.
Qed.

(** The augmented fields, record by record. *)
Definition same_record (fs gs : list text) : Prop := hd [] gs = hd [] fs /\ length gs = length fs.

Lemma same_records lines es :
  Forall line_ok lines -> Forall2 same_shape (map entry_of_fields lines) es ->
  Forall2 same_record lines (map fields_of_entry es).
Proof.
  intros HF. revert es. induction HF as [|fs lines L HF IH]; intros es HS; cbn [map] in HS;
    inversion HS as [|? e ? es' [H1 H2] HS']; subst; constructor; [|by apply IH].
  pose proof (tail_of_entry fs (proj1 (lo_count _ L))) as E. split; [exact H1|].
  rewrite <- E. unfold fields_of_entry, tail_fields. cbn [length]. rewrite !length_app. cbn [length]. lia.
Qed.

(** The program on well-formed lines; also used by the composition of the stages. *)
Lemma augment_lines (entries_alloc pfns_alloc gaps_alloc : Z -> bool) (header out_name : text)
    (lines : list (list text)) (fuel : nat) :
  (forall k, entries_alloc k = true) -> (forall k, pfns_alloc k = true) -> (forall k, gaps_alloc k = true) ->
  no_char NL header -> (length header < MAX_LINE_LEN - 1)%nat ->
  Forall line_ok lines -> 32 * Z.of_nat (length lines) < 2 ^ 29 -> (length lines < fuel)%nat ->
  let fields := concat (map (@tl text) lines) in
  let free := gaps (known_pfns (collected fields)) in
  countb is_nan fields <= Z.of_nat (length free) <= 1000000000 ->
  exists outs fresh log,
    main entries_alloc pfns_alloc gaps_alloc fuel true
      (Some (header ++ NL :: unlines (map (joinc COMMA) lines))) true out_name =
      Some (Val {| exit_code := 0;
                   out_file := Some (fmt_d (Z.of_nat (length lines)) ++ [NL] ++ unlines (map (joinc COMMA) outs));
                   std_out := log |}) /\
    Forall2 same_record lines outs /\
    filled fields fresh (concat (map (@tl text) outs)) /\
    incr fresh = true /\ (forall p, p ∈ fresh -> p ∉ collected fields) /\ Forall (fun p => 0 <= p < w64) fresh.
Proof.
  intros Ha1 Ha2 Ha3 Hnl Hh HF Hn Hfuel fields free Hfree.
  unfold main. cbn [negb].
  destruct (header ++ NL :: unlines (map (joinc COMMA) lines)) eqn:E; [by destruct header|]. rewrite <- E.
  rewrite fgets_line by done. clear E.
  destruct (read_lines_ok entries_alloc pfns_alloc Ha1 Ha2 lines
              {| entries := []; capacity := 0; all_pfns := []; all_pfn_capacity := 0 |} fuel)
    as (r & -> & He & Hp); cbn [entries all_pfns length]; try (done || lia).
  cbn [entries all_pfns app] in He, Hp. unfold finish. rewrite dedup_uniq. fold (known_pfns (all_pfns r)).
  rewrite Hp. fold fields.
  rewrite (find_gaps_ok gaps_alloc _ Ha3 (known_incr _) (known_range _)) by (fold free; lia). fold free.
  pose proof (concat_tails lines HF) as Hct. fold fields in Hct. rewrite <- He in Hct.
  assert (Hnan : nan_count (entries r) = countb is_nan fields).
  { rewrite <- Hct. clear. induction (entries r) as [|e es IH]; [done|].
    rewrite nan_count_cons, IH. cbn [map concat]. by rewrite countb_app. }
  destruct (fill_entries_ok free (if 0 <? Z.of_nat (length free) then Some free else None)) with (es := entries r) (i := 0%nat)
    as (es' & j & Hfill & Hj & Hshape & Hfilled).
  { destruct free; [by right|by left]. }
  { rewrite Hnan. lia. }
  rewrite Hct in Hfilled. change (Z.of_nat 0) with 0 in Hfill. rewrite Hfill. cbn [mbind cres_bind negb].
  exists (map fields_of_entry es'), (firstn (j - 0) (skipn 0 free)).
  rewrite write_file_unlines, <- (Forall2_length _ _ _ Hshape), He, length_map.
  eexists. split; [reflexivity|].
  split.
  { rewrite He in Hshape. by apply same_records. }
  split.
  { replace (map (@tl text) (map fields_of_entry es')) with (map tail_fields es'); [exact Hfilled|].
    rewrite map_map. done. }
  cbn [skipn]. split; [apply incr_take, gaps_incr, known_incr|]. split.
  - intros p Hp'. rewrite <- elem_of_known. apply gaps_fresh; [apply known_incr|].
    exact (subseteq_take _ _ _ Hp').
  - apply Forall_take, gaps_range. eapply Forall_impl; [apply known_range|].
    intros p Hp'. unfold ULONG_MAX in Hp'. lia.
Qed.

(** C24. On a dump the translator printed, whatever header it has, the
    augmentor succeeds and writes the true record count and then the same
    records, in which every missing level has been given a frame number; the
    frames given out are strictly increasing (so no two missing levels share
    one), none of them occurs anywhere in the dump, and every other field is
    left as it was, provided the gaps of the dump hold enough frames. *)
Theorem augment_fills (entries_alloc pfns_alloc gaps_alloc : Z -> bool) (header out_name : text)
    (lines : list (list text)) (fuel : nat) :
  (forall k, entries_alloc k = true) -> (forall k, pfns_alloc k = true) -> (forall k, gaps_alloc k = true) ->
  no_char NL header -> (length header < MAX_LINE_LEN - 1)%nat ->
  Forall line_ok lines -> 32 * Z.of_nat (length lines) < 2 ^ 29 -> (length lines < fuel)%nat ->
  let fields := concat (map (@tl text) lines) in
  let free := gaps (known_pfns (collected fields)) in
  countb is_nan fields <= Z.of_nat (length free) <= 1000000000 ->
  exists outs fresh log,
    main entries_alloc pfns_alloc gaps_alloc fuel true
      (Some (header ++ NL :: unlines (map (joinc COMMA) lines))) true out_name =
      Some (Val {| exit_code := 0;
                   out_file := Some (fmt_d (Z.of_nat (length lines)) ++ [NL] ++ unlines (map (joinc COMMA) outs));
                   std_out := log |}) /\
    Forall2 same_record lines outs /\
    filled fields fresh (concat (map (@tl text) outs)) /\
    incr fresh = true /\ (forall p, p ∈ fresh -> p ∉ collected fields).
Proof.
  intros H1 H2 H3 H4 H5 H6 H7 H8 fields free H9.
  destruct (augment_lines entries_alloc pfns_alloc gaps_alloc header out_name lines fuel H1 H2 H3 H4 H5 H6 H7 H8 H9)
    as (outs & fresh & log & E & HS & HF & HI & HC & _). by exists outs, fresh, log.
Qed.

Definition always (k : Z) : bool := true.
Definition demo_lines : list (list text) := [
  map s2l ["1000"; "11"; "11"; "NAN"; "13"; "20"]%string;
  map s2l ["2000"; "11"; "11"; "NAN"; "NAN"; "NAN"]%string].

Lemma augment_fills_witness :
  let fields := concat (map (@tl text) demo_lines) in
  exists outs fresh log,
    main always always always 3 true
      (Some (s2l "4242" ++ NL :: unlines (map (joinc COMMA) demo_lines))) true (s2l "out") =
      Some (Val {| exit_code := 0;
                   out_file := Some (fmt_d 2 ++ [NL] ++ unlines (map (joinc COMMA) outs));
                   std_out := log |}) /\
    Forall2 same_record demo_lines outs /\
    filled fields fresh (concat (map (@tl text) outs)) /\
    incr fresh = true /\ (forall p, p ∈ fresh -> p ∉ collected fields).
Proof.
  apply (augment_fills always always always (s2l "4242") (s2l "out") demo_lines 3); try reflexivity.
  - repeat constructor; vm_compute; discriminate.
  - vm_compute. lia.
  - repeat constructor; try (vm_compute; discriminate); vm_compute; lia.
  - vm_compute. lia.
  - vm_compute. split; discriminate.
Defined.

Example demo_augmented :
  (match main always always always 3 true
     (Some (s2l "4242" ++ NL :: unlines (map (joinc COMMA) demo_lines))) true (s2l "out") with
   | Some (Val o) => out_file o
   | _ => None
   end) =
  Some (unlines (map s2l ["2"; "1000,11,11,12,13,20"; "2000,11,11,14,15,16"]%string)).
Proof. vm_compute. reflexivity. Qed.

(** ** When the gap array cannot grow *)

Section Stuck.
Context (gaps_alloc : Z -> bool).
Hypothesis second_fails : gaps_alloc 2097152 = false.

Lemma add_gap_stuck n pfn arr :
  0 <= pfn -> pfn + Z.of_nat n < w64 -> Z.of_nat (length arr) <= 1048576 ->
  add_gap gaps_alloc n pfn arr 1048576 =
  if Z.of_nat (length arr) + Z.of_nat n <=? 1048576
  then inr (arr ++ seqZ pfn (Z.of_nat n), 1048576) else inl 1048576.
Proof using second_fails.
  revert pfn arr. induction n as [|n IH]; intros pfn arr H1 H2 H3.
  - cbn. rewrite (proj2 (Z.leb_le _ _)) by lia. by rewrite app_nil_r.
  - cbn [add_gap]. rewrite (u64_small (pfn + 1)) by lia. destruct (1048576 <=? _) eqn:E; zbool.
    + cbn [Z.leb Z.ltb Z.compare Pos.compare Pos.compare_cont]. change (1048576 * 2) with 2097152.
      rewrite second_fails. rewrite (proj2 (Z.leb_gt _ _)) by lia. f_equal. lia.
    + rewrite IH by (rewrite ?length_app; cbn [length]; lia).
      rewrite (seqZ_cons pfn) by lia. replace (Z.pred (Z.of_nat (S n))) with (Z.of_nat n) by lia.
      rewrite length_app, <- app_assoc. cbn [length app]. unfold Z.succ.
      replace (Z.of_nat (length arr + 1) + Z.of_nat n) with (Z.of_nat (length arr) + Z.of_nat (S n)) by lia. done.
Qed.

Lemma scan_gaps_stuck pfns arr :
  incr pfns = true -> Forall (fun p => 0 <= p < ULONG_MAX) pfns -> Z.of_nat (length arr) <= 1048576 ->
  1048576 < Z.of_nat (length arr) + Z.of_nat (length (gaps pfns)) ->
  scan_gaps gaps_alloc pfns arr 1048576 = inl 1048576.
Proof using second_fails.
  revert arr. induction pfns as [|a t IH]; intros arr Hi HF Hc Hl; [cbn in Hl; lia|].
  destruct t as [|b t]; [cbn in Hl; lia|].
  inversion HF as [|? ? Hpa HF']; subst. pose proof (Forall_inv HF') as Hpb.
  apply incr_cons in Hi as [Hi1 Hi2]. specialize (Hi1 b ltac:(set_solver)).
  rewrite gaps_cons2 in Hl. rewrite length_app in Hl. rewrite scan_gaps_cons2.
  unfold ULONG_MAX in *. rewrite (proj2 (Z.eqb_neq a _)), (proj2 (Z.eqb_neq b _)) by lia. cbn [orb].
  rewrite !u64_small by lia. replace (b - 1 - (a + 1) + 1) with (b - a - 1) by lia. cbv zeta.
  destruct (a + 1 <=? b - 1) eqn:E; zbool.
  - destruct (100000000 <? b - a - 1) eqn:E2; zbool.
    + rewrite (proj2 (Z.leb_gt _ _)) in Hl by lia. apply IH; (done || cbn in Hl; lia).
    + rewrite (proj2 (Z.leb_le _ _)) in Hl by lia. rewrite length_seqZ in Hl.
      rewrite add_gap_stuck by lia. destruct (_ <=? 1048576) eqn:E3; zbool; [|done].
      apply IH; rewrite ?length_app, ?length_seqZ; (done || lia).
  - rewrite (proj2 (Z.leb_le _ _)) in Hl by lia. rewrite seqZ_nil in Hl by lia. by apply IH.
Qed.

Lemma fill_field_null f count : is_nan f = true -> 0 < count -> fill_field None count f 0 = Undef.
Proof using. intros H1 H2. unfold fill_field. by rewrite H1, (proj2 (Z.ltb_lt _ _)). Qed.

Lemma fill_fields_null fs count : 0 < count ->
  fill_fields None count fs 0 = if 0 <? countb is_nan fs then Undef else Val (fs, 0).
Proof using.
  intros Hc. induction fs as [|f fs IH]; [done|]. cbn [fill_fields]. rewrite countb_cons.
  pose proof (countb_nonneg is_nan fs). destruct (is_nan f) eqn:E.
  - rewrite fill_field_null by done. rewrite (proj2 (Z.ltb_lt 0 _)) by lia. done.
  - unfold fill_field. rewrite E. cbn [andb mbind cres_bind]. rewrite IH. rewrite Z.add_0_l.
    by destruct (0 <? countb is_nan fs).
Qed.

Lemma fill_entries_null es count : 0 < count ->
  0 < nan_count es -> fill_entries None count es 0 = Undef.
Proof using.
  intros Hc. induction es as [|e es IH]; [done|]. rewrite nan_count_cons. intros Hn.
  cbn [fill_entries]. rewrite fill_fields_null by done. unfold tail_fields in Hn.
  rewrite countb_app, countb_one in Hn.
  destruct (0 <? countb is_nan (pt_pfns e)) eqn:E; [done|]. zbool. pose proof (countb_nonneg is_nan (pt_pfns e)).
  cbn [mbind cres_bind]. destruct (is_nan (data_pfn e)) eqn:E2; [by rewrite fill_field_null|].
  unfold fill_field. rewrite E2. cbn [andb mbind cres_bind]. rewrite IH by lia. done.
Qed.
End Stuck.

(** When the array of free frames cannot grow past its first million
    entries, [find_gaps] frees it and returns, but the count of the frames
    stored stays behind: if any level is missing, [main] reads the array
    through the null pointer. *)
Theorem gap_growth_failure (gaps_alloc : Z -> bool) (r : reader) (out_ok : bool) (out_name : text) (fs : list text) :
  gaps_alloc 1048576 = true -> gaps_alloc 2097152 = false ->
  all_pfns r = collected fs -> 1048576 < Z.of_nat (length (gaps (known_pfns (collected fs)))) ->
  find_gaps gaps_alloc (known_pfns (collected fs)) = (None, 1048576, 1048576) /\
  (0 < nan_count (entries r) -> finish gaps_alloc r out_ok out_name = Undef).
Proof.
  intros H1 H2 Hr Hl.
  assert (E : find_gaps gaps_alloc (known_pfns (collected fs)) = (None, 1048576, 1048576)).
  { unfold find_gaps. destruct (_ <? 2)%nat eqn:E.
    - apply Nat.ltb_lt in E. destruct (known_pfns (collected fs)) as [|a [|b t]]; cbn in *; lia.
    - change (1024 * 1024) with 1048576. rewrite H1. cbn [negb].
      rewrite scan_gaps_stuck; (done || apply known_incr || apply known_range || cbn [length]; lia). }
  split; [done|]. intros Hn. unfold finish. rewrite dedup_uniq. fold (known_pfns (all_pfns r)).
  rewrite Hr, E. by rewrite fill_entries_null.
Qed.

(** Two frames 1,048,578 apart and one missing level. *)
Definition wide_fields : list text := map s2l ["1"; "NAN"; "100003"]%string.
Definition wide_reader : reader :=
  {| entries := [entry_of_fields (map s2l ["0"; "1"; "NAN"; "100003"]%string)]; capacity := 1024;
     all_pfns := collected wide_fields; all_pfn_capacity := 65536 |}.
Definition one_million (k : Z) : bool := k =? 1048576.

Lemma wide_gap : 1048576 < Z.of_nat (length (gaps (known_pfns (collected wide_fields)))).
Proof.
  assert (E : known_pfns (collected wide_fields) = [1; 1048579]) by (vm_compute; reflexivity).
  rewrite E, gaps_cons2, length_app. change (1048579 - 1 - 1 <=? 100000000) with true. cbn iota.
  rewrite length_seqZ. lia.
Qed.

Lemma gap_growth_failure_witness :
  find_gaps one_million (known_pfns (collected wide_fields)) = (None, 1048576, 1048576) /\
  (0 < nan_count (entries wide_reader) -> finish one_million wide_reader true [] = Undef).
Proof.
  exact (gap_growth_failure one_million wide_reader true [] wide_fields eq_refl eq_refl eq_refl wide_gap).
Defined.
