(* ===== verification/Pipeline.v ===== *)
(** * The stages composed

    The text one stage prints is the text the next one reads.  The lemmas here
    connect the guest dumper (GuestDump.v), the translator (HostTranslator.v)
    and the augmentor (Augmentor.v) through their file formats; the theorem
    follows a dump from the guest's page tables to the augmented file. *)
From S2P Require Export CText PageTable.
From S2P Require GuestDump HostTranslator Augmentor.
Import HostTranslator (state, config, PfnHash, PfnHashLaws).
#[local] Existing Instances HostTranslator.chained_hash HostTranslator.chained_hash_laws.

Abbreviation page_line := GuestDump.page_line.
Abbreviation ops := GuestDump.normal_ops.

(** The accessors return [unsigned long]s. *)
Record ulong_frames `{K : KernelPT} : Prop := {
  ul_p4d v : 0 <= l_pfn p4d_ops v < w64;
  ul_pud v : 0 <= l_pfn pud_ops v < w64;
  ul_pmd v : 0 <= l_pfn pmd_ops v < w64;
  ul_pte v : 0 <= pte_pfn v < w64;
  ul_pa p : 0 <= pa p < w64
}.
Arguments ulong_frames K : clear implicits.

(** ** From the guest's dump to the translator *)

Definition ulongs (l : list Z) : Prop := Forall (fun v => 0 <= v < w64) l.

(** A record: an address, a comma, five frames. *)
Definition record (va : Z) (frames : list Z) : text :=
  fmt_016lx va ++ COMMA :: joinc COMMA (map fmt_lx frames).

Lemma fmt_016lx_no c n : (forall d, digit_char d -> d <> c) -> no_char c (fmt_016lx n).
Proof. intros H. eapply digits_no_char; [exact H|]. apply digits_hex_pad. Qed.

(** The translator reads back the frames of a record. *)
Lemma record_read va frames :
  ulongs frames -> length frames = 5%nat -> HostTranslator.record_pfns (record va frames) = Some frames.
Proof.
  intros HU Hl. unfold HostTranslator.record_pfns, record.
  rewrite split_at_app by (apply fmt_016lx_no; intros d Hd; pose proof (digit_char_facts d Hd); tauto).
  rewrite <- (app_nil_r (joinc _ _)), <- Hl.
  rewrite kscan_fields_join; try done; [by rewrite Hl|]. by destruct frames.
Qed.

Lemma record_no c va frames : c <> COMMA -> (forall d, digit_char d -> d <> c) -> no_char c (record va frames).
Proof.
  intros Hc H. unfold record. apply no_char_app. split; [by apply fmt_016lx_no|].
  constructor; [done|]. apply no_char_join; [done|]. apply Forall_map. apply Forall_true.
  intros v. eapply digits_no_char; [exact H|]. apply digits_fmt_lx.
Qed.

Section GuestLines.
Context `{K : KernelPT} (UL : ulong_frames K) (m : memory) (root : Z).

Lemma cr3_ulong : 0 <= GuestDump.cr3_pfn root < w64.
Proof using UL.
  unfold GuestDump.cr3_pfn. rewrite shiftr_div by lia. pose proof (ul_pa UL root).
  change (2 ^ 12) with 4096. split; [apply Z.div_pos; lia|]. apply Z.div_lt_upper_bound; lia.
Qed.

Lemma print_entry_record a f2 f3 f4 f5 : f5 <> 0 ->
  GuestDump.print_entry root a f2 f3 f4 f5 = record a [GuestDump.cr3_pfn root; f2; f3; f4; f5] ++ [NL].
Proof using.
  intros H. unfold GuestDump.print_entry, record. rewrite (proj2 (Z.eqb_neq f5 0)) by done.
  by rewrite <- app_assoc.
Qed.

Lemma visit_ulong ptr next ops' pfn x :
  (forall v, 0 <= l_pfn ops' v < w64) ->
  GuestDump.visit m ops' ptr next = GuestDump.Next pfn x -> 0 <= pfn < w64.
Proof using. unfold GuestDump.visit. intros H. repeat case_match; intros [=]; subst; (apply H || lia). Qed.
Lemma visit_leaf_ulong ptr next ops' pfn :
  (forall v, 0 <= l_pfn ops' v < w64) ->
  GuestDump.visit m ops' ptr next = GuestDump.Leaf pfn -> 0 <= pfn < w64.
Proof using. unfold GuestDump.visit. intros H. repeat case_match; intros [=]; subst; (apply H || lia). Qed.

Lemma huge_record a g p u d level :
  0 <= p < w64 -> 0 <= u < w64 -> 0 <= d < w64 ->
  exists f2 f3 f4 f5, ulongs [f2; f3; f4; f5] /\
    fst (GuestDump.handle_normal_page root a g p u d 0 level) = GuestDump.print_entry root a f2 f3 f4 f5.
Proof using.
  intros Hp Hu Hd. unfold GuestDump.handle_normal_page.
  destruct ((0 <=? level) && (level <=? 3)) eqn:E.
  - cbn [fst]. do 4 eexists. split; [|reflexivity].
    repeat constructor; try (repeat case_match; (apply u64_bound || lia)); apply u64_bound.
  - exists 0, 0, 0, 0. split; [repeat constructor; lia|]. done.
Qed.

(** What the walker prints for a mapped page is a record of five frames. *)
Lemma page_line_record a :
  GuestDump.mapped m (ops m) root a ->
  exists frames, page_line m (ops m) root a = record a frames ++ [NL] /\ ulongs frames /\ length frames = 5%nat.
Proof using UL.
  unfold GuestDump.mapped. intros Hm.
  assert (exists f2 f3 f4 f5, ulongs [f2; f3; f4; f5] /\
    page_line m (ops m) root a = GuestDump.print_entry root a f2 f3 f4 f5) as (f2 & f3 & f4 & f5 & HU & E).
  { unfold page_line, GuestDump.table_walker, GuestDump.walk.
    destruct (GuestDump.visit m (GuestDump.wo_pgd (ops m)) _ _) as [g|g x1] eqn:E1; [apply huge_record; lia|].
    destruct (GuestDump.visit m (GuestDump.wo_p4d (ops m)) _ _) as [p|p x2] eqn:E2.
    { apply visit_leaf_ulong in E2; [|apply UL]. apply huge_record; lia. }
    apply visit_ulong in E2; [|apply UL].
    destruct (GuestDump.visit m (GuestDump.wo_pud (ops m)) _ _) as [u|u x3] eqn:E3.
    { apply visit_leaf_ulong in E3; [|apply UL]. apply huge_record; lia. }
    apply visit_ulong in E3; [|apply UL].
    destruct (GuestDump.visit m (GuestDump.wo_pmd (ops m)) _ _) as [d|d x4] eqn:E4.
    { apply visit_leaf_ulong in E4; [|apply UL]. apply huge_record; lia. }
    apply visit_ulong in E4; [|apply UL].
    do 4 eexists. split; [|reflexivity]. repeat constructor; try lia; case_match; (apply UL || lia). }
  rewrite E in *. destruct (Z.eq_dec f5 0) as [->|Hf]; [by rewrite GuestDump.print_entry_nil in Hm|].
  eexists. split; [by apply print_entry_record|]. split; [|done]. constructor; [apply cr3_ulong|done].
Qed.

(** A list of mapped pages prints as lines, and their records hold [frames]. *)
Lemma pages_records vas :
  (forall a, a ∈ vas -> GuestDump.mapped m (ops m) root a) ->
  exists recs : list (list Z),
    concat (map (page_line m (ops m) root) vas) = unlines (map (fun p => record (fst p) (snd p)) (combine vas recs)) /\
    length recs = length vas /\ Forall (fun fs => ulongs fs /\ length fs = 5%nat) recs.
Proof using UL.
  induction vas as [|a vas IH]; intros Hm; [exists []; repeat constructor|].
  destruct (page_line_record a) as (fs & E & HU & Hl); [apply Hm; set_solver|].
  destruct IH as (recs & E' & Hl' & HF); [set_solver|].
  exists (fs :: recs). cbn [map concat combine length]. rewrite E, E'.
  split_and!; [reflexivity|by rewrite Hl'|constructor; [by split|done]].
Qed.

Lemma add_lines_records vas recs known :
  length recs = length vas -> Forall (fun fs => ulongs fs /\ length fs = 5%nat) recs ->
  fold_left HostTranslator.add_line (map (fun p => record (fst p) (snd p)) (combine vas recs)) known =
  fold_left HostTranslator.add_pfn (concat recs) known.
Proof using.
  revert recs known. induction vas as [|a vas IH]; intros [|fs recs] known Hl HF; try done.
  inversion_clear HF as [|? ? [HU H5] HF']. cbn [combine map fold_left concat fst snd].
  rewrite fold_left_app, IH by (done || cbn in Hl; lia). f_equal.
  unfold HostTranslator.add_line. by rewrite record_read.
Qed.
End GuestLines.

Lemma elem_of_add_pfns ps known p :
  p ∈ fold_left HostTranslator.add_pfn ps known <-> p ∈ known \/ (p ∈ ps /\ p <> 0).
Proof.
  revert known. induction ps as [|q ps IH]; intros known; cbn [fold_left]; [set_solver|].
  rewrite IH. unfold HostTranslator.add_pfn. case_decide as E; [destruct E; set_solver|].
  rewrite elem_of_app, list_elem_of_singleton. set_solver.
Qed.

Lemma NoDup_add_pfns ps known :
  NoDup known -> NoDup (fold_left HostTranslator.add_pfn ps known).
Proof.
  revert known. induction ps as [|q ps IH]; intros known Hn; cbn [fold_left]; [done|]. apply IH.
  unfold HostTranslator.add_pfn. case_decide; [done|]. apply NoDup_app. split_and!; [done|set_solver|apply NoDup_singleton].
Qed.

(** ** From the translator to the augmentor *)

Definition raw_fields (gpa : Z) (ch : HostTranslator.chain) : list text :=
  fmt_lx (u64 (Z.shiftl gpa 12)) ::
  map HostTranslator.fmt_field
    [HostTranslator.chain_pfn1 ch; HostTranslator.chain_pfn2 ch; HostTranslator.chain_pfn3 ch;
     HostTranslator.chain_pfn4 ch; HostTranslator.chain_pfn5 ch].

Lemma show_entry_line e :
  HostTranslator.show_entry e =
  joinc COMMA (raw_fields (HostTranslator.te_gpa_pfn e) (HostTranslator.te_chain e)) ++ [NL].
Proof.
  unfold HostTranslator.show_entry, raw_fields. cbn [map]. rewrite (join_cons COMMA (fmt_lx _)), <- app_assoc. reflexivity.
Qed.

Lemma length_fmt_lx n : (length (fmt_lx n) <= 16)%nat.
Proof. etrans; [apply length_strip0|]. by rewrite length_hex_pad. Qed.

Lemma fmt_field_ok v :
  HostTranslator.fmt_field v <> [] /\ no_char COMMA (HostTranslator.fmt_field v) /\
  no_char NL (HostTranslator.fmt_field v) /\ no_char NUL (HostTranslator.fmt_field v) /\
  (length (HostTranslator.fmt_field v) <= 16)%nat.
Proof.
  unfold HostTranslator.fmt_field. case_match.
  - split_and!; try done; repeat constructor; (discriminate || lia).
  - split_and!; auto with text. apply length_fmt_lx.
Qed.

Lemma raw_fields_ok gpa ch : Augmentor.line_ok (raw_fields gpa ch).
Proof.
  assert (HF : Forall (fun f => f <> [] /\ no_char COMMA f /\ no_char NL f /\ no_char NUL f /\
                               (length f <= 16)%nat) (raw_fields gpa ch)).
  { constructor; [split_and!; auto with text; apply length_fmt_lx|].
    apply Forall_map, Forall_true. apply fmt_field_ok. }
  assert (H5 : length (raw_fields gpa ch) = 6%nat) by done.
  constructor.
  - eapply Forall_impl; [exact HF|]. naive_solver.
  - rewrite H5. unfold Augmentor.MAX_FIELDS. lia.
  - assert (Hj : forall fs, Forall (fun f => (length f <= 16)%nat) fs -> (length (joinc COMMA fs) <= 17 * length fs)%nat).
    { induction 1 as [|f fs Hf HF' IH]; [done|]. destruct fs as [|g fs]; [cbn; lia|].
      rewrite join_cons, length_app. cbn [length] in *. lia. }
    specialize (Hj (raw_fields gpa ch)). rewrite H5 in Hj. unfold Augmentor.MAX_LINE_LEN.
    assert (length (joinc COMMA (raw_fields gpa ch)) <= 17 * 6)%nat; [|lia]. apply Hj.
    eapply Forall_impl; [exact HF|]. naive_solver.
Qed.

(** Filling leaves no missing field. *)
Lemma fmt_lx_not_nan p : fmt_lx p <> Augmentor.NAN.
Proof.
  intros E. pose proof (digits_fmt_lx p) as HF. rewrite E in HF.
  apply Forall_inv in HF. pose proof (digit_char_facts _ HF). tauto.
Qed.
Lemma filled_no_nan fs ps gs : Augmentor.filled fs ps gs -> Augmentor.NAN ∉ gs.
Proof.
  induction 1 as [|f fs ps gs Hf _ IH|fs p ps gs _ IH]; [set_solver| |];
    intros [Hin|Hin]%elem_of_cons; (by subst) || (by apply (fmt_lx_not_nan p)) || done.
Qed.

(** ** The host half

    From a dump of guest pages to the text the translator prints. *)
Section HostStages.
Context `{K : KernelPT} {H : Type} `{HH : PfnHash H} `{HL : !PfnHashLaws H}.
Context (alloc_ok : nat -> Z -> bool) (junk : HostTranslator.translation_entry) (hm : memory).
Context {P T : Type} (find_get_pid : Z -> option P) (pid_task : P -> option T)
        (get_task_mm : T -> option HostTranslator.mm_struct).
Context (c : config) (mm : HostTranslator.mm_struct).

(** The records the translator prints for the frames [known]. *)
Definition host_records (known : list Z) : list (list text) :=
  map (fun p => raw_fields p (HostTranslator.pt_chain (HostTranslator.translation_of hm c (Some mm) p))) known.

Lemma host_output (s : state H) known fuel :
  HostTranslator.table_rep hm c (Some mm) (HostTranslator.st_table s) known ->
  Z.of_nat (length known) < 2 ^ 40 -> (length known < fuel)%nat ->
  HostTranslator.output_read fuel s 0 =
  Some (Val (fmt_d (HostTranslator.guest_pid (HostTranslator.st_config s)) ++ NL ::
             unlines (map (joinc COMMA) (host_records known)))).
Proof using HL.
  intros R Hl Hf. rewrite (HostTranslator.output_of_rep hm (Some mm) c s known 0 fuel) by done.
  do 3 f_equal. unfold unlines, host_records. rewrite !map_map. cbn [app]. do 2 f_equal.
  apply map_ext. intros p. apply show_entry_line.
Qed.

Lemma length_host_records known : length (host_records known) = length known.
Proof using. apply length_map. Qed.

Lemma host_records_ok known : Forall Augmentor.line_ok (host_records known).
Proof using. apply Forall_map, Forall_true. intros p. apply raw_fields_ok. Qed.
End HostStages.

Section Composition.
Context `{KL : KernelPTLaws} (UL : ulong_frames K) {H : Type} `{HL : PfnHashLaws H}.
(** The guest: its memory, its processes and the module's selection. *)
Context {GT : Type} (find_task : Z -> option GT) (task_mm : GT -> option Z) (gm : memory)
        (g : GuestDump.globals) (root : Z).
Hypothesis user_mode : GuestDump.is_userspace_mode g = true.
Hypothesis guest_mm : GuestDump.get_mm_from_pid find_task task_mm (GuestDump.selected_pid g) = Some root.
Hypothesis guest_frames : GuestDump.frames_nonzero gm (ops gm).
Hypothesis guest_pid_range : 0 <= GuestDump.selected_pid g < 2147483648.
(** The host: allocations succeed, QEMU is running, the array is consistent. *)
Context (alloc_ok : nat -> Z -> bool) (junk : HostTranslator.translation_entry) (hm : memory).
Context {P T : Type} (find_get_pid : Z -> option P) (pid_task : P -> option T)
        (get_task_mm : T -> option HostTranslator.mm_struct).
Context (c : config) (mm : HostTranslator.mm_struct) (s : state H).
Hypothesis alloc_enough : forall i n, 0 < n <= 2 ^ 48 -> alloc_ok i n = true.
Hypothesis qemu_mm : HostTranslator.get_qemu_mm find_get_pid pid_task get_task_mm c = Some mm.
Hypothesis host_config : HostTranslator.st_config s = c.
Hypothesis host_array : HostTranslator.translation_entries (HostTranslator.st_table s) = None ->
  HostTranslator.translation_capacity (HostTranslator.st_table s) = 0.

#[local] Abbreviation header := (fmt_16d (GuestDump.selected_pid g)).

(** The guest's dump and the frames it names, page by page. *)
Lemma guest_dump fuel : TASK_SIZE_MAX <= PAGE_SIZE * Z.of_nat fuel ->
  exists vas recs,
    GuestDump.seq_pass find_task task_mm gm fuel g 0 0 =
      Some (0, header ++ NL :: unlines (map (fun p => record (fst p) (snd p)) (combine vas recs))) /\
    (forall a, a ∈ vas <-> 0 <= a < TASK_SIZE_MAX /\ (PAGE_SIZE | a) /\ GuestDump.mapped gm (ops gm) root a) /\
    length recs = length vas /\ Forall (fun fs => ulongs fs /\ length fs = 5%nat) recs.
Proof using KL UL guest_frames guest_mm user_mode.
  intros Hf. pose proof task_size.
  destruct (GuestDump.user_pass find_task task_mm gm g root user_mode guest_mm guest_frames fuel 0)
    as (vas & HE & _ & HV); [lia|apply Z.divide_0_r|lia|].
  destruct (pages_records UL gm root vas) as (recs & E & Hl & HF); [intros a Ha; by apply HV|].
  exists vas, recs. rewrite HE. cbn [Z.eqb]. rewrite E, <- app_assoc. done.
Qed.

Lemma header_text : header <> [] /\ no_char NL header /\ no_char NUL header /\ kstrtoint header = None.
Proof using guest_pid_range.
  clear - guest_pid_range. assert (Hd : forall ch, (forall d, digit_char d -> d <> ch) -> ch <> " "%char -> no_char ch header).
  { intros ch Hdig Hsp. unfold fmt_16d, pad_left. apply no_char_app. split.
    - apply Forall_forall. intros x Hx. apply list_elem_of_In, repeat_spec in Hx. by subst.
    - eapply Forall_impl; [apply fmt_d_digits; lia|]. intros x Hx. apply dec_digit_facts in Hx as [_ Hx]. auto. }
  split_and!.
  - unfold fmt_16d, pad_left. intros E. apply app_eq_nil in E as [_ E].
    pose proof (length_fmt_d (GuestDump.selected_pid g) ltac:(lia)). rewrite E in *. cbn in *. lia.
  - apply Hd; [|done]. intros d Hx. pose proof (digit_char_facts d Hx). tauto.
  - apply Hd; [|done]. intros d Hx. pose proof (digit_char_facts d Hx). tauto.
  - by apply kstrtoint_fmt_16d.
Qed.

Lemma records_no_NUL l : no_char NUL (unlines (map (fun p : Z * list Z => record (fst p) (snd p)) l)).
Proof using.
  clear. unfold unlines. induction l as [|[va fs] l IH]; cbn [map concat]; [constructor|].
  apply no_char_app. split; [|done]. apply no_char_app. split; [|by repeat constructor].
  apply record_no; [done|]. intros d Hd. pose proof (digit_char_facts d Hd). tauto.
Qed.

Lemma records_lines l :
  lines_of (unlines (map (fun p : Z * list Z => record (fst p) (snd p)) l)) =
  (map (fun p => record (fst p) (snd p)) l, []).
Proof using.
  clear. apply lines_of_unlines, Forall_map, Forall_true. intros [va fs].
  apply record_no; [done|]. intros d Hd. pose proof (digit_char_facts d Hd). tauto.
Qed.

(** The host's records of the frames [known], and the frames free in them. *)
#[local] Abbreviation raw known := (host_records hm c mm known).
#[local] Abbreviation raw_tail known := (concat (map (@tl text) (raw known))).

Lemma augment_stage entries_alloc pfns_alloc gaps_alloc header out_name known :
  (forall k, entries_alloc k = true) -> (forall k, pfns_alloc k = true) -> (forall k, gaps_alloc k = true) ->
  no_char NL header -> (length header < 4095)%nat -> 32 * Z.of_nat (length known) < 2 ^ 29 ->
  countb Augmentor.is_nan (raw_tail known) <=
    Z.of_nat (length (Augmentor.gaps (Augmentor.known_pfns (Augmentor.collected (raw_tail known))))) <= 1000000000 ->
  exists outs log,
    Augmentor.main entries_alloc pfns_alloc gaps_alloc (S (length known)) true
      (Some (header ++ NL :: unlines (map (joinc COMMA) (raw known)))) true out_name =
      Some (Val {| Augmentor.exit_code := 0;
                   Augmentor.out_file :=
                     Some (fmt_d (Z.of_nat (length known)) ++ [NL] ++ unlines (map (joinc COMMA) outs));
                   Augmentor.std_out := log |}) /\
    Forall2 Augmentor.same_record (raw known) outs /\ Augmentor.NAN ∉ concat (map (@tl text) outs).
Proof using.
  clear. intros H1 H2 H3 Hnl Hl Hk Hfree.
  destruct (Augmentor.augment_lines entries_alloc pfns_alloc gaps_alloc header out_name (raw known) (S (length known)))
    as (outs & fresh & log & E & HS & HF & _); try done.
  { apply host_records_ok. } { by rewrite length_host_records. } { rewrite length_host_records. lia. }
  exists outs, log. rewrite length_host_records in E. split; [exact E|]. split; [done|].
  by eapply filled_no_nan.
Qed.

(** C25. The pipeline from end to end.  Reading the guest's page tables and
    writing the text to the translator, in any pieces whose first contains the
    header line, leaves the translator with one entry for each distinct
    non-zero frame that the mapped pages' records name; its output has the
    header "0" (the guest's header is padded with blanks, which the translator
    does not parse) and one record per frame; and the augmentor turns that text
    into the count followed by the same records with no field missing. *)
Theorem pipeline_end_to_end (entries_alloc pfns_alloc gaps_alloc : Z -> bool) (out_name : text) (fuel : nat) :
  TASK_SIZE_MAX <= PAGE_SIZE * Z.of_nat fuel ->
  (forall k, entries_alloc k = true) -> (forall k, pfns_alloc k = true) -> (forall k, gaps_alloc k = true) ->
  exists vas recs dump,
    GuestDump.seq_pass find_task task_mm gm fuel g 0 0 = Some (0, dump) /\
    (forall a, a ∈ vas <-> 0 <= a < TASK_SIZE_MAX /\ (PAGE_SIZE | a) /\ GuestDump.mapped gm (ops gm) root a) /\
    dump = header ++ NL :: unlines (map (fun p => record (fst p) (snd p)) (combine vas recs)) /\
    length recs = length vas /\
    let known := fold_left HostTranslator.add_pfn (concat recs) [] in
    NoDup known /\ (forall p, p ∈ known <-> p ∈ concat recs /\ p <> 0) /\
    forall first chunks, dump = header ++ NL :: first ++ concat chunks -> Z.of_nat (length dump) < 2 ^ 36 ->
    exists s' raw_text,
      HostTranslator.write_chunks alloc_ok junk hm find_get_pid pid_task get_task_mm
        ((header ++ NL :: first) :: chunks) 0 s = Val (Some (s', Z.of_nat (length dump))) /\
      HostTranslator.output_read (S (length known)) s' 0 = Some (Val raw_text) /\
      raw_text = s2l "0" ++ NL :: unlines (map (joinc COMMA) (raw known)) /\
      (32 * Z.of_nat (length known) < 2 ^ 29 ->
       countb Augmentor.is_nan (raw_tail known) <=
         Z.of_nat (length (Augmentor.gaps (Augmentor.known_pfns (Augmentor.collected (raw_tail known))))) <= 1000000000 ->
       exists outs log,
         Augmentor.main entries_alloc pfns_alloc gaps_alloc (S (length known)) true (Some raw_text) true out_name =
           Some (Val {| Augmentor.exit_code := 0;
                        Augmentor.out_file :=
                          Some (fmt_d (Z.of_nat (length known)) ++ [NL] ++ unlines (map (joinc COMMA) outs));
                        Augmentor.std_out := log |}) /\
         Forall2 Augmentor.same_record (raw known) outs /\ Augmentor.NAN ∉ concat (map (@tl text) outs)).
Proof using All.
  intros Hf A1 A2 A3. destruct (guest_dump fuel Hf) as (vas & recs & HE & HV & Hl & HF).
  destruct header_text as (Hne & Hnl & Hnul & Hpid).
  exists vas, recs. eexists. split; [exact HE|]. split; [exact HV|]. split; [done|]. split; [done|].
  intros known. split; [apply NoDup_add_pfns, NoDup_nil_2|].
  split; [intros p; unfold known; rewrite elem_of_add_pfns; set_solver|].
  intros first chunks E HL'. rewrite E in HL' |- *.
  assert (Hbody : first ++ concat chunks = unlines (map (fun p => record (fst p) (snd p)) (combine vas recs))).
  { apply app_inv_head in E. by injection E. }
  destruct (HostTranslator.chunked_write_rep alloc_ok junk hm find_get_pid pid_task get_task_mm c mm s header first chunks)
    as (s' & HW & Hc & HR & _); try done.
  { apply no_char_app. split; [done|]. constructor; [done|]. rewrite Hbody. apply records_no_NUL. }
  rewrite Hbody, records_lines in HR. cbn [fst] in HR. rewrite (add_lines_records vas recs [] Hl HF) in HR.
  exists s'. eexists. split; [exact HW|].
  assert (Hk : Z.of_nat (length known) < 2 ^ 40).
  { pose proof (HostTranslator.length_add_pfns (concat recs) []) as Hlen. fold known in Hlen. cbn [length] in Hlen.
    assert (Hrl : (length (concat recs) <= 5 * length (unlines (map (fun p => record (fst p) (snd p)) (combine vas recs))))%nat).
    { clear - Hl HF. revert recs Hl HF. induction vas as [|a vas IH]; intros [|fs recs] Hl HF; cbn in *; try lia.
      inversion_clear HF as [|? ? [_ H5] HF']. rewrite !length_app, H5. cbn [length].
      specialize (IH recs ltac:(lia) HF'). unfold unlines in IH. lia. }
    rewrite <- Hbody in Hrl. rewrite length_app in HL'. cbn [length] in HL'. lia. }
  split; [apply (host_output hm c mm s' known (S (length known)) HR Hk); lia|].
  split; [by rewrite Hc, Hpid|].
  intros Hn Hfree. rewrite Hc, Hpid. cbn [default].
  apply augment_stage; try done; [repeat constructor; discriminate|vm_compute; lia].
Qed.
End Composition.

(** ** A concrete pipeline *)

Lemma x86_pfn_ulong v : 0 <= x86_pfn v < w64.
Proof.
  unfold x86_pfn. assert (Hl : 0 <= Z.land v PFN_MASK < 2 ^ 52).
  { replace (Z.land v PFN_MASK) with (Z.land (Z.land v PFN_MASK) (Z.ones 52)).
    - rewrite Z.land_ones by lia. apply Z.mod_pos_bound. lia.
    - rewrite <- Z.land_assoc. f_equal. }
  rewrite shiftr_div by lia. change (2 ^ 12) with 4096.
  split; [apply Z.div_pos; lia|]. apply Z.div_lt_upper_bound; lia.
Qed.

Lemma x86_ulong_frames : ulong_frames X86_4level.
Proof. constructor; intros v; try apply x86_pfn_ulong. apply u64_bound. Qed.

Lemma pipeline_end_to_end_witness :
  exists vas recs dump,
    GuestDump.seq_pass (fun _ => Some tt) (fun _ => Some GuestDump.demo_root) GuestDump.demo_memory
      (Z.to_nat 34359738368) GuestDump.demo_globals 0 0 = Some (0, dump) /\
    dump = fmt_16d 4242 ++ NL :: unlines (map (fun p => record (fst p) (snd p)) (combine vas recs)) /\
    let known := fold_left HostTranslator.add_pfn (concat recs) [] in
    forall first chunks, dump = fmt_16d 4242 ++ NL :: first ++ concat chunks -> Z.of_nat (length dump) < 2 ^ 36 ->
    exists s' raw_text,
      HostTranslator.write_chunks HostTranslator.demo_alloc HostTranslator.zero_entry HostTranslator.qemu_memory
        (fun _ => Some tt) (fun _ => Some tt) (fun _ => Some HostTranslator.qemu_mm_demo)
        ((fmt_16d 4242 ++ NL :: first) :: chunks) 0 HostTranslator.demo_boot = Val (Some (s', Z.of_nat (length dump))) /\
      HostTranslator.output_read (S (length known)) s' 0 = Some (Val raw_text).
Proof.
  destruct (pipeline_end_to_end x86_ulong_frames (fun _ => Some tt) (fun _ => Some GuestDump.demo_root)
              GuestDump.demo_memory GuestDump.demo_globals GuestDump.demo_root eq_refl eq_refl GuestDump.demo_frames
              ltac:(vm_compute; split; congruence)
              HostTranslator.demo_alloc HostTranslator.zero_entry HostTranslator.qemu_memory
              (fun _ => Some tt) (fun _ => Some tt) (fun _ => Some HostTranslator.qemu_mm_demo)
              HostTranslator.qemu_config HostTranslator.qemu_mm_demo HostTranslator.demo_boot
              HostTranslator.demo_alloc_enough eq_refl eq_refl (fun _ => eq_refl)
              (fun _ => true) (fun _ => true) (fun _ => true) (s2l "out") (Z.to_nat 34359738368)
              ltac:(rewrite Z2Nat.id; vm_compute; congruence)
              (fun _ => eq_refl) (fun _ => eq_refl) (fun _ => eq_refl))
    as (vas & recs & dump & E1 & _ & E2 & _ & _ & _ & E3).
  exists vas, recs, dump. split; [exact E1|]. split; [exact E2|].
  intros known first chunks Hd Hl. destruct (E3 first chunks Hd Hl) as (s' & raw_text & W & O & _).
  exists s', raw_text. split; [exact W|exact O].
Defined.
