(* ===== verification/Hashtable.v ===== *)
(** * The chained hash table (src/Simulator/ext/drcontainers/hashtable.c)

    A table of [1 << table_bits] chains that doubles when it is three quarters
    full.  The dispatch of [hash_key] and [keys_equal] on the table's key type
    is the class [HashKey], with an instance per built-in type (pointer-sized
    integers, strings, caseless strings) and [custom_keys] for the user's own
    functions.

    String keys are values: a table made without [str_dup] keeps the caller's
    pointer, which is taken not to be written through.  Locking is not
    modelled.  Payloads are machine words, 0 being NULL; the calls made to
    [free_payload_func] are returned as a list. *)
From S2P Require Export CText.

(** ** Keys *)

(** A char as the signed integer it is on x86. *)
Definition schar (c : ascii) : Z := if code c <? 128 then code c else code c - 256.

Definition tolower (c : Z) : Z :=
  if (code "A" <=? c) && (c <=? code "Z") then c - (code "A" - code "a") else c.

Fixpoint stri_eq (s1 s2 : text) : bool :=
  match s1 with
  | [] => match s2 with [] => true | _ => false end
  | c1 :: t1 =>
      match s2 with
      | [] => false
      | c2 :: t2 => if tolower (schar c1) =? tolower (schar c2) then stri_eq t1 t2 else false
      end
  end.

(** The loop over the characters of a string key. *)
Fixpoint hash_chars (fold : Z -> Z) (max_shift i : Z) (s : text) (hash : Z) : Z :=
  match s with
  | [] => hash
  | c :: t =>
      let c := fold (schar c) in
      let shift := (i mod 4) * 8 in
      let shift := if max_shift <? shift then max_shift else shift in
      hash_chars fold max_shift (i + 1) t (Z.lxor hash (u32 (Z.shiftl c shift)))
  end.

Class HashKey (Key : Type) := {
  hash_func : Z -> Key -> Z;
  keys_equal : Key -> Key -> bool
}.

(** What the table relies on. *)
Class HashKeyLaws (Key : Type) `{HashKey Key} : Prop := {
  keys_equal_refl k : keys_equal k k = true;
  keys_equal_sym a b : keys_equal a b = keys_equal b a;
  keys_equal_trans a b c : keys_equal a b = true -> keys_equal b c = true -> keys_equal a c = true;
  hash_respects bits a b : keys_equal a b = true -> hash_func bits a = hash_func bits b
}.

(** [HASH_INTPTR]. *)
#[export] Instance intptr_keys : HashKey Z := {| hash_func bits k := u32 k; keys_equal := Z.eqb |}.

(** [HASH_STRING] and [HASH_STRING_NOCASE]. *)
Definition string_hash (nocase : bool) (bits : Z) (s : text) : Z :=
  hash_chars (if nocase then tolower else id) (align_forward bits 8) 0 s 0.
Definition string_keys : HashKey text :=
  {| hash_func := string_hash false; keys_equal a b := bool_decide (a = b) |}.
Definition nocase_keys : HashKey text :=
  {| hash_func := string_hash true; keys_equal := stri_eq |}.

(** [HASH_CUSTOM]: the user's functions. *)
Definition custom_keys {Key} (hash_key_func : Key -> Z) (cmp_key_func : Key -> Key -> bool) : HashKey Key :=
  {| hash_func bits := hash_key_func; keys_equal := cmp_key_func |}.

(** ** The table *)

Section Hashtable.
Context {Key : Type} `{HK : HashKey Key}.

Record hash_entry := { key : Key; payload : Z }.

Record hashtable_config := { resizable : bool; resize_threshold : Z }.

Record hashtable := {
  table : list (list hash_entry);
  table_bits : Z;
  frees_payload : bool;
  entries : Z;
  config : hashtable_config;
  persist_count : Z
}.

Definition HASHTABLE_SIZE (num_bits : Z) : Z := u32 (Z.shiftl 1 num_bits).
Definition HASH_MASK (num_bits : Z) : Z := Z.shiftr (w32 - 1) (32 - num_bits).

Definition hash_key (t : hashtable) (k : Key) : Z :=
  Z.land (hash_func (table_bits t) k) (HASH_MASK (table_bits t)).

Definition with_table (t : hashtable) (a : list (list hash_entry)) (n : Z) : hashtable :=
  {| table := a; table_bits := table_bits t; frees_payload := frees_payload t; entries := n;
     config := config t; persist_count := persist_count t |}.

Definition hashtable_init_ex (num_bits : Z) (frees : bool) : hashtable := {|
  table := repeat [] (Z.to_nat (HASHTABLE_SIZE num_bits));
  table_bits := num_bits; frees_payload := frees; entries := 0;
  config := {| resizable := true; resize_threshold := 75 |}; persist_count := 0 |}.

Definition hashtable_init (num_bits : Z) : hashtable := hashtable_init_ex num_bits false.

(** [size_ok1], [size_ok2]: the caller's struct is large enough to hold each
    field. *)
Definition hashtable_configure (t : hashtable) (size_ok1 size_ok2 : bool) (c : hashtable_config) : hashtable := {|
  table := table t; table_bits := table_bits t; frees_payload := frees_payload t; entries := entries t;
  config := {| resizable := if size_ok1 then resizable c else resizable (config t);
               resize_threshold := if size_ok2 then resize_threshold c else resize_threshold (config t) |};
  persist_count := persist_count t |}.

(** *** Chains *)

Fixpoint chain_lookup (k : Key) (l : list hash_entry) : option Z :=
  match l with
  | [] => None
  | e :: l => if keys_equal (key e) k then Some (payload e) else chain_lookup k l
  end.

(** Unlink the first match: its payload and the chain without it. *)
Fixpoint chain_remove (k : Key) (l : list hash_entry) : option (Z * list hash_entry) :=
  match l with
  | [] => None
  | e :: l =>
      if keys_equal (key e) k then Some (payload e, l)
      else match chain_remove k l with Some (p, l) => Some (p, e :: l) | None => None end
  end.

(** Put [e] in the place of the first match: the old payload and the chain. *)
Fixpoint chain_replace (n : hash_entry) (l : list hash_entry) : option (Z * list hash_entry) :=
  match l with
  | [] => None
  | e :: l =>
      if keys_equal (key e) (key n) then Some (payload e, n :: l)
      else match chain_replace n l with Some (p, l) => Some (p, e :: l) | None => None end
  end.

(** [table->table[i]]; [hash_key] stays below the size. *)
Definition chain_at (a : list (list hash_entry)) (i : Z) : list hash_entry := a !!! Z.to_nat i.
Definition set_chain (a : list (list hash_entry)) (i : Z) (l : list hash_entry) : list (list hash_entry) :=
  <[Z.to_nat i := l]> a.
Definition push (a : list (list hash_entry)) (i : Z) (e : hash_entry) : list (list hash_entry) :=
  set_chain a i (e :: chain_at a i).

Definition hashtable_lookup (t : hashtable) (k : Key) : option Z :=
  chain_lookup k (chain_at (table t) (hash_key t k)).

(** *** Resizing *)

Definition set_bits (t : hashtable) (bits : Z) : hashtable :=
  {| table := table t; table_bits := bits; frees_payload := frees_payload t; entries := entries t;
     config := config t; persist_count := persist_count t |}.

(** Move every entry to the new table, chain by chain. *)
Definition rehash (t : hashtable) (new_table : list (list hash_entry)) : list (list hash_entry) :=
  fold_left (fun a e => push a (hash_key t (key e)) e) (concat (table t)) new_table.

Definition hashtable_check_for_resize (t : hashtable) : bool * hashtable :=
  let capacity := HASHTABLE_SIZE (table_bits t) in
  if resizable (config t) && (u64 (resize_threshold (config t) * capacity) <? u32 (entries t * 100)) then
    let t := set_bits t (u32 (table_bits t + 1)) in
    let new_table := repeat [] (Z.to_nat (HASHTABLE_SIZE (table_bits t))) in
    (true, with_table t (rehash t new_table) (entries t))
  else (false, t).

(** *** Operations *)

Definition insert_new (t : hashtable) (hindex : Z) (e : hash_entry) : hashtable :=
  snd (hashtable_check_for_resize (with_table t (push (table t) hindex e) (u32 (entries t + 1)))).

Definition hashtable_add (t : hashtable) (k : Key) (p : Z) : bool * hashtable :=
  let hindex := hash_key t k in
  match chain_lookup k (chain_at (table t) hindex) with
  | Some _ => (false, t)
  | None => (true, insert_new t hindex {| key := k; payload := p |})
  end.

(** Returns the replaced payload.  A NULL payload found is taken for none, and
    the new entry, already linked in its place, is linked again at the head:
    [Undef] stands for the cyclic chain that leaves. *)
Definition hashtable_add_replace (t : hashtable) (k : Key) (p : Z) : cres (Z * hashtable) :=
  let hindex := hash_key t k in
  let e := {| key := k; payload := p |} in
  match chain_replace e (chain_at (table t) hindex) with
  | Some (old, l) =>
      if old =? 0 then Undef else Val (old, with_table t (set_chain (table t) hindex l) (entries t))
  | None => Val (0, insert_new t hindex e)
  end.

(** The last component is the payloads passed to [free_payload_func]. *)
Definition hashtable_remove (t : hashtable) (k : Key) : bool * hashtable * list Z :=
  let hindex := hash_key t k in
  match chain_remove k (chain_at (table t) hindex) with
  | Some (p, l) =>
      (true, with_table t (set_chain (table t) hindex l) (u32 (entries t - 1)),
       if frees_payload t then [p] else [])
  | None => (false, t, [])
  end.

Definition hashtable_apply_to_all_payloads {S : Type} (t : hashtable) (apply_func : S -> Z -> S) (s : S) : S :=
  fold_left (fun s e => apply_func s (payload e)) (concat (table t)) s.

Definition hashtable_clear_internal (t : hashtable) : hashtable * list Z :=
  (with_table t (map (fun _ => []) (table t)) 0,
   if frees_payload t then map payload (concat (table t)) else []).
Definition hashtable_clear := hashtable_clear_internal.
Definition hashtable_delete (t : hashtable) : hashtable * list Z :=
  let '(t, freed) := hashtable_clear_internal t in (with_table t [] 0, freed).
End Hashtable.
Arguments hash_entry Key : clear implicits.
Arguments hashtable Key : clear implicits.

(** Removing the keys of a range compares the keys as pointers. *)
Definition in_range (start finish : Z) (e : hash_entry Z) : bool := (start <=? key e) && (key e <? finish).

Definition hashtable_remove_range (t : hashtable Z) (start finish : Z) : bool * hashtable Z * list Z :=
  let gone := List.filter (in_range start finish) (concat (table t)) in
  let kept := map (List.filter (fun e => negb (in_range start finish e))) (table t) in
  (match gone with [] => false | _ => true end,
   with_table t kept (u32 (entries t - Z.of_nat (length gone))),
   if frees_payload t then map payload gone else []).

(** ** Persistence

    A persisted table is the entry count, the start address when keys are
    rebased, and a key and a payload per entry, in little-endian bytes.
    Payloads are inlined values of [entry_size] bytes or point to that many
    bytes. *)

Record persist_flags := {
  PAYLOAD_IS_POINTER : bool; CLONE_PAYLOAD : bool; REBASE_KEY : bool;
  ONLY_IN_RANGE : bool; ONLY_PERSISTED : bool
}.

Fixpoint le_bytes (n : nat) (v : Z) : list Z :=
  match n with O => [] | S n => v mod 256 :: le_bytes n (v / 256) end.
Fixpoint le_value (l : list Z) : Z :=
  match l with [] => 0 | b :: l => b + 256 * le_value l end.

Section Persist.
(** The persisted code region (start and size), if any; which keys the code
    cache can persist; the bytes at a pointer. *)
Context (region : option (Z * Z)) (fragment_persistable : Z -> bool) (deref : Z -> nat -> list Z).

Definition region_start : Z := match region with Some (s, _) => s | None => 0 end.
Definition region_size : Z := match region with Some (_, n) => n | None => 0 end.

Definition key_in_range (e : hash_entry Z) (start size : Z) : bool :=
  if size =? 0 then true else (start <=? key e) && (key e <=? u64 (start + (size - 1))).

Definition is_persisted (flags : persist_flags) (e : hash_entry Z) : bool :=
  (negb (ONLY_IN_RANGE flags) || key_in_range e region_start region_size) &&
  (negb (ONLY_PERSISTED flags) || fragment_persistable (key e)).

Definition hashtable_persist_size (t : hashtable Z) (entry_size : Z) (flags : persist_flags) : Z * hashtable Z :=
  let count :=
    if ONLY_IN_RANGE flags || ONLY_PERSISTED flags then
      u32 (Z.of_nat (length (List.filter (is_persisted flags) (concat (table t)))))
    else entries t in
  (u64 (4 + (if REBASE_KEY flags then 8 else 0) + count * (entry_size + 8)),
   {| table := table t; table_bits := table_bits t; frees_payload := frees_payload t; entries := entries t;
      config := config t; persist_count := count |}).

(** [write_file out n]: whether a write of [n] bytes after [out] succeeds. *)
Context (write_file : list Z -> nat -> bool).

Definition hash_write_file (out bytes : list Z) : option (list Z) :=
  if write_file out (length bytes) then Some (out ++ bytes) else None.

Definition persist_entry (flags : persist_flags) (entry_size : nat) (out : list Z) (e : hash_entry Z)
  : option (list Z) :=
  out ← hash_write_file out (le_bytes 8 (key e));
  hash_write_file out
    (if PAYLOAD_IS_POINTER flags then deref (payload e) entry_size else le_bytes entry_size (payload e)).

Fixpoint persist_entries (flags : persist_flags) (entry_size : nat) (out : list Z) (es : list (hash_entry Z))
  : option (list Z) :=
  match es with
  | [] => Some out
  | e :: es =>
      if is_persisted flags e
      then out ← persist_entry flags entry_size out e; persist_entries flags entry_size out es
      else persist_entries flags entry_size out es
  end.

(** The bytes written, [None] on failure. *)
Definition hashtable_persist (t : hashtable Z) (entry_size : nat) (flags : persist_flags) : option (list Z) :=
  if REBASE_KEY flags && (if region then false else true) then None
  else
    out ← hash_write_file [] (le_bytes 4 (persist_count t));
    out ← (if REBASE_KEY flags then hash_write_file out (le_bytes 8 region_start) else Some out);
    persist_entries flags entry_size out (concat (table t)).

(** [payload_at pos bytes]: the pointer a payload gets that lies at offset
    [pos] of the mapped file (into the map, or to its clone). *)
Context (payload_at : Z -> list Z -> Z).

Fixpoint resurrect_entries (n : nat) (flags : persist_flags) (entry_size : nat) (shift : Z)
    (total : Z) (input : list Z) (t : hashtable Z) : bool * hashtable Z * list Z :=
  match n with
  | O => (true, t, input)
  | S n =>
      let k := le_value (firstn 8 input) in
      let input := skipn 8 input in
      let bytes := firstn entry_size input in
      let pos := total - Z.of_nat (length input) in
      let input := skipn entry_size input in
      let p := if PAYLOAD_IS_POINTER flags then payload_at pos bytes else le_value bytes in
      let k := if REBASE_KEY flags then u64 (k + shift) else k in
      match hashtable_add t k p with
      | (true, t) => resurrect_entries n flags entry_size shift total input t
      | (false, t) => (false, t, input)
      end
  end.

(** Without a [process_payload] callback.  Returns what is left of the map. *)
Definition hashtable_resurrect (input : list Z) (t : hashtable Z) (entry_size : nat) (flags : persist_flags)
  : bool * hashtable Z * list Z :=
  let count := le_value (firstn 4 input) in
  let rest := skipn 4 input in
  if REBASE_KEY flags then
    match region with
    | None => (false, t, rest)
    | Some _ =>
        let stored_start := le_value (firstn 8 rest) in
        resurrect_entries (Z.to_nat count) flags entry_size (u64 (region_start - stored_start))
          (Z.of_nat (length input)) (skipn 8 rest) t
    end
  else resurrect_entries (Z.to_nat count) flags entry_size 0 (Z.of_nat (length input)) rest t.
End Persist.

(** * Proofs *)

(** ** The built-in keys *)

#[export] Instance intptr_keys_laws : HashKeyLaws Z.
Proof.
  constructor; cbn; intros.
  - apply Z.eqb_refl.
  - apply Z.eqb_sym.
  - zbool. apply Z.eqb_eq. congruence.
  - zbool. by subst.
Qed.

Lemma string_keys_laws : @HashKeyLaws text string_keys.
Proof.
  constructor; cbn.
  - intros k. by apply bool_decide_eq_true.
  - intros a b. apply bool_decide_ext. split; congruence.
  - intros a b c H1 H2. apply bool_decide_eq_true in H1, H2. apply bool_decide_eq_true. congruence.
  - intros bits a b E. apply bool_decide_eq_true in E. by subst.
Qed.

(** Caseless equality is equality of the folded strings, and the caseless hash
    is a function of the folded string. *)
Definition folded (s : text) : list Z := map (fun c => tolower (schar c)) s.

Lemma stri_eq_spec a b : stri_eq a b = true <-> folded a = folded b.
Proof.
  revert b. induction a as [|x a IH]; intros [|y b]; cbn; try done.
  destruct (_ =? _) eqn:E; zbool.
  - rewrite IH, E. unfold folded. split; [congruence|]. by intros [= ?].
  - split; [done|]. unfold folded. by intros [= ? ?].
Qed.

Lemma hash_chars_folded ms i a b h :
  folded a = folded b -> hash_chars tolower ms i a h = hash_chars tolower ms i b h.
Proof.
  revert b i h. induction a as [|x a IH]; intros [|y b] i h E; cbn in *; try done.
  injection E as E1 E2. rewrite E1. by apply IH.
Qed.

Lemma nocase_keys_laws : @HashKeyLaws text nocase_keys.
Proof.
  constructor; cbn.
  - intros k. by apply stri_eq_spec.
  - intros a b. apply eq_true_iff_eq. rewrite !stri_eq_spec. split; congruence.
  - intros a b c. rewrite !stri_eq_spec. congruence.
  - intros bits a b E. apply hash_chars_folded. by apply stri_eq_spec.
Qed.

(** ** Chains as sets of entries *)

Section Proofs.
Context {Key : Type} `{HL : HashKeyLaws Key}.
#[local] Abbreviation entry := (hash_entry Key).
#[local] Abbreviation tab := (hashtable Key).
Implicit Types (e : entry) (l : list entry) (a : list (list entry)) (t : tab).

(** No two entries have equal keys. *)
Inductive distinct : list entry -> Prop :=
| distinct_nil : distinct []
| distinct_cons e l : Forall (fun e' => keys_equal (key e) (key e') = false) l -> distinct l -> distinct (e :: l).

Lemma distinct_perm l l' : l ≡ₚ l' -> distinct l -> distinct l'.
Proof using HL.
  induction 1 as [|e l l' Hp IH|e1 e2 l|l1 l2 l3 _ IH1 _ IH2]; intros D; try done.
  - inversion_clear D as [|? ? HF D']. constructor; [by rewrite <- Hp|auto].
  - inversion_clear D as [|? ? HF1 D1]. inversion_clear D1 as [|? ? HF2 D2].
    apply Forall_cons in HF1 as [H1 HF1]. constructor; [|by constructor].
    constructor; [by rewrite keys_equal_sym|done].
  - auto.
Qed.

#[local] Instance distinct_proper : Proper ((≡ₚ) ==> iff) distinct.
Proof using HL. intros l l' Hp. split; apply distinct_perm; by rewrite Hp. Qed.

Lemma distinct_app l1 l2 : distinct (l1 ++ l2) -> distinct l1 /\ distinct l2.
Proof using.
  induction l1 as [|e l1 IH]; cbn [app]; intros D; [by split; [constructor|]|].
  inversion_clear D as [|? ? HF D']. apply Forall_app in HF as [HF _]. destruct (IH D').
  split; [by constructor|done].
Qed.

Lemma chain_lookup_some k l v :
  distinct l -> chain_lookup k l = Some v <-> exists e, e ∈ l /\ keys_equal (key e) k = true /\ payload e = v.
Proof using HL.
  induction 1 as [|e l HF D IH]; cbn [chain_lookup].
  - split; [done|]. intros (e & He & _). by apply elem_of_nil in He.
  - setoid_rewrite elem_of_cons. destruct (keys_equal (key e) k) eqn:E.
    + split; [intros [= <-]; eauto|]. intros (e' & [->|He'] & Hk & Hv); [congruence|].
      rewrite Forall_forall in HF. specialize (HF e' He').
      rewrite (keys_equal_trans _ k) in HF; [done|done|by rewrite keys_equal_sym].
    + rewrite IH. split; [naive_solver|]. intros (e' & [->|He'] & Hk & Hv); [congruence|eauto].
Qed.

Lemma chain_lookup_none k l :
  chain_lookup k l = None <-> Forall (fun e => keys_equal (key e) k = false) l.
Proof using.
  induction l as [|e l IH]; cbn [chain_lookup]; [split; [constructor|done]|].
  rewrite Forall_cons, <- IH. destruct (keys_equal (key e) k); naive_solver.
Qed.

Lemma chain_remove_perm k l p l' :
  chain_remove k l = Some (p, l') ->
  exists e, l ≡ₚ e :: l' /\ keys_equal (key e) k = true /\ payload e = p.
Proof using.
  revert l'. induction l as [|e l IH]; intros l'; cbn [chain_remove]; [done|].
  destruct (keys_equal (key e) k) eqn:E; [intros [= <- <-]; eauto|].
  destruct (chain_remove k l) as [[q r]|]; [|done]. intros [= -> <-].
  destruct (IH r eq_refl) as (e' & Hp & ? & ?). exists e'. split_and!; try done.
  rewrite Hp. apply Permutation_swap.
Qed.

Lemma chain_remove_none k l : chain_remove k l = None <-> chain_lookup k l = None.
Proof using.
  induction l as [|e l IH]; cbn; [done|]. destruct (keys_equal (key e) k); [done|].
  rewrite <- IH. destruct (chain_remove k l) as [[? ?]|]; naive_solver.
Qed.

Lemma chain_replace_perm n l p l' :
  chain_replace n l = Some (p, l') ->
  exists e r, l ≡ₚ e :: r /\ l' ≡ₚ n :: r /\ keys_equal (key e) (key n) = true /\ payload e = p.
Proof using.
  revert l'. induction l as [|e l IH]; intros l'; cbn [chain_replace]; [done|].
  destruct (keys_equal (key e) (key n)) eqn:E; [intros [= <- <-]; eauto 10|].
  destruct (chain_replace n l) as [[q r]|]; [|done]. intros [= -> <-].
  destruct (IH r eq_refl) as (e' & r' & Hp & Hp' & ? & ?). exists e', (e :: r'). split_and!; try done.
  - rewrite Hp. apply Permutation_swap.
  - rewrite Hp'. apply Permutation_swap.
Qed.

Lemma chain_replace_none n l : chain_replace n l = None <-> chain_lookup (key n) l = None.
Proof using.
  induction l as [|e l IH]; cbn; [done|]. destruct (keys_equal (key e) (key n)); [done|].
  rewrite <- IH. destruct (chain_replace n l) as [[? ?]|]; naive_solver.
Qed.

(** ** Arrays of chains *)

Lemma concat_split a (i : nat) l :
  a !! i = Some l -> concat a ≡ₚ l ++ concat (take i a) ++ concat (drop (S i) a).
Proof using.
  intros Hi. rewrite <- (take_drop_middle a i l Hi) at 1. rewrite concat_app. cbn [concat].
  rewrite !app_assoc. by rewrite (Permutation_app_comm (concat (take i a)) l).
Qed.

Lemma concat_insert a (i : nat) l l' :
  a !! i = Some l -> concat (<[i := l']> a) ≡ₚ l' ++ concat (take i a) ++ concat (drop (S i) a).
Proof using.
  intros Hi. assert (Hlt : (i < length a)%nat) by (by eapply lookup_lt_Some).
  rewrite (concat_split (<[i := l']> a) i l') by (by apply list_lookup_insert_eq).
  by rewrite take_insert_ge, drop_insert_lt by lia.
Qed.

Lemma push_perm a i e : 0 <= i < Z.of_nat (length a) -> concat (push a i e) ≡ₚ e :: concat a.
Proof using.
  intros Hi. destruct (lookup_lt_is_Some_2 a (Z.to_nat i)) as [l Hl]; [lia|].
  unfold push, set_chain, chain_at. rewrite (list_lookup_total_correct _ _ _ Hl).
  rewrite (concat_insert _ _ _ _ Hl). by rewrite (concat_split _ _ _ Hl).
Qed.

(** ** Well-formed tables *)

Lemma hash_key_mod t k : 0 < table_bits t < 32 ->
  hash_key t k = (hash_func (table_bits t) k) mod 2 ^ table_bits t.
Proof using.
  intros Hb. unfold hash_key, HASH_MASK. rewrite shiftr_div by lia.
  replace ((w32 - 1) / 2 ^ (32 - table_bits t)) with (2 ^ table_bits t - 1); [by rewrite land_mask by lia|].
  assert (E : w32 = 2 ^ table_bits t * 2 ^ (32 - table_bits t)).
  { rewrite <- Z.pow_add_r by lia. replace (table_bits t + (32 - table_bits t)) with 32 by lia. done. }
  assert (0 < 2 ^ (32 - table_bits t)) by (apply Z.pow_pos_nonneg; lia).
  rewrite E. apply (Z.div_unique_pos _ _ _ (2 ^ (32 - table_bits t) - 1)); lia.
Qed.

Lemma hash_key_range t k : 0 < table_bits t < 32 -> 0 <= hash_key t k < 2 ^ table_bits t.
Proof using. intros Hb. rewrite hash_key_mod by done. apply Z.mod_pos_bound, Z.pow_pos_nonneg; lia. Qed.

Lemma hash_key_equal t k k' : keys_equal k k' = true -> hash_key t k = hash_key t k'.
Proof using HL. intros E. unfold hash_key. by rewrite (hash_respects _ _ _ E). Qed.

(** Every entry is in the chain its key hashes to. *)
Definition home t a : Prop :=
  forall i l e, a !! i = Some l -> e ∈ l -> hash_key t (key e) = Z.of_nat i.

Record wf t : Prop := {
  wf_bits : 0 < table_bits t < 32;
  wf_len : Z.of_nat (length (table t)) = 2 ^ table_bits t;
  wf_home : home t (table t);
  wf_distinct : distinct (concat (table t));
  wf_count : entries t = Z.of_nat (length (concat (table t)));
  wf_small : entries t < w32;
  wf_threshold : resizable (config t) = true -> 4 <= resize_threshold (config t) < 2 ^ 32
}.

Lemma chain_at_lookup t k : wf t ->
  table t !! Z.to_nat (hash_key t k) = Some (chain_at (table t) (hash_key t k)).
Proof using.
  intros W. pose proof (hash_key_range t k (wf_bits _ W)). pose proof (wf_len _ W).
  destruct (lookup_lt_is_Some_2 (table t) (Z.to_nat (hash_key t k))) as [l Hl]; [lia|].
  unfold chain_at. by rewrite (list_lookup_total_correct _ _ _ Hl).
Qed.

Lemma elem_of_concat a e : e ∈ concat a <-> exists i l, a !! i = Some l /\ e ∈ l.
Proof using.
  rewrite list_elem_of_In, in_concat. setoid_rewrite <- list_elem_of_In. split.
  - intros (l & Hl & He). apply list_elem_of_lookup in Hl as [i Hi]. eauto.
  - intros (i & l & Hi & He). exists l. split; [by eapply list_elem_of_lookup_2|done].
Qed.

(** A lookup in the chain of the key is a lookup in the whole table. *)
Lemma lookup_concat t k : wf t -> hashtable_lookup t k = chain_lookup k (concat (table t)).
Proof using HL.
  intros W. pose proof (chain_at_lookup t k W) as Hc.
  assert (D : distinct (chain_at (table t) (hash_key t k))).
  { pose proof (wf_distinct _ W) as D. rewrite (concat_split _ _ _ Hc) in D. by apply distinct_app in D as [D _]. }
  apply option_eq. intros v. unfold hashtable_lookup.
  rewrite (chain_lookup_some _ _ _ D), (chain_lookup_some _ _ _ (wf_distinct _ W)).
  split; intros (e & He & Hk & Hv); exists e; split_and!; try done.
  - apply elem_of_concat. eauto.
  - apply elem_of_concat in He as (i & l & Hi & He). pose proof (wf_home _ W i l e Hi He) as Hh.
    rewrite (hash_key_equal t _ _ Hk) in Hh. rewrite Hh, Nat2Z.id in Hc. rewrite Hh. congruence.
Qed.

Lemma chain_lookup_perm k l l' : l ≡ₚ l' -> distinct l -> chain_lookup k l = chain_lookup k l'.
Proof using HL.
  intros Hp D. apply option_eq. intros v. rewrite chain_lookup_some by done.
  rewrite chain_lookup_some by (by rewrite <- Hp). by setoid_rewrite Hp.
Qed.

Lemma home_push t a e : home t a -> 0 <= hash_key t (key e) < Z.of_nat (length a) ->
  home t (push a (hash_key t (key e)) e).
Proof using.
  intros Hh Hr i l e' Hi He. unfold push, set_chain in Hi.
  destruct (decide (i = Z.to_nat (hash_key t (key e)))) as [->|Hne].
  - rewrite list_lookup_insert_eq in Hi by lia. injection Hi as <-.
    apply elem_of_cons in He as [->|He]; [lia|].
    destruct (lookup_lt_is_Some_2 a (Z.to_nat (hash_key t (key e)))) as [l' Hl']; [lia|].
    unfold chain_at in He. rewrite (list_lookup_total_correct _ _ _ Hl') in He. by eapply Hh.
  - rewrite list_lookup_insert_ne in Hi by done. by eapply Hh.
Qed.

Lemma length_push a i e : length (push a i e) = length a.
Proof using. apply length_insert. Qed.

Lemma fold_push t es a :
  home t a -> (forall k, 0 <= hash_key t k < Z.of_nat (length a)) ->
  let a' := fold_left (fun a e => push a (hash_key t (key e)) e) es a in
  home t a' /\ length a' = length a /\ concat a' ≡ₚ es ++ concat a.
Proof using.
  revert a. induction es as [|e es IH]; intros a Hh Hr; cbn [fold_left]; [done|].
  destruct (IH (push a (hash_key t (key e)) e)) as (H1 & H2 & H3).
  - by apply home_push.
  - intros k. rewrite length_push. apply Hr.
  - rewrite length_push in H2. split_and!; try done. rewrite H3, push_perm by apply Hr.
    cbn [app]. by rewrite Permutation_middle.
Qed.

Lemma size_pow bits : 0 <= bits < 32 -> HASHTABLE_SIZE bits = 2 ^ bits.
Proof using.
  intros Hb. unfold HASHTABLE_SIZE. rewrite Z.shiftl_1_l. apply u32_small.
  split; [apply Z.pow_nonneg; lia|]. change w32 with (2 ^ 32). apply Z.pow_lt_mono_r; lia.
Qed.

Lemma concat_repeat_nil (A : Type) n : concat (repeat (@nil A) n) = [].
Proof using. induction n; done. Qed.

Lemma home_empty t n : home t (repeat [] n).
Proof using.
  intros i l e Hi He. apply list_elem_of_lookup_2, list_elem_of_In, repeat_spec in Hi. subst.
  by apply elem_of_nil in He.
Qed.

(** Resizing keeps the entries. *)
Lemma check_for_resize_spec t : wf t ->
  let t' := snd (hashtable_check_for_resize t) in
  wf t' /\ concat (table t') ≡ₚ concat (table t) /\ frees_payload t' = frees_payload t /\ config t' = config t.
Proof using HL.
  intros W. unfold hashtable_check_for_resize. pose proof (wf_bits _ W) as Hb.
  destruct (resizable (config t) && _) eqn:E; [|by split_and!].
  apply andb_true_iff in E as [Er E]. apply Z.ltb_lt in E. pose proof (wf_threshold _ W Er) as Ht.
  rewrite size_pow in E by lia.
  assert (Hb2 : 0 < table_bits t + 1 < 32).
  { destruct (decide (table_bits t = 31)) as [H31|]; [|lia]. exfalso.
    pose proof (u32_bound (entries t * 100)). rewrite H31 in E. change (2 ^ 31) with 2147483648 in E.
    rewrite u64_small in E by lia. lia. }
  cbn [snd]. set (t1 := set_bits t (u32 (table_bits t + 1))).
  set (fresh := repeat [] (Z.to_nat (HASHTABLE_SIZE (table_bits t1)))).
  assert (Hbits : table_bits t1 = table_bits t + 1) by (apply u32_small; lia).
  assert (Hlen : Z.of_nat (length fresh) = 2 ^ table_bits t1).
  { unfold fresh. rewrite repeat_length, size_pow by lia. rewrite Z2Nat.id by (apply Z.pow_nonneg; lia). done. }
  destruct (fold_push t1 (concat (table t)) fresh) as (H1 & H2 & H3).
  { apply home_empty. } { intros k. rewrite Hlen. apply hash_key_range. lia. }
  assert (Hnil : concat fresh = []) by apply concat_repeat_nil.
  rewrite Hnil, app_nil_r in H3. change (fold_left _ _ fresh) with (rehash t1 fresh) in H1, H2, H3.
  assert (W' : wf (with_table t1 (rehash t1 fresh) (entries t))); [|by split].
  constructor; cbn [with_table table table_bits entries config].
  - lia.
  - rewrite <- Hlen. by f_equal.
  - exact H1.
  - rewrite H3. apply W.
  - rewrite H3. apply W.
  - apply W.
  - apply W.
Qed.

Lemma insert_new_spec t e :
  wf t -> chain_lookup (key e) (concat (table t)) = None -> entries t + 1 < w32 ->
  let t' := insert_new t (hash_key t (key e)) e in
  wf t' /\ concat (table t') ≡ₚ e :: concat (table t) /\ frees_payload t' = frees_payload t /\ config t' = config t.
Proof using HL.
  intros W Hn Hb. unfold insert_new.
  pose proof (hash_key_range t (key e) (wf_bits _ W)) as Hr. rewrite <- (wf_len _ W) in Hr.
  pose proof (push_perm (table t) _ e Hr) as Hp. pose proof (wf_count _ W) as Hc.
  assert (W1 : wf (with_table t (push (table t) (hash_key t (key e)) e) (u32 (entries t + 1)))).
  { constructor; cbn; try apply W.
    - rewrite length_push. apply W.
    - exact (home_push t _ e (wf_home _ W) Hr).
    - rewrite Hp. constructor; [|apply W]. apply chain_lookup_none in Hn.
      eapply Forall_impl; [exact Hn|]. intros e' He'. by rewrite keys_equal_sym.
    - rewrite Hp. cbn [length]. rewrite u32_small by lia. lia.
    - rewrite u32_small; lia. }
  destruct (check_for_resize_spec _ W1) as (W2 & Hp2 & Hf & Hg). cbn zeta in *.
  split_and!; [exact W2| |exact Hf|exact Hg]. rewrite Hp2. exact Hp.
Qed.

(** Replacing the chain of a key. *)
Lemma set_chain_spec t k l r es n :
  wf t -> (forall e, e ∈ l -> hash_key t (key e) = hash_key t k) ->
  chain_at (table t) (hash_key t k) ≡ₚ r ++ es -> l ≡ₚ n ++ es ->
  let a := set_chain (table t) (hash_key t k) l in
  length a = length (table t) /\ home t a /\
  exists rest, concat (table t) ≡ₚ r ++ rest /\ concat a ≡ₚ n ++ rest.
Proof using.
  intros W Hl Hr Hn a. pose proof (chain_at_lookup t k W) as Hc.
  pose proof (hash_key_range t k (wf_bits _ W)) as Hrange. pose proof (wf_len _ W) as Hlen.
  split; [apply length_insert|]. split.
  - intros i l' e Hi He. unfold a, set_chain in Hi.
    destruct (decide (i = Z.to_nat (hash_key t k))) as [->|Hne].
    + rewrite list_lookup_insert_eq in Hi by lia. injection Hi as <-. rewrite (Hl _ He). lia.
    + rewrite list_lookup_insert_ne in Hi by done. by eapply (wf_home _ W).
  - exists (es ++ concat (take (Z.to_nat (hash_key t k)) (table t)) ++ concat (drop (S (Z.to_nat (hash_key t k))) (table t))).
    split.
    + rewrite (concat_split _ _ _ Hc), Hr. by rewrite <- app_assoc.
    + unfold a, set_chain. rewrite (concat_insert _ _ _ _ Hc), Hn. by rewrite <- app_assoc.
Qed.

(** ** The operations as operations on a map *)

(** The abstract table: the payload of a key, keys taken up to [keys_equal]. *)
Definition map_insert (m : Key -> option Z) (k : Key) (p : Z) : Key -> option Z :=
  fun k' => if keys_equal k k' then Some p else m k'.
Definition map_delete (m : Key -> option Z) (k : Key) : Key -> option Z :=
  fun k' => if keys_equal k k' then None else m k'.

Record models t (m : Key -> option Z) : Prop := {
  models_wf : wf t;
  models_lookup k : hashtable_lookup t k = m k;
  models_nonnull e : e ∈ concat (table t) -> payload e <> 0
}.

Lemma models_concat t m k : models t m -> chain_lookup k (concat (table t)) = m k.
Proof using HL. intros M. rewrite <- lookup_concat by apply M. apply M. Qed.

(** A table whose entries are those of [t] and one more. *)
Lemma models_insert t t' m e :
  models t m -> wf t' -> concat (table t') ≡ₚ e :: concat (table t) -> m (key e) = None -> payload e <> 0 ->
  models t' (map_insert m (key e) (payload e)).
Proof using HL.
  intros M W' Hp Hn Hnz. constructor; [done| |].
  - intros k. rewrite lookup_concat by done.
    rewrite (chain_lookup_perm k _ _ Hp (wf_distinct _ W')). cbn [chain_lookup]. unfold map_insert.
    by rewrite (models_concat t m k M).
  - intros e' He'. rewrite Hp in He'. apply elem_of_cons in He' as [->|He']; [done|]. by apply (models_nonnull _ _ M).
Qed.

(** A table whose entries are those of [t] less one. *)
Lemma models_delete t t' m e :
  models t m -> wf t' -> concat (table t) ≡ₚ e :: concat (table t') -> models t' (map_delete m (key e)).
Proof using HL.
  intros M W' Hp. pose proof (wf_distinct _ (models_wf _ _ M)) as D.
  constructor; [done| |].
  - intros k. rewrite lookup_concat by done. unfold map_delete.
    rewrite <- (models_concat t m k M), (chain_lookup_perm k _ _ Hp D). cbn [chain_lookup].
    destruct (keys_equal (key e) k) eqn:E; [|done].
    apply chain_lookup_none. rewrite Hp in D. inversion_clear D as [|? ? HF _].
    eapply Forall_impl; [exact HF|]. intros e' He'. destruct (keys_equal (key e') k) eqn:E'; [|done].
    rewrite <- He'. symmetry. apply (keys_equal_trans _ k); [done|by rewrite keys_equal_sym].
  - intros e' He'. apply (models_nonnull _ _ M). rewrite Hp. set_solver.
Qed.

Lemma map_delete_equal m k k' : keys_equal k k' = true -> forall x, map_delete m k x = map_delete m k' x.
Proof using HL.
  intros E x. unfold map_delete. replace (keys_equal k' x) with (keys_equal k x); [done|].
  apply eq_true_iff_eq. split; intros Hx; eapply keys_equal_trans; try done. by rewrite keys_equal_sym.
Qed.

Lemma models_ext t m m' : (forall k, m k = m' k) -> models t m -> models t m'.
Proof using. intros E [M1 M2 M3]. constructor; try done. intros k. by rewrite M2. Qed.

Lemma lookup_respects t m k k' : models t m -> keys_equal k k' = true -> m k = m k'.
Proof using HL.
  intros M E. rewrite <- !(models_lookup _ _ M). unfold hashtable_lookup. rewrite (hash_key_equal t _ _ E).
  generalize (chain_at (table t) (hash_key t k')). induction l as [|e l IH]; cbn; [done|].
  rewrite IH. replace (keys_equal (key e) k') with (keys_equal (key e) k); [done|].
  apply eq_true_iff_eq. split; intros Hx; eapply keys_equal_trans; try done. by rewrite keys_equal_sym.
Qed.

Lemma add_models t m k p : models t m -> p <> 0 -> entries t + 1 < w32 ->
  let '(ok, t') := hashtable_add t k p in
  match m k with
  | Some _ => ok = false /\ t' = t
  | None => ok = true /\ models t' (map_insert m k p) /\ concat (table t') ≡ₚ {| key := k; payload := p |} :: concat (table t)
  end.
Proof using HL.
  intros M Hp Hb. unfold hashtable_add.
  change (chain_lookup k (chain_at (table t) (hash_key t k))) with (hashtable_lookup t k).
  rewrite (models_lookup _ _ M k). destruct (m k) eqn:E; [done|].
  pose proof (models_concat t m k M) as Hc. rewrite E in Hc.
  destruct (insert_new_spec t {| key := k; payload := p |} (models_wf _ _ M) Hc Hb) as (W & Hperm & _).
  split; [done|]. split; [|exact Hperm]. exact (models_insert t _ m {| key := k; payload := p |} M W Hperm E Hp).
Qed.

Lemma in_own_chain t k e : wf t -> e ∈ chain_at (table t) (hash_key t k) -> hash_key t (key e) = hash_key t k.
Proof using.
  intros W He. pose proof (wf_home _ W _ _ e (chain_at_lookup t k W) He) as Hh.
  pose proof (hash_key_range t k (wf_bits _ W)). lia.
Qed.

Lemma remove_models t m k : models t m ->
  let '(ok, t', freed) := hashtable_remove t k in
  match m k with
  | None => ok = false /\ t' = t /\ freed = []
  | Some p => ok = true /\ models t' (map_delete m k) /\ freed = if frees_payload t then [p] else []
  end.
Proof using HL.
  intros M. pose proof (models_wf _ _ M) as W. unfold hashtable_remove.
  pose proof (models_lookup _ _ M k) as Hl. unfold hashtable_lookup in Hl.
  destruct (chain_remove k (chain_at (table t) (hash_key t k))) as [[p l]|] eqn:E.
  - destruct (chain_remove_perm _ _ _ _ E) as (e & Hp & Hk & Hv).
    destruct (set_chain_spec t k l [e] l [] W) as (Hlen & Hhome & rest & H1 & H2).
    { intros e' He'. apply (in_own_chain t k e' W). rewrite Hp. set_solver. }
    { exact Hp. } { done. }
    cbn [app] in H1, H2. pose proof (wf_distinct _ W) as D. rewrite H1 in D. inversion_clear D as [|? ? _ D'].
    pose proof (wf_count _ W) as Hcount. rewrite H1 in Hcount. cbn [length] in Hcount.
    assert (Hmk : m k = Some p).
    { rewrite <- (models_concat t m k M). apply chain_lookup_some; [apply W|].
      exists e. rewrite H1. split_and!; try done. set_solver. }
    rewrite Hmk. split; [done|]. split; [|done].
    apply (models_ext _ (map_delete m (key e))); [by apply map_delete_equal|].
    apply (models_delete t); [done| |cbn [with_table table]; by rewrite H2].
    constructor; cbn [with_table table table_bits entries config]; try apply W.
    + rewrite Hlen. apply W.
    + exact Hhome.
    + by rewrite H2.
    + rewrite H2, u32_small; [lia|]. pose proof (wf_small _ W). lia.
    + apply u32_bound.
  - apply chain_remove_none in E. rewrite E in Hl. by rewrite <- Hl.
Qed.

Lemma replace_models t m k p : models t m -> p <> 0 -> entries t + 1 < w32 ->
  exists t', hashtable_add_replace t k p = Val (default 0 (m k), t') /\ models t' (map_insert m k p) /\
    entries t' <= entries t + 1.
Proof using HL.
  intros M Hp Hb. pose proof (models_wf _ _ M) as W. unfold hashtable_add_replace.
  pose proof (models_lookup _ _ M k) as Hl. unfold hashtable_lookup in Hl.
  destruct (chain_replace _ (chain_at (table t) (hash_key t k))) as [[old l]|] eqn:E.
  - destruct (chain_replace_perm _ _ _ _ E) as (e & r & Hc & Hc' & Hk & Hv). cbn [key] in Hk.
    assert (Hin : e ∈ chain_at (table t) (hash_key t k)) by (rewrite Hc; set_solver).
    destruct (set_chain_spec t k l [e] r [{| key := k; payload := p |}] W) as (Hlen & Hhome & rest & H1 & H2).
    { intros e' He'. rewrite Hc' in He'. apply elem_of_cons in He' as [->|He']; [done|].
      apply (in_own_chain t k e' W). rewrite Hc. set_solver. }
    { exact Hc. } { exact Hc'. }
    cbn [app] in H1, H2. pose proof (wf_distinct _ W) as D. rewrite H1 in D.
    inversion_clear D as [|? ? HF D']. pose proof (wf_count _ W) as Hcount. rewrite H1 in Hcount. cbn [length] in Hcount.
    assert (Hmk : m k = Some old).
    { rewrite <- (models_concat t m k M). apply chain_lookup_some; [apply W|].
      exists e. rewrite H1. split_and!; try done. set_solver. }
    assert (Hnz : old <> 0).
    { rewrite <- Hv. apply (models_nonnull _ _ M). rewrite H1. set_solver. }
    rewrite (proj2 (Z.eqb_neq old 0)) by done. rewrite Hmk. eexists. split; [done|].
    split; [|cbn; lia].
    assert (Hdist : Forall (fun e' : entry => keys_equal k (key e') = false) rest).
    { eapply Forall_impl; [exact HF|]. intros e' He'. destruct (keys_equal k (key e')) eqn:E'; [|done].
      rewrite <- He'. symmetry. by apply (keys_equal_trans _ k). }
    assert (W' : wf (with_table t (set_chain (table t) (hash_key t k) l) (entries t))).
    { constructor; cbn [with_table table table_bits entries config]; try apply W.
      - rewrite Hlen. apply W.
      - exact Hhome.
      - rewrite H2. by constructor.
      - rewrite H2. exact Hcount. }
    constructor; [exact W'| |].
    + intros k'. rewrite lookup_concat by done. cbn [with_table table].
      rewrite (chain_lookup_perm k' _ _ H2) by apply W'.
      unfold map_insert. cbn [chain_lookup key payload]. destruct (keys_equal k k') eqn:E'; [done|].
      rewrite <- (models_concat t m k' M), (chain_lookup_perm k' _ _ H1 (wf_distinct _ W)).
      cbn [chain_lookup]. replace (keys_equal (key e) k') with false; [done|]. symmetry.
      destruct (keys_equal (key e) k') eqn:E2; [|done].
      rewrite <- E'. symmetry. apply (keys_equal_trans _ (key e)); [by rewrite keys_equal_sym|done].
    + intros e' He'. cbn [with_table table] in He'. rewrite H2 in He'. apply elem_of_cons in He' as [->|He']; [done|].
      apply (models_nonnull _ _ M). rewrite H1. set_solver.
  - apply chain_replace_none in E. cbn [key] in E. rewrite E in Hl. rewrite <- Hl. eexists. split; [done|].
    pose proof (models_concat t m k M) as Hn. rewrite <- Hl in Hn.
    destruct (insert_new_spec t {| key := k; payload := p |} W Hn Hb) as (W' & Hperm & _).
    split; [exact (models_insert t _ m {| key := k; payload := p |} M W' Hperm (eq_sym Hl) Hp)|].
    cbn [key] in W', Hperm. rewrite (wf_count _ W'), Hperm, (wf_count _ W). cbn [length]. lia.
Qed.

Lemma init_models bits frees : 0 < bits < 32 -> models (hashtable_init_ex bits frees) (fun _ => None).
Proof using HL.
  intros Hb. assert (W : wf (hashtable_init_ex bits frees)).
  { constructor; cbn [hashtable_init_ex table table_bits entries config resizable resize_threshold]; try lia.
    - rewrite repeat_length, size_pow by lia. rewrite Z2Nat.id; [done|apply Z.pow_nonneg; lia].
    - apply home_empty.
    - rewrite concat_repeat_nil. constructor.
    - by rewrite concat_repeat_nil. }
  constructor; [done| |].
  - intros k. rewrite lookup_concat by done. cbn [hashtable_init_ex table]. by rewrite concat_repeat_nil.
  - intros e He. cbn [hashtable_init_ex table] in He. rewrite concat_repeat_nil in He. by apply elem_of_nil in He.
Qed.

Lemma concat_map_nil a : concat (map (fun _ : list entry => @nil entry) a) = [].
Proof using. induction a; done. Qed.

Lemma clear_models t m : models t m -> models (fst (hashtable_clear t)) (fun _ => None) /\ entries (fst (hashtable_clear t)) = 0.
Proof using HL.
  intros M. pose proof (models_wf _ _ M) as W. split; [|done].
  assert (W' : wf (fst (hashtable_clear t))).
  { constructor; cbn [hashtable_clear hashtable_clear_internal fst with_table table table_bits entries config]; try apply W.
    - rewrite length_map. apply W.
    - intros i l e Hi He. rewrite list_lookup_fmap in Hi. destruct (table t !! i); [|done].
      injection Hi as <-. by apply elem_of_nil in He.
    - rewrite concat_map_nil. constructor.
    - by rewrite concat_map_nil.
    - done. }
  constructor; [done| |].
  - intros k. rewrite lookup_concat by done. cbn. by rewrite concat_map_nil.
  - intros e He. cbn in He. rewrite concat_map_nil in He. by apply elem_of_nil in He.
Qed.

(** Sequences of calls. *)
Inductive op := Add (k : Key) (p : Z) | AddReplace (k : Key) (p : Z) | Remove (k : Key) | Lookup (k : Key) | Clear.
Inductive answer := ABool (b : bool) | APtr (p : Z) | AUnit.

Definition table_step t (o : op) : cres (answer * tab) :=
  match o with
  | Add k p => let '(b, t) := hashtable_add t k p in Val (ABool b, t)
  | AddReplace k p => '(old, t) ← hashtable_add_replace t k p; Val (APtr old, t)
  | Remove k => let '(b, t, _) := hashtable_remove t k in Val (ABool b, t)
  | Lookup k => Val (APtr (default 0 (hashtable_lookup t k)), t)
  | Clear => Val (AUnit, fst (hashtable_clear t))
  end.

Fixpoint table_run t (os : list op) : cres (list answer) :=
  match os with
  | [] => Val []
  | o :: os => '(a, t) ← table_step t o; r ← table_run t os; Val (a :: r)
  end.

Definition map_step (m : Key -> option Z) (o : op) : answer * (Key -> option Z) :=
  match o with
  | Add k p => match m k with Some _ => (ABool false, m) | None => (ABool true, map_insert m k p) end
  | AddReplace k p => (APtr (default 0 (m k)), map_insert m k p)
  | Remove k => match m k with Some _ => (ABool true, map_delete m k) | None => (ABool false, m) end
  | Lookup k => (APtr (default 0 (m k)), m)
  | Clear => (AUnit, fun _ => None)
  end.

Fixpoint map_run (m : Key -> option Z) (os : list op) : list answer :=
  match os with [] => [] | o :: os => let '(a, m) := map_step m o in a :: map_run m os end.

Definition op_ok (o : op) : Prop := match o with Add _ p | AddReplace _ p => p <> 0 | _ => True end.

Lemma step_models t m o : models t m -> op_ok o -> entries t + 1 < w32 ->
  exists t', table_step t o = Val (fst (map_step m o), t') /\ models t' (snd (map_step m o)) /\ entries t' <= entries t + 1.
Proof using HL.
  intros M Ho Hb. destruct o as [k p|k p|k|k|]; cbn [table_step map_step].
  - pose proof (add_models t m k p M Ho Hb) as HA. destruct (hashtable_add t k p) as [ok t'].
    destruct (m k).
    + destruct HA as [-> ->]. exists t. split_and!; [done|done|lia].
    + destruct HA as (-> & M' & Hp). exists t'. split_and!; [done|done|].
      rewrite (wf_count _ (models_wf _ _ M')), (wf_count _ (models_wf _ _ M)), Hp. cbn [length]. lia.
  - destruct (replace_models t m k p M Ho Hb) as (t' & -> & M' & He). exists t'. done.
  - pose proof (remove_models t m k M) as HR. unfold hashtable_remove in *.
    destruct (chain_remove k _) as [[q l]|] eqn:E.
    + destruct (m k) as [v|]; [|by destruct HR]. destruct HR as (_ & M' & _). eexists. split_and!; [done|done|].
      cbn [with_table entries]. pose proof (u32_bound (entries t - 1)). 
      destruct (Z.eq_dec (entries t) 0) as [E0|E0].
      * exfalso. apply chain_remove_perm in E as (e & Hp & _).
        pose proof (wf_count _ (models_wf _ _ M)) as Hc. rewrite E0 in Hc.
        assert (Hin : e ∈ concat (table t)).
        { apply elem_of_concat. eexists _, _. split; [apply (chain_at_lookup t k (models_wf _ _ M))|]. rewrite Hp. set_solver. }
        destruct (concat (table t)); [by apply elem_of_nil in Hin|cbn in Hc; lia].
      * pose proof (wf_count _ (models_wf _ _ M)). rewrite u32_small by lia. lia.
    + destruct (m k) as [v|]; [by destruct HR|]. exists t. split_and!; [done|done|lia].
  - exists t. rewrite (models_lookup _ _ M). split_and!; [done|done|lia].
  - destruct (clear_models t m M) as [M' He]. eexists. split_and!; [done|exact M'|].
    rewrite He. pose proof (wf_count _ (models_wf _ _ M)). lia.
Qed.

Lemma run_models os t m : models t m -> Forall op_ok os -> entries t + Z.of_nat (length os) < w32 ->
  table_run t os = Val (map_run m os).
Proof using HL.
  intros M HF. revert t m M. induction HF as [|o os Ho HF IH]; intros t m M Hb; cbn [table_run map_run length] in *; [done|].
  destruct (step_models t m o M Ho) as (t' & E & M' & He); [lia|]. rewrite E. cbn [mbind cres_bind].
  destruct (map_step m o) as [a m']. cbn [fst snd] in *. rewrite (IH t' m' M') by lia. done.
Qed.
End Proofs.
Arguments op Key : clear implicits.

(** C12. A table used through its interface behaves as a map: from an empty
    table, whatever the sequence of calls (with non-NULL payloads), every
    answer is the one a map from keys to payloads gives, through all the
    resizings, collisions and unlinkings. *)
Theorem hashtable_refines_map `{HL : HashKeyLaws Key} (bits : Z) (frees : bool) (os : list (op Key)) :
  0 < bits < 32 -> Forall op_ok os -> Z.of_nat (length os) < w32 ->
  table_run (hashtable_init_ex bits frees) os = Val (map_run (fun _ => None) os).
Proof. intros Hb HF Hl. apply run_models; [by apply init_models|done|exact Hl]. Qed.

Definition demo_ops : list (op Z) := [
  Add 1 10; Add 3 30; Add 5 50; Add 3 31; Lookup 3; AddReplace 3 32; Lookup 3; Remove 1; Lookup 1; Lookup 5;
  Clear; Lookup 5].

Lemma hashtable_refines_map_witness :
  (0 < 1 < 32 /\ Forall op_ok demo_ops) /\
  table_run (hashtable_init_ex 1 true) demo_ops = Val (map_run (fun _ => None) demo_ops).
Proof.
  assert (HF : Forall op_ok demo_ops) by (repeat constructor; cbn; lia).
  split; [split; [lia|exact HF]|].
  apply (hashtable_refines_map 1 true demo_ops); [lia|exact HF|vm_compute; reflexivity].
Defined.

Example demo_answers :
  table_run (hashtable_init_ex 1 true) demo_ops =
  Val [ABool true; ABool true; ABool true; ABool false; APtr 30; APtr 30; APtr 32; ABool true; APtr 0; APtr 50;
       AUnit; APtr 0].
Proof. vm_compute. reflexivity. Qed.

(** The caseless keys really identify strings that differ in case. *)
Example caseless : @keys_equal _ nocase_keys (s2l "Foo") (s2l "fOO") = true /\
  @hash_func _ nocase_keys 8 (s2l "Foo") = @hash_func _ nocase_keys 8 (s2l "fOO").
Proof. split; vm_compute; reflexivity. Qed.

(** ** Pointer keys: ranges and persistence *)

Section Pointers.
#[local] Abbreviation entry := (hash_entry Z).
Implicit Types (e : entry) (l : list entry) (t : hashtable Z).

Lemma distinct_filter (p : entry -> bool) l : distinct l -> distinct (List.filter p l).
Proof.
  induction 1 as [|e l HF D IH]; cbn; [constructor|]. destruct (p e); [|done].
  constructor; [|done]. apply Forall_forall. intros e' He'. rewrite Forall_forall in HF. apply HF.
  apply list_elem_of_In, List.filter_In in He' as [He' _]. by apply list_elem_of_In.
Qed.

Lemma concat_map_filter (p : entry -> bool) (a : list (list entry)) :
  concat (map (List.filter p) a) = List.filter p (concat a).
Proof. induction a as [|l a IH]; [done|]. cbn. by rewrite List.filter_app, IH. Qed.

(** A filter that looks at the key only. *)
Lemma chain_lookup_filter (q : Z -> bool) k l :
  chain_lookup k (List.filter (fun e => q (key e)) l) = if q k then chain_lookup k l else None.
Proof.
  induction l as [|e l IH]; cbn [List.filter chain_lookup]; [by destruct (q k)|].
  destruct (q (key e)) eqn:Eq; cbn [chain_lookup]; rewrite ?IH; cbn;
    (destruct (key e =? k) eqn:E; zbool; [subst k; by rewrite ?Eq|by destruct (q k)]).
Qed.

Lemma filter_partition (p : entry -> bool) l :
  (length (List.filter p l) + length (List.filter (fun e => negb (p e)) l) = length l)%nat.
Proof. induction l as [|e l IH]; [done|]. cbn. destruct (p e); cbn; lia. Qed.
End Pointers.

(** C32. Removing a range of keys removes exactly the keys in it, hands exactly
    their payloads to the free function, and leaves the table well formed. *)
Theorem remove_range_spec (t : hashtable Z) (start finish : Z) :
  wf t ->
  let '(any, t', freed) := hashtable_remove_range t start finish in
  wf t' /\
  (forall k, hashtable_lookup t' k = if (start <=? k) && (k <? finish) then None else hashtable_lookup t k) /\
  (any = true <-> exists k p, hashtable_lookup t k = Some p /\ start <= k < finish) /\
  freed = if frees_payload t then map payload (List.filter (in_range start finish) (concat (table t))) else [].
Proof.
  intros W. unfold hashtable_remove_range.
  set (gone := List.filter (in_range start finish) (concat (table t))).
  assert (Hpart : (length gone + length (List.filter (fun e => negb (in_range start finish e)) (concat (table t))) =
                   length (concat (table t)))%nat) by apply filter_partition.
  assert (W' : wf (with_table t (map (List.filter (fun e => negb (in_range start finish e))) (table t))
                     (u32 (entries t - Z.of_nat (length gone))))).
  { pose proof (wf_count _ W). pose proof (wf_small _ W).
    constructor; cbn [with_table table table_bits entries config]; try apply W.
    - rewrite length_map. apply W.
    - intros i l e Hi He. rewrite list_lookup_fmap in Hi. destruct (table t !! i) as [l0|] eqn:E; [|done].
      injection Hi as <-. apply list_elem_of_In, List.filter_In in He as [He _].
      apply (wf_home _ W i l0 e E). by apply list_elem_of_In.
    - rewrite concat_map_filter. apply distinct_filter, W.
    - rewrite concat_map_filter, u32_small; lia.
    - apply u32_bound. }
  split; [exact W'|]. split; [|split; [|done]].
  - intros k. rewrite !lookup_concat by done. cbn [with_table table]. rewrite concat_map_filter.
    rewrite (chain_lookup_filter (fun k => negb ((start <=? k) && (k <? finish)))).
    by destruct ((start <=? k) && (k <? finish)).
  - split.
    + intros Hany. assert (exists e, e ∈ gone) as [e He].
      { destruct gone as [|e gone']; [done|]. exists e. set_solver. }
      apply list_elem_of_In, List.filter_In in He as [He Hr]. apply list_elem_of_In in He.
      unfold in_range in Hr. zbool. exists (key e), (payload e). split; [|lia].
      rewrite lookup_concat by done. apply chain_lookup_some; [apply W|]. exists e. split_and!; try done. cbn. apply Z.eqb_refl.
    + intros (k & p & Hl & Hk). rewrite lookup_concat in Hl by done.
      apply chain_lookup_some in Hl as (e & He & Hek & _); [|apply W]. cbn in Hek. zbool. subst.
      assert (Hin : e ∈ gone).
      { apply list_elem_of_In, List.filter_In. split; [by apply list_elem_of_In|]. unfold in_range.
        apply andb_true_iff. split; [apply Z.leb_le|apply Z.ltb_lt]; lia. }
      destruct gone; [by apply elem_of_nil in Hin|done].
Qed.

Definition three : hashtable Z :=
  snd (hashtable_add (snd (hashtable_add (snd (hashtable_add (hashtable_init_ex 2 true) 16 1)) 32 2)) 48 3).

Lemma three_wf : wf three.
Proof.
  pose proof (init_models (Key := Z) 2 true ltac:(lia)) as M0.
  pose proof (add_models _ _ 16 1 M0 ltac:(lia) ltac:(done)) as M1.
  destruct (hashtable_add _ 16 1) as [ok1 t1] eqn:E1. destruct M1 as (_ & M1 & _).
  pose proof (add_models _ _ 32 2 M1 ltac:(lia)) as M2. 
  assert (T1 : t1 = snd (hashtable_add (hashtable_init_ex (Key := Z) 2 true) 16 1)) by by rewrite E1.
  specialize (M2 ltac:(rewrite T1; vm_compute; reflexivity)).
  destruct (hashtable_add t1 32 2) as [ok2 t2] eqn:E2. cbn [map_insert] in M2. destruct M2 as (_ & M2 & _).
  assert (T2 : t2 = snd (hashtable_add t1 32 2)) by by rewrite E2.
  pose proof (add_models _ _ 48 3 M2 ltac:(lia)) as M3.
  specialize (M3 ltac:(rewrite T2, T1; vm_compute; reflexivity)).
  destruct (hashtable_add t2 48 3) as [ok3 t3] eqn:E3. destruct M3 as (_ & M3 & _).
  replace three with t3; [apply M3|]. unfold three. by rewrite <- T1, <- T2, E3.
Qed.

Lemma remove_range_spec_witness :
  let '(any, t', freed) := hashtable_remove_range three 20 48 in
  wf t' /\
  (forall k, hashtable_lookup t' k = if (20 <=? k) && (k <? 48) then None else hashtable_lookup three k) /\
  (any = true <-> exists k p, hashtable_lookup three k = Some p /\ 20 <= k < 48) /\
  freed = if frees_payload three then map payload (List.filter (in_range 20 48) (concat (table three))) else [].
Proof. exact (remove_range_spec three 20 48 three_wf). Defined.

(** ** Persisting and resurrecting *)

Lemma length_le_bytes n v : length (le_bytes n v) = n.
Proof. revert v. induction n; intros; cbn; [done|]. by rewrite IHn. Qed.

Lemma le_round n v : 0 <= v < 256 ^ Z.of_nat n -> le_value (le_bytes n v) = v.
Proof.
  revert v. induction n as [|n IH]; intros v Hv; [cbn in *; lia|]. cbn [le_bytes le_value].
  rewrite Nat2Z.inj_succ, Z.pow_succ_r in Hv by lia.
  rewrite IH; [pose proof (Z.div_mod v 256 ltac:(lia)); lia|].
  split; [apply Z.div_pos; lia|]. apply Z.div_lt_upper_bound; lia.
Qed.

Lemma firstn_le n v rest : firstn n (le_bytes n v ++ rest) = le_bytes n v.
Proof.
  rewrite firstn_app, length_le_bytes, Nat.sub_diag, firstn_O, app_nil_r.
  apply firstn_all2. by rewrite length_le_bytes.
Qed.
Lemma skipn_le n v rest : skipn n (le_bytes n v ++ rest) = rest.
Proof. rewrite skipn_app, length_le_bytes, Nat.sub_diag, skipn_all2 by (by rewrite length_le_bytes). done. Qed.

Section RoundTrip.
Context (fragment_persistable : Z -> bool) (deref : Z -> nat -> list Z) (payload_at : Z -> list Z -> Z).
Context (flags : persist_flags) (entry_size : nat).
Hypothesis inlined : PAYLOAD_IS_POINTER flags = false.
#[local] Abbreviation always := (fun (_ : list Z) (_ : nat) => true).

Definition encode (e : hash_entry Z) : list Z := le_bytes 8 (key e) ++ le_bytes entry_size (payload e).

Lemma persist_entries_ok region es out :
  persist_entries region fragment_persistable deref always flags entry_size out es =
  Some (out ++ concat (map encode (List.filter (is_persisted region fragment_persistable flags) es))).
Proof using inlined.
  revert out. induction es as [|e es IH]; intros out; cbn [persist_entries List.filter]; [by rewrite app_nil_r|].
  destruct (is_persisted _ _ _ e); [|apply IH]. unfold persist_entry. rewrite inlined.
  cbn [hash_write_file mbind option_bind]. rewrite IH. cbn [map concat]. unfold encode. by rewrite <- !app_assoc.
Qed.

(** The entries as resurrected: keys moved by [shift]. *)
Definition moved (shift : Z) (e : hash_entry Z) : hash_entry Z :=
  {| key := if REBASE_KEY flags then u64 (key e + shift) else key e; payload := payload e |}.

Definition entry_fits (e : hash_entry Z) : Prop :=
  0 <= key e < w64 /\ 0 < payload e < 256 ^ Z.of_nat entry_size.

Lemma moved_inj shift e e' : entry_fits e -> entry_fits e' -> key (moved shift e) = key (moved shift e') -> key e = key e'.
Proof using.
  intros [H1 _] [H2 _]. unfold moved. cbn [key]. destruct (REBASE_KEY flags); [|done].
  unfold u64. intros E.
  assert (Hd : (key e - key e') mod w64 = 0).
  { replace (key e - key e') with ((key e + shift) - (key e' + shift)) by lia.
    rewrite Zminus_mod, E, Z.sub_diag. done. }
  apply Z.mod_divide in Hd as [q Hq]; [|lia]. assert (q = 0) by nia. subst. lia.
Qed.

Lemma resurrect_entries_ok es shift total rest t m :
  models t m -> Forall entry_fits es -> distinct (map (moved shift) es) ->
  Forall (fun e => m (key (moved shift e)) = None) es -> entries t + Z.of_nat (length es) < w32 ->
  exists t' m', resurrect_entries payload_at (length es) flags entry_size shift total (concat (map encode es) ++ rest) t =
    (true, t', rest) /\ models t' m' /\ concat (table t') ≡ₚ map (moved shift) es ++ concat (table t).
Proof using inlined.
  intros M HF. revert t m M. induction HF as [|e es [Hk Hp] HF IH]; intros t m M D Hn Hb; [by exists t, m|].
  cbn [map concat length resurrect_entries] in *.
  inversion_clear D as [|? ? Hd D']. apply Forall_cons in Hn as [Hn Hn'].
  change (encode e) with (le_bytes 8 (key e) ++ le_bytes entry_size (payload e)). rewrite <- !app_assoc.
  rewrite firstn_le. rewrite skipn_le. rewrite (firstn_le entry_size). rewrite skipn_le. rewrite inlined.
  rewrite (le_round 8) by (change (256 ^ Z.of_nat 8) with w64; done). rewrite le_round by lia.
  pose proof (add_models t m (key (moved shift e)) (payload e) M) as HA.
  specialize (HA ltac:(lia) ltac:(lia)). rewrite Hn in HA. unfold moved at 1 in HA. cbn [key] in HA.
  destruct (hashtable_add t _ (payload e)) as [ok t1] eqn:E. destruct HA as (-> & M1 & Hperm).
  destruct (IH t1 _ M1 D') as (t' & m' & Er & M' & Hp').
  - apply Forall_map in Hd. eapply Forall_impl; [apply Forall_and; split; [exact Hn'|exact Hd]|].
    intros e' [H1 H2]. unfold map_insert. by rewrite H2.
  - rewrite (wf_count _ (models_wf _ _ M1)), Hperm. cbn [length].
    pose proof (wf_count _ (models_wf _ _ M)). lia.
  - exists t', m'. split_and!; [exact Er|done|]. rewrite Hp', Hperm. symmetry.
    apply Permutation_middle.
Qed.
End RoundTrip.

Lemma chain_lookup_moved (flags : persist_flags) entry_size shift l k :
  Forall (entry_fits entry_size) l -> 0 <= k < w64 ->
  chain_lookup (key (moved flags shift {| key := k; payload := 0 |})) (map (moved flags shift) l) = chain_lookup k l.
Proof.
  intros HF Hk. induction HF as [|e l He HF IH]; [done|]. cbn [map chain_lookup]. rewrite IH.
  change (payload (moved flags shift e)) with (payload e). cbn [keys_equal intptr_keys].
  assert (Hf : entry_fits entry_size {| key := k; payload := payload e |}) by (split; [done|apply He]).
  destruct (key e =? k) eqn:E; zbool.
  - subst. by rewrite Z.eqb_refl.
  - rewrite (proj2 (Z.eqb_neq _ _)); [done|]. intros E'. apply E.
    exact (moved_inj flags entry_size shift e {| key := k; payload := payload e |} He Hf E').
Qed.

Lemma distinct_moved (flags : persist_flags) entry_size shift l :
  Forall (entry_fits entry_size) l -> distinct l -> distinct (map (moved flags shift) l).
Proof.
  intros HF D. induction D as [|e l Hd D IH]; [constructor|]. inversion_clear HF as [|? ? He HF'].
  cbn [map]. constructor; [|by apply IH]. apply Forall_map. rewrite Forall_forall in *. intros e' He'.
  specialize (Hd e' He'). cbn in *. zbool. apply Z.eqb_neq. intros E. apply Hd.
  exact (moved_inj flags entry_size shift e e' He (HF' e' He') E).
Qed.

Lemma filter_all {A} (p : A -> bool) l : (forall e, p e = true) -> List.filter p l = l.
Proof. intros Hp. induction l as [|e l IH]; [done|]. cbn. by rewrite Hp, IH. Qed.

(** A table of inlined payloads survives being persisted and resurrected:
    reading back what was written into an empty table consumes exactly the
    bytes written and gives each persisted key, moved by the distance between
    the old and the new start of the code region when keys are rebased, the
    payload it had, and nothing else. *)
Theorem persist_round_trip (fragment_persistable : Z -> bool) (deref : Z -> nat -> list Z)
    (payload_at : Z -> list Z -> Z) (flags : persist_flags) (entry_size : nat)
    (t : hashtable Z) (region region' : Z * Z) (bits : Z) (rest : list Z) :
  PAYLOAD_IS_POINTER flags = false -> wf t -> Forall (entry_fits entry_size) (concat (table t)) ->
  0 <= fst region < w64 -> 0 < bits < 32 ->
  let '(_, t1) := hashtable_persist_size (Some region) fragment_persistable t (Z.of_nat entry_size) flags in
  exists out t2,
    hashtable_persist (Some region) fragment_persistable deref (fun _ _ => true) t1 entry_size flags = Some out /\
    hashtable_resurrect (Some region') payload_at (out ++ rest) (hashtable_init bits) entry_size flags = (true, t2, rest) /\
    wf t2 /\
    forall k, 0 <= k < w64 ->
      hashtable_lookup t2 (if REBASE_KEY flags then u64 (k + u64 (fst region' - fst region)) else k) =
      if is_persisted (Some region) fragment_persistable flags {| key := k; payload := 0 |}
      then hashtable_lookup t k else None.
Proof.
  intros Hin W HF Hr Hb. unfold hashtable_persist_size.
  set (p := is_persisted (Some region) fragment_persistable flags).
  set (es := List.filter p (concat (table t))).
  assert (HFe : Forall (entry_fits entry_size) es).
  { rewrite Forall_forall in *. intros e He. apply HF. apply list_elem_of_In, List.filter_In in He as [He _].
    by apply list_elem_of_In. }
  assert (Hlen : Z.of_nat (length es) < w32).
  { pose proof (List.filter_length_le p (concat (table t))). pose proof (wf_count _ W). pose proof (wf_small _ W). fold es in H. lia. }
  assert (Hcount : (if ONLY_IN_RANGE flags || ONLY_PERSISTED flags then u32 (Z.of_nat (length es)) else entries t) =
                   Z.of_nat (length es)).
  { destruct (ONLY_IN_RANGE flags || ONLY_PERSISTED flags) eqn:E; [apply u32_small; lia|].
    rewrite (wf_count _ W). apply orb_false_iff in E as [E1 E2].
    assert (Hall : forall e, p e = true) by (intros e; unfold p, is_persisted; by rewrite E1, E2).
    unfold es. by rewrite (filter_all p _ Hall). }
  rewrite Hcount. unfold hashtable_persist. rewrite andb_false_r. cbn [hash_write_file mbind option_bind persist_count table].
  set (shift := u64 (fst region' - fst region)).
  destruct (resurrect_entries_ok payload_at flags entry_size Hin es (if REBASE_KEY flags then shift else 0)
              (Z.of_nat (length (le_bytes 4 (Z.of_nat (length es)) ++
                 (if REBASE_KEY flags then le_bytes 8 (fst region) else []) ++ concat (map (encode entry_size) es) ++ rest)))
              rest (hashtable_init bits) (fun _ => None)) as (t2 & m2 & E2 & M2 & Hp2).
  { by apply init_models. } { done. }
  { eapply distinct_moved; [exact HFe|]. apply distinct_filter, W. }
  { apply Forall_forall. done. } { cbn. lia. }
  assert (Hnil : concat (table (hashtable_init (Key := Z) bits)) = []) by apply concat_repeat_nil.
  rewrite Hnil, app_nil_r in Hp2. pose proof (models_wf _ _ M2) as W2.
  exists (le_bytes 4 (Z.of_nat (length es)) ++ (if REBASE_KEY flags then le_bytes 8 (fst region) else []) ++
          concat (map (encode entry_size) es)), t2. split.
  { destruct (REBASE_KEY flags); cbn [hash_write_file mbind option_bind];
      rewrite persist_entries_ok by done; rewrite <- ?app_assoc; destruct region; reflexivity. }
  split; [|split; [done|]].
  - unfold hashtable_resurrect. destruct (REBASE_KEY flags) eqn:ER; rewrite <- !app_assoc.
    + rewrite firstn_le. rewrite skipn_le. rewrite firstn_le. rewrite skipn_le.
      rewrite !le_round by (cbn in *; lia). rewrite Nat2Z.id. exact E2.
    + rewrite firstn_le. rewrite skipn_le. rewrite le_round by (cbn in *; lia). rewrite Nat2Z.id. exact E2.
  - intros k Hk. rewrite !lookup_concat by done. rewrite (chain_lookup_perm _ _ _ Hp2) by apply W2.
    pose proof (chain_lookup_moved flags entry_size (if REBASE_KEY flags then shift else 0) es k HFe Hk) as HM.
    cbn [moved key] in HM. replace (if REBASE_KEY flags then u64 (k + shift) else k) with
      (if REBASE_KEY flags then u64 (k + (if REBASE_KEY flags then shift else 0)) else k) by by destruct (REBASE_KEY flags).
    rewrite HM. unfold es. exact (chain_lookup_filter (fun k => p {| key := k; payload := 0 |}) k (concat (table t))).
Qed.

Definition rebase : persist_flags := {|
  PAYLOAD_IS_POINTER := false; CLONE_PAYLOAD := false; REBASE_KEY := true; ONLY_IN_RANGE := true; ONLY_PERSISTED := false |}.

Lemma persist_round_trip_witness :
  let '(_, t1) := hashtable_persist_size (Some (16, 20)) (fun _ => true) three 4 rebase in
  exists out t2,
    hashtable_persist (Some (16, 20)) (fun _ => true) (fun _ _ => []) (fun _ _ => true) t1 4 rebase = Some out /\
    hashtable_resurrect (Some (4096, 20)) (fun _ _ => 0) (out ++ [7]) (hashtable_init 3) 4 rebase = (true, t2, [7]) /\
    wf t2 /\
    forall k, 0 <= k < w64 ->
      hashtable_lookup t2 (u64 (k + u64 (4096 - 16))) =
      if is_persisted (Some (16, 20)) (fun _ => true) rebase {| key := k; payload := 0 |}
      then hashtable_lookup three k else None.
Proof.
  assert (HF : Forall (entry_fits 4) (concat (table three))) by (repeat constructor; vm_compute; congruence).
  assert (H1 : 0 <= fst (16, 20) < w64) by (cbn; lia).
  assert (H2 : 0 < 3 < 32) by lia.
  exact (persist_round_trip (fun _ => true) (fun _ _ => []) (fun _ _ => 0) rebase 4 three (16, 20) (4096, 20) 3 [7]
           eq_refl three_wf HF H1 H2).
Defined.
