(* ===== verification/DrVector.v ===== *)
(** * The growable vector (src/Simulator/ext/drcontainers/drvector.c)

    An array of pointers with a capacity and the index of the next append.
    The array is heap memory: [None] stands for a NULL [array], a cell [None]
    for one that has never been written, and a read of such a cell or an
    access past the capacity is [Undef].  A vector argument is an option,
    [None] being the NULL the functions test for.  The element pointers are a
    type [T], NULL being what [drvector_get_entry] answers past the end.
    Locking is not modelled. *)
From S2P Require Export Prelude.

Section DrVector.
Context {T : Type}.

Record drvector := {
  entries : Z;
  capacity : Z;
  array : option (list (option T));
  has_free : bool    (* free_data_func is not NULL *)
}.

Definition INITIAL_CAPACITY_IF_ZERO_REQUESTED : Z := 8.

(** Memory fresh from [dr_global_alloc]. *)
Definition fresh_cells (n : Z) : list (option T) := replicate (Z.to_nat n) None.

Definition drvector_init (vec_given : bool) (initial_capacity : Z) (free_data_func : bool) : bool * option drvector :=
  if negb vec_given then (false, None)
  else (true, Some {| entries := 0; capacity := initial_capacity;
                      array := if 0 <? initial_capacity then Some (fresh_cells initial_capacity) else None;
                      has_free := free_data_func |}).

(** [array[idx]] as a pointer. *)
Definition load (v : drvector) (idx : Z) : cres T :=
  match array v with
  | Some a => match a !! Z.to_nat idx with Some (Some d) => Val d | _ => Undef end
  | None => Undef
  end.

(** [array[idx] = data]. *)
Definition store (v : drvector) (idx : Z) (data : T) : cres drvector :=
  match array v with
  | Some a =>
      if idx <? Z.of_nat (length a)
      then Val {| entries := entries v; capacity := capacity v; array := Some (<[Z.to_nat idx := Some data]> a);
                  has_free := has_free v |}
      else Undef
  | None => Undef
  end.

Definition drvector_get_entry (vec : option drvector) (idx : Z) : cres (option T) :=
  match vec with
  | None => Val None
  | Some v => if idx <? entries v then d ← load v idx; Val (Some d) else Val None
  end.

Definition drvector_increase_size (v : drvector) (newcap : Z) : cres drvector :=
  let newarray := fresh_cells newcap in
  match array v with
  | Some a =>
      if newcap <? entries v then Undef
      else Val {| entries := entries v; capacity := newcap;
                  array := Some (take (Z.to_nat (entries v)) a ++ drop (Z.to_nat (entries v)) newarray);
                  has_free := has_free v |}
  | None => Val {| entries := entries v; capacity := newcap; array := Some newarray; has_free := has_free v |}
  end.

Definition with_entries (v : drvector) (n : Z) : drvector :=
  {| entries := n; capacity := capacity v; array := array v; has_free := has_free v |}.

Definition drvector_set_entry (vec : option drvector) (idx : Z) (data : T) : cres (bool * option drvector) :=
  match vec with
  | None => Val (false, None)
  | Some v =>
      v ← (if capacity v <=? idx then drvector_increase_size v (u32 (idx * 2)) else Val v);
      v ← store v idx data;
      Val (true, Some (if entries v <=? idx then with_entries v (u32 (idx + 1)) else v))
  end.

Definition drvector_append (vec : option drvector) (data : T) : cres (bool * option drvector) :=
  match vec with
  | None => Val (false, None)
  | Some v =>
      v ← (if capacity v <=? entries v
           then if capacity v =? 0 then drvector_increase_size v INITIAL_CAPACITY_IF_ZERO_REQUESTED
                else drvector_increase_size v (u32 (capacity v * 2))
           else Val v);
      v ← store v (entries v) data;
      Val (true, Some (with_entries v (u32 (entries v + 1))))
  end.

(** The loop of [drvector_delete]: the pointers handed to [free_data_func]. *)
Fixpoint free_loop (v : drvector) (i : nat) : cres (list T) :=
  match i with
  | O => Val []
  | S i => fs ← free_loop v i; d ← load v (Z.of_nat i); Val (fs ++ [d])
  end.

Definition drvector_delete (vec : option drvector) : cres (bool * option drvector * list T) :=
  match vec with
  | None => Val (false, None, [])
  | Some v =>
      freed ← (if has_free v && bool_decide (is_Some (array v)) then free_loop v (Z.to_nat (entries v)) else Val []);
      Val (true,
           Some (match array v with
                 | Some _ => {| entries := 0; capacity := capacity v; array := None; has_free := has_free v |}
                 | None => v
                 end), freed)
  end.
End DrVector.
Arguments drvector T : clear implicits.

(** ** What a vector is: the list of its cells below [entries] *)

Section Proofs.
Context {T : Type}.
Implicit Types (v : drvector T) (l : list (option T)).

(** [l] is what lies below [entries]; everything above has never been written. *)
Record represents v l : Prop := {
  rep_entries : entries v = Z.of_nat (length l);
  rep_cap : Z.of_nat (length l) <= capacity v < w32;
  rep_array : if 0 <? capacity v
              then array v = Some (l ++ replicate (Z.to_nat (capacity v) - length l) None)
              else array v = None
}.

Lemma load_spec v l idx : represents v l -> 0 <= idx < entries v ->
  load v idx = match l !! Z.to_nat idx with Some (Some d) => Val d | _ => Undef end.
Proof.
  intros [He Hc Ha] Hi. unfold load. rewrite (proj2 (Z.ltb_lt _ _)) in Ha by lia. rewrite Ha.
  by rewrite lookup_app_l by lia.
Qed.

(** Growth keeps the contents, when the new capacity is larger. *)
Lemma increase_spec v l newcap : represents v l -> Z.of_nat (length l) <= newcap < w32 -> 0 < newcap ->
  exists v', drvector_increase_size v newcap = Val v' /\ represents v' l /\ capacity v' = newcap /\ has_free v' = has_free v.
Proof.
  intros [He Hc Ha] Hn Hp. unfold drvector_increase_size.
  assert (Hd : forall k, drop k (fresh_cells (T := T) newcap) = replicate (Z.to_nat newcap - k) None).
  { intros k. unfold fresh_cells. apply drop_replicate. }
  destruct (0 <? capacity v) eqn:E; rewrite Ha.
  - rewrite (proj2 (Z.ltb_ge _ _)) by lia. eexists; split; [done|]. split; [|done].
    split; cbn; [done|lia|]. rewrite (proj2 (Z.ltb_lt _ _)) by lia.
    by rewrite He, Nat2Z.id, take_app_length, Hd.
  - zbool. assert (l = []) as -> by (destruct l; [done|cbn in *; lia]).
    eexists; split; [done|]. split; [|done]. split; cbn; [done|cbn in *; lia|].
    rewrite (proj2 (Z.ltb_lt _ _)) by lia. unfold fresh_cells. do 2 f_equal. lia.
Qed.

(** The list after a write at [idx]: in place, or past the end with the gap
    left unwritten. *)
Definition set_cell l (idx : Z) (d : T) : list (option T) :=
  if idx <? Z.of_nat (length l) then <[Z.to_nat idx := Some d]> l
  else l ++ replicate (Z.to_nat idx - length l) None ++ [Some d].

Lemma length_set_cell l idx d : 0 <= idx ->
  Z.of_nat (length (set_cell l idx d)) = Z.max (Z.of_nat (length l)) (idx + 1).
Proof.
  intros. unfold set_cell. case_eqn E; zbool; [rewrite length_insert; lia|].
  rewrite !length_app, length_replicate. cbn. lia.
Qed.

Lemma set_cell_pad l idx d cap : 0 <= idx < Z.of_nat cap -> (length l <= cap)%nat ->
  <[Z.to_nat idx := Some d]> (l ++ replicate (cap - length l) None) =
  set_cell l idx d ++ replicate (cap - length (set_cell l idx d)) None.
Proof.
  intros Hi Hl. pose proof (length_set_cell l idx d ltac:(lia)) as HL.
  unfold set_cell in *. case_eqn E; zbool.
  - rewrite insert_app_l by lia. by rewrite length_insert.
  - rewrite <- !app_assoc. rewrite insert_app_r_alt by lia. f_equal.
    assert ((cap - length l = (Z.to_nat idx - length l) + S (cap - S (Z.to_nat idx)))%nat) as -> by lia.
    rewrite replicate_add, insert_app_r_alt by (rewrite length_replicate; lia).
    rewrite length_replicate, Nat.sub_diag. cbn. repeat f_equal. lia.
Qed.

Lemma store_spec v l idx d : represents v l -> 0 <= idx < capacity v ->
  exists v', store v idx d = Val v' /\
    represents (if entries v' <=? idx then with_entries v' (u32 (idx + 1)) else v') (set_cell l idx d) /\
    entries v' = entries v /\ has_free v' = has_free v.
Proof.
  intros [He Hc Ha] Hi. unfold store. rewrite (proj2 (Z.ltb_lt 0 _)) in Ha by lia. rewrite Ha.
  rewrite (proj2 (Z.ltb_lt idx _)) by (rewrite length_app, length_replicate; lia).
  eexists; split; [done|]. split; [|done]. pose proof (length_set_cell l idx d ltac:(lia)) as HL.
  rewrite u32_small by lia. cbn [entries].
  assert (Harr : <[Z.to_nat idx := Some d]> (l ++ replicate (Z.to_nat (capacity v) - length l) None) =
                 set_cell l idx d ++ replicate (Z.to_nat (capacity v) - length (set_cell l idx d)) None).
  { apply set_cell_pad; lia. }
  rewrite Harr. destruct (entries v <=? idx) eqn:E; zbool.
  - split; cbn; [lia|lia|]. by rewrite (proj2 (Z.ltb_lt 0 _)) by lia.
  - split; cbn; [lia|lia|]. by rewrite (proj2 (Z.ltb_lt 0 _)) by lia.
Qed.

Lemma append_is_set v l d : represents v l -> Z.of_nat (length l) < 2147483648 ->
  exists v', drvector_append (Some v) d = Val (true, Some v') /\ represents v' (l ++ [Some d]) /\ has_free v' = has_free v.
Proof.
  intros R Hl. pose proof R as [He Hc _]. unfold drvector_append.
  assert (exists v1, (if capacity v <=? entries v
           then if capacity v =? 0 then drvector_increase_size v INITIAL_CAPACITY_IF_ZERO_REQUESTED
                else drvector_increase_size v (u32 (capacity v * 2)) else Val v) = Val v1 /\
         represents v1 l /\ Z.of_nat (length l) < capacity v1 /\ has_free v1 = has_free v) as (v1 & -> & R1 & Hc1 & Hf).
  { destruct (capacity v <=? entries v) eqn:E; zbool; [|exists v; split_and!; done || lia].
    destruct (capacity v =? 0) eqn:E0; zbool.
    - destruct (increase_spec v l INITIAL_CAPACITY_IF_ZERO_REQUESTED R) as (v1 & -> & ? & Hcap & ?);
        [unfold INITIAL_CAPACITY_IF_ZERO_REQUESTED; lia|done|].
      exists v1. split_and!; try done. rewrite Hcap. unfold INITIAL_CAPACITY_IF_ZERO_REQUESTED. lia.
    - rewrite u32_small by lia.
      destruct (increase_spec v l (capacity v * 2) R) as (v1 & -> & ? & Hcap & ?); [lia|lia|].
      exists v1. split_and!; try done. lia. }
  cbn [mbind cres_bind]. pose proof (rep_entries _ _ R1) as He1. rewrite He1.
  destruct (store_spec v1 l (Z.of_nat (length l)) d R1 ltac:(lia)) as (v2 & -> & R2 & He2 & Hf2).
  cbn [mbind cres_bind]. rewrite He2 in *. rewrite He1 in *. rewrite Z.leb_refl in R2.
  eexists; split; [done|]. split; [|cbn; congruence].
  unfold set_cell in R2. rewrite Z.ltb_irrefl, Nat2Z.id, Nat.sub_diag in R2. exact R2.
Qed.

Lemma set_spec v l idx d : represents v l -> 0 <= idx < 2147483648 -> 0 < idx \/ 0 < capacity v ->
  exists v', drvector_set_entry (Some v) idx d = Val (true, Some v') /\ represents v' (set_cell l idx d) /\ has_free v' = has_free v.
Proof.
  intros R Hi Hp. pose proof R as [He Hc _]. unfold drvector_set_entry.
  assert (exists v1, (if capacity v <=? idx then drvector_increase_size v (u32 (idx * 2)) else Val v) = Val v1 /\
         represents v1 l /\ idx < capacity v1 /\ has_free v1 = has_free v) as (v1 & -> & R1 & Hc1 & Hf).
  { destruct (capacity v <=? idx) eqn:E; zbool; [|exists v; split_and!; done || lia].
    rewrite u32_small by lia.
    destruct (increase_spec v l (idx * 2) R) as (v1 & -> & ? & Hcap & ?); [lia|lia|].
    exists v1. split_and!; try done. lia. }
  cbn [mbind cres_bind].
  destruct (store_spec v1 l idx d R1 ltac:(lia)) as (v2 & -> & R2 & He2 & Hf2). cbn [mbind cres_bind].
  eexists; split; [done|]. split; [done|]. case_match; cbn; congruence.
Qed.

Lemma init_spec cap free : 0 <= cap < w32 ->
  exists v, drvector_init (T := T) true cap free = (true, Some v) /\ represents v [] /\ has_free v = free /\ capacity v = cap.
Proof.
  intros Hc. eexists; split; [done|]. split; [|done]. split; cbn; [done|lia|].
  case_match; [|done]. by rewrite Nat.sub_0_r.
Qed.

Lemma append_capacity v l d v' : represents v l -> Z.of_nat (length l) < 2147483648 ->
  drvector_append (Some v) d = Val (true, Some v') -> 0 < capacity v'.
Proof.
  intros R Hl E. destruct (append_is_set v l d R Hl) as (v1 & E1 & R1 & _). rewrite E in E1. injection E1 as <-.
  pose proof (rep_cap _ _ R1) as Hc. rewrite length_app in Hc. cbn in Hc. lia.
Qed.

Fixpoint all_written (l : list (option T)) : option (list T) :=
  match l with
  | [] => Some []
  | Some d :: l => r ← all_written l; Some (d :: r)
  | None :: _ => None
  end.

Lemma all_written_snoc l c :
  all_written (l ++ [c]) = (r ← all_written l; d ← c; Some (r ++ [d])).
Proof.
  induction l as [|[d|] l IH]; cbn [app all_written]; [by destruct c| |done].
  rewrite IH. destruct (all_written l); cbn; [|done]. by destruct c.
Qed.

Lemma free_loop_spec v l n : represents v l -> (n <= length l)%nat ->
  free_loop v n = cres_of_option (all_written (take n l)).
Proof.
  intros R. pose proof (rep_entries _ _ R) as He. induction n as [|n IH]; intros Hn; [done|].
  cbn [free_loop]. rewrite IH by lia. rewrite (load_spec v l) by (done || lia). rewrite Nat2Z.id.
  destruct (l !! n) as [c|] eqn:E; [|apply lookup_ge_None_1 in E; lia].
  rewrite (take_S_r _ _ _ E), all_written_snoc. destruct (all_written (take n l)); cbn; [|done]. by destruct c.
Qed.

Lemma delete_spec v l : represents v l ->
  exists v', drvector_delete (Some v) =
    (freed ← cres_of_option (if has_free v then all_written l else Some []); Val (true, Some v', freed)) /\
    entries v' = 0 /\ array v' = None.
Proof.
  intros R. pose proof R as [He Hc Ha]. unfold drvector_delete.
  exists (match array v with
          | Some _ => {| entries := 0; capacity := capacity v; array := None; has_free := has_free v |}
          | None => v
          end). split; [|split].
  - destruct (0 <? capacity v) eqn:E; rewrite Ha.
    + rewrite bool_decide_true, andb_true_r by done. destruct (has_free v); [|done].
      rewrite (free_loop_spec v l) by (done || lia). by rewrite He, Nat2Z.id, firstn_all.
    + zbool. assert (l = []) as -> by (destruct l; [done|cbn in *; lia]).
      rewrite bool_decide_false by (by intros []). rewrite andb_false_r. cbn. by destruct (has_free v).
  - destruct (0 <? capacity v) eqn:E; rewrite Ha; [done|]. zbool. rewrite He. destruct l; [done|cbn in *; lia].
  - by destruct (0 <? capacity v); rewrite Ha.
Qed.

(** ** Running a client *)

Inductive op := Set_ (idx : Z) (d : T) | Append (d : T) | Get (idx : Z).

Definition vec_step (vec : option (drvector T)) (o : op) : cres (option T * option (drvector T)) :=
  match o with
  | Set_ i d => r ← drvector_set_entry vec i d; Val (None, snd r)
  | Append d => r ← drvector_append vec d; Val (None, snd r)
  | Get i => x ← drvector_get_entry vec i; Val (x, vec)
  end.
Fixpoint vec_run (vec : option (drvector T)) (os : list op) : cres (list (option T) * list T) :=
  match os with
  | [] => r ← drvector_delete vec; Val ([], snd r)
  | o :: os => r ← vec_step vec o; rs ← vec_run (snd r) os; Val (fst r :: fst rs, snd rs)
  end.

(** The same on the list of cells; only reading, or freeing, a cell that was
    skipped over is undefined. *)
Definition list_step l (o : op) : cres (option T * list (option T)) :=
  match o with
  | Set_ i d => Val (None, set_cell l i d)
  | Append d => Val (None, l ++ [Some d])
  | Get i => match l !! Z.to_nat i with
             | Some (Some d) => Val (Some d, l)
             | Some None => Undef
             | None => Val (None, l)
             end
  end.
Fixpoint list_run (frees : bool) l (os : list op) : cres (list (option T) * list T) :=
  match os with
  | [] => freed ← cres_of_option (if frees then all_written l else Some []); Val ([], freed)
  | o :: os => r ← list_step l o; rs ← list_run frees (snd r) os; Val (fst r :: fst rs, snd rs)
  end.

(** Indices stay where doubling does not overflow; [zero_ok] says whether
    index 0 may be set. *)
Definition op_ok (zero_ok : bool) (o : op) : Prop :=
  match o with
  | Set_ i _ => 0 <= i < 1073741824 /\ (zero_ok = true \/ 0 < i)
  | Append _ => True
  | Get i => 0 <= i
  end.

Lemma step_represents v l zero_ok o : represents v l -> op_ok zero_ok o -> Z.of_nat (length l) < 2147483648 ->
  (zero_ok = true -> 0 < capacity v) ->
  match list_step l o with
  | Undef => vec_step (Some v) o = Undef
  | Val (a, l') => exists v', vec_step (Some v) o = Val (a, Some v') /\ represents v' l' /\ has_free v' = has_free v /\
      (zero_ok = true -> 0 < capacity v') /\ Z.of_nat (length l') <= Z.max (Z.of_nat (length l) + 1) 1073741824
  end.
Proof.
  intros R Ho Hl Hz. destruct o as [i d|d|i]; cbn [list_step vec_step op_ok] in *.
  - destruct (set_spec v l i d R) as (v' & -> & R' & Hf); [lia|destruct Ho as [_ [Hzo|Hzo]]; [right; auto|by left]|]. exists v'. split_and!; try done.
    + intros _. pose proof (rep_cap _ _ R') as Hc. rewrite length_set_cell in Hc by lia. lia.
    + rewrite length_set_cell by lia. lia.
  - destruct (append_is_set v l d R Hl) as (v' & E & R' & Hf). rewrite E. exists v'. split_and!; try done.
    + intros _. exact (append_capacity v l d v' R Hl E).
    + rewrite length_app. cbn. lia.
  - unfold drvector_get_entry. pose proof (rep_entries _ _ R) as He.
    destruct (l !! Z.to_nat i) as [[d|]|] eqn:E.
    + pose proof (lookup_lt_Some _ _ _ E). rewrite (proj2 (Z.ltb_lt _ _)) by lia.
      rewrite (load_spec v l) by (done || lia). rewrite E. exists v. split_and!; try done. lia.
    + pose proof (lookup_lt_Some _ _ _ E). rewrite (proj2 (Z.ltb_lt _ _)) by lia.
      rewrite (load_spec v l) by (done || lia). by rewrite E.
    + apply lookup_ge_None in E. rewrite (proj2 (Z.ltb_ge _ _)) by lia. exists v. split_and!; try done. lia.
Qed.

Lemma run_represents os : forall v l zero_ok, represents v l -> Forall (op_ok zero_ok) os ->
  Z.max (Z.of_nat (length l)) 1073741824 + Z.of_nat (length os) < 2147483648 ->
  (zero_ok = true -> 0 < capacity v) ->
  vec_run (Some v) os = list_run (has_free v) l os.
Proof.
  induction os as [|o os IH]; intros v l z R HF Hlen Hz; cbn [vec_run list_run].
  - destruct (delete_spec v l R) as (v' & -> & _). by destruct (if has_free v then _ else _).
  - apply Forall_cons in HF as [Ho HF]. cbn [length] in Hlen.
    pose proof (step_represents v l z o R Ho ltac:(lia) Hz) as HS.
    destruct (list_step l o) as [[a l']|]; [|by rewrite HS].
    destruct HS as (v' & -> & R' & Hf & Hz' & Hl'). cbn [mbind cres_bind fst snd].
    rewrite (IH v' l' z R' HF) by (done || lia). by rewrite Hf.
Qed.
End Proofs.
Arguments op T : clear implicits.

(** C26. A vector behaves as a list that grows: whatever the sequence of
    calls, through all the reallocations, [drvector_append] adds at the end,
    [drvector_set_entry] replaces a cell or extends the list, and
    [drvector_get_entry] reads what was stored, NULL past the end; deleting
    the vector frees the elements once each, in order.  A cell
    [drvector_set_entry] skipped over is uninitialised, and reading or freeing
    it is undefined.  Index 0 may be set only when an initial capacity was
    asked for. *)
Theorem drvector_refines_list {T} (initial_capacity : Z) (frees : bool) (os : list (op T)) :
  0 <= initial_capacity < w32 ->
  Forall (op_ok (0 <? initial_capacity)) os -> Z.of_nat (length os) < 1073741824 ->
  vec_run (snd (drvector_init true initial_capacity frees)) os = list_run frees [] os.
Proof.
  intros Hc HF Hl. destruct (init_spec (T := T) initial_capacity frees Hc) as (v & -> & R & <- & Hcap).
  cbn [snd]. eapply run_represents; [done|exact HF|cbn; lia|]. rewrite Hcap. intros E. by zbool.
Qed.

Definition demo : list (op Z) := [Append 10; Set_ 3 40; Append 50; Get 3; Get 4; Get 9; Set_ 1 20; Set_ 2 30; Get 1].

Lemma drvector_refines_list_witness :
  Forall (op_ok false) demo /\
  vec_run (snd (drvector_init true 0 true)) demo = list_run true [] demo /\
  list_run true [] demo =
    Val ([None; None; None; Some 40; Some 50; None; None; None; Some 20], [10; 20; 30; 40; 50]).
Proof.
  assert (HF : Forall (op_ok false) demo) by (unfold demo; repeat (apply Forall_cons_2 || apply Forall_nil_2); cbn; intuition lia).
  split; [exact HF|]. split; [|reflexivity].
  exact (drvector_refines_list 0 true demo ltac:(lia) HF ltac:(reflexivity)).
Defined.

(** Setting index 0 of a vector created without capacity writes outside
    its array: the new capacity is twice the index, hence 0. *)
Theorem set_zero_overflows {T} (frees : bool) (d : T) :
  drvector_set_entry (snd (drvector_init true 0 frees)) 0 d = Undef.
Proof. reflexivity. Qed.
