(* ===== verification/DrTable.v ===== *)
(** * The chunked table (src/Simulator/ext/drcontainers/drtable.c)

    A table of fixed-size entries in chunks that never move: a vector
    (DrVector.v) of chunk pointers plus a pointer to the newest chunk.  Chunks
    are shared between the two, so they live in a store ([heap]) and a pointer
    is a position in it.

    The address of a new chunk is the allocator's choice: it is an argument of
    the operations that may create one, and [fresh] says what is expected of
    it.  The bytes of the entries belong to the user ([mem], in
    [drtable_dump_entries]).  Locking, the checks of [magic] and the
    [DR_ASSERT]s are not modelled; that the asserted conditions hold is part of
    [wf].  [stop_iter] is the flag the iteration functions return. *)
From S2P Require Export DrVector.

(** ** Layout *)

Definition PAGE_SIZE : Z := 4096.
Definition ALLOC_UNIT_SIZE : Z := PAGE_SIZE.
Definition DRTABLE_INVALID_INDEX : Z := ULONG_MAX.

Record drtable_chunk := {
  c_index : Z;      (* the start index for this chunk *)
  c_entries : Z;    (* number of entries allocated *)
  c_capacity : Z;   (* number of entries in total *)
  c_size : Z;       (* the chunk size in bytes *)
  c_base : Z;
  c_cur_ptr : Z     (* start address of unallocated entries *)
}.

Record drtable := {
  alloc_compact : bool;     (* DRTABLE_ALLOC_COMPACT is in flags *)
  has_free_entry : bool;    (* free_entry_func is not NULL *)
  entry_size : Z;
  t_entries : Z;
  t_capacity : Z;
  t_size : Z;
  last_chunk : nat;
  vec : option (drvector nat);
  heap : list drtable_chunk
}.

Definition chunk_of (t : drtable) (p : nat) : cres drtable_chunk := cres_of_option (heap t !! p).

(** The [i]-th chunk pointer, as the loops over the vector read it. *)
Definition vec_chunk (t : drtable) (i : Z) : cres (nat * drtable_chunk) :=
  p ← drvector_get_entry (vec t) i;
  p ← cres_of_option p;
  c ← chunk_of t p;
  Val (p, c).

Definition vec_entries (t : drtable) : Z := match vec t with Some v => entries v | None => 0 end.

(** ** Creation and allocation *)

Definition drtable_chunk_create (t : drtable) (num_entries : Z) (buf : Z) : cres (drtable * nat) :=
  let size := align_forward (Z.max (t_size t) (u64 (entry_size t * num_entries))) ALLOC_UNIT_SIZE in
  let capacity := u32 (size / entry_size t) in
  let chunk := {| c_index := t_capacity t; c_entries := 0; c_capacity := capacity; c_size := size;
                  c_base := buf; c_cur_ptr := buf |} in
  let p := length (heap t) in
  r ← drvector_append (vec t) p;
  Val ({| alloc_compact := alloc_compact t; has_free_entry := has_free_entry t;
          entry_size := entry_size t; t_entries := t_entries t;
          t_capacity := u64 (t_capacity t + capacity); t_size := u64 (t_size t + size);
          last_chunk := last_chunk t; vec := snd r; heap := heap t ++ [chunk] |}, p).

Definition with_last (t : drtable) (p : nat) : drtable :=
  {| alloc_compact := alloc_compact t; has_free_entry := has_free_entry t;
     entry_size := entry_size t; t_entries := t_entries t; t_capacity := t_capacity t; t_size := t_size t;
     last_chunk := p; vec := vec t; heap := heap t |}.

Definition drtable_create (capacity esize : Z) (compact frees : bool) (buf : Z) : cres drtable :=
  let size := align_forward (u64 ((if 0 <? capacity then capacity else 1) * esize)) ALLOC_UNIT_SIZE in
  let capacity := size / esize in
  let t := {| alloc_compact := compact; has_free_entry := frees; entry_size := esize;
              t_entries := 0; t_capacity := 0; t_size := 0; last_chunk := 0;
              vec := snd (drvector_init true 2 true); heap := [] |} in
  r ← drtable_chunk_create t capacity buf;
  Val (with_last (fst r) (snd r)).

(** The search of a compact table, from the newest chunk to the oldest. *)
Fixpoint find_chunk (t : drtable) (num_entries : Z) (i : nat) : cres (option nat) :=
  match i with
  | O => Val None
  | S i =>
      pc ← vec_chunk t (Z.of_nat i);
      if num_entries <=? u64 (c_capacity (snd pc) - c_entries (snd pc)) then Val (Some (fst pc))
      else find_chunk t num_entries i
  end.

(** Step 3 of [drtable_alloc]: take the entries from chunk [p]. *)
Definition take_entries (t : drtable) (p : nat) (num_entries : Z) : cres (drtable * Z * Z) :=
  c ← chunk_of t p;
  let c' := {| c_index := c_index c; c_entries := u64 (c_entries c + num_entries); c_capacity := c_capacity c;
               c_size := c_size c; c_base := c_base c;
               c_cur_ptr := u64 (c_cur_ptr c + num_entries * entry_size t) |} in
  Val ({| alloc_compact := alloc_compact t; has_free_entry := has_free_entry t;
          entry_size := entry_size t; t_entries := u64 (t_entries t + num_entries); t_capacity := t_capacity t;
          t_size := t_size t; last_chunk := last_chunk t; vec := vec t; heap := <[p := c']> (heap t) |},
       c_cur_ptr c, u64 (c_index c + c_entries c)).

Definition drtable_alloc (t : drtable) (num_entries : Z) (buf : Z) : cres (drtable * Z * Z) :=
  last ← chunk_of t (last_chunk t);
  found ← (if u64 (c_capacity last - c_entries last) <? num_entries
           then if alloc_compact t then find_chunk t num_entries (Z.to_nat (vec_entries t)) else Val None
           else Val (Some (last_chunk t)));
  match found with
  | Some p => take_entries t p num_entries
  | None =>
      r ← drtable_chunk_create t num_entries buf;
      take_entries (with_last (fst r) (snd r)) (snd r) num_entries
  end.

(** ** Iteration *)

Section Iterate.
Context {S : Type} (iter_func : S -> Z -> Z -> S * bool).

(** The loop of [drtable_chunk_iterate]; the flag tells that the callback
    asked to stop. *)
Fixpoint chunk_loop (index entry esize : Z) (n : nat) (s : S) : S * bool :=
  match n with
  | O => (s, false)
  | Datatypes.S n =>
      let '(s, go) := iter_func s index entry in
      if go then chunk_loop (u64 (index + 1)) (u64 (entry + esize)) esize n s else (s, true)
  end.

Definition drtable_chunk_iterate (t : drtable) (c : drtable_chunk) (s : S) : S * bool :=
  chunk_loop (c_index c) (c_base c) (entry_size t) (Z.to_nat (c_entries c)) s.

Fixpoint iterate_from (t : drtable) (i : Z) (n : nat) (s : S) : cres (S * bool) :=
  match n with
  | O => Val (s, false)
  | Datatypes.S n =>
      pc ← vec_chunk t i;
      let '(s, stop) := drtable_chunk_iterate t (snd pc) s in
      if stop then Val (s, true) else iterate_from t (i + 1) n s
  end.

Definition drtable_iterate (t : drtable) (s : S) : cres (S * bool) :=
  iterate_from t 0 (Z.to_nat (vec_entries t)) s.
End Iterate.

(** ** Destruction *)

Inductive free_event :=
| FreeEntry (id entry : Z)       (* free_entry_func(id, entry, user_data) *)
| FreeRegion (base size : Z).    (* dr_raw_mem_free or dr_nonheap_free *)

Definition drtable_chunk_free (t : drtable) (c : drtable_chunk) : list free_event :=
  (if has_free_entry t
   then fst (drtable_chunk_iterate (fun s id entry => (s ++ [FreeEntry id entry], true)) t c [])
   else []) ++ [FreeRegion (c_base c) (c_size c)].

(** [drtable_chunk_free] on each pointer the vector hands over. *)
Fixpoint free_chunks (t : drtable) (ps : list nat) : cres (list free_event) :=
  match ps with
  | [] => Val []
  | p :: ps => c ← chunk_of t p; es ← free_chunks t ps; Val (drtable_chunk_free t c ++ es)
  end.

Definition drtable_destroy (t : drtable) : cres (list free_event) :=
  r ← drvector_delete (vec t); free_chunks t (snd r).

(** ** Look-up *)

Fixpoint lookup_index_loop (t : drtable) (index : Z) (i : nat) : cres (option drtable_chunk) :=
  match i with
  | O => Val None
  | S i =>
      pc ← vec_chunk t (Z.of_nat i);
      let c := snd pc in
      if (c_index c <=? index) && (index <? u64 (c_index c + c_capacity c)) then Val (Some c)
      else lookup_index_loop t index i
  end.

Definition drtable_chunk_lookup_index (t : drtable) (index : Z) : cres (option drtable_chunk) :=
  if t_capacity t <? index then Val None
  else
    c ← chunk_of t (last_chunk t);
    if (c_index c <=? index) && (index <? u64 (c_index c + c_entries c)) then Val (Some c)
    else lookup_index_loop t index (Z.to_nat (vec_entries t)).

Fixpoint lookup_entry_loop (t : drtable) (entry : Z) (i : nat) : cres (option drtable_chunk) :=
  match i with
  | O => Val None
  | S i =>
      pc ← vec_chunk t (Z.of_nat i);
      let c := snd pc in
      if (c_base c <=? entry) && (entry <? c_cur_ptr c) then Val (Some c) else lookup_entry_loop t entry i
  end.

Definition drtable_chunk_lookup_entry (t : drtable) (entry : Z) : cres (option drtable_chunk) :=
  c ← chunk_of t (last_chunk t);
  if (c_base c <=? entry) && (entry <? c_cur_ptr c) then Val (Some c)
  else lookup_entry_loop t entry (Z.to_nat (vec_entries t)).

(** NULL is 0. *)
Definition drtable_get_entry (t : drtable) (index : Z) : cres Z :=
  c ← drtable_chunk_lookup_index t index;
  Val (match c with None => 0 | Some c => u64 (c_base c + index * entry_size t) end).

Definition drtable_get_index (t : drtable) (entry : Z) : cres Z :=
  c ← drtable_chunk_lookup_entry t entry;
  Val (match c with
       | None => DRTABLE_INVALID_INDEX
       | Some c => u64 (c_index c + (entry - c_base c) / entry_size t)
       end).

Definition drtable_num_entries (t : drtable) : Z := t_entries t.

(** ** Dump: the bytes written and the count returned *)

Definition bytes_at (mem : Z -> Z) (a n : Z) : list Z := map (fun i => mem (a + Z.of_nat i)) (seq 0 (Z.to_nat n)).

Fixpoint dump_from (t : drtable) (mem : Z -> Z) (i : Z) (n : nat) : cres (list Z * Z) :=
  match n with
  | O => Val ([], 0)
  | S n =>
      pc ← vec_chunk t i;
      let c := snd pc in
      r ← dump_from t mem (i + 1) n;
      Val (bytes_at mem (c_base c) (u64 (entry_size t * c_entries c)) ++ fst r, u64 (c_entries c + snd r))
  end.

Definition drtable_dump_entries (t : drtable) (mem : Z -> Z) : cres (list Z * Z) :=
  dump_from t mem 0 (Z.to_nat (vec_entries t)).

(** ** Well-formed tables *)

Definition sumZ {A} (f : A -> Z) (l : list A) : Z := foldr (fun a s => f a + s) 0 l.

Lemma sumZ_cons {A} (f : A -> Z) a l : sumZ f (a :: l) = f a + sumZ f l.
Proof. reflexivity. Qed.
Lemma sumZ_app {A} (f : A -> Z) l1 l2 : sumZ f (l1 ++ l2) = sumZ f l1 + sumZ f l2.
Proof. induction l1 as [|a l1 IH]; [done|]. cbn [app]. rewrite !sumZ_cons, IH. lia. Qed.
Lemma sumZ_nonneg {A} (f : A -> Z) l : Forall (fun a => 0 <= f a) l -> 0 <= sumZ f l.
Proof. induction 1; [done|]. rewrite sumZ_cons. lia. Qed.
Lemma sumZ_le {A} (f g : A -> Z) l : Forall (fun a => f a <= g a) l -> sumZ f l <= sumZ g l.
Proof. induction 1; [done|]. rewrite !sumZ_cons. lia. Qed.
Lemma sumZ_insert {A} (f : A -> Z) l i a b : l !! i = Some a -> sumZ f (<[i := b]> l) = sumZ f l - f a + f b.
Proof.
  revert i; induction l as [|x l IH]; intros [|i] E; try done; cbn in E.
  - injection E as ->. change (<[0%nat := b]> (a :: l)) with (b :: l). rewrite !sumZ_cons. lia.
  - change (<[S i := b]> (x :: l)) with (x :: <[i := b]> l). rewrite !sumZ_cons, (IH i E). lia.
Qed.
Lemma sumZ_const {A} k (l : list A) : sumZ (fun _ => k) l = k * Z.of_nat (length l).
Proof. induction l; [cbn; lia|]. rewrite sumZ_cons. cbn [length]. lia. Qed.

(** Each chunk's indices start where the previous chunk's end. *)
Fixpoint laid (start : Z) (cs : list drtable_chunk) : Prop :=
  match cs with
  | [] => True
  | c :: cs => c_index c = start /\ laid (start + c_capacity c) cs
  end.

Record chunk_ok (es : Z) (c : drtable_chunk) : Prop := {
  ok_entries : 0 <= c_entries c <= c_capacity c;
  ok_capacity : c_capacity c = c_size c / es;
  ok_size : PAGE_SIZE <= c_size c;
  ok_base : 0 < c_base c /\ c_base c + c_size c < w64;
  ok_cur : c_cur_ptr c = c_base c + c_entries c * es
}.

Definition apart (a n b m : Z) : Prop := a + n <= b \/ b + m <= a.

Record pre (t : drtable) : Prop := {
  wf_es : 0 < entry_size t < PAGE_SIZE;
  wf_vec : exists v, vec t = Some v /\ represents v (map Some (seq 0 (length (heap t)))) /\ has_free v = true;
  wf_laid : laid 0 (heap t);
  wf_chunks : Forall (chunk_ok (entry_size t)) (heap t);
  wf_apart : forall i j ci cj, heap t !! i = Some ci -> heap t !! j = Some cj -> i <> j ->
             apart (c_base ci) (c_size ci) (c_base cj) (c_size cj);
  wf_capacity : t_capacity t = sumZ c_capacity (heap t);
  wf_entries : t_entries t = sumZ c_entries (heap t);
  wf_size : t_size t = sumZ c_size (heap t) /\ t_size t < w32
}.

(** A table in use: at least one chunk, [last_chunk] being the newest. *)
Record wf (t : drtable) : Prop := {
  wf_pre :> pre t;
  wf_heap : heap t <> [];
  wf_last : last_chunk t = pred (length (heap t))
}.

(** The allocated entries, with their addresses. *)
Definition block (es index base n : Z) : list (Z * Z) := map (fun k => (index + k, base + k * es)) (seqZ 0 n).
Definition chunk_block (es : Z) (c : drtable_chunk) : list (Z * Z) := block es (c_index c) (c_base c) (c_entries c).
Definition entries_of (t : drtable) : list (Z * Z) := concat (map (chunk_block (entry_size t)) (heap t)).

(** What the allocator must give for a region: in the address space and apart
    from the regions in use. *)
Definition fresh (t : drtable) (base size : Z) : Prop :=
  0 < base /\ base + size < w64 /\ Forall (fun c => apart base size (c_base c) (c_size c)) (heap t).

Definition new_size (t : drtable) (n : Z) : Z :=
  align_forward (Z.max (t_size t) (u64 (entry_size t * n))) ALLOC_UNIT_SIZE.

(** A request that fits, and the region offered for it. *)
Definition alloc_ok (t : drtable) (n buf : Z) : Prop :=
  0 <= n /\ entry_size t * n < w32 /\ t_size t + new_size t n < w32 /\ fresh t buf (new_size t n).

(** The tables a client can get to. *)
Inductive reach : drtable -> Prop :=
| reach_create cap es compact frees buf t :
    0 < es < PAGE_SIZE -> 0 <= cap -> Z.max 1 cap * es + 2 * PAGE_SIZE <= w32 -> 0 < buf -> buf + w32 < w64 ->
    drtable_create cap es compact frees buf = Val t -> reach t
| reach_alloc t n buf t' a i :
    reach t -> alloc_ok t n buf -> drtable_alloc t n buf = Val (t', a, i) -> reach t'.

Lemma align_page x : 0 <= x < w64 - 4096 ->
  x <= align_forward x ALLOC_UNIT_SIZE < x + 4096 /\ (x <= 0 \/ 4096 <= align_forward x ALLOC_UNIT_SIZE).
Proof.
  intros. unfold ALLOC_UNIT_SIZE, PAGE_SIZE. change 4096 with (2 ^ 12) at 1 4.
  destruct (align_forward_spec x 12) as [H1 [q H2]]; [lia|lia|lia|]. change (2 ^ 12) with 4096 in *. lia.
Qed.

Lemma laid_app start cs c : laid start (cs ++ [c]) <-> laid start cs /\ c_index c = start + sumZ c_capacity cs.
Proof.
  revert start; induction cs as [|d cs IH]; intros start; cbn [app laid].
  - change (sumZ c_capacity []) with 0. intuition lia.
  - rewrite IH, sumZ_cons. intuition lia.
Qed.

Lemma laid_lookup start cs p c : laid start cs -> cs !! p = Some c -> c_index c = start + sumZ c_capacity (take p cs).
Proof.
  revert start p; induction cs as [|d cs IH]; intros start [|p] HL E; try done; destruct HL as [H1 H2]; cbn in E.
  - injection E as ->. cbn. lia.
  - rewrite (IH _ _ H2 E). cbn [take]. rewrite sumZ_cons. lia.
Qed.

Lemma laid_insert start cs p c c' : laid start cs -> cs !! p = Some c ->
  c_index c' = c_index c -> c_capacity c' = c_capacity c -> laid start (<[p := c']> cs).
Proof.
  revert start p; induction cs as [|d cs IH]; intros start [|p] HL E Hi Hc; try done; destruct HL as [H1 H2]; cbn in E |- *.
  - injection E as ->. rewrite Hi, Hc. done.
  - split; [done|]. by eapply IH.
Qed.

Section Facts.
Context (t : drtable) (W : pre t).

Lemma chunk_facts p c : heap t !! p = Some c -> chunk_ok (entry_size t) c.
Proof using W. intros E. exact (proj1 (Forall_lookup _ _) (wf_chunks t W) p c E). Qed.

Lemma heap_bound : Z.of_nat (length (heap t)) * 4096 <= t_size t.
Proof using W.
  rewrite (proj1 (wf_size t W)). rewrite Z.mul_comm, <- (sumZ_const 4096).
  apply sumZ_le. eapply Forall_impl; [apply W|]. intros c H. apply H.
Qed.

Lemma vec_chunk_spec i c : heap t !! i = Some c -> vec_chunk t (Z.of_nat i) = Val (i, c).
Proof using W.
  intros E. unfold vec_chunk. destruct (wf_vec t W) as (v & -> & R & _). unfold drvector_get_entry.
  pose proof (lookup_lt_Some _ _ _ E) as Hi. pose proof (rep_entries _ _ R) as He.
  rewrite length_map, length_seq in He. rewrite (proj2 (Z.ltb_lt _ _)) by lia.
  rewrite (load_spec v _ _ R) by lia. rewrite Nat2Z.id.
  assert (map (@Some nat) (seq 0 (length (heap t))) !! i = Some (Some i)) as ->.
  { change (map (@Some nat) (seq 0 (length (heap t)))) with (@Some nat <$> seq 0 (length (heap t))).
    rewrite list_lookup_fmap, lookup_seq_lt by done. done. }
  cbn. unfold chunk_of. by rewrite E.
Qed.

Lemma vec_entries_spec : vec_entries t = Z.of_nat (length (heap t)).
Proof using W.
  unfold vec_entries. destruct (wf_vec t W) as (v & -> & R & _). pose proof (rep_entries _ _ R) as He.
  by rewrite length_map, length_seq in He.
Qed.

Lemma capacity_bound c : chunk_ok (entry_size t) c -> 0 <= c_capacity c /\ c_capacity c * entry_size t <= c_size c.
Proof using W.
  intros H. pose proof (wf_es t W). rewrite (ok_capacity _ _ H). pose proof (ok_size _ _ H). unfold PAGE_SIZE in *.
  pose proof (Z.mul_div_le (c_size c) (entry_size t)). pose proof (Z.div_pos (c_size c) (entry_size t)). lia.
Qed.

Lemma total_capacity_bound : t_capacity t * entry_size t <= t_size t.
Proof using W.
  rewrite (wf_capacity t W), (proj1 (wf_size t W)). pose proof (wf_chunks t W) as HF.
  induction HF as [|c cs Hc HF IH]; [done|]. pose proof (capacity_bound c Hc). rewrite !sumZ_cons. lia.
Qed.

Lemma index_bound p c : heap t !! p = Some c -> 0 <= c_index c /\ c_index c + c_capacity c <= t_capacity t.
Proof using W.
  intros E. rewrite (laid_lookup _ _ _ _ (wf_laid t W) E), (wf_capacity t W).
  assert (sumZ c_capacity (heap t) = sumZ c_capacity (take p (heap t)) + (c_capacity c + sumZ c_capacity (drop (S p) (heap t)))) as ->.
  { by rewrite <- sumZ_cons, <- sumZ_app, take_drop_middle. }
  assert (HN : forall l, Forall (chunk_ok (entry_size t)) l -> 0 <= sumZ c_capacity l).
  { intros l HF. apply sumZ_nonneg. eapply Forall_impl; [exact HF|]. intros d Hd. apply capacity_bound, Hd. }
  pose proof (HN _ (Forall_take _ (p) _ (wf_chunks t W))). pose proof (HN _ (Forall_drop _ (S p) _ (wf_chunks t W))). lia.
Qed.

Lemma capacity_small : 0 <= t_capacity t < w32.
Proof using W.
  pose proof total_capacity_bound. pose proof (wf_es t W). pose proof (wf_size t W) as [_ ?].
  assert (0 <= t_capacity t).
  { rewrite (wf_capacity t W). apply sumZ_nonneg. eapply Forall_impl; [apply W|]. intros d Hd. by apply capacity_bound. }
  nia.
Qed.
End Facts.

(** ** A chunk more *)

Lemma pair_snoc {A} (l : list A) a (R : A -> A -> Prop) :
  (forall x y, R x y -> R y x) -> Forall (R a) l ->
  (forall i j x y, l !! i = Some x -> l !! j = Some y -> i <> j -> R x y) ->
  (forall i j x y, (l ++ [a]) !! i = Some x -> (l ++ [a]) !! j = Some y -> i <> j -> R x y).
Proof.
  intros HS HF H i j x y Ei Ej Hn. rewrite Forall_lookup in HF.
  apply lookup_snoc_Some in Ei, Ej. destruct Ei as [[Hi Ei]|[-> <-]], Ej as [[Hj Ej]|[-> <-]]; eauto. done.
Qed.

Lemma create_spec t n buf : pre t -> 0 < Z.max (t_size t) (entry_size t * n) -> entry_size t * n < w32 -> 0 <= n ->
  t_size t + new_size t n < w32 -> fresh t buf (new_size t n) ->
  exists t' c, drtable_chunk_create t n buf = Val (t', length (heap t)) /\ pre t' /\ heap t' = heap t ++ [c] /\
    entry_size t' = entry_size t /\ c_entries c = 0 /\ c_base c = buf /\ n <= c_capacity c /\
    alloc_compact t' = alloc_compact t /\ has_free_entry t' = has_free_entry t.
Proof.
  intros W Hpos Hn Hn0 Hfit (Hb & Hbs & HFr). pose proof (wf_es t W) as Hes.
  pose proof (wf_size t W) as [Hsz Hsz32]. pose proof (heap_bound t W) as Hlen.
  unfold drtable_chunk_create. fold (new_size t n).
  assert (Hreq : u64 (entry_size t * n) = entry_size t * n) by (apply u64_small; nia).
  destruct (align_page (Z.max (t_size t) (u64 (entry_size t * n)))) as [Hge Hmin]; [rewrite Hreq; lia|].
  fold (new_size t n) in Hge, Hmin. rewrite Hreq in *. set (size := new_size t n) in *. clearbody size.
  assert (Hcap : 0 <= size / entry_size t < w32) by (split; [apply Z.div_pos; lia|apply Z.div_lt_upper_bound; nia]).
  rewrite (u32_small (size / entry_size t)) by lia.
  destruct (wf_vec t W) as (v & Ev & R & Hf). rewrite Ev.
  destruct (append_is_set v _ (length (heap t)) R) as (v' & -> & R' & Hf'); [rewrite length_map, length_seq; lia|].
  cbn [mbind cres_bind snd]. pose proof (capacity_small t W). set (c := Build_drtable_chunk _ _ _ _ _ _).
  assert (Hok : chunk_ok (entry_size t) c) by (split; cbn; clear c; try done; unfold PAGE_SIZE; lia).
  eexists _, c. split; [reflexivity|]. split; [|cbn; split_and!; try done].
  - split; cbn [entry_size vec heap t_capacity t_entries t_size].
    + done.
    + exists v'. split; [done|]. split; [|congruence]. rewrite length_app, seq_app, map_app. exact R'.
    + apply laid_app. split; [apply W|]. cbn. rewrite (wf_capacity t W). lia.
    + apply Forall_app; split; [apply W|by apply Forall_singleton].
    + apply (pair_snoc _ _ (fun a b => apart (c_base a) (c_size a) (c_base b) (c_size b))).
      * unfold apart. lia.
      * done.
      * apply W.
    + rewrite sumZ_app, <- (wf_capacity t W). cbn. rewrite u64_small by lia. lia.
    + rewrite sumZ_app, <- (wf_entries t W). cbn. lia.
    + rewrite sumZ_app, <- Hsz. cbn. rewrite u64_small by lia. lia.
  - apply Z.div_le_lower_bound; lia.
Qed.

(** ** Entries more *)

Lemma block_app es i b n m : 0 <= n -> 0 <= m -> block es i b (n + m) = block es i b n ++ block es (i + n) (b + n * es) m.
Proof.
  intros. unfold block. rewrite seqZ_app by lia. rewrite map_app. f_equal. rewrite Z.add_0_l.
  replace (seqZ n m) with (Z.add n <$> seqZ 0 m) by (rewrite fmap_add_seqZ; f_equal; lia).
  unfold fmap. rewrite !map_map. apply map_ext. intros k. f_equal; lia.
Qed.

Lemma concat_insert_app {A B} (f : A -> list B) (l : list A) p c c' extra :
  l !! p = Some c -> f c' = f c ++ extra -> concat (map f (<[p := c']> l)) ≡ₚ concat (map f l) ++ extra.
Proof.
  revert p; induction l as [|a l IH]; intros [|p] E Hf; try done; cbn in E.
  - injection E as ->. cbn. rewrite Hf, <- !app_assoc. by rewrite (Permutation_app_comm extra).
  - change (<[S p := c']> (a :: l)) with (a :: <[p := c']> l). cbn. rewrite (IH p E Hf). by rewrite app_assoc.
Qed.

Lemma take_spec t p c n : pre t -> heap t !! p = Some c -> 0 <= n <= c_capacity c - c_entries c ->
  exists t', take_entries t p n = Val (t', c_base c + c_entries c * entry_size t, c_index c + c_entries c) /\
    pre t' /\ length (heap t') = length (heap t) /\ last_chunk t' = last_chunk t /\ entry_size t' = entry_size t /\
    alloc_compact t' = alloc_compact t /\ has_free_entry t' = has_free_entry t /\
    entries_of t' ≡ₚ entries_of t ++ block (entry_size t) (c_index c + c_entries c) (c_base c + c_entries c * entry_size t) n.
Proof.
  intros W E Hn. pose proof (chunk_facts t W p c E) as Hc. pose proof (capacity_bound t W c Hc) as [_ Hcap].
  pose proof (wf_es t W) as Hes. pose proof (ok_base _ _ Hc) as Hb. pose proof (ok_entries _ _ Hc) as He.
  pose proof (index_bound t W p c E) as Hi. pose proof (capacity_small t W) as Ht.
  assert (Htot : t_entries t + n <= t_capacity t).
  { rewrite (wf_entries t W), (wf_capacity t W).
    set (c2 := {| c_index := c_index c; c_entries := c_entries c + n; c_capacity := c_capacity c;
                  c_size := c_size c; c_base := c_base c; c_cur_ptr := c_cur_ptr c |}).
    assert (sumZ c_entries (<[p := c2]> (heap t)) <= sumZ c_capacity (<[p := c2]> (heap t))) as Hle.
    { apply sumZ_le, Forall_insert; [|cbn; lia]. eapply Forall_impl; [apply W|]. intros d Hd. apply Hd. }
    rewrite !(sumZ_insert _ _ _ _ _ E) in Hle. cbn in Hle. lia. }
  assert (0 <= t_entries t).
  { rewrite (wf_entries t W). apply sumZ_nonneg. eapply Forall_impl; [apply W|]. intros d Hd. apply Hd. }
  unfold take_entries, chunk_of. rewrite E. cbn [cres_of_option mbind cres_bind].
  rewrite (ok_cur _ _ Hc). rewrite !u64_small by nia.
  set (c' := Build_drtable_chunk _ _ _ _ _ _).
  assert (Hok : chunk_ok (entry_size t) c').
  { destruct Hc. split; cbn; clear c'; try done; lia. }
  pose proof (lookup_lt_Some _ _ _ E) as Hp.
  eexists; split; [reflexivity|]. split; [|cbn; split_and!; try done; [by rewrite length_insert|]].
  - split; cbn [entry_size vec heap t_capacity t_entries t_size]; rewrite ?length_insert; try apply W.
    + apply (laid_insert _ _ _ c); [apply W|done|done|done].
    + apply Forall_insert; [apply W|done].
    + intros i j ci cj Ei Ej Hij.
      assert (exists di, heap t !! i = Some di /\ c_base di = c_base ci /\ c_size di = c_size ci) as (di & Edi & Bi & Si).
      { destruct (decide (i = p)) as [->|]; [rewrite list_lookup_insert_eq in Ei by done; injection Ei as <-; by exists c|].
        rewrite list_lookup_insert_ne in Ei by done. by exists ci. }
      assert (exists dj, heap t !! j = Some dj /\ c_base dj = c_base cj /\ c_size dj = c_size cj) as (dj & Edj & Bj & Sj).
      { destruct (decide (j = p)) as [->|]; [rewrite list_lookup_insert_eq in Ej by done; injection Ej as <-; by exists c|].
        rewrite list_lookup_insert_ne in Ej by done. by exists cj. }
      pose proof (wf_apart t W i j di dj Edi Edj Hij). congruence.
    + rewrite (sumZ_insert _ _ _ _ _ E), (wf_capacity t W). cbn. lia.
    + rewrite (sumZ_insert _ _ _ _ _ E), (wf_entries t W). cbn. lia.
    + rewrite (sumZ_insert _ _ _ _ _ E). cbn. pose proof (wf_size t W). lia.
  - unfold entries_of. cbn [heap entry_size]. apply concat_insert_app with (c := c); [done|].
    unfold chunk_block. cbn [c_index c_base c_entries c']. rewrite block_app by lia. done.
Qed.

(** ** Allocation *)

Lemma find_chunk_spec t n i : pre t -> (i <= length (heap t))%nat ->
  exists r, find_chunk t n i = Val r /\
    match r with Some p => exists c, heap t !! p = Some c /\ n <= c_capacity c - c_entries c | None => True end.
Proof.
  intros W. induction i as [|i IH]; intros Hi; [by exists None|]. cbn [find_chunk].
  destruct (heap t !! i) as [c|] eqn:E; [|apply lookup_ge_None_1 in E; lia].
  rewrite (vec_chunk_spec t W i c E). cbn [mbind cres_bind fst snd].
  pose proof (chunk_facts t W i c E) as Hc. pose proof (ok_entries _ _ Hc).
  pose proof (index_bound t W i c E). pose proof (capacity_small t W).
  rewrite u64_small by lia. case_eqn En; [|apply IH; lia]. zbool. exists (Some i). split; [done|]. by exists c.
Qed.

Lemma pre_with_last t p : pre t -> pre (with_last t p).
Proof. intros []. by split. Qed.

Lemma alloc_spec t n buf : wf t -> alloc_ok t n buf ->
  exists t' a i, drtable_alloc t n buf = Val (t', a, i) /\ wf t' /\ entry_size t' = entry_size t /\
    entries_of t' ≡ₚ entries_of t ++ block (entry_size t) i a n.
Proof.
  intros W (Hn & Hsmall & Hfit & Hfr). pose proof (wf_heap t W) as Hne. pose proof (wf_last t W) as Hl.
  assert (0 < length (heap t))%nat as Hlen by (destruct (heap t); [done|cbn; lia]).
  destruct (heap t !! last_chunk t) as [l|] eqn:E; [|apply lookup_ge_None_1 in E; lia].
  pose proof (chunk_facts t W _ l E) as Hc. pose proof (ok_entries _ _ Hc).
  pose proof (index_bound t W _ l E). pose proof (capacity_small t W).
  unfold drtable_alloc, chunk_of. rewrite E. cbn [cres_of_option mbind cres_bind]. rewrite u64_small by lia.
  assert (exists r, (if c_capacity l - c_entries l <? n
           then if alloc_compact t then find_chunk t n (Z.to_nat (vec_entries t)) else Val None
           else Val (Some (last_chunk t))) = Val r /\
       match r with Some p => exists c, heap t !! p = Some c /\ n <= c_capacity c - c_entries c | None => 0 < n end)
    as (r & -> & Hr).
  { case_eqn En; zbool; [|exists (Some (last_chunk t)); split; [done|exists l; split; [done|lia]]].
    destruct (alloc_compact t); [|exists None; split; [done|lia]].
    destruct (find_chunk_spec t n (Z.to_nat (vec_entries t)) W) as (r & -> & Hr); [rewrite vec_entries_spec by apply W; lia|].
    exists r. split; [done|]. destruct r; [done|lia]. }
  cbn [mbind cres_bind]. destruct r as [p|].
  - destruct Hr as (c & Ec & Hroom).
    destruct (take_spec t p c n W Ec) as (t' & -> & W' & HL & Hlast & Hes & _ & _ & HP); [lia|].
    eexists t', _, _. split; [done|]. split_and!; [|done|done].
    split; [done|intros E0; rewrite E0 in HL; cbn in HL; lia|congruence].
  - pose proof (wf_es t W).
    destruct (create_spec t n buf W) as (t1 & c & -> & W1 & Hh & Hes1 & He0 & Hb & Hcap & _ & _); [nia|done|lia|done|done|].
    cbn [mbind cres_bind fst snd].
    assert (Ec : heap (with_last t1 (length (heap t))) !! length (heap t) = Some c).
    { cbn. rewrite Hh. by rewrite lookup_app_r, Nat.sub_diag by lia. }
    destruct (take_spec _ _ c n (pre_with_last t1 _ W1) Ec) as (t' & -> & W' & HL & Hlast & Hes & _ & _ & HP); [lia|].
    cbn [heap with_last last_chunk entry_size] in *. rewrite Hh, length_app in HL. cbn [length] in HL.
    eexists t', _, _. split; [done|]. split_and!; [|congruence|].
    + split; [done|intros E0; rewrite E0 in HL; cbn in HL; lia|]. rewrite Hlast. lia.
    + rewrite HP, Hes1. unfold entries_of at 1. cbn [heap with_last entry_size]. rewrite Hh, Hes1, map_app, concat_app.
      cbn [map concat]. unfold chunk_block at 2. rewrite He0. cbn [block]. by rewrite app_nil_r.
Qed.

(** ** Reachable tables *)

Lemma create_wf cap es compact frees buf :
  0 < es < PAGE_SIZE -> 0 <= cap -> Z.max 1 cap * es + 2 * PAGE_SIZE <= w32 -> 0 < buf -> buf + w32 < w64 ->
  exists t, drtable_create cap es compact frees buf = Val t /\ wf t /\ entries_of t = [] /\ entry_size t = es.
Proof.
  intros Hes Hc Hm Hb Hb2. unfold drtable_create.
  assert ((if 0 <? cap then cap else 1) = Z.max 1 cap) as -> by (case_eqn E; zbool; lia).
  unfold PAGE_SIZE in Hm. rewrite u64_small by nia. destruct (align_page (Z.max 1 cap * es)) as [Hs Hs2]; [lia|].
  set (size := align_forward (Z.max 1 cap * es) ALLOC_UNIT_SIZE) in *. clearbody size. unfold PAGE_SIZE in *.
  pose proof (Z.mul_div_le size es ltac:(lia)) as Hdiv. pose proof (Z.div_pos size es ltac:(lia) ltac:(lia)) as Hdiv0.
  assert (1 <= size / es) as Hdiv1 by (apply Z.div_le_lower_bound; lia).
  set (t0 := {| alloc_compact := compact; has_free_entry := frees; entry_size := es; t_entries := 0; t_capacity := 0;
                t_size := 0; last_chunk := 0; vec := snd (drvector_init true 2 true); heap := [] |}).
  assert (W0 : pre t0).
  { split; cbn; try done; try (unfold PAGE_SIZE; lia).
    destruct (init_spec (T := nat) 2 true) as (v & E & R & Hf & _); [lia|]. exists v. cbn in E. injection E as <-.
    split_and!; [done|exact R|done]. }
  assert (Hnew : new_size t0 (size / es) <= size + 4095 /\ size / es * es <= new_size t0 (size / es)).
  { unfold new_size. cbn [t_size entry_size t0]. rewrite u64_small by nia.
    destruct (align_page (Z.max 0 (es * (size / es)))) as [? _]; [lia|]. lia. }
  destruct (create_spec t0 (size / es) buf W0) as (t1 & c & E1 & W1 & Hh & Hes1 & He0 & _); cbn [t_size entry_size t0 heap] in *.
  - lia.
  - lia.
  - lia.
  - lia.
  - split; [done|]. split; [lia|apply Forall_nil_2].
  - rewrite E1. cbn [mbind cres_bind fst snd length]. eexists; split; [done|]. split_and!; [|..].
    + split; [by apply pre_with_last|cbn; by rewrite Hh|cbn; by rewrite Hh].
    + unfold entries_of. cbn [heap with_last]. rewrite Hh. cbn. unfold chunk_block. by rewrite He0.
    + done.
Qed.

Lemma reach_wf t : reach t -> wf t.
Proof.
  induction 1 as [cap es compact frees buf t H1 H2 H3 H4 H5 E|t n buf t' a i R W Hok E].
  - destruct (create_wf cap es compact frees buf) as (t' & E' & W & _); try done. congruence.
  - destruct (alloc_spec t n buf W Hok) as (t2 & a2 & i2 & E2 & W2 & _). congruence.
Qed.

(** ** Indices and addresses *)

Lemma elem_of_block es i b n x : x ∈ block es i b n <-> exists k, 0 <= k < n /\ x = (i + k, b + k * es).
Proof.
  unfold block. rewrite list_elem_of_fmap. setoid_rewrite elem_of_seqZ. split; intros (k & H1 & H2); exists k; split; (done || lia).
Qed.

Lemma elem_of_entries t x : x ∈ entries_of t <->
  exists p c k, heap t !! p = Some c /\ 0 <= k < c_entries c /\ x = (c_index c + k, c_base c + k * entry_size t).
Proof.
  unfold entries_of. split.
  - intros H. apply list_elem_of_In, in_concat in H as (l & Hl & Hx). apply in_map_iff in Hl as (c & <- & Hc).
    apply list_elem_of_In, list_elem_of_lookup_1 in Hc as [p Hp]. apply list_elem_of_In, elem_of_block in Hx as (k & Hk & ->).
    by exists p, c, k.
  - intros (p & c & k & Hp & Hk & ->). apply list_elem_of_In, in_concat. exists (chunk_block (entry_size t) c). split.
    + apply in_map. apply list_elem_of_In. by eapply list_elem_of_lookup_2.
    + apply list_elem_of_In, elem_of_block. by exists k.
Qed.

Lemma block_indices es i b n : map fst (block es i b n) = seqZ i n.
Proof.
  unfold block. rewrite map_map. cbn. replace (seqZ i n) with (Z.add i <$> seqZ 0 n); [done|].
  rewrite fmap_add_seqZ. f_equal. lia.
Qed.

Lemma incr_laid es start cs : Forall (chunk_ok es) cs -> laid start cs ->
  incr (map fst (concat (map (chunk_block es) cs))) = true /\
  forall x, x ∈ map fst (concat (map (chunk_block es) cs)) -> start <= x.
Proof.
  intros HF. revert start. induction HF as [|c cs Hc HF IH]; intros start HL.
  - split; [done|]. intros x Hx. by apply elem_of_nil in Hx.
  - destruct HL as [Hi HL]. destruct (IH _ HL) as [I1 I2]. cbn [map concat]. rewrite map_app.
    pose proof (ok_entries _ _ Hc). unfold chunk_block at 1 3. rewrite block_indices. split.
    + apply incr_app. split_and!; [apply incr_seqZ|done|]. intros x y Hx Hy. apply elem_of_seqZ in Hx. apply I2 in Hy. lia.
    + intros x Hx. apply elem_of_app in Hx as [Hx|Hx]; [apply elem_of_seqZ in Hx; lia|apply I2 in Hx; lia].
Qed.

Lemma entries_addresses t x y : pre t -> x ∈ entries_of t -> y ∈ entries_of t -> x <> y ->
  apart (snd x) (entry_size t) (snd y) (entry_size t).
Proof.
  intros W Hx Hy Hn. apply elem_of_entries in Hx as (p & c & k & Hp & Hk & ->).
  apply elem_of_entries in Hy as (q & d & j & Hq & Hj & ->). cbn [snd]. pose proof (wf_es t W). unfold apart.
  destruct (decide (p = q)) as [->|Hpq].
  - assert (d = c) as -> by congruence. assert (k <> j) by congruence. nia.
  - pose proof (wf_apart t W p q c d Hp Hq Hpq) as HA. unfold apart in HA.
    pose proof (chunk_facts t W _ _ Hp) as Hc. pose proof (chunk_facts t W _ _ Hq) as Hd.
    pose proof (capacity_bound t W c Hc). pose proof (capacity_bound t W d Hd).
    pose proof (ok_entries _ _ Hc). pose proof (ok_entries _ _ Hd). nia.
Qed.

Lemma length_entries_of t : pre t -> t_entries t = Z.of_nat (length (entries_of t)).
Proof.
  intros W. rewrite (wf_entries t W). unfold entries_of. pose proof (wf_chunks t W) as HF.
  induction HF as [|c cs Hc HF IH]; [done|]. cbn [map concat]. rewrite sumZ_cons, IH, length_app.
  unfold chunk_block, block. rewrite length_map, length_seqZ. pose proof (ok_entries _ _ Hc). lia.
Qed.

(** ** Look-up *)

Lemma lookup_entry_loop_spec t e p c i : pre t -> heap t !! p = Some c -> (p < i <= length (heap t))%nat ->
  (c_base c <=? e) && (e <? c_cur_ptr c) = true -> lookup_entry_loop t e i = Val (Some c).
Proof.
  intros W Hp Hi Hin. induction i as [|i IH]; [lia|]. cbn [lookup_entry_loop].
  destruct (heap t !! i) as [d|] eqn:E; [|apply lookup_ge_None_1 in E; lia].
  rewrite (vec_chunk_spec t W i d E). cbn [mbind cres_bind snd].
  case_eqn Ed; [|destruct (decide (p = i)) as [->|]; [assert (d = c) as -> by congruence; congruence|apply IH; lia]].
  destruct (decide (p = i)) as [->|Hne]; [do 2 f_equal; congruence|].
  pose proof (wf_apart t W p i c d Hp E Hne) as HA. unfold apart in HA. zbool.
  pose proof (chunk_facts t W _ _ Hp) as Hc. pose proof (chunk_facts t W _ _ E) as Hd. rewrite (ok_cur _ _ Hc), (ok_cur _ _ Hd) in *.
  pose proof (capacity_bound t W c Hc). pose proof (capacity_bound t W d Hd).
  pose proof (ok_entries _ _ Hc). pose proof (ok_entries _ _ Hd). pose proof (wf_es t W). nia.
Qed.

Lemma laid_disjoint t p q c d : pre t -> heap t !! p = Some c -> heap t !! q = Some d -> (p < q)%nat ->
  c_index c + c_capacity c <= c_index d.
Proof.
  intros W Hp Hq Hpq. rewrite (laid_lookup _ _ _ _ (wf_laid t W) Hp), (laid_lookup _ _ _ _ (wf_laid t W) Hq).
  assert (take q (heap t) = take p (heap t) ++ c :: drop (S p) (take q (heap t))) as ->.
  { rewrite <- (take_drop_middle (take q (heap t)) p c) at 1 by (by rewrite lookup_take_lt).
    by rewrite take_take, Nat.min_l by lia. }
  rewrite sumZ_app, sumZ_cons.
  assert (0 <= sumZ c_capacity (drop (S p) (take q (heap t)))); [|lia].
  apply sumZ_nonneg. apply Forall_drop, Forall_take. eapply Forall_impl; [apply W|]. intros x Hx. by apply (capacity_bound t W).
Qed.

Lemma lookup_index_loop_spec t x p c i : pre t -> heap t !! p = Some c -> (p < i <= length (heap t))%nat ->
  c_index c <= x < c_index c + c_capacity c -> lookup_index_loop t x i = Val (Some c).
Proof.
  intros W Hp Hi Hin. induction i as [|i IH]; [lia|]. cbn [lookup_index_loop].
  destruct (heap t !! i) as [d|] eqn:E; [|apply lookup_ge_None_1 in E; lia].
  rewrite (vec_chunk_spec t W i d E). cbn [mbind cres_bind snd].
  pose proof (index_bound t W i d E). pose proof (capacity_small t W). pose proof (chunk_facts t W _ _ E) as Hd.
  pose proof (ok_entries _ _ Hd). rewrite u64_small by lia.
  destruct (decide (p = i)) as [->|Hne].
  - assert (d = c) as -> by congruence.
    by rewrite (proj2 (Z.leb_le _ _)), (proj2 (Z.ltb_lt _ _)) by lia.
  - pose proof (laid_disjoint t p i c d W Hp E ltac:(lia)). rewrite (proj2 (Z.leb_gt _ _)) by lia. apply IH. lia.
Qed.

Lemma get_index_spec t i a : wf t -> (i, a) ∈ entries_of t -> drtable_get_index t a = Val i.
Proof.
  intros W Hin. apply elem_of_entries in Hin as (p & c & k & Hp & Hk & [= -> ->]).
  pose proof (wf_es t W). pose proof (chunk_facts t W _ _ Hp) as Hc. pose proof (wf_heap t W) as Hne. pose proof (wf_last t W) as Hl.
  assert (Hcur : (c_base c <=? c_base c + k * entry_size t) && (c_base c + k * entry_size t <? c_cur_ptr c) = true).
  { rewrite (ok_cur _ _ Hc). rewrite (proj2 (Z.leb_le _ _)), (proj2 (Z.ltb_lt _ _)) by nia. done. }
  assert (drtable_chunk_lookup_entry t (c_base c + k * entry_size t) = Val (Some c)) as HL.
  { pose proof (lookup_lt_Some _ _ _ Hp). unfold drtable_chunk_lookup_entry, chunk_of.
    pose proof (lookup_entry_loop_spec t (c_base c + k * entry_size t) p c) as Hloop.
    destruct (heap t !! last_chunk t) as [l|] eqn:E; [|apply lookup_ge_None_1 in E; lia].
    cbn [cres_of_option mbind cres_bind]. case_eqn El.
    - rewrite <- (Hloop (S (last_chunk t)) W Hp) by (done || lia). cbn [lookup_entry_loop].
      rewrite (vec_chunk_spec t W _ l E). cbn. by rewrite El.
    - apply Hloop; [apply W|done|rewrite vec_entries_spec by apply W; lia|done]. }
  unfold drtable_get_index. rewrite HL. cbn [mbind cres_bind]. f_equal.
  replace (c_base c + k * entry_size t - c_base c) with (k * entry_size t) by lia. rewrite Z.div_mul by lia.
  pose proof (index_bound t W p c Hp). pose proof (capacity_small t W). pose proof (ok_entries _ _ Hc). apply u64_small. lia.
Qed.

Lemma lookup_index_spec t p c x : wf t -> heap t !! p = Some c -> c_index c <= x < c_index c + c_entries c ->
  drtable_chunk_lookup_index t x = Val (Some c).
Proof.
  intros W Hp Hx. pose proof (chunk_facts t W _ _ Hp) as Hc. pose proof (wf_heap t W) as Hne. pose proof (wf_last t W) as Hl.
  pose proof (lookup_lt_Some _ _ _ Hp). pose proof (index_bound t W p c Hp). pose proof (capacity_small t W).
  pose proof (ok_entries _ _ Hc). unfold drtable_chunk_lookup_index, chunk_of.
  rewrite (proj2 (Z.ltb_ge _ _)) by lia.
  destruct (heap t !! last_chunk t) as [l|] eqn:E; [|apply lookup_ge_None_1 in E; lia].
  cbn [cres_of_option mbind cres_bind]. pose proof (index_bound t W _ l E). pose proof (chunk_facts t W _ _ E) as Hlk.
  pose proof (ok_entries _ _ Hlk). rewrite u64_small by lia. case_eqn El.
  - zbool. destruct (decide (p = last_chunk t)) as [->|]; [congruence|].
    pose proof (laid_disjoint t p _ c l W Hp E ltac:(lia)). lia.
  - eapply lookup_index_loop_spec; [apply W|done|rewrite vec_entries_spec by apply W; lia|lia].
Qed.

(** ** Traversals *)

Section Visit.
Context {S : Type} (f : S -> Z -> Z -> S * bool).

Fixpoint visit (s : S) (l : list (Z * Z)) : S * bool :=
  match l with
  | [] => (s, false)
  | (i, a) :: l => let '(s, go) := f s i a in if go then visit s l else (s, true)
  end.

Lemma visit_app s l1 l2 : visit s (l1 ++ l2) = (let '(s1, stop) := visit s l1 in if stop then (s1, true) else visit s1 l2).
Proof using.
  revert s; induction l1 as [|[i a] l1 IH]; intros s; cbn; [done|]. destruct (f s i a) as [s1 []]; [apply IH|done].
Qed.

Lemma block_succ es i a n : block es i a (Z.of_nat (Datatypes.S n)) = (i, a) :: block es (i + 1) (a + es) (Z.of_nat n).
Proof using.
  replace (Z.of_nat (Datatypes.S n)) with (1 + Z.of_nat n) by lia. rewrite block_app by lia.
  cbn [app]. replace (a + 1 * es) with (a + es) by lia. change (block es i a 1) with [(i + 0, a + 0)]. by rewrite !Z.add_0_r.
Qed.

Lemma chunk_loop_spec es n : forall i a s, 0 <= es -> 0 <= i -> i + Z.of_nat n < w64 -> 0 <= a -> a + Z.of_nat n * es < w64 ->
  chunk_loop f i a es n s = visit s (block es i a (Z.of_nat n)).
Proof using.
  induction n as [|n IH]; intros i a s He Hi Hin Ha Han; [done|]. rewrite block_succ. cbn [chunk_loop visit].
  destruct (f s i a) as [s1 []]; [|done]. rewrite !u64_small by lia. apply IH; lia.
Qed.

Lemma chunk_iterate_spec t c s p : pre t -> heap t !! p = Some c ->
  drtable_chunk_iterate f t c s = visit s (chunk_block (entry_size t) c).
Proof using.
  intros W E. unfold drtable_chunk_iterate. pose proof (chunk_facts t W p c E) as Hc. pose proof (wf_es t W).
  pose proof (ok_entries _ _ Hc). pose proof (ok_base _ _ Hc). pose proof (capacity_bound t W c Hc).
  pose proof (index_bound t W p c E). pose proof (capacity_small t W).
  rewrite chunk_loop_spec by nia. unfold chunk_block. by rewrite Z2Nat.id by lia.
Qed.

Lemma iterate_from_spec t n : forall i s, pre t -> (i + n)%nat = length (heap t) ->
  iterate_from f t (Z.of_nat i) n s = Val (visit s (concat (map (chunk_block (entry_size t)) (drop i (heap t))))).
Proof using.
  induction n as [|n IH]; intros i s W Hi; cbn [iterate_from].
  - by rewrite drop_ge by lia.
  - destruct (heap t !! i) as [c|] eqn:E; [|apply lookup_ge_None_1 in E; lia].
    rewrite (vec_chunk_spec t W i c E). cbn [mbind cres_bind snd]. rewrite (chunk_iterate_spec t c s i W E).
    rewrite (drop_S _ _ _ E). cbn [map concat]. rewrite visit_app. destruct (visit s _) as [s1 []]; [done|].
    replace (Z.of_nat i + 1) with (Z.of_nat (Datatypes.S i)) by lia. apply IH; [done|lia].
Qed.

Lemma iterate_spec t s : wf t -> drtable_iterate f t s = Val (visit s (entries_of t)).
Proof using.
  intros W. unfold drtable_iterate. rewrite vec_entries_spec by apply W. rewrite Nat2Z.id.
  apply (iterate_from_spec t _ 0 s); [apply W|done].
Qed.
End Visit.

Lemma visit_collect l acc :
  visit (fun s id entry => (s ++ [FreeEntry id entry], true)) acc l = (acc ++ map (fun x => FreeEntry (fst x) (snd x)) l, false).
Proof.
  revert acc; induction l as [|[i a] l IH]; intros acc; cbn; [by rewrite app_nil_r|]. by rewrite IH, <- app_assoc.
Qed.

(** What destroying a table does, chunk by chunk. *)
Definition destroy_events (t : drtable) : list free_event :=
  concat (map (fun c => (if has_free_entry t then map (fun x => FreeEntry (fst x) (snd x)) (chunk_block (entry_size t) c) else [])
                        ++ [FreeRegion (c_base c) (c_size c)]) (heap t)).

Lemma all_written_some {A} (l : list A) : all_written (map Some l) = Some l.
Proof. induction l as [|a l IH]; [done|]. cbn. by rewrite IH. Qed.

Lemma free_chunks_spec t n : forall i, pre t -> (i + n)%nat = length (heap t) ->
  free_chunks t (seq i n) =
  Val (concat (map (fun c => (if has_free_entry t then map (fun x => FreeEntry (fst x) (snd x)) (chunk_block (entry_size t) c) else [])
                        ++ [FreeRegion (c_base c) (c_size c)]) (drop i (heap t)))).
Proof.
  induction n as [|n IH]; intros i W Hi; cbn [seq free_chunks].
  - by rewrite drop_ge by lia.
  - destruct (heap t !! i) as [c|] eqn:E; [|apply lookup_ge_None_1 in E; lia].
    unfold chunk_of. rewrite E. cbn [cres_of_option mbind cres_bind]. rewrite IH by (done || lia). cbn [mbind cres_bind].
    rewrite (drop_S _ _ _ E). cbn [map concat]. do 2 f_equal. unfold drtable_chunk_free.
    rewrite (chunk_iterate_spec _ t c [] i W E), visit_collect. done.
Qed.

Lemma destroy_spec t : wf t -> drtable_destroy t = Val (destroy_events t).
Proof.
  intros W. unfold drtable_destroy. destruct (wf_vec t W) as (v & -> & R & Hf).
  destruct (delete_spec v _ R) as (v' & -> & _). rewrite Hf, all_written_some. cbn [cres_of_option mbind cres_bind snd].
  by rewrite (free_chunks_spec t _ 0 W).
Qed.

Lemma bytes_at_block mem es i a n : 0 <= es ->
  bytes_at mem a (Z.of_nat n * es) = concat (map (fun x => bytes_at mem (snd x) es) (block es i a (Z.of_nat n))).
Proof.
  intros He. revert i a; induction n as [|n IH]; intros i a; [done|]. rewrite block_succ. cbn [map concat snd].
  rewrite <- IH. unfold bytes_at. replace (Z.to_nat (Z.of_nat (S n) * es)) with (Z.to_nat es + Z.to_nat (Z.of_nat n * es))%nat by lia.
  rewrite seq_app, map_app. f_equal. rewrite Nat.add_0_l, <- (Nat.add_0_r (Z.to_nat es)).
  rewrite <- (fmap_add_seq (Z.to_nat es) 0). unfold fmap. rewrite map_map. apply map_ext. intros k. f_equal. lia.
Qed.

Lemma dump_from_spec t mem n : forall i, pre t -> (i + n)%nat = length (heap t) ->
  dump_from t mem (Z.of_nat i) n =
  Val (concat (map (fun x => bytes_at mem (snd x) (entry_size t)) (concat (map (chunk_block (entry_size t)) (drop i (heap t))))),
       sumZ c_entries (drop i (heap t))) /\
  sumZ c_entries (drop i (heap t)) <= sumZ c_entries (heap t).
Proof.
  intros i W. revert i; induction n as [|n IH]; intros i Hi; cbn [dump_from].
  - rewrite drop_ge by lia. split; [done|]. apply sumZ_nonneg. eapply Forall_impl; [apply W|]. intros d Hd. apply Hd.
  - destruct (heap t !! i) as [c|] eqn:E; [|apply lookup_ge_None_1 in E; lia].
    destruct (IH (S i) ltac:(lia)) as [IH1 _].
    assert (HS : sumZ c_entries (drop i (heap t)) <= sumZ c_entries (heap t)).
    { rewrite <- (take_drop i (heap t)) at 2. rewrite sumZ_app.
      assert (0 <= sumZ c_entries (take i (heap t))); [|lia].
      apply sumZ_nonneg, Forall_take. eapply Forall_impl; [apply W|]. intros d Hd. apply Hd. }
    split; [|done]. rewrite (vec_chunk_spec t W i c E). cbn [mbind cres_bind snd].
    replace (Z.of_nat i + 1) with (Z.of_nat (S i)) by lia. rewrite IH1. cbn [mbind cres_bind fst snd].
    pose proof (chunk_facts t W i c E) as Hc. pose proof (ok_entries _ _ Hc). pose proof (capacity_bound t W c Hc).
    pose proof (wf_es t W). pose proof (ok_base _ _ Hc). pose proof (capacity_small t W).
    assert (sumZ c_entries (heap t) <= t_capacity t).
    { rewrite (wf_capacity t W). apply sumZ_le. eapply Forall_impl; [apply W|]. intros d Hd. apply Hd. }
    rewrite (drop_S _ _ _ E) in *. rewrite sumZ_cons in *.
    assert (0 <= sumZ c_entries (drop (S i) (heap t))).
    { apply sumZ_nonneg, Forall_drop. eapply Forall_impl; [apply W|]. intros d Hd. apply Hd. }
    rewrite !u64_small by nia. cbn [map concat]. rewrite map_app, concat_app. do 3 f_equal.
    unfold chunk_block. rewrite <- (Z2Nat.id (c_entries c)) by lia. rewrite <- bytes_at_block by lia. f_equal. lia.
Qed.

Lemma dump_spec t mem : wf t -> drtable_dump_entries t mem =
  Val (concat (map (fun x => bytes_at mem (snd x) (entry_size t)) (entries_of t)), drtable_num_entries t).
Proof.
  intros W. unfold drtable_dump_entries, drtable_num_entries. rewrite vec_entries_spec by apply W. rewrite Nat2Z.id.
  rewrite (wf_entries t W). exact (proj1 (dump_from_spec t mem _ 0 W eq_refl)).
Qed.

(** ** Main results *)

(** C39. Allocation from any table a client can reach succeeds and hands out
    new entries: the allocated entries afterwards are the old ones and
    [n] more with consecutive indices and addresses; no index is given twice,
    no two entries overlap, [drtable_get_index] maps every entry back to its
    index, and [drtable_num_entries] counts them. *)
Theorem alloc_distinct (t : drtable) (n buf : Z) :
  reach t -> alloc_ok t n buf ->
  exists t' a i, drtable_alloc t n buf = Val (t', a, i) /\
    entries_of t' ≡ₚ entries_of t ++ block (entry_size t) i a n /\
    NoDup (map fst (entries_of t')) /\
    (forall x y, x ∈ entries_of t' -> y ∈ entries_of t' -> x <> y ->
       apart (snd x) (entry_size t') (snd y) (entry_size t')) /\
    (forall j b, (j, b) ∈ entries_of t' -> drtable_get_index t' b = Val j) /\
    drtable_num_entries t' = Z.of_nat (length (entries_of t')).
Proof.
  intros R Hok. pose proof (reach_wf t R) as W. destruct (alloc_spec t n buf W Hok) as (t' & a & i & E & W' & Hes & HP).
  exists t', a, i. split_and!; [done|done| | |intros j b Hin; by apply get_index_spec|apply length_entries_of, W'].
  - apply incr_NoDup. eapply (incr_laid _ 0); apply W'.
  - intros x y. apply entries_addresses, W'.
Qed.

(** [drtable_get_entry] of an allocated index is right only for entries
    of the first chunk: further on it answers an address too high by the
    index at which the entry's chunk starts, in entries, because the index is
    not made relative to the chunk. *)
Theorem get_entry_first_chunk_only (t : drtable) (i a : Z) :
  reach t -> (i, a) ∈ entries_of t ->
  (exists c, c ∈ heap t /\ c_index c <= i < c_index c + c_entries c /\
     drtable_get_entry t i = Val (u64 (a + c_index c * entry_size t))) /\
  exists first, heap t !! 0%nat = Some first /\ (drtable_get_entry t i = Val a <-> i < c_capacity first).
Proof.
  intros R Hin. pose proof (reach_wf t R) as W. apply elem_of_entries in Hin as (p & c & k & Hp & Hk & [= -> ->]).
  assert (HG : drtable_get_entry t (c_index c + k) = Val (u64 (c_base c + k * entry_size t + c_index c * entry_size t))).
  { unfold drtable_get_entry. rewrite (lookup_index_spec t p c) by (done || lia). cbn [mbind cres_bind]. do 2 f_equal. lia. }
  split; [exists c; split_and!; [by eapply list_elem_of_lookup_2|lia|lia|exact HG]|].
  destruct (heap t !! 0%nat) as [f|] eqn:E0; [|apply lookup_ge_None_1 in E0; apply lookup_lt_Some in Hp; lia].
  exists f. split; [done|]. rewrite HG.
  pose proof (wf_es t W). pose proof (chunk_facts t W _ _ Hp) as Hc. pose proof (ok_entries _ _ Hc). pose proof (ok_base _ _ Hc).
  pose proof (capacity_bound t W c Hc). pose proof (index_bound t W p c Hp). pose proof (total_capacity_bound t W).
  pose proof (wf_size t W) as [_ Hsz].
  assert (Hf0 : c_index f = 0) by exact (laid_lookup _ _ _ _ (wf_laid t W) E0).
  assert (c_base c + k * entry_size t < w64 /\ 0 <= c_index c * entry_size t < w32) as [Hb Hoff] by nia.
  destruct (decide (p = 0%nat)) as [->|Hne].
  - assert (c = f) as -> by congruence. rewrite Hf0. split; [intros _; lia|]. intros _. rewrite u64_small by nia. f_equal. lia.
  - pose proof (laid_disjoint t 0 p f c W E0 Hp ltac:(lia)) as HD.
    pose proof (chunk_facts t W _ _ E0) as Hcf. pose proof (ok_capacity _ _ Hcf) as Hcap. pose proof (ok_size _ _ Hcf).
    assert (0 < c_capacity f) by (rewrite Hcap; apply Z.div_str_pos; lia).
    split; [|lia]. intros [= HE]. exfalso.
    unfold u64 in HE. pose proof (Z.div_mod (c_base c + k * entry_size t + c_index c * entry_size t) w64 ltac:(lia)). nia.
Qed.

(** The traversals of a reachable table see exactly its allocated
    entries, in increasing order of index: iteration calls the callback on
    each until it asks to stop, a dump writes the bytes of each and returns
    their number, and destruction frees each entry once and each region once,
    after its entries. *)
Theorem traversals {S} (t : drtable) (f : S -> Z -> Z -> S * bool) (s : S) (mem : Z -> Z) :
  reach t ->
  incr (map fst (entries_of t)) = true /\
  drtable_iterate f t s = Val (visit f s (entries_of t)) /\
  drtable_dump_entries t mem =
    Val (concat (map (fun x => bytes_at mem (snd x) (entry_size t)) (entries_of t)), Z.of_nat (length (entries_of t))) /\
  drtable_destroy t = Val (destroy_events t).
Proof.
  intros R. pose proof (reach_wf t R) as W. split_and!.
  - eapply (incr_laid _ 0); apply W.
  - by apply iterate_spec.
  - rewrite dump_spec by done. unfold drtable_num_entries. by rewrite length_entries_of by apply W.
  - by apply destroy_spec.
Qed.

(** A table of 16-byte entries: 200 entries fill most of the first page, the
    next 100 open a second chunk. *)
Definition get {A} (d : A) (r : cres A) : A := match r with Val a => a | Undef => d end.
Definition no_table : drtable := {| alloc_compact := false; has_free_entry := false; entry_size := 1; t_entries := 0;
  t_capacity := 0; t_size := 0; last_chunk := 0; vec := None; heap := [] |}.
Definition demo0 : drtable := Eval vm_compute in get no_table (drtable_create 10 16 false true 65536).
Definition demo1 : drtable := Eval vm_compute in fst (fst (get (no_table, 0, 0) (drtable_alloc demo0 200 131072))).
Definition demo2 : drtable := Eval vm_compute in fst (fst (get (no_table, 0, 0) (drtable_alloc demo1 100 131072))).

Lemma demo_ok0 : alloc_ok demo0 200 131072.
Proof.
  split_and!; [done|done|done|]. unfold fresh. split_and!; [done|done|]. apply Forall_singleton. unfold apart. right. done.
Qed.
Lemma demo_ok1 : alloc_ok demo1 100 131072.
Proof.
  split_and!; [done|done|done|]. unfold fresh. split_and!; [done|done|]. apply Forall_singleton. unfold apart. right. done.
Qed.

Lemma demo_reach1 : reach demo1.
Proof.
  eapply (reach_alloc demo0 200 131072); [|apply demo_ok0|vm_compute; reflexivity].
  eapply (reach_create 10 16 false true 65536); (vm_compute; (reflexivity || (split; reflexivity) || congruence)).
Qed.
Lemma demo_reach2 : reach demo2.
Proof. eapply (reach_alloc demo1 100 131072); [apply demo_reach1|apply demo_ok1|vm_compute; reflexivity]. Qed.

Lemma alloc_distinct_witness :
  reach demo1 /\ alloc_ok demo1 100 131072 /\
  exists t' a i, drtable_alloc demo1 100 131072 = Val (t', a, i) /\
    entries_of t' ≡ₚ entries_of demo1 ++ block 16 i a 100 /\
    NoDup (map fst (entries_of t')) /\
    (forall x y, x ∈ entries_of t' -> y ∈ entries_of t' -> x <> y ->
       apart (snd x) (entry_size t') (snd y) (entry_size t')) /\
    (forall j b, (j, b) ∈ entries_of t' -> drtable_get_index t' b = Val j) /\
    drtable_num_entries t' = Z.of_nat (length (entries_of t')).
Proof.
  split; [exact demo_reach1|]. split; [exact demo_ok1|].
  exact (alloc_distinct demo1 100 131072 demo_reach1 demo_ok1).
Defined.

Lemma demo_entry : (256, 131072) ∈ entries_of demo2.
Proof. apply elem_of_entries. exists 1%nat. eexists. exists 0. split; [vm_compute; reflexivity|]. by vm_compute. Qed.

(** Entry 256 is at 0x20000; [drtable_get_entry] answers 0x21000. *)
Lemma get_entry_first_chunk_only_witness :
  (256, 131072) ∈ entries_of demo2 /\
  ((exists c, c ∈ heap demo2 /\ c_index c <= 256 < c_index c + c_entries c /\
      drtable_get_entry demo2 256 = Val (u64 (131072 + c_index c * entry_size demo2))) /\
   exists first, heap demo2 !! 0%nat = Some first /\ (drtable_get_entry demo2 256 = Val 131072 <-> 256 < c_capacity first)) /\
  drtable_get_entry demo2 256 = Val 135168.
Proof.
  split; [exact demo_entry|]. split; [|vm_compute; reflexivity].
  exact (get_entry_first_chunk_only demo2 256 131072 demo_reach2 demo_entry).
Defined.

Lemma traversals_witness :
  reach demo2 /\
  incr (map fst (entries_of demo2)) = true /\
  drtable_iterate (fun s i _ => (s + i, i <? 3)) demo2 0 = Val (visit (fun s i _ => (s + i, i <? 3)) 0 (entries_of demo2)) /\
  drtable_dump_entries demo2 (fun a => a mod 256) =
    Val (concat (map (fun x => bytes_at (fun a => a mod 256) (snd x) (entry_size demo2)) (entries_of demo2)),
         Z.of_nat (length (entries_of demo2))) /\
  drtable_destroy demo2 = Val (destroy_events demo2).
Proof.
  split; [exact demo_reach2|].
  exact (traversals demo2 (fun s i _ => (s + i, i <? 3)) 0 (fun a => a mod 256) demo_reach2).
Defined.
