(* ===== verification/BTree.v ===== *)
(** * The B+ tree of the btree workload (src/Workloads/btree/btree.c): the code

    Nodes and records live in a store addressed by pointers, NULL being 0.  A
    pointer to a node also stands for its [keys] and [pointers] arrays, which
    [make_node] allocates with it and nothing else shares; a node on the free
    list has no contents.  The free lists, threaded through [next] in the code,
    are the lists of their addresses, and the addresses of the slabs they are
    filled from are the allocator's choice (class [Slabs]).  [Undef] is a load
    or store through a pointer to no live object or outside an array, and also
    the answer of a loop that runs out of fuel.

    Array indices, [num_keys] and [order] are natural numbers: they never
    exceed [order].  Keys and values are 64-bit words.  The function arguments
    [verbose], the printing functions, [allocator_stat] and the exits on a
    failed allocation are not modelled. *)
From S2P Require Export Prelude.

(** ** The store *)

Record node := {
  pointers : list Z;
  keys : list Z;
  parent : Z;
  is_leaf : bool;
  num_keys : nat
}.

Record heap := {
  nodes : gmap Z node;
  records : gmap Z Z;
  free_nodes : list Z;
  free_recs : list Z;
  node_slabs : nat;      (* slabs taken so far *)
  rec_slabs : nat
}.

Definition empty_heap : heap :=
  {| nodes := ∅; records := ∅; free_nodes := []; free_recs := []; node_slabs := 0; rec_slabs := 0 |}.

(** The addresses [allocate] answers. *)
Class Slabs := {
  node_slab : nat -> Z;
  rec_slab : nat -> Z
}.

(** Slabs of [1 << 18] bytes do not overlap, and none is at NULL. *)
Definition SLAB_GROW : Z := 262144.
Class SlabsLaws `(Slabs) : Prop := {
  node_slab_pos i : 0 < node_slab i;
  rec_slab_pos i : 0 < rec_slab i;
  node_slab_apart i j : i <> j -> SLAB_GROW <= Z.abs (node_slab i - node_slab j);
  rec_slab_apart i j : i <> j -> SLAB_GROW <= Z.abs (rec_slab i - rec_slab j)
}.

(** ** Computations on the store *)

Definition M (A : Type) : Type := heap -> cres (A * heap).
#[export] Instance M_ret : MRet M := fun A a h => Val (a, h).
#[export] Instance M_bind : MBind M := fun A B f m h => match m h with Val (a, h') => f a h' | Undef => Undef end.
Definition lift {A} (r : cres A) : M A := fun h => a ← r; Val (a, h).
Definition undef {A} : M A := fun _ => Undef.
Definition modify (f : heap -> heap) : M unit := fun h => Val (tt, f h).

Definition load (p : Z) : M node := fun h => n ← cres_of_option (nodes h !! p); Val (n, h).
Definition set_nodes (h : heap) (ns : gmap Z node) : heap :=
  {| nodes := ns; records := records h; free_nodes := free_nodes h; free_recs := free_recs h;
     node_slabs := node_slabs h; rec_slabs := rec_slabs h |}.
Definition set_records (h : heap) (rs : gmap Z Z) : heap :=
  {| nodes := nodes h; records := rs; free_nodes := free_nodes h; free_recs := free_recs h;
     node_slabs := node_slabs h; rec_slabs := rec_slabs h |}.
Definition store (p : Z) (n : node) : M unit :=
  fun h => match nodes h !! p with Some _ => Val (tt, set_nodes h (<[p := n]> (nodes h))) | None => Undef end.
Definition with_parent (n : node) (p : Z) : node :=
  {| pointers := pointers n; keys := keys n; parent := p; is_leaf := is_leaf n; num_keys := num_keys n |}.
Definition set_parent (p q : Z) : M unit := n ← load p; store p (with_parent n q).
Definition load_record (p : Z) : M Z := fun h => v ← cres_of_option (records h !! p); Val (v, h).
Definition store_record (p v : Z) : M unit :=
  fun h => match records h !! p with Some _ => Val (tt, set_records h (<[p := v]> (records h))) | None => Undef end.

(** ** Arrays *)

Section Arrays.
Context {A : Type}.

Definition aget (a : list A) (i : nat) : cres A := cres_of_option (a !! i).
Definition aset (a : list A) (i : nat) (v : A) : cres (list A) :=
  if (i <? length a)%nat then Val (<[i := v]> a) else Undef.

(** [for (i = lo + n; i > lo; i--) a[i] = a[i - 1];] *)
Fixpoint shift_right (a : list A) (lo n : nat) : cres (list A) :=
  match n with
  | O => Val a
  | S n => v ← aget a (lo + n); a ← aset a (lo + S n) v; shift_right a lo n
  end.

(** [for (i = si, j = di; n times; i++, j++) dst[j] = src[i];] *)
Fixpoint copy (src : list A) (si : nat) (dst : list A) (di n : nat) : cres (list A) :=
  match n with
  | O => Val dst
  | S n => v ← aget src si; dst ← aset dst di v; copy src (S si) dst (S di) n
  end.

(** [for (i, j; n times; i++, j++) { if (j == skip) j++; dst[j] = src[i]; }] *)
Fixpoint copy_skip (src : list A) (i : nat) (dst : list A) (j skip n : nat) : cres (list A) :=
  match n with
  | O => Val dst
  | S n =>
      let j := if (j =? skip)%nat then S j else j in
      v ← aget src i; dst ← aset dst j v; copy_skip src (S i) dst (S j) skip n
  end.

(** [for (i = lo; n times; i++) a[i] = v;] *)
Fixpoint fill (a : list A) (lo n : nat) (v : A) : cres (list A) :=
  match n with
  | O => Val a
  | S n => a ← aset a lo v; fill a (S lo) n v
  end.
End Arrays.

(** ** Look-up *)

(** [while (i < num_keys) { if (key >= keys[i]) i++; else break; }] *)
Fixpoint child_index (ks : list Z) (key : Z) (num i : nat) : cres nat :=
  match num with
  | O => Val i
  | S num => k ← aget ks i; if k <=? key then child_index ks key num (S i) else Val i
  end.

Fixpoint find_leaf_from (fuel : nat) (c key : Z) : M Z :=
  match fuel with
  | O => undef
  | S fuel =>
      n ← load c;
      if is_leaf n then mret c
      else i ← lift (child_index (keys n) key (num_keys n) 0);
           c ← lift (aget (pointers n) i);
           find_leaf_from fuel c key
  end.

(** A path visits each node at most once. *)
Definition fuel_of (h : heap) : nat := S (size (nodes h)).
Definition with_fuel {A} (f : nat -> M A) : M A := fun h => f (fuel_of h) h.

Definition find_leaf (root key : Z) : M Z :=
  if root =? 0 then mret root else with_fuel (fun fuel => find_leaf_from fuel root key).

(** [for (i = 0; i < num_keys; i++) if (keys[i] == key) break;] *)
Fixpoint key_index (ks : list Z) (key : Z) (num i : nat) : cres nat :=
  match num with
  | O => Val i
  | S num => k ← aget ks i; if k =? key then Val i else key_index ks key num (S i)
  end.

(** The record and [*leaf_out]. *)
Definition find (root key : Z) : M (Z * Z) :=
  if root =? 0 then mret (0, 0)
  else
    leaf ← find_leaf root key;
    n ← load leaf;
    i ← lift (key_index (keys n) key (num_keys n) 0);
    if (i =? num_keys n)%nat then mret (0, leaf)
    else r ← lift (aget (pointers n) i); mret (r, leaf).

Definition cut (length : nat) : nat :=
  if (length mod 2 =? 0)%nat then (length / 2)%nat else (length / 2 + 1)%nat.

Fixpoint height_from (fuel : nat) (c : Z) (h : nat) : M nat :=
  match fuel with
  | O => undef
  | S fuel => n ← load c; if is_leaf n then mret h
              else c ← lift (aget (pointers n) 0); height_from fuel c (S h)
  end.
Definition height (root : Z) : M nat := with_fuel (fun fuel => height_from fuel root 0).

Fixpoint path_to_root_from (fuel : nat) (root c : Z) (len : nat) : M nat :=
  match fuel with
  | O => undef
  | S fuel => if c =? root then mret len else n ← load c; path_to_root_from fuel root (parent n) (S len)
  end.
Definition path_to_root (root child : Z) : M nat := with_fuel (fun fuel => path_to_root_from fuel root child 0).

(** ** Allocation *)

Section Code.
Context `{Slabs} (order : nat).

(** The loop that pushes the objects of a slab on a free list. *)
Definition push_slab (base esize : Z) (free : list Z) : list Z :=
  foldl (fun l i => (base + Z.of_nat i * esize) :: l) free (seq 0 (Z.to_nat (SLAB_GROW / esize))).

(** [if (!free) ...]: the free list, from a new slab when it is empty. *)
Definition refill (slab : nat -> Z) (esize : Z) (free : list Z) (slabs : nat) : list Z * nat :=
  match free with
  | [] => (push_slab (slab slabs) esize [], S slabs)
  | _ => (free, slabs)
  end.

Definition NODE_SIZE : Z := 48.
Definition RECORD_SIZE : Z := 16.

Definition alloc_node : M Z := fun h =>
  let '(free, slabs) := refill node_slab NODE_SIZE (free_nodes h) (node_slabs h) in
  match free with
  | nd :: free => Val (nd, {| nodes := nodes h; records := records h; free_nodes := free; free_recs := free_recs h;
                              node_slabs := slabs; rec_slabs := rec_slabs h |})
  | [] => Undef
  end.

Definition alloc_record : M Z := fun h =>
  let '(free, slabs) := refill rec_slab RECORD_SIZE (free_recs h) (rec_slabs h) in
  match free with
  | r :: free => Val (r, {| nodes := nodes h; records := records h; free_nodes := free_nodes h; free_recs := free;
                            node_slabs := node_slabs h; rec_slabs := slabs |})
  | [] => Undef
  end.

Definition make_record (value : Z) : M Z :=
  r ← alloc_record;
  _ ← modify (fun h => set_records h (<[r := value]> (records h)));
  mret r.

Definition new_node (leaf : bool) : node :=
  {| pointers := replicate order 0; keys := replicate (order - 1) 0; parent := 0; is_leaf := leaf; num_keys := 0 |}.

Definition make_node : M Z :=
  nd ← alloc_node;
  _ ← modify (fun h => set_nodes h (<[nd := new_node false]> (nodes h)));
  mret nd.

Definition make_leaf : M Z :=
  leaf ← make_node;
  n ← load leaf;
  _ ← store leaf {| pointers := pointers n; keys := keys n; parent := parent n; is_leaf := true; num_keys := num_keys n |};
  mret leaf.

(** ** Insertion *)

(** [while (left_index <= num_keys && pointers[left_index] != left) left_index++;] *)
Fixpoint left_index_from (ps : list Z) (left : Z) (n i : nat) : cres nat :=
  match n with
  | O => Val i
  | S n => p ← aget ps i; if p =? left then Val i else left_index_from ps left n (S i)
  end.

Definition get_left_index (par left : Z) : M nat :=
  n ← load par; lift (left_index_from (pointers n) left (S (num_keys n)) 0).

(** [while (i < bound && keys[i] < key) i++;] *)
Fixpoint insertion_point (ks : list Z) (key : Z) (bound i : nat) : cres nat :=
  match bound with
  | O => Val i
  | S bound => k ← aget ks i; if k <? key then insertion_point ks key bound (S i) else Val i
  end.

Definition insert_into_leaf (leaf key pointer : Z) : M Z :=
  n ← load leaf;
  ip ← lift (insertion_point (keys n) key (num_keys n) 0);
  ks ← lift (shift_right (keys n) ip (num_keys n - ip));
  ps ← lift (shift_right (pointers n) ip (num_keys n - ip));
  ks ← lift (aset ks ip key);
  ps ← lift (aset ps ip pointer);
  _ ← store leaf {| pointers := ps; keys := ks; parent := parent n; is_leaf := is_leaf n; num_keys := S (num_keys n) |};
  mret leaf.

Definition insert_into_new_root (left key right : Z) : M Z :=
  root ← make_node;
  n ← load root;
  ks ← lift (aset (keys n) 0 key);
  ps ← lift (aset (pointers n) 0 left);
  ps ← lift (aset ps 1 right);
  _ ← store root {| pointers := ps; keys := ks; parent := 0; is_leaf := is_leaf n; num_keys := S (num_keys n) |};
  _ ← set_parent left root;
  _ ← set_parent right root;
  mret root.

Definition insert_into_node (root n : Z) (left_index : nat) (key right : Z) : M Z :=
  nd ← load n;
  ps ← lift (shift_right (pointers nd) (S left_index) (num_keys nd - left_index));
  ks ← lift (shift_right (keys nd) left_index (num_keys nd - left_index));
  ps ← lift (aset ps (S left_index) right);
  ks ← lift (aset ks left_index key);
  _ ← store n {| pointers := ps; keys := ks; parent := parent nd; is_leaf := is_leaf nd; num_keys := S (num_keys nd) |};
  mret root.

(** [for (i = 0; i <= num_keys; i++) { child = pointers[i]; child->parent = n; }] *)
Fixpoint adopt (ps : list Z) (n : Z) (i count : nat) : M unit :=
  match count with
  | O => mret tt
  | S count => child ← lift (aget ps i); _ ← set_parent child n; adopt ps n (S i) count
  end.

(** [insert_into_parent] and [insert_into_node_after_splitting] call each
    other; the latter takes the former as an argument. *)
Definition insert_into_node_after_splitting (insert_into_parent : Z -> Z -> Z -> Z -> M Z)
    (root old_node : Z) (left_index : nat) (key right : Z) : M Z :=
  o ← load old_node;
  tps ← lift (copy_skip (pointers o) 0 (replicate (order + 1) 0) 0 (left_index + 1) (num_keys o + 1));
  tks ← lift (copy_skip (keys o) 0 (replicate order 0) 0 left_index (num_keys o));
  tps ← lift (aset tps (left_index + 1) right);
  tks ← lift (aset tks left_index key);
  let split := cut order in
  nn ← make_node;
  ops ← lift (copy tps 0 (pointers o) 0 (split - 1));
  oks ← lift (copy tks 0 (keys o) 0 (split - 1));
  last ← lift (aget tps (split - 1));
  ops ← lift (aset ops (split - 1) last);
  k_prime ← lift (aget tks (split - 1));
  new ← load nn;
  nps ← lift (copy tps split (pointers new) 0 (order - split));
  nks ← lift (copy tks split (keys new) 0 (order - split));
  last ← lift (aget tps order);
  nps ← lift (aset nps (order - split) last);
  _ ← store old_node {| pointers := ops; keys := oks; parent := parent o; is_leaf := is_leaf o; num_keys := split - 1 |};
  _ ← store nn {| pointers := nps; keys := nks; parent := parent o; is_leaf := is_leaf new;
                  num_keys := num_keys new + (order - split) |};
  _ ← adopt nps nn 0 (S (num_keys new + (order - split)));
  insert_into_parent root old_node k_prime nn.

Fixpoint insert_into_parent (fuel : nat) (root left key right : Z) : M Z :=
  match fuel with
  | O => undef
  | S fuel =>
      l ← load left;
      let par := parent l in
      if par =? 0 then insert_into_new_root left key right
      else
        left_index ← get_left_index par left;
        p ← load par;
        if (num_keys p <? order - 1)%nat then insert_into_node root par left_index key right
        else insert_into_node_after_splitting (insert_into_parent fuel) root par left_index key right
  end.

Definition insert_into_leaf_after_splitting (root leaf key pointer : Z) : M Z :=
  new_leaf ← make_leaf;
  l ← load leaf;
  ip ← lift (insertion_point (keys l) key (order - 1) 0);
  tks ← lift (copy_skip (keys l) 0 (replicate (order + 1) 0) 0 ip (num_keys l));
  tps ← lift (copy_skip (pointers l) 0 (replicate (order + 1) 0) 0 ip (num_keys l));
  tks ← lift (aset tks ip key);
  tps ← lift (aset tps ip pointer);
  let split := cut (order - 1) in
  lps ← lift (copy tps 0 (pointers l) 0 split);
  lks ← lift (copy tks 0 (keys l) 0 split);
  n ← load new_leaf;
  nps ← lift (copy tps split (pointers n) 0 (order - split));
  nks ← lift (copy tks split (keys n) 0 (order - split));
  next ← lift (aget lps (order - 1));
  nps ← lift (aset nps (order - 1) next);
  lps ← lift (aset lps (order - 1) new_leaf);
  lps ← lift (fill lps split (order - 1 - split) 0);
  nps ← lift (fill nps (order - split) (order - 1 - (order - split)) 0);
  _ ← store leaf {| pointers := lps; keys := lks; parent := parent l; is_leaf := is_leaf l; num_keys := split |};
  _ ← store new_leaf {| pointers := nps; keys := nks; parent := parent l; is_leaf := is_leaf n;
                        num_keys := num_keys n + (order - split) |};
  new_key ← lift (aget nks 0);
  with_fuel (fun fuel => insert_into_parent fuel root leaf new_key new_leaf).

Definition start_new_tree (key pointer : Z) : M Z :=
  root ← make_leaf;
  n ← load root;
  ks ← lift (aset (keys n) 0 key);
  ps ← lift (aset (pointers n) 0 pointer);
  ps ← lift (aset ps (order - 1) 0);
  _ ← store root {| pointers := ps; keys := ks; parent := 0; is_leaf := is_leaf n; num_keys := S (num_keys n) |};
  mret root.

Definition insert (root key value : Z) : M Z :=
  '(r, _) ← find root key;
  if negb (r =? 0) then _ ← store_record r value; mret root
  else
    pointer ← make_record value;
    if root =? 0 then start_new_tree key pointer
    else
      leaf ← find_leaf root key;
      n ← load leaf;
      if (num_keys n <? order - 1)%nat then _ ← insert_into_leaf leaf key pointer; mret root
      else insert_into_leaf_after_splitting root leaf key pointer.

(** ** Range queries *)

(** [for (; i < num_keys && keys[i] <= key_end; i++) ...] on one leaf. *)
Fixpoint range_in_leaf (n : node) (key_end : Z) (i count : nat) : cres (list (Z * Z)) :=
  match count with
  | O => Val []
  | S count =>
      k ← aget (keys n) i;
      if k <=? key_end then p ← aget (pointers n) i; r ← range_in_leaf n key_end (S i) count; Val ((k, p) :: r)
      else Val []
  end.

Fixpoint range_from (fuel : nat) (n key_end : Z) (i : nat) : M (list (Z * Z)) :=
  match fuel with
  | O => undef
  | S fuel =>
      if n =? 0 then mret []
      else
        nd ← load n;
        found ← lift (range_in_leaf nd key_end i (num_keys nd - i));
        next ← lift (aget (pointers nd) (order - 1));
        rest ← range_from fuel next key_end 0;
        mret (found ++ rest)
  end.

(** The keys and record pointers put in the two arrays. *)
Definition find_range (root key_start key_end : Z) : M (list (Z * Z)) :=
  n ← find_leaf root key_start;
  if n =? 0 then mret []
  else
    nd ← load n;
    i ← lift (insertion_point (keys nd) key_start (num_keys nd) 0);
    if (i =? num_keys nd)%nat then mret []
    else with_fuel (fun fuel => range_from (S fuel) n key_end i).
End Code.
