(* ===== verification/BTreeTree.v ===== *)
(** * The B+ tree of the btree workload: trees and paths

    The abstract trees the store represents (BTreeProof.v): their order,
    balance and occupancy ([ok]), the entries they hold, and the path from the
    root to a node as a list of frames ([plug]).  [grow] is what a split does
    to the nodes above it; [grown_ok] shows that it keeps every invariant and
    the entries. *)
From S2P Require Export BTree.

(** ** Trees *)

Inductive tree :=
| Leaf (p : Z) (es : list (Z * Z))               (* key, record *)
| Node (p : Z) (ks : list Z) (ts : list tree).

Section tree_ind.
Context (P : tree -> Prop) (HL : forall p es, P (Leaf p es)) (HN : forall p ks ts, Forall P ts -> P (Node p ks ts)).
Fixpoint tree_ind' (t : tree) : P t :=
  match t with
  | Leaf p es => HL p es
  | Node p ks ts => HN p ks ts ((fix go ts : Forall P ts := match ts with [] => Forall_nil_2 P | t :: ts => Forall_cons_2 P t ts (tree_ind' t) (go ts) end) ts)
  end.
End tree_ind.

Definition addr (t : tree) : Z := match t with Leaf p _ | Node p _ _ => p end.
Fixpoint flatten (t : tree) : list (Z * Z) :=
  match t with Leaf _ es => es | Node _ _ ts => concat (map flatten ts) end.
Fixpoint addrs (t : tree) : list Z :=
  match t with Leaf p _ => [p] | Node p _ ts => p :: concat (map addrs ts) end.
Fixpoint leaves (t : tree) : list Z :=
  match t with Leaf p _ => [p] | Node _ _ ts => concat (map leaves ts) end.

(** The leaves with their entries, in order. *)
Fixpoint leaf_entries (t : tree) : list (Z * list (Z * Z)) :=
  match t with Leaf p es => [(p, es)] | Node _ _ ts => concat (map leaf_entries ts) end.

Lemma leaf_entries_leaves t : map fst (leaf_entries t) = leaves t.
Proof.
  induction t as [p es|p ks ts IH] using tree_ind'; [done|]. cbn. rewrite concat_map, map_map. f_equal.
  apply map_ext_in. intros t Ht. rewrite Forall_forall in IH. by apply IH, list_elem_of_In.
Qed.

Lemma leaf_entries_flatten t : concat (map snd (leaf_entries t)) = flatten t.
Proof.
  induction t as [p es|p ks ts IH] using tree_ind'; [cbn; by rewrite app_nil_r|]. cbn.
  induction IH as [|t ts Ht HF IHf]; [done|]. cbn. by rewrite map_app, concat_app, Ht, IHf.
Qed.

(** ** Paths *)

(** A node on the path, with the keys and subtrees left and right of it. *)
Record frame := Frame { f_ptr : Z; ks1 : list Z; ts1 : list tree; ks2 : list Z; ts2 : list tree }.

Fixpoint plug (C : list frame) (t : tree) : tree :=
  match C with
  | [] => t
  | F :: C => plug C (Node (f_ptr F) (ks1 F ++ ks2 F) (ts1 F ++ t :: ts2 F))
  end.

(** Addresses of the frames, NULL above the root. *)
Definition top (C : list frame) : Z := match C with [] => 0 | F :: _ => f_ptr F end.

Section Around.
Context {A : Type} (f : tree -> list A).
(** What [f] collects left and right of the path. *)
Fixpoint before (C : list frame) : list A :=
  match C with [] => [] | F :: C => before C ++ concat (map f (ts1 F)) end.
Fixpoint after (C : list frame) : list A :=
  match C with [] => [] | F :: C => concat (map f (ts2 F)) ++ after C end.
End Around.

Lemma flatten_plug C t : flatten (plug C t) = before flatten C ++ flatten t ++ after flatten C.
Proof.
  revert t; induction C as [|F C IH]; intros t; cbn [plug before after]; [by rewrite app_nil_r|].
  rewrite IH. cbn [flatten]. rewrite map_app, concat_app. cbn. by rewrite <- !app_assoc.
Qed.

Lemma leaves_plug C t : leaves (plug C t) = before leaves C ++ leaves t ++ after leaves C.
Proof.
  revert t; induction C as [|F C IH]; intros t; cbn [plug before after]; [by rewrite app_nil_r|].
  rewrite IH. cbn [leaves]. rewrite map_app, concat_app. cbn. by rewrite <- !app_assoc.
Qed.

Lemma leaf_entries_plug C t : leaf_entries (plug C t) = before leaf_entries C ++ leaf_entries t ++ after leaf_entries C.
Proof.
  revert t; induction C as [|F C IH]; intros t; cbn [plug before after]; [by rewrite app_nil_r|].
  rewrite IH. cbn [leaf_entries]. rewrite map_app, concat_app. cbn. by rewrite <- !app_assoc.
Qed.

Lemma after_entries_leaves C : map fst (after leaf_entries C) = after leaves C.
Proof.
  induction C as [|F C IH]; [done|]. cbn [after]. rewrite map_app, IH, concat_map, map_map. do 2 f_equal.
  apply map_ext. intros t. apply leaf_entries_leaves.
Qed.

Lemma after_entries_flatten C : concat (map snd (after leaf_entries C)) = after flatten C.
Proof.
  induction C as [|F C IH]; [done|]. cbn [after]. rewrite map_app, concat_app, IH. f_equal. clear IH.
  induction (ts2 F) as [|t ts IH]; [done|]. cbn. by rewrite map_app, concat_app, leaf_entries_flatten, IH.
Qed.

Definition frame_addrs (F : frame) : list Z :=
  f_ptr F :: concat (map addrs (ts1 F)) ++ concat (map addrs (ts2 F)).
Definition caddrs (C : list frame) : list Z := concat (map frame_addrs C).

Lemma caddrs_cons F C : caddrs (F :: C) = frame_addrs F ++ caddrs C.
Proof. done. Qed.

Lemma addrs_plug C t : addrs (plug C t) ≡ₚ addrs t ++ caddrs C.
Proof.
  revert t; induction C as [|F C IH]; intros t; cbn [plug]; [by rewrite app_nil_r|].
  rewrite IH. cbn [addrs]. unfold caddrs. cbn [map concat]. unfold frame_addrs at 2.
  rewrite map_app, concat_app. cbn. solve_Permutation.
Qed.

Lemma addr_plug C : forall t t', addr t = addr t' -> addr (plug C t) = addr (plug C t').
Proof. induction C as [|F C IH]; intros t t' E; [done|]. by apply IH. Qed.

Lemma addr_in t : addr t ∈ addrs t.
Proof. destruct t; cbn; by left. Qed.

(** ** Order, balance and occupancy *)

Section Ok.
Context (order : nat).

(** Subtrees between consecutive keys, from [lo] to [hi]. *)
Fixpoint segs (P : Z -> Z -> tree -> Prop) (lo : Z) (ks : list Z) (ts : list tree) (hi : Z) : Prop :=
  match ks, ts with
  | [], [t] => P lo hi t /\ lo <= hi
  | k :: ks, t :: ts => P lo k t /\ lo <= k /\ segs P k ks ts hi
  | _, _ => False
  end.

(** The subtrees left of a gap that starts at [m]. *)
Fixpoint lsegs (P : Z -> Z -> tree -> Prop) (lo : Z) (ks : list Z) (ts : list tree) (m : Z) : Prop :=
  match ks, ts with
  | [], [] => m = lo
  | k :: ks, t :: ts => P lo k t /\ lo <= k /\ lsegs P k ks ts m
  | _, _ => False
  end.

(** The subtrees right of a gap that ends at [m]. *)
Definition rsegs (P : Z -> Z -> tree -> Prop) (m : Z) (ks : list Z) (ts : list tree) (hi : Z) : Prop :=
  match ks with
  | [] => ts = [] /\ m = hi
  | k :: ks => m = k /\ segs P k ks ts hi
  end.

(** The root may be nearly empty; other nodes are about half full. *)
Definition leaf_min (root : bool) : nat := if root then 1%nat else cut (order - 1).
Definition node_min (root : bool) : nat := if root then 1%nat else (cut order - 1)%nat.

(** A tree of height [n] with keys in [lo, hi). *)
Fixpoint ok (n : nat) (root : bool) (lo hi : Z) (t : tree) : Prop :=
  match n, t with
  | O, Leaf _ es =>
      incr (map fst es) = true /\ Forall (fun k => lo <= k < hi) (map fst es) /\
      (leaf_min root <= length es <= order - 1)%nat
  | S n, Node _ ks ts => segs (ok n false) lo ks ts hi /\ (node_min root <= length ks <= order - 1)%nat
  | _, _ => False
  end.

Definition is_nil {A} (l : list A) : bool := match l with [] => true | _ => false end.

(** The path around a hole of height [n] for keys in [lo, hi). *)
Fixpoint okctx (n : nat) (lo hi : Z) (C : list frame) : Prop :=
  match C with
  | [] => lo = 0 /\ hi = w64
  | F :: C => exists Lo Hi,
      okctx (S n) Lo Hi C /\ lsegs (ok n false) Lo (ks1 F) (ts1 F) lo /\ rsegs (ok n false) hi (ks2 F) (ts2 F) Hi /\
      (node_min (is_nil C) <= length (ks1 F ++ ks2 F) <= order - 1)%nat
  end.

Lemma segs_length P lo ks ts hi : segs P lo ks ts hi -> length ts = S (length ks).
Proof.
  revert lo ts; induction ks as [|k ks IH]; intros lo [|t ts] H; try done; cbn in *.
  - by destruct ts.
  - destruct H as (_ & _ & H). by rewrite (IH _ _ H).
Qed.

Lemma lsegs_length P lo ks ts m : lsegs P lo ks ts m -> length ts = length ks.
Proof.
  revert lo ts; induction ks as [|k ks IH]; intros lo [|t ts] H; try done; cbn in *.
  destruct H as (_ & _ & H). by rewrite (IH _ _ H).
Qed.

Lemma rsegs_length P m ks ts hi : rsegs P m ks ts hi -> length ts = length ks.
Proof. destruct ks as [|k ks]; cbn; [by intros [-> _]|]. intros [_ H]. by apply segs_length in H. Qed.

Lemma segs_le P lo ks ts hi : segs P lo ks ts hi -> lo <= hi.
Proof.
  revert lo ts; induction ks as [|k ks IH]; intros lo [|t ts] H; try done; cbn in *.
  - destruct ts; naive_solver.
  - destruct H as (_ & ? & H). apply IH in H. lia.
Qed.

Lemma lsegs_le P lo ks ts m : lsegs P lo ks ts m -> lo <= m.
Proof.
  revert lo ts; induction ks as [|k ks IH]; intros lo [|t ts] H; try done; cbn in *; [lia|].
  destruct H as (_ & ? & H). apply IH in H. lia.
Qed.

Lemma rsegs_le P m ks ts hi : rsegs P m ks ts hi -> m <= hi.
Proof. destruct ks as [|k ks]; cbn; [lia|]. intros [-> H]. by apply segs_le in H. Qed.

Lemma segs_app P lo ka ta kb tb hi : length ta = length ka ->
  segs P lo (ka ++ kb) (ta ++ tb) hi <-> exists m, lsegs P lo ka ta m /\ segs P m kb tb hi.
Proof.
  revert lo ta; induction ka as [|k ka IH]; intros lo [|t ta] HL; try done; cbn.
  - split; [by exists lo|]. by intros (m & -> & H).
  - rewrite IH by (cbn in HL; lia). naive_solver.
Qed.

Lemma lsegs_app P lo ka ta kb tb m : length ta = length ka ->
  lsegs P lo (ka ++ kb) (ta ++ tb) m <-> exists m', lsegs P lo ka ta m' /\ lsegs P m' kb tb m.
Proof.
  revert lo ta; induction ka as [|k ka IH]; intros lo [|t ta] HL; try done; cbn.
  - split; [by exists lo|]. by intros (m' & -> & H).
  - rewrite IH by (cbn in HL; lia). naive_solver.
Qed.

Lemma segs_hole P m ks t ts hi : segs P m ks (t :: ts) hi <-> exists b, P m b t /\ m <= b /\ rsegs P b ks ts hi.
Proof.
  destruct ks as [|k ks]; cbn.
  - destruct ts; [|split; [done|naive_solver]]. naive_solver.
  - naive_solver.
Qed.

(** A node split in two at a key. *)
Lemma segs_split P lo ka k kb ta tb hi : length ta = S (length ka) ->
  segs P lo (ka ++ k :: kb) (ta ++ tb) hi <-> segs P lo ka ta k /\ segs P k kb tb hi.
Proof.
  revert lo ta; induction ka as [|k0 ka IH]; intros lo [|t ta] HL; try done; cbn in HL.
  - destruct ta; [|done]. cbn. naive_solver.
  - cbn. rewrite IH by lia. naive_solver.
Qed.

Lemma segs_impl (P Q : Z -> Z -> tree -> Prop) lo ks ts hi :
  (forall a b t, P a b t -> Q a b t) -> segs P lo ks ts hi -> segs Q lo ks ts hi.
Proof.
  intros HPQ. revert lo ts; induction ks as [|k ks IH]; intros lo [|t ts] H; try done; cbn in *.
  - destruct ts; naive_solver.
  - naive_solver.
Qed.

(** The subtree a key belongs to. *)
Lemma segs_find P lo ks ts hi key : segs P lo ks ts hi -> lo <= key < hi ->
  exists ka kb ta t tb a b, ks = ka ++ kb /\ ts = ta ++ t :: tb /\
    lsegs P lo ka ta a /\ P a b t /\ rsegs P b kb tb hi /\ a <= key < b /\
    Forall (fun k => k <= key) ka /\ (forall k kb', kb = k :: kb' -> key < k).
Proof.
  revert lo ts; induction ks as [|k ks IH]; intros lo [|t ts] H Hk; try done; cbn in H.
  - destruct ts; [|done]. destruct H as [H Hle]. exists [], [], [], t, [], lo, hi.
    split_and!; try done; try lia.
  - destruct H as (H & Hle & HS). destruct (decide (key < k)).
    + exists [], (k :: ks), [], t, ts, lo, k.
      split_and!; try done; try lia; intros ? ? [= <- _]. done.
    + destruct (IH k ts HS) as (ka & kb & ta & t' & tb & a & b & -> & -> & HL & HP & HR & Hab & HF & Hb); [lia|].
      exists (k :: ka), kb, (t :: ta), t', tb, a, b.
      split; [done|]. split; [done|]. split; [done|]. split; [done|]. split; [done|]. split; [done|].
      split; [|done]. constructor; [lia|done].
Qed.

(** ** Entries are sorted *)

Definition sorted_in (lo hi : Z) (l : list Z) : Prop := incr l = true /\ Forall (fun k => lo <= k < hi) l.

Lemma sorted_in_app a m b l1 l2 : a <= m -> m <= b -> sorted_in a m l1 -> sorted_in m b l2 -> sorted_in a b (l1 ++ l2).
Proof.
  intros Ha Hb [I1 F1] [I2 F2]. rewrite Forall_forall in F1, F2. split.
  - apply incr_app. split_and!; [done|done|]. intros x y Hx Hy. specialize (F1 x Hx). specialize (F2 y Hy). lia.
  - apply Forall_forall. intros x Hx. apply elem_of_app in Hx as [Hx|Hx]; [specialize (F1 x Hx)|specialize (F2 x Hx)]; lia.
Qed.

Lemma segs_sorted P (f : tree -> list Z) : (forall a b t, P a b t -> a <= b -> sorted_in a b (f t)) ->
  forall ks ts lo hi, segs P lo ks ts hi -> sorted_in lo hi (concat (map f ts)).
Proof.
  intros HP. induction ks as [|k ks IH]; intros [|t ts] lo hi H; try done; cbn in *.
  - destruct ts; [|done]. destruct H. cbn. rewrite app_nil_r. by apply HP.
  - destruct H as (H1 & H2 & H3). eapply sorted_in_app; [exact H2|by apply segs_le in H3|by apply HP|by apply IH].
Qed.

Lemma lsegs_sorted P (f : tree -> list Z) : (forall a b t, P a b t -> a <= b -> sorted_in a b (f t)) ->
  forall ks ts lo m, lsegs P lo ks ts m -> sorted_in lo m (concat (map f ts)).
Proof.
  intros HP. induction ks as [|k ks IH]; intros [|t ts] lo m H; try done; cbn in *.
  destruct H as (H1 & H2 & H3). eapply sorted_in_app; [exact H2|by apply lsegs_le in H3|by apply HP|by apply IH].
Qed.

Lemma rsegs_sorted P (f : tree -> list Z) : (forall a b t, P a b t -> a <= b -> sorted_in a b (f t)) ->
  forall ks ts m hi, rsegs P m ks ts hi -> sorted_in m hi (concat (map f ts)).
Proof.
  intros HP [|k ks] ts m hi H; cbn in H.
  - destruct H as [-> ->]. by split.
  - destruct H as [-> H]. by eapply segs_sorted.
Qed.

Definition tkeys (t : tree) : list Z := map fst (flatten t).

Lemma tkeys_node p ks ts : tkeys (Node p ks ts) = concat (map tkeys ts).
Proof. unfold tkeys at 1. cbn. rewrite concat_map, map_map. done. Qed.

Lemma ok_sorted n : forall root lo hi t, ok n root lo hi t -> sorted_in lo hi (tkeys t).
Proof.
  induction n as [|n IH]; intros root lo hi [p es|p ks ts] H; try done; cbn in H.
  - destruct H as (H1 & H2 & _). by split.
  - destruct H as [H _]. rewrite tkeys_node. eapply segs_sorted; [|exact H]. intros a b t Ht _. by eapply IH.
Qed.

Lemma ok_sorted' n a b t : ok n false a b t -> a <= b -> sorted_in a b (tkeys t).
Proof. intros H _. by eapply ok_sorted. Qed.

Lemma map_fst_concat {A} (l : list (list (Z * A))) : map fst (concat l) = concat (map (map fst) l).
Proof. by rewrite concat_map. Qed.

(** Keys left of the hole are below it, keys right of it are not below its end. *)
Lemma okctx_bounds n lo hi C : okctx n lo hi C ->
  0 <= lo /\ hi <= w64 /\ sorted_in 0 lo (map fst (before flatten C)) /\ sorted_in hi w64 (map fst (after flatten C)).
Proof.
  revert n lo hi; induction C as [|F C IH]; intros n lo hi H; cbn in *.
  - destruct H as [-> ->]. by split_and!.
  - destruct H as (Lo & Hi & HC & HL & HR & _). destruct (IH _ _ _ HC) as (H1 & H2 & H3 & H4).
    pose proof (lsegs_le _ _ _ _ _ HL). pose proof (rsegs_le _ _ _ _ _ HR).
    apply (lsegs_sorted _ tkeys (ok_sorted' n)) in HL. apply (rsegs_sorted _ tkeys (ok_sorted' n)) in HR.
    rewrite !map_app, !map_fst_concat, !map_map. fold tkeys.
    split_and!; [lia|lia|eapply sorted_in_app; [| |exact H3|exact HL]; lia|eapply sorted_in_app; [| |exact HR|exact H4]; lia].
Qed.

Lemma plug_ok C : forall n lo hi t, okctx n lo hi C -> lo <= hi -> ok n (is_nil C) lo hi t ->
  ok (n + length C) true 0 w64 (plug C t).
Proof.
  induction C as [|F C IH]; intros n lo hi t HC Hle Ht; cbn in *.
  - destruct HC as [-> ->]. by rewrite Nat.add_0_r.
  - destruct HC as (Lo & Hi & HC & HL & HR & Hlen). rewrite <- Nat.add_succ_comm.
    pose proof (lsegs_le _ _ _ _ _ HL). pose proof (rsegs_le _ _ _ _ _ HR). apply (IH _ Lo Hi); [done|lia|].
    cbn. split; [|done]. apply segs_app; [by apply lsegs_length in HL|]. exists lo. split; [done|].
    apply segs_hole. by exists hi.
Qed.
(** ** Growth above a split *)

(** The subtree in the hole has become [tl], [k], [tr]; [T] is the whole tree
    once the nodes above have made room, splitting where they are full. *)
Inductive grow : list frame -> tree -> Z -> tree -> tree -> Prop :=
| grow_root p tl k tr : grow [] tl k tr (Node p [k] [tl; tr])
| grow_room F C tl k tr :
    (length (ks1 F ++ ks2 F) < order - 1)%nat ->
    grow (F :: C) tl k tr (plug C (Node (f_ptr F) (ks1 F ++ k :: ks2 F) (ts1 F ++ tl :: tr :: ts2 F)))
| grow_split F C tl k tr q ka k' kb ta tb T :
    length (ks1 F ++ ks2 F) = (order - 1)%nat ->
    ks1 F ++ k :: ks2 F = ka ++ k' :: kb -> ts1 F ++ tl :: tr :: ts2 F = ta ++ tb ->
    length ka = (cut order - 1)%nat -> length ta = cut order ->
    grow C (Node (f_ptr F) ka ta) k' (Node q kb tb) T ->
    grow (F :: C) tl k tr T.

Lemma cut_bounds n : (2 * cut n <= S n)%nat /\ (n <= 2 * cut n)%nat.
Proof.
  unfold cut. pose proof (Nat.div_mod_eq n 2). pose proof (Nat.mod_upper_bound n 2). destruct (_ =? _)%nat eqn:E.
  - apply Nat.eqb_eq in E. lia.
  - apply Nat.eqb_neq in E. lia.
Qed.

Lemma ok_root n root lo hi t : (3 <= order)%nat -> ok n false lo hi t -> ok n root lo hi t.
Proof.
  intros Ho. pose proof (cut_bounds order). pose proof (cut_bounds (order - 1)).
  destruct n, t; try done; cbn; unfold leaf_min, node_min; destruct root; intuition lia.
Qed.

Lemma concat_plug {A} (f : tree -> list A) (l1 l2 : list tree) tl tr :
  concat (map f (l1 ++ tl :: tr :: l2)) = concat (map f l1) ++ f tl ++ f tr ++ concat (map f l2).
Proof. rewrite map_app, concat_app. done. Qed.

Lemma grow_flatten C tl k tr T : grow C tl k tr T ->
  flatten T = before flatten C ++ flatten tl ++ flatten tr ++ after flatten C /\
  leaves T = before leaves C ++ leaves tl ++ leaves tr ++ after leaves C.
Proof.
  induction 1 as [p tl k tr|F C tl k tr Hl|F C tl k tr q ka k' kb ta tb T Hl Hk Ht H1 H2 HG [IH1 IH2]].
  - cbn. by rewrite !app_nil_r.
  - rewrite flatten_plug, leaves_plug. cbn [flatten leaves before after]. rewrite !concat_plug. by rewrite <- !app_assoc.
  - rewrite IH1, IH2. cbn [flatten leaves before after].
    assert (HC : forall A (f : tree -> list A), concat (map f ta) ++ concat (map f tb) =
                   concat (map f (ts1 F)) ++ f tl ++ f tr ++ concat (map f (ts2 F))).
    { intros A f. rewrite <- concat_app, <- map_app, <- Ht. apply concat_plug. }
    pose proof (HC _ flatten) as HF. pose proof (HC _ leaves) as HV.
    rewrite (app_assoc (concat (map flatten ta))), (app_assoc (concat (map leaves ta))), HF, HV. by rewrite <- !app_assoc.
Qed.

Lemma grown_ok C tl k tr T : (3 <= order)%nat -> grow C tl k tr T ->
  forall n lo hi, okctx n lo hi C -> ok n false lo k tl -> ok n false k hi tr -> lo <= k -> k <= hi ->
  exists m, ok m true 0 w64 T.
Proof.
  intros Ho. pose proof (cut_bounds order) as Hcut.
  induction 1 as [p tl k tr|F C tl k tr Hl|F C tl k tr q ka k' kb ta tb T Hl Hk Ht H1 H2 HG IH];
    intros n lo hi HC Htl Htr Hlo Hhi; cbn [okctx] in HC.
  - destruct HC as [-> ->]. exists (S n). cbn. intuition lia.
  - destruct HC as (Lo & Hi & HC & HL & HR & Hlen). exists (S n + length C)%nat.
    pose proof (lsegs_le _ _ _ _ _ HL). pose proof (rsegs_le _ _ _ _ _ HR).
    eapply plug_ok; [exact HC|lia|]. cbn. split.
    + apply segs_app; [by apply lsegs_length in HL|]. exists lo. split; [done|]. cbn. split_and!; [done|done|].
      apply segs_hole. by exists hi.
    + rewrite length_app in *. cbn. lia.
  - destruct HC as (Lo & Hi & HC & HL & HR & Hlen).
    pose proof (lsegs_le _ _ _ _ _ HL). pose proof (rsegs_le _ _ _ _ _ HR).
    assert (HS : segs (ok n false) Lo (ks1 F ++ k :: ks2 F) (ts1 F ++ tl :: tr :: ts2 F) Hi).
    { apply segs_app; [by apply lsegs_length in HL|]. exists lo. split; [done|]. cbn. split_and!; [done|done|].
      apply segs_hole. by exists hi. }
    rewrite Hk, Ht in HS. apply segs_split in HS as [S1 S2]; [|lia].
    assert (length ka + S (length kb) = order)%nat as Hkb.
    { apply (f_equal length) in Hk. rewrite !length_app in *. cbn in Hk. lia. }
    apply (IH (S n) Lo Hi HC); [cbn; split; [done|lia]|cbn; split; [done|lia]|by apply segs_le in S1|by apply segs_le in S2].
Qed.

(** ** Leaves *)

(** Where a key goes in a leaf: after the smaller keys. *)
Fixpoint position (es : list (Z * Z)) (key : Z) : nat :=
  match es with
  | (k, _) :: es => if k <? key then S (position es key) else 0
  | [] => 0
  end.

Definition add_entry (es : list (Z * Z)) (key r : Z) : list (Z * Z) :=
  take (position es key) es ++ (key, r) :: drop (position es key) es.

Lemma position_le es key : (position es key <= length es)%nat.
Proof. induction es as [|[k r] es IH]; cbn; [done|]. case_match; lia. Qed.

Lemma add_entry_perm es key r : add_entry es key r ≡ₚ (key, r) :: es.
Proof. unfold add_entry. rewrite <- Permutation_middle. by rewrite take_drop. Qed.

Lemma length_add_entry es key r : length (add_entry es key r) = S (length es).
Proof. by rewrite add_entry_perm. Qed.

Lemma add_entry_cons k r es key x :
  add_entry ((k, r) :: es) key x = if k <? key then (k, r) :: add_entry es key x else (key, x) :: (k, r) :: es.
Proof. unfold add_entry. cbn. by case_match. Qed.

Lemma add_entry_sorted es lo hi key r : sorted_in lo hi (map fst es) -> lo <= key < hi -> key ∉ map fst es ->
  sorted_in lo hi (map fst (add_entry es key r)).
Proof.
  intros [HI HF] Hk Hn. split.
  2: { rewrite add_entry_perm. cbn. by constructor. }
  clear HF. induction es as [|[k x] es IH]; [done|]. rewrite add_entry_cons. cbn [map fst] in HI, Hn.
  apply not_elem_of_cons in Hn as [Hne Hn]. apply incr_cons in HI as [H1 H2]. destruct (k <? key) eqn:E; zbool; cbn [map fst].
  - apply incr_cons. split; [|by apply IH]. intros y Hy. rewrite add_entry_perm in Hy. cbn in Hy.
    apply elem_of_cons in Hy as [->|Hy]; [done|by apply H1].
  - apply incr_cons. split; [|by apply incr_cons]. intros y Hy. apply elem_of_cons in Hy as [->|Hy]; [lia|].
    specialize (H1 y Hy). lia.
Qed.

(** The two halves of an overfull leaf. *)
Lemma leaf_halves es lo hi p q : (3 <= order)%nat -> sorted_in lo hi (map fst es) -> length es = order ->
  exists k' x rest, drop (cut (order - 1)) es = (k', x) :: rest /\ lo <= k' /\ k' < hi /\
    ok 0 false lo k' (Leaf p (take (cut (order - 1)) es)) /\ ok 0 false k' hi (Leaf q (drop (cut (order - 1)) es)).
Proof.
  intros Ho [HI HF] Hlen. pose proof (cut_bounds (order - 1)) as Hc.
  destruct (drop (cut (order - 1)) es) as [|[k' x] rest] eqn:E.
  { apply (f_equal length) in E. rewrite length_drop in E. cbn in E. lia. }
  exists k', x, rest. split; [done|].
  assert (Hes : es = take (cut (order - 1)) es ++ (k', x) :: rest) by by rewrite <- E, take_drop.
  assert (Hlr : length ((k', x) :: rest) = (order - cut (order - 1))%nat) by by rewrite <- E, length_drop, Hlen.
  rewrite Hes, map_app in HI, HF. cbn [map fst] in HI, HF. apply incr_app in HI as (I1 & I2 & I3).
  apply Forall_app in HF as [F1 F2]. apply Forall_cons in F2 as [Hk F2].
  split_and!; [lia|lia| |].
  - cbn. split_and!; [done| |unfold leaf_min; rewrite length_take; lia|rewrite length_take; lia].
    apply Forall_forall. intros y Hy. rewrite Forall_forall in F1. specialize (F1 y Hy).
    specialize (I3 y k' Hy ltac:(by left)). lia.
  - cbn [ok]. split_and!; [done| |unfold leaf_min; lia|lia].
    apply Forall_forall. cbn [map fst]. intros y Hy. apply incr_cons in I2 as [I2 _]. rewrite Forall_forall in F2.
    apply elem_of_cons in Hy as [->|Hy]; [lia|]. specialize (F2 y Hy). specialize (I2 y Hy). lia.
Qed.
End Ok.
