(* ===== verification/BTreeProof.v ===== *)
(** * The B+ tree of the btree workload: the store refines trees, trees refine maps *)
From S2P Require Export BTreeTree.

(** ** Array loops *)

Section Arrays.
Context {A : Type}.
Implicit Types a src dst l s d sa sb da db : list A.

Lemma aget_spec a i x : a !! i = Some x -> aget a i = Val x.
Proof. intros E. unfold aget. by rewrite E. Qed.

Lemma aset_spec a i x : (i < length a)%nat -> aset a i x = Val (<[i := x]> a).
Proof. intros E. unfold aset. by rewrite (proj2 (Nat.ltb_lt _ _)). Qed.

Lemma aset_middle l1 x l2 v n : n = length l1 -> aset (l1 ++ x :: l2) n v = Val (l1 ++ v :: l2).
Proof.
  intros ->. rewrite aset_spec by (rewrite length_app; cbn; lia). f_equal. by rewrite insert_app_r_alt, Nat.sub_diag by lia.
Qed.

Lemma aget_middle l1 x l2 n : n = length l1 -> aget (l1 ++ x :: l2) n = Val x.
Proof. intros ->. apply aget_spec. by rewrite lookup_app_r, Nat.sub_diag by lia. Qed.

(** [a[lo .. lo+n)] moves one place up; the value at [lo] stays. *)
Lemma shift_right_spec l1 mid x l2 :
  exists y, shift_right (l1 ++ mid ++ x :: l2) (length l1) (length mid) = Val (l1 ++ y :: mid ++ l2).
Proof.
  revert x l2. induction mid as [|m mid IH] using rev_ind; intros x l2; [by exists x|].
  rewrite length_app, Nat.add_comm. cbn [length Nat.add shift_right].
  rewrite <- app_assoc. cbn [app].
  rewrite (app_assoc l1 mid). rewrite aget_middle by by rewrite length_app. cbn [mbind cres_bind].
  replace ((l1 ++ mid) ++ m :: x :: l2) with ((l1 ++ mid ++ [m]) ++ x :: l2) by by rewrite <- !app_assoc.
  rewrite aset_middle by (rewrite !length_app; cbn; lia). cbn [mbind cres_bind].
  replace ((l1 ++ mid ++ [m]) ++ m :: l2) with (l1 ++ mid ++ m :: m :: l2) by by rewrite <- !app_assoc.
  destruct (IH m (m :: l2)) as [y ->]. exists y. rewrite <- app_assoc. done.
Qed.

(** Shift and store: an insertion. *)
Lemma shift_insert l1 mid x l2 v :
  (a ← shift_right (l1 ++ mid ++ x :: l2) (length l1) (length mid); aset a (length l1) v) = Val (l1 ++ v :: mid ++ l2).
Proof. destruct (shift_right_spec l1 mid x l2) as [y ->]. cbn [mbind cres_bind]. by apply aset_middle. Qed.

Lemma copy_spec n : forall s1 s2 s3 d1 d2 d3, length s2 = n -> length d2 = n ->
  copy (s1 ++ s2 ++ s3) (length s1) (d1 ++ d2 ++ d3) (length d1) n = Val (d1 ++ s2 ++ d3).
Proof.
  induction n as [|n IH]; intros s1 s2 s3 d1 d2 d3 H1 H2; [by destruct s2, d2|].
  destruct s2 as [|x s2], d2 as [|y d2]; try done. cbn [copy app]. rewrite aget_middle by done. cbn [mbind cres_bind].
  rewrite aset_middle by done. cbn [mbind cres_bind].
  replace (s1 ++ x :: s2 ++ s3) with ((s1 ++ [x]) ++ s2 ++ s3) by by rewrite <- app_assoc.
  replace (d1 ++ x :: d2 ++ d3) with ((d1 ++ [x]) ++ d2 ++ d3) by by rewrite <- app_assoc.
  replace (S (length s1)) with (length (s1 ++ [x])) by (rewrite length_app; cbn; lia).
  replace (S (length d1)) with (length (d1 ++ [x])) by (rewrite length_app; cbn; lia).
  rewrite IH by (cbn in *; lia). by rewrite <- app_assoc.
Qed.

(** Copies past the gap. *)
Lemma copy_skip_after n : forall s1 s2 s3 d1 d2 d3 skip, length s2 = n -> length d2 = n -> (skip < length d1)%nat ->
  copy_skip (s1 ++ s2 ++ s3) (length s1) (d1 ++ d2 ++ d3) (length d1) skip n = Val (d1 ++ s2 ++ d3).
Proof.
  induction n as [|n IH]; intros s1 s2 s3 d1 d2 d3 skip H1 H2 Hs; [by destruct s2, d2|].
  destruct s2 as [|x s2], d2 as [|y d2]; try done. cbn [copy_skip app].
  rewrite (proj2 (Nat.eqb_neq _ _)) by lia. rewrite aget_middle by done. cbn [mbind cres_bind].
  rewrite aset_middle by done. cbn [mbind cres_bind].
  replace (s1 ++ x :: s2 ++ s3) with ((s1 ++ [x]) ++ s2 ++ s3) by by rewrite <- app_assoc.
  replace (d1 ++ x :: d2 ++ d3) with ((d1 ++ [x]) ++ d2 ++ d3) by by rewrite <- app_assoc.
  replace (S (length s1)) with (length (s1 ++ [x])) by (rewrite length_app; cbn; lia).
  replace (S (length d1)) with (length (d1 ++ [x])) by (rewrite length_app; cbn; lia).
  rewrite IH by (cbn in *; rewrite ?length_app; lia). by rewrite <- app_assoc.
Qed.

(** [sa ++ sb] is copied with a gap between the two parts, which keeps what
    was there. *)
Lemma copy_skip_spec sa : forall s1 sb s3 d1 da g db d3 skip,
  skip = (length d1 + length sa)%nat -> length da = length sa -> length db = length sb ->
  exists y, copy_skip (s1 ++ sa ++ sb ++ s3) (length s1) (d1 ++ da ++ g :: db ++ d3) (length d1) skip (length sa + length sb)
     = Val (d1 ++ sa ++ y :: sb ++ d3).
Proof.
  induction sa as [|x sa IH]; intros s1 sb s3 d1 da g db d3 skip Hs Ha Hb; cbn in Hs, Ha |- *.
  - destruct da; [|done]. cbn [app]. destruct sb as [|x sb], db as [|y db]; try done; [by exists g|].
    exists g. cbn [copy_skip length app]. rewrite (proj2 (Nat.eqb_eq (length d1) skip)) by lia.
    rewrite aget_middle by done. cbn [mbind cres_bind].
    replace (d1 ++ g :: y :: db ++ d3) with ((d1 ++ [g]) ++ y :: db ++ d3) by by rewrite <- app_assoc.
    rewrite aset_middle by (rewrite length_app; cbn; lia). cbn [mbind cres_bind].
    replace (s1 ++ x :: sb ++ s3) with ((s1 ++ [x]) ++ sb ++ s3) by by rewrite <- app_assoc.
    replace ((d1 ++ [g]) ++ x :: db ++ d3) with ((d1 ++ [g; x]) ++ db ++ d3) by by rewrite <- !app_assoc.
    replace (S (length s1)) with (length (s1 ++ [x])) by (rewrite length_app; cbn; lia).
    replace (S (S (length d1))) with (length (d1 ++ [g; x])) by (rewrite length_app; cbn; lia).
    rewrite copy_skip_after by (cbn in *; rewrite ?length_app; cbn; lia). by rewrite <- app_assoc.
  - destruct da as [|y da]; [done|]. cbn [app]. rewrite (proj2 (Nat.eqb_neq (length d1) skip)) by lia.
    rewrite aget_middle by done. cbn [mbind cres_bind]. rewrite aset_middle by done. cbn [mbind cres_bind].
    replace (s1 ++ x :: sa ++ sb ++ s3) with ((s1 ++ [x]) ++ sa ++ sb ++ s3) by by rewrite <- app_assoc.
    replace (d1 ++ x :: da ++ g :: db ++ d3) with ((d1 ++ [x]) ++ da ++ g :: db ++ d3) by by rewrite <- app_assoc.
    replace (S (length s1)) with (length (s1 ++ [x])) by (rewrite length_app; cbn; lia).
    replace (S (length d1)) with (length (d1 ++ [x])) by (rewrite length_app; cbn; lia).
    destruct (IH (s1 ++ [x]) sb s3 (d1 ++ [x]) da g db d3 skip) as [z ->]; [rewrite length_app; cbn; lia|cbn in Ha; lia|lia|].
    exists z. by rewrite <- app_assoc.
Qed.

(** Copy with a gap, then store: the temporary array with the new element in
    place. *)
Lemma copy_skip_insert sa sb s3 d v skip (n : nat) :
  skip = length sa -> n = (length sa + length sb)%nat -> (n < length d)%nat ->
  (a ← copy_skip (sa ++ sb ++ s3) 0 d 0 skip n; aset a skip v) = Val (sa ++ v :: sb ++ drop (S n) d).
Proof.
  intros -> -> Hd.
  assert (exists da g db d3, d = da ++ g :: db ++ d3 /\ length da = length sa /\ length db = length sb) as
    (da & g & db & d3 & -> & Ha & Hb).
  { exists (take (length sa) d). destruct (drop (length sa) d) as [|g r] eqn:E.
    { apply (f_equal length) in E. rewrite length_drop in E. cbn in E. lia. }
    pose proof E as E2. apply (f_equal length) in E2. rewrite length_drop in E2. cbn in E2.
    exists g, (take (length sb) r), (drop (length sb) r). rewrite take_drop, <- E, take_drop, !length_take.
    split_and!; [done|lia|lia]. }
  destruct (copy_skip_spec sa [] sb s3 [] da g db d3 (length sa)) as [y E]; [done|done|done|].
  cbn [app length Nat.add] in E. rewrite E. cbn [mbind cres_bind]. rewrite aset_middle by done. do 3 f_equal.
  rewrite <- Ha, <- Hb. replace (S (length da + length db)) with (length (da ++ g :: db)) by (rewrite length_app; cbn; lia).
  replace (da ++ g :: db ++ d3) with ((da ++ g :: db) ++ d3) by by rewrite <- app_assoc.
  by rewrite drop_app_length.
Qed.

Lemma copy_from src si dst n : (si + n <= length src)%nat -> (n <= length dst)%nat ->
  copy src si dst 0 n = Val (take n (drop si src) ++ drop n dst).
Proof.
  intros H1 H2.
  pose proof (copy_spec n (take si src) (take n (drop si src)) (drop n (drop si src)) [] (take n dst) (drop n dst)) as E.
  rewrite !take_drop, length_take, !length_take, length_drop, !Nat.min_l in E by lia. apply E; lia.
Qed.

(** One element more after a copy. *)
Lemma aset_extend l d n v : l !! n = Some v -> (n < length d)%nat ->
  aset (take n l ++ drop n d) n v = Val (take (S n) l ++ drop (S n) d).
Proof.
  intros E Hd. pose proof (lookup_lt_Some _ _ _ E). destruct (drop n d) as [|y r] eqn:Ed.
  { apply (f_equal length) in Ed. rewrite length_drop in Ed. cbn in Ed. lia. }
  rewrite aset_middle by (rewrite length_take; lia). rewrite (take_S_r _ _ _ E), <- app_assoc. cbn [app]. do 3 f_equal.
  replace (S n) with (n + 1)%nat by lia. by rewrite <- drop_drop, Ed.
Qed.

Lemma take_prefix l pre : take (length pre) l = pre -> exists j, l = pre ++ j.
Proof. intros E. exists (drop (length pre) l). by rewrite <- E at 1; rewrite take_drop. Qed.

Lemma fill_length n : forall a lo v, (lo + n <= length a)%nat ->
  exists a', fill a lo n v = Val a' /\ length a' = length a /\ take lo a' = take lo a /\
    (forall i, (lo + n <= i)%nat -> a' !! i = a !! i).
Proof.
  induction n as [|n IH]; intros a lo v H; [by exists a|]. cbn [fill]. rewrite aset_spec by lia. cbn [mbind cres_bind].
  destruct (IH (<[lo := v]> a) (S lo) v) as (a' & -> & HL & HT & HI); [rewrite length_insert; lia|].
  exists a'. split; [done|]. rewrite HL, length_insert. split; [done|]. split.
  - apply (f_equal (take lo)) in HT. rewrite !take_take, !Nat.min_l, take_insert_ge in HT by lia. exact HT.
  - intros i Hi. rewrite HI by lia. by rewrite list_lookup_insert_ne by lia.
Qed.
End Arrays.

(** ** Running a computation *)

Lemma bindM {A B} (m : M A) (f : A -> M B) h a h' : m h = Val (a, h') -> (m ≫= f) h = f a h'.
Proof. intros E. unfold mbind, M_bind. by rewrite E. Qed.
Lemma bind_load {B} p nd (f : node -> M B) h : nodes h !! p = Some nd -> (load p ≫= f) h = f nd h.
Proof. intros E. apply bindM. unfold load. by rewrite E. Qed.
Lemma bind_lift {A B} (r : cres A) (f : A -> M B) h a : r = Val a -> (lift r ≫= f) h = f a h.
Proof. intros ->. by apply bindM. Qed.
Lemma bind_store {B} p nd n (f : unit -> M B) h : nodes h !! p = Some nd ->
  (store p n ≫= f) h = f tt (set_nodes h (<[p := n]> (nodes h))).
Proof. intros E. apply bindM. unfold store. by rewrite E. Qed.
Lemma bind_modify {B} g (f : unit -> M B) h : (modify g ≫= f) h = f tt (g h).
Proof. done. Qed.
Lemma bind_set_parent {B} p q nd (f : unit -> M B) h : nodes h !! p = Some nd ->
  (set_parent p q ≫= f) h = f tt (set_nodes h (<[p := with_parent nd q]> (nodes h))).
Proof. intros E. apply bindM. unfold set_parent. rewrite (bind_load p nd) by done. unfold store. by rewrite E. Qed.

Lemma cres_bind_inv {A B} (m : cres A) (f : A -> cres B) b : (m ≫= f) = Val b -> exists a, m = Val a /\ f a = Val b.
Proof. destruct m as [a|]; [|done]. intros E. by exists a. Qed.

(** ** What the store represents *)

Section Rep.
Context (order : nat).
Implicit Types (N : gmap Z node) (par p q : Z) (t : tree) (C : list frame).

Record leaf_node par (es : list (Z * Z)) (nd : node) : Prop := {
  ln_leaf : is_leaf nd = true;
  ln_parent : parent nd = par;
  ln_num : num_keys nd = length es;
  ln_keys : exists j, keys nd = map fst es ++ j;
  ln_pointers : exists j, pointers nd = map snd es ++ j;
  ln_lk : length (keys nd) = (order - 1)%nat;
  ln_lp : length (pointers nd) = order
}.

Record inner_node par (ks ps : list Z) (nd : node) : Prop := {
  in_leaf : is_leaf nd = false;
  in_parent : parent nd = par;
  in_num : num_keys nd = length ks;
  in_keys : exists j, keys nd = ks ++ j;
  in_pointers : exists j, pointers nd = ps ++ j;
  in_lk : length (keys nd) = (order - 1)%nat;
  in_lp : length (pointers nd) = order
}.

Definition allP {A} (P : A -> Prop) (l : list A) : Prop := foldr (fun x acc => P x /\ acc) True l.

Lemma allP_Forall {A} (P : A -> Prop) l : allP P l <-> Forall P l.
Proof. induction l as [|a l IH]; cbn; [by split|]. rewrite IH. by rewrite Forall_cons. Qed.

Lemma allP_app {A} (P : A -> Prop) l1 l2 : allP P (l1 ++ l2) <-> allP P l1 /\ allP P l2.
Proof. rewrite !allP_Forall. apply Forall_app. Qed.

Fixpoint rep N par t : Prop :=
  match t with
  | Leaf p es => exists nd, N !! p = Some nd /\ leaf_node par es nd
  | Node p ks ts => (exists nd, N !! p = Some nd /\ inner_node par ks (map addr ts) nd) /\ allP (rep N p) ts
  end.

(** The nodes of the path [C], whose hole is the subtree at [q]. *)
Fixpoint repctx N q C : Prop :=
  match C with
  | [] => True
  | F :: C =>
      (exists nd, N !! f_ptr F = Some nd /\
         inner_node (top C) (ks1 F ++ ks2 F) (map addr (ts1 F) ++ q :: map addr (ts2 F)) nd) /\
      allP (rep N (f_ptr F)) (ts1 F) /\ allP (rep N (f_ptr F)) (ts2 F) /\ repctx N (f_ptr F) C
  end.

Lemma rep_plug N C : forall t, rep N 0 (plug C t) <-> rep N (top C) t /\ repctx N (addr t) C.
Proof using.
  induction C as [|F C IH]; intros t; cbn [plug top repctx]; [tauto|].
  rewrite IH. cbn [rep addr]. rewrite allP_app, map_app. cbn [map allP foldr]. unfold allP. tauto.
Qed.

Lemma elem_of_concat_map {A B} (f : A -> list B) l x : x ∈ concat (map f l) <-> exists a, a ∈ l /\ x ∈ f a.
Proof using.
  rewrite list_elem_of_In, in_concat. split.
  - intros (y & Hy & Hx). apply list_elem_of_In in Hx. apply in_map_iff in Hy as (a & <- & Ha). exists a. split; [by apply list_elem_of_In|done].
  - intros (a & Ha & Hx). exists (f a). split; [|by apply list_elem_of_In]. apply in_map. by apply list_elem_of_In.
Qed.

Lemma rep_frame N N' t : forall par, (forall x, x ∈ addrs t -> N' !! x = N !! x) -> rep N par t -> rep N' par t.
Proof using.
  induction t as [p es|p ks ts IH] using tree_ind'; intros par HS; cbn [rep].
  - intros (nd & E & H). exists nd. split; [|done]. rewrite HS; [done|]. by left.
  - intros [(nd & E & H) HR]. split; [exists nd; split; [rewrite HS; [done|by left]|done]|].
    rewrite allP_Forall, Forall_forall in *. intros t Ht. apply (IH t Ht); [|by apply HR].
    intros x Hx. apply HS. cbn. right. apply elem_of_concat_map. by exists t.
Qed.

Lemma allrep_frame N N' par ts : (forall x, x ∈ concat (map addrs ts) -> N' !! x = N !! x) ->
  allP (rep N par) ts -> allP (rep N' par) ts.
Proof using.
  rewrite !allP_Forall, !Forall_forall. intros HS HR t Ht. apply (rep_frame N); [|by apply HR].
  intros x Hx. apply HS, elem_of_concat_map. by exists t.
Qed.

Lemma repctx_frame N N' C : forall q, (forall x, x ∈ caddrs C -> N' !! x = N !! x) -> repctx N q C -> repctx N' q C.
Proof using.
  induction C as [|F C IH]; intros q HS; cbn [repctx]; [done|].
  assert (H1 : forall x, x ∈ frame_addrs F -> N' !! x = N !! x).
  { intros x Hx. apply HS. rewrite caddrs_cons. apply elem_of_app. by left. }
  assert (H2 : N' !! f_ptr F = N !! f_ptr F) by (apply H1; by left).
  assert (H3 : forall x, x ∈ concat (map addrs (ts1 F)) \/ x ∈ concat (map addrs (ts2 F)) -> N' !! x = N !! x).
  { intros x Hx. apply H1. right. by apply elem_of_app. }
  intros ((nd & E & H) & HR1 & HR2 & HC). split_and!.
  - exists nd. split; [|done]. by rewrite H2.
  - eapply allrep_frame; [|exact HR1]. auto.
  - eapply allrep_frame; [|exact HR2]. auto.
  - apply IH; [|done]. intros x Hx. apply HS. rewrite caddrs_cons. apply elem_of_app. by right.
Qed.

Lemma rep_dom N t : forall par x, rep N par t -> x ∈ addrs t -> is_Some (N !! x).
Proof using.
  induction t as [p es|p ks ts IH] using tree_ind'; intros par x; cbn [rep addrs].
  - intros (nd & E & _) Hx. apply list_elem_of_singleton in Hx as ->. by exists nd.
  - intros [(nd & E & _) HR] Hx. apply elem_of_cons in Hx as [->|Hx]; [by exists nd|].
    apply elem_of_concat_map in Hx as (t & Ht & Hx). rewrite allP_Forall, Forall_forall in *.
    exact (IH t Ht p x (HR t Ht) Hx).
Qed.

Lemma repctx_dom N C : forall q x, repctx N q C -> x ∈ caddrs C -> is_Some (N !! x).
Proof using.
  induction C as [|F C IH]; intros q x; cbn [repctx]; [by intros _ ?%elem_of_nil|].
  intros ((nd & E & _) & H1 & H2 & HC) Hx. rewrite caddrs_cons in Hx. unfold frame_addrs in Hx.
  rewrite elem_of_app, elem_of_cons, elem_of_app, !elem_of_concat_map in Hx. rewrite allP_Forall, Forall_forall in H1, H2.
  destruct Hx as [[->|[(t & Ht & Hx)|(t & Ht & Hx)]]|Hx].
  - by exists nd.
  - exact (rep_dom N t _ x (H1 t Ht) Hx).
  - exact (rep_dom N t _ x (H2 t Ht) Hx).
  - exact (IH _ x HC Hx).
Qed.

(** Only the parent of the root changes. *)
Lemma rep_reparent N N' par q t : rep N par t -> NoDup (addrs t) ->
  N' !! addr t = (fun nd => with_parent nd q) <$> N !! addr t ->
  (forall x, x ∈ addrs t -> x <> addr t -> N' !! x = N !! x) -> rep N' q t.
Proof using.
  destruct t as [p es|p ks ts]; cbn [rep addr addrs]; intros HR HN HA HS.
  - destruct HR as (nd & E & []). rewrite E in HA. eexists; split; [exact HA|]. by split.
  - destruct HR as [(nd & E & []) HR]. rewrite E in HA. split; [eexists; split; [exact HA|]; by split|].
    apply NoDup_cons in HN as [HN _]. eapply allrep_frame; [|exact HR]. intros x Hx. apply HS; [by right|].
    intros ->. by apply HN.
Qed.

(** ** Finding a leaf *)

Lemma child_index_spec key ka : forall pre kb j, Forall (fun k => k <= key) ka -> (forall k kb', kb = k :: kb' -> key < k) ->
  child_index (pre ++ ka ++ kb ++ j) key (length ka + length kb) (length pre) = Val (length pre + length ka)%nat.
Proof using.
  induction ka as [|k ka IH]; intros pre kb j HF Hb; cbn [length Nat.add].
  - cbn [app]. rewrite Nat.add_0_r. destruct kb as [|k kb]; [done|]. cbn [child_index length app].
    rewrite aget_middle by done. cbn [mbind cres_bind]. specialize (Hb k kb eq_refl).
    by rewrite (proj2 (Z.leb_gt _ _)) by lia.
  - apply Forall_cons in HF as [Hk HF]. cbn [child_index app]. rewrite aget_middle by done. cbn [mbind cres_bind].
    rewrite (proj2 (Z.leb_le _ _)) by lia.
    replace (pre ++ k :: ka ++ kb ++ j) with ((pre ++ [k]) ++ ka ++ kb ++ j) by by rewrite <- app_assoc.
    replace (S (length pre)) with (length (pre ++ [k])) by (rewrite length_app; cbn; lia).
    rewrite IH by done. f_equal. rewrite length_app. cbn. lia.
Qed.

Lemma okctx_frame n lo hi F C : okctx order n lo hi (F :: C) -> length (ts1 F) = length (ks1 F) /\ length (ts2 F) = length (ks2 F).
Proof using.
  intros (Lo & Hi & _ & HL & HR & _). split; [by eapply lsegs_length|by eapply rsegs_length].
Qed.

Lemma find_leaf_from_spec h key n : forall C t lo hi fuel,
  rep (nodes h) (top C) t -> okctx order n lo hi C -> ok order n (is_nil C) lo hi t -> lo <= key < hi -> (n < fuel)%nat ->
  exists C' p es a b, find_leaf_from fuel (addr t) key h = Val (p, h) /\ plug C' (Leaf p es) = plug C t /\
    okctx order 0 a b C' /\ ok order 0 (is_nil C') a b (Leaf p es) /\ a <= key < b /\ length C' = (n + length C)%nat.
Proof using.
  induction n as [|n IH]; intros C t lo hi fuel HR HC HO Hk Hf; (destruct fuel as [|fuel]; [lia|]);
    destruct t as [p es|p ks ts]; try done.
  - destruct HR as (nd & E & HL). exists C, p, es, lo, hi. split_and!; try done; try lia. cbn [find_leaf_from addr].
    rewrite (bind_load p nd) by done. by rewrite (ln_leaf _ _ _ HL).
  - destruct HR as [(nd & E & HL) HR]. cbn [ok] in HO. destruct HO as [HS Hlen].
    destruct (segs_find _ _ _ _ _ key HS Hk) as (ka & kb & ta & t & tb & a & b & -> & -> & H1 & H2 & H3 & H4 & H5 & H6).
    cbn [find_leaf_from addr]. rewrite (bind_load p nd) by done. rewrite (in_leaf _ _ _ _ HL).
    destruct (in_keys _ _ _ _ HL) as [j Ej]. destruct (in_pointers _ _ _ _ HL) as [j' Ej'].
    pose proof (lsegs_length _ _ _ _ _ H1) as Hla.
    rewrite (bind_lift _ _ _ (length ka)).
    2: { rewrite Ej, (in_num _ _ _ _ HL), length_app, <- app_assoc.
         pose proof (child_index_spec key ka [] kb j H5 H6) as Hci. cbn in Hci. exact Hci. }
    rewrite (bind_lift _ _ _ (addr t)).
    2: { rewrite Ej', map_app, <- app_assoc. cbn [map app]. apply aget_middle. by rewrite length_map. }
    rewrite allP_app in HR. cbn in HR. destruct HR as (R1 & R2 & R3).
    destruct (IH (Frame p ka ta kb tb :: C) t a b fuel) as (C' & p' & es & a' & b' & Hrun & Hplug & Hctx & Hok & Hab & HlenC).
    + exact R2.
    + exists lo, hi. split; [exact HC|]. split; [exact H1|]. split; [exact H3|exact Hlen].
    + done.
    + done.
    + lia.
    + exists C', p', es, a', b'. split_and!; try done; try lia. rewrite HlenC. cbn. lia.
Qed.

Lemma key_index_spec key (es : list (Z * Z)) : forall pre j, exists i, key_index (pre ++ map fst es ++ j) key (length es) (length pre) = Val (length pre + i)%nat /\
  (i <= length es)%nat /\
  match es !! i with
  | Some (k, r) => k = key
  | None => key ∉ map fst es
  end.
Proof using.
  induction es as [|[k r] es IH]; intros pre j; cbn [length map fst key_index app].
  - exists 0%nat. rewrite Nat.add_0_r. split_and!; [done|done|]. apply not_elem_of_nil.
  - rewrite aget_middle by done. cbn [mbind cres_bind]. destruct (k =? key) eqn:E; zbool.
    + exists 0%nat. rewrite Nat.add_0_r. split_and!; [done|lia|done].
    + destruct (IH (pre ++ [k]) j) as (i & HI & Hle & Hm). exists (S i).
      replace (pre ++ k :: map fst es ++ j) with ((pre ++ [k]) ++ map fst es ++ j) by by rewrite <- app_assoc.
      replace (S (length pre)) with (length (pre ++ [k])) by (rewrite length_app; cbn; lia).
      rewrite HI, length_app. cbn [length]. split_and!; [f_equal; lia|lia|]. cbn. destruct (es !! i) as [[]|]; [done|].
      apply not_elem_of_cons. done.
Qed.

(** ** Whole trees *)

Record tree_at (h : heap) (root : Z) (T : tree) (n : nat) : Prop := {
  at_rep : rep (nodes h) 0 T;
  at_root : addr T = root;
  at_ok : ok order n true 0 w64 T;
  at_nodup : NoDup (addrs T);
  at_null : root <> 0
}.

Lemma nodup_size N l : NoDup l -> (forall x, x ∈ l -> is_Some (N !! x)) -> (length l <= size N)%nat.
Proof using.
  intros HN HD. rewrite <- size_dom, <- (size_list_to_set (C := gset Z) l HN). apply subseteq_size.
  intros x Hx. apply elem_of_list_to_set in Hx. by apply elem_of_dom, HD.
Qed.

Lemma ok_height n : forall root lo hi t, ok order n root lo hi t -> (n < length (addrs t))%nat.
Proof using.
  induction n as [|n IH]; intros root lo hi [p es|p ks ts] H; try done; cbn in *; [lia|].
  destruct H as [H _]. assert (exists t ts' a b, ts = t :: ts' /\ ok order n false a b t) as (t & ts' & a & b & -> & Ht).
  { destruct ks as [|k ks], ts as [|t ts]; try done; cbn in H.
    - destruct ts; [|done]. exists t, [], lo, hi. tauto.
    - exists t, ts, lo, k. tauto. }
  cbn. rewrite length_app. apply IH in Ht. lia.
Qed.

Lemma tree_fuel h root T n : tree_at h root T n -> (n < fuel_of h)%nat /\ (length (addrs T) < fuel_of h)%nat.
Proof using.
  intros []. pose proof (ok_height _ _ _ _ _ at_ok0). unfold fuel_of.
  assert (length (addrs T) <= size (nodes h))%nat; [|lia].
  apply nodup_size; [done|]. intros x. by apply rep_dom with (par := 0).
Qed.

Lemma find_leaf_spec h root T n key : tree_at h root T n -> 0 <= key < w64 ->
  exists C p es a b, find_leaf root key h = Val (p, h) /\ T = plug C (Leaf p es) /\
    okctx order 0 a b C /\ ok order 0 (is_nil C) a b (Leaf p es) /\ a <= key < b /\
    rep (nodes h) (top C) (Leaf p es) /\ repctx (nodes h) p C /\ length C = n.
Proof using.
  intros HT Hk. pose proof (tree_fuel _ _ _ _ HT) as [Hf _]. destruct HT as [R <- O ND Hnull].
  unfold find_leaf. rewrite (proj2 (Z.eqb_neq _ _)) by done. unfold with_fuel.
  destruct (find_leaf_from_spec h key n [] T 0 w64 (fuel_of h)) as (C & p & es & a & b & Hrun & Hplug & Hctx & Hok & Hab & HlenC);
    [done|done|done|done|done|]. cbn [plug] in Hplug. subst T.
  exists C, p, es, a, b. apply rep_plug in R as [R1 R2]. split_and!; (done || (cbn in HlenC; lia)).
Qed.

(** The keys outside the leaf a key belongs to are not that key. *)
Lemma not_around n a b C key : okctx order n a b C -> a <= key < b ->
  key ∉ map fst (before flatten C) /\ key ∉ map fst (after flatten C).
Proof using.
  intros HC Hk. destruct (okctx_bounds _ _ _ _ _ HC) as (_ & _ & [_ F1] & [_ F2]). rewrite Forall_forall in F1, F2.
  split; intros Hin; [specialize (F1 _ Hin)|specialize (F2 _ Hin)]; lia.
Qed.

Lemma find_spec h root T n key : tree_at h root T n -> 0 <= key < w64 ->
  exists r leaf, find root key h = Val ((r, leaf), h) /\
    ((r = 0 /\ key ∉ map fst (flatten T)) \/ (key, r) ∈ flatten T).
Proof using.
  intros HT Hk. destruct (find_leaf_spec h root T n key HT Hk) as (C & p & es & a & b & Hrun & HTe & HC & HO & Hab & HR & _).
  destruct HT as [_ _ _ _ Hnull]. unfold find. rewrite (proj2 (Z.eqb_neq _ _)) by done.
  rewrite (bindM _ _ _ _ _ Hrun). destruct HR as (nd & E & HL). rewrite (bind_load p nd) by done.
  destruct (ln_keys _ _ _ HL) as [j Ej]. destruct (ln_pointers _ _ _ HL) as [j' Ej'].
  destruct (key_index_spec key es [] j) as (i & Hi & Hle & Hm). cbn [app length Nat.add] in Hi.
  rewrite (bind_lift _ _ _ i); [|by rewrite Ej, (ln_num _ _ _ HL)]. rewrite (ln_num _ _ _ HL).
  subst T. rewrite flatten_plug. cbn [flatten]. destruct (es !! i) as [[k r]|] eqn:Ei.
  - subst k. pose proof (lookup_lt_Some _ _ _ Ei). rewrite (proj2 (Nat.eqb_neq _ _)) by lia.
    rewrite (bind_lift _ _ _ r).
    2: { rewrite Ej'. apply aget_spec. rewrite lookup_app_l by (rewrite length_map; lia).
         change (map snd es) with (snd <$> es). by rewrite list_lookup_fmap, Ei. }
    exists r, p. split; [done|]. right. rewrite !elem_of_app. right. left. by eapply list_elem_of_lookup_2.
  - apply lookup_ge_None in Ei. rewrite (proj2 (Nat.eqb_eq _ _)) by lia. exists 0, p. split; [done|]. left. split; [done|].
    destruct (not_around _ _ _ _ _ HC Hab). rewrite !map_app, !elem_of_app. tauto.
Qed.
End Rep.

(** ** Allocation *)

Section Alloc.
Context `{SL : SlabsLaws} (order : nat).

(** Free and live objects of one kind, among the slabs taken so far. *)
Record pool_ok (slab : nat -> Z) (esize : Z) (free : list Z) (live : Z -> Prop) (slabs : nat) : Prop := {
  pool_nodup : NoDup free;
  pool_free x : x ∈ free -> ~ live x;
  pool_slab x : live x \/ x ∈ free ->
    exists i k, (i < slabs)%nat /\ 0 <= k < SLAB_GROW / esize /\ x = slab i + k * esize
}.

Definition alloc_inv (h : heap) : Prop :=
  pool_ok node_slab NODE_SIZE (free_nodes h) (fun x => is_Some (nodes h !! x)) (node_slabs h) /\
  pool_ok rec_slab RECORD_SIZE (free_recs h) (fun x => is_Some (records h !! x)) (rec_slabs h).

Lemma push_slab_spec base esize : 0 < esize ->
  NoDup (push_slab base esize []) /\
  forall x, x ∈ push_slab base esize [] <-> exists k, 0 <= k < SLAB_GROW / esize /\ x = base + k * esize.
Proof using.
  intros He. unfold push_slab. set (n := Z.to_nat (SLAB_GROW / esize)).
  assert (HN : Z.of_nat n = SLAB_GROW / esize) by (apply Z2Nat.id, Z.div_pos; [done|lia]). rewrite <- HN. clearbody n. clear HN.
  assert (HF : forall m l, foldl (fun l i => (base + Z.of_nat i * esize) :: l) l (seq 0 m) =
              rev (map (fun i => base + Z.of_nat i * esize) (seq 0 m)) ++ l).
  { induction m as [|m IH]; intros l; [done|]. rewrite seq_S, foldl_app, IH, map_app, rev_app_distr. done. }
  rewrite HF, app_nil_r. split; [rewrite <- (Permutation_rev (map _ _))|].
  - change (map (fun i => base + Z.of_nat i * esize)) with (fmap (M := list) (fun i => base + Z.of_nat i * esize)).
    apply NoDup_fmap_2_strong; [|apply NoDup_seq]. intros x y _ _ E. nia.
  - intros x. rewrite <- (Permutation_rev (map _ _)).
    change (map (fun i => base + Z.of_nat i * esize)) with (fmap (M := list) (fun i => base + Z.of_nat i * esize)).
    rewrite list_elem_of_fmap. split.
    + intros (i & -> & Hi). apply elem_of_seq in Hi. exists (Z.of_nat i). split; [lia|done].
    + intros (k & Hk & ->). exists (Z.to_nat k). rewrite elem_of_seq. split; [by rewrite Z2Nat.id by lia|lia].
Qed.

Lemma pool_take slab esize free (live : Z -> Prop) slabs :
  (forall i, 0 < slab i) -> (forall i j, i <> j -> SLAB_GROW <= Z.abs (slab i - slab j)) ->
  0 < esize <= SLAB_GROW -> pool_ok slab esize free live slabs ->
  exists x rest slabs',
    refill slab esize free slabs = (x :: rest, slabs') /\
    ~ live x /\ 0 < x /\ pool_ok slab esize rest (fun y => y = x \/ live y) slabs'.
Proof using.
  intros Hpos Hap He HP.
  assert (HS : exists free' slabs', refill slab esize free slabs = (free', slabs') /\
      free' <> [] /\ pool_ok slab esize free' live slabs').
  { destruct free as [|x l]; [|by exists (x :: l), slabs].
    destruct (push_slab_spec (slab slabs) esize ltac:(lia)) as [HN HI].
    assert (Hq : 0 < SLAB_GROW / esize) by (apply Z.div_str_pos; lia).
    exists (push_slab (slab slabs) esize []), (S slabs). split; [done|]. split.
    - intros E. assert (slab slabs ∈ push_slab (slab slabs) esize []) as Hin by (apply HI; exists 0; lia).
      rewrite E in Hin. by apply elem_of_nil in Hin.
    - split; [done| |].
      + intros x Hx Hl. apply HI in Hx as (k & Hk & ->). destruct (pool_slab _ _ _ _ _ HP _ (or_introl Hl)) as (i & k' & Hi & Hk' & E).
        specialize (Hap slabs i ltac:(lia)). pose proof (Z.mul_div_le SLAB_GROW esize ltac:(lia)). nia.
      + intros x [Hx|Hx].
        * destruct (pool_slab _ _ _ _ _ HP x (or_introl Hx)) as (i & k & Hi & Hk & E). exists i, k. split_and!; try done; lia.
        * apply HI in Hx as (k & Hk & ->). exists slabs, k. split_and!; try done; lia. }
  destruct HS as (free' & slabs' & -> & Hne & HP'). destruct free' as [|x rest]; [done|]. clear HP free Hne.
  exists x, rest, slabs'. split; [done|]. destruct HP' as [HN HF HS]. apply NoDup_cons in HN as [Hx HN]. split_and!.
  - apply HF. by left.
  - destruct (HS x) as (i & k & _ & Hk & ->); [right; by left|]. specialize (Hpos i). nia.
  - split; [done| |].
    + intros y Hy [->|Hl]; [done|]. eapply HF; [|exact Hl]. by right.
    + intros y [[->|Hl]|Hy]; apply HS; [right; by left|by left|right; by right].
Qed.

Lemma pool_ext slab esize free (live live' : Z -> Prop) slabs :
  (forall x, live x <-> live' x) -> pool_ok slab esize free live slabs -> pool_ok slab esize free live' slabs.
Proof using.
  intros HE [HN HF HS]. split; [done| |].
  - intros x Hx Hl. eapply HF; [exact Hx|by apply HE].
  - intros x [Hx|Hx]; apply HS; [left; by apply HE|by right].
Qed.

Lemma alloc_inv_nodes h ns : (forall x, is_Some (nodes h !! x) <-> is_Some (ns !! x)) -> alloc_inv h -> alloc_inv (set_nodes h ns).
Proof using. intros HE [H1 H2]. split; [|exact H2]. eapply pool_ext; [exact HE|exact H1]. Qed.

Lemma alloc_inv_store h p nd n : nodes h !! p = Some nd -> alloc_inv h -> alloc_inv (set_nodes h (<[p := n]> (nodes h))).
Proof using.
  intros E. apply alloc_inv_nodes. intros x. destruct (decide (x = p)) as [->|].
  - rewrite E, lookup_insert_eq. by split; intros _; eexists.
  - by rewrite lookup_insert_ne.
Qed.

Lemma alloc_inv_record h p v w : records h !! p = Some v -> alloc_inv h -> alloc_inv (set_records h (<[p := w]> (records h))).
Proof using.
  intros E [H1 H2]. split; [exact H1|]. eapply pool_ext; [|exact H2]. intros x. cbn. destruct (decide (x = p)) as [->|].
  - rewrite E, lookup_insert_eq. by split; intros _; eexists.
  - by rewrite lookup_insert_ne.
Qed.

Lemma alloc_inv_pos h x : alloc_inv h -> is_Some (nodes h !! x) -> x <> 0.
Proof using SL.
  intros [[_ _ HS] _] Hx. destruct (HS x (or_introl Hx)) as (i & k & _ & Hk & ->). pose proof (node_slab_pos i).
  unfold NODE_SIZE in *. lia.
Qed.

Lemma alloc_inv_empty : alloc_inv empty_heap.
Proof using.
  split; (split; [constructor|by intros x ?%elem_of_nil|]); intros x [[y Hy]|Hx%elem_of_nil]; done.
Qed.

Lemma live_insert {A} (m : gmap Z A) p (v : A) x : (x = p \/ is_Some (m !! x)) <-> is_Some (<[p := v]> m !! x).
Proof using.
  destruct (decide (x = p)) as [->|Hne].
  - rewrite lookup_insert_eq. split; [intros _; by eexists|by left].
  - rewrite lookup_insert_ne by done. naive_solver.
Qed.

(** A node nobody has, with every field set. *)
Lemma make_node_spec h : alloc_inv h ->
  exists p h', make_node order h = Val (p, h') /\ nodes h !! p = None /\ p <> 0 /\
    nodes h' = <[p := new_node order false]> (nodes h) /\ records h' = records h /\ alloc_inv h'.
Proof using SL.
  intros [H1 H2].
  destruct (pool_take node_slab NODE_SIZE (free_nodes h) _ _ node_slab_pos node_slab_apart ltac:(done) H1)
    as (x & rest & slabs' & E & Hx & Hpos & HP).
  unfold make_node. eexists x, _. split.
  { rewrite (bindM _ _ _ x {| nodes := nodes h; records := records h; free_nodes := rest; free_recs := free_recs h;
                              node_slabs := slabs'; rec_slabs := rec_slabs h |}); [reflexivity|].
    unfold alloc_node. by rewrite E. }
  split_and!; [by apply eq_None_not_Some|lia|done|done|].
  split; [|exact H2]. cbn. eapply pool_ext; [|exact HP]. intros y. apply live_insert.
Qed.

Lemma make_record_spec h v : alloc_inv h ->
  exists p h', make_record v h = Val (p, h') /\ records h !! p = None /\ p <> 0 /\
    nodes h' = nodes h /\ records h' = <[p := v]> (records h) /\ alloc_inv h'.
Proof using SL.
  intros [H1 H2].
  destruct (pool_take rec_slab RECORD_SIZE (free_recs h) _ _ rec_slab_pos rec_slab_apart ltac:(done) H2)
    as (x & rest & slabs' & E & Hx & Hpos & HP).
  unfold make_record. eexists x, _. split.
  { rewrite (bindM _ _ _ x {| nodes := nodes h; records := records h; free_nodes := free_nodes h; free_recs := rest;
                              node_slabs := node_slabs h; rec_slabs := slabs' |}); [reflexivity|].
    unfold alloc_record. by rewrite E. }
  split_and!; [by apply eq_None_not_Some|lia|done|done|].
  split; [exact H1|]. cbn. eapply pool_ext; [|exact HP]. intros y. apply live_insert.
Qed.

Lemma make_leaf_spec h : alloc_inv h ->
  exists p h', make_leaf order h = Val (p, h') /\ nodes h !! p = None /\ p <> 0 /\
    nodes h' = <[p := new_node order true]> (nodes h) /\ records h' = records h /\ alloc_inv h'.
Proof using SL.
  intros HA. destruct (make_node_spec h HA) as (p & h1 & E & Hn & Hp & HN & HR & HA1).
  assert (E1 : nodes h1 !! p = Some (new_node order false)) by by rewrite HN, lookup_insert_eq.
  unfold make_leaf. eexists p, _. split.
  { rewrite (bindM _ _ _ _ _ E), (bind_load p _ _ _ E1), (bind_store p _ _ _ _ E1). reflexivity. }
  split_and!; [done|done| |done|by eapply alloc_inv_store].
  cbn. by rewrite HN, insert_insert_eq.
Qed.
End Alloc.

(** ** Insertion above a split *)

Section Grow.
Context `{SL : SlabsLaws} (order : nat) (Ho : (3 <= order)%nat).

(** Leaves keep their arrays. *)
Definition keeps (N N' : gmap Z node) : Prop :=
  forall p nd, N !! p = Some nd -> is_leaf nd = true ->
  exists nd', N' !! p = Some nd' /\ is_leaf nd' = true /\ pointers nd' = pointers nd.

Lemma keeps_refl N : keeps N N.
Proof using. intros p nd E L. by exists nd. Qed.
Lemma keeps_trans N1 N2 N3 : keeps N1 N2 -> keeps N2 N3 -> keeps N1 N3.
Proof using. intros H1 H2 p nd E L. destruct (H1 p nd E L) as (nd2 & E2 & L2 & P2). destruct (H2 p nd2 E2 L2) as (nd3 & ? & ? & ?). exists nd3. by rewrite <- P2. Qed.
Lemma keeps_insert N p n : (forall nd, N !! p = Some nd -> is_leaf nd = true -> is_leaf n = true /\ pointers n = pointers nd) ->
  keeps N (<[p := n]> N).
Proof using.
  intros H1 q nd E L. destruct (decide (q = p)) as [->|Hne].
  - exists n. rewrite lookup_insert_eq. destruct (H1 nd E L). done.
  - exists nd. by rewrite lookup_insert_ne.
Qed.
Lemma keeps_new N p n : N !! p = None -> keeps N (<[p := n]> N).
Proof using. intros E. apply keeps_insert. congruence. Qed.
Lemma keeps_inner N p nd n : N !! p = Some nd -> is_leaf nd = false -> keeps N (<[p := n]> N).
Proof using. intros E L. apply keeps_insert. congruence. Qed.
Lemma keeps_parent N p nd q : N !! p = Some nd -> keeps N (<[p := with_parent nd q]> N).
Proof using. intros E. apply keeps_insert. intros nd' E' L. assert (nd' = nd) as -> by congruence. done. Qed.

Lemma rep_root N par t : rep order N par t -> exists nd, N !! addr t = Some nd /\ parent nd = par.
Proof using.
  destruct t as [p es|p ks ts]; cbn.
  - intros (nd & E & HL). exists nd. split; [done|apply HL].
  - intros [(nd & E & HL) _]. exists nd. split; [done|apply HL].
Qed.

Lemma left_index_spec q ta : forall pre rest n, q ∉ ta -> (length ta < n)%nat ->
  left_index_from (pre ++ ta ++ q :: rest) q n (length pre) = Val (length pre + length ta)%nat.
Proof using.
  clear Ho. induction ta as [|x ta IH]; intros pre rest n Hn Hlt; (destruct n as [|n]; [cbn in Hlt; lia|]); cbn [left_index_from app length].
  - rewrite aget_middle by done. cbn [mbind cres_bind]. by rewrite Z.eqb_refl, Nat.add_0_r.
  - apply not_elem_of_cons in Hn as [Hne Hn]. rewrite aget_middle by done. cbn [mbind cres_bind].
    rewrite (proj2 (Z.eqb_neq _ _)) by done.
    replace (pre ++ x :: ta ++ q :: rest) with ((pre ++ [x]) ++ ta ++ q :: rest) by by rewrite <- app_assoc.
    replace (S (length pre)) with (length (pre ++ [x])) by (rewrite length_app; cbn; lia).
    rewrite IH by (done || (cbn in Hlt; lia)). f_equal. rewrite length_app. cbn. lia.
Qed.

Lemma adopt_spec n ps : forall pre j h, (forall x, x ∈ ps -> is_Some (nodes h !! x)) ->
  exists N', adopt (pre ++ ps ++ j) n (length pre) (length ps) h = Val (tt, set_nodes h N') /\
    (forall x, x ∈ ps -> N' !! x = (fun nd => with_parent nd n) <$> nodes h !! x) /\
    (forall x, x ∉ ps -> N' !! x = nodes h !! x) /\ keeps (nodes h) N'.
Proof using.
  clear Ho. induction ps as [|c ps IH]; intros pre j h HD.
  - exists (nodes h). split_and!; [by destruct h|by intros x ?%elem_of_nil|done|apply keeps_refl].
  - destruct (HD c) as [nd E]; [by left|]. cbn [adopt length app].
    rewrite (bind_lift _ _ _ c) by by apply aget_middle. rewrite (bind_set_parent c n nd) by done.
    set (h1 := set_nodes h (<[c := with_parent nd n]> (nodes h))).
    assert (HD1 : forall x, x ∈ ps -> is_Some (nodes h1 !! x)).
    { intros x Hx. cbn. destruct (decide (x = c)) as [->|]; [rewrite lookup_insert_eq; by eexists|].
      rewrite lookup_insert_ne by done. apply HD. by right. }
    destruct (IH (pre ++ [c]) j h1 HD1) as (N' & Hrun & H1 & H2 & HK).
    replace (pre ++ c :: ps ++ j) with ((pre ++ [c]) ++ ps ++ j) by by rewrite <- app_assoc.
    replace (S (length pre)) with (length (pre ++ [c])) by (rewrite length_app; cbn; lia).
    exists N'. split_and!.
    + rewrite Hrun. done.
    + intros x Hx. destruct (decide (x ∈ ps)) as [Hin|Hin].
      * rewrite H1 by done. cbn. destruct (decide (x = c)) as [->|]; [|by rewrite lookup_insert_ne].
        by rewrite lookup_insert_eq, E.
      * apply elem_of_cons in Hx as [->|]; [|done]. rewrite H2 by done. cbn. by rewrite lookup_insert_eq, E.
    + intros x Hx. apply not_elem_of_cons in Hx as [Hne Hx]. rewrite H2 by done. cbn. by rewrite lookup_insert_ne.
    + eapply keeps_trans; [by apply (keeps_parent _ c)|exact HK].
Qed.

(** A path whose frames are as long as their nodes. *)
Definition frame_ok (F : frame) : Prop :=
  length (ts1 F) = length (ks1 F) /\ length (ts2 F) = length (ks2 F) /\ (length (ks1 F ++ ks2 F) <= order - 1)%nat.

Lemma okctx_frames n lo hi C : okctx order n lo hi C -> Forall frame_ok C.
Proof using order.
  clear Ho. revert n lo hi; induction C as [|F C IH]; intros n lo hi HC; [constructor|].
  pose proof (okctx_frame _ _ _ _ _ _ HC) as [HL1 HL2]. destruct HC as (Lo & Hi & HC & _ & _ & Hlen).
  constructor; [split_and!; (done || lia)|by eapply IH].
Qed.

(** What insertion above a split gives. *)
Definition grown (h : heap) C tl k tr (r : cres (Z * heap)) : Prop :=
  exists T h', r = Val (addr T, h') /\ grow order C tl k tr T /\ rep order (nodes h') 0 T /\ NoDup (addrs T) /\
    addr T <> 0 /\ alloc_inv h' /\ records h' = records h /\ keeps (nodes h) (nodes h').

Lemma new_root_grown h tl k tr : alloc_inv h -> rep order (nodes h) 0 tl -> rep order (nodes h) 0 tr ->
  NoDup (addrs tl ++ addrs tr) -> grown h [] tl k tr (insert_into_new_root order (addr tl) k (addr tr) h).
Proof using SL Ho.
  intros HA HRl HRr HN. destruct (make_node_spec order h HA) as (p & h1 & E & Hfresh & Hp & HN1 & Hrec & HA1).
  apply NoDup_app in HN as (HNl & Hdisj & HNr).
  destruct (rep_root _ _ _ HRl) as (ndl & El & _). destruct (rep_root _ _ _ HRr) as (ndr & Er & _).
  assert (Hlr : addr tl <> addr tr) by (intros Heq; apply (Hdisj (addr tl)); [apply addr_in|rewrite Heq; apply addr_in]).
  assert (Hpl : forall x, x ∈ addrs tl -> x <> p) by (intros x Hx ->; destruct (rep_dom order _ _ _ p HRl Hx); congruence).
  assert (Hpr : forall x, x ∈ addrs tr -> x <> p) by (intros x Hx ->; destruct (rep_dom order _ _ _ p HRr Hx); congruence).
  unfold insert_into_new_root. rewrite (bindM _ _ _ _ _ E).
  assert (E1 : nodes h1 !! p = Some (new_node order false)) by by rewrite HN1, lookup_insert_eq.
  rewrite (bind_load p _ _ _ E1). cbn [new_node keys pointers is_leaf num_keys].
  assert (HK : replicate (order - 1) 0 = 0 :: replicate (order - 2) 0) by by replace (order - 1)%nat with (S (order - 2)) by lia.
  assert (HP : replicate order 0 = 0 :: 0 :: replicate (order - 2) 0).
  { replace order with (S (S (order - 2))) at 1 by lia. done. }
  rewrite HK, HP. rewrite (bind_lift _ _ _ (k :: replicate (order - 2) 0)) by done.
  rewrite (bind_lift _ _ _ (addr tl :: 0 :: replicate (order - 2) 0)) by done.
  rewrite (bind_lift _ _ _ (addr tl :: addr tr :: replicate (order - 2) 0)) by done.
  rewrite (bind_store p _ _ _ _ E1). cbn [num_keys]. set (rn := Build_node _ _ _ _ _).
  rewrite (bind_set_parent (addr tl) p ndl).
  2: { cbn. rewrite HN1, !lookup_insert_ne by (apply not_eq_sym, Hpl, addr_in). done. }
  rewrite (bind_set_parent (addr tr) p ndr).
  2: { cbn. rewrite HN1, lookup_insert_ne, !lookup_insert_ne by (done || (apply not_eq_sym, Hpr, addr_in)). done. }
  cbn [nodes set_nodes]. rewrite HN1, insert_insert_eq.
  set (N2 := <[addr tr := with_parent ndr p]> (<[addr tl := with_parent ndl p]> (<[p := rn]> (nodes h)))).
  assert (Lp : N2 !! p = Some rn).
  { unfold N2. rewrite !lookup_insert_ne by (first [apply Hpl, addr_in|apply Hpr, addr_in]). apply lookup_insert_eq. }
  assert (Ll : N2 !! addr tl = Some (with_parent ndl p)).
  { unfold N2. rewrite lookup_insert_ne by done. apply lookup_insert_eq. }
  assert (Lr : N2 !! addr tr = Some (with_parent ndr p)) by apply lookup_insert_eq.
  assert (Lo : forall x, x <> p -> x <> addr tl -> x <> addr tr -> N2 !! x = nodes h !! x).
  { intros x H1 H2 H3. unfold N2. by rewrite !lookup_insert_ne. }
  exists (Node p [k] [tl; tr]), (set_nodes h1 N2). split; [done|]. split; [constructor|]. split; [|split_and!].
  - cbn [rep allP foldr]. split; [exists rn; split; [exact Lp|]|split_and!; [| |done]].
    + split; cbn; try done; [by exists (replicate (order - 2) 0)|by exists (replicate (order - 2) 0)| |];
        rewrite length_replicate; lia.
    + apply (rep_reparent order (nodes h) N2 0 p tl HRl HNl); [by rewrite Ll, El|].
      intros x Hx Hne. apply Lo; [by apply Hpl|done|]. intros ->. apply (Hdisj (addr tr)); [done|apply addr_in].
    + apply (rep_reparent order (nodes h) N2 0 p tr HRr HNr); [by rewrite Lr, Er|].
      intros x Hx Hne. apply Lo; [by apply Hpr| |done]. intros ->. apply (Hdisj (addr tl)); [apply addr_in|done].
  - cbn. rewrite app_nil_r. constructor; [|by apply NoDup_app].
    intros [Hx|Hx]%elem_of_app; [by apply (Hpl p)|by apply (Hpr p)].
  - done.
  - apply alloc_inv_nodes; [|done]. intros x. cbn. rewrite HN1. unfold N2. rewrite <- !live_insert.
    pose proof (ex_intro _ _ El : is_Some _). pose proof (ex_intro _ _ Er : is_Some _). naive_solver.
  - done.
  - cbn. unfold N2. eapply keeps_trans; [by apply (keeps_new _ p rn)|].
    eapply keeps_trans; [apply (keeps_parent _ (addr tl)); rewrite lookup_insert_ne by (apply not_eq_sym, Hpl, addr_in); done|].
    apply keeps_parent. rewrite !lookup_insert_ne by (done || (apply not_eq_sym, Hpr, addr_in)). done.
Qed.

Lemma room_left {A} (l1 l2 j : list A) n : length (l1 ++ l2 ++ j) = n -> (length (l1 ++ l2) < n)%nat -> exists x j', j = x :: j'.
Proof using.
  clear Ho. intros H1 H2. destruct j as [|x j]; [rewrite app_nil_r in H1; lia|by exists x, j].
Qed.

Lemma room_grown h F C root tl k tr :
  alloc_inv h -> rep order (nodes h) (f_ptr F) tl -> rep order (nodes h) (f_ptr F) tr -> repctx order (nodes h) (addr tl) (F :: C) ->
  NoDup (addrs tl ++ addrs tr ++ caddrs (F :: C)) -> frame_ok F -> (length (ks1 F ++ ks2 F) < order - 1)%nat ->
  root = addr (plug (F :: C) tl) -> root <> 0 ->
  grown h (F :: C) tl k tr (insert_into_node root (f_ptr F) (length (ts1 F)) k (addr tr) h).
Proof using Ho.
  destruct F as [p ka ta kb tb]. cbn [f_ptr ks1 ts1 ks2 ts2 repctx]. intros HA HRl HRr ((nd & E & HI) & HR1 & HR2 & HC) HN (Ha & Hb & _) Hroom Hroot Hnz.
  cbn in Ha, Hb. destruct (in_keys _ _ _ _ _ HI) as [jk Ek]. destruct (in_pointers _ _ _ _ _ HI) as [jp Ep].
  pose proof (in_num _ _ _ _ _ HI) as Hnum. pose proof (in_lk _ _ _ _ _ HI) as Hlk. pose proof (in_lp _ _ _ _ _ HI) as Hlp.
  rewrite Ek, <- app_assoc in Hlk. destruct (room_left _ _ _ _ Hlk Hroom) as (x & jk' & ->).
  assert (Ep2 : pointers nd = (map addr ta ++ [addr tl]) ++ map addr tb ++ jp) by by rewrite Ep, <- !app_assoc.
  rewrite Ep2 in Hlp. destruct (room_left _ _ _ _ Hlp) as (y & jp' & ->).
  { rewrite length_app in Hroom. rewrite !length_app, !length_map. cbn [length]. lia. }
  assert (Hsk := shift_insert ka kb x jk' k). apply cres_bind_inv in Hsk as (ks' & Hsk1 & Hsk2).
  assert (Hsp := shift_insert (map addr ta ++ [addr tl]) (map addr tb) y jp' (addr tr)). apply cres_bind_inv in Hsp as (ps' & Hsp1 & Hsp2).
  assert (Hli : S (length ta) = length (map addr ta ++ [addr tl])) by (rewrite length_app, length_map; cbn; lia).
  assert (Hcnt : (num_keys nd - length ta)%nat = length kb) by (rewrite Hnum, length_app; lia).
  unfold insert_into_node. rewrite (bind_load p nd) by done. rewrite Hcnt.
  rewrite (bind_lift _ _ _ ps') by (rewrite Hli, Ep2, <- Hb, <- (length_map addr); exact Hsp1).
  rewrite (bind_lift _ _ _ ks') by (rewrite Ek, <- app_assoc, Ha; exact Hsk1).
  rewrite Hli at 1. rewrite (bind_lift _ _ _ _ Hsp2). rewrite Ha at 1. rewrite (bind_lift _ _ _ _ Hsk2).
  rewrite (bind_store p nd) by done. set (nn := Build_node _ _ _ _ _). cbn [caddrs map concat frame_addrs] in HN.
  set (t' := Node p (ka ++ k :: kb) (ta ++ tl :: tr :: tb)).
  assert (HP : addrs t' ++ caddrs C ≡ₚ addrs tl ++ addrs tr ++ caddrs (Frame p ka ta kb tb :: C)).
  { rewrite caddrs_cons. unfold t', frame_addrs. cbn [addrs f_ptr ts1 ts2]. rewrite concat_plug. solve_Permutation. }
  assert (HN' : NoDup (addrs t' ++ caddrs C)) by by rewrite HP.
  assert (HNp : forall z, z ∈ concat (map addrs (ta ++ tl :: tr :: tb)) ++ caddrs C -> z <> p).
  { unfold t' in HN'. cbn [addrs app] in HN'. apply NoDup_cons in HN' as [Hn _]. intros z Hz ->. done. }
  setoid_rewrite elem_of_app in HNp.
  exists (plug C t'), (set_nodes h (<[p := nn]> (nodes h))). split; [|split_and!].
  - rewrite Hroot. cbn [plug f_ptr]. rewrite (addr_plug C t' (Node p (ka ++ kb) (ta ++ tl :: tb))) by done. done.
  - apply (grow_room order (Frame p ka ta kb tb)). exact Hroom.
  - apply rep_plug. cbn [nodes set_nodes]. split; [cbn [rep]; split|].
    + exists nn. rewrite lookup_insert_eq. split; [done|]. destruct HI. split; cbn; try done.
      * rewrite Hnum, !length_app. cbn. lia.
      * exists jk'. by rewrite <- app_assoc.
      * exists jp'. rewrite map_app. cbn. by rewrite <- !app_assoc.
      * revert Hlk. rewrite !length_app. cbn [length]. rewrite ?length_app. cbn [length]. lia.
      * revert Hlp. rewrite !length_app. cbn [length]. rewrite ?length_app. cbn [length]. lia.
    + apply (allrep_frame order (nodes h)).
      * intros z Hz. rewrite lookup_insert_ne; [done|]. apply not_eq_sym, HNp. by left.
      * rewrite allP_app. split; [exact HR1|]. split; [exact HRl|]. split; [exact HRr|exact HR2].
    + apply (repctx_frame order (nodes h)); [|exact HC]. intros z Hz. rewrite lookup_insert_ne; [done|].
      apply not_eq_sym, HNp. by right.
  - by rewrite addrs_plug.
  - rewrite Hroot in Hnz. cbn [plug f_ptr] in Hnz. by rewrite (addr_plug C t' (Node p (ka ++ kb) (ta ++ tl :: tb))).
  - by apply (alloc_inv_store h p nd).
  - done.
  - apply (keeps_inner _ p nd); [done|apply HI].
Qed.

Lemma full_array {A} (l j : list A) n : length (l ++ j) = n -> length l = n -> j = [].
Proof using. clear Ho. intros H1 H2. rewrite length_app in H1. destruct j; [done|cbn in H1; lia]. Qed.

(** The subtrees a new node takes over. *)
Lemma adopted_rep N N' p q ts : NoDup (concat (map addrs ts)) -> allP (rep order N p) ts ->
  (forall x, x ∈ map addr ts -> N' !! x = (fun nd => with_parent nd q) <$> N !! x) ->
  (forall x, x ∈ concat (map addrs ts) -> x ∉ map addr ts -> N' !! x = N !! x) ->
  allP (rep order N' q) ts.
Proof using.
  induction ts as [|t ts IH]; cbn [map concat allP foldr]; intros HN HR HA HS; [done|]. destruct HR as [HR1 HR2].
  apply NoDup_app in HN as (HN1 & Hd & HN2).
  assert (Hsub : forall x, x ∈ map addr ts -> x ∈ concat (map addrs ts)).
  { intros x Hx. apply list_elem_of_fmap in Hx as (u & -> & Hu). apply elem_of_concat_map. exists u. split; [done|apply addr_in]. }
  split.
  - apply (rep_reparent order N N' p q t HR1 HN1); [apply HA; by left|]. intros x Hx Hne. apply HS; [apply elem_of_app; by left|].
    rewrite elem_of_cons. intros [->|Hin]; [done|]. exact (Hd x Hx (Hsub x Hin)).
  - apply IH; [done|done| |].
    + intros x Hx. apply HA. by right.
    + intros x Hx Hn. apply HS; [apply elem_of_app; by right|]. rewrite elem_of_cons. intros [->|Hin]; [|done].
      exact (Hd (addr t) (addr_in t) Hx).
Qed.

(** The arrays of an overfull node and of its two halves. *)
Lemma split_runs iip h root F C tl k tr :
  alloc_inv h -> rep order (nodes h) (f_ptr F) tl -> rep order (nodes h) (f_ptr F) tr -> repctx order (nodes h) (addr tl) (F :: C) ->
  NoDup (addrs tl ++ addrs tr ++ caddrs (F :: C)) -> frame_ok F -> length (ks1 F ++ ks2 F) = (order - 1)%nat ->
  exists q h' ka k' kb ta tb,
    insert_into_node_after_splitting order iip root (f_ptr F) (length (ts1 F)) k (addr tr) h = iip root (f_ptr F) k' q h' /\
    ks1 F ++ k :: ks2 F = ka ++ k' :: kb /\ ts1 F ++ tl :: tr :: ts2 F = ta ++ tb /\
    length ka = (cut order - 1)%nat /\ length ta = cut order /\ alloc_inv h' /\
    rep order (nodes h') (top C) (Node (f_ptr F) ka ta) /\ rep order (nodes h') (top C) (Node q kb tb) /\
    repctx order (nodes h') (f_ptr F) C /\
    NoDup (addrs (Node (f_ptr F) ka ta) ++ addrs (Node q kb tb) ++ caddrs C) /\
    records h' = records h /\ keeps (nodes h) (nodes h').
Proof using SL Ho.
  destruct F as [p k1 t1 k2 t2]. cbn [f_ptr ks1 ts1 ks2 ts2 repctx].
  intros HA HRl HRr ((nd & E & HI) & HR1 & HR2 & HC) HN (Ha & Hb & _) Hfull. cbn in Ha, Hb.
  pose proof (cut_bounds order) as Hcut. remember (cut order) as s eqn:Hs.
  destruct (in_keys _ _ _ _ _ HI) as [jk Ek]. destruct (in_pointers _ _ _ _ _ HI) as [jp Ep].
  pose proof (in_num _ _ _ _ _ HI) as Hnum. pose proof (in_lk _ _ _ _ _ HI) as Hlk. pose proof (in_lp _ _ _ _ _ HI) as Hlp.
  assert (jk = []) as -> by (rewrite Ek in Hlk; by eapply full_array). rewrite app_nil_r in Ek.
  assert (Hlen : (length k1 + length k2 = order - 1)%nat) by by rewrite <- length_app.
  assert (jp = []) as ->.
  { rewrite Ep in Hlp. eapply full_array; [exact Hlp|]. rewrite !length_app, !length_map. cbn. rewrite length_map. lia. }
  rewrite app_nil_r in Ep.
  set (K := k1 ++ k :: k2). set (TS := t1 ++ tl :: tr :: t2).
  assert (HKl : length K = order) by (unfold K; rewrite length_app; cbn; lia).
  assert (HTl : length TS = S order) by (unfold TS; rewrite length_app; cbn; lia).
  assert (exists k' kb, drop (s - 1) K = k' :: kb) as (k' & kb & Hk').
  { destruct (drop (s - 1) K) as [|k' kb] eqn:Ed; [|by exists k', kb]. apply (f_equal length) in Ed. rewrite length_drop in Ed. cbn in Ed. lia. }
  assert (Hkb : kb = drop s K).
  { replace s with ((s - 1) + 1)%nat by lia. by rewrite <- drop_drop, Hk'. }
  (* the temporary arrays *)
  assert (Htp := copy_skip_insert (map addr t1 ++ [addr tl]) (map addr t2) [] (replicate (order + 1) 0) (addr tr)
                   (length t1 + 1) (num_keys nd + 1)).
  destruct (cres_bind_inv _ _ _ (Htp ltac:(rewrite length_app, length_map; cbn; lia)
      ltac:(rewrite Hnum, !length_app, !length_map; cbn; lia) ltac:(rewrite length_replicate, Hnum, length_app; lia))) as (tps0 & Htp1 & Htp2).
  clear Htp. rewrite drop_ge, app_nil_r in Htp2 by (rewrite length_replicate, Hnum, length_app; lia).
  assert (Htk := copy_skip_insert k1 k2 [] (replicate order 0) k (length t1) (num_keys nd)).
  destruct (cres_bind_inv _ _ _ (Htk Ha ltac:(rewrite Hnum, length_app; lia) ltac:(rewrite length_replicate, Hnum, length_app; lia)))
    as (tks0 & Htk1 & Htk2).
  clear Htk. rewrite drop_ge, app_nil_r in Htk2 by (rewrite length_replicate, Hnum, length_app; lia).
  rewrite !app_nil_r in Htp1, Htk1.
  assert (HTSe : (map addr t1 ++ [addr tl]) ++ addr tr :: map addr t2 = map addr TS).
  { unfold TS. rewrite map_app. cbn. by rewrite <- app_assoc. }
  rewrite HTSe in Htp2.
  assert (HmT : length (map addr TS) = S order) by by rewrite length_map.
  destruct (make_node_spec order h HA) as (q & h1 & Eq & Hfresh & Hq & HN1 & Hrec & HA1).
  assert (E1q : nodes h1 !! q = Some (new_node order false)) by by rewrite HN1, lookup_insert_eq.
  assert (Hpq : p <> q) by (intros ->; congruence).
  assert (Epl : (map addr t1 ++ [addr tl]) ++ map addr t2 = pointers nd) by by rewrite Ep, <- app_assoc.
  assert (exists v1, map addr TS !! (s - 1)%nat = Some v1) as [v1 Ev1] by (apply lookup_lt_is_Some; lia).
  assert (exists v2, drop s (map addr TS) !! (order - s)%nat = Some v2) as [v2 Ev2].
  { apply lookup_lt_is_Some. rewrite length_drop. lia. }
  unfold insert_into_node_after_splitting. rewrite <- Hs. cbv zeta.
  rewrite (bind_load p nd) by done.
  rewrite (bind_lift _ _ _ tps0) by (rewrite <- Epl; exact Htp1).
  rewrite (bind_lift _ _ _ tks0) by (rewrite Ek; exact Htk1).
  rewrite (bind_lift _ _ _ _ Htp2). rewrite (bind_lift _ _ _ _ Htk2). fold K.
  rewrite (bindM _ _ _ _ _ Eq).
  rewrite (bind_lift _ _ _ _ (copy_from (map addr TS) 0 (pointers nd) (s - 1) ltac:(lia) ltac:(lia))).
  rewrite (bind_lift _ _ _ _ (copy_from K 0 (keys nd) (s - 1) ltac:(lia) ltac:(lia))).
  rewrite (bind_lift _ _ _ _ (aget_spec _ _ _ Ev1)). cbn [drop].
  rewrite (bind_lift _ _ _ _ (aset_extend _ (pointers nd) _ _ Ev1 ltac:(lia))).
  rewrite (bind_lift _ _ _ k').
  2: { apply aget_spec. rewrite <- (Nat.add_0_r (s - 1)), <- lookup_drop, Hk'. done. }
  rewrite (bind_load q _ _ _ E1q). cbn [new_node keys pointers num_keys is_leaf].
  rewrite (bind_lift _ _ _ _ (copy_from (map addr TS) s (replicate order 0) (order - s) ltac:(lia) ltac:(rewrite length_replicate; lia))).
  rewrite (bind_lift _ _ _ _ (copy_from K s (replicate (order - 1) 0) (order - s) ltac:(lia) ltac:(rewrite length_replicate; lia))).
  rewrite (bind_lift _ _ _ v2).
  2: { apply aget_spec. rewrite lookup_drop in Ev2. by replace (s + (order - s))%nat with order in Ev2 by lia. }
  rewrite (bind_lift _ _ _ _ (aset_extend _ (replicate order 0) _ _ Ev2 ltac:(rewrite length_replicate; lia))).
  replace (S (s - 1)) with s by lia. rewrite Nat.add_0_l.
  rewrite (take_ge (drop s (map addr TS)) (S (order - s))) by (rewrite length_drop; lia).
  rewrite (take_ge (drop s K) (order - s)) by (rewrite length_drop; lia).
  rewrite (bind_store p nd) by (rewrite HN1, lookup_insert_ne by done; done).
  rewrite (bind_store q (new_node order false)) by (cbn; rewrite lookup_insert_ne by done; exact E1q).
  set (on := Build_node _ _ _ _ (s - 1)). set (nn := Build_node _ _ _ _ (order - s)).
  set (N3 := <[q := nn]> _). set (h3 := set_nodes _ N3).
  set (ta := take s TS). set (tb := drop s TS). set (ka := take (s - 1) K).
  assert (HTab : TS = ta ++ tb) by (symmetry; apply take_drop).
  assert (Htbl : length tb = S (order - s)) by (unfold tb; rewrite length_drop; lia).
  assert (Htal : length ta = s) by (unfold ta; rewrite length_take; lia).
  (* addresses *)
  assert (HP : p :: concat (map addrs TS) ++ caddrs C ≡ₚ addrs tl ++ addrs tr ++ caddrs (Frame p k1 t1 k2 t2 :: C)).
  { rewrite caddrs_cons. unfold TS, frame_addrs. cbn [f_ptr ts1 ts2]. rewrite concat_plug. solve_Permutation. }
  assert (HN' : NoDup (p :: concat (map addrs TS) ++ caddrs C)) by by rewrite HP.
  assert (HRT : allP (rep order (nodes h) p) TS).
  { unfold TS. rewrite allP_app. split; [exact HR1|]. split; [exact HRl|]. split; [exact HRr|exact HR2]. }
  rewrite HTab in HRT, HN'. apply allP_app in HRT as [HRa HRb]. rewrite map_app, concat_app in HN'.
  assert (Hdom : forall x, x ∈ (concat (map addrs ta) ++ concat (map addrs tb)) ++ caddrs C -> is_Some (nodes h !! x) /\ x <> p /\ x <> q).
  { intros x Hx. assert (is_Some (nodes h !! x)) as Hs'.
    { rewrite !elem_of_app, !elem_of_concat_map in Hx. rewrite allP_Forall, Forall_forall in HRa, HRb.
      destruct Hx as [[(u & Hu & Hx)|(u & Hu & Hx)]|Hx].
      - exact (rep_dom _ _ _ _ _ (HRa u Hu) Hx).
      - exact (rep_dom _ _ _ _ _ (HRb u Hu) Hx).
      - exact (repctx_dom _ _ _ _ _ HC Hx). }
    split; [done|]. apply NoDup_cons in HN' as [Hn _]. split; [by intros ->|]. intros ->. destruct Hs'. congruence. }
  assert (Hsub : forall x, x ∈ map addr tb -> x ∈ concat (map addrs tb)).
  { intros x Hx. apply list_elem_of_fmap in Hx as (u & -> & Hu). apply elem_of_concat_map. exists u. split; [done|apply addr_in]. }
  setoid_rewrite elem_of_app in Hdom. setoid_rewrite elem_of_app in Hdom.
  assert (L3 : forall x, x <> p -> x <> q -> N3 !! x = nodes h !! x).
  { intros x H1 H2. unfold N3. cbn [nodes set_nodes]. rewrite !lookup_insert_ne by done. rewrite HN1. by rewrite lookup_insert_ne. }
  destruct (adopt_spec q (map addr tb) [] (drop (S (order - s)) (replicate order 0)) h3) as (N4 & Had & H41 & H42 & HK4).
  { intros x Hx. apply Hsub in Hx. destruct (Hdom x (or_introl (or_intror Hx))) as (H1 & H2 & H3). cbn. by rewrite L3. }
  cbn [app length] in Had. rewrite length_map, Htbl in Had.
  rewrite (skipn_map addr s TS). fold tb. rewrite (bindM _ _ _ _ _ Had).
  assert (Hnotb : forall x, x = p \/ x = q \/ x ∈ concat (map addrs ta) \/ x ∈ caddrs C -> x ∉ map addr tb).
  { apply NoDup_cons in HN' as [Hnp HN']. apply NoDup_app in HN' as (HNab & Hd & _). apply NoDup_app in HNab as (_ & Hdab & _).
    intros x Hx Hin. apply Hsub in Hin. destruct (Hdom x (or_introl (or_intror Hin))) as (_ & H2 & H3).
    destruct Hx as [->|[->|[Hx|Hx]]]; [done|done|exact (Hdab x Hx Hin)|]. apply (Hd x); [|done]. apply elem_of_app. by right. }
  assert (L4 : forall x, x ∈ concat (map addrs ta) \/ x ∈ caddrs C -> N4 !! x = nodes h !! x).
  { intros x Hx. rewrite H42 by (apply Hnotb; tauto). destruct (Hdom x ltac:(tauto)) as (_ & H2 & H3). by apply L3. }
  exists q, (set_nodes h3 N4), ka, k', kb, ta, tb. split; [done|].
  split; [unfold ka; rewrite <- Hk'; symmetry; apply take_drop|]. split; [done|].
  split; [unfold ka; rewrite length_take; lia|]. split; [done|]. split; [|split; [|split; [|split; [|split; [|split]]]]].
  - apply (alloc_inv_nodes h1 N4); [|exact HA1]. intros x.
    assert (HD3 : is_Some (nodes h1 !! x) <-> is_Some (N3 !! x)).
    { unfold N3. cbn [nodes set_nodes]. rewrite <- !live_insert, HN1, <- live_insert.
      pose proof (ex_intro _ _ E : is_Some _). naive_solver. }
    rewrite HD3. destruct (decide (x ∈ map addr tb)) as [Hin|Hin]; [|by rewrite H42].
    rewrite H41 by done. cbn. by rewrite fmap_is_Some.
  - cbn [rep]. split.
    + exists on. split.
      { rewrite H42 by (apply Hnotb; tauto). unfold h3, N3. cbn. rewrite lookup_insert_ne by done. by rewrite lookup_insert_eq. }
      destruct HI. split; cbn; try done.
      * unfold ka. rewrite length_take. lia.
      * by eexists.
      * unfold ta. rewrite <- firstn_map. by eexists.
      * rewrite length_app, length_take, !length_drop. lia.
      * rewrite length_app, length_take, length_map, length_drop. lia.
    + apply (allrep_frame order (nodes h)); [|done]. intros x Hx. apply L4. by left.
  - cbn [rep]. split.
    + exists nn. split.
      { rewrite H42 by (apply Hnotb; tauto). unfold h3, N3. cbn. by rewrite lookup_insert_eq. }
      destruct HI. split; cbn; try done.
      * subst kb. rewrite length_drop. lia.
      * rewrite Hkb. by eexists.
      * unfold tb. rewrite <- skipn_map. by eexists.
      * rewrite length_app, !length_drop, length_replicate. lia.
      * rewrite length_app, !length_drop, length_map, length_replicate. lia.
    + apply NoDup_cons in HN' as [_ HN']. apply NoDup_app in HN' as (HN' & _ & _). apply NoDup_app in HN' as (_ & _ & HNb).
      apply (adopted_rep (nodes h) N4 p); [done|done| |].
      * intros x Hx. rewrite H41 by done. apply Hsub in Hx. destruct (Hdom x ltac:(tauto)) as (_ & H2 & H3). cbn. by rewrite L3.
      * intros x Hx Hn. rewrite H42 by done. destruct (Hdom x ltac:(tauto)) as (_ & H2 & H3). by apply L3.
  - apply (repctx_frame order (nodes h)); [|exact HC]. intros x Hx. apply L4. by right.
  - assert (HP2 : addrs (Node p ka ta) ++ addrs (Node q kb tb) ++ caddrs C ≡ₚ
                  q :: p :: (concat (map addrs ta) ++ concat (map addrs tb)) ++ caddrs C).
    { cbn [addrs]. solve_Permutation. }
    rewrite HP2. constructor; [|done]. rewrite elem_of_cons, !elem_of_app. intros [Hx|Hx]; [done|].
    destruct (Hdom q Hx) as (_ & _ & H3). done.
  - done.
  - eapply keeps_trans; [by apply (keeps_new _ q (new_node order false))|]. rewrite <- HN1.
    eapply keeps_trans; [|exact HK4]. cbn. unfold N3. cbn [nodes set_nodes].
    eapply keeps_trans; [apply (keeps_inner _ p nd on); [by rewrite HN1, lookup_insert_ne|apply HI]|].
    apply (keeps_inner _ q (new_node order false)); [by rewrite lookup_insert_ne|done].
Qed.

Lemma parent_grown C : forall fuel h root tl k tr,
  alloc_inv h -> rep order (nodes h) (top C) tl -> rep order (nodes h) (top C) tr -> repctx order (nodes h) (addr tl) C ->
  NoDup (addrs tl ++ addrs tr ++ caddrs C) -> Forall frame_ok C -> root = addr (plug C tl) -> root <> 0 ->
  (length C < fuel)%nat -> grown h C tl k tr (insert_into_parent order fuel root (addr tl) k (addr tr) h).
Proof using SL Ho.
  induction C as [|F C IH]; intros fuel h root tl k tr HA HRl HRr HC HN HF Hroot Hnz Hf; (destruct fuel as [|fuel]; [lia|]);
    cbn [insert_into_parent]; destruct (rep_root _ _ _ HRl) as (nl & El & Hpar); rewrite (bind_load _ nl) by done; cbv zeta; rewrite Hpar.
  - cbn [top]. rewrite Z.eqb_refl. rewrite app_nil_r in HN. by apply new_root_grown.
  - apply Forall_cons in HF as [HF1 HF]. pose proof HF1 as (Hl1 & Hl2 & Hle). pose proof HC as ((nd & E & HI) & _).
    cbn [top] in *. rewrite (proj2 (Z.eqb_neq _ _)) by (apply (alloc_inv_pos h); [done|by eexists]).
    assert (Hidx : get_left_index (f_ptr F) (addr tl) h = Val (length (ts1 F), h)).
    { unfold get_left_index. rewrite (bind_load _ nd) by done. destruct (in_pointers _ _ _ _ _ HI) as [j Ej].
      unfold lift. rewrite Ej, <- app_assoc. cbn [app].
      pose proof (left_index_spec (addr tl) (map addr (ts1 F)) [] (map addr (ts2 F) ++ j) (S (num_keys nd))) as HL.
      cbn [app length Nat.add] in HL. rewrite length_map in HL. rewrite HL; [done| |rewrite (in_num _ _ _ _ _ HI), length_app; lia].
      intros Hin. apply list_elem_of_fmap in Hin as (u & Hu & Hin). apply NoDup_app in HN as (_ & Hd & _).
      apply (Hd (addr tl) (addr_in tl)). rewrite Hu, caddrs_cons. apply elem_of_app. right. apply elem_of_app. left. right.
      apply elem_of_app. left. apply elem_of_concat_map. exists u. split; [done|apply addr_in]. }
    rewrite (bindM _ _ _ _ _ Hidx). rewrite (bind_load _ nd) by done. rewrite (in_num _ _ _ _ _ HI).
    destruct (length (ks1 F ++ ks2 F) <? order - 1)%nat eqn:Er.
    + apply Nat.ltb_lt in Er. by apply room_grown.
    + apply Nat.ltb_ge in Er.
      destruct (split_runs (insert_into_parent order fuel) h root F C tl k tr HA HRl HRr HC HN HF1 ltac:(lia))
        as (q & h' & ka & k' & kb & ta & tb & -> & HK & HT & Hka & Hta & HA' & R1 & R2 & RC & HN' & Hrec & HK').
      destruct (IH fuel h' root (Node (f_ptr F) ka ta) k' (Node q kb tb) HA' R1 R2 RC HN' HF)
        as (T & h2 & Hrun & HG & HRT & HNT & HnzT & HA2 & Hrec2 & HK2); [|done|cbn in Hf; lia|].
      { rewrite Hroot. cbn [plug]. by apply addr_plug. }
      exists T, h2. cbn [addr] in Hrun. split; [exact Hrun|]. split; [exact (grow_split order F C tl k tr q ka k' kb ta tb T ltac:(lia) HK HT Hka Hta HG)|].
      split_and!; try done; [congruence|by eapply keeps_trans].
Qed.
End Grow.
