(* ===== verification/BTreeMap.v ===== *)
(** * The B+ tree of the btree workload: insertion and look-up refine a map *)
From S2P Require Export BTreeProof.

Section Leaves.
Context `{SL : SlabsLaws} (order : nat) (Ho : (3 <= order)%nat).

(** ** A leaf with room *)

Lemma insertion_point_spec key (es : list (Z * Z)) : forall pre j,
  insertion_point (pre ++ map fst es ++ j) key (length es) (length pre) = Val (length pre + position es key)%nat.
Proof using.
  clear Ho. induction es as [|[k r] es IH]; intros pre j; cbn [length map fst insertion_point position app]; [by rewrite Nat.add_0_r|].
  rewrite aget_middle by done. cbn [mbind cres_bind]. destruct (k <? key); [|by rewrite Nat.add_0_r].
  replace (pre ++ k :: map fst es ++ j) with ((pre ++ [k]) ++ map fst es ++ j) by by rewrite <- app_assoc.
  replace (S (length pre)) with (length (pre ++ [k])) by (rewrite length_app; cbn; lia).
  rewrite IH. f_equal. rewrite length_app. cbn. lia.
Qed.

Lemma map_add_entry {B} (f : Z * Z -> B) es key r :
  map f (add_entry es key r) = map f (take (position es key) es) ++ f (key, r) :: map f (drop (position es key) es).
Proof using. unfold add_entry. by rewrite map_app. Qed.

Lemma insert_into_leaf_spec h par p es key r :
  rep order (nodes h) par (Leaf p es) -> (length es < order - 1)%nat ->
  exists nd nd', nodes h !! p = Some nd /\
    insert_into_leaf p key r h = Val (p, set_nodes h (<[p := nd']> (nodes h))) /\
    leaf_node order par (add_entry es key r) nd' /\
    pointers nd' !! (order - 1)%nat = pointers nd !! (order - 1)%nat.
Proof using Ho.
  intros (nd & E & HL) Hroom. pose proof (position_le es key) as Hpos. remember (position es key) as i eqn:Hi.
  destruct (ln_keys _ _ _ _ HL) as [jk Ek]. destruct (ln_pointers _ _ _ _ HL) as [jp Ep].
  pose proof (ln_num _ _ _ _ HL) as Hnum. pose proof (ln_lk _ _ _ _ HL) as Hlk. pose proof (ln_lp _ _ _ _ HL) as Hlp.
  assert (exists x jk', jk = x :: jk') as (x & jk' & ->).
  { destruct jk as [|x jk']; [|by exists x, jk']. rewrite Ek, app_nil_r, length_map in Hlk. lia. }
  assert (exists y jp', jp = y :: jp') as (y & jp' & ->).
  { destruct jp as [|y jp']; [|by exists y, jp']. rewrite Ep, app_nil_r, length_map in Hlp. lia. }
  assert (Hsplit : forall B (f : Z * Z -> B), map f es = map f (take i es) ++ map f (drop i es)) by (intros B f; by rewrite <- map_app, take_drop).
  assert (Hlt : length (take i es) = i) by (rewrite length_take; lia).
  assert (Hld : length (drop i es) = (length es - i)%nat) by by rewrite length_drop.
  assert (Hsk := shift_insert (map fst (take i es)) (map fst (drop i es)) x jk' key).
  assert (Hsp := shift_insert (map snd (take i es)) (map snd (drop i es)) y jp' r).
  rewrite !length_map, Hlt, Hld in Hsk, Hsp.
  apply cres_bind_inv in Hsk as (ks' & Hsk1 & Hsk2). apply cres_bind_inv in Hsp as (ps' & Hsp1 & Hsp2).
  rewrite app_assoc, <- Hsplit, <- Ek in Hsk1. rewrite app_assoc, <- Hsplit, <- Ep in Hsp1.
  assert (Hip : insertion_point (keys nd) key (num_keys nd) 0 = Val i).
  { rewrite Ek, Hnum. pose proof (insertion_point_spec key es [] (x :: jk')) as HI. cbn in HI. by rewrite HI, <- Hi. }
  exists nd. eexists. split; [done|]. split.
  { unfold insert_into_leaf. rewrite (bind_load p nd) by done. rewrite (bind_lift _ _ _ _ Hip), Hnum.
    rewrite (bind_lift _ _ _ _ Hsk1), (bind_lift _ _ _ _ Hsp1), (bind_lift _ _ _ _ Hsk2), (bind_lift _ _ _ _ Hsp2).
    rewrite (bind_store p nd) by done. reflexivity. }
  split.
  - destruct HL. split; cbn; try done.
    + by rewrite length_add_entry.
    + exists jk'. rewrite map_add_entry, <- Hi, <- app_assoc. done.
    + exists jp'. rewrite map_add_entry, <- Hi, <- app_assoc. done.
    + apply (f_equal length) in Ek. rewrite !length_app, !length_map in *. cbn in *. rewrite !length_app, !length_map in *. lia.
    + apply (f_equal length) in Ep. rewrite !length_app, !length_map in *. cbn in *. rewrite !length_app, !length_map in *. lia.
  - cbn [pointers].
    replace (pointers nd) with ((map snd es ++ [y]) ++ jp') by by rewrite Ep, <- app_assoc.
    replace (map snd (take i es) ++ r :: map snd (drop i es) ++ jp') with
      ((map snd (take i es) ++ r :: map snd (drop i es)) ++ jp') by by rewrite <- app_assoc.
    rewrite !lookup_app_r; rewrite !length_app, !length_map; cbn [length]; rewrite ?length_map; [f_equal; lia|lia|lia].
Qed.

(** ** A full leaf *)

(** The two leaves a full leaf becomes, before the new one is put in the
    parent. *)
Lemma leaf_split_runs h root par p es key r :
  alloc_inv h -> rep order (nodes h) par (Leaf p es) -> length es = (order - 1)%nat ->
  exists q h' l lnd qnd,
    insert_into_leaf_after_splitting order root p key r h =
      with_fuel (fun fuel => insert_into_parent order fuel root p (hd 0 (map fst (drop (cut (order - 1)) (add_entry es key r)))) q) h' /\
    nodes h !! q = None /\ q <> 0 /\ nodes h !! p = Some l /\ alloc_inv h' /\ records h' = records h /\
    nodes h' = <[q := qnd]> (<[p := lnd]> (<[q := new_node order true]> (nodes h))) /\
    leaf_node order par (take (cut (order - 1)) (add_entry es key r)) lnd /\
    leaf_node order par (drop (cut (order - 1)) (add_entry es key r)) qnd /\
    pointers lnd !! (order - 1)%nat = Some q /\ pointers qnd !! (order - 1)%nat = pointers l !! (order - 1)%nat.
Proof using SL Ho.
  intros HA (l & E & HL) Hfull. destruct (make_leaf_spec order h HA) as (q & h1 & Eq & Hfresh & Hq & HN1 & Hrec & HA1).
  pose proof (cut_bounds (order - 1)) as Hcut. remember (cut (order - 1)) as s eqn:Hs.
  pose proof (position_le es key) as Hpos. pose proof (length_add_entry es key r) as Hlen'.
  pose proof (map_add_entry fst es key r) as Hmk. pose proof (map_add_entry snd es key r) as Hmp.
  remember (add_entry es key r) as es' eqn:Hes'. remember (position es key) as i eqn:Hi.
  pose proof (ln_num _ _ _ _ HL) as Hnum. pose proof (ln_lk _ _ _ _ HL) as Hlk. pose proof (ln_lp _ _ _ _ HL) as Hlp.
  destruct (ln_keys _ _ _ _ HL) as [jk Ek]. destruct (ln_pointers _ _ _ _ HL) as [jp Ep].
  assert (jk = []) as -> by (apply (full_array (map fst es) jk (order - 1)); [by rewrite <- Ek|by rewrite length_map]). rewrite app_nil_r in Ek.
  assert (Hsplit : forall B (f : Z * Z -> B), map f es = map f (take i es) ++ map f (drop i es)) by (intros B f; by rewrite <- map_app, take_drop).
  assert (Hpq : p <> q) by (intros ->; congruence).
  assert (Hlt : length (take i es) = i) by (rewrite length_take; lia).
  assert (Hip : insertion_point (keys l) key (order - 1) 0 = Val i).
  { rewrite Ek, <- Hfull. pose proof (insertion_point_spec key es [] []) as HI. cbn in HI. rewrite app_nil_r in HI. by rewrite HI, <- Hi. }
  (* the temporary arrays *)
  assert (Htk := copy_skip_insert (map fst (take i es)) (map fst (drop i es)) [] (replicate (order + 1) 0) key i (num_keys l)).
  destruct (cres_bind_inv _ _ _ (Htk ltac:(rewrite length_map; lia) ltac:(rewrite Hnum, !length_map, Hlt, length_drop; lia)
     ltac:(rewrite length_replicate; lia))) as (tk0 & Htk1 & Htk2). clear Htk.
  assert (Htp := copy_skip_insert (map snd (take i es)) (map snd (drop i es)) jp (replicate (order + 1) 0) r i (num_keys l)).
  destruct (cres_bind_inv _ _ _ (Htp ltac:(rewrite length_map; lia) ltac:(rewrite Hnum, !length_map, Hlt, length_drop; lia)
     ltac:(rewrite length_replicate; lia))) as (tp0 & Htp1 & Htp2). clear Htp.
  rewrite app_assoc, <- Hsplit, <- Ek, app_nil_r in Htk1. rewrite app_assoc, <- Hsplit, <- Ep in Htp1.
  set (z := drop (S (num_keys l)) (replicate (order + 1) 0)) in *.
  replace (map fst (take i es) ++ key :: map fst (drop i es) ++ z) with (map fst es' ++ z) in Htk2 by by rewrite Hmk, <- app_assoc.
  replace (map snd (take i es) ++ r :: map snd (drop i es) ++ z) with (map snd es' ++ z) in Htp2 by by rewrite Hmp, <- app_assoc.
  assert (HTK : length (map fst es' ++ z) = (order + 1)%nat).
  { unfold z. rewrite length_app, length_map, length_drop, length_replicate, Hnum. lia. }
  assert (HTP : length (map snd es' ++ z) = (order + 1)%nat).
  { unfold z. rewrite length_app, length_map, length_drop, length_replicate, Hnum. lia. }
  assert (exists nx, pointers l !! (order - 1)%nat = Some nx) as [nx Enx] by (apply lookup_lt_is_Some; lia).
  assert (E1q : nodes h1 !! q = Some (new_node order true)) by by rewrite HN1, lookup_insert_eq.
  set (lps := take s (map snd es' ++ z) ++ drop s (pointers l)).
  assert (Hlps : length lps = order) by (unfold lps; rewrite length_app, length_take, length_drop; lia).
  set (nps := take (order - s) (drop s (map snd es' ++ z)) ++ drop (order - s) (replicate order 0)).
  assert (Hnps : length nps = order) by (unfold nps; rewrite length_app, length_take, !length_drop, length_replicate; lia).
  destruct (fill_length (order - 1 - s) (<[(order - 1)%nat := q]> lps) s 0) as (lps2 & Hfl & HLl & HTl & HIl);
    [rewrite length_insert; lia|].
  destruct (fill_length (order - 1 - (order - s)) (<[(order - 1)%nat := nx]> nps) (order - s) 0) as (nps2 & Hfn & HLn & HTn & HIn);
    [rewrite length_insert; lia|].
  set (nks := take (order - s) (drop s (map fst es' ++ z)) ++ drop (order - s) (replicate (order - 1) 0)).
  assert (Hnks : nks = map fst (drop s es') ++ drop (order - s) (replicate (order - 1) 0)).
  { unfold nks. f_equal. rewrite drop_app_le by (rewrite length_map; lia). rewrite take_app_le by (rewrite length_drop, length_map; lia).
    rewrite take_ge by (rewrite length_drop, length_map; lia). by rewrite skipn_map. }
  eexists q, _, l, _, _. split.
  { unfold insert_into_leaf_after_splitting. rewrite <- Hs. cbv zeta. rewrite (bindM _ _ _ _ _ Eq).
    rewrite (bind_load p l) by (rewrite HN1, lookup_insert_ne by done; done).
    rewrite (bind_lift _ _ _ _ Hip), (bind_lift _ _ _ _ Htk1), (bind_lift _ _ _ _ Htp1), (bind_lift _ _ _ _ Htk2), (bind_lift _ _ _ _ Htp2).
    rewrite (bind_lift _ _ _ _ (copy_from (map snd es' ++ z) 0 (pointers l) s ltac:(lia) ltac:(lia))).
    rewrite (bind_lift _ _ _ _ (copy_from (map fst es' ++ z) 0 (keys l) s ltac:(lia) ltac:(lia))). cbn [drop].
    rewrite (bind_load q _ _ _ E1q). cbn [new_node keys pointers num_keys is_leaf].
    rewrite (bind_lift _ _ _ _ (copy_from (map snd es' ++ z) s (replicate order 0) (order - s) ltac:(lia) ltac:(rewrite length_replicate; lia))).
    rewrite (bind_lift _ _ _ _ (copy_from (map fst es' ++ z) s (replicate (order - 1) 0) (order - s) ltac:(lia) ltac:(rewrite length_replicate; lia))).
    fold lps nps nks.
    rewrite (bind_lift _ _ _ nx).
    2: { apply aget_spec. unfold lps. rewrite lookup_app_r by (rewrite length_take; lia). rewrite lookup_drop, length_take.
         rewrite <- Enx. f_equal. rewrite drop_0. lia. }
    rewrite (bind_lift _ _ _ _ (aset_spec nps (order - 1) nx ltac:(lia))).
    rewrite (bind_lift _ _ _ _ (aset_spec lps (order - 1) q ltac:(lia))).
    rewrite (bind_lift _ _ _ _ Hfl), (bind_lift _ _ _ _ Hfn).
    rewrite (bind_store p l) by (rewrite HN1, lookup_insert_ne by done; done).
    rewrite (bind_store q (new_node order true)) by (cbn; rewrite lookup_insert_ne by done; exact E1q).
    rewrite (bind_lift _ _ _ (hd 0 (map fst (drop s es')))).
    2: { apply aget_spec. rewrite Hnks. destruct (drop s es') as [|e rest] eqn:Ed; [|done].
         apply (f_equal length) in Ed. rewrite length_drop in Ed. cbn in Ed. lia. }
    reflexivity. }
  split; [done|]. split; [done|]. split; [done|]. split; [|split; [done|split; [cbn; by rewrite HN1|split; [|split; [|split]]]]].
  - apply (alloc_inv_nodes h1); [|exact HA1]. intros x. cbn [nodes set_nodes]. rewrite <- !live_insert, HN1, <- live_insert.
    pose proof (ex_intro _ _ E : is_Some _). naive_solver.
  - destruct HL. split; cbn [pointers keys parent is_leaf num_keys]; try done.
    + rewrite length_take. lia.
    + exists (drop s (keys l)). f_equal. rewrite drop_0, take_app_le by (rewrite length_map; lia). by rewrite firstn_map.
    + apply take_prefix. rewrite length_map, length_take, Nat.min_l by lia. rewrite HTl, take_insert_ge by lia.
      unfold lps. rewrite take_app_le by (rewrite length_take; lia). rewrite take_take, Nat.min_id.
      rewrite take_app_le by (rewrite length_map; lia). by rewrite firstn_map.
    + rewrite drop_0, length_app, length_take, length_drop. lia.
    + rewrite HLl, length_insert. lia.
  - destruct HL. split; cbn [pointers keys parent is_leaf num_keys]; try done.
    + rewrite length_drop. lia.
    + exists (drop (order - s) (replicate (order - 1) 0)). exact Hnks.
    + apply take_prefix. rewrite length_map, length_drop. replace (length es' - s)%nat with (order - s)%nat by lia.
      rewrite HTn, take_insert_ge by lia.
      unfold nps. rewrite take_app_le by (rewrite length_take, length_drop; lia). rewrite take_take, Nat.min_id.
      rewrite drop_app_le by (rewrite length_map; lia). rewrite take_app_le by (rewrite length_drop, length_map; lia).
      rewrite take_ge by (rewrite length_drop, length_map; lia). by rewrite skipn_map.
    + unfold nks. rewrite length_app, length_take, !length_drop, length_replicate. lia.
    + rewrite HLn, length_insert. lia.
  - cbn [pointers]. rewrite HIl by lia. by rewrite list_lookup_insert_eq by lia.
  - cbn [pointers]. rewrite HIn by lia. by rewrite list_lookup_insert_eq by lia.
Qed.

(** ** The chain of leaves *)

(** Each leaf's last pointer is the next leaf. *)
Fixpoint linked (N : gmap Z node) (ls : list Z) (next : Z) : Prop :=
  match ls with
  | [] => True
  | p :: ls => (exists nd, N !! p = Some nd /\ is_leaf nd = true /\ pointers nd !! (order - 1)%nat = Some (hd next ls)) /\
               linked N ls next
  end.

Lemma linked_app N l1 l2 e : linked N (l1 ++ l2) e <-> linked N l1 (hd e l2) /\ linked N l2 e.
Proof using.
  clear Ho. induction l1 as [|p l1 IH]; cbn; [tauto|]. rewrite IH. by destruct l1; cbn; tauto.
Qed.

Lemma linked_frame N N' ls e :
  (forall p nd, p ∈ ls -> N !! p = Some nd -> is_leaf nd = true ->
     exists nd', N' !! p = Some nd' /\ is_leaf nd' = true /\ pointers nd' !! (order - 1)%nat = pointers nd !! (order - 1)%nat) ->
  linked N ls e -> linked N' ls e.
Proof using.
  clear Ho. induction ls as [|p ls IH]; cbn; [done|]. intros HK [(nd & E & L & P) HR]. split.
  - destruct (HK p nd) as (nd' & E' & L' & P'); [by left|done|done|]. exists nd'. by rewrite P'.
  - apply IH; [|done]. intros q nd' Hq. apply HK. by right.
Qed.

Lemma linked_keeps N N' ls e : keeps N N' -> linked N ls e -> linked N' ls e.
Proof using.
  intros HK. apply linked_frame. intros p nd _ E L. destruct (HK p nd E L) as (nd' & E' & L' & P'). exists nd'. by rewrite P'.
Qed.

(** ** Leaves and addresses of a tree *)

Lemma leaves_addrs t x : x ∈ leaves t -> x ∈ addrs t.
Proof using.
  clear Ho. induction t as [p es|p ks ts IH] using tree_ind'; [done|]. cbn [leaves addrs]. intros Hx.
  apply elem_of_concat_map in Hx as (t & Ht & Hx). rewrite Forall_forall in IH. right. apply elem_of_concat_map. exists t. auto.
Qed.

Lemma leaves_nodup t : NoDup (addrs t) -> NoDup (leaves t).
Proof using.
  clear Ho. induction t as [p es|p ks ts IH] using tree_ind'; [done|]. cbn [leaves addrs]. intros HN. apply NoDup_cons in HN as [_ HN].
  induction IH as [|t ts Ht HF IHf]; cbn in *; [done|]. apply NoDup_app in HN as (H1 & Hd & H2). apply NoDup_app. split_and!; auto.
  intros x Hx Hx'. apply (Hd x); [by apply leaves_addrs|]. apply elem_of_concat_map in Hx' as (u & Hu & Hx').
  apply elem_of_concat_map. exists u. split; [done|by apply leaves_addrs].
Qed.

(** ** Maps *)

Record records_ok (rs : gmap Z Z) (es : list (Z * Z)) (m : gmap Z Z) : Prop := {
  ro_nodup : NoDup (map snd es);
  ro_live k r : (k, r) ∈ es -> is_Some (rs !! r);
  ro_map k v : m !! k = Some v <-> exists r, (k, r) ∈ es /\ rs !! r = Some v
}.

Lemma records_ok_perm rs es es' m : es ≡ₚ es' -> records_ok rs es m -> records_ok rs es' m.
Proof using.
  clear Ho. intros HP [H1 H2 H3]. split.
  - by rewrite <- HP.
  - intros k r. rewrite <- HP. apply H2.
  - intros k v. rewrite H3. by setoid_rewrite HP.
Qed.

(** The store, with the tree at [root], stands for [m]. *)
Record tree_map (h : heap) (root : Z) (T : tree) (n : nat) (m : gmap Z Z) : Prop := {
  tm_alloc : alloc_inv h;
  tm_tree : tree_at order h root T n;
  tm_linked : linked (nodes h) (leaves T) 0;
  tm_records : records_ok (records h) (flatten T) m
}.

Definition represents (h : heap) (root : Z) (m : gmap Z Z) : Prop :=
  (root = 0 /\ m = ∅ /\ alloc_inv h) \/ exists T n, tree_map h root T n m.

Lemma keys_nodup n root lo hi T : ok order n root lo hi T -> NoDup (map fst (flatten T)).
Proof using. clear Ho. intros HO. apply incr_NoDup. exact (proj1 (ok_sorted _ _ _ _ _ _ HO)). Qed.

Lemma same_record {A B} (l : list (A * B)) k r r' : NoDup (map fst l) -> (k, r) ∈ l -> (k, r') ∈ l -> r = r'.
Proof using.
  clear Ho. intros HN H1 H2. apply list_elem_of_lookup_1 in H1 as [i Hi], H2 as [j Hj].
  assert (i = j) as ->; [|congruence]. apply (NoDup_lookup (map fst l) i j k HN);
    change (map fst l) with (fst <$> l); rewrite list_lookup_fmap; [by rewrite Hi|by rewrite Hj].
Qed.

Lemma rec_pos h r : alloc_inv h -> is_Some (records h !! r) -> r <> 0.
Proof using SL.
  clear Ho. intros [_ [_ _ HS]] Hr. destruct (HS r (or_introl Hr)) as (i & k & _ & Hk & ->). pose proof (rec_slab_pos i).
  unfold RECORD_SIZE in *. lia.
Qed.

(** [find] answers the record of the key, NULL when there is none. *)
Lemma find_represents h root m key : represents h root m -> 0 <= key < w64 ->
  exists r leaf, find root key h = Val ((r, leaf), h) /\
    match m !! key with
    | Some v => r <> 0 /\ records h !! r = Some v
    | None => r = 0
    end.
Proof using SL.
  clear Ho. intros [(-> & -> & _)|(T & n & [HA HT _ HR])] Hk.
  - exists 0, 0. split; [done|]. by rewrite lookup_empty.
  - destruct (find_spec order h root T n key HT Hk) as (r & leaf & Hrun & Hr). exists r, leaf. split; [done|].
    destruct Hr as [[-> Hn]|Hin].
    + destruct (m !! key) as [v|] eqn:E; [|done]. apply HR in E as (r & Hin & _). exfalso. apply Hn.
      change key with (fst (key, r)). change (map fst (flatten T)) with (fst <$> flatten T). by apply list_elem_of_fmap_2.
    + destruct (ro_live _ _ _ HR _ _ Hin) as [v Hv]. rewrite (proj2 (ro_map _ _ _ HR key v)) by by exists r.
      split; [|done]. by apply (rec_pos h); [|eexists].
Qed.

(** ** Insertion *)

Lemma records_ok_set rs es m key r v : NoDup (map fst es) -> records_ok rs es m -> (key, r) ∈ es ->
  records_ok (<[r := v]> rs) es (<[key := v]> m).
Proof using.
  clear Ho. intros HNk [HN HL HM] Hin. split; [done| |].
  - intros k' r' Hin'. destruct (decide (r' = r)) as [->|]; [rewrite lookup_insert_eq; by eexists|].
    rewrite lookup_insert_ne by done. by eapply HL.
  - intros k' v'. destruct (decide (k' = key)) as [->|Hne].
    + rewrite lookup_insert_eq. split.
      * intros [= <-]. exists r. by rewrite lookup_insert_eq.
      * intros (r' & Hin' & E). assert (r' = r) as -> by by eapply same_record. by rewrite lookup_insert_eq in E.
    + rewrite lookup_insert_ne by done. rewrite HM.
      assert (Hr : forall r', (k', r') ∈ es -> r <> r').
      2: { split; intros (r' & Hin' & E); exists r'; (split; [done|]); specialize (Hr r' Hin'); by rewrite lookup_insert_ne in *. }
      intros r' Hin' <-. apply Hne.
      apply (same_record (map (fun x => (snd x, fst x)) es) r k' key).
      * rewrite map_map. exact HN.
      * change (r, k') with ((fun x : Z * Z => (snd x, fst x)) (k', r)). by apply (list_elem_of_fmap_2 (fun x : Z * Z => (snd x, fst x))).
      * change (r, key) with ((fun x : Z * Z => (snd x, fst x)) (key, r)). by apply (list_elem_of_fmap_2 (fun x : Z * Z => (snd x, fst x))).
Qed.

Lemma records_ok_add rs es es' m key r v : records_ok rs es m -> rs !! r = None -> key ∉ map fst es -> es' ≡ₚ (key, r) :: es ->
  records_ok (<[r := v]> rs) es' (<[key := v]> m).
Proof using.
  clear Ho. intros [HN HL HM] Hr Hk HP. apply (records_ok_perm _ ((key, r) :: es)); [by symmetry|].
  assert (Hne : forall k' r', (k', r') ∈ es -> r' <> r /\ k' <> key).
  { intros k' r' Hin. split; intros ->; [destruct (HL _ _ Hin); congruence|]. apply Hk.
    change key with (fst (key, r')). change (map fst es) with (fst <$> es). by apply list_elem_of_fmap_2. }
  split.
  - cbn. constructor; [|done]. intros Hin. change (map snd es) with (snd <$> es) in Hin.
    apply list_elem_of_fmap in Hin as ([k' r'] & -> & Hin). by destruct (Hne _ _ Hin).
  - intros k' r' [[= -> ->]|Hin]%elem_of_cons; [rewrite lookup_insert_eq; by eexists|].
    destruct (Hne _ _ Hin). rewrite lookup_insert_ne by done. by eapply HL.
  - intros k' v'. setoid_rewrite elem_of_cons. destruct (decide (k' = key)) as [->|Hk'].
    + rewrite lookup_insert_eq. split.
      * intros [= <-]. exists r. rewrite lookup_insert_eq. split; [by left|done].
      * intros (r' & [[= ->]|Hin] & E); [by rewrite lookup_insert_eq in E|]. by destruct (Hne _ _ Hin).
    + rewrite lookup_insert_ne by done. rewrite HM. split.
      * intros (r' & Hin & E). destruct (Hne _ _ Hin). exists r'. rewrite lookup_insert_ne by done. split; [by right|done].
      * intros (r' & [[= -> ->]|Hin] & E); [done|]. destruct (Hne _ _ Hin). rewrite lookup_insert_ne in E by done. by exists r'.
Qed.

(** First insertion. *)
Lemma start_new_tree_spec h key r : alloc_inv h -> 0 <= key < w64 ->
  exists p h', start_new_tree order key r h = Val (p, h') /\ tree_at order h' p (Leaf p [(key, r)]) 0 /\
    linked (nodes h') [p] 0 /\ alloc_inv h' /\ records h' = records h.
Proof using SL Ho.
  intros HA Hk. destruct (make_leaf_spec order h HA) as (p & h1 & E & Hfresh & Hp & HN1 & Hrec & HA1).
  assert (E1 : nodes h1 !! p = Some (new_node order true)) by by rewrite HN1, lookup_insert_eq.
  assert (HK : replicate (order - 1) 0 = 0 :: replicate (order - 2) 0) by by replace (order - 1)%nat with (S (order - 2)) by lia.
  assert (HP : replicate order 0 = 0 :: replicate (order - 1) 0) by by replace order with (S (order - 1)) at 1 by lia.
  set (nd := {| pointers := <[(order - 1)%nat := 0]> (r :: replicate (order - 1) 0); keys := key :: replicate (order - 2) 0;
                parent := 0; is_leaf := true; num_keys := 1 |}).
  exists p, (set_nodes h1 (<[p := nd]> (nodes h1))). split.
  { unfold start_new_tree. rewrite (bindM _ _ _ _ _ E), (bind_load p _ _ _ E1). cbn [new_node keys pointers is_leaf num_keys].
    rewrite HK, HP. rewrite (bind_lift _ _ _ (key :: replicate (order - 2) 0)) by done.
    rewrite (bind_lift _ _ _ (r :: replicate (order - 1) 0)) by done.
    rewrite (bind_lift _ _ _ _ (aset_spec (r :: replicate (order - 1) 0) (order - 1) 0 ltac:(cbn; rewrite length_replicate; lia))).
    rewrite (bind_store p _ _ _ _ E1). reflexivity. }
  assert (EN : (<[p := nd]> (nodes h1)) !! p = Some nd) by apply lookup_insert_eq.
  split; [|split; [|split; [by eapply alloc_inv_store|done]]].
  - split; cbn; [|done| |by apply NoDup_singleton|done].
    + exists nd. split; [exact EN|]. split; cbn; try done.
      * by exists (replicate (order - 2) 0).
      * destruct (order - 1)%nat as [|m] eqn:Em; [lia|]. cbn. by eexists.
      * rewrite length_replicate. lia.
      * rewrite length_insert. cbn. rewrite length_replicate. lia.
    + unfold leaf_min. split_and!; [done| |lia|lia]. constructor; [lia|constructor].
  - cbn. split; [|done]. exists nd. split_and!; [exact EN|done|]. cbn.
    apply list_lookup_insert_eq. cbn. rewrite length_replicate. lia.
Qed.

Lemma tree_at_records h h' root T n : nodes h' = nodes h -> tree_at order h root T n -> tree_at order h' root T n.
Proof using. intros E []. split; try done. by rewrite E. Qed.

Lemma not_in_leaf rs C p es key m : records_ok rs (flatten (plug C (Leaf p es))) m ->
  m !! key = None -> key ∉ map fst (flatten (plug C (Leaf p es))) /\ key ∉ map fst es.
Proof using.
  clear Ho. intros HR Hm.
  assert (Hn : key ∉ map fst (flatten (plug C (Leaf p es)))).
  { intros Hin. apply list_elem_of_fmap in Hin as ([k r] & -> & Hin). destruct (ro_live _ _ _ HR _ _ Hin) as [v Hv].
    assert (m !! k = Some v) by (apply HR; by exists r). cbn in Hm. congruence. }
  split; [done|]. intros Hin. apply Hn. rewrite flatten_plug. cbn [flatten]. rewrite !map_app, !elem_of_app. tauto.
Qed.

Lemma length_caddrs C : (length C <= length (caddrs C))%nat.
Proof using. clear Ho. induction C as [|F C IH]; [done|]. rewrite caddrs_cons, length_app. cbn. lia. Qed.

Lemma linked_split N N' l1 p q l2 l lnd qnd : linked N (l1 ++ p :: l2) 0 -> NoDup (l1 ++ p :: l2) -> q ∉ l1 ++ p :: l2 ->
  N !! p = Some l -> N' !! p = Some lnd -> N' !! q = Some qnd -> is_leaf lnd = true -> is_leaf qnd = true ->
  pointers lnd !! (order - 1)%nat = Some q -> pointers qnd !! (order - 1)%nat = pointers l !! (order - 1)%nat ->
  (forall x, x <> p -> x <> q -> N' !! x = N !! x) -> linked N' (l1 ++ p :: q :: l2) 0.
Proof using.
  clear Ho. intros HL HN Hq Ep Ep' Eq' L1 L2 P1 P2 HS. apply linked_app in HL as [H1 [(nd & E & L & P) H2]].
  apply NoDup_app in HN as (_ & Hd & HN). apply NoDup_cons in HN as [Hp2 _].
  rewrite elem_of_app, elem_of_cons in Hq. assert (nd = l) as -> by congruence.
  assert (Hfr : forall ls e, p ∉ ls -> q ∉ ls -> linked N ls e -> linked N' ls e).
  { intros ls e Hpl Hql. apply linked_frame. intros x nd Hx Ex Lx. exists nd. rewrite HS by (by intros ->). done. }
  apply linked_app. split; [cbn in *; apply Hfr; [|tauto|done]; intros Hin; apply (Hd p Hin); by left|].
  split; [by exists lnd|]. split; [exists qnd; by rewrite P2|]. apply Hfr; [done|tauto|done].
Qed.

(** A new entry goes into a leaf with room. *)
Lemma room_represents h root C p es n a b key r v rs m :
  alloc_inv h -> tree_at order h root (plug C (Leaf p es)) n -> linked (nodes h) (leaves (plug C (Leaf p es))) 0 ->
  records_ok rs (flatten (plug C (Leaf p es))) m -> rs !! r = None -> records h = <[r := v]> rs -> m !! key = None ->
  okctx order 0 a b C -> ok order 0 (is_nil C) a b (Leaf p es) -> a <= key < b -> (length es < order - 1)%nat ->
  exists h', insert_into_leaf p key r h = Val (p, h') /\ represents h' root (<[key := v]> m).
Proof using Ho.
  intros HA [HR Hroot HO HN Hnz] HL HRO Hr Hrec Hm HC HOK Hk Hroom. apply rep_plug in HR as [HR HRC].
  destruct (insert_into_leaf_spec h (top C) p es key r HR Hroom) as (nd & nd' & E & Hrun & HLN & Hptr).
  destruct (not_in_leaf _ _ _ _ _ _ HRO Hm) as [Hn1 Hn2]. destruct HOK as (HI & HF & Hlen).
  assert (HNp : p ∉ caddrs C).
  { rewrite addrs_plug in HN. cbn in HN. by apply NoDup_cons in HN as [? _]. }
  eexists; split; [exact Hrun|]. right. exists (plug C (Leaf p (add_entry es key r))), (0 + length C)%nat.
  assert (Hleaf : is_leaf nd = true).
  { destruct HR as (nd0 & E0 & HL0). assert (nd0 = nd) as -> by congruence. apply HL0. }
  split.
  - by apply (alloc_inv_store h p nd).
  - split; cbn [nodes set_nodes].
    + apply rep_plug. split; [exists nd'; by rewrite lookup_insert_eq|].
      apply (repctx_frame order (nodes h)); [|exact HRC]. intros x Hx. rewrite lookup_insert_ne; [done|]. by intros ->.
    + rewrite <- Hroot. by apply addr_plug.
    + eapply plug_ok; [exact HC|lia|]. cbn [ok]. rewrite length_add_entry.
      destruct (add_entry_sorted es a b key r) as [I1 I2]; [by split|done|done|]. split_and!; [done|done|lia|lia].
    + by rewrite addrs_plug in HN |- *.
    + done.
  - rewrite leaves_plug in *. cbn [leaves] in *. eapply linked_frame; [|exact HL].
    intros x nx _ Ex Lx. cbn [nodes set_nodes]. destruct (decide (x = p)) as [->|].
    + exists nd'. rewrite lookup_insert_eq. assert (nx = nd) as -> by congruence. split_and!; [done|apply HLN|done].
    + exists nx. by rewrite lookup_insert_ne.
  - cbn [records set_nodes]. rewrite Hrec. eapply records_ok_add; [exact HRO|done|exact Hn1|].
    rewrite !flatten_plug. cbn [flatten]. rewrite add_entry_perm. cbn [app]. by rewrite <- Permutation_middle.
Qed.

(** A new entry splits a full leaf, and nodes above it as needed. *)
Lemma full_represents h root C p es n a b key r v rs m :
  alloc_inv h -> tree_at order h root (plug C (Leaf p es)) n -> linked (nodes h) (leaves (plug C (Leaf p es))) 0 ->
  records_ok rs (flatten (plug C (Leaf p es))) m -> rs !! r = None -> records h = <[r := v]> rs -> m !! key = None ->
  okctx order 0 a b C -> ok order 0 (is_nil C) a b (Leaf p es) -> a <= key < b -> length es = (order - 1)%nat ->
  exists root' h', insert_into_leaf_after_splitting order root p key r h = Val (root', h') /\ represents h' root' (<[key := v]> m).
Proof using SL Ho.
  intros HA [HR Hroot HO HN Hnz] HL HRO Hr Hrec Hm HC HOK Hk Hfull. apply rep_plug in HR as [HR HRC].
  destruct (leaf_split_runs h root (top C) p es key r HA HR Hfull)
    as (q & h2 & l & lnd & qnd & Hrun & Hfresh & Hq & El & HA2 & Hrec2 & HN2 & HL1 & HL2 & HP1 & HP2).
  destruct (not_in_leaf _ _ _ _ _ _ HRO Hm) as [Hn1 Hn2]. destruct HOK as (HI & HF & Hlen).
  assert (Hsorted : sorted_in a b (map fst (add_entry es key r))) by (apply add_entry_sorted; [by split|done|done]).
  destruct (leaf_halves order (add_entry es key r) a b p q Ho Hsorted) as (k' & x & rest & Hdrop & Hk1 & Hk2 & O1 & O2);
    [rewrite length_add_entry; lia|].
  rewrite Hrun, Hdrop. cbn [map fst hd]. clear Hrun.
  set (tl := Leaf p (take (cut (order - 1)) (add_entry es key r))) in *.
  set (tr := Leaf q (drop (cut (order - 1)) (add_entry es key r))) in *.
  rewrite addrs_plug in HN. cbn [addrs app] in HN. pose proof HN as HN0. apply NoDup_cons in HN as [HNp HNC].
  assert (Hqd : forall y, is_Some (nodes h !! y) -> y <> q) by (intros y [? ?] ->; congruence).
  assert (Hpq : p <> q) by (apply Hqd; by eexists).
  assert (HqC : forall y, y ∈ caddrs C -> y <> q) by (intros y Hy; by apply Hqd, (repctx_dom _ _ _ _ _ HRC)).
  assert (Lp : nodes h2 !! p = Some lnd) by by rewrite HN2, lookup_insert_ne, lookup_insert_eq.
  assert (Lq : nodes h2 !! q = Some qnd) by by rewrite HN2, lookup_insert_eq.
  assert (Lx : forall y, y <> p -> y <> q -> nodes h2 !! y = nodes h !! y) by (intros y H1 H2; by rewrite HN2, !lookup_insert_ne).
  assert (HRC2 : repctx order (nodes h2) p C).
  { apply (repctx_frame order (nodes h)); [|exact HRC]. intros y Hy. apply Lx; [by intros ->|by apply HqC]. }
  assert (Hfuel : (length C < fuel_of h2)%nat).
  { pose proof (length_caddrs C). assert (length (caddrs C) <= size (nodes h2))%nat; [|unfold fuel_of; lia].
    apply nodup_size; [done|]. intros y Hy. by apply (repctx_dom _ _ _ _ _ HRC2). }
  destruct (parent_grown order Ho C (fuel_of h2) h2 root tl k' tr HA2) as (T & h3 & Hrun & HG & HRT & HNT & HnzT & HA3 & Hrec3 & HK).
  { by exists lnd. } { by exists qnd. } { exact HRC2. }
  { cbn. constructor; [by intros [?|?]%elem_of_cons|]. constructor; [|done]. intros Hin. by apply (HqC q). }
  { by eapply okctx_frames. } { rewrite <- Hroot. by apply addr_plug. } { done. } { done. }
  exists (addr T), h3. split; [exact Hrun|]. right.
  destruct (grown_ok order C tl k' tr T Ho HG 0 a b HC O1 O2) as [n' HOT]; [lia|lia|].
  destruct (grow_flatten order _ _ _ _ _ HG) as [HFT HLT]. exists T, n'. split; [done|by split| |].
  - rewrite HLT. apply (linked_keeps (nodes h2)); [done|]. rewrite leaves_plug in HL. cbn [leaves tl tr app] in *.
    assert (HNl : NoDup (leaves (plug C (Leaf p es)))) by (apply leaves_nodup; by rewrite addrs_plug).
    assert (Hql : q ∉ leaves (plug C (Leaf p es))).
    { intros Hin. apply leaves_addrs in Hin. rewrite addrs_plug in Hin. cbn in Hin. apply elem_of_cons in Hin as [?|Hin]; [done|by apply (HqC q)]. }
    rewrite leaves_plug in HNl, Hql.
    eapply (linked_split (nodes h) (nodes h2) _ p q _ l lnd qnd HL HNl Hql El Lp Lq); [apply HL1|apply HL2|done|done|done].
  - rewrite Hrec3, Hrec2, Hrec. eapply records_ok_add; [exact HRO|done|exact Hn1|].
    rewrite HFT, flatten_plug. cbn [flatten tl tr]. rewrite (app_assoc (take _ _)), take_drop, add_entry_perm.
    cbn [app]. by rewrite <- Permutation_middle.
Qed.

Lemma insert_represents h root m key v : represents h root m -> 0 <= key < w64 ->
  exists root' h', insert order root key v h = Val (root', h') /\ represents h' root' (<[key := v]> m).
Proof using SL Ho.
  intros HRp Hk. destruct (find_represents h root m key HRp Hk) as (r0 & leaf0 & Hfind & Hm).
  unfold insert. rewrite (bindM _ _ _ _ _ Hfind). destruct (m !! key) as [v0|] eqn:Em.
  - destruct Hm as [Hr0 Ev0]. rewrite (proj2 (Z.eqb_neq _ _)) by done. cbn [negb].
    destruct HRp as [(-> & -> & _)|(T & n & [HA HT HL HR])]; [by rewrite lookup_empty in Em|].
    exists root, (set_records h (<[r0 := v]> (records h))). split.
    { rewrite (bindM _ _ _ tt (set_records h (<[r0 := v]> (records h)))); [done|]. unfold store_record. by rewrite Ev0. }
    right. exists T, n. split; [by eapply alloc_inv_record|by eapply tree_at_records; [|exact HT]|done|].
    pose proof (keys_nodup _ _ _ _ _ (at_ok _ _ _ _ _ HT)) as HNk. cbn [records set_records].
    assert (Hin : (key, r0) ∈ flatten T).
    { destruct (find_spec order h root T n key HT Hk) as (r1 & l1 & Hf & Hr1). rewrite Hfind in Hf. injection Hf as <- <-.
      destruct Hr1 as [[-> _]|?]; done. }
    by apply records_ok_set.
  - subst r0. cbn [Z.eqb negb].
    assert (HA : alloc_inv h) by (destruct HRp as [(_ & _ & ?)|(T & n & [])]; done).
    destruct (make_record_spec h v HA) as (r & h1 & E1 & Hfresh & Hr & HN1 & Hrec1 & HA1). rewrite (bindM _ _ _ _ _ E1).
    destruct HRp as [(-> & -> & _)|(T & n & [_ HT HL HR])].
    + rewrite Z.eqb_refl. destruct (start_new_tree_spec h1 key r HA1 Hk) as (p & h2 & E2 & HT & HL & HA2 & Hrec2).
      exists p, h2. split; [exact E2|]. right. exists (Leaf p [(key, r)]), 0%nat. split; [done|done|exact HL|].
      rewrite Hrec2, Hrec1. eapply (records_ok_add _ []); [|done|apply not_elem_of_nil|done].
      split; [constructor|by intros ? ? ?%elem_of_nil|]. intros k' v'. rewrite lookup_empty. split; [done|].
      by intros (? & ?%elem_of_nil & _).
    + pose proof (at_null _ _ _ _ _ HT) as Hnz. rewrite (proj2 (Z.eqb_neq root 0)) by done.
      pose proof (tree_at_records h h1 root T n HN1 HT) as HT1. rewrite <- HN1 in HL.
      destruct (find_leaf_spec order h1 root T n key HT1 Hk) as (C & p & es & a & b & Hrun & -> & HC & HOK & Hab & HRl & HRC & _).
      rewrite (bindM _ _ _ _ _ Hrun). destruct HRl as (nd & End & HLN). rewrite (bind_load p nd) by done.
      rewrite (ln_num _ _ _ _ HLN). destruct (length es <? order - 1)%nat eqn:El.
      * apply Nat.ltb_lt in El.
        destruct (room_represents h1 root C p es n a b key r v (records h) m HA1 HT1 HL HR Hfresh Hrec1 Em HC HOK Hab El) as (h2 & E2 & HR2).
        exists root, h2. split; [|done]. by rewrite (bindM _ _ _ _ _ E2).
      * apply Nat.ltb_ge in El. pose proof HOK as (_ & _ & Hlen).
        apply (full_represents h1 root C p es n a b key r v (records h) m); try done. lia.
Qed.

(** ** Height and depth *)

Lemma height_from_spec h n : forall t root lo hi par fuel d, rep order (nodes h) par t -> ok order n root lo hi t -> (n < fuel)%nat ->
  height_from fuel (addr t) d h = Val ((d + n)%nat, h).
Proof using.
  clear Ho. induction n as [|n IH]; intros t root lo hi par fuel d HR HO Hf; (destruct fuel as [|fuel]; [lia|]);
    destruct t as [p es|p ks ts]; try done.
  - destruct HR as (nd & E & HL). cbn [height_from addr]. rewrite (bind_load p nd) by done. rewrite (ln_leaf _ _ _ _ HL).
    by rewrite Nat.add_0_r.
  - destruct HR as [(nd & E & HL) HR]. cbn [height_from addr]. rewrite (bind_load p nd) by done. rewrite (in_leaf _ _ _ _ _ HL).
    destruct HO as [HS _]. pose proof (segs_length _ _ _ _ _ HS) as Hlen. destruct ts as [|t ts]; [done|].
    destruct (in_pointers _ _ _ _ _ HL) as [j Ej]. rewrite (bind_lift _ _ _ (addr t)) by (by rewrite Ej).
    destruct HR as [HRt _].
    assert (exists a b, ok order n false a b t) as (a & b & HOt).
    { destruct ks as [|k ks]; cbn in HS; [destruct ts; [|done]|]; destruct HS as [HS _]; eauto. }
    rewrite (IH t false a b p fuel (S d) HRt HOt) by lia. do 2 f_equal. lia.
Qed.

Lemma height_spec h root T n : tree_at order h root T n -> height root h = Val (n, h).
Proof using.
  clear Ho. intros HT. pose proof (tree_fuel _ _ _ _ _ HT) as [Hf _]. destruct HT as [HR <- HO _ _].
  unfold height, with_fuel. by rewrite (height_from_spec h n T true 0 w64 0 _ 0 HR HO Hf).
Qed.

Lemma addr_plug_in C t : C <> [] -> addr (plug C t) ∈ caddrs C.
Proof using.
  clear Ho. revert t. induction C as [|F C IH]; intros t Hne; [done|]. cbn [plug]. rewrite caddrs_cons. apply elem_of_app.
  destruct C as [|G C]; [left; cbn; by left|right; by apply IH].
Qed.

Lemma path_to_root_from_spec h C : forall t fuel d, rep order (nodes h) (top C) t -> repctx order (nodes h) (addr t) C ->
  NoDup (addrs (plug C t)) -> (length C < fuel)%nat ->
  path_to_root_from fuel (addr (plug C t)) (addr t) d h = Val ((d + length C)%nat, h).
Proof using.
  clear Ho. induction C as [|F C IH]; intros t fuel d HR HC HN Hf; (destruct fuel as [|fuel]; [lia|]); cbn [path_to_root_from].
  - rewrite Z.eqb_refl. by rewrite Nat.add_0_r.
  - rewrite (proj2 (Z.eqb_neq _ _)).
    2: { intros Heq. rewrite addrs_plug in HN. apply NoDup_app in HN as (_ & Hd & _). apply (Hd (addr t) (addr_in t)).
         rewrite Heq. by apply addr_plug_in. }
    destruct (rep_root order _ _ _ HR) as (nd & E & Hpar). rewrite (bind_load _ nd) by done. rewrite Hpar. cbn [top plug] in *.
    assert (HRp : rep order (nodes h) (top C) (Node (f_ptr F) (ks1 F ++ ks2 F) (ts1 F ++ t :: ts2 F))).
    { destruct HC as (HF & H1 & H2 & HC). cbn [rep]. split.
      - by rewrite map_app.
      - rewrite allP_app. split; [done|]. by split. }
    destruct HC as (_ & _ & _ & HC). pose proof (IH _ fuel (S d) HRp HC HN ltac:(cbn in Hf; lia)) as HI. cbn [addr] in HI.
    rewrite HI. cbn [length]. do 2 f_equal. lia.
Qed.

(** ** Range queries *)

(** What the store holds of each leaf. *)
Lemma rep_leaf_entries N t : forall par p es, rep order N par t -> (p, es) ∈ leaf_entries t ->
  exists nd par', N !! p = Some nd /\ leaf_node order par' es nd.
Proof using.
  clear Ho. induction t as [q es|q ks ts IH] using tree_ind'; intros par p es' HR Hin; cbn in *.
  - apply list_elem_of_singleton in Hin as [= -> ->]. destruct HR as (nd & E & HL). by exists nd, par.
  - destruct HR as [_ HR]. apply elem_of_concat_map in Hin as (t & Ht & Hin). rewrite allP_Forall, Forall_forall in *.
    exact (IH t Ht q p es' (HR t Ht) Hin).
Qed.

Fixpoint take_le (e : Z) (es : list (Z * Z)) : list (Z * Z) :=
  match es with
  | (k, r) :: es => if k <=? e then (k, r) :: take_le e es else []
  | [] => []
  end.

Lemma range_in_leaf_spec nd es e j j' : keys nd = map fst es ++ j -> pointers nd = map snd es ++ j' ->
  forall pre es', es = pre ++ es' -> range_in_leaf nd e (length pre) (length es') = Val (take_le e es').
Proof using.
  clear Ho. intros Ek Ep pre es'. revert pre; induction es' as [|[k r] es' IH]; intros pre ->; [done|]. cbn [range_in_leaf length take_le].
  rewrite Ek, map_app, <- app_assoc. cbn [map fst app]. rewrite aget_middle by by rewrite length_map. cbn [mbind cres_bind].
  destruct (k <=? e); [|done]. rewrite Ep, map_app, <- app_assoc. cbn [map snd app]. rewrite aget_middle by by rewrite length_map.
  cbn [mbind cres_bind]. replace (S (length pre)) with (length (pre ++ [(k, r)])) by (rewrite length_app; cbn; lia).
  rewrite IH; [done|by rewrite <- app_assoc].
Qed.

Lemma range_from_spec h e L : forall p es par nd i fuel,
  nodes h !! p = Some nd -> leaf_node order par es nd -> p <> 0 -> (i <= length es)%nat ->
  (forall q qes, (q, qes) ∈ L -> q <> 0 /\ exists qn qpar, nodes h !! q = Some qn /\ leaf_node order qpar qes qn) ->
  linked (nodes h) (p :: map fst L) 0 -> (S (length L) < fuel)%nat ->
  range_from order fuel p e i h = Val (take_le e (drop i es) ++ concat (map (fun x => take_le e (snd x)) L), h).
Proof using.
  clear Ho. induction L as [|[q qes] L IH]; intros p es par nd i fuel E HL Hp Hi HQ HLk Hf; (destruct fuel as [|fuel]; [lia|]);
    cbn [range_from]; rewrite (proj2 (Z.eqb_neq _ _)) by done; rewrite (bind_load p nd) by done;
    destruct (ln_keys _ _ _ _ HL) as [j Ej]; destruct (ln_pointers _ _ _ _ HL) as [j' Ej'];
    (rewrite (bind_lift _ _ _ (take_le e (drop i es)));
      [|rewrite (ln_num _ _ _ _ HL), <- length_drop;
        pose proof (range_in_leaf_spec nd es e j j' Ej Ej' (take i es) (drop i es)) as HR; rewrite take_drop, length_take, Nat.min_l in HR by lia;
        by apply HR]);
    destruct HLk as [(nd' & E' & _ & P) HLk]; assert (nd' = nd) as -> by congruence; rewrite (bind_lift _ _ _ _ (aget_spec _ _ _ P)); cbn [hd map fst].
  - destruct fuel as [|fuel]; [cbn in Hf; lia|]. cbn [range_from]. rewrite Z.eqb_refl. done.
  - destruct (HQ q qes) as (Hq & qn & qpar & Eq & HLq); [by left|].
    rewrite (bindM _ _ _ _ _ (IH q qes qpar qn 0%nat fuel Eq HLq Hq ltac:(lia)
       ltac:(intros; apply HQ; by right) HLk ltac:(cbn in Hf; lia))).
    rewrite drop_0. done.
Qed.

Lemma take_le_filter lo hi s e es : sorted_in lo hi (map fst es) -> s <= lo ->
  take_le e es = List.filter (fun x => (s <=? fst x) && (fst x <=? e)) es.
Proof using.
  clear Ho. intros [HI HF] Hs. revert HI HF. induction es as [|[k r] es IH]; intros HI HF; [done|].
  cbn [map fst] in HI, HF. apply incr_cons in HI as [H1 H2]. apply Forall_cons in HF as [Hk HF].
  cbn [take_le List.filter fst]. rewrite (proj2 (Z.leb_le s k)) by lia. cbn [andb]. destruct (k <=? e) eqn:E; [by rewrite IH|].
  symmetry. apply Z.leb_gt in E. clear IH Hk. induction es as [|[k' r'] es IH]; [done|]. cbn [map fst List.filter] in *.
  rewrite (proj2 (Z.leb_gt k' e)), andb_false_r.
  - apply Forall_cons in HF as [_ HF]. apply incr_cons in H2 as [_ H2]. apply IH; [|done|done]. intros x Hx. apply H1. by right.
  - specialize (H1 k' ltac:(by left)). lia.
Qed.

Definition in_range (s e : Z) (x : Z * Z) : bool := (s <=? fst x) && (fst x <=? e).

Lemma filter_none {A} (f : A -> bool) l : (forall x, x ∈ l -> f x = false) -> List.filter f l = [].
Proof using.
  clear Ho. induction l as [|x l IH]; intros Hf; [done|]. cbn. rewrite Hf by (by left). apply IH. intros y Hy. apply Hf. by right.
Qed.

Lemma in_map_fst {B} (l : list (Z * B)) x : x ∈ l -> fst x ∈ map fst l.
Proof using. clear Ho. intros Hx. change (map fst l) with (fst <$> l). by apply list_elem_of_fmap_2. Qed.

(** The leaves to the right of a leaf, one after the other. *)
Lemma take_le_leaves lo hi s e (L : list (Z * list (Z * Z))) : sorted_in lo hi (map fst (concat (map snd L))) -> s <= lo ->
  concat (map (fun x => take_le e (snd x)) L) = List.filter (in_range s e) (concat (map snd L)).
Proof using.
  clear Ho. induction L as [|[p es] L IH]; intros HS Hs; [done|]. cbn [map concat snd] in *. rewrite map_app in HS.
  destruct HS as [HI HF]. apply incr_app in HI as (I1 & I2 & _). apply Forall_app in HF as [F1 F2].
  rewrite List.filter_app, IH by (done || by split). f_equal. by apply (take_le_filter lo hi); [split|].
Qed.

Lemma drop_position s es : incr (map fst es) = true ->
  Forall (fun k => s <= k) (map fst (drop (position es s) es)) /\ Forall (fun k => k < s) (map fst (take (position es s) es)).
Proof using.
  clear Ho. induction es as [|[k r] es IH]; [by cbn|]. cbn [map fst position]. intros [H1 H2]%incr_cons.
  destruct (k <? s) eqn:E; cbn [drop take map fst]; zbool.
  - destruct (IH H2) as [I1 I2]. split; [done|by constructor].
  - split; [|constructor]. constructor; [lia|]. apply Forall_forall. intros x Hx. specialize (H1 x Hx). lia.
Qed.

(** [find_range] from the leaf of its first key: the entries of the range, or
    none when that leaf has no key from the range's start on. *)
Lemma find_range_spec h root T n m s e : tree_map h root T n m -> 0 <= s < w64 ->
  exists C p es, T = plug C (Leaf p es) /\ find_leaf root s h = Val (p, h) /\
    (s ∈ map fst (flatten T) -> s ∈ map fst es) /\
    find_range order root s e h =
      Val (if existsb (fun x => s <=? fst x) es then List.filter (in_range s e) (flatten T) else [], h).
Proof using SL Ho.
  intros [HA HT HLk _] Hs. pose proof (tree_fuel _ _ _ _ _ HT) as [_ Hfuel]. pose proof (at_nodup _ _ _ _ _ HT) as HND.
  pose proof (at_rep _ _ _ _ _ HT) as Hrep.
  destruct (find_leaf_spec order h root T n s HT Hs) as (C & p & es & a & b & Hrun & -> & HC & HO & Hab & HR & _).
  exists C, p, es. split; [done|]. split; [done|]. split.
  { destruct (not_around order _ _ _ _ s HC Hab). rewrite flatten_plug. cbn [flatten]. rewrite !map_app, !elem_of_app. tauto. }
  unfold find_range. rewrite (bindM _ _ _ _ _ Hrun).
  destruct HR as (nd & E & HLN). destruct HO as (HI & HF & Hlen).
  assert (Hp : p <> 0) by (eapply alloc_inv_pos; [exact HA|by eexists]). rewrite (proj2 (Z.eqb_neq _ _)) by done.
  rewrite (bind_load p nd) by done. destruct (ln_keys _ _ _ _ HLN) as [jk Ek]. pose proof (position_le es s) as Hpos.
  rewrite (bind_lift _ _ _ (position es s)).
  2: { rewrite Ek, (ln_num _ _ _ _ HLN). exact (insertion_point_spec s es [] jk). }
  rewrite (ln_num _ _ _ _ HLN). destruct (drop_position s es HI) as [Hge Hlt].
  destruct (okctx_bounds _ _ _ _ _ HC) as (_ & Hb & [HIb HFb] & HSa). rewrite Forall_forall in Hge, Hlt, HF, HFb.
  assert (Hes : existsb (fun x : Z * Z => (s <=? fst x)) es = negb (Nat.eqb (position es s) (length es))).
  { rewrite <- (take_drop (position es s) es) at 1. rewrite existsb_app.
    destruct (existsb _ (take _ _)) eqn:Et.
    { apply existsb_exists in Et as (x & Hx & Hsx). apply list_elem_of_In in Hx. specialize (Hlt _ (in_map_fst _ _ Hx)). zbool. lia. }
    cbn [orb]. destruct (drop (position es s) es) as [|x l] eqn:Ed.
    - apply (f_equal length) in Ed. rewrite length_drop in Ed. cbn in Ed. by rewrite (proj2 (Nat.eqb_eq _ _)) by lia.
    - rewrite (proj2 (Nat.eqb_neq _ _)) by (apply (f_equal length) in Ed; rewrite length_drop in Ed; cbn in Ed; lia).
      cbn. by rewrite (proj2 (Z.leb_le _ _)) by (apply Hge; left). }
  rewrite Hes. destruct (position es s =? length es)%nat eqn:Epos; [done|]. cbn [negb]. apply Nat.eqb_neq in Epos.
  unfold with_fuel. rewrite leaves_plug in HLk. cbn [leaves app] in HLk. apply linked_app in HLk as [_ HLk].
  rewrite (range_from_spec h e (after leaf_entries C) p es (top C) nd).
  - f_equal. f_equal. rewrite flatten_plug. cbn [flatten]. rewrite !List.filter_app.
    rewrite (filter_none _ (before flatten C)).
    2: { intros x Hx. unfold in_range. specialize (HFb _ (in_map_fst _ _ Hx)). rewrite (proj2 (Z.leb_gt s _)) by lia. done. }
    rewrite <- (take_drop (position es s) es) at 3. rewrite List.filter_app, (filter_none _ (take (position es s) es)).
    2: { intros x Hx. unfold in_range. specialize (Hlt _ (in_map_fst _ _ Hx)). rewrite (proj2 (Z.leb_gt s _)) by lia. done. }
    cbn [app]. f_equal.
    + apply (take_le_filter s b); [|lia]. rewrite <- (take_drop (position es s) es), map_app in HI. apply incr_app in HI as (_ & HI & _).
      split; [done|]. apply Forall_forall. intros x Hx. split; [by apply Hge|]. apply HF.
      rewrite <- (take_drop (position es s) es), map_app. apply elem_of_app. by right.
    + pose proof (after_entries_flatten C) as HAF. rewrite <- HAF in HSa |- *. by apply (take_le_leaves b w64); [|lia].
  - done.
  - done.
  - done.
  - lia.
  - intros q qes Hq. assert (Hin : (q, qes) ∈ leaf_entries (plug C (Leaf p es))).
    { rewrite leaf_entries_plug, !elem_of_app. tauto. }
    destruct (rep_leaf_entries _ _ _ _ _ Hrep Hin) as (qn & qpar & Eq & HLq). split; [|by exists qn, qpar].
    eapply alloc_inv_pos; [exact HA|by eexists].
  - by rewrite after_entries_leaves.
  - assert (length (leaf_entries (plug C (Leaf p es))) <= length (addrs (plug C (Leaf p es))))%nat.
    { rewrite <- (length_map fst), leaf_entries_leaves. apply submseteq_length, NoDup_submseteq; [by apply leaves_nodup|apply leaves_addrs]. }
    rewrite leaf_entries_plug, !length_app in *. cbn in *. lia.
Qed.
End Leaves.

(** ** Shape *)

Section Shape.
Context `{SL : SlabsLaws} (order : nat) (Ho : (3 <= order)%nat).

Lemma sum_lengths {B} (P : Z -> Z -> tree -> Prop) (f : tree -> list B) b : (forall x y t, P x y t -> (b <= length (f t))%nat) ->
  forall ks ts lo hi, segs P lo ks ts hi -> (length ts * b <= length (concat (map f ts)))%nat.
Proof using.
  clear Ho. intros HP. induction ks as [|k ks IH]; intros [|t ts] lo hi HS; try done; cbn [segs map concat length] in *; rewrite length_app.
  - destruct ts; [|done]. destruct HS as [HS _]. specialize (HP _ _ _ HS). cbn. lia.
  - destruct HS as [H1 [_ H2]]. specialize (HP _ _ _ H1). specialize (IH _ _ _ H2). lia.
Qed.

Lemma ok_size n : forall lo hi t, ok order n false lo hi t -> (cut (order - 1) * cut order ^ n <= length (flatten t))%nat.
Proof using Ho.
  induction n as [|n IH]; intros lo hi [p es|p ks ts] HO; try done; cbn [ok] in HO.
  - cbn. unfold leaf_min in HO. lia.
  - destruct HO as (HS & HN & _). pose proof (segs_length _ _ _ _ _ HS) as Hl.
    pose proof (sum_lengths _ flatten _ IH _ _ _ _ HS) as Hsum. cbn [flatten Nat.pow]. unfold node_min in HN.
    pose proof (cut_bounds order). assert (cut order <= length ts)%nat by lia. nia.
Qed.

Lemma ok_root_size n lo hi t : ok order (S n) true lo hi t -> (2 * cut (order - 1) * cut order ^ n <= length (flatten t))%nat.
Proof using Ho.
  destruct t as [p es|p ks ts]; intros HO; try done; cbn [ok] in HO. destruct HO as (HS & HN & _).
  pose proof (segs_length _ _ _ _ _ HS) as Hl. pose proof (sum_lengths _ flatten _ (ok_size n) _ _ _ _ HS) as Hsum.
  cbn [flatten]. unfold node_min in HN. assert (2 <= length ts)%nat by lia. nia.
Qed.

Lemma records_ok_size rs es m : NoDup (map fst es) -> records_ok rs es m -> size m = length es.
Proof using.
  clear Ho. intros HN [_ HL HM].
  assert (Hd : dom m = list_to_set (map fst es)).
  { apply set_eq. intros k. rewrite elem_of_dom, elem_of_list_to_set. split.
    - intros [v Hv]. apply HM in Hv as (r & Hin & _). exact (in_map_fst es _ Hin).
    - intros Hin. apply list_elem_of_fmap in Hin as ([k' r] & -> & Hin). destruct (HL _ _ Hin) as [v Hv]. exists v. apply HM. by exists r. }
  rewrite <- size_dom, Hd, size_list_to_set by done. apply length_map.
Qed.

(** What holds of the tree of a non-empty map: all its leaves are at the
    height of the tree, which is logarithmic in the number of keys. *)
Lemma represents_shape h root m : represents order h root m -> m <> ∅ ->
  exists n, height root h = Val (n, h) /\
    (forall key, 0 <= key < w64 -> exists leaf, find_leaf root key h = Val (leaf, h) /\ path_to_root root leaf h = Val (n, h)) /\
    (n = 0%nat \/ (2 * cut (order - 1) * cut order ^ (n - 1) <= size m)%nat).
Proof using Ho.
  intros [(_ & -> & _)|(T & n & [HA HT HLk HR])] Hm; [done|]. exists n. split; [by eapply height_spec|]. split.
  - intros key Hk. destruct (find_leaf_spec order h root T n key HT Hk) as (C & p & es & a & b & Hrun & -> & HC & HO & Hab & HRl & HRC & Hlen).
    exists p. split; [done|]. pose proof (tree_fuel _ _ _ _ _ HT) as [Hf _]. destruct HT as [_ <- _ HN _].
    unfold path_to_root, with_fuel.
    exact (eq_trans (path_to_root_from_spec order h C (Leaf p es) (fuel_of h) 0 HRl HRC HN ltac:(lia)) ltac:(by rewrite Nat.add_0_l, Hlen)).
  - destruct n as [|n]; [by left|right]. pose proof (at_ok _ _ _ _ _ HT) as HO.
    rewrite (records_ok_size _ _ _ (keys_nodup _ _ _ _ _ _ HO) HR). replace (S n - 1)%nat with n by lia. by eapply ok_root_size.
Qed.
End Shape.
