(* ===== verification/BTreeDelete.v ===== *)
(** * The B+ tree of the btree workload: deletion (src/Workloads/btree/btree.c, "DELETION")

    The code of [delete], on the store of [BTree].  [neighbor_index] is the
    64-bit word of the code, 2^64 - 1 standing for -1.  Freeing a node or a
    record takes its contents away and puts its address on the free list; a
    node missing from its parent, on which the code exits, is [Undef]. *)
From S2P Require Export BTree.

(** [for (i = lo; n times; i++) a[i - 1] = a[i];] *)
Fixpoint shift_left (a : list Z) (lo n : nat) : cres (list Z) :=
  match n with
  | O => Val a
  | S n => v ← aget a lo; a ← aset a (lo - 1) v; shift_left a (S lo) n
  end.

(** [i = 0; while (a[i] != v) i++;] *)
Fixpoint index_of (a : list Z) (v : Z) : cres nat :=
  match a with
  | [] => Undef
  | x :: a => if x =? v then Val 0%nat else i ← index_of a v; Val (S i)
  end.

(** [num_keys - 1], which must not wrap around. *)
Definition decrement (num : nat) : cres nat := match num with O => Undef | S num => Val num end.

Definition free_node (n : Z) : M unit := fun h =>
  match nodes h !! n with
  | Some _ => Val (tt, {| nodes := base.delete n (nodes h); records := records h; free_nodes := n :: free_nodes h;
                          free_recs := free_recs h; node_slabs := node_slabs h; rec_slabs := rec_slabs h |})
  | None => Undef
  end.

Definition free_record (r : Z) : M unit := fun h =>
  match records h !! r with
  | Some _ => Val (tt, {| nodes := nodes h; records := base.delete r (records h); free_nodes := free_nodes h;
                          free_recs := r :: free_recs h; node_slabs := node_slabs h; rec_slabs := rec_slabs h |})
  | None => Undef
  end.

Section Code.
Context (order : nat).

(** [for (i = 0; i <= num_keys; i++) if (pointers[i] == n) return i - 1;] *)
Fixpoint neighbor_index_from (ps : list Z) (n : Z) (count i : nat) : cres Z :=
  match count with
  | O => Undef
  | S count => p ← aget ps i; if p =? n then Val (u64 (Z.of_nat i - 1)) else neighbor_index_from ps n count (S i)
  end.

Definition get_neighbor_index (n : Z) : M Z :=
  nd ← load n;
  par ← load (parent nd);
  lift (neighbor_index_from (pointers par) n (S (num_keys par)) 0).

Definition remove_entry_from_node (n key pointer : Z) : M Z :=
  nd ← load n;
  i ← lift (index_of (keys nd) key);
  ks ← lift (shift_left (keys nd) (S i) (num_keys nd - S i));
  let num_pointers := if is_leaf nd then num_keys nd else S (num_keys nd) in
  i ← lift (index_of (pointers nd) pointer);
  ps ← lift (shift_left (pointers nd) (S i) (num_pointers - S i));
  num ← lift (decrement (num_keys nd));
  ps ← lift (if is_leaf nd then fill ps num (order - 1 - num) 0 else fill ps (num + 1) (order - (num + 1)) 0);
  _ ← store n {| pointers := ps; keys := ks; parent := parent nd; is_leaf := is_leaf nd; num_keys := num |};
  mret n.

Definition adjust_root (root : Z) : M Z :=
  nd ← load root;
  if (0 <? num_keys nd)%nat then mret root
  else
    new_root ← (if is_leaf nd then mret 0
                else c ← lift (aget (pointers nd) 0); _ ← set_parent c 0; mret c);
    _ ← free_node root;
    mret new_root.

(** [coalesce_nodes] and [redistribute_nodes] are the two ends of
    [delete_entry]; the former calls it on the parent, and takes it as an
    argument. *)
Definition coalesce_nodes (delete_entry : Z -> Z -> Z -> Z -> M Z)
    (root n neighbor neighbor_index k_prime : Z) : M Z :=
  let '(n, neighbor) := if neighbor_index =? ULONG_MAX then (neighbor, n) else (n, neighbor) in
  nb ← load neighbor;
  nd ← load n;
  let at_ := num_keys nb in
  _ ← (if is_leaf nd then
         ks ← lift (copy (keys nd) 0 (keys nb) at_ (num_keys nd));
         ps ← lift (copy (pointers nd) 0 (pointers nb) at_ (num_keys nd));
         next ← lift (aget (pointers nd) (order - 1));
         ps ← lift (aset ps (order - 1) next);
         store neighbor {| pointers := ps; keys := ks; parent := parent nb; is_leaf := is_leaf nb;
                           num_keys := at_ + num_keys nd |}
       else
         ks ← lift (aset (keys nb) at_ k_prime);
         let n_end := num_keys nd in
         ks ← lift (copy (keys nd) 0 ks (S at_) n_end);
         ps ← lift (copy (pointers nd) 0 (pointers nb) (S at_) n_end);
         last ← lift (aget (pointers nd) n_end);
         ps ← lift (aset ps (S at_ + n_end) last);
         _ ← store neighbor {| pointers := ps; keys := ks; parent := parent nb; is_leaf := is_leaf nb;
                               num_keys := S at_ + n_end |};
         _ ← store n {| pointers := pointers nd; keys := keys nd; parent := parent nd; is_leaf := is_leaf nd;
                        num_keys := 0 |};
         adopt ps neighbor 0 (S (S at_ + n_end)));
  root ← delete_entry root (parent nd) k_prime n;
  _ ← free_node n;
  mret root.

(** [n->parent->keys[i] = k;] *)
Definition set_parent_key (par : Z) (i : nat) (k : Z) : M unit :=
  p ← load par;
  ks ← lift (aset (keys p) i k);
  store par {| pointers := pointers p; keys := ks; parent := parent p; is_leaf := is_leaf p; num_keys := num_keys p |}.

(** A node with other arrays and another number of keys. *)
Definition with_arrays (nd : node) (ks ps : list Z) (num : nat) : node :=
  {| pointers := ps; keys := ks; parent := parent nd; is_leaf := is_leaf nd; num_keys := num |}.

Definition redistribute_nodes (root n neighbor neighbor_index : Z) (k_prime_index : nat) (k_prime : Z) : M Z :=
  nd ← load n;
  nb ← load neighbor;
  let num := num_keys nd in
  let nnum := num_keys nb in
  nnum' ← lift (decrement nnum);
  _ ← (if negb (neighbor_index =? ULONG_MAX) then
         ps ← lift (if is_leaf nd then Val (pointers nd)
                    else last ← aget (pointers nd) num; aset (pointers nd) (S num) last);
         ks ← lift (shift_right (keys nd) 0 num);
         ps ← lift (shift_right ps 0 num);
         if negb (is_leaf nd) then
           child ← lift (aget (pointers nb) nnum);
           ps ← lift (aset ps 0 child);
           nps ← lift (aset (pointers nb) nnum 0);
           ks ← lift (aset ks 0 k_prime);
           up ← lift (aget (keys nb) nnum');
           _ ← store n (with_arrays nd ks ps (S num));
           _ ← store neighbor (with_arrays nb (keys nb) nps nnum');
           _ ← set_parent child n;
           set_parent_key (parent nd) k_prime_index up
         else
           entry ← lift (aget (pointers nb) nnum');
           ps ← lift (aset ps 0 entry);
           nps ← lift (aset (pointers nb) nnum' 0);
           up ← lift (aget (keys nb) nnum');
           ks ← lift (aset ks 0 up);
           _ ← store n (with_arrays nd ks ps (S num));
           _ ← store neighbor (with_arrays nb (keys nb) nps nnum');
           set_parent_key (parent nd) k_prime_index up
       else
         nks ← lift (shift_left (keys nb) 1 nnum');
         nps ← lift (shift_left (pointers nb) 1 nnum');
         if is_leaf nd then
           k ← lift (aget (keys nb) 0);
           ks ← lift (aset (keys nd) num k);
           entry ← lift (aget (pointers nb) 0);
           ps ← lift (aset (pointers nd) num entry);
           up ← lift (aget (keys nb) 1);
           _ ← store n (with_arrays nd ks ps (S num));
           _ ← store neighbor (with_arrays nb nks nps nnum');
           set_parent_key (parent nd) k_prime_index up
         else
           ks ← lift (aset (keys nd) num k_prime);
           child ← lift (aget (pointers nb) 0);
           ps ← lift (aset (pointers nd) (S num) child);
           up ← lift (aget (keys nb) 0);
           last ← lift (aget nps nnum);
           nps ← lift (aset nps nnum' last);
           _ ← store n (with_arrays nd ks ps (S num));
           _ ← store neighbor (with_arrays nb nks nps nnum');
           _ ← set_parent child n;
           set_parent_key (parent nd) k_prime_index up);
  mret root.

(** [delete_entry] from the test for the root on. *)
Definition after_removal (delete_entry : Z -> Z -> Z -> Z -> M Z) (root n : Z) : M Z :=
  if n =? root then adjust_root root
  else
    nd ← load n;
    let min_keys := if is_leaf nd then cut (order - 1) else (cut order - 1)%nat in
    if (min_keys <=? num_keys nd)%nat then mret root
    else
      neighbor_index ← get_neighbor_index n;
      let k_prime_index := if neighbor_index =? ULONG_MAX then 0%nat else Z.to_nat neighbor_index in
      par ← load (parent nd);
      k_prime ← lift (aget (keys par) k_prime_index);
      neighbor ← lift (if neighbor_index =? ULONG_MAX then aget (pointers par) 1 else aget (pointers par) (Z.to_nat neighbor_index));
      let capacity := if is_leaf nd then order else (order - 1)%nat in
      nb ← load neighbor;
      if (num_keys nb + num_keys nd <? capacity)%nat then coalesce_nodes delete_entry root n neighbor neighbor_index k_prime
      else redistribute_nodes root n neighbor neighbor_index k_prime_index k_prime.

Fixpoint delete_entry (fuel : nat) (root n key pointer : Z) : M Z :=
  match fuel with
  | O => undef
  | S fuel =>
      n ← remove_entry_from_node n key pointer;
      after_removal (delete_entry fuel) root n
  end.

Definition delete (root key : Z) : M Z :=
  '(key_record, key_leaf) ← find root key;
  if negb (key_record =? 0) && negb (key_leaf =? 0) then
    root ← with_fuel (fun fuel => delete_entry fuel root key_leaf key key_record);
    _ ← free_record key_record;
    mret root
  else mret root.
End Code.
