(* ===== verification/BTreeShrink.v ===== *)
(** * Subtrees that have lost an entry: merging with a neighbor and borrowing from one *)
From S2P Require Export BTreeTree.

Section Shrink.
Context (order : nat) (Ho : (3 <= order)%nat).

(** ** Order apart from size *)

Definition shape (n : nat) (lo hi : Z) (t : tree) : Prop :=
  match n, t with
  | O, Leaf _ es => incr (map fst es) = true /\ Forall (fun k => lo <= k < hi) (map fst es)
  | S n, Node _ ks ts => segs (ok order n false) lo ks ts hi
  | _, _ => False
  end.
Definition tsize (t : tree) : nat := match t with Leaf _ es => length es | Node _ ks _ => length ks end.
Definition tmin (n : nat) (root : bool) : nat := match n with O => leaf_min order root | S _ => node_min order root end.

(** At most one entry or child short. *)
Definition weak (n : nat) (root : bool) (lo hi : Z) (t : tree) : Prop :=
  shape n lo hi t /\ (tmin n root - 1 <= tsize t <= order - 1)%nat.

Lemma ok_shape n root lo hi t : ok order n root lo hi t <-> shape n lo hi t /\ (tmin n root <= tsize t <= order - 1)%nat.
Proof using. clear Ho. destruct n, t; cbn; tauto. Qed.

Lemma ok_is_shape n root lo hi t : ok order n root lo hi t -> shape n lo hi t.
Proof using. clear Ho. rewrite ok_shape. tauto. Qed.

Lemma tmin_pos n root : (1 <= tmin n root)%nat.
Proof using Ho.
  pose proof (cut_bounds order). pose proof (cut_bounds (order - 1)). unfold tmin, leaf_min, node_min. destruct n, root; lia.
Qed.

Lemma shape_nonempty n : forall lo hi t, shape n lo hi t -> (1 <= tsize t)%nat -> lo < hi.
Proof using Ho.
  induction n as [|n IH]; intros lo hi [p es|p ks ts] HS Hl; try done; cbn in *.
  - destruct es as [|e es]; [cbn in Hl; lia|]. destruct HS as [_ HF]. apply Forall_cons in HF as [HF _]. lia.
  - destruct ks as [|k ks], ts as [|t ts]; try done; [cbn in Hl; lia|]. destruct HS as (H1 & _ & H2). apply segs_le in H2.
    apply ok_shape in H1 as [H1 Hs]. pose proof (tmin_pos n false). specialize (IH _ _ _ H1 ltac:(lia)). lia.
Qed.

Lemma ok_nonempty n root lo hi t : ok order n root lo hi t -> lo < hi.
Proof using Ho. rewrite ok_shape. intros [HS Hl]. pose proof (tmin_pos n root). eapply shape_nonempty; [exact HS|lia]. Qed.

(** A node's keys and children around a gap put back together. *)
Lemma segs_pair P Lo ka a k b kb ta tl tr tb Hi : length ta = length ka -> lsegs P Lo ka ta a -> P a k tl -> a <= k ->
  P k b tr -> k <= b -> rsegs P b kb tb Hi -> segs P Lo (ka ++ k :: kb) (ta ++ tl :: tr :: tb) Hi.
Proof using.
  clear Ho. intros Hl H1 H2 H3 H4 H5 H6. apply segs_app; [done|]. exists a. split; [done|]. cbn. split_and!; [done|done|].
  apply segs_hole. by exists b.
Qed.

Lemma segs_one P Lo ka a b kb ta t tb Hi : length ta = length ka -> lsegs P Lo ka ta a -> P a b t -> a <= b ->
  rsegs P b kb tb Hi -> segs P Lo (ka ++ kb) (ta ++ t :: tb) Hi.
Proof using.
  clear Ho. intros Hl H1 H2 H3 H4. apply segs_app; [done|]. exists a. split; [done|]. apply segs_hole. by exists b.
Qed.

Lemma lsegs_keys P lo ks ts m : lsegs P lo ks ts m -> Forall (fun k => k <= m) ks.
Proof using.
  clear Ho. revert lo ts; induction ks as [|k ks IH]; intros lo [|t ts] HL; try done; cbn in HL.
  destruct HL as (_ & _ & HL). constructor; [by apply lsegs_le in HL|by eapply IH].
Qed.

(** The hole and a neighbor: the left one, or the right one of a first child. *)
Lemma hole_pair n lo hi F C t : okctx order n lo hi (F :: C) -> lo < hi -> shape n lo hi t ->
  exists Lo Hi ka k kb ta tl tr tb a b,
    okctx order (S n) Lo Hi C /\ lsegs (ok order n false) Lo ka ta a /\ rsegs (ok order n false) b kb tb Hi /\
    a <= k <= b /\ shape n a k tl /\ shape n k b tr /\ k ∉ ka /\ length ta = length ka /\ Lo < Hi /\
    ks1 F ++ ks2 F = ka ++ k :: kb /\ ts1 F ++ t :: ts2 F = ta ++ tl :: tr :: tb /\
    (node_min order (is_nil C) <= length (ka ++ k :: kb) <= order - 1)%nat /\
    ((tl = t /\ ts1 F = [] /\ ka = [] /\ ta = [] /\ ok order n false k b tr) \/
     (tr = t /\ length (ts1 F) = S (length ka) /\ ok order n false a k tl)).
Proof using Ho.
  intros (Lo & Hi & HC & HL & HR & Hlen) Hlt HS. pose proof (lsegs_length _ _ _ _ _ HL) as Hl1.
  pose proof (lsegs_le _ _ _ _ _ HL). pose proof (rsegs_le _ _ _ _ _ HR).
  destruct (ts1 F) as [|t0 t1 _] eqn:E1 using rev_ind.
  - destruct (ks1 F) as [|] eqn:Ek1; [|done]. cbn in HL. subst Lo. cbn [app] in *.
    destruct (ks2 F) as [|k kb] eqn:Ek2; [unfold node_min in Hlen; pose proof (cut_bounds order); destruct (is_nil C); cbn in Hlen; lia|].
    cbn in HR. destruct HR as [<- HR]. destruct (ts2 F) as [|tr tb] eqn:Et2; [by destruct kb|].
    apply segs_hole in HR as (b & H1 & H2 & H3).
    exists lo, Hi, [], hi, kb, [], t, tr, tb, lo, b. split_and!; try done; try lia.
    all: try (by eapply ok_is_shape); try apply not_elem_of_nil; try (cbn in *; lia). by left.
  - rewrite length_app in Hl1. cbn in Hl1. destruct (ks1 F) as [|k ka _] eqn:Ek1 using rev_ind; [cbn in Hl1; lia|].
    rewrite length_app in Hl1. cbn in Hl1. apply lsegs_app in HL as (a & HL & HL2); [|lia]. cbn in HL2.
    destruct HL2 as (Hok & Hak & ->). pose proof (ok_nonempty _ _ _ _ _ Hok).
    pose proof (lsegs_le _ _ _ _ _ HL).
    rewrite <- app_assoc in Hlen. cbn [app] in Hlen.
    exists Lo, Hi, ka, k, (ks2 F), t1, t0, t, (ts2 F), a, hi. split_and!; try done; try lia.
    + by eapply ok_is_shape.
    + intros Hin. apply lsegs_keys in HL. rewrite Forall_forall in HL. specialize (HL k Hin). lia.
    + by rewrite <- app_assoc.
    + by rewrite <- app_assoc.
    + right. rewrite length_app. cbn. split_and!; [done|lia|done].
Qed.

(** ** Merging *)

Definition merge (tl : tree) (k : Z) (tr : tree) : tree :=
  match tl, tr with
  | Leaf p e1, Leaf _ e2 => Leaf p (e1 ++ e2)
  | Node p k1 t1, Node _ k2 t2 => Node p (k1 ++ k :: k2) (t1 ++ t2)
  | _, _ => tl
  end.

Lemma merge_shape n a k b tl tr : shape n a k tl -> shape n k b tr -> a <= k <= b ->
  shape n a b (merge tl k tr) /\ tsize (merge tl k tr) = (tsize tl + tsize tr + match n with O => 0 | S _ => 1 end)%nat /\
  addr (merge tl k tr) = addr tl /\ flatten (merge tl k tr) = flatten tl ++ flatten tr.
Proof using.
  clear Ho. destruct n, tl as [p e1|p k1 t1], tr as [q e2|q k2 t2]; intros H1 H2 Hk; try done; cbn in *.
  - destruct H1 as [I1 F1], H2 as [I2 F2]. split.
    + rewrite map_app. apply (sorted_in_app a k b); [lia|lia|by split|by split].
    + rewrite length_app. split_and!; [lia|done|done].
  - split; [apply segs_split; [by apply segs_length in H1|done]|]. rewrite length_app, map_app, concat_app. cbn. split_and!; [lia|done|done].
Qed.

(** ** Borrowing *)

Lemma leaf_borrow_left a k b p e1 e q e2 : shape 0 a k (Leaf p (e1 ++ [e])) -> shape 0 k b (Leaf q e2) -> a <= k <= b ->
  shape 0 a (fst e) (Leaf p e1) /\ shape 0 (fst e) b (Leaf q (e :: e2)) /\ a <= fst e <= b.
Proof using.
  clear Ho. cbn. rewrite map_app. intros [I1 F1] [I2 F2] Hk. apply incr_app in I1 as (I1 & _ & Hlt).
  apply Forall_app in F1 as [F1 Fe]. cbn [map] in Fe, Hlt. apply Forall_cons in Fe as [Fe _]. rewrite Forall_forall in F1, F2.
  assert (Hle : forall x, x ∈ map fst e1 -> x < fst e) by (intros x Hx; apply Hlt; [done|by left]).
  split_and!; try lia; try done.
  - apply Forall_forall. intros x Hx. specialize (F1 x Hx). specialize (Hle x Hx). lia.
  - apply incr_cons. split; [|done]. intros x Hx. specialize (F2 x Hx). lia.
  - constructor; [lia|]. apply Forall_forall. intros x Hx. specialize (F2 x Hx). lia.
Qed.

Lemma leaf_borrow_right a k b p e1 q e e' e2 : shape 0 a k (Leaf p e1) -> shape 0 k b (Leaf q (e :: e' :: e2)) -> a <= k <= b ->
  shape 0 a (fst e') (Leaf p (e1 ++ [e])) /\ shape 0 (fst e') b (Leaf q (e' :: e2)) /\ a <= fst e' <= b.
Proof using.
  clear Ho. cbn [shape map]. intros [I1 F1] [I2 F2] Hk. rewrite map_app. cbn [map].
  pose proof I2 as I3. apply incr_cons in I2 as [H2 I2].
  apply Forall_cons in F2 as [Fe F2]. pose proof F2 as F3. apply Forall_cons in F2 as [Fe' F2].
  specialize (H2 (fst e') ltac:(by left)). rewrite Forall_forall in F1.
  split_and!; try lia; try done.
  - apply incr_app. split_and!; [done|done|]. intros x y Hx Hy. apply list_elem_of_singleton in Hy as ->. specialize (F1 x Hx). lia.
  - apply Forall_app. split; [|constructor; [lia|constructor]]. apply Forall_forall. intros x Hx. specialize (F1 x Hx). lia.
  - apply incr_cons in I2 as [H3 _]. constructor; [lia|]. rewrite Forall_forall in F2 |- *. intros x Hx.
    specialize (F2 x Hx). specialize (H3 x Hx). lia.
Qed.

Lemma node_borrow_left n a k b p k1 x t1 u q k2 t2 : length t1 = S (length k1) ->
  shape (S n) a k (Node p (k1 ++ [x]) (t1 ++ [u])) -> shape (S n) k b (Node q k2 t2) ->
  shape (S n) a x (Node p k1 t1) /\ shape (S n) x b (Node q (k :: k2) (u :: t2)) /\ a <= x <= b.
Proof using.
  clear Ho. cbn. intros Hl H1 H2. apply segs_split in H1 as [H1 H3]; [|done]. cbn in H3.
  pose proof (segs_le _ _ _ _ _ H1). pose proof (segs_le _ _ _ _ _ H2). destruct H3 as [H3 Hle].
  split_and!; try done; lia.
Qed.

Lemma node_borrow_right n a k b p k1 t1 q x k2 u t2 : length t1 = S (length k1) ->
  shape (S n) a k (Node p k1 t1) -> shape (S n) k b (Node q (x :: k2) (u :: t2)) ->
  shape (S n) a x (Node p (k1 ++ [k]) (t1 ++ [u])) /\ shape (S n) x b (Node q k2 t2) /\ a <= x <= b.
Proof using.
  clear Ho. cbn. intros Hl H1 (H2 & H3 & H4). pose proof (segs_le _ _ _ _ _ H1). pose proof (segs_le _ _ _ _ _ H4).
  split_and!; try done; try lia. apply segs_split; [done|]. by split.
Qed.
End Shrink.
