(* ===== verification/BTreeDeleteProof.v ===== *)
(** * Deletion from the B+ tree refines deletion from a map *)
From S2P Require Export BTreeMap BTreeDelete.

(** ** Array loops *)

Lemma shift_left_spec mid : forall l1 x l2,
  exists y, shift_left (l1 ++ x :: mid ++ l2) (S (length l1)) (length mid) = Val (l1 ++ mid ++ y :: l2).
Proof.
  induction mid as [|m mid IH]; intros l1 x l2; [by exists x|]. cbn [length shift_left app].
  replace (l1 ++ x :: m :: mid ++ l2) with ((l1 ++ [x]) ++ m :: mid ++ l2) by by rewrite <- app_assoc.
  rewrite aget_middle by (rewrite length_app; cbn; lia). cbn [mbind cres_bind].
  rewrite <- app_assoc. cbn [app]. rewrite aset_middle by (cbn; lia). cbn [mbind cres_bind].
  destruct (IH (l1 ++ [m]) m l2) as [y Hy]. exists y. rewrite length_app, Nat.add_comm in Hy. cbn [length Nat.add] in Hy.
  rewrite <- !app_assoc in Hy. exact Hy.
Qed.

Lemma index_of_spec l1 v l2 : v ∉ l1 -> index_of (l1 ++ v :: l2) v = Val (length l1).
Proof.
  induction l1 as [|x l1 IH]; intros Hn; cbn [index_of app length]; [by rewrite Z.eqb_refl|].
  apply not_elem_of_cons in Hn as [Hne Hn]. rewrite (proj2 (Z.eqb_neq _ _)) by done. by rewrite IH.
Qed.

(** Copying behind what the destination holds. *)
Lemma copy_append (s s3 d d2 : list Z) at_ n : at_ = length d -> n = length s -> (length s <= length d2)%nat ->
  copy (s ++ s3) 0 (d ++ d2) at_ n = Val (d ++ s ++ drop (length s) d2).
Proof.
  intros -> -> Hl. pose proof (copy_spec (length s) [] s s3 d (take (length s) d2) (drop (length s) d2) eq_refl) as E.
  rewrite length_take, Nat.min_l, take_drop in E by lia. cbn [app length] in E. by apply E.
Qed.

(** ** Removing an entry from a node *)

Section Delete.
Context `{SL : SlabsLaws} (order : nat) (Ho : (3 <= order)%nat).

(** The pointer to the next leaf. *)
Definition same_next (nd nd' : node) : Prop := pointers nd' !! (order - 1)%nat = pointers nd !! (order - 1)%nat.

Lemma remove_leaf h p par ea k r eb nd : nodes h !! p = Some nd -> leaf_node order par (ea ++ (k, r) :: eb) nd ->
  k ∉ map fst ea -> r ∉ map snd ea -> (length (ea ++ (k, r) :: eb) <= order - 1)%nat ->
  exists nd', remove_entry_from_node order p k r h = Val (p, set_nodes h (<[p := nd']> (nodes h))) /\
    leaf_node order par (ea ++ eb) nd' /\ same_next nd nd'.
Proof using.
  clear Ho SL. intros E HL Hk Hr Hlen. destruct (ln_keys _ _ _ _ HL) as [jk Ek]. destruct (ln_pointers _ _ _ _ HL) as [jp Ep].
  pose proof (ln_num _ _ _ _ HL) as Hnum. pose proof (ln_lk _ _ _ _ HL) as Hlk. pose proof (ln_lp _ _ _ _ HL) as Hlp.
  rewrite map_app, <- app_assoc in Ek, Ep. cbn [map fst snd app] in Ek, Ep.
  destruct (shift_left_spec (map fst eb) (map fst ea) k jk) as [y Hy].
  destruct (shift_left_spec (map snd eb) (map snd ea) r jp) as [z Hz].
  rewrite length_map in Hy, Hz. rewrite length_app in Hnum, Hlen. cbn [length] in Hnum, Hlen. rewrite !length_map in Hy, Hz.
  rewrite <- Ek in Hy. rewrite <- Ep in Hz.
  set (ps := map snd ea ++ map snd eb ++ z :: jp) in *.
  assert (Hps : length ps = order).
  { rewrite <- Hlp, Ep. unfold ps. rewrite !length_app. cbn. rewrite !length_app. lia. }
  destruct (fill_length (order - 1 - (length ea + length eb)) ps (length ea + length eb) 0) as (ps' & Hf & HLf & HTf & HIf); [lia|].
  eexists; split; [|split].
  - unfold remove_entry_from_node. rewrite (bind_load p nd) by done.
    rewrite (bind_lift _ _ _ (length ea)) by (rewrite Ek, index_of_spec by done; by rewrite length_map).
    rewrite Hnum. replace (length ea + S (length eb) - S (length ea))%nat with (length eb) by lia.
    rewrite (bind_lift _ _ _ _ Hy). rewrite (ln_leaf _ _ _ _ HL). cbv zeta.
    rewrite (bind_lift _ _ _ (length ea)) by (rewrite Ep, index_of_spec by done; by rewrite length_map).
    replace (length ea + S (length eb) - S (length ea))%nat with (length eb) by lia.
    rewrite (bind_lift _ _ _ _ Hz). fold ps.
    rewrite (bind_lift _ _ _ (length ea + length eb)%nat) by by rewrite <- plus_n_Sm.
    rewrite (bind_lift _ _ _ _ Hf). rewrite (bind_store p nd) by done. reflexivity.
  - destruct HL. split; cbn [pointers keys parent is_leaf num_keys]; try done.
    + by rewrite length_app.
    + exists (y :: jk). by rewrite map_app, <- app_assoc.
    + apply take_prefix. rewrite length_map, length_app, HTf, map_app. unfold ps. rewrite app_assoc. apply take_app_length'.
      by rewrite length_app, !length_map.
    + rewrite <- Hlk, Ek, !length_app. cbn. rewrite !length_app. lia.
    + lia.
  - unfold same_next. cbn [pointers]. rewrite HIf by lia. rewrite Ep. unfold ps.
    rewrite (app_assoc (map snd ea)), (app_comm_cons (map snd eb)), (app_assoc (map snd ea)).
    change (z :: jp) with ([z] ++ jp). rewrite app_assoc.
    rewrite !lookup_app_r; rewrite !length_app; cbn [length]; rewrite ?length_map; [f_equal; lia|lia|lia].
Qed.

Lemma remove_inner h p par ka k kb pa q pb nd : nodes h !! p = Some nd -> inner_node order par (ka ++ k :: kb) (pa ++ q :: pb) nd ->
  k ∉ ka -> q ∉ pa -> (length pa + length pb = S (length ka + length kb))%nat -> (length (ka ++ k :: kb) <= order - 1)%nat ->
  exists nd', remove_entry_from_node order p k q h = Val (p, set_nodes h (<[p := nd']> (nodes h))) /\
    inner_node order par (ka ++ kb) (pa ++ pb) nd'.
Proof using.
  clear Ho SL. intros E HI Hk Hq Hpl Hlen. destruct (in_keys _ _ _ _ _ HI) as [jk Ek]. destruct (in_pointers _ _ _ _ _ HI) as [jp Ep].
  pose proof (in_num _ _ _ _ _ HI) as Hnum. pose proof (in_lk _ _ _ _ _ HI) as Hlk. pose proof (in_lp _ _ _ _ _ HI) as Hlp.
  rewrite <- app_assoc in Ek, Ep. cbn [app] in Ek, Ep.
  destruct (shift_left_spec kb ka k jk) as [y Hy]. destruct (shift_left_spec pb pa q jp) as [z Hz].
  rewrite length_app in Hnum, Hlen. cbn [length] in Hnum, Hlen. rewrite <- Ek in Hy. rewrite <- Ep in Hz.
  set (ps := pa ++ pb ++ z :: jp) in *.
  assert (Hps : length ps = order).
  { rewrite <- Hlp, Ep. unfold ps. rewrite !length_app. cbn. rewrite !length_app. lia. }
  destruct (fill_length (order - (length ka + length kb + 1)) ps (length ka + length kb + 1) 0) as (ps' & Hf & HLf & HTf & HIf); [lia|].
  eexists; split.
  - unfold remove_entry_from_node. rewrite (bind_load p nd) by done.
    rewrite (bind_lift _ _ _ (length ka)) by (rewrite Ek; by apply index_of_spec).
    rewrite Hnum. replace (length ka + S (length kb) - S (length ka))%nat with (length kb) by lia.
    rewrite (bind_lift _ _ _ _ Hy). rewrite (in_leaf _ _ _ _ _ HI). cbv zeta.
    rewrite (bind_lift _ _ _ (length pa)) by (rewrite Ep; by apply index_of_spec).
    replace (S (length ka + S (length kb)) - S (length pa))%nat with (length pb) by lia.
    rewrite (bind_lift _ _ _ _ Hz). fold ps.
    rewrite (bind_lift _ _ _ (length ka + length kb)%nat) by by rewrite <- plus_n_Sm.
    rewrite (bind_lift _ _ _ _ Hf). rewrite (bind_store p nd) by done. reflexivity.
  - destruct HI. split; cbn [pointers keys parent is_leaf num_keys]; try done.
    + by rewrite length_app.
    + exists (y :: jk). by rewrite <- app_assoc.
    + apply take_prefix. rewrite length_app. replace (length pa + length pb)%nat with (length ka + length kb + 1)%nat by lia.
      rewrite HTf. unfold ps. rewrite app_assoc. apply take_app_length'. rewrite length_app. lia.
    + rewrite <- Hlk, Ek, !length_app. cbn. rewrite !length_app. lia.
    + lia.
Qed.

(** ** Redistribution, node by node *)

Lemma array_room {A} (l j : list A) n : length (l ++ j) = n -> (length l < n)%nat -> exists x j', j = x :: j'.
Proof using. clear Ho SL. destruct j as [|x j]; [rewrite app_nil_r; lia|by exists x, j]. Qed.

Lemma run_set_parent_key p i k k' par ka kb ps nd h : nodes h !! p = Some nd ->
  inner_node order par (ka ++ k :: kb) ps nd -> i = length ka ->
  exists nd', inner_node order par (ka ++ k' :: kb) ps nd' /\
    set_parent_key p i k' h = Val (tt, set_nodes h (<[p := nd']> (nodes h))).
Proof using.
  clear Ho SL. intros E HI ->. destruct (in_keys _ _ _ _ _ HI) as [j Ej]. rewrite <- app_assoc in Ej. cbn [app] in Ej.
  eexists; split.
  2: { unfold set_parent_key. rewrite (bind_load p nd) by done. rewrite (bind_lift _ _ _ (ka ++ k' :: kb ++ j)).
       - unfold store. rewrite E. reflexivity.
       - rewrite Ej. by apply aset_middle. }
  pose proof (in_num _ _ _ _ _ HI) as Hnum. pose proof (in_lk _ _ _ _ _ HI) as Hlk.
  destruct HI. split; cbn [pointers keys parent is_leaf num_keys]; try done.
  - rewrite Hnum, !length_app. done.
  - exists j. by rewrite <- app_assoc.
  - rewrite <- Hlk, Ej, !length_app. cbn. by rewrite !length_app.
Qed.

(** The arrays of a leaf with an entry more in front. *)
Lemma leaf_front par e es nd : leaf_node order par es nd -> (length es < order - 1)%nat ->
  exists ks0 ps0 ks ps,
    shift_right (keys nd) 0 (num_keys nd) = Val ks0 /\ shift_right (pointers nd) 0 (num_keys nd) = Val ps0 /\
    aset ks0 0 (fst e) = Val ks /\ aset ps0 0 (snd e) = Val ps /\
    leaf_node order par (e :: es) (with_arrays nd ks ps (S (num_keys nd))) /\
    same_next nd (with_arrays nd ks ps (S (num_keys nd))).
Proof using.
  clear Ho SL. intros HL Hroom. destruct (ln_keys _ _ _ _ HL) as [jk Ek]. destruct (ln_pointers _ _ _ _ HL) as [jp Ep].
  pose proof (ln_lk _ _ _ _ HL) as Hlk. pose proof (ln_lp _ _ _ _ HL) as Hlp. pose proof (ln_num _ _ _ _ HL) as Hnum.
  destruct (array_room (map fst es) jk (order - 1)) as (x & jk' & ->); [by rewrite <- Ek|by rewrite length_map|].
  destruct (array_room (map snd es) jp order) as (z & jp' & ->); [by rewrite <- Ep|rewrite length_map; lia|].
  destruct (cres_bind_inv _ _ _ (shift_insert [] (map fst es) x jk' (fst e))) as (ks0 & Hk1 & Hk2).
  destruct (cres_bind_inv _ _ _ (shift_insert [] (map snd es) z jp' (snd e))) as (ps0 & Hp1 & Hp2).
  cbn [app length] in Hk1, Hk2, Hp1, Hp2. rewrite length_map, <- Hnum in Hk1, Hp1. rewrite <- Ek in Hk1. rewrite <- Ep in Hp1.
  exists ks0, ps0, (fst e :: map fst es ++ jk'), (snd e :: map snd es ++ jp'). split_and!; try done.
  - destruct HL. split; cbn [with_arrays pointers keys parent is_leaf num_keys map]; try done; [cbn; lia|by eexists|by eexists| |].
    + rewrite <- Hlk, Ek. cbn. rewrite !length_app. cbn. lia.
    + rewrite <- Hlp, Ep. cbn. rewrite !length_app. cbn. lia.
  - unfold same_next. cbn [with_arrays pointers]. rewrite Ep.
    change (snd e :: map snd es ++ jp') with ((snd e :: map snd es) ++ jp').
    replace (map snd es ++ z :: jp') with ((map snd es ++ [z]) ++ jp') by by rewrite <- app_assoc.
    rewrite !lookup_app_r; rewrite ?length_app; cbn [length]; rewrite ?length_map; [f_equal; lia|lia|lia].
Qed.

Lemma borrow_left_leaf h root p pl pr ni par ka k kb ps np e1 e nl e2 nr :
  nodes h !! p = Some np -> inner_node order par (ka ++ k :: kb) ps np ->
  nodes h !! pl = Some nl -> leaf_node order p (e1 ++ [e]) nl -> nodes h !! pr = Some nr -> leaf_node order p e2 nr ->
  p <> pl -> p <> pr -> pl <> pr -> (length e2 < order - 1)%nat -> ni <> ULONG_MAX ->
  exists np' nl' nr', redistribute_nodes root pr pl ni (length ka) k h =
      Val (root, set_nodes h (<[p := np']> (<[pl := nl']> (<[pr := nr']> (nodes h))))) /\
    inner_node order par (ka ++ fst e :: kb) ps np' /\ leaf_node order p e1 nl' /\ leaf_node order p (e :: e2) nr' /\
    same_next nl nl' /\ same_next nr nr'.
Proof using.
  clear Ho SL. intros Ep HP El HL Er HR Hppl Hppr Hplr Hroom Hni.
  destruct (ln_keys _ _ _ _ HL) as [jkl Ekl]. destruct (ln_pointers _ _ _ _ HL) as [jpl Epl].
  pose proof (ln_lk _ _ _ _ HL) as Hlkl. pose proof (ln_lp _ _ _ _ HL) as Hlpl. pose proof (ln_num _ _ _ _ HL) as Hnl. rewrite length_app in Hnl. cbn [length] in Hnl.
  rewrite map_app, <- app_assoc in Ekl, Epl. cbn [map app] in Ekl, Epl.
  destruct (leaf_front p e e2 nr HR Hroom) as (ks0 & ps0 & ks & ps' & Hk0 & Hp0 & Hk & Hp & HR' & HN').
  set (nr' := with_arrays nr ks ps' (S (num_keys nr))) in *.
  set (nl' := with_arrays nl (keys nl) (map snd e1 ++ 0 :: jpl) (length e1)).
  set (h1 := set_nodes h (<[pl := nl']> (<[pr := nr']> (nodes h)))).
  destruct (run_set_parent_key p (length ka) k (fst e) par ka kb ps np h1) as (np' & HP' & Hrun); [cbn; by rewrite !lookup_insert_ne|done|done|].
  exists np', nl', nr'. split; [|split; [exact HP'|split; [|split; [exact HR'|split; [|exact HN']]]]].
  - unfold redistribute_nodes. rewrite (bind_load pr nr), (bind_load pl nl) by done. cbv zeta.
    rewrite Hnl, (ln_leaf _ _ _ _ HR). rewrite (bind_lift _ _ _ (length e1)) by by rewrite Nat.add_1_r.
    rewrite (proj2 (Z.eqb_neq _ _)) by done. cbn [negb].
    rewrite (bindM _ _ _ tt (set_nodes h1 (<[p := np']> (nodes h1)))); [done|].
    rewrite (bind_lift _ _ _ (pointers nr)) by done. rewrite (bind_lift _ _ _ _ Hk0), (bind_lift _ _ _ _ Hp0).
    rewrite (bind_lift _ _ _ (snd e)) by (rewrite Epl; apply aget_middle; by rewrite length_map).
    rewrite (bind_lift _ _ _ _ Hp).
    rewrite (bind_lift _ _ _ (map snd e1 ++ 0 :: jpl)) by (rewrite Epl; apply aset_middle; by rewrite length_map).
    rewrite (bind_lift _ _ _ (fst e)) by (rewrite Ekl; apply aget_middle; by rewrite length_map).
    rewrite (bind_lift _ _ _ _ Hk). rewrite (bind_store pr nr) by done.
    rewrite (bind_store pl nl) by (cbn; by rewrite lookup_insert_ne). rewrite (ln_parent _ _ _ _ HR). exact Hrun.
  - unfold nl'. destruct HL. split; cbn [with_arrays pointers keys parent is_leaf num_keys]; try done.
    + exists (fst e :: jkl). exact Ekl.
    + by eexists.
    + rewrite <- Hlpl, Epl, !length_app. done.
  - unfold same_next, nl'. cbn [with_arrays pointers]. rewrite Epl.
    apply (f_equal length) in Ekl. rewrite length_app, length_map in Ekl. cbn [length] in Ekl.
    change (snd e :: jpl) with ([snd e] ++ jpl). change (0 :: jpl) with ([0] ++ jpl). rewrite !app_assoc.
    rewrite !lookup_app_r; rewrite !length_app; cbn [length]; rewrite ?length_map; [done|lia|lia].
Qed.

Lemma borrow_right_leaf h root p pl pr par ka k kb ps np e1 nl e e' e2 nr :
  nodes h !! p = Some np -> inner_node order par (ka ++ k :: kb) ps np -> ka = [] ->
  nodes h !! pl = Some nl -> leaf_node order p e1 nl -> nodes h !! pr = Some nr -> leaf_node order p (e :: e' :: e2) nr ->
  p <> pl -> p <> pr -> pl <> pr -> (length e1 < order - 1)%nat ->
  exists np' nl' nr', redistribute_nodes root pl pr ULONG_MAX 0 k h =
      Val (root, set_nodes h (<[p := np']> (<[pr := nr']> (<[pl := nl']> (nodes h))))) /\
    inner_node order par (ka ++ fst e' :: kb) ps np' /\ leaf_node order p (e1 ++ [e]) nl' /\ leaf_node order p (e' :: e2) nr' /\
    same_next nl nl' /\ same_next nr nr'.
Proof using.
  clear Ho SL. intros Ep HP Hka El HL Er HR Hppl Hppr Hplr Hroom.
  destruct (ln_keys _ _ _ _ HL) as [jkl Ekl]. destruct (ln_pointers _ _ _ _ HL) as [jpl Epl].
  destruct (ln_keys _ _ _ _ HR) as [jkr Ekr]. destruct (ln_pointers _ _ _ _ HR) as [jpr Epr].
  pose proof (ln_lk _ _ _ _ HL) as Hlkl. pose proof (ln_lp _ _ _ _ HL) as Hlpl. pose proof (ln_lk _ _ _ _ HR) as Hlkr.
  pose proof (ln_lp _ _ _ _ HR) as Hlpr.
  destruct (array_room (map fst e1) jkl (order - 1)) as (x & jkl' & ->); [by rewrite <- Ekl|by rewrite length_map|].
  destruct (array_room (map snd e1) jpl order) as (z & jpl' & ->); [by rewrite <- Epl|rewrite length_map; lia|].
  cbn [map app] in Ekr, Epr.
  destruct (shift_left_spec (map fst (e' :: e2)) [] (fst e) jkr) as [y1 Hy1].
  destruct (shift_left_spec (map snd (e' :: e2)) [] (snd e) jpr) as [y2 Hy2].
  cbn [map app length] in Hy1, Hy2. rewrite length_map in Hy1, Hy2. rewrite <- Ekr in Hy1. rewrite <- Epr in Hy2.
  set (nl' := with_arrays nl (map fst e1 ++ fst e :: jkl') (map snd e1 ++ snd e :: jpl') (S (length e1))).
  set (nr' := with_arrays nr (fst e' :: map fst e2 ++ y1 :: jkr) (snd e' :: map snd e2 ++ y2 :: jpr) (S (length e2))).
  set (h1 := set_nodes h (<[pr := nr']> (<[pl := nl']> (nodes h)))).
  destruct (run_set_parent_key p 0 k (fst e') par ka kb ps np h1) as (np' & HP' & Hrun);
    [cbn; by rewrite !lookup_insert_ne|done|by subst ka|].
  exists np', nl', nr'. split; [|split; [exact HP'|split; [|split; [|split]]]].
  - unfold redistribute_nodes. rewrite (bind_load pl nl), (bind_load pr nr) by done. cbv zeta.
    rewrite (ln_num _ _ _ _ HR), (ln_num _ _ _ _ HL), (ln_leaf _ _ _ _ HL). cbn [length].
    rewrite (bind_lift _ _ _ (S (length e2))) by done. cbn [Z.eqb negb ULONG_MAX Pos.eqb].
    rewrite (bindM _ _ _ tt (set_nodes h1 (<[p := np']> (nodes h1)))); [done|].
    rewrite (bind_lift _ _ _ _ Hy1), (bind_lift _ _ _ _ Hy2).
    rewrite (bind_lift _ _ _ (fst e)) by by rewrite Ekr.
    rewrite (bind_lift _ _ _ (map fst e1 ++ fst e :: jkl')) by (rewrite Ekl; apply aset_middle; by rewrite length_map).
    rewrite (bind_lift _ _ _ (snd e)) by by rewrite Epr.
    rewrite (bind_lift _ _ _ (map snd e1 ++ snd e :: jpl')) by (rewrite Epl; apply aset_middle; by rewrite length_map).
    rewrite (bind_lift _ _ _ (fst e')) by by rewrite Ekr. rewrite (bind_store pl nl) by done.
    rewrite (bind_store pr nr) by (cbn; by rewrite lookup_insert_ne). rewrite (ln_parent _ _ _ _ HL). exact Hrun.
  - unfold nl'. destruct HL. split; cbn [with_arrays pointers keys parent is_leaf num_keys]; try done.
    + rewrite length_app. cbn. lia.
    + exists jkl'. by rewrite map_app, <- app_assoc.
    + exists jpl'. by rewrite map_app, <- app_assoc.
    + rewrite <- Hlkl, Ekl, !length_app. done.
    + rewrite <- Hlpl, Epl, !length_app. done.
  - unfold nr'. destruct HR. split; cbn [with_arrays pointers keys parent is_leaf num_keys]; try done.
    + by exists (y1 :: jkr).
    + by exists (y2 :: jpr).
    + rewrite <- Hlkr, Ekr. cbn. rewrite !length_app. cbn. lia.
    + rewrite <- Hlpr, Epr. cbn. rewrite !length_app. cbn. lia.
  - unfold same_next, nl'. cbn [with_arrays pointers]. rewrite Epl.
    change (snd e :: jpl') with ([snd e] ++ jpl'). change (z :: jpl') with ([z] ++ jpl'). rewrite !app_assoc.
    rewrite !lookup_app_r; rewrite !length_app; cbn [length]; rewrite ?length_map; [done|lia|lia].
  - unfold same_next, nr'. cbn [with_arrays pointers]. rewrite Epr.
    apply (f_equal length) in Ekr. cbn [length] in Ekr. rewrite length_app, length_map in Ekr.
    replace (snd e' :: map snd e2 ++ y2 :: jpr) with ((snd e' :: map snd e2 ++ [y2]) ++ jpr) by (cbn; by rewrite <- app_assoc).
    change (snd e :: snd e' :: map snd e2 ++ jpr) with ((snd e :: snd e' :: map snd e2) ++ jpr).
    rewrite !lookup_app_r; cbn [length]; rewrite ?length_app; cbn [length]; rewrite ?length_map; [f_equal; lia|lia|lia].
Qed.

Lemma snoc_split {A} (l : list A) n : length l = S n -> exists l' x, l = l' ++ [x] /\ length l' = n.
Proof using.
  clear Ho SL. intros Hl. destruct l as [|x l _] using rev_ind; [done|]. exists l, x. split; [done|].
  rewrite length_app in Hl. cbn in Hl. lia.
Qed.

(** The arrays of an inner node with a key and a child more in front. *)
Lemma inner_front par k c ks ps nd : inner_node order par ks ps nd -> length ps = S (length ks) -> (length ks < order - 1)%nat ->
  exists ps0 ps1 ks1 ps2 ks2,
    (last ← aget (pointers nd) (num_keys nd); aset (pointers nd) (S (num_keys nd)) last) = Val ps0 /\
    shift_right (keys nd) 0 (num_keys nd) = Val ks1 /\ shift_right ps0 0 (num_keys nd) = Val ps1 /\
    aset ks1 0 k = Val ks2 /\ aset ps1 0 c = Val ps2 /\
    inner_node order par (k :: ks) (c :: ps) (with_arrays nd ks2 ps2 (S (num_keys nd))).
Proof using.
  clear Ho SL. intros HI Hps Hroom. destruct (in_keys _ _ _ _ _ HI) as [jk Ek]. destruct (in_pointers _ _ _ _ _ HI) as [jp Ep].
  pose proof (in_lk _ _ _ _ _ HI) as Hlk. pose proof (in_lp _ _ _ _ _ HI) as Hlp. pose proof (in_num _ _ _ _ _ HI) as Hnum.
  destruct (array_room ks jk (order - 1)) as (x & jk' & ->); [by rewrite <- Ek|done|].
  destruct (array_room ps jp order) as (z & jp' & ->); [by rewrite <- Ep|lia|].
  destruct (snoc_split ps _ Hps) as (ps' & w & -> & Hps'). rewrite <- app_assoc in Ep. cbn [app] in Ep.
  destruct (cres_bind_inv _ _ _ (shift_insert [] ks x jk' k)) as (ks1 & Hk1 & Hk2).
  destruct (cres_bind_inv _ _ _ (shift_insert [] ps' w (w :: jp') c)) as (ps1 & Hp1 & Hp2).
  cbn [app length] in Hk1, Hk2, Hp1, Hp2. rewrite <- Ek in Hk1. rewrite <- Hnum in *. rewrite Hps' in Hp1.
  exists (ps' ++ w :: w :: jp'), ps1, ks1, (c :: ps' ++ w :: jp'), (k :: ks ++ jk'). split_and!; try done.
  - rewrite Ep, aget_middle by done. cbn [mbind cres_bind].
    replace (ps' ++ w :: z :: jp') with ((ps' ++ [w]) ++ z :: jp') by by rewrite <- app_assoc.
    rewrite aset_middle by (rewrite length_app; cbn; lia). by rewrite <- app_assoc.
  - destruct HI. split; cbn [with_arrays pointers keys parent is_leaf num_keys]; try done; [cbn; lia|by eexists| | |].
    + exists jp'. cbn. by rewrite <- app_assoc.
    + rewrite <- Hlk, Ek. cbn. rewrite !length_app. cbn. lia.
    + rewrite <- Hlp, Ep. cbn. rewrite !length_app. cbn. lia.
Qed.

Lemma borrow_left_inner h root p pl pr ni par ka k kb ps np k1 x p1 u nl k2 p2 nr nu :
  nodes h !! p = Some np -> inner_node order par (ka ++ k :: kb) ps np ->
  nodes h !! pl = Some nl -> inner_node order p (k1 ++ [x]) (p1 ++ [u]) nl -> nodes h !! pr = Some nr -> inner_node order p k2 p2 nr ->
  nodes h !! u = Some nu -> length p1 = S (length k1) -> length p2 = S (length k2) ->
  p <> pl -> p <> pr -> pl <> pr -> u <> p -> u <> pl -> u <> pr -> (length k2 < order - 1)%nat -> ni <> ULONG_MAX ->
  exists np' nl' nr', redistribute_nodes root pr pl ni (length ka) k h =
      Val (root, set_nodes h (<[p := np']> (<[u := with_parent nu pr]> (<[pl := nl']> (<[pr := nr']> (nodes h)))))) /\
    inner_node order par (ka ++ x :: kb) ps np' /\ inner_node order p k1 p1 nl' /\ inner_node order p (k :: k2) (u :: p2) nr'.
Proof using.
  clear Ho SL. intros Ep HP El HL Er HR Eu Hp1 Hp2 Hppl Hppr Hplr Hup Hul Hur Hroom Hni.
  destruct (in_keys _ _ _ _ _ HL) as [jkl Ekl]. destruct (in_pointers _ _ _ _ _ HL) as [jpl Epl].
  pose proof (in_lk _ _ _ _ _ HL) as Hlkl. pose proof (in_lp _ _ _ _ _ HL) as Hlpl.
  pose proof (in_num _ _ _ _ _ HL) as Hnl. rewrite length_app in Hnl. cbn [length] in Hnl.
  rewrite <- app_assoc in Ekl, Epl. cbn [app] in Ekl, Epl.
  destruct (inner_front p k u k2 p2 nr HR Hp2 Hroom) as (ps0 & ps1 & ks1 & ps2 & ks2 & Hs0 & Hs1 & Hs2 & Hs3 & Hs4 & HR').
  set (nr' := with_arrays nr ks2 ps2 (S (num_keys nr))) in *.
  set (nl' := with_arrays nl (keys nl) (p1 ++ 0 :: jpl) (length k1)).
  set (h1 := set_nodes h (<[u := with_parent nu pr]> (<[pl := nl']> (<[pr := nr']> (nodes h))))).
  destruct (run_set_parent_key p (length ka) k x par ka kb ps np h1) as (np' & HP' & Hrun); [cbn; by rewrite !lookup_insert_ne|done|done|].
  exists np', nl', nr'. split; [|split; [exact HP'|split; [|exact HR']]].
  - unfold redistribute_nodes. rewrite (bind_load pr nr), (bind_load pl nl) by done. cbv zeta.
    rewrite Hnl, (in_leaf _ _ _ _ _ HR). rewrite (bind_lift _ _ _ (length k1)) by by rewrite Nat.add_1_r.
    rewrite (proj2 (Z.eqb_neq _ _)) by done. cbn [negb].
    rewrite (bindM _ _ _ tt (set_nodes h1 (<[p := np']> (nodes h1)))); [done|].
    rewrite (bind_lift _ _ _ _ Hs0), (bind_lift _ _ _ _ Hs1), (bind_lift _ _ _ _ Hs2).
    rewrite (bind_lift _ _ _ u) by (rewrite Epl; apply aget_middle; lia).
    rewrite (bind_lift _ _ _ _ Hs4).
    rewrite (bind_lift _ _ _ (p1 ++ 0 :: jpl)) by (rewrite Epl; apply aset_middle; lia).
    rewrite (bind_lift _ _ _ _ Hs3).
    rewrite (bind_lift _ _ _ x) by (rewrite Ekl; by apply aget_middle).
    rewrite (bind_store pr nr) by done. rewrite (bind_store pl nl) by (cbn; by rewrite lookup_insert_ne).
    rewrite (bind_set_parent u pr nu) by (cbn; by rewrite !lookup_insert_ne). rewrite (in_parent _ _ _ _ _ HR). exact Hrun.
  - unfold nl'. destruct HL. split; cbn [with_arrays pointers keys parent is_leaf num_keys]; try done.
    + by exists (x :: jkl).
    + by eexists.
    + rewrite <- Hlpl, Epl, !length_app. done.
Qed.

Lemma borrow_right_inner h root p pl pr par ka k kb ps np k1 p1 nl x k2 u p2 nr nu :
  nodes h !! p = Some np -> inner_node order par (ka ++ k :: kb) ps np -> ka = [] ->
  nodes h !! pl = Some nl -> inner_node order p k1 p1 nl -> nodes h !! pr = Some nr -> inner_node order p (x :: k2) (u :: p2) nr ->
  nodes h !! u = Some nu -> length p1 = S (length k1) -> length p2 = S (length k2) ->
  p <> pl -> p <> pr -> pl <> pr -> u <> p -> u <> pl -> u <> pr -> (length k1 < order - 1)%nat ->
  exists np' nl' nr', redistribute_nodes root pl pr ULONG_MAX 0 k h =
      Val (root, set_nodes h (<[p := np']> (<[u := with_parent nu pl]> (<[pr := nr']> (<[pl := nl']> (nodes h)))))) /\
    inner_node order par (ka ++ x :: kb) ps np' /\ inner_node order p (k1 ++ [k]) (p1 ++ [u]) nl' /\ inner_node order p k2 p2 nr'.
Proof using.
  clear Ho SL. intros Ep HP Hka El HL Er HR Eu Hp1 Hp2 Hppl Hppr Hplr Hup Hul Hur Hroom.
  destruct (in_keys _ _ _ _ _ HL) as [jkl Ekl]. destruct (in_pointers _ _ _ _ _ HL) as [jpl Epl].
  destruct (in_keys _ _ _ _ _ HR) as [jkr Ekr]. destruct (in_pointers _ _ _ _ _ HR) as [jpr Epr].
  pose proof (in_lk _ _ _ _ _ HL) as Hlkl. pose proof (in_lp _ _ _ _ _ HL) as Hlpl.
  pose proof (in_lk _ _ _ _ _ HR) as Hlkr. pose proof (in_lp _ _ _ _ _ HR) as Hlpr.
  destruct (array_room k1 jkl (order - 1)) as (y & jkl' & ->); [by rewrite <- Ekl|done|].
  destruct (array_room p1 jpl order) as (z & jpl' & ->); [by rewrite <- Epl|lia|].
  cbn [app] in Ekr, Epr. destruct (snoc_split p2 _ Hp2) as (p2' & w & -> & Hp2'). rewrite <- app_assoc in Epr. cbn [app] in Epr.
  destruct (shift_left_spec k2 [] x jkr) as [y1 Hy1]. destruct (shift_left_spec p2' [] u (w :: jpr)) as [y2 Hy2].
  cbn [app length] in Hy1, Hy2. rewrite <- Ekr in Hy1. rewrite <- Epr, Hp2' in Hy2.
  set (nl' := with_arrays nl (k1 ++ k :: jkl') (p1 ++ u :: jpl') (S (length k1))).
  set (nr' := with_arrays nr (k2 ++ y1 :: jkr) (p2' ++ w :: w :: jpr) (length k2)).
  set (h1 := set_nodes h (<[u := with_parent nu pl]> (<[pr := nr']> (<[pl := nl']> (nodes h))))).
  destruct (run_set_parent_key p 0 k x par ka kb ps np h1) as (np' & HP' & Hrun); [cbn; by rewrite !lookup_insert_ne|done|by subst ka|].
  exists np', nl', nr'. split; [|split; [exact HP'|split]].
  - unfold redistribute_nodes. rewrite (bind_load pl nl), (bind_load pr nr) by done. cbv zeta.
    rewrite (in_num _ _ _ _ _ HR), (in_num _ _ _ _ _ HL), (in_leaf _ _ _ _ _ HL). cbn [length].
    rewrite (bind_lift _ _ _ (length k2)) by done. cbn [Z.eqb negb ULONG_MAX Pos.eqb].
    rewrite (bindM _ _ _ tt (set_nodes h1 (<[p := np']> (nodes h1)))); [done|].
    rewrite (bind_lift _ _ _ _ Hy1), (bind_lift _ _ _ _ Hy2).
    rewrite (bind_lift _ _ _ (k1 ++ k :: jkl')) by (rewrite Ekl; by apply aset_middle).
    rewrite (bind_lift _ _ _ u) by by rewrite Epr.
    rewrite (bind_lift _ _ _ (p1 ++ u :: jpl')) by (rewrite Epl; apply aset_middle; lia).
    rewrite (bind_lift _ _ _ x) by by rewrite Ekr.
    rewrite (bind_lift _ _ _ w).
    2: { replace (p2' ++ y2 :: w :: jpr) with ((p2' ++ [y2]) ++ w :: jpr) by by rewrite <- app_assoc. apply aget_middle.
         rewrite length_app. cbn. lia. }
    rewrite (bind_lift _ _ _ (p2' ++ w :: w :: jpr)) by (by apply aset_middle).
    rewrite (bind_store pl nl) by done. rewrite (bind_store pr nr) by (cbn; by rewrite lookup_insert_ne).
    rewrite (bind_set_parent u pl nu) by (cbn; by rewrite !lookup_insert_ne). rewrite (in_parent _ _ _ _ _ HL). exact Hrun.
  - unfold nl'. destruct HL. split; cbn [with_arrays pointers keys parent is_leaf num_keys]; try done.
    + rewrite length_app. cbn. lia.
    + exists jkl'. by rewrite <- app_assoc.
    + exists jpl'. by rewrite <- app_assoc.
    + rewrite <- Hlkl, Ekl, !length_app. done.
    + rewrite <- Hlpl, Epl, !length_app. done.
  - unfold nr'. destruct HR. split; cbn [with_arrays pointers keys parent is_leaf num_keys]; try done.
    + by eexists.
    + exists (w :: jpr). by rewrite <- app_assoc.
    + rewrite <- Hlkr, Ekr. cbn. rewrite !length_app. cbn. lia.
    + rewrite <- Hlpr, Epr. cbn. rewrite !length_app. cbn. lia.
Qed.

(** ** Coalescence, node by node *)

Lemma coalesce_leaf del h root n nb ni k p pl pr e1 nl e2 nr :
  (if ni =? ULONG_MAX then (nb, n) else (n, nb)) = (pr, pl) ->
  nodes h !! pl = Some nl -> leaf_node order p e1 nl -> nodes h !! pr = Some nr -> leaf_node order p e2 nr ->
  (length e1 + length e2 <= order - 1)%nat ->
  exists nl', coalesce_nodes order del root n nb ni k h =
      (root ← del root p k pr; _ ← free_node pr; mret root) (set_nodes h (<[pl := nl']> (nodes h))) /\
    leaf_node order p (e1 ++ e2) nl' /\ pointers nl' !! (order - 1)%nat = pointers nr !! (order - 1)%nat.
Proof using Ho.
  clear SL. intros Hpair El HL Er HR Hlen.
  destruct (ln_keys _ _ _ _ HL) as [jkl Ekl]. destruct (ln_pointers _ _ _ _ HL) as [jpl Epl].
  destruct (ln_keys _ _ _ _ HR) as [jkr Ekr]. destruct (ln_pointers _ _ _ _ HR) as [jpr Epr].
  pose proof (ln_lk _ _ _ _ HL) as Hlkl. pose proof (ln_lp _ _ _ _ HL) as Hlpl.
  pose proof (ln_lk _ _ _ _ HR) as Hlkr. pose proof (ln_lp _ _ _ _ HR) as Hlpr.
  pose proof Hlkl as Hjk. rewrite Ekl, length_app, length_map in Hjk. pose proof Hlpl as Hjp. rewrite Epl, length_app, length_map in Hjp.
  assert (exists nx, pointers nr !! (order - 1)%nat = Some nx) as [nx Enx] by (apply lookup_lt_is_Some; lia).
  set (ps := map snd e1 ++ map snd e2 ++ drop (length e2) jpl).
  assert (Hps : length ps = order).
  { unfold ps. rewrite !length_app, !length_map, length_drop. lia. }
  eexists; split; [|split].
  - unfold coalesce_nodes. rewrite Hpair. rewrite (bind_load pl nl), (bind_load pr nr) by done. cbv zeta.
    rewrite (ln_leaf _ _ _ _ HR), (ln_num _ _ _ _ HL), (ln_num _ _ _ _ HR), (ln_parent _ _ _ _ HR).
    rewrite (bindM _ _ _ tt (set_nodes h (<[pl := with_arrays nl (map fst e1 ++ map fst e2 ++ drop (length e2) jkl)
        (<[(order - 1)%nat := nx]> ps) (length e1 + length e2)]> (nodes h)))); [reflexivity|].
    rewrite (bind_lift _ _ _ (map fst e1 ++ map fst e2 ++ drop (length e2) jkl)).
    2: { rewrite Ekl, Ekr, copy_append by (rewrite ?length_map; lia). by rewrite length_map. }
    rewrite (bind_lift _ _ _ ps).
    2: { rewrite Epl, Epr, copy_append by (rewrite ?length_map; lia). by rewrite length_map. }
    rewrite (bind_lift _ _ _ _ (aget_spec _ _ _ Enx)), (bind_lift _ _ _ _ (aset_spec ps (order - 1) nx ltac:(lia))).
    unfold store. by rewrite El.
  - destruct HL. split; cbn [with_arrays pointers keys parent is_leaf num_keys]; try done.
    + by rewrite length_app.
    + exists (drop (length e2) jkl). by rewrite map_app, <- app_assoc.
    + apply take_prefix. rewrite length_map, length_app, take_insert_ge by lia. unfold ps. rewrite map_app, app_assoc.
      apply take_app_length'. by rewrite length_app, !length_map.
    + rewrite !length_app, !length_map, length_drop. lia.
    + by rewrite length_insert.
  - cbn [with_arrays pointers]. rewrite Enx. apply list_lookup_insert_eq. lia.
Qed.

Lemma coalesce_inner del h root n nb ni k p pl pr k1 p1 nl k2 p2 nr :
  (if ni =? ULONG_MAX then (nb, n) else (n, nb)) = (pr, pl) -> pl <> pr ->
  nodes h !! pl = Some nl -> inner_node order p k1 p1 nl -> nodes h !! pr = Some nr -> inner_node order p k2 p2 nr ->
  length p1 = S (length k1) -> length p2 = S (length k2) -> (S (length k1 + length k2) <= order - 1)%nat ->
  (forall x, x ∈ p1 ++ p2 -> is_Some (nodes h !! x) /\ x <> pl /\ x <> pr) ->
  exists nl' nr' N', coalesce_nodes order del root n nb ni k h =
      (root ← del root p k pr; _ ← free_node pr; mret root) (set_nodes h N') /\
    N' !! pl = Some nl' /\ inner_node order p (k1 ++ k :: k2) (p1 ++ p2) nl' /\ N' !! pr = Some nr' /\ is_leaf nr' = false /\
    (forall x, x ∈ p1 ++ p2 -> N' !! x = (fun nd => with_parent nd pl) <$> nodes h !! x) /\
    (forall x, x ∉ p1 ++ p2 -> x <> pl -> x <> pr -> N' !! x = nodes h !! x) /\ keeps (nodes h) N'.
Proof using Ho.
  clear SL. intros Hpair Hplr El HL Er HR Hp1 Hp2 Hlen Hch.
  destruct (in_keys _ _ _ _ _ HL) as [jkl Ekl]. destruct (in_pointers _ _ _ _ _ HL) as [jpl Epl].
  destruct (in_keys _ _ _ _ _ HR) as [jkr Ekr]. destruct (in_pointers _ _ _ _ _ HR) as [jpr Epr].
  pose proof (in_lk _ _ _ _ _ HL) as Hlkl. pose proof (in_lp _ _ _ _ _ HL) as Hlpl.
  pose proof Hlkl as Hjk. rewrite Ekl, length_app in Hjk. pose proof Hlpl as Hjp. rewrite Epl, length_app in Hjp.
  destruct jkl as [|y jkl]; [cbn in Hjk; lia|]. cbn [length] in Hjk.
  destruct (snoc_split p2 _ Hp2) as (p2' & w & -> & Hp2'). rewrite <- app_assoc in Epr. cbn [app] in Epr.
  assert (exists z d, drop (length k2) jpl = z :: d) as (z & d & Hd).
  { destruct (drop (length k2) jpl) as [|z d] eqn:Ed; [|by exists z, d]. apply (f_equal length) in Ed. rewrite length_drop in Ed. cbn in Ed. lia. }
  set (ks := k1 ++ k :: k2 ++ drop (length k2) jkl). set (ps := p1 ++ p2' ++ w :: d).
  set (nl' := with_arrays nl ks ps (S (length k1) + length k2)). set (nr' := {| pointers := pointers nr; keys := keys nr; parent := p; is_leaf := false; num_keys := 0 |}).
  set (h1 := set_nodes h (<[pr := nr']> (<[pl := nl']> (nodes h)))).
  destruct (adopt_spec pl (p1 ++ p2' ++ [w]) [] d h1) as (N' & Had & H1 & H2 & HK).
  { intros x Hx. destruct (Hch x Hx) as (Hx1 & Hx2 & Hx3). cbn. by rewrite !lookup_insert_ne. }
  cbn [app length] in Had. rewrite <- !app_assoc in Had. cbn [app] in Had. fold ps in Had.
  assert (Hcnt : length (p1 ++ p2' ++ [w]) = S (S (length k1) + length k2)) by (rewrite !length_app; cbn; lia).
  rewrite Hcnt in Had.
  assert (Hnl : pl ∉ p1 ++ p2' ++ [w]) by (intros Hin; by destruct (Hch pl Hin) as (_ & ? & _)).
  assert (Hnr : pr ∉ p1 ++ p2' ++ [w]) by (intros Hin; by destruct (Hch pr Hin) as (_ & _ & ?)).
  exists nl', nr', N'. split; [|split; [|split; [|split; [|split; [|split; [|split]]]]]].
  - unfold coalesce_nodes. rewrite Hpair. rewrite (bind_load pl nl), (bind_load pr nr) by done. cbv zeta.
    rewrite (in_leaf _ _ _ _ _ HR), (in_num _ _ _ _ _ HL), (in_num _ _ _ _ _ HR), (in_parent _ _ _ _ _ HR).
    rewrite (bindM _ _ _ tt (set_nodes h N')); [reflexivity|].
    rewrite (bind_lift _ _ _ (k1 ++ k :: jkl)) by (rewrite Ekl; by apply aset_middle).
    replace (k1 ++ k :: jkl) with ((k1 ++ [k]) ++ jkl) by by rewrite <- app_assoc.
    rewrite (bind_lift _ _ _ ks).
    2: { rewrite Ekr, copy_append by (rewrite ?length_app; cbn; lia). unfold ks. by rewrite <- app_assoc. }
    rewrite (bind_lift _ _ _ (p1 ++ p2' ++ z :: d)).
    2: { rewrite Epl, Epr, copy_append by lia. by rewrite Hp2', Hd. }
    rewrite (bind_lift _ _ _ w) by (rewrite Epr; apply aget_middle; lia).
    rewrite (bind_lift _ _ _ ps).
    2: { unfold ps. rewrite !app_assoc. apply aset_middle. rewrite length_app. lia. }
    rewrite (bind_store pl nl) by done. rewrite (bind_store pr nr) by (cbn; by rewrite lookup_insert_ne).
    exact Had.
  - rewrite H2 by done. cbn. by rewrite lookup_insert_ne, lookup_insert_eq.
  - unfold nl'. destruct HL. split; cbn [with_arrays pointers keys parent is_leaf num_keys]; try done.
    + rewrite length_app. cbn. lia.
    + exists (drop (length k2) jkl). unfold ks. by rewrite <- app_assoc.
    + exists d. unfold ps. by rewrite <- !app_assoc.
    + unfold ks. rewrite length_app. cbn. rewrite length_app, length_drop. lia.
    + unfold ps. apply (f_equal length) in Hd. rewrite length_drop in Hd. cbn in Hd. rewrite !length_app. cbn. lia.
  - rewrite H2 by done. cbn. by rewrite lookup_insert_eq.
  - done.
  - intros x Hx. rewrite H1 by done. destruct (Hch x Hx) as (Hx1 & Hx2 & Hx3). cbn. by rewrite !lookup_insert_ne.
  - intros x Hx Hxl Hxr. rewrite H2 by done. cbn. by rewrite !lookup_insert_ne.
  - eapply keeps_trans; [|exact HK]. cbn. eapply keeps_trans; [apply (keeps_inner _ pl nl nl'); [done|apply HL]|].
    apply (keeps_inner _ pr nr); [by rewrite lookup_insert_ne|apply HR].
Qed.
End Delete.
