(* ===== verification/BTreeDeleteMap.v ===== *)
(** * Deletion from the B+ tree: the store, the tree, the map *)
From S2P Require Export BTreeDeleteProof BTreeShrink.

(** Each part of a conjunction, the easy ones solved. *)
Ltac conjs := match goal with |- _ /\ _ => split; [try done; try lia|conjs] | _ => try done end.

(** Membership in a list taken apart. *)
Ltac elems H := repeat (rewrite elem_of_cons in H || rewrite elem_of_app in H).

Section DeleteMap.
Context `{SL : SlabsLaws} (order : nat) (Ho : (3 <= order)%nat).
Implicit Types (N : gmap Z node) (t : tree) (C : list frame).

(** ** Leaves keep their place in the chain *)

Definition same_links N N' : Prop :=
  forall x nd, N !! x = Some nd -> is_leaf nd = true ->
  exists nd', N' !! x = Some nd' /\ is_leaf nd' = true /\ same_next order nd nd'.

Lemma same_links_refl N : same_links N N.
Proof using. intros x nd E L. by exists nd. Qed.

Lemma same_links_trans N1 N2 N3 : same_links N1 N2 -> same_links N2 N3 -> same_links N1 N3.
Proof using.
  intros H1 H2 x nd E L. destruct (H1 x nd E L) as (nd2 & E2 & L2 & P2). destruct (H2 x nd2 E2 L2) as (nd3 & E3 & L3 & P3).
  exists nd3. split_and!; [done|done|]. unfold same_next in *. congruence.
Qed.

Lemma same_links_insert N p nd n : N !! p = Some nd -> (is_leaf nd = true -> is_leaf n = true /\ same_next order nd n) ->
  same_links N (<[p := n]> N).
Proof using.
  intros E HL x nx Ex Lx. destruct (decide (x = p)) as [->|Hne].
  - assert (nx = nd) as -> by congruence. destruct (HL Lx). exists n. by rewrite lookup_insert_eq.
  - exists nx. by rewrite lookup_insert_ne.
Qed.

Lemma same_links_keeps N N' : keeps N N' -> same_links N N'.
Proof using. intros HK x nd E L. destruct (HK x nd E L) as (nd' & E' & L' & P). exists nd'. unfold same_next. by rewrite P. Qed.

Lemma linked_same N N' ls e : same_links N N' -> linked order N ls e -> linked order N' ls e.
Proof using. intros HS. apply linked_frame. intros p nd _ E L. exact (HS p nd E L). Qed.

(** What a node says of its subtree. *)
Definition is_leaf_tree t : bool := match t with Leaf _ _ => true | _ => false end.

Lemma rep_node N par t : rep order N par t ->
  exists nd, N !! addr t = Some nd /\ is_leaf nd = is_leaf_tree t /\ num_keys nd = tsize t /\ parent nd = par.
Proof using.
  destruct t as [p es|p ks ts]; cbn.
  - intros (nd & E & HL). exists nd. by rewrite (ln_leaf _ _ _ _ HL), (ln_num _ _ _ _ HL), (ln_parent _ _ _ _ HL).
  - intros [(nd & E & HI) _]. exists nd. by rewrite (in_leaf _ _ _ _ _ HI), (in_num _ _ _ _ _ HI), (in_parent _ _ _ _ _ HI).
Qed.

(** Stores with the same live nodes. *)
Definition same_live N N' : Prop := forall x, is_Some (N !! x) <-> is_Some (N' !! x).

Lemma same_live_insert N N' p nd n : N !! p = Some nd -> same_live N N' -> same_live N (<[p := n]> N').
Proof using.
  intros E HS x. rewrite <- live_insert, <- (HS x). split; [by right|]. intros [->|?]; [by exists nd|done].
Qed.

(** ** Two neighbors under their parent *)

Section Pair.
Context (h : heap) (C : list frame) (p : Z) (ka : list Z) (k : Z) (kb : list Z) (ta : list tree) (tl tr : tree) (tb : list tree).
Abbreviation N := (nodes h).
Context (HR : rep order N (top C) (Node p (ka ++ k :: kb) (ta ++ tl :: tr :: tb))) (HC : repctx order N p C).
Context (HND : NoDup (addrs (Node p (ka ++ k :: kb) (ta ++ tl :: tr :: tb)) ++ caddrs C)).

Lemma pair_distinct : NoDup (p :: addrs tl ++ addrs tr ++ concat (map addrs ta) ++ concat (map addrs tb) ++ caddrs C).
Proof using HND.
  clear Ho SL HR HC.
  assert (HP : addrs (Node p (ka ++ k :: kb) (ta ++ tl :: tr :: tb)) ++ caddrs C ≡ₚ
    p :: addrs tl ++ addrs tr ++ concat (map addrs ta) ++ concat (map addrs tb) ++ caddrs C).
  { cbn [addrs]. rewrite concat_plug. solve_Permutation. }
  by rewrite <- HP.
Qed.

Lemma pair_reps : rep order N p tl /\ rep order N p tr /\ allP (rep order N p) ta /\ allP (rep order N p) tb /\
  exists np, N !! p = Some np /\ inner_node order (top C) (ka ++ k :: kb) (map addr (ta ++ tl :: tr :: tb)) np.
Proof using HR.
  clear Ho SL HC HND. destruct HR as [HI HA]. apply allP_app in HA as [H1 H2]. cbn in H2. tauto.
Qed.

(** The two subtrees changed, with the key between them. *)
Lemma pair_rebuild N' k' tl' tr' np' :
  (forall x, x ∉ p :: addrs tl ++ addrs tr -> N' !! x = N !! x) ->
  N' !! p = Some np' -> inner_node order (top C) (ka ++ k' :: kb) (map addr (ta ++ tl :: tr :: tb)) np' ->
  rep order N' p tl' -> rep order N' p tr' -> addr tl' = addr tl -> addr tr' = addr tr ->
  rep order N' (top C) (Node p (ka ++ k' :: kb) (ta ++ tl' :: tr' :: tb)) /\ repctx order N' p C.
Proof using HR HC HND.
  clear Ho SL. intros HS Ep HI Hl Hr El Er. destruct pair_reps as (_ & _ & Ha & Hb & _).
  pose proof pair_distinct as HD. apply NoDup_cons in HD as [Hp HD]. rewrite (app_assoc (addrs tl)) in HD.
  apply NoDup_app in HD as (_ & HD & _).
  assert (Hout : forall x, x ∈ concat (map addrs ta) ++ concat (map addrs tb) ++ caddrs C -> N' !! x = N !! x).
  { intros x Hx. apply HS. intros [->|Hin]%elem_of_cons; [apply Hp; rewrite !elem_of_app in *; tauto|exact (HD x Hin Hx)]. }
  split; [split|].
  - exists np'. split; [done|]. rewrite map_app in *. cbn [map] in *. by rewrite El, Er.
  - apply allP_app. split; [|split; [done|split; [done|]]].
    + apply (allrep_frame order N); [|done]. intros x Hx. apply Hout. rewrite !elem_of_app. tauto.
    + apply (allrep_frame order N); [|exact Hb]. intros x Hx. apply Hout. rewrite !elem_of_app. tauto.
  - apply (repctx_frame order N); [|done]. intros x Hx. apply Hout. rewrite !elem_of_app. tauto.
Qed.

(** What a redistribution gives. *)
Definition rebalanced (root : Z) (r : cres (Z * heap)) (n : nat) (a b : Z) (sl sr : nat) : Prop :=
  exists tl' k' tr' N', r = Val (root, set_nodes h N') /\
    rep order N' (top C) (Node p (ka ++ k' :: kb) (ta ++ tl' :: tr' :: tb)) /\ repctx order N' p C /\
    addrs tl' ++ addrs tr' ≡ₚ addrs tl ++ addrs tr /\ flatten tl' ++ flatten tr' = flatten tl ++ flatten tr /\
    leaves tl' ++ leaves tr' = leaves tl ++ leaves tr /\
    shape order n a k' tl' /\ shape order n k' b tr' /\ a <= k' <= b /\ tsize tl' = sl /\ tsize tr' = sr /\
    same_links N N' /\ same_live N N' /\ (forall x, x ∉ p :: addrs tl ++ addrs tr -> N' !! x = N !! x).

Lemma redistribute_left_spec root ni n a b : shape order n a k tl -> shape order n k b tr -> a <= k <= b ->
  (1 <= tsize tl)%nat -> (tsize tr < order - 1)%nat -> ni <> ULONG_MAX ->
  rebalanced root (redistribute_nodes root (addr tr) (addr tl) ni (length ka) k h) n a b (tsize tl - 1) (S (tsize tr)).
Proof using HR HC HND.
  clear Ho SL. intros Sl Sr Hab Hl Hr Hni. destruct pair_reps as (Rl & Rr & _ & _ & np & Ep & HP).
  pose proof pair_distinct as HD. pose proof pair_rebuild as HB. unfold rebalanced. clear HR HC HND.
  destruct n as [|n], tl as [pl e1|pl k1 t1], tr as [pr e2|pr k2 t2]; try done; cbn [addr tsize addrs shape] in *; cbn [rep] in Rl, Rr.
  - destruct Rl as (nl & El & Ll), Rr as (nr & Er & Lr).
    destruct (snoc_split e1 (length e1 - 1) ltac:(lia)) as (e1' & e & -> & He1).
    apply NoDup_cons in HD as [Hp HD]. apply NoDup_cons in HD as [Hpl HD]. cbn [app] in *. rewrite !elem_of_cons in *.
    assert (p <> pl /\ p <> pr /\ pl <> pr) as (Hppl & Hppr & Hplr) by tauto.
    destruct (borrow_left_leaf order h root p pl pr ni _ ka k kb _ np e1' e nl e2 nr Ep HP El Ll Er Lr)
      as (np' & nl' & nr' & Hrun & HP' & Ll' & Lr' & Sl' & Sr'); [tauto|tauto|tauto|done|done|].
    destruct (leaf_borrow_left order a k b pl e1' e pr e2 Sl Sr Hab) as (S1 & S2 & S3).
    exists (Leaf pl e1'), (fst e), (Leaf pr (e :: e2)). eexists. split; [exact Hrun|].
    set (N' := <[p:=np']> _). cbn [addr addrs flatten leaves tsize] in *.
    assert (Lp : N' !! p = Some np') by apply lookup_insert_eq.
    assert (Lpl : N' !! pl = Some nl') by (unfold N'; rewrite lookup_insert_ne by done; apply lookup_insert_eq).
    assert (Lpr : N' !! pr = Some nr') by (unfold N'; rewrite !lookup_insert_ne by done; apply lookup_insert_eq).
    assert (HF : forall x, x ∉ p :: [pl] ++ [pr] -> N' !! x = N !! x).
    { intros x Hx. cbn in Hx. rewrite !not_elem_of_cons in Hx. unfold N'. rewrite !lookup_insert_ne by (intros <-; tauto). done. }
    destruct (HB N' (fst e) (Leaf pl e1') (Leaf pr (e :: e2)) np' HF Lp HP' ltac:(by exists nl') ltac:(by exists nr') eq_refl eq_refl) as [R1 R2].
    conjs; [by rewrite <- app_assoc| |].
    + unfold N'. eapply same_links_trans; [apply (same_links_insert _ pr nr nr'); [done|intros _; split; [apply Lr'|done]]|].
      eapply same_links_trans; [apply (same_links_insert _ pl nl nl'); [by rewrite lookup_insert_ne by done|intros _; split; [apply Ll'|done]]|].
      apply (same_links_insert _ p np); [by rewrite !lookup_insert_ne by done|]. rewrite (in_leaf _ _ _ _ _ HP). done.
    + by apply (same_live_insert _ _ p np), (same_live_insert _ _ pl nl), (same_live_insert _ _ pr nr).
  - destruct Rl as [(nl & El & Ll) Al], Rr as [(nr & Er & Lr) Ar].
    pose proof (segs_length _ _ _ _ _ Sl) as Hlen1. pose proof (segs_length _ _ _ _ _ Sr) as Hlen2.
    destruct (snoc_split k1 (length k1 - 1) ltac:(lia)) as (k1' & x & -> & Hk1). rewrite length_app in Hlen1. cbn [length] in Hlen1.
    destruct (snoc_split t1 (S (length k1')) ltac:(lia)) as (t1' & u & -> & Ht1).
    apply allP_app in Al as [At1 [Au _]]. destruct (rep_node _ _ _ Au) as (nu & Eu & Hul & _ & _).
    rewrite map_app in Ll. cbn [map] in Ll. rewrite map_app, concat_app in HD, HB. cbn [map concat] in HD, HB. rewrite app_nil_r in HD, HB.
    assert (HD' : NoDup (p :: pl :: pr :: addrs u ++ concat (map addrs t1') ++ concat (map addrs t2))).
    { eapply proj1, (NoDup_app _ (concat (map addrs ta) ++ concat (map addrs tb) ++ caddrs C)).
      refine (proj1 (NoDup_Permutation_proper _ _ _) HD). solve_Permutation. }
    pose proof (addr_in u) as Hui. apply NoDup_cons in HD' as [Np HD']. apply NoDup_cons in HD' as [Npl HD'].
    apply NoDup_cons in HD' as [Npr HD']. apply NoDup_app in HD' as (NDu & Du & HD'). elems Np. elems Npl. elems Npr.
    setoid_rewrite elem_of_app in Du.
    assert (p <> pl /\ p <> pr /\ pl <> pr) as (Hppl & Hppr & Hplr) by tauto.
    destruct (borrow_left_inner order h root p pl pr ni _ ka k kb _ np k1' x (map addr t1') (addr u) nl k2 (map addr t2) nr nu Ep HP El Ll Er Lr Eu)
      as (np' & nl' & nr' & Hrun & HP' & Ll' & Lr'); [rewrite length_map; lia|rewrite length_map; lia|tauto|tauto|tauto| | | |done|done|].
    1-3: intros Heq; rewrite Heq in Hui; tauto.
    destruct (node_borrow_left order n a k b pl k1' x t1' u pr k2 t2 ltac:(lia) Sl Sr) as (S1 & S2 & S3).
    exists (Node pl k1' t1'), x, (Node pr (k :: k2) (u :: t2)). eexists. split; [exact Hrun|].
    set (N' := <[p:=np']> _). cbn [addr addrs flatten leaves tsize map concat] in *.
    assert (Hne : forall y, y ∈ addrs u \/ y ∈ concat (map addrs t1') \/ y ∈ concat (map addrs t2) -> y <> p /\ y <> pl /\ y <> pr).
    { intros y Hy. split_and!; intros ->; tauto. }
    assert (Lp : N' !! p = Some np') by apply lookup_insert_eq.
    destruct (Hne (addr u) (or_introl Hui)) as (Hup1 & Hup2 & Hup3).
    assert (Lpl : N' !! pl = Some nl') by (unfold N'; rewrite !lookup_insert_ne by done; apply lookup_insert_eq).
    assert (Lpr : N' !! pr = Some nr') by (unfold N'; rewrite !lookup_insert_ne by done; apply lookup_insert_eq).
    assert (Lu : N' !! addr u = Some (with_parent nu pr)) by (unfold N'; rewrite lookup_insert_ne by done; apply lookup_insert_eq).
    assert (Lo : forall y, y <> p -> y <> pl -> y <> pr -> y <> addr u -> N' !! y = N !! y).
    { intros y H1 H2 H3 H4. unfold N'. by rewrite !lookup_insert_ne. }
    assert (Lt : forall y, y ∈ concat (map addrs t1') \/ y ∈ concat (map addrs t2) -> N' !! y = N !! y).
    { intros y Hy. destruct (Hne y ltac:(tauto)) as (H1 & H2 & H3). apply Lo; [done|done|done|]. intros ->. exact (Du _ Hui Hy). }
    assert (R1 : rep order N' p (Node pl k1' t1')).
    { split; [by exists nl'|]. apply (allrep_frame order N); [|done]. intros y Hy. apply Lt. by left. }
    assert (R2 : rep order N' p (Node pr (k :: k2) (u :: t2))).
    { split; [by exists nr'|]. split.
      - apply (rep_reparent order N N' pl); [done|done|by rewrite Lu, Eu|]. intros y Hy Hyu. destruct (Hne y ltac:(tauto)) as (H1 & H2 & H3). by apply Lo.
      - apply (allrep_frame order N); [|done]. intros y Hy. apply Lt. by right. }
    assert (HF : forall y, y ∉ p :: (pl :: concat (map addrs t1') ++ addrs u) ++ pr :: concat (map addrs t2) -> N' !! y = N !! y).
    { intros y Hy. cbn in Hy. elems Hy. apply Lo; [tauto|tauto|tauto|]. intros ->. tauto. }
    destruct (HB N' x _ _ np' HF Lp HP' R1 R2 eq_refl eq_refl) as [R3 R4].
    rewrite !map_app, !concat_app. cbn [map concat]. rewrite !app_nil_r.
    conjs.
    + cbn. solve_Permutation.
    + by rewrite <- app_assoc.
    + by rewrite <- app_assoc.
    + unfold N'. eapply same_links_trans; [apply (same_links_insert _ pr nr nr'); [done|by rewrite (in_leaf _ _ _ _ _ Lr)]|].
      eapply same_links_trans; [apply (same_links_insert _ pl nl nl'); [by rewrite lookup_insert_ne by done|by rewrite (in_leaf _ _ _ _ _ Ll)]|].
      eapply same_links_trans; [apply (same_links_insert _ (addr u) nu (with_parent nu pr)); [by rewrite !lookup_insert_ne by done|by split]|].
      apply (same_links_insert _ p np); [by rewrite !lookup_insert_ne by done|by rewrite (in_leaf _ _ _ _ _ HP)].
    + by apply (same_live_insert _ _ p np), (same_live_insert _ _ (addr u) nu), (same_live_insert _ _ pl nl), (same_live_insert _ _ pr nr).
Qed.

Lemma redistribute_right_spec root n a b : shape order n a k tl -> shape order n k b tr -> a <= k <= b ->
  (2 <= tsize tr)%nat -> (tsize tl < order - 1)%nat -> ka = [] ->
  rebalanced root (redistribute_nodes root (addr tl) (addr tr) ULONG_MAX 0 k h) n a b (S (tsize tl)) (tsize tr - 1).
Proof using HR HC HND.
  clear Ho SL. intros Sl Sr Hab Hr Hl Hka. destruct pair_reps as (Rl & Rr & _ & _ & np & Ep & HP).
  pose proof pair_distinct as HD. pose proof pair_rebuild as HB. unfold rebalanced. clear HR HC HND.
  destruct n as [|n], tl as [pl e1|pl k1 t1], tr as [pr e2|pr k2 t2]; try done; cbn [addr tsize addrs shape] in *; cbn [rep] in Rl, Rr.
  - destruct Rl as (nl & El & Ll), Rr as (nr & Er & Lr).
    destruct e2 as [|e [|e' e2]]; [cbn in Hr; lia|cbn in Hr; lia|].
    apply NoDup_cons in HD as [Hp HD]. apply NoDup_cons in HD as [Hpl HD]. cbn [app] in *. rewrite !elem_of_cons in *.
    assert (p <> pl /\ p <> pr /\ pl <> pr) as (Hppl & Hppr & Hplr) by tauto.
    destruct (borrow_right_leaf order h root p pl pr _ ka k kb _ np e1 nl e e' e2 nr Ep HP Hka El Ll Er Lr)
      as (np' & nl' & nr' & Hrun & HP' & Ll' & Lr' & Sl' & Sr'); [done|done|done|done|].
    destruct (leaf_borrow_right order a k b pl e1 pr e e' e2 Sl Sr Hab) as (S1 & S2 & S3).
    exists (Leaf pl (e1 ++ [e])), (fst e'), (Leaf pr (e' :: e2)). eexists. split; [exact Hrun|].
    set (N' := <[p:=np']> _). cbn [addr addrs flatten leaves tsize] in *.
    assert (Lp : N' !! p = Some np') by apply lookup_insert_eq.
    assert (Lpr : N' !! pr = Some nr') by (unfold N'; rewrite lookup_insert_ne by done; apply lookup_insert_eq).
    assert (Lpl : N' !! pl = Some nl') by (unfold N'; rewrite !lookup_insert_ne by done; apply lookup_insert_eq).
    assert (HF : forall x, x ∉ p :: [pl] ++ [pr] -> N' !! x = N !! x).
    { intros x Hx. cbn in Hx. rewrite !not_elem_of_cons in Hx. unfold N'. rewrite !lookup_insert_ne by (intros <-; tauto). done. }
    destruct (HB N' (fst e') (Leaf pl (e1 ++ [e])) (Leaf pr (e' :: e2)) np' HF Lp HP' ltac:(by exists nl') ltac:(by exists nr') eq_refl eq_refl) as [R1 R2].
    conjs; [by rewrite <- app_assoc|rewrite length_app; cbn; lia| |].
    + unfold N'. eapply same_links_trans; [apply (same_links_insert _ pl nl nl'); [done|intros _; split; [apply Ll'|done]]|].
      eapply same_links_trans; [apply (same_links_insert _ pr nr nr'); [by rewrite lookup_insert_ne by done|intros _; split; [apply Lr'|done]]|].
      apply (same_links_insert _ p np); [by rewrite !lookup_insert_ne by done|]. rewrite (in_leaf _ _ _ _ _ HP). done.
    + by apply (same_live_insert _ _ p np), (same_live_insert _ _ pr nr), (same_live_insert _ _ pl nl).
  - destruct Rl as [(nl & El & Ll) Al], Rr as [(nr & Er & Lr) Ar].
    pose proof (segs_length _ _ _ _ _ Sl) as Hlen1. pose proof (segs_length _ _ _ _ _ Sr) as Hlen2.
    destruct k2 as [|x k2]; [cbn in Hr; lia|]. destruct t2 as [|u t2]; [done|]. cbn [length] in Hlen2.
    destruct Ar as [Au At2]. destruct (rep_node _ _ _ Au) as (nu & Eu & Hul & _ & _).
    cbn [map] in Lr. cbn [map concat] in HD, HB.
    assert (HD' : NoDup (p :: pl :: pr :: addrs u ++ concat (map addrs t1) ++ concat (map addrs t2))).
    { eapply proj1, (NoDup_app _ (concat (map addrs ta) ++ concat (map addrs tb) ++ caddrs C)).
      refine (proj1 (NoDup_Permutation_proper _ _ _) HD). solve_Permutation. }
    pose proof (addr_in u) as Hui. apply NoDup_cons in HD' as [Np HD']. apply NoDup_cons in HD' as [Npl HD'].
    apply NoDup_cons in HD' as [Npr HD']. apply NoDup_app in HD' as (NDu & Du & HD'). elems Np. elems Npl. elems Npr.
    setoid_rewrite elem_of_app in Du.
    assert (p <> pl /\ p <> pr /\ pl <> pr) as (Hppl & Hppr & Hplr) by tauto.
    assert (Hne : forall y, y ∈ addrs u \/ y ∈ concat (map addrs t1) \/ y ∈ concat (map addrs t2) -> y <> p /\ y <> pl /\ y <> pr).
    { intros y Hy. split_and!; intros ->; tauto. }
    destruct (Hne (addr u) (or_introl Hui)) as (Hup1 & Hup2 & Hup3).
    destruct (borrow_right_inner order h root p pl pr _ ka k kb _ np k1 (map addr t1) nl x k2 (addr u) (map addr t2) nr nu Ep HP Hka El Ll Er Lr Eu)
      as (np' & nl' & nr' & Hrun & HP' & Ll' & Lr'); [rewrite length_map; lia|rewrite length_map; lia|done|done|done|done|done|done|done|].
    destruct (node_borrow_right order n a k b pl k1 t1 pr x k2 u t2 Hlen1 Sl Sr) as (S1 & S2 & S3).
    exists (Node pl (k1 ++ [k]) (t1 ++ [u])), x, (Node pr k2 t2). eexists. split; [exact Hrun|].
    set (N' := <[p:=np']> _). cbn [addr addrs flatten leaves tsize map concat] in *.
    assert (Lp : N' !! p = Some np') by apply lookup_insert_eq.
    assert (Lpr : N' !! pr = Some nr') by (unfold N'; rewrite !lookup_insert_ne by done; apply lookup_insert_eq).
    assert (Lpl : N' !! pl = Some nl') by (unfold N'; rewrite !lookup_insert_ne by done; apply lookup_insert_eq).
    assert (Lu : N' !! addr u = Some (with_parent nu pl)) by (unfold N'; rewrite lookup_insert_ne by done; apply lookup_insert_eq).
    assert (Lo : forall y, y <> p -> y <> pl -> y <> pr -> y <> addr u -> N' !! y = N !! y).
    { intros y H1 H2 H3 H4. unfold N'. by rewrite !lookup_insert_ne. }
    assert (Lt : forall y, y ∈ concat (map addrs t1) \/ y ∈ concat (map addrs t2) -> N' !! y = N !! y).
    { intros y Hy. destruct (Hne y ltac:(tauto)) as (H1 & H2 & H3). apply Lo; [done|done|done|]. intros ->. exact (Du _ Hui Hy). }
    assert (R1 : rep order N' p (Node pl (k1 ++ [k]) (t1 ++ [u]))).
    { split; [exists nl'; by rewrite map_app|]. apply allP_app. split.
      - apply (allrep_frame order N); [|done]. intros y Hy. apply Lt. by left.
      - split; [|done]. apply (rep_reparent order N N' pr); [done|done|by rewrite Lu, Eu|].
        intros y Hy Hyu. destruct (Hne y ltac:(tauto)) as (H1 & H2 & H3). by apply Lo. }
    assert (R2 : rep order N' p (Node pr k2 t2)).
    { split; [by exists nr'|]. apply (allrep_frame order N); [|done]. intros y Hy. apply Lt. by right. }
    assert (HF : forall y, y ∉ p :: (pl :: concat (map addrs t1)) ++ pr :: addrs u ++ concat (map addrs t2) -> N' !! y = N !! y).
    { intros y Hy. cbn in Hy. elems Hy. apply Lo; [tauto|tauto|tauto|]. intros ->. tauto. }
    destruct (HB N' x _ _ np' HF Lp HP' R1 R2 eq_refl eq_refl) as [R3 R4].
    rewrite !map_app, !concat_app. cbn [map concat]. rewrite !app_nil_r.
    conjs.
    + cbn. solve_Permutation.
    + by rewrite <- app_assoc.
    + by rewrite <- app_assoc.
    + rewrite length_app. cbn. lia.
    + cbn. lia.
    + unfold N'. eapply same_links_trans; [apply (same_links_insert _ pl nl nl'); [done|by rewrite (in_leaf _ _ _ _ _ Ll)]|].
      eapply same_links_trans; [apply (same_links_insert _ pr nr nr'); [by rewrite lookup_insert_ne by done|by rewrite (in_leaf _ _ _ _ _ Lr)]|].
      eapply same_links_trans; [apply (same_links_insert _ (addr u) nu (with_parent nu pl)); [by rewrite !lookup_insert_ne by done|by split]|].
      apply (same_links_insert _ p np); [by rewrite !lookup_insert_ne by done|by rewrite (in_leaf _ _ _ _ _ HP)].
    + by apply (same_live_insert _ _ p np), (same_live_insert _ _ (addr u) nu), (same_live_insert _ _ pr nr), (same_live_insert _ _ pl nl).
Qed.

(** Coalescence, up to the call on the parent. *)
Lemma coalesce_spec del root x nb ni n a b : (if ni =? ULONG_MAX then (nb, x) else (x, nb)) = (addr tr, addr tl) ->
  shape order n a k tl -> shape order n k b tr ->
  (tsize tl + tsize tr + match n with O => 0 | S _ => 1 end <= order - 1)%nat ->
  exists N', coalesce_nodes order del root x nb ni k h =
      (root ← del root p k (addr tr); _ ← free_node (addr tr); mret root) (set_nodes h N') /\
    rep order N' p (merge tl k tr) /\ is_Some (N' !! addr tr) /\ addrs (merge tl k tr) ++ [addr tr] ≡ₚ addrs tl ++ addrs tr /\
    (forall y, y ∉ addrs tl ++ addrs tr -> N' !! y = N !! y) /\ same_live N N' /\
    (forall l1 l2 e, linked order N (l1 ++ leaves tl ++ leaves tr ++ l2) e -> NoDup (l1 ++ leaves tl ++ leaves tr ++ l2) ->
       linked order N' (l1 ++ leaves (merge tl k tr) ++ l2) e).
Proof using HR HND Ho.
  clear SL HC. intros Hpair Sl Sr Hlen. destruct pair_reps as (Rl & Rr & _ & _ & np & Ep & HP).
  pose proof pair_distinct as HD. clear HR HND.
  destruct n as [|n], tl as [pl e1|pl k1 t1], tr as [pr e2|pr k2 t2]; try done; cbn [addr tsize addrs shape] in *; cbn [rep] in Rl, Rr.
  - destruct Rl as (nl & El & Ll), Rr as (nr & Er & Lr).
    apply NoDup_cons in HD as [Hp HD]. apply NoDup_cons in HD as [Hpl HD]. cbn [app] in *. elems Hp. elems Hpl.
    assert (pl <> pr) as Hplr by tauto.
    destruct (coalesce_leaf order Ho del h root x nb ni k p pl pr e1 nl e2 nr Hpair El Ll Er Lr ltac:(lia)) as (nl' & Hrun & Ll' & Hnext).
    eexists. split; [exact Hrun|]. cbn [merge rep addrs leaves app]. conjs.
    + exists nl'. by rewrite lookup_insert_eq.
    + rewrite lookup_insert_ne by done. by exists nr.
    + intros y Hy. elems Hy. apply lookup_insert_ne. intros <-. tauto.
    + by apply (same_live_insert _ _ pl nl).
    + intros l1 l2 e HLk Hnd. apply linked_app in HLk as [L1 [_ [(nr0 & Er0 & _ & Pr) L2]]]. assert (nr0 = nr) as -> by congruence.
      apply NoDup_app in Hnd as (_ & Hd1 & Hnd). apply NoDup_cons in Hnd as [Hn1 _]. elems Hn1.
      assert (Hfr : forall ls e, pl ∉ ls -> linked order N ls e -> linked order (<[pl := nl']> N) ls e).
      { intros ls e' Hpls. apply linked_frame. intros y ny Hy Ey Ly. exists ny. rewrite lookup_insert_ne by (by intros <-). done. }
      apply linked_app. split; [apply Hfr; [|exact L1]; intros Hin; apply (Hd1 pl Hin); by left|].
      split; [exists nl'; rewrite lookup_insert_eq; split_and!; [done|apply Ll'|by rewrite Hnext]|]. apply Hfr; [tauto|done].
  - destruct Rl as [(nl & El & Ll) Al], Rr as [(nr & Er & Lr) Ar].
    pose proof (segs_length _ _ _ _ _ Sl) as Hlen1. pose proof (segs_length _ _ _ _ _ Sr) as Hlen2.
    assert (HD' : NoDup (pl :: pr :: concat (map addrs t1) ++ concat (map addrs t2))).
    { apply NoDup_cons in HD as [_ HD]. eapply proj1, (NoDup_app _ (concat (map addrs ta) ++ concat (map addrs tb) ++ caddrs C)).
      refine (proj1 (NoDup_Permutation_proper _ _ _) HD). solve_Permutation. }
    apply NoDup_cons in HD' as [Npl HD']. apply NoDup_cons in HD' as [Npr HD']. elems Npl. elems Npr.
    assert (pl <> pr) as Hplr by tauto.
    assert (Hsub : forall y, y ∈ map addr t1 ++ map addr t2 -> y ∈ concat (map addrs (t1 ++ t2))).
    { intros y Hy. rewrite <- map_app in Hy. apply list_elem_of_fmap in Hy as (u & -> & Hu). apply elem_of_concat_map. exists u. split; [done|apply addr_in]. }
    rewrite map_app, concat_app in Hsub. setoid_rewrite elem_of_app in Hsub at 2.
    assert (HA : allP (fun u => exists q, rep order N q u) (t1 ++ t2)).
    { rewrite allP_Forall, Forall_app. rewrite allP_Forall in Al, Ar. split; (eapply Forall_impl; [|by eauto]); cbn; eauto. }
    destruct (coalesce_inner order Ho del h root x nb ni k p pl pr k1 (map addr t1) nl k2 (map addr t2) nr Hpair Hplr El Ll Er Lr)
      as (nl' & nr' & N' & Hrun & Epl & HI & Epr & Lnr & HA1 & HA2 & HK); [rewrite length_map; lia|rewrite length_map; lia|lia| |].
    { intros y Hy. pose proof Hy as Hy'. apply Hsub in Hy'. split; [|split; intros ->; tauto].
      rewrite <- map_app in Hy. apply list_elem_of_fmap in Hy as (u & -> & Hu). rewrite allP_Forall, Forall_forall in HA.
      destruct (HA u Hu) as [q Hq]. destruct (rep_node _ _ _ Hq) as (nu & Eu & _). by exists nu. }
    exists N'. split; [exact Hrun|]. cbn [merge rep addrs leaves app].
    rewrite !map_app, !concat_app. conjs.
    + split; [by exists nl'|]. apply allP_app. apply NoDup_app in HD' as (HD1 & Hd12 & HD2).
      split; (eapply (adopted_rep order N N'); [done|done| |]).
      * intros y Hy. apply HA1, elem_of_app. by left.
      * intros y Hy Hn. apply HA2; [|by intros ->; tauto|by intros ->; tauto]. intros Hin. elems Hin. destruct Hin as [Hin|Hin]; [done|].
        apply (Hd12 y Hy). apply list_elem_of_fmap in Hin as (u & -> & Hu). apply elem_of_concat_map. exists u. split; [done|apply addr_in].
      * intros y Hy. apply HA1, elem_of_app. by right.
      * intros y Hy Hn. apply HA2; [|by intros ->; tauto|by intros ->; tauto]. intros Hin. elems Hin. destruct Hin as [Hin|Hin]; [|done].
        apply (Hd12 y); [|done]. apply list_elem_of_fmap in Hin as (u & -> & Hu). apply elem_of_concat_map. exists u. split; [done|apply addr_in].
    + cbn. solve_Permutation.
    + intros y Hy. elems Hy. apply HA2; [|by intros ->; tauto|by intros ->; tauto]. intros Hin. apply Hsub in Hin. tauto.
    + intros y. destruct (decide (y ∈ map addr t1 ++ map addr t2)) as [Hin|Hin]; [rewrite HA1 by done; by rewrite fmap_is_Some|].
      destruct (decide (y = pl)) as [->|]; [split; intros _; by eexists|]. destruct (decide (y = pr)) as [->|]; [split; intros _; by eexists|].
      by rewrite HA2.
    + intros l1 l2 e HLk _. rewrite <- !app_assoc. by apply (linked_same N N' _ _ (same_links_keeps _ _ HK)).
Qed.
End Pair.

(** ** Freeing *)

Lemma pool_push slab esize free (live live' : Z -> Prop) slabs x : pool_ok slab esize free live slabs -> live x ->
  (forall y, live' y <-> live y /\ y <> x) -> pool_ok slab esize (x :: free) live' slabs.
Proof using.
  clear Ho SL. intros [HN HF HS] Hx HL. split.
  - constructor; [|done]. intros Hin. exact (HF x Hin Hx).
  - intros y [->|Hy]%elem_of_cons Hl; apply HL in Hl as [Hl Hne]; [done|exact (HF y Hy Hl)].
  - intros y [Hl|[->|Hy]%elem_of_cons]; apply HS; [left; by apply HL|by left|by right].
Qed.

Lemma live_delete {A} (m : gmap Z A) x y : is_Some (base.delete x m !! y) <-> is_Some (m !! y) /\ y <> x.
Proof using.
  clear Ho SL. destruct (decide (y = x)) as [->|Hne].
  - rewrite lookup_delete_eq. split; [by intros [? ?]|tauto].
  - rewrite lookup_delete_ne by done. tauto.
Qed.

Lemma free_node_spec h p : alloc_inv h -> is_Some (nodes h !! p) ->
  exists h', free_node p h = Val (tt, h') /\ nodes h' = base.delete p (nodes h) /\ records h' = records h /\ alloc_inv h'.
Proof using.
  clear Ho SL. intros [H1 H2] [nd E]. eexists. unfold free_node. rewrite E. split; [done|]. split; [done|]. split; [done|].
  split; [|exact H2]. cbn. eapply pool_push; [exact H1|by eexists|]. intros y. apply live_delete.
Qed.

Lemma free_record_spec h r : alloc_inv h -> is_Some (records h !! r) ->
  exists h', free_record r h = Val (tt, h') /\ nodes h' = nodes h /\ records h' = base.delete r (records h) /\ alloc_inv h'.
Proof using.
  clear Ho SL. intros [H1 H2] [v E]. eexists. unfold free_record. rewrite E. split; [done|]. split; [done|]. split; [done|].
  split; [exact H1|]. cbn. eapply pool_push; [exact H2|by eexists|]. intros y. apply live_delete.
Qed.

(** ** What a deletion does to the whole tree [W], from which the entry has gone *)

Definition shrunk (h : heap) (W : tree) (r : cres (Z * heap)) : Prop :=
  exists root' h', r = Val (root', h') /\ alloc_inv h' /\ records h' = records h /\
    (forall x, x ∉ addrs W -> nodes h' !! x = nodes h !! x) /\
    ((root' = 0 /\ flatten W = []) \/
     exists T n, tree_at order h' root' T n /\ flatten T = flatten W /\ (forall x, x ∈ addrs T -> x ∈ addrs W) /\
       linked order (nodes h') (leaves T) 0).

(** The root. *)
Lemma adjust_root_shrunk h t n : alloc_inv h -> rep order (nodes h) 0 t -> NoDup (addrs t) -> weak order n true 0 w64 t ->
  addr t <> 0 -> linked order (nodes h) (leaves t) 0 -> shrunk h t (adjust_root (addr t) h).
Proof using SL Ho.
  intros HA HR HN [HS Hsz] Hnz HL. destruct (rep_node _ _ _ HR) as (nd & E & Hlf & Hnum & _).
  unfold adjust_root. rewrite (bind_load _ nd) by done. rewrite Hnum. destruct (0 <? tsize t)%nat eqn:Ez.
  - apply Nat.ltb_lt in Ez. exists (addr t), h. split_and!; try done. right. exists t, n. split_and!; try done. split; try done.
    apply ok_shape. split; [done|]. destruct n; cbn [tmin]; unfold leaf_min, node_min; lia.
  - apply Nat.ltb_ge in Ez. destruct n as [|n], t as [p es|p ks ts]; try done; cbn [tsize addr addrs is_leaf_tree shape] in *.
    + destruct es; [|cbn in Ez; lia]. rewrite Hlf. cbn.
      destruct (free_node_spec h p HA) as (h' & Hrun & HN' & Hrec & HA'); [by eexists|].
      exists 0, h'. rewrite (bindM (mret 0) _ h 0 h) by done. rewrite (bindM _ _ _ _ _ Hrun). split_and!; try done; [|by left].
      intros x Hx. rewrite HN'. apply lookup_delete_ne. intros ->. apply Hx. by left.
    + destruct ks; [|cbn in Ez; lia]. destruct ts as [|c [|? ?]]; try done. destruct HS as [HOk _]. rewrite Hlf.
      destruct HR as [(nd' & E' & HI) [HRc _]]. assert (nd' = nd) as -> by congruence.
      destruct (in_pointers _ _ _ _ _ HI) as [j Ej]. destruct (rep_node _ _ _ HRc) as (nc & Ec & _).
      cbn [map concat] in HN. rewrite app_nil_r in HN. apply NoDup_cons in HN as [Hp HN].
      assert (Hpc : addr c <> p) by (intros <-; apply Hp, addr_in).
      set (h1 := set_nodes h (<[addr c := with_parent nc 0]> (nodes h))).
      assert (HA1 : alloc_inv h1) by by eapply alloc_inv_store.
      destruct (free_node_spec h1 p HA1) as (h' & Hrun & HN' & Hrec & HA'); [cbn; rewrite lookup_insert_ne by done; by eexists|].
      exists (addr c), h'. rewrite (bindM _ _ _ (addr c) h1).
      2: { rewrite (bind_lift _ _ _ (addr c)) by by rewrite Ej. rewrite (bind_set_parent (addr c) 0 nc) by done. done. }
      rewrite (bindM _ _ _ _ _ Hrun). cbn [addrs flatten map concat]. rewrite !app_nil_r.
      assert (Hout : forall x, x <> p -> x <> addr c -> nodes h' !! x = nodes h !! x).
      { intros x H1 H2. rewrite HN'. cbn. by rewrite lookup_delete_ne, lookup_insert_ne by done. }
      assert (Hin : nodes h' !! addr c = Some (with_parent nc 0)).
      { rewrite HN'. cbn. by rewrite lookup_delete_ne, lookup_insert_eq by done. }
      split_and!; try done.
      * intros x Hx. elems Hx. apply Hout; [tauto|]. intros ->. apply Hx. right. apply addr_in.
      * right. exists c, n. split_and!; try done; [| |].
        -- split; try done.
           ++ apply (rep_reparent order (nodes h) _ p); [done|done|by rewrite Hin, Ec|]. intros x Hx Hxc. apply Hout; [by intros ->|done].
           ++ by apply ok_root.
           ++ eapply (alloc_inv_pos h'); [done|by eexists].
        -- intros x Hx. by right.
        -- cbn [leaves map concat] in HL. rewrite app_nil_r in HL. eapply linked_frame; [|exact HL]. intros x nx Hx Ex Lx.
           apply leaves_addrs in Hx. destruct (decide (x = addr c)) as [->|Hxc].
           ++ exists (with_parent nc 0). assert (nx = nc) as -> by congruence. by split_and!.
           ++ exists nx. rewrite Hout by (done || by intros ->). done.
Qed.

(** ** One level *)

Section Level.
Context (h : heap) (C : list frame) (p : Z) (ka : list Z) (k : Z) (kb : list Z) (ta : list tree) (tl tr : tree) (tb : list tree).
Abbreviation W := (plug C (Node p (ka ++ k :: kb) (ta ++ tl :: tr :: tb))).
Context (HR : rep order (nodes h) (top C) (Node p (ka ++ k :: kb) (ta ++ tl :: tr :: tb))) (HC : repctx order (nodes h) p C).
Context (HND : NoDup (addrs (Node p (ka ++ k :: kb) (ta ++ tl :: tr :: tb)) ++ caddrs C)).
Context (n : nat) (Lo Hi a b root : Z) (HA : alloc_inv h) (HO : okctx order (S n) Lo Hi C) (Hlt : Lo < Hi).
Context (Ha : lsegs (ok order n false) Lo ka ta a) (Hb : rsegs (ok order n false) b kb tb Hi) (Hab : a <= k <= b).
Context (Hta : length ta = length ka) (Hlen : (node_min order (is_nil C) <= length (ka ++ k :: kb) <= order - 1)%nat).
Context (Hroot : root = addr W) (Hnz : root <> 0) (HL : linked order (nodes h) (leaves W) 0).

Lemma redistributed_shrunk r sl sr : rebalanced h C p ka kb ta tl tr tb root r n a b sl sr ->
  (tmin order n false <= sl <= order - 1)%nat -> (tmin order n false <= sr <= order - 1)%nat -> shrunk h W r.
Proof using HR HC HND HA HO Hlt Ha Hb Hab Hta Hlen Hroot Hnz HL.
  clear SL Ho. intros (tl' & k' & tr' & N' & -> & R1 & R2 & HP & HF & HV & S1 & S2 & Hk & E1 & E2 & HS & HLv & Hfr) Hsl Hsr.
  set (t' := Node p (ka ++ k' :: kb) (ta ++ tl' :: tr' :: tb)).
  assert (HPt : addrs t' ≡ₚ addrs (Node p (ka ++ k :: kb) (ta ++ tl :: tr :: tb))).
  { unfold t'. cbn [addrs]. rewrite !concat_plug. constructor. f_equiv. rewrite (app_assoc (addrs tl')), HP. by rewrite <- app_assoc. }
  assert (HPW : addrs (plug C t') ≡ₚ addrs W) by (rewrite !addrs_plug, HPt; done).
  assert (Hfl : flatten (plug C t') = flatten W).
  { rewrite !flatten_plug. do 2 f_equal. unfold t'. cbn [flatten]. rewrite !concat_plug. f_equal. by rewrite (app_assoc (flatten tl')), HF, <- app_assoc. }
  assert (Hlv : leaves (plug C t') = leaves W).
  { rewrite !leaves_plug. do 2 f_equal. unfold t'. cbn [leaves]. rewrite !concat_plug. f_equal. by rewrite (app_assoc (leaves tl')), HV, <- app_assoc. }
  exists root, (set_nodes h N'). split_and!; try done.
  - by apply alloc_inv_nodes.
  - intros x Hx. apply Hfr. intros Hin. apply Hx. rewrite addrs_plug. cbn [addrs]. rewrite concat_plug.
    repeat (rewrite elem_of_cons in Hin || rewrite elem_of_app in Hin). repeat (rewrite elem_of_app || rewrite elem_of_cons). tauto.
  - right. exists (plug C t'), (S n + length C)%nat. split_and!; try done.
    + split; try done.
      * by apply rep_plug.
      * rewrite Hroot. by apply addr_plug.
      * eapply plug_ok; [exact HO|lia|]. split; [|rewrite length_app in *; cbn in *; lia].
        eapply segs_pair; [done|exact Ha| | | | |exact Hb]; [apply ok_shape; split; [exact S1|lia]|lia|apply ok_shape; split; [exact S2|lia]|lia].
      * rewrite HPW, addrs_plug. exact HND.
    + intros x. by rewrite HPW.
    + rewrite Hlv. by eapply linked_same.
Qed.

(** Coalescence, given what the parent's deletion does. *)
Lemma coalesced_shrunk del del' x nb ni :
  (forall h0 q, del root p k q h0 = (m ← remove_entry_from_node order p k q; after_removal order del' root m) h0) ->
  (forall h2 t', alloc_inv h2 -> rep order (nodes h2) (top C) t' -> repctx order (nodes h2) (addr t') C -> NoDup (addrs t' ++ caddrs C) ->
     weak order (S n) (is_nil C) Lo Hi t' -> root = addr (plug C t') -> linked order (nodes h2) (leaves (plug C t')) 0 ->
     shrunk h2 (plug C t') (after_removal order del' root (addr t') h2)) ->
  (if ni =? ULONG_MAX then (nb, x) else (x, nb)) = (addr tr, addr tl) -> k ∉ ka ->
  shape order n a k tl -> shape order n k b tr ->
  (tmin order n false <= tsize tl + tsize tr + match n with O => 0 | S _ => 1 end <= order - 1)%nat ->
  shrunk h W (coalesce_nodes order del root x nb ni k h).
Proof using SL Ho HR HC HND HA HO Hlt Ha Hb Hab Hta Hlen Hroot Hnz HL.
  intros Hdel IH Hpair Hka S1 S2 Hsz.
  destruct (coalesce_spec h C p ka k kb ta tl tr tb HR HND del root x nb ni n a b Hpair S1 S2 ltac:(lia))
    as (N' & Hrun & Rm & Lr & HP & Hfr & HLv & Hlk).
  destruct (merge_shape order n a k b tl tr S1 S2 Hab) as (Sm & Szm & Am & Fm).
  set (tm := merge tl k tr) in *. set (t' := Node p (ka ++ kb) (ta ++ tm :: tb)).
  pose proof (pair_distinct C p ka k kb ta tl tr tb HND) as HD.
  destruct (pair_reps h C p ka k kb ta tl tr tb HR) as (_ & Rr & Rta & Rtb & np & Ep & HI).
  apply NoDup_cons in HD as [Hp HD]. rewrite (app_assoc (addrs tl)), <- HP in HD.
  assert (HDt : NoDup (addr tr :: addrs t' ++ caddrs C)).
  { assert (HPt : addr tr :: addrs t' ++ caddrs C ≡ₚ p :: (addrs tm ++ [addr tr]) ++ concat (map addrs ta) ++ concat (map addrs tb) ++ caddrs C).
    { unfold t'. cbn [addrs]. rewrite map_app, concat_app. cbn [map concat]. solve_Permutation. }
    rewrite HPt. constructor; [|done]. intros Hin. apply Hp. rewrite (app_assoc (addrs tl)), <- HP. exact Hin. }
  assert (Hpout : p ∉ addrs tl ++ addrs tr) by (intros Hin; apply Hp; rewrite (app_assoc (addrs tl)), elem_of_app; by left).
  rewrite <- HP in Hpout. elems Hpout.
  rewrite Hrun. clear Hrun. set (h1 := set_nodes h N').
  assert (Ep1 : nodes h1 !! p = Some np) by (cbn; rewrite Hfr; [done|]; rewrite <- HP, elem_of_app, elem_of_cons, elem_of_nil; tauto).
  rewrite map_app in HI. cbn [map] in HI.
  replace (map addr ta ++ addr tl :: addr tr :: map addr tb) with ((map addr ta ++ [addr tl]) ++ addr tr :: map addr tb) in HI by by rewrite <- app_assoc.
  pose proof (rsegs_length _ _ _ _ _ Hb) as Htb.
  destruct (remove_inner order h1 p (top C) ka k kb (map addr ta ++ [addr tl]) (addr tr) (map addr tb) np Ep1 HI Hka)
    as (np' & Hrm & HI').
  { intros Hin. elems Hin. apply NoDup_app in HD as (HD1 & HD2 & _). apply NoDup_app in HD1 as (_ & HD1 & _).
    destruct Hin as [Hin|[Hin|Hin]]; [| |by apply elem_of_nil in Hin].
    - apply list_elem_of_fmap in Hin as (u & Hu & Hin). apply (HD2 (addr tr)); [apply elem_of_app; right; by left|].
      apply elem_of_app. left. apply elem_of_concat_map. exists u. split; [done|]. rewrite Hu. apply addr_in.
    - rewrite Hin in HD1. apply (HD1 (addr tl)); [rewrite <- Am; apply addr_in|by left]. }
  { rewrite length_app, !length_map. cbn. lia. } { lia. }
  set (h2 := set_nodes h1 (<[p := np']> (nodes h1))) in *.
  assert (HA2 : alloc_inv h2) by (eapply alloc_inv_store; [exact Ep1|by apply alloc_inv_nodes]).
  assert (Hfr2 : forall y, y <> p -> y ∉ addrs tm -> y <> addr tr -> nodes h2 !! y = nodes h !! y).
  { intros y H1 H2 H3. cbn. rewrite lookup_insert_ne by done. apply Hfr. rewrite <- HP. rewrite elem_of_app, elem_of_cons, elem_of_nil. tauto. }
  assert (HDr : forall y, y ∈ concat (map addrs ta) ++ concat (map addrs tb) ++ caddrs C -> nodes h2 !! y = nodes h !! y).
  { apply NoDup_app in HD as (_ & HD & _). intros y Hy. apply Hfr2.
    - intros ->. apply Hp. rewrite (app_assoc (addrs tl)), elem_of_app. by right.
    - intros Hin. apply (HD y); [|done]. apply elem_of_app. by left.
    - intros ->. apply (HD (addr tr)); [|done]. apply elem_of_app. right. by left. }
  assert (R2 : rep order (nodes h2) (top C) t').
  { split; [exists np'; split; [cbn; apply lookup_insert_eq|]|apply allP_app; split; [|split]].
    - rewrite map_app. cbn [map]. rewrite Am. by rewrite <- app_assoc in HI'.
    - apply (allrep_frame order (nodes h)); [|done]. intros y Hy. apply HDr. rewrite !elem_of_app. tauto.
    - apply (rep_frame order N'); [|done]. intros y Hy. cbn. apply lookup_insert_ne. intros <-. tauto.
    - apply (allrep_frame order (nodes h)); [|exact Rtb]. intros y Hy. apply HDr. rewrite !elem_of_app. tauto. }
  apply NoDup_cons in HDt as [Hq HDt].
  assert (HLk2 : linked order (nodes h2) (leaves (plug C t')) 0).
  { apply (linked_same N'); [apply (same_links_insert N' p np); [done|by rewrite (in_leaf _ _ _ _ _ HI)]|].
    pose proof HL as HL'. rewrite leaves_plug in HL' |- *. unfold t'. cbn [leaves] in *. rewrite concat_plug in HL'.
    rewrite map_app, concat_app. cbn [map concat]. rewrite <- !app_assoc in *. rewrite app_assoc in HL' |- *.
    apply Hlk; [done|]. pose proof (leaves_nodup W ltac:(rewrite addrs_plug; exact HND)) as HNL. rewrite leaves_plug in HNL. cbn [leaves] in HNL.
    rewrite concat_plug in HNL. rewrite <- !app_assoc in HNL. by rewrite app_assoc in HNL. }
  assert (Hw : weak order (S n) (is_nil C) Lo Hi t').
  { split; [|unfold t'; cbn [tsize tmin]; rewrite length_app in *; cbn in *; lia]. apply (segs_one _ Lo ka a b); [done|done| |lia|done].
    apply ok_shape. split; [done|lia]. }
  destruct (IH h2 t' HA2 R2 ltac:(by apply (repctx_frame order (nodes h)); [intros y Hy; apply HDr; rewrite !elem_of_app; tauto|]) HDt Hw
    ltac:(rewrite Hroot; by apply addr_plug) HLk2) as (root' & h3 & Hrun3 & HA3 & Hrec3 & Hfr3 & Hres).
  assert (HqW : addr tr ∉ addrs (plug C t')) by (rewrite addrs_plug; exact Hq).
  assert (Hq3 : nodes h3 !! addr tr = N' !! addr tr).
  { rewrite Hfr3 by done. cbn. apply lookup_insert_ne. tauto. }
  destruct (free_node_spec h3 (addr tr) HA3) as (h4 & Hrun4 & HN4 & Hrec4 & HA4); [by rewrite Hq3|].
  assert (HPW : addrs W ≡ₚ addr tr :: addrs (plug C t')).
  { rewrite !addrs_plug. unfold t'. cbn [addrs]. rewrite concat_plug, (app_assoc (addrs tl)), <- HP, map_app, concat_app. cbn [map concat]. solve_Permutation. }
  assert (Hfl : flatten (plug C t') = flatten W).
  { rewrite !flatten_plug. do 2 f_equal. unfold t'. cbn [flatten]. rewrite concat_plug, map_app, concat_app. cbn [map concat]. by rewrite Fm, <- app_assoc. }
  exists root', h4. split.
  { rewrite (bindM _ _ _ root' h3).
    - by rewrite (bindM _ _ _ _ _ Hrun4).
    - rewrite Hdel. rewrite (bindM _ _ _ _ _ Hrm). exact Hrun3. }
  split; [done|]. split; [by rewrite Hrec4, Hrec3|]. split.
  - intros y Hy. rewrite HPW in Hy. elems Hy. rewrite HN4, lookup_delete_ne by (intros <-; tauto). rewrite Hfr3 by tauto.
    rewrite addrs_plug in Hy. unfold t' in Hy. cbn [addrs] in Hy. rewrite map_app, concat_app in Hy. cbn [map concat] in Hy. elems Hy.
    apply Hfr2; [intros ->; tauto|tauto|tauto].
  - rewrite <- Hfl. destruct Hres as [[-> Hres]|(T & m & HT & HFT & Hsub & HLT)]; [by left|right].
    assert (Hd : forall y, y ∈ addrs T -> nodes h4 !! y = nodes h3 !! y).
    { intros y Hy. rewrite HN4. apply lookup_delete_ne. intros <-. by apply HqW, Hsub. }
    exists T, m. split_and!; try done.
    + destruct HT. split; try done. by apply (rep_frame order (nodes h3)).
    + intros y Hy. rewrite HPW. right. by apply Hsub.
    + eapply linked_frame; [|exact HLT]. intros y ny Hy Ey Ly. exists ny. rewrite Hd by by apply leaves_addrs. done.
Qed.
End Level.

(** ** The whole path *)

Lemma neighbor_index_spec q ta : forall pre rest n, q ∉ ta -> (length ta < n)%nat ->
  neighbor_index_from (pre ++ ta ++ q :: rest) q n (length pre) = Val (u64 (Z.of_nat (length pre + length ta) - 1)).
Proof using.
  clear Ho SL. induction ta as [|x ta IH]; intros pre rest n Hn Hlt; (destruct n as [|n]; [cbn in Hlt; lia|]);
    cbn [neighbor_index_from app length].
  - rewrite aget_middle by done. cbn [mbind cres_bind]. by rewrite Z.eqb_refl, Nat.add_0_r.
  - apply not_elem_of_cons in Hn as [Hne Hn]. rewrite aget_middle by done. cbn [mbind cres_bind].
    rewrite (proj2 (Z.eqb_neq _ _)) by done.
    replace (pre ++ x :: ta ++ q :: rest) with ((pre ++ [x]) ++ ta ++ q :: rest) by by rewrite <- app_assoc.
    replace (S (length pre)) with (length (pre ++ [x])) by (rewrite length_app; cbn; lia).
    rewrite IH by (done || (cbn in Hlt; lia)). do 3 f_equal. rewrite length_app. cbn. lia.
Qed.

Lemma shape_kind n lo hi t : shape order n lo hi t ->
  (if is_leaf_tree t then cut (order - 1) else (cut order - 1)%nat) = tmin order n false /\
  (if is_leaf_tree t then order else (order - 1)%nat) = (order - match n with O => 0 | S _ => 1 end)%nat.
Proof using. clear Ho SL. destruct n, t; try done; intros _; cbn; split; (done || lia). Qed.

Context (Hw : Z.of_nat order < w64).

Lemma after_removal_shrunk C : forall fuel h t n lo hi root, alloc_inv h -> rep order (nodes h) (top C) t ->
  repctx order (nodes h) (addr t) C -> NoDup (addrs t ++ caddrs C) -> okctx order n lo hi C -> lo < hi ->
  weak order n (is_nil C) lo hi t -> root = addr (plug C t) -> root <> 0 -> linked order (nodes h) (leaves (plug C t)) 0 ->
  (length C <= fuel)%nat -> shrunk h (plug C t) (after_removal order (delete_entry order fuel) root (addr t) h).
Proof using SL Ho Hw.
  induction C as [|F C IH]; intros fuel h t n lo hi root HA HR HC HND HO Hlt Hwk Hroot Hnz HL Hf.
  - cbn [plug caddrs map concat top is_nil] in *. rewrite app_nil_r in HND. destruct HO as [-> ->]. subst root.
    unfold after_removal. rewrite Z.eqb_refl. by apply (adjust_root_shrunk h t n).
  - assert (Hne : addr t <> root).
    { intros Heq. apply NoDup_app in HND as (_ & Hd & _). apply (Hd (addr t) (addr_in t)). rewrite Heq, Hroot. by apply addr_plug_in. }
    unfold after_removal at 1. rewrite (proj2 (Z.eqb_neq _ _)) by done.
    destruct (rep_node _ _ _ HR) as (nd & E & Hlf & Hnum & Hpar). rewrite (bind_load _ nd) by done. cbv zeta.
    destruct Hwk as [HS Hsz]. destruct (shape_kind n lo hi t HS) as [Hmin Hcap]. rewrite Hlf, Hmin, Hnum, Hcap, Hpar. cbn [is_nil top] in *.
    destruct (tmin order n false <=? tsize t)%nat eqn:Es.
    { apply Nat.leb_le in Es. exists root, h. split_and!; try done. right. exists (plug (F :: C) t), (n + length (F :: C))%nat.
      split_and!; try done. split; try done.
      - by apply rep_plug.
      - eapply plug_ok; [exact HO|lia|]. apply ok_shape. split; [done|]. cbn [is_nil]. lia.
      - by rewrite addrs_plug. }
    apply Nat.leb_gt in Es.
    destruct (hole_pair order Ho n lo hi F C t HO Hlt HS) as (Lo & Hi & ka & k & kb & ta & tl & tr & tb & a & b & HO' & Ha & Hb & Hab & S1 & S2 & Hka & Hta & HLH & Ek & Et & Hlen & Hcase).
    pose proof (okctx_frame _ _ _ _ _ _ HO) as [Hf1 Hf2].
    assert (HRp : rep order (nodes h) (top C) (Node (f_ptr F) (ka ++ k :: kb) (ta ++ tl :: tr :: tb))).
    { rewrite <- Ek, <- Et. destruct HC as (HF & H1 & H2 & HC). split; [by rewrite map_app|]. apply allP_app. split; [done|]. by split. }
    assert (HCp : repctx order (nodes h) (f_ptr F) C) by (by destruct HC as (_ & _ & _ & HC)).
    assert (HNDp : NoDup (addrs (Node (f_ptr F) (ka ++ k :: kb) (ta ++ tl :: tr :: tb)) ++ caddrs C)).
    { assert (HP : addrs (Node (f_ptr F) (ka ++ k :: kb) (ta ++ tl :: tr :: tb)) ++ caddrs C ≡ₚ addrs t ++ caddrs (F :: C)).
      { rewrite <- Et. cbn [addrs]. rewrite map_app, concat_app, caddrs_cons. cbn [map concat]. unfold frame_addrs. solve_Permutation. }
      by rewrite HP. }
    assert (HW : plug (F :: C) t = plug C (Node (f_ptr F) (ka ++ k :: kb) (ta ++ tl :: tr :: tb))) by by rewrite <- Ek, <- Et.
    rewrite HW in *. destruct (pair_reps h C (f_ptr F) ka k kb ta tl tr tb HRp) as (Rl & Rr & _ & _ & np & Ep & HI).
    destruct (in_keys _ _ _ _ _ HI) as [jk Ejk]. destruct (in_pointers _ _ _ _ _ HI) as [jp Ejp].
    destruct (rep_node _ _ _ Rl) as (nl & El & _ & Hnl & _). destruct (rep_node _ _ _ Rr) as (nr & Er & _ & Hnr & _).
    assert (Hidx : get_neighbor_index (addr t) h = Val (u64 (Z.of_nat (length (ts1 F)) - 1), h)).
    { unfold get_neighbor_index. rewrite (bind_load _ nd) by done. rewrite Hpar, (bind_load _ np) by done. unfold lift.
      rewrite Ejp, <- Et, map_app, <- app_assoc. cbn [map app].
      pose proof (neighbor_index_spec (addr t) (map addr (ts1 F)) [] (map addr (ts2 F) ++ jp) (S (num_keys np))) as HX.
      cbn [app length Nat.add] in HX. rewrite length_map in HX. rewrite HX; [done| |rewrite (in_num _ _ _ _ _ HI), <- Ek, length_app; lia].
      intros Hin. apply list_elem_of_fmap in Hin as (u & Hu & Hin). apply NoDup_app in HND as (_ & Hd & _).
      apply (Hd (addr t) (addr_in t)). rewrite Hu, caddrs_cons. apply elem_of_app. left. right. apply elem_of_app. left.
      apply elem_of_concat_map. exists u. split; [done|apply addr_in]. }
    rewrite (bindM _ _ _ _ _ Hidx). rewrite (bind_load _ np) by done.
    pose proof (tmin_pos order Ho n false) as Hpos. pose proof (cut_bounds order) as Hc1. pose proof (cut_bounds (order - 1)) as Hc2.
    assert (Htm : (2 * tmin order n false <= order - match n with O => 0 | S _ => 1 end)%nat).
    { destruct n; cbn [tmin]; unfold leaf_min, node_min; lia. }
    assert (IH' : forall h2 t', alloc_inv h2 -> rep order (nodes h2) (top C) t' -> repctx order (nodes h2) (addr t') C ->
        NoDup (addrs t' ++ caddrs C) -> weak order (S n) (is_nil C) Lo Hi t' -> root = addr (plug C t') ->
        linked order (nodes h2) (leaves (plug C t')) 0 ->
        shrunk h2 (plug C t') (after_removal order (delete_entry order (fuel - 1)) root (addr t') h2)).
    { intros h2 t' A1 A2 A3 A4 A5 A6 A7. apply (IH (fuel - 1)%nat h2 t' (S n) Lo Hi root); try done. cbn in Hf. lia. }
    assert (Hdel : forall h0 q, delete_entry order fuel root (f_ptr F) k q h0 =
        (m ← remove_entry_from_node order (f_ptr F) k q; after_removal order (delete_entry order (fuel - 1)) root m) h0).
    { intros h0 q. destruct fuel as [|fuel]; [cbn in Hf; lia|]. cbn [delete_entry]. by rewrite Nat.sub_1_r. }
    destruct Hcase as [(-> & E1 & -> & -> & Hok)|(-> & E1 & Hok)]; apply ok_shape in Hok as [_ Hok].
    + rewrite E1. cbn [length]. change (u64 (Z.of_nat 0 - 1)) with ULONG_MAX. rewrite Z.eqb_refl.
      cbn [app map] in Ejk, Ejp. rewrite (bind_lift _ _ _ k) by by rewrite Ejk. rewrite (bind_lift _ _ _ (addr tr)) by by rewrite Ejp.
      rewrite (bind_load _ nr) by done. rewrite Hnr. destruct (tsize tr + tsize t <? _)%nat eqn:Ec.
      * apply Nat.ltb_lt in Ec. eapply (coalesced_shrunk h C (f_ptr F) [] k kb [] t tr tb HRp HCp HNDp n Lo Hi a b root); try done.
        destruct n; lia.
      * apply Nat.ltb_ge in Ec.
        eapply (redistributed_shrunk h C (f_ptr F) [] k kb [] t tr tb HRp HCp HNDp n Lo Hi a b root) with (sl := S (tsize t)) (sr := (tsize tr - 1)%nat); try done.
        -- apply redistribute_right_spec; try done; destruct n; lia.
        -- destruct n; lia.
        -- destruct n; lia.
    + rewrite E1. replace (Z.of_nat (S (length ka)) - 1) with (Z.of_nat (length ka)) by lia.
      assert (Hni : u64 (Z.of_nat (length ka)) = Z.of_nat (length ka)).
      { unfold u64. apply Z.mod_small. rewrite length_app in Hlen. lia. }
      rewrite Hni. assert (Hnm : Z.of_nat (length ka) <> ULONG_MAX).
      { unfold ULONG_MAX. rewrite length_app in Hlen. cbn in Hlen. lia. }
      rewrite (proj2 (Z.eqb_neq _ _)) by done. rewrite Nat2Z.id.
      rewrite (bind_lift _ _ _ k) by (rewrite Ejk, <- app_assoc; by apply aget_middle).
      rewrite (bind_lift _ _ _ (addr tl)).
      2: { rewrite Ejp, map_app, <- app_assoc. cbn [map app]. apply aget_middle. by rewrite length_map. }
      rewrite (bind_load _ nl) by done. rewrite Hnl. destruct (tsize tl + tsize t <? _)%nat eqn:Ec.
      * apply Nat.ltb_lt in Ec. eapply (coalesced_shrunk h C (f_ptr F) ka k kb ta tl t tb HRp HCp HNDp n Lo Hi a b root); try done.
        -- by rewrite (proj2 (Z.eqb_neq _ _)).
        -- destruct n; lia.
      * apply Nat.ltb_ge in Ec.
        eapply (redistributed_shrunk h C (f_ptr F) ka k kb ta tl t tb HRp HCp HNDp n Lo Hi a b root) with (sl := (tsize tl - 1)%nat) (sr := S (tsize t)); try done.
        -- apply redistribute_left_spec; try done; destruct n; lia.
        -- destruct n; lia.
        -- destruct n; lia.
Qed.

(** ** The map *)

Lemma find_entry h root T n key : tree_at order h root T n -> 0 <= key < w64 -> key ∈ map fst (flatten T) ->
  exists C p ea r eb a b, find root key h = Val ((r, p), h) /\ T = plug C (Leaf p (ea ++ (key, r) :: eb)) /\
    okctx order 0 a b C /\ ok order 0 (is_nil C) a b (Leaf p (ea ++ (key, r) :: eb)) /\ a <= key < b /\
    rep order (nodes h) (top C) (Leaf p (ea ++ (key, r) :: eb)) /\ repctx order (nodes h) p C /\ length C = n.
Proof using.
  clear Ho SL Hw. intros HT Hk Hin.
  destruct (find_leaf_spec order h root T n key HT Hk) as (C & p & es & a & b & Hrun & HTe & HC & HO & Hab & HR & HRC & Hlen).
  destruct HT as [_ _ _ _ Hnull]. subst T. rewrite flatten_plug in Hin. cbn [flatten] in Hin. rewrite !map_app in Hin. elems Hin.
  destruct (not_around order _ _ _ _ key HC Hab) as [Hn1 Hn2]. assert (Hes : key ∈ map fst es) by tauto.
  pose proof HR as (nd & E & HL). destruct (ln_keys _ _ _ _ HL) as [j Ej]. destruct (ln_pointers _ _ _ _ HL) as [j' Ej'].
  destruct (key_index_spec key es [] j) as (i & Hi & Hle & Hm). cbn [app length Nat.add] in Hi.
  destruct (es !! i) as [[k r]|] eqn:Ei; [subst k|done]. pose proof (take_drop_middle _ _ _ Ei) as Hes'.
  exists C, p, (take i es), r, (drop (S i) es), a, b. rewrite Hes'. split; [|by do 6 (split; [done|])].
  unfold find. rewrite (proj2 (Z.eqb_neq _ _)) by done. rewrite (bindM _ _ _ _ _ Hrun), (bind_load p nd) by done.
  rewrite (bind_lift _ _ _ i) by by rewrite Ej, (ln_num _ _ _ _ HL).
  rewrite (ln_num _ _ _ _ HL), (proj2 (Nat.eqb_neq _ _)) by (pose proof (lookup_lt_Some _ _ _ Ei); lia).
  rewrite (bind_lift _ _ _ r); [done|]. rewrite Ej'. apply aget_spec. pose proof (lookup_lt_Some _ _ _ Ei).
  rewrite lookup_app_l by (rewrite length_map; lia). change (map snd es) with (snd <$> es). by rewrite list_lookup_fmap, Ei.
Qed.

Lemma records_ok_delete rs e1 e2 m key r : records_ok rs (e1 ++ (key, r) :: e2) m -> NoDup (map fst (e1 ++ (key, r) :: e2)) ->
  records_ok (base.delete r rs) (e1 ++ e2) (base.delete key m).
Proof using.
  clear Ho SL Hw. intros [HN HL HM] HK.
  assert (HP : e1 ++ (key, r) :: e2 ≡ₚ (key, r) :: e1 ++ e2) by (symmetry; apply Permutation_middle).
  rewrite HP in HN, HK. cbn in HN, HK. apply NoDup_cons in HN as [Hr HN]. apply NoDup_cons in HK as [Hk HK].
  assert (Hne : forall k' r', (k', r') ∈ e1 ++ e2 -> k' <> key /\ r' <> r).
  { intros k' r' Hin. split; intros ->; [apply Hk|apply Hr].
    - change key with (fst (key, r')). by apply in_map_fst.
    - change (map snd (e1 ++ e2)) with (snd <$> (e1 ++ e2)). change r with (snd (k', r)). by apply list_elem_of_fmap_2. }
  split; [done| |].
  - intros k' r' Hin. destruct (Hne _ _ Hin). rewrite lookup_delete_ne by done. apply (HL k'). rewrite HP. by right.
  - intros k' v'. destruct (decide (k' = key)) as [->|Hk'].
    + rewrite lookup_delete_eq. split; [done|]. intros (r' & Hin & _). by destruct (Hne _ _ Hin).
    + rewrite lookup_delete_ne, HM by done. split; intros (r' & Hin & E).
      * rewrite HP in Hin. apply elem_of_cons in Hin as [[= -> ->]|Hin]; [done|]. destruct (Hne _ _ Hin). exists r'. by rewrite lookup_delete_ne.
      * destruct (Hne _ _ Hin). exists r'. rewrite lookup_delete_ne in E by done. split; [|done]. rewrite HP. by right.
Qed.

Lemma delete_represents h root m key : represents order h root m -> 0 <= key < w64 ->
  exists root' h', BTreeDelete.delete order root key h = Val (root', h') /\ represents order h' root' (base.delete key m).
Proof using SL Ho Hw.
  intros HRp Hk. destruct (m !! key) as [v|] eqn:Em.
  2: { destruct (find_represents order h root m key HRp Hk) as (r & leaf & Hf & Hr). rewrite Em in Hr. subst r.
       exists root, h. rewrite delete_id by done. split; [|done]. unfold BTreeDelete.delete. by rewrite (bindM _ _ _ _ _ Hf). }
  destruct HRp as [(-> & -> & _)|(T & n & [HA HT HL HR])]; [by rewrite lookup_empty in Em|].
  destruct (proj1 (ro_map _ _ _ HR key v) Em) as (r0 & Hin0 & _).
  pose proof (keys_nodup order _ _ _ _ _ (at_ok _ _ _ _ _ HT)) as HKN.
  destruct (find_entry h root T n key HT Hk (in_map_fst _ _ Hin0)) as (C & p & ea & r & eb & a & b & Hf & HTe & HC & HO & Hab & HRl & HRC & Hlen).
  pose proof (tree_fuel order h root T n HT) as [Hfuel _]. destruct HT as [_ Hroot _ HN Hnz]. subst T.
  rewrite addrs_plug in HN. pose proof HRl as (nd & E & HLn).
  assert (Hp : p <> 0) by (apply (alloc_inv_pos h); [done|by eexists]).
  rewrite flatten_plug in HR, HKN. cbn [flatten] in HR, HKN.
  assert (Hr : is_Some (records h !! r)).
  { apply (ro_live _ _ _ HR key). rewrite !elem_of_app, elem_of_cons. tauto. }
  assert (Hr0 : r <> 0) by by apply (rec_pos h).
  unfold BTreeDelete.delete. rewrite (bindM _ _ _ _ _ Hf). rewrite !(proj2 (Z.eqb_neq _ 0)) by done. cbn [negb andb].
  assert (HKl : key ∉ map fst ea /\ r ∉ map snd ea).
  { pose proof (ro_nodup _ _ _ HR) as HRN. rewrite !map_app in HKN, HRN. cbn [map] in HKN, HRN.
    apply NoDup_app in HKN as (_ & _ & HKN). apply NoDup_app in HKN as (HKN & _ & _).
    apply NoDup_app in HRN as (_ & _ & HRN). apply NoDup_app in HRN as (HRN & _ & _).
    apply NoDup_app in HKN as (_ & HK & _). apply NoDup_app in HRN as (_ & HRD & _).
    split; intros Hin; [apply (HK _ Hin)|apply (HRD _ Hin)]; by left. }
  destruct HKl as [Hkl Hrl]. destruct HO as (HI & HF & Hsz).
  destruct (remove_leaf order h p (top C) ea key r eb nd E HLn Hkl Hrl ltac:(lia)) as (nd' & Hrm & HLn' & Hnx).
  set (h1 := set_nodes h (<[p := nd']> (nodes h))) in *. set (t := Leaf p (ea ++ eb)).
  assert (HA1 : alloc_inv h1) by by eapply alloc_inv_store. cbn [addrs app] in HN. pose proof HN as HN'. apply NoDup_cons in HN' as [HpC _].
  assert (HS : shrunk h1 (plug C t) (after_removal order (delete_entry order (size (nodes h))) root (addr t) h1)).
  { apply (after_removal_shrunk C (size (nodes h)) h1 t 0 a b root); try done.
    - exists nd'. split; [cbn; apply lookup_insert_eq|done].
    - apply (repctx_frame order (nodes h)); [|done]. intros x Hx. cbn. apply lookup_insert_ne. by intros <-.
    - lia.
    - rewrite map_app in HI, HF. cbn [map fst] in HI, HF. apply incr_app in HI as (I1 & I2 & I3). apply incr_cons in I2 as [_ I2].
      apply Forall_app in HF as [F1 F2]. apply Forall_cons in F2 as [_ F2].
      split; [|unfold t; cbn [tsize tmin]; rewrite length_app in *; cbn [length] in Hsz; lia]. split; rewrite map_app; [|by apply Forall_app].
      apply incr_app. split_and!; [done|done|]. intros x y Hx Hy. apply I3; [done|by right].
    - rewrite <- Hroot. by apply addr_plug.
    - assert (Hlv : leaves (plug C t) = leaves (plug C (Leaf p (ea ++ (key, r) :: eb)))) by by rewrite !leaves_plug.
      rewrite Hlv. apply (linked_same (nodes h)); [|done]. apply (same_links_insert _ p nd); [done|]. intros _. split; [apply HLn'|done].
    - unfold fuel_of in Hfuel. lia. }
  destruct HS as (root' & h2 & Hrun2 & HA2 & Hrec2 & _ & Hres).
  destruct (free_record_spec h2 r HA2) as (h3 & Hrun3 & HN3 & Hrec3 & HA3); [by rewrite Hrec2|].
  exists root', h3. split.
  { rewrite (bindM _ _ _ root' h2); [by rewrite (bindM _ _ _ _ _ Hrun3)|]. unfold with_fuel, fuel_of. cbn [delete_entry].
    rewrite (bindM _ _ _ _ _ Hrm). exact Hrun2. }
  assert (HRd : records_ok (records h3) (flatten (plug C t)) (base.delete key m)).
  { rewrite Hrec3, Hrec2, flatten_plug. cbn [flatten t].
    replace (before flatten C ++ (ea ++ eb) ++ after flatten C) with ((before flatten C ++ ea) ++ eb ++ after flatten C) by by rewrite <- !app_assoc.
    replace (before flatten C ++ (ea ++ (key, r) :: eb) ++ after flatten C) with ((before flatten C ++ ea) ++ (key, r) :: eb ++ after flatten C)
      in HR, HKN by by rewrite <- !app_assoc.
    by apply records_ok_delete. }
  destruct Hres as [[-> Hempty]|(T & n' & HT' & HFT & _ & HLT)].
  - left. split; [done|]. split; [|done]. rewrite Hempty in HRd. apply map_empty. intros k'. apply eq_None_not_Some. intros [v' Hv'].
    apply (ro_map _ _ _ HRd) in Hv' as (r' & Hin & _). by apply elem_of_nil in Hin.
  - right. exists T, n'. split; [done|by apply (tree_at_records order h2)|by rewrite HN3|by rewrite HFT].
Qed.
End DeleteMap.
