(* ===== verification/BTreeSpec.v ===== *)
(** * What the B+ tree of the btree workload promises

    Sequences of insertions, deletions and look-ups, from the empty tree,
    against a map; the shape of the tree; range queries. *)
From S2P Require Export BTreeDeleteMap.

(** ** Sequences of operations *)

Inductive op := Insert (key value : Z) | Delete (key : Z) | Lookup (key : Z).
Definition op_ok (o : op) : Prop := match o with Insert k _ | Delete k | Lookup k => 0 <= k < w64 end.

Section Run.
Context `{Slabs} (order : nat).

(** The tree's root and the answer. *)
Definition step (root : Z) (o : op) : M (Z * option Z) :=
  match o with
  | Insert k v => root ← insert order root k v; mret (root, None)
  | Delete k => root ← BTreeDelete.delete order root k; mret (root, None)
  | Lookup k => '(r, _) ← find root k; if r =? 0 then mret (root, None) else v ← load_record r; mret (root, Some v)
  end.
Fixpoint run (root : Z) (os : list op) : M (Z * list (option Z)) :=
  match os with
  | [] => mret (root, [])
  | o :: os => '(root, a) ← step root o; '(root, l) ← run root os; mret (root, a :: l)
  end.
End Run.

Definition map_step (m : gmap Z Z) (o : op) : gmap Z Z * option Z :=
  match o with Insert k v => (<[k := v]> m, None) | Delete k => (base.delete k m, None) | Lookup k => (m, m !! k) end.
Fixpoint map_run (m : gmap Z Z) (os : list op) : gmap Z Z * list (option Z) :=
  match os with
  | [] => (m, [])
  | o :: os => let '(m, a) := map_step m o in let '(m, l) := map_run m os in (m, a :: l)
  end.

Section Refines.
Context `{SL : SlabsLaws} (order : nat) (Ho : (3 <= order)%nat) (Hw : Z.of_nat order < w64).

Lemma ops_represent os : forall h root m, represents order h root m -> Forall op_ok os ->
  exists root' h', run order root os h = Val ((root', snd (map_run m os)), h') /\ represents order h' root' (fst (map_run m os)).
Proof using SL Ho Hw.
  induction os as [|o os IH]; intros h root m HR HF; [by exists root, h|]. apply Forall_cons in HF as [Hk HF]. cbn [run].
  assert (exists root1 h1, step order root o h = Val ((root1, snd (map_step m o)), h1) /\ represents order h1 root1 (fst (map_step m o)))
    as (root1 & h1 & E1 & HR1).
  { destruct o as [k v|k|k]; cbn [step map_step fst snd].
    - destruct (insert_represents order Ho h root m k v HR Hk) as (root1 & h1 & E1 & HR1). exists root1, h1.
      by rewrite (bindM _ _ _ _ _ E1).
    - destruct (delete_represents order Ho Hw h root m k HR Hk) as (root1 & h1 & E1 & HR1). exists root1, h1.
      by rewrite (bindM _ _ _ _ _ E1).
    - destruct (find_represents order h root m k HR Hk) as (r & leaf & E & Hm). exists root, h. rewrite (bindM _ _ _ _ _ E).
      split; [|done]. destruct (m !! k) as [v|]; [|by subst r]. destruct Hm as [Hr Hv]. rewrite (proj2 (Z.eqb_neq _ _)) by done.
      rewrite (bindM _ _ _ v h); [done|]. unfold load_record. by rewrite Hv. }
  rewrite (bindM _ _ _ _ _ E1). destruct (IH h1 root1 _ HR1 HF) as (root2 & h2 & E2 & HR2). exists root2, h2.
  rewrite (bindM _ _ _ _ _ E2). cbn [map_run]. destruct (map_step m o) as [m1 a]. cbn [fst snd] in *.
  by destruct (map_run m1 os) as [m2 l].
Qed.

Lemma run_from_empty os : Forall op_ok os -> exists root h,
  run order 0 os empty_heap = Val ((root, snd (map_run ∅ os)), h) /\ represents order h root (fst (map_run ∅ os)).
Proof using SL Ho Hw. apply ops_represent. left. split_and!; [done|done|apply alloc_inv_empty]. Qed.
End Refines.

(** ** What the tree promises *)

Section Promises.
Context `{SL : SlabsLaws} (order : nat) (Ho : (3 <= order)%nat).

Lemma filter_incr (f : Z * Z -> bool) l : incr (map fst l) = true -> incr (map fst (List.filter f l)) = true.
Proof using.
  clear Ho. induction l as [|x l IH]; [done|]. cbn [map]. intros [H1 H2]%incr_cons. cbn [List.filter].
  destruct (f x); [|by apply IH]. cbn [map]. apply incr_cons. split; [|by apply IH]. intros y Hy. apply H1.
  apply list_elem_of_fmap in Hy as (z & -> & Hz). apply list_elem_of_In, filter_In in Hz as [Hz _].
  apply in_map_fst. by apply list_elem_of_In.
Qed.

(** The entries [l] are those of [m] with keys from [s] to [e]. *)
Definition range_of (h : heap) (m : gmap Z Z) (s e : Z) (l : list (Z * Z)) : Prop :=
  forall k v, (m !! k = Some v /\ s <= k <= e) <-> exists r, (k, r) ∈ l /\ records h !! r = Some v.

Lemma find_range_represents h root m s e : represents order h root m -> 0 <= s < w64 ->
  exists l, find_range order root s e h = Val (l, h) /\ incr (map fst l) = true /\
    (l = [] \/ range_of h m s e l) /\ (is_Some (m !! s) -> range_of h m s e l).
Proof using SL Ho.
  intros [(-> & -> & _)|(T & n & HTM)] Hs.
  - exists []. split_and!; [done|done|by left|]. rewrite lookup_empty. by intros [? ?].
  - destruct (find_range_spec order Ho h root T n m s e HTM Hs) as (C & p & es & HTe & _ & Hin_leaf & Hrun).
    pose proof HTM as [HA HT _ HR]. pose proof (at_ok _ _ _ _ _ HT) as HO. pose proof (ok_sorted _ _ _ _ _ _ HO) as [HI _].
    assert (Hall : range_of h m s e (List.filter (in_range s e) (flatten T))).
    { intros k v. rewrite (ro_map _ _ _ HR). setoid_rewrite list_elem_of_In at 2. setoid_rewrite filter_In.
      setoid_rewrite <- list_elem_of_In. unfold in_range. cbn [fst]. split.
      - intros [(r & Hin & E) Hk]. exists r. split; [split; [done|]|done]. apply andb_true_intro; split; apply Z.leb_le; lia.
      - intros (r & [Hin Hb] & E). apply andb_prop in Hb as [? ?]. zbool. split; [by exists r|lia]. }
    eexists. split; [exact Hrun|]. split; [destruct (existsb _ es); [by apply filter_incr|done]|].
    split; [destruct (existsb _ es); [by right|by left]|]. intros [v Hv]. destruct (existsb _ es) eqn:Ee; [done|exfalso].
    apply HR in Hv as (r & Hin & _).
    apply not_true_iff_false in Ee. apply Ee. assert (Hse : s ∈ map fst es) by exact (Hin_leaf (in_map_fst _ _ Hin)).
    apply list_elem_of_fmap in Hse as (x & Hx & Hxin). apply existsb_exists. exists x. split; [by apply list_elem_of_In|].
    apply Z.leb_le. lia.
Qed.
End Promises.

(** What a computation answers from the empty store. *)
Definition result_of {A} (c : M A) : cres A := '(a, _) ← c empty_heap; Val a.

(** Slabs at multiples of twice their size. *)
Definition spread_slabs : Slabs := {|
  node_slab i := (2 * Z.of_nat i + 2) * SLAB_GROW;
  rec_slab i := (2 * Z.of_nat i + 2) * SLAB_GROW
|}.
Lemma spread_laws : SlabsLaws spread_slabs.
Proof. split; cbn [node_slab rec_slab spread_slabs]; unfold SLAB_GROW; intros; lia. Qed.

(** C11. The tree stands for a map: from the empty tree, whatever the sequence
    of insertions, deletions and look-ups and wherever the allocator puts its slabs, the
    code runs to its end, with no access outside a node or through a dangling
    pointer, and answers as the map of keys to values does, through all the
    splits of leaves, nodes and roots, the merging of neighbors and the moving
    of entries between them; inserting a key again replaces its value. *)
Theorem btree_refines_map `{SL : SlabsLaws} (order : nat) (os : list op) : (3 <= order)%nat -> Z.of_nat order < w64 -> Forall op_ok os ->
  exists root h, run order 0 os empty_heap = Val ((root, snd (map_run ∅ os)), h).
Proof. intros Ho Hw HF. destruct (run_from_empty order Ho Hw os HF) as (root & h & HR & _). by exists root, h. Qed.

Definition demo : list op :=
  [Lookup 7; Insert 10 1; Insert 20 2; Insert 30 3; Insert 40 4; Insert 50 5; Insert 25 6; Insert 26 7; Insert 27 8;
   Insert 28 9; Insert 5 10; Insert 60 11; Insert 20 12; Delete 30; Delete 40; Delete 99; Delete 60; Delete 50; Delete 10;
   Lookup 20; Lookup 27; Lookup 29; Lookup 30].

Lemma demo_ok : Forall op_ok demo.
Proof. unfold demo. repeat (apply Forall_cons_2; [cbn; lia|]). apply Forall_nil_2. Qed.

Lemma btree_refines_map_witness : (3 <= 4)%nat /\ Forall op_ok demo /\
  (exists root h, run (H := spread_slabs) 4 0 demo empty_heap = Val ((root, snd (map_run ∅ demo)), h)) /\
  drop 19 (snd (map_run ∅ demo)) = [Some 12; Some 8; None; None].
Proof.
  split; [lia|]. split; [exact demo_ok|]. split; [|vm_compute; reflexivity].
  exact (btree_refines_map (SL := spread_laws) 4 demo ltac:(lia) ltac:(lia) demo_ok).
Defined.

(** C31. The tree stays balanced: after any insertions and deletions, every leaf is at the
    height of the tree, as [height] and [path_to_root] compute them, and a
    tree of height [n] > 0 holds at least
    2 * cut(order - 1) * cut(order)^(n - 1) keys, so the height is logarithmic
    in the number of keys. *)
Theorem btree_balanced `{SL : SlabsLaws} (order : nat) (os : list op) (m : gmap Z Z) : (3 <= order)%nat -> Z.of_nat order < w64 -> Forall op_ok os ->
  fst (map_run ∅ os) = m -> m <> ∅ ->
  exists root h n, run order 0 os empty_heap = Val ((root, snd (map_run ∅ os)), h) /\ height root h = Val (n, h) /\
    (forall key, 0 <= key < w64 -> exists leaf, find_leaf root key h = Val (leaf, h) /\ path_to_root root leaf h = Val (n, h)) /\
    (n = 0%nat \/ (2 * cut (order - 1) * cut order ^ (n - 1) <= size m)%nat).
Proof.
  intros Ho Hw HF <- Hm. destruct (run_from_empty order Ho Hw os HF) as (root & h & Hrun & HR).
  destruct (represents_shape order Ho h root _ HR Hm) as (n & Hn). by exists root, h, n.
Qed.

Lemma btree_balanced_witness : (3 <= 4)%nat /\ Forall op_ok demo /\ fst (map_run ∅ demo) <> ∅ /\
  exists root h n, run (H := spread_slabs) 4 0 demo empty_heap = Val ((root, snd (map_run ∅ demo)), h) /\ height root h = Val (n, h) /\
    (forall key, 0 <= key < w64 -> exists leaf, find_leaf root key h = Val (leaf, h) /\ path_to_root root leaf h = Val (n, h)) /\
    (n = 0%nat \/ (2 * cut (4 - 1) * cut 4 ^ (n - 1) <= size (fst (map_run ∅ demo)))%nat).
Proof.
  assert (Hne : fst (map_run ∅ demo) <> ∅) by (intros Heq; apply (f_equal size) in Heq; vm_compute in Heq; discriminate).
  split; [lia|]. split; [exact demo_ok|]. split; [exact Hne|].
  exact (btree_balanced (SL := spread_laws) 4 demo _ ltac:(lia) ltac:(lia) demo_ok eq_refl Hne).
Defined.

(** A range query answers distinct keys in increasing order, and either
    nothing or exactly the keys of the map in the range with their records; it
    is never empty-handed when the first key of the range is in the map. *)
Theorem find_range_entries `{SL : SlabsLaws} (order : nat) (os : list op) (s e : Z) : (3 <= order)%nat -> Z.of_nat order < w64 -> Forall op_ok os ->
  0 <= s < w64 ->
  exists root h l, run order 0 os empty_heap = Val ((root, snd (map_run ∅ os)), h) /\
    find_range order root s e h = Val (l, h) /\ incr (map fst l) = true /\
    (l = [] \/ range_of h (fst (map_run ∅ os)) s e l) /\
    (is_Some (fst (map_run ∅ os) !! s) -> range_of h (fst (map_run ∅ os)) s e l).
Proof.
  intros Ho Hw HF Hs. destruct (run_from_empty order Ho Hw os HF) as (root & h & Hrun & HR).
  destruct (find_range_represents order Ho h root _ s e HR Hs) as (l & Hl). by exists root, h, l.
Qed.

Lemma find_range_entries_witness : (3 <= 4)%nat /\ Forall op_ok demo /\ 0 <= 20 < w64 /\
  exists root h l, run (H := spread_slabs) 4 0 demo empty_heap = Val ((root, snd (map_run ∅ demo)), h) /\
    find_range 4 root 20 27 h = Val (l, h) /\ incr (map fst l) = true /\
    (l = [] \/ range_of h (fst (map_run ∅ demo)) 20 27 l) /\
    (is_Some (fst (map_run ∅ demo) !! 20) -> range_of h (fst (map_run ∅ demo)) 20 27 l).
Proof.
  split; [lia|]. split; [exact demo_ok|]. split; [lia|].
  exact (find_range_entries (SL := spread_laws) 4 demo 20 27 ltac:(lia) ltac:(lia) demo_ok ltac:(lia)).
Defined.

(** A range query that starts above the last key of its first leaf finds
    nothing, even when the next leaf has keys in the range: with 10, 20, 30
    and 40 in a tree of order 4, the range from 25 to 35 comes out empty. *)
Theorem find_range_misses_next_leaf :
  result_of (
    '(root, _) ← run (H := spread_slabs) 4 0 [Insert 10 1; Insert 20 2; Insert 30 3; Insert 40 4];
    range ← find_range 4 root 25 35;
    '(r, _) ← find root 30;
    v ← load_record r;
    mret (range, v)) = Val ([], 3).
Proof. vm_compute. reflexivity. Qed.
