(* ===== verification/BTreeMain.v ===== *)
(** * The btree workload's random numbers and its main function
    (src/Workloads/btree/btree.c, from "MAIN" on)

    The generator's state is the three static variables, its arithmetic that
    of 64-bit words with the truncations to [int32_t] and [unsigned] the macros
    make.  [real_main] is the loop that fills the tree and the loop that looks
    keys up, run in order (without OpenMP); the messages, the file that signals
    readiness and the timing are left out. *)
From S2P Require Export BTreeSpec.

(** ** The generator *)

Record rng := { x0 : Z; x1 : Z; x2 : Z; a0 : Z; a1 : Z; a2 : Z; c : Z }.

Definition MASK : Z := 65535.
Definition LOW (x : Z) : Z := Z.land (u32 x) MASK.
Definition HIGH (x : Z) : Z := LOW (Z.shiftr x 16).
(** The two words [MUL] stores; the product is cut to an [int32_t]. *)
Definition MUL (x y : Z) : Z * Z := let l := s32 (x * y) in (LOW l, HIGH l).
Definition CARRY (x y : Z) : Z := if MASK <? s32 x + y then 1 else 0.
(** The new [x] and the carry. *)
Definition ADDEQU (x y : Z) : Z * Z := (LOW (u64 (x + y)), CARRY x y).

Definition A0 : Z := 58989.
Definition A1 : Z := 57068.
Definition A2 : Z := 5.
Definition C : Z := 11.
Definition X0 : Z := 13070.
Definition SEED (y0 y1 y2 : Z) : rng := {| x0 := y0; x1 := y1; x2 := y2; a0 := A0; a1 := A1; a2 := A2; c := C |}.
Definition redisSrand48 (seedval : Z) : rng := SEED X0 (LOW seedval) (HIGH seedval).

Definition next (s : rng) : rng :=
  let '(p0, p1) := MUL (a0 s) (x0 s) in
  let '(p0, carry0) := ADDEQU p0 (c s) in
  let '(p1, carry1) := ADDEQU p1 carry0 in
  let '(q0, q1) := MUL (a0 s) (x1 s) in
  let '(p1, carry0) := ADDEQU p1 q0 in
  let '(r0, r1) := MUL (a1 s) (x0 s) in
  {| x2 := LOW (u64 (carry0 + carry1 + CARRY p1 r0 + q1 + r1 + a0 s * x2 s + a1 s * x1 s + a2 s * x0 s));
     x1 := LOW (u64 (p1 + r0));
     x0 := LOW p0;
     a0 := a0 s; a1 := a1 s; a2 := a2 s; c := c s |}.

Definition redisLrand48 (s : rng) : Z * rng :=
  let s := next s in (u64 (Z.shiftl (x2 s) 15 + Z.shiftr (x1 s) 1), s).

(** ** The reference: a linear congruential generator on 48 bits *)

Definition state48 (s : rng) : Z := x0 s + 65536 * x1 s + 4294967296 * x2 s.
Definition lcg (x : Z) : Z := (25214903917 * x + 11) mod 281474976710656.
Record rng_ok (s : rng) : Prop := {
  ok_x0 : 0 <= x0 s < 65536;
  ok_x1 : 0 <= x1 s < 65536;
  ok_x2 : 0 <= x2 s < 65536;
  ok_a : a0 s = A0 /\ a1 s = A1 /\ a2 s = A2 /\ c s = C
}.

Lemma LOW_mod x : LOW x = x mod 65536.
Proof.
  unfold LOW, MASK. change 65535 with (Z.ones 16). rewrite Z.land_ones by lia. unfold u32.
  change (2 ^ 16) with 65536. apply Z.mod_mod_divide. by exists 65536.
Qed.

Lemma HIGH_div x : HIGH x = (x / 65536) mod 65536.
Proof. unfold HIGH. rewrite LOW_mod, Z.shiftr_div_pow2 by lia. done. Qed.

Lemma LOW_u64 x : LOW (u64 x) = x mod 65536.
Proof. rewrite LOW_mod. unfold u64. apply Z.mod_mod_divide. by exists 281474976710656. Qed.

Lemma s32_id x : -2147483648 <= x < 2147483648 -> s32 x = x.
Proof. intros Hx. unfold s32. rewrite Z.mod_small by lia. lia. Qed.

(** The cut to an [int32_t] loses nothing: the two words are the product's. *)
Lemma MUL_spec x y : 0 <= x * y < w32 -> exists lo hi, MUL x y = (lo, hi) /\ x * y = lo + 65536 * hi /\ 0 <= lo < 65536 /\ 0 <= hi < 65536.
Proof.
  intros Hxy. unfold MUL. rewrite LOW_mod, HIGH_div. unfold s32. remember (x * y) as z. clear Heqz. eexists _, _. split; [done|].
  remember ((z + 2147483648) / w32) as k eqn:Hk.
  assert (E : (z + 2147483648) mod w32 - 2147483648 = z - w32 * k) by (pose proof (Z.div_mod (z + 2147483648) w32 ltac:(lia)); lia).
  rewrite E. clear E.
  replace ((z - w32 * k) mod 65536) with (z mod 65536) by (rewrite <- (Z.mod_add z (- k * 65536) 65536) by lia; f_equal; lia).
  replace ((z - w32 * k) / 65536) with (z / 65536 + (- k * 65536)) by (rewrite <- Z.div_add by lia; f_equal; lia).
  rewrite Z.mod_add by lia. clear Hk. rewrite (Z.mod_small (z / 65536)) by (split; [apply Z.div_pos|apply Z.div_lt_upper_bound]; lia).
  pose proof (Z.div_mod z 65536 ltac:(lia)). pose proof (Z.mod_pos_bound z 65536 ltac:(lia)). split; [lia|]. split; [lia|].
  split; [apply Z.div_pos|apply Z.div_lt_upper_bound]; lia.
Qed.

Lemma ADDEQU_spec x y : 0 <= x < 65536 -> 0 <= y < 65536 ->
  exists z k, ADDEQU x y = (z, k) /\ CARRY x y = k /\ x + y = z + 65536 * k /\ 0 <= z < 65536 /\ 0 <= k <= 1.
Proof.
  intros Hx Hy. unfold ADDEQU, CARRY, MASK. rewrite LOW_u64, s32_id by lia. eexists _, _. split; [done|]. split; [done|].
  destruct (65535 <? x + y) eqn:E; zbool; Z.div_mod_to_equations; lia.
Qed.

Lemma next_spec s : rng_ok s -> rng_ok (next s) /\ state48 (next s) = lcg (state48 s).
Proof.
  intros [H0 H1 H2 (E0 & E1 & E2 & Ec)]. unfold next. rewrite E0, E1, E2, Ec.
  destruct (MUL_spec A0 (x0 s)) as (p0 & p1 & -> & Hp & Hp0 & Hp1); [unfold A0; lia|].
  destruct (ADDEQU_spec p0 C) as (p0' & k0 & -> & _ & Hs0 & Hp0' & Hk0); [done|done|].
  destruct (ADDEQU_spec p1 k0) as (p1' & k1 & -> & _ & Hs1 & Hp1' & Hk1); [done|lia|].
  destruct (MUL_spec A0 (x1 s)) as (q0 & q1 & -> & Hq & Hq0 & Hq1); [unfold A0; lia|].
  destruct (ADDEQU_spec p1' q0) as (p1'' & k0' & -> & _ & Hs2 & Hp1'' & Hk0'); [done|done|].
  destruct (MUL_spec A1 (x0 s)) as (r0 & r1 & -> & Hr & Hr0 & Hr1); [unfold A1; lia|].
  destruct (ADDEQU_spec p1'' r0) as (z1 & k2 & Hz & -> & Hs3 & Hz1 & Hk2); [done|done|].
  unfold ADDEQU in Hz. injection Hz as Hz _. rewrite Hz. rewrite LOW_u64, LOW_mod, (Z.mod_small p0') by done.
  remember (k0' + k1 + k2 + q1 + r1 + A0 * x2 s + A1 * x1 s + A2 * x0 s) as S2 eqn:HS2.
  pose proof (Z.div_mod S2 65536 ltac:(lia)). pose proof (Z.mod_pos_bound S2 65536 ltac:(lia)).
  split; [by split; cbn [x0 x1 x2 a0 a1 a2 c]|].
  unfold state48, lcg. cbn [x0 x1 x2]. unfold A0, A1, A2, C in *.
  apply Z.mod_unique_pos with (q := S2 / 65536 + 57068 * x2 s + 5 * x1 s + 65536 * 5 * x2 s); [lia|]. lia.
Qed.

Lemma srand_spec seed : rng_ok (redisSrand48 seed) /\ state48 (redisSrand48 seed) = X0 + 65536 * (seed mod w32).
Proof.
  unfold redisSrand48. rewrite LOW_mod, HIGH_div. split.
  - split; cbn; [unfold X0; lia|apply Z.mod_pos_bound; lia|apply Z.mod_pos_bound; lia|done].
  - unfold state48. cbn [x0 x1 x2 SEED]. change w32 with (65536 * 65536). rewrite Z.rem_mul_r by lia. lia.
Qed.

Lemma lrand_spec s : rng_ok s -> exists s', redisLrand48 s = (lcg (state48 s) / 131072, s') /\ rng_ok s' /\ state48 s' = lcg (state48 s).
Proof.
  intros Hs. destruct (next_spec s Hs) as [[H0 H1 H2 Ha] HL]. exists (next s). split; [|split; [by split|done]].
  unfold redisLrand48. f_equal. rewrite Z.shiftl_mul_pow2, Z.shiftr_div_pow2 by lia. rewrite <- HL. unfold state48. change (2 ^ 15) with 32768.
  change (2 ^ 1) with 2. unfold u64. rewrite Z.mod_small by (Z.div_mod_to_equations; lia). Z.div_mod_to_equations. lia.
Qed.

(** The numbers the reference draws from a state. *)
Fixpoint lcg_draws (n : nat) (x : Z) : list Z :=
  match n with
  | O => []
  | S n => lcg x / 131072 :: lcg_draws n (lcg x)
  end.
Fixpoint draws (n : nat) (s : rng) : list Z :=
  match n with
  | O => []
  | S n => let '(v, s) := redisLrand48 s in v :: draws n s
  end.

Lemma draws_spec n : forall s, rng_ok s -> draws n s = lcg_draws n (state48 s).
Proof.
  induction n as [|n IH]; intros s Hs; [done|]. cbn [draws lcg_draws]. destruct (lrand_spec s Hs) as (s' & -> & Hs' & <-). by rewrite IH.
Qed.

Lemma lcg_draws_bound n : forall x, Forall (fun v => 0 <= v < 2147483648) (lcg_draws n x).
Proof.
  induction n as [|n IH]; intros x; [constructor|]. cbn [lcg_draws]. constructor; [|apply IH]. unfold lcg.
  pose proof (Z.mod_pos_bound (25214903917 * x + 11) 281474976710656 ltac:(lia)). Z.div_mod_to_equations. lia.
Qed.

(** ** The main function *)

Section Main.
Context `{Slabs} (NELEMENTS NLOOKUP : Z).
(** The two arrays of elements. *)
Context (elms elms2 : Z).

Definition ORDER : nat := 16.
Definition ELEMENT_SIZE : Z := 16.

(** The payloads of an array of elements, as [allocate] zeroes them. *)
Definition allocate_elements (base : Z) : gmap Z Z :=
  foldl (fun m j => <[base + ELEMENT_SIZE * Z.of_nat j := 0]> m) ∅ (seq 0 (Z.to_nat (NELEMENTS / 2))).
(** [&base[i]] *)
Definition element (base i : Z) : Z := u64 (base + ELEMENT_SIZE * i).

Fixpoint load_loop (fuel : nat) (i root : Z) : M Z :=
  match fuel with
  | O => undef
  | S fuel =>
      if i <? NELEMENTS then
        root ← insert ORDER root i (element elms (i / 2));
        root ← insert ORDER root (u64 (NELEMENTS - i - 1)) (element elms2 (i / 2));
        load_loop fuel (u64 (i + 2)) root
      else mret root
  end.

Section Lookups.
Context (payloads : gmap Z Z) (root : Z).

(** One look-up and its addition to [sum]. *)
Definition probe (key sum : Z) : M Z :=
  '(r, _) ← find root key;
  if r =? 0 then mret sum
  else
    e ← load_record r;
    if e =? 0 then mret sum else payload ← lift (cres_of_option (payloads !! e)); mret (u64 (sum + payload)).

Fixpoint lookup_loop (fuel : nat) (i : Z) (s : rng) (sum : Z) : M Z :=
  match fuel with
  | O => undef
  | S fuel =>
      if i <? NLOOKUP then
        let '(rdn, s) := redisLrand48 s in
        sum ← probe (rdn mod NELEMENTS) sum;
        sum ← probe (u64 (Z.shiftl (u64 (rdn + 1)) 2) mod NELEMENTS) sum;
        lookup_loop fuel (u64 (i + 1)) s sum
      else mret sum
  end.
End Lookups.

(** The number printed as the number of matches. *)
Definition real_main : M Z :=
  root ← load_loop (S (Z.to_nat NELEMENTS)) 0 0;
  lookup_loop (allocate_elements elms ∪ allocate_elements elms2) root (S (Z.to_nat NLOOKUP)) 0 (redisSrand48 (s32 3405691582)) 0.
End Main.

Section MainProofs.
Context `{SL : SlabsLaws} (NELEMENTS NLOOKUP elms elms2 : Z).
Context (HE : NELEMENTS mod 2 = 0) (HN : 0 < NELEMENTS < w64) (HL : 0 <= NLOOKUP < w64).
Context (H1 : 0 < elms /\ elms + 8 * NELEMENTS <= w64) (H2 : 0 < elms2 /\ elms2 + 8 * NELEMENTS <= w64).

(** The element a key is loaded with. *)
Definition element_of (k : Z) : Z :=
  if k mod 2 =? 0 then element elms (k / 2) else element elms2 ((NELEMENTS - 1 - k) / 2).
Definition is_loaded (i k : Z) : bool :=
  (0 <=? k) && (k <? NELEMENTS) && (((k mod 2 =? 0) && (k <? i)) || ((k mod 2 =? 1) && (NELEMENTS - i <=? k))).
Definition loaded (i : Z) (m : gmap Z Z) : Prop := forall k, m !! k = if is_loaded i k then Some (element_of k) else None.

Lemma element_range k : 0 <= k < NELEMENTS ->
  exists j, 0 <= j < NELEMENTS / 2 /\ (element_of k = elms + ELEMENT_SIZE * j \/ element_of k = elms2 + ELEMENT_SIZE * j).
Proof using HE HN H1 H2.
  clear HL SL. intros Hk. unfold element_of, element, u64, ELEMENT_SIZE. destruct (k mod 2 =? 0) eqn:E; zbool.
  - exists (k / 2). split; [Z.div_mod_to_equations; lia|]. left. apply Z.mod_small. Z.div_mod_to_equations; lia.
  - exists ((NELEMENTS - 1 - k) / 2). split; [Z.div_mod_to_equations; lia|]. right. apply Z.mod_small. Z.div_mod_to_equations; lia.
Qed.

Lemma loaded_step i m : loaded i m -> 0 <= i < NELEMENTS -> i mod 2 = 0 ->
  loaded (i + 2) (<[u64 (NELEMENTS - i - 1) := element elms2 (i / 2)]> (<[i := element elms (i / 2)]> m)).
Proof using HE HN.
  clear HL H1 H2 SL. intros HLd Hi Hev k. unfold u64. rewrite (Z.mod_small (NELEMENTS - i - 1)) by lia.
  destruct (decide (k = NELEMENTS - i - 1)) as [->|Hk1].
  - rewrite lookup_insert_eq. unfold is_loaded, element_of.
    replace ((NELEMENTS - i - 1) mod 2) with 1 by (Z.div_mod_to_equations; lia).
    replace (NELEMENTS - 1 - (NELEMENTS - i - 1)) with i by lia. cbn [Z.eqb andb orb].
    rewrite (proj2 (Z.leb_le _ _)), (proj2 (Z.ltb_lt _ _)), (proj2 (Z.leb_le _ _)) by lia. done.
  - rewrite lookup_insert_ne by lia. destruct (decide (k = i)) as [->|Hk2].
    + rewrite lookup_insert_eq. unfold is_loaded, element_of. rewrite Hev. cbn [Z.eqb andb orb].
      rewrite (proj2 (Z.leb_le _ _)), (proj2 (Z.ltb_lt _ _)), (proj2 (Z.ltb_lt _ _)) by lia. done.
    + rewrite lookup_insert_ne by lia. rewrite HLd. replace (is_loaded (i + 2) k) with (is_loaded i k); [done|]. unfold is_loaded. f_equal. f_equal.
      * destruct (k mod 2 =? 0) eqn:E; [|done]. cbn [andb]. apply Bool.eq_iff_eq_true. rewrite !Z.ltb_lt. zbool.
        Z.div_mod_to_equations; lia.
      * destruct (k mod 2 =? 1) eqn:E; [|done]. cbn [andb]. apply Bool.eq_iff_eq_true. rewrite !Z.leb_le. zbool.
        Z.div_mod_to_equations; lia.
Qed.

Lemma load_loop_spec fuel : forall h i root m, represents ORDER h root m -> loaded i m -> 0 <= i <= NELEMENTS -> i mod 2 = 0 ->
  (Z.to_nat (NELEMENTS - i) < fuel)%nat ->
  exists root' h' m', load_loop NELEMENTS elms elms2 fuel i root h = Val (root', h') /\ represents ORDER h' root' m' /\ loaded NELEMENTS m'.
Proof using SL HE HN.
  clear HL H1 H2. induction fuel as [|fuel IH]; intros h i root m HR HLd Hi Hev Hf; [lia|]. cbn [load_loop].
  destruct (i <? NELEMENTS) eqn:E; zbool; [|exists root, h, m; assert (i = NELEMENTS) as -> by lia; done].
  destruct (insert_represents ORDER ltac:(unfold ORDER; lia) h root m i (element elms (i / 2)) HR ltac:(lia)) as (root1 & h1 & E1 & HR1).
  rewrite (bindM _ _ _ _ _ E1).
  destruct (insert_represents ORDER ltac:(unfold ORDER; lia) h1 root1 _ (u64 (NELEMENTS - i - 1)) (element elms2 (i / 2)) HR1
    ltac:(unfold u64; rewrite Z.mod_small; lia)) as (root2 & h2 & E2 & HR2).
  rewrite (bindM _ _ _ _ _ E2).
  assert (Hi2 : i + 2 <= NELEMENTS) by (Z.div_mod_to_equations; lia).
  unfold u64 at 1. rewrite (Z.mod_small (i + 2)) by (split; [lia|]; lia).
  apply (IH h2 (i + 2) root2 _ HR2 (loaded_step i m HLd ltac:(lia) Hev)); [lia| |lia].
  rewrite <- Hev. rewrite <- (Z.mod_add i 1 2) by lia. f_equal.
Qed.

Lemma loaded_all m k : loaded NELEMENTS m -> 0 <= k < NELEMENTS -> m !! k = Some (element_of k).
Proof using.
  clear HE HN HL H1 H2 SL. intros HLd Hk. rewrite HLd. unfold is_loaded.
  rewrite (proj2 (Z.leb_le 0 _)), (proj2 (Z.ltb_lt _ _)) by lia. cbn [andb].
  rewrite (proj2 (Z.leb_le _ _)) by lia. destruct (k mod 2 =? 0) eqn:E; [done|]. zbool.
  rewrite (proj2 (Z.eqb_eq (k mod 2) 1)) by (Z.div_mod_to_equations; lia). done.
Qed.

Lemma loaded_empty : loaded 0 ∅.
Proof using.
  intros k. rewrite lookup_empty. unfold is_loaded. rewrite Z.sub_0_r. destruct (0 <=? k) eqn:E1; [|done]. destruct (k <? NELEMENTS) eqn:E2; [|done].
  zbool. rewrite (proj2 (Z.ltb_ge k 0)), (proj2 (Z.leb_gt _ k)) by lia. by rewrite !andb_false_r.
Qed.

(** *** The look-ups *)

Section Lookups.
Context (payloads : gmap Z Z) (h : heap) (root : Z) (m : gmap Z Z).
Context (HR : represents ORDER h root m) (HLd : loaded NELEMENTS m).
Context (HP : forall k, 0 <= k < NELEMENTS -> is_Some (payloads !! element_of k)).

Definition payload_of (k : Z) : Z := default 0 (payloads !! element_of k).

Lemma probe_spec k sum : 0 <= k < NELEMENTS -> probe payloads root k sum h = Val (u64 (sum + payload_of k), h).
Proof using SL HE HN H1 H2 HR HLd HP.
  clear HL. intros Hk. destruct (find_represents ORDER h root m k HR ltac:(lia)) as (r & leaf & E & Hm).
  rewrite (loaded_all m k HLd Hk) in Hm. destruct Hm as [Hr Hv]. unfold probe. rewrite (bindM _ _ _ _ _ E).
  rewrite (proj2 (Z.eqb_neq _ _)) by done. rewrite (bindM _ _ _ (element_of k) h) by (unfold load_record; by rewrite Hv).
  assert (element_of k <> 0) by (destruct (element_range k Hk) as (j & Hj & [-> | ->]); unfold ELEMENT_SIZE; lia).
  rewrite (proj2 (Z.eqb_neq _ _)) by done. destruct (HP k Hk) as [v Hv']. rewrite (bind_lift _ _ _ v) by by rewrite Hv'.
  unfold payload_of. by rewrite Hv'.
Qed.

(** The keys a number leads to. *)
Definition keys_of (rdn : Z) : list Z := [rdn mod NELEMENTS; (4 * (rdn + 1)) mod NELEMENTS].
Definition total (ks : list Z) : Z := foldr (fun k s => payload_of k + s) 0 ks.

Lemma lookup_loop_spec fuel : forall i s sum, rng_ok s -> 0 <= i <= NLOOKUP -> 0 <= sum < w64 -> (Z.to_nat (NLOOKUP - i) < fuel)%nat ->
  lookup_loop NELEMENTS NLOOKUP payloads root fuel i s sum h =
    Val (u64 (sum + total (concat (map keys_of (lcg_draws (Z.to_nat (NLOOKUP - i)) (state48 s))))), h).
Proof using SL HE HN HL H1 H2 HR HLd HP.
  induction fuel as [|fuel IH]; intros i s sum Hs Hi Hsum Hf; [lia|]. cbn [lookup_loop]. destruct (i <? NLOOKUP) eqn:E; zbool.
  - replace (Z.to_nat (NLOOKUP - i)) with (S (Z.to_nat (NLOOKUP - (i + 1)))) by lia. cbn [lcg_draws map concat].
    pose proof (lcg_draws_bound 1 (state48 s)) as HB. cbn [lcg_draws] in HB. apply Forall_cons in HB as [HB _].
    destruct (lrand_spec s Hs) as (s' & -> & Hs' & Hst). rewrite <- Hst in HB |- *. set (rdn := state48 s' / 131072) in *.
    rewrite (bindM _ _ _ _ _ (probe_spec _ sum (Z.mod_pos_bound rdn NELEMENTS ltac:(lia)))).
    assert (Hk2 : u64 (Z.shiftl (u64 (rdn + 1)) 2) = 4 * (rdn + 1)).
    { rewrite Z.shiftl_mul_pow2 by lia. unfold u64. change (2 ^ 2) with 4. rewrite (Z.mod_small (rdn + 1)), Z.mod_small by lia. lia. }
    rewrite Hk2. rewrite (bindM _ _ _ _ _ (probe_spec _ _ (Z.mod_pos_bound (4 * (rdn + 1)) NELEMENTS ltac:(lia)))).
    assert (u64 (i + 1) = i + 1) as -> by (unfold u64; apply Z.mod_small; lia). rewrite IH; [|done|lia|unfold u64; apply Z.mod_pos_bound; lia|lia].
    cbn [total foldr keys_of concat app]. unfold total. do 2 f_equal. unfold u64. rewrite Zplus_mod_idemp_l, <- Z.add_assoc, Zplus_mod_idemp_l. f_equal. lia.
  - replace (NLOOKUP - i) with 0 by lia. cbn. rewrite Z.add_0_r. unfold u64. by rewrite Z.mod_small.
Qed.
End Lookups.

Lemma fill_spec : exists root h m,
  load_loop NELEMENTS elms elms2 (S (Z.to_nat NELEMENTS)) 0 0 empty_heap = Val (root, h) /\
  represents ORDER h root m /\ loaded NELEMENTS m.
Proof using SL HE HN.
  clear HL H1 H2. apply (load_loop_spec _ empty_heap 0 0 ∅); [|apply loaded_empty|lia|done|lia].
  left. split_and!; [done|done|apply alloc_inv_empty].
Qed.

Lemma elements_zeroed base n v j : 0 <= j < Z.of_nat n ->
  foldl (fun (m : gmap Z Z) j => <[base + ELEMENT_SIZE * Z.of_nat j := v]> m) ∅ (seq 0 n) !! (base + ELEMENT_SIZE * j) = Some v.
Proof using.
  clear HE HN HL H1 H2 SL. unfold ELEMENT_SIZE. revert j. induction n as [|n IH]; intros j Hj; [lia|]. rewrite seq_S, foldl_app. cbn [foldl Nat.add].
  destruct (decide (j = Z.of_nat n)) as [->|]; [by rewrite lookup_insert_eq|]. rewrite lookup_insert_ne by lia. apply IH. lia.
Qed.

Lemma elements_at base x : is_Some (allocate_elements NELEMENTS base !! x) -> allocate_elements NELEMENTS base !! x = Some 0.
Proof using.
  clear HE HN HL H1 H2 SL. unfold allocate_elements. induction (Z.to_nat (NELEMENTS / 2)) as [|n IH]; [by intros [? ?]|].
  rewrite seq_S, foldl_app. cbn [foldl Nat.add]. destruct (decide (x = base + ELEMENT_SIZE * Z.of_nat n)) as [->|]; [by rewrite lookup_insert_eq|].
  by rewrite lookup_insert_ne.
Qed.

Lemma elements_payload k : 0 <= k < NELEMENTS ->
  (allocate_elements NELEMENTS elms ∪ allocate_elements NELEMENTS elms2) !! element_of k = Some 0.
Proof using HE HN H1 H2.
  clear HL SL. intros Hk. destruct (element_range k Hk) as (j & Hj & [-> | ->]).
  - apply lookup_union_Some_l. apply elements_zeroed. lia.
  - destruct (allocate_elements NELEMENTS elms !! (elms2 + ELEMENT_SIZE * j)) as [v|] eqn:E.
    + apply lookup_union_Some_l. apply elements_at. by eexists.
    + rewrite lookup_union_r by done. apply elements_zeroed. lia.
Qed.

Lemma total_zero payloads ks : (forall k, k ∈ ks -> payload_of payloads k = 0) -> total payloads ks = 0.
Proof using.
  clear HE HN HL H1 H2 SL. induction ks as [|k ks IH]; intros Hk; [done|]. cbn. unfold total in IH. rewrite Hk by by left.
  rewrite IH; [done|]. intros k' Hk'. apply Hk. by right.
Qed.
End MainProofs.

(** The three-word generator is the linear congruential generator on 48
    bits: whatever the seed, the numbers drawn are the top 31 bits of the
    states x -> (0x5DEECE66D * x + 0xB) mod 2^48, from the seed's 32 bits over
    0x330E; none of the truncations to 32 bits and carries loses anything. *)
Theorem redisLrand48_lcg (seed : Z) (n : nat) :
  draws n (redisSrand48 seed) = lcg_draws n (13070 + 65536 * (seed mod w32)) /\
  Forall (fun v => 0 <= v < 2147483648) (draws n (redisSrand48 seed)).
Proof.
  destruct (srand_spec seed) as [Hok Hst]. rewrite draws_spec, Hst by done. split; [done|apply lcg_draws_bound].
Qed.

(** C33. The filling loop ends and leaves every key from 0 to NELEMENTS - 1 in
    the tree, an even key with its element of the first array and an odd key
    with its element of the second, counted from the end; no other key is
    there. *)
Theorem load_every_key `{SL : SlabsLaws} (NELEMENTS elms elms2 : Z) :
  NELEMENTS mod 2 = 0 -> 0 < NELEMENTS < w64 ->
  exists root h, load_loop NELEMENTS elms elms2 (S (Z.to_nat NELEMENTS)) 0 0 empty_heap = Val (root, h) /\
    forall key, 0 <= key < w64 -> exists r leaf, find root key h = Val ((r, leaf), h) /\
      if key <? NELEMENTS then
        r <> 0 /\ records h !! r = Some (if Z.even key then u64 (elms + 16 * (key / 2)) else u64 (elms2 + 16 * ((NELEMENTS - 1 - key) / 2)))
      else r = 0.
Proof.
  intros HE HN. destruct (fill_spec NELEMENTS elms elms2 HE HN) as (root & h & m & Hrun & HR & HL). exists root, h. split; [done|].
  intros key Hk. destruct (find_represents ORDER h root m key HR Hk) as (r & leaf & E & Hm). exists r, leaf. split; [done|].
  rewrite HL in Hm. unfold is_loaded in Hm. destruct (key <? NELEMENTS) eqn:El; zbool.
  - rewrite (proj2 (Z.leb_le 0 _)) in Hm by lia. cbn [andb] in Hm. rewrite (proj2 (Z.leb_le (_ - _) _)) in Hm by lia.
    unfold element_of, element, ELEMENT_SIZE in Hm. rewrite Zeven_mod.
    pose proof (Z.mod_pos_bound key 2 ltac:(lia)). destruct (key mod 2 =? 0) eqn:E0; zbool; [by rewrite E0 in *|].
    assert (key mod 2 = 1) as E1 by lia. by rewrite E1 in *.
  - by rewrite andb_false_r in Hm.
Qed.

Lemma load_every_key_witness : 100 mod 2 = 0 /\ 0 < 100 < w64 /\
  exists root h, load_loop (H := spread_slabs) 100 4096 8192 (S (Z.to_nat 100)) 0 0 empty_heap = Val (root, h) /\
    forall key, 0 <= key < w64 -> exists r leaf, find root key h = Val ((r, leaf), h) /\
      if key <? 100 then
        r <> 0 /\ records h !! r = Some (if Z.even key then u64 (4096 + 16 * (key / 2)) else u64 (8192 + 16 * ((100 - 1 - key) / 2)))
      else r = 0.
Proof.
  split; [done|]. split; [lia|]. exact (load_every_key (SL := spread_laws) 100 4096 8192 eq_refl ltac:(lia)).
Defined.

(** The look-up loop ends with the sum, modulo 2^64, of the payloads of the
    elements of the keys that the 48-bit generator draws: both look-ups of each
    round find their key, and reading the elements stays inside the arrays. *)
Theorem lookups_sum `{SL : SlabsLaws} (NELEMENTS NLOOKUP elms elms2 : Z) (payloads : gmap Z Z) (s : rng) :
  NELEMENTS mod 2 = 0 -> 0 < NELEMENTS < w64 -> 0 <= NLOOKUP < w64 ->
  (0 < elms /\ elms + 8 * NELEMENTS <= w64) -> (0 < elms2 /\ elms2 + 8 * NELEMENTS <= w64) ->
  (forall k, 0 <= k < NELEMENTS -> is_Some (payloads !! element_of NELEMENTS elms elms2 k)) -> rng_ok s ->
  exists root h, load_loop NELEMENTS elms elms2 (S (Z.to_nat NELEMENTS)) 0 0 empty_heap = Val (root, h) /\
    lookup_loop NELEMENTS NLOOKUP payloads root (S (Z.to_nat NLOOKUP)) 0 s 0 h =
      Val (u64 (total NELEMENTS elms elms2 payloads
                 (concat (map (keys_of NELEMENTS) (lcg_draws (Z.to_nat NLOOKUP) (state48 s))))), h).
Proof.
  intros HE HN HL H1 H2 HP Hs. destruct (fill_spec NELEMENTS elms elms2 HE HN) as (root & h & m & Hrun & HR & HLd).
  exists root, h. split; [done|].
  rewrite (lookup_loop_spec NELEMENTS NLOOKUP elms elms2 HE HN HL H1 H2 payloads h root m HR HLd HP) by (done || lia).
  by rewrite Z.sub_0_r, Z.add_0_l.
Qed.

Lemma lookups_sum_witness : let payloads := allocate_elements 100 4096 ∪ allocate_elements 100 8192 in
  (forall k, 0 <= k < 100 -> is_Some (payloads !! element_of 100 4096 8192 k)) /\
  exists root h, load_loop (H := spread_slabs) 100 4096 8192 (S (Z.to_nat 100)) 0 0 empty_heap = Val (root, h) /\
    lookup_loop 100 50 payloads root (S (Z.to_nat 50)) 0 (redisSrand48 7) 0 h =
      Val (u64 (total 100 4096 8192 payloads (concat (map (keys_of 100) (lcg_draws (Z.to_nat 50) (state48 (redisSrand48 7)))))), h).
Proof.
  cbv zeta. set (payloads := allocate_elements 100 4096 ∪ allocate_elements 100 8192).
  assert (HP : forall k, 0 <= k < 100 -> is_Some (payloads !! element_of 100 4096 8192 k)).
  { intros k Hk. exists 0. apply elements_payload; (done || lia). }
  split; [exact HP|].
  exact (lookups_sum (SL := spread_laws) 100 50 4096 8192 payloads (redisSrand48 7) eq_refl ltac:(lia) ltac:(lia) ltac:(lia) ltac:(lia) HP
           (proj1 (srand_spec 7))).
Defined.


