(* ===== verification/CachingDevice.v ===== *)
(** * The simulated caches

    [src/Simulator/clients/drcachesim/simulator/]: the caching device with its
    three replacement policies (caching_device.cpp, cache_lru.cpp,
    cache_fifo.cpp), the cache built on it (cache.cpp), its counters
    (caching_device_stats.cpp, cache_stats.cpp) and the next-line prefetcher
    (prefetcher.cpp).

    The devices of a hierarchy are the elements of one list, the store, and a
    pointer to a device is its index: several devices share a parent, so a
    request to one changes what the others see.  [Abort] is the outcome of a
    failed [assert] or of an access outside an array.  The printing of the
    counters and the file of misses are left out. *)
From S2P Require Export Outcome.
From S2P Require Import Prelude.

(** ** Trace entries ([common/trace_entry.h], [common/memref.h]) *)

Module Trace.
(** The values of [trace_type_t] that the simulator names. *)
Definition TRACE_TYPE_READ : Z := 0.
Definition TRACE_TYPE_WRITE : Z := 1.
Definition TRACE_TYPE_PE1 : Z := 2.
Definition TRACE_TYPE_PE2 : Z := 3.
Definition TRACE_TYPE_PE3 : Z := 4.
Definition TRACE_TYPE_PE4 : Z := 5.
Definition TRACE_TYPE_PE1_PE1 : Z := 6.
Definition TRACE_TYPE_PA_PE1 : Z := 26.
Definition TRACE_TYPE_CONT_L1 : Z := 30.
Definition TRACE_TYPE_CONT_LLC : Z := 31.
Definition TRACE_TYPE_PREFETCH : Z := 32.
Definition TRACE_TYPE_PREFETCH_INSTR : Z := 39.
Definition TRACE_TYPE_INSTR : Z := 40.
Definition TRACE_TYPE_INSTR_RETURN : Z := 46.
Definition TRACE_TYPE_INSTR_FLUSH : Z := 48.
Definition TRACE_TYPE_DATA_FLUSH : Z := 50.
Definition TRACE_TYPE_THREAD_EXIT : Z := 53.
Definition TRACE_TYPE_HARDWARE_PREFETCH : Z := 57.
Definition TRACE_TYPE_MARKER : Z := 58.
Definition TRACE_TYPE_INSTR_NO_FETCH : Z := 59.
Definition TRACE_TYPE_INSTR_SYSENTER : Z := 61.

Definition type_is_instr (type : Z) : bool :=
  ((TRACE_TYPE_INSTR <=? type) && (type <=? TRACE_TYPE_INSTR_RETURN)) || (type =? TRACE_TYPE_INSTR_SYSENTER).
Definition type_is_prefetch (type : Z) : bool :=
  ((TRACE_TYPE_PREFETCH <=? type) && (type <=? TRACE_TYPE_PREFETCH_INSTR)) || (type =? TRACE_TYPE_HARDWARE_PREFETCH).

(** The fields that the data, instruction, flush and exit members of the union
    have at the same places. *)
Record memref_t := { type : Z; pid : Z; tid : Z; addr : Z; size : Z }.

Definition with_range (m : memref_t) (a n : Z) : memref_t :=
  {| type := type m; pid := pid m; tid := tid m; addr := a; size := n |}.

(** [cache_result_t], whose members the code counts with. *)
Definition NOT_FOUND : Z := 0.
Definition FOUND_L1 : Z := 1.
Definition FOUND_L2 : Z := 2.
Definition FOUND_LLC : Z := 3.
Definition RANGE_HIT : Z := 5.
Definition RANGE_MISS : Z := 6.
Definition PWC : Z := 7.
Definition ZERO : Z := 8.
End Trace.
Export Trace.

(** ** Counters *)

Record stats_t := {
  num_hits : Z; num_misses : Z; num_child_hits : Z; num_inclusive_invalidates : Z;
  hit_statistics : list Z; miss_statistics : list Z;
  num_flushes : Z; num_prefetch_hits : Z; num_prefetch_misses : Z
}.

Definition PAGE_WALK_STAGES : nat := 4.
Definition new_stats : stats_t := {|
  num_hits := 0; num_misses := 0; num_child_hits := 0; num_inclusive_invalidates := 0;
  hit_statistics := replicate (PAGE_WALK_STAGES + 2) 0; miss_statistics := replicate (PAGE_WALK_STAGES + 2) 0;
  num_flushes := 0; num_prefetch_hits := 0; num_prefetch_misses := 0
|}.

(** The counter a page-walk or contention access has of its own. *)
Definition stage_of (t : Z) : option nat :=
  if t =? TRACE_TYPE_CONT_L1 then Some 4%nat
  else if t =? TRACE_TYPE_CONT_LLC then Some 5%nat
  else if t =? TRACE_TYPE_PE1 then Some 0%nat
  else if t =? TRACE_TYPE_PE2 then Some 1%nat
  else if t =? TRACE_TYPE_PE3 then Some 2%nat
  else if t =? TRACE_TYPE_PE4 then Some 3%nat
  else None.

(** [caching_device_stats_t::access] *)
Definition base_access (st : stats_t) (m : memref_t) (hit : bool) : stats_t :=
  match stage_of (type m) with
  | Some i =>
      {| num_hits := num_hits st; num_misses := num_misses st; num_child_hits := num_child_hits st;
         num_inclusive_invalidates := num_inclusive_invalidates st;
         hit_statistics := if hit then alter (Z.add 1) i (hit_statistics st) else hit_statistics st;
         miss_statistics := if hit then miss_statistics st else alter (Z.add 1) i (miss_statistics st);
         num_flushes := num_flushes st; num_prefetch_hits := num_prefetch_hits st;
         num_prefetch_misses := num_prefetch_misses st |}
  | None =>
      {| num_hits := if hit then num_hits st + 1 else num_hits st;
         num_misses := if hit then num_misses st else num_misses st + 1; num_child_hits := num_child_hits st;
         num_inclusive_invalidates := num_inclusive_invalidates st;
         hit_statistics := hit_statistics st; miss_statistics := miss_statistics st;
         num_flushes := num_flushes st; num_prefetch_hits := num_prefetch_hits st;
         num_prefetch_misses := num_prefetch_misses st |}
  end.

(** [cache_stats_t::access] *)
Definition cache_access (st : stats_t) (m : memref_t) (hit : bool) : stats_t :=
  if type_is_prefetch (type m) then
    {| num_hits := num_hits st; num_misses := num_misses st; num_child_hits := num_child_hits st;
       num_inclusive_invalidates := num_inclusive_invalidates st;
       hit_statistics := hit_statistics st; miss_statistics := miss_statistics st;
       num_flushes := num_flushes st;
       num_prefetch_hits := if hit then num_prefetch_hits st + 1 else num_prefetch_hits st;
       num_prefetch_misses := if hit then num_prefetch_misses st else num_prefetch_misses st + 1 |}
  else base_access st m hit.

Definition add_child_hit (st : stats_t) (hit : bool) : stats_t :=
  {| num_hits := num_hits st; num_misses := num_misses st;
     num_child_hits := if hit then num_child_hits st + 1 else num_child_hits st;
     num_inclusive_invalidates := num_inclusive_invalidates st;
     hit_statistics := hit_statistics st; miss_statistics := miss_statistics st;
     num_flushes := num_flushes st; num_prefetch_hits := num_prefetch_hits st;
     num_prefetch_misses := num_prefetch_misses st |}.

Definition add_invalidate (st : stats_t) : stats_t :=
  {| num_hits := num_hits st; num_misses := num_misses st; num_child_hits := num_child_hits st;
     num_inclusive_invalidates := num_inclusive_invalidates st + 1;
     hit_statistics := hit_statistics st; miss_statistics := miss_statistics st;
     num_flushes := num_flushes st; num_prefetch_hits := num_prefetch_hits st;
     num_prefetch_misses := num_prefetch_misses st |}.

Definition add_flush (st : stats_t) : stats_t :=
  {| num_hits := num_hits st; num_misses := num_misses st; num_child_hits := num_child_hits st;
     num_inclusive_invalidates := num_inclusive_invalidates st;
     hit_statistics := hit_statistics st; miss_statistics := miss_statistics st;
     num_flushes := num_flushes st + 1; num_prefetch_hits := num_prefetch_hits st;
     num_prefetch_misses := num_prefetch_misses st |}.

(** [cache_stats_t::reset], at the end of the warm-up; the copies kept for
    printing are left out.  The two contention counters are not reset. *)
Definition reset_stats (st : stats_t) : stats_t := {|
  num_hits := 0; num_misses := 0; num_child_hits := 0; num_inclusive_invalidates := 0;
  hit_statistics := replicate PAGE_WALK_STAGES 0 ++ drop PAGE_WALK_STAGES (hit_statistics st);
  miss_statistics := replicate PAGE_WALK_STAGES 0 ++ drop PAGE_WALK_STAGES (miss_statistics st);
  num_flushes := 0; num_prefetch_hits := 0; num_prefetch_misses := 0
|}.

(** ** Devices *)

(** A block; [block_pid] is the field that a [tlb_entry_t] adds. *)
Definition TAG_INVALID : Z := w64 - 1.
Record block_t := { tag : Z; counter : Z; block_pid : Z }.
Definition new_block : block_t := {| tag := TAG_INVALID; counter := 0; block_pid := 0 |}.

Inductive policy_t := LFU | LRU | FIFO.

(** What [init] sets once and for all. *)
Record config_t := {
  policy : policy_t; associativity : nat; block_size : Z; num_blocks : nat;
  blocks_per_way : nat; block_size_bits : Z;
  parent : option nat; prefetcher : option Z; inclusive : bool; children : list nat
}.

Record device := {
  cfg : config_t; blocks : list block_t; loaded_blocks : Z;
  last_tag : Z; last_way : nat; last_block_idx : nat; last_pid : Z;
  stats : stats_t
}.

Definition set_blocks (v : device) (bs : list block_t) : device :=
  {| cfg := cfg v; blocks := bs; loaded_blocks := loaded_blocks v; last_tag := last_tag v; last_way := last_way v;
     last_block_idx := last_block_idx v; last_pid := last_pid v; stats := stats v |}.
Definition set_loaded (v : device) (n : Z) : device :=
  {| cfg := cfg v; blocks := blocks v; loaded_blocks := n; last_tag := last_tag v; last_way := last_way v;
     last_block_idx := last_block_idx v; last_pid := last_pid v; stats := stats v |}.
Definition set_last (v : device) (t : Z) (way idx : nat) (p : Z) : device :=
  {| cfg := cfg v; blocks := blocks v; loaded_blocks := loaded_blocks v; last_tag := t; last_way := way;
     last_block_idx := idx; last_pid := p; stats := stats v |}.
Definition set_stats (v : device) (st : stats_t) : device :=
  {| cfg := cfg v; blocks := blocks v; loaded_blocks := loaded_blocks v; last_tag := last_tag v; last_way := last_way v;
     last_block_idx := last_block_idx v; last_pid := last_pid v; stats := st |}.
Definition set_tag (t : Z) (b : block_t) : block_t := {| tag := t; counter := counter b; block_pid := block_pid b |}.
Definition set_counter (n : Z) (b : block_t) : block_t := {| tag := tag b; counter := n; block_pid := block_pid b |}.
Definition set_block_pid (p : Z) (b : block_t) : block_t := {| tag := tag b; counter := counter b; block_pid := p |}.

Definition compute_tag (c : config_t) (a : Z) : Z := Z.shiftr a (block_size_bits c).
Definition compute_block_idx (c : config_t) (t : Z) : nat :=
  (Z.to_nat (Z.land t (Z.of_nat (blocks_per_way c) - 1)) * associativity c)%nat.
Definition get_block (bs : list block_t) (i : nat) : block_t := default new_block (bs !! i).

(** *** Initialisation *)

Definition IS_POWER_OF_2 (x : Z) : bool := negb (x =? 0) && (Z.land x (x - 1) =? 0).
Fixpoint log2_from (n : nat) (i value : Z) : Z :=
  match n with
  | O => -1
  | S n => if value =? Z.shiftl 1 i then i else log2_from n (i + 1) value
  end.
Definition compute_log2 (value : Z) : Z := log2_from 31 0 value.

(** The fields of [last_way], [last_block_idx] and [last_pid] are not set by
    [init]; [last_tag] says that they are not to be read. *)
Definition caching_device_init (pol : policy_t) (associativity_ block_size_ num_blocks_ : Z)
    (parent_ : option nat) (prefetcher_ : option Z) (inclusive_ : bool) (children_ : list nat) : option device :=
  if (associativity_ <? 1) || (num_blocks_ <? 1) then None
  else if negb (IS_POWER_OF_2 block_size_) || (block_size_ <? 4) then None
  else let per_way := num_blocks_ / associativity_ in
  if negb (per_way * associativity_ =? num_blocks_) then None
  else let bits := compute_log2 block_size_ in
  if (bits =? -1) || negb (IS_POWER_OF_2 per_way) then None
  else Some {|
    cfg := {| policy := pol; associativity := Z.to_nat associativity_; block_size := block_size_;
              num_blocks := Z.to_nat num_blocks_; blocks_per_way := Z.to_nat per_way; block_size_bits := bits;
              parent := parent_; prefetcher := prefetcher_; inclusive := inclusive_; children := children_ |};
    blocks := replicate (Z.to_nat num_blocks_) new_block; loaded_blocks := 0;
    last_tag := TAG_INVALID; last_way := 0; last_block_idx := 0; last_pid := 0; stats := new_stats |}.

(** [cache_t::init] and, for the FIFO policy, [cache_fifo_t::init] *)
Definition cache_init (pol : policy_t) (associativity_ line_size_ total_size : Z)
    (parent_ : option nat) (prefetcher_ : option Z) (inclusive_ : bool) (children_ : list nat) : option device :=
  if line_size_ <? 1 then None
  else v ← caching_device_init pol associativity_ line_size_ (total_size / line_size_) parent_ prefetcher_ inclusive_ children_;
  match pol with
  | FIFO => Some (set_blocks v (foldl (fun bs i => alter (set_counter 1) (i * associativity (cfg v))%nat bs)
                                      (blocks v) (seq 0 (blocks_per_way (cfg v)))))
  | _ => Some v
  end.

(** *** Replacement policies *)

(** [cache_lru_t::access_update]: one pass over the ways of the set. *)
Definition lru_age (bs : list block_t) (idx way : nat) (cnt : Z) (i : nat) : list block_t :=
  if negb (i =? way)%nat && (counter (get_block bs (idx + i)) <=? cnt)
  then alter (fun b => set_counter (s32 (counter b + 1)) b) (idx + i)%nat bs else bs.

Definition access_update (c : config_t) (bs : list block_t) (idx way : nat) : list block_t :=
  match policy c with
  | LFU => alter (fun b => set_counter (s32 (counter b + 1)) b) (idx + way)%nat bs
  | LRU =>
      let cnt := counter (get_block bs (idx + way)) in
      if cnt =? 0 then bs
      else alter (set_counter 0) (idx + way)%nat
             (foldl (fun bs i => lru_age bs idx way cnt i) bs (seq 0 (associativity c)))
  | FIFO => bs
  end.

(** The loops of [replace_which_way] over the ways from [way] on, [n] of them;
    [best] and [best_way] are the extreme counter so far and its way. *)
Fixpoint lfu_scan (bs : list block_t) (idx way n : nat) (best : Z) (best_way : nat) : nat :=
  match n with
  | O => best_way
  | S n =>
      let b := get_block bs (idx + way) in
      if tag b =? TAG_INVALID then way
      else if (way =? 0)%nat || (counter b <? best) then lfu_scan bs idx (S way) n (counter b) way
      else lfu_scan bs idx (S way) n best best_way
  end.
Fixpoint lru_scan (bs : list block_t) (idx way n : nat) (best : Z) (best_way : nat) : nat :=
  match n with
  | O => best_way
  | S n =>
      let b := get_block bs (idx + way) in
      if tag b =? TAG_INVALID then way
      else if best <? counter b then lru_scan bs idx (S way) n (counter b) way
      else lru_scan bs idx (S way) n best best_way
  end.
Fixpoint fifo_scan (bs : list block_t) (idx way n : nat) : option nat :=
  match n with
  | O => None
  | S n => if counter (get_block bs (idx + way)) =? 1 then Some way else fifo_scan bs idx (S way) n
  end.

(** The FIFO loop returns -1 when no block of the set has the pointer; the
    caller then leaves the set, or the array. *)
Definition replace_which_way (c : config_t) (bs : list block_t) (idx : nat) : option (list block_t * nat) :=
  match policy c with
  | LFU =>
      let way := lfu_scan bs idx 0 (associativity c) 0 0 in
      Some (alter (set_counter 0) (idx + way)%nat bs, way)
  | LRU =>
      let way := lru_scan bs idx 0 (associativity c) 0 0 in
      Some (alter (set_counter 1) (idx + way)%nat bs, way)
  | FIFO =>
      way ← fifo_scan bs idx 0 (associativity c);
      let next := Z.to_nat (Z.land (Z.of_nat way + 1) (Z.of_nat (associativity c) - 1)) in
      Some (alter (set_counter 1) (idx + next)%nat (alter (set_counter 0) (idx + way)%nat bs), way)
  end.

(** *** Invalidation *)

Abbreviation store := (list device).

(** The first way, from [way] on, that holds the tag. *)
Fixpoint find_way (bs : list block_t) (idx : nat) (t : Z) (way n : nat) : option nat :=
  match n with
  | O => None
  | S n => if tag (get_block bs (idx + way)) =? t then Some way else find_way bs idx t (S way) n
  end.
Definition lookup_way (v : device) (t : Z) : option nat :=
  find_way (blocks v) (compute_block_idx (cfg v) t) t 0 (associativity (cfg v)).

Definition invalidate_one (v : device) (t : Z) (way : nat) : device :=
  let i := (compute_block_idx (cfg v) t + way)%nat in
  let v := set_blocks v (alter (fun b => set_counter 0 (set_tag TAG_INVALID b)) i (blocks v)) in
  let v := set_stats v (add_invalidate (stats v)) in
  if last_tag v =? t then set_last v TAG_INVALID (last_way v) (last_block_idx v) (last_pid v) else v.

Fixpoint invalidate (fuel : nat) (s : store) (d : nat) (t : Z) : outcome store :=
  match fuel with
  | O => Out_of_fuel
  | S fuel =>
      v ← or_abort (s !! d);
      match lookup_way v t with
      | None => Ret s
      | Some way =>
          let s := <[d := invalidate_one v t way]> s in
          if inclusive (cfg v)
          then foldl (fun r child => s ← r; invalidate fuel s child t) (Ret s) (children (cfg v))
          else Ret s
      end
  end.

(** *** Requests *)

Definition parent_child_access (s : store) (p : option nat) (hit : bool) : store :=
  match p with None => s | Some p => alter (fun v => set_stats v (add_child_hit (stats v) hit)) p s end.

Definition got_from_parent (cur : Z) : Z := if cur =? NOT_FOUND then cur else cur + 1.

(** [caching_device_t::request] on a line that is not the last one, and on the
    lines of a reference that spans several: one turn of its loop.  [req] is
    the call of [request] itself, on the parent and by the prefetcher; [m] is
    the part of the reference in the line [t]. *)
Section Line.
Context (inv : store -> nat -> Z -> outcome store).
Context (req : store -> nat -> memref_t -> outcome (store * Z)).

(** The way chosen by the policy is emptied and takes the tag. *)
Definition fill_way (s : store) (d : nat) (t : Z) : outcome (store * nat) :=
  v ← or_abort (s !! d);
  let idx := compute_block_idx (cfg v) t in
  '(bs, way) ← or_abort (replace_which_way (cfg v) (blocks v) idx);
  let old := tag (get_block bs (idx + way)) in
  let v := set_blocks v bs in
  s ← (if old =? TAG_INVALID then Ret (<[d := set_loaded v (loaded_blocks v + 1)]> s)
       else if inclusive (cfg v)
       then foldl (fun r child => s ← r; inv s child old) (Ret (<[d := v]> s)) (children (cfg v))
       else Ret (<[d := v]> s));
  Ret (alter (fun v => set_blocks v (alter (set_tag t) (idx + way)%nat (blocks v))) d s, way).

Definition miss (s : store) (d : nat) (m : memref_t) (t res : Z) : outcome (store * nat * Z) :=
  v ← or_abort (s !! d);
  let s := <[d := set_stats v (cache_access (stats v) m false)]> s in
  '(s, res) ← (match parent (cfg v) with
               | None => Ret (s, res)
               | Some p => '(s, r) ← req (parent_child_access s (Some p) false) p m; Ret (s, got_from_parent r)
               end);
  '(s, way) ← fill_way s d t;
  Ret (s, way, res).

Definition hit_line (s : store) (d : nat) (m : memref_t) (way : nat) : outcome (store * nat * Z) :=
  v ← or_abort (s !! d);
  let s := <[d := set_stats v (cache_access (stats v) m true)]> s in
  Ret (parent_child_access s (parent (cfg v)) true, way, FOUND_L1).

(** [prefetcher_t::prefetch]: the next line is requested. *)
Definition prefetch (s : store) (d : nat) (m : memref_t) (bytes : Z) : outcome store :=
  '(s, _) ← req s d {| type := TRACE_TYPE_HARDWARE_PREFETCH; pid := pid m; tid := tid m;
                       addr := u64 (addr m + bytes); size := size m |};
  Ret s.

Definition request_line (s : store) (d : nat) (m : memref_t) (t res : Z) : outcome (store * Z) :=
  v ← or_abort (s !! d);
  let idx := compute_block_idx (cfg v) t in
  let found := lookup_way v t in
  '(s, way, res) ← (match found with Some way => hit_line s d m way | None => miss s d m t res end);
  let s := alter (fun v => set_blocks v (access_update (cfg v) (blocks v) idx way)) d s in
  s ← (match found, prefetcher (cfg v) with
       | None, Some bytes => if type_is_prefetch (type m) then Ret s else prefetch s d m bytes
       | _, _ => Ret s
       end);
  Ret (alter (fun v => set_last v t way idx (last_pid v)) d s, res).

(** The loop over the lines of the reference, [n] of them from [t] on. *)
Fixpoint request_lines (n : nat) (s : store) (d : nat) (m : memref_t) (t final_tag final_addr bits res : Z)
    : outcome (store * Z) :=
  match n with
  | O => Ret (s, res)
  | S n =>
      let next_addr := u64 (Z.shiftl (t + 1) bits) in
      let m := if t + 1 <=? final_tag then with_range m (addr m) (u64 (next_addr - addr m)) else m in
      '(s, res) ← request_line s d m t res;
      let m := if t + 1 <=? final_tag then with_range m next_addr (u64 (final_addr - next_addr + 1)) else m in
      request_lines n s d m (t + 1) final_tag final_addr bits res
  end.
End Line.

Fixpoint request (fuel : nat) (s : store) (d : nat) (m : memref_t) : outcome (store * Z) :=
  match fuel with
  | O => Out_of_fuel
  | S fuel =>
      v ← or_abort (s !! d);
      let final_addr := u64 (addr m + size m - 1) in
      let final_tag := compute_tag (cfg v) final_addr in
      let t := compute_tag (cfg v) (addr m) in
      if (t =? final_tag) && (t =? last_tag v)
      then
        if negb (t =? TAG_INVALID) && (t =? tag (get_block (blocks v) (last_block_idx v + last_way v)))
        then
          let s := <[d := set_stats v (cache_access (stats v) m true)]> s in
          let s := parent_child_access s (parent (cfg v)) true in
          Ret (alter (fun v => set_blocks v (access_update (cfg v) (blocks v) (last_block_idx v) (last_way v))) d s,
               NOT_FOUND)
        else Abort
      else
        request_lines (invalidate fuel) (request fuel) (Z.to_nat (final_tag - t + 1)) s d m t final_tag final_addr
          (block_size_bits (cfg v)) NOT_FOUND
  end.

(** *** Flushing ([cache_t::flush]) *)

Definition flush_line (v : device) (t : Z) : device :=
  let idx := compute_block_idx (cfg v) t in
  set_blocks v (foldl (fun bs way =>
    if tag (get_block bs (idx + way)) =? t
    then alter (fun b => set_counter 0 (set_tag TAG_INVALID b)) (idx + way)%nat bs else bs)
    (blocks v) (seq 0 (associativity (cfg v)))).

Definition flush_device (v : device) (m : memref_t) : device :=
  let final_tag := compute_tag (cfg v) (u64 (addr m + size m - 1)) in
  let t := compute_tag (cfg v) (addr m) in
  let v := set_last v TAG_INVALID (last_way v) (last_block_idx v) (last_pid v) in
  foldl flush_line v (map (fun i => t + Z.of_nat i) (seq 0 (Z.to_nat (final_tag - t + 1)))).

Fixpoint flush (fuel : nat) (s : store) (d : nat) (m : memref_t) : outcome store :=
  match fuel with
  | O => Out_of_fuel
  | S fuel =>
      v ← or_abort (s !! d);
      let s := <[d := flush_device v m]> s in
      s ← (match parent (cfg v) with Some p => flush fuel s p m | None => Ret s end);
      Ret (alter (fun v => set_stats v (add_flush (stats v))) d s)
  end.
