(* ===== verification/CachingProof.v ===== *)
(** * Well-formed caching devices

    What the initialisation of a device establishes and every operation keeps:
    the geometry, each tag in its set and only once, the pointer of the FIFO
    policy, and the shortcut for the last tag. *)
From S2P Require Import Prelude CachingDevice.



(** What [init] establishes of the geometry, for a device that is not
    inclusive; a prefetcher needs two sets at least. *)
Record config_ok (c : config_t) : Prop := {
  co_assoc : (0 < associativity c)%nat;
  co_sets : exists k, 0 <= k /\ Z.of_nat (blocks_per_way c) = 2 ^ k /\ k + block_size_bits c <= 62;
  co_blocks : num_blocks c = (blocks_per_way c * associativity c)%nat;
  co_bits : 2 <= block_size_bits c;
  co_size : block_size c = 2 ^ block_size_bits c;
  co_inclusive : inclusive c = false;
  co_prefetcher : forall bytes, prefetcher c = Some bytes -> bytes = block_size c /\ (2 <= blocks_per_way c)%nat
}.

Definition set_of (c : config_t) (t : Z) : nat := Z.to_nat (Z.land t (Z.of_nat (blocks_per_way c) - 1)).

(** The tags of the blocks: each valid one is in its set, and only once. *)
Definition valid_tag (c : config_t) (t : Z) : Prop := 0 <= t < 2 ^ (64 - block_size_bits c).
Record tags_ok (c : config_t) (ts : list Z) : Prop := {
  to_length : length ts = num_blocks c;
  to_placed : forall i t, ts !! i = Some t -> t <> TAG_INVALID -> (i / associativity c)%nat = set_of c t;
  to_distinct : forall i j t, ts !! i = Some t -> ts !! j = Some t -> t <> TAG_INVALID -> i = j
}.

(** Under FIFO every set has a block that holds the pointer. *)
Definition fifo_ok (c : config_t) (bs : list block_t) : Prop :=
  policy c = FIFO -> forall k, (k < blocks_per_way c)%nat ->
  exists way, (way < associativity c)%nat /\ counter (get_block bs (k * associativity c + way)) = 1.

Definition tags (v : device) : list Z := tag <$> blocks v.
Record device_ok (v : device) : Prop := {
  do_config : config_ok (cfg v);
  do_tags : tags_ok (cfg v) (tags v);
  do_fifo : fifo_ok (cfg v) (blocks v)
}.

(** The shortcut for the last tag is right. *)
Definition synced (v : device) : Prop :=
  last_tag v <> TAG_INVALID ->
  tags v !! (last_block_idx v + last_way v)%nat = Some (last_tag v) /\
  last_block_idx v = compute_block_idx (cfg v) (last_tag v) /\ (last_way v < associativity (cfg v))%nat.

(** *** Geometry *)

Section Geometry.
Context (c : config_t) (Hc : config_ok c).

Lemma set_of_mod t : Z.of_nat (set_of c t) = t mod Z.of_nat (blocks_per_way c).
Proof using Hc.
  destruct (co_sets c Hc) as (k & Hk & E & _). unfold set_of. rewrite E, land_mask by lia.
  apply Z2Nat.id, Z.mod_pos_bound. lia.
Qed.

Lemma set_of_bound t : (set_of c t < blocks_per_way c)%nat.
Proof using Hc.
  destruct (co_sets c Hc) as (k & Hk & E & _). pose proof (set_of_mod t) as Hm.
  pose proof (Z.mod_pos_bound t (Z.of_nat (blocks_per_way c)) ltac:(lia)). lia.
Qed.

Lemma block_idx_set t : compute_block_idx c t = (set_of c t * associativity c)%nat.
Proof using. done. Qed.

Lemma slot_bound t way : (way < associativity c)%nat -> (compute_block_idx c t + way < num_blocks c)%nat.
Proof using Hc. intros Hw. rewrite (co_blocks c Hc), block_idx_set. pose proof (set_of_bound t). nia. Qed.

Lemma slot_set t way : (way < associativity c)%nat -> ((compute_block_idx c t + way) / associativity c)%nat = set_of c t.
Proof using Hc.
  intros Hw. pose proof (co_assoc c Hc). rewrite block_idx_set.
  rewrite Nat.div_add_l by lia. rewrite Nat.div_small by lia. lia.
Qed.

Lemma set_slot i t : (i / associativity c)%nat = set_of c t ->
  exists way, (way < associativity c)%nat /\ i = (compute_block_idx c t + way)%nat.
Proof using Hc.
  intros E. pose proof (co_assoc c Hc). exists (i mod associativity c)%nat.
  pose proof (Nat.mod_upper_bound i (associativity c) ltac:(lia)). split; [done|].
  rewrite block_idx_set, <- E. pose proof (Nat.div_mod_eq i (associativity c)). lia.
Qed.

Lemma valid_tag_valid t : valid_tag c t -> t <> TAG_INVALID.
Proof using Hc.
  pose proof (co_bits c Hc). unfold valid_tag, TAG_INVALID.
  assert (2 ^ (64 - block_size_bits c) <= 2 ^ 62); [|lia]. apply Z.pow_le_mono_r; lia.
Qed.

Lemma compute_tag_valid a : 0 <= a < w64 -> valid_tag c (compute_tag c a).
Proof using Hc.
  intros Ha. pose proof (co_bits c Hc). destruct (co_sets c Hc) as (k & ? & _ & ?).
  unfold valid_tag, compute_tag. rewrite shiftr_div by lia. split; [apply Z.div_pos; lia|].
  apply Z.div_lt_upper_bound; [lia|]. rewrite <- Z.pow_add_r by lia.
  replace (block_size_bits c + (64 - block_size_bits c)) with 64 by lia. lia.
Qed.

(** The line after [t], which the prefetcher asks for, is in another set. *)
Lemma next_line_tag a bytes : prefetcher c = Some bytes ->
  compute_tag c (u64 (a + bytes)) = (compute_tag c a + 1) mod 2 ^ (64 - block_size_bits c).
Proof using Hc.
  intros Hp. destruct (co_prefetcher c Hc _ Hp) as [-> _]. pose proof (co_bits c Hc).
  destruct (co_sets c Hc) as (k & ? & _ & ?). rewrite (co_size c Hc).
  unfold compute_tag, u64. rewrite !shiftr_div by lia.
  set (b := 2 ^ block_size_bits c). assert (0 < b) by (apply Z.pow_pos_nonneg; lia).
  replace w64 with (b * 2 ^ (64 - block_size_bits c)).
  2:{ unfold b. rewrite <- Z.pow_add_r by lia. by replace (block_size_bits c + (64 - block_size_bits c)) with 64 by lia. }
  replace (a / b + 1) with ((a + b) / b); [|rewrite <- Z.div_add by lia; f_equal; lia].
  rewrite (Z.rem_mul_r (a + b) b) by lia.
  rewrite Z.add_comm, Z.mul_comm, Z.div_add_l by lia.
  rewrite (Z.div_small ((a + b) mod b)) by (apply Z.mod_pos_bound; lia). lia.
Qed.

Lemma next_line_set t bytes : prefetcher c = Some bytes ->
  set_of c ((t + 1) mod 2 ^ (64 - block_size_bits c)) <> set_of c t.
Proof using Hc.
  intros Hp E. destruct (co_prefetcher c Hc _ Hp) as [_ H2]. destruct (co_sets c Hc) as (k & Hk & Ek & Hb).
  pose proof (co_bits c Hc). apply (f_equal Z.of_nat) in E. rewrite !set_of_mod in E.
  rewrite Ek in E. assert (Hd : (2 ^ k | 2 ^ (64 - block_size_bits c))).
  { exists (2 ^ (64 - block_size_bits c - k)). rewrite <- Z.pow_add_r by lia. f_equal. lia. }
  rewrite (Z.mod_mod_divide _ _ _ Hd) in E.
  assert (Hm : (t + 1) mod 2 ^ k = t mod 2 ^ k) by lia.
  assert (H1 : 2 <= 2 ^ k) by lia. pose proof (Z.mod_pos_bound t (2 ^ k) ltac:(lia)).
  rewrite <- Z.add_mod_idemp_l in Hm by lia.
  destruct (decide (t mod 2 ^ k = 2 ^ k - 1)) as [e|].
  - rewrite e in Hm. replace (2 ^ k - 1 + 1) with (1 * 2 ^ k) in Hm by lia. rewrite Z.mod_mul in Hm; lia.
  - rewrite Z.mod_small in Hm; lia.
Qed.
End Geometry.

(** *** Blocks *)

Lemma get_block_alter f i j bs : (i < length bs)%nat ->
  get_block (alter f i bs) j = if decide (i = j) then f (get_block bs j) else get_block bs j.
Proof.
  intros Hi. unfold get_block. case_decide; subst.
  - rewrite list_lookup_alter_eq. destruct (lookup_lt_is_Some_2 bs j Hi) as [b ->]. done.
  - by rewrite list_lookup_alter_ne.
Qed.

Lemma tags_alter f i (bs : list block_t) : (forall b, tag (f b) = tag b) -> tag <$> alter f i bs = tag <$> bs.
Proof.
  intros Hf. apply list_eq. intros j. rewrite !list_lookup_fmap. destruct (decide (i = j)) as [->|].
  - rewrite list_lookup_alter_eq. destruct (bs !! j); cbn; [by rewrite Hf|done].
  - by rewrite list_lookup_alter_ne.
Qed.

Lemma tags_set_tag t i (bs : list block_t) : tag <$> alter (set_tag t) i bs = <[i := t]> (tag <$> bs).
Proof.
  apply list_eq. intros j. rewrite list_lookup_fmap. destruct (decide (i = j)) as [->|].
  - rewrite list_lookup_alter_eq. destruct (bs !! j) eqn:E; cbn.
    + rewrite list_lookup_insert_eq; [done|]. rewrite length_fmap. by eapply lookup_lt_Some.
    + symmetry. apply lookup_ge_None. rewrite length_insert, length_fmap. by apply lookup_ge_None.
  - rewrite list_lookup_alter_ne, list_lookup_insert_ne by done. by rewrite list_lookup_fmap.
Qed.

Lemma get_block_tag bs i : (i < length bs)%nat -> (tag <$> bs) !! i = Some (tag (get_block bs i)).
Proof. intros Hi. rewrite list_lookup_fmap. unfold get_block. destruct (lookup_lt_is_Some_2 bs i Hi) as [b ->]. done. Qed.

Lemma tag_of_lookup bs i t : (tag <$> bs) !! i = Some t -> tag (get_block bs i) = t.
Proof. rewrite list_lookup_fmap. unfold get_block. destruct (bs !! i); [|done]. by intros [= <-]. Qed.

Lemma length_tags v : length (tags v) = length (blocks v).
Proof. apply length_fmap. Qed.

Lemma lru_age_tags bs idx way cnt i : tag <$> lru_age bs idx way cnt i = tag <$> bs.
Proof. unfold lru_age. case_match; [|done]. by rewrite tags_alter. Qed.

Lemma lru_ages_tags ways bs idx way cnt : tag <$> foldl (fun bs i => lru_age bs idx way cnt i) bs ways = tag <$> bs.
Proof. revert bs. induction ways as [|i ways IH]; intros bs; [done|]. cbn [foldl]. by rewrite IH, lru_age_tags. Qed.

Lemma access_update_tags c bs idx way : tag <$> access_update c bs idx way = tag <$> bs.
Proof.
  unfold access_update. destruct (policy c); [by rewrite tags_alter| |done].
  cbv zeta. case_match; [done|]. by rewrite tags_alter, lru_ages_tags.
Qed.

Lemma access_update_fifo c bs idx way : fifo_ok c bs -> fifo_ok c (access_update c bs idx way).
Proof. intros Hf Hp. unfold access_update. rewrite Hp. by apply Hf. Qed.

Lemma lfu_scan_bound bs idx n way best bw assoc : (way + n = assoc)%nat -> (bw < assoc)%nat -> (lfu_scan bs idx way n best bw < assoc)%nat.
Proof. revert way best bw. induction n; intros way best bw ? ?; cbn; [done|]. repeat case_match; try (apply IHn; lia); lia. Qed.
Lemma lru_scan_bound bs idx n way best bw assoc : (way + n = assoc)%nat -> (bw < assoc)%nat -> (lru_scan bs idx way n best bw < assoc)%nat.
Proof. revert way best bw. induction n; intros way best bw ? ?; cbn; [done|]. repeat case_match; try (apply IHn; lia); lia. Qed.
Lemma fifo_scan_some bs idx n way w : fifo_scan bs idx way n = Some w -> (way <= w < way + n)%nat.
Proof. revert way. induction n as [|n IH]; intros way; cbn; [done|]. case_match; [intros [= <-]; lia|intros H'%IH; lia]. Qed.
Lemma fifo_scan_found bs idx n way w : (way <= w < way + n)%nat -> counter (get_block bs (idx + w)) = 1 ->
  is_Some (fifo_scan bs idx way n).
Proof.
  revert way. induction n as [|n IH]; intros way Hw Hc; [lia|]. cbn. case_match eqn:E; [done|]. zbool.
  apply IH; [|done]. destruct (decide (way = w)) as [->|]; [done|lia].
Qed.

Lemma next_way (way assoc : nat) : (0 < assoc)%nat -> (Z.to_nat (Z.land (Z.of_nat way + 1) (Z.of_nat assoc - 1)) < assoc)%nat.
Proof.
  intros Ha. assert (0 <= Z.land (Z.of_nat way + 1) (Z.of_nat assoc - 1) <= Z.of_nat assoc - 1); [|lia].
  split; [apply Z.land_nonneg; lia|]. rewrite Z.land_comm.
  apply Z.ldiff_le; [lia|]. apply Z.bits_inj'. intros n Hn. rewrite Z.ldiff_spec, Z.land_spec, Z.bits_0.
  by destruct (Z.testbit (Z.of_nat assoc - 1) n), (Z.testbit (Z.of_nat way + 1) n).
Qed.

(** The policy chooses a way of the set and leaves the tags as they are. *)
Lemma replace_ok c bs t : config_ok c -> length bs = num_blocks c -> fifo_ok c bs ->
  exists bs' way, replace_which_way c bs (compute_block_idx c t) = Some (bs', way) /\
    (way < associativity c)%nat /\ tag <$> bs' = tag <$> bs /\ fifo_ok c bs'.
Proof.
  intros Hc Hl Hf. pose proof (co_assoc c Hc) as Ha. unfold replace_which_way.
  destruct (policy c) eqn:Hp; [eexists _, _; split; [done|]..|].
  - split; [by apply lfu_scan_bound|]. split; [by rewrite tags_alter|]. intros E. congruence.
  - split; [by apply lru_scan_bound|]. split; [by rewrite tags_alter|]. intros E. congruence.
  - destruct (Hf Hp (set_of c t) (set_of_bound c Hc t)) as (w & Hw & Hcnt).
    destruct (fifo_scan_found bs (compute_block_idx c t) (associativity c) 0 w) as [way E]; [lia|done|].
    rewrite E. cbn. apply fifo_scan_some in E. pose proof (next_way way (associativity c) Ha) as Hn.
    eexists _, _. split; [done|]. split; [lia|]. split; [by rewrite !tags_alter|].
    intros _ k Hk. set (next := Z.to_nat _) in *.
    pose proof (slot_bound c Hc t next Hn). pose proof (slot_bound c Hc t way ltac:(lia)).
    destruct (decide (k = set_of c t)) as [->|Hne].
    + exists next. split; [done|]. rewrite get_block_alter by (rewrite length_alter; lia). by rewrite decide_True.
    + destruct (Hf Hp k Hk) as (w' & Hw' & E'). exists w'. split; [done|].
      rewrite !get_block_alter by (rewrite ?length_alter; lia). rewrite block_idx_set.
      rewrite !decide_False by nia. done.
Qed.

(** *** Looking a tag up *)

Lemma find_way_some bs idx t n way w : (idx + way + n <= length bs)%nat -> find_way bs idx t way n = Some w ->
  (way <= w < way + n)%nat /\ (tag <$> bs) !! (idx + w)%nat = Some t.
Proof.
  revert way. induction n as [|n IH]; intros way Hl; cbn; [done|]. case_match eqn:E; zbool.
  - intros [= <-]. split; [lia|]. rewrite get_block_tag by lia. by rewrite E.
  - intros H'. apply IH in H' as [? ?]; [split; [lia|done]|lia].
Qed.

Lemma find_way_none bs idx t n way : (idx + way + n <= length bs)%nat -> find_way bs idx t way n = None ->
  forall w, (way <= w < way + n)%nat -> (tag <$> bs) !! (idx + w)%nat <> Some t.
Proof.
  revert way. induction n as [|n IH]; intros way Hl; cbn; [intros _ w; lia|]. case_match eqn:E; [done|]. zbool.
  intros H' w Hw. destruct (decide (way = w)) as [->|]; [|apply (IH (S way)); [lia|done|lia]].
  rewrite get_block_tag by lia. by intros [= ?].
Qed.

Section Lookup.
Context (v : device) (Hv : device_ok v) (t : Z) (Ht : valid_tag (cfg v) t).

Lemma set_in_range : (compute_block_idx (cfg v) t + 0 + associativity (cfg v) <= length (blocks v))%nat.
Proof using Hv.
  rewrite <- length_tags, (to_length _ _ (do_tags v Hv)), (co_blocks _ (do_config v Hv)), block_idx_set.
  pose proof (set_of_bound _ (do_config v Hv) t). nia.
Qed.

Lemma lookup_way_some w : lookup_way v t = Some w ->
  (w < associativity (cfg v))%nat /\ tags v !! (compute_block_idx (cfg v) t + w)%nat = Some t.
Proof using Hv. intros H'. apply find_way_some in H' as [? ?]; [split; [lia|done]|apply set_in_range]. Qed.

Lemma lookup_way_none : lookup_way v t = None <-> t ∉ tags v.
Proof using Hv Ht.
  split.
  - intros H' (i & Hi)%list_elem_of_lookup. pose proof (valid_tag_valid _ (do_config v Hv) t Ht) as Hn.
    destruct (set_slot _ (do_config v Hv) i t) as (way & Hw & ->).
    { by eapply to_placed; [apply do_tags|..]. }
    eapply find_way_none in H'; [|apply set_in_range|split; [lia|exact Hw]]. done.
  - intros Hn. destruct (lookup_way v t) as [w|] eqn:E; [|done]. destruct Hn.
    apply lookup_way_some in E as [_ E]. by eapply list_elem_of_lookup_2.
Qed.
End Lookup.

(** A tag that is not there can be put in any way of its set. *)
Lemma tags_ok_insert c ts t way : config_ok c -> tags_ok c ts -> t ∉ ts -> (way < associativity c)%nat ->
  tags_ok c (<[(compute_block_idx c t + way)%nat := t]> ts).
Proof.
  intros Hc [Hl Hp Hd] Hn Hw. pose proof (slot_bound c Hc t way Hw). constructor.
  - by rewrite length_insert.
  - intros i u [[<- [<- _]]|[? E]]%list_lookup_insert_Some; [intros _; by apply slot_set|by apply Hp].
  - intros i j u Hi Hj Hu. apply list_lookup_insert_Some in Hi as [[Ei [<- _]]|[Ei Hi]], Hj as [[Ej [E _]]|[Ej Hj]]; try congruence.
    + exfalso. apply Hn. by eapply list_elem_of_lookup_2.
    + subst. exfalso. apply Hn. by eapply list_elem_of_lookup_2.
    + by eapply Hd.
Qed.
