(* ===== verification/CacheRequest.v ===== *)
(** * Requests on a hierarchy of caches

    A request to any cache of a well-formed hierarchy runs to its end without
    failing an assertion, keeps the hierarchy well formed, and answers with the
    nearest level that holds the line. *)
From S2P Require Import Prelude CachingDevice CachingProof.

(** ** Hierarchies *)

(** The parents of a device come before it in the store and have the same line
    size. *)
Record linked (s : store) (d : nat) (v : device) : Prop := {
  li_device : device_ok v;
  li_parent : forall p, parent (cfg v) = Some p ->
    (p < d)%nat /\ exists u, s !! p = Some u /\ block_size_bits (cfg u) = block_size_bits (cfg v)
}.
Definition store_ok (s : store) : Prop := forall d v, s !! d = Some v -> linked s d v.
Definition synced_below (n : nat) (s : store) : Prop := forall j v, (j < n)%nat -> s !! j = Some v -> synced v.

(** What a reader of the cache's contents sees of a device. *)
Definition view (v : device) : config_t * list Z * Z := (cfg v, tags v, last_tag v).

(** [v'] is [v] up to counters: the same tags and shortcut, and as well formed. *)
Record same_lines (v v' : device) : Prop := {
  sl_cfg : cfg v' = cfg v; sl_tags : tags v' = tags v; sl_last : last_tag v' = last_tag v;
  sl_way : last_way v' = last_way v; sl_idx : last_block_idx v' = last_block_idx v;
  sl_fifo : fifo_ok (cfg v) (blocks v) -> fifo_ok (cfg v') (blocks v')
}.

Lemma same_lines_refl v : same_lines v v.
Proof. by constructor. Qed.
Lemma same_lines_trans u v w : same_lines u v -> same_lines v w -> same_lines u w.
Proof. intros [] []. constructor; try congruence. auto. Qed.

Lemma same_lines_ok v v' : same_lines v v' -> device_ok v -> device_ok v'.
Proof. intros [E1 E2 _ _ _ HF] [Hc Ht Hf]. constructor; [by rewrite E1|by rewrite E1, E2|auto]. Qed.
Lemma same_lines_synced v v' : same_lines v v' -> synced v -> synced v'.
Proof. intros [E1 E2 E3 E4 E5 _] Hs. unfold synced. rewrite E1, E2, E3, E4, E5. exact Hs. Qed.

Lemma same_stats v st : same_lines v (set_stats v st).
Proof. by constructor. Qed.
Lemma same_update v idx way : same_lines v (set_blocks v (access_update (cfg v) (blocks v) idx way)).
Proof. constructor; try done; [apply access_update_tags|apply access_update_fifo]. Qed.

(** Stores that differ in counters only. *)
Definition same_store (s s' : store) : Prop :=
  forall j, match s !! j, s' !! j with
            | Some v, Some v' => same_lines v v' | None, None => True | _, _ => False end.

Lemma same_store_refl s : same_store s s.
Proof. intros j. destruct (s !! j); [apply same_lines_refl|done]. Qed.
Lemma same_store_trans s1 s2 s3 : same_store s1 s2 -> same_store s2 s3 -> same_store s1 s3.
Proof.
  intros H1 H2 j. specialize (H1 j). specialize (H2 j). destruct (s1 !! j), (s2 !! j), (s3 !! j); try done.
  by eapply same_lines_trans.
Qed.
Lemma same_store_insert s d v v' : s !! d = Some v -> same_lines v v' -> same_store s (<[d := v']> s).
Proof.
  intros E HS j. destruct (decide (d = j)) as [<-|].
  - rewrite list_lookup_insert_eq by (by eapply lookup_lt_Some). by rewrite E.
  - rewrite list_lookup_insert_ne by done. destruct (s !! j); [apply same_lines_refl|done].
Qed.
Lemma same_store_child_access s p hit : same_store s (parent_child_access s p hit).
Proof.
  intros j. destruct p as [p|]; [|apply same_store_refl]. cbn. destruct (decide (p = j)) as [<-|].
  - rewrite list_lookup_alter_eq. destruct (s !! p); [apply same_stats|done].
  - rewrite list_lookup_alter_ne by done. destruct (s !! j); [apply same_lines_refl|done].
Qed.

Lemma same_store_lookup s s' j v : same_store s s' -> s !! j = Some v -> exists v', s' !! j = Some v' /\ same_lines v v'.
Proof. intros HS E. specialize (HS j). rewrite E in HS. destruct (s' !! j) as [v'|]; [by exists v'|done]. Qed.
Lemma same_store_lookup' s s' j v' : same_store s s' -> s' !! j = Some v' -> exists v, s !! j = Some v /\ same_lines v v'.
Proof. intros HS E. specialize (HS j). rewrite E in HS. destruct (s !! j) as [v|]; [by exists v|done]. Qed.

Lemma same_store_ok s s' : same_store s s' -> store_ok s -> store_ok s'.
Proof.
  intros HS Hs d v' E. destruct (same_store_lookup' _ _ _ _ HS E) as (v & Ev & Hv). destruct (Hs d v Ev) as [Hd Hp].
  constructor; [by eapply same_lines_ok|]. intros p. rewrite (sl_cfg _ _ Hv). intros Hpar.
  destruct (Hp p Hpar) as (Hlt & u & Eu & Hb). split; [done|].
  destruct (same_store_lookup _ _ _ _ HS Eu) as (u' & Eu' & Hu). exists u'. split; [done|]. by rewrite (sl_cfg _ _ Hu).
Qed.
Lemma same_store_synced n s s' : same_store s s' -> synced_below n s -> synced_below n s'.
Proof.
  intros HS Hs j v' Hj E. destruct (same_store_lookup' _ _ _ _ HS E) as (v & Ev & Hv).
  eapply same_lines_synced; [done|]. by eapply Hs.
Qed.

(** ** The level that answers *)

(** The first level, from [d] on towards memory, that holds the line of [a];
    but a level whose last access was to this very line answers 0, as memory
    does. *)
Fixpoint nearest (n : nat) (s : store) (d : nat) (a : Z) : Z :=
  match n with
  | O => NOT_FOUND
  | S n =>
      match s !! d with
      | None => NOT_FOUND
      | Some v =>
          let t := compute_tag (cfg v) a in
          if t =? last_tag v then NOT_FOUND
          else if bool_decide (t ∈ tags v) then FOUND_L1
          else match parent (cfg v) with None => NOT_FOUND | Some p => got_from_parent (nearest n s p a) end
      end
  end.

Lemma nearest_eq n s d v a : s !! d = Some v ->
  nearest (S n) s d a =
    if compute_tag (cfg v) a =? last_tag v then NOT_FOUND
    else if bool_decide (compute_tag (cfg v) a ∈ tags v) then FOUND_L1
    else match parent (cfg v) with None => NOT_FOUND | Some p => got_from_parent (nearest n s p a) end.
Proof. intros E. cbn. by rewrite E. Qed.

Lemma nearest_fuel n m s d a : store_ok s -> (d < n)%nat -> (d < m)%nat -> nearest n s d a = nearest m s d a.
Proof.
  intros Hs. revert n m. induction d as [d IH] using lt_wf_ind. intros n m Hn Hm.
  destruct n as [|n], m as [|m]; try lia. cbn. destruct (s !! d) as [v|] eqn:E; [|done].
  destruct (parent (cfg v)) as [p|] eqn:Hp; [|done]. destruct (li_parent _ _ _ (Hs d v E) p Hp) as [Hlt _].
  by rewrite (IH p Hlt n m) by lia.
Qed.

Lemma nearest_same n s s' d a : same_store s s' -> nearest n s' d a = nearest n s d a.
Proof.
  intros HS. revert d. induction n as [|n IH]; intros d; [done|]. cbn. specialize (HS d).
  destruct (s !! d), (s' !! d); try done. destruct HS as [E1 E2 E3 _ _ _]. rewrite E1, E2, E3.
  repeat case_match; try done; try congruence.
Qed.

(** ** Steps *)

Lemma alter_insert_self {A} (f : A -> A) d v (s : list A) : (d < length s)%nat -> alter f d (<[d := v]> s) = <[d := f v]> s.
Proof.
  intros Hd. apply list_eq. intros j. destruct (decide (d = j)) as [<-|].
  - rewrite list_lookup_alter_eq, !list_lookup_insert_eq by done. done.
  - by rewrite list_lookup_alter_ne, !list_lookup_insert_ne by done.
Qed.
Lemma alter_self {A} (f : A -> A) d v (s : list A) : s !! d = Some v -> alter f d s = <[d := f v]> s.
Proof. intros E. rewrite <- alter_insert_self by (by eapply lookup_lt_Some). by rewrite list_insert_id. Qed.

(** The way emptied by the policy takes the tag; nothing else changes. *)
Record filled (v v' : device) (t : Z) (way : nat) : Prop := {
  fi_cfg : cfg v' = cfg v; fi_way : (way < associativity (cfg v))%nat;
  fi_tags : tags v' = <[(compute_block_idx (cfg v) t + way)%nat := t]> (tags v);
  fi_last : last_tag v' = last_tag v; fi_last_way : last_way v' = last_way v; fi_last_idx : last_block_idx v' = last_block_idx v;
  fi_ok : device_ok v'
}.

(** The blocks of a device once its policy has made room for the line. *)
Definition chosen (c : config_t) (bs : list block_t) (t : Z) : option (list block_t * nat) :=
  match find_way bs (compute_block_idx c t) t 0 (associativity c) with
  | Some way => Some (bs, way)
  | None =>
      '(bs, way) ← replace_which_way c bs (compute_block_idx c t);
      Some (alter (set_tag t) (compute_block_idx c t + way)%nat bs, way)
  end.
(** The blocks after a request to the line, as far as no prefetch follows. *)
Definition touched (c : config_t) (bs : list block_t) (t : Z) : option (list block_t) :=
  '(bs, way) ← chosen c bs t; Some (access_update c bs (compute_block_idx c t) way).

Lemma fill_way_ok inv s d v t : s !! d = Some v -> device_ok v -> valid_tag (cfg v) t -> t ∉ tags v ->
  exists v' way, fill_way inv s d t = Ret (<[d := v']> s, way) /\ filled v v' t way /\
    chosen (cfg v) (blocks v) t = Some (blocks v', way).
Proof.
  intros E Hv Ht Hn. assert (Hlook : lookup_way v t = None) by (by apply lookup_way_none). pose proof Hv as [Hc Hts Hf].
  assert (Hl : length (blocks v) = num_blocks (cfg v)) by (rewrite <- length_tags; apply Hts).
  destruct (replace_ok (cfg v) (blocks v) t Hc Hl Hf) as (bs & way & Er & Hw & Et & Hf').
  assert (Hd : (d < length s)%nat) by (by eapply lookup_lt_Some).
  assert (Hfill : forall n, filled v (set_blocks (set_loaded (set_blocks v bs) n) (alter (set_tag t) (compute_block_idx (cfg v) t + way)%nat bs)) t way).
  { intros n. assert (Et' : tag <$> alter (set_tag t) (compute_block_idx (cfg v) t + way)%nat bs =
                           <[(compute_block_idx (cfg v) t + way)%nat := t]> (tags v)) by (by rewrite tags_set_tag, Et).
    constructor; try done. constructor; [done| |].
    - unfold tags. cbn [blocks set_blocks cfg]. rewrite Et'. by apply tags_ok_insert.
    - cbn. intros Hp k Hk. destruct (Hf' Hp k Hk) as (w & Hw' & Ew). exists w. split; [done|].
      assert (Hlb : length bs = num_blocks (cfg v)) by (rewrite <- Hl, <- (length_fmap tag), Et; apply length_fmap).
      rewrite get_block_alter; [by case_decide|]. rewrite Hlb. by apply slot_bound. }
  unfold fill_way. rewrite E. cbn [or_abort mbind outcome_bind]. cbv zeta. rewrite Er. cbn [or_abort mbind outcome_bind].
  cbn [cfg blocks set_blocks loaded_blocks]. rewrite (co_inclusive _ Hc).
  case_match; cbn [mbind outcome_bind]; rewrite alter_insert_self by done; eexists _, _; (split; [reflexivity|]);
    (split; [first [apply Hfill|exact (Hfill (loaded_blocks v))]|]);
    unfold chosen; unfold lookup_way in Hlook; by rewrite Hlook, Er.
Qed.

(** What every request keeps. *)
Record step_post (s s' : store) (d : nat) : Prop := {
  sp_ok : store_ok s';
  sp_below : synced_below d s';
  sp_above : forall j, (d < j)%nat -> s' !! j = s !! j;
  sp_cfg : forall j, cfg <$> s' !! j = cfg <$> s !! j
}.

(** What a request inside one line does to the device: the line is there, and
    whatever else is there was, except for the next line if it is prefetched. *)
Definition next_tag (c : config_t) (t : Z) : Z := (t + 1) mod 2 ^ (64 - block_size_bits c).
Record line_post (v v' : device) (t : Z) (pf : bool) : Prop := {
  lp_cfg : cfg v' = cfg v;
  lp_synced : synced v';
  lp_last : last_tag v' = t;
  lp_holds : t ∈ tags v';
  lp_kept : pf = true \/ prefetcher (cfg v) = None ->
            forall i, (i / associativity (cfg v))%nat <> set_of (cfg v) t -> tags v' !! i = tags v !! i;
  lp_blocks : pf = true \/ prefetcher (cfg v) = None -> touched (cfg v) (blocks v) t = Some (blocks v');
  lp_contents : forall u, u ∈ tags v' -> u ∈ tags v \/ u = t \/ (pf = false /\ is_Some (prefetcher (cfg v)) /\ u = next_tag (cfg v) t)
}.

Definition mem_ok (m : memref_t) : Prop := 0 <= addr m < w64.
Definition final_addr (m : memref_t) : Z := u64 (addr m + size m - 1).
Definition single (c : config_t) (m : memref_t) : Prop := compute_tag c (addr m) = compute_tag c (final_addr m).
Definition cost (m : memref_t) : nat := if type_is_prefetch (type m) then 1 else 2.

Lemma set_stats_filled v st v' t way : filled (set_stats v st) v' t way -> filled v v' t way.
Proof. intros [? ? ? ? ? ? ?]. by constructor. Qed.

Lemma filled_update v v' t way idx w : filled v v' t way ->
  filled v (set_blocks v' (access_update (cfg v') (blocks v') idx w)) t way.
Proof.
  intros [E1 Hw E2 E3 E4 E5 Hok]. pose proof (same_update v' idx w) as HS.
  constructor; try done; [by rewrite (sl_tags _ _ HS)|by eapply same_lines_ok].
Qed.

Lemma filled_holds v v' t way : device_ok v -> filled v v' t way ->
  tags v' !! (compute_block_idx (cfg v) t + way)%nat = Some t.
Proof.
  intros Hv Hf. rewrite (fi_tags _ _ _ _ Hf). apply list_lookup_insert_eq.
  rewrite (to_length _ _ (do_tags _ Hv)). apply slot_bound; [apply Hv|apply (fi_way _ _ _ _ Hf)].
Qed.

(** Filling a way leaves the shortcut right when its line is in another set. *)
Lemma filled_synced v v' t way : device_ok v -> filled v v' t way -> synced v ->
  set_of (cfg v) (last_tag v) <> set_of (cfg v) t -> synced v'.
Proof.
  intros Hv Hf Hs Hne. pose proof (do_config v Hv) as Hc. destruct Hf as [E1 Hw E2 E3 E4 E5 _].
  unfold synced. rewrite E1, E2, E3, E4, E5. intros Hl. destruct (Hs Hl) as (E & Ei & Hlw). split; [|done].
  rewrite list_lookup_insert_ne; [done|]. intros Heq. apply Hne.
  rewrite <- (slot_set _ Hc (last_tag v) _ Hlw), <- Ei, <- Heq. by apply slot_set.
Qed.

Lemma set_last_synced v t way p : (way < associativity (cfg v))%nat ->
  tags v !! (compute_block_idx (cfg v) t + way)%nat = Some t -> synced (set_last v t way (compute_block_idx (cfg v) t) p).
Proof. intros Hw E _. done. Qed.

(** *** Composing steps *)

Lemma store_ok_insert s d v v' : store_ok s -> s !! d = Some v -> device_ok v' -> cfg v' = cfg v -> store_ok (<[d := v']> s).
Proof.
  intros Hs E Hok Ec j u Hu. assert (Hd : (d < length s)%nat) by (by eapply lookup_lt_Some).
  assert (Hpar : forall w, linked s j w -> cfg u = cfg w -> device_ok u -> linked (<[d := v']> s) j u).
  { intros w [_ Hp] Eu Hu'. constructor; [done|]. intros p. rewrite Eu. intros Hpp. destruct (Hp p Hpp) as (Hlt & x & Ex & Hb).
    split; [done|]. destruct (decide (p = d)) as [->|].
    - exists v'. rewrite list_lookup_insert_eq by done. split; [done|]. rewrite Ec. congruence.
    - exists x. by rewrite list_lookup_insert_ne. }
  destruct (decide (j = d)) as [->|Hne].
  - rewrite list_lookup_insert_eq in Hu by done. injection Hu as <-. by apply (Hpar v); [apply Hs|..].
  - rewrite list_lookup_insert_ne in Hu by done. apply (Hpar u); [by apply Hs|done|apply (Hs j u Hu)].
Qed.

Lemma step_refl s d : store_ok s -> synced_below d s -> step_post s s d.
Proof. by constructor. Qed.

Lemma step_trans s1 s2 s3 d : step_post s1 s2 d -> step_post s2 s3 d -> step_post s1 s3 d.
Proof.
  intros [_ _ H1 H2] [H3 H4 H5 H6]. constructor; [done..| |].
  - intros j Hj. by rewrite H5, H1.
  - intros j. by rewrite H6, H2.
Qed.

Lemma step_insert s d v v' : store_ok s -> synced_below d s -> s !! d = Some v -> device_ok v' -> cfg v' = cfg v ->
  step_post s (<[d := v']> s) d.
Proof.
  intros Hs Hb E Hok Ec. constructor.
  - by eapply store_ok_insert.
  - intros j u Hj Eu. rewrite list_lookup_insert_ne in Eu by lia. by eapply Hb.
  - intros j Hj. by rewrite list_lookup_insert_ne by lia.
  - intros j. destruct (decide (d = j)) as [<-|]; [|by rewrite list_lookup_insert_ne].
    rewrite list_lookup_insert_eq by (by eapply lookup_lt_Some). rewrite E. cbn. by rewrite Ec.
Qed.

Lemma step_child_access s d v hit : store_ok s -> synced_below d s -> s !! d = Some v ->
  step_post s (parent_child_access s (parent (cfg v)) hit) d /\ parent_child_access s (parent (cfg v)) hit !! d = Some v.
Proof.
  intros Hs Hb E. pose proof (same_store_child_access s (parent (cfg v)) hit) as HS.
  assert (Hab : forall j, (d <= j)%nat -> parent_child_access s (parent (cfg v)) hit !! j = s !! j).
  { intros j Hj. destruct (parent (cfg v)) as [p|] eqn:Hp; [|done]. cbn.
    destruct (li_parent _ _ _ (Hs d v E) p Hp) as [Hlt _]. apply list_lookup_alter_ne. lia. }
  split; [|by rewrite Hab by lia]. constructor.
  - by eapply same_store_ok.
  - by eapply same_store_synced.
  - intros j Hj. apply Hab. lia.
  - intros j. specialize (HS j). destruct (s !! j), (parent_child_access _ _ _ !! j); try done. cbn. by rewrite (sl_cfg _ _ HS).
Qed.

(** A step of the parent [p] is one of the child [d]. *)
Lemma step_parent s s' p d u u' : synced_below d s -> (p < d)%nat -> step_post s s' p -> s !! p = Some u -> s' !! p = Some u' ->
  synced u' \/ u' = u -> step_post s s' d.
Proof.
  intros Hb Hlt [H1 H2 H3 H4] E E' Hu. constructor; [done| |intros; apply H3; lia|done].
  intros j w Hj Ej. destruct (lt_eq_lt_dec j p) as [[Hjp| ->]|Hjp]; [by eapply H2| |].
  - rewrite E' in Ej. injection Ej as <-. destruct Hu as [|Hu]; [done|]. subst. by eapply Hb.
  - rewrite H3 in Ej by done. by eapply Hb.
Qed.

Lemma single_next c m bytes : config_ok c -> prefetcher c = Some bytes -> single c m ->
  let m' := {| type := TRACE_TYPE_HARDWARE_PREFETCH; pid := pid m; tid := tid m; addr := u64 (addr m + bytes); size := size m |} in
  single c m' /\ compute_tag c (addr m') = next_tag c (compute_tag c (addr m)).
Proof.
  intros Hc Hp Hs. cbn zeta. split; [|by apply next_line_tag]. unfold single, final_addr. cbn [addr size].
  rewrite (next_line_tag c Hc _ _ Hp). rewrite Hs. unfold final_addr. rewrite <- (next_line_tag c Hc _ _ Hp). f_equal.
  rewrite u64_add_l. replace (u64 (addr m + bytes) + size m - 1) with (u64 (addr m + bytes) + (size m - 1)) by lia.
  rewrite u64_add_l. f_equal. lia.
Qed.

(** ** One line *)

Definition request_spec (fuel : nat) : Prop := forall s d m v,
  store_ok s -> synced_below d s -> s !! d = Some v -> mem_ok m ->
  (last_tag v = compute_tag (cfg v) (addr m) -> synced v) -> (type_is_prefetch (type m) = false -> synced v) ->
  (d + cost m <= fuel)%nat ->
  exists s' r v', request fuel s d m = Ret (s', r) /\ step_post s s' d /\ s' !! d = Some v' /\ (synced v' \/ v' = v) /\
    (single (cfg v) m -> r = nearest (S d) s d (addr m) /\
       line_post v v' (compute_tag (cfg v) (addr m)) (type_is_prefetch (type m))).

Section OneLine.
Context (fuel : nat) (IH : request_spec fuel) (inv : store -> nat -> Z -> outcome store).
Context (s : store) (d : nat) (m : memref_t) (v : device).
Context (Hs : store_ok s) (Hb : synced_below d s) (E : s !! d = Some v) (Hm : mem_ok m) (H1 : single (cfg v) m).
Context (Hsync : type_is_prefetch (type m) = false -> synced v) (Hfuel : (d + cost m <= S fuel)%nat).
#[local] Abbreviation t := (compute_tag (cfg v) (addr m)).

Lemma line_device : device_ok v.
Proof using Hs E. apply (Hs d v E). Qed.
Lemma line_valid : valid_tag (cfg v) t.
Proof using Hs E Hm. apply compute_tag_valid; [apply line_device|done]. Qed.

(** The tag found, or brought in from the parent. *)
Lemma miss_ok res : t ∉ tags v ->
  exists s' way r v', miss inv (request fuel) s d m t res = Ret (s', way, r) /\ step_post s s' d /\ s' !! d = Some v' /\
    filled v v' t way /\ chosen (cfg v) (blocks v) t = Some (blocks v', way) /\
    r = match parent (cfg v) with None => res | Some p => got_from_parent (nearest (S d) s p (addr m)) end.
Proof using IH Hs Hb E Hm H1 Hfuel Hsync.
  intros Hn. set (v1 := set_stats v (cache_access (stats v) m false)).
  assert (S1 : step_post s (<[d := v1]> s) d) by (eapply step_insert; eauto using line_device, same_lines_ok, same_stats).
  assert (E1 : <[d := v1]> s !! d = Some v1) by (apply list_lookup_insert_eq; by eapply lookup_lt_Some).
  assert (HP : exists s2 r, (match parent (cfg v) with None => Ret (<[d := v1]> s, res) | Some p =>
                 '(s, r) ← request fuel (parent_child_access (<[d := v1]> s) (Some p) false) p m; Ret (s, got_from_parent r) end)
               = Ret (s2, r) /\ step_post s s2 d /\ s2 !! d = Some v1 /\
               r = match parent (cfg v) with None => res | Some p => got_from_parent (nearest (S d) s p (addr m)) end).
  { destruct (parent (cfg v)) as [p|] eqn:Hp; [|by eexists _, _].
    destruct (step_child_access _ d v1 false (sp_ok _ _ _ S1) (sp_below _ _ _ S1) E1) as [S2 E2].
    change (cfg v1) with (cfg v) in S2, E2. rewrite Hp in S2, E2.
    set (s2 := parent_child_access (<[d := v1]> s) (Some p) false) in *.
    destruct (li_parent _ _ _ (Hs d v E) p Hp) as (Hlt & u0 & Eu0 & Hbits).
    assert (HS : same_store s s2).
    { eapply same_store_trans; [eapply same_store_insert; [exact E|apply same_stats]|apply (same_store_child_access _ (Some p))]. }
    destruct (same_store_lookup _ _ _ _ HS Eu0) as (u & Eu & Hu).
    assert (Hub : synced u) by (apply (sp_below _ _ _ S2 p u Hlt Eu)).
    assert (Hbu : block_size_bits (cfg u) = block_size_bits (cfg v)) by (by rewrite (sl_cfg _ _ Hu)).
    destruct (IH s2 p m u) as (s3 & r & u' & Er & S3 & E3 & Hu' & H3); try done; [apply S2| |by unfold cost in *; case_match; lia|].
    { intros j w Hj. apply (sp_below _ _ _ S2). lia. }
    rewrite Er. cbn [mbind outcome_bind]. eexists _, _. split; [done|].
    assert (S3d : step_post s2 s3 d) by (eapply step_parent; eauto; apply S2).
    split; [eapply step_trans; [exact S1|eapply step_trans; [exact S2|exact S3d]]|].
    split; [rewrite (sp_above _ _ _ S3) by done; exact E2|].
    destruct H3 as [-> _]; [unfold single, compute_tag in *; by rewrite Hbu|].
    rewrite (nearest_same _ _ _ _ _ HS). f_equal. apply nearest_fuel; [done|lia|lia]. }
  destruct HP as (s2 & r & EP & S2 & E2 & Hr).
  destruct (fill_way_ok inv s2 d v1 t E2) as (v' & way & Ef & Hf & Hch); [eauto using line_device, same_lines_ok, same_stats|exact line_valid|exact Hn|].
  eexists _, way, r, v'. split; [|split; [|split; [|split; [|split]]]].
  - unfold miss. rewrite E. cbn [or_abort mbind outcome_bind]. fold v1. cbv zeta. rewrite EP. cbn [mbind outcome_bind].
    rewrite Ef. done.
  - eapply step_trans; [exact S2|]. eapply step_insert; [apply S2|apply S2|exact E2|apply Hf|]. by rewrite (fi_cfg _ _ _ _ Hf).
  - apply list_lookup_insert_eq. by eapply lookup_lt_Some.
  - by eapply set_stats_filled.
  - exact Hch.
  - done.
Qed.

Lemma hit_ok way : lookup_way v t = Some way ->
  exists s' v', hit_line s d m way = Ret (s', way, FOUND_L1) /\ step_post s s' d /\ s' !! d = Some v' /\ same_lines v v' /\
    blocks v' = blocks v.
Proof using Hs Hb E.
  intros Hw. set (v1 := set_stats v (cache_access (stats v) m true)).
  assert (S1 : step_post s (<[d := v1]> s) d) by (eapply step_insert; eauto using line_device, same_lines_ok, same_stats).
  assert (E1 : <[d := v1]> s !! d = Some v1) by (apply list_lookup_insert_eq; by eapply lookup_lt_Some).
  destruct (step_child_access _ d v1 true (sp_ok _ _ _ S1) (sp_below _ _ _ S1) E1) as [S2 E2].
  eexists _, v1. unfold hit_line. rewrite E. cbn [or_abort mbind outcome_bind]. split; [reflexivity|].
  split; [by eapply step_trans|]. split; [done|]. split; [apply same_stats|done].
Qed.

(** Remembering the line makes the shortcut right. *)
Lemma remember_ok s1 w way p : step_post s s1 d -> s1 !! d = Some w -> cfg w = cfg v -> (way < associativity (cfg v))%nat ->
  tags w !! (compute_block_idx (cfg v) t + way)%nat = Some t ->
  let w' := set_last w t way (compute_block_idx (cfg v) t) p in
  step_post s (<[d := w']> s1) d /\ synced w' /\ t ∈ tags w'.
Proof using.
  intros S1 E1 Ec Hw Et w'. split; [|split].
  - eapply step_trans; [exact S1|]. eapply step_insert; [apply S1|apply S1|exact E1| |done].
    destruct (sp_ok _ _ _ S1 d w E1) as [[] _]. by constructor.
  - intros _. cbn. rewrite Ec. done.
  - by eapply list_elem_of_lookup_2.
Qed.

(** The next line is fetched into another set. *)
Lemma prefetch_ok s1 v0 w way bytes : type_is_prefetch (type m) = false -> prefetcher (cfg v) = Some bytes ->
  same_lines v v0 -> filled v0 w t way -> step_post s s1 d -> s1 !! d = Some w ->
  exists s' w', prefetch (request fuel) s1 d m bytes = Ret s' /\ step_post s s' d /\ s' !! d = Some w' /\
    cfg w' = cfg v /\ tags w' !! (compute_block_idx (cfg v) t + way)%nat = Some t /\
    (forall u, u ∈ tags w' -> u ∈ tags v \/ u = t \/ u = next_tag (cfg v) t).
Proof using IH Hs E Hm H1 Hsync Hfuel.
  intros Hpf Hp HS Hf S1 E1. pose proof line_device as Hv. pose proof (do_config _ Hv) as Hc.
  assert (Hv0 : device_ok v0) by (by eapply same_lines_ok).
  pose proof (sl_cfg _ _ HS) as Ec0. pose proof (fi_cfg _ _ _ _ Hf) as Ecw. rewrite Ec0 in Ecw.
  destruct (single_next _ m bytes Hc Hp H1) as [H1' Et']. set (m' := {| type := _ |}) in *.
  destruct (IH s1 d m' w) as (s2 & r & w' & Er & S2 & E2 & _ & H3).
  - apply S1.
  - apply S1.
  - done.
  - apply u64_bound.
  - rewrite Ecw, Et'. intros Hl. eapply filled_synced; [exact Hv0|exact Hf|eapply same_lines_synced; eauto|].
    rewrite <- (fi_last _ _ _ _ Hf), Hl, Ec0. by eapply next_line_set.
  - done.
  - unfold cost in *. rewrite Hpf in Hfuel. cbn. lia.
  - rewrite Ecw in H3. destruct (H3 H1') as [_ [L1 _ _ _ L5 _ L6]]. rewrite Et' in L5, L6. cbn in L5, L6. rewrite Ecw in *.
    exists s2, w'. unfold prefetch. fold m'. rewrite Er. split; [done|]. split; [by eapply step_trans|]. split; [done|]. split; [done|].
    pose proof (filled_holds _ _ _ _ Hv0 Hf) as Hh. rewrite Ec0 in Hh. split.
    + rewrite L5; [exact Hh|by left|]. rewrite slot_set; [|done|rewrite <- Ec0; apply (fi_way _ _ _ _ Hf)].
      apply not_eq_sym. by eapply next_line_set.
    + intros u Hu. apply L6 in Hu as [Hu|[Hu|[Hu _]]]; [|by auto|done].
      rewrite (fi_tags _ _ _ _ Hf), (sl_tags _ _ HS) in Hu.
      apply list_elem_of_lookup in Hu as [i [[_ [-> _]]|[_ Hi]]%list_lookup_insert_Some]; [by auto|].
      left. by eapply list_elem_of_lookup_2.
Qed.

Definition line_answer (res : Z) : Z :=
  if bool_decide (t ∈ tags v) then FOUND_L1
  else match parent (cfg v) with None => res | Some p => got_from_parent (nearest (S d) s p (addr m)) end.

(** The look-up, with the fill of a miss, and the update of the counters. *)
Lemma touch_ok res : exists s' way r v0 v',
  (match lookup_way v t with Some way => hit_line s d m way | None => miss inv (request fuel) s d m t res end) =
    Ret (s', way, r) /\
  step_post s s' d /\ s' !! d = Some v' /\ r = line_answer res /\ same_lines v v0 /\
  chosen (cfg v) (blocks v) t = Some (blocks v', way) /\
  match lookup_way v t with
  | Some _ => v' = v0 /\ (way < associativity (cfg v))%nat /\ tags v !! (compute_block_idx (cfg v) t + way)%nat = Some t
  | None => filled v0 v' t way
  end.
Proof using IH Hs Hb E Hm H1 Hsync Hfuel.
  destruct (lookup_way v t) as [way|] eqn:El.
  - destruct (hit_ok way El) as (s' & v' & Eh & S1 & E1 & HS & Eb).
    eexists s', way, FOUND_L1, v', v'. split; [exact Eh|]. do 2 (split; [done|]).
    destruct (lookup_way_some v line_device t way El) as [Hw Et].
    split; [|split; [done|split; [|done]]].
    + unfold line_answer. rewrite bool_decide_true; [done|]. by eapply list_elem_of_lookup_2.
    + unfold chosen. unfold lookup_way in El. by rewrite El, Eb.
  - apply (lookup_way_none v line_device t line_valid) in El.
    destruct (miss_ok res El) as (s' & way & r & v' & Em & S1 & E1 & Hf & Hch & Hr).
    eexists s', way, r, v, v'. split; [exact Em|]. do 2 (split; [done|]).
    split; [|split; [apply same_lines_refl|done]]. unfold line_answer. by rewrite bool_decide_false.
Qed.

(** What is left after the tags have settled: the line is remembered. *)
Lemma finish_ok (res : Z) s3 u way : step_post s s3 d -> s3 !! d = Some u -> cfg u = cfg v -> (way < associativity (cfg v))%nat ->
  tags u !! (compute_block_idx (cfg v) t + way)%nat = Some t ->
  (type_is_prefetch (type m) = true \/ prefetcher (cfg v) = None ->
     forall i, (i / associativity (cfg v))%nat <> set_of (cfg v) t -> tags u !! i = tags v !! i) ->
  (type_is_prefetch (type m) = true \/ prefetcher (cfg v) = None -> touched (cfg v) (blocks v) t = Some (blocks u)) ->
  (forall x, x ∈ tags u -> x ∈ tags v \/ x = t \/
     (type_is_prefetch (type m) = false /\ is_Some (prefetcher (cfg v)) /\ x = next_tag (cfg v) t)) ->
  exists (s' : store) (v' : device), Ret (alter (fun v2 : device => set_last v2 t way (compute_block_idx (cfg v) t) (last_pid v2)) d s3, res) =
    Ret (s', res) /\ step_post s s' d /\ s' !! d = Some v' /\ line_post v v' t (type_is_prefetch (type m)).
Proof using.
  intros S3 E3 Ec Hw Eu Hk Hbl Hcont. rewrite (alter_self _ _ _ _ E3).
  destruct (remember_ok s3 u way (last_pid u) S3 E3 Ec Hw Eu) as (S4 & Hsy & Hin).
  eexists _, _. split; [reflexivity|]. split; [exact S4|]. split; [apply list_lookup_insert_eq; by eapply lookup_lt_Some|].
  by constructor.
Qed.

(** The tags after a miss has been filled, before any prefetch. *)
Lemma filled_tags v0 w way : same_lines v v0 -> filled v0 w t way ->
  cfg w = cfg v /\ (way < associativity (cfg v))%nat /\ tags w !! (compute_block_idx (cfg v) t + way)%nat = Some t /\
  (forall i, (i / associativity (cfg v))%nat <> set_of (cfg v) t -> tags w !! i = tags v !! i) /\
  (forall x, x ∈ tags w -> x ∈ tags v \/ x = t).
Proof using Hs E.
  intros HS Hf. pose proof line_device as Hv. pose proof (do_config _ Hv) as Hc.
  assert (Hv0 : device_ok v0) by (by eapply same_lines_ok).
  pose proof (sl_cfg _ _ HS) as Ec0. pose proof (sl_tags _ _ HS) as Et0. pose proof (fi_cfg _ _ _ _ Hf) as Ecf.
  pose proof (fi_way _ _ _ _ Hf) as Hw. pose proof (filled_holds _ _ _ _ Hv0 Hf) as Hh.
  pose proof (fi_tags _ _ _ _ Hf) as Ht. rewrite Ec0 in *. rewrite Et0 in Ht.
  do 3 (split; [done|]). split.
  - intros i Hi. rewrite Ht, list_lookup_insert_ne; [done|]. intros <-. apply Hi. by apply slot_set.
  - intros x. rewrite Ht. intros [i [[_ [-> _]]|[_ Hi]]%list_lookup_insert_Some]%list_elem_of_lookup; [by right|].
    left. by eapply list_elem_of_lookup_2.
Qed.

Lemma request_line_ok res : exists s' v',
  request_line inv (request fuel) s d m t res = Ret (s', line_answer res) /\ step_post s s' d /\ s' !! d = Some v' /\
  line_post v v' t (type_is_prefetch (type m)).
Proof using IH Hs Hb E Hm H1 Hsync Hfuel.
  destruct (touch_ok res) as (s1 & way & r & v0 & v1 & Et & S1 & E1 & -> & HS & Hch & Hfound).
  unfold request_line. rewrite E. cbn [or_abort mbind outcome_bind]. cbv zeta. rewrite Et. cbn [mbind outcome_bind].
  rewrite (alter_self _ _ _ _ E1).
  pose proof (same_update v1 (compute_block_idx (cfg v) t) way) as HU. set (w := set_blocks v1 _) in HU |- *.
  assert (S2 : step_post s (<[d := w]> s1) d).
  { eapply step_trans; [exact S1|]. eapply step_insert; [apply S1|apply S1|exact E1| |apply (sl_cfg _ _ HU)].
    eapply same_lines_ok; [exact HU|]. apply (sp_ok _ _ _ S1 d v1 E1). }
  assert (E2 : <[d := w]> s1 !! d = Some w) by (apply list_lookup_insert_eq; by eapply lookup_lt_Some).
  assert (Ec1 : cfg v1 = cfg v).
  { destruct (lookup_way v t); [destruct Hfound as [-> _]|rewrite (fi_cfg _ _ _ _ Hfound)]; apply HS. }
  assert (Hbl : touched (cfg v) (blocks v) t = Some (blocks w)) by (unfold touched, w; rewrite Hch, <- Ec1; done).
  destruct (lookup_way v t) as [way'|].
  - destruct Hfound as (-> & Hw & Ett). cbn [mbind outcome_bind]. destruct (same_lines_trans _ _ _ HS HU) as [Ec Ew _ _ _ _].
    apply (finish_ok _ _ w way S2 E2 Ec Hw); try rewrite Ew; auto.
  - assert (Hf : filled v0 w t way) by (by apply (filled_update _ _ _ _ _ way Hfound)).
    destruct (filled_tags v0 w way HS Hf) as (Ec & Hw & Ett & Hkeep & Hcont).
    pose proof (finish_ok (line_answer res) _ w way S2 E2 Ec Hw Ett (fun _ => Hkeep) (fun _ => Hbl)) as Hplain.
    specialize (Hplain ltac:(intros x Hx; destruct (Hcont x Hx); auto)).
    destruct (prefetcher (cfg v)) as [bytes|] eqn:Hp; [|cbn [mbind outcome_bind]; auto].
    case_eq (type_is_prefetch (type m)); intros Hpf; rewrite Hpf in Hplain; cbn [mbind outcome_bind]; [auto|].
    destruct (prefetch_ok (<[d := w]> s1) v0 w way bytes Hpf Hp HS Hf S2 E2) as (s3 & u & Ep & S3 & E3 & Ec3 & Eu & Hu).
    rewrite Ep. cbn [mbind outcome_bind]. rewrite <- Hpf.
    apply (finish_ok _ _ u way S3 E3 Ec3 Hw Eu); [rewrite Hpf, Hp; by intros [?|?]..|].
    intros x Hx. destruct (Hu x Hx) as [?|[?|?]]; [auto..|]. right; right. by rewrite Hp.
Qed.
End OneLine.

(** ** References that span several lines *)

(** The part of a reference in its first line, and the rest of it. *)
Lemma clip_line c m : config_ok c -> mem_ok m -> compute_tag c (addr m) + 1 <= compute_tag c (final_addr m) ->
  let next := u64 (Z.shiftl (compute_tag c (addr m) + 1) (block_size_bits c)) in
  let m1 := with_range m (addr m) (u64 (next - addr m)) in
  let m2 := with_range m next (u64 (final_addr m - next + 1)) in
  mem_ok m1 /\ single c m1 /\ mem_ok m2 /\ compute_tag c (addr m2) = compute_tag c (addr m) + 1 /\ final_addr m2 = final_addr m.
Proof.
  intros Hc Hm Hle next. pose proof (co_bits c Hc) as Hb. destruct (co_sets c Hc) as (k & Hk & _ & Hkb).
  set (b := 2 ^ block_size_bits c). assert (Hpos : 0 < b) by (apply Z.pow_pos_nonneg; lia).
  pose proof (u64_bound (addr m + size m - 1)) as Hf. fold (final_addr m) in Hf.
  unfold compute_tag in *. rewrite !shiftr_div in Hle by lia. rewrite !shiftr_div in * by lia. fold b in Hle |- *.
  pose proof (Z.div_mod (addr m) b ltac:(lia)). pose proof (Z.mod_pos_bound (addr m) b Hpos).
  pose proof (Z.div_mod (final_addr m) b ltac:(lia)). pose proof (Z.mod_pos_bound (final_addr m) b Hpos).
  unfold mem_ok in Hm. pose proof (Z.div_pos (addr m) b ltac:(lia) Hpos) as Hq.
  assert (En : next = (addr m / b + 1) * b).
  { unfold next. rewrite shiftl_mul, shiftr_div by lia. fold b. apply u64_small. nia. }
  assert (Hn : addr m < next <= final_addr m) by nia.
  unfold mem_ok, single, final_addr at 1, compute_tag, with_range. cbn [addr size].
  rewrite (u64_small (next - addr m)) by lia. split; [done|]. split.
  - rewrite !shiftr_div by lia. fold b. replace (addr m + (next - addr m) - 1) with (next - 1) by lia.
    rewrite u64_small by lia. replace (next - 1) with (b - 1 + addr m / b * b) by lia.
    rewrite Z.div_add by lia. rewrite (Z.div_small (b - 1)) by lia. lia.
  - split; [lia|]. split; [ rewrite En; apply Z.div_mul; lia|].
    unfold final_addr at 1. cbn [addr size]. rewrite (u64_small (final_addr m - next + 1)) by lia.
    replace (next + (final_addr m - next + 1) - 1) with (final_addr m) by lia. apply u64_small. lia.
Qed.

Section Lines.
Context (fuel : nat) (IH : request_spec fuel) (inv : store -> nat -> Z -> outcome store).

Lemma request_lines_ok n : forall s d m v res,
  store_ok s -> synced_below d s -> s !! d = Some v -> mem_ok m ->
  (type_is_prefetch (type m) = false -> synced v) -> (d + cost m <= S fuel)%nat ->
  n = Z.to_nat (compute_tag (cfg v) (final_addr m) - compute_tag (cfg v) (addr m) + 1) ->
  exists s' r v', request_lines inv (request fuel) n s d m (compute_tag (cfg v) (addr m))
    (compute_tag (cfg v) (final_addr m)) (final_addr m) (block_size_bits (cfg v)) res = Ret (s', r) /\
    step_post s s' d /\ s' !! d = Some v' /\ (synced v' \/ v' = v).
Proof using IH.
  induction n as [|n IHn]; intros s d m v res Hs Hb E Hm Hsync Hfuel Hn.
  - cbn. eexists s, res, v. split; [done|]. split; [by apply step_refl|]. auto.
  - cbn [request_lines]. pose proof (do_config _ (line_device s d v Hs E)) as Hc.
    destruct (compute_tag (cfg v) (addr m) + 1 <=? compute_tag (cfg v) (final_addr m)) eqn:Hmore; zbool.
    + destruct (clip_line (cfg v) m Hc Hm Hmore) as (M1 & H1 & M2 & T2 & F2).
      set (next := u64 (Z.shiftl _ _)) in *. set (m1 := with_range m (addr m) _) in *.
      change (with_range m1 next (u64 (final_addr m - next + 1))) with (with_range m next (u64 (final_addr m - next + 1))).
      set (m2 := with_range m next _) in *.
      destruct (request_line_ok fuel IH inv s d m1 v Hs Hb E M1 H1 Hsync Hfuel res) as (s1 & v1 & Er & S1 & E1 & L1).
      change (addr m1) with (addr m) in Er. rewrite Er. cbn [mbind outcome_bind].
      destruct (IHn s1 d m2 v1 (line_answer s d m1 v res)) as (s2 & r & v2 & E2 & S2 & E2' & H2); try done.
      { apply S1. } { apply S1. } { intros _. apply (lp_synced _ _ _ _ L1). }
      { rewrite (lp_cfg _ _ _ _ L1), F2, T2. lia. }
      rewrite (lp_cfg _ _ _ _ L1), F2, T2 in E2. eexists s2, r, v2. split; [exact E2|].
      split; [by eapply step_trans|]. split; [done|]. left. destruct H2 as [|Hv2]; [done|]. subst. apply (lp_synced _ _ _ _ L1).
    + assert (H1 : single (cfg v) m) by (unfold single; lia).
      destruct (request_line_ok fuel IH inv s d m v Hs Hb E Hm H1 Hsync Hfuel res) as (s1 & v1 & Er & S1 & E1 & L1).
      rewrite Er. cbn [mbind outcome_bind]. assert (n = 0%nat) as -> by lia. cbn.
      eexists s1, _, v1. split; [done|]. split; [done|]. split; [done|]. left. apply (lp_synced _ _ _ _ L1).
Qed.
End Lines.

(** ** Requests *)

(** The shortcut finds the way that the search would. *)
Lemma shortcut_way v : device_ok v -> synced v -> last_tag v <> TAG_INVALID -> valid_tag (cfg v) (last_tag v) ->
  last_tag v ∈ tags v /\ last_block_idx v = compute_block_idx (cfg v) (last_tag v) /\
  tag (get_block (blocks v) (last_block_idx v + last_way v)) = last_tag v /\
  lookup_way v (last_tag v) = Some (last_way v).
Proof.
  intros Hv Hsy Hn Ht. destruct (Hsy Hn) as (Et & Ei & Hw). assert (Hin : last_tag v ∈ tags v) by (by eapply list_elem_of_lookup_2).
  split; [done|]. split; [done|]. split; [by apply tag_of_lookup|].
  destruct (lookup_way v (last_tag v)) as [way|] eqn:El; [|by apply lookup_way_none in El].
  destruct (lookup_way_some v Hv _ way El) as [_ Et']. f_equal. rewrite Ei in Et.
  pose proof (to_distinct _ _ (do_tags v Hv) _ _ _ Et' Et Hn). lia.
Qed.

Section Shortcut.
Context (s : store) (d : nat) (m : memref_t) (v : device).
Context (Hs : store_ok s) (Hb : synced_below d s) (E : s !! d = Some v) (Hm : mem_ok m) (Hsy : synced v).
Context (Hl : compute_tag (cfg v) (addr m) = last_tag v).

(** A single-line reference to the last line only ages the set. *)
Lemma shortcut_ok : exists s' v',
  alter (fun v => set_blocks v (access_update (cfg v) (blocks v) (last_block_idx v) (last_way v))) d
    (parent_child_access (<[d := set_stats v (cache_access (stats v) m true)]> s) (parent (cfg v)) true) = s' /\
  step_post s s' d /\ s' !! d = Some v' /\ line_post v v' (last_tag v) (type_is_prefetch (type m)).
Proof using Hs Hb E Hm Hsy Hl.
  pose proof (line_device s d v Hs E) as Hv. pose proof (do_config _ Hv) as Hc.
  pose proof (line_valid s d m v Hs E Hm) as Ht. pose proof (valid_tag_valid _ Hc _ Ht) as Hn. rewrite Hl in Ht, Hn.
  destruct (shortcut_way v Hv Hsy Hn Ht) as (Hin & Ei & _ & El).
  set (v1 := set_stats v _). pose proof (same_stats v (cache_access (stats v) m true) : same_lines v v1) as HS1.
  assert (S1 : step_post s (<[d := v1]> s) d) by (eapply step_insert; eauto using same_lines_ok).
  assert (E1 : <[d := v1]> s !! d = Some v1) by (apply list_lookup_insert_eq; by eapply lookup_lt_Some).
  destruct (step_child_access _ d v1 true (sp_ok _ _ _ S1) (sp_below _ _ _ S1) E1) as [S2 E2].
  change (cfg v1) with (cfg v) in S2, E2. rewrite (alter_self _ _ _ _ E2).
  set (v2 := set_blocks v1 _). pose proof (same_lines_trans _ _ _ HS1 (same_update v1 (last_block_idx v) (last_way v))) as HS2.
  change (same_lines v v2) in HS2. eexists _, v2. split; [reflexivity|].
  assert (Hv2 : device_ok v2) by (by eapply same_lines_ok). assert (Hsy2 : synced v2) by (by eapply same_lines_synced).
  split; [eapply step_trans; [exact S1|eapply step_trans; [exact S2|]];
          eapply step_insert; [apply S2|apply S2|exact E2|done|apply (sl_cfg _ _ HS2)]|].
  split; [apply list_lookup_insert_eq; by eapply lookup_lt_Some|].
  destruct HS2 as [C1 C2 C3 _ _ _]. constructor; try done; [by rewrite C2|by intros; rewrite C2| |rewrite C2; auto].
  intros _. unfold touched, chosen. unfold lookup_way in El. rewrite El. cbn [mbind option_bind]. by rewrite <- Ei.
Qed.
End Shortcut.

Lemma request_all fuel : request_spec fuel.
Proof.
  induction fuel as [|fuel IH]; intros s d m v Hs Hb E Hm Hlast Hsync Hfuel.
  { unfold cost in Hfuel. case_match; lia. }
  pose proof (line_valid s d m v Hs E Hm) as Ht. pose proof (line_device s d v Hs E) as Hv. pose proof (do_config _ Hv) as Hc.
  pose proof (valid_tag_valid _ Hc _ Ht) as Hinv.
  cbn [request]. rewrite E. cbn [or_abort mbind outcome_bind]. cbv zeta. fold (final_addr m).
  destruct (compute_tag (cfg v) (addr m) =? compute_tag (cfg v) (final_addr m)) eqn:H1;
    [destruct (compute_tag (cfg v) (addr m) =? last_tag v) eqn:Hl|]; cbn [andb]; zbool.
  - assert (Hsy : synced v) by auto. rewrite Hl in Hinv, Ht |- *.
    destruct (shortcut_way v Hv Hsy Hinv Ht) as (_ & _ & Etag & _). rewrite Etag.
    rewrite (proj2 (Z.eqb_neq _ _) Hinv), Z.eqb_refl. cbn [negb andb].
    destruct (shortcut_ok s d m v Hs Hb E Hm Hsy Hl) as (s' & v' & Es & S1 & E1 & L1). cbv zeta in Es.
    eexists s', _, v'. split; [by rewrite <- Es|]. split; [done|]. split; [done|]. split; [left; apply (lp_synced _ _ _ _ L1)|].
    intros _. split; [|done]. by rewrite (nearest_eq d s d v _ E), Hl, Z.eqb_refl.
  - assert (Hsg : single (cfg v) m) by done. rewrite <- H1.
    replace (Z.to_nat _) with 1%nat by lia. cbn [request_lines].
    replace (compute_tag (cfg v) (addr m) + 1 <=? compute_tag (cfg v) (addr m)) with false by (symmetry; apply Z.leb_gt; lia).
    destruct (request_line_ok fuel IH (invalidate fuel) s d m v Hs Hb E Hm Hsg Hsync Hfuel NOT_FOUND) as (s1 & v1 & Er & S1 & E1 & L1).
    rewrite Er. cbn [mbind outcome_bind]. eexists s1, _, v1. split; [done|]. split; [done|]. split; [done|].
    split; [left; apply (lp_synced _ _ _ _ L1)|]. intros _. split; [|done].
    unfold line_answer. rewrite (nearest_eq d s d v _ E), (proj2 (Z.eqb_neq _ _) Hl). case_bool_decide; [done|].
    destruct (parent (cfg v)) as [p|] eqn:Hp; [|done]. f_equal.
    destruct (li_parent _ _ _ (Hs d v E) p Hp) as [Hlt _]. apply nearest_fuel; [done|lia|lia].
  - destruct (request_lines_ok fuel IH (invalidate fuel) _ s d m v NOT_FOUND Hs Hb E Hm Hsync Hfuel eq_refl)
      as (s1 & r & v1 & Er & S1 & E1 & H2).
    eexists s1, r, v1. split; [exact Er|]. split; [done|]. split; [done|]. split; [done|]. intros Hsg. congruence.
Qed.
