(* ===== verification/CacheSpec.v ===== *)
(** * What the caches promise

    The hierarchies that the initialisation builds, flushing, and the theorems:
    no sequence of requests and flushes fails, and what a request answers and
    leaves in the cache. *)
From S2P Require Import Prelude CachingDevice CachingProof CacheRequest.

(** ** Initialisation *)

Lemma power_of_2_spec x : 0 < x -> IS_POWER_OF_2 x = true -> x = 2 ^ Z.log2 x.
Proof.
  intros Hx Hp. unfold IS_POWER_OF_2 in Hp. zbool. pose proof (Z.log2_spec x Hx) as [Hlo Hhi].
  destruct (decide (x = 2 ^ Z.log2 x)) as [|Hne]; [done|]. exfalso.
  assert (Hl : Z.log2 (x - 1) = Z.log2 x) by (apply Z.log2_unique; [apply Z.log2_nonneg|lia]).
  assert (Hb : Z.testbit (Z.land x (x - 1)) (Z.log2 x) = true).
  { rewrite Z.land_spec, Z.bit_log2 by lia. rewrite <- Hl. apply Z.bit_log2.
    assert (0 < 2 ^ Z.log2 x) by (apply Z.pow_pos_nonneg; [lia|apply Z.log2_nonneg]). lia. }
  rewrite H0, Z.bits_0 in Hb. done.
Qed.

Lemma log2_from_spec n i value k : 0 <= i -> log2_from n i value = k -> k <> -1 -> i <= k < i + Z.of_nat n /\ value = 2 ^ k.
Proof.
  revert i. induction n as [|n IH]; intros i Hi; cbn [log2_from]; [congruence|]. case_match eqn:E; zbool.
  - intros <- _. split; [lia|]. rewrite shiftl_mul in E by lia. lia.
  - intros H' Hn. destruct (IH (i + 1) ltac:(lia) H' Hn). split; [lia|done].
Qed.

Lemma init_tags c n : tags_ok c (replicate n TAG_INVALID) <-> n = num_blocks c.
Proof.
  split; [intros H'; rewrite <- (to_length _ _ H'); by rewrite length_replicate|]. intros ->. constructor.
  - by rewrite length_replicate.
  - intros i t [-> _]%lookup_replicate. done.
  - intros i j t [-> _]%lookup_replicate. done.
Qed.

(** The FIFO pointers of the sets, set one after the other. *)
Lemma fifo_pointers (a n : nat) bs : (0 < a)%nat -> length bs = (n * a)%nat ->
  let bs' := foldl (fun bs i => alter (set_counter 1) (i * a)%nat bs) bs (seq 0 n) in
  tag <$> bs' = tag <$> bs /\ forall k, (k < n)%nat -> counter (get_block bs' (k * a)) = 1.
Proof.
  intros Ha Hl. assert (Hgen : forall m, (m <= n)%nat ->
    let bs' := foldl (fun bs i => alter (set_counter 1) (i * a)%nat bs) bs (seq 0 m) in
    tag <$> bs' = tag <$> bs /\ forall k, (k < m)%nat -> counter (get_block bs' (k * a)) = 1).
  { induction m as [|m IH]; intros Hm; [cbn; split; [done|lia]|]. rewrite seq_S, foldl_app. cbn [foldl].
    destruct IH as [IHt IHc]; [lia|]. set (b := foldl _ _ _) in *. cbn zeta. split; [by rewrite tags_alter|].
    assert (length b = (n * a)%nat) by (rewrite <- Hl, <- (length_fmap tag), IHt; apply length_fmap).
    intros k Hk. rewrite get_block_alter by nia. case_decide; [done|]. apply IHc.
    destruct (decide (k = m)) as [->|]; [done|lia]. }
  by apply Hgen.
Qed.

(** A prefetcher asks for the next line, and the device has two sets. *)
Definition two_sets (a l n : Z) (pf : option Z) : Prop := forall bytes, pf = Some bytes -> bytes = l /\ 2 <= n / a.

Lemma caching_device_init_ok pol a l n par pf v : n < 2 ^ 31 -> two_sets a l n pf ->
  caching_device_init pol a l n par pf false [] = Some v ->
  config_ok (cfg v) /\ blocks v = replicate (num_blocks (cfg v)) new_block /\ last_tag v = TAG_INVALID /\
  cfg v = {| policy := pol; associativity := Z.to_nat a; block_size := l; num_blocks := Z.to_nat n;
             blocks_per_way := Z.to_nat (n / a); block_size_bits := compute_log2 l;
             parent := par; prefetcher := pf; inclusive := false; children := [] |}.
Proof.
  intros Hn Hpf. unfold caching_device_init. repeat case_match; try done. intros [= <-]. zbool.
  cbn [cfg blocks last_tag num_blocks]. split; [|done].
  destruct (log2_from_spec 31 0 l (compute_log2 l) ltac:(lia) eq_refl ltac:(done)) as [Hk Hl].
  assert (Hpos : 0 < n / a) by nia.
  pose proof (power_of_2_spec _ Hpos ltac:(done)) as Hw. pose proof (Z.log2_nonneg (n / a)).
  assert (Hb : 2 <= compute_log2 l).
  { destruct (decide (compute_log2 l < 2)); [|lia]. assert (2 ^ compute_log2 l <= 2 ^ 1) by (apply Z.pow_le_mono_r; lia). lia. }
  constructor; cbn -[compute_log2]; try done; try lia.
  - exists (Z.log2 (n / a)). split; [done|]. split; [by rewrite Z2Nat.id by lia|].
    assert (Z.log2 (n / a) < 31); [|lia]. apply Z.log2_lt_pow2; [done|]. apply Z.div_lt_upper_bound; nia.
  - intros bytes Hp. destruct (Hpf bytes Hp). split; [done|]. lia.
Qed.

(** A device made by [cache_t::init] is well formed. *)
Lemma cache_init_ok pol a l total par pf v : total < 2 ^ 31 -> two_sets a l (total / l) pf ->
  cache_init pol a l total par pf false [] = Some v ->
  device_ok v /\ synced v /\ last_tag v = TAG_INVALID /\ parent (cfg v) = par /\ block_size_bits (cfg v) = compute_log2 l /\ policy (cfg v) = pol.
Proof.
  intros Ht Hpf. unfold cache_init. case_match; [done|]. zbool.
  destruct (caching_device_init _ _ _ _ _ _ _ _) as [w|] eqn:E; [|done]. cbn [mbind option_bind].
  assert (Hn : total / l < 2 ^ 31) by (apply Z.div_lt_upper_bound; nia).
  destruct (caching_device_init_ok _ _ _ _ _ _ _ Hn Hpf E) as (Hc & Hb & Hl & Ec).
  set (bs := foldl _ _ _). intros Ev.
  assert (Hv : exists bs', v = set_blocks w bs' /\ tag <$> bs' = tag <$> blocks w /\ fifo_ok (cfg w) bs').
  { pose proof (co_assoc _ Hc) as Ha. pose proof (co_blocks _ Hc) as Hnb.
    destruct pol; injection Ev as <-; [exists (blocks w)|exists (blocks w)|exists bs].
    - split; [by destruct w|]. split; [done|]. intros Hp. by rewrite Ec in Hp.
    - split; [by destruct w|]. split; [done|]. intros Hp. by rewrite Ec in Hp.
    - split; [done|]. destruct (fifo_pointers (associativity (cfg w)) (blocks_per_way (cfg w)) (blocks w)) as [F1 F2]; [done| |].
      { rewrite Hb, length_replicate. lia. }
      split; [done|]. intros _ k Hk. exists 0%nat. split; [done|]. rewrite Nat.add_0_r. by apply F2. }
  destruct Hv as (bs' & -> & Hbt & Hf). cbn [cfg set_blocks last_tag].
  split; [constructor; [done| |done]|split; [intros Hn'; by rewrite <- Hl in Hn'|by rewrite Ec]].
  unfold tags. cbn [blocks set_blocks cfg]. rewrite Hbt, Hb, fmap_replicate. by apply init_tags.
Qed.

(** The arguments of one [init], and the devices made from a list of them. *)
Record cache_spec := {
  cs_policy : policy_t; cs_assoc : Z; cs_line : Z; cs_total : Z; cs_parent : option nat; cs_prefetcher : option Z
}.
Definition init_cache (c : cache_spec) : option device :=
  cache_init (cs_policy c) (cs_assoc c) (cs_line c) (cs_total c) (cs_parent c) (cs_prefetcher c) false [].
Definition build (l : list cache_spec) : option store := mapM init_cache l.

(** The caches are made from memory inwards, with one line size. *)
Definition specs_ok (l : list cache_spec) : Prop := forall d c, l !! d = Some c ->
  cs_total c < 2 ^ 31 /\ two_sets (cs_assoc c) (cs_line c) (cs_total c / cs_line c) (cs_prefetcher c) /\
  forall p, cs_parent c = Some p -> (p < d)%nat /\ exists c', l !! p = Some c' /\ cs_line c' = cs_line c.

Definition hierarchy_ok (s : store) : Prop := store_ok s /\ synced_below (length s) s.

Lemma build_lookup l s d v : build l = Some s -> s !! d = Some v -> exists c, l !! d = Some c /\ init_cache c = Some v.
Proof.
  intros Hb%mapM_Some_1 E. destruct (Forall2_lookup_r _ _ _ _ _ Hb E) as (c & Ec & Hi). by exists c.
Qed.

Lemma build_ok l s : build l = Some s -> specs_ok l ->
  hierarchy_ok s /\ (forall d v, s !! d = Some v -> last_tag v = TAG_INVALID) /\
  (forall d v, s !! d = Some v -> exists c, l !! d = Some c /\ policy (cfg v) = cs_policy c).
Proof.
  intros Hb Hl. assert (Hd : forall d v, s !! d = Some v -> exists c, l !! d = Some c /\ device_ok v /\ synced v /\
    last_tag v = TAG_INVALID /\ parent (cfg v) = cs_parent c /\ block_size_bits (cfg v) = compute_log2 (cs_line c) /\ policy (cfg v) = cs_policy c).
  { intros d v E. destruct (build_lookup l s d v Hb E) as (c & Ec & Ei). exists c. split; [done|].
    destruct (Hl d c Ec) as (Ht & Hp & _). by apply (cache_init_ok _ _ _ _ _ _ _ Ht Hp Ei). }
  split; [split|split].
  - intros d v E. destruct (Hd d v E) as (c & Ec & Hok & _ & _ & Hpar & Hbits & _). constructor; [done|]. intros p. rewrite Hpar. intros Hp.
    destruct (Hl d c Ec) as (_ & _ & Hc). destruct (Hc p Hp) as (Hlt & c' & Ec' & Eline). split; [done|].
    destruct (Forall2_lookup_l _ _ _ _ _ (mapM_Some_1 _ _ _ Hb) Ec') as (u & Eu & _). exists u. split; [done|].
    destruct (Hd p u Eu) as (c'' & E'' & _ & _ & _ & _ & Hb' & _). rewrite Hb', Hbits. congruence.
  - intros d v _ E. by destruct (Hd d v E) as (c & _ & _ & Hsy & _).
  - intros d v E. by destruct (Hd d v E) as (c & _ & _ & _ & Hlt & _).
  - intros d v E. destruct (Hd d v E) as (c & Ec & _ & _ & _ & _ & _ & Hp). by exists c.
Qed.

(** ** Flushing *)

(** Tags only ever become invalid. *)
Definition emptied (ts ts' : list Z) : Prop :=
  length ts' = length ts /\ forall i t, ts' !! i = Some t -> t = TAG_INVALID \/ ts !! i = Some t.

Lemma emptied_refl ts : emptied ts ts.
Proof. split; auto. Qed.
Lemma emptied_trans t1 t2 t3 : emptied t1 t2 -> emptied t2 t3 -> emptied t1 t3.
Proof. intros [L1 H1] [L2 H2]. split; [congruence|]. intros i t E. destruct (H2 i t E); auto. Qed.
Lemma emptied_ok c ts ts' : emptied ts ts' -> tags_ok c ts -> tags_ok c ts'.
Proof.
  intros [Hl He] [L P D]. constructor; [congruence| |].
  - intros i t E Ht. destruct (He i t E); [done|eauto].
  - intros i j t Ei Ej Ht. destruct (He i t Ei), (He j t Ej); try done. by eapply D.
Qed.

Lemma flush_ways_emptied ways idx t bs :
  emptied (tag <$> bs) (tag <$> foldl (fun bs way =>
    if tag (get_block bs (idx + way)) =? t
    then alter (fun b => set_counter 0 (set_tag TAG_INVALID b)) (idx + way)%nat bs else bs) bs ways).
Proof.
  revert bs. induction ways as [|way ways IH]; intros bs; [apply emptied_refl|]. cbn [foldl].
  eapply emptied_trans; [|apply IH]. case_match; [|apply emptied_refl]. split; [by rewrite !length_fmap, length_alter|].
  intros i u. rewrite !list_lookup_fmap. destruct (decide ((idx + way)%nat = i)) as [<-|].
  - rewrite list_lookup_alter_eq. destruct (bs !! _); [|done]. cbn. intros [= <-]. by left.
  - rewrite list_lookup_alter_ne by done. by right.
Qed.

Lemma flush_lines_ok lines v : emptied (tags v) (tags (foldl flush_line v lines)) /\ cfg (foldl flush_line v lines) = cfg v /\
  last_tag (foldl flush_line v lines) = last_tag v.
Proof.
  revert v. induction lines as [|t lines IH]; intros v; [split; [apply emptied_refl|done]|]. cbn [foldl].
  destruct (IH (flush_line v t)) as (H1 & H2 & H3). split; [|by rewrite H2, H3]. eapply emptied_trans; [|exact H1].
  apply flush_ways_emptied.
Qed.

Lemma flush_device_ok v m : device_ok v -> policy (cfg v) <> FIFO ->
  device_ok (flush_device v m) /\ synced (flush_device v m) /\ cfg (flush_device v m) = cfg v.
Proof.
  intros [Hc Ht Hf] Hp. unfold flush_device. cbv zeta. set (v0 := set_last v _ _ _ _). set (lines := map _ _).
  destruct (flush_lines_ok lines v0) as (H1 & H2 & H3). split; [|split; [|exact H2]].
  - constructor; rewrite H2; [done|by eapply emptied_ok|intros Hf'; by destruct Hp].
  - intros Hn. rewrite H3 in Hn. by destruct Hn.
Qed.

Lemma flush_ok fuel s d m v : store_ok s -> synced_below d s -> s !! d = Some v -> (d < fuel)%nat ->
  (forall j u, s !! j = Some u -> policy (cfg u) <> FIFO) ->
  exists s' v', flush fuel s d m = Ret s' /\ step_post s s' d /\ s' !! d = Some v' /\ synced v'.
Proof.
  revert s d v. induction fuel as [|fuel IH]; intros s d v Hs Hb E Hd Hp; [lia|]. cbn [flush]. rewrite E. cbn [or_abort mbind outcome_bind].
  destruct (flush_device_ok v m (line_device s d v Hs E) (Hp d v E)) as (Hok & Hsy & Hc). set (v1 := flush_device v m) in *.
  assert (S1 : step_post s (<[d := v1]> s) d) by (by eapply step_insert).
  assert (E1 : <[d := v1]> s !! d = Some v1) by (apply list_lookup_insert_eq; by eapply lookup_lt_Some).
  assert (HP : exists s2, (match parent (cfg v) with Some p => flush fuel (<[d := v1]> s) p m | None => Ret (<[d := v1]> s) end) = Ret s2 /\
            step_post s s2 d /\ s2 !! d = Some v1).
  { destruct (parent (cfg v)) as [p|] eqn:Epar; [|by eexists]. destruct (li_parent _ _ _ (Hs d v E) p Epar) as (Hlt & u & Eu & _).
    assert (Eu1 : <[d := v1]> s !! p = Some u) by (by rewrite list_lookup_insert_ne by lia).
    destruct (IH (<[d := v1]> s) p u) as (s2 & u' & Ef & S2 & E2 & Hu); [apply S1| |done|lia| |].
    { intros j w Hj. apply (sp_below _ _ _ S1). lia. }
    { intros j w Ew. pose proof (sp_cfg _ _ _ S1 j) as Ecj. rewrite Ew in Ecj. destruct (s !! j) eqn:Ej; [|done]. injection Ecj as ->. by eapply Hp. }
    rewrite Ef. exists s2. split; [done|]. split; [|by rewrite (sp_above _ _ _ S2)].
    eapply step_trans; [exact S1|]. eapply step_parent; [apply S1|done|exact S2|exact Eu1|exact E2|by left]. }
  destruct HP as (s2 & -> & S2 & E2). cbn [mbind outcome_bind]. rewrite (alter_self _ _ _ _ E2).
  pose proof (same_stats v1 (add_flush (stats v1))) as HS. eexists _, _. split; [reflexivity|].
  split; [eapply step_trans; [exact S2|]; eapply step_insert; [apply S2|apply S2|exact E2|by eapply same_lines_ok|done]|].
  split; [apply list_lookup_insert_eq; by eapply lookup_lt_Some|]. by eapply same_lines_synced.
Qed.

(** ** Sequences of operations *)

Inductive cache_op := Request (d : nat) (m : memref_t) | Flush (d : nat) (m : memref_t).
Definition run_op (fuel : nat) (s : store) (o : cache_op) : outcome store :=
  match o with
  | Request d m => '(s, _) ← request fuel s d m; Ret s
  | Flush d m => flush fuel s d m
  end.
Fixpoint run (fuel : nat) (s : store) (ops : list cache_op) : outcome store :=
  match ops with [] => Ret s | o :: ops => s ← run_op fuel s o; run fuel s ops end.

(** The device exists and the address is one; flushing needs a policy other
    than FIFO. *)
Definition op_ok (s : store) (o : cache_op) : Prop :=
  match o with
  | Request d m => (d < length s)%nat /\ mem_ok m
  | Flush d m => (d < length s)%nat /\ forall j v, s !! j = Some v -> policy (cfg v) <> FIFO
  end.

Lemma cfg_length (s s' : store) : (forall j, cfg <$> s' !! j = cfg <$> s !! j) -> length s' = length s.
Proof.
  intros Hc. assert (Hs : cfg <$> s' = cfg <$> s) by (apply list_eq; intros j; rewrite !list_lookup_fmap; apply Hc).
  by rewrite <- (length_fmap cfg), Hs, length_fmap.
Qed.

Lemma step_hierarchy s s' d v' : hierarchy_ok s -> step_post s s' d -> s' !! d = Some v' -> synced v' -> hierarchy_ok s'.
Proof.
  intros [_ Hsy] [H1 H2 H3 H4] E Hv. split; [done|]. intros j u Hj Eu.
  destruct (lt_eq_lt_dec j d) as [[Hjd| ->]|Hjd]; [by eapply H2|rewrite E in Eu; by injection Eu as <-|].
  rewrite H3 in Eu by done. apply (Hsy j u); [|done]. by apply lookup_lt_Some in Eu.
Qed.

Lemma request_ok s d m v : hierarchy_ok s -> s !! d = Some v -> mem_ok m ->
  exists s' r v', request (length s + 2) s d m = Ret (s', r) /\ step_post s s' d /\ s' !! d = Some v' /\ hierarchy_ok s' /\
    (single (cfg v) m -> r = nearest (S d) s d (addr m) /\
       line_post v v' (compute_tag (cfg v) (addr m)) (type_is_prefetch (type m))).
Proof.
  intros [Hs Hsy] E Hm. pose proof (lookup_lt_Some _ _ _ E) as Hd. assert (Hv : synced v) by (by eapply Hsy).
  destruct (request_all (length s + 2) s d m v) as (s' & r & v' & Er & S1 & E1 & Hv' & H1); try done.
  { intros j u Hj Eu. apply (Hsy j u); [lia|done]. }
  { unfold cost. case_match; lia. }
  eexists s', r, v'. do 3 (split; [done|]). split; [|done].
  eapply step_hierarchy; [by split|exact S1|exact E1|]. by destruct Hv' as [| ->].
Qed.

Lemma run_op_ok s o : hierarchy_ok s -> op_ok s o ->
  exists s', run_op (length s + 2) s o = Ret s' /\ hierarchy_ok s' /\ forall j, cfg <$> s' !! j = cfg <$> s !! j.
Proof.
  intros Hok Ho. destruct o as [d m|d m]; destruct Ho as [Hd Hm]; destruct (lookup_lt_is_Some_2 s d Hd) as [v E].
  - destruct (request_ok s d m v Hok E Hm) as (s' & r & v' & Er & S1 & _ & Hh & _). exists s'. cbn. rewrite Er. cbn.
    split; [done|]. split; [done|]. apply S1.
  - destruct (flush_ok (length s + 2) s d m v) as (s' & v' & Ef & S1 & E1 & Hv); [apply Hok| |done|lia|done|].
    { intros j u Hj Eu. apply (proj2 Hok j u); [lia|done]. }
    exists s'. split; [done|]. split; [by eapply step_hierarchy|apply S1].
Qed.

Lemma op_ok_cfg s s' o : (forall j, cfg <$> s' !! j = cfg <$> s !! j) -> op_ok s o -> op_ok s' o.
Proof.
  intros Hc. pose proof (cfg_length s s' Hc) as Hl. destruct o as [d m|d m]; intros [Hd Hm]; (split; [lia|]); [done|].
  intros j u Eu. specialize (Hc j). rewrite Eu in Hc. destruct (s !! j) as [v|] eqn:Ev; [|done]. injection Hc as ->. by eapply Hm.
Qed.

Lemma run_ok ops s : hierarchy_ok s -> Forall (op_ok s) ops -> exists s', run (length s + 2) s ops = Ret s' /\ hierarchy_ok s'.
Proof.
  revert s. induction ops as [|o ops IH]; intros s Hok Ho; [by exists s|]. apply Forall_cons in Ho as [Ho Hops].
  destruct (run_op_ok s o Hok Ho) as (s1 & E1 & H1 & Hc). destruct (IH s1 H1) as (s' & E & H').
  { eapply Forall_impl; [exact Hops|]. intros o'. by apply op_ok_cfg. }
  exists s'. split; [|done]. cbn [run]. rewrite E1. cbn [mbind outcome_bind]. by rewrite <- (cfg_length s s1 Hc).
Qed.

(** ** The theorems *)


(** The simulated core: one last-level cache, one second level, and the two
    first-level caches, the data cache with the next-line prefetcher. *)
Definition demo_specs : list cache_spec := [
  {| cs_policy := LRU; cs_assoc := 11; cs_line := 64; cs_total := 11264; cs_parent := None; cs_prefetcher := None |};
  {| cs_policy := LRU; cs_assoc := 4; cs_line := 64; cs_total := 2048; cs_parent := Some 0%nat; cs_prefetcher := None |};
  {| cs_policy := LRU; cs_assoc := 4; cs_line := 64; cs_total := 1024; cs_parent := Some 1%nat; cs_prefetcher := None |};
  {| cs_policy := LRU; cs_assoc := 4; cs_line := 64; cs_total := 1024; cs_parent := Some 1%nat; cs_prefetcher := Some 64 |}].
Definition demo_store : store := default [] (build demo_specs).
Definition access (t a n : Z) : memref_t := {| type := t; pid := 1; tid := 1; addr := a; size := n |}.
Definition demo_ops : list cache_op := [
  Request 3 (access TRACE_TYPE_READ 0x1000 8); Request 3 (access TRACE_TYPE_WRITE 0x103c 8);
  Request 2 (access TRACE_TYPE_INSTR 0x1040 4); Flush 2 (access TRACE_TYPE_INSTR_FLUSH 0x1000 128);
  Request 3 (access TRACE_TYPE_READ 0x1000 8)].

Lemma demo_build : build demo_specs = Some demo_store.
Proof. vm_compute. reflexivity. Qed.

Lemma demo_specs_ok : specs_ok demo_specs.
Proof.
  intros d c E. do 4 (destruct d as [|d]; [injection E as <-; cbn; split; [lia|]; split;
    [intros bytes Hb; (discriminate || (injection Hb as <-; split; [done|vm_compute; discriminate]))
    |intros p Hp; (discriminate || (injection Hp as <-; split; [lia|by eexists]))]|]).
  discriminate.
Qed.

Lemma demo_lru j v : demo_store !! j = Some v -> policy (cfg v) <> FIFO.
Proof.
  intros E. destruct (build_ok _ _ demo_build demo_specs_ok) as (_ & _ & Hp). destruct (Hp j v E) as (c & Ec & ->).
  do 4 (destruct j as [|j]; [injection Ec as <-; discriminate|]). discriminate.
Qed.


(** C20. What a request answers and leaves.  A request inside one line answers
    with the number of the first level, from the cache asked towards memory,
    that holds the line, and 0 when none does, except that a level whose last
    access was to this line answers 0.  The line is then in the cache; whatever
    else is in it was there before, or is the next line if the prefetcher
    brought it; and no cache nearer to the core has changed. *)
Theorem request_answers (s : store) (d : nat) (v : device) (m : memref_t) :
  hierarchy_ok s -> s !! d = Some v -> mem_ok m -> single (cfg v) m ->
  let t := compute_tag (cfg v) (addr m) in
  exists s' v', request (length s + 2) s d m = Ret (s', nearest (S d) s d (addr m)) /\ hierarchy_ok s' /\
    s' !! d = Some v' /\ t ∈ tags v' /\
    (forall u, u ∈ tags v' -> u ∈ tags v \/ u = t \/
       (type_is_prefetch (type m) = false /\ is_Some (prefetcher (cfg v)) /\ u = next_tag (cfg v) t)) /\
    (forall j, (d < j)%nat -> s' !! j = s !! j).
Proof.
  intros Hok E Hm H1 t. destruct (request_ok s d m v Hok E Hm) as (s' & r & v' & Er & S1 & E1 & Hok' & HL).
  destruct (HL H1) as [-> L]. exists s', v'. split; [done|]. split; [done|]. split; [done|]. split; [apply L|]. split; [apply L|apply S1].
Qed.

(** A line asked for twice in a row is reported as coming from memory.  The
    second request finds the line through the shortcut for the last line, and
    the shortcut returns the initial value of the result: the answer is 0
    although the cache holds the line. *)
Theorem repeated_request_answers_memory (s : store) (d : nat) (v : device) (m m' : memref_t) :
  hierarchy_ok s -> s !! d = Some v -> mem_ok m -> single (cfg v) m -> mem_ok m' -> single (cfg v) m' ->
  compute_tag (cfg v) (addr m') = compute_tag (cfg v) (addr m) ->
  exists s1 r v1 s2, request (length s + 2) s d m = Ret (s1, r) /\ s1 !! d = Some v1 /\
    compute_tag (cfg v) (addr m') ∈ tags v1 /\ request (length s + 2) s1 d m' = Ret (s2, NOT_FOUND).
Proof.
  intros Hok E Hm H1 Hm' H1' Ht. destruct (request_ok s d m v Hok E Hm) as (s1 & r & v1 & Er & S1 & E1 & Hok1 & HL).
  destruct (HL H1) as [_ L]. pose proof (lp_cfg _ _ _ _ L) as Ec.
  destruct (request_ok s1 d m' v1 Hok1 E1 Hm') as (s2 & r2 & v2 & Er2 & _ & _ & _ & HL2).
  destruct HL2 as [Hr2 _]; [by rewrite Ec|]. exists s1, r, v1, s2. split; [done|]. split; [done|]. split; [rewrite Ht; apply L|].
  rewrite <- (cfg_length s s1 (sp_cfg _ _ _ S1)), Er2, Hr2, (nearest_eq d s1 d v1 _ E1), Ec, Ht, (lp_last _ _ _ _ L), Z.eqb_refl. done.
Qed.

#[export] Instance device_inhabited : Inhabited device := populate {|
  cfg := {| policy := LRU; associativity := 0; block_size := 0; num_blocks := 0; blocks_per_way := 0; block_size_bits := 0;
            parent := None; prefetcher := None; inclusive := false; children := [] |};
  blocks := []; loaded_blocks := 0; last_tag := 0; last_way := 0; last_block_idx := 0; last_pid := 0; stats := new_stats |}.
Definition demo_device : device := demo_store !!! 3%nat.

Lemma demo_hierarchy : hierarchy_ok demo_store.
Proof. exact (proj1 (build_ok _ _ demo_build demo_specs_ok)). Qed.
Lemma demo_lookup : demo_store !! 3%nat = Some demo_device.
Proof. vm_compute. reflexivity. Qed.

Lemma request_answers_witness : exists s' v',
  request (length demo_store + 2) demo_store 3 (access TRACE_TYPE_READ 0x1000 8) = Ret (s', 0) /\ s' !! 3%nat = Some v' /\ 64 ∈ tags v'.
Proof.
  destruct (request_answers demo_store 3 demo_device (access TRACE_TYPE_READ 0x1000 8) demo_hierarchy demo_lookup)
    as (s' & v' & Er & _ & E & Hin & _); [vm_compute; split; [discriminate|reflexivity]|vm_compute; reflexivity|].
  exists s', v'. split; [exact Er|]. split; [exact E|exact Hin].
Defined.

Lemma repeated_request_answers_memory_witness : exists s1 r v1 s2,
  request (length demo_store + 2) demo_store 3 (access TRACE_TYPE_READ 0x1000 8) = Ret (s1, r) /\ s1 !! 3%nat = Some v1 /\
  64 ∈ tags v1 /\ request (length demo_store + 2) s1 3 (access TRACE_TYPE_READ 0x1008 8) = Ret (s2, NOT_FOUND).
Proof.
  apply (repeated_request_answers_memory demo_store 3 demo_device (access TRACE_TYPE_READ 0x1000 8) (access TRACE_TYPE_READ 0x1008 8)
           demo_hierarchy demo_lookup); vm_compute; (reflexivity || (split; [discriminate|reflexivity])).
Defined.

(** Once the block that a FIFO set would replace next has been flushed, the set
    has no block to replace: the next miss leaves the array. *)
Definition fifo_specs : list cache_spec :=
  [{| cs_policy := FIFO; cs_assoc := 2; cs_line := 64; cs_total := 128; cs_parent := None; cs_prefetcher := None |}].

(** Flushing a FIFO cache can break it: a two-way cache, two lines read,
    the first flushed, and the next miss fails. *)
Theorem fifo_flush_breaks :
  exists s, build fifo_specs = Some s /\
    (exists s', run 3 s [Request 0 (access TRACE_TYPE_READ 0 8); Request 0 (access TRACE_TYPE_READ 64 8);
                         Flush 0 (access TRACE_TYPE_DATA_FLUSH 0 64)] = Ret s') /\
    run 3 s [Request 0 (access TRACE_TYPE_READ 0 8); Request 0 (access TRACE_TYPE_READ 64 8);
             Flush 0 (access TRACE_TYPE_DATA_FLUSH 0 64); Request 0 (access TRACE_TYPE_READ 128 8)] = Abort.
Proof. eexists. split; [vm_compute; reflexivity|]. split; [eexists; vm_compute; reflexivity|vm_compute; reflexivity]. Qed.
