(* ===== verification/CacheLru.v ===== *)
(** * The policy called LRU

    [cache_lru_t] keeps one counter per block.  A request gives the line it
    uses the counter 0 and raises the counters that were not above the line's
    own.  That orders the last two lines used before all the others, but not
    the rest: the line replaced is never one of those two, and is not always
    the one used longest ago. *)
From S2P Require Import Prelude CachingDevice CachingProof CacheRequest CacheSpec.

(** ** One set *)

Section Set_.
Context (c : config_t) (idx : nat).
#[local] Abbreviation n := (associativity c).
#[local] Abbreviation blk bs w := (get_block bs (idx + w)).

Definition aged (way : nat) (cnt : Z) (w : nat) (b : block_t) : block_t :=
  if negb (w =? way)%nat && (counter b <=? cnt) then set_counter (s32 (counter b + 1)) b else b.

Lemma lru_age_get bs way cnt w i : (idx + w < length bs)%nat ->
  blk (lru_age bs idx way cnt w) i = if decide (i = w) then aged way cnt w (blk bs i) else blk bs i.
Proof using.
  intros Hw. unfold lru_age, aged. case_decide as Hi; subst.
  - case_match; [|done]. rewrite get_block_alter by done. by rewrite decide_True.
  - case_match; [|done]. rewrite get_block_alter by done. by rewrite decide_False by lia.
Qed.

Lemma lru_ages_get bs way cnt k i : (idx + k <= length bs)%nat ->
  blk (foldl (fun bs w => lru_age bs idx way cnt w) bs (seq 0 k)) i = if decide (i < k)%nat then aged way cnt i (blk bs i) else blk bs i.
Proof using.
  induction k as [|k IH]; intros Hk; [by case_decide; [lia|]|]. rewrite seq_S, foldl_app. cbn [foldl].
  assert (Hl : length (foldl (fun bs w => lru_age bs idx way cnt w) bs (seq 0 k)) = length bs).
  { rewrite <- (length_fmap tag), lru_ages_tags. apply length_fmap. }
  rewrite lru_age_get by (rewrite Hl; cbn; lia). rewrite IH by lia. cbn [Nat.add].
  repeat case_decide; subst; try lia; done.
Qed.

Context (Hlru : policy c = LRU).

(** The set after its way [way] has been used. *)
Lemma lru_update_get bs way i : (idx + n <= length bs)%nat -> (way < n)%nat -> (i < n)%nat ->
  blk (access_update c bs idx way) i =
    if counter (blk bs way) =? 0 then blk bs i
    else if decide (i = way) then set_counter 0 (blk bs i) else aged way (counter (blk bs way)) i (blk bs i).
Proof using Hlru.
  intros Hl Hw Hi. unfold access_update. rewrite Hlru. cbv zeta. case_match; [done|].
  set (bs' := foldl _ _ _). assert (length bs' = length bs) by (unfold bs'; by rewrite <- (length_fmap tag), lru_ages_tags, length_fmap).
  rewrite get_block_alter by lia. unfold bs'. rewrite lru_ages_get by lia. repeat case_decide; subst; try lia; try done.
  unfold aged. by rewrite Nat.eqb_refl.
Qed.

(** The search for the largest counter. *)
Lemma lru_scan_spec bs k way best bw : (way + k = n)%nat -> (bw < n)%nat ->
  let w := lru_scan bs idx way k best bw in
  tag (blk bs w) = TAG_INVALID \/
  ((w = bw \/ (way <= w)%nat) /\ (forall i, (way <= i < n)%nat -> tag (blk bs i) <> TAG_INVALID /\ counter (blk bs i) <= (if decide (w = bw) then Z.max best (counter (blk bs w)) else counter (blk bs w))) /\
   (w <> bw -> best < counter (blk bs w))).
Proof using.
  revert way best bw. induction k as [|k IH]; intros way best bw Hk Hbw; cbn [lru_scan].
  { right. split; [by left|]. split; [lia|done]. }
  case_match eqn:Et; zbool; [by left|]. case_match eqn:Ec; zbool.
  - destruct (IH (S way) (counter (blk bs way)) way ltac:(lia) ltac:(lia)) as [|(Hw & Hall & Hgt)]; [by left|]. right.
    set (w := lru_scan _ _ _ _ _ _) in *. assert (Hbest : best < counter (blk bs w)).
    { destruct (decide (w = way)) as [->|Hne]; [done|]. specialize (Hgt Hne). lia. }
    split; [right; destruct Hw; lia|]. split; [|done].
    intros i Hi. destruct (decide (i = way)) as [->|]; [split; [done|]|destruct (Hall i ltac:(lia)) as [? Hle]; split; [done|]].
    + destruct (decide (w = way)) as [->|Hne]; [case_decide; lia|]. specialize (Hgt Hne). case_decide; lia.
    + destruct (decide (w = way)) as [E|]; [rewrite E in *; case_decide; lia|]. case_decide; lia.
  - destruct (IH (S way) best bw ltac:(lia) Hbw) as [|(Hw & Hall & Hgt)]; [by left|]. right.
    set (w := lru_scan _ _ _ _ _ _) in *. split; [destruct Hw; [by left|right; lia]|]. split; [|done].
    intros i Hi. destruct (decide (i = way)) as [->|]; [split; [done|]|apply Hall; lia].
    case_decide as Hd; [lia|]. specialize (Hgt Hd). lia.
Qed.

(** What is replaced is invalid or has the largest counter of the set. *)
Lemma lru_victim bs : (0 < n)%nat -> (forall i, (i < n)%nat -> 0 <= counter (blk bs i)) ->
  let w := lru_scan bs idx 0 n 0 0 in
  tag (blk bs w) = TAG_INVALID \/ forall i, (i < n)%nat -> tag (blk bs i) <> TAG_INVALID /\ counter (blk bs i) <= counter (blk bs w).
Proof using.
  intros Hn Hpos w. destruct (lru_scan_spec bs n 0 0 0 ltac:(lia) Hn) as [|(_ & Hall & _)]; [by left|]. right.
  fold w in Hall. intros i Hi. destruct (Hall i ltac:(lia)) as [? Hle]. split; [done|].
  assert (w < n)%nat by (apply lru_scan_bound; lia). specialize (Hpos w ltac:(done)). case_decide; lia.
Qed.

(** ** Using a line of the set *)

Definition valid_at (bs : list block_t) (i : nat) : Prop := (i < n)%nat /\ tag (blk bs i) <> TAG_INVALID.
Definition bounded (B : Z) (bs : list block_t) : Prop := forall i, (i < n)%nat -> 0 <= counter (blk bs i) <= B.

(** The line's way after the request, the counter it had, and the others. *)
Record used (bs bs' : list block_t) (t : Z) (way : nat) (cnt : Z) : Prop := {
  us_way : (way < n)%nat; us_tag : tag (blk bs' way) = t; us_zero : counter (blk bs' way) = 0; us_pos : 0 <= cnt;
  us_tags : forall i, (i < n)%nat -> i <> way -> tag (blk bs' i) = tag (blk bs i);
  us_counters : forall i, (i < n)%nat -> i <> way -> counter (blk bs' i) =
    if (cnt =? 0) || (cnt <? counter (blk bs i)) then counter (blk bs i) else counter (blk bs i) + 1;
  us_from : (tag (blk bs way) = t /\ counter (blk bs way) = cnt) \/
            (cnt = 1 /\ (forall i, (i < n)%nat -> tag (blk bs i) <> t) /\
             (tag (blk bs way) = TAG_INVALID \/
              forall i, (i < n)%nat -> tag (blk bs i) <> TAG_INVALID /\ counter (blk bs i) <= counter (blk bs way)))
}.

Lemma aged_counter way cnt i b B : 0 <= counter b <= B -> B < 2147483647 -> cnt <> 0 -> i <> way ->
  counter (aged way cnt i b) = if (cnt =? 0) || (cnt <? counter b) then counter b else counter b + 1.
Proof using.
  intros Hb HB Hc Hi. unfold aged. rewrite (proj2 (Nat.eqb_neq _ _) Hi), (proj2 (Z.eqb_neq _ _) Hc). cbn [negb andb orb].
  rewrite Z.leb_antisym. destruct (cnt <? counter b); cbn; [done|]. apply s32_small. lia.
Qed.
Lemma aged_tag way cnt i b : tag (aged way cnt i b) = tag b.
Proof using. unfold aged. by case_match. Qed.

Lemma update_used bs way t B : (idx + n <= length bs)%nat -> (way < n)%nat -> bounded B bs -> B < 2147483647 ->
  tag (blk bs way) = t ->
  let bs' := access_update c bs idx way in
  tag (blk bs' way) = t /\ counter (blk bs' way) = 0 /\
  (forall i, (i < n)%nat -> i <> way -> tag (blk bs' i) = tag (blk bs i) /\ counter (blk bs' i) =
    if (counter (blk bs way) =? 0) || (counter (blk bs way) <? counter (blk bs i)) then counter (blk bs i) else counter (blk bs i) + 1).
Proof using Hlru.
  intros Hl Hw Hb HB Ht bs'. unfold bs'. split; [|split].
  - rewrite lru_update_get by done. case_match; [done|]. by rewrite decide_True.
  - rewrite lru_update_get by done. case_match eqn:E; [by zbool|]. by rewrite decide_True.
  - intros i Hi Hne. rewrite lru_update_get by done. case_match eqn:E; [done|]. zbool. rewrite decide_False by done.
    split; [apply aged_tag|]. rewrite <- (proj2 (Z.eqb_neq _ _) E) at 1. by eapply aged_counter; [apply Hb|..].
Qed.
End Set_.

Section Touch.
Context (c : config_t) (Hc : config_ok c) (Hlru : policy c = LRU) (t : Z).
#[local] Abbreviation idx := (compute_block_idx c t).
#[local] Abbreviation n := (associativity c).

Lemma touched_used bs bs' B : tags_ok c (tag <$> bs) -> bounded c idx B bs -> 0 < B < 2147483647 ->
  touched c bs t = Some bs' -> exists way cnt, used c idx bs bs' t way cnt.
Proof using Hc Hlru.
  intros Ht Hb HB. pose proof (co_assoc c Hc) as Hn.
  assert (Hlen : length bs = num_blocks c) by (rewrite <- (length_fmap tag); apply Ht).
  assert (Hl : (idx + n <= length bs)%nat).
  { rewrite Hlen, (co_blocks c Hc), block_idx_set. pose proof (set_of_bound c Hc t). nia. }
  unfold touched, chosen. destruct (find_way bs idx t 0 n) as [way|] eqn:Ef; cbn [mbind option_bind].
  - intros [= <-]. apply find_way_some in Ef as [Hw Et]; [|lia]. apply tag_of_lookup in Et.
    destruct (update_used c idx Hlru bs way t B Hl) as (U1 & U2 & U3); [lia|done|lia|done|].
    exists way, (counter (get_block bs (idx + way))). constructor; try done; [lia|apply Hb; lia|..]; try (intros; by apply U3). by left.
  - unfold replace_which_way. rewrite Hlru. cbn [mbind option_bind]. intros [= <-].
    pose proof (lru_victim c idx bs Hn (fun i Hi => proj1 (Hb i Hi))) as Hv. cbv zeta in Hv.
    pose proof (lru_scan_bound bs idx n 0 0 0 n eq_refl Hn) as Hw. set (way := lru_scan _ _ _ _ _ _) in *.
    set (bs1 := alter (set_tag t) _ _).
    assert (Hl1 : length bs1 = length bs) by (unfold bs1; by rewrite !length_alter).
    assert (Hg : forall i, get_block bs1 (idx + i) = if decide (i = way) then set_tag t (set_counter 1 (get_block bs (idx + way))) else get_block bs (idx + i)).
    { intros i. unfold bs1. rewrite !get_block_alter by (rewrite ?length_alter; lia). repeat case_decide; subst; try done; lia. }
    assert (Hb1 : bounded c idx B bs1).
    { intros i Hi. rewrite Hg. case_decide; [cbn; lia|by apply Hb]. }
    destruct (update_used c idx Hlru bs1 way t B) as (U1 & U2 & U3); [lia|done|done|lia|by rewrite Hg, decide_True|].
    assert (Ec : counter (get_block bs1 (idx + way)) = 1) by (by rewrite Hg, decide_True). rewrite Ec in U3.
    assert (Hsame : forall i, i <> way -> get_block bs1 (idx + i) = get_block bs (idx + i)) by (intros i Hi; by rewrite Hg, decide_False).
    exists way, 1. constructor; try done.
    + intros i Hi Hne. rewrite <- (Hsame i Hne). by apply U3.
    + intros i Hi Hne. rewrite <- (Hsame i Hne). by apply U3.
    + right. split; [done|]. split; [|exact Hv]. intros i Hi E.
      apply (find_way_none bs idx t n 0 ltac:(lia) Ef i ltac:(lia)). rewrite get_block_tag by lia. by rewrite E.
Qed.
End Touch.

(** ** The order of the last lines used *)

Section Recent.
Context (c : config_t) (idx : nat).
#[local] Abbreviation n := (associativity c).
#[local] Abbreviation blk bs w := (get_block bs (idx + w)).

(** No two valid blocks of the set have the counter 0. *)
Definition zero_unique (bs : list block_t) : Prop :=
  forall i j, valid_at c idx bs i -> valid_at c idx bs j -> counter (blk bs i) = 0 -> counter (blk bs j) = 0 -> i = j.
(** [a] is the line used last. *)
Definition most_recent (bs : list block_t) (a : Z) : Prop :=
  exists wa, (wa < n)%nat /\ tag (blk bs wa) = a /\ counter (blk bs wa) = 0 /\
    forall i, valid_at c idx bs i -> i <> wa -> 1 <= counter (blk bs i).
(** [b] is the line used last and [a] the one before. *)
Definition two_recent (bs : list block_t) (a b : Z) : Prop :=
  exists wa wb, (wa < n)%nat /\ (wb < n)%nat /\ wa <> wb /\ tag (blk bs wa) = a /\ tag (blk bs wb) = b /\
    counter (blk bs wa) = 1 /\ counter (blk bs wb) = 0 /\
    forall i, valid_at c idx bs i -> i <> wa -> i <> wb -> 2 <= counter (blk bs i).

Context (t : Z) (Ht : t <> TAG_INVALID).
Context (bs bs' : list block_t) (way : nat) (cnt B : Z) (Hb : bounded c idx B bs) (Hu : used c idx bs bs' t way cnt).

Lemma used_bounded : bounded c idx (B + 1) bs'.
Proof using Hb Hu.
  intros i Hi. destruct (decide (i = way)) as [->|Hne].
  - rewrite (us_zero _ _ _ _ _ _ _ Hu). pose proof (Hb way (us_way _ _ _ _ _ _ _ Hu)). lia.
  - rewrite (us_counters _ _ _ _ _ _ _ Hu i Hi Hne). pose proof (Hb i Hi). case_match; lia.
Qed.

Lemma used_valid i : i <> way -> valid_at c idx bs' i -> valid_at c idx bs i.
Proof using Hu. intros Hne [Hi Hv]. split; [done|]. by rewrite <- (us_tags _ _ _ _ _ _ _ Hu i Hi Hne). Qed.

Lemma used_most_recent : zero_unique bs -> most_recent bs' t.
Proof using Hb Hu Ht.
  intros Hz. exists way. split; [apply Hu|]. split; [apply Hu|]. split; [apply Hu|]. intros i Hv Hne.
  pose proof (used_valid i Hne Hv) as Hv0. destruct Hv as [Hi _].
  rewrite (us_counters _ _ _ _ _ _ _ Hu i Hi Hne). pose proof (Hb i Hi).
  destruct ((cnt =? 0) || (cnt <? counter (blk bs i))) eqn:E; [|lia].
  destruct (decide (cnt = 0)) as [->|]; [|pose proof (us_pos _ _ _ _ _ _ _ Hu); apply orb_true_iff in E as [E|E]; zbool; lia].
  destruct (us_from _ _ _ _ _ _ _ Hu) as [[Et Ec]|[? _]]; [|done].
  destruct (decide (counter (blk bs i) = 0)) as [E0|]; [|lia]. exfalso. apply Hne. apply Hz; try done.
  split; [apply Hu|congruence].
Qed.

Lemma most_recent_unique a : most_recent bs' a -> zero_unique bs'.
Proof using.
  intros (wa & _ & _ & _ & Ho) i j Hi Hj Ei Ej.
  destruct (decide (i = wa)) as [->|Hi']; [|specialize (Ho i Hi Hi'); lia].
  destruct (decide (j = wa)) as [->|Hj']; [done|specialize (Ho j Hj Hj'); lia].
Qed.

(** A way whose block is valid and less aged than another valid one stays. *)
Lemma used_stays i j : (i < n)%nat -> (j < n)%nat -> tag (blk bs i) <> TAG_INVALID -> tag (blk bs i) <> t ->
  (tag (blk bs j) <> TAG_INVALID -> counter (blk bs i) < counter (blk bs j)) -> i <> way.
Proof using Hu.
  intros Hi Hj Hv Hit Hlt ->. destruct (us_from _ _ _ _ _ _ _ Hu) as [[Et _]|(_ & _ & [Hw|Hw])]; [done|done|].
  destruct (Hw j Hj) as [Hvj Hle]. specialize (Hlt Hvj). lia.
Qed.

Context (H3 : (3 <= n)%nat).

Lemma other_way i : exists j, (j < n)%nat /\ j <> i.
Proof using H3. exists (if decide (i = 0%nat) then 1%nat else 0%nat). case_decide; lia. Qed.
Lemma third_way i j : exists k, (k < n)%nat /\ k <> i /\ k <> j.
Proof using H3.
  destruct (decide (i <> 0%nat /\ j <> 0%nat)); [exists 0%nat; lia|].
  destruct (decide (i <> 1%nat /\ j <> 1%nat)); [exists 1%nat; lia|exists 2%nat; lia].
Qed.

Lemma used_two_recent a : most_recent bs a -> a <> t -> a <> TAG_INVALID -> two_recent bs' a t.
Proof using Hb Hu Ht H3.
  intros (wa & Hwa & Ea & Ca & Ho) Hat Hai. destruct (other_way wa) as (j & Hj & Hja).
  assert (Hne : wa <> way).
  { apply (used_stays wa j); try congruence. intros Hvj. specialize (Ho j). unfold valid_at in Ho. rewrite Ca. enough (1 <= counter (blk bs j)) by lia. auto. }
  assert (Hcnt : 1 <= cnt).
  { destruct (us_from _ _ _ _ _ _ _ Hu) as [[Et Ec]|(-> & _)]; [|lia]. rewrite <- Ec. apply Ho; [|done]. split; [apply Hu|congruence]. }
  exists wa, way. do 2 (split; [done || apply Hu|]). split; [done|].
  split; [by rewrite (us_tags _ _ _ _ _ _ _ Hu)|]. split; [apply Hu|].
  assert (Hcs := us_counters _ _ _ _ _ _ _ Hu). rewrite (proj2 (Z.eqb_neq cnt 0)) in Hcs by lia. cbn [orb] in Hcs.
  split; [rewrite Hcs, Ca by done; by rewrite (proj2 (Z.ltb_ge _ _)) by lia|]. split; [apply Hu|].
  intros i Hv Hia Hiw. pose proof (Ho i (used_valid i Hiw Hv) Hia). destruct Hv as [Hi _].
  rewrite Hcs by done. case_match eqn:E; zbool; lia.
Qed.

(** Neither of the last two lines used is replaced. *)
Lemma used_keeps a b : two_recent bs a b -> a <> TAG_INVALID -> b <> TAG_INVALID -> a <> t -> b <> t ->
  exists wa wb, (wa < n)%nat /\ (wb < n)%nat /\ tag (blk bs' wa) = a /\ tag (blk bs' wb) = b.
Proof using Hu H3 Ht.
  intros (wa & wb & Ha & Hb' & Hab & Ea & Eb & Ca & Cb & Ho) Hai Hbi Hat Hbt.
  destruct (third_way wa wb) as (j & Hj & Hja & Hjb).
  assert (H2 : tag (blk bs j) <> TAG_INVALID -> 2 <= counter (blk bs j)) by (intros Hv; by apply Ho).
  exists wa, wb. do 2 (split; [done|]).
  rewrite (us_tags _ _ _ _ _ _ _ Hu wa Ha), (us_tags _ _ _ _ _ _ _ Hu wb Hb'); [done|..].
  - apply (used_stays wb j); try congruence. intros Hv. specialize (H2 Hv). lia.
  - apply (used_stays wa j); try congruence. intros Hv. specialize (H2 Hv). lia.
Qed.
End Recent.

(** ** Requests *)

(** A request inside one line, seen from the set of the line. *)
Lemma request_uses c s d m v B : hierarchy_ok s -> s !! d = Some v -> cfg v = c -> mem_ok m -> single c m ->
  policy c = LRU -> prefetcher c = None ->
  let t := compute_tag c (addr m) in
  bounded c (compute_block_idx c t) B (blocks v) -> 0 < B < 2147483647 ->
  exists s' v' way cnt, run_op (length s + 2) s (Request d m) = Ret s' /\ hierarchy_ok s' /\ length s' = length s /\
    s' !! d = Some v' /\ cfg v' = c /\ t ∈ tags v' /\ t <> TAG_INVALID /\
    used c (compute_block_idx c t) (blocks v) (blocks v') t way cnt.
Proof.
  intros Hok E <- Hm H1 Hlru Hpf t Hb HB. destruct (request_ok s d m v Hok E Hm) as (s' & r & v' & Er & S1 & E1 & Hok' & HL).
  destruct (HL H1) as [_ L]. pose proof (line_device s d v (proj1 Hok) E) as Hv. pose proof (do_config _ Hv) as Hc.
  destruct (touched_used (cfg v) Hc Hlru t (blocks v) (blocks v') B) as (way & cnt & Hu); [apply (do_tags _ Hv)|done|done|apply L; by right|].
  exists s', v', way, cnt. cbn [run_op]. rewrite Er. split; [done|]. split; [done|]. split; [apply cfg_length, S1|].
  split; [done|]. split; [apply L|]. split; [apply L|]. split; [|done].
  eapply valid_tag_valid; [done|]. by apply (line_valid s d m v (proj1 Hok) E Hm).
Qed.

Lemma tag_in v idx w : device_ok v -> tag (get_block (blocks v) (idx + w)) <> TAG_INVALID -> tag (get_block (blocks v) (idx + w)) ∈ tags v.
Proof.
  intros Hv. unfold get_block, tags. destruct (blocks v !! (idx + w)%nat) as [b|] eqn:Eb; [|done]. intros _.
  apply list_elem_of_fmap. exists b. split; [done|]. by eapply list_elem_of_lookup_2.
Qed.

(** The policy called LRU replaces neither of the two lines used last: in a
    cache of at least three ways without a prefetcher, three requests in a row
    to different lines of one set leave all three lines in the cache, whatever
    the set held before; the hypotheses are that no two valid blocks of the set
    count 0, which every request keeps, and that the counters are in range. *)
Theorem lru_keeps_last_two (s : store) (d : nat) (v : device) (m1 m2 m3 : memref_t) (B : Z) :
  let t m := compute_tag (cfg v) (addr m) in
  hierarchy_ok s -> s !! d = Some v -> policy (cfg v) = LRU -> prefetcher (cfg v) = None -> (3 <= associativity (cfg v))%nat ->
  Forall (fun m => mem_ok m /\ single (cfg v) m /\ set_of (cfg v) (t m) = set_of (cfg v) (t m1)) [m1; m2; m3] ->
  NoDup [t m1; t m2; t m3] ->
  zero_unique (cfg v) (compute_block_idx (cfg v) (t m1)) (blocks v) ->
  bounded (cfg v) (compute_block_idx (cfg v) (t m1)) B (blocks v) -> 0 < B < 2147483645 ->
  exists s' v', run (length s + 2) s [Request d m1; Request d m2; Request d m3] = Ret s' /\ s' !! d = Some v' /\
    t m1 ∈ tags v' /\ t m2 ∈ tags v' /\ t m3 ∈ tags v'.
Proof.
  intros t Hok E Hlru Hpf H3 Hms Hnd Hz Hb HB.
  rewrite !Forall_cons in Hms. destruct Hms as ((M1 & G1 & _) & (M2 & G2 & K2) & (M3 & G3 & K3) & _).
  assert (I2 : compute_block_idx (cfg v) (t m2) = compute_block_idx (cfg v) (t m1)) by (rewrite !block_idx_set; congruence).
  assert (I3 : compute_block_idx (cfg v) (t m3) = compute_block_idx (cfg v) (t m1)) by (rewrite !block_idx_set; congruence).
  assert (Hne : t m1 <> t m2 /\ t m1 <> t m3 /\ t m2 <> t m3).
  { clear -Hnd. rewrite !NoDup_cons, !not_elem_of_cons in Hnd. tauto. }
  destruct (request_uses _ s d m1 v B Hok E eq_refl M1 G1 Hlru Hpf Hb ltac:(clear -HB; lia))
    as (s1 & v1 & w1 & c1 & R1 & O1 & L1 & E1 & C1 & _ & T1 & U1). fold (t m1) in T1, U1.
  pose proof (used_bounded _ _ _ _ _ _ _ _ Hb U1) as B1. pose proof (used_most_recent _ _ _ T1 _ _ _ _ _ Hb U1 Hz) as Q1.
  rewrite <- I2 in B1, Q1.
  destruct (request_uses _ s1 d m2 v1 (B + 1) O1 E1 C1 M2 G2 Hlru Hpf B1 ltac:(clear -HB; lia))
    as (s2 & v2 & w2 & c2 & R2 & O2 & L2 & E2 & C2 & _ & T2 & U2). fold (t m2) in T2, U2.
  pose proof (used_bounded _ _ _ _ _ _ _ _ B1 U2) as B2.
  pose proof (used_two_recent _ _ _ T2 _ _ _ _ _ B1 U2 H3 _ Q1 ltac:(tauto) T1) as Q2.
  rewrite I2, <- I3 in B2, Q2.
  destruct (request_uses _ s2 d m3 v2 (B + 1 + 1) O2 E2 C2 M3 G3 Hlru Hpf B2 ltac:(clear -HB; lia))
    as (s3 & v3 & w3 & c3 & R3 & O3 & L3 & E3 & C3 & Hin & T3 & U3). fold (t m3) in Hin, U3.
  destruct (used_keeps _ _ _ T3 _ _ _ _ U3 H3 _ _ Q2 T1 T2) as (wa & wb & _ & _ & Ea & Eb); [tauto..|].
  exists s3, v3. split; [|split; [done|]].
  - cbn [run]. rewrite R1. cbn [mbind outcome_bind]. rewrite <- L1, R2. cbn [mbind outcome_bind]. by rewrite <- L2, R3.
  - pose proof (line_device s3 d v3 (proj1 O3) E3) as Hv3. split; [|split; [|done]].
    + rewrite <- Ea. apply tag_in; [done|congruence].
    + rewrite <- Eb. apply tag_in; [done|congruence].
Qed.

(** The second-level cache of [demo_store], from its initial state. *)
Definition demo_l2 : device := demo_store !!! 1%nat.
Definition line_at (k : Z) : memref_t := access TRACE_TYPE_READ (k * 0x200) 8.

Lemma demo_l2_counters i : counter (get_block (blocks demo_l2) i) = 0 /\ tag (get_block (blocks demo_l2) i) = TAG_INVALID.
Proof.
  unfold get_block. destruct (decide (i < 32)%nat) as [Hi|Hi].
  - do 32 (destruct i as [|i]; [vm_compute; split; reflexivity|]). lia.
  - rewrite lookup_ge_None_2; [done|]. change (length (blocks demo_l2)) with 32%nat. lia.
Qed.

Lemma lru_keeps_last_two_witness : exists s' v',
  run (length demo_store + 2) demo_store [Request 1 (line_at 1); Request 1 (line_at 2); Request 1 (line_at 3)] = Ret s' /\
  s' !! 1%nat = Some v' /\ 8 ∈ tags v' /\ 16 ∈ tags v' /\ 24 ∈ tags v'.
Proof.
  apply (lru_keeps_last_two demo_store 1 demo_l2 (line_at 1) (line_at 2) (line_at 3) 1).
  - exact demo_hierarchy.
  - vm_compute. reflexivity.
  - vm_compute. reflexivity.
  - vm_compute. reflexivity.
  - change (associativity (cfg demo_l2)) with 4%nat. lia.
  - repeat constructor; vm_compute; try reflexivity; discriminate.
  - vm_compute. repeat constructor; set_solver.
  - intros i j [_ Hv]. by destruct (demo_l2_counters (compute_block_idx (cfg demo_l2) (compute_tag (cfg demo_l2) (addr (line_at 1))) + i)).
  - intros i _. destruct (demo_l2_counters (compute_block_idx (cfg demo_l2) (compute_tag (cfg demo_l2) (addr (line_at 1))) + i)) as [-> _]. lia.
  - lia.
Defined.

Definition four_way : store := default [] (build
  [{| cs_policy := LRU; cs_assoc := 4; cs_line := 64; cs_total := 256; cs_parent := None; cs_prefetcher := None |}]).
Definition read_lines (s : store) (lines : list Z) : outcome store :=
  run 3 s (map (fun k => Request 0 (access TRACE_TYPE_READ (64 * k) 8)) lines).
Definition tags_after (o : outcome store) : option (list Z) :=
  match o with Ret s => tags <$> s !! 0%nat | _ => None end.

(** The policy called LRU is not least-recently-used from four ways on: in a
    four-way cache of one set, after lines 0, 1, 0, 2, 3 the line used longest
    ago is 1, but reading line 4 replaces line 0. *)
Theorem lru_not_least_recent :
  tags_after (read_lines four_way [0; 1; 0; 2; 3]) = Some [0; 1; 2; 3] /\
  tags_after (read_lines four_way [0; 1; 0; 2; 3; 4]) = Some [4; 1; 2; 3].
Proof. split; vm_compute; reflexivity. Qed.
