(* ===== verification/Tlb.v ===== *)
(** * The simulated TLBs

    [src/Simulator/clients/drcachesim/simulator/tlb.cpp] and the construction in
    [tlb_simulator.cpp].  A TLB is a caching device under the LFU policy whose
    blocks also carry a process id; the first-level TLBs of a core share a
    second-level one.  Of a reference that spans several pages the request looks
    only the first one up, and returns. *)
From S2P Require Import Prelude CachingDevice CachingProof CacheRequest CacheSpec.

Fixpoint tlb_find (bs : list block_t) (idx : nat) (t p : Z) (way n : nat) : option nat :=
  match n with
  | O => None
  | S n =>
      if (tag (get_block bs (idx + way)) =? t) && (block_pid (get_block bs (idx + way)) =? p) then Some way
      else tlb_find bs idx t p (S way) n
  end.

(** [tlb_t::request(memref, bool, bool)] *)
Section Request.
Context (req : store -> nat -> memref_t -> outcome (store * bool)).

Definition tlb_fill (s : store) (d : nat) (t p : Z) : outcome (store * nat) :=
  v ← or_abort (s !! d);
  let idx := compute_block_idx (cfg v) t in
  '(bs, way) ← or_abort (replace_which_way (cfg v) (blocks v) idx);
  Ret (<[d := set_blocks v (alter (fun b => set_block_pid p (set_tag t b)) (idx + way)%nat bs)]> s, way).

(** The one turn of the loop. *)
Definition tlb_page (s : store) (d : nat) (m : memref_t) (t : Z) : outcome (store * bool) :=
  v ← or_abort (s !! d);
  let idx := compute_block_idx (cfg v) t in
  '(s, way, found) ← (match tlb_find (blocks v) idx t (pid m) 0 (associativity (cfg v)) with
    | Some way =>
        let s := <[d := set_stats v (base_access (stats v) m true)]> s in
        Ret (parent_child_access s (parent (cfg v)) true, way, true)
    | None =>
        let s := <[d := set_stats v (base_access (stats v) m false)]> s in
        '(s, result) ← (match parent (cfg v) with
          | None => Ret (s, false)
          | Some p => req (parent_child_access s (Some p) false) p m
          end);
        '(s, way) ← tlb_fill s d t (pid m);
        Ret (s, way, result)
    end);
  Ret (alter (fun v => set_last (set_blocks v (access_update (cfg v) (blocks v) idx way)) t way idx (pid m)) d s, found).
End Request.

Fixpoint tlb_request (fuel : nat) (s : store) (d : nat) (m : memref_t) : outcome (store * bool) :=
  match fuel with
  | O => Out_of_fuel
  | S fuel =>
      v ← or_abort (s !! d);
      let final_tag := compute_tag (cfg v) (u64 (addr m + size m - 1)) in
      let t := compute_tag (cfg v) (addr m) in
      if (t =? final_tag) && (t =? last_tag v) && (pid m =? last_pid v)
      then
        let b := get_block (blocks v) (last_block_idx v + last_way v) in
        if negb (t =? TAG_INVALID) && (t =? tag b) && (pid m =? block_pid b)
        then
          let s := <[d := set_stats v (base_access (stats v) m true)]> s in
          let s := parent_child_access s (parent (cfg v)) true in
          Ret (alter (fun v => set_blocks v (access_update (cfg v) (blocks v) (last_block_idx v) (last_way v))) d s, true)
        else Abort
      else if t <=? final_tag
      then
        let m := if t + 1 <=? final_tag
                 then with_range m (addr m) (u64 (u64 (Z.shiftl (t + 1) (block_size_bits (cfg v))) - addr m)) else m in
        tlb_page (tlb_request fuel) s d m t
      else Ret (s, false)
  end.

(** The TLBs of one core: [lltlbs], then [itlbs] and [dtlbs]. *)
Definition create_tlbs (page_size l1i_assoc l1i_entries l1d_assoc l1d_entries l2_assoc l2_entries : Z) : option store :=
  ll ← caching_device_init LFU l2_assoc page_size l2_entries None None false [];
  itlb ← caching_device_init LFU l1i_assoc page_size l1i_entries (Some 0%nat) None false [];
  dtlb ← caching_device_init LFU l1d_assoc page_size l1d_entries (Some 0%nat) None false [];
  Some [ll; itlb; dtlb].

(** ** Well-formed TLBs *)

Definition entries (v : device) : list (Z * Z) := (fun b => (tag b, block_pid b)) <$> blocks v.
Record entries_ok (c : config_t) (es : list (Z * Z)) : Prop := {
  eo_length : length es = num_blocks c;
  eo_placed : forall i t p, es !! i = Some (t, p) -> t <> TAG_INVALID -> (i / associativity c)%nat = set_of c t;
  eo_distinct : forall i j t p, es !! i = Some (t, p) -> es !! j = Some (t, p) -> t <> TAG_INVALID -> i = j
}.
Record tlb_ok (v : device) : Prop := {
  tk_config : config_ok (cfg v); tk_policy : policy (cfg v) = LFU; tk_entries : entries_ok (cfg v) (entries v);
  tk_synced : last_tag v <> TAG_INVALID ->
    entries v !! (last_block_idx v + last_way v)%nat = Some (last_tag v, last_pid v) /\
    last_block_idx v = compute_block_idx (cfg v) (last_tag v) /\ (last_way v < associativity (cfg v))%nat
}.
(** The parents come first and have the same page size. *)
Definition tlbs_ok (s : store) : Prop := forall d v, s !! d = Some v ->
  tlb_ok v /\ forall p, parent (cfg v) = Some p -> (p < d)%nat /\ exists u, s !! p = Some u /\ block_size_bits (cfg u) = block_size_bits (cfg v).

(** Some TLB on the way to the last level knows the page of the process. *)
Fixpoint translates (n : nat) (s : store) (d : nat) (t p : Z) : bool :=
  match n with
  | O => false
  | S n =>
      match s !! d with
      | None => false
      | Some v => bool_decide ((t, p) ∈ entries v) ||
                  match parent (cfg v) with None => false | Some q => translates n s q t p end
      end
  end.

(** ** Entries *)

Lemma entries_alter f i (bs : list block_t) : (forall b, tag (f b) = tag b /\ block_pid (f b) = block_pid b) ->
  (fun b => (tag b, block_pid b)) <$> alter f i bs = (fun b => (tag b, block_pid b)) <$> bs.
Proof.
  intros Hf. apply list_eq. intros j. rewrite !list_lookup_fmap. destruct (decide (i = j)) as [->|].
  - rewrite list_lookup_alter_eq. destruct (bs !! j) as [b|]; cbn; [|done]. by destruct (Hf b) as [-> ->].
  - by rewrite list_lookup_alter_ne.
Qed.

Lemma entries_set t p i (bs : list block_t) :
  (fun b => (tag b, block_pid b)) <$> alter (fun b => set_block_pid p (set_tag t b)) i bs =
  <[i := (t, p)]> ((fun b => (tag b, block_pid b)) <$> bs).
Proof.
  apply list_eq. intros j. rewrite list_lookup_fmap. destruct (decide (i = j)) as [->|].
  - rewrite list_lookup_alter_eq. destruct (bs !! j) eqn:E; cbn.
    + rewrite list_lookup_insert_eq; [done|]. rewrite length_fmap. by eapply lookup_lt_Some.
    + symmetry. apply lookup_ge_None. rewrite length_insert, length_fmap. by apply lookup_ge_None.
  - rewrite list_lookup_alter_ne, list_lookup_insert_ne by done. by rewrite list_lookup_fmap.
Qed.

Lemma get_block_entry bs i : (i < length bs)%nat ->
  ((fun b => (tag b, block_pid b)) <$> bs) !! i = Some (tag (get_block bs i), block_pid (get_block bs i)).
Proof. intros Hi. rewrite list_lookup_fmap. unfold get_block. destruct (lookup_lt_is_Some_2 bs i Hi) as [b ->]. done. Qed.

Lemma tlb_find_some bs idx t p n way w : (idx + way + n <= length bs)%nat -> tlb_find bs idx t p way n = Some w ->
  (way <= w < way + n)%nat /\ ((fun b => (tag b, block_pid b)) <$> bs) !! (idx + w)%nat = Some (t, p).
Proof.
  revert way. induction n as [|n IH]; intros way Hl; cbn; [done|]. case_match eqn:E; zbool.
  - intros [= <-]. split; [lia|]. rewrite get_block_entry by lia. congruence.
  - intros H'. apply IH in H' as [? ?]; [split; [lia|done]|lia].
Qed.

Lemma tlb_find_none bs idx t p n way : (idx + way + n <= length bs)%nat -> tlb_find bs idx t p way n = None ->
  forall w, (way <= w < way + n)%nat -> ((fun b => (tag b, block_pid b)) <$> bs) !! (idx + w)%nat <> Some (t, p).
Proof.
  revert way. induction n as [|n IH]; intros way Hl; cbn; [intros _ w; lia|]. case_match eqn:E; [done|].
  intros H' w Hw. destruct (decide (way = w)) as [->|]; [|apply (IH (S way)); [lia|done|lia]].
  rewrite get_block_entry by lia. intros [= E1 E2]. by rewrite E1, E2, !Z.eqb_refl in E.
Qed.

Lemma entries_ok_insert c es t p way : config_ok c -> entries_ok c es -> (t, p) ∉ es -> (way < associativity c)%nat ->
  entries_ok c (<[(compute_block_idx c t + way)%nat := (t, p)]> es).
Proof.
  intros Hc [Hl Hp Hd] Hn Hw. pose proof (slot_bound c Hc t way Hw). constructor.
  - by rewrite length_insert.
  - intros i u q [[<- [[= <- <-] _]]|[? E]]%list_lookup_insert_Some; [intros _; by apply slot_set|by eapply Hp].
  - intros i j u q Hi Hj Hu. apply list_lookup_insert_Some in Hi as [[Ei [[= <- <-] _]]|[Ei Hi]], Hj as [[Ej [E _]]|[Ej Hj]]; try congruence.
    + exfalso. apply Hn. by eapply list_elem_of_lookup_2.
    + injection E as <- <-. exfalso. apply Hn. by eapply list_elem_of_lookup_2.
    + by eapply Hd.
Qed.

(** ** Steps *)

(** What a look-up reads of a TLB. *)
Definition tlb_view (v : device) : config_t * list (Z * Z) := (cfg v, entries v).
Definition same_views (s s' : store) : Prop := forall j, tlb_view <$> s' !! j = tlb_view <$> s !! j.

Lemma translates_eq n s d v t p : s !! d = Some v ->
  translates (S n) s d t p = bool_decide ((t, p) ∈ entries v) || match parent (cfg v) with None => false | Some q => translates n s q t p end.
Proof. intros E. cbn. by rewrite E. Qed.

Lemma translates_same n s s' d t p : same_views s s' -> translates n s' d t p = translates n s d t p.
Proof.
  intros HS. revert d. induction n as [|n IH]; intros d; [done|]. cbn. specialize (HS d).
  destruct (s' !! d), (s !! d); try done. injection HS as -> ->. f_equal. by case_match.
Qed.

Lemma translates_fuel n m s d t p : tlbs_ok s -> (d < n)%nat -> (d < m)%nat -> translates n s d t p = translates m s d t p.
Proof.
  intros Hs. revert n m. induction d as [d IH] using lt_wf_ind. intros n m Hn Hm.
  destruct n as [|n], m as [|m]; try lia. cbn. destruct (s !! d) as [v|] eqn:E; [|done]. f_equal.
  destruct (parent (cfg v)) as [q|] eqn:Hp; [|done]. destruct (proj2 (Hs d v E) q Hp) as [Hlt _]. by apply IH; lia.
Qed.

Lemma tlbs_ok_insert s d v v' : tlbs_ok s -> s !! d = Some v -> tlb_ok v' -> cfg v' = cfg v -> tlbs_ok (<[d := v']> s).
Proof.
  intros Hs E Hok Ec j u Hu. assert (Hd : (d < length s)%nat) by (by eapply lookup_lt_Some).
  assert (Hpar : forall w, s !! j = Some w -> cfg u = cfg w -> tlb_ok u -> tlb_ok u /\ forall p, parent (cfg u) = Some p ->
            (p < j)%nat /\ exists x, <[d := v']> s !! p = Some x /\ block_size_bits (cfg x) = block_size_bits (cfg u)).
  { intros w Ew Eu Hu'. split; [done|]. intros p. rewrite Eu. intros Hpp. destruct (proj2 (Hs j w Ew) p Hpp) as (Hlt & x & Ex & Hb).
    split; [done|]. destruct (decide (p = d)) as [->|].
    - exists v'. rewrite list_lookup_insert_eq by done. split; [done|]. rewrite Ec. congruence.
    - exists x. by rewrite list_lookup_insert_ne. }
  destruct (decide (j = d)) as [->|Hne].
  - rewrite list_lookup_insert_eq in Hu by done. injection Hu as <-. by apply (Hpar v).
  - rewrite list_lookup_insert_ne in Hu by done. apply (Hpar u); [done|done|apply (Hs j u Hu)].
Qed.

Lemma set_stats_tlb v st : tlb_ok v -> tlb_ok (set_stats v st).
Proof. intros []. by constructor. Qed.

(** What a request to [d] keeps of the store. *)
Record tlb_step (s s' : store) (d : nat) : Prop := {
  ts_ok : tlbs_ok s';
  ts_above : forall j, (d < j)%nat -> s' !! j = s !! j;
  ts_cfg : forall j, cfg <$> s' !! j = cfg <$> s !! j
}.
Lemma tlb_step_trans s1 s2 s3 d : tlb_step s1 s2 d -> tlb_step s2 s3 d -> tlb_step s1 s3 d.
Proof.
  intros [_ H1 H2] [H3 H4 H5]. constructor; [done| |]; intros j.
  - intros Hj. by rewrite H4, H1.
  - by rewrite H5, H2.
Qed.
Lemma tlb_step_insert s d v v' : tlbs_ok s -> s !! d = Some v -> tlb_ok v' -> cfg v' = cfg v -> tlb_step s (<[d := v']> s) d.
Proof.
  intros Hs E Hok Ec. constructor; [by eapply tlbs_ok_insert| |]; intros j.
  - intros Hj. by rewrite list_lookup_insert_ne by lia.
  - destruct (decide (d = j)) as [<-|]; [|by rewrite list_lookup_insert_ne].
    rewrite list_lookup_insert_eq by (by eapply lookup_lt_Some). rewrite E. cbn. by rewrite Ec.
Qed.

(** The counters of the device and of its parent. *)
Lemma tlb_count s d v m hit : tlbs_ok s -> s !! d = Some v ->
  let v1 := set_stats v (base_access (stats v) m hit) in
  let s1 := parent_child_access (<[d := v1]> s) (parent (cfg v)) hit in
  tlb_step s s1 d /\ s1 !! d = Some v1 /\ same_views s s1.
Proof.
  intros Hs E v1 s1. assert (Hd : (d < length s)%nat) by (by eapply lookup_lt_Some).
  assert (S1 : tlb_step s (<[d := v1]> s) d) by (eapply tlb_step_insert; [done|done|apply set_stats_tlb, (Hs d v E)|done]).
  assert (V1 : same_views s (<[d := v1]> s)).
  { intros j. destruct (decide (d = j)) as [<-|]; [|by rewrite list_lookup_insert_ne]. rewrite list_lookup_insert_eq by done. by rewrite E. }
  unfold s1. destruct (parent (cfg v)) as [p|] eqn:Hp; cbn [parent_child_access].
  2:{ split; [done|]. split; [by apply list_lookup_insert_eq|done]. }
  destruct (proj2 (Hs d v E) p Hp) as (Hlt & u & Eu & _).
  assert (Eu1 : <[d := v1]> s !! p = Some u) by (by rewrite list_lookup_insert_ne by lia).
  rewrite (alter_self _ _ _ _ Eu1). set (u1 := set_stats u _). split; [|split].
  - eapply tlb_step_trans; [exact S1|]. constructor.
    + eapply tlbs_ok_insert; [apply S1|exact Eu1|apply set_stats_tlb, (Hs p u Eu)|done].
    + intros j Hj. by rewrite list_lookup_insert_ne by lia.
    + intros j. destruct (decide (p = j)) as [<-|]; [|by rewrite list_lookup_insert_ne].
      rewrite list_lookup_insert_eq by (by eapply lookup_lt_Some). by rewrite Eu1.
  - rewrite list_lookup_insert_ne by lia. by apply list_lookup_insert_eq.
  - intros j. rewrite <- (V1 j). destruct (decide (p = j)) as [<-|]; [|by rewrite list_lookup_insert_ne].
    rewrite list_lookup_insert_eq by (by eapply lookup_lt_Some). by rewrite Eu1.
Qed.

Lemma lfu_update_entries c bs idx way : policy c = LFU ->
  (fun b => (tag b, block_pid b)) <$> access_update c bs idx way = (fun b => (tag b, block_pid b)) <$> bs.
Proof. intros Hp. unfold access_update. rewrite Hp. by apply entries_alter. Qed.

Lemma tlb_range v t : tlb_ok v -> (compute_block_idx (cfg v) t + 0 + associativity (cfg v) <= length (blocks v))%nat.
Proof.
  intros Hv. pose proof (tk_config v Hv) as Hc. pose proof (eo_length _ _ (tk_entries v Hv)) as Hl. unfold entries in Hl.
  rewrite length_fmap in Hl. rewrite Hl, (co_blocks _ Hc), block_idx_set. pose proof (set_of_bound _ Hc t). nia.
Qed.

Lemma tlb_find_way v t p : tlb_ok v -> valid_tag (cfg v) t ->
  match tlb_find (blocks v) (compute_block_idx (cfg v) t) t p 0 (associativity (cfg v)) with
  | Some way => (way < associativity (cfg v))%nat /\ entries v !! (compute_block_idx (cfg v) t + way)%nat = Some (t, p)
  | None => (t, p) ∉ entries v
  end.
Proof.
  intros Hv Ht. pose proof (tk_config v Hv) as Hc. pose proof (tlb_range v t Hv) as Hr. case_match eqn:E.
  - apply tlb_find_some in E as [? ?]; [split; [lia|done]|done].
  - intros (i & Hi)%list_elem_of_lookup. destruct (set_slot _ Hc i t) as (way & Hw & ->).
    { eapply eo_placed; [apply tk_entries, Hv|exact Hi|by eapply valid_tag_valid]. }
    eapply tlb_find_none in E; [done|done|lia].
Qed.

(** The page is there, and remembered as the last one. *)
Lemma tlb_remember v w t p way : tlb_ok v -> cfg w = cfg v -> (way < associativity (cfg v))%nat ->
  entries_ok (cfg v) (entries w) -> entries w !! (compute_block_idx (cfg v) t + way)%nat = Some (t, p) ->
  let w' := set_last (set_blocks w (access_update (cfg w) (blocks w) (compute_block_idx (cfg v) t) way)) t way
              (compute_block_idx (cfg v) t) p in
  tlb_ok w' /\ cfg w' = cfg v /\ (t, p) ∈ entries w'.
Proof.
  intros Hv Ec Hw He Hi w'. assert (Hp : policy (cfg w) = LFU) by (rewrite Ec; apply Hv).
  assert (Ee : entries w' = entries w) by (by apply lfu_update_entries).
  split; [|split; [done|rewrite Ee; by eapply list_elem_of_lookup_2]].
  constructor; [cbn; rewrite Ec; apply Hv|done|rewrite Ee; cbn; by rewrite Ec|]. intros _. rewrite Ee. cbn. by rewrite Ec.
Qed.

Lemma tlb_fill_ok s d v t p : s !! d = Some v -> tlb_ok v -> valid_tag (cfg v) t -> (t, p) ∉ entries v ->
  exists w way, tlb_fill s d t p = Ret (<[d := w]> s, way) /\ cfg w = cfg v /\ (way < associativity (cfg v))%nat /\
    entries_ok (cfg v) (entries w) /\ entries w !! (compute_block_idx (cfg v) t + way)%nat = Some (t, p).
Proof.
  intros E Hv Ht Hn. pose proof (tk_config v Hv) as Hc. unfold tlb_fill. rewrite E. cbn [or_abort mbind outcome_bind]. cbv zeta.
  unfold replace_which_way. rewrite (tk_policy v Hv). cbn [or_abort mbind outcome_bind].
  set (way := lfu_scan _ _ _ _ _ _). assert (Hw : (way < associativity (cfg v))%nat) by (apply lfu_scan_bound; [lia|apply Hc]).
  eexists _, way. split; [reflexivity|]. split; [done|]. split; [done|].
  unfold entries at 1 2. cbn [blocks set_blocks]. rewrite entries_set, entries_alter by done. fold (entries v).
  split; [by apply entries_ok_insert; [|apply Hv|..]|]. apply list_lookup_insert_eq.
  rewrite (eo_length _ _ (tk_entries v Hv)). by apply slot_bound.
Qed.

(** ** Requests *)

Definition tlb_spec (fuel : nat) : Prop := forall s d m v, tlbs_ok s -> s !! d = Some v -> mem_ok m ->
  compute_tag (cfg v) (addr m) <= compute_tag (cfg v) (final_addr m) -> (d < fuel)%nat ->
  let t := compute_tag (cfg v) (addr m) in
  exists s' v', tlb_request fuel s d m = Ret (s', translates (S d) s d t (pid m)) /\ tlb_step s s' d /\
    s' !! d = Some v' /\ (t, pid m) ∈ entries v'.

Section Page.
Context (fuel : nat) (IH : tlb_spec fuel) (s : store) (d : nat) (m : memref_t) (v : device).
Context (Hs : tlbs_ok s) (E : s !! d = Some v) (Hm : mem_ok m) (H1 : single (cfg v) m) (Hd : (d < S fuel)%nat).
#[local] Abbreviation t := (compute_tag (cfg v) (addr m)).

Lemma tlb_page_ok : exists s' v', tlb_page (tlb_request fuel) s d m t = Ret (s', translates (S d) s d t (pid m)) /\
  tlb_step s s' d /\ s' !! d = Some v' /\ (t, pid m) ∈ entries v'.
Proof using All.
  destruct (Hs d v E) as [Hv Hpar]. pose proof (tk_config v Hv) as Hc. pose proof (compute_tag_valid _ Hc _ Hm) as Ht.
  rewrite (translates_eq _ _ _ _ _ _ E). unfold tlb_page. rewrite E. cbn [or_abort mbind outcome_bind]. cbv zeta.
  pose proof (tlb_find_way v t (pid m) Hv Ht) as Hf.
  destruct (tlb_find (blocks v) (compute_block_idx (cfg v) t) t (pid m) 0 (associativity (cfg v))) as [way|]; cbn [mbind outcome_bind].
  - destruct Hf as [Hw He]. destruct (tlb_count s d v m true Hs E) as (S1 & E1 & _). rewrite (alter_self _ _ _ _ E1).
    destruct (tlb_remember v _ t (pid m) way Hv eq_refl Hw (tk_entries v Hv) He : let w' := _ in _) as (K1 & K2 & K3).
    rewrite bool_decide_true by (by eapply list_elem_of_lookup_2). eexists _, _. split; [reflexivity|]. split; [|split].
    + eapply tlb_step_trans; [exact S1|]. eapply tlb_step_insert; [apply S1|exact E1| |done]. exact (set_stats_tlb _ _ K1).
    + apply list_lookup_insert_eq. by eapply lookup_lt_Some.
    + exact K3.
  - rewrite bool_decide_false by done. cbn [orb].
    destruct (tlb_count s d v m false Hs E) as (S1 & E1 & V1). set (v1 := set_stats v _) in *.
    assert (HP : exists s2, (match parent (cfg v) with None => Ret (<[d := v1]> s, false) | Some p =>
              tlb_request fuel (parent_child_access (<[d := v1]> s) (Some p) false) p m end) =
              Ret (s2, match parent (cfg v) with None => false | Some p => translates d s p t (pid m) end) /\
              tlb_step s s2 d /\ s2 !! d = Some v1).
    { destruct (parent (cfg v)) as [p|] eqn:Hp; [|by eexists].
      destruct (Hpar p eq_refl) as (Hlt & u0 & Eu0 & Hb). set (s1 := parent_child_access _ _ _) in *.
      pose proof (V1 p) as Vp. rewrite Eu0 in Vp. destruct (s1 !! p) as [u|] eqn:Eu; [|done]. injection Vp as Ecu _.
      assert (Etag : forall a, compute_tag (cfg u) a = compute_tag (cfg v) a) by (intros a; unfold compute_tag; by rewrite Ecu, Hb).
      destruct (IH s1 p m u) as (s2 & u' & Er & S2 & E2 & _); [apply S1|done|done|rewrite !Etag; unfold single in H1; lia|lia|].
      exists s2. rewrite Er, Etag, (translates_same _ s s1) by done. split; [|split].
      - do 2 f_equal. apply translates_fuel; [done|lia|lia].
      - eapply tlb_step_trans; [exact S1|]. constructor; [apply S2| |apply S2]. intros j Hj. apply S2. lia.
      - by rewrite (ts_above _ _ _ S2). }
    destruct HP as (s2 & EP & S2 & E2). rewrite EP. cbn [mbind outcome_bind].
    destruct (tlb_fill_ok s2 d v1 t (pid m) E2 (set_stats_tlb _ _ Hv) Ht Hf) as (w & way & Ef & Ecw & Hw & Hok & Hi).
    rewrite Ef. cbn [mbind outcome_bind]. rewrite alter_insert_self by (by eapply lookup_lt_Some).
    destruct (tlb_remember v w t (pid m) way Hv Ecw Hw Hok Hi) as (K1 & K2 & K3).
    eexists _, _. split; [reflexivity|]. split; [eapply tlb_step_trans; [exact S2|]; eapply tlb_step_insert; [apply S2|exact E2|exact K1|exact K2]|].
    split; [apply list_lookup_insert_eq; by eapply lookup_lt_Some|exact K3].
Qed.
End Page.

Lemma tlb_request_all fuel : tlb_spec fuel.
Proof.
  induction fuel as [|fuel IH]; intros s d m v Hs E Hm Hle Hd t; [lia|].
  destruct (Hs d v E) as [Hv Hpar]. pose proof (tk_config v Hv) as Hc. pose proof (compute_tag_valid _ Hc _ Hm) as Ht.
  cbn [tlb_request]. rewrite E. cbn [or_abort mbind outcome_bind]. cbv zeta. fold (final_addr m).
  destruct ((compute_tag (cfg v) (addr m) =? compute_tag (cfg v) (final_addr m)) && (compute_tag (cfg v) (addr m) =? last_tag v) &&
            (pid m =? last_pid v)) eqn:Hsc.
  - zbool. pose proof (valid_tag_valid _ Hc _ Ht) as Hn.
    destruct (tk_synced v Hv) as (He & Hi & Hw); [congruence|].
    assert (Hlen : (last_block_idx v + last_way v < length (blocks v))%nat).
    { apply lookup_lt_Some in He. unfold entries in He. by rewrite length_fmap in He. }
    pose proof He as Hb. unfold entries in Hb. rewrite get_block_entry in Hb by done. injection Hb as -> ->.
    replace (compute_tag (cfg v) (addr m) =? TAG_INVALID) with false by (symmetry; by apply Z.eqb_neq).
    replace (compute_tag (cfg v) (addr m) =? last_tag v) with true by (symmetry; by apply Z.eqb_eq).
    replace (pid m =? last_pid v) with true by (symmetry; by apply Z.eqb_eq). cbn [negb andb].
    destruct (tlb_count s d v m true Hs E) as (S1 & E1 & _). rewrite (alter_self _ _ _ _ E1). set (v1 := set_stats v _) in *.
    set (v2 := set_blocks v1 _). assert (Ee : entries v2 = entries v) by (apply lfu_update_entries, Hv).
    rewrite (translates_eq _ _ _ _ _ _ E). rewrite bool_decide_true.
    2:{ eapply list_elem_of_lookup_2. unfold t. rewrite He. congruence. }
    exists (<[d := v2]> (parent_child_access (<[d := v1]> s) (parent (cfg v)) true)), v2. split; [done|]. split; [|split].
    + eapply tlb_step_trans; [exact S1|]. eapply tlb_step_insert; [apply S1|exact E1| |done].
      constructor; [done|apply Hv|rewrite Ee; apply Hv|]. rewrite Ee. apply Hv.
    + apply list_lookup_insert_eq. by eapply lookup_lt_Some.
    + rewrite Ee. eapply list_elem_of_lookup_2. unfold t. rewrite He. congruence.
  - rewrite (proj2 (Z.leb_le _ _) Hle).
    destruct (compute_tag (cfg v) (addr m) + 1 <=? compute_tag (cfg v) (final_addr m)) eqn:Hmore; zbool.
    + destruct (clip_line (cfg v) m Hc Hm Hmore) as (M1 & H1 & _). set (m1 := with_range m (addr m) _) in *.
      exact (tlb_page_ok fuel IH s d m1 v Hs E M1 H1 Hd).
    + apply (tlb_page_ok fuel IH s d m v Hs E Hm); [unfold single; lia|done].
Qed.

(** ** The TLBs of a core *)

Lemma tlb_init_ok a l n par v : n < 2 ^ 31 -> caching_device_init LFU a l n par None false [] = Some v ->
  tlb_ok v /\ parent (cfg v) = par /\ block_size_bits (cfg v) = compute_log2 l.
Proof.
  intros Hn E. destruct (caching_device_init_ok LFU a l n par None v Hn) as (Hc & Hb & Hl & Ec); [by intros bytes [=]|done|].
  split; [|by rewrite Ec]. constructor; [done|by rewrite Ec| |by rewrite Hl].
  unfold entries. rewrite Hb, fmap_replicate. constructor.
  - apply length_replicate.
  - intros i t p [[= -> _] _]%lookup_replicate. done.
  - intros i j t p [[= -> _] _]%lookup_replicate. done.
Qed.

Lemma create_tlbs_ok l ia ie da de la le s : ie < 2 ^ 31 -> de < 2 ^ 31 -> le < 2 ^ 31 ->
  create_tlbs l ia ie da de la le = Some s ->
  tlbs_ok s /\ length s = 3%nat /\ forall d v, s !! d = Some v -> block_size_bits (cfg v) = compute_log2 l.
Proof.
  intros Hi Hd Hl. unfold create_tlbs.
  destruct (caching_device_init LFU la l le None None false []) as [vl|] eqn:El; [|done].
  destruct (caching_device_init LFU ia l ie (Some 0%nat) None false []) as [vi|] eqn:Ei; [|done].
  destruct (caching_device_init LFU da l de (Some 0%nat) None false []) as [vd|] eqn:Ed; [|done]. intros [= <-].
  destruct (tlb_init_ok _ _ _ _ _ Hl El) as (L1 & L2 & L3). destruct (tlb_init_ok _ _ _ _ _ Hi Ei) as (I1 & I2 & I3).
  destruct (tlb_init_ok _ _ _ _ _ Hd Ed) as (D1 & D2 & D3).
  assert (Hpar : forall d w, (0 < d)%nat -> parent (cfg w) = Some 0%nat -> block_size_bits (cfg w) = compute_log2 l ->
            forall p, parent (cfg w) = Some p -> (p < d)%nat /\ exists u, [vl; vi; vd] !! p = Some u /\ block_size_bits (cfg u) = block_size_bits (cfg w)).
  { intros d w Hpos E1 E2 p. rewrite E1. intros [= <-]. split; [done|]. exists vl. split; [done|]. congruence. }
  split; [|split; [done|]]; intros [|[|[|d]]] v E; try done; injection E as <-; try done; (split; [done|]); try (apply Hpar; (lia || done)).
  rewrite L2. done.
Qed.

Fixpoint tlb_run (fuel : nat) (s : store) (reqs : list (nat * memref_t)) : outcome store :=
  match reqs with [] => Ret s | (d, m) :: reqs => '(s, _) ← tlb_request fuel s d m; tlb_run fuel s reqs end.
Definition tlb_req_ok (bits : Z) (r : nat * memref_t) : Prop :=
  (r.1 < 3)%nat /\ mem_ok r.2 /\ Z.shiftr (addr r.2) bits <= Z.shiftr (final_addr r.2) bits.

Lemma tlb_run_ok bits reqs s : tlbs_ok s -> length s = 3%nat -> (forall d v, s !! d = Some v -> block_size_bits (cfg v) = bits) ->
  Forall (tlb_req_ok bits) reqs ->
  exists s', tlb_run 3 s reqs = Ret s' /\ tlbs_ok s' /\ length s' = 3%nat /\ (forall d v, s' !! d = Some v -> block_size_bits (cfg v) = bits).
Proof.
  revert s. induction reqs as [|[d m] reqs IH]; intros s Hs Hl Hbits Hr; [by exists s|].
  apply Forall_cons in Hr as [(Hd & Hm & Hle) Hr]. cbn [fst snd] in *.
  destruct (lookup_lt_is_Some_2 s d ltac:(lia)) as [v E].
  destruct (tlb_request_all 3 s d m v Hs E Hm) as (s1 & v1 & Er & S1 & _); [unfold compute_tag; by rewrite (Hbits d v E)|done|].
  cbn [tlb_run]. rewrite Er. cbn [mbind outcome_bind]. apply IH; [apply S1|by rewrite (cfg_length s s1 (ts_cfg _ _ _ S1))| |done].
  intros j w Ew. pose proof (ts_cfg _ _ _ S1 j) as Ec. rewrite Ew in Ec. destruct (s !! j) as [w0|] eqn:Ej; [|done].
  injection Ec as ->. by eapply Hbits.
Qed.

(** C21. A TLB look-up is a hit exactly when the first page of the reference is
    known, for this process, to the TLB asked or to the second-level one; and
    afterwards the TLB asked knows it.  So it is after any sequence of look-ups
    by both first-level TLBs of a core, for any sizes the construction accepts:
    none of the look-ups fails, and two levels of recursion are enough. *)
Theorem tlb_answers (page_size ia ie da de la le : Z) (s : store) (reqs : list (nat * memref_t)) (d : nat) (m : memref_t) :
  create_tlbs page_size ia ie da de la le = Some s -> ie < 2 ^ 31 -> de < 2 ^ 31 -> le < 2 ^ 31 ->
  Forall (tlb_req_ok (compute_log2 page_size)) reqs -> tlb_req_ok (compute_log2 page_size) (d, m) ->
  let page := Z.shiftr (addr m) (compute_log2 page_size) in
  exists s1 s2 v2, tlb_run 3 s reqs = Ret s1 /\
    tlb_request 3 s1 d m = Ret (s2, translates 3 s1 d page (pid m)) /\
    s2 !! d = Some v2 /\ (page, pid m) ∈ entries v2 /\ translates 3 s2 d page (pid m) = true.
Proof.
  intros Ec Hi Hd Hl Hr (H3 & Hm & Hle) page. cbn [fst snd] in *.
  destruct (create_tlbs_ok _ _ _ _ _ _ _ _ Hi Hd Hl Ec) as (Hs & Hlen & Hbits).
  destruct (tlb_run_ok _ reqs s Hs Hlen Hbits Hr) as (s1 & E1 & Hs1 & Hl1 & Hb1).
  destruct (lookup_lt_is_Some_2 s1 d ltac:(lia)) as [v E]. pose proof (Hb1 d v E) as Hb.
  destruct (tlb_request_all 3 s1 d m v Hs1 E Hm) as (s2 & v2 & Er & S2 & E2 & Hin); [unfold compute_tag; by rewrite Hb|done|].
  unfold compute_tag in Er, Hin. rewrite Hb in Er, Hin. fold page in Er, Hin.
  exists s1, s2, v2. split; [done|]. split; [by rewrite (translates_fuel 3 (S d)) by (done || lia)|]. split; [done|]. split; [done|].
  rewrite (translates_eq _ _ _ _ _ _ E2). by rewrite bool_decide_true.
Qed.

(** The TLBs of the x86 configuration, scaled down. *)
Definition demo_reqs : list (nat * memref_t) :=
  [(1%nat, access TRACE_TYPE_INSTR 0x401000 4); (2%nat, access TRACE_TYPE_READ 0x7fff0ff8 16); (2%nat, access TRACE_TYPE_READ 0x401008 8)].
Definition demo_tlbs : store := default [] (create_tlbs 4096 8 16 4 8 12 24).

Lemma demo_tlbs_built : create_tlbs 4096 8 16 4 8 12 24 = Some demo_tlbs.
Proof. vm_compute. reflexivity. Qed.

Lemma tlb_answers_witness : exists s1 s2 v2, tlb_run 3 demo_tlbs demo_reqs = Ret s1 /\
  tlb_request 3 s1 2 (access TRACE_TYPE_READ 0x7fff0100 8) = Ret (s2, translates 3 s1 2 0x7fff0 1) /\ s2 !! 2%nat = Some v2 /\
  (0x7fff0, 1) ∈ entries v2.
Proof.
  assert (Hr : forall d t a n, (d < 3)%nat -> 0 <= a < w64 -> Z.shiftr a 12 <= Z.shiftr (u64 (a + n - 1)) 12 ->
            tlb_req_ok (compute_log2 4096) (d, access t a n)) by (intros; split; [done|split; done]).
  destruct (tlb_answers 4096 8 16 4 8 12 24 demo_tlbs demo_reqs 2 (access TRACE_TYPE_READ 0x7fff0100 8))
    as (s1 & s2 & v2 & E1 & E2 & E3 & Hin & _);
    [exact demo_tlbs_built|lia|lia|lia| | |exists s1, s2, v2; split; [exact E1|split; [exact E2|split; [exact E3|exact Hin]]]].
  - repeat constructor; try (cbn; lia); vm_compute; discriminate.
  - apply Hr; [lia|lia|vm_compute; discriminate].
Defined.
