(* ===== verification/PageWalk.v ===== *)
(** * The two-dimensional page walk

    [src/Simulator/clients/drcachesim/simulator/cache_simulator.cpp], with
    [simulator.cpp] and [tlb_simulator.cpp]: loading the two page tables, the
    construction of the caches from the options, the walk of the guest's and the
    host's tables on a TLB miss through the page-walk caches and the data cache,
    and the processing of one reference.

    Left out: the options [warmup_fraction], [cpu_scheduling] and
    [contention_*] (at their defaults of 0), the printing, the configuration
    file, and the vectors of pointers into each record that [one_pw_at_host]
    checks and that its copy constructor always sets. *)
From S2P Require Import Prelude CText CachingDevice CacheSpec Tlb.

(** ** Loading the page tables *)

Module Loader.
(** [%llx] of [fscanf]: blanks, a sign, a prefix, hexadecimal digits; the value
    saturates.  [None] is a matching failure. *)
Definition fscan_sign (l : text) : bool * text :=
  match l with
  | c :: t => if decide (c = "-"%char) then (true, t) else if decide (c = "+"%char) then (false, t) else (false, l)
  | [] => (false, [])
  end.
Definition fscan_llx (l : text) : option Z * text :=
  let '(neg, l) := fscan_sign (skip_spaces l) in
  match drop_0x l with
  | (c :: _) as l =>
      if is_hex c then
        let '(v, r) := hex_run 0 l in
        (Some (if neg && (v <? w64) then u64 (- v) else sat64 v), r)
      else (None, l)
  | [] => (None, [])
  end.

(** [%d]: the value is that of [strtol], converted to [int]. *)
Definition is_dec (c : ascii) : bool := match decval c with Some _ => true | None => false end.
Definition sat_long (v : Z) : Z := Z.max (- 9223372036854775808) (Z.min v 9223372036854775807).
Definition fscan_d (l : text) : option Z * text :=
  let '(neg, l) := fscan_sign (skip_spaces l) in
  match l with
  | c :: _ => if is_dec c then let '(v, r) := dec_run 0 l in (Some (s32 (sat_long (if neg then - v else v))), r) else (None, l)
  | [] => (None, [])
  end.

(** The values converted by [n] directives [%llx] with commas between, whether
    all were, and what has not been read. *)
Fixpoint fscan_fields (n : nat) (l : text) : list Z * bool * text :=
  match n with
  | O => ([], true, l)
  | S n =>
      match fscan_llx l with
      | (None, r) => ([], false, r)
      | (Some v, r) =>
          match n with
          | O => ([v], true, r)
          | _ =>
              match r with
              | c :: r' => if decide (c = COMMA)
                           then let '(vs, ok, r'') := fscan_fields n r' in (v :: vs, ok, r'') else ([v], false, r)
              | [] => ([v], false, [])
              end
          end
      end
  end.
(** A record, with the newline directive that skips blanks after it. *)
Definition fscan_record (n : nat) (l : text) : list Z * text :=
  let '(vs, ok, r) := fscan_fields n l in (vs, if ok then skip_spaces r else r).
Definition fscan_header (l : text) : Z * text :=
  match fscan_d l with (Some v, r) => (v, skip_spaces r) | (None, r) => (0, r) end.

(** [page_table_info_t]; its copies do not carry the VA. *)
Record page_table_info := { PE1 : Z; PE2 : Z; PE3 : Z; PE4 : Z; PA : Z }.
Definition page_table_t := gmap Z page_table_info.
Definition PE (e : page_table_info) (level : nat) : Z :=
  match level with 1%nat => PE1 e | 2%nat => PE2 e | 3%nat => PE3 e | 4%nat => PE4 e | _ => PA e end.

(** The fields that a failed conversion leaves alone: VA and PA hold what was
    on the stack ([junk], for each record), the others 0. *)
Definition info_of (junk : Z * Z) (vs : list Z) : Z * page_table_info :=
  (nth 0 vs junk.1, {| PE1 := nth 1 vs 0; PE2 := nth 2 vs 0; PE3 := nth 3 vs 0; PE4 := nth 4 vs 0; PA := nth 5 vs junk.2 |}).

(** [insert] keeps the record that is already there. *)
Definition table_insert (tbl : page_table_t) (va : Z) (e : page_table_info) : page_table_t :=
  match tbl !! va with Some _ => tbl | None => <[va := e]> tbl end.
Fixpoint load_records (n i : nat) (junk : nat -> Z * Z) (l : text) (tbl : page_table_t) : page_table_t :=
  match n with
  | O => tbl
  | S n =>
      let '(vs, r) := fscan_record 6 l in
      let '(va, e) := info_of (junk i) vs in
      load_records n (S i) junk r (table_insert tbl va e)
  end.
Definition load_page_table (junk : nat -> Z * Z) (l : text) : page_table_t :=
  let '(n, r) := fscan_header l in load_records (Z.to_nat n) 0 junk r ∅.
End Loader.
Export Loader.

(** ** The simulator *)

Definition NUM_PWC : nat := 3.
Definition PWC_ENTRY_SIZE : Z := 8.
Definition PWC_ASSOC : list Z := [1; 4; 4].
Definition PWC_SIZE : list Z := [PWC_ENTRY_SIZE * 2; PWC_ENTRY_SIZE * 4; PWC_ENTRY_SIZE * 32].
Definition NUM_PAGE_TABLE_LEVELS : nat := 4.
Definition PAGE_OFFSET_SIZE : Z := 12.

Record knobs_t := {
  num_cores : nat; line_size : Z; replace_policy : policy_t; nextline : bool;
  LL_size : Z; LL_assoc : Z; L2_size : Z; L2_assoc : Z; L1I_size : Z; L1I_assoc : Z; L1D_size : Z; L1D_assoc : Z;
  page_size : Z; TLB_L1I_entries : Z; TLB_L1I_assoc : Z; TLB_L1D_entries : Z; TLB_L1D_assoc : Z;
  TLB_L2_entries : Z; TLB_L2_assoc : Z;
  knob_skip_refs : Z; knob_warmup_refs : Z; knob_sim_refs : Z
}.

(** The caches in the order of their creation, each by [cache_t::init]: the
    last level; then for each core the second level and the two first levels;
    then the host's page-walk caches, and the guest's. *)
Definition llc : nat := 0.
Definition l2_cache (core : nat) : nat := 3 * core + 1.
Definition l1_icache (core : nat) : nat := 3 * core + 2.
Definition l1_dcache (core : nat) : nat := 3 * core + 3.
Definition pw_cache (k : knobs_t) (i : nat) : nat := 3 * num_cores k + 1 + i.
Definition gpw_cache (k : knobs_t) (i : nat) : nat := 3 * num_cores k + 4 + i.

Definition core_caches (k : knobs_t) (core : nat) : list cache_spec :=
  [{| cs_policy := replace_policy k; cs_assoc := L2_assoc k; cs_line := line_size k; cs_total := L2_size k;
      cs_parent := Some llc; cs_prefetcher := None |};
   {| cs_policy := replace_policy k; cs_assoc := L1I_assoc k; cs_line := line_size k; cs_total := L1I_size k;
      cs_parent := Some (l2_cache core); cs_prefetcher := None |};
   {| cs_policy := replace_policy k; cs_assoc := L1D_assoc k; cs_line := line_size k; cs_total := L1D_size k;
      cs_parent := Some (l2_cache core); cs_prefetcher := if nextline k then Some (line_size k) else None |}].
Definition walk_caches (k : knobs_t) : list cache_spec :=
  zip_with (fun a n => {| cs_policy := replace_policy k; cs_assoc := a; cs_line := PWC_ENTRY_SIZE; cs_total := n;
                          cs_parent := None; cs_prefetcher := None |}) PWC_ASSOC PWC_SIZE.
Definition cache_specs (k : knobs_t) : list cache_spec :=
  {| cs_policy := replace_policy k; cs_assoc := LL_assoc k; cs_line := line_size k; cs_total := LL_size k;
     cs_parent := None; cs_prefetcher := None |} ::
  concat (map (core_caches k) (seq 0 (num_cores k))) ++ walk_caches k ++ walk_caches k.
Definition create_caches (k : knobs_t) : option store := build (cache_specs k).

(** [simulator_t]: the threads' cores. *)
Record sched_t := {
  thread2core : gmap Z nat; thread_counts : list Z; thread_ever_counts : list Z; last_thread : Z; last_core : nat
}.
Definition new_sched (cores : nat) : sched_t := {|
  thread2core := ∅; thread_counts := replicate cores 0; thread_ever_counts := replicate cores 0; last_thread := 0; last_core := 0 |}.

Fixpoint emptiest_from (counts : list Z) (i : nat) (min_count : Z) (min_core : nat) : nat :=
  match counts with
  | [] => min_core
  | c :: counts => if c <? min_count then emptiest_from counts (S i) c i else emptiest_from counts (S i) min_count min_core
  end.
Definition find_emptiest_core (counts : list Z) : nat := emptiest_from counts 0 2147483647 0.

Definition core_for_thread (sc : sched_t) (tid : Z) : sched_t * nat :=
  match thread2core sc !! tid with
  | Some core => (sc, core)
  | None =>
      let core := find_emptiest_core (thread_counts sc) in
      ({| thread2core := <[tid := core]> (thread2core sc);
          thread_counts := alter (Z.add 1) core (thread_counts sc);
          thread_ever_counts := alter (Z.add 1) core (thread_ever_counts sc);
          last_thread := last_thread sc; last_core := last_core sc |}, core)
  end.

(** The shortcut of both simulators for the thread of the last reference. *)
Definition core_of (sc : sched_t) (tid : Z) : sched_t * nat :=
  if tid =? last_thread sc then (sc, last_core sc)
  else let '(sc, core) := core_for_thread sc tid in
    ({| thread2core := thread2core sc; thread_counts := thread_counts sc; thread_ever_counts := thread_ever_counts sc;
        last_thread := tid; last_core := core |}, core).

Definition handle_thread_exit (sc : sched_t) (tid : Z) : outcome sched_t :=
  core ← or_abort (thread2core sc !! tid);
  n ← or_abort (thread_counts sc !! core);
  if 0 <? n then
    Ret {| thread2core := delete tid (thread2core sc); thread_counts := <[core := n - 1]> (thread_counts sc);
           thread_ever_counts := thread_ever_counts sc; last_thread := last_thread sc; last_core := last_core sc |}
  else Abort.
Definition forget_thread (sc : sched_t) : sched_t :=
  {| thread2core := thread2core sc; thread_counts := thread_counts sc; thread_ever_counts := thread_ever_counts sc;
     last_thread := 0; last_core := last_core sc |}.

(** ** The TLB simulator ([tlb_simulator_t::process_memref(memref, bool)]) *)

Record tlb_sim_t := {
  ts_skip : Z; ts_warmup : Z; ts_sim : Z; ts_sched : sched_t; ts_tlbs : list store
}.
Definition set_tlbs (ts : tlb_sim_t) (sc : sched_t) (tlbs : list store) : tlb_sim_t :=
  {| ts_skip := ts_skip ts; ts_warmup := ts_warmup ts; ts_sim := ts_sim ts; ts_sched := sc; ts_tlbs := tlbs |}.
Definition reset_device (v : device) : device := set_stats v (reset_stats (stats v)).

(** The counters of the warm-up and of the simulation. *)
Definition tlb_count_ref (ts : tlb_sim_t) : tlb_sim_t :=
  if 0 <? ts_warmup ts then
    {| ts_skip := ts_skip ts; ts_warmup := ts_warmup ts - 1; ts_sim := ts_sim ts; ts_sched := ts_sched ts;
       ts_tlbs := if ts_warmup ts - 1 =? 0 then map (map reset_device) (ts_tlbs ts) else ts_tlbs ts |}
  else
    {| ts_skip := ts_skip ts; ts_warmup := ts_warmup ts; ts_sim := u64 (ts_sim ts - 1); ts_sched := ts_sched ts;
       ts_tlbs := ts_tlbs ts |}.

(** The request to one TLB of a core: 1 is for instructions, 2 for data. *)
Definition tlb_lookup (ts : tlb_sim_t) (core d : nat) (m : memref_t) : outcome (tlb_sim_t * bool) :=
  s ← or_abort (ts_tlbs ts !! core);
  '(s, found) ← tlb_request 3 s d m;
  Ret (set_tlbs ts (ts_sched ts) (<[core := s]> (ts_tlbs ts)), found).

(** The second component: whether the translation was found.  An unknown type
    is an error that the caller does not look at. *)
Definition tlb_process (ts : tlb_sim_t) (m : memref_t) : outcome (tlb_sim_t * bool) :=
  if 0 <? ts_skip ts then
    Ret ({| ts_skip := ts_skip ts - 1; ts_warmup := ts_warmup ts; ts_sim := ts_sim ts; ts_sched := ts_sched ts; ts_tlbs := ts_tlbs ts |}, true)
  else if (ts_warmup ts =? 0) && (ts_sim ts =? 0) then Ret (ts, true)
  else if type m =? TRACE_TYPE_MARKER then Ret (ts, true)
  else
    let '(sc, core) := core_of (ts_sched ts) (tid m) in
    let ts := set_tlbs ts sc (ts_tlbs ts) in
    if type_is_instr (type m) then
      '(ts, found) ← tlb_lookup ts core 1 m; Ret (tlb_count_ref ts, found)
    else if (type m =? TRACE_TYPE_READ) || (type m =? TRACE_TYPE_WRITE) then
      '(ts, found) ← tlb_lookup ts core 2 m; Ret (tlb_count_ref ts, found)
    else if type m =? TRACE_TYPE_THREAD_EXIT then
      sc ← handle_thread_exit (ts_sched ts) (tid m);
      Ret (tlb_count_ref (set_tlbs ts (forget_thread sc) (ts_tlbs ts)), false)
    else if type_is_prefetch (type m) || (type m =? TRACE_TYPE_INSTR_FLUSH) || (type m =? TRACE_TYPE_DATA_FLUSH) ||
            (type m =? TRACE_TYPE_INSTR_NO_FETCH) then Ret (tlb_count_ref ts, false)
    else Ret (ts, true).

(** ** The walk *)

Record sim_t := {
  caches : store; tlb_sim : tlb_sim_t; sched : sched_t; page_table : page_table_t; host_page_table : page_table_t;
  hm_full_statistic : gmap (list Z) Z; is_warmed_up : bool; skip_refs : Z; warmup_refs : Z; sim_refs : Z;
  num_request : Z; num_not_found : Z; vt_num_not_found : Z; num_range_found : Z
}.

(** [TRACE_TYPE], of four rows; the code indexes it with the guest's levels 1 to
    4, and the last of them is past its end: [past] is what lies there. *)
Definition TRACE_TYPE (past : nat -> Z) (row col : nat) : Z :=
  if (row <? 4)%nat then
    match col with
    | O => TRACE_TYPE_PE1_PE1 + 5 * Z.of_nat row + 4
    | S c => TRACE_TYPE_PE1_PE1 + 5 * Z.of_nat row + Z.of_nat c
    end
  else past col.

Definition level_shift (level : nat) : Z := PAGE_OFFSET_SIZE + (4 - Z.of_nat level) * 9.

Section Walk.
(** [uninit] stands for the fields of a local [memref_t] that are not set. *)
Context (k : knobs_t) (past : nat -> Z) (uninit : memref_t).

Definition local_memref (t a : Z) : memref_t := {| type := t; pid := pid uninit; tid := tid uninit; addr := a; size := 1 |}.
Definition cache_request (s : store) (d : nat) (m : memref_t) : outcome (store * Z) := request (length s + 2) s d m.

(** [make_request]: one access to the data cache, whose answer is noted. *)
Definition make_request (s : store) (res : list Z) (t base_addr addr_to_find : Z) (level core : nat) : outcome (store * list Z) :=
  '(s, r) ← cache_request s (l1_dcache core)
              (local_memref t (u64 (base_addr + 8 * Z.land (Z.shiftr addr_to_find (level_shift level)) (Z.shiftl 1 9 - 1))));
  Ret (s, res ++ [r]).

(** The page-walk caches [first], [first + 1] and [first + 2] are all asked,
    from the lowest level up; the first that answers 1 gives the level. *)
Fixpoint pwc_search (s : store) (first : nat) (a : Z) (i : nat) (hit : nat) : outcome (store * nat) :=
  match i with
  | O => Ret (s, hit)
  | S i' =>
      '(s, r) ← cache_request s (first + i') (local_memref TRACE_TYPE_READ (Z.shiftr a (level_shift i)));
      pwc_search s first a i' (if (r =? FOUND_L1) && (hit =? 0)%nat then i else hit)
  end.

Fixpoint host_levels (s : store) (res : list Z) (e : page_table_info) (guest_addr : Z) (level_guest hit core : nat) (levels : list nat)
    : outcome (store * list Z) :=
  match levels with
  | [] => Ret (s, res)
  | level_host :: levels =>
      '(s, res) ← (if (hit <? level_host)%nat
                   then make_request s res (TRACE_TYPE past level_guest level_host) (u64 (Z.shiftl (PE e level_host) 12)) guest_addr level_host core
                   else if (hit =? level_host)%nat then Ret (s, res ++ [PWC]) else Ret (s, res ++ [ZERO]));
      host_levels s res e guest_addr level_guest hit core levels
  end.

(** [one_pw_at_host]: a host walk for a guest frame; without a record of the
    frame it notes nothing at all. *)
Definition one_pw_at_host (host : page_table_t) (s : store) (res : list Z) (guest_addr page_offset_in_vpage : Z) (level_guest core : nat)
    : outcome (store * list Z) :=
  match host !! Z.shiftl (Z.shiftr guest_addr PAGE_OFFSET_SIZE) PAGE_OFFSET_SIZE with
  | None => Ret (s, res)
  | Some e =>
      '(s, hit) ← pwc_search s (pw_cache k 0) guest_addr NUM_PWC 0;
      '(s, res) ← host_levels s res e guest_addr level_guest hit core (seq 1 NUM_PAGE_TABLE_LEVELS);
      make_request s res (TRACE_TYPE past level_guest 0) (u64 (u64 (Z.shiftl (PA e) 12) + page_offset_in_vpage)) 0 1 core
  end.

Fixpoint guest_levels (host : page_table_t) (s : store) (res : list Z) (e : page_table_info) (va : Z) (hit core : nat) (levels : list nat)
    : outcome (store * list Z) :=
  match levels with
  | [] => Ret (s, res)
  | level :: levels =>
      let page_offset_in_vpage := 8 * Z.land (Z.shiftr va (level_shift level)) (Z.shiftl 1 9 - 1) in
      '(s, res) ← (if (hit <? level)%nat
                   then one_pw_at_host host s res (u64 (Z.shiftl (PE e level) 12)) page_offset_in_vpage level core
                   else if (hit =? level)%nat then Ret (s, res ++ replicate NUM_PAGE_TABLE_LEVELS ZERO ++ [PWC])
                   else Ret (s, res ++ replicate (NUM_PAGE_TABLE_LEVELS + 1) ZERO));
      guest_levels host s res e va hit core levels
  end.

(** The last host walk, for the page itself, without the page-walk caches. *)
Fixpoint final_levels (s : store) (res : list Z) (e : page_table_info) (gpa : Z) (core : nat) (levels : list nat) : outcome (store * list Z) :=
  match levels with
  | [] => Ret (s, res)
  | level :: levels =>
      '(s, res) ← make_request s res (TRACE_TYPE_PA_PE1 + Z.of_nat level - 1) (u64 (Z.shiftl (PE e level) 12)) gpa level core;
      final_levels s res e gpa core levels
  end.

(** The whole walk for the guest page [va] with the records [ge] and [he]. *)
Definition page_walk (host : page_table_t) (s : store) (ge he : page_table_info) (va page_offset : Z) (core : nat) : outcome (store * list Z) :=
  '(s, hit) ← pwc_search s (gpw_cache k 0) va NUM_PWC 0;
  '(s, res) ← guest_levels host s [] ge va hit core (seq 1 NUM_PAGE_TABLE_LEVELS);
  '(s, res) ← final_levels s res he (u64 (u64 (Z.shiftl (PA ge) 12) + page_offset)) core (seq 1 NUM_PAGE_TABLE_LEVELS);
  Ret (s, res ++ [RANGE_HIT]).
End Walk.

(** ** One reference ([cache_simulator_t::process_memref]) *)

Definition set_caches (st : sim_t) (s : store) : sim_t := {|
  caches := s; tlb_sim := tlb_sim st; sched := sched st; page_table := page_table st; host_page_table := host_page_table st;
  hm_full_statistic := hm_full_statistic st; is_warmed_up := is_warmed_up st; skip_refs := skip_refs st; warmup_refs := warmup_refs st;
  sim_refs := sim_refs st; num_request := num_request st; num_not_found := num_not_found st; vt_num_not_found := vt_num_not_found st;
  num_range_found := num_range_found st |}.
Definition set_sched (st : sim_t) (sc : sched_t) : sim_t := {|
  caches := caches st; tlb_sim := tlb_sim st; sched := sc; page_table := page_table st; host_page_table := host_page_table st;
  hm_full_statistic := hm_full_statistic st; is_warmed_up := is_warmed_up st; skip_refs := skip_refs st; warmup_refs := warmup_refs st;
  sim_refs := sim_refs st; num_request := num_request st; num_not_found := num_not_found st; vt_num_not_found := vt_num_not_found st;
  num_range_found := num_range_found st |}.
Definition set_tlb_sim (st : sim_t) (ts : tlb_sim_t) : sim_t := {|
  caches := caches st; tlb_sim := ts; sched := sched st; page_table := page_table st; host_page_table := host_page_table st;
  hm_full_statistic := hm_full_statistic st; is_warmed_up := is_warmed_up st; skip_refs := skip_refs st; warmup_refs := warmup_refs st;
  sim_refs := sim_refs st; num_request := num_request st; num_not_found := num_not_found st; vt_num_not_found := vt_num_not_found st;
  num_range_found := num_range_found st |}.
Definition set_refs (st : sim_t) (warm : bool) (skip warmup sims : Z) : sim_t := {|
  caches := caches st; tlb_sim := tlb_sim st; sched := sched st; page_table := page_table st; host_page_table := host_page_table st;
  hm_full_statistic := hm_full_statistic st; is_warmed_up := warm; skip_refs := skip; warmup_refs := warmup;
  sim_refs := sims; num_request := num_request st; num_not_found := num_not_found st; vt_num_not_found := vt_num_not_found st;
  num_range_found := num_range_found st |}.
Definition set_counts (st : sim_t) (reqs nf vnf rf : Z) : sim_t := {|
  caches := caches st; tlb_sim := tlb_sim st; sched := sched st; page_table := page_table st; host_page_table := host_page_table st;
  hm_full_statistic := hm_full_statistic st; is_warmed_up := is_warmed_up st; skip_refs := skip_refs st; warmup_refs := warmup_refs st;
  sim_refs := sim_refs st; num_request := reqs; num_not_found := nf; vt_num_not_found := vnf; num_range_found := rf |}.
Definition set_statistic (st : sim_t) (hm : gmap (list Z) Z) : sim_t := {|
  caches := caches st; tlb_sim := tlb_sim st; sched := sched st; page_table := page_table st; host_page_table := host_page_table st;
  hm_full_statistic := hm; is_warmed_up := is_warmed_up st; skip_refs := skip_refs st; warmup_refs := warmup_refs st;
  sim_refs := sim_refs st; num_request := num_request st; num_not_found := num_not_found st; vt_num_not_found := vt_num_not_found st;
  num_range_found := num_range_found st |}.

(** [check_warmed_up]: it counts the references of the warm-up itself. *)
Definition check_warmed_up (st : sim_t) : sim_t * bool :=
  if is_warmed_up st then (st, true)
  else if 0 <? warmup_refs st then
    let n := warmup_refs st - 1 in
    (set_refs st (n =? 0) (skip_refs st) n (sim_refs st), n =? 0)
  else (st, false).

(** The caches whose counters a finished warm-up resets: not the page-walk
    caches. *)
Definition all_caches (k : knobs_t) : nat := 3 * num_cores k + 1.

Section Process.
Context (k : knobs_t) (past : nat -> Z) (uninit : memref_t).

Definition is_instr (m : memref_t) : bool := type_is_instr (type m) || (type m =? TRACE_TYPE_PREFETCH_INSTR).
Definition is_data (m : memref_t) : bool :=
  (type m =? TRACE_TYPE_READ) || (type m =? TRACE_TYPE_WRITE) || type_is_prefetch (type m).

Definition count_walk (hm : gmap (list Z) Z) (res : list Z) : gmap (list Z) Z :=
  <[res := match hm !! res with Some n => u64 (n + 1) | None => 1 end]> hm.

(** The translation, with the walk on a TLB miss: the reference at its
    physical address, or [None] when a table has no record of the page. *)
Definition translate_ref (st : sim_t) (m : memref_t) (core : nat) (is_TLB_hit : bool) : outcome (sim_t * option memref_t) :=
  let a := if is_instr m || is_data m then addr m else 0 in
  let va := u64 (Z.shiftl (Z.shiftr a 12) 12) in
  let page_offset := Z.land a (Z.shiftl 1 12 - 1) in
  match page_table st !! va with
  | None => Ret (set_counts st (num_request st) (u64 (num_not_found st + 1)) (vt_num_not_found st) (num_range_found st), None)
  | Some ge =>
      match host_page_table st !! u64 (Z.shiftl (PA ge) 12) with
      | None => Ret (set_counts st (num_request st) (num_not_found st) (u64 (vt_num_not_found st + 1)) (num_range_found st), None)
      | Some he =>
          let physical_page_addr := u64 (Z.shiftl (PA he) 12) in
          let m' := if is_instr m || is_data m then with_range m (u64 (physical_page_addr + page_offset)) (size m) else m in
          if is_TLB_hit then Ret (st, Some m')
          else
            '(s, res) ← page_walk k past uninit (host_page_table st) (caches st) ge he va page_offset core;
            let st := set_caches st s in
            let st := set_counts st (num_request st) (num_not_found st) (vt_num_not_found st) (u64 (num_range_found st + 1)) in
            Ret (set_statistic st (count_walk (hm_full_statistic st) res), Some m')
      end
  end.

(** The access itself; [false] is the error of an unknown type. *)
Definition access_caches (st : sim_t) (m : memref_t) (core : nat) : outcome (sim_t * bool) :=
  let s := caches st in
  if is_instr m then '(s, _) ← cache_request s (l1_icache core) m; Ret (set_caches st s, true)
  else if is_data m then '(s, _) ← cache_request s (l1_dcache core) m; Ret (set_caches st s, true)
  else if type m =? TRACE_TYPE_INSTR_FLUSH then s ← flush (length s + 2) s (l1_icache core) m; Ret (set_caches st s, true)
  else if type m =? TRACE_TYPE_DATA_FLUSH then s ← flush (length s + 2) s (l1_dcache core) m; Ret (set_caches st s, true)
  else if type m =? TRACE_TYPE_THREAD_EXIT then
    sc ← handle_thread_exit (sched st) (tid m); Ret (set_sched st (forget_thread sc), true)
  else Ret (st, type m =? TRACE_TYPE_INSTR_NO_FETCH).

Definition finish_ref (st : sim_t) : sim_t :=
  let '(st, warmed) := if is_warmed_up st then (st, false) else check_warmed_up st in
  if warmed then
    set_statistic (set_caches st (imap (fun i v => if (i <? all_caches k)%nat then reset_device v else v) (caches st))) ∅
  else set_refs st (is_warmed_up st) (skip_refs st) (warmup_refs st) (u64 (sim_refs st - 1)).

Definition process_memref (st : sim_t) (m : memref_t) : outcome (sim_t * bool) :=
  let st := set_counts st (u64 (num_request st + 1)) (num_not_found st) (vt_num_not_found st) (num_range_found st) in
  if 0 <? skip_refs st then Ret (set_refs st (is_warmed_up st) (skip_refs st - 1) (warmup_refs st) (sim_refs st), true)
  else if (warmup_refs st =? 0) && (sim_refs st =? 0) then Ret (st, true)
  else
    let '(st, warmed) := check_warmed_up st in
    if warmed && (sim_refs st =? 0) then Ret (st, true)
    else if type m =? TRACE_TYPE_MARKER then Ret (st, true)
    else
      let '(sc, core) := core_of (sched st) (tid m) in
      let st := set_sched st sc in
      '(ts, is_TLB_hit) ← tlb_process (tlb_sim st) m;
      '(st, found) ← translate_ref (set_tlb_sim st ts) m core is_TLB_hit;
      match found with
      | None => Ret (st, true)
      | Some new_memref =>
          '(st, ok) ← access_caches st new_memref core;
          Ret (if (ok : bool) then finish_ref st else st, ok)
      end.
End Process.

(** ** Construction *)

Definition new_sim (k : knobs_t) (junk junk' : nat -> Z * Z) (pt_dump vt_pt_dump : text) : option sim_t :=
  s ← create_caches k;
  tlbs ← create_tlbs (page_size k) (TLB_L1I_assoc k) (TLB_L1I_entries k) (TLB_L1D_assoc k) (TLB_L1D_entries k) (TLB_L2_assoc k) (TLB_L2_entries k);
  Some {|
    caches := s;
    tlb_sim := {| ts_skip := knob_skip_refs k; ts_warmup := knob_warmup_refs k; ts_sim := knob_sim_refs k;
                  ts_sched := new_sched (num_cores k); ts_tlbs := replicate (num_cores k) tlbs |};
    sched := new_sched (num_cores k);
    page_table := load_page_table junk pt_dump; host_page_table := load_page_table junk' vt_pt_dump;
    hm_full_statistic := ∅; is_warmed_up := false;
    skip_refs := knob_skip_refs k; warmup_refs := knob_warmup_refs k; sim_refs := knob_sim_refs k;
    num_request := 0; num_not_found := 0; vt_num_not_found := 0; num_range_found := 0 |}.
