(* ===== verification/WalkProof.v ===== *)
(** * The caches of the simulator

    The hierarchy that the options build is well formed, a request to a cache
    without a parent changes no other, and the page-walk caches stand by
    themselves. *)
From S2P Require Import Prelude CText CachingDevice CachingProof CacheRequest CacheSpec Tlb PageWalk.

(** ** The caches of the simulator *)

(** What the options must satisfy: sizes that are [int]s, and two sets in the
    data cache when it has the prefetcher. *)
Record knobs_ok (k : knobs_t) : Prop := {
  ko_cores : (0 < num_cores k)%nat;
  ko_sizes : Forall (fun n => n < 2 ^ 31) [LL_size k; L2_size k; L1I_size k; L1D_size k;
                                           TLB_L1I_entries k; TLB_L1D_entries k; TLB_L2_entries k];
  ko_prefetch : nextline k = true -> 2 <= L1D_size k / line_size k / L1D_assoc k
}.

Lemma core_lookup k n i j : (i < n)%nat -> (j < 3)%nat ->
  concat (map (core_caches k) (seq 0 n)) !! (3 * i + j)%nat = core_caches k i !! j.
Proof.
  intros Hi Hj. assert (Hgen : forall a, concat (map (core_caches k) (seq a n)) !! (3 * i + j)%nat = core_caches k (a + i) !! j).
  { revert i Hi. induction n as [|n IH]; intros i Hi a; [lia|]. cbn [seq map concat].
    assert (Hl : length (core_caches k a) = 3%nat) by done.
    destruct i as [|i].
    - rewrite lookup_app_l by (rewrite Hl; lia). by rewrite Nat.add_0_r.
    - rewrite lookup_app_r by (rewrite Hl; lia). rewrite Hl. replace (3 * S i + j - 3)%nat with (3 * i + j)%nat by lia.
      rewrite IH by lia. by replace (S a + i)%nat with (a + S i)%nat by lia. }
  apply Hgen.
Qed.

Lemma length_core_caches k n a : length (concat (map (core_caches k) (seq a n))) = (3 * n)%nat.
Proof. revert a. induction n as [|n IH]; intros a; [done|]. cbn [seq map concat]. rewrite length_app, IH. cbn. lia. Qed.

Lemma length_cache_specs k : length (cache_specs k) = (3 * num_cores k + 7)%nat.
Proof. unfold cache_specs. cbn [length]. rewrite !length_app, length_core_caches. cbn. lia. Qed.

(** A cache is the last level, or one of the three of a core, or for walks. *)
Lemma cache_specs_lookup k d c : cache_specs k !! d = Some c ->
  (d = llc /\ cs_parent c = None /\ cs_prefetcher c = None /\ cs_line c = line_size k /\ cs_total c = LL_size k) \/
  (exists i j, (i < num_cores k)%nat /\ (j < 3)%nat /\ d = (3 * i + 1 + j)%nat /\ core_caches k i !! j = Some c) \/
  ((3 * num_cores k < d)%nat /\ c ∈ walk_caches k).
Proof.
  destruct d as [|d]; [intros [= <-]; by left|]. intros E. right. cbn in E. apply lookup_app_Some in E as [E|[Hl E]].
  - left. pose proof (lookup_lt_Some _ _ _ E) as Hlt. rewrite length_core_caches in Hlt.
    exists (d / 3)%nat, (d mod 3)%nat. pose proof (Nat.div_mod_eq d 3). pose proof (Nat.mod_upper_bound d 3 ltac:(lia)).
    assert (Hi : (d / 3 < num_cores k)%nat) by (apply Nat.Div0.div_lt_upper_bound; lia).
    split; [done|]. split; [done|]. split; [lia|]. rewrite <- (core_lookup k (num_cores k)) by done.
    by replace (3 * (d / 3) + d mod 3)%nat with d by lia.
  - right. rewrite length_core_caches in Hl, E. split; [lia|]. apply list_elem_of_lookup_2 in E. set_solver.
Qed.

Lemma cache_specs_core k i j : (i < num_cores k)%nat -> (j < 3)%nat -> cache_specs k !! (3 * i + 1 + j)%nat = core_caches k i !! j.
Proof.
  intros Hi Hj. unfold cache_specs. replace (3 * i + 1 + j)%nat with (S (3 * i + j)) by lia. cbn [lookup list_lookup].
  change ((concat (map (core_caches k) (seq 0 (num_cores k))) ++ walk_caches k ++ walk_caches k) !! (3 * i + j)%nat = core_caches k i !! j).
  rewrite lookup_app_l by (rewrite length_core_caches; lia). by apply core_lookup.
Qed.

Lemma cache_specs_ok k : knobs_ok k -> specs_ok (cache_specs k).
Proof.
  intros [Hn Hs Hp] d c E. rewrite !Forall_cons in Hs. destruct Hs as (S1 & S2 & S3 & S4 & _).
  destruct (cache_specs_lookup k d c E) as [(-> & P & F & _ & ->)|[(i & j & Hi & Hj & -> & Ec)|[_ Hw]]].
  - split; [done|]. split; [intros bytes; by rewrite F|by rewrite P].
  - pose proof (cache_specs_core k i 0 Hi ltac:(lia)) as E0. rewrite Nat.add_0_r in E0.
    destruct j as [|[|[|]]]; [| | |lia]; injection Ec as <-; cbn.
    + split; [done|]. split; [by intros ?|]. intros p [= <-]. split; [unfold llc; lia|]. by eexists.
    + split; [done|]. split; [by intros ?|]. intros p [= <-]. unfold l2_cache. split; [lia|].
      eexists. split; [exact E0|done].
    + split; [done|]. split.
      * intros bytes. destruct (nextline k) eqn:En; [|done]. intros [= <-]. split; [done|]. by apply Hp.
      * intros p [= <-]. unfold l2_cache. split; [lia|]. eexists. split; [exact E0|done].
  - unfold walk_caches in Hw. cbn in Hw. rewrite !elem_of_cons in Hw.
    destruct Hw as [->|[->|[->|Hw]]]; [cbn..|by apply elem_of_nil in Hw]; (split; [reflexivity|]; split; [by intros ?|done]).
Qed.

Lemma create_caches_ok k s : knobs_ok k -> create_caches k = Some s ->
  hierarchy_ok s /\ length s = (3 * num_cores k + 7)%nat /\
  (forall d v, s !! d = Some v -> policy (cfg v) = replace_policy k) /\ (forall d v, s !! d = Some v -> last_tag v = TAG_INVALID).
Proof.
  intros Hk Hb. destruct (build_ok _ _ Hb (cache_specs_ok k Hk)) as (Hh & Hl & Hp). split; [done|]. split; [|split; [|done]].
  - rewrite <- length_cache_specs. symmetry. by eapply Forall2_length, mapM_Some_1.
  - intros d v E. destruct (Hp d v E) as (c & Ec & ->).
    destruct (cache_specs_lookup k d c Ec) as [(-> & _)|[(i & j & _ & Hj & _ & Ej)|[_ Hw]]].
    + by injection Ec as <-.
    + destruct j as [|[|[|]]]; [| | |lia]; by injection Ej as <-.
    + unfold walk_caches in Hw. cbn in Hw. rewrite !elem_of_cons in Hw. destruct Hw as [->|[->|[->|Hw]]]; [done..|by apply elem_of_nil in Hw].
Qed.

(** ** A cache without a parent *)

Definition alone (s s' : store) (d : nat) : Prop := forall j, j <> d -> s' !! j = s !! j.
Lemma alone_insert s d v : alone s (<[d := v]> s) d.
Proof. intros j Hj. by rewrite list_lookup_insert_ne. Qed.
Lemma alone_alter s f d : alone s (alter f d s) d.
Proof. intros j Hj. by rewrite list_lookup_alter_ne. Qed.
Lemma alone_trans s1 s2 s3 d : alone s1 s2 d -> alone s2 s3 d -> alone s1 s3 d.
Proof. intros H1 H2 j Hj. by rewrite H2, H1. Qed.

Section Alone.
Context (s : store) (d : nat) (v : device) (E : s !! d = Some v).
Context (Hpar : parent (cfg v) = None) (Hpf : prefetcher (cfg v) = None) (Hinc : inclusive (cfg v) = false).

Lemma fill_way_alone inv s' t way w : cfg w = cfg v -> fill_way inv (<[d := w]> s) d t = Ret (s', way) -> alone s s' d.
Proof using E Hinc.
  intros Ew. assert (Hd : (d < length s)%nat) by (by eapply lookup_lt_Some). unfold fill_way.
  rewrite list_lookup_insert_eq by done. cbn [or_abort mbind outcome_bind]. cbv zeta.
  destruct (replace_which_way (cfg w) (blocks w) _) as [[bs way']|]; [|done]. cbn [or_abort mbind outcome_bind cfg set_blocks].
  rewrite Ew, Hinc. intros Ef.
  assert (Ha : forall u, alone s (<[d := u]> (<[d := w]> s)) d) by (intros u; eapply alone_trans; apply alone_insert).
  case_match; cbn [mbind outcome_bind] in Ef; injection Ef as <- _; (eapply alone_trans; [apply Ha|apply alone_alter]).
Qed.

Lemma request_line_alone inv req s' r m t res : request_line inv req s d m t res = Ret (s', r) -> alone s s' d.
Proof using E Hpar Hpf Hinc.
  unfold request_line. rewrite E. cbn [or_abort mbind outcome_bind]. cbv zeta. rewrite Hpf.
  destruct (lookup_way v t) as [way|].
  - unfold hit_line. rewrite E. cbn [or_abort mbind outcome_bind]. rewrite Hpar. cbn [parent_child_access].
    intros [= <- _]. eapply alone_trans; [eapply alone_trans|]; [apply alone_insert|apply alone_alter|apply alone_alter].
  - unfold miss. rewrite E. cbn [or_abort mbind outcome_bind]. rewrite Hpar. cbn [mbind outcome_bind].
    destruct (fill_way inv _ d t) as [[s1 way]| |] eqn:Ef; cbn [mbind outcome_bind]; try done.
    apply fill_way_alone in Ef; [|done]. intros [= <- _].
    eapply alone_trans; [eapply alone_trans|]; [exact Ef|apply alone_alter|apply alone_alter].
Qed.

Lemma request_alone fuel s' r m : single (cfg v) m -> request fuel s d m = Ret (s', r) -> alone s s' d.
Proof using E Hpar Hpf Hinc.
  intros H1. destruct fuel as [|fuel]; [done|]. cbn [request]. rewrite E. cbn [or_abort mbind outcome_bind]. cbv zeta.
  fold (final_addr m). assert (Ht : compute_tag (cfg v) (final_addr m) = compute_tag (cfg v) (addr m)) by done.
  rewrite !Ht, Z.eqb_refl. cbn [andb]. case_match.
  - case_match; [|done]. rewrite Hpar. cbn [parent_child_access]. intros [= <- _].
    eapply alone_trans; [apply alone_insert|apply alone_alter].
  - replace (Z.to_nat (compute_tag (cfg v) (addr m) - compute_tag (cfg v) (addr m) + 1)) with 1%nat by lia. cbn [request_lines].
    rewrite (proj2 (Z.leb_gt (compute_tag (cfg v) (addr m) + 1) (compute_tag (cfg v) (addr m)))) by lia.
    destruct (request_line _ _ s d m _ NOT_FOUND) as [[s1 r1]| |] eqn:El; cbn [mbind outcome_bind]; try done.
    intros [= <- _]. by eapply request_line_alone.
Qed.
End Alone.

(** ** The stores of the simulator *)

Record walk_store (k : knobs_t) (s : store) : Prop := {
  ws_ok : hierarchy_ok s;
  ws_cfg : exists s0, create_caches k = Some s0 /\ forall j, cfg <$> s !! j = cfg <$> s0 !! j
}.

Lemma walk_store_length k s : knobs_ok k -> walk_store k s -> length s = (3 * num_cores k + 7)%nat.
Proof.
  intros Hk [_ (s0 & E0 & Hc)]. rewrite (cfg_length s0 s Hc). by apply (create_caches_ok k s0 Hk E0).
Qed.

Lemma walk_store_policy k s d v : knobs_ok k -> walk_store k s -> s !! d = Some v -> policy (cfg v) = replace_policy k.
Proof.
  intros Hk [_ (s0 & E0 & Hc)] E. specialize (Hc d). rewrite E in Hc. destruct (s0 !! d) as [v0|] eqn:Ev; [|done].
  injection Hc as ->. destruct (create_caches_ok k s0 Hk E0) as (_ & _ & Hp & _). by eapply Hp.
Qed.

Lemma init_cache_cfg c v : init_cache c = Some v ->
  parent (cfg v) = cs_parent c /\ prefetcher (cfg v) = cs_prefetcher c /\ block_size_bits (cfg v) = compute_log2 (cs_line c).
Proof.
  unfold init_cache, cache_init. case_match; [done|].
  destruct (caching_device_init _ _ _ _ _ _ _ _) as [w|] eqn:E; [|done]. cbn [mbind option_bind].
  assert (Hw : parent (cfg w) = cs_parent c /\ prefetcher (cfg w) = cs_prefetcher c /\ block_size_bits (cfg w) = compute_log2 (cs_line c)).
  { unfold caching_device_init in E. repeat case_match; try done. by injection E as <-. }
  intros Ev. destruct (cs_policy c); by injection Ev as <-.
Qed.

(** The page-walk caches stand by themselves; a block is 8 bytes. *)
Lemma walk_cache_cfg k s d : knobs_ok k -> walk_store k s -> (3 * num_cores k < d < 3 * num_cores k + 7)%nat ->
  exists v, s !! d = Some v /\ parent (cfg v) = None /\ prefetcher (cfg v) = None /\ block_size_bits (cfg v) = 3.
Proof.
  intros Hk Hw Hd. destruct (lookup_lt_is_Some_2 s d) as [v E]; [rewrite (walk_store_length k s Hk Hw); lia|]. exists v. split; [done|].
  destruct Hw as [_ (s0 & E0 & Hc)]. specialize (Hc d). rewrite E in Hc. destruct (s0 !! d) as [v0|] eqn:Ev; [|done]. injection Hc as Hc.
  destruct (build_lookup _ _ d v0 E0 Ev) as (c & Ec & Ei). rewrite Hc.
  destruct (cache_specs_lookup k d c Ec) as [(-> & _)|[(i & j & Hi & Hj & -> & _)|[_ Hin]]]; [unfold llc in Hd; lia|lia|].
  unfold walk_caches in Hin. cbn in Hin. rewrite !elem_of_cons in Hin.
  destruct (init_cache_cfg c v0 Ei) as (-> & -> & ->).
  destruct Hin as [->|[->|[->|Hin]]]; [done..|by apply elem_of_nil in Hin].
Qed.
