(* ===== verification/WalkSpec.v ===== *)
(** * What a walk asks of the caches

    The two-dimensional walk of the architecture, as a list of events written
    without reference to the simulator's code, and the proof that the
    simulator's walk performs it. *)
From S2P Require Import Prelude CText CachingDevice CachingProof CacheRequest CacheSpec Tlb PageWalk WalkProof.

(** ** Events *)

(** An access to the data cache with its answer, an entry of the result that
    needs none, and a search of three page-walk caches. *)
Inductive event :=
| Access (t a : Z)
| Note (r : Z)
| Search (first : nat) (a : Z) (hit : nat).

(** What a page-walk cache tells of an address: held, and not its last. *)
Definition reports (s : store) (d : nat) (a : Z) : bool :=
  match s !! d with
  | Some v => negb (compute_tag (cfg v) a =? last_tag v) && bool_decide (compute_tag (cfg v) a ∈ tags v)
  | None => false
  end.
Definition pwc_hit (s : store) (first : nat) (a : Z) : nat :=
  if reports s (first + 2) (Z.shiftr a (level_shift 3)) then 3%nat
  else if reports s (first + 1) (Z.shiftr a (level_shift 2)) then 2%nat
  else if reports s first (Z.shiftr a (level_shift 1)) then 1%nat else 0%nat.

Section Performs.
Context (k : knobs_t) (uninit : memref_t) (core : nat).

Inductive performs : store -> list event -> list Z -> store -> Prop :=
| performs_nil s : performs s [] [] s
| performs_access s s1 s2 t a r evs rs :
    cache_request s (l1_dcache core) (local_memref uninit t a) = Ret (s1, r) ->
    performs s1 evs rs s2 -> performs s (Access t a :: evs) (r :: rs) s2
| performs_note s s2 r evs rs : performs s evs rs s2 -> performs s (Note r :: evs) (r :: rs) s2
| performs_search s s1 s2 first a evs rs :
    pwc_search uninit s first a NUM_PWC 0 = Ret (s1, pwc_hit s first a) ->
    (forall j, (j <= 3 * num_cores k)%nat -> s1 !! j = s !! j) ->
    performs s1 evs rs s2 -> performs s (Search first a (pwc_hit s first a) :: evs) rs s2.

Lemma performs_app s1 s2 s3 e1 e2 r1 r2 : performs s1 e1 r1 s2 -> performs s2 e2 r2 s3 -> performs s1 (e1 ++ e2) (r1 ++ r2) s3.
Proof using. intros H1 H2. induction H1; cbn; eauto using performs. Qed.

Lemma performs_notes s rs : performs s (map Note rs) rs s.
Proof using. induction rs; cbn; by constructor. Qed.

(** One entry of the result per access or note. *)
Definition answers (e : event) : nat := match e with Search _ _ _ => 0 | _ => 1 end.
Lemma performs_length s evs rs s' : performs s evs rs s' -> length rs = sum_list_with answers evs.
Proof using. induction 1; cbn; lia. Qed.
End Performs.

(** ** The walk of the architecture *)

(** The address of the entry for [a] in the table of the given level whose
    frame is [frame]. *)
Definition table_index (a : Z) (level : nat) : Z := a / 2 ^ (12 + 9 * (4 - Z.of_nat level)) mod 512.
Definition entry_addr (frame a : Z) (level : nat) : Z := u64 (frame * 4096 + 8 * table_index a level).

Section Plan.
Context (k : knobs_t) (past : nat -> Z) (host : page_table_t).

(** Translating the guest-physical address [gpa + off] on the host: the levels
    below the one that the page-walk caches know, then the access itself. *)
Definition host_plan (e : page_table_info) (gpa off : Z) (row hit : nat) : list event :=
  Search (pw_cache k 0) gpa hit ::
  map (fun level => if decide (hit < level)%nat then Access (TRACE_TYPE past row level) (entry_addr (PE e level) gpa level)
                    else if decide (hit = level) then Note PWC else Note ZERO) [1; 2; 3; 4]%nat ++
  [Access (TRACE_TYPE past row 0) (u64 (PA e * 4096 + off))].

(** One level of the guest's table. *)
Definition guest_plan (ge : page_table_info) (va : Z) (ghit level : nat) (evs : list event) : Prop :=
  if decide (ghit < level)%nat then
    let gpa := u64 (PE ge level * 4096) in
    match host !! gpa with
    | None => evs = []
    | Some e => exists hit, evs = host_plan e gpa (8 * table_index va level) level hit
    end
  else if decide (ghit = level) then evs = map Note [ZERO; ZERO; ZERO; ZERO; PWC]
  else evs = map Note [ZERO; ZERO; ZERO; ZERO; ZERO].

(** The four levels of the guest, and the host walk for the page. *)
Definition walk_plan (ge he : page_table_info) (va off : Z) (evs : list event) : Prop :=
  exists ghit guest, Forall2 (guest_plan ge va ghit) [1; 2; 3; 4]%nat guest /\
    evs = Search (gpw_cache k 0) va ghit :: concat guest ++
          map (fun level => Access (TRACE_TYPE_PA_PE1 + Z.of_nat level - 1)
                                   (entry_addr (PE he level) (u64 (PA ge * 4096 + off)) level)) [1; 2; 3; 4]%nat.
End Plan.

(** ** Addresses *)

Lemma shl12 x : Z.shiftl x 12 = x * 4096.
Proof. by rewrite shiftl_mul by lia. Qed.

Lemma land511 x : Z.land x (Z.shiftl 1 9 - 1) = x mod 512.
Proof. change (Z.shiftl 1 9 - 1) with (2 ^ 9 - 1). by rewrite land_mask by lia. Qed.

Lemma index_shift a level : (1 <= level <= 4)%nat -> Z.land (Z.shiftr a (level_shift level)) (Z.shiftl 1 9 - 1) = table_index a level.
Proof.
  intros Hl. rewrite land511. unfold table_index, level_shift, PAGE_OFFSET_SIZE. rewrite shiftr_div by lia.
  do 3 f_equal. lia.
Qed.

Lemma entry_addr_request frame a level : (1 <= level <= 4)%nat ->
  u64 (u64 (Z.shiftl frame 12) + 8 * Z.land (Z.shiftr a (level_shift level)) (Z.shiftl 1 9 - 1)) = entry_addr frame a level.
Proof. intros Hl. by rewrite index_shift, u64_add_l, shl12 by done. Qed.

Lemma page_key frame : Z.shiftl (Z.shiftr (u64 (Z.shiftl frame 12)) PAGE_OFFSET_SIZE) PAGE_OFFSET_SIZE = u64 (frame * 4096).
Proof.
  unfold PAGE_OFFSET_SIZE. rewrite !shl12, shiftr_div by lia. unfold u64.
  assert (Hm : frame * 4096 mod w64 mod 4096 = 0).
  { rewrite Z.mod_mod_divide by (exists (2 ^ 52); lia). apply Z.mod_mul. lia. }
  change (2 ^ 12) with 4096. pose proof (Z.div_mod (frame * 4096 mod w64) 4096 ltac:(lia)). lia.
Qed.

(** ** The simulator's walk *)

Lemma local_single uninit c t a : 0 <= a < w64 -> single c (local_memref uninit t a) /\ mem_ok (local_memref uninit t a).
Proof.
  intros Ha. split; [|exact Ha]. unfold single, final_addr, local_memref. cbn [addr size].
  replace (a + 1 - 1) with a by lia. by rewrite u64_small.
Qed.

Lemma shiftr_u64 a n : 0 <= a < w64 -> 0 <= n -> 0 <= Z.shiftr a n < w64.
Proof.
  intros Ha Hn. rewrite shiftr_div by done. assert (0 < 2 ^ n) by (by apply Z.pow_pos_nonneg).
  split; [apply Z.div_pos; lia|]. apply Z.div_lt_upper_bound; nia.
Qed.

Lemma alone_reports s s' d d' a : alone s s' d -> d' <> d -> reports s' d' a = reports s d' a.
Proof. intros Ha Hd. unfold reports. by rewrite Ha. Qed.

Section Searches.
Context (k : knobs_t) (Hk : knobs_ok k) (uninit : memref_t).
#[local] Abbreviation ncaches := (3 * num_cores k + 7)%nat.

(** One request in a store of the simulator. *)
Lemma walk_request s d m : walk_store k s -> (d < ncaches)%nat -> mem_ok m ->
  exists s' r v v', cache_request s d m = Ret (s', r) /\ walk_store k s' /\ (forall j, (d < j)%nat -> s' !! j = s !! j) /\
    s !! d = Some v /\ s' !! d = Some v' /\
    (single (cfg v) m -> r = nearest (S d) s d (addr m) /\ line_post v v' (compute_tag (cfg v) (addr m)) (type_is_prefetch (type m))).
Proof using Hk.
  intros Hw Hd Hm. destruct (lookup_lt_is_Some_2 s d) as [v E]; [by rewrite (walk_store_length k s Hk Hw)|].
  destruct (request_ok s d m v (ws_ok _ _ Hw) E Hm) as (s' & r & v' & Er & S1 & E1 & Hok & HL).
  exists s', r, v, v'. split; [done|]. split; [|split; [apply S1|done]]. constructor; [done|].
  destruct (ws_cfg _ _ Hw) as (s0 & E0 & Hc). exists s0. split; [done|]. intros j. by rewrite (sp_cfg _ _ _ S1), Hc.
Qed.

(** One question to a page-walk cache. *)
Lemma pwc_request s d a : walk_store k s -> (3 * num_cores k < d < ncaches)%nat -> 0 <= a < w64 ->
  exists s' v', cache_request s d (local_memref uninit TRACE_TYPE_READ a) = Ret (s', if reports s d a then FOUND_L1 else NOT_FOUND) /\
    walk_store k s' /\ alone s s' d /\ s' !! d = Some v' /\ last_tag v' = compute_tag (cfg v') a /\ last_tag v' ∈ tags v'.
Proof using Hk.
  intros Hw Hd Ha. destruct (walk_cache_cfg k s d Hk Hw Hd) as (v0 & E0 & Hpar & Hpf & _).
  destruct (walk_request s d (local_memref uninit TRACE_TYPE_READ a) Hw ltac:(lia)) as (s' & r & v & v' & Er & Hw' & Hab & E & E' & HL); [done|].
  rewrite E0 in E. injection E as <-. destruct (local_single uninit (cfg v0) TRACE_TYPE_READ a Ha) as [H1 _].
  destruct (HL H1) as [-> L]. exists s', v'. split; [|split; [done|split; [|split; [done|]]]].
  - rewrite Er. do 2 f_equal. rewrite (nearest_eq d s d v0 _ E0), Hpar. unfold reports. rewrite E0. cbn [addr local_memref].
    destruct (compute_tag (cfg v0) a =? last_tag v0); cbn [negb andb]; [done|]. by case_bool_decide.
  - pose proof (line_device s d v0 (proj1 (ws_ok _ _ Hw)) E0) as Hv.
    eapply request_alone; [exact E0|done|done|apply (co_inclusive _ (do_config _ Hv))|exact H1|exact Er].
  - rewrite (lp_cfg _ _ _ _ L), (lp_last _ _ _ _ L). split; [done|apply L].
Qed.

(** The three questions, whose answers are those of the store before any. *)
Lemma pwc_search_ok s first a : walk_store k s -> (3 * num_cores k < first)%nat -> (first + 2 < ncaches)%nat -> 0 <= a < w64 ->
  exists s', pwc_search uninit s first a NUM_PWC 0 = Ret (s', pwc_hit s first a) /\ walk_store k s' /\
    (forall j, (j < first)%nat \/ (first + 2 < j)%nat -> s' !! j = s !! j) /\
    forall i, (i < 3)%nat -> exists v, s' !! (first + i)%nat = Some v /\ last_tag v ∈ tags v /\
      last_tag v = compute_tag (cfg v) (Z.shiftr a (level_shift (S i))).
Proof using Hk.
  intros Hw H1 H2 Ha. assert (Hsh : forall l, (l <= 4)%nat -> 0 <= Z.shiftr a (level_shift l) < w64).
  { intros l Hl. apply shiftr_u64; [done|]. unfold level_shift, PAGE_OFFSET_SIZE. lia. }
  destruct (pwc_request s (first + 2) (Z.shiftr a (level_shift 3)) Hw ltac:(lia) (Hsh 3%nat ltac:(lia))) as (s1 & v1 & R1 & W1 & A1 & E1 & L1 & I1).
  destruct (pwc_request s1 (first + 1) (Z.shiftr a (level_shift 2)) W1 ltac:(lia) (Hsh 2%nat ltac:(lia))) as (s2 & v2 & R2 & W2 & A2 & E2 & L2 & I2).
  destruct (pwc_request s2 (first + 0) (Z.shiftr a (level_shift 1)) W2 ltac:(lia) (Hsh 1%nat ltac:(lia))) as (s3 & v3 & R3 & W3 & A3 & E3 & L3 & I3).
  rewrite (alone_reports s s1 _ _ _ A1) in R2 by lia. rewrite (alone_reports s1 s2 _ _ _ A2), (alone_reports s s1 _ _ _ A1) in R3 by lia.
  exists s3. split; [|split; [done|split]].
  - change NUM_PWC with 3%nat. cbn [pwc_search]. rewrite R1. cbn [mbind outcome_bind]. rewrite R2. cbn [mbind outcome_bind].
    rewrite R3. cbn [mbind outcome_bind]. unfold pwc_hit. rewrite Nat.add_0_r.
    by destruct (reports s (first + 2) _), (reports s (first + 1) _), (reports s first _).
  - intros j Hj. rewrite A3, A2, A1 by lia. done.
  - intros [|[|[|i]]] Hi; [exists v3; done| | |lia].
    + exists v2. rewrite A3 by lia. done.
    + exists v1. rewrite A3, A2 by lia. done.
Qed.

End Searches.

Section Runs.
Context (k : knobs_t) (Hk : knobs_ok k) (past : nat -> Z) (uninit : memref_t) (core : nat) (Hcore : (core < num_cores k)%nat).
#[local] Abbreviation perf := (performs k uninit core).

Lemma walk_access s res t base a level : walk_store k s ->
  let addr := u64 (base + 8 * Z.land (Z.shiftr a (level_shift level)) (Z.shiftl 1 9 - 1)) in
  exists s' r, make_request uninit s res t base a level core = Ret (s', res ++ [r]) /\ walk_store k s' /\
    (forall j, (3 * num_cores k < j)%nat -> s' !! j = s !! j) /\ perf s [Access t addr] [r] s'.
Proof using Hk Hcore.
  intros Hw addr. destruct (walk_request k Hk s (l1_dcache core) (local_memref uninit t addr) Hw) as (s' & r & v & v' & Er & Hw' & Hab & _).
  { unfold l1_dcache. lia. } { apply u64_bound. }
  exists s', r. unfold make_request. fold addr. rewrite Er. split; [done|]. split; [done|]. split.
  - intros j Hj. apply Hab. unfold l1_dcache. lia.
  - eapply performs_access; [exact Er|constructor].
Qed.

(** What a stretch of the walk does: it adds the answers of its events to the
    result, and leaves the guest's page-walk caches alone. *)
Definition stretch (run : store -> list Z -> outcome (store * list Z)) (plan : list event -> Prop) : Prop :=
  forall s res, walk_store k s -> exists s' evs rs, run s res = Ret (s', res ++ rs) /\ plan evs /\ walk_store k s' /\
    (forall j, (gpw_cache k 0 <= j)%nat -> s' !! j = s !! j) /\ perf s evs rs s'.

Lemma stretch_seq run1 run2 (plan1 plan2 : list event -> Prop) plan : stretch run1 plan1 -> stretch run2 plan2 ->
  (forall e1 e2, plan1 e1 -> plan2 e2 -> plan (e1 ++ e2)) ->
  stretch (fun s res => '(s, res) ← run1 s res; run2 s res) plan.
Proof using. clear Hk Hcore past.
  intros H1 H2 Hp s res Hw. destruct (H1 s res Hw) as (s1 & e1 & r1 & E1 & P1 & W1 & A1 & F1).
  destruct (H2 s1 (res ++ r1) W1) as (s2 & e2 & r2 & E2 & P2 & W2 & A2 & F2).
  exists s2, (e1 ++ e2), (r1 ++ r2). rewrite E1. cbn [mbind outcome_bind]. rewrite E2, <- app_assoc. split; [done|]. split; [by apply Hp|].
  split; [done|]. split; [intros j Hj; by rewrite A2, A1|]. by eapply performs_app.
Qed.

Lemma stretch_ext run1 run2 plan : (forall s res, run1 s res = run2 s res) -> stretch run1 plan -> stretch run2 plan.
Proof using. clear Hk Hcore past. intros He H s res Hw. rewrite <- He. by apply H. Qed.
Lemma stretch_weaken run (plan1 plan2 : list event -> Prop) : (forall e, plan1 e -> plan2 e) -> stretch run plan1 -> stretch run plan2.
Proof using. clear Hk Hcore past.
  intros Hp H s res Hw. destruct (H s res Hw) as (s' & e & r & E & P & R). exists s', e, r. auto.
Qed.

Lemma stretch_nil : stretch (fun s res => Ret (s, res)) (eq []).
Proof using. clear Hk Hcore past. intros s res Hw. exists s, [], []. rewrite app_nil_r. split; [done|]. split; [done|]. split; [done|]. split; [done|constructor]. Qed.

Lemma stretch_notes rs : stretch (fun s res => Ret (s, res ++ rs)) (eq (map Note rs)).
Proof using. clear Hk Hcore past. intros s res Hw. exists s, (map Note rs), rs. split; [done|]. split; [done|]. split; [done|]. split; [done|apply performs_notes]. Qed.

Lemma stretch_access t base a level :
  stretch (fun s res => make_request uninit s res t base a level core)
    (eq [Access t (u64 (base + 8 * Z.land (Z.shiftr a (level_shift level)) (Z.shiftl 1 9 - 1)))]).
Proof using Hk Hcore.
  intros s res Hw. destruct (walk_access s res t base a level Hw) as (s' & r & E & W & A & F).
  eexists s', _, [r]. split; [exact E|]. split; [done|]. split; [done|]. split; [|done].
  intros j Hj. apply A. unfold gpw_cache in Hj. lia.
Qed.

(** A loop over levels. *)
Lemma stretch_loop (body : nat -> store -> list Z -> outcome (store * list Z)) (loop : list nat -> store -> list Z -> outcome (store * list Z))
    (plan : nat -> list event -> Prop) levels :
  (forall s res, loop [] s res = Ret (s, res)) ->
  (forall l ls s res, loop (l :: ls) s res = ('(s, res) ← body l s res; loop ls s res)) ->
  (forall l, l ∈ levels -> stretch (body l) (plan l)) ->
  stretch (loop levels) (fun evs => exists es, Forall2 plan levels es /\ evs = concat es).
Proof using. clear Hk Hcore past.
  intros H0 HS. induction levels as [|l levels IH]; intros Hb.
  - eapply stretch_ext; [intros; symmetry; apply H0|]. eapply stretch_weaken; [|apply stretch_nil]. intros e <-. exists []. by split.
  - eapply stretch_ext; [intros; symmetry; apply HS|].
    eapply (stretch_seq (body l) (loop levels) (plan l)); [apply Hb; set_solver|apply IH; intros; apply Hb; set_solver|].
    intros e1 e2 H1 (es & H2 & ->). exists (e1 :: es). split; [by constructor|done].
Qed.

Lemma Forall2_eq_map (f : nat -> list event) levels es : Forall2 (fun l e => f l = e) levels es -> es = map f levels.
Proof using. clear. induction 1; cbn; congruence. Qed.

Lemma level_bounds l : l ∈ seq 1 NUM_PAGE_TABLE_LEVELS -> (1 <= l <= 4)%nat.
Proof using. clear. intros Hl%elem_of_seq. unfold NUM_PAGE_TABLE_LEVELS in Hl. lia. Qed.

Lemma host_levels_stretch e gpa row hit :
  stretch (fun s res => host_levels past uninit s res e gpa row hit core (seq 1 NUM_PAGE_TABLE_LEVELS))
    (eq (map (fun level => if decide (hit < level)%nat then Access (TRACE_TYPE past row level) (entry_addr (PE e level) gpa level)
                           else if decide (hit = level) then Note PWC else Note ZERO) [1; 2; 3; 4]%nat)).
Proof using Hk Hcore.
  eapply stretch_weaken;
    [|apply (stretch_loop (fun l s res => if (hit <? l)%nat
         then make_request uninit s res (TRACE_TYPE past row l) (u64 (Z.shiftl (PE e l) 12)) gpa l core
         else if (hit =? l)%nat then Ret (s, res ++ [PWC]) else Ret (s, res ++ [ZERO]))
       (fun ls s res => host_levels past uninit s res e gpa row hit core ls)
       (fun level ev => [if decide (hit < level)%nat then Access (TRACE_TYPE past row level) (entry_addr (PE e level) gpa level)
                        else if decide (hit = level) then Note PWC else Note ZERO] = ev))].
  - intros ev (es & ->%Forall2_eq_map & ->). done.
  - done.
  - done.
  - intros l Hl%level_bounds. destruct (hit <? l)%nat eqn:E1; [apply Nat.ltb_lt in E1; rewrite decide_True by done|
      apply Nat.ltb_ge in E1; rewrite decide_False by lia].
    + rewrite <- entry_addr_request by done. apply stretch_access.
    + destruct (hit =? l)%nat eqn:E2; [apply Nat.eqb_eq in E2; rewrite decide_True by done|
        apply Nat.eqb_neq in E2; rewrite decide_False by done]; apply stretch_notes.
Qed.

Lemma host_plan_tail e gpa off row hit e1 e2 :
  map (fun level => if decide (hit < level)%nat then Access (TRACE_TYPE past row level) (entry_addr (PE e level) gpa level)
                    else if decide (hit = level) then Note PWC else Note ZERO) [1; 2; 3; 4]%nat = e1 ->
  [Access (TRACE_TYPE past row 0)
     (u64 (u64 (u64 (Z.shiftl (PA e) 12) + off) + 8 * Z.land (Z.shiftr 0 (level_shift 1)) (Z.shiftl 1 9 - 1)))] = e2 ->
  tl (host_plan k past e gpa off row hit) = e1 ++ e2.
Proof using.
  clear. intros <- <-. unfold host_plan. cbn [tl]. do 3 f_equal.
  by rewrite Z.shiftr_0_l, Z.land_0_l, Z.mul_0_r, Z.add_0_r, u64_idemp, u64_add_l, shl12.
Qed.

Lemma one_pw_stretch host pe off row :
  stretch (fun s res => one_pw_at_host k past uninit host s res (u64 (Z.shiftl pe 12)) off row core)
    (fun evs => match host !! u64 (pe * 4096) with
                | None => evs = []
                | Some e => exists hit, evs = host_plan k past e (u64 (pe * 4096)) off row hit end).
Proof using Hk Hcore.
  unfold one_pw_at_host. rewrite page_key, shl12. destruct (host !! u64 (pe * 4096)) as [e|].
  2:{ eapply stretch_weaken; [|apply stretch_nil]. by intros ? <-. }
  intros s res Hw. set (gpa := u64 (pe * 4096)).
  destruct (pwc_search_ok k Hk uninit s (pw_cache k 0) gpa Hw) as (s1 & E1 & W1 & A1 & _); [unfold pw_cache; lia..|apply u64_bound|].
  rewrite E1. cbn [mbind outcome_bind].
  set (hit := pwc_hit s (pw_cache k 0) gpa) in E1 |- *.
  destruct (stretch_seq _ _ _ _ (eq (tl (host_plan k past e gpa off row hit)))
              (host_levels_stretch e gpa row hit)
              (stretch_access (TRACE_TYPE past row 0) (u64 (u64 (Z.shiftl (PA e) 12) + off)) 0 1)
              ltac:(by apply host_plan_tail) s1 res W1) as (s2 & evs & rs & E2 & <- & W2 & A2 & F2).
  exists s2, (host_plan k past e gpa off row hit), rs. split; [exact E2|]. split; [by eexists|]. split; [done|]. split.
  - intros j Hj. rewrite A2, A1 by (unfold gpw_cache, pw_cache in *; lia). done.
  - unfold host_plan. eapply performs_search; [exact E1| |exact F2]. intros j Hj. apply A1. unfold pw_cache. lia.
Qed.
Lemma guest_levels_stretch host ge va hit :
  stretch (fun s res => guest_levels k past uninit host s res ge va hit core (seq 1 NUM_PAGE_TABLE_LEVELS))
    (fun evs => exists guest, Forall2 (guest_plan k past host ge va hit) [1; 2; 3; 4]%nat guest /\ evs = concat guest).
Proof using Hk Hcore.
  apply (stretch_loop (fun level s res => if (hit <? level)%nat
      then one_pw_at_host k past uninit host s res (u64 (Z.shiftl (PE ge level) 12))
             (8 * Z.land (Z.shiftr va (level_shift level)) (Z.shiftl 1 9 - 1)) level core
      else if (hit =? level)%nat then Ret (s, res ++ replicate NUM_PAGE_TABLE_LEVELS ZERO ++ [PWC])
      else Ret (s, res ++ replicate (NUM_PAGE_TABLE_LEVELS + 1) ZERO))
    (fun ls s res => guest_levels k past uninit host s res ge va hit core ls)); [done|done|].
  intros l Hl%level_bounds. destruct (hit <? l)%nat eqn:E1.
  - apply Nat.ltb_lt in E1. rewrite index_shift by done.
    eapply stretch_weaken; [|apply one_pw_stretch]. intros evs Hev. unfold guest_plan. by rewrite decide_True.
  - apply Nat.ltb_ge in E1. destruct (hit =? l)%nat eqn:E2; [apply Nat.eqb_eq in E2|apply Nat.eqb_neq in E2];
      (eapply stretch_weaken; [|apply stretch_notes]); intros evs <-; unfold guest_plan; rewrite decide_False by lia.
    + by rewrite decide_True.
    + by rewrite decide_False.
Qed.

Lemma final_levels_stretch he gpa :
  stretch (fun s res => final_levels uninit s res he gpa core (seq 1 NUM_PAGE_TABLE_LEVELS))
    (eq (map (fun level => Access (TRACE_TYPE_PA_PE1 + Z.of_nat level - 1) (entry_addr (PE he level) gpa level)) [1; 2; 3; 4]%nat)).
Proof using Hk Hcore.
  eapply stretch_weaken;
    [|apply (stretch_loop (fun level s res => make_request uninit s res (TRACE_TYPE_PA_PE1 + Z.of_nat level - 1)
                                                (u64 (Z.shiftl (PE he level) 12)) gpa level core)
       (fun ls s res => final_levels uninit s res he gpa core ls)
       (fun level ev => [Access (TRACE_TYPE_PA_PE1 + Z.of_nat level - 1) (entry_addr (PE he level) gpa level)] = ev))].
  - intros ev (es & ->%Forall2_eq_map & ->). done.
  - done.
  - done.
  - intros l Hl%level_bounds. rewrite <- entry_addr_request by done. apply stretch_access.
Qed.
End Runs.

(** ** The number of answers *)

Lemma answers_app e1 e2 : sum_list_with answers (e1 ++ e2) = (sum_list_with answers e1 + sum_list_with answers e2)%nat.
Proof. apply sum_list_with_app. Qed.

Lemma answers_host k past e gpa off row hit : sum_list_with answers (host_plan k past e gpa off row hit) = 5%nat.
Proof. unfold host_plan. cbn. repeat case_decide; done. Qed.

Lemma answers_guest k past host ge va ghit level evs : is_Some (host !! u64 (PE ge level * 4096)) ->
  guest_plan k past host ge va ghit level evs -> sum_list_with answers evs = 5%nat.
Proof.
  intros [e He]. unfold guest_plan. repeat case_decide; [|by intros ->|by intros ->].
  cbv zeta. rewrite He. intros (hit & ->). apply answers_host.
Qed.

Lemma answers_walk k past host ge he va off evs :
  (forall level, (1 <= level <= 4)%nat -> is_Some (host !! u64 (PE ge level * 4096))) ->
  walk_plan k past host ge he va off evs -> sum_list_with answers evs = 24%nat.
Proof.
  intros Hall (ghit & guest & Hg & ->). cbn [sum_list_with answers]. rewrite answers_app.
  assert (Hs : forall ls gs, Forall2 (guest_plan k past host ge va ghit) ls gs -> Forall (fun l => (1 <= l <= 4)%nat) ls ->
                sum_list_with answers (concat gs) = (5 * length ls)%nat).
  { clear -Hall. induction 1 as [|l g ls gs H1 H2 IH]; intros Hf; [done|]. inversion Hf; subst. cbn [concat length].
    rewrite answers_app, IH by done. rewrite (answers_guest k past host ge va ghit l g) by auto. lia. }
  rewrite (Hs _ _ Hg) by (repeat constructor; lia). done.
Qed.

(** ** The walk *)

(** What the searches of a walk leave in the guest's page-walk caches. *)
Definition walked (k : knobs_t) (s : store) (va : Z) : Prop :=
  forall i, (i < 3)%nat -> exists v, s !! (gpw_cache k 0 + i)%nat = Some v /\ last_tag v ∈ tags v /\
    last_tag v = compute_tag (cfg v) (Z.shiftr va (level_shift (S i))).

Lemma page_walk_ok k past uninit host s ge he va off core :
  knobs_ok k -> walk_store k s -> (core < num_cores k)%nat -> 0 <= va < w64 ->
  exists s' evs rs, page_walk k past uninit host s ge he va off core = Ret (s', rs ++ [RANGE_HIT]) /\
    walk_plan k past host ge he va off evs /\ performs k uninit core s evs rs s' /\ walk_store k s' /\ walked k s' va.
Proof.
  intros Hk Hw Hcore Hva. unfold page_walk.
  destruct (pwc_search_ok k Hk uninit s (gpw_cache k 0) va Hw) as (s1 & E1 & W1 & A1 & L1); [unfold gpw_cache; lia..|done|].
  rewrite E1. cbn [mbind outcome_bind]. set (hit := pwc_hit s (gpw_cache k 0) va) in *.
  destruct (guest_levels_stretch k Hk past uninit core Hcore host ge va hit s1 [] W1) as (s2 & e2 & r2 & E2 & (guest & Hg & ->) & W2 & A2 & F2).
  rewrite E2. cbn [mbind outcome_bind].
  destruct (final_levels_stretch k Hk uninit core Hcore he (u64 (u64 (Z.shiftl (PA ge) 12) + off)) s2 ([] ++ r2) W2)
    as (s3 & e3 & r3 & E3 & <- & W3 & A3 & F3).
  rewrite E3. cbn [mbind outcome_bind]. rewrite u64_add_l, shl12 in F3.
  eexists s3, _, (r2 ++ r3). split; [done|]. split; [exists hit, guest; split; [exact Hg|reflexivity]|]. split; [|split; [done|]].
  - eapply performs_search; [exact E1| |by eapply performs_app]. intros j Hj. apply A1. unfold gpw_cache. lia.
  - intros i Hi. rewrite A3, A2 by lia. by apply L1.
Qed.

(** C1. The walk of a TLB miss is the walk of the architecture: whatever the
    caches hold, the simulator asks the guest's page-walk caches, walks the host
    for each of the guest's levels below the one they know (at the guest-physical
    address of the entry, with the host's own page-walk caches), and for the
    page itself, every access being for the entry that the address selects in
    the table of its level.  The result is the answers of the data cache in that
    order, 24 of them when the host maps each of the guest's tables. *)
Theorem page_walk_performs (k : knobs_t) (past : nat -> Z) (uninit : memref_t) (host : page_table_t) (s : store)
    (ge he : page_table_info) (va off : Z) (core : nat) :
  knobs_ok k -> walk_store k s -> (core < num_cores k)%nat -> 0 <= va < w64 ->
  exists s' evs rs, page_walk k past uninit host s ge he va off core = Ret (s', rs ++ [RANGE_HIT]) /\
    walk_plan k past host ge he va off evs /\ performs k uninit core s evs rs s' /\ walk_store k s' /\
    ((forall level, (1 <= level <= 4)%nat -> is_Some (host !! u64 (PE ge level * 4096))) -> length rs = 24%nat).
Proof.
  intros Hk Hw Hcore Hva. destruct (page_walk_ok k past uninit host s ge he va off core Hk Hw Hcore Hva) as (s' & evs & rs & E & P & F & W & _).
  exists s', evs, rs. split; [done|]. split; [done|]. split; [done|]. split; [done|].
  intros Hall. rewrite (performs_length _ _ _ _ _ _ _ F). by eapply answers_walk.
Qed.

(** ** Consecutive walks *)

Lemma shiftr_region a b n : a / 2 ^ 24 = b / 2 ^ 24 -> 24 <= n -> Z.shiftr a n = Z.shiftr b n.
Proof.
  intros H Hn. replace n with (24 + (n - 24)) by lia. rewrite <- !Z.shiftr_shiftr by lia.
  by rewrite !(shiftr_div _ 24), H by lia.
Qed.

Lemma walk_tag k s d v a b l : knobs_ok k -> walk_store k s -> (3 * num_cores k < d < 3 * num_cores k + 7)%nat -> s !! d = Some v ->
  a / 2 ^ 24 = b / 2 ^ 24 -> (l <= 3)%nat ->
  compute_tag (cfg v) (Z.shiftr a (level_shift l)) = compute_tag (cfg v) (Z.shiftr b (level_shift l)).
Proof.
  intros Hk Hw Hd E Hab Hl. destruct (walk_cache_cfg k s d Hk Hw Hd) as (v0 & E0 & _ & _ & Hb). rewrite E in E0. injection E0 as <-.
  unfold compute_tag. rewrite Hb. unfold level_shift, PAGE_OFFSET_SIZE. rewrite !Z.shiftr_shiftr by lia. apply shiftr_region; [done|lia].
Qed.

(** All three of the guest's page-walk caches hold what a walk for [va] asks. *)
Definition guest_held (k : knobs_t) (s : store) (va : Z) : Prop :=
  forall i, (i < 3)%nat -> exists v, s !! gpw_cache k i = Some v /\ compute_tag (cfg v) (Z.shiftr va (level_shift (S i))) ∈ tags v.

(** Two walks one after the other for pages of the same 16 megabytes: the
    first leaves what the second asks for in all three of the guest's page-walk
    caches, and the second still finds nothing there, because a request for a
    cache's last line answers that it was not found. *)
Theorem consecutive_walk_finds_nothing (k : knobs_t) (past : nat -> Z) (uninit : memref_t) (host : page_table_t) (s s' : store)
    (ge he : page_table_info) (va va' off : Z) (core : nat) (res : list Z) :
  knobs_ok k -> walk_store k s -> (core < num_cores k)%nat -> 0 <= va < w64 -> 0 <= va' < w64 -> va / 2 ^ 24 = va' / 2 ^ 24 ->
  page_walk k past uninit host s ge he va off core = Ret (s', res) ->
  guest_held k s' va' /\
  exists s'', pwc_search uninit s' (gpw_cache k 0) va' NUM_PWC 0 = Ret (s'', 0%nat).
Proof.
  intros Hk Hw Hcore Hva Hva' Hreg E.
  destruct (page_walk_ok k past uninit host s ge he va off core Hk Hw Hcore Hva) as (s1 & evs & rs & E1 & _ & _ & W & L).
  rewrite E1 in E. injection E as -> _.
  assert (Ht : forall i, (i < 3)%nat -> exists v, s' !! (gpw_cache k 0 + i)%nat = Some v /\ last_tag v ∈ tags v /\
                 last_tag v = compute_tag (cfg v) (Z.shiftr va' (level_shift (S i)))).
  { intros i Hi. destruct (L i Hi) as (v & Ev & Hin & Hlast). exists v. split; [done|]. split; [done|].
    rewrite Hlast. eapply (walk_tag k s' (gpw_cache k 0 + i)); [done|done|unfold gpw_cache; lia|exact Ev|done|lia]. }
  split.
  - intros i Hi. destruct (Ht i Hi) as (v & Ev & Hin & Hlast). exists v. rewrite <- Hlast. split; [|done]. rewrite <- Ev. f_equal. unfold gpw_cache. lia.
  - destruct (pwc_search_ok k Hk uninit s' (gpw_cache k 0) va' W) as (s'' & Es & _); [unfold gpw_cache; lia..|done|]. exists s''.
    rewrite Es. do 2 f_equal.
    assert (Hr : forall i, (i < 3)%nat -> reports s' (gpw_cache k 0 + i) (Z.shiftr va' (level_shift (S i))) = false).
    { intros i Hi. destruct (Ht i Hi) as (v & Ev & _ & Hlast). unfold reports. by rewrite Ev, Hlast, Z.eqb_refl. }
    unfold pwc_hit. rewrite (Hr 2%nat), (Hr 1%nat) by lia. specialize (Hr 0%nat ltac:(lia)). rewrite Nat.add_0_r in Hr. by rewrite Hr.
Qed.

(** ** A small machine *)

Lemma new_walk_store k s : knobs_ok k -> create_caches k = Some s -> walk_store k s.
Proof. intros Hk E. constructor; [by apply (create_caches_ok k s Hk E)|by exists s]. Qed.

Definition small_knobs : knobs_t := {|
  num_cores := 1; line_size := 64; replace_policy := LRU; nextline := false;
  LL_size := 8192; LL_assoc := 16; L2_size := 512; L2_assoc := 2; L1I_size := 256; L1I_assoc := 2; L1D_size := 256; L1D_assoc := 2;
  page_size := 4096; TLB_L1I_entries := 4; TLB_L1I_assoc := 4; TLB_L1D_entries := 4; TLB_L1D_assoc := 4;
  TLB_L2_entries := 8; TLB_L2_assoc := 4; knob_skip_refs := 0; knob_warmup_refs := 0; knob_sim_refs := 1000 |}.
Lemma small_knobs_ok : knobs_ok small_knobs.
Proof. constructor; [cbn; lia| |done]. cbn. repeat constructor. Qed.

Definition small_caches : store := match create_caches small_knobs with Some s => s | None => [] end.
Lemma small_caches_ok : walk_store small_knobs small_caches.
Proof. apply new_walk_store; [apply small_knobs_ok|by vm_compute]. Qed.

(** A guest whose tables are the frames 1 to 4 and whose page is the frame 5. *)
Definition small_guest : page_table_info := {| PE1 := 1; PE2 := 2; PE3 := 3; PE4 := 4; PA := 5 |}.
Definition small_frame (pa : Z) : page_table_info := {| PE1 := 16; PE2 := 17; PE3 := 18; PE4 := 19; PA := pa |}.
Definition small_host : page_table_t :=
  list_to_map [(4096, small_frame 33); (8192, small_frame 34); (12288, small_frame 35); (16384, small_frame 36); (20480, small_frame 37)].
Definition no_ref : memref_t := {| type := TRACE_TYPE_READ; pid := 0; tid := 0; addr := 0; size := 0 |}.
Definition small_walk (s : store) (va : Z) : outcome (store * list Z) :=
  page_walk small_knobs (fun _ => 0) no_ref small_host s small_guest (small_frame 37) va 0 0.

Lemma page_walk_performs_witness : exists s' evs rs, small_walk small_caches 4096 = Ret (s', rs ++ [RANGE_HIT]) /\
  walk_plan small_knobs (fun _ => 0) small_host small_guest (small_frame 37) 4096 0 evs /\
  performs small_knobs no_ref 0 small_caches evs rs s' /\ walk_store small_knobs s' /\
  ((forall level, (1 <= level <= 4)%nat -> is_Some (small_host !! u64 (PE small_guest level * 4096))) -> length rs = 24%nat).
Proof.
  apply (page_walk_performs small_knobs (fun _ => 0) no_ref small_host small_caches small_guest (small_frame 37) 4096 0 0).
  - apply small_knobs_ok.
  - apply small_caches_ok.
  - cbn; lia.
  - lia.
Defined.

Definition walk_caches_after (o : outcome (store * list Z)) : store := match o with Ret (s, _) => s | _ => [] end.
Definition walk_answers (o : outcome (store * list Z)) : list Z := match o with Ret (_, res) => res | _ => [] end.
Definition small_walked : store := walk_caches_after (small_walk small_caches 4096).

(** The host's tables are found again in the last level, but not the page-walk
    caches' contents; a walk elsewhere between makes these appear. *)
Example small_first : walk_answers (small_walk small_caches 4096) =
  [0; 0; 0; 0; 0; 3; 3; 3; 3; 0; 3; 3; 3; 3; 0; 3; 3; 3; 3; 0; 3; 3; 3; 3; RANGE_HIT].
Proof. vm_compute. reflexivity. Qed.
Example small_between : walk_answers (small_walk (walk_caches_after (small_walk small_walked (2 ^ 40))) 4096) =
  replicate 14 ZERO ++ PWC :: replicate 9 FOUND_LLC ++ [RANGE_HIT].
Proof. vm_compute. reflexivity. Qed.

Lemma consecutive_walk_finds_nothing_witness :
  small_walk small_caches 4096 = Ret (small_walked, walk_answers (small_walk small_caches 4096)) /\
  guest_held small_knobs small_walked 8192 /\
  exists s'', pwc_search no_ref small_walked (gpw_cache small_knobs 0) 8192 NUM_PWC 0 = Ret (s'', 0%nat).
Proof.
  assert (E : small_walk small_caches 4096 = Ret (small_walked, walk_answers (small_walk small_caches 4096))) by (vm_compute; reflexivity).
  split; [exact E|].
  apply (consecutive_walk_finds_nothing small_knobs (fun _ => 0) no_ref small_host small_caches small_walked small_guest (small_frame 37)
           4096 8192 0 0 (walk_answers (small_walk small_caches 4096)) small_knobs_ok small_caches_ok);
    [cbn; lia|lia|lia|reflexivity|exact E].
Defined.
