(* ===== verification/LoadSpec.v ===== *)
(** * The simulator loads what the dumpers wrote

    The loader of [PageWalk] on the two files of the pipeline: the guest's dump
    under a true record count, and the augmentor's output.  Each table it builds
    is compared with the page tables the dumpers walked. *)
From S2P Require Import Prelude CText PageTable GuestDump HostTranslator Augmentor Pipeline CachingDevice PageWalk.

(** ** Reading back printed numbers *)

Record reads (f : text) (v : Z) : Prop := {
  rd_nonnil : f <> [];
  rd_digits : Forall digit_char f;
  rd_run r : sep_start r -> hex_run 0 (f ++ r) = (v, r);
  rd_range : 0 <= v < w64
}.

Lemma hex_pad_u64 n : hex_pad 16 n = hex_pad 16 (u64 n).
Proof.
  unfold u64. assert (H : forall k m, hex_pad k m = hex_pad k (m mod 16 ^ Z.of_nat k)).
  { induction k as [|k IH]; intros m; [done|]. cbn [hex_pad]. rewrite Nat2Z.inj_succ, Z.pow_succ_r by lia.
    assert (Hp : 0 < 16 ^ Z.of_nat k) by lia. rewrite Z.rem_mul_r by lia. f_equal.
    - rewrite (IH (m / 16)). f_equal. rewrite (Z.add_comm (m mod 16)), (Z.mul_comm 16), Z.div_add_l by lia.
      rewrite (Z.div_small (m mod 16)) by (apply Z.mod_pos_bound; lia). lia.
    - by rewrite (Z.mul_comm 16), Z.mod_add, Z.mod_mod by lia. }
  rewrite (H 16%nat n). by rewrite pow_16_16.
Qed.

Lemma reads_fmt_lx n : reads (fmt_lx n) (u64 n).
Proof.
  unfold fmt_lx. rewrite hex_pad_u64. fold (fmt_lx (u64 n)). constructor; auto using fmt_lx_nonnil, digits_fmt_lx.
  - intros r Hr. apply hex_run_fmt_lx; [apply u64_bound|by apply sep_start_stops].
  - apply u64_bound.
Qed.
Lemma reads_fmt_016lx n : reads (fmt_016lx n) (u64 n).
Proof.
  unfold fmt_016lx. rewrite hex_pad_u64. fold (fmt_016lx (u64 n)). constructor.
  - apply hex_pad_nonnil.
  - apply digits_hex_pad.
  - intros r Hr. apply hex_run_fmt_016lx; [apply u64_bound|by apply sep_start_stops].
  - apply u64_bound.
Qed.

Lemma fscan_sign_digit c t : digit_char c -> fscan_sign (c :: t) = (false, c :: t).
Proof. intros Hc. pose proof (digit_char_facts c Hc). cbn. by rewrite !decide_False by tauto. Qed.

Lemma fscan_llx_reads f v r : reads f v -> sep_start r -> fscan_llx (f ++ r) = (Some v, r).
Proof.
  intros [Hne Hd Hrun Hv] Hr. specialize (Hrun r Hr). unfold fscan_llx. rewrite digits_skip_spaces by done.
  pose proof (digits_drop_0x f r Hne Hd Hr) as Hx.
  destruct f as [|c t]; [done|]. pose proof (Forall_inv Hd) as Hc. cbn [app] in *. rewrite fscan_sign_digit, Hx by done.
  rewrite (proj1 (digit_char_facts c Hc)), Hrun. cbn [andb].
  unfold sat64. by rewrite (proj2 (Z.leb_gt w64 v)) by lia.
Qed.

Lemma fscan_fields_more n l v r : fscan_llx l = (Some v, COMMA :: r) ->
  fscan_fields (S (S n)) l = let '(vs, ok, r') := fscan_fields (S n) r in (v :: vs, ok, r').
Proof. intros E. change (S (S n)) with (S (S n)). remember (S n) as m eqn:Em. cbn [fscan_fields]. rewrite E. by subst m. Qed.

Lemma fscan_fields_reads fs vs r : Forall2 reads fs vs -> fs <> [] -> match r with c :: _ => c = NL | [] => True end ->
  fscan_fields (length fs) (joinc COMMA fs ++ r) = (vs, true, r).
Proof.
  intros HF Hne Hr. assert (Hs : sep_start r) by (destruct r; [done|by right]).
  induction HF as [|f v fs vs Hf HF IH]; [done|]. destruct fs as [|g fs].
  - inversion HF; subst. cbn [joinc length fscan_fields]. by rewrite (fscan_llx_reads f v).
  - rewrite join_cons, <- app_assoc. cbn [length app].
    rewrite (fscan_fields_more _ _ v (joinc COMMA (g :: fs) ++ r)) by (apply fscan_llx_reads; [done|by left]).
    change (S (length fs)) with (length (g :: fs)). by rewrite IH.
Qed.

(** What follows a record: the end, or the digits of the next one. *)
Definition next_record (r : text) : Prop := skip_spaces r = r.

Lemma fscan_record_reads fs vs r : Forall2 reads fs vs -> length fs = 6%nat -> next_record r ->
  fscan_record 6 (joinc COMMA fs ++ NL :: r) = (vs, r).
Proof.
  intros HF Hl Hr. unfold fscan_record. rewrite <- Hl, (fscan_fields_reads fs vs) by (done || by destruct fs).
  change (skip_spaces (NL :: r)) with (skip_spaces r). by rewrite Hr.
Qed.

Lemma next_record_line fs vs r : Forall2 reads fs vs -> fs <> [] -> next_record (joinc COMMA fs ++ r).
Proof.
  intros HF Hne. destruct HF as [|f v fs vs [Hn Hd _ _] HF]; [done|]. unfold next_record.
  destruct fs as [|g fs]; [by apply digits_skip_spaces|]. rewrite join_cons, <- app_assoc. by apply digits_skip_spaces.
Qed.

Lemma next_record_lines recs vss : Forall2 (fun fs vs => Forall2 reads fs vs /\ length fs = 6%nat) recs vss ->
  next_record (unlines (map (joinc COMMA) recs)).
Proof.
  intros HF. destruct HF as [|fs vs recs vss [H1 H2] _]; [done|]. unfold unlines. cbn [map concat].
  rewrite <- app_assoc. eapply next_record_line; [exact H1|by destruct fs].
Qed.

Definition entry_of (vs : list Z) : Z * page_table_info := info_of (0, 0) vs.

Lemma load_records_reads recs vss i junk tbl :
  Forall2 (fun fs vs => Forall2 reads fs vs /\ length fs = 6%nat) recs vss ->
  load_records (length recs) i junk (unlines (map (joinc COMMA) recs)) tbl =
  fold_left (fun tbl p => table_insert tbl p.1 p.2) (map entry_of vss) tbl.
Proof.
  intros HF. revert i tbl. induction HF as [|fs vs recs vss [H1 H2] HF IH]; intros i tbl; [done|].
  cbn [length load_records map]. unfold unlines. cbn [map concat]. rewrite <- app_assoc. cbn [app].
  fold (unlines (map (joinc COMMA) recs)).
  rewrite (fscan_record_reads fs vs) by (done || by eapply next_record_lines). cbv iota beta zeta.
  assert (Hi : info_of (junk i) vs = entry_of vs).
  { pose proof (Forall2_length _ _ _ H1) as Hl. rewrite H2 in Hl.
    destruct vs as [|? [|? [|? [|? [|? [|? [|]]]]]]]; done. }
  rewrite Hi. destruct (entry_of vs) as [va e] eqn:E. cbn [fold_left fst snd]. apply IH.
Qed.

(** The first record of a page wins. *)
Lemma table_insert_first l tbl : fold_left (fun tbl p => table_insert tbl p.1 p.2) l tbl = tbl ∪ list_to_map l.
Proof.
  revert tbl. induction l as [|[va e] l IH]; intros tbl; cbn [fold_left list_to_map foldr fst snd].
  - by rewrite (right_id_L ∅ (∪)).
  - rewrite IH. unfold table_insert. apply map_eq. intros j.
    unfold page_table_t in *. destruct (tbl !! va) as [e'|] eqn:E; rewrite !lookup_union; destruct (decide (j = va)) as [->|Hj];
      rewrite ?lookup_insert_eq, ?lookup_insert_ne, ?E by done; try done.
    all: by destruct (list_to_map (M := gmap Z page_table_info) l !! va).
Qed.

(** The loader on printed records, under their number. *)
Lemma load_page_table_reads junk recs vss :
  Forall2 (fun fs vs => Forall2 reads fs vs /\ length fs = 6%nat) recs vss -> Z.of_nat (length recs) < 2147483648 ->
  load_page_table junk (fmt_d (Z.of_nat (length recs)) ++ NL :: unlines (map (joinc COMMA) recs)) = list_to_map (map entry_of vss).
Proof.
  intros HF Hn. unfold load_page_table, fscan_header, fscan_d. set (n := Z.of_nat (length recs)) in *.
  destruct (fmt_d_digits n ltac:(lia)) as [Hne Hd].
  assert (Hdig : Forall digit_char (fmt_d n)). { eapply Forall_impl; [exact Hd|]. intros c Hc. by apply dec_digit_facts. }
  rewrite digits_skip_spaces by done.
  pose proof (dec_run_fmt_d n (NL :: unlines (map (joinc COMMA) recs)) ltac:(lia) eq_refl) as Hrun.
  destruct (fmt_d n) as [|c t]; [done|]. pose proof (Forall_inv Hdig) as Hc. apply Forall_inv in Hd.
  cbn [app] in Hrun |- *. rewrite fscan_sign_digit by done. unfold is_dec.
  destruct (dec_digit_facts c Hd) as [[d Ed] _]. rewrite Ed, Hrun.
  assert (Hs : s32 (sat_long n) = n). { unfold sat_long. rewrite Z.min_l, Z.max_r by lia. apply s32_small. lia. }
  cbv iota beta zeta. rewrite Hs. change (skip_spaces (NL :: ?l)) with (skip_spaces l).
  rewrite (next_record_lines _ _ HF). subst n. rewrite Nat2Z.id, (load_records_reads _ _ _ _ _ HF), table_insert_first.
  apply (left_id_L ∅ (∪)).
Qed.

(** ** The host's table: translator, augmentor, loader *)

(** A field and what the augmentor made of it. *)
Definition fills (fresh : list Z) (f g : text) : Prop :=
  (f <> NAN /\ g = f) \/ (f = NAN /\ exists p, p ∈ fresh /\ g = fmt_lx p).

Lemma fills_mono fresh p f g : fills fresh f g -> fills (p :: fresh) f g.
Proof. intros [H|(H & q & Hq & E)]; [by left|right]. split; [done|]. exists q. split; [by right|done]. Qed.

Lemma filled_fills fs fresh gs : filled fs fresh gs -> Forall2 (fills fresh) fs gs.
Proof.
  induction 1 as [|f fs ps gs Hf _ IH|fs p ps gs _ IH]; constructor.
  - by left.
  - done.
  - right. split; [done|]. exists p. split; [by left|done].
  - eapply Forall2_impl; [exact IH|]. intros f g. apply fills_mono.
Qed.

Lemma filled_lines lines outs fresh : Forall2 same_record lines outs -> filled (concat (map (@tl text) lines)) fresh (concat (map (@tl text) outs)) ->
  Forall2 (fun fs gs => hd [] gs = hd [] fs /\ length gs = length fs /\ Forall2 (fills fresh) (tl fs) (tl gs)) lines outs.
Proof.
  intros HS HF%filled_fills. induction HS as [|fs gs lines outs [H1 H2] HS IH]; [constructor|]. cbn [map concat] in HF.
  apply Forall2_app_inv in HF as [Ht HF]; [|by destruct fs, gs; cbn in *; lia]. constructor; [done|by apply IH].
Qed.

(** The levels of a chain, and the word the simulator has for each: the
    translator's frame, or for a missing one a frame that the dump does not
    name. *)
Definition chain_frames (ch : chain) : list Z := [chain_pfn1 ch; chain_pfn2 ch; chain_pfn3 ch; chain_pfn4 ch; chain_pfn5 ch].
Definition frames_of (e : page_table_info) : list Z := [PE1 e; PE2 e; PE3 e; PE4 e; PA e].
Definition completes (used : list Z) (v w : Z) : Prop := if v =? INVALID_PFN then w ∉ used else w = u64 v.

Lemma fills_reads fresh used v g : (forall p, p ∈ fresh -> p ∉ used) -> Forall (fun p => 0 <= p < w64) fresh ->
  fills fresh (fmt_field v) g -> exists w, reads g w /\ completes used v w.
Proof.
  intros Hu Hr. unfold fills, fmt_field, completes. destruct (v =? INVALID_PFN).
  - intros [[H _]|(_ & p & Hp & ->)]; [done|]. exists p. rewrite Forall_forall in Hr. split; [|by apply Hu].
    rewrite <- (u64_small p) at 2 by (by apply Hr). apply reads_fmt_lx.
  - intros [[_ ->]|[H _]]; [|by apply fmt_lx_not_nan in H]. exists (u64 v). split; [apply reads_fmt_lx|done].
Qed.

Lemma Forall2_choose {A B C} (Q : B -> C -> Prop) (R : A -> C -> Prop) l k :
  Forall2 (fun a b => exists c, Q b c /\ R a c) l k -> exists cs, Forall2 Q k cs /\ Forall2 R l cs.
Proof.
  induction 1 as [|a b l k (c & H1 & H2) _ (cs & H3 & H4)]; [by exists []|]. exists (c :: cs). split; by constructor.
Qed.

(** The line of a frame, and the record loaded for it. *)
Definition loads (used : list Z) (p : Z) (ch : chain) (q : Z * page_table_info) : Prop :=
  q.1 = u64 (Z.shiftl p 12) /\ Forall2 (completes used) (chain_frames ch) (frames_of q.2).

Lemma raw_fields_load fresh used p ch gs : (forall p, p ∈ fresh -> p ∉ used) -> Forall (fun p => 0 <= p < w64) fresh ->
  hd [] gs = hd [] (raw_fields p ch) -> length gs = length (raw_fields p ch) -> Forall2 (fills fresh) (tl (raw_fields p ch)) (tl gs) ->
  exists vs, (Forall2 reads gs vs /\ length gs = 6%nat) /\ loads used p ch (entry_of vs).
Proof.
  intros Hu Hr Hh Hl HF. destruct gs as [|g gs]; [done|]. cbn [hd tl raw_fields] in *.
  assert (Hx : exists ws, Forall2 reads gs ws /\ Forall2 (completes used) (chain_frames ch) ws).
  { apply Forall2_choose. unfold raw_fields in HF. cbn [tl] in HF. change (map fmt_field _) with (map fmt_field (chain_frames ch)) in HF.
    eapply Forall2_impl; [exact (proj1 (Forall2_fmap_l fmt_field (fills fresh) (chain_frames ch) gs) HF)|]. intros v g'. by apply fills_reads. }
  destruct Hx as (ws & Hw & Hc). pose proof (Forall2_length _ _ _ Hc) as H5.
  exists (u64 (Z.shiftl p 12) :: ws). split.
  - split; [|done]. constructor; [|done]. subst g. rewrite <- (u64_idemp (Z.shiftl p 12)) at 2. apply reads_fmt_lx.
  - destruct ws as [|? [|? [|? [|? [|? [|]]]]]]; done.
Qed.

Section HostLoad.
Context `{K : KernelPT} (hm : memory) (c : config) (mm : mm_struct).
#[local] Abbreviation raw known := (host_records hm c mm known).
#[local] Abbreviation used known := (collected (concat (map (@tl text) (raw known)))).
#[local] Abbreviation chain_of p := (pt_chain (translation_of hm c (Some mm) p)).

Lemma augmented_lines known (outs : list (list text)) fresh :
  Forall2 same_record (raw known) outs -> filled (concat (map (@tl text) (raw known))) fresh (concat (map (@tl text) outs)) ->
  (forall p, p ∈ fresh -> p ∉ used known) -> Forall (fun p => 0 <= p < w64) fresh ->
  exists vss, Forall2 (fun fs vs => Forall2 reads fs vs /\ length fs = 6%nat) outs vss /\
    Forall2 (fun p q => loads (used known) p (chain_of p) q) known (map entry_of vss).
Proof using.
  intros HS HF Hu Hr. pose proof (filled_lines _ _ _ HS HF) as HL. unfold host_records in HL. rewrite Forall2_fmap_l in HL.
  destruct (Forall2_choose (fun fs vs => Forall2 reads fs vs /\ length fs = 6%nat)
              (fun p vs => loads (used known) p (chain_of p) (entry_of vs)) known outs) as (vss & H1 & H2).
  { eapply Forall2_impl; [exact HL|]. intros p gs (A & B & C). by eapply raw_fields_load. }
  exists vss. split; [done|]. by apply Forall2_fmap_r.
Qed.

Lemma loads_keys known l : Forall2 (fun p q => loads (used known) p (chain_of p) q) known l -> Forall (fun p => 0 <= p < 2 ^ 52) known ->
  map fst l = map (fun p => p * 4096) known.
Proof using.
  generalize (used known). intros us HF. induction HF as [|p q ps l [H1 _] HF IH]; intros Hr; [done|]. inversion_clear Hr as [|? ? Hp Hr'].
  cbn [map]. rewrite IH by done. f_equal. rewrite H1, shiftl_mul by lia. apply u64_small. lia.
Qed.
End HostLoad.

(** C13. The host's table in the simulator is the translator's, completed.
    Augmenting the records that the translator prints for the frames [known] and
    loading the result gives an entry for each of these frames and for no other;
    in the entry, each level that the translator found is that level's frame, and
    each level it did not find is a frame that no level of the dump uses. *)
Theorem augmented_table_loads `{K : KernelPT} (hm : memory) (c : config) (mm : mm_struct)
    (entries_alloc pfns_alloc gaps_alloc : Z -> bool) (header out_name : text) (known : list Z) (junk : nat -> Z * Z) :
  (forall k, entries_alloc k = true) -> (forall k, pfns_alloc k = true) -> (forall k, gaps_alloc k = true) ->
  no_char NL header -> (length header < 4095)%nat -> 32 * Z.of_nat (length known) < 2 ^ 29 ->
  Forall (fun p => 0 <= p < 2 ^ 52) known ->
  let raw := host_records hm c mm known in
  let used := collected (concat (map (@tl text) raw)) in
  countb is_nan (concat (map (@tl text) raw)) <= Z.of_nat (length (gaps (known_pfns used))) <= 1000000000 ->
  exists file log,
    Augmentor.main entries_alloc pfns_alloc gaps_alloc (S (length known)) true
      (Some (header ++ NL :: unlines (map (joinc COMMA) raw))) true out_name =
      Some (Val {| exit_code := 0; out_file := Some file; std_out := log |}) /\
    forall a, match load_page_table junk file !! a with
              | Some e => exists p, p ∈ known /\ a = p * 4096 /\
                  Forall2 (completes used) (chain_frames (pt_chain (translation_of hm c (Some mm) p))) (frames_of e)
              | None => forall p, p ∈ known -> a <> p * 4096
              end.
Proof.
  intros A1 A2 A3 Hnl Hh Hn Hr raw used Hfree.
  destruct (augment_lines entries_alloc pfns_alloc gaps_alloc header out_name raw (S (length known)) A1 A2 A3 Hnl Hh)
    as (outs & fresh & log & E & HS & HF & _ & Hfresh & Hrange); try done.
  { apply host_records_ok. } { unfold raw. by rewrite length_host_records. } { unfold raw. rewrite length_host_records. lia. }
  destruct (augmented_lines hm c mm known outs fresh HS HF Hfresh Hrange) as (vss & HR & HL).
  assert (Hlen : length raw = length outs) by (by eapply Forall2_length).
  assert (Hlk : length raw = length known) by apply length_host_records.
  eexists _, log. split; [exact E|]. cbn [app]. rewrite Hlen, (load_page_table_reads junk outs vss HR) by lia.
  pose proof (loads_keys hm c mm known _ HL Hr) as Hk. intros a.
  destruct (list_to_map (map entry_of vss) !! a) as [e|] eqn:Ea.
  - apply elem_of_list_to_map_2, list_elem_of_lookup_1 in Ea as [i Ei].
    destruct (Forall2_lookup_r _ _ _ _ _ HL Ei) as (p & Ep & H1 & H2). exists p. split; [by eapply list_elem_of_lookup_2|].
    split; [|exact H2]. rewrite Forall_lookup in Hr. specialize (Hr i p Ep). cbn in H1. rewrite H1, shiftl_mul by lia. apply u64_small. lia.
  - apply not_elem_of_list_to_map in Ea. intros p Hp ->. apply Ea. change (p * 4096 ∈ map fst (map entry_of vss)). rewrite Hk.
    apply (list_elem_of_fmap_2 (fun p => p * 4096)), Hp.
Qed.

(** Three frames, one in a huge page and two of which lack levels. *)
Definition small_known : list Z := [5; 512; 520192].

Lemma augmented_table_loads_witness :
  let raw := host_records qemu_memory qemu_config qemu_mm_demo small_known in
  let used := collected (concat (map (@tl text) raw)) in
  exists file log,
    Augmentor.main always always always 4 true
      (Some (s2l "0" ++ NL :: unlines (map (joinc COMMA) raw))) true (s2l "out") =
      Some (Val {| exit_code := 0; out_file := Some file; std_out := log |}) /\
    forall a, match load_page_table (fun _ => (0, 0)) file !! a with
              | Some e => exists p, p ∈ small_known /\ a = p * 4096 /\
                  Forall2 (completes used) (chain_frames (pt_chain (translation_of qemu_memory qemu_config (Some qemu_mm_demo) p))) (frames_of e)
              | None => forall p, p ∈ small_known -> a <> p * 4096
              end.
Proof.
  apply (augmented_table_loads qemu_memory qemu_config qemu_mm_demo always always always (s2l "0") (s2l "out") small_known (fun _ => (0, 0))).
  - done.
  - done.
  - done.
  - repeat constructor; discriminate.
  - cbn. lia.
  - vm_compute. reflexivity.
  - repeat constructor; lia.
  - vm_compute. split; discriminate.
Defined.

(** ** The guest's table: dumper, true record count, loader *)

Section GuestLoad.
Context `{KL : KernelPTLaws} (UL : ulong_frames K).
Context {T : Type} (find_task : Z -> option T) (task_mm : T -> option Z) (m : memory) (g : globals) (root : Z).
#[local] Abbreviation page a := (page_line m (normal_ops m) root a).

Definition entry_line (p : Z * page_table_info) : text := record (fst p) (frames_of (snd p)).
Definition printed (p : Z * page_table_info) : Prop := page (fst p) = entry_line p ++ [NL] /\ ulongs (frames_of (snd p)).

Lemma page_entry a : GuestDump.mapped m (normal_ops m) root a -> exists e, printed (a, e).
Proof using UL.
  intros Hm. destruct (page_line_record UL m root a Hm) as (fs & E & HU & Hl).
  destruct fs as [|f1 [|f2 [|f3 [|f4 [|f5 [|]]]]]]; try done.
  by exists {| PE1 := f1; PE2 := f2; PE3 := f3; PE4 := f4; PA := f5 |}.
Qed.

Lemma page_entries vas : (forall a, a ∈ vas -> GuestDump.mapped m (normal_ops m) root a) ->
  exists l, map fst l = vas /\ Forall printed l /\
    concat (map (fun a => page a) vas) = unlines (map entry_line l).
Proof using UL.
  clear KL find_task task_mm T g. induction vas as [|a vas IH]; intros Hm; [by exists []|].
  destruct (page_entry a) as [e He]; [apply Hm; set_solver|]. destruct IH as (l & <- & HF & E); [set_solver|].
  exists ((a, e) :: l). split; [done|]. split; [by constructor|]. cbn [map concat]. destruct He as [He _]. cbn [fst] in He.
  unfold unlines in *. cbn [map concat fst]. by rewrite E, He.
Qed.

Lemma entry_line_reads p : 0 <= p.1 < w64 -> printed p ->
  exists vs, entry_line p = joinc COMMA (fmt_016lx p.1 :: map fmt_lx (frames_of p.2)) /\
    (Forall2 reads (fmt_016lx p.1 :: map fmt_lx (frames_of p.2)) vs /\
     length (fmt_016lx p.1 :: map fmt_lx (frames_of p.2)) = 6%nat) /\ entry_of vs = p.
Proof using.
  clear. destruct p as [a e]. cbn [fst snd]. intros Ha [_ HU]. exists (a :: frames_of e). split; [done|]. split; [split; [|done]|by destruct e].
  constructor; [rewrite <- (u64_small a) at 2 by done; apply reads_fmt_016lx|].
  apply Forall2_fmap_l. eapply Forall_Forall2_diag, Forall_impl; [exact HU|]. intros v Hv. unfold compose.
  rewrite <- (u64_small v) at 2 by done. apply reads_fmt_lx.
Qed.

Lemma entries_load junk l : Forall (fun p => 0 <= p.1 < w64) l -> Forall printed l -> Z.of_nat (length l) < 2147483648 ->
  load_page_table junk (fmt_d (Z.of_nat (length l)) ++ NL :: unlines (map entry_line l)) = list_to_map l.
Proof using.
  clear. intros Hr HF Hn.
  assert (Hx : exists recs vss, length recs = length l /\ map entry_line l = map (joinc COMMA) recs /\ map entry_of vss = l /\
                 Forall2 (fun fs vs => Forall2 reads fs vs /\ length fs = 6%nat) recs vss).
  { clear Hn. induction Hr as [|p l Hp Hr IH]; [by exists [], []|]. inversion_clear HF as [|? ? H1 H2].
    destruct (IH H2) as (recs & vss & L & E1 & E2 & HR). destruct (entry_line_reads p Hp H1) as (vs & E3 & HR' & E4).
    eexists (_ :: recs), (vs :: vss). cbn [map length]. rewrite E1, E2, E3, E4, L. split; [done|]. split; [done|]. split; [done|]. by constructor. }
  destruct Hx as (recs & vss & L & E1 & E2 & HR). rewrite E1, <- L, (load_page_table_reads junk recs vss HR) by lia. by rewrite E2.
Qed.

Lemma entry_lines l : lines_of (unlines (map entry_line l)) = (map entry_line l, []).
Proof using.
  clear. pose proof (records_lines (map (fun p => (fst p, frames_of (snd p))) l)) as H. by rewrite map_map in H.
Qed.

(** C23. The guest's table in the simulator is the guest's.  Reading the
    module's file in user-space mode and putting the number of its records in
    place of its header, as the driver script does, gives a file that loads to
    an entry for each mapped page and no other, whose frames are the ones that
    the walker prints for the page. *)
Theorem guest_table_loads (junk : nat -> Z * Z) (fuel : nat) :
  is_userspace_mode g = true -> get_mm_from_pid find_task task_mm (selected_pid g) = Some root ->
  frames_nonzero m (normal_ops m) -> TASK_SIZE_MAX <= PAGE_SIZE * Z.of_nat fuel ->
  exists body, seq_pass find_task task_mm m fuel g 0 0 = Some (0, fmt_16d (selected_pid g) ++ NL :: body) /\
    let n := Z.of_nat (length (fst (lines_of body))) in
    n < 2147483648 ->
    forall a, match load_page_table junk (fmt_d n ++ NL :: body) !! a with
              | Some e => (0 <= a < TASK_SIZE_MAX /\ (PAGE_SIZE | a)) /\ page a = record a (frames_of e) ++ [NL]
              | None => 0 <= a < TASK_SIZE_MAX -> (PAGE_SIZE | a) -> page a = []
              end.
Proof using KL UL.
  intros Hmode Hmm FN Hf. pose proof task_size as Hts.
  destruct (user_pass find_task task_mm m g root Hmode Hmm FN fuel 0) as (vas & HE & _ & HV); [lia|apply Z.divide_0_r|lia|].
  destruct (page_entries vas) as (l & Hv & HF & E); [intros a Ha; by apply HV|].
  rewrite HE. cbn [Z.eqb]. exists (unlines (map entry_line l)). rewrite <- app_assoc. cbn [app]. rewrite <- E. split; [done|].
  rewrite E, entry_lines. cbn [fst]. rewrite length_map. intros Hn a. rewrite (entries_load junk l); [|..|done|done].
  2:{ apply Forall_forall. intros p Hp. assert (Hin : p.1 ∈ vas) by (rewrite <- Hv; by apply list_elem_of_fmap_2).
      apply HV in Hin as [Hin _]. pose proof pgdir_size. lia. }
  destruct (list_to_map l !! a) as [e|] eqn:Ea.
  - apply elem_of_list_to_map_2 in Ea. rewrite Forall_forall in HF. destruct (HF _ Ea) as [Hp _].
    assert (Hin : a ∈ vas) by (rewrite <- Hv; by apply (list_elem_of_fmap_2 fst _ (a, e))).
    apply HV in Hin as (H1 & H2 & _). done.
  - apply not_elem_of_list_to_map in Ea. intros Ha Hdiv. destruct (decide (page a = [])) as [|Hm]; [done|].
    exfalso. apply Ea. change (a ∈ map fst l). rewrite Hv. by apply HV.
Qed.
End GuestLoad.

Lemma guest_table_loads_witness :
  exists body, seq_pass (fun _ => Some tt) (fun _ => Some demo_root) demo_memory (Z.to_nat 34359738368) demo_globals 0 0 =
      Some (0, fmt_16d 4242 ++ NL :: body) /\
    let n := Z.of_nat (length (fst (lines_of body))) in
    n < 2147483648 ->
    forall a, match load_page_table (fun _ => (0, 0)) (fmt_d n ++ NL :: body) !! a with
              | Some e => (0 <= a < TASK_SIZE_MAX /\ (PAGE_SIZE | a)) /\
                          page_line demo_memory (normal_ops demo_memory) demo_root a = record a (frames_of e) ++ [NL]
              | None => 0 <= a < TASK_SIZE_MAX -> (PAGE_SIZE | a) -> page_line demo_memory (normal_ops demo_memory) demo_root a = []
              end.
Proof.
  apply (guest_table_loads x86_ulong_frames (fun _ => Some tt) (fun _ => Some demo_root) demo_memory demo_globals demo_root
           (fun _ => (0, 0)) (Z.to_nat 34359738368)); [done|done|exact demo_frames|].
  rewrite Z2Nat.id; vm_compute; congruence.
Defined.
