(* ===== verification/SimSpec.v ===== *)
(** * The simulator runs to the end

    The invariant of [cache_simulator_t]: threads have cores, TLBs and caches
    are well formed, and the table of walks counts the walks.  Every reference
    keeps it, so a trace is simulated without a failed assertion or an access
    outside an array. *)
From S2P Require Import Prelude CText CachingDevice CachingProof CacheRequest CacheSpec Tlb PageWalk WalkProof WalkSpec.

(** ** Threads and cores *)

Definition threads_on (m : gmap Z nat) (core : nat) : Z := Z.of_nat (base.size (filter (fun p => p.2 = core) m)).

Record sched_ok (n : nat) (sc : sched_t) : Prop := {
  so_length : length (thread_counts sc) = n;
  so_cores : forall t core, thread2core sc !! t = Some core -> (core < n)%nat;
  so_counts : forall core x, thread_counts sc !! core = Some x -> x = threads_on (thread2core sc) core;
  so_last_core : (last_core sc < n)%nat;
  so_last : last_thread sc <> 0 -> thread2core sc !! last_thread sc = Some (last_core sc)
}.

Lemma threads_on_insert m t core c : m !! t = None ->
  threads_on (<[t := core]> m) c = threads_on m c + if decide (core = c) then 1 else 0.
Proof.
  intros E. unfold threads_on. rewrite map_filter_insert. cbn [snd]. case_decide.
  - rewrite map_size_insert_None; [lia|]. apply map_lookup_filter_None. by left.
  - rewrite delete_id by done. lia.
Qed.

Lemma threads_on_delete m t core c : m !! t = Some core ->
  threads_on (base.delete t m) c = threads_on m c - if decide (core = c) then 1 else 0.
Proof.
  intros E. rewrite <- (insert_delete_id m t core E) at 2. rewrite threads_on_insert by apply lookup_delete_eq. lia.
Qed.

Lemma threads_on_pos m t core : m !! t = Some core -> 0 < threads_on m core.
Proof.
  intros E. pose proof (threads_on_delete m t core core E) as H. rewrite decide_True in H by done.
  assert (0 <= threads_on (base.delete t m) core) by apply Zle_0_nat. lia.
Qed.

Lemma emptiest_bound counts i min core n : (core < n)%nat -> (i + length counts <= n)%nat -> (emptiest_from counts i min core < n)%nat.
Proof.
  revert i min core. induction counts as [|c counts IH]; intros i min core Hc Hi; cbn [emptiest_from length] in *; [done|].
  case_match; apply IH; lia.
Qed.

Lemma core_of_ok n sc t sc' core : sched_ok n sc -> (0 < n)%nat -> t <> 0 -> core_of sc t = (sc', core) ->
  sched_ok n sc' /\ (core < n)%nat /\ thread2core sc' !! t = Some core.
Proof.
  intros [H1 H2 H3 H4 H5] Hn Ht. unfold core_of. destruct (Z.eqb_spec t (last_thread sc)) as [->|Hne].
  { intros [= <- <-]. split; [by constructor|]. auto. }
  unfold core_for_thread. destruct (thread2core sc !! t) as [c|] eqn:E.
  - intros [= <- <-]. split; [|by eauto]. constructor; cbn; eauto.
  - set (c := find_emptiest_core (thread_counts sc)). intros [= <- <-].
    assert (Hc : (c < n)%nat) by (apply emptiest_bound; lia).
    split; [|split; [done|apply lookup_insert_eq]]. constructor; cbn.
    + by rewrite length_alter.
    + intros t' c'. rewrite lookup_insert_Some. intros [[_ <-]|[_ Hc']]; [done|by eapply H2].
    + intros c' x Hx. rewrite threads_on_insert by done. destruct (decide (c = c')) as [->|Hcc].
      * rewrite list_lookup_alter_eq in Hx. destruct (thread_counts sc !! c') as [y|] eqn:Ey; [|done]. injection Hx as <-.
        rewrite (H3 _ _ Ey). lia.
      * rewrite list_lookup_alter_ne in Hx by done. rewrite (H3 _ _ Hx). lia.
    + done.
    + intros _. apply lookup_insert_eq.
Qed.

Lemma exit_ok n sc t core : sched_ok n sc -> thread2core sc !! t = Some core ->
  exists sc', handle_thread_exit sc t = Ret sc' /\ sched_ok n (forget_thread sc').
Proof.
  intros [H1 H2 H3 H4 H5] E. unfold handle_thread_exit. rewrite E. cbn [or_abort mbind outcome_bind].
  destruct (lookup_lt_is_Some_2 (thread_counts sc) core) as [x Ex]; [rewrite H1; by eapply H2|].
  rewrite Ex. cbn [or_abort mbind outcome_bind]. pose proof (H3 _ _ Ex) as Hx. pose proof (threads_on_pos _ _ _ E).
  rewrite (proj2 (Z.ltb_lt 0 x)) by lia. eexists. split; [done|]. constructor; cbn.
  - by rewrite length_insert.
  - intros t' c' Hc'. apply lookup_delete_Some in Hc' as [_ Hc']. by eapply H2.
  - intros c' y Hy. rewrite (threads_on_delete _ _ core) by done. destruct (decide (core = c')) as [->|Hcc].
    + rewrite list_lookup_insert_eq in Hy by (by eapply lookup_lt_Some). injection Hy as <-. lia.
    + rewrite list_lookup_insert_ne in Hy by done. rewrite (H3 _ _ Hy). lia.
  - done.
  - done.
Qed.

Lemma new_sched_ok n : (0 < n)%nat -> sched_ok n (new_sched n).
Proof.
  intros Hn. constructor; cbn; [apply length_replicate|done| |done|done].
  intros core x Hx. apply lookup_replicate in Hx as [-> _]. done.
Qed.

(** ** The TLB simulator *)

Definition core_tlbs_ok (k : knobs_t) (s : store) : Prop :=
  tlbs_ok s /\ length s = 3%nat /\ forall d v, s !! d = Some v -> block_size_bits (cfg v) = compute_log2 (page_size k).
Record tlb_sim_ok (k : knobs_t) (ts : tlb_sim_t) : Prop := {
  to_sched : sched_ok (num_cores k) (ts_sched ts);
  to_cores : length (ts_tlbs ts) = num_cores k;
  to_tlbs : Forall (core_tlbs_ok k) (ts_tlbs ts)
}.

(** What is asked of a reference: of an access, an address, and that it does not
    wrap around the address space; of all, a thread (0 stands for none), and no
    flush when the caches are FIFO. *)
Definition accesses (m : memref_t) : bool := is_instr m || is_data m.
Definition is_flush (t : Z) : bool := (t =? TRACE_TYPE_INSTR_FLUSH) || (t =? TRACE_TYPE_DATA_FLUSH).
Record ref_ok (k : knobs_t) (m : memref_t) : Prop := {
  ro_mem : accesses m = true -> mem_ok m;
  ro_pages : accesses m = true -> Z.shiftr (addr m) (compute_log2 (page_size k)) <= Z.shiftr (final_addr m) (compute_log2 (page_size k));
  ro_tid : tid m <> 0;
  ro_flush : replace_policy k = FIFO -> is_flush (type m) = false
}.

Lemma reset_device_view v : cfg (reset_device v) = cfg v /\ entries (reset_device v) = entries v /\ tags (reset_device v) = tags v.
Proof. done. Qed.

Lemma reset_tlbs_ok s : tlbs_ok s -> tlbs_ok (map reset_device s).
Proof.
  intros Hs d v E. change (map reset_device s) with (reset_device <$> s) in *. rewrite list_lookup_fmap in E.
  destruct (s !! d) as [w|] eqn:Ew; [|done]. injection E as <-. destruct (Hs d w Ew) as [Hw Hpar].
  split; [by apply set_stats_tlb|]. intros p Hp. destruct (Hpar p Hp) as (Hlt & u & Eu & Hb). split; [done|].
  exists (reset_device u). by rewrite list_lookup_fmap, Eu.
Qed.

Lemma reset_core_tlbs k s : core_tlbs_ok k s -> core_tlbs_ok k (map reset_device s).
Proof.
  intros (H1 & H2 & H3). split; [by apply reset_tlbs_ok|]. split; [by rewrite length_map|]. intros d v E.
  change (map reset_device s) with (reset_device <$> s) in *. rewrite list_lookup_fmap in E.
  destruct (s !! d) as [w|] eqn:Ew; [|done]. injection E as <-. exact (H3 d w Ew).
Qed.

Lemma tlb_count_ok k ts : tlb_sim_ok k ts -> tlb_sim_ok k (tlb_count_ref ts).
Proof.
  intros [H1 H2 H3]. unfold tlb_count_ref. case_match; [|by constructor]. case_match; [|by constructor].
  constructor; cbn; [done|by rewrite length_map|]. apply Forall_map. eapply Forall_impl; [exact H3|]. intros s. apply reset_core_tlbs.
Qed.

Lemma set_tlbs_ok k ts sc : tlb_sim_ok k ts -> sched_ok (num_cores k) sc -> tlb_sim_ok k (set_tlbs ts sc (ts_tlbs ts)).
Proof. intros [H1 H2 H3] H. by constructor. Qed.

Lemma tlb_lookup_ok k ts core d m : tlb_sim_ok k ts -> (core < num_cores k)%nat -> (d < 3)%nat -> ref_ok k m -> accesses m = true ->
  exists ts' b, tlb_lookup ts core d m = Ret (ts', b) /\ tlb_sim_ok k ts'.
Proof.
  intros [H1 H2 H3] Hc Hd [R1 R2 _ _] Ha. unfold tlb_lookup.
  destruct (lookup_lt_is_Some_2 (ts_tlbs ts) core ltac:(lia)) as [s E]. rewrite E. cbn [or_abort mbind outcome_bind].
  destruct (proj1 (Forall_lookup _ _) H3 core s E) as (K1 & K2 & K3).
  destruct (tlb_run_ok (compute_log2 (page_size k)) [(d, m)] s K1 K2 K3) as (s' & Er & S1 & S2 & S3); [apply Forall_singleton; split; auto|].
  cbn [tlb_run] in Er. destruct (tlb_request 3 s d m) as [[s1 b]| |]; try done. cbn [mbind outcome_bind] in Er. injection Er as ->.
  eexists _, b. split; [reflexivity|]. constructor; cbn; [done|by rewrite length_insert|]. by apply Forall_insert.
Qed.

Lemma tlb_process_ok k ts m : (0 < num_cores k)%nat -> tlb_sim_ok k ts -> ref_ok k m ->
  exists ts' b, tlb_process ts m = Ret (ts', b) /\ tlb_sim_ok k ts'.
Proof.
  intros Hn Ht Hm. unfold tlb_process. case_match; [eexists _, _; split; [done|]; destruct Ht; by constructor|].
  case_match; [by eexists _, _|]. case_match; [by eexists _, _|]. clear H H0 H1.
  destruct (core_of (ts_sched ts) (tid m)) as [sc core] eqn:Ec.
  destruct (core_of_ok (num_cores k) (ts_sched ts) (tid m) sc core (to_sched _ _ Ht) Hn (ro_tid _ _ Hm) Ec) as (Hs & Hcore & Et).
  cbv zeta. pose proof (set_tlbs_ok k ts sc Ht Hs) as Ht'. set (ts1 := set_tlbs ts sc (ts_tlbs ts)) in *.
  assert (HL : forall d, (d < 3)%nat -> accesses m = true -> exists ts' b,
            ('(ts, found) ← tlb_lookup ts1 core d m; Ret (tlb_count_ref ts, found)) = Ret (ts', b) /\ tlb_sim_ok k ts').
  { intros d Hd Ha. destruct (tlb_lookup_ok k ts1 core d m Ht' Hcore Hd Hm Ha) as (ts' & b & -> & Hts).
    eexists _, b. split; [reflexivity|]. by apply tlb_count_ok. }
  destruct (type_is_instr (type m)) eqn:Hi; [apply HL; [lia|]; unfold accesses, is_instr; by rewrite Hi|].
  destruct ((type m =? TRACE_TYPE_READ) || (type m =? TRACE_TYPE_WRITE)) eqn:Hrw; [apply HL; [lia|]; unfold accesses, is_data; by rewrite Hrw, orb_true_r|].
  case_match.
  - destruct (exit_ok _ _ (tid m) core Hs Et) as (sc' & Ex & Hs'). cbn [ts_sched ts1 set_tlbs].
    rewrite Ex. cbn [mbind outcome_bind]. eexists _, _. split; [reflexivity|]. apply tlb_count_ok. by apply (set_tlbs_ok k ts1).
  - case_match; eexists _, _; (split; [reflexivity|]); [by apply tlb_count_ok|done].
Qed.

(** ** The statistic *)

Definition stat_total (hm : gmap (list Z) Z) : Z := map_fold (fun _ n acc => n + acc) 0 hm.

Lemma stat_total_insert hm key n : hm !! key = None -> stat_total (<[key := n]> hm) = n + stat_total hm.
Proof. intros E. unfold stat_total. apply map_fold_insert_L; [|done]. intros. lia. Qed.

Lemma count_walk_total hm key : 0 <= stat_total hm < w64 - 1 -> (forall j n, hm !! j = Some n -> 0 <= n) ->
  stat_total (count_walk hm key) = stat_total hm + 1 /\ (forall j n, count_walk hm key !! j = Some n -> 0 <= n).
Proof.
  intros Hb Hn. split.
  2:{ intros j n. unfold count_walk. rewrite lookup_insert_Some. intros [[_ <-]|[_ E]]; [|by eapply Hn].
      case_match; [apply u64_bound|lia]. }
  unfold count_walk. destruct (hm !! key) as [n|] eqn:E.
  - assert (Ht : stat_total hm = n + stat_total (base.delete key hm)).
    { rewrite <- (insert_delete_id hm key n E) at 1. apply stat_total_insert, lookup_delete_eq. }
    assert (Hd : 0 <= stat_total (base.delete key hm)).
    { unfold stat_total. apply (map_fold_weak_ind (fun r m => (forall j n, m !! j = Some n -> 0 <= n) -> 0 <= r)); [lia| |].
      - intros j x m r Hm IH Hall. assert (0 <= x) by (apply (Hall j); apply lookup_insert_eq).
        assert (0 <= r); [|lia]. apply IH. intros j' y Hy. apply (Hall j'). rewrite lookup_insert_ne; [done|]. congruence.
      - intros j x Hx. apply lookup_delete_Some in Hx as [_ Hx]. by eapply Hn. }
    pose proof (Hn key n E). rewrite u64_small by lia.
    rewrite <- (insert_delete_eq hm), stat_total_insert by apply lookup_delete_eq. lia.
  - rewrite stat_total_insert by done. lia.
Qed.

(** ** The simulator *)

Record sim_ok (k : knobs_t) (st : sim_t) : Prop := {
  so_caches : walk_store k (caches st);
  so_tlbs : tlb_sim_ok k (tlb_sim st);
  so_sched : sched_ok (num_cores k) (sched st)
}.

(** Without a warm-up the statistic holds one entry per walk, and the walks and
    the references without a translation are at most [n]. *)
Record accounts (n : Z) (st : sim_t) : Prop := {
  ac_cold : warmup_refs st = 0 /\ is_warmed_up st = false;
  ac_nonneg : 0 <= num_not_found st /\ 0 <= vt_num_not_found st /\ 0 <= num_range_found st;
  ac_values : forall key x, hm_full_statistic st !! key = Some x -> 0 <= x;
  ac_total : stat_total (hm_full_statistic st) = num_range_found st;
  ac_bound : num_not_found st + vt_num_not_found st + num_range_found st <= n
}.

Lemma accounts_mono n n' st : n <= n' -> accounts n st -> accounts n' st.
Proof. intros Hn []. constructor; (done || lia). Qed.

Lemma walk_run_op k s o : walk_store k s -> op_ok s o -> exists s', run_op (length s + 2) s o = Ret s' /\ walk_store k s'.
Proof.
  intros [Hok (s0 & E0 & Hc)] Ho. destruct (run_op_ok s o Hok Ho) as (s' & E & Hok' & Hc'). exists s'. split; [done|].
  constructor; [done|]. exists s0. split; [done|]. intros j. by rewrite Hc'.
Qed.

Lemma walk_request_op k s d m : walk_store k s -> (d < length s)%nat -> mem_ok m ->
  exists s' r, cache_request s d m = Ret (s', r) /\ walk_store k s'.
Proof.
  intros Hw Hd Hm. destruct (walk_run_op k s (Request d m) Hw) as (s' & E & Hw'); [done|]. unfold cache_request. cbn [run_op] in E.
  destruct (request (length s + 2) s d m) as [[s1 r]| |]; try done. injection E as <-. by eexists _, _.
Qed.

Lemma reset_walk_store k s f : walk_store k s -> (forall i v, f i v = v \/ f i v = reset_device v) -> walk_store k (imap f s).
Proof.
  intros [[Hs Hy] (s0 & E0 & Hc)] Hf.
  assert (HL : same_store s (imap f s)).
  { intros j. rewrite list_lookup_imap. destruct (s !! j) as [w|]; [|done]. cbn.
    destruct (Hf j w) as [-> | ->]; [apply same_lines_refl|apply same_stats]. }
  constructor.
  - split; [by eapply same_store_ok|]. rewrite length_imap. by eapply same_store_synced.
  - exists s0. split; [done|]. intros j. rewrite <- Hc, list_lookup_imap. destruct (s !! j) as [v|]; [|done]. cbn.
    by destruct (Hf j v) as [-> | ->].
Qed.

Section Parts.
Context (k : knobs_t) (Hk : knobs_ok k).

(** What a part of [process_memref] leaves. *)
Record kept (st st' : sim_t) : Prop := {
  ke_ok : sim_ok k st';
  ke_request : num_request st' = num_request st
}.

Lemma core_cache_lt st core d : sim_ok k st -> (core < num_cores k)%nat -> d ∈ [l1_icache core; l1_dcache core] -> (d < length (caches st))%nat.
Proof using Hk.
  intros [H1 _ _] Hc Hd. rewrite (walk_store_length k _ Hk H1). unfold l1_icache, l1_dcache in Hd.
  rewrite !elem_of_cons in Hd. destruct Hd as [->|[->|Hd]]; [lia|lia|by apply elem_of_nil in Hd].
Qed.

Lemma set_caches_kept n st s : sim_ok k st -> walk_store k s ->
  kept st (set_caches st s) /\ (accounts n st -> accounts n (set_caches st s)).
Proof using. clear Hk. intros [H1 H2 H3] Hw. split; [by constructor|]. intros []. by constructor. Qed.
Lemma set_sched_kept n st sc : sim_ok k st -> sched_ok (num_cores k) sc ->
  kept st (set_sched st sc) /\ (accounts n st -> accounts n (set_sched st sc)).
Proof using. clear Hk. intros [H1 H2 H3] Hw. split; [by constructor|]. intros []. by constructor. Qed.

Lemma request_kept n st core d m : sim_ok k st -> (core < num_cores k)%nat -> d ∈ [l1_icache core; l1_dcache core] -> mem_ok m ->
  exists st' ok, ('(s, _) ← cache_request (caches st) d m; Ret (set_caches st s, true)) = Ret (st', ok) /\
    kept st st' /\ (accounts n st -> accounts n st').
Proof using Hk.
  intros Hst Hc Hd Hm. destruct (walk_request_op k (caches st) d m (so_caches _ _ Hst)) as (s' & r & -> & Hw); [by eapply core_cache_lt|done|].
  eexists _, _. split; [reflexivity|]. by apply set_caches_kept.
Qed.

Lemma flush_kept n st core d m : sim_ok k st -> (core < num_cores k)%nat -> d ∈ [l1_icache core; l1_dcache core] ->
  replace_policy k <> FIFO ->
  exists st' ok, (s ← flush (length (caches st) + 2) (caches st) d m; Ret (set_caches st s, true)) = Ret (st', ok) /\
    kept st st' /\ (accounts n st -> accounts n st').
Proof using Hk.
  intros Hst Hc Hd Hf. destruct (walk_run_op k (caches st) (Flush d m) (so_caches _ _ Hst)) as (s' & E & Hw).
  { split; [by eapply core_cache_lt|]. intros j v Ev. by rewrite (walk_store_policy k _ j v Hk (so_caches _ _ Hst) Ev). }
  cbn [run_op] in E. rewrite E. eexists _, _. split; [reflexivity|]. by apply set_caches_kept.
Qed.

Lemma access_caches_ok n st m core : sim_ok k st -> (core < num_cores k)%nat -> (accesses m = true -> mem_ok m) ->
  (replace_policy k = FIFO -> is_flush (type m) = false) -> thread2core (sched st) !! tid m = Some core ->
  exists st' ok, access_caches st m core = Ret (st', ok) /\ kept st st' /\ (accounts n st -> accounts n st').
Proof using Hk.
  intros Hst Hc Hm Hf Ht. unfold access_caches. cbv zeta.
  unfold accesses in Hm. destruct (is_instr m); [eapply request_kept; [done|exact Hc|set_solver|auto]|].
  destruct (is_data m); [eapply request_kept; [done|exact Hc|set_solver|auto]|].
  assert (Hfl : is_flush (type m) = true -> replace_policy k <> FIFO) by (intros H E; rewrite Hf in H; done).
  unfold is_flush in Hfl.
  destruct (type m =? TRACE_TYPE_INSTR_FLUSH); [eapply flush_kept; [done|exact Hc|set_solver|by apply Hfl]|].
  destruct (type m =? TRACE_TYPE_DATA_FLUSH); [eapply flush_kept; [done|exact Hc|set_solver|by apply Hfl]|].
  destruct (type m =? TRACE_TYPE_THREAD_EXIT).
  - destruct (exit_ok _ _ _ _ (so_sched _ _ Hst) Ht) as (sc & -> & Hs). eexists _, _. split; [reflexivity|]. by apply set_sched_kept.
  - eexists _, _. split; [reflexivity|]. split; [|done]. by constructor.
Qed.

Lemma check_warmed_up_ok n st st' b : sim_ok k st -> check_warmed_up st = (st', b) ->
  kept st st' /\ sched st' = sched st /\ tlb_sim st' = tlb_sim st /\ (accounts n st -> accounts n st' /\ b = false).
Proof using.
  clear Hk. intros [H1 H2 H3]. unfold check_warmed_up. destruct (is_warmed_up st) eqn:E1.
  { intros [= <- <-]. split; [by constructor|]. split; [done|]. split; [done|]. intros []. destruct ac_cold0. congruence. }
  destruct (0 <? warmup_refs st) eqn:E2.
  - intros [= <- <-]. split; [by constructor|]. split; [done|]. split; [done|]. intros []. destruct ac_cold0 as [H0 _]. rewrite H0 in E2. done.
  - intros [= <- <-]. split; [by constructor|]. done.
Qed.

Lemma finish_ref_ok n st : sim_ok k st -> kept st (finish_ref k st) /\ (accounts n st -> accounts n (finish_ref k st)).
Proof using.
  clear Hk. intros Hst. unfold finish_ref. destruct (is_warmed_up st) eqn:Ew.
  - split; [destruct Hst; by constructor|]. intros []. by constructor.
  - destruct (check_warmed_up st) as [st1 b] eqn:E. destruct (check_warmed_up_ok n st st1 b Hst E) as ([K1 K2] & _ & _ & Ha).
    destruct b.
    + split; [|by intros [? ?]%Ha]. constructor; [|done]. destruct K1 as [H1 H2 H3]. constructor; [|done|done]. cbn.
      apply reset_walk_store; [done|]. intros i v. case_match; auto.
    + split; [constructor; [destruct K1; by constructor|done]|]. intros [[] _]%Ha. by constructor.
Qed.

End Parts.

Section Steps.
Context (k : knobs_t) (Hk : knobs_ok k) (past : nat -> Z) (uninit : memref_t).

Lemma translate_ref_ok n st m core hit : sim_ok k st -> (core < num_cores k)%nat ->
  exists st' o, translate_ref k past uninit st m core hit = Ret (st', o) /\ kept k st st' /\ sched st' = sched st /\
    (n < w64 - 1 -> accounts n st -> accounts (n + 1) st') /\
    (forall m', o = Some m' -> type m' = type m /\ tid m' = tid m /\ (accesses m' = true -> mem_ok m')).
Proof using Hk.
  intros [H1 H2 H3] Hc. unfold translate_ref. cbv zeta.
  destruct (page_table st !! _) as [ge|].
  2:{ eexists _, _. split; [reflexivity|]. split; [by constructor|]. split; [done|]. split; [|done].
      intros Hn [A1 A2 A3 A4 A5]. constructor; cbn; rewrite ?u64_small by lia; (done || lia). }
  destruct (host_page_table st !! _) as [he|].
  2:{ eexists _, _. split; [reflexivity|]. split; [by constructor|]. split; [done|]. split; [|done].
      intros Hn [A1 A2 A3 A4 A5]. constructor; cbn; rewrite ?u64_small by lia; (done || lia). }
  set (m' := if is_instr m || is_data m then _ else m).
  assert (Hm' : type m' = type m /\ tid m' = tid m /\ (accesses m' = true -> mem_ok m')).
  { unfold m', accesses. destruct (is_instr m || is_data m) eqn:Ha; [|by rewrite Ha]. split; [done|]. split; [done|]. intros _. apply u64_bound. }
  destruct hit.
  { eexists _, _. split; [reflexivity|]. split; [by constructor|]. split; [done|]. split; [|by intros ? [= <-]].
    intros _. apply accounts_mono. lia. }
  set (va := u64 (Z.shiftl _ 12)). set (off := Z.land _ _).
  destruct (page_walk_ok k past uninit (host_page_table st) (caches st) ge he va off core Hk H1 Hc (u64_bound _))
    as (s' & evs & rs & -> & _ & _ & Hw & _). cbn [mbind outcome_bind].
  eexists _, _. split; [reflexivity|]. split; [by constructor|]. split; [done|]. split; [|by intros ? [= <-]].
  intros Hn [A1 A2 A3 A4 A5].
  destruct (count_walk_total (hm_full_statistic st) (rs ++ [RANGE_HIT])) as [T1 T2]; [rewrite A4; lia|done|].
  constructor; cbn; rewrite ?u64_small by lia; (done || lia).
Qed.
(** One reference. *)
Lemma process_memref_ok n st m : sim_ok k st -> ref_ok k m ->
  exists st' ok, process_memref k past uninit st m = Ret (st', ok) /\ sim_ok k st' /\ num_request st' = u64 (num_request st + 1) /\
    (n < w64 - 1 -> accounts n st -> accounts (n + 1) st').
Proof using Hk.
  intros Hst Hm. unfold process_memref.
  set (st0 := set_counts st (u64 (num_request st + 1)) (num_not_found st) (vt_num_not_found st) (num_range_found st)).
  assert (H0 : sim_ok k st0) by (destruct Hst; by constructor).
  assert (A0 : forall j, accounts j st -> accounts j st0) by (intros j []; by constructor).
  assert (Hstop : forall st1, sim_ok k st1 -> num_request st1 = num_request st0 -> (accounts n st0 -> accounts n st1) ->
            exists st' ok, Ret (st1, true) = Ret (st', ok) /\ sim_ok k st' /\ num_request st' = num_request st0 /\
              (n < w64 - 1 -> accounts n st -> accounts (n + 1) st')).
  { intros st1 S1 N1 C1. exists st1, true. split; [done|]. split; [done|]. split; [done|].
    intros _ Hn. apply (accounts_mono n); [lia|]. auto. }
  change (u64 (num_request st + 1)) with (num_request st0). cbv zeta.
  case_match. { apply Hstop; [destruct H0; by constructor|done|]. intros []. by constructor. }
  case_match; [by apply Hstop|].
  destruct (check_warmed_up st0) as [st1 b] eqn:Ew. destruct (check_warmed_up_ok k n st0 st1 b H0 Ew) as ([S1 N1] & E1 & E2 & C1).
  case_match; [apply Hstop; [done|done|]; by intros [? _]%C1|].
  case_match; [apply Hstop; [done|done|]; by intros [? _]%C1|].
  destruct (core_of (sched st1) (tid m)) as [sc core] eqn:Ec.
  destruct (core_of_ok (num_cores k) (sched st1) (tid m) sc core (so_sched _ _ S1) (ko_cores _ Hk) (ro_tid _ _ Hm) Ec) as (Hs & Hcore & Et).
  destruct (tlb_process_ok k (tlb_sim st1) m (ko_cores _ Hk) (so_tlbs _ _ S1) Hm) as (ts & hit & Etp & Hts).
  cbn [set_sched tlb_sim]. rewrite Etp. cbn [mbind outcome_bind].
  set (st2 := set_tlb_sim (set_sched st1 sc) ts). assert (S2 : sim_ok k st2) by (destruct S1; by constructor).
  destruct (translate_ref_ok n st2 m core hit S2 Hcore) as (st3 & o & -> & [S3 N3] & E3 & C3 & Ho).
  cbn [mbind outcome_bind].
  assert (C2 : n < w64 - 1 -> accounts n st -> accounts (n + 1) st3).
  { intros Hn Ha%A0. apply C3; [done|]. destruct (C1 Ha) as [[] _]. by constructor. }
  destruct o as [m'|].
  2:{ exists st3, true. split; [done|]. split; [done|]. split; [|done]. rewrite N3. cbn. exact N1. }
  destruct (Ho m' eq_refl) as (T1 & T2 & T3).
  destruct (access_caches_ok k Hk (n + 1) st3 m' core S3 Hcore T3) as (st4 & ok & -> & [S4 N4] & C4).
  { rewrite T1. apply Hm. } { rewrite T2, E3. exact Et. }
  cbn [mbind outcome_bind]. destruct (finish_ref_ok k (n + 1) st4 S4) as ([S5 N5] & C5).
  eexists _, ok. split; [reflexivity|]. assert (N : num_request st4 = num_request st0) by (rewrite N4, N3; exact N1).
  destruct ok; (split; [done|]); (split; [congruence|]); auto.
Qed.
End Steps.

(** ** Traces *)

(** The analyzer's loop: it ends at the first error. *)
Fixpoint simulate (k : knobs_t) (past : nat -> Z) (uninit : memref_t) (st : sim_t) (refs : list memref_t) : outcome (sim_t * bool) :=
  match refs with
  | [] => Ret (st, true)
  | m :: refs => '(st, ok) ← process_memref k past uninit st m; if (ok : bool) then simulate k past uninit st refs else Ret (st, false)
  end.

Lemma simulate_ok k past uninit refs st n : knobs_ok k -> sim_ok k st -> Forall (ref_ok k) refs -> n + Z.of_nat (length refs) < w64 ->
  exists st' ok, simulate k past uninit st refs = Ret (st', ok) /\ sim_ok k st' /\
    (accounts n st -> accounts (n + Z.of_nat (length refs)) st').
Proof.
  intros Hk. revert st n. induction refs as [|m refs IH]; intros st n Hst Hr Hn.
  - exists st, true. split; [done|]. split; [done|]. apply accounts_mono. lia.
  - apply Forall_cons in Hr as [Hm Hr]. cbn [simulate]. cbn [length] in Hn |- *.
    destruct (process_memref_ok k Hk past uninit n st m Hst Hm) as (st1 & ok & -> & S1 & _ & C1). cbn [mbind outcome_bind].
    destruct ok.
    + destruct (IH st1 (n + 1) S1 Hr ltac:(lia)) as (st' & ok & E & S2 & C2). exists st', ok. split; [done|]. split; [done|].
      intros Ha. replace (n + Z.of_nat (S (length refs))) with (n + 1 + Z.of_nat (length refs)) by lia. apply C2, C1; [lia|done].
    + exists st1, false. split; [done|]. split; [done|]. intros Ha. apply (accounts_mono (n + 1)); [lia|]. apply C1; [lia|done].
Qed.

Lemma new_sim_ok k junk junk' g h st : knobs_ok k -> new_sim k junk junk' g h = Some st ->
  sim_ok k st /\ (knob_warmup_refs k = 0 -> accounts 0 st).
Proof.
  intros Hk. unfold new_sim. destruct (create_caches k) as [s|] eqn:Ec; [|done]. cbn [mbind option_bind].
  destruct (create_tlbs _ _ _ _ _ _ _) as [tlbs|] eqn:Et; [|done]. cbn [mbind option_bind]. intros [= <-].
  pose proof (ko_sizes _ Hk) as Hs. rewrite !Forall_cons in Hs. destruct Hs as (_ & _ & _ & _ & T1 & T2 & T3 & _).
  pose proof (create_tlbs_ok _ _ _ _ _ _ _ _ T1 T2 T3 Et) as Ht. split.
  - constructor; cbn; [by apply new_walk_store| |apply new_sched_ok, Hk].
    constructor; cbn; [apply new_sched_ok, Hk|apply length_replicate|]. by apply Forall_replicate.
  - intros Hw. by constructor.
Qed.


(** A guest with the pages 0 and 0x1000, whose frames the host backs. *)
Definition small_pt : text := s2l "2
0000000000000000,1,2,3,4,6
0000000000001000,1,2,3,4,5
".
Definition small_vt_pt : text := s2l "6
1000,10,11,12,13,21
2000,10,11,12,13,22
3000,10,11,12,13,23
4000,10,11,12,13,24
5000,10,11,12,13,25
6000,10,11,12,13,26
".
Definition small_ref (t tid a n : Z) : memref_t := {| type := t; pid := 1; tid := tid; addr := a; size := n |}.
Definition small_refs : list memref_t :=
  [small_ref TRACE_TYPE_INSTR 7 0x1004 4; small_ref TRACE_TYPE_READ 7 0x1ff8 16; small_ref TRACE_TYPE_WRITE 8 0x10 8;
   small_ref TRACE_TYPE_READ 8 0x9000 8; small_ref TRACE_TYPE_MARKER 8 2 ULONG_MAX; small_ref TRACE_TYPE_DATA_FLUSH 8 0x40 64; small_ref TRACE_TYPE_THREAD_EXIT 7 0 0].
Definition small_sim : option sim_t := new_sim small_knobs (fun _ => (0, 0)) (fun _ => (0, 0)) small_pt small_vt_pt.


(** Of the seven, one is a marker, which counts and no more; one page is not in the guest's table; the second read hits the
    second-level TLB; and the flush and the exit walk for the page 0. *)
Example small_sim_counts : match small_sim with
  | None => None
  | Some st => match simulate small_knobs (fun _ => 0) no_ref st small_refs with
               | Ret (st', ok) => Some (ok, num_request st', num_not_found st', num_range_found st', base.size (hm_full_statistic st'))
               | _ => None
               end
  end = Some (true, 7, 1, 4, 2%nat).
Proof. vm_compute. reflexivity. Qed.
