(* ===== verification/VmVector.v ===== *)
(** * Vectors of address ranges (src/Simulator/core/vmareas.c)

    DynamoRIO keeps sets of address ranges, each with two words of flags and a
    payload, in a sorted array of areas that do not overlap.  This file models
    the array and every operation on it: the internal [add_vm_area],
    [remove_vm_area] and [binary_search], and the [vmvector_] interface with its
    iterator (vmareas.h says what a client may rely on).

    The array is heap memory: [buf] is [None] for NULL, a cell is [None] before
    it is first written, and an access outside of the array, or of a cell not
    written, is [Undef].  The payloads are pointers of a type [P]; what they
    point to, and the memory they come from, is a world of a type [W], which
    the client's callbacks read and change.  The model is of the release build,
    where the ASSERTs are empty and an area has no comment.  Locks and printing
    are left out; so are the lists of fragments that a vector with
    [VECTOR_FRAGMENT_LIST] keeps in place of payloads, and the coarse-grain
    units of [executable_areas]: reaching the code of either is [Undef]. *)
From S2P Require Export Prelude.

(** ** Flags *)

Definition VECTOR_SHARED : Z := 1.
Definition VECTOR_FRAGMENT_LIST : Z := 2.
Definition VECTOR_NEVER_MERGE_ADJACENT : Z := 4.
Definition VECTOR_NEVER_OVERLAP : Z := 8.
Definition VECTOR_NO_LOCK : Z := 16.
Definition VECTOR_NEVER_MERGE : Z := Z.lor VECTOR_NEVER_MERGE_ADJACENT VECTOR_NEVER_OVERLAP.

Definition VM_WRITABLE : Z := 1.
Definition VM_WAS_FUTURE : Z := 8.
Definition VM_ONCE_ONLY : Z := 32.
Definition VM_MADE_READONLY : Z := VM_WRITABLE.
Definition VM_ADD_TO_SHARED_DATA : Z := 4096.
Definition FRAG_SELFMOD_SANDBOXED : Z := 32768.
Definition FRAG_COARSE_GRAIN : Z := 268435456.

Definition TEST (mask var : Z) : bool := negb (Z.land mask var =? 0).

(** [var & ~mask] on 32 bits. *)
Definition clear_bits (mask var : Z) : Z := Z.land var (Z.lxor mask (w32 - 1)).

Section VmVector.
Context {P W : Type}.
Context (NULL : P).
Context (vmarea_initial_size vmarea_increment_size : Z).  (* options; 100 and 100 *)
Context (hw_cache_consistency : bool).                    (* an option *)

(** ** The data *)

Record vm_area_t := mk_area {
  area_start : Z;
  area_end : Z;        (* open end of the interval *)
  vm_flags : Z;
  frag_flags : Z;
  client : P
}.

Record callbacks := {
  free_payload_func : option (P -> W -> cres W);
  split_payload_func : option (P -> W -> cres (P * W));
  should_merge_func : option (bool -> P -> P -> W -> cres bool);
  merge_payload_func : option (P -> P -> W -> cres (P * W))
}.

Record vm_area_vector_t := mk_vector {
  buf : option (list (option vm_area_t));
  vsize : Z;           (* capacity *)
  vlength : Z;
  vflags : Z;
  cbs : callbacks
}.

Definition with_buf (v : vm_area_vector_t) (b : option (list (option vm_area_t))) : vm_area_vector_t :=
  mk_vector b (vsize v) (vlength v) (vflags v) (cbs v).
Definition with_length (v : vm_area_vector_t) (n : Z) : vm_area_vector_t :=
  mk_vector (buf v) (vsize v) n (vflags v) (cbs v).
Definition with_range (a : vm_area_t) (s e : Z) : vm_area_t :=
  mk_area s e (vm_flags a) (frag_flags a) (client a).
Definition with_vm_flags (a : vm_area_t) (f : Z) : vm_area_t :=
  mk_area (area_start a) (area_end a) f (frag_flags a) (client a).
Definition with_client (a : vm_area_t) (d : P) : vm_area_t :=
  mk_area (area_start a) (area_end a) (vm_flags a) (frag_flags a) d.

(** [v->buf[i]] as a value, and the assignment to it. *)
Definition get_area (v : vm_area_vector_t) (i : Z) : cres vm_area_t :=
  match buf v with
  | Some b => if i <? 0 then Undef else
              match b !! Z.to_nat i with Some (Some a) => Val a | _ => Undef end
  | None => Undef
  end.
Definition set_area (v : vm_area_vector_t) (i : Z) (a : vm_area_t) : cres vm_area_vector_t :=
  match buf v with
  | Some b => if (0 <=? i) && (i <? Z.of_nat (length b))
              then Val (with_buf v (Some (<[Z.to_nat i := Some a]> b))) else Undef
  | None => Undef
  end.

(** ** Adding a range *)

Definition vm_area_vector_check_size (v : vm_area_vector_t) : vm_area_vector_t :=
  if vsize v =? vlength v then
    if vlength v =? 0 then
      let size := s32 vmarea_initial_size in
      mk_vector (Some (replicate (Z.to_nat size) None)) size (vlength v) (vflags v) (cbs v)
    else
      let new_size := s32 (u32 (vmarea_increment_size + vlength v)) in
      let old := match buf v with Some b => b | None => [] end in
      mk_vector (Some (take (Z.to_nat new_size) old ++ replicate (Z.to_nat new_size - length old) None))
                new_size (vlength v) (vflags v) (cbs v)
  else v.

(** [should_merge_func(adjacent, data, client)], or what a NULL function
    stands for. *)
Definition should_merge (v : vm_area_vector_t) (default adjacent : bool) (data c : P) (w : W) : cres bool :=
  match should_merge_func (cbs v) with
  | None => Val default
  | Some f => f adjacent data c w
  end.

(** The test for overlap, or adjacency of the same type. *)
Definition add_hits (v : vm_area_vector_t) (s e vmf ff : Z) (data : P) (a : vm_area_t) (w : W) : cres bool :=
  if (s <? area_end a) && (area_start a <? e) then Val true
  else if (s <=? area_end a) && (area_start a <=? e) && (vmf =? vm_flags a) && (ff =? frag_flags a) &&
          negb (TEST FRAG_COARSE_GRAIN (frag_flags a)) && negb (TEST VECTOR_NEVER_MERGE_ADJACENT (vflags v))
       then should_merge v true true data (client a) w
       else Val false.

(** What a new area without [VM_WAS_FUTURE] or [VM_ONCE_ONLY] takes from an
    area it meets. *)
Definition drop_flag (flag vmf : Z) (a : vm_area_t) : vm_area_t :=
  if TEST flag (vm_flags a) && negb (TEST flag vmf) then with_vm_flags a (clear_bits flag (vm_flags a)) else a.
Definition drop_flags (vmf : Z) (a : vm_area_t) : vm_area_t := drop_flag VM_ONCE_ONLY vmf (drop_flag VM_WAS_FUTURE vmf a).

(** The locals of [add_vm_area] that its loop changes. *)
Record scan_t := Scan {
  sc_start : Z;
  sc_end : Z;
  overlap_start : Z;
  overlap_end : Z;
  sc_v : vm_area_vector_t;
  sc_w : W
}.

Section AddBody.
Context (rec : vm_area_vector_t -> W -> Z -> Z -> P -> cres (vm_area_vector_t * W)).  (* the recursive call *)
Context (vmf ff : Z) (data : P).

(** The new range meets an area of another type: the overlap stays with the
    area.  The result says whether the loop ends. *)
Definition split_off (i os : Z) (a : vm_area_t) (x : scan_t) : cres (bool * scan_t) :=
  if sc_start x <? area_start a then
    '(v, w) ← (if area_end a <? sc_end x then
                 '(add_data, w) ← match split_payload_func (cbs (sc_v x)) with
                                  | Some f => f data (sc_w x)
                                  | None => Val (data, sc_w x)
                                  end;
                 rec (sc_v x) w (area_end a) (sc_end x) add_data
               else Val (sc_v x, sc_w x));
    a' ← get_area v i;
    Val (true, Scan (sc_start x) (area_start a') (if os =? i then -1 else os) i v w)
  else if area_end a <? sc_end x then
    Val (false, Scan (area_end a) (sc_end x) (-1) (overlap_end x) (sc_v x) (sc_w x))
  else Val (false, Scan (sc_start x) (sc_end x) os (overlap_end x) (sc_v x) (sc_w x)).

(** One iteration of the loop of [add_vm_area]. *)
Definition scan_area (i : Z) (x : scan_t) : cres (bool * scan_t) :=
  a ← get_area (sc_v x) i;
  hit ← add_hits (sc_v x) (sc_start x) (sc_end x) vmf ff data a (sc_w x);
  if (hit : bool) then
    let os := if overlap_start x =? -1 then i else overlap_start x in
    let a := drop_flags vmf a in
    v ← set_area (sc_v x) i a;
    let x := Scan (sc_start x) (sc_end x) os (overlap_end x) v (sc_w x) in
    merges ← (if negb (vmf =? vm_flags a) || negb (ff =? frag_flags a)
              then should_merge v false false data (client a) (sc_w x) else Val true);
    if (merges : bool) then Val (false, x) else split_off i os a x
  else if -1 <? overlap_start x then
    Val (true, Scan (sc_start x) (sc_end x) (overlap_start x) i (sc_v x) (sc_w x))
  else Val (sc_end x <=? area_start a, x).

Fixpoint scan_loop (k : nat) (i : Z) (x : scan_t) : cres (Z * scan_t) :=
  match k with
  | O => Val (i, x)
  | S k =>
      if i <? vlength (sc_v x) then
        '(leave, x) ← scan_area i x;
        if (leave : bool) then Val (i, x) else scan_loop k (i + 1) x
      else Val (i, x)
  end.
End AddBody.

(** [for (j = v->length; j > i; j--) v->buf[j] = v->buf[j - 1];] *)
Fixpoint shift_up (k : nat) (v : vm_area_vector_t) (j : Z) : cres vm_area_vector_t :=
  match k with
  | O => Val v
  | S k => a ← get_area v (j - 1); v ← set_area v j a; shift_up k v (j - 1)
  end.

(** [for (i = from; i < v->length - diff; i++) v->buf[i] = v->buf[i + diff];] *)
Fixpoint shift_down (k : nat) (v : vm_area_vector_t) (i diff : Z) : cres vm_area_vector_t :=
  match k with
  | O => Val v
  | S k => a ← get_area v (i + diff); v ← set_area v i a; shift_down k v (i + 1) diff
  end.

(** Closing the gap that the areas from [from] on, [diff] of them, leave. *)
Definition delete_areas (v : vm_area_vector_t) (from diff : Z) : cres vm_area_vector_t :=
  v ← shift_down (Z.to_nat (vlength v - diff - from)) v from diff;
  Val (with_length v (vlength v - diff)).

(** A brand-new area, before [v->buf[i]]. *)
Definition insert_area (v : vm_area_vector_t) (i : Z) (a : vm_area_t) : cres vm_area_vector_t :=
  let v := vm_area_vector_check_size v in
  v ← shift_up (Z.to_nat (vlength v - i)) v (vlength v);
  v ← set_area v i a;
  Val (with_length v (vlength v + 1)).

(** The payload of an area that is merged into the one at [os]. *)
Definition merge_payload (v : vm_area_vector_t) (dst src keep : P) (w : W) : cres (P * W) :=
  match merge_payload_func (cbs v) with
  | Some f => f dst src w
  | None => match free_payload_func (cbs v) with
            | Some f => w ← f src w; Val (keep, w)
            | None => Val (keep, w)
            end
  end.

(** The payloads of the areas after the first that the new one covers. *)
Fixpoint merge_loop (k : nat) (v : vm_area_vector_t) (w : W) (os i : Z) : cres (vm_area_vector_t * W) :=
  match k with
  | O => Val (v, w)
  | S k =>
      dst ← get_area v os;
      src ← get_area v i;
      '(c, w) ← merge_payload v (client dst) (client src) (client dst) w;
      v ← set_area v os (with_client dst c);
      if TEST VECTOR_FRAGMENT_LIST (vflags v) then Undef else merge_loop k v w os (i + 1)
  end.

(** The new range joins the areas from [os] to before [oe]. *)
Definition extend_areas (v : vm_area_vector_t) (w : W) (s e : Z) (data : P) (os oe : Z)
    : cres (vm_area_vector_t * W) :=
  a ← get_area v os;
  let s' := if s <? area_start a then s else area_start a in
  v ← set_area v os (with_range a s' (area_end a));
  last ← get_area v (oe - 1);
  let e' := if area_end last <? e then e else area_end last in
  v ← set_area v os (with_range a s' e');
  '(c, w) ← merge_payload v data (client a) (client a) w;
  v ← set_area v os (with_client (with_range a s' e') c);
  '(v, w) ← merge_loop (Z.to_nat (oe - (os + 1))) v w os (os + 1);
  v ← delete_areas v (os + 1) (oe - (os + 1));
  if TEST VECTOR_FRAGMENT_LIST (vflags v) then Undef else Val (v, w).

(** What follows the loop of [add_vm_area]. *)
Definition add_finish (vmf ff : Z) (data : P) (i : Z) (x : scan_t) : cres (vm_area_vector_t * W) :=
  if overlap_start x =? -1 then
    v ← insert_area (sc_v x) i (mk_area (sc_start x) (sc_end x) vmf ff data);
    Val (v, sc_w x)
  else
    extend_areas (sc_v x) (sc_w x) (sc_start x) (sc_end x) data (overlap_start x)
      (if overlap_end x =? -1 then vlength (sc_v x) else overlap_end x).

Fixpoint add_vm_area_fuel (n : nat) (vmf ff : Z) (v : vm_area_vector_t) (w : W) (s e : Z) (data : P)
    : cres (vm_area_vector_t * W) :=
  match n with
  | O => Undef
  | S n =>
      '(i, x) ← scan_loop (add_vm_area_fuel n vmf ff) vmf ff data (Z.to_nat (vlength v)) 0
                  (Scan s e (-1) (-1) v w);
      add_finish vmf ff data i x
  end.

Definition add_vm_area (v : vm_area_vector_t) (w : W) (s e vmf ff : Z) (data : P) : cres (vm_area_vector_t * W) :=
  add_vm_area_fuel (S (Z.to_nat (vlength v))) vmf ff v w s e data.

(** ** Removing a range *)

Section Remove.
Context (is_executable_areas restore_prot : bool).

(** The page-aligned range that [vm_make_writable] hands to the system. *)
Definition vm_make_writable (pc size : Z) : Z * Z :=
  let start_pc := Z.land pc (Z.lnot 4095) in
  (start_pc, align_forward (u64 (size + (pc - start_pc))) 4096).
Definition DR_MADE_READONLY (flags : Z) : bool := hw_cache_consistency && TEST VM_MADE_READONLY flags.
Definition restore_writable (a : vm_area_t) (pc size : Z) : list (Z * Z) :=
  if restore_prot && DR_MADE_READONLY (vm_flags a) then [vm_make_writable pc size] else [].

(** The units of a coarse-grain area of [executable_areas]. *)
Definition coarse_unit (a : vm_area_t) : cres unit :=
  if TEST FRAG_COARSE_GRAIN (frag_flags a) && is_executable_areas then Undef else Val tt.

(** The loop that looks for the areas the range overlaps: the first and, when
    the loop was left, the one after the last. *)
Fixpoint find_overlap (k : nat) (v : vm_area_vector_t) (s e i os : Z) : cres (Z * Z) :=
  match k with
  | O => Val (os, -1)
  | S k =>
      if i <? vlength v then
        a ← get_area v i;
        if (s <? area_end a) && (area_start a <? e) then
          find_overlap k v s e (i + 1) (if os =? -1 then i else os)
        else if -1 <? os then Val (os, i)
        else if e <=? area_start a then Val (os, -1) else find_overlap k v s e (i + 1) os
      else Val (os, -1)
  end.

(** The loop over the areas that lie in the range. *)
Fixpoint free_areas (k : nat) (v : vm_area_vector_t) (w : W) (i : Z) : cres (W * list (Z * Z)) :=
  match k with
  | O => Val (w, [])
  | S k =>
      a ← get_area v i;
      _ ← coarse_unit a;
      w ← match free_payload_func (cbs v) with Some f => f (client a) w | None => Val w end;
      '(w, made) ← free_areas k v w (i + 1);
      Val (w, restore_writable a (area_start a) (area_end a - area_start a) ++ made)
  end.

(** The bound of the first area overlapped moves back; when the range lies
    inside of it, a copy of what is behind the range is added again later. *)
Definition shorten_first (v : vm_area_vector_t) (s e os oe : Z)
    : cres (vm_area_vector_t * Z * option vm_area_t * list (Z * Z)) :=
  first ← get_area v os;
  if area_start first <? s then
    let new_area := if (os =? oe - 1) && (e <? area_end first)
                    then Some (with_range first e (area_end first)) else None in
    v ← set_area v os (with_range first (area_start first) s);
    _ ← coarse_unit first;
    Val (v, os + 1, new_area, restore_writable first s (e - s))
  else Val (v, os, None, []).

(** The bound of the last area overlapped moves forward. *)
Definition shorten_last (v : vm_area_vector_t) (e oe : Z) : cres (vm_area_vector_t * Z * list (Z * Z)) :=
  last ← get_area v (oe - 1);
  if e <? area_end last then
    v ← set_area v (oe - 1) (with_range last e (area_end last));
    _ ← coarse_unit last;
    Val (v, oe - 1, restore_writable last (area_start last) (e - area_start last))
  else Val (v, oe, []).

(** The answer, the ranges made writable again, the vector and the world. *)
Definition remove_vm_area (v : vm_area_vector_t) (w : W) (s e : Z)
    : cres (bool * list (Z * Z) * vm_area_vector_t * W) :=
  '(os, oe) ← find_overlap (Z.to_nat (vlength v)) v s e 0 (-1);
  if os =? -1 then Val (false, [], v, w) else
  let oe := if oe =? -1 then vlength v else oe in
  '(v, os, new_area, made1) ← shorten_first v s e os oe;
  '(v, oe, made2) ← shorten_last v e oe;
  '(v, w, made3) ← (if os <? oe then
                      '(w, made) ← free_areas (Z.to_nat (oe - os)) v w os;
                      if TEST VECTOR_FRAGMENT_LIST (vflags v) then Undef else
                      v ← delete_areas v os (oe - os);
                      Val (v, w, made)
                    else Val (v, w, []));
  '(v, w) ← match new_area with
            | Some a =>
                let ff := clear_bits FRAG_COARSE_GRAIN (frag_flags a) in
                let vmf := clear_bits VM_ADD_TO_SHARED_DATA (vm_flags a) in
                '(c, w) ← match split_payload_func (cbs v) with
                          | Some f => f (client a) w
                          | None => Val (client a, w)
                          end;
                add_vm_area v w (area_start a) (area_end a) vmf ff c
            | None => Val (v, w)
            end;
  Val (true, made1 ++ made2 ++ made3, v, w).
End Remove.

(** ** Searching *)

(** [for (; i >= 1 && v->buf[i - 1].end > start; i--) ;] *)
Fixpoint first_overlap (k : nat) (v : vm_area_vector_t) (s i : Z) : cres Z :=
  match k with
  | O => Val i
  | S k =>
      if 1 <=? i then
        a ← get_area v (i - 1);
        if s <? area_end a then first_overlap k v s (i - 1) else Val i
      else Val i
  end.

Fixpoint search_loop (k : nat) (v : vm_area_vector_t) (s e : Z) (first : bool) (min max : Z) : cres (bool * Z) :=
  match k with
  | O => Undef
  | S k =>
      if min <=? max then
        let i := Z.quot (s32 (min + max)) 2 in
        a ← get_area v i;
        if negb (e =? 0) && (e <=? area_start a) then search_loop k v s e first min (i - 1)
        else if area_end a <=? s then search_loop k v s e first (i + 1) max
        else if first then j ← first_overlap (Z.to_nat i) v s i; Val (true, j)
        else Val (true, i)
      else Val (false, max)
  end.

(** Whether an area overlaps the range, and the index of one that does, or of
    the area before the range.  An [e] of 0 is the top of the address space. *)
Definition binary_search (v : vm_area_vector_t) (s e : Z) (first : bool) : cres (bool * Z) :=
  search_loop (S (Z.to_nat (vlength v))) v s e first 0 (vlength v - 1).

Definition lookup_addr (v : vm_area_vector_t) (addr : Z) : cres (option Z) :=
  '(found, i) ← binary_search v addr (u64 (addr + 1)) false;
  Val (if (found : bool) then Some i else None).

Definition vm_area_overlap (v : vm_area_vector_t) (s e : Z) : cres bool :=
  '(found, _) ← binary_search v s e false; Val found.

(** ** The [vmvector_] interface *)

Definition no_callbacks : callbacks := Build_callbacks None None None None.

Definition vmvector_init_vector (flags : Z) : vm_area_vector_t := mk_vector None 0 0 flags no_callbacks.
Definition vmvector_create_vector (flags : Z) : vm_area_vector_t := vmvector_init_vector flags.
Definition vmvector_set_callbacks (v : vm_area_vector_t) (c : callbacks) : vm_area_vector_t :=
  mk_vector (buf v) (vsize v) (vlength v) (vflags v) c.
Definition vmvector_empty (v : vm_area_vector_t) : bool := vlength v =? 0.

Definition vmvector_add (v : vm_area_vector_t) (w : W) (s e : Z) (data : P) : cres (vm_area_vector_t * W) :=
  add_vm_area v w s e 0 0 data.

Definition vmvector_add_replace (v : vm_area_vector_t) (w : W) (s e : Z) (data : P)
    : cres (P * vm_area_vector_t * W) :=
  found ← lookup_addr v s;
  exact ← match found with
          | Some i => a ← get_area v i;
                      Val (if (s =? area_start a) && (e =? area_end a) then Some (i, a) else None)
          | None => Val None
          end;
  match exact with
  | Some (i, a) => v ← set_area v i (with_client a data); Val (client a, v, w)
  | None => '(v, w) ← add_vm_area v w s e 0 0 data; Val (NULL, v, w)
  end.

Section Interface.
Context (is_executable_areas : bool).

Definition vmvector_remove (v : vm_area_vector_t) (w : W) (s e : Z) : cres (bool * vm_area_vector_t * W) :=
  '(ok, _, v, w) ← remove_vm_area is_executable_areas false v w s e; Val (ok, v, w).

Definition vmvector_remove_containing_area (v : vm_area_vector_t) (w : W) (pc : Z)
    : cres (option (Z * Z) * vm_area_vector_t * W) :=
  found ← lookup_addr v pc;
  match found with
  | Some i =>
      a ← get_area v i;
      '(_, _, v, w) ← remove_vm_area is_executable_areas false v w (area_start a) (area_end a);
      Val (Some (area_start a, area_end a), v, w)
  | None => Val (None, v, w)
  end.
End Interface.

Definition vmvector_overlap (v : vm_area_vector_t) (s e : Z) : cres bool :=
  if vmvector_empty v then Val false else vm_area_overlap v s e.

Definition vmvector_lookup_data (v : vm_area_vector_t) (pc : Z) : cres (option (Z * Z * P)) :=
  found ← lookup_addr v pc;
  match found with
  | Some i => a ← get_area v i; Val (Some (area_start a, area_end a, client a))
  | None => Val None
  end.

Definition vmvector_lookup (v : vm_area_vector_t) (pc : Z) : cres P :=
  r ← vmvector_lookup_data v pc;
  Val (match r with Some (_, data) => data | None => NULL end).

(** The starts of the areas before and after [pc], unless an area holds it. *)
Definition vmvector_lookup_prev_next (v : vm_area_vector_t) (pc : Z) : cres (option (Z * Z)) :=
  '(found, index) ← binary_search v pc (u64 (pc + 1)) false;
  if (found : bool) then Val None else
  prev ← (if index =? -1 then Val 0 else a ← get_area v index; Val (area_start a));
  next ← (if vlength v - 1 <=? index then Val ULONG_MAX else a ← get_area v (index + 1); Val (area_start a));
  Val (Some (prev, next)).

Definition vmvector_modify_data (v : vm_area_vector_t) (s e : Z) (data : P) : cres (bool * vm_area_vector_t) :=
  found ← lookup_addr v s;
  match found with
  | Some i =>
      a ← get_area v i;
      if (s =? area_start a) && (e =? area_end a) then v ← set_area v i (with_client a data); Val (true, v)
      else Val (true, v)
  | None => Val (false, v)
  end.

(** [for (i = 0; i < v->length; i++) free_payload_func(v->buf[i].client)] *)
Fixpoint free_all (k : nat) (f : P -> W -> cres W) (v : vm_area_vector_t) (w : W) (i : Z) : cres W :=
  match k with
  | O => Val w
  | S k => a ← get_area v i; w ← f (client a) w; free_all k f v w (i + 1)
  end.
Definition vmvector_reset_vector (v : vm_area_vector_t) (w : W) : cres (vm_area_vector_t * W) :=
  match buf v with
  | Some _ =>
      w ← match free_payload_func (cbs v) with
          | Some f => free_all (Z.to_nat (vlength v)) f v w 0
          | None => Val w
          end;
      Val (mk_vector None 0 0 (vflags v) (cbs v), w)
  | None => Val (v, w)
  end.
Definition vmvector_delete_vector (v : vm_area_vector_t) (w : W) : cres W :=
  '(_, w) ← vmvector_reset_vector v w; Val w.

(** *** The iterator: an index into the vector it was started on *)

Definition vmvector_iterator_start : Z := -1.
Definition vmvector_iterator_startover : Z := -1.
Definition vmvector_iterator_hasnext (v : vm_area_vector_t) (index : Z) : bool := index + 1 <? vlength v.
Definition vmvector_iterator_peek (v : vm_area_vector_t) (index : Z) : cres (P * Z * Z) :=
  a ← get_area v (index + 1); Val (client a, area_start a, area_end a).
Definition vmvector_iterator_next (v : vm_area_vector_t) (index : Z) : cres (P * Z * Z * Z) :=
  r ← vmvector_iterator_peek v index; Val (r, index + 1).
End VmVector.
Arguments vm_area_t P : clear implicits.
Arguments vm_area_vector_t P W : clear implicits.
Arguments callbacks P W : clear implicits.
Arguments no_callbacks {P W}.

#[export] Instance vm_area_eq_dec {P : Type} `{EqDecision P} : EqDecision (vm_area_t P).
Proof. solve_decision. Defined.
