(* ===== verification/VmVectorRanges.v ===== *)
(** * The ranges of an area vector

    What a sorted list of disjoint ranges covers, and the one change that
    adding makes to it: a run of ranges gives way to one. *)
From S2P Require Export VmVectorProof.

(** ** Lists of disjoint ranges *)

Implicit Types (r : list (Z * Z)) (B : gset Z).

Record wf_ranges r : Prop := {
  wf_range : forall i p, r !! i = Some p -> 0 <= p.1 < p.2 /\ p.2 < w64;
  wf_sorted : forall i j p q, (i < j)%nat -> r !! i = Some p -> r !! j = Some q -> p.2 <= q.1
}.

(** Every end point of a range is in [B]. *)
Definition bounded B r : Prop := forall p, p ∈ r -> p.1 ∈ B /\ p.2 ∈ B.

Definition covers r (x : Z) : Prop := exists i p, r !! i = Some p /\ p.1 <= x < p.2.

Definition before r (i : nat) (s : Z) : Prop := forall j p, (j < i)%nat -> r !! j = Some p -> p.2 <= s.
Definition after r (i : nat) (e : Z) : Prop := forall j p, (i <= j)%nat -> r !! j = Some p -> e <= p.1.
Definition touch r (i j : nat) (s e : Z) : Prop :=
  forall n p, (i <= n < j)%nat -> r !! n = Some p -> s <= p.2 /\ p.1 <= e.

Lemma wf_nil : wf_ranges [].
Proof. split; intros; set_solver. Qed.
Lemma covers_nil x : ~ covers [] x.
Proof. intros (i & p & H & _). by rewrite lookup_nil in H. Qed.

(** The end points bound the number of ranges. *)
Lemma wf_length r B : wf_ranges r -> bounded B r -> (length r <= size B)%nat.
Proof.
  intros [Hr Hs] HB. assert (NoDup (map fst r)) as Hnd.
  { apply NoDup_alt. intros i j x Hi Hj. rewrite list_lookup_fmap in Hi, Hj.
    destruct (r !! i) as [p|] eqn:Ei; [|done]. destruct (r !! j) as [q|] eqn:Ej; [|done]. cbn in *.
    pose proof (Hr _ _ Ei). pose proof (Hr _ _ Ej). simplify_eq.
    destruct (Nat.lt_trichotomy i j) as [H1|[H1|H1]]; [|done|].
    - pose proof (Hs _ _ _ _ H1 Ei Ej). lia.
    - pose proof (Hs _ _ _ _ H1 Ej Ei). lia. }
  rewrite <- (length_map fst), <- (size_list_to_set (C := gset Z)) by done.
  apply subseteq_size. intros x Hx. apply elem_of_list_to_set, list_elem_of_fmap in Hx as (p & -> & Hp).
  by apply HB.
Qed.

(** *** Replacing a run of ranges by one *)

Definition splice {A} (i j : nat) (x : A) (l : list A) : list A := take i l ++ x :: drop j l.

Lemma lookup_splice {A} i j (x : A) l n : (i <= j)%nat -> (i <= length l)%nat ->
  splice i j x l !! n = if decide (n < i)%nat then l !! n else if decide (n = i) then Some x else l !! (n - i - 1 + j)%nat.
Proof.
  intros Hij Hi. unfold splice. case_decide.
  - rewrite lookup_app_l by (rewrite length_take; lia). by rewrite lookup_take_lt by lia.
  - rewrite lookup_app_r, length_take by (rewrite length_take; lia). rewrite Nat.min_l by lia.
    case_decide; [subst; by rewrite Nat.sub_diag|].
    rewrite lookup_cons_ne_0 by lia. rewrite lookup_drop. f_equal. lia.
Qed.

Lemma length_splice {A} i j (x : A) l : (i <= j <= length l)%nat -> length (splice i j x l) = (length l - (j - i) + 1)%nat.
Proof. intros. unfold splice. rewrite length_app, length_take. cbn. rewrite length_drop. lia. Qed.

Lemma map_splice {T U} (f : T -> U) i j x l : map f (splice i j x l) = splice i j (f x) (map f l).
Proof. unfold splice. rewrite map_app. cbn. by rewrite <- firstn_map, <- skipn_map. Qed.

Section Splice.
Context (r : list (Z * Z)) (i j : nat) (s e : Z).
Context (Hwf : wf_ranges r) (Hij : (i <= j <= length r)%nat) (Hse : 0 <= s < e /\ e < w64).
Context (Hb : before r i s) (Ha : after r j e).

Lemma splice_wf : wf_ranges (splice i j (s, e) r).
Proof using Hwf Hij Hse Hb Ha.
  destruct Hwf as [Hr Hs]. split.
  - intros n p. rewrite lookup_splice by lia. repeat case_decide; intros Hp; [eauto|by simplify_eq|eauto].
  - intros n m p q Hnm. rewrite !lookup_splice by lia. repeat case_decide; intros Hp Hq; simplify_eq; try lia; cbn.
    + by eapply Hs; [|exact Hp|exact Hq].
    + eapply Hb; [|exact Hp]; lia.
    + eapply (Hs n (m - i - 1 + j)%nat); [lia|done|done].
    + eapply Ha; [|exact Hq]; lia.
    + eapply (Hs (n - i - 1 + j)%nat (m - i - 1 + j)%nat); [lia|done|done].
Qed.

Lemma splice_covers x : covers (splice i j (s, e) r) x <->
  s <= x < e \/ exists n p, ~ (i <= n < j)%nat /\ r !! n = Some p /\ p.1 <= x < p.2.
Proof using Hij.
  split.
  - intros (n & p & H & Hx). rewrite lookup_splice in H by lia. repeat case_decide; simplify_eq.
    + right. exists n, p. split_and!; lia || done.
    + by left.
    + right. exists (n - i - 1 + j)%nat, p. split_and!; lia || done.
  - intros [Hx|(n & p & Hn & H & Hx)].
    + exists i, (s, e). rewrite lookup_splice by lia. rewrite decide_False, decide_True by lia. done.
    + destruct (decide (n < i)%nat).
      * exists n, p. rewrite lookup_splice by lia. by rewrite decide_True.
      * exists (n - j + i + 1)%nat, p. rewrite lookup_splice by lia. rewrite !decide_False by lia.
        replace (n - j + i + 1 - i - 1 + j)%nat with n by lia. done.
Qed.

Lemma splice_bounded B : bounded B r -> s ∈ B -> e ∈ B -> bounded B (splice i j (s, e) r).
Proof using.
  clear. intros H Hs He p. unfold splice. rewrite elem_of_app, elem_of_cons. intros [Hp|[->|Hp]]; [|done|].
  - apply H. rewrite <- (take_drop i r). apply elem_of_app. by left.
  - apply H. rewrite <- (take_drop j r). apply elem_of_app. by right.
Qed.
End Splice.

Lemma insert_covers r i s e x : (i <= length r)%nat -> covers (splice i i (s, e) r) x <-> covers r x \/ s <= x < e.
Proof.
  intros. rewrite splice_covers by lia. split.
  - intros [?|(n & p & _ & ?)]; [by right|]. left. by exists n, p.
  - intros [(n & p & ?)|?]; [|by left]. right. exists n, p. split; [lia|done].
Qed.

(** A new range and a run of ranges that touch it make one range. *)
Lemma merge_ranges r k oe s e p q : wf_ranges r -> (k < oe <= length r)%nat -> 0 <= s < e -> e < w64 ->
  before r k s -> touch r k oe s e -> after r oe e -> r !! k = Some p -> r !! (oe - 1)%nat = Some q ->
  let r' := splice k oe (Z.min s p.1, Z.max e q.2) r in
  wf_ranges r' /\ forall x, covers r' x <-> covers r x \/ s <= x < e.
Proof.
  intros Hwf Hk Hse He Hb Ht Ha Hp Hq. pose proof Hwf as [Hr Hs].
  pose proof (Hr _ _ Hp) as Hp0. pose proof (Hr _ _ Hq) as Hq0. pose proof (Ht k p ltac:(lia) Hp) as Htp.
  pose proof (Ht (oe - 1)%nat q ltac:(lia) Hq) as Htq.
  assert (Hpq : p.1 <= q.1 /\ p.2 <= q.2).
  { destruct (decide (k = (oe - 1)%nat)) as [E|]; [rewrite <- E in Hq; by simplify_eq|]. pose proof (Hs k (oe - 1)%nat p q ltac:(lia) Hp Hq). lia. }
  split.
  - apply splice_wf; [done|lia|lia| |].
    + intros n p' Hn Hp'. pose proof (Hb _ _ Hn Hp'). pose proof (Hs _ _ _ _ Hn Hp' Hp). lia.
    + intros n p' Hn Hp'. pose proof (Ha _ _ Hn Hp'). pose proof (Hs (oe - 1)%nat n _ _ ltac:(lia) Hq Hp'). lia.
  - intros x. rewrite splice_covers by lia. split.
    + intros [Hx|(n & p' & _ & Hp' & Hx)]; [|left; by exists n, p'].
      destruct (decide (s <= x < e)); [by right|]. left. destruct (decide (x < s)).
      * exists k, p. split; [done|lia].
      * exists (oe - 1)%nat, q. split; [done|lia].
    + intros [(n & p' & Hp' & Hx)|Hx]; [|left; lia].
      destruct (decide (k <= n < oe)%nat); [|right; by exists n, p'].
      left. assert (p.1 <= p'.1 /\ p'.2 <= q.2); [|lia]. split.
      * destruct (decide (n = k)) as [->|]; [by simplify_eq|]. pose proof (Hs k n _ _ ltac:(lia) Hp Hp'). lia.
      * destruct (decide (n = (oe - 1)%nat)) as [->|]; [by simplify_eq|].
        pose proof (Hs n (oe - 1)%nat _ _ ltac:(lia) Hp' Hq). lia.
Qed.
