(* ===== verification/VmVectorCover.v ===== *)
(** * Adding and removing ranges, with any flags and callbacks

    [add_vm_area] may split the new range around areas of other types, call
    itself for what is behind such an area, and merge; [remove_vm_area] may
    shorten, split and delete areas.  Whatever they do, the areas stay sorted
    and disjoint, and the addresses covered change by the range. *)
From S2P Require Export VmVectorRanges.

Section Cover.
Context {P W : Type}.
Implicit Types (v : vm_area_vector_t P W) (l : list (vm_area_t P)) (a : vm_area_t P).

Definition rng a : Z * Z := (area_start a, area_end a).
Definition rngs l : list (Z * Z) := map rng l.

(** Every callback comes back, whatever it does to the world. *)
Record callbacks_return (c : callbacks P W) : Prop := {
  free_returns f : free_payload_func c = Some f -> forall d w, exists w', f d w = Val w';
  split_returns f : split_payload_func c = Some f -> forall d w, exists d' w', f d w = Val (d', w');
  should_merge_returns f : should_merge_func c = Some f -> forall adj d d' w, exists b, f adj d d' w = Val b;
  merge_returns f : merge_payload_func c = Some f -> forall d d' w, exists d'' w', f d d' w = Val (d'', w')
}.

Lemma should_merge_val v def adj d d' w : callbacks_return (cbs v) -> exists b, should_merge v def adj d d' w = Val b.
Proof.
  intros H. unfold should_merge. destruct (should_merge_func (cbs v)) eqn:E; [|eauto].
  by eapply should_merge_returns.
Qed.
Lemma merge_payload_val v d d' k w : callbacks_return (cbs v) -> exists c w', merge_payload v d d' k w = Val (c, w').
Proof.
  intros H. unfold merge_payload. destruct (merge_payload_func (cbs v)) eqn:E.
  - by eapply merge_returns.
  - destruct (free_payload_func (cbs v)) eqn:E'; [|eauto].
    destruct (free_returns _ H _ E' d' w) as [w' ->]. cbn. eauto.
Qed.
Lemma merge_fold_val v c w srcs : callbacks_return (cbs v) -> exists c' w', merge_fold v c w srcs = Val (c', w').
Proof.
  intros H. revert c w. induction srcs as [|a srcs IH]; intros c w; cbn; [eauto|].
  destruct (merge_payload_val v c (client a) c w H) as (c' & w' & ->). cbn. apply IH.
Qed.

Lemma add_hits_val v s e vmf ff d a w : callbacks_return (cbs v) -> exists b : bool,
  add_hits v s e vmf ff d a w = Val b /\
  (if b then (s < area_end a /\ area_start a < e) \/
             (s <= area_end a /\ area_start a <= e /\ vmf = vm_flags a /\ ff = frag_flags a)
   else area_end a <= s \/ e <= area_start a).
Proof.
  intros H. unfold add_hits. destruct ((s <? area_end a) && (area_start a <? e)) eqn:E.
  - exists true. zbool. split; [done|]. left. lia.
  - assert (area_end a <= s \/ e <= area_start a) as Hn by (apply andb_false_iff in E as [E|E]; zbool; lia).
    case_eqn E2; [|by exists false]. zbool.
    destruct (should_merge_val v true true d (client a) w H) as [[] ->]; eexists; (split; [done|]); [|done].
    right. lia.
Qed.

Lemma drop_flags_rng vmf a : rng (drop_flags vmf a) = rng a /\ frag_flags (drop_flags vmf a) = frag_flags a.
Proof. unfold drop_flags, drop_flag. by repeat case_match. Qed.

Lemma rngs_insert l i a a' : l !! i = Some a -> rng a' = rng a -> rngs (<[i := a']> l) = rngs l.
Proof.
  intros Hi H. unfold rngs. change (map rng (<[i := a']> l)) with (rng <$> <[i := a']> l).
  rewrite list_fmap_insert, H. apply list_insert_id. by rewrite list_lookup_fmap, Hi.
Qed.
Lemma rngs_lookup l i a : l !! i = Some a -> rngs l !! i = Some (rng a).
Proof. intros H. unfold rngs. by rewrite list_lookup_fmap, H. Qed.
Lemma rngs_lookup_inv l i p : rngs l !! i = Some p -> exists a, l !! i = Some a /\ p = rng a.
Proof. unfold rngs. intros H. apply list_lookup_fmap_Some in H as (a & -> & ?). eauto. Qed.
Lemma length_rngs l : length (rngs l) = length l.
Proof. apply length_map. Qed.

(** The areas a call with start [s] leaves alone: they end before it, or do
    not have its flags. *)
Definition keeps (vmf ff s : Z) (m : nat) l : Prop :=
  (m <= length l)%nat /\
  forall j a, (j < m)%nat -> l !! j = Some a -> area_end a < s \/ (area_end a = s /\ ~ (vm_flags a = vmf /\ frag_flags a = ff)).

(** The areas that end behind [s], on which the recursion decreases. *)
Definition count_after (s : Z) (r : list (Z * Z)) : nat := length (List.filter (fun p => s <? p.2) r).

Lemma count_after_lt r s s' i p : s <= s' -> r !! i = Some p -> s < p.2 <= s' -> (count_after s' r < count_after s r)%nat.
Proof.
  intros Hs. unfold count_after. assert (forall r : list (Z * Z), (length (List.filter (fun p => Z.ltb s' p.2) r) <= length (List.filter (fun p => Z.ltb s p.2) r))%nat) as Hle.
  { clear -Hs. intros r. induction r as [|q r IH]; [done|]. cbn. destruct (Z.ltb_spec s' q.2), (Z.ltb_spec s q.2); cbn; lia. }
  revert i. induction r as [|q r IH]; intros [|i] H Hp; try done; cbn in *.
  - simplify_eq. rewrite (proj2 (Z.ltb_lt s _)), (proj2 (Z.ltb_ge s' _)) by lia. cbn. specialize (Hle r). lia.
  - specialize (IH _ H Hp). destruct (Z.ltb_spec s' q.2), (Z.ltb_spec s q.2); cbn; lia.
Qed.
Lemma count_after_le s r : (count_after s r <= length r)%nat.
Proof. induction r; cbn; [done|]. unfold count_after in *. cbn. case_match; cbn; lia. Qed.

Section Add.
Context (B : gset Z) (HB : Z.of_nat (size B) < 1073741824).
Context (vmf ff : Z).

(** A vector in the state in which a range may be added. *)
Record good v l : Prop := {
  good_rep : represents v l;
  good_wf : wf_ranges (rngs l);
  good_bounded : bounded B (rngs l);
  good_cbs : callbacks_return (cbs v);
  good_frags : TEST VECTOR_FRAGMENT_LIST (vflags v) = false
}.

Lemma good_length v l : good v l -> Z.of_nat (length l) < 1073741824.
Proof using HB. intros [_ H1 H2 _ _]. pose proof (wf_length _ _ H1 H2). rewrite length_rngs in *. lia. Qed.

Lemma good_step v l v' l' : good v l -> represents v' l' -> same_vector v v' -> rngs l' = rngs l -> good v' l'.
Proof using. intros [] ? [Hf Hc] E. split; [done|by rewrite E|by rewrite E|by rewrite Hc|by rewrite Hf]. Qed.

(** What a run has done to the areas [l]. *)
Definition added v l (s e : Z) (m : nat) v' l' : Prop :=
  good v' l' /\ same_vector v v' /\ take m l' = take m l /\
  forall y, covers (rngs l') y <-> covers (rngs l) y \/ s <= y < e.

Definition adds (n : nat) (rec : vm_area_vector_t P W -> W -> Z -> Z -> P -> cres (vm_area_vector_t P W * W)) : Prop :=
  forall v l w s e d m, good v l -> 0 <= s < e -> e < w64 -> s ∈ B -> e ∈ B -> keeps vmf ff s m l ->
  (count_after s (rngs l) < n)%nat -> exists v' w' l', rec v w s e d = Val (v', w') /\ added v l s e m v' l'.

Section Scan.
Context (n : nat) (rec : vm_area_vector_t P W -> W -> Z -> Z -> P -> cres (vm_area_vector_t P W * W)).
Context (Hrec : adds n rec).
Context (v0 : vm_area_vector_t P W) (l0 : list (vm_area_t P)) (s0 e0 : Z) (d : P) (m : nat).
Context (Hg : good v0 l0) (Hse : 0 <= s0 < e0) (He : e0 < w64) (HsB : s0 ∈ B) (HeB : e0 ∈ B).
Context (Hm : keeps vmf ff s0 m l0) (Hfuel : (count_after s0 (rngs l0) < S n)%nat).

Record scan_inv (i : nat) (x : scan_t) l : Prop := {
  si_rep : represents (sc_v x) l;
  si_same : same_vector v0 (sc_v x);
  si_rngs : rngs l = rngs l0;
  si_take : take m l = take m l0;
  si_range : s0 <= sc_start x < sc_end x;
  si_end : sc_end x = e0 /\ overlap_end x = -1;
  si_bound : sc_start x ∈ B;
  si_skipped : forall y, s0 <= y < sc_start x -> covers (rngs l0) y;
  si_overlap : (overlap_start x = -1 /\ before (rngs l0) i (sc_start x)) \/
    exists k, overlap_start x = Z.of_nat k /\ (m <= k < i)%nat /\ before (rngs l0) k (sc_start x) /\
              touch (rngs l0) k i (sc_start x) (sc_end x)
}.

(** When the loop is left, the rest of the range goes in front of area [i],
    or joins the areas from [overlap_start] to before [overlap_end]. *)
Definition scan_done (i : Z) (x : scan_t) : Prop :=
  exists l', good (sc_v x) l' /\ same_vector v0 (sc_v x) /\ take m l' = take m l0 /\
    s0 <= sc_start x < sc_end x /\ sc_end x <= e0 /\ sc_start x ∈ B /\ sc_end x ∈ B /\
    (forall y, covers (rngs l') y \/ sc_start x <= y < sc_end x <-> covers (rngs l0) y \/ s0 <= y < e0) /\
    ((overlap_start x = -1 /\ exists i', i = Z.of_nat i' /\ (m <= i' <= length l')%nat /\
        before (rngs l') i' (sc_start x) /\ after (rngs l') i' (sc_end x)) \/
     exists k oe, overlap_start x = Z.of_nat k /\
       (if overlap_end x =? -1 then vlength (sc_v x) else overlap_end x) = Z.of_nat oe /\
       (m <= k)%nat /\ (k < oe <= length l')%nat /\ before (rngs l') k (sc_start x) /\
       touch (rngs l') k oe (sc_start x) (sc_end x) /\ after (rngs l') oe (sc_end x)).

Lemma scan_inv_good i x l : scan_inv i x l -> good (sc_v x) l.
Proof using Hg. intros []. by eapply good_step. Qed.

Lemma scan_inv_length i x l : scan_inv i x l -> length l = length l0.
Proof using. intros []. by rewrite <- !length_rngs, si_rngs0. Qed.

(** A set of addresses with the part of the range that is in areas left out
    comes to the same. *)
Lemma scan_inv_covers i x l y : scan_inv i x l ->
  covers (rngs l) y \/ sc_start x <= y < sc_end x <-> covers (rngs l0) y \/ s0 <= y < e0.
Proof using.
  clear Hfuel. intros []. destruct si_end0 as [E _]. rewrite si_rngs0, E. split.
  - intros [?|?]; [by left|right; lia].
  - intros [?|?]; [by left|]. destruct (decide (y < sc_start x)); [left; apply si_skipped0; lia|right; lia].
Qed.

(** The loop only meets areas after the first [m]. *)
Lemma hit_index i x l a : scan_inv i x l -> l !! i = Some a ->
  (sc_start x < area_end a /\ area_start a < sc_end x) \/
  (sc_start x <= area_end a /\ area_start a <= sc_end x /\ vmf = vm_flags a /\ ff = frag_flags a) -> (m <= i)%nat.
Proof using Hm.
  clear Hfuel. intros [] Hi Hhit. destruct (decide (m <= i)%nat); [done|exfalso].
  assert (l0 !! i = Some a) as Hi0.
  { rewrite <- (lookup_take_lt _ m), <- si_take0, lookup_take_lt by lia. done. }
  destruct Hm as [_ Hk]. specialize (Hk i a ltac:(lia) Hi0). lia.
Qed.

Lemma before_end i x l : scan_inv i x l -> i = length l -> scan_done (Z.of_nat i) x.
Proof using Hg Hm HeB.
  clear Hfuel. intros I Ei. pose proof (scan_inv_length _ _ _ I) as Hlen. pose proof (fun y => scan_inv_covers i x l y I) as Hcov.
  pose proof (scan_inv_good _ _ _ I) as G. destruct I as [R S Er Et Hr [E1 E2] HB' Hsk Ho].
  exists l. rewrite E1, E2 in *. split_and!; try done; try lia. rewrite Er.
  assert (after (rngs l0) (length l) e0) as Ha.
  { intros j p Hj Hp. apply lookup_lt_Some in Hp. rewrite length_rngs in Hp. lia. }
  subst i. destruct Ho as [[Ho Hb]|(k & Ho & Hk & Hb & Ht)].
  - left. split; [done|]. exists (length l). destruct Hm as [? _]. split_and!; [done|lia|lia|done|done].
  - right. exists k, (length l).
    split_and!; [done|by rewrite (rep_len _ _ R)|lia|lia|lia|done|done|done].
Qed.

(** Areas that are not met end the loop or leave the state as it is. *)
Lemma step_miss i x l a : scan_inv i x l -> l !! i = Some a ->
  area_end a <= sc_start x \/ sc_end x <= area_start a ->
  if -1 <? overlap_start x
  then scan_done (Z.of_nat i) (Scan (sc_start x) (sc_end x) (overlap_start x) (Z.of_nat i) (sc_v x) (sc_w x))
  else if sc_end x <=? area_start a then scan_done (Z.of_nat i) x else scan_inv (S i) x l.
Proof using Hg Hm HeB Hse.
  clear Hfuel. intros I Hi Hmiss. pose proof (scan_inv_length _ _ _ I) as Hlen.
  pose proof (fun y => scan_inv_covers i x l y I) as Hcov. pose proof (scan_inv_good _ _ _ I) as G.
  pose proof I as [R S Er Et Hr [E1 E2] HB' Hsk Ho]. apply lookup_lt_Some in Hi as Hlt.
  pose proof (rngs_lookup _ _ _ Hi) as Hri. rewrite Er in Hri.
  pose proof (good_wf _ _ Hg) as [Wr Ws]. pose proof (Wr _ _ Hri) as Wi. cbn in Wi.
  assert (Hafter : sc_end x <= area_start a -> after (rngs l0) i (sc_end x)).
  { intros H j p Hj Hp. destruct (decide (j = i)) as [->|]; [by simplify_eq|].
    pose proof (Ws i j _ _ ltac:(lia) Hri Hp) as H'. cbn in H'. lia. }
  destruct Ho as [[Ho Hb]|(k & Ho & Hk & Hb & Ht)]; rewrite Ho.
  - cbn. destruct (sc_end x <=? area_start a) eqn:E; zbool.
    + exists l. rewrite E1 in *. split_and!; try done; try lia. left. split; [done|]. exists i. rewrite Er.
      split_and!; [done| |lia|done|by apply Hafter]. destruct (decide (m <= i)%nat); [done|exfalso].
      assert (l0 !! i = Some a) as Hi0 by (rewrite <- (lookup_take_lt _ m), <- Et, lookup_take_lt by lia; done).
      destruct Hm as [_ Hk]. specialize (Hk i a ltac:(lia) Hi0). lia.
    + split; try done. left. split; [done|]. intros j p Hj Hp.
      destruct (decide (j = i)) as [->|]; [simplify_eq; cbn; lia|]. eapply Hb; [|done]; lia.
  - rewrite (proj2 (Z.ltb_lt _ _)) by lia. exists l. cbn. rewrite E1 in *. split_and!; try done; try lia.
    right. exists k, i. rewrite (proj2 (Z.eqb_neq _ (-1))), Er by lia. split_and!; try done; try lia.
    apply Hafter. destruct Hmiss as [H|]; [|done]. exfalso.
    assert (exists p, rngs l0 !! k = Some p) as [p Hp] by (apply lookup_lt_is_Some_2; rewrite length_rngs; lia).
    destruct (Ht k p ltac:(lia) Hp). pose proof (Ws k i _ _ ltac:(lia) Hp Hri) as H'. cbn in H'. lia.
Qed.

(** An area that is met, after its flags have been cleared, either joins ... *)
Lemma step_join i x l a v1 l1 (Rv1 : represents v1 l1) : scan_inv i x l -> l !! i = Some a ->
  same_vector v0 v1 -> rngs l1 = rngs l0 -> take m l1 = take m l0 -> (m <= i)%nat ->
  sc_start x <= area_end a -> area_start a <= sc_end x ->
  scan_inv (S i) (Scan (sc_start x) (sc_end x) (if overlap_start x =? -1 then Z.of_nat i else overlap_start x)
                    (overlap_end x) v1 (sc_w x)) l1.
Proof using Hg.
  clear Hfuel Hse HeB He Hm HsB. intros [R S Er Et Hr [E1 E2] HB' Hsk Ho] Hi S1 Er1 Et1 Hmi H1 H2.
  pose proof (rngs_lookup _ _ _ Hi) as Hri. rewrite Er in Hri.
  split; cbn; try done. right. destruct Ho as [[Ho Hb]|(k & Ho & Hk & Hb & Ht)].
  - rewrite Ho. cbn. exists i. split_and!; [done|lia|lia|done|]. intros j p Hj Hp.
    replace j with i in * by lia. simplify_eq. cbn. lia.
  - rewrite (proj2 (Z.eqb_neq _ (-1))) by lia. exists k. split_and!; [done|lia|lia|done|]. intros j p Hj Hp.
    destruct (decide (j = i)) as [->|]; [simplify_eq; cbn; lia|]. apply (Ht j p ltac:(lia) Hp).
Qed.

(** ... or the range ends in front of it, what is behind it having been added
    already. *)
Lemma step_before i x l a v2 w2 l2 : scan_inv i x l -> l !! i = Some a -> (m <= i)%nat ->
  sc_start x < area_start a -> area_start a <= sc_end x ->
  good v2 l2 -> same_vector v0 v2 -> take m l2 = take m l0 -> take (S i) (rngs l2) = take (S i) (rngs l0) ->
  (forall y, covers (rngs l2) y <-> covers (rngs l0) y \/ area_end a <= y < sc_end x) ->
  scan_done (Z.of_nat i)
    (Scan (sc_start x) (area_start a)
       (if (if overlap_start x =? -1 then Z.of_nat i else overlap_start x) =? Z.of_nat i then -1
        else (if overlap_start x =? -1 then Z.of_nat i else overlap_start x)) (Z.of_nat i) v2 w2).
Proof using Hg.
  clear Hfuel Hse HeB He Hm HsB. intros [R S Er Et Hr [E1 E2] HB' Hsk Ho] Hi Hmi H1 H2 G2 S2 Et2 Er2 Hcov.
  pose proof (rngs_lookup _ _ _ Hi) as Hri. rewrite Er in Hri.
  assert (Heq : forall j, (j <= i)%nat -> rngs l2 !! j = rngs l0 !! j).
  { intros j Hj. rewrite <- (lookup_take_lt (rngs l2) (Datatypes.S i)), Er2, lookup_take_lt by lia. done. }
  pose proof (good_wf _ _ G2) as [Wr Ws]. pose proof Hri as Hri2. rewrite <- Heq in Hri2 by lia.
  pose proof (Wr _ _ Hri2) as Wi. cbn in Wi. apply lookup_lt_Some in Hri2 as Hlt. rewrite length_rngs in Hlt.
  assert (area_start a ∈ B) as HaB by (apply (good_bounded _ _ G2 (rng a)); by eapply list_elem_of_lookup_2).
  assert (Ha : after (rngs l2) i (area_start a)).
  { intros j p Hj Hp. destruct (decide (j = i)) as [->|]; [rewrite Hri2 in Hp; by simplify_eq|].
    pose proof (Ws i j _ _ ltac:(lia) Hri2 Hp) as H'. cbn in H'. lia. }
  exists l2. cbn. split_and!; try done; try lia.
  - intros y. rewrite Hcov. split.
    + intros [[?|?]|?]; [by left|right; lia|right; lia].
    + intros [?|Hy]; [by left; left|]. destruct (decide (y < sc_start x)); [left; left; apply Hsk; lia|].
      destruct (decide (y < area_start a)); [right; lia|]. destruct (decide (y < area_end a)); [|left; right; lia].
      left. left. exists i, (rng a). split; [done|]. cbn. lia.
  - destruct Ho as [[Ho Hb]|(k & Ho & Hk & Hb & Ht)]; rewrite Ho; cbn.
    + left. rewrite Z.eqb_refl. split; [done|]. exists i. split_and!; [done|lia|lia| |done].
      intros j p Hj Hp. rewrite Heq in Hp by lia. by eapply Hb.
    + right. rewrite (proj2 (Z.eqb_neq (Z.of_nat k) (-1))), (proj2 (Z.eqb_neq (Z.of_nat k) (Z.of_nat i))) by lia.
      exists k, i. rewrite (proj2 (Z.eqb_neq (Z.of_nat i) (-1))) by lia.
      split_and!; [done|done|lia|lia|lia| | |done].
      * intros j p Hj Hp. rewrite Heq in Hp by lia. by eapply Hb.
      * intros j p Hj Hp. pose proof (Ws j i _ _ ltac:(lia) Hp Hri2) as H'. pose proof (Wr _ _ Hp).
        rewrite Heq in Hp by lia. destruct (Ht _ _ Hj Hp). cbn in H'. split; lia.
Qed.

Lemma step_split i x l a v1 l1 : scan_inv i x l -> l !! i = Some a -> (m <= i)%nat ->
  sc_start x <= area_end a -> area_start a <= sc_end x ->
  represents v1 l1 -> same_vector v0 v1 -> rngs l1 = rngs l0 -> take m l1 = take m l0 ->
  l1 !! i = Some (drop_flags vmf a) -> ~ (vm_flags (drop_flags vmf a) = vmf /\ frag_flags (drop_flags vmf a) = ff) ->
  let os := if overlap_start x =? -1 then Z.of_nat i else overlap_start x in
  exists leave x', split_off rec d (Z.of_nat i) os (drop_flags vmf a)
                     (Scan (sc_start x) (sc_end x) os (overlap_end x) v1 (sc_w x)) = Val (leave, x') /\
    if (leave : bool) then scan_done (Z.of_nat i) x' else exists l', scan_inv (S i) x' l'.
Proof using Hrec Hg Hm Hse He HeB Hfuel.
  intros I Hi Hmi H1 H2 R1 S1 Er1 Et1 Hi1 Hdiff os. pose proof I as [R S Er Et Hr [E1 E2] HB' Hsk Ho].
  pose proof (rngs_lookup _ _ _ Hi) as Hri. rewrite Er in Hri.
  assert (good v1 l1) as G1 by (eapply good_step; done).
  pose proof (good_wf _ _ Hg) as [Wr Ws]. pose proof (Wr _ _ Hri) as Wi. cbn in Wi.
  assert (area_end a ∈ B) as HaB by (apply (good_bounded _ _ Hg (rng a)); by eapply list_elem_of_lookup_2).
  destruct (drop_flags_rng vmf a) as [Hrng Hff]. unfold rng in Hrng. injection Hrng as Hs' He'.
  unfold split_off. cbn [sc_start sc_end sc_v sc_w overlap_end]. rewrite Hs', He'.
  destruct (sc_start x <? area_start a) eqn:C1; zbool.
  - assert (exists v2 w2 l2, (if area_end a <? sc_end x
              then '(add_data, w) ← match split_payload_func (cbs v1) with
                                    | Some f => f d (sc_w x) | None => Val (d, sc_w x) end;
                   rec v1 w (area_end a) (sc_end x) add_data
              else Val (v1, sc_w x)) = Val (v2, w2) /\ good v2 l2 /\ same_vector v0 v2 /\
              take (Datatypes.S i) l2 = take (Datatypes.S i) l1 /\
              (forall y, covers (rngs l2) y <-> covers (rngs l0) y \/ area_end a <= y < sc_end x)) as (v2 & w2 & l2 & -> & G2 & S2 & Et2 & Hcov).
    { destruct (area_end a <? sc_end x) eqn:C2; zbool.
      - assert (exists d' w', match split_payload_func (cbs v1) with
                              | Some f => f d (sc_w x) | None => Val (d, sc_w x) end = Val (d', w')) as (d' & w' & ->).
        { destruct (split_payload_func (cbs v1)) eqn:E; [|eauto]. eapply split_returns; [|done]. apply (good_cbs _ _ G1). }
        cbn [mbind cres_bind].
        destruct (Hrec v1 l1 w' (area_end a) (sc_end x) d' (Datatypes.S i)) as (v2 & w2 & l2 & -> & G2 & S2 & Et2 & Hc); try done; try lia.
        { by rewrite E1. }
        { pose proof (lookup_lt_Some _ _ _ Hi1). split; [lia|]. intros j b Hj Hb.
          destruct (decide (j = i)) as [->|]; [right; rewrite Hi1 in Hb; injection Hb as <-; done|].
          left. pose proof (rngs_lookup _ _ _ Hb) as Hrb. rewrite Er1 in Hrb.
          pose proof (Ws j i _ _ ltac:(lia) Hrb Hri) as H'. cbn in H'. lia. }
        { rewrite Er1. pose proof (count_after_lt (rngs l0) s0 (area_end a) i (rng a) ltac:(lia) Hri ltac:(cbn; lia)). lia. }
        exists v2, w2, l2. split_and!; [done|done|exact (same_vector_trans _ _ _ S1 S2)|done|]. intros y. by rewrite Hc, Er1.
      - exists v1, (sc_w x), l1. split_and!; try done. intros y. rewrite Er1. split; [by left|]. intros [?|?]; [done|lia]. }
    cbn [mbind cres_bind].
    assert (l2 !! i = Some (drop_flags vmf a)) as Hi2 by (rewrite <- (lookup_take_lt _ (Datatypes.S i)), Et2, lookup_take_lt by lia; done).
    rewrite (get_spec v2 l2 i (drop_flags vmf a)) by (apply good_rep || done; done). cbn [mbind cres_bind].
    eexists true, _. split; [done|]. rewrite Hs'. apply (step_before i x l a v2 w2 l2 I); try done.
    + rewrite <- Et1, <- (Nat.min_l m (Datatypes.S i)), <- !take_take, Et2 by lia. done.
    + rewrite <- Er1. unfold rngs. by rewrite !firstn_map, Et2.
  - destruct (area_end a <? sc_end x) eqn:C2; zbool.
    + eexists false, _. split; [done|]. exists l1. split; cbn; try done; try lia.
      * intros y Hy. destruct (decide (y < sc_start x)); [apply Hsk; lia|]. exists i, (rng a). split; [done|]. cbn. lia.
      * left. split; [done|]. intros j p Hj Hp. destruct (decide (j = i)) as [->|]; [by simplify_eq|].
        pose proof (Ws j i _ _ ltac:(lia) Hp Hri) as H'. cbn in H'. lia.
    + eexists false, _. split; [done|]. exists l1. by apply (step_join i x l a v1 l1).
Qed.

Lemma step_spec i x l : scan_inv i x l -> (i < length l)%nat ->
  exists leave x', scan_area rec vmf ff d (Z.of_nat i) x = Val (leave, x') /\
    if (leave : bool) then scan_done (Z.of_nat i) x' else exists l', scan_inv (S i) x' l'.
Proof using Hrec Hg Hm Hse He HeB Hfuel.
  intros I Hlt. pose proof (scan_inv_good _ _ _ I) as G. pose proof I as [R S Er Et Hr [E1 E2] HB' Hsk Ho].
  destruct (lookup_lt_is_Some_2 l i Hlt) as [a Hi]. unfold scan_area. rewrite (get_spec (sc_v x) l i a) by done.
  cbn [mbind cres_bind].
  destruct (add_hits_val (sc_v x) (sc_start x) (sc_end x) vmf ff d a (sc_w x)) as (hit & -> & Hhit); [apply (good_cbs _ _ G)|].
  cbn [mbind cres_bind]. destruct hit.
  - pose proof (hit_index i x l a I Hi Hhit) as Hmi.
    destruct (area_set_spec (sc_v x) l i (drop_flags vmf a) R Hlt) as (v1 & -> & R1 & S1). cbn [mbind cres_bind].
    destruct (drop_flags_rng vmf a) as [Hrng _].
    assert (rngs (<[i := drop_flags vmf a]> l) = rngs l0) as Er1 by (rewrite <- Er; by apply (rngs_insert l i a)).
    assert (take m (<[i := drop_flags vmf a]> l) = take m l0) as Et1 by (rewrite <- Et; apply take_insert_ge; lia).
    pose proof (same_vector_trans _ _ _ S S1) as S01. cbn [sc_w].
    assert (sc_start x <= area_end a /\ area_start a <= sc_end x) as [Hh1 Hh2] by lia.
    destruct (should_merge_val v1 false false d (client (drop_flags vmf a)) (sc_w x)) as [b Hb].
    { destruct S01 as [_ ->]. apply (good_cbs _ _ Hg). }
    destruct (negb (vmf =? vm_flags (drop_flags vmf a)) || negb (ff =? frag_flags (drop_flags vmf a))) eqn:D.
    + rewrite Hb. cbn [mbind cres_bind]. destruct b.
      * eexists false, _. split; [done|]. eexists. by eapply step_join.
      * eapply step_split; try done; [rewrite list_lookup_insert_eq by lia; done|].
        intros [D1 D2]. rewrite D1, D2, !Z.eqb_refl in D. done.
    + cbn [mbind cres_bind]. eexists false, _. split; [done|]. eexists. by eapply step_join.
  - pose proof (step_miss i x l a I Hi Hhit) as M. destruct (-1 <? overlap_start x).
    + eexists true, _. split; [done|]. exact M.
    + eexists _, _. split; [done|]. destruct (sc_end x <=? area_start a); [done|by exists l].
Qed.

Lemma scan_spec k i x l : scan_inv i x l -> (i + k = length l)%nat ->
  exists j x', scan_loop rec vmf ff d k (Z.of_nat i) x = Val (j, x') /\ scan_done j x'.
Proof using Hrec Hg Hm Hse He HeB Hfuel.
  revert i x l. induction k as [|k IH]; intros i x l I Hk; cbn [scan_loop].
  - eexists _, _. split; [done|]. eapply before_end; [done|lia].
  - rewrite (proj2 (Z.ltb_lt _ _)) by (rewrite (rep_len _ _ (si_rep _ _ _ I)); lia).
    destruct (step_spec i x l I ltac:(lia)) as (leave & x' & -> & H). cbn [mbind cres_bind]. destruct leave.
    + by eexists _, _.
    + destruct H as [l' I']. replace (Z.of_nat i + 1) with (Z.of_nat (S i)) by lia. eapply IH; [done|].
      rewrite (scan_inv_length _ _ _ I'), <- (scan_inv_length _ _ _ I). lia.
Qed.

Context (init_size incr_size : Z).
Context (Hinit : 0 < init_size < 1073741824) (Hincr : 0 < incr_size < 1073741824).

Lemma finish_spec i x : scan_done i x ->
  exists v' w' l', add_finish init_size incr_size vmf ff d i x = Val (v', w') /\ added v0 l0 s0 e0 m v' l'.
Proof using HB Hse He Hinit Hincr.
  clear Hfuel. intros (l & G & S & Et & Hr & Hr' & HsB' & HeB' & Hcov & Hcase). unfold add_finish.
  pose proof (good_length _ _ G) as Hlen. pose proof G as [R Wf Bd Cb Fr].
  destruct Hcase as [(Ho & i' & -> & Hi & Hb & Ha)|(k & oe & Ho & Hoe & Hmk & Hk & Hb & Ht & Ha)]; rewrite Ho.
  - rewrite Z.eqb_refl.
    edestruct (insert_spec init_size incr_size Hinit Hincr (sc_v x) l i' (mk_area (sc_start x) (sc_end x) vmf ff d) R)
      as (v' & -> & R' & S'); [lia|done|].
    cbn [mbind cres_bind]. eexists _, _, (splice i' i' (mk_area (sc_start x) (sc_end x) vmf ff d) l). split; [done|].
    assert (rngs (splice i' i' (mk_area (sc_start x) (sc_end x) vmf ff d) l) = splice i' i' (sc_start x, sc_end x) (rngs l)) as Er
      by exact (map_splice rng _ _ _ l).
    destruct S' as [Sf Sc]. split; [|split; [|split]].
    + split; [done| | |by rewrite Sc|by rewrite Sf]; rewrite Er.
      * apply splice_wf; rewrite ?length_rngs; try done; lia.
      * by apply splice_bounded.
    + by eapply same_vector_trans.
    + unfold splice. rewrite take_app_le, take_take, Nat.min_l by (rewrite ?length_take; lia). done.
    + intros y. rewrite Er, insert_covers by (rewrite length_rngs; lia). apply Hcov.
  - rewrite (proj2 (Z.eqb_neq _ (-1))) by lia.
    destruct (lookup_lt_is_Some_2 l k ltac:(lia)) as [a Hla]. destruct (lookup_lt_is_Some_2 l (oe - 1) ltac:(lia)) as [b Hlb].
    rewrite Hoe. pose proof (extend_spec (sc_v x) l (sc_w x) (sc_start x) (sc_end x) d k oe a b R Hk Hla Hlb Fr) as M.
    destruct (merge_payload_val (sc_v x) d (client a) (client a) (sc_w x) Cb) as (c & w1 & E1). rewrite E1 in M.
    cbn [mbind cres_bind] in M.
    destruct (merge_fold_val (sc_v x) c w1 (take (oe - (k + 1)) (drop (k + 1) l)) Cb) as (c2 & w2 & E2). rewrite E2 in M.
    cbn [mbind cres_bind refines] in M. destruct M as (v' & -> & R' & [Sf Sc]).
    eexists _, _, _. split; [done|].
    set (new := mk_area _ _ _ _ _) in *.
    assert (rngs (splice k oe new l) = splice k oe (Z.min (sc_start x) (rng a).1, Z.max (sc_end x) (rng b).2) (rngs l)) as Er
      by exact (map_splice rng _ _ _ l).
    destruct (merge_ranges (rngs l) k oe (sc_start x) (sc_end x) (rng a) (rng b)) as [Wf' Hc']; try done;
      [rewrite length_rngs; lia|lia|lia|by apply rngs_lookup|by apply rngs_lookup|].
    split; [|split; [|split]].
    + split; [exact R'| | |by rewrite Sc|by rewrite Sf]; change (wf_ranges (rngs (splice k oe new l))) || change (bounded B (rngs (splice k oe new l)));
        rewrite Er; [done|].
      assert (rng a ∈ rngs l /\ rng b ∈ rngs l) as [HaB HbB] by (split; eapply list_elem_of_lookup_2; by apply rngs_lookup).
      apply Bd in HaB as [? ?]. apply Bd in HbB as [? ?].
      apply splice_bounded; [done| |]; [destruct (Z.min_spec (sc_start x) (rng a).1) as [[_ ->]|[_ ->]]|
        destruct (Z.max_spec (sc_end x) (rng b).2) as [[_ ->]|[_ ->]]]; done.
    + eapply same_vector_trans; [done|]. by split.
    + rewrite take_app_le, take_take, Nat.min_l by (rewrite ?length_take; lia). done.
    + intros y. change (covers (rngs (splice k oe new l)) y <-> covers (rngs l0) y \/ s0 <= y < e0). rewrite Er, Hc'. apply Hcov.
Qed.
End Scan.

Context (init_size incr_size : Z).
Context (Hinit : 0 < init_size < 1073741824) (Hincr : 0 < incr_size < 1073741824).

Lemma add_fuel_spec n : adds n (add_vm_area_fuel init_size incr_size n vmf ff).
Proof using HB Hinit Hincr.
  induction n as [|n IH]; intros v l w s e d m G Hse He HsB HeB Hm Hfuel; [lia|]. cbn [add_vm_area_fuel].
  pose proof (good_rep _ _ G) as R.
  assert (scan_inv v l s e m 0 (Scan s e (-1) (-1) v w) l) as I.
  { split; cbn; try done; [lia|intros; lia|]. left. split; [done|]. intros j p ?. lia. }
  destruct (scan_spec n _ IH v l s e d m G Hse He HeB Hm Hfuel (Z.to_nat (vlength v)) 0 _ l I) as (j & x' & E & D).
  { rewrite (rep_len _ _ R). lia. }
  change (Z.of_nat 0) with 0 in E. rewrite E. cbn [mbind cres_bind]. by apply finish_spec.
Qed.

Lemma add_vm_area_spec v l w s e d : good v l -> 0 <= s < e -> e < w64 -> s ∈ B -> e ∈ B ->
  exists v' w' l', add_vm_area init_size incr_size v w s e vmf ff d = Val (v', w') /\ added v l s e 0 v' l'.
Proof using HB Hinit Hincr.
  intros G Hse He HsB HeB. apply add_fuel_spec; try done.
  - split; [lia|]. intros j a ?. lia.
  - pose proof (count_after_le s (rngs l)). rewrite length_rngs in *. rewrite (rep_len _ _ (good_rep _ _ G)). lia.
Qed.
End Add.
End Cover.
