(* ===== verification/VmVectorRemove.v ===== *)
(** * Removing a range from an area vector *)
From S2P Require Export VmVectorCover.

(** ** Ranges with a range cut out *)

Lemma wf_ranges_cons p r : wf_ranges (p :: r) <->
  (0 <= p.1 < p.2 /\ p.2 < w64) /\ (forall q, q ∈ r -> p.2 <= q.1) /\ wf_ranges r.
Proof.
  split.
  - intros [Hr Hs]. split_and!; try apply (Hr 0%nat p eq_refl).
    + intros q Hq. apply list_elem_of_lookup_1 in Hq as [i Hi]. apply (Hs 0%nat (S i) p q); [lia|done|exact Hi].
    + split; [intros i; apply (Hr (S i))|]. intros i j p' q' Hij. apply (Hs (S i) (S j)). lia.
  - intros (Hp & Hq & [Hr Hs]). split.
    + intros [|i] q H; [cbn in H; simplify_eq; exact Hp|by apply (Hr i)].
    + intros [|i] [|j] q q' Hij H H'; try lia; cbn in *; simplify_eq.
      * by apply Hq; eapply list_elem_of_lookup_2.
      * apply (Hs i j q q'); [lia|done|done].
Qed.

Lemma wf_ranges_app r1 r2 : wf_ranges (r1 ++ r2) <->
  wf_ranges r1 /\ wf_ranges r2 /\ (forall p q, p ∈ r1 -> q ∈ r2 -> p.2 <= q.1).
Proof.
  induction r1 as [|p r1 IH]; cbn [app].
  - split; [|naive_solver]. intros H. split_and!; [apply wf_nil|done|]. intros p q Hp. by apply elem_of_nil in Hp.
  - rewrite !wf_ranges_cons, IH. setoid_rewrite elem_of_app. setoid_rewrite elem_of_cons. naive_solver.
Qed.

Lemma covers_elem r y : covers r y <-> exists p, p ∈ r /\ p.1 <= y < p.2.
Proof.
  unfold covers. split.
  - intros (i & p & H & Hy). exists p. split; [by eapply list_elem_of_lookup_2|done].
  - intros (p & H & Hy). apply list_elem_of_lookup_1 in H as [i Hi]. by exists i, p.
Qed.

(** What [s, e) leaves of a range. *)
Definition cut_range (s e : Z) (p : Z * Z) : list (Z * Z) :=
  (if p.1 <? s then [(p.1, Z.min s p.2)] else []) ++ (if e <? p.2 then [(Z.max e p.1, p.2)] else []).

Lemma elem_of_cut s e p q : q ∈ cut_range s e p <->
  (p.1 < s /\ q = (p.1, Z.min s p.2)) \/ (e < p.2 /\ q = (Z.max e p.1, p.2)).
Proof.
  unfold cut_range. rewrite elem_of_app. destruct (Z.ltb_spec p.1 s), (Z.ltb_spec e p.2); rewrite ?list_elem_of_singleton;
    set_solver by lia.
Qed.

Lemma elem_of_flat_map {T U} (f : T -> list U) (l : list T) y : y ∈ flat_map f l <-> exists x, x ∈ l /\ y ∈ f x.
Proof.
  induction l as [|x l IH]; cbn.
  - split; [intros H; by apply elem_of_nil in H|]. intros (x & H & _). by apply elem_of_nil in H.
  - rewrite elem_of_app, IH. setoid_rewrite elem_of_cons. naive_solver.
Qed.

Lemma cut_wf s e r : s < e -> wf_ranges r -> wf_ranges (flat_map (cut_range s e) r).
Proof.
  intros Hse. induction r as [|p r IH]; [done|]. rewrite wf_ranges_cons. intros (Hp & Hq & Hr). cbn [flat_map].
  apply wf_ranges_app. split_and!; [|by apply IH|].
  - unfold cut_range. destruct (Z.ltb_spec p.1 s), (Z.ltb_spec e p.2); cbn [app];
      rewrite ?wf_ranges_cons; split_and?; cbn; try lia; try apply wf_nil; intros q H';
      rewrite ?elem_of_cons, elem_of_nil in H'; try done. destruct H' as [->|[]]. cbn. lia.
  - intros a b Ha Hb. apply elem_of_flat_map in Hb as (q & Hqr & Hb). specialize (Hq _ Hqr).
    rewrite elem_of_cut in Ha, Hb. naive_solver lia.
Qed.

Lemma cut_covers s e r y : s < e -> covers (flat_map (cut_range s e) r) y <-> covers r y /\ ~ s <= y < e.
Proof.
  intros Hse. rewrite !covers_elem. setoid_rewrite elem_of_flat_map. setoid_rewrite elem_of_cut. split.
  - intros (p & (q & Hq & [[? ->]|[? ->]]) & Hy); cbn in *; (split; [exists q; split; [done|lia]|lia]).
  - intros [(q & Hq & Hy) Hn]. destruct (decide (y < s)).
    + exists (q.1, Z.min s q.2). split; [|cbn; lia]. exists q. split; [done|]. left. split; [lia|done].
    + exists (Z.max e q.1, q.2). split; [|cbn; lia]. exists q. split; [done|]. right. split; [lia|done].
Qed.

Lemma cut_bounded B s e r : bounded B r -> s ∈ B -> e ∈ B -> bounded B (flat_map (cut_range s e) r).
Proof.
  intros H Hs He p Hp. apply elem_of_flat_map in Hp as (q & Hq & Hp). apply H in Hq as [H1 H2].
  rewrite elem_of_cut in Hp. destruct Hp as [[_ ->]|[_ ->]]; cbn; split; try done.
  - by destruct (Z.min_spec s q.2) as [[_ ->]|[_ ->]].
  - by destruct (Z.max_spec e q.1) as [[_ ->]|[_ ->]].
Qed.

Section Remove.
Context {P W : Type}.
Context (hw : bool) (restore_prot : bool).
Implicit Types (v : vm_area_vector_t P W) (l : list (vm_area_t P)) (a b : vm_area_t P).

Definition overlaps (s e : Z) a : Prop := s < area_end a /\ area_start a < e.

(** ** The areas in the range *)

Definition found_areas l (s e : Z) (k oe : nat) : Prop :=
  (k < oe <= length l)%nat /\ before (rngs l) k s /\ after (rngs l) oe e /\
  forall j a, (k <= j < oe)%nat -> l !! j = Some a -> overlaps s e a.

Lemma find_overlap_spec n v l s e i os : represents v l -> wf_ranges (rngs l) -> (i + n = length l)%nat ->
  (os = -1 /\ before (rngs l) i s) \/
  (exists k, os = Z.of_nat k /\ (k < i)%nat /\ before (rngs l) k s /\
             forall j a, (k <= j < i)%nat -> l !! j = Some a -> overlaps s e a) ->
  exists os' oe', find_overlap n v s e (Z.of_nat i) os = Val (os', oe') /\
    ((os' = -1 /\ forall a, a ∈ l -> ~ overlaps s e a) \/
     exists k oe, os' = Z.of_nat k /\ (if oe' =? -1 then vlength v else oe') = Z.of_nat oe /\ found_areas l s e k oe).
Proof.
  intros R Wf. pose proof Wf as [Wr Ws]. revert i os. induction n as [|n IH]; intros i os Hn Hos; cbn [find_overlap].
  - eexists _, _. split; [done|]. destruct Hos as [[-> Hb]|(k & -> & Hk & Hb & Ho)].
    + left. split; [done|]. intros a Ha. apply list_elem_of_lookup_1 in Ha as [j Hj]. pose proof (lookup_lt_Some _ _ _ Hj).
      apply rngs_lookup in Hj. pose proof (Hb j _ ltac:(lia) Hj) as H'. cbn in H'. unfold overlaps. lia.
    + right. exists k, (length l). split; [done|]. split; [by rewrite (rep_len _ _ R)|]. split; [lia|]. split; [done|]. split.
      * intros j p Hj Hp. apply lookup_lt_Some in Hp. rewrite length_rngs in Hp. lia.
      * intros j a Hj. apply Ho. lia.
  - rewrite (proj2 (Z.ltb_lt _ _)) by (rewrite (rep_len _ _ R); lia).
    destruct (lookup_lt_is_Some_2 l i ltac:(lia)) as [a Hi]. rewrite (get_spec v l i a) by done. cbn [mbind cres_bind].
    pose proof (rngs_lookup _ _ _ Hi) as Hri. pose proof (Wr _ _ Hri) as Wi. cbn in Wi.
    replace (Z.of_nat i + 1) with (Z.of_nat (S i)) by lia.
    assert (Ha : e <= area_start a -> after (rngs l) i e).
    { intros He j p Hj Hp. destruct (decide (j = i)) as [->|]; [simplify_eq; done|].
      pose proof (Ws i j _ _ ltac:(lia) Hri Hp) as H'. cbn in H'. lia. }
    destruct ((s <? area_end a) && (area_start a <? e)) eqn:E; zbool.
    + apply IH; [lia|]. right. destruct Hos as [[-> Hb]|(k & -> & Hk & Hb & Ho)].
      * exists i. split_and!; [done|lia|done|]. intros j b Hj Hb'. replace j with i in * by lia. by simplify_eq.
      * rewrite (proj2 (Z.eqb_neq _ (-1))) by lia. exists k. split_and!; [done|lia|done|]. intros j b Hj Hb'.
        destruct (decide (j = i)) as [->|]; [by simplify_eq|]. apply (Ho j); [lia|done].
    + assert (area_end a <= s \/ e <= area_start a) as Hn' by (apply andb_false_iff in E as [E|E]; zbool; lia).
      destruct Hos as [[-> Hb]|(k & -> & Hk & Hb & Ho)].
      * cbn. destruct (e <=? area_start a) eqn:E2; zbool.
        -- eexists _, _. split; [done|]. left. split; [done|]. intros b Hb'. apply list_elem_of_lookup_1 in Hb' as [j Hj].
           apply rngs_lookup in Hj. unfold overlaps. destruct (decide (j < i)%nat).
           ++ pose proof (Hb j _ ltac:(lia) Hj) as H'. cbn in H'. lia.
           ++ pose proof (Ha E2 j _ ltac:(lia) Hj) as H'. cbn in H'. lia.
        -- apply IH; [lia|]. left. split; [done|]. intros j p Hj Hp.
           destruct (decide (j = i)) as [->|]; [simplify_eq; cbn; lia|]. apply (Hb j); [lia|done].
      * rewrite (proj2 (Z.ltb_lt _ _)) by lia. eexists _, _. split; [done|]. right. exists k, i.
        rewrite (proj2 (Z.eqb_neq _ (-1))) by lia. unfold found_areas. split_and!; [done|done|lia|lia|done| |done].
        apply Ha. destruct Hn' as [H|]; [|done]. exfalso.
        destruct (lookup_lt_is_Some_2 l k ltac:(lia)) as [b Hb']. destruct (Ho k b ltac:(lia) Hb').
        apply rngs_lookup in Hb'. pose proof (Ws k i _ _ Hk Hb' Hri) as H'. cbn in H'. lia.
Qed.

(** ** What is left of the areas *)

Definition left_part (s : Z) a : list (vm_area_t P) :=
  if area_start a <? s then [with_range a (area_start a) s] else [].
Definition right_part (e : Z) b : list (vm_area_t P) :=
  if e <? area_end b then [with_range b e (area_end b)] else [].

(** The range lies inside of one area, with something left on both sides. *)
Definition inside (s e : Z) (k oe : nat) a : bool := (area_start a <? s) && (Z.of_nat k =? Z.of_nat oe - 1) && (e <? area_end a).

(** The payloads of the areas in the range are freed in their order. *)
Fixpoint free_fold v (w : W) l : cres W :=
  match l with
  | [] => Val w
  | a :: l => w ← match free_payload_func (cbs v) with Some f => f (client a) w | None => Val w end; free_fold v w l
  end.

Lemma free_fold_same v v' w l : same_vector v v' -> free_fold v' w l = free_fold v w l.
Proof.
  intros [_ H]. revert w. induction l as [|a l IH]; intros w; [done|]. cbn [free_fold]. rewrite H.
  destruct (free_payload_func (cbs v)); [|apply IH]. destruct (c (client a) w); [apply IH|done].
Qed.

Lemma free_areas_spec n v l w i : represents v l -> (i + n <= length l)%nat ->
  exists made, free_areas hw false restore_prot n v w (Z.of_nat i) =
    (w' ← free_fold v w (take n (drop i l)); Val (w', made)).
Proof.
  intros R. revert w i. induction n as [|n IH]; intros w i Hn; cbn [free_areas].
  - by eexists.
  - destruct (lookup_lt_is_Some_2 l i ltac:(lia)) as [a Hi]. rewrite (get_spec v l i a) by done. cbn [mbind cres_bind].
    rewrite (drop_S _ _ _ Hi). cbn [take free_fold]. unfold coarse_unit. rewrite andb_false_r. cbn [mbind cres_bind].
    replace (Z.of_nat i + 1) with (Z.of_nat (S i)) by lia.
    destruct (match free_payload_func (cbs v) with Some f => f (client a) w | None => Val w end) as [w'|]; cbn [mbind cres_bind].
    + destruct (IH w' (S i) ltac:(lia)) as [made ->].
      destruct (free_fold v w' (take n (drop (S i) l))); cbn [mbind cres_bind]; [by eexists|by exists []].
    + by exists [].
Qed.

(** *** The areas after the shortening, and which of them go *)

Section Shrink.
Context (l : list (vm_area_t P)) (s e : Z) (k oe : nat) (a b : vm_area_t P).
Context (Hf : found_areas l s e k oe) (Ha : l !! k = Some a) (Hb : l !! (oe - 1)%nat = Some b) (Hse : s < e).

Definition kept_right : list (vm_area_t P) := if inside s e k oe a then [] else right_part e b.
Definition first_gone : nat := (k + length (left_part s a))%nat.
Definition end_gone : nat := (oe - length kept_right)%nat.
Definition gone : list (vm_area_t P) := take (end_gone - first_gone) (drop first_gone l).
Definition remaining : list (vm_area_t P) := take k l ++ left_part s a ++ kept_right ++ drop oe l.

Lemma shorten_first_spec v : represents v l -> exists v1 made,
  shorten_first hw false restore_prot v s e (Z.of_nat k) (Z.of_nat oe) =
    Val (v1, Z.of_nat first_gone, if inside s e k oe a then Some (with_range a e (area_end a)) else None, made) /\
  represents v1 (if area_start a <? s then <[k := with_range a (area_start a) s]> l else l) /\ same_vector v v1.
Proof using Hf Ha.
  intros R. destruct Hf as [Hk _]. unfold shorten_first, first_gone, left_part, inside.
  rewrite (get_spec v l k a) by done. cbn [mbind cres_bind]. destruct (area_start a <? s) eqn:E; cbn [andb].
  - destruct (area_set_spec v l k (with_range a (area_start a) s) R ltac:(lia)) as (v1 & -> & R1 & S1).
    cbn [mbind cres_bind length]. unfold coarse_unit. rewrite andb_false_r. cbn [mbind cres_bind].
    replace (Z.of_nat (k + 1)) with (Z.of_nat k + 1) by lia. by eexists _, _.
  - cbn [length]. rewrite Nat.add_0_r. eexists v, _. by split_and!.
Qed.

Lemma shrink_spec v : represents v l -> exists v1 v2 made1 made2 l2,
  shorten_first hw false restore_prot v s e (Z.of_nat k) (Z.of_nat oe) =
    Val (v1, Z.of_nat first_gone, if inside s e k oe a then Some (with_range a e (area_end a)) else None, made1) /\
  shorten_last hw false restore_prot v1 e (Z.of_nat oe) = Val (v2, Z.of_nat end_gone, made2) /\
  represents v2 l2 /\ same_vector v v2 /\ (first_gone <= end_gone <= length l2)%nat /\
  take first_gone l2 ++ drop end_gone l2 = remaining /\
  take (end_gone - first_gone) (drop first_gone l2) = gone.
Proof using Hf Ha Hb Hse.
  intros R. destruct (shorten_first_spec v R) as (v1 & made1 & E1 & R1 & S1). rewrite E1. destruct Hf as [Hk _].
  exists v1. unfold shorten_last. replace (Z.of_nat oe - 1) with (Z.of_nat (oe - 1)) by lia.
  unfold gone, remaining, first_gone, end_gone, kept_right, left_part in *.
  destruct (area_start a <? s) eqn:Es; zbool.
  - cbn [length app] in *. destruct (decide (k = (oe - 1)%nat)) as [Ek|Ek].
    + assert (inside s e k oe a = (e <? area_end a)) as Ei.
      { unfold inside. rewrite (proj2 (Z.ltb_lt _ _)), (proj2 (Z.eqb_eq _ _)) by lia. done. }
      rewrite (get_spec v1 _ (oe - 1) (with_range a (area_start a) s)) by (done || (rewrite <- Ek, list_lookup_insert_eq by lia; done)).
      cbn [mbind cres_bind with_range area_end]. rewrite (proj2 (Z.ltb_ge e s)) by lia.
      assert (b = a) as -> by (rewrite <- Ek in Hb; congruence).
      assert ((if inside s e k oe a then [] else right_part e a) = []) as ->.
      { rewrite Ei. unfold right_part. by destruct (e <? area_end a). }
      cbn [length]. rewrite Nat.sub_0_r. eexists v1, _, _, _. split; [done|]. split; [done|]. split; [exact R1|].
      split; [done|]. rewrite length_insert. split; [lia|].
      replace (oe - (k + 1))%nat with 0%nat by lia. split; [|done]. rewrite drop_insert_lt by lia.
      replace (k + 1)%nat with (S k) by lia. rewrite (take_S_r _ _ (with_range a (area_start a) s)) by (rewrite list_lookup_insert_eq by lia; done).
      rewrite take_insert_ge, <- app_assoc by lia. done.
    + assert (inside s e k oe a = false) as Ei.
      { unfold inside. rewrite (proj2 (Z.eqb_neq _ _)) by lia. by rewrite andb_false_r. }
      rewrite Ei. rewrite (get_spec v1 _ (oe - 1) b) by (done || (rewrite list_lookup_insert_ne by lia; done)).
      cbn [mbind cres_bind]. unfold right_part. destruct (e <? area_end b) eqn:Ee; zbool.
      * destruct (area_set_spec v1 _ (oe - 1) (with_range b e (area_end b)) R1 ltac:(rewrite length_insert; lia)) as (v2 & -> & R2 & S2).
        cbn [mbind cres_bind]. unfold coarse_unit. rewrite andb_false_r. cbn [mbind cres_bind length].
        eexists v2, _, _, _. split; [done|]. split; [done|]. split; [exact R2|]. split; [by eapply same_vector_trans|].
        rewrite !length_insert. split; [lia|]. split.
        -- rewrite drop_insert_ge, Nat.sub_diag, drop_insert_lt by lia. rewrite (drop_S _ _ _ Hb). cbn [insert list_insert app].
           replace (S (oe - 1)) with oe by lia. rewrite take_insert_ge by lia.
           replace (k + 1)%nat with (S k) by lia. rewrite (take_S_r _ _ (with_range a (area_start a) s)) by (rewrite list_lookup_insert_eq by lia; done).
           rewrite take_insert_ge, <- app_assoc by lia. done.
        -- rewrite drop_insert_ge, take_insert_ge, drop_insert_lt by lia. done.
      * cbn [length]. rewrite Nat.sub_0_r. eexists v1, _, _, _. split; [done|]. split; [done|]. split; [exact R1|].
        split; [done|]. rewrite length_insert. split; [lia|]. rewrite !drop_insert_lt by lia. split; [|done].
        replace (k + 1)%nat with (S k) by lia. rewrite (take_S_r _ _ (with_range a (area_start a) s)) by (rewrite list_lookup_insert_eq by lia; done).
        rewrite take_insert_ge, <- app_assoc by lia. done.
  - cbn [length app] in *. rewrite Nat.add_0_r in *.
    assert (inside s e k oe a = false) as Ei by (unfold inside; rewrite (proj2 (Z.ltb_ge _ _)) by lia; done).
    rewrite Ei in *. rewrite (get_spec v1 l (oe - 1) b) by done. cbn [mbind cres_bind].
    unfold right_part. destruct (e <? area_end b) eqn:Ee; zbool.
    + destruct (area_set_spec v1 _ (oe - 1) (with_range b e (area_end b)) R1 ltac:(lia)) as (v2 & -> & R2 & S2).
      cbn [mbind cres_bind]. unfold coarse_unit. rewrite andb_false_r. cbn [mbind cres_bind length].
      eexists v2, _, _, _. split; [done|]. split; [done|]. split; [exact R2|]. split; [by eapply same_vector_trans|].
      rewrite length_insert. split; [lia|]. split.
      * rewrite take_insert_ge, drop_insert_ge, Nat.sub_diag by lia. rewrite (drop_S _ _ _ Hb). cbn [insert list_insert app].
        by replace (S (oe - 1)) with oe by lia.
      * rewrite drop_insert_ge, take_insert_ge by lia. done.
    + cbn [length]. rewrite Nat.sub_0_r. eexists v1, _, _, _. split; [done|]. split; [done|]. split; [exact R1|].
      split; [done|]. split; [lia|]. done.
Qed.
End Shrink.

Section Spec.
Context (init_size incr_size : Z).

(** The payload of the part behind the range when it lies inside of an area. *)
Definition split_payload v (d : P) (w : W) : cres (P * W) :=
  match split_payload_func (cbs v) with Some f => f d w | None => Val (d, w) end.

(** [remove_vm_area] in terms of the areas. *)
Lemma remove_spec v l w s e : represents v l -> wf_ranges (rngs l) -> s < e ->
  TEST VECTOR_FRAGMENT_LIST (vflags v) = false ->
  ((forall a, a ∈ l -> ~ overlaps s e a) /\
   remove_vm_area init_size incr_size hw false restore_prot v w s e = Val (false, [], v, w)) \/
  exists k oe a b v1 made, found_areas l s e k oe /\ l !! k = Some a /\ l !! (oe - 1)%nat = Some b /\
    represents v1 (remaining l s e k oe a b) /\ same_vector v v1 /\
    remove_vm_area init_size incr_size hw false restore_prot v w s e =
      (w ← free_fold v w (gone l s e k oe a b);
       '(v2, w) ← (if inside s e k oe a
                   then '(c, w) ← split_payload v (client a) w;
                        add_vm_area init_size incr_size v1 w e (area_end a)
                          (clear_bits VM_ADD_TO_SHARED_DATA (vm_flags a)) (clear_bits FRAG_COARSE_GRAIN (frag_flags a)) c
                   else Val (v1, w));
       Val (true, made, v2, w)).
Proof.
  intros R Wf Hse Hfr. unfold remove_vm_area.
  destruct (find_overlap_spec (Z.to_nat (vlength v)) v l s e 0 (-1) R Wf) as (os & oe & Ef & Hcase).
  { rewrite (rep_len _ _ R). lia. }
  { left. split; [done|]. intros j p ?. lia. }
  change (Z.of_nat 0) with 0 in Ef. rewrite Ef. cbn [mbind cres_bind].
  destruct Hcase as [[-> Hno]|(k & oe' & -> & Hoe & Hf)]; [by left|]. right.
  rewrite (proj2 (Z.eqb_neq _ (-1))), Hoe by lia. pose proof Hf as [Hk _].
  destruct (lookup_lt_is_Some_2 l k ltac:(lia)) as [a Ha]. destruct (lookup_lt_is_Some_2 l (oe' - 1) ltac:(lia)) as [b Hb].
  destruct (shrink_spec l s e k oe' a b Hf Ha Hb Hse v R)
    as (v1 & v2 & made1 & made2 & l2 & -> & E2 & R2 & S2 & Hg & Hrem & Hgone).
  cbn [mbind cres_bind]. rewrite E2. cbn [mbind cres_bind].
  set (fg := first_gone s k a) in *. set (eg := end_gone s e k oe' a b) in *.
  exists k, oe', a, b.
  assert (exists v3 made3, represents v3 (remaining l s e k oe' a b) /\ same_vector v v3 /\
    (if Z.of_nat fg <? Z.of_nat eg
     then '(w, made) ← free_areas hw false restore_prot (Z.to_nat (Z.of_nat eg - Z.of_nat fg)) v2 w (Z.of_nat fg);
          if TEST VECTOR_FRAGMENT_LIST (vflags v2) then Undef else
          v ← delete_areas v2 (Z.of_nat fg) (Z.of_nat eg - Z.of_nat fg); Val (v, w, made)
     else Val (v2, w, [])) = (w ← free_fold v w (gone l s e k oe' a b); Val (v3, w, made3))) as (v3 & made3 & R3 & S3 & ->).
  { destruct (Z.of_nat fg <? Z.of_nat eg) eqn:E; zbool.
    - replace (Z.to_nat (Z.of_nat eg - Z.of_nat fg)) with (eg - fg)%nat by lia.
      destruct (free_areas_spec (eg - fg) v2 l2 w fg R2 ltac:(lia)) as [made3 ->].
      replace (Z.of_nat eg - Z.of_nat fg) with (Z.of_nat (eg - fg)) by lia.
      destruct (area_delete_spec v2 l2 fg (eg - fg) R2 ltac:(lia)) as (v3 & Ed & R3 & S3). rewrite Ed.
      replace (fg + (eg - fg))%nat with eg in R3 by lia. rewrite Hrem in R3.
      exists v3, made3. split_and!; [done|by eapply same_vector_trans|]. rewrite Hgone, (free_fold_same v v2) by done.
      destruct S2 as [Sf _]. rewrite Sf, Hfr. by destruct (free_fold v w (gone l s e k oe' a b)).
    - exists v2, []. assert (fg = eg) as Efg by lia. rewrite <- Efg, take_drop in Hrem. subst l2.
      split_and!; [done|done|]. rewrite <- Hgone, Efg, Nat.sub_diag. done. }
  exists v3, (made1 ++ made2 ++ made3). split_and!; try done.
  destruct (free_fold v w (gone l s e k oe' a b)) as [w1|]; [|done]. cbn [mbind cres_bind].
  destruct (inside s e k oe' a); [|done]. cbn [with_range client area_start area_end vm_flags frag_flags].
  unfold split_payload. destruct S3 as [_ ->]. done.
Qed.
End Spec.

(** *** The remaining areas are the areas with the range cut out *)

Definition cut_area (s e : Z) a : list (vm_area_t P) :=
  (if area_start a <? s then [with_range a (area_start a) (Z.min s (area_end a))] else []) ++
  (if e <? area_end a then [with_range a (Z.max e (area_start a)) (area_end a)] else []).

Lemma rngs_cut s e l : rngs (flat_map (cut_area s e) l) = flat_map (cut_range s e) (rngs l).
Proof.
  induction l as [|a l IH]; [done|]. cbn [flat_map rngs map]. unfold rngs in *. rewrite map_app, IH. f_equal.
  unfold cut_area, cut_range, rng. cbn. by destruct (area_start a <? s), (e <? area_end a).
Qed.

Lemma cut_away s e l : s < e -> (forall a, a ∈ l -> area_start a < area_end a /\ ~ overlaps s e a) ->
  flat_map (cut_area s e) l = l.
Proof.
  intros Hse. unfold overlaps. induction l as [|a l IH]; intros H; [done|]. cbn [flat_map]. rewrite IH by (intros; apply H; set_solver).
  destruct (H a) as [H1 H2]; [set_solver|]. unfold cut_area, with_range.
  destruct (Z.ltb_spec (area_start a) s), (Z.ltb_spec e (area_end a)); try lia.
  - replace (Z.min s (area_end a)) with (area_end a) by lia. by destruct a.
  - replace (Z.max e (area_start a)) with (area_start a) by lia. by destruct a.
Qed.

Lemma cut_overlapped s e a m b : s < e -> wf_ranges (rngs (a :: m)) -> (forall c, c ∈ a :: m -> overlaps s e c) ->
  last (a :: m) = Some b -> flat_map (cut_area s e) (a :: m) = left_part s a ++ right_part e b.
Proof.
  intros Hse. revert a. induction m as [|c m IH]; intros a Wf Ho Hl.
  - cbn in Hl. simplify_eq. cbn [flat_map]. rewrite app_nil_r. unfold cut_area, left_part, right_part.
    destruct (Ho b) as [H1 H2]; [set_solver|].
    replace (Z.min s (area_end b)) with s by lia. by replace (Z.max e (area_start b)) with e by lia.
  - change (flat_map (cut_area s e) (a :: c :: m)) with (cut_area s e a ++ flat_map (cut_area s e) (c :: m)).
    cbn [rngs map] in Wf. apply wf_ranges_cons in Wf as (Wa & Wac & Wf). cbn [fst snd rng] in *.
    specialize (Wac (rng c) ltac:(set_solver)). cbn in Wac.
    destruct (Ho a) as [A1 A2]; [set_solver|]. destruct (Ho c) as [C1 C2]; [set_solver|].
    rewrite (IH c); [|done|intros; apply Ho; set_solver|done].
    unfold cut_area, left_part. rewrite (proj2 (Z.ltb_ge e (area_end a))), (proj2 (Z.ltb_ge (area_start c) s)) by lia.
    replace (Z.min s (area_end a)) with s by lia. by rewrite app_nil_r.
Qed.

Lemma rngs_app l1 l2 : rngs (l1 ++ l2) = rngs l1 ++ rngs l2.
Proof. apply map_app. Qed.
Lemma elem_of_rngs l a : a ∈ l -> rng a ∈ rngs l.
Proof. intros H. apply list_elem_of_lookup_1 in H as [i Hi]. by eapply list_elem_of_lookup_2, rngs_lookup. Qed.
Lemma wf_area l a : wf_ranges (rngs l) -> a ∈ l -> 0 <= area_start a < area_end a /\ area_end a < w64.
Proof. intros [Hr _] H. apply list_elem_of_lookup_1 in H as [i Hi]. by apply rngs_lookup, Hr in Hi. Qed.

(** The areas in front of the range, in it and behind it. *)
Lemma found_split l s e k oe a b : wf_ranges (rngs l) -> s < e -> found_areas l s e k oe ->
  l !! k = Some a -> l !! (oe - 1)%nat = Some b -> exists m,
    l = take k l ++ (a :: m) ++ drop oe l /\ length (a :: m) = (oe - k)%nat /\ last (a :: m) = Some b /\
    flat_map (cut_area s e) (take k l) = take k l /\ flat_map (cut_area s e) (drop oe l) = drop oe l /\
    flat_map (cut_area s e) (a :: m) = left_part s a ++ right_part e b.
Proof.
  intros Wf Hse (Hk & Hbf & Haf & Hov) Ha Hb. exists (take (oe - k - 1) (drop (S k) l)).
  assert (a :: take (oe - k - 1) (drop (S k) l) = take (oe - k) (drop k l)) as Em.
  { rewrite (drop_S _ _ _ Ha). by replace (oe - k)%nat with (S (oe - k - 1)) by lia; rewrite Nat.sub_succ, Nat.sub_0_r. }
  assert (El : l = take k l ++ (a :: take (oe - k - 1) (drop (S k) l)) ++ drop oe l).
  { rewrite Em. rewrite <- (take_drop k l) at 1. f_equal. rewrite <- (take_drop (oe - k) (drop k l)) at 1. f_equal.
    rewrite drop_drop. f_equal. lia. }
  assert (Hlen : length (a :: take (oe - k - 1) (drop (S k) l)) = (oe - k)%nat).
  { rewrite Em, length_take, length_drop. lia. }
  assert (Hlast : last (a :: take (oe - k - 1) (drop (S k) l)) = Some b).
  { rewrite last_lookup, Hlen, Em. rewrite lookup_take_lt, lookup_drop by lia. rewrite <- Hb. f_equal. lia. }
  split_and!; [exact El|done|done| | |].
  - apply cut_away; [done|]. intros c Hc. split; [eapply wf_area; [done|rewrite El; set_solver]|].
    apply list_elem_of_lookup_1 in Hc as [j Hj]. pose proof (lookup_lt_Some _ _ _ Hj) as Hlt. rewrite length_take in Hlt.
    rewrite lookup_take_lt in Hj by lia. apply rngs_lookup in Hj. pose proof (Hbf j _ ltac:(lia) Hj) as H. cbn in H.
    unfold overlaps. lia.
  - apply cut_away; [done|]. intros c Hc. split; [eapply wf_area; [done|rewrite El; set_solver]|].
    apply list_elem_of_lookup_1 in Hc as [j Hj]. rewrite lookup_drop in Hj. apply rngs_lookup in Hj.
    pose proof (Haf (oe + j)%nat _ ltac:(lia) Hj) as H. cbn in H. unfold overlaps. lia.
  - apply cut_overlapped; try done.
    + rewrite El, !rngs_app in Wf. apply wf_ranges_app in Wf as (_ & Wf & _). by apply wf_ranges_app in Wf as (Wf & _ & _).
    + rewrite Em. intros c Hc. apply list_elem_of_lookup_1 in Hc as [j Hj]. pose proof (lookup_lt_Some _ _ _ Hj) as Hlt.
      rewrite length_take in Hlt. rewrite lookup_take_lt, lookup_drop in Hj by lia. apply (Hov (k + j)%nat); [lia|done].
Qed.

Lemma remaining_cut l s e k oe a b : wf_ranges (rngs l) -> s < e -> found_areas l s e k oe ->
  l !! k = Some a -> l !! (oe - 1)%nat = Some b ->
  if inside s e k oe a
  then a = b /\ area_start a < s /\ e < area_end a /\ l = take k l ++ a :: drop oe l /\ gone l s e k oe a b = [] /\
       remaining l s e k oe a b = take k l ++ with_range a (area_start a) s :: drop oe l
  else remaining l s e k oe a b = flat_map (cut_area s e) l.
Proof.
  intros Wf Hse Hf Ha Hb. destruct (found_split l s e k oe a b Wf Hse Hf Ha Hb) as (m & El & Hlen & Hlast & E1 & E2 & E3).
  pose proof Hf as [Hk _]. unfold gone, remaining, kept_right, first_gone, end_gone, kept_right.
  destruct (inside s e k oe a) eqn:Ei.
  - unfold inside in Ei. zbool. cbn in Hlen. assert (m = []) as -> by (destruct m; [done|cbn in Hlen; lia]).
    cbn in Hlast. simplify_eq. split_and!; try done. 
    + unfold left_part. rewrite (proj2 (Z.ltb_lt _ _)) by lia. cbn [length].
      by replace (oe - 0 - (k + 1))%nat with 0%nat by lia.
    + unfold left_part. by rewrite (proj2 (Z.ltb_lt _ _)) by lia.
  - rewrite El at 3. rewrite !flat_map_app, E1, E2, E3, <- !app_assoc. done.
Qed.

(** ** The addresses covered *)

Section Covers.
Context (init_size incr_size : Z).
Context (Hinit : 0 < init_size < 1073741824) (Hincr : 0 < incr_size < 1073741824).
Context (B : gset Z) (HB : Z.of_nat (size B) < 1073741824).

Lemma free_fold_val v w l : callbacks_return (cbs v) -> exists w', free_fold v w l = Val w'.
Proof.
  clear. intros H. revert w. induction l as [|a l IH]; intros w; cbn [free_fold]; [eauto|].
  destruct (free_payload_func (cbs v)) eqn:E; [|apply IH]. destruct (free_returns _ H _ E (client a) w) as [w' ->]. apply IH.
Qed.

Lemma remove_vm_area_spec v l w s e : good B v l -> 0 <= s < e -> e < w64 -> s ∈ B -> e ∈ B ->
  exists ok made v' w' l',
    remove_vm_area init_size incr_size hw false restore_prot v w s e = Val (ok, made, v', w') /\
    good B v' l' /\ same_vector v v' /\
    (forall y, covers (rngs l') y <-> covers (rngs l) y /\ ~ s <= y < e) /\
    (ok = true <-> exists y, s <= y < e /\ covers (rngs l) y).
Proof using Hinit Hincr HB.
  intros G Hse He HsB HeB. pose proof G as [R Wf Bd Cb Fr]. pose proof Wf as [Wr Ws].
  destruct (remove_spec init_size incr_size v l w s e R Wf ltac:(lia) Fr)
    as [[Hno ->]|(k & oe & a & b & v1 & made & Hf & Ha & Hb & R1 & S1 & ->)].
  - assert (Hn : forall y, covers (rngs l) y -> ~ s <= y < e).
    { intros y (i & p & Hi & Hy) Hy'. apply rngs_lookup_inv in Hi as (c & Hc & ->). cbn in Hy.
      apply (Hno c); [by eapply list_elem_of_lookup_2|]. unfold overlaps. lia. }
    eexists _, _, _, _, l. split; [done|]. split; [done|]. split; [done|]. split; [naive_solver|]. split; [done|].
    intros (y & Hy & Hc). by destruct (Hn y Hc).
  - pose proof (remaining_cut l s e k oe a b Wf ltac:(lia) Hf Ha Hb) as Hrem.
    destruct (free_fold_val v w (gone l s e k oe a b) Cb) as [w1 ->]. cbn [mbind cres_bind].
    assert (Hok : exists y, s <= y < e /\ covers (rngs l) y).
    { destruct Hf as (Hk & _ & _ & Ho). destruct (Ho k a ltac:(lia) Ha) as [O1 O2]. apply rngs_lookup in Ha.
      pose proof (Wr _ _ Ha) as Wa. cbn in Wa. exists (Z.max s (area_start a)). split; [lia|]. exists k, (rng a). split; [done|]. cbn. lia. }
    destruct S1 as [Sf Sc]. destruct (inside s e k oe a).
    + destruct Hrem as (<- & H1 & H2 & El & _ & Erem). rewrite Erem in R1.
      assert (a ∈ l) as Hal by (by eapply list_elem_of_lookup_2).
      pose proof (wf_area l a Wf Hal) as Wa. pose proof (elem_of_rngs l a Hal) as Har. apply Bd in Har as [HaB1 HaB2]. cbn in HaB1, HaB2.
      set (l1 := take k l ++ with_range a (area_start a) s :: drop oe l) in *.
      assert (Er : rngs l = rngs (take k l) ++ rng a :: rngs (drop oe l)) by (rewrite El at 1; apply map_app).
      assert (Er1 : rngs l1 = rngs (take k l) ++ (area_start a, s) :: rngs (drop oe l)) by (apply map_app).
      assert (Wf1 : wf_ranges (rngs l1)).
      { rewrite Er1. rewrite Er, wf_ranges_app, wf_ranges_cons in Wf. rewrite wf_ranges_app, wf_ranges_cons.
        destruct Wf as (? & (? & Hq & ?) & Hpq). split_and!; try done; cbn in *; [lia..| |].
        - intros q Hq'. specialize (Hq _ Hq'). lia.
        - intros p q Hp Hq'. apply elem_of_cons in Hq' as [->|Hq']; cbn; [apply (Hpq p (rng a)); set_solver|apply Hpq; set_solver]. }
      assert (Bd1 : bounded B (rngs l1)).
      { rewrite Er1. intros p Hp. apply elem_of_app in Hp as [Hp|Hp]; [apply Bd; rewrite Er; set_solver|].
        apply elem_of_cons in Hp as [->|Hp]; [done|apply Bd; rewrite Er; set_solver]. }
      assert (G1 : good B v1 l1) by (split; [done|done|done|by rewrite Sc|by rewrite Sf]).
      assert (exists c w2, split_payload v (client a) w1 = Val (c, w2)) as (c & w2 & ->).
      { unfold split_payload. destruct (split_payload_func (cbs v)) eqn:E; [by eapply split_returns|eauto]. }
      cbn [mbind cres_bind].
      destruct (add_vm_area_spec B HB (clear_bits VM_ADD_TO_SHARED_DATA (vm_flags a)) (clear_bits FRAG_COARSE_GRAIN (frag_flags a))
        init_size incr_size Hinit Hincr v1 l1 w2 e (area_end a) c G1) as (v' & w' & l' & -> & G' & S' & _ & Hc); try done; try lia.
      cbn [mbind cres_bind]. eexists _, _, _, _, l'. split; [done|]. split; [done|].
      split; [eapply same_vector_trans; [|done]; done|]. split; [|done]. intros y. rewrite Hc, Er1, Er.
      rewrite !covers_elem. setoid_rewrite elem_of_app. setoid_rewrite elem_of_cons.
      rewrite Er, wf_ranges_app, wf_ranges_cons in Wf. destruct Wf as (_ & (_ & Hq & _) & Hpq).
      split.
      * intros [(p & [Hp|[->|Hp]] & Hy)|Hy]; cbn in *.
        -- specialize (Hpq p (rng a) Hp ltac:(set_solver)). cbn in Hpq. split; [exists p; naive_solver|lia].
        -- split; [exists (rng a); split; [naive_solver|cbn; lia]|lia].
        -- specialize (Hq _ Hp). split; [exists p; naive_solver|lia].
        -- split; [exists (rng a); split; [naive_solver|cbn; lia]|lia].
      * intros [(p & [Hp|[->|Hp]] & Hy) Hn]; cbn in *; [left; exists p; naive_solver| |left; exists p; naive_solver].
        destruct (decide (y < s)); [|right; lia]. left. exists (area_start a, s). split; [naive_solver|cbn; lia].
    + rewrite Hrem in R1. cbn [mbind cres_bind]. eexists _, _, _, _, (flat_map (cut_area s e) l). split; [done|].
      split; [split; [done| | |by rewrite Sc|by rewrite Sf]; rewrite rngs_cut; [by apply cut_wf; [lia|]|by apply cut_bounded]|].
      split; [done|]. split; [|done]. intros y. rewrite rngs_cut. apply cut_covers. lia.
Qed.
End Covers.
End Remove.
