(* ===== verification/VmVectorSearch.v ===== *)
(** * Searching an area vector *)
From S2P Require Export VmVectorRemove.

Section Search.
Context {P W : Type}.
Implicit Types (v : vm_area_vector_t P W) (l : list (vm_area_t P)) (a b : vm_area_t P).

(** An area overlaps the range, of which an end of 0 is the top of the address
    space. *)
Definition meets (s e : Z) a : Prop := s < area_end a /\ (e = 0 \/ area_start a < e).

(** Areas that do not meet the range lie on one side of it. *)
Definition below l (i : Z) (s : Z) : Prop := forall j a, Z.of_nat j < i -> l !! j = Some a -> area_end a <= s.
Definition above l (i : Z) (e : Z) : Prop := forall j a, i < Z.of_nat j -> l !! j = Some a -> e <> 0 /\ e <= area_start a.

Lemma wf_lookup l i a : wf_ranges (rngs l) -> l !! i = Some a -> 0 <= area_start a < area_end a /\ area_end a < w64.
Proof. intros [Hr _] H. by apply rngs_lookup, Hr in H. Qed.
Lemma wf_order l i j a b : wf_ranges (rngs l) -> (i < j)%nat -> l !! i = Some a -> l !! j = Some b -> area_end a <= area_start b.
Proof. intros [_ Hs] Hij Ha Hb. apply rngs_lookup in Ha, Hb. by apply (Hs _ _ _ _ Hij Ha) in Hb. Qed.

Lemma first_overlap_spec v l k s i a : represents v l -> wf_ranges (rngs l) -> (i <= k)%nat -> l !! i = Some a -> s < area_end a ->
  exists j b, first_overlap k v s (Z.of_nat i) = Val (Z.of_nat j) /\ (j <= i)%nat /\ l !! j = Some b /\ s < area_end b /\
    below l (Z.of_nat j) s.
Proof.
  intros R Wf. revert i a. induction k as [|k IH]; intros i a Hk Hi Ha; cbn [first_overlap].
  - exists i, a. split_and!; try done. intros j b Hj. lia.
  - destruct i as [|i].
    + exists 0%nat, a. rewrite (proj2 (Z.leb_gt 1 _)) by lia. split_and!; try done. intros j b Hj. lia.
    + rewrite (proj2 (Z.leb_le 1 _)) by lia. replace (Z.of_nat (S i) - 1) with (Z.of_nat i) by lia.
      apply lookup_lt_Some in Hi as Hlt. destruct (lookup_lt_is_Some_2 l i ltac:(lia)) as [b Hb].
      rewrite (get_spec v l i b) by done. cbn [mbind cres_bind]. destruct (s <? area_end b) eqn:E; zbool.
      * destruct (IH i b ltac:(lia) Hb E) as (j & c & -> & Hj & ?). exists j, c. split_and!; try tauto. lia.
      * exists (S i), a. split_and!; try done. intros j c Hj Hc.
        destruct (decide (j = i)) as [->|]; [by simplify_eq|].
        pose proof (wf_order _ j i _ _ Wf ltac:(lia) Hc Hb). pose proof (wf_lookup _ _ _ Wf Hb). lia.
Qed.

Lemma search_loop_spec v l s e first k mn mx : represents v l -> wf_ranges (rngs l) -> Z.of_nat (length l) < 1073741824 ->
  0 <= mn -> mx < Z.of_nat (length l) -> -1 <= mx -> mn <= mx + 1 -> mx - mn + 1 < Z.of_nat k -> below l mn s -> above l mx e ->
  (exists i a, search_loop k v s e first mn mx = Val (true, Z.of_nat i) /\ l !! i = Some a /\ meets s e a /\
     (first = true -> below l (Z.of_nat i) s)) \/
  (exists i, search_loop k v s e first mn mx = Val (false, i) /\ -1 <= i < Z.of_nat (length l) /\ below l (i + 1) s /\ above l i e).
Proof.
  intros R Wf Hlen. revert mn mx. induction k as [|k IH]; intros mn mx H0 H1 H2 H2' H3 Hb Ha; [lia|]. cbn [search_loop].
  destruct (mn <=? mx) eqn:E; zbool.
  - rewrite s32_small by lia. set (i := Z.quot (mn + mx) 2).
    assert (mn <= i <= mx) as Hi.
    { unfold i. rewrite Z.quot_div_nonneg by lia. pose proof (Z.div_mod (mn + mx) 2 ltac:(lia)).
      pose proof (Z.mod_pos_bound (mn + mx) 2 ltac:(lia)). lia. }
    destruct (lookup_lt_is_Some_2 l (Z.to_nat i) ltac:(lia)) as [a Hla].
    replace i with (Z.of_nat (Z.to_nat i)) by lia. rewrite (get_spec v l _ a) by done. cbn [mbind cres_bind].
    destruct (negb (e =? 0) && (e <=? area_start a)) eqn:C1; zbool.
    + apply IH; try lia; [done|]. intros j b Hj Hlb. split; [lia|].
      destruct (decide (j = Z.to_nat i)) as [->|]; [by simplify_eq|].
      destruct (decide (Z.of_nat j <= mx)); [|apply (Ha j b); [lia|done]].
      pose proof (wf_order _ (Z.to_nat i) j _ _ Wf ltac:(lia) Hla Hlb). pose proof (wf_lookup _ _ _ Wf Hla). lia.
    + destruct (area_end a <=? s) eqn:C2; zbool.
      * apply IH; try lia; [|done]. intros j b Hj Hlb. destruct (decide (j = Z.to_nat i)) as [->|]; [by simplify_eq|].
        pose proof (wf_order _ j (Z.to_nat i) _ _ Wf ltac:(lia) Hlb Hla). pose proof (wf_lookup _ _ _ Wf Hla). lia.
      * left. assert (Hm : e = 0 \/ area_start a < e).
        { apply andb_false_iff in C1 as [C1|C1]; zbool; [left|right]; done. }
        destruct first.
        -- destruct (first_overlap_spec v l (Z.to_nat (Z.of_nat (Z.to_nat i))) s (Z.to_nat i) a R Wf ltac:(lia) Hla C2)
             as (j & b & -> & Hj & Hlb & Hsb & Hbj).
           cbn [mbind cres_bind]. exists j, b. split; [done|]. split; [done|]. split; [|done]. split; [done|].
           destruct (decide (j = Z.to_nat i)) as [->|]; [by simplify_eq|].
           pose proof (wf_order _ j (Z.to_nat i) _ _ Wf ltac:(lia) Hlb Hla). pose proof (wf_lookup _ _ _ Wf Hla).
           pose proof (wf_lookup _ _ _ Wf Hlb). lia.
        -- exists (Z.to_nat i), a. by split_and!.
  - right. exists mx. split; [done|]. split; [lia|]. split; [|done]. replace (mx + 1) with mn by lia. done.
Qed.

Lemma search_spec v l s e first : represents v l -> wf_ranges (rngs l) -> Z.of_nat (length l) < 1073741824 ->
  (exists i a, binary_search v s e first = Val (true, Z.of_nat i) /\ l !! i = Some a /\ meets s e a /\
     (first = true -> below l (Z.of_nat i) s)) \/
  (exists i, binary_search v s e first = Val (false, i) /\ -1 <= i < Z.of_nat (length l) /\ below l (i + 1) s /\ above l i e).
Proof.
  intros R Wf Hlen. unfold binary_search. apply search_loop_spec; try done; rewrite ?(rep_len _ _ R); try lia.
  - intros j a Hj. lia.
  - intros j a Hj Ha. apply lookup_lt_Some in Ha. lia.
Qed.

(** No area meets the range when the search fails. *)
Lemma below_above l i s e a : below l (i + 1) s -> above l i e -> a ∈ l -> ~ meets s e a.
Proof.
  intros Hb Ha Hin [H1 H2]. apply list_elem_of_lookup_1 in Hin as [j Hj]. destruct (decide (Z.of_nat j < i + 1)).
  - specialize (Hb j a ltac:(lia) Hj). lia.
  - destruct (Ha j a ltac:(lia) Hj). lia.
Qed.

(** ** One address *)

Definition contains (pc : Z) a : bool := (area_start a <=? pc) && (pc <? area_end a).

Lemma contains_spec pc a : contains pc a = true <-> area_start a <= pc < area_end a.
Proof. unfold contains. rewrite andb_true_iff, Z.leb_le, Z.ltb_lt. lia. Qed.

Lemma meets_contains l pc a : wf_ranges (rngs l) -> a ∈ l -> 0 <= pc < w64 -> meets pc (u64 (pc + 1)) a <-> contains pc a = true.
Proof.
  intros Wf Ha Hpc. rewrite contains_spec. apply list_elem_of_lookup_1 in Ha as [i Hi]. pose proof (wf_lookup _ _ _ Wf Hi).
  unfold meets. destruct (decide (pc + 1 = w64)) as [E|].
  - unfold u64. rewrite E, Z_mod_same_full. lia.
  - rewrite u64_small by lia. lia.
Qed.

(** The area that holds an address is unique. *)
Lemma contains_unique l i j a b pc : wf_ranges (rngs l) -> l !! i = Some a -> l !! j = Some b ->
  contains pc a = true -> contains pc b = true -> i = j.
Proof.
  rewrite !contains_spec. intros Wf Hi Hj Ha Hb. destruct (Nat.lt_trichotomy i j) as [H|[H|H]]; [|done|].
  - pose proof (wf_order _ _ _ _ _ Wf H Hi Hj). lia.
  - pose proof (wf_order _ _ _ _ _ Wf H Hj Hi). lia.
Qed.

Lemma lookup_addr_spec v l pc : represents v l -> wf_ranges (rngs l) -> Z.of_nat (length l) < 1073741824 -> 0 <= pc < w64 ->
  (exists i a, lookup_addr v pc = Val (Some (Z.of_nat i)) /\ l !! i = Some a /\ contains pc a = true /\
     List.find (contains pc) l = Some a) \/
  (lookup_addr v pc = Val None /\ List.find (contains pc) l = None).
Proof.
  intros R Wf Hlen Hpc. unfold lookup_addr.
  destruct (search_spec v l pc (u64 (pc + 1)) false R Wf Hlen) as [(i & a & -> & Hi & Hm & _)|(i & -> & Hi & Hb & Ha)].
  - left. exists i, a. split; [done|]. split; [done|]. assert (a ∈ l) as Hal by (by eapply list_elem_of_lookup_2).
    apply (meets_contains l pc a Wf Hal Hpc) in Hm. split; [done|].
    destruct (List.find (contains pc) l) as [b|] eqn:E.
    + apply List.find_some in E as [Hb Hcb]. apply list_elem_of_In, list_elem_of_lookup_1 in Hb as [j Hj].
      pose proof (contains_unique _ _ _ _ _ _ Wf Hi Hj Hm Hcb) as ->. congruence.
    + apply list_elem_of_In in Hal. by rewrite (List.find_none _ _ E a Hal) in Hm.
  - right. split; [done|]. destruct (List.find (contains pc) l) as [b|] eqn:E; [|done]. exfalso.
    apply List.find_some in E as [Hb' Hcb]. apply list_elem_of_In in Hb'.
    apply (below_above l i pc (u64 (pc + 1)) b Hb Ha Hb'). by apply (meets_contains l pc b Wf Hb' Hpc).
Qed.
End Search.
