(* ===== verification/VmVectorPlain.v ===== *)
(** * The operations of a vector, on its list of areas

    The areas of a vector that is only used through the [vmvector_] interface
    have no flags; such areas are called plain.  For them each operation of the
    interface is a short function of the list of areas. *)
From S2P Require Export VmVectorSearch.

Section Plain.
Context {P W : Type}.
Implicit Types (v : vm_area_vector_t P W) (l : list (vm_area_t P)) (a : vm_area_t P).

Definition plain l : Prop := forall a, a ∈ l -> vm_flags a = 0 /\ frag_flags a = 0.

(** ** Adding: the areas in front, those that join the range, those behind *)

Section Add.
Context (v : vm_area_vector_t P W) (w : W) (s e : Z) (d : P).

Fixpoint before_ref l : cres (list (vm_area_t P) * list (vm_area_t P)) :=
  match l with
  | [] => Val ([], [])
  | a :: t =>
      hit ← add_hits v s e 0 0 d a w;
      if (hit : bool) then Val ([], l)
      else if e <=? area_start a then Val ([], l) else '(b, r) ← before_ref t; Val (a :: b, r)
  end.

Fixpoint run_ref l : cres (list (vm_area_t P) * list (vm_area_t P)) :=
  match l with
  | [] => Val ([], [])
  | a :: t =>
      hit ← add_hits v s e 0 0 d a w;
      if (hit : bool) then '(h, r) ← run_ref t; Val (a :: h, r) else Val ([], l)
  end.

Definition add_ref l : cres (list (vm_area_t P) * W) :=
  '(b, r) ← before_ref l;
  '(h, r) ← run_ref r;
  match h with
  | [] => Val (b ++ mk_area s e 0 0 d :: r, w)
  | a :: t =>
      let z := default a (last h) in
      '(c, w) ← merge_payload v d (client a) (client a) w;
      '(c, w) ← merge_fold v c w t;
      Val (b ++ mk_area (Z.min s (area_start a)) (Z.max e (area_end z)) 0 0 c :: r, w)
  end.

(** *** The loop of [add_vm_area] over plain areas *)

Lemma set_same v' l i a : represents v' l -> l !! i = Some a -> set_area v' (Z.of_nat i) a = Val v'.
Proof using.
  intros [Hl Hc Hb] Hi. unfold set_area. pose proof (lookup_lt_Some _ _ _ Hi). destruct (buf v') as [bb|] eqn:E; [|lia].
  destruct Hb as [Hn [rest ->]]. rewrite (proj2 (Z.leb_le 0 _)) by lia.
  rewrite (proj2 (Z.ltb_lt _ _)) by (rewrite length_app, length_map; lia). cbn [andb]. rewrite Nat2Z.id, list_insert_id.
  - unfold with_buf. rewrite <- E. by destruct v'.
  - rewrite lookup_app_l by (rewrite length_map; lia). by rewrite list_lookup_fmap, Hi.
Qed.

Section Scan.
Context (rec : vm_area_vector_t P W -> W -> Z -> Z -> P -> cres (vm_area_vector_t P W * W)).
Context (l : list (vm_area_t P)) (R : represents v l) (Pl : plain l).

Lemma scan_plain i x a : sc_v x = v -> sc_start x = s -> sc_end x = e -> sc_w x = w -> l !! i = Some a ->
  scan_area rec 0 0 d (Z.of_nat i) x =
    (hit ← add_hits v s e 0 0 d a w;
     if (hit : bool) then
       Val (false, Scan s e (if overlap_start x =? -1 then Z.of_nat i else overlap_start x) (overlap_end x) v w)
     else if -1 <? overlap_start x then Val (true, Scan s e (overlap_start x) (Z.of_nat i) v w)
     else Val (e <=? area_start a, x)).
Proof using R Pl.
  intros Ev Es Ee Ew Hi. unfold scan_area. rewrite Ev, Es, Ee, Ew, (get_spec v l i a) by done. cbn [mbind cres_bind].
  destruct (add_hits v s e 0 0 d a w) as [[]|]; [|done|done]. cbn [mbind cres_bind].
  destruct (Pl a) as [F1 F2]; [by eapply list_elem_of_lookup_2|].
  assert (drop_flags 0 a = a) as -> by (unfold drop_flags, drop_flag; rewrite F1; change (TEST VM_WAS_FUTURE 0) with false; cbn [andb]; by rewrite F1).
  rewrite (set_same v l i a) by done. cbn [mbind cres_bind]. by rewrite F1, F2.
Qed.

Lemma scan_run n i k rest : (i + n = length l)%nat -> drop i l = rest -> (k < i)%nat ->
  match run_ref rest with
  | Val (h, r) => exists j, scan_loop rec 0 0 d n (Z.of_nat i) (Scan s e (Z.of_nat k) (-1) v w) =
      Val (j, Scan s e (Z.of_nat k) (if r is [] then -1 else Z.of_nat (i + length h)) v w)
  | Undef => scan_loop rec 0 0 d n (Z.of_nat i) (Scan s e (Z.of_nat k) (-1) v w) = Undef
  end.
Proof using R Pl.
  revert i rest. induction n as [|n IH]; intros i rest Hn Hd Hk.
  - rewrite drop_ge in Hd by lia. subst rest. cbn. by eexists.
  - destruct (lookup_lt_is_Some_2 l i ltac:(lia)) as [a Hi]. rewrite (drop_S _ _ _ Hi) in Hd. subst rest.
    cbn [run_ref scan_loop sc_v]. rewrite (proj2 (Z.ltb_lt _ _)) by (rewrite (rep_len _ _ R); lia).
    rewrite (scan_plain i _ a) by done. destruct (add_hits v s e 0 0 d a w) as [[]|]; cbn [mbind cres_bind overlap_start overlap_end];
      [| |done].
    + rewrite (proj2 (Z.eqb_neq _ (-1))) by lia. replace (Z.of_nat i + 1) with (Z.of_nat (S i)) by lia.
      specialize (IH (S i) _ ltac:(lia) eq_refl ltac:(lia)). destruct (run_ref (drop (S i) l)) as [[h r]|]; [|done].
      cbn [mbind cres_bind]. destruct IH as [j ->]. exists j. cbn [length].
      by replace (i + S (length h))%nat with (S i + length h)%nat by lia.
    + rewrite (proj2 (Z.ltb_lt _ _)) by lia. eexists. cbn [length]. by rewrite Nat.add_0_r.
Qed.

Lemma scan_before n i rest : (i + n = length l)%nat -> drop i l = rest ->
  match before_ref rest with
  | Undef => scan_loop rec 0 0 d n (Z.of_nat i) (Scan s e (-1) (-1) v w) = Undef
  | Val (b, r) =>
      match run_ref r with
      | Undef => scan_loop rec 0 0 d n (Z.of_nat i) (Scan s e (-1) (-1) v w) = Undef
      | Val ([], _) => scan_loop rec 0 0 d n (Z.of_nat i) (Scan s e (-1) (-1) v w) =
                         Val (Z.of_nat (i + length b), Scan s e (-1) (-1) v w)
      | Val (h, r') => exists j, scan_loop rec 0 0 d n (Z.of_nat i) (Scan s e (-1) (-1) v w) =
          Val (j, Scan s e (Z.of_nat (i + length b)) (if r' is [] then -1 else Z.of_nat (i + length b + length h)) v w)
      end
  end.
Proof using R Pl.
  revert i rest. induction n as [|n IH]; intros i rest Hn Hd.
  - rewrite drop_ge in Hd by lia. subst rest. cbn. by rewrite Nat.add_0_r.
  - destruct (lookup_lt_is_Some_2 l i ltac:(lia)) as [a Hi]. rewrite (drop_S _ _ _ Hi) in Hd. subst rest.
    cbn [before_ref scan_loop sc_v]. rewrite (proj2 (Z.ltb_lt _ _)) by (rewrite (rep_len _ _ R); lia).
    rewrite (scan_plain i _ a) by done. destruct (add_hits v s e 0 0 d a w) as [hit|] eqn:Eh; [|done].
    cbn [mbind cres_bind overlap_start overlap_end]. replace (Z.of_nat i + 1) with (Z.of_nat (S i)) by lia. destruct hit.
    + cbn [run_ref]. rewrite Eh. cbn [mbind cres_bind].
      pose proof (scan_run n (S i) i (drop (S i) l) ltac:(lia) eq_refl ltac:(lia)) as M.
      destruct (run_ref (drop (S i) l)) as [[h r]|]; [|done]. cbn [mbind cres_bind].
      destruct M as [j M]. exists j. rewrite Z.eqb_refl, M. cbn [length].
      by replace (i + 0 + S (length h))%nat with (S i + length h)%nat by lia; rewrite Nat.add_0_r.
    + cbn. destruct (e <=? area_start a) eqn:Ee.
      * cbn [run_ref]. rewrite Eh. cbn [mbind cres_bind length]. by rewrite Nat.add_0_r.
      * specialize (IH (S i) _ ltac:(lia) eq_refl). destruct (before_ref (drop (S i) l)) as [[b r]|]; [|done].
        cbn [mbind cres_bind length]. destruct (run_ref r) as [[[|c h] r']|]; [| |done].
        -- rewrite IH. by replace (i + S (length b))%nat with (S i + length b)%nat by lia.
        -- destruct IH as [j ->]. exists j. replace (i + S (length b))%nat with (S i + length b)%nat by lia. done.
Qed.
End Scan.

Lemma before_ref_app l (b r : list (vm_area_t P)) : before_ref l = Val (b, r) -> l = b ++ r.
Proof using.
  revert b r. induction l as [|a l IH]; intros b r H; cbn in H; [by simplify_eq|].
  destruct (add_hits v s e 0 0 d a w) as [[]|]; cbn in H; [by simplify_eq| |done].
  destruct (e <=? area_start a); [by simplify_eq|]. destruct (before_ref l) as [[b' r']|]; cbn in H; [|done].
  simplify_eq. cbn. f_equal. by apply IH.
Qed.
Lemma run_ref_app l h r : run_ref l = Val (h, r) -> l = h ++ r.
Proof using.
  revert h r. induction l as [|a l IH]; intros h r H; cbn in H; [by simplify_eq|].
  destruct (add_hits v s e 0 0 d a w) as [[]|]; cbn in H; [| by simplify_eq|done].
  destruct (run_ref l) as [[h' r']|]; cbn in H; [|done]. simplify_eq. cbn. f_equal. by apply IH.
Qed.

Context (init_size incr_size : Z).
Context (Hinit : 0 < init_size < 1073741824) (Hincr : 0 < incr_size < 1073741824).

Lemma add_plain l : represents v l -> plain l -> Z.of_nat (length l) < 1073741824 ->
  TEST VECTOR_FRAGMENT_LIST (vflags v) = false ->
  refines v (vmvector_add init_size incr_size v w s e d) (add_ref l).
Proof using Hinit Hincr.
  intros R Pl Hlen Hfr. unfold vmvector_add, add_vm_area, add_ref. cbn [add_vm_area_fuel].
  set (rec := add_vm_area_fuel init_size incr_size (Z.to_nat (vlength v)) 0 0).
  pose proof (scan_before rec l R Pl (Z.to_nat (vlength v)) 0 l) as M. change (Z.of_nat 0) with 0 in M.
  specialize (M ltac:(rewrite (rep_len _ _ R); lia) eq_refl).
  destruct (before_ref l) as [[b r]|] eqn:Eb; cbn [mbind cres_bind]; [|by rewrite M].
  destruct (run_ref r) as [[h r']|] eqn:Er; cbn [mbind cres_bind]; [|by rewrite M].
  pose proof (before_ref_app _ _ _ Eb) as ->. pose proof (run_ref_app _ _ _ Er) as ->.
  assert (Hdrop : drop (length b + length h) (b ++ h ++ r') = r').
  { rewrite app_assoc, <- length_app. apply drop_app_length. }
  destruct h as [|a h].
  - rewrite M. cbn [mbind cres_bind]. unfold add_finish. cbn [overlap_start sc_v sc_start sc_end sc_w]. rewrite Z.eqb_refl.
    destruct (insert_spec init_size incr_size Hinit Hincr v _ (length b) (mk_area s e 0 0 d) R ltac:(rewrite length_app; lia) Hlen)
      as (v' & E & R' & S'). cbn [Nat.add] in *. rewrite E. cbn [mbind cres_bind]. exists v'. split; [done|]. split; [|done].
    rewrite take_app_length in R'. rewrite Nat.add_0_r in Hdrop. cbn [app] in *. by rewrite Hdrop in R'.
  - destruct M as [j ->]. cbn [mbind cres_bind]. unfold add_finish. cbn [overlap_start overlap_end sc_v sc_start sc_end sc_w Nat.add].
    rewrite (proj2 (Z.eqb_neq _ (-1))) by lia.
    replace (if (if r' is [] then -1 else Z.of_nat (length b + length (a :: h))) =? -1 then vlength v
             else if r' is [] then -1 else Z.of_nat (length b + length (a :: h))) with (Z.of_nat (length b + length (a :: h))).
    2:{ destruct r'; [|by rewrite (proj2 (Z.eqb_neq _ (-1))) by lia]. rewrite (rep_len _ _ R), !length_app. cbn. lia. }
    assert (is_Some (last (a :: h))) as [z Hz] by (apply last_is_Some; done).
    pose proof (extend_spec v _ w s e d (length b) (length b + length (a :: h)) a z R) as X.
    assert ((b ++ (a :: h) ++ r') !! length b = Some a) as Ha.
    { rewrite lookup_app_r, Nat.sub_diag by lia. done. }
    destruct (Pl a) as [F1 F2]; [by eapply list_elem_of_lookup_2|].
    assert ((b ++ (a :: h) ++ r') !! (length b + length (a :: h) - 1)%nat = Some z) as Hz'.
    { rewrite lookup_app_r by (cbn; lia). rewrite last_lookup in Hz.
      replace (length b + length (a :: h) - 1 - length b)%nat with (pred (length (a :: h))) by (cbn; lia).
      rewrite lookup_app_l by (cbn; lia). done. }
    assert (take (length b + length (a :: h) - (length b + 1)) (drop (length b + 1) (b ++ (a :: h) ++ r')) = h) as Hh.
    { rewrite <- drop_drop, drop_app_length. cbn [app length drop]. 
      replace (length b + S (length h) - (length b + 1))%nat with (length h) by lia. apply take_app_length. }
    rewrite take_app_length, F1, F2, Hh, Hdrop in X. rewrite Hz. cbn [from_option id].
    apply X; [rewrite !length_app; cbn; lia|done|done|done].
Qed.
End Add.

(** *** What adding leaves *)

Lemma before_ref_spec v w s e d l (b r : list (vm_area_t P)) a : before_ref v w s e d l = Val (b, r) -> a ∈ b -> area_end a <= s.
Proof.
  revert b r. induction l as [|c l IH]; intros b r H Ha; cbn in H; [simplify_eq; by apply elem_of_nil in Ha|].
  destruct (add_hits v s e 0 0 d c w) as [[]|] eqn:Eh; cbn in H; [simplify_eq; by apply elem_of_nil in Ha| |done].
  destruct (e <=? area_start c) eqn:E; [simplify_eq; by apply elem_of_nil in Ha|].
  destruct (before_ref v w s e d l) as [[b' r']|]; cbn in H; [|done]. simplify_eq.
  apply elem_of_cons in Ha as [->|Ha]; [|by eapply IH]. unfold add_hits in Eh.
  destruct ((s <? area_end c) && (area_start c <? e)) eqn:E2; [done|]. apply andb_false_iff in E2 as [E2|E2]; zbool; lia.
Qed.

Lemma hit_touches v s e d a w : add_hits v s e 0 0 d a w = Val true -> s <= area_end a /\ area_start a <= e.
Proof.
  unfold add_hits. destruct ((s <? area_end a) && (area_start a <? e)) eqn:E; [intros; zbool; lia|].
  case_eqn E2; [|done]. intros _. zbool. lia.
Qed.

Lemma run_ref_spec v w s e d l (h r : list (vm_area_t P)) : run_ref v w s e d l = Val (h, r) ->
  (forall a, a ∈ h -> s <= area_end a /\ area_start a <= e) /\
  (forall a r', r = a :: r' -> add_hits v s e 0 0 d a w = Val false).
Proof.
  revert h r. induction l as [|c l IH]; intros h r H; cbn in H.
  - simplify_eq. split; [|done]. intros a Ha. by apply elem_of_nil in Ha.
  - destruct (add_hits v s e 0 0 d c w) as [[]|] eqn:Eh; cbn in H; [| |done].
    + destruct (run_ref v w s e d l) as [[h' r']|]; cbn in H; [|done]. simplify_eq.
      destruct (IH _ _ eq_refl) as [H1 H2]. split; [|done]. intros a Ha.
      apply elem_of_cons in Ha as [->|Ha]; [by eapply hit_touches|by apply H1].
    + simplify_eq. split; [intros a Ha; by apply elem_of_nil in Ha|]. intros a r' [= -> ->]. done.
Qed.

(** Where the areas of the three parts lie. *)
Lemma add_parts v w s e d l (b r0 h r : list (vm_area_t P)) : wf_ranges (rngs l) ->
  before_ref v w s e d l = Val (b, r0) -> run_ref v w s e d r0 = Val (h, r) ->
  l = b ++ h ++ r /\ (forall a, a ∈ b -> area_end a <= s) /\
  (forall a, a ∈ h -> s <= area_end a /\ area_start a <= e) /\ (forall a, a ∈ r -> e <= area_start a).
Proof.
  intros Wf Eb Er. pose proof (before_ref_app _ _ _ _ _ _ _ _ Eb) as El. pose proof (run_ref_app _ _ _ _ _ _ _ _ Er) as El0.
  destruct (run_ref_spec _ _ _ _ _ _ _ _ Er) as [Hh Hr]. split_and!; [by rewrite El, El0|intros a Ha; exact (before_ref_spec _ _ _ _ _ _ _ _ a Eb Ha)|done|].
  assert (Hhd : forall a r', r = a :: r' -> e <= area_start a).
  { intros a r' ->. specialize (Hr _ _ eq_refl). pose proof Hr as Hmiss. unfold add_hits in Hr.
    destruct ((s <? area_end a) && (area_start a <? e)) eqn:E2; [done|]. destruct h as [|c h].
    - clear -Eb El0 Hmiss. cbn in El0. subst r0. revert b Eb. induction l as [|c l IH]; intros b Eb; cbn in Eb; [done|].
      destruct (add_hits v s e 0 0 d c w) as [[]|] eqn:Eh; cbn in Eb; [|destruct (e <=? area_start c) eqn:Ee|done].
      + simplify_eq. congruence.
      + simplify_eq. by zbool.
      + destruct (before_ref v w s e d l) as [[b' r1]|] eqn:E1; cbn in Eb; [|done]. simplify_eq. by eapply IH.
    - rewrite El, El0, !rngs_app in Wf. apply wf_ranges_app in Wf as (_ & Wf & _).
      apply wf_ranges_app in Wf as (Wh & Wr & Hhr). specialize (Hhr (rng c) (rng a)). cbn in Hhr.
      pose proof (wf_area (a :: r') a Wr ltac:(set_solver)). destruct (Hh c ltac:(set_solver)).
      specialize (Hhr ltac:(cbn; set_solver) ltac:(cbn; set_solver)).
      apply andb_false_iff in E2 as [E2|E2]; zbool; lia. }
  intros a Ha. destruct r as [|c r']; [by apply elem_of_nil in Ha|]. specialize (Hhd _ _ eq_refl).
  apply elem_of_cons in Ha as [->|Ha]; [done|]. rewrite El, El0, !rngs_app in Wf.
  apply wf_ranges_app in Wf as (_ & Wf & _). apply wf_ranges_app in Wf as (_ & Wf & _).
  cbn [rngs map] in Wf. apply wf_ranges_cons in Wf as (Hc & Hca & _). specialize (Hca (rng a) (elem_of_rngs _ _ Ha)). cbn in *. lia.
Qed.

Lemma add_ref_inv v w s e d l l' w' : wf_ranges (rngs l) -> plain l -> 0 <= s < e -> e < w64 ->
  add_ref v w s e d l = Val (l', w') ->
  exists b h r c, l = b ++ h ++ r /\ (forall a, a ∈ b -> area_end a <= s) /\
    (forall a, a ∈ h -> s <= area_end a /\ area_start a <= e) /\ (forall a, a ∈ r -> e <= area_start a) /\
    before_ref v w s e d l = Val (b, h ++ r) /\ run_ref v w s e d (h ++ r) = Val (h, r) /\
    match h with
    | [] => l' = b ++ mk_area s e 0 0 d :: r /\ c = d /\ w' = w
    | a :: t => l' = b ++ mk_area (Z.min s (area_start a)) (Z.max e (area_end (default a (last h)))) 0 0 c :: r /\
        exists c0 w0, merge_payload v d (client a) (client a) w = Val (c0, w0) /\ merge_fold v c0 w0 t = Val (c, w')
    end.
Proof.
  intros Wf Pl Hse He H. unfold add_ref in H.
  destruct (before_ref v w s e d l) as [[b r0]|] eqn:Eb; cbn [mbind cres_bind] in H; [|done].
  destruct (run_ref v w s e d r0) as [[h r]|] eqn:Er; cbn [mbind cres_bind] in H; [|done].
  destruct (add_parts _ _ _ _ _ _ _ _ _ _ Wf Eb Er) as (El & Hb & Hh & Hr).
  pose proof (run_ref_app _ _ _ _ _ _ _ _ Er) as El0. subst r0. destruct h as [|a t].
  - simplify_eq. exists b, [], r, d. by split_and!.
  - destruct (merge_payload v d (client a) (client a) w) as [[c0 w0]|] eqn:E1; cbn [mbind cres_bind] in H; [|done].
    destruct (merge_fold v c0 w0 t) as [[c w1]|] eqn:E2; cbn [mbind cres_bind] in H; [|done]. simplify_eq.
    exists b, (a :: t), r, c. split_and!; try done. exists c0, w0. done.
Qed.

(** The range of the area that adding leaves: the new range and those that
    join it. *)
Lemma joined_range (h t : list (vm_area_t P)) a : h = a :: t -> wf_ranges (rngs h) ->
  forall c : vm_area_t P, c ∈ h -> area_start a <= area_start c /\ area_end c <= area_end (default a (last h)).
Proof.
  intros -> Wf c Hc. assert (is_Some (last (a :: t))) as [z Hz] by (by apply last_is_Some). rewrite Hz. cbn [from_option id].
  apply list_elem_of_lookup_1 in Hc as [i Hi]. rewrite last_lookup in Hz. apply lookup_lt_Some in Hi as Hlt. split.
  - destruct i as [|i]; [cbn in Hi; simplify_eq; lia|]. pose proof (wf_order _ 0 (S i) _ _ Wf ltac:(lia) eq_refl Hi).
    pose proof (wf_lookup _ 0%nat _ Wf eq_refl). lia.
  - destruct (decide (i = pred (length (a :: t)))) as [->|]; [rewrite Hi in Hz; simplify_eq; lia|].
    pose proof (wf_order _ i (pred (length (a :: t))) _ _ Wf ltac:(lia) Hi Hz). pose proof (wf_lookup _ _ _ Wf Hz). lia.
Qed.

Lemma wf_ranges_middle (b r : list (vm_area_t P)) (x : vm_area_t P) : wf_ranges (rngs (b ++ r)) -> 0 <= area_start x < area_end x -> area_end x < w64 ->
  (forall c : vm_area_t P, c ∈ b -> area_end c <= area_start x) -> (forall c : vm_area_t P, c ∈ r -> area_end x <= area_start c) ->
  wf_ranges (rngs (b ++ x :: r)).
Proof.
  intros Wf Hx Hx' Hb Hr. rewrite rngs_app in *. cbn [rngs map]. apply wf_ranges_app in Wf as (W1 & W2 & W12).
  apply wf_ranges_app. split_and!; [done| |].
  - apply wf_ranges_cons. split_and!; cbn; try lia; [|done]. intros q Hq.
    apply list_elem_of_fmap in Hq as (c & -> & Hc). by apply Hr.
  - intros p q Hp Hq. apply elem_of_cons in Hq as [->|Hq]; [|by apply W12].
    apply list_elem_of_fmap in Hp as (c & -> & Hc). by apply Hb.
Qed.

Lemma add_ref_wf v w s e d l l' w' : wf_ranges (rngs l) -> plain l -> 0 <= s < e -> e < w64 ->
  add_ref v w s e d l = Val (l', w') -> wf_ranges (rngs l') /\ plain l' /\ (length l' <= S (length l))%nat.
Proof.
  intros Wf Pl Hse He H. destruct (add_ref_inv _ _ _ _ _ _ _ _ Wf Pl Hse He H) as (b & h & r & c & El & Hb & Hh & Hr & _ & _ & Hl').
  assert (Wbr : wf_ranges (rngs (b ++ r)) /\ wf_ranges (rngs h) /\ (forall x y : vm_area_t P, x ∈ b -> y ∈ h -> area_end x <= area_start y) /\
                (forall x y : vm_area_t P, x ∈ h -> y ∈ r -> area_end x <= area_start y)).
  { rewrite El, !rngs_app, !wf_ranges_app in Wf. destruct Wf as (W1 & (W2 & W3 & W23) & W123). rewrite rngs_app, wf_ranges_app.
    split_and!; try done.
    - intros p q Hp Hq. apply W123; [done|]. by apply elem_of_app; right.
    - intros x y Hx Hy. apply (W123 (rng x) (rng y)); [by apply elem_of_rngs|]. apply elem_of_app; left. by apply elem_of_rngs.
    - intros x y Hx Hy. apply (W23 (rng x) (rng y)); by apply elem_of_rngs. }
  destruct Wbr as (Wbr & Wh & Wbh & Whr).
  assert (Pbr : forall x : vm_area_t P, x ∈ b \/ x ∈ r -> vm_flags x = 0 /\ frag_flags x = 0) by (intros x Hx; apply Pl; rewrite El; set_solver).
  destruct h as [|a t].
  - destruct Hl' as (-> & _ & _). split_and!.
    + apply wf_ranges_middle; cbn; try done; lia.
    + intros x Hx. apply elem_of_app in Hx as [Hx|Hx]; [apply Pbr; by left|]. apply elem_of_cons in Hx as [->|Hx]; [done|]. apply Pbr; by right.
    + rewrite El, !length_app. cbn. lia.
  - destruct Hl' as (-> & _). pose proof (joined_range _ t a eq_refl Wh) as Hj.
    assert (is_Some (last (a :: t))) as [z Hz] by (by apply last_is_Some). rewrite Hz in *. cbn [from_option id] in *.
    assert (z ∈ a :: t) as Hzin by (rewrite last_lookup in Hz; by eapply list_elem_of_lookup_2).
    pose proof (wf_area _ _ Wh (list_elem_of_here a t)). pose proof (wf_area _ _ Wh Hzin).
    pose proof (Hj a (list_elem_of_here a t)). split_and!.
    + apply wf_ranges_middle; cbn; try done; try lia.
      * intros x Hx. specialize (Hb x Hx). specialize (Wbh x a Hx (list_elem_of_here a t)). lia.
      * intros x Hx. specialize (Hr x Hx). specialize (Whr z x Hzin Hx). lia.
    + intros x Hx. apply elem_of_app in Hx as [Hx|Hx]; [apply Pbr; by left|]. apply elem_of_cons in Hx as [->|Hx]; [done|]. apply Pbr; by right.
    + rewrite El, !length_app. cbn. rewrite ?length_app. cbn. lia.
Qed.

(** ** Removing *)

Definition overlapsb (s e : Z) a : bool := (s <? area_end a) && (area_start a <? e).
Definition in_range (s e : Z) a : bool := (s <=? area_start a) && (area_end a <=? e).
Definition encloses (s e : Z) a : bool := (area_start a <? s) && (e <? area_end a).

Definition remove_ref v l (w : W) (s e : Z) : cres (bool * list (vm_area_t P) * W) :=
  if negb (existsb (overlapsb s e) l) then Val (false, l, w) else
  w ← free_fold v w (List.filter (in_range s e) l);
  match List.find (encloses s e) l with
  | Some a =>
      '(c, w) ← split_payload v (client a) w;
      '(l, w) ← add_ref v w e (area_end a) c
                  (map (fun b => if encloses s e b then with_range b (area_start b) s else b) l);
      Val (true, l, w)
  | None => Val (true, flat_map (cut_area s e) l, w)
  end.

Lemma overlapsb_spec s e a : overlapsb s e a = true <-> overlaps s e a.
Proof. unfold overlapsb, overlaps. by rewrite andb_true_iff, !Z.ltb_lt. Qed.

Lemma existsb_overlaps s e l : existsb (overlapsb s e) l = false <-> forall a, a ∈ l -> ~ overlaps s e a.
Proof.
  induction l as [|a l IH]; cbn.
  - split; [|done]. intros _ a Ha. by apply elem_of_nil in Ha.
  - rewrite orb_false_iff, IH, <- not_true_iff_false, overlapsb_spec. setoid_rewrite elem_of_cons. naive_solver.
Qed.

Lemma filter_no_area (p : vm_area_t P -> bool) l : (forall a, a ∈ l -> p a = false) -> List.filter p l = [].
Proof.
  induction l as [|a l IH]; intros H; [done|]. cbn. rewrite (H a) by set_solver. apply IH. intros b Hb. apply H. set_solver.
Qed.

Lemma in_range_overlaps s e l a : wf_ranges (rngs l) -> a ∈ l -> in_range s e a = true -> s < e -> overlaps s e a.
Proof.
  intros Wf Ha H Hse. pose proof (wf_area _ _ Wf Ha). unfold in_range in H. zbool. unfold overlaps. lia.
Qed.

Lemma right_part_length e a : (length (right_part e a) <= 1)%nat.
Proof. unfold right_part. destruct (e <? area_end a); cbn; lia. Qed.

(** Of the areas behind the first that overlap the range only the last may
    stick out. *)
Lemma filter_tail s e a m b : s < e -> wf_ranges (rngs (a :: m)) -> (forall c, c ∈ a :: m -> overlaps s e c) ->
  last (a :: m) = Some b -> s <= area_start a ->
  List.filter (in_range s e) (a :: m) = take (length (a :: m) - length (right_part e b)) (a :: m).
Proof.
  intros Hse. revert a. induction m as [|c m IH]; intros a Wf Ho Hl Hs.
  - cbn in Hl. simplify_eq. cbn [List.filter length]. unfold in_range, right_part. rewrite (proj2 (Z.leb_le s _)) by lia.
    destruct (Z.leb_spec (area_end b) e), (Z.ltb_spec e (area_end b)); try lia; done.
  - cbn [rngs map] in Wf. apply wf_ranges_cons in Wf as (Wa & Wac & Wf). cbn [fst snd rng] in *.
    specialize (Wac (rng c) ltac:(set_solver)). cbn in Wac. destruct (Ho c) as [C1 C2]; [set_solver|].
    specialize (IH c Wf ltac:(intros; apply Ho; set_solver) Hl ltac:(lia)).
    cbn [List.filter] in *. rewrite IH. unfold in_range at 1. rewrite !(proj2 (Z.leb_le _ _)) by lia. cbn [andb].
    pose proof (right_part_length e b).
    cbn [length]. by replace (S (S (length m)) - length (right_part e b))%nat with (S (S (length m) - length (right_part e b))) by lia.
Qed.

Lemma gone_filter l s e k oe a b : wf_ranges (rngs l) -> s < e -> found_areas l s e k oe ->
  l !! k = Some a -> l !! (oe - 1)%nat = Some b -> gone l s e k oe a b = List.filter (in_range s e) l.
Proof.
  intros Wf Hse Hf Ha Hb. destruct (found_split l s e k oe a b Wf Hse Hf Ha Hb) as (m & El & Hlen & Hlast & _).
  pose proof Hf as (Hk & Hbf & Haf & Hov).
  assert (Hmid : forall c, c ∈ a :: m -> overlaps s e c).
  { intros c Hc. apply list_elem_of_lookup_1 in Hc as [j Hj]. pose proof (lookup_lt_Some _ _ _ Hj).
    apply (Hov (k + j)%nat); [lia|]. rewrite El, lookup_app_r by (rewrite length_take; lia).
    rewrite length_take, lookup_app_l by lia. rewrite <- Hj. f_equal. lia. }
  assert (E1 : List.filter (in_range s e) (take k l) = []).
  { apply filter_no_area. intros c Hc. destruct (in_range s e c) eqn:E; [exfalso|done].
    assert (c ∈ l) as Hcl by (rewrite El; set_solver). pose proof (in_range_overlaps _ _ _ _ Wf Hcl E Hse) as [O1 O2].
    apply list_elem_of_lookup_1 in Hc as [j Hj]. pose proof (lookup_lt_Some _ _ _ Hj) as Hlt. rewrite length_take in Hlt.
    rewrite lookup_take_lt in Hj by lia. apply rngs_lookup in Hj. pose proof (Hbf j _ ltac:(lia) Hj) as H. cbn in H. lia. }
  assert (E2 : List.filter (in_range s e) (drop oe l) = []).
  { apply filter_no_area. intros c Hc. destruct (in_range s e c) eqn:E; [exfalso|done].
    assert (c ∈ l) as Hcl by (rewrite El; set_solver). pose proof (in_range_overlaps _ _ _ _ Wf Hcl E Hse) as [O1 O2].
    apply list_elem_of_lookup_1 in Hc as [j Hj]. rewrite lookup_drop in Hj. apply rngs_lookup in Hj.
    pose proof (Haf (oe + j)%nat _ ltac:(lia) Hj) as H. cbn in H. lia. }
  rewrite El at 2. rewrite !List.filter_app, E1, E2, app_nil_r. cbn [app].
  assert (Wm : wf_ranges (rngs (a :: m))).
  { rewrite El, !rngs_app in Wf. apply wf_ranges_app in Wf as (_ & Wf & _). by apply wf_ranges_app in Wf as (Wf & _ & _). }
  unfold gone, first_gone, end_gone.
  assert (Hd : drop k l = (a :: m) ++ drop oe l).
  { rewrite El at 1. rewrite drop_app_ge by (rewrite length_take; lia). by rewrite length_take, Nat.min_l, Nat.sub_diag by lia. }
  assert (Hk' : length (kept_right s e k oe a b) = length (right_part e b) \/
                (inside s e k oe a = true /\ kept_right s e k oe a b = [])).
  { unfold kept_right. destruct (inside s e k oe a); [by right|by left]. }
  pose proof (right_part_length e b).
  unfold left_part. destruct (area_start a <? s) eqn:Es; zbool; cbn [length].
  - cbn [List.filter]. assert (in_range s e a = false) as -> by (unfold in_range; by rewrite (proj2 (Z.leb_gt s _)) by lia).
    replace (drop (k + 1) l) with (m ++ drop oe l) by (by rewrite <- drop_drop, Hd).
    cbn [length] in Hlen. destruct m as [|c m].
    + cbn. cbn in Hlen. by replace (oe - length (kept_right s e k oe a b) - (k + 1))%nat with 0%nat by lia.
    + cbn [rngs map] in Wm. apply wf_ranges_cons in Wm as (Wa & Wac & Wm). cbn [fst snd rng] in *.
      specialize (Wac (rng c) ltac:(set_solver)). cbn in Wac. destruct (Hmid a) as [A1 A2]; [set_solver|].
      rewrite (filter_tail s e c m b Hse Wm); [|intros; apply Hmid; set_solver|done|lia].
      destruct Hk' as [Hk'|[Hi _]]; [|unfold inside in Hi; zbool; cbn in Hlen; lia].
      rewrite Hk', take_app_le by (cbn in *; lia). f_equal. cbn in *. lia.
  - rewrite (filter_tail s e a m b Hse Wm Hmid Hlast Es). rewrite Nat.add_0_r, Hd.
    destruct Hk' as [Hk'|[Hi _]]; [|unfold inside in Hi; zbool; lia].
    rewrite Hk', take_app_le by (cbn in *; lia). f_equal. cbn in *. lia.
Qed.

Lemma find_encloses l s e k oe a (b : vm_area_t P) : wf_ranges (rngs l) -> s < e -> found_areas l s e k oe ->
  l !! k = Some a -> l !! (oe - 1)%nat = Some b ->
  List.find (encloses s e) l = if inside s e k oe a then Some a else None.
Proof.
  intros Wf Hse Hf Ha Hb. pose proof Hf as (Hk & Hbf & Haf & Hov).
  assert (Henc : forall c, c ∈ l -> encloses s e c = true -> c = a /\ inside s e k oe a = true).
  { intros c Hc E. pose proof (wf_area _ _ Wf Hc). unfold encloses in E. zbool.
    apply list_elem_of_lookup_1 in Hc as [j Hj]. destruct (Hov k a ltac:(lia) Ha) as [A1 A2].
    destruct (Hov (oe - 1)%nat b ltac:(lia) Hb) as [B1 B2].
    assert (j = k) as ->.
    { destruct (Nat.lt_trichotomy j k) as [Hjk|[Hjk|Hjk]]; [|done|].
      - pose proof (wf_order _ _ _ _ _ Wf Hjk Hj Ha). lia.
      - pose proof (wf_order _ _ _ _ _ Wf Hjk Ha Hj). lia. }
    rewrite Ha in Hj. injection Hj as <-. split; [done|].
    destruct (decide (k < oe - 1)%nat) as [Hlt|]; [pose proof (wf_order _ _ _ _ _ Wf Hlt Ha Hb); lia|].
    unfold inside. rewrite !(proj2 (Z.ltb_lt _ _)), (proj2 (Z.eqb_eq _ _)) by lia. done. }
  destruct (List.find (encloses s e) l) as [c|] eqn:E.
  - apply List.find_some in E as [Hc E]. apply list_elem_of_In in Hc. destruct (Henc c Hc E) as [-> ->]. done.
  - destruct (inside s e k oe a) eqn:Ei; [|done]. unfold inside in Ei. zbool.
    assert (a ∈ l) as Hal by (by eapply list_elem_of_lookup_2). apply list_elem_of_In in Hal.
    pose proof (List.find_none _ _ E a Hal) as Hn. unfold encloses in Hn.
    rewrite !(proj2 (Z.ltb_lt _ _)) in Hn by lia. done.
Qed.

Lemma map_encloses l s e k oe a : wf_ranges (rngs l) -> s < e -> found_areas l s e k oe -> l !! k = Some a ->
  l = take k l ++ a :: drop oe l -> area_start a < s -> e < area_end a ->
  map (fun b => if encloses s e b then with_range b (area_start b) s else b) l =
  take k l ++ with_range a (area_start a) s :: drop oe l.
Proof.
  intros Wf Hse Hf Ha El H1 H2. rewrite El at 1. rewrite map_app. cbn [map].
  assert (encloses s e a = true) as -> by (unfold encloses; by rewrite !(proj2 (Z.ltb_lt _ _)) by lia).
  rewrite El, rngs_app in Wf. cbn [rngs map] in Wf. apply wf_ranges_app in Wf as (_ & W2 & W12).
  apply wf_ranges_cons in W2 as (Wa & Wac & _). cbn in Wa.
  f_equal; [|f_equal].
  - etransitivity; [|apply map_id]. apply map_ext_in. intros c Hc. apply list_elem_of_In in Hc.
    specialize (W12 (rng c) (rng a) (elem_of_rngs _ _ Hc) ltac:(set_solver)). cbn in W12.
    unfold encloses. by rewrite (proj2 (Z.ltb_ge e _)), andb_false_r by lia.
  - etransitivity; [|apply map_id]. apply map_ext_in. intros c Hc. apply list_elem_of_In in Hc.
    specialize (Wac (rng c) (elem_of_rngs _ _ Hc)). cbn in Wac.
    unfold encloses. by rewrite (proj2 (Z.ltb_ge _ s)) by lia.
Qed.

Lemma before_ref_same v v' w s e d l : same_vector v v' -> before_ref v' w s e d l = before_ref v w s e d l.
Proof.
  intros [Hf Hc]. induction l as [|a l IH]; [done|]. cbn [before_ref]. unfold add_hits, should_merge. by rewrite IH, Hf, Hc.
Qed.
Lemma run_ref_same v v' w s e d l : same_vector v v' -> run_ref v' w s e d l = run_ref v w s e d l.
Proof.
  intros [Hf Hc]. induction l as [|a l IH]; [done|]. cbn [run_ref]. unfold add_hits, should_merge. by rewrite IH, Hf, Hc.
Qed.
Lemma add_ref_same v v' w s e d l : same_vector v v' -> add_ref v' w s e d l = add_ref v w s e d l.
Proof.
  intros H. unfold add_ref. rewrite (before_ref_same v v') by done.
  destruct (before_ref v w s e d l) as [[b r]|]; [|done]. cbn [mbind cres_bind]. rewrite (run_ref_same v v') by done.
  destruct (run_ref v w s e d r) as [[[|a h] r']|]; [done| |done]. cbn [mbind cres_bind].
  rewrite (merge_payload_same v v') by done. destruct (merge_payload v d (client a) (client a) w) as [[c w']|]; [|done].
  cbn [mbind cres_bind]. by rewrite (merge_fold_same v v').
Qed.

(** Removing keeps what is left plain, sorted and disjoint. *)
Lemma cut_plain s e l : plain l -> plain (flat_map (cut_area s e) l).
Proof.
  intros Pl c Hc. apply elem_of_flat_map in Hc as (a & Ha & Hc). destruct (Pl a Ha). unfold cut_area in Hc.
  apply elem_of_app in Hc as [Hc|Hc]; case_match; (apply elem_of_nil in Hc; done) || (apply list_elem_of_singleton in Hc as ->; done).
Qed.

Lemma shorten_wf s e l : wf_ranges (rngs l) -> plain l -> s < e ->
  let l1 := map (fun b => if encloses s e b then with_range b (area_start b) s else b) l in
  wf_ranges (rngs l1) /\ plain l1 /\ forall c, c ∈ l1 -> exists a, a ∈ l /\ area_start c = area_start a /\ area_end c <= area_end a.
Proof.
  intros Wf Pl Hse. cbn. assert (Hsub : forall (l : list (vm_area_t P)) c,
    c ∈ map (fun b => if encloses s e b then with_range b (area_start b) s else b) l ->
    exists a, a ∈ l /\ area_start c = area_start a /\ area_end c <= area_end a /\ vm_flags c = vm_flags a /\ frag_flags c = frag_flags a).
  { intros l' c Hc. apply list_elem_of_fmap in Hc as (a & -> & Ha). exists a. split; [done|].
    destruct (encloses s e a) eqn:E; [|split_and!; done || lia]. unfold encloses in E. zbool. cbn. split_and!; done || lia. }
  split_and!.
  - clear Pl. induction l as [|a l IH]; [done|]. cbn [map rngs] in *. apply wf_ranges_cons in Wf as (Wa & Wac & Wf).
    apply wf_ranges_cons. split; [|split; [|by apply IH]].
    + destruct (encloses s e a) eqn:E; [|done]. unfold encloses in E. zbool. cbn in *. lia.
    + intros q Hq. apply list_elem_of_fmap in Hq as (c & -> & Hc). apply Hsub in Hc as (a' & Ha' & Hs & _).
      specialize (Wac (rng a') (elem_of_rngs _ _ Ha')). destruct (encloses s e a) eqn:E; [|cbn in *; lia].
      unfold encloses in E. zbool. cbn in *. lia.
  - intros c Hc. apply Hsub in Hc as (a & Ha & _ & _ & -> & ->). by apply Pl.
  - intros c Hc. apply Hsub in Hc as (a & Ha & ? & ? & _). by exists a.
Qed.

Lemma remove_ref_wf v l w s e ok l' w' : wf_ranges (rngs l) -> plain l -> 0 <= s < e -> e < w64 ->
  remove_ref v l w s e = Val (ok, l', w') -> wf_ranges (rngs l') /\ plain l' /\ (length l' <= S (length l))%nat.
Proof.
  intros Wf Pl Hse He H. unfold remove_ref in H. destruct (existsb (overlapsb s e) l); cbn [negb] in H; [|simplify_eq; split_and!; done || lia].
  destruct (free_fold v w (List.filter (in_range s e) l)) as [w1|]; cbn [mbind cres_bind] in H; [|done].
  destruct (List.find (encloses s e) l) as [a|] eqn:E.
  - destruct (split_payload v (client a) w1) as [[c w2]|]; cbn [mbind cres_bind] in H; [|done].
    destruct (shorten_wf s e l Wf Pl ltac:(lia)) as (W1 & P1 & _).
    apply List.find_some in E as [Ha E]. apply list_elem_of_In in Ha. pose proof (wf_area _ _ Wf Ha).
    unfold encloses in E. zbool.
    destruct (add_ref v w2 e (area_end a) c _) as [[l2 w3]|] eqn:E2; cbn [mbind cres_bind] in H; [|done]. simplify_eq.
    apply add_ref_wf in E2 as (? & ? & Hl); [|done|done|lia|lia]. rewrite length_map in Hl. by split_and!.
  - simplify_eq. rewrite rngs_cut. split_and!; [apply cut_wf; [lia|done]|by apply cut_plain|].
    clear -E Wf Hse. (* no area is cut in two *)
    assert (Hcut : forall a, a ∈ l -> (length (cut_area s e a) <= 1)%nat).
    { intros a Ha. apply list_elem_of_In in Ha. pose proof (List.find_none _ _ E a Ha) as Hn. unfold encloses in Hn. unfold cut_area.
      destruct (area_start a <? s), (e <? area_end a); cbn in *; done || lia. }
    clear E Wf. induction l as [|a l IH]; [cbn; lia|]. cbn [flat_map length]. rewrite length_app.
    pose proof (Hcut a (list_elem_of_here a l)). specialize (IH ltac:(intros; apply Hcut; set_solver)). lia.
Qed.

Section RemovePlain.
Context (init_size incr_size : Z) (hw : bool).
Context (Hinit : 0 < init_size < 1073741824) (Hincr : 0 < incr_size < 1073741824).

Lemma remove_plain v l w s e : represents v l -> wf_ranges (rngs l) -> plain l -> Z.of_nat (length l) < 1073741824 ->
  TEST VECTOR_FRAGMENT_LIST (vflags v) = false -> s < e ->
  match remove_ref v l w s e with
  | Val (ok, l', w') => exists v', vmvector_remove init_size incr_size hw false v w s e = Val (ok, v', w') /\
                          represents v' l' /\ same_vector v v'
  | Undef => vmvector_remove init_size incr_size hw false v w s e = Undef
  end.
Proof using Hinit Hincr.
  intros R Wf Pl Hlen Hfr Hse. unfold vmvector_remove, remove_ref.
  destruct (remove_spec hw false init_size incr_size v l w s e R Wf Hse Hfr)
    as [[Hno ->]|(k & oe & a & b & v1 & made & Hf & Ha & Hb & R1 & S1 & ->)].
  - rewrite (proj2 (existsb_overlaps s e l)) by done. cbn. by exists v.
  - assert (existsb (overlapsb s e) l = true) as ->.
    { apply not_false_iff_true. intros Hno. rewrite existsb_overlaps in Hno. destruct Hf as (Hk & _ & _ & Ho).
      apply (Hno a); [by eapply list_elem_of_lookup_2|]. apply (Ho k); [lia|done]. }
    cbn [negb]. rewrite <- (gone_filter l s e k oe a b) by done.
    destruct (free_fold v w (gone l s e k oe a b)) as [w1|]; [|done]. cbn [mbind cres_bind].
    rewrite (find_encloses l s e k oe a b) by done.
    pose proof (remaining_cut l s e k oe a b Wf Hse Hf Ha Hb) as Hrem.
    destruct (inside s e k oe a).
    + destruct Hrem as (<- & H1 & H2 & El & _ & Erem). rewrite Erem in R1.
      rewrite <- (map_encloses l s e k oe a) in R1 by done.
      destruct (split_payload v (client a) w1) as [[c w2]|]; [|done]. cbn [mbind cres_bind].
      destruct (Pl a) as [F1 F2]; [by eapply list_elem_of_lookup_2|]. rewrite F1, F2.
      change (clear_bits VM_ADD_TO_SHARED_DATA 0) with 0. change (clear_bits FRAG_COARSE_GRAIN 0) with 0.
      destruct (shorten_wf s e l Wf Pl Hse) as (W1 & P1 & _). destruct S1 as [Sf Sc].
      pose proof (add_plain v1 w2 e (area_end a) c init_size incr_size Hinit Hincr _ R1 P1) as X.
      rewrite length_map, Sf in X. specialize (X Hlen Hfr).
      rewrite (add_ref_same v v1) in X by done. unfold refines, vmvector_add in X.
      destruct (add_ref v w2 e (area_end a) c _) as [[l' w']|]; cbn [mbind cres_bind]; [|by rewrite X].
      destruct X as (v' & -> & R' & S'). cbn [mbind cres_bind]. exists v'. split_and!; [done|done|].
      eapply same_vector_trans; [|done]. done.
    + rewrite Hrem in R1. cbn [mbind cres_bind]. by exists v1.
Qed.
End RemovePlain.
End Plain.
