(* ===== verification/VmVectorSpec.v ===== *)
(** * What area vectors guarantee

    A client that only uses the [vmvector_] interface sees a sorted list of
    areas; with any flags and callbacks, adding and removing keep the set of
    addresses; the iterator reaches every area.  The last theorems are of what
    the code does where its comments say something else. *)
From S2P Require Export VmVectorPlain.

Section Interface.
Context {P W : Type}.
Context (NULL : P) (init_size incr_size : Z) (hw : bool).
Implicit Types (v : vm_area_vector_t P W) (l : list (vm_area_t P)) (a : vm_area_t P).

(** ** A client's operations, and its answers *)

Inductive vop :=
| VAdd (s e : Z) (d : P)
| VAddReplace (s e : Z) (d : P)
| VRemove (s e : Z)
| VRemoveContaining (pc : Z)
| VOverlap (s e : Z)
| VLookup (pc : Z)
| VLookupData (pc : Z)
| VPrevNext (pc : Z)
| VModify (s e : Z) (d : P)
| VIterate
| VReset.

Inductive vanswer :=
| ADone
| ABool (b : bool)
| AData (d : P)
| ARange (r : option (Z * Z))
| AFound (r : option (Z * Z * P))
| AAreas (r : list (P * Z * Z)).

(** The loop of a client: [while (hasnext) next]. *)
Fixpoint iterate (k : nat) v (index : Z) : cres (list (P * Z * Z)) :=
  match k with
  | O => Undef
  | S k =>
      if vmvector_iterator_hasnext v index then
        '(r, index) ← vmvector_iterator_next v index; rs ← iterate k v index; Val (r :: rs)
      else Val []
  end.

Definition vector_step (st : vm_area_vector_t P W * W) (o : vop) : cres (vanswer * (vm_area_vector_t P W * W)) :=
  let '(v, w) := st in
  match o with
  | VAdd s e d => r ← vmvector_add init_size incr_size v w s e d; Val (ADone, r)
  | VAddReplace s e d => '(old, v, w) ← vmvector_add_replace NULL init_size incr_size v w s e d; Val (AData old, (v, w))
  | VRemove s e => '(ok, v, w) ← vmvector_remove init_size incr_size hw false v w s e; Val (ABool ok, (v, w))
  | VRemoveContaining pc => '(r, v, w) ← vmvector_remove_containing_area init_size incr_size hw false v w pc; Val (ARange r, (v, w))
  | VOverlap s e => b ← vmvector_overlap v s e; Val (ABool b, st)
  | VLookup pc => d ← vmvector_lookup NULL v pc; Val (AData d, st)
  | VLookupData pc => r ← vmvector_lookup_data v pc; Val (AFound r, st)
  | VPrevNext pc => r ← vmvector_lookup_prev_next v pc; Val (ARange r, st)
  | VModify s e d => '(b, v) ← vmvector_modify_data v s e d; Val (ABool b, (v, w))
  | VIterate => r ← iterate (S (Z.to_nat (vlength v))) v vmvector_iterator_start; Val (AAreas r, st)
  | VReset => r ← vmvector_reset_vector v w; Val (ADone, r)
  end.

Fixpoint vector_run (st : vm_area_vector_t P W * W) (os : list vop) : cres (list vanswer * W) :=
  match os with
  | [] => w ← vmvector_delete_vector (fst st) (snd st); Val ([], w)
  | o :: os => '(r, st) ← vector_step st o; '(rs, w) ← vector_run st os; Val (r :: rs, w)
  end.

(** ** The same on a list of areas; [v] gives the flags and the callbacks *)

Definition set_data (s : Z) (d : P) l : list (vm_area_t P) :=
  map (fun b => if area_start b =? s then with_client b d else b) l.
Definition is_area (s e : Z) a : bool := (s =? area_start a) && (e =? area_end a).
Definition meetsb (s e : Z) a : bool := (s <? area_end a) && ((e =? 0) || (area_start a <? e)).

Definition list_step v (st : list (vm_area_t P) * W) (o : vop) : cres (vanswer * (list (vm_area_t P) * W)) :=
  let '(l, w) := st in
  match o with
  | VAdd s e d => r ← add_ref v w s e d l; Val (ADone, r)
  | VAddReplace s e d =>
      match List.find (contains s) l with
      | Some a => if is_area s e a then Val (AData (client a), (set_data s d l, w))
                  else r ← add_ref v w s e d l; Val (AData NULL, r)
      | None => r ← add_ref v w s e d l; Val (AData NULL, r)
      end
  | VRemove s e => '(ok, l, w) ← remove_ref v l w s e; Val (ABool ok, (l, w))
  | VRemoveContaining pc =>
      match List.find (contains pc) l with
      | Some a => '(_, l, w) ← remove_ref v l w (area_start a) (area_end a);
                  Val (ARange (Some (area_start a, area_end a)), (l, w))
      | None => Val (ARange None, st)
      end
  | VOverlap s e => Val (ABool (existsb (meetsb s e) l), st)
  | VLookup pc => Val (AData (match List.find (contains pc) l with Some a => client a | None => NULL end), st)
  | VLookupData pc =>
      Val (AFound (match List.find (contains pc) l with
                   | Some a => Some (area_start a, area_end a, client a) | None => None end), st)
  | VPrevNext pc =>
      Val (ARange (match List.find (contains pc) l with
                   | Some _ => None
                   | None => Some (match last (List.filter (fun a => area_end a <=? pc) l) with Some a => area_start a | None => 0 end,
                                   match List.filter (fun a => pc <? area_start a) l with a :: _ => area_start a | [] => ULONG_MAX end)
                   end), st)
  | VModify s e d =>
      match List.find (contains s) l with
      | Some a => Val (ABool true, (if is_area s e a then set_data s d l else l, w))
      | None => Val (ABool false, st)
      end
  | VIterate => Val (AAreas (map (fun a => (client a, area_start a, area_end a)) l), st)
  | VReset => w ← free_fold v w l; Val (ADone, ([], w))
  end.

Fixpoint list_run v (st : list (vm_area_t P) * W) (os : list vop) : cres (list vanswer * W) :=
  match os with
  | [] => w ← free_fold v (snd st) (fst st); Val ([], w)
  | o :: os => '(r, st) ← list_step v st o; '(rs, w) ← list_run v st os; Val (r :: rs, w)
  end.

(** Addresses have 64 bits and ranges are not empty; only the search for an
    overlap may reach to the top of the address space. *)
Definition op_ok (o : vop) : Prop :=
  match o with
  | VAdd s e _ | VAddReplace s e _ | VRemove s e => 0 <= s < e /\ e < w64
  | VModify s e _ => 0 <= s < e /\ e < w64
  | VOverlap s e => 0 <= s < w64 /\ (s < e < w64 \/ e = 0)
  | VRemoveContaining pc | VLookup pc | VLookupData pc | VPrevNext pc => 0 <= pc < w64
  | VIterate | VReset => True
  end.

(** ** Each operation *)

Lemma free_all_spec f v l k i w : represents v l -> free_payload_func (cbs v) = Some f -> (i + k = length l)%nat ->
  free_all k f v w (Z.of_nat i) = free_fold v w (drop i l).
Proof.
  intros R Hf. revert w i. induction k as [|k IH]; intros w i Hk; cbn [free_all]; [by rewrite drop_ge by lia|].
  destruct (lookup_lt_is_Some_2 l i ltac:(lia)) as [a Hi]. rewrite (get_spec v l i a), (drop_S _ _ _ Hi) by done.
  cbn [mbind cres_bind free_fold]. rewrite Hf. destruct (f (client a) w); [|done]. cbn [mbind cres_bind].
  replace (Z.of_nat i + 1) with (Z.of_nat (S i)) by lia. apply IH. lia.
Qed.

Lemma free_fold_none v w l : free_payload_func (cbs v) = None -> free_fold v w l = Val w.
Proof. intros H. induction l as [|a l IH]; [done|]. cbn. by rewrite H. Qed.

Lemma reset_spec v l w : represents v l ->
  match free_fold v w l with
  | Val w' => exists v', vmvector_reset_vector v w = Val (v', w') /\ represents v' [] /\ same_vector v v'
  | Undef => vmvector_reset_vector v w = Undef
  end.
Proof.
  intros R. pose proof R as [Hl Hc Hb]. unfold vmvector_reset_vector. destruct (buf v) as [b|] eqn:E.
  - assert (match free_payload_func (cbs v) with
            | Some f => free_all (Z.to_nat (vlength v)) f v w 0 | None => Val w end = free_fold v w l) as ->.
    { destruct (free_payload_func (cbs v)) as [f|] eqn:Ef; [|by rewrite free_fold_none].
      rewrite <- (drop_0 l) at 1. rewrite <- (free_all_spec f v l (Z.to_nat (vlength v)) 0) by (done || lia). done. }
    destruct (free_fold v w l) as [w'|]; [|done]. cbn. eexists; split; [done|]. split; [|done]. split; cbn; done || lia.
  - assert (l = []) as -> by (destruct l; [done|cbn in *; lia]). cbn. by exists v.
Qed.

Lemma area_iterate_spec v l n i : represents v l -> (i <= length l)%nat -> (i + n = S (length l))%nat ->
  iterate n v (Z.of_nat i - 1) = Val (map (fun a => (client a, area_start a, area_end a)) (drop i l)).
Proof.
  intros R. revert i. induction n as [|n IH]; intros i Hi Hn; [lia|]. cbn [iterate]. unfold vmvector_iterator_hasnext.
  rewrite (rep_len _ _ R). replace (Z.of_nat i - 1 + 1) with (Z.of_nat i) by lia.
  destruct (decide (i = length l)) as [->|].
  - rewrite (proj2 (Z.ltb_ge _ _)), drop_ge by lia. done.
  - rewrite (proj2 (Z.ltb_lt _ _)) by lia. destruct (lookup_lt_is_Some_2 l i ltac:(lia)) as [a Ha].
    unfold vmvector_iterator_next, vmvector_iterator_peek. replace (Z.of_nat i - 1 + 1) with (Z.of_nat i) by lia.
    rewrite (get_spec v l i a), (drop_S _ _ _ Ha) by done. cbn [mbind cres_bind map].
    specialize (IH (S i) ltac:(lia) ltac:(lia)). replace (Z.of_nat (S i) - 1) with (Z.of_nat i) in IH by lia. by rewrite IH.
Qed.

Lemma set_data_insert l i a d : wf_ranges (rngs l) -> l !! i = Some a -> <[i := with_client a d]> l = set_data (area_start a) d l.
Proof.
  intros Wf Hi. apply list_eq. intros j. unfold set_data. change (map ?f l) with (f <$> l). rewrite list_lookup_fmap.
  destruct (decide (i = j)) as [<-|Hij].
  - rewrite list_lookup_insert_eq by (by eapply lookup_lt_Some). rewrite Hi. cbn. by rewrite Z.eqb_refl.
  - rewrite list_lookup_insert_ne by done. destruct (l !! j) as [b|] eqn:Hj; [|done]. cbn.
    rewrite (proj2 (Z.eqb_neq _ _)); [done|]. intros E. apply Hij.
    pose proof (wf_lookup _ _ _ Wf Hi). pose proof (wf_lookup _ _ _ Wf Hj).
    apply (contains_unique l i j a b (area_start a) Wf Hi Hj); apply contains_spec; lia.
Qed.

Lemma set_data_wf l s d : rngs (set_data s d l) = rngs l /\ (plain l -> plain (set_data s d l)) /\ length (set_data s d l) = length l.
Proof.
  unfold set_data. split_and!; [|intros Pl c Hc|apply length_map].
  - unfold rngs. rewrite map_map. apply map_ext. intros b. by destruct (area_start b =? s).
  - apply list_elem_of_fmap in Hc as (b & -> & Hb). destruct (Pl b Hb). by destruct (area_start b =? s).
Qed.

Lemma lookup_data_spec v l pc : represents v l -> wf_ranges (rngs l) -> Z.of_nat (length l) < 1073741824 -> 0 <= pc < w64 ->
  vmvector_lookup_data v pc =
  Val (match List.find (contains pc) l with Some a => Some (area_start a, area_end a, client a) | None => None end).
Proof.
  intros R Wf Hlen Hpc. unfold vmvector_lookup_data.
  destruct (lookup_addr_spec v l pc R Wf ltac:(lia) Hpc) as [(i & a & -> & Hi & _ & ->)|[-> ->]]; cbn [mbind cres_bind]; [|done].
  by rewrite (get_spec v l i a).
Qed.

Lemma overlap_spec v l s e : represents v l -> wf_ranges (rngs l) -> Z.of_nat (length l) < 1073741824 ->
  vmvector_overlap v s e = Val (existsb (meetsb s e) l).
Proof.
  intros R Wf Hlen. unfold vmvector_overlap, vmvector_empty. rewrite (rep_len _ _ R).
  destruct (Z.of_nat (length l) =? 0) eqn:E; zbool; [by destruct l|]. unfold vm_area_overlap.
  assert (Hm : forall a, meetsb s e a = true <-> meets s e a).
  { intros a. unfold meetsb, meets. by rewrite andb_true_iff, orb_true_iff, !Z.ltb_lt, Z.eqb_eq. }
  destruct (search_spec v l s e false R Wf Hlen) as [(i & a & -> & Hi & Ha & _)|(i & -> & _ & Hb & Ha)]; cbn; f_equal; symmetry.
  - apply existsb_exists. exists a. split; [apply list_elem_of_In; by eapply list_elem_of_lookup_2|by apply Hm].
  - apply not_true_iff_false. intros Hx. apply existsb_exists in Hx as (a & Hin & Hx). apply list_elem_of_In in Hin.
    apply Hm in Hx. by apply (below_above l i s e a).
Qed.

(** The areas around an address that no area holds. *)
Lemma neighbours l (i : Z) pc e : below l (i + 1) pc -> above l i e -> pc < e \/ e = 0 -> -1 <= i < Z.of_nat (length l) ->
  wf_ranges (rngs l) -> (e = 0 -> i = Z.of_nat (length l) - 1) -> e <= pc + 1 ->
  List.filter (fun a => area_end a <=? pc) l = take (Z.to_nat (i + 1)) l /\
  List.filter (fun a => pc <? area_start a) l = drop (Z.to_nat (i + 1)) l.
Proof.
  intros Hb Ha He Hi Wf H0 Hpc. rewrite <- (take_drop (Z.to_nat (i + 1)) l) at 1 3. rewrite !List.filter_app.
  assert (Hall : forall (p : vm_area_t P -> bool) (l : list (vm_area_t P)), (forall a, a ∈ l -> p a = true) -> List.filter p l = l).
  { intros p l'. induction l' as [|a l' IH]; intros H; [done|]. cbn. rewrite (H a) by set_solver. f_equal. apply IH. set_solver. }
  assert (Ht : forall a, a ∈ take (Z.to_nat (i + 1)) l -> area_start a < area_end a <= pc).
  { intros a Hin. apply list_elem_of_lookup_1 in Hin as [j Hj]. apply lookup_lt_Some in Hj as Hlt. rewrite length_take in Hlt.
    rewrite lookup_take_lt in Hj by lia. pose proof (wf_lookup _ _ _ Wf Hj). specialize (Hb j a ltac:(lia) Hj). lia. }
  assert (Hd : forall a, a ∈ drop (Z.to_nat (i + 1)) l -> pc < area_start a < area_end a).
  { intros a Hin. apply list_elem_of_lookup_1 in Hin as [j Hj]. rewrite lookup_drop in Hj. pose proof (wf_lookup _ _ _ Wf Hj).
    apply lookup_lt_Some in Hj as Hlt. destruct (Ha (Z.to_nat (i + 1) + j)%nat a ltac:(lia) Hj). lia. }
  rewrite (Hall (fun a => area_end a <=? pc) (take _ _)) by (intros a Hin; apply Z.leb_le; specialize (Ht a Hin); lia).
  rewrite (Hall (fun a => pc <? area_start a) (drop _ _)) by (intros a Hin; apply Z.ltb_lt; specialize (Hd a Hin); lia).
  rewrite !filter_no_area, app_nil_r; [done| |]; intros a Hin.
  - apply Z.ltb_ge. specialize (Ht a Hin). lia.
  - apply Z.leb_gt. specialize (Hd a Hin). lia.
Qed.

Lemma prev_next_spec v l pc : represents v l -> wf_ranges (rngs l) -> Z.of_nat (length l) < 1073741824 -> 0 <= pc < w64 ->
  vmvector_lookup_prev_next v pc =
  Val (match List.find (contains pc) l with
       | Some _ => None
       | None => Some (match last (List.filter (fun a => area_end a <=? pc) l) with Some a => area_start a | None => 0 end,
                       match List.filter (fun a => pc <? area_start a) l with a :: _ => area_start a | [] => ULONG_MAX end)
       end).
Proof.
  intros R Wf Hlen Hpc. unfold vmvector_lookup_prev_next.
  pose proof (lookup_addr_spec v l pc R Wf Hlen Hpc) as Hl. unfold lookup_addr in Hl.
  destruct (search_spec v l pc (u64 (pc + 1)) false R Wf Hlen) as [(i & a & E & Hi & Hm & _)|(i & E & Hi & Hb & Ha)]; rewrite E in *;
    cbn [mbind cres_bind] in *.
  - destruct Hl as [(j & b & _ & _ & _ & ->)|[[=] _]]. done.
  - destruct Hl as [(j & b & [=] & _)|[_ ->]]. 
    assert (Hu : pc < u64 (pc + 1) \/ u64 (pc + 1) = 0).
    { destruct (decide (pc + 1 = w64)) as [E1|]; [right; unfold u64; by rewrite E1, Z_mod_same_full|left; rewrite u64_small; lia]. }
    assert (H0 : u64 (pc + 1) = 0 -> i = Z.of_nat (length l) - 1).
    { intros H0. destruct (decide (i = Z.of_nat (length l) - 1)); [done|]. exfalso.
      destruct (lookup_lt_is_Some_2 l (Z.to_nat (i + 1)) ltac:(lia)) as [a Hla]. by destruct (Ha (Z.to_nat (i + 1)) a ltac:(lia) Hla). }
    assert (Hu1 : u64 (pc + 1) <= pc + 1) by (apply Z.mod_le; lia).
    destruct (neighbours l i pc (u64 (pc + 1)) Hb Ha Hu Hi Wf H0 Hu1) as [-> ->].
    assert (Ep : (if i =? -1 then Val 0 else a ← get_area v i; Val (area_start a)) =
      Val (match last (take (Z.to_nat (i + 1)) l) with Some a => area_start a | None => 0 end)).
    { destruct (i =? -1) eqn:E1; zbool; [by rewrite E1|].
      destruct (lookup_lt_is_Some_2 l (Z.to_nat i) ltac:(lia)) as [a Hla].
      replace (get_area v i) with (get_area v (Z.of_nat (Z.to_nat i))) by (f_equal; lia).
      rewrite (get_spec v l _ a) by done. rewrite last_lookup, length_take, Nat.min_l, lookup_take_lt by lia.
      replace (pred (Z.to_nat (i + 1))) with (Z.to_nat i) by lia. by rewrite Hla. }
    rewrite Ep, (rep_len _ _ R). cbn [mbind cres_bind].
    destruct (Z.of_nat (length l) - 1 <=? i) eqn:E2; zbool.
    + by rewrite drop_ge by lia.
    + destruct (lookup_lt_is_Some_2 l (Z.to_nat (i + 1)) ltac:(lia)) as [a Hla].
      replace (get_area v (i + 1)) with (get_area v (Z.of_nat (Z.to_nat (i + 1)))) by (f_equal; lia).
      rewrite (get_spec v l _ a), (drop_S _ _ _ Hla) by done. done.
Qed.

Context (Hinit : 0 < init_size < 1073741824) (Hincr : 0 < incr_size < 1073741824).

(** The vector, its list and the original vector, whose flags and callbacks it
    has. *)
Record client_view v0 v l : Prop := {
  cv_rep : represents v l;
  cv_same : same_vector v0 v;
  cv_wf : wf_ranges (rngs l);
  cv_plain : plain l
}.

(** The four things the operations of a client are made of. *)

Lemma client_add v0 v l w s e d : client_view v0 v l -> TEST VECTOR_FRAGMENT_LIST (vflags v0) = false ->
  Z.of_nat (length l) < 1073741823 -> 0 <= s < e -> e < w64 ->
  match add_ref v0 w s e d l with
  | Val (l', w') => exists v', vmvector_add init_size incr_size v w s e d = Val (v', w') /\
      client_view v0 v' l' /\ (length l' <= S (length l))%nat
  | Undef => vmvector_add init_size incr_size v w s e d = Undef
  end.
Proof using Hinit Hincr.
  intros [R S0 Wf Pl] Hfr Hlen Hse He. pose proof S0 as [Hf Hc].
  pose proof (add_plain v w s e d init_size incr_size Hinit Hincr l R Pl ltac:(lia) ltac:(by rewrite Hf)) as X.
  rewrite (add_ref_same v0 v) in X by done. unfold refines in X. destruct (add_ref v0 w s e d l) as [[l' w']|] eqn:E; [|done].
  destruct X as (v' & -> & R' & S'). destruct (add_ref_wf _ _ _ _ _ _ _ _ Wf Pl Hse He E) as (W' & P' & ?).
  exists v'. split; [done|]. split; [|done]. split; try done. by eapply same_vector_trans.
Qed.

Lemma remove_ref_same v0 v l w s e : same_vector v0 v -> remove_ref v l w s e = remove_ref v0 l w s e.
Proof using.
  clear. intros S0. pose proof S0 as [Hf Hc]. unfold remove_ref, split_payload. rewrite Hc, (free_fold_same v0 v) by done.
  destruct (negb _); [done|]. destruct (free_fold v0 w (List.filter (in_range s e) l)); [|done]. cbn [mbind cres_bind].
  destruct (List.find _ _); [|done]. destruct (match split_payload_func (cbs v0) with Some f => _ | None => _ end) as [[c w2]|]; [|done].
  cbn [mbind cres_bind]. by rewrite (add_ref_same v0 v).
Qed.

Lemma client_remove v0 v l w s e : client_view v0 v l -> TEST VECTOR_FRAGMENT_LIST (vflags v0) = false ->
  Z.of_nat (length l) < 1073741823 -> 0 <= s < e -> e < w64 ->
  match remove_ref v0 l w s e with
  | Val (ok, l', w') => exists v', vmvector_remove init_size incr_size hw false v w s e = Val (ok, v', w') /\
      client_view v0 v' l' /\ (length l' <= S (length l))%nat
  | Undef => vmvector_remove init_size incr_size hw false v w s e = Undef
  end.
Proof using Hinit Hincr.
  intros [R S0 Wf Pl] Hfr Hlen Hse He. pose proof S0 as [Hf Hc].
  pose proof (remove_plain init_size incr_size hw Hinit Hincr v l w s e R Wf Pl ltac:(lia) ltac:(by rewrite Hf) ltac:(lia)) as X.
  rewrite (remove_ref_same v0 v) in X by done. destruct (remove_ref v0 l w s e) as [[[ok l'] w']|] eqn:E; [|done].
  destruct X as (v' & -> & R' & S'). destruct (remove_ref_wf _ _ _ _ _ _ _ _ Wf Pl Hse He E) as (W' & P' & ?).
  exists v'. split; [done|]. split; [|done]. split; try done. by eapply same_vector_trans.
Qed.

Lemma client_set v0 v l i a d : client_view v0 v l -> l !! i = Some a -> exists v', set_area v (Z.of_nat i) (with_client a d) = Val v' /\
  client_view v0 v' (set_data (area_start a) d l) /\ (length (set_data (area_start a) d l) <= S (length l))%nat.
Proof using.
  clear. intros [R S0 Wf Pl] Hi. destruct (area_set_spec v l i (with_client a d) R ltac:(by eapply lookup_lt_Some)) as (v' & -> & R' & S').
  rewrite (set_data_insert l i a d Wf Hi) in R'. destruct (set_data_wf l (area_start a) d) as (E1 & E2 & E3).
  exists v'. split; [done|]. split; [|lia]. split; [done|by eapply same_vector_trans|by rewrite E1|by apply E2].
Qed.

Lemma step_refines v0 v l w o : client_view v0 v l -> TEST VECTOR_FRAGMENT_LIST (vflags v0) = false ->
  Z.of_nat (length l) < 1073741823 -> op_ok o ->
  match list_step v0 (l, w) o with
  | Val (r, (l', w')) => exists v', vector_step (v, w) o = Val (r, (v', w')) /\ client_view v0 v' l' /\ (length l' <= S (length l))%nat
  | Undef => vector_step (v, w) o = Undef
  end.
Proof using Hinit Hincr.
  intros V Hfr Hlen Ho. pose proof V as [R S0 Wf Pl]. pose proof S0 as [Hf Hc].
  pose proof (fun s e d => client_add v0 v l w s e d V Hfr Hlen) as Hadd. pose proof (fun s e => client_remove v0 v l w s e V Hfr Hlen) as Hrem.
  pose proof (fun pc => lookup_data_spec v l pc R Wf ltac:(lia)) as Hlook. pose proof (fun i a d => client_set v0 v l i a d V) as Hset.
  destruct o as [s e d|s e d|s e|pc|s e|pc|pc|pc|s e d| |]; cbn [op_ok list_step vector_step] in *.
  - specialize (Hadd s e d ltac:(lia) ltac:(lia)). destruct (add_ref v0 w s e d l) as [[l' w']|]; cbn [mbind cres_bind];
      [|by rewrite Hadd]. destruct Hadd as (v' & -> & ?). by exists v'.
  - specialize (Hadd s e d ltac:(lia) ltac:(lia)). unfold vmvector_add_replace, vmvector_add in *.
    destruct (lookup_addr_spec v l s R Wf ltac:(lia) ltac:(lia)) as [(i & a & -> & Hi & _ & ->)|[-> ->]]; cbn [mbind cres_bind].
    + rewrite (get_spec v l i a) by done. cbn [mbind cres_bind]. fold (is_area s e a). destruct (is_area s e a) eqn:Ea.
      * unfold is_area in Ea. zbool. subst s. destruct (Hset i a d Hi) as (v' & -> & ?). by exists v'.
      * destruct (add_ref v0 w s e d l) as [[l' w']|]; cbn [mbind cres_bind]; [|by rewrite Hadd].
        destruct Hadd as (v' & -> & ?). by exists v'.
    + destruct (add_ref v0 w s e d l) as [[l' w']|]; cbn [mbind cres_bind]; [|by rewrite Hadd].
      destruct Hadd as (v' & -> & ?). by exists v'.
  - specialize (Hrem s e ltac:(lia) ltac:(lia)). destruct (remove_ref v0 l w s e) as [[[ok l'] w']|]; cbn [mbind cres_bind];
      [|by rewrite Hrem]. destruct Hrem as (v' & -> & ?). by exists v'.
  - unfold vmvector_remove_containing_area.
    destruct (lookup_addr_spec v l pc R Wf ltac:(lia) Ho) as [(i & a & -> & Hi & _ & ->)|[-> ->]]; cbn [mbind cres_bind].
    + rewrite (get_spec v l i a) by done. cbn [mbind cres_bind]. pose proof (wf_lookup _ _ _ Wf Hi).
      specialize (Hrem (area_start a) (area_end a) ltac:(lia) ltac:(lia)). unfold vmvector_remove in Hrem.
      destruct (remove_ref v0 l w (area_start a) (area_end a)) as [[[ok l'] w']|]; cbn [mbind cres_bind].
      * destruct Hrem as (v' & Hrem & ?). exists v'.
        destruct (remove_vm_area init_size incr_size hw false false v w (area_start a) (area_end a)) as [[[[ok' made] v2] w2]|];
          cbn [mbind cres_bind] in *; [|done]. by simplify_eq.
      * destruct (remove_vm_area init_size incr_size hw false false v w (area_start a) (area_end a)) as [[[[ok' made] v2] w2]|]; done.
    + exists v. split; [done|]. split; [done|lia].
  - rewrite (overlap_spec v l) by (done || lia). exists v. split; [done|]. split; [done|lia].
  - unfold vmvector_lookup. rewrite Hlook by done. exists v. split; [|split; [done|lia]].
    cbn [mbind cres_bind]. by destruct (List.find (contains pc) l).
  - rewrite Hlook by done. exists v. split; [done|]. split; [done|lia].
  - rewrite (prev_next_spec v l) by (done || lia). exists v. split; [done|]. split; [done|lia].
  - unfold vmvector_modify_data.
    destruct (lookup_addr_spec v l s R Wf ltac:(lia) ltac:(lia)) as [(i & a & -> & Hi & _ & ->)|[-> ->]]; cbn [mbind cres_bind].
    + rewrite (get_spec v l i a) by done. cbn [mbind cres_bind]. fold (is_area s e a). destruct (is_area s e a) eqn:Ea.
      * unfold is_area in Ea. zbool. subst s. destruct (Hset i a d Hi) as (v' & -> & ?). by exists v'.
      * exists v. split; [done|]. split; [done|lia].
    + exists v. split; [done|]. split; [done|lia].
  - rewrite (rep_len _ _ R), Nat2Z.id. unfold vmvector_iterator_start.
    pose proof (area_iterate_spec v l (S (length l)) 0 R ltac:(lia) ltac:(lia)) as E. change (Z.of_nat 0 - 1) with (-1) in E.
    rewrite E, drop_0. exists v. split; [done|]. split; [done|lia].
  - pose proof (reset_spec v l w R) as X. rewrite (free_fold_same v0 v) in X by done.
    destruct (free_fold v0 w l) as [w'|]; cbn [mbind cres_bind]; [|by rewrite X].
    destruct X as (v' & -> & R' & S'). exists v'. split; [done|]. split; [|cbn; lia].
    split; [done|by eapply same_vector_trans|apply wf_nil|]. intros a Ha. by apply elem_of_nil in Ha.
Qed.

Lemma run_refines v0 os : forall v l w, client_view v0 v l -> TEST VECTOR_FRAGMENT_LIST (vflags v0) = false ->
  Z.of_nat (length l + length os) < 1073741824 -> Forall op_ok os ->
  vector_run (v, w) os = list_run v0 (l, w) os.
Proof using Hinit Hincr.
  induction os as [|o os IH]; intros v l w V Hfr Hlen Hos; cbn [vector_run list_run fst snd].
  - unfold vmvector_delete_vector. pose proof (reset_spec v l w (cv_rep _ _ _ V)) as X.
    rewrite (free_fold_same v0 v) in X by apply V. destruct (free_fold v0 w l) as [w'|]; [|by rewrite X].
    by destruct X as (v' & -> & _).
  - apply Forall_cons in Hos as [Ho Hos]. cbn [length] in Hlen.
    pose proof (step_refines v0 v l w o V Hfr ltac:(lia) Ho) as X.
    destruct (list_step v0 (l, w) o) as [[r [l' w']]|]; cbn [mbind cres_bind]; [|by rewrite X].
    destruct X as (v' & -> & V' & Hl). cbn [mbind cres_bind]. rewrite (IH v' l' w' V' Hfr); [done|lia|done].
Qed.
End Interface.

(** ** The theorems *)

(** C9. A client that creates a vector, sets callbacks and then adds, replaces,
    removes, looks up, searches, modifies, iterates and resets, in any order,
    gets the answers, and leaves the payloads' memory in the state, of the same
    operations on a sorted list of areas: adding joins the range with the areas
    that overlap it or may be merged with it, removing cuts the range out of
    every area, and the lookups are searches through the list. *)
Theorem vmvector_refines_areas {P W : Type} (NULL : P) (init_size incr_size : Z) (hw : bool) (flags : Z)
    (c : callbacks P W) (w : W) (os : list (vop (P := P))) :
  0 < init_size < 1073741824 -> 0 < incr_size < 1073741824 ->
  TEST VECTOR_FRAGMENT_LIST flags = false -> Forall op_ok os -> Z.of_nat (length os) < 1073741824 ->
  let v := vmvector_set_callbacks (vmvector_create_vector flags) c in
  vector_run NULL init_size incr_size hw (v, w) os = list_run NULL v ([], w) os.
Proof.
  intros Hi Hc Hf Ho Hl v. apply run_refines; try done.
  split; [apply init_represents|done|apply wf_nil|]. intros a Ha. by apply elem_of_nil in Ha.
Qed.

(** C28. The search answers an area that overlaps the range exactly when there
    is one, the first such area when the caller asks for it, and otherwise the
    index of the last area in front of the range; an end of 0 stands for the
    top of the address space. *)
Theorem binary_search_finds {P W : Type} (v : vm_area_vector_t P W) l s e first :
  represents v l -> wf_ranges (rngs l) -> Z.of_nat (length l) < 1073741824 ->
  match binary_search v s e first with
  | Val (true, i) => exists a, 0 <= i /\ l !! Z.to_nat i = Some a /\ meets s e a /\
      (first = true -> forall j b, Z.of_nat j < i -> l !! j = Some b -> ~ meets s e b)
  | Val (false, i) => -1 <= i < Z.of_nat (length l) /\ (forall a, a ∈ l -> ~ meets s e a) /\
      forall j a, l !! j = Some a -> if Z.of_nat j <=? i then area_end a <= s else e <= area_start a
  | Undef => False
  end.
Proof.
  intros R Wf Hlen. destruct (search_spec v l s e first R Wf Hlen) as [(i & a & -> & Hi & Hm & Hf)|(i & -> & Hi & Hb & Ha)].
  - exists a. rewrite Nat2Z.id. split_and!; [lia|done|done|]. intros E j b Hj Hlb [H _]. pose proof (Hf E j b Hj Hlb). lia.
  - split; [done|]. split; [intros a Hin; by apply (below_above l i s e a)|]. intros j a Hj.
    destruct (Z.leb_spec (Z.of_nat j) i); [apply (Hb j a); [lia|done]|by apply (Ha j a)].
Qed.

(** The iterator after [n] calls of [next]. *)
Fixpoint advance {P W : Type} (n : nat) (v : vm_area_vector_t P W) (index : Z) : cres Z :=
  match n with
  | O => Val index
  | S n => '(_, index) ← vmvector_iterator_next v index; advance n v index
  end.

(** C30. A loop over the iterator reaches every area: after [n] calls of [next],
    [hasnext] says whether there is an area [n], [peek] and [next] answer it
    when there is, and after as many calls as there are areas the loop ends. *)
Theorem iterator_reaches_every_area {P W : Type} (v : vm_area_vector_t P W) l n :
  represents v l -> (n <= length l)%nat -> exists index,
    advance n v vmvector_iterator_start = Val index /\
    vmvector_iterator_hasnext v index = bool_decide (n < length l)%nat /\
    forall a, l !! n = Some a ->
      vmvector_iterator_peek v index = Val (client a, area_start a, area_end a) /\
      exists index', vmvector_iterator_next v index = Val (client a, area_start a, area_end a, index') /\
        advance (S n) v vmvector_iterator_start = Val index'.
Proof.
  intros R Hn. unfold vmvector_iterator_start.
  assert (Hget : forall i a, l !! i = Some a -> vmvector_iterator_peek v (Z.of_nat i - 1) = Val (client a, area_start a, area_end a)).
  { intros i a Hi. unfold vmvector_iterator_peek. replace (Z.of_nat i - 1 + 1) with (Z.of_nat i) by lia. by rewrite (get_spec v l i a). }
  assert (Hadv : forall k i, (i + k <= length l)%nat -> advance k v (Z.of_nat i - 1) = Val (Z.of_nat (i + k) - 1)).
  { induction k as [|k IH]; intros i Hk; cbn [advance]; [by rewrite Nat.add_0_r|].
    destruct (lookup_lt_is_Some_2 l i ltac:(lia)) as [a Hi]. unfold vmvector_iterator_next. rewrite (Hget i a) by done.
    cbn [mbind cres_bind]. replace (Z.of_nat i - 1 + 1) with (Z.of_nat (S i) - 1) by lia. rewrite IH by lia. do 2 f_equal. lia. }
  exists (Z.of_nat n - 1). split; [apply (Hadv n 0%nat); lia|]. split.
  - unfold vmvector_iterator_hasnext. rewrite (rep_len _ _ R). case_bool_decide; [apply Z.ltb_lt|apply Z.ltb_ge]; lia.
  - intros a Ha. split; [by apply Hget|]. exists (Z.of_nat n). unfold vmvector_iterator_next. rewrite (Hget n a) by done.
    cbn [mbind cres_bind]. split; [by replace (Z.of_nat n - 1 + 1) with (Z.of_nat n) by lia|].
    rewrite <- (Z.add_simpl_r (Z.of_nat n) 1). replace (Z.of_nat n + 1 - 1) with (Z.of_nat (0 + S n) - 1) by lia.
    apply lookup_lt_Some in Ha. apply (Hadv (S n) 0%nat). lia.
Qed.

(** ** Sequences of additions and removals, with flags *)

Inductive area_op {P : Type} :=
| AddArea (s e vmf ff : Z) (d : P)
| RemoveArea (s e : Z) (restore_prot : bool).
Arguments area_op P : clear implicits.

Fixpoint area_run {P W : Type} (init_size incr_size : Z) (hw : bool) (v : vm_area_vector_t P W) (w : W)
    (os : list (area_op P)) : cres (vm_area_vector_t P W * W) :=
  match os with
  | [] => Val (v, w)
  | AddArea s e vmf ff d :: os => '(v, w) ← add_vm_area init_size incr_size v w s e vmf ff d; area_run init_size incr_size hw v w os
  | RemoveArea s e rp :: os =>
      '(_, _, v, w) ← remove_vm_area init_size incr_size hw false rp v w s e; area_run init_size incr_size hw v w os
  end.

Definition op_range {P} (o : area_op P) : Z * Z :=
  match o with AddArea s e _ _ _ => (s, e) | RemoveArea s e _ => (s, e) end.

(** Whether the last operation on an address, if any, added it. *)
Fixpoint last_added {P} (now : Prop) (os : list (area_op P)) (y : Z) : Prop :=
  match os with
  | [] => now
  | AddArea s e _ _ _ :: os => last_added (now \/ s <= y < e) os y
  | RemoveArea s e _ :: os => last_added (now /\ ~ s <= y < e) os y
  end.

Definition end_points {P} (os : list (area_op P)) : gset Z :=
  list_to_set (flat_map (fun o => [(op_range o).1; (op_range o).2]) os).

Lemma last_added_iff {P} (os : list (area_op P)) y (A A' : Prop) : (A <-> A') -> (last_added A os y <-> last_added A' os y).
Proof. revert A A'. induction os as [|[] os IH]; intros A A' H; cbn; [done|apply IH; tauto|apply IH; tauto]. Qed.

Lemma size_union_add (X Y : gset Z) : (size (X ∪ Y) <= size X + size Y)%nat.
Proof. rewrite size_union_alt. apply Nat.add_le_mono_l, subseteq_size. set_solver. Qed.

Lemma end_points_size {P} (os : list (area_op P)) : (size (end_points os) <= 2 * length os)%nat.
Proof.
  unfold end_points. induction os as [|o os IH]; [done|]. cbn [flat_map app list_to_set length].
  etransitivity; [apply size_union_add|]. etransitivity; [apply Nat.add_le_mono_l, size_union_add|].
  rewrite !size_singleton. lia.
Qed.

Lemma area_run_spec {P W : Type} init_size incr_size hw (B : gset Z) :
  0 < init_size < 1073741824 -> 0 < incr_size < 1073741824 -> Z.of_nat (size B) < 1073741824 ->
  forall (os : list (area_op P)) (v : vm_area_vector_t P W) l w, good B v l ->
  Forall (fun o => 0 <= (op_range o).1 < (op_range o).2 /\ (op_range o).2 < w64 /\ (op_range o).1 ∈ B /\ (op_range o).2 ∈ B) os ->
  exists v' w' l', area_run init_size incr_size hw v w os = Val (v', w') /\ good B v' l' /\
    forall y, covers (rngs l') y <-> last_added (covers (rngs l) y) os y.
Proof.
  intros Hi Hc HB. induction os as [|o os IH]; intros v l w G Ho; cbn [area_run last_added]; [by exists v, w, l|].
  apply Forall_cons in Ho as [(H1 & H2 & H3 & H4) Ho]. destruct o as [s e vmf ff d|s e rp]; cbn [op_range fst snd] in *.
  - destruct (add_vm_area_spec B HB vmf ff init_size incr_size Hi Hc v l w s e d G H1 H2 H3 H4) as (v1 & w1 & l1 & -> & G1 & _ & _ & Hcov).
    cbn [mbind cres_bind]. destruct (IH v1 l1 w1 G1 Ho) as (v2 & w2 & l2 & -> & G2 & Hcov2).
    exists v2, w2, l2. split_and!; try done. intros y. rewrite Hcov2. by apply last_added_iff.
  - destruct (remove_vm_area_spec hw rp init_size incr_size Hi Hc B HB v l w s e G H1 H2 H3 H4) as (ok & made & v1 & w1 & l1 & -> & G1 & _ & Hcov & _).
    cbn [mbind cres_bind]. destruct (IH v1 l1 w1 G1 Ho) as (v2 & w2 & l2 & -> & G2 & Hcov2).
    exists v2, w2, l2. split_and!; try done. intros y. rewrite Hcov2. by apply last_added_iff.
Qed.

(** C27. Whatever the flags of the areas and whatever the callbacks do, adding
    and removing ranges never leaves the array, and keeps the areas sorted,
    disjoint and not empty; an address is in an area exactly when the last
    operation on it added it, although a range may be split around areas of
    other flags and areas may be merged. *)
Theorem areas_cover_what_was_added {P W : Type} (init_size incr_size : Z) (hw : bool) (flags : Z) (c : callbacks P W) (w : W)
    (os : list (area_op P)) :
  0 < init_size < 1073741824 -> 0 < incr_size < 1073741824 -> callbacks_return c ->
  TEST VECTOR_FRAGMENT_LIST flags = false -> Z.of_nat (length os) < 536870912 ->
  Forall (fun o => 0 <= (op_range o).1 < (op_range o).2 /\ (op_range o).2 < w64) os ->
  exists v' w' l', area_run init_size incr_size hw (vmvector_set_callbacks (vmvector_create_vector flags) c) w os = Val (v', w') /\
    represents v' l' /\ wf_ranges (rngs l') /\ forall y, covers (rngs l') y <-> last_added False os y.
Proof.
  intros Hi Hc Hret Hf Hlen Ho. pose proof (end_points_size os) as Hsz.
  destruct (area_run_spec init_size incr_size hw (end_points os) Hi Hc ltac:(lia) os
    (vmvector_set_callbacks (vmvector_create_vector flags) c) [] w) as (v' & w' & l' & E & G & Hcov).
  - split; [apply init_represents|apply wf_nil| |done|done]. intros p Hp. by apply elem_of_nil in Hp.
  - apply Forall_forall. intros o Hin. rewrite Forall_forall in Ho. destruct (Ho o Hin). split; [done|]. split; [done|]. split; unfold end_points;
      apply elem_of_list_to_set, elem_of_flat_map; exists o; (split; [done|set_solver]).
  - exists v', w', l'. split; [done|]. split; [apply G|]. split; [apply G|]. intros y. rewrite Hcov. apply last_added_iff.
    split; [|done]. intros H. by apply covers_nil in H.
Qed.

(** ** Where the code does something else than its comments say *)

(** Freeing the payloads of the areas that are merged, when there is no
    function to merge payloads. *)
Lemma merge_fold_keeps {P W : Type} (v : vm_area_vector_t P W) c w srcs c' w' :
  merge_payload_func (cbs v) = None -> merge_fold v c w srcs = Val (c', w') -> c' = c.
Proof.
  intros Hm. revert w. induction srcs as [|a srcs IH]; intros w H; cbn in H; [by simplify_eq|].
  unfold merge_payload in H. rewrite Hm in H. destruct (free_payload_func (cbs v)) as [f|]; cbn in H; [|by eapply IH].
  destruct (f (client a) w) as [w1|]; cbn in H; [by eapply IH|done].
Qed.

(** In a vector with a function that frees payloads and none that merges
    them, a range that is added over an area leaves that area's payload in
    place after it has been freed: every later lookup in the range answers the
    dangling payload, and the new payload is lost. *)
Theorem add_leaves_freed_payload {P W : Type} (init_size incr_size : Z) (v v' : vm_area_vector_t P W) l w w' s e d f a0 :
  0 < init_size < 1073741824 -> 0 < incr_size < 1073741824 ->
  represents v l -> wf_ranges (rngs l) -> plain l -> Z.of_nat (length l) < 1073741823 ->
  TEST VECTOR_FRAGMENT_LIST (vflags v) = false ->
  free_payload_func (cbs v) = Some f -> merge_payload_func (cbs v) = None ->
  0 <= s < e -> e < w64 -> a0 ∈ l -> overlaps s e a0 ->
  vmvector_add init_size incr_size v w s e d = Val (v', w') ->
  exists a w1, a ∈ l /\ f (client a) w = Val w1 /\
    forall pc, s <= pc < e -> exists s' e', vmvector_lookup_data v' pc = Val (Some (s', e', client a)).
Proof.
  intros Hi Hc R Wf Pl Hlen Hfr Hf Hm Hse He Ha0 Hov Hadd.
  pose proof (add_plain v w s e d init_size incr_size Hi Hc l R Pl ltac:(lia) Hfr) as X. unfold refines in X.
  destruct (add_ref v w s e d l) as [[l' w2]|] eqn:E; [|rewrite X in Hadd; done].
  destruct X as (v2 & Hadd2 & R' & _). rewrite Hadd in Hadd2. simplify_eq.
  destruct (add_ref_wf _ _ _ _ _ _ _ _ Wf Pl Hse He E) as (Wf' & Pl' & Hl').
  destruct (add_ref_inv _ _ _ _ _ _ _ _ Wf Pl Hse He E) as (b & h & r & c & El & Hb & Hh & Hr & _ & _ & Hcase).
  destruct Hov as [O1 O2]. destruct h as [|a t].
  { exfalso. rewrite El in Ha0. apply elem_of_app in Ha0 as [Ha0|Ha0]; [specialize (Hb a0 Ha0)|specialize (Hr a0 Ha0)]; lia. }
  destruct Hcase as (-> & c0 & w0 & Hm1 & Hm2). unfold merge_payload in Hm1. rewrite Hm, Hf in Hm1.
  destruct (f (client a) w) as [w1|] eqn:Ef; cbn in Hm1; [|done]. simplify_eq.
  apply merge_fold_keeps in Hm2 as ->; [|done]. exists a, w0. split; [set_solver|]. split; [done|].
  intros pc Hpc. set (new := mk_area _ _ _ _ _) in *.
  assert (new ∈ b ++ new :: r) as Hnew by set_solver. assert (contains pc new = true) as Hcn by (apply contains_spec; cbn; lia).
  unfold vmvector_lookup_data.
  destruct (lookup_addr_spec v2 _ pc R' Wf' ltac:(lia) ltac:(lia)) as [(i & x & -> & Hix & Hcx & _)|[_ Hno]].
  - cbn [mbind cres_bind]. rewrite (get_spec v2 _ i x) by done. cbn [mbind cres_bind].
    apply list_elem_of_lookup_1 in Hnew as [j Hj]. pose proof (contains_unique _ _ _ _ _ _ Wf' Hix Hj Hcx Hcn) as ->.
    rewrite Hj in Hix. injection Hix as <-. by eexists _, _.
  - apply list_elem_of_In in Hnew. by rewrite (List.find_none _ _ Hno _ Hnew) in Hcn.
Qed.

Lemma drop_flags_same {P} (a : vm_area_t P) : drop_flags (vm_flags a) a = a.
Proof. unfold drop_flags, drop_flag. by rewrite !andb_negb_r. Qed.

(** Areas of different flags are said never to be merged, and a range that
    lies inside of an area of other flags to be left out.  But when an area
    with the flags of the range ends where that other area starts, adding the
    range to the start of the other area merges the two: all of it takes the
    flags of its neighbour. *)
Theorem contained_range_swallows_area {P W : Type} (init_size incr_size : Z) (v : vm_area_vector_t P W) (a b : vm_area_t P) w e d :
  represents v [a; b] -> wf_ranges (rngs [a; b]) -> area_end a = area_start b -> frag_flags b <> frag_flags a ->
  TEST FRAG_COARSE_GRAIN (frag_flags a) = false -> TEST VECTOR_NEVER_MERGE_ADJACENT (vflags v) = false ->
  TEST VECTOR_FRAGMENT_LIST (vflags v) = false -> cbs v = no_callbacks -> area_start b < e <= area_end b ->
  exists v', add_vm_area init_size incr_size v w (area_start b) e (vm_flags a) (frag_flags a) d = Val (v', w) /\
    represents v' [mk_area (area_start a) (area_end b) (vm_flags a) (frag_flags a) (client a)].
Proof.
  intros R Wf Hab Hff Hco Hnm Hfr Hcb He. pose proof (wf_lookup [a; b] 0 a Wf eq_refl). pose proof (wf_lookup [a; b] 1 b Wf eq_refl).
  unfold add_vm_area. rewrite (rep_len _ _ R). cbn [length Z.of_nat Pos.of_succ_nat]. change (Z.to_nat (Z.pos (Pos.succ 1))) with 2%nat.
  cbn [add_vm_area_fuel]. rewrite (rep_len _ _ R). change (Z.to_nat (Z.of_nat (length [a; b]))) with 2%nat.
  set (rec := add_vm_area_fuel _ _ _ _ _). cbn [scan_loop sc_v]. rewrite (rep_len _ _ R).
  change (0 <? Z.of_nat (length [a; b])) with true. cbv iota.
  assert (E0 : scan_area rec (vm_flags a) (frag_flags a) d 0 (Scan (area_start b) e (-1) (-1) v w) =
               Val (false, Scan (area_start b) e 0 (-1) v w)).
  { unfold scan_area. cbn [sc_v sc_start sc_end sc_w overlap_start overlap_end]. change 0 with (Z.of_nat 0).
    rewrite (get_spec v _ 0 a R eq_refl). cbn [mbind cres_bind]. unfold add_hits, should_merge. rewrite Hcb, Hco, Hnm.
    rewrite (proj2 (Z.ltb_ge (area_start b) (area_end a))), (proj2 (Z.leb_le (area_start b) (area_end a))),
      (proj2 (Z.leb_le (area_start a) e)), !Z.eqb_refl by lia. cbn [andb negb mbind cres_bind no_callbacks should_merge_func].
    rewrite drop_flags_same, (set_same v [a; b] 0 a R eq_refl). cbn [mbind cres_bind]. rewrite !Z.eqb_refl. done. }
  rewrite E0. cbn [mbind cres_bind sc_v]. rewrite (rep_len _ _ R). change (0 + 1 <? Z.of_nat (length [a; b])) with true. cbv iota.
  destruct (drop_flags_rng (vm_flags a) b) as [Hrng Hdf]. unfold rng in Hrng. injection Hrng as Hs' He'.
  destruct (area_set_spec v [a; b] 1 (drop_flags (vm_flags a) b) R ltac:(cbn; lia)) as (v1 & E1 & R1 & [Sf Sc]). cbn [insert list_insert] in R1.
  assert (E1' : scan_area rec (vm_flags a) (frag_flags a) d (0 + 1) (Scan (area_start b) e 0 (-1) v w) =
               Val (false, Scan (area_start b) e 0 (-1) v1 w)).
  { unfold scan_area. cbn [sc_v sc_start sc_end sc_w overlap_start overlap_end]. change (0 + 1) with (Z.of_nat 1).
    rewrite (get_spec v _ 1 b R eq_refl). cbn [mbind cres_bind]. unfold add_hits.
    rewrite (proj2 (Z.ltb_lt (area_start b) (area_end b))), (proj2 (Z.ltb_lt (area_start b) e)) by lia.
    cbn [andb mbind cres_bind]. rewrite E1. cbn [mbind cres_bind].
    unfold should_merge. rewrite Sc, Hcb, Hdf, (proj2 (Z.eqb_neq (frag_flags a) _)), orb_true_r by done. cbn [negb no_callbacks should_merge_func mbind cres_bind].
    unfold split_off. cbn [sc_start sc_end sc_v sc_w overlap_end]. rewrite Hs', He', Z.ltb_irrefl, (proj2 (Z.ltb_ge _ e)) by lia. done. }
  rewrite E1'. cbn [mbind cres_bind]. unfold add_finish. cbn [overlap_start overlap_end sc_v sc_w sc_start sc_end].
  rewrite Z.eqb_refl. change (0 =? -1) with false. cbv iota. rewrite (rep_len _ _ R1). change 0 with (Z.of_nat 0).
  pose proof (extend_spec v1 _ w (area_start b) e d 0 2 a (drop_flags (vm_flags a) b) R1 ltac:(cbn; lia) eq_refl eq_refl ltac:(by rewrite Sf)) as X.
  unfold merge_payload in X. rewrite Sc, Hcb in X. cbn in X. unfold merge_payload in X. rewrite Sc, Hcb in X. cbn in X.
  destruct X as (v' & EX & RX & _). exists v'. split; [exact EX|]. rewrite He' in RX.
  replace (Z.min (area_start b) (area_start a)) with (area_start a) in RX by lia. by replace (Z.max e (area_end b)) with (area_end b) in RX by lia.
Qed.

(** ** The theorems at concrete inputs *)

(** Payloads are numbers; the world is the list of those freed. *)
Definition log_free (d : Z) (w : list Z) : cres (list Z) := Val (w ++ [d]).
Definition freeing : callbacks Z (list Z) := Build_callbacks (Some log_free) None None None.

Lemma vmvector_refines_areas_witness :
  vector_run 0 100 100 true (vmvector_set_callbacks (vmvector_create_vector 0) freeing, [])
    [VAdd 4096 8192 1; VAdd 12288 16384 2; VAdd 8192 8448 3; VLookup 8200; VPrevNext 10000; VRemove 5000 6000;
     VOverlap 16384 0; VModify 6000 8448 4; VIterate] =
  Val ([ADone; ADone; ADone; AData 1; ARange (Some (4096, 12288)); ABool true; ABool false; ABool true;
        AAreas [(1, 4096, 5000); (4, 6000, 8448); (2, 12288, 16384)]], [1; 1; 4; 2]).
Proof.
  rewrite (vmvector_refines_areas 0 100 100 true 0 freeing []); [vm_compute; reflexivity|lia|lia|reflexivity| |cbn; lia].
  repeat constructor; cbn; lia.
Defined.

Definition two_areas : list (vm_area_t Z) := [mk_area 4096 8192 8 0 1; mk_area 8192 12288 8 32768 2].
Definition vector_of (c : callbacks Z (list Z)) (l : list (vm_area_t Z)) : vm_area_vector_t Z (list Z) :=
  mk_vector (Some (map Some l ++ [None])) (Z.of_nat (length l) + 1) (Z.of_nat (length l)) 0 c.

Lemma vector_of_represents c l : Z.of_nat (length l) < 1000 -> represents (vector_of c l) l.
Proof.
  intros H. split; cbn; [done|lia|]. split; [rewrite length_app, length_map; cbn; lia|by eexists].
Qed.
Lemma two_areas_wf : wf_ranges (rngs two_areas).
Proof.
  cbn. rewrite !wf_ranges_cons. split_and!; cbn; try lia; try apply wf_nil; intros q Hq.
  - apply list_elem_of_singleton in Hq as ->. cbn. lia.
  - by apply elem_of_nil in Hq.
Qed.

Lemma binary_search_finds_witness :
  represents (vector_of freeing two_areas) two_areas /\
  binary_search (vector_of freeing two_areas) 9000 0 true = Val (true, 1) /\
  match binary_search (vector_of freeing two_areas) 9000 0 true with
  | Val (true, i) => exists a, 0 <= i /\ two_areas !! Z.to_nat i = Some a /\ meets 9000 0 a /\
      (true = true -> forall j b, Z.of_nat j < i -> two_areas !! j = Some b -> ~ meets 9000 0 b)
  | Val (false, i) => -1 <= i < Z.of_nat (length two_areas) /\ (forall a, a ∈ two_areas -> ~ meets 9000 0 a) /\
      forall j a, two_areas !! j = Some a -> if Z.of_nat j <=? i then area_end a <= 9000 else 0 <= area_start a
  | Undef => False
  end.
Proof.
  split; [apply vector_of_represents; cbn; lia|]. split; [reflexivity|].
  apply (binary_search_finds (vector_of freeing two_areas) two_areas 9000 0 true);
    [apply vector_of_represents; cbn; lia|apply two_areas_wf|cbn; lia].
Defined.

Lemma iterator_reaches_every_area_witness :
  represents (vector_of freeing two_areas) two_areas /\ exists index,
    advance 1 (vector_of freeing two_areas) vmvector_iterator_start = Val index /\
    vmvector_iterator_hasnext (vector_of freeing two_areas) index = bool_decide (1 < 2)%nat /\
    forall a, two_areas !! 1%nat = Some a ->
      vmvector_iterator_peek (vector_of freeing two_areas) index = Val (client a, area_start a, area_end a) /\
      exists index', vmvector_iterator_next (vector_of freeing two_areas) index = Val (client a, area_start a, area_end a, index') /\
        advance 2 (vector_of freeing two_areas) vmvector_iterator_start = Val index'.
Proof.
  split; [apply vector_of_represents; cbn; lia|].
  apply (iterator_reaches_every_area (vector_of freeing two_areas) two_areas 1); [apply vector_of_represents; cbn; lia|cbn; lia].
Defined.

Lemma freeing_returns : callbacks_return freeing.
Proof. split; cbn; intros f E; simplify_eq. intros d w. by eexists. Qed.

Lemma areas_cover_what_was_added_witness :
  exists v' w' l', area_run 100 100 true (vmvector_set_callbacks (vmvector_create_vector 0) freeing) []
      [AddArea 4096 8192 8 32768 1; AddArea 0 16384 0 0 2; RemoveArea 5000 6000 true] = Val (v', w') /\
    represents v' l' /\ wf_ranges (rngs l') /\
    forall y, covers (rngs l') y <-> last_added False
      [AddArea 4096 8192 8 32768 1; AddArea 0 16384 0 0 2; RemoveArea 5000 6000 true] y.
Proof.
  apply (areas_cover_what_was_added 100 100 true 0 freeing []); [lia|lia|apply freeing_returns|reflexivity|cbn; lia|].
  repeat constructor; cbn; lia.
Defined.

Definition one_area : list (vm_area_t Z) := [mk_area 4096 8192 0 0 1].

Lemma add_leaves_freed_payload_witness : exists v',
  vmvector_add 100 100 (vector_of freeing one_area) [] 6000 9000 7 = Val (v', [1]) /\
  exists a w1, a ∈ one_area /\ log_free (client a) [] = Val w1 /\
    forall pc, 6000 <= pc < 9000 -> exists s' e', vmvector_lookup_data v' pc = Val (Some (s', e', client a)).
Proof.
  eexists. split; [reflexivity|].
  apply (add_leaves_freed_payload 100 100 (vector_of freeing one_area) _ one_area [] [1] 6000 9000 7 log_free (mk_area 4096 8192 0 0 1));
    [lia|lia|apply vector_of_represents; cbn; lia| | |cbn; lia|reflexivity|reflexivity|reflexivity|lia|lia|apply list_elem_of_here| |reflexivity].
  - cbn. rewrite wf_ranges_cons. split_and!; cbn; try lia; [|apply wf_nil]. intros q Hq. by apply elem_of_nil in Hq.
  - intros a Ha. by apply list_elem_of_singleton in Ha as ->.
  - split; cbn; lia.
Defined.

Lemma contained_range_swallows_area_witness : exists v',
  add_vm_area 100 100 (vector_of no_callbacks two_areas) [] 8192 8448 8 0 7 = Val (v', []) /\
  represents v' [mk_area 4096 12288 8 0 1].
Proof.
  apply (contained_range_swallows_area 100 100 (vector_of no_callbacks two_areas) (mk_area 4096 8192 8 0 1) (mk_area 8192 12288 8 32768 2) [] 8448 7);
    [apply vector_of_represents; cbn; lia|apply two_areas_wf|reflexivity|done|reflexivity|reflexivity|reflexivity|reflexivity|cbn; lia].
Defined.
