(* ===== verification/MemCache.v ===== *)
(** * The cache of the address space (src/Simulator/core/unix/memcache.c)

    DynamoRIO remembers the protection and the type of every region of memory
    in an area vector, [all_memory_areas], so as not to read the system's maps
    at every query.  The payload of an area is a pointer to an [allmem_info_t]
    on the heap; the vector's callbacks compare, copy and free these, so the
    heap is the world of the vector ([VmVector]).

    The allocator and what the system answers about an address are parameters.
    The functions are modelled as they run with the lock held and the list of
    DynamoRIO's own areas up to date, so that [sync_all_memory_areas] has
    nothing to do.  [memcache_handle_mmap], which changes protections of the
    application, and [memcache_update_all_from_os] are not modelled. *)
From S2P Require Export VmVectorSpec.

Record allmem_info_t := mk_info {
  prot : Z;
  mem_type : Z;
  shareable : bool;
  vdso : bool
}.

#[export] Instance allmem_info_eq_dec : EqDecision allmem_info_t.
Proof. solve_decision. Defined.

Abbreviation heap := (gmap Z allmem_info_t).

Definition DR_MEMTYPE_FREE : Z := 0.
Definition DR_MEMTYPE_IMAGE : Z := 1.
Definition DR_MEMTYPE_DATA : Z := 2.
Definition MEMPROT_NONE : Z := 0.
Definition MEMPROT_READ : Z := 1.
Definition MEMPROT_WRITE : Z := 2.

Section MemCache.
Context (alloc : heap -> Z).                      (* HEAP_TYPE_ALLOC *)
Context (vsyscall_page_start : Z).
Context (init_size incr_size : Z).                (* the options of the vector *)
Context (hw_cache_consistency : bool).
Context (get_memory_info_from_os : Z -> option (Z * Z * Z)).  (* base, size and protection *)

(** ** The vector's callbacks *)

(** Reading through a payload. *)
Definition deref (p : Z) (w : heap) : cres allmem_info_t := cres_of_option (w !! p).

Definition allmem_info_free (p : Z) (w : heap) : cres heap := _ ← deref p w; Val (delete p w).

Definition allmem_info_dup (p : Z) (w : heap) : cres (Z * heap) :=
  src ← deref p w; let dst := alloc w in Val (dst, <[dst := src]> w).

Definition allmem_should_merge (adjacent : bool) (data1 data2 : Z) (w : heap) : cres bool :=
  i1 ← deref data1 w; i2 ← deref data2 w;
  Val ((prot i1 =? prot i2) && (mem_type i1 =? mem_type i2) && Bool.eqb (shareable i1) (shareable i2) &&
       negb (vdso i1) && negb (vdso i2)).

Definition allmem_info_merge (dst_data src_data : Z) (w : heap) : cres (Z * heap) :=
  w ← allmem_info_free src_data w; Val (dst_data, w).

Definition allmem_callbacks : callbacks Z heap :=
  Build_callbacks (Some allmem_info_free) (Some allmem_info_dup) (Some allmem_should_merge) (Some allmem_info_merge).

(** ** The state: [all_memory_areas] and the heap *)

Definition state : Type := vm_area_vector_t Z heap * heap.

Definition memcache_init (w : heap) : state :=
  (vmvector_set_callbacks (vmvector_create_vector VECTOR_SHARED) allmem_callbacks, w).

Definition memcache_exit (st : state) : cres heap := vmvector_delete_vector (fst st) (snd st).

Definition memcache_initialized (st : state) (dynamo_initialized : bool) : bool :=
  negb (vmvector_empty (fst st)) && dynamo_initialized.

(** ** Updates *)

Definition add_all_memory_area (st : state) (s e p t : Z) (share : bool) : cres state :=
  let '(v, w) := st in
  let info := alloc w in
  vmvector_add init_size incr_size v (<[info := mk_info p t share (s =? vsyscall_page_start)]> w) s e info.

Definition remove_areas (st : state) (s e : Z) : cres (bool * state) :=
  let '(v, w) := st in
  '(ok, v, w) ← vmvector_remove init_size incr_size hw_cache_consistency false v w s e; Val (ok, (v, w)).

(** One region of the loop that keeps the types of existing regions: an image
    changes its protection; what lies before it becomes data. *)
Definition update_image (st : state) (pc e p sub_start sub_end next_add : Z) (info : allmem_info_t) : cres (Z * state) :=
  if mem_type info =? DR_MEMTYPE_IMAGE then
    st ← (if next_add <? sub_start then
            '(_, st) ← remove_areas st next_add pc; add_all_memory_area st next_add pc p DR_MEMTYPE_DATA false
          else Val st);
    let overlap_end := if e <? sub_end then e else sub_end in
    let share := if (sub_start =? pc) && (sub_end =? overlap_end)
                 then (if negb (Bool.eqb (TEST MEMPROT_WRITE p) (TEST MEMPROT_WRITE (prot info))) then false else shareable info)
                 else false in
    '(_, st) ← remove_areas st pc overlap_end;
    st ← add_all_memory_area st pc overlap_end p (mem_type info) share;
    Val (sub_end, st)
  else Val (next_add, st).

Fixpoint update_loop (k : nat) (st : state) (s e p pc next_add : Z) : cres (Z * state) :=
  match k with
  | O => Undef
  | S k =>
      if (pc <? e) && (s <=? pc) then
        r ← vmvector_lookup_data (fst st) pc;
        match r with
        | Some (sub_start, sub_end, data) =>
            info ← deref data (snd st);
            '(next_add, st) ← update_image st pc e p sub_start sub_end next_add info;
            update_loop k st s e p sub_end next_add
        | None => Val (next_add, st)
        end
      else Val (next_add, st)
  end.

Definition memcache_update (st : state) (s end_in p t : Z) : cres state :=
  let e := align_forward end_in 4096 in
  if t =? -1 then
    '(next_add, st) ← update_loop (S (Z.to_nat (e - s))) st s e p s s;
    if next_add <? e then
      '(_, st) ← remove_areas st next_add e; add_all_memory_area st next_add e p DR_MEMTYPE_DATA false
    else Val st
  else
    overlap ← vmvector_overlap (fst st) s e;
    st ← (if (overlap : bool) then '(_, st) ← remove_areas st s e; Val st else Val st);
    add_all_memory_area st s e p t (t =? DR_MEMTYPE_IMAGE).

(** The lock around an update is not modelled. *)
Definition memcache_update_locked (st : state) (s e p t : Z) : cres state := memcache_update st s e p t.

Definition memcache_remove (st : state) (s e : Z) : cres (bool * state) := remove_areas st s e.

Definition memcache_handle_mremap (st : state) (base size old_base old_size old_prot old_type : Z) : cres state :=
  '(_, st) ← memcache_remove st old_base (u64 (old_base + old_size));
  memcache_update st base (u64 (base + size)) old_prot old_type.

(** [lowest_brk] is 0 when it is not known. *)
Definition memcache_handle_app_brk (st : state) (lowest_brk old_brk new_brk : Z) : cres state :=
  if new_brk <? old_brk then '(_, st) ← memcache_remove st new_brk old_brk; Val st
  else if old_brk <? new_brk then
    p ← (if negb (lowest_brk =? 0) && (old_brk =? lowest_brk) then Val (Z.lor MEMPROT_READ MEMPROT_WRITE)
         else data ← vmvector_lookup 0 (fst st) (u64 (old_brk - 1));
              if data =? 0 then Val (Z.lor MEMPROT_READ MEMPROT_WRITE)
              else info ← deref data (snd st); Val (prot info));
    memcache_update st old_brk new_brk p DR_MEMTYPE_DATA
  else Val st.

(** ** Queries *)

Record dr_mem_info_t := mk_mem_info {
  base_pc : Z;
  mem_size : Z;
  mem_prot : Z;
  info_type : Z
}.

Definition memcache_query_memory (st : state) (pc : Z) : cres (dr_mem_info_t * state) :=
  r ← vmvector_lookup_data (fst st) pc;
  match r with
  | Some (s, e, data) =>
      info ← deref data (snd st);
      Val (mk_mem_info s (e - s) (prot info) (mem_type info), st)
  | None =>
      '(prev, next) ← (r ← vmvector_lookup_prev_next (fst st) pc; cres_of_option r);
      base ← (if negb (prev =? 0) then
                r ← vmvector_lookup_data (fst st) prev;
                match r with Some (_, e, _) => Val e | None => Undef end
              else Val 0);
      match get_memory_info_from_os pc with
      | Some (os_base, os_size, os_prot) =>
          if negb (os_prot =? MEMPROT_NONE) then
            st ← memcache_update_locked st os_base (u64 (os_base + os_size)) os_prot (-1);
            Val (mk_mem_info os_base os_size os_prot DR_MEMTYPE_DATA, st)
          else Val (mk_mem_info base (next - base) MEMPROT_NONE DR_MEMTYPE_FREE, st)
      | None => Val (mk_mem_info base (next - base) MEMPROT_NONE DR_MEMTYPE_FREE, st)
      end
  end.
End MemCache.
