(* ===== verification/MemCacheProof.v ===== *)
(** * What the cache of the address space holds

    The areas of the vector and the heap of their payloads together give each
    address the information about the region it is in.  Adding and removing
    areas change that as they should, and leave on the heap exactly the
    payloads of the areas. *)
From S2P Require Export MemCache.

Section MemCacheProof.
Context (alloc : heap -> Z).
Context (B : gset Z).
Implicit Types (v : vm_area_vector_t Z heap) (l : list (vm_area_t Z)) (a : vm_area_t Z) (w : heap) (i : allmem_info_t).

Definition clients l : list Z := map client l.

(** The address [x] lies in an area whose information is [i]. *)
Definition holds l w (x : Z) i : Prop := exists a, a ∈ l /\ area_start a <= x < area_end a /\ w !! client a = Some i.

Record list_ok l w : Prop := {
  lo_wf : wf_ranges (rngs l);
  lo_plain : plain l;
  lo_bounded : bounded B (rngs l);
  lo_nodup : NoDup (clients l);
  lo_dom : forall p, is_Some (w !! p) <-> p ∈ clients l;
  lo_null : w !! 0 = None
}.

Lemma elem_of_clients l a : a ∈ l -> client a ∈ clients l.
Proof. intros H. apply list_elem_of_fmap. by exists a. Qed.
Lemma elem_of_clients_inv l p : p ∈ clients l -> exists a, a ∈ l /\ p = client a.
Proof. intros H. apply list_elem_of_fmap in H as (a & -> & ?). by exists a. Qed.
Lemma lo_info l w a : list_ok l w -> a ∈ l -> exists i, w !! client a = Some i.
Proof. intros H Ha. by apply (lo_dom _ _ H), elem_of_clients. Qed.

(** ** The heap after payloads have been freed *)

Definition remove_all (ps : list Z) w : heap := foldr delete w ps.

Lemma lookup_remove_all ps w p : remove_all ps w !! p = if decide (p ∈ ps) then None else w !! p.
Proof using.
  clear. induction ps as [|q ps IH]; [done|]. change (remove_all (q :: ps) w) with (delete q (remove_all ps w)).
  destruct (decide (p = q)) as [->|Hpq].
  - rewrite lookup_delete_eq. by rewrite decide_True by set_solver.
  - rewrite lookup_delete_ne, IH by done. destruct (decide (p ∈ ps)); [rewrite decide_True by set_solver|rewrite decide_False by set_solver]; done.
Qed.

Lemma delete_remove_all p ps w : delete p (remove_all ps w) = remove_all ps (delete p w).
Proof using.
  clear.
  apply map_eq. intros q. destruct (decide (q = p)) as [->|].
  - rewrite lookup_delete_eq, lookup_remove_all, lookup_delete_eq. by destruct (decide _).
  - rewrite lookup_delete_ne, !lookup_remove_all, lookup_delete_ne by done. done.
Qed.

(** The payloads [ps] are on the heap, each once. *)
Definition valid (ps : list Z) w : Prop := NoDup ps /\ forall p, p ∈ ps -> is_Some (w !! p).

Lemma valid_cons p ps w : valid (p :: ps) w -> is_Some (w !! p) /\ valid ps (delete p w).
Proof.
  intros [Hnd Hin]. apply NoDup_cons in Hnd as [Hp Hnd]. split; [apply Hin; set_solver|]. split; [done|].
  intros q Hq. rewrite lookup_delete_ne by set_solver. apply Hin. set_solver.
Qed.

Section Callbacks.
Context (v : vm_area_vector_t Z heap) (Hcb : cbs v = allmem_callbacks alloc).

Lemma free_fold_ok l w : valid (clients l) w -> free_fold v w l = Val (remove_all (clients l) w).
Proof using Hcb.
  revert w. induction l as [|a l IH]; intros w H; [done|]. cbn [free_fold]. rewrite Hcb. cbn [free_payload_func allmem_callbacks].
  cbn [clients map] in H. apply valid_cons in H as [[i Hi] H]. unfold allmem_info_free, deref. rewrite Hi. cbn [cres_of_option mbind cres_bind].
  rewrite IH by done. by rewrite <- delete_remove_all.
Qed.

Lemma merge_payload_ok w c k p : is_Some (w !! p) -> merge_payload v c p k w = Val (c, delete p w).
Proof using Hcb.
  intros [i Hi]. unfold merge_payload. rewrite Hcb. cbn [merge_payload_func allmem_callbacks]. unfold allmem_info_merge, allmem_info_free, deref.
  by rewrite Hi.
Qed.

Lemma merge_fold_ok l w c : valid (clients l) w -> merge_fold v c w l = Val (c, remove_all (clients l) w).
Proof using Hcb.
  revert w. induction l as [|a l IH]; intros w H; [done|]. cbn [merge_fold]. cbn [clients map] in H.
  apply valid_cons in H as [Ha H]. rewrite merge_payload_ok by done. cbn [mbind cres_bind]. rewrite IH by done.
  by rewrite <- delete_remove_all.
Qed.

(** ** Adding where nothing overlaps *)

Section Add.
Context (l : list (vm_area_t Z)) (w : heap) (s e p : Z) (i : allmem_info_t).
Context (Hok : list_ok l w) (Hp : w !! p = None) (Hp0 : p <> 0) (Hse : 0 <= s < e) (He : e < w64) (HsB : s ∈ B) (HeB : e ∈ B).
Context (Hno : forall a, a ∈ l -> ~ overlaps s e a).

Let w1 : heap := <[p := i]> w.

Lemma client_not_p a : a ∈ l -> client a <> p.
Proof using Hok Hp. clear -Hok Hp. intros Ha E. destruct (lo_info _ _ _ Hok Ha) as [j Hj]. congruence. Qed.

Lemma hits_ok a : a ∈ l -> exists b : bool, add_hits v s e 0 0 p a w1 = Val b /\
  (b = true -> s <= area_end a /\ area_start a <= e /\ w !! client a = Some i).
Proof using Hok Hp Hno Hcb.
  intros Ha. pose proof (Hno a Ha) as Hn. destruct (lo_info _ _ _ Hok Ha) as [j Hj]. unfold add_hits.
  destruct ((s <? area_end a) && (area_start a <? e)) eqn:E; [exfalso; apply Hn; by apply overlapsb_spec|].
  case_eqn E2; [|by exists false]. unfold should_merge. rewrite Hcb. cbn [should_merge_func allmem_callbacks]. unfold allmem_should_merge, deref, w1.
  rewrite lookup_insert_eq, lookup_insert_ne, Hj by (apply not_eq_sym, client_not_p; done). cbn [cres_of_option mbind cres_bind].
  eexists. split; [done|]. intros H. zbool. repeat (apply andb_true_iff in H as [H ?]). zbool. apply Bool.eqb_prop in H2.
  split; [lia|]. split; [lia|]. f_equal. destruct i, j; cbn in *. congruence.
Qed.

Lemma before_total l' : (forall a, a ∈ l' -> a ∈ l) -> exists b r, before_ref v w1 s e p l' = Val (b, r) /\ (forall a, a ∈ r -> a ∈ l).
Proof using Hok Hp Hno Hcb.
  clear Hp0 Hse He HsB HeB. induction l' as [|a l' IH]; intros H; cbn [before_ref]; [by exists [], []|].
  destruct (hits_ok a (H a ltac:(set_solver))) as (b & -> & _). cbn [mbind cres_bind].
  destruct b; [by exists [], (a :: l')|]. destruct (e <=? area_start a); [by exists [], (a :: l')|].
  destruct IH as (b & r & -> & Hr); [intros; apply H; set_solver|]. by exists (a :: b), r.
Qed.
Lemma run_total l' : (forall a, a ∈ l' -> a ∈ l) -> exists h r, run_ref v w1 s e p l' = Val (h, r) /\
  forall a, a ∈ h -> s <= area_end a /\ area_start a <= e /\ w !! client a = Some i.
Proof using Hok Hp Hno Hcb.
  clear Hp0 Hse He HsB HeB. induction l' as [|a l' IH]; intros H; cbn [run_ref]; [exists [], []; split; [done|]; intros a Ha; by apply elem_of_nil in Ha|].
  destruct (hits_ok a (H a ltac:(set_solver))) as (b & -> & Hb). cbn [mbind cres_bind].
  destruct b; [|exists [], (a :: l'); split; [done|]; intros c Hc; by apply elem_of_nil in Hc].
  destruct IH as (h & r & -> & Hh); [intros; apply H; set_solver|]. exists (a :: h), r. split; [done|].
  intros c Hc. apply elem_of_cons in Hc as [->|Hc]; [by apply Hb|by apply Hh].
Qed.

(** The area that takes the place of those the range joins. *)
Definition joined_area (h : list (vm_area_t Z)) : vm_area_t Z :=
  match h with
  | [] => mk_area s e 0 0 p
  | a :: _ => mk_area (Z.min s (area_start a)) (Z.max e (area_end (default a (last h)))) 0 0 p
  end.

(** The areas after the addition, and the heap. *)
Lemma add_ref_parts : exists b h r, l = b ++ h ++ r /\
  (forall a, a ∈ h -> s <= area_end a /\ area_start a <= e /\ w !! client a = Some i) /\
  add_ref v w1 s e p l = Val (b ++ joined_area h :: r, remove_all (clients h) w1).
Proof using Hok Hp Hno Hcb Hse He.
  clear Hp0 HsB HeB. destruct (before_total l ltac:(done)) as (b & r0 & Eb & Hr0). destruct (run_total r0 Hr0) as (h & r & Er & Hh).
  destruct (add_parts _ _ _ _ _ _ _ _ _ _ (lo_wf _ _ Hok) Eb Er) as (El & _).
  exists b, h, r. split; [done|]. split; [done|]. unfold add_ref. rewrite Eb. cbn [mbind cres_bind]. rewrite Er. cbn [mbind cres_bind].
  destruct h as [|a t]; [done|].
  assert (valid (clients (a :: t)) w1) as Hv.
  { pose proof (lo_nodup _ _ Hok) as Hnd. rewrite El in Hnd. unfold clients in Hnd. rewrite !map_app in Hnd.
    apply NoDup_app in Hnd as (_ & _ & Hnd). apply NoDup_app in Hnd as (Hnd & _ & _). split; [done|].
    intros q Hq. apply elem_of_clients_inv in Hq as (c & Hc & ->).
    assert (c ∈ l) as Hcl by (rewrite El; set_solver). unfold w1. rewrite lookup_insert_ne by (apply not_eq_sym, client_not_p; done).
    apply (lo_dom _ _ Hok). by apply elem_of_clients. }
  cbn [clients map] in Hv. apply valid_cons in Hv as [Ha Hv]. rewrite merge_payload_ok by done. cbn [mbind cres_bind].
  rewrite merge_fold_ok by done. cbn [mbind cres_bind]. by rewrite <- delete_remove_all.
Qed.

Section Joined.
Context (b h r : list (vm_area_t Z)) (El : l = b ++ h ++ r).
Context (Hh : forall a, a ∈ h -> s <= area_end a /\ area_start a <= e /\ w !! client a = Some i).
Let x := joined_area h.
Let w2 := remove_all (clients h) w1.

Lemma joined_in a : a ∈ b \/ a ∈ h \/ a ∈ r <-> a ∈ l.
Proof using El. clear -El. rewrite El, !elem_of_app. done. Qed.

Lemma joined_client : client x = p.
Proof using. unfold x. generalize h. clear. by intros []. Qed.

Lemma joined_nodup : NoDup (clients b) /\ NoDup (clients r) /\
  (forall q, q ∈ clients b -> q ∉ clients h /\ q ∉ clients r) /\ (forall q, q ∈ clients h -> q ∉ clients r).
Proof using El Hok.
  clear -El Hok. pose proof (lo_nodup _ _ Hok) as Hnd. rewrite El in Hnd. unfold clients in *. rewrite !map_app in Hnd.
  apply NoDup_app in Hnd as (Nb & Hbhr & Hnd). apply NoDup_app in Hnd as (Nh & Hhr & Nr). split_and!; try done.
  intros q Hq. specialize (Hbhr q Hq). set_solver.
Qed.

(** The heap: the payloads of the run are gone, the new one is there. *)
Lemma joined_kept a : a ∈ b \/ a ∈ r -> w2 !! client a = w !! client a.
Proof using El Hok Hp.
  clear Hcb alloc Hno Hh Hp0 Hse He HsB HeB. intros Ha. destruct joined_nodup as (_ & _ & Hb & Hr). unfold w2. rewrite lookup_remove_all, decide_False.
  - unfold w1. rewrite lookup_insert_ne; [done|]. apply not_eq_sym, client_not_p, joined_in. tauto.
  - intros Hch. destruct Ha as [Ha|Ha].
    + by destruct (Hb (client a) (elem_of_clients _ _ Ha)) as [? _].
    + by apply (Hr (client a) Hch), elem_of_clients.
Qed.

Lemma not_joined q : q ∈ b \/ q ∈ h \/ q ∈ r -> client q <> p.
Proof using El Hok Hp. clear Hcb alloc Hno Hh Hp0 Hse He HsB HeB. intros Hq. by apply client_not_p, joined_in. Qed.

Lemma joined_new : w2 !! p = Some i.
Proof using El Hok Hp.
  clear Hcb alloc Hno Hh Hp0 Hse He HsB HeB. unfold w2. rewrite lookup_remove_all, decide_False; [unfold w1; by rewrite lookup_insert_eq|].
  intros Hc. apply elem_of_clients_inv in Hc as (a & Ha & E1). apply (not_joined a); [tauto|done].
Qed.

(** The range of the new area. *)
Lemma joined_bounds : area_start x <= s /\ e <= area_end x /\ area_start x ∈ B /\ area_end x ∈ B /\
  (forall y, area_start x <= y < area_end x -> s <= y < e \/ exists a, a ∈ h /\ area_start a <= y < area_end a) /\
  (forall a, a ∈ h -> area_start x <= area_start a /\ area_end a <= area_end x).
Proof using El Hh Hok HsB HeB.
  clear Hcb alloc Hno Hp0 Hp Hse He. unfold x, joined_area. destruct h as [|a t] eqn:Eh.
  - cbn. split_and!; try done; try lia. intros a Ha. by apply elem_of_nil in Ha.
  - assert (Wh : wf_ranges (rngs (a :: t))).
    { pose proof (lo_wf _ _ Hok) as Wf. rewrite El, !rngs_app in Wf. apply wf_ranges_app in Wf as (_ & Wf & _).
      by apply wf_ranges_app in Wf as (? & _). }
    pose proof (joined_range _ t a eq_refl Wh) as Hj.
    assert (is_Some (last (a :: t))) as [z Hz] by (by apply last_is_Some). rewrite Hz in *. cbn [from_option id] in *.
    assert (z ∈ a :: t) as Hzin by (rewrite last_lookup in Hz; by eapply list_elem_of_lookup_2).
    assert (a ∈ l /\ z ∈ l) as [Hal Hzl] by (rewrite El; set_solver).
    destruct (lo_bounded _ _ Hok (rng a) (elem_of_rngs _ _ Hal)) as [? _]. destruct (lo_bounded _ _ Hok (rng z) (elem_of_rngs _ _ Hzl)) as [_ ?].
    destruct (Hh a (list_elem_of_here a t)) as (? & ? & _). destruct (Hh z Hzin) as (? & ? & _). cbn.
    split_and!; try lia.
    + by destruct (Z.min_spec s (area_start a)) as [[_ ->]|[_ ->]].
    + by destruct (Z.max_spec e (area_end z)) as [[_ ->]|[_ ->]].
    + intros y Hy. destruct (decide (y < s)); [right; exists a; split; [apply list_elem_of_here|lia]|].
      destruct (decide (y < e)); [left; lia|]. right. exists z. split; [done|lia].
    + intros c Hc. destruct (Hj c Hc). lia.
Qed.

Lemma joined_list_ok : wf_ranges (rngs (b ++ x :: r)) -> plain (b ++ x :: r) -> list_ok (b ++ x :: r) w2.
Proof using El Hh Hok Hp Hp0 HsB HeB.
  clear Hcb alloc Hno Hse He. intros Wf' Pl'. pose proof joined_client as Hcx. destruct joined_nodup as (Nb & Nr & Hb & Hr). destruct joined_bounds as (_ & _ & HxB1 & HxB2 & _).
  assert (Ec : clients (b ++ x :: r) = clients b ++ p :: clients r) by (unfold clients; rewrite map_app; cbn [map]; by rewrite Hcx).
  assert (Hnp : forall q, q ∈ clients b \/ q ∈ clients h \/ q ∈ clients r -> q <> p).
  { intros q Hq ->. assert (exists a, (a ∈ b \/ a ∈ h \/ a ∈ r) /\ p = client a) as (a & Ha & E1).
    { destruct Hq as [Hq|[Hq|Hq]]; apply elem_of_clients_inv in Hq as (a & ? & ?); exists a; tauto. }
    by apply (not_joined a). }
  split; [done|done| | | |].
  - intros q Hq. apply list_elem_of_fmap in Hq as (a & -> & Ha). apply elem_of_app in Ha as [Ha|Ha]; [|apply elem_of_cons in Ha as [->|Ha]; [done|]];
      apply (lo_bounded _ _ Hok), elem_of_rngs, joined_in; tauto.
  - rewrite Ec. apply NoDup_app. split; [done|]. split.
    + intros q Hq Hq'. apply elem_of_cons in Hq' as [->|Hq']; [apply (Hnp p); tauto|]. by destruct (Hb q Hq) as [_ ?].
    + apply NoDup_cons. split; [|done]. intros Hq. apply (Hnp p); tauto.
  - intros q. rewrite Ec, elem_of_app, elem_of_cons. unfold w2. rewrite lookup_remove_all. unfold w1. destruct (decide (q ∈ clients h)) as [Hq|Hq].
    + split; [intros [? [=]]|]. intros [H|[->|H]]; exfalso; [by destruct (Hb q H) as [? _]|apply (Hnp p); tauto|by apply (Hr q Hq)].
    + destruct (decide (q = p)) as [->|]; [rewrite lookup_insert_eq; naive_solver|]. rewrite lookup_insert_ne by done.
      rewrite (lo_dom _ _ Hok q), El. unfold clients in *. rewrite !map_app, !elem_of_app. tauto.
  - unfold w2. rewrite lookup_remove_all. unfold w1. rewrite lookup_insert_ne, (lo_null _ _ Hok) by done. by destruct (decide _).
Qed.

Lemma joined_holds y j : holds (b ++ x :: r) w2 y j <-> (s <= y < e /\ j = i) \/ (~ s <= y < e /\ holds l w y j).
Proof using El Hh Hok Hp HsB HeB Hno.
  clear Hcb alloc Hse He Hp0. pose proof joined_client as Hcx. destruct joined_bounds as (Hx1 & Hx2 & _ & _ & Hx5 & Hx6). split.
  - intros (a & Ha & Hy & Hj). apply elem_of_app in Ha as [Ha|Ha]; [|apply elem_of_cons in Ha as [->|Ha]].
    + right. rewrite joined_kept in Hj by tauto. assert (a ∈ l) as Hal by (apply joined_in; tauto). pose proof (Hno a Hal) as Hn.
      unfold overlaps in Hn. split; [lia|]. by exists a.
    + rewrite Hcx, joined_new in Hj. injection Hj as <-. destruct (decide (s <= y < e)); [by left|]. right. split; [done|].
      destruct (Hx5 y Hy) as [|(a & Ha & Hya)]; [done|]. exists a. split; [apply joined_in; tauto|]. split; [done|]. by apply Hh.
    + right. rewrite joined_kept in Hj by tauto. assert (a ∈ l) as Hal by (apply joined_in; tauto). pose proof (Hno a Hal) as Hn.
      unfold overlaps in Hn. split; [lia|]. by exists a.
  - intros [[Hy ->]|[Hy (a & Ha & Hya & Hj)]].
    + exists x. split; [set_solver|]. split; [lia|]. rewrite Hcx. apply joined_new.
    + apply joined_in in Ha as [Ha|[Ha|Ha]].
      * exists a. split; [set_solver|]. split; [done|]. by rewrite joined_kept by tauto.
      * exists x. split; [set_solver|]. destruct (Hx6 a Ha). split; [lia|]. rewrite Hcx, joined_new. destruct (Hh a Ha) as (_ & _ & Hwa). congruence.
      * exists a. split; [set_solver|]. split; [done|]. by rewrite joined_kept by tauto.
Qed.
End Joined.

Lemma add_ref_ok : exists l' w', add_ref v w1 s e p l = Val (l', w') /\ list_ok l' w' /\
  forall x j, holds l' w' x j <-> (s <= x < e /\ j = i) \/ (~ s <= x < e /\ holds l w x j).
Proof using Hok Hp Hp0 Hno Hcb Hse He HsB HeB.
  destruct add_ref_parts as (b & h & r & El & Hh & E). eexists _, _. split; [exact E|].
  destruct (add_ref_wf _ _ _ _ _ _ _ _ (lo_wf _ _ Hok) (lo_plain _ _ Hok) Hse He E) as (Wf' & Pl' & _).
  split; [by apply joined_list_ok|]. intros y j. by apply joined_holds.
Qed.
End Add.

(** ** Removing *)

Section Removing.
Context (alloc_fresh : forall w, w !! alloc w = None) (alloc_nonnull : forall w, alloc w <> 0).

Lemma elem_of_cut_area s e a (c : vm_area_t Z) : c ∈ cut_area s e a <->
  (area_start a < s /\ c = with_range a (area_start a) (Z.min s (area_end a))) \/
  (e < area_end a /\ c = with_range a (Z.max e (area_start a)) (area_end a)).
Proof using.
  clear. unfold cut_area. rewrite elem_of_app.
  destruct (Z.ltb_spec (area_start a) s), (Z.ltb_spec e (area_end a)); rewrite ?list_elem_of_singleton, ?elem_of_nil; intuition lia.
Qed.

(** Areas with pieces cut off, in the order and with the payloads of those
    that have something left. *)
Lemma clients_cut s e l : s < e -> (forall a, a ∈ l -> area_start a < area_end a /\ encloses s e a = false) ->
  clients (flat_map (cut_area s e) l) = clients (List.filter (fun a => negb (in_range s e a)) l).
Proof using.
  clear. intros Hse. unfold clients. induction l as [|a l IH]; intros H; [done|]. cbn [flat_map List.filter].
  destruct (H a (list_elem_of_here a l)) as [H1 H2]. rewrite map_app, IH by (intros; apply H; set_solver).
  unfold cut_area, in_range, encloses in *.
  destruct (Z.ltb_spec (area_start a) s), (Z.ltb_spec e (area_end a)), (Z.leb_spec s (area_start a)), (Z.leb_spec (area_end a) e);
    cbn in *; try lia; done.
Qed.

Lemma filter_negb (p : vm_area_t Z -> bool) l q : NoDup (clients l) ->
  q ∈ clients (List.filter (fun a => negb (p a)) l) <-> q ∈ clients l /\ q ∉ clients (List.filter p l).
Proof using.
  clear. induction l as [|a l IH]; cbn; intros Hnd; [set_solver|]. apply NoDup_cons in Hnd as [Ha Hnd].
  specialize (IH Hnd). assert (Hsub : q ∈ clients (List.filter p l) -> q ∈ clients l).
  { intros H. apply list_elem_of_fmap in H as (c & -> & Hc). apply list_elem_of_In, List.filter_In in Hc as [Hc _].
    apply list_elem_of_In in Hc. apply list_elem_of_fmap. by exists c. }
  fold (clients l) in *. destruct (p a); cbn; fold (clients (List.filter p l)) (clients (List.filter (fun a => negb (p a)) l)).
  - rewrite IH, !elem_of_cons. split; [|tauto]. intros [H1 H2]. split; [tauto|]. intros [->|H3]; [done|tauto].
  - rewrite !elem_of_cons, IH. split; [|tauto]. intros [->|]; [|tauto]. split; [tauto|]. intros H. by apply Ha, Hsub.
Qed.

Lemma filter_clients_nodup (p : vm_area_t Z -> bool) l : NoDup (clients l) -> NoDup (clients (List.filter p l)).
Proof using.
  clear. induction l as [|a l IH]; cbn; intros Hnd; [done|]. apply NoDup_cons in Hnd as [Ha Hnd].
  destruct (p a); [|by apply IH]. cbn. apply NoDup_cons. split; [|by apply IH]. intros H. apply Ha.
  apply list_elem_of_fmap in H as (c & E & Hc). apply list_elem_of_In, List.filter_In in Hc as [Hc _]. apply list_elem_of_In in Hc.
  apply list_elem_of_fmap. by exists c.
Qed.

(** Only the area that encloses the range holds its addresses. *)
Lemma same_area l a c y : wf_ranges (rngs l) -> a ∈ l -> c ∈ l -> area_start c <= y < area_end c -> area_start a <= y < area_end a -> c = a.
Proof using.
  clear. intros Wf Ha Hc Hy Hy'. apply list_elem_of_lookup_1 in Hc as [k Hk], Ha as [k' Hk'].
  assert (k = k') as -> by (apply (contains_unique l k k' c a y Wf Hk Hk'); apply contains_spec; done). congruence.
Qed.

Lemma encloses_spec s e a : encloses s e a = true <-> area_start a < s /\ e < area_end a.
Proof using. clear. unfold encloses. by rewrite andb_true_iff, !Z.ltb_lt. Qed.
Lemma in_range_spec s e a : in_range s e a = true <-> s <= area_start a /\ area_end a <= e.
Proof using. clear. unfold in_range. by rewrite andb_true_iff, !Z.leb_le. Qed.

Section Inside.
Context (l : list (vm_area_t Z)) (w : heap) (s e : Z) (a : vm_area_t Z).
Context (Hok : list_ok l w) (Hse : 0 <= s < e) (He : e < w64) (HsB : s ∈ B) (HeB : e ∈ B).
Context (Ha : a ∈ l) (Hea : encloses s e a = true).
Let l1 := map (fun b => if encloses s e b then with_range b (area_start b) s else b) l.

Lemma inside_filter : List.filter (in_range s e) l = [].
Proof using Hok Ha Hea Hse.
  clear -Hok Ha Hea Hse. pose proof (lo_wf _ _ Hok) as Wf. apply encloses_spec in Hea. apply filter_no_area. intros c Hc.
  apply not_true_iff_false. intros E. apply in_range_spec in E. pose proof (wf_area _ _ Wf Hc).
  assert (c = a) as -> by (apply (same_area l a c (area_start c)); try done; lia). lia.
Qed.

(** The area is shortened; the others stay. *)
Lemma elem_of_shortened c : c ∈ l1 <-> (c ∈ l /\ c <> a) \/ c = with_range a (area_start a) s.
Proof using Hok Ha Hea Hse.
  clear -Hok Ha Hea Hse. pose proof (lo_wf _ _ Hok) as Wf. pose proof Hea as Hea'. apply encloses_spec in Hea'.
  unfold l1. rewrite list_elem_of_fmap. split.
  - intros (b & -> & Hb). destruct (encloses s e b) eqn:E.
    + right. apply encloses_spec in E. assert (b = a) as -> by (apply (same_area l a b s); try done; lia). done.
    + left. split; [done|]. intros ->. congruence.
  - intros [[Hc Hca]| ->].
    + exists c. split; [|done]. destruct (encloses s e c) eqn:E; [|done]. apply encloses_spec in E. exfalso. apply Hca.
      apply (same_area l a c s); try done; lia.
    + exists a. by rewrite Hea.
Qed.

Lemma shortened_ok : list_ok l1 w.
Proof using Hok Ha Hea Hse HsB.
  clear -Hok Ha Hea Hse HsB. pose proof Hok as [Wf Pl Bd Nd Hdom Hnull]. destruct (shorten_wf s e l Wf Pl ltac:(lia)) as (W1 & P1 & _).
  assert (Hc1 : clients l1 = clients l).
  { unfold clients, l1. rewrite map_map. apply map_ext. intros b. by destruct (encloses s e b). }
  split; [done|done| |by rewrite Hc1|by rewrite Hc1|done]. intros q Hq. apply list_elem_of_fmap in Hq as (c & -> & Hc).
  apply elem_of_shortened in Hc as [[Hc _]| ->]; [by apply Bd, elem_of_rngs|]. cbn. destruct (Bd (rng a) (elem_of_rngs _ _ Ha)). done.
Qed.

Lemma inside_ok : exists l' w', ('(c, w) ← split_payload v (client a) w; '(l, w) ← add_ref v w e (area_end a) c l1; Val (true, l, w)) = Val (true, l', w') /\
  list_ok l' w' /\ forall x j, holds l' w' x j <-> ~ s <= x < e /\ holds l w x j.
Proof using Hok Ha Hea Hse He HsB HeB Hcb alloc_fresh alloc_nonnull.
  pose proof (lo_wf _ _ Hok) as Wf. pose proof (wf_area _ _ Wf Ha) as Wa. pose proof Hea as Hea'. apply encloses_spec in Hea'.
  unfold split_payload. rewrite Hcb. cbn [split_payload_func allmem_callbacks]. unfold allmem_info_dup, deref.
  destruct (lo_info _ _ _ Hok Ha) as [i Hi]. rewrite Hi. cbn [cres_of_option mbind cres_bind].
  destruct (lo_bounded _ _ Hok (rng a) (elem_of_rngs _ _ Ha)) as [_ HaB].
  destruct (add_ref_ok l1 w e (area_end a) (alloc w) i shortened_ok (alloc_fresh w) (alloc_nonnull w) ltac:(lia) ltac:(lia) HeB HaB) as (l' & w' & -> & Hok' & Hh).
  { intros c Hc [O1 O2]. apply elem_of_shortened in Hc as [[Hc Hca]| ->]; [|cbn in *; lia]. pose proof (wf_area _ _ Wf Hc). apply Hca.
    apply (same_area l a c (Z.max e (area_start c))); try done; lia. }
  cbn [mbind cres_bind]. exists l', w'. split; [done|]. split; [done|]. intros x j. rewrite Hh. unfold holds. split.
  - intros [[Hx ->]|[Hx (c & Hc & Hcx & Hj)]].
    + split; [lia|]. exists a. split; [done|]. split; [lia|done].
    + apply elem_of_shortened in Hc as [[Hc Hca]| ->].
      * split; [|by exists c]. intros Hsx. apply Hca. apply (same_area l a c x); try done. lia.
      * cbn in *. split; [lia|]. exists a. split; [done|]. split; [lia|done].
  - intros [Hx (c & Hc & Hcx & Hj)]. destruct (decide (c = a)) as [->|Hca].
    + destruct (decide (e <= x < area_end a)); [left; split; [done|congruence]|]. right. split; [done|].
      exists (with_range a (area_start a) s). split; [apply elem_of_shortened; by right|]. cbn. split; [lia|done].
    + right. split; [|exists c; split; [apply elem_of_shortened; by left|done]]. intros Hxe. apply Hca.
      apply (same_area l a c x); try done. lia.
Qed.
End Inside.

(** When no area encloses the range, every area loses what lies in it. *)
Lemma cut_ok l w s e : list_ok l w -> 0 <= s < e -> e < w64 -> s ∈ B -> e ∈ B -> List.find (encloses s e) l = None ->
  let l' := flat_map (cut_area s e) l in let w' := remove_all (clients (List.filter (in_range s e) l)) w in
  list_ok l' w' /\ forall x j, holds l' w' x j <-> ~ s <= x < e /\ holds l w x j.
Proof using.
  clear. intros Hok Hse He HsB HeB Hfind. cbn zeta. pose proof Hok as [Wf Pl Bd Nd Hdom Hnull].
  assert (Henc : forall a, a ∈ l -> area_start a < area_end a /\ encloses s e a = false).
  { intros a Ha. pose proof (wf_area _ _ Wf Ha). split; [lia|]. apply list_elem_of_In in Ha. exact (List.find_none _ _ Hfind a Ha). }
  assert (Hkeep : forall a, a ∈ l -> ~ (s <= area_start a /\ area_end a <= e) ->
    remove_all (clients (List.filter (in_range s e) l)) w !! client a = w !! client a).
  { intros a Ha Hr. rewrite lookup_remove_all, decide_False; [done|].
    assert (client a ∈ clients (List.filter (fun a => negb (in_range s e a)) l)) as Hk.
    { apply elem_of_clients, list_elem_of_In, List.filter_In. split; [by apply list_elem_of_In|].
      destruct (in_range s e a) eqn:E; [by apply in_range_spec in E|done]. }
    by apply (filter_negb (in_range s e) l (client a) Nd) in Hk as [_ Hk]. }
  split.
  - split; [rewrite rngs_cut; apply cut_wf; [lia|done]|by apply cut_plain|rewrite rngs_cut; by apply cut_bounded| | |].
    + rewrite clients_cut by (done || lia). by apply filter_clients_nodup.
    + intros q. rewrite clients_cut, filter_negb, lookup_remove_all by (done || lia).
      destruct (decide (q ∈ clients (List.filter (in_range s e) l))) as [Hq|Hq]; [|rewrite Hdom; tauto].
      split; [intros [? [=]]|tauto].
    + rewrite lookup_remove_all, Hnull. by destruct (decide _).
  - intros x j. unfold holds. split.
    + intros (c & Hc & Hcx & Hj). apply elem_of_flat_map in Hc as (a & Ha & Hc). apply elem_of_cut_area in Hc.
      destruct Hc as [[H1 ->]|[H1 ->]]; cbn in *; rewrite Hkeep in Hj by (done || lia); (split; [lia|]); exists a; (split; [done|]); (split; [lia|done]).
    + intros [Hx (a & Ha & Hax & Hj)]. destruct (decide (x < s)).
      * exists (with_range a (area_start a) (Z.min s (area_end a))). split; [|cbn; rewrite Hkeep by (done || lia); split; [lia|done]].
        apply elem_of_flat_map. exists a. split; [done|]. apply elem_of_cut_area. left. split; [lia|done].
      * exists (with_range a (Z.max e (area_start a)) (area_end a)). split; [|cbn; rewrite Hkeep by (done || lia); split; [lia|done]].
        apply elem_of_flat_map. exists a. split; [done|]. apply elem_of_cut_area. right. split; [lia|done].
Qed.

Lemma remove_ref_ok l w s e : list_ok l w -> 0 <= s < e -> e < w64 -> s ∈ B -> e ∈ B ->
  exists ok l' w', remove_ref v l w s e = Val (ok, l', w') /\ list_ok l' w' /\
    forall x j, holds l' w' x j <-> ~ s <= x < e /\ holds l w x j.
Proof using Hcb alloc_fresh alloc_nonnull.
  intros Hok Hse He HsB HeB. unfold remove_ref. destruct (existsb (overlapsb s e) l) eqn:Hov; cbn [negb].
  2:{ exists false, l, w. split; [done|]. split; [done|]. intros x j. rewrite existsb_overlaps in Hov. split; [|tauto].
      intros (a & Ha & Hx & Hj). split; [|by exists a]. specialize (Hov a Ha). unfold overlaps in Hov. lia. }
  rewrite free_fold_ok.
  2:{ split; [by apply filter_clients_nodup, (lo_nodup _ _ Hok)|]. intros q Hq. apply (lo_dom _ _ Hok). apply elem_of_clients_inv in Hq as (a & Ha & ->).
      apply list_elem_of_In, List.filter_In in Ha as [Ha _]. by apply elem_of_clients, list_elem_of_In. }
  cbn [mbind cres_bind]. destruct (List.find (encloses s e) l) as [a|] eqn:Hfind.
  - apply List.find_some in Hfind as [Ha Hea]. apply list_elem_of_In in Ha. rewrite (inside_filter l w s e a) by done.
    destruct (inside_ok l w s e a Hok Hse He HsB HeB Ha Hea) as (l' & w' & E & ?). exists true, l', w'. by split.
  - destruct (cut_ok l w s e Hok Hse He HsB HeB Hfind). by eexists true, _, _.
Qed.
End Removing.
End Callbacks.
End MemCacheProof.
