(* ===== verification/MemCacheState.v ===== *)
(** * The cache of the address space as a map

    The vector and the heap of payloads are read as a map from addresses to the
    protection and the type of their region.  Each function of the cache is a
    change of this map, and never leaves the array or the heap. *)
From S2P Require Export MemCacheProof.

(** ** The map *)

Abbreviation region_map := (Z -> option (Z * Z)).

(** What the vector answers about an address. *)
Definition cached (st : state) : region_map := fun x =>
  match vmvector_lookup_data (fst st) x with
  | Val (Some (_, _, data)) => (fun i => (prot i, mem_type i)) <$> snd st !! data
  | _ => None
  end.

Definition m_set (s e p t : Z) (m : region_map) : region_map := fun x =>
  if (s <=? x) && (x <? e) then Some (p, t) else m x.
Definition m_clear (s e : Z) (m : region_map) : region_map := fun x =>
  if (s <=? x) && (x <? e) then None else m x.

Definition mapped (m : region_map) (x : Z) : bool := match m x with Some _ => true | None => false end.
Definition is_image (m : region_map) (x : Z) : bool := match m x with Some (_, t) => t =? DR_MEMTYPE_IMAGE | None => false end.

(** The type of an address when the types are to be kept: images stay images
    as long as everything from the start of the range on is mapped. *)
Definition kept_type (m : region_map) (s x : Z) : Z :=
  if forallb (mapped m) (seqZ s (x - s)) && is_image m x then DR_MEMTYPE_IMAGE else DR_MEMTYPE_DATA.
Definition m_update (s end_in p t : Z) (m : region_map) : region_map := fun x =>
  if (s <=? x) && (x <? align_forward end_in 4096) then Some (p, if t =? -1 then kept_type m s x else t) else m x.

Lemma kept_type_image m s x : s <= x -> kept_type m s x = DR_MEMTYPE_IMAGE <->
  (forall y, s <= y < x -> m y <> None) /\ is_image m x = true.
Proof.
  intros Hs. unfold kept_type. destruct (forallb (mapped m) (seqZ s (x - s))) eqn:E; cbn [andb].
  - assert (forall y, s <= y < x -> m y <> None) as Hy.
    { intros y Hy. rewrite forallb_forall in E. assert (y ∈ seqZ s (x - s)) as Hin by (apply elem_of_seqZ; lia).
      apply list_elem_of_In, E in Hin.
      unfold mapped in Hin. by destruct (m y). }
    destruct (is_image m x); split; try done. intros [_ H]; done.
  - split; [done|]. intros [H _]. exfalso. apply not_true_iff_false in E. apply E, forallb_forall. intros y Hy.
    apply list_elem_of_In, elem_of_seqZ in Hy. specialize (H y ltac:(lia)). unfold mapped. by destruct (m y).
Qed.

Lemma kept_type_cases m s x : kept_type m s x = DR_MEMTYPE_IMAGE \/ kept_type m s x = DR_MEMTYPE_DATA.
Proof. unfold kept_type. case_match; tauto. Qed.

Section State.
Context (alloc : heap -> Z) (vsyscall_page_start init_size incr_size : Z) (hw : bool).
Context (alloc_fresh : forall w, w !! alloc w = None) (alloc_nonnull : forall w, alloc w <> 0).
Context (Hinit : 0 < init_size < 1073741824) (Hincr : 0 < incr_size < 1073741824).
Context (B : gset Z) (HB : Z.of_nat (size B) < 1073741823).
Implicit Types (st : state) (l : list (vm_area_t Z)) (w : heap) (x y s e p t : Z).

Record cache_ok st l : Prop := {
  co_rep : represents (fst st) l;
  co_cbs : cbs (fst st) = allmem_callbacks alloc;
  co_flags : vflags (fst st) = VECTOR_SHARED;
  co_list : list_ok B l (snd st)
}.

Lemma co_length st l : cache_ok st l -> Z.of_nat (length l) < 1073741823.
Proof using HB.
  intros [_ _ _ Hl]. pose proof (wf_length _ _ (lo_wf _ _ _ Hl) (lo_bounded _ _ _ Hl)) as H.
  unfold rngs in H. rewrite length_map in H. lia.
Qed.

(** ** Lookups *)

Lemma lookup_ok st l x : cache_ok st l -> 0 <= x < w64 ->
  (exists a i, vmvector_lookup_data (fst st) x = Val (Some (area_start a, area_end a, client a)) /\ a ∈ l /\
     area_start a <= x < area_end a /\ snd st !! client a = Some i /\
     (forall y, area_start a <= y < area_end a -> cached st y = Some (prot i, mem_type i))) \/
  (vmvector_lookup_data (fst st) x = Val None /\ (forall a, a ∈ l -> ~ area_start a <= x < area_end a) /\ cached st x = None).
Proof using HB.
  intros H Hx. pose proof (co_length _ _ H). destruct H as [R _ _ Hl]. pose proof (lo_wf _ _ _ Hl) as Wf.
  assert (Hlook : forall y, 0 <= y < w64 ->
    (exists j a, l !! j = Some a /\ contains y a = true /\ vmvector_lookup_data (fst st) y = Val (Some (area_start a, area_end a, client a))) \/
    (vmvector_lookup_data (fst st) y = Val None /\ List.find (contains y) l = None)).
  { intros y Hy. unfold vmvector_lookup_data.
    destruct (lookup_addr_spec (fst st) l y R Wf ltac:(lia) Hy) as [(j & b & -> & Hj & Hb & _)|[-> ?]]; [left|by right].
    exists j, b. cbn [mbind cres_bind]. by rewrite (get_spec (fst st) l j b). }
  destruct (Hlook x Hx) as [(j & a & Hj & Ha & E)|[E Hno]].
  - left. assert (a ∈ l) as Hal by (by eapply list_elem_of_lookup_2). destruct (lo_info _ _ _ _ Hl Hal) as [i Hi].
    exists a, i. split; [done|]. split; [done|]. split; [by apply contains_spec|]. split; [done|]. intros y Hy.
    pose proof (wf_area _ _ Wf Hal). unfold cached. destruct (Hlook y ltac:(lia)) as [(j' & b & Hj' & Hb & ->)|[_ Hno]].
    + assert (j = j') as <- by (eapply (contains_unique l j j' a b y); [done|done|done| |done]; by apply contains_spec).
      assert (a = b) as <- by congruence. by rewrite Hi.
    + apply list_elem_of_In in Hal. apply (List.find_none _ _ Hno) in Hal. apply contains_spec in Hy. congruence.
  - right. split; [done|]. split; [|unfold cached; by rewrite E]. intros a Ha Hxa. apply list_elem_of_In in Ha.
    apply (List.find_none _ _ Hno) in Ha. apply contains_spec in Hxa. congruence.
Qed.

Lemma cached_holds st l x q : cache_ok st l -> 0 <= x < w64 ->
  cached st x = Some q <-> exists i, holds l (snd st) x i /\ q = (prot i, mem_type i).
Proof using HB.
  intros H Hx. pose proof (co_list _ _ H) as Hl. destruct (lookup_ok st l x H Hx) as [(a & i & _ & Ha & Hxa & Hi & Hc)|(_ & Hno & Hc)].
  - rewrite (Hc x Hxa). split; [intros [= <-]; exists i; split; [by exists a|done]|].
    intros (j & (b & Hb & Hxb & Hj) & ->). apply list_elem_of_lookup_1 in Ha as [n Hn], Hb as [n' Hn'].
    assert (n = n') as <- by (eapply (contains_unique l n n' a b x); try done; [apply (lo_wf _ _ _ Hl)| |]; by apply contains_spec).
    assert (a = b) as <- by congruence. by simplify_eq.
  - rewrite Hc. split; [done|]. intros (j & (b & Hb & Hxb & _) & _). by apply Hno in Hxb.
Qed.

Lemma cached_same st st' l l' x : cache_ok st l -> cache_ok st' l' -> 0 <= x < w64 ->
  (forall i, holds l' (snd st') x i <-> holds l (snd st) x i) -> cached st' x = cached st x.
Proof using HB.
  intros H H' Hx E. apply option_eq. intros q. rewrite !(cached_holds _ _ x q) by done. by setoid_rewrite E.
Qed.

(** ** Adding and removing *)

Lemma info_prot p t b vd : prot (mk_info p t b vd) = p /\ mem_type (mk_info p t b vd) = t.
Proof. done. Qed.

Lemma add_ok st l s e p t share : cache_ok st l -> 0 <= s < e -> e < w64 -> s ∈ B -> e ∈ B ->
  (forall x, s <= x < e -> cached st x = None) ->
  exists st' l', add_all_memory_area alloc vsyscall_page_start init_size incr_size st s e p t share = Val st' /\ cache_ok st' l' /\
    forall x, 0 <= x < w64 -> cached st' x = m_set s e p t (cached st) x.
Proof using HB Hinit Hincr alloc_fresh alloc_nonnull.
  intros H Hse He HsB HeB Hno. pose proof (co_length _ _ H) as Hlen. destruct st as [v w]. pose proof H as [R Hc Hf Hl]. cbn [fst snd] in *.
  unfold add_all_memory_area. set (info := mk_info p t share (s =? vsyscall_page_start)).
  assert (Hov : forall a, a ∈ l -> ~ overlaps s e a).
  { intros a Ha [H1 H2]. pose proof (wf_area _ _ (lo_wf _ _ _ Hl) Ha). set (x := Z.max s (area_start a)).
    destruct (lo_info _ _ _ _ Hl Ha) as [i Hi]. specialize (Hno x ltac:(lia)).
    assert (cached (v, w) x = Some (prot i, mem_type i)) as E; [|congruence].
    apply (cached_holds (v, w) l x); [done|lia|]. exists i. split; [|done]. exists a. split; [done|]. split; [lia|done]. }
  destruct (add_ref_ok alloc B v Hc l w s e (alloc w) info Hl (alloc_fresh w) (alloc_nonnull w) Hse He HsB HeB Hov)
    as (l' & w' & E & Hl' & Hh).
  pose proof (add_plain v (<[alloc w := info]> w) s e (alloc w) init_size incr_size Hinit Hincr l R (lo_plain _ _ _ Hl) ltac:(lia) ltac:(by rewrite Hf)) as X.
  rewrite E in X. destruct X as (v' & E' & R' & [Sf Sc]). exists (v', w'), l'. split; [exact E'|].
  assert (Ok' : cache_ok (v', w') l') by (split; cbn; [done|congruence|congruence|done]). split; [done|].
  intros x Hx. unfold m_set. destruct ((s <=? x) && (x <? e)) eqn:Ex; zbool.
  - apply (cached_holds _ l' x); [done|done|]. exists info. split; [|done]. apply Hh. left. split; [lia|done].
  - apply (cached_same (v, w) (v', w') l l'); [done|done|done|]. intros i. cbn [snd]. rewrite Hh.
    apply andb_false_iff in Ex as [Ex|Ex]; zbool; intuition lia.
Qed.

Lemma remove_ok st l s e : cache_ok st l -> 0 <= s < e -> e < w64 -> s ∈ B -> e ∈ B ->
  exists ok st' l', remove_areas init_size incr_size hw st s e = Val (ok, st') /\ cache_ok st' l' /\
    forall x, 0 <= x < w64 -> cached st' x = m_clear s e (cached st) x.
Proof using HB Hinit Hincr alloc_fresh alloc_nonnull.
  intros H Hse He HsB HeB. pose proof (co_length _ _ H) as Hlen. destruct st as [v w]. pose proof H as [R Hc Hf Hl]. cbn [fst snd] in *.
  destruct (remove_ref_ok alloc B v Hc alloc_fresh alloc_nonnull l w s e Hl Hse He HsB HeB) as (ok & l' & w' & E & Hl' & Hh).
  pose proof (remove_plain init_size incr_size hw Hinit Hincr v l w s e R (lo_wf _ _ _ Hl) (lo_plain _ _ _ Hl) ltac:(lia) ltac:(by rewrite Hf) ltac:(lia)) as X.
  rewrite E in X. destruct X as (v' & E' & R' & [Sf Sc]). exists ok, (v', w'), l'. unfold remove_areas. rewrite E'. cbn [mbind cres_bind].
  split; [done|]. assert (Ok' : cache_ok (v', w') l') by (split; cbn; [done|congruence|congruence|done]). split; [done|].
  intros x Hx. unfold m_clear. destruct ((s <=? x) && (x <? e)) eqn:Ex; zbool.
  - destruct (cached (v', w') x) as [q|] eqn:Eq; [|done]. apply (cached_holds _ l' x) in Eq as (i & Hi & _); [|done|done].
    apply Hh in Hi as [? _]. lia.
  - apply (cached_same (v, w) (v', w') l l'); [done|done|done|]. intros i. cbn [snd]. rewrite Hh.
    apply andb_false_iff in Ex as [Ex|Ex]; zbool; intuition lia.
Qed.

(** A region gives way to another. *)
Lemma region_replace_ok st l s e p t share : cache_ok st l -> 0 <= s < e -> e < w64 -> s ∈ B -> e ∈ B ->
  exists st' l', ('(_, st) ← remove_areas init_size incr_size hw st s e;
                  add_all_memory_area alloc vsyscall_page_start init_size incr_size st s e p t share) = Val st' /\
    cache_ok st' l' /\ forall x, 0 <= x < w64 -> cached st' x = m_set s e p t (cached st) x.
Proof using HB Hinit Hincr alloc_fresh alloc_nonnull.
  intros H Hse He HsB HeB. destruct (remove_ok st l s e H Hse He HsB HeB) as (ok & st1 & l1 & -> & H1 & C1). cbn [mbind cres_bind].
  destruct (add_ok st1 l1 s e p t share H1 Hse He HsB HeB) as (st2 & l2 & -> & H2 & C2).
  { intros x Hx. rewrite C1 by lia. unfold m_clear. by rewrite (proj2 (Z.leb_le s x)), (proj2 (Z.ltb_lt x e)) by lia. }
  exists st2, l2. split; [done|]. split; [done|]. intros x Hx. rewrite C2 by done. unfold m_set. case_match; [done|].
  rewrite C1 by done. unfold m_clear. by case_match.
Qed.
End State.
