(* ===== verification/MemCacheUpdate.v ===== *)
(** * Updating the cache of the address space

    [memcache_update] sets the protection of a range and its type, or keeps the
    types of what was mapped. *)
From S2P Require Export MemCacheState.

Section Update.
Context (alloc : heap -> Z) (vsyscall_page_start init_size incr_size : Z) (hw : bool).
Context (alloc_fresh : forall w, w !! alloc w = None) (alloc_nonnull : forall w, alloc w <> 0).
Context (Hinit : 0 < init_size < 1073741824) (Hincr : 0 < incr_size < 1073741824).
Context (B : gset Z) (HB : Z.of_nat (size B) < 1073741823).
Implicit Types (st : state) (l : list (vm_area_t Z)) (x y : Z).

Local Abbreviation cache_ok := (cache_ok alloc B).
Local Abbreviation update_image := (update_image alloc vsyscall_page_start init_size incr_size hw).
Local Abbreviation update_loop := (update_loop alloc vsyscall_page_start init_size incr_size hw).
Local Abbreviation memcache_update := (memcache_update alloc vsyscall_page_start init_size incr_size hw).

(** Whether something is mapped in a range. *)
Lemma overlap_any st l s e : cache_ok st l -> 0 <= s < e -> e < w64 ->
  exists b : bool, vmvector_overlap (fst st) s e = Val b /\ (b = false -> forall x, s <= x < e -> cached st x = None).
Proof using HB.
  intros H Hse He. pose proof (co_length _ _ HB _ _ H) as Hlen. pose proof (co_list _ _ _ _ H) as Hl.
  rewrite (overlap_spec (fst st) l s e (co_rep _ _ _ _ H) (lo_wf _ _ _ Hl) ltac:(lia)). eexists. split; [done|]. intros E x Hx.
  destruct (lookup_ok alloc B HB st l x H ltac:(lia)) as [(a & _ & _ & Ha & Hxa & _)|(_ & _ & ->)]; [exfalso|done].
  apply not_true_iff_false in E. apply E, existsb_exists. exists a. split; [by apply list_elem_of_In|].
  unfold meetsb. by rewrite (proj2 (Z.ltb_lt s _)), (proj2 (Z.ltb_lt _ e)), orb_true_r by lia.
Qed.

(** ** The loop that keeps types *)

Section Keep.
Context (m : region_map) (s e p : Z).
Context (Hse : 0 <= s < e) (He : e < w64) (HsB : s ∈ B) (HeB : e ∈ B).

Definition kept (x : Z) : option (Z * Z) := Some (p, kept_type m s x).

(** Up to [pc] everything was mapped; the range is done up to [next_add], and
    from there to [pc] there were no images. *)
Record keeping st l (pc next_add : Z) : Prop := {
  k_ok : cache_ok st l;
  k_order : s <= next_add <= pc;
  k_end : pc < w64;
  k_base : next_add ∈ B /\ pc ∈ B;
  k_outside : forall x, 0 <= x < w64 -> ~ s <= x < e -> cached st x = m x;
  k_done : forall x, s <= x < e -> x < next_add -> cached st x = kept x;
  k_rest : forall x, next_add <= x < e -> cached st x = m x;
  k_mapped : forall x, s <= x < e -> x < pc -> m x <> None;
  k_data : forall x, next_add <= x < e -> x < pc -> is_image m x = false;
  k_border : next_add = pc \/ exists a, a ∈ l /\ area_end a = pc
}.

Lemma is_image_kept x : s <= x -> (forall y, s <= y < x -> m y <> None) -> is_image m x = true -> kept x = Some (p, DR_MEMTYPE_IMAGE).
Proof using.
  clear. intros Hx Hm Hi. unfold kept. do 2 f_equal. by apply kept_type_image.
Qed.
Lemma not_image_kept x : s <= x -> is_image m x = false -> kept x = Some (p, DR_MEMTYPE_DATA).
Proof using.
  clear. intros Hx Hi. unfold kept. do 2 f_equal. destruct (kept_type_cases m s x) as [E|E]; [|done].
  apply kept_type_image in E as [_ E]; [congruence|done].
Qed.

(** An image that starts behind data: the data in front of it. *)
Lemma keep_front st l pc next_add a : keeping st l pc next_add -> a ∈ l -> area_start a <= pc < area_end a -> pc < e ->
  exists st' l', (if next_add <? area_start a then
      '(_, st) ← remove_areas init_size incr_size hw st next_add pc;
      add_all_memory_area alloc vsyscall_page_start init_size incr_size st next_add pc p DR_MEMTYPE_DATA false
    else Val st) = Val st' /\ cache_ok st' l' /\
    forall x, 0 <= x < w64 -> cached st' x = if (s <=? x) && (x <? Z.min pc e) then kept x else m x.
Proof using HB Hinit Hincr alloc_fresh alloc_nonnull Hse He HsB HeB.
  intros K Ha Hpc Hpe. pose proof K as [Kok Kord Kend [Kb1 Kb2] Kout Kdone Krest Kmap Kdata Kbord].
  assert (Hfront : next_add < area_start a \/ next_add = pc).
  { destruct Kbord as [->|(b & Hb & Hbe)]; [by right|]. destruct (decide (next_add = pc)); [by right|left].
    pose proof (lo_wf _ _ _ (co_list _ _ _ _ Kok)) as Wf. pose proof (wf_area _ _ Wf Hb).
    apply list_elem_of_lookup_1 in Ha as [i Hi], Hb as [j Hj]. destruct (Nat.lt_trichotomy i j) as [H1|[->|H1]].
    - pose proof (wf_order _ _ _ _ _ Wf H1 Hi Hj). lia.
    - assert (a = b) as <- by congruence. lia.
    - pose proof (wf_order _ _ _ _ _ Wf H1 Hj Hi). lia. }
  assert (Hx : forall x, 0 <= x < w64 -> (if (next_add <=? x) && (x <? pc) then Some (p, DR_MEMTYPE_DATA) else cached st x) =
     if (s <=? x) && (x <? Z.min pc e) then kept x else m x).
  { intros x Hx. destruct ((s <=? x) && (x <? Z.min pc e)) eqn:E1.
    - zbool. destruct (decide (x < next_add)).
      + rewrite (proj2 (Z.leb_gt next_add x)) by lia. cbn [andb]. apply Kdone; lia.
      + rewrite (proj2 (Z.leb_le next_add x)), (proj2 (Z.ltb_lt x pc)) by lia. cbn [andb]. symmetry. apply not_image_kept; [lia|]. apply Kdata; lia.
    - destruct ((next_add <=? x) && (x <? pc)) eqn:E2; [zbool; apply andb_false_iff in E1 as [E1|E1]; zbool; lia|].
      destruct (decide (s <= x < e)); [|by apply Kout]. apply andb_false_iff in E1 as [E1|E1]; zbool; [lia|]. apply Krest. lia. }
  destruct (Z.ltb_spec next_add (area_start a)) as [Hlt|Hge].
  - destruct (region_replace_ok alloc vsyscall_page_start init_size incr_size hw alloc_fresh alloc_nonnull Hinit Hincr B HB
      st l next_add pc p DR_MEMTYPE_DATA false Kok ltac:(lia) Kend Kb1 Kb2) as (st' & l' & -> & Ok' & C').
    exists st', l'. split; [done|]. split; [done|]. intros x Hxx. rewrite C' by done. by apply Hx.
  - exists st, l. split; [done|]. split; [done|]. intros x Hxx. rewrite <- (Hx x Hxx).
    destruct Hfront as [?| ->]; [lia|]. destruct ((pc <=? x) && (x <? pc)) eqn:E; [zbool; lia|done].
Qed.

Lemma keep_step st l pc next_add a i : keeping st l pc next_add -> a ∈ l -> area_start a <= pc < area_end a -> pc < e ->
  (forall y, area_start a <= y < area_end a -> cached st y = Some (prot i, mem_type i)) ->
  exists na' st' l', update_image st pc e p (area_start a) (area_end a) next_add i = Val (na', st') /\
    keeping st' l' (area_end a) na'.
Proof using HB Hinit Hincr alloc_fresh alloc_nonnull Hse He HsB HeB.
  intros K Ha Hpc Hpe Hc. pose proof K as [Kok Kord Kend [Kb1 Kb2] Kout Kdone Krest Kmap Kdata Kbord].
  pose proof (co_list _ _ _ _ Kok) as Hl. pose proof (wf_area _ _ (lo_wf _ _ _ Hl) Ha) as Wa.
  destruct (lo_bounded _ _ _ Hl (rng a) (elem_of_rngs _ _ Ha)) as [_ HaB]. cbn in HaB.
  assert (Hm : forall y, pc <= y < area_end a -> y < e -> m y = Some (prot i, mem_type i)).
  { intros y Hy Hye. rewrite <- Krest by lia. apply Hc. lia. }
  assert (Hmap : forall x, s <= x < e -> x < area_end a -> m x <> None).
  { intros x Hx Hxa. destruct (decide (x < pc)); [by apply Kmap|]. rewrite Hm by lia. done. }
  unfold MemCache.update_image. destruct (mem_type i =? DR_MEMTYPE_IMAGE) eqn:Ei; zbool.
  - destruct (keep_front st l pc next_add a K Ha Hpc Hpe) as (st1 & l1 & -> & Ok1 & C1). cbn [mbind cres_bind].
    set (oe := if e <? area_end a then e else area_end a).
    assert (Hoe : pc < oe <= e /\ oe <= area_end a /\ oe ∈ B /\ (oe = e \/ oe = area_end a)) by (unfold oe; destruct (Z.ltb_spec e (area_end a)); auto with lia).
    destruct Hoe as (Hoe1 & Hoe2 & HoeB & Hoe3). set (sh := if _ : bool then _ else false). rewrite Ei.
    destruct (region_replace_ok alloc vsyscall_page_start init_size incr_size hw alloc_fresh alloc_nonnull Hinit Hincr B HB
      st1 l1 pc oe p DR_MEMTYPE_IMAGE sh Ok1 ltac:(lia) ltac:(lia) Kb2 HoeB) as (st2 & l2 & E & Ok2 & C2).
    destruct (remove_areas init_size incr_size hw st1 pc oe) as [[ok st1']|]; [|done]. cbn [mbind cres_bind] in *. rewrite E.
    cbn [mbind cres_bind]. exists (area_end a), st2, l2. split; [done|].
    split; try done; try lia.
    + intros x Hx Hxs. rewrite C2 by done. unfold m_set. destruct ((pc <=? x) && (x <? oe)) eqn:E1; [zbool; lia|].
      rewrite C1 by done. destruct ((s <=? x) && (x <? Z.min pc e)) eqn:E2; [zbool; lia|done].
    + intros x Hx Hxa. rewrite C2 by lia. unfold m_set. destruct (decide (x < pc)).
      * rewrite (proj2 (Z.leb_gt pc x)) by lia. cbn [andb]. rewrite C1 by lia.
        by rewrite (proj2 (Z.leb_le s x)), (proj2 (Z.ltb_lt x _)) by lia.
      * rewrite (proj2 (Z.leb_le pc x)), (proj2 (Z.ltb_lt x oe)) by lia. cbn [andb]. symmetry. apply is_image_kept; [lia| |].
        -- intros y Hy. apply Hmap; lia.
        -- unfold is_image. rewrite Hm by lia. by rewrite Ei.
    + intros x Hx. rewrite C2 by lia. unfold m_set. rewrite (proj2 (Z.ltb_ge x oe)), andb_false_r by lia.
      rewrite C1 by lia. by rewrite (proj2 (Z.ltb_ge x (Z.min pc e))), andb_false_r by lia.
  - exists next_add, st, l. split; [done|]. split; try done; try lia.
    + intros x Hx Hxa. destruct (decide (x < pc)); [by apply Kdata|]. unfold is_image. rewrite Hm by lia. by apply Z.eqb_neq.
    + right. by exists a.
Qed.

Lemma keep_loop k : forall st l pc next_add, keeping st l pc next_add -> Z.max 0 (e - pc) < Z.of_nat k ->
  exists na' st' l', update_loop k st s e p pc next_add = Val (na', st') /\ cache_ok st' l' /\ s <= na' /\ na' ∈ B /\
    (forall x, 0 <= x < w64 -> ~ s <= x < e -> cached st' x = m x) /\
    (forall x, s <= x < e -> x < na' -> cached st' x = kept x) /\
    (forall x, na' <= x < e -> kept x = Some (p, DR_MEMTYPE_DATA)).
Proof using HB Hinit Hincr alloc_fresh alloc_nonnull Hse He HsB HeB.
  induction k as [|k IH]; intros st l pc next_add K Hk; [lia|]. cbn [MemCache.update_loop].
  pose proof K as [Kok Kord Kend [Kb1 Kb2] Kout Kdone Krest Kmap Kdata Kbord].
  assert (Hstop : (e <= pc \/ cached st pc = None) -> forall x, next_add <= x < e -> kept x = Some (p, DR_MEMTYPE_DATA)).
  { intros Hs x Hx. destruct (decide (x < pc)); [apply not_image_kept; [lia|]; apply Kdata; lia|].
    destruct Hs as [Hs|Hs]; [lia|]. rewrite Krest in Hs by lia. unfold kept. do 2 f_equal.
    destruct (kept_type_cases m s x) as [E|E]; [|done]. apply kept_type_image in E as [E1 E2]; [|lia].
    destruct (decide (x = pc)) as [->|]; [unfold is_image in E2; by rewrite Hs in E2|]. by destruct (E1 pc ltac:(lia)). }
  destruct (Z.ltb_spec pc e) as [Hpe|Hpe]; cbn [andb].
  2:{ exists next_add, st, l. split_and!; try done; try lia. apply Hstop. by left. }
  rewrite (proj2 (Z.leb_le s pc)) by lia.
  destruct (lookup_ok alloc B HB st l pc Kok ltac:(lia)) as [(a & i & -> & Ha & Hpa & Hi & Hc)|(-> & _ & Hc)]; cbn [mbind cres_bind].
  - unfold deref. rewrite Hi. cbn [cres_of_option mbind cres_bind].
    destruct (keep_step st l pc next_add a i K Ha Hpa Hpe Hc) as (na1 & st1 & l1 & -> & K1). cbn [mbind cres_bind].
    apply (IH st1 l1 (area_end a) na1 K1). lia.
  - exists next_add, st, l. split_and!; try done; try lia. apply Hstop. by right.
Qed.
End Keep.

(** ** The whole update *)

Lemma update_ok st l s end_in p t : cache_ok st l -> 0 <= s < end_in -> end_in <= w64 - 4096 -> -1 <= t ->
  s ∈ B -> align_forward end_in 4096 ∈ B ->
  exists st' l', memcache_update st s end_in p t = Val st' /\ cache_ok st' l' /\
    forall x, 0 <= x < w64 -> cached st' x = m_update s end_in p t (cached st) x.
Proof using HB Hinit Hincr alloc_fresh alloc_nonnull.
  intros H Hs He Ht HsB HeB. pose proof (align_forward_spec end_in 12 ltac:(lia) ltac:(lia) ltac:(lia)) as [Ha _].
  change (2 ^ 12) with 4096 in Ha. unfold MemCache.memcache_update, m_update. set (e := align_forward end_in 4096) in *.
  assert (He' : s < e /\ e < w64) by lia.
  destruct (Z.eqb_spec t (-1)) as [->|Hne].
  - destruct (keep_loop (cached st) s e p ltac:(lia) ltac:(lia) HsB HeB (S (Z.to_nat (e - s))) st l s s) as (na & st1 & l1 & -> & Ok1 & Hna & HnaB & O1 & D1 & R1).
    { split; try done; try lia; by left. }
    { lia. }
    cbn [mbind cres_bind]. destruct (Z.ltb_spec na e) as [Hlt|Hge].
    + destruct (region_replace_ok alloc vsyscall_page_start init_size incr_size hw alloc_fresh alloc_nonnull Hinit Hincr B HB
        st1 l1 na e p DR_MEMTYPE_DATA false Ok1 ltac:(lia) ltac:(lia) HnaB HeB) as (st2 & l2 & -> & Ok2 & C2).
      exists st2, l2. split; [done|]. split; [done|]. intros x Hx. rewrite C2 by done. unfold m_set.
      destruct ((s <=? x) && (x <? e)) eqn:E; zbool.
      * rewrite (proj2 (Z.ltb_lt x e)), andb_true_r by lia. destruct (Z.leb_spec na x); [symmetry; apply (R1 x); lia|apply D1; lia].
      * rewrite <- O1; [|done|intros Hin; apply andb_false_iff in E as [E|E]; zbool; lia].
        destruct ((na <=? x) && (x <? e)) eqn:E2; [|done]. zbool. apply andb_false_iff in E as [E|E]; zbool; lia.
    + exists st1, l1. split; [done|]. split; [done|]. intros x Hx. destruct ((s <=? x) && (x <? e)) eqn:E; zbool; [apply D1; lia|].
      apply O1; [done|]. intros Hin. apply andb_false_iff in E as [E|E]; zbool; lia.
  - destruct (overlap_any st l s e H ltac:(lia) ltac:(lia)) as (b & -> & Hb). cbn [mbind cres_bind]. destruct b.
    + destruct (region_replace_ok alloc vsyscall_page_start init_size incr_size hw alloc_fresh alloc_nonnull Hinit Hincr B HB
        st l s e p t (t =? DR_MEMTYPE_IMAGE) H ltac:(lia) ltac:(lia) HsB HeB) as (st2 & l2 & E & Ok2 & C2).
      destruct (remove_areas init_size incr_size hw st s e) as [[ok st1]|]; [|done]. cbn [mbind cres_bind] in *.
      by exists st2, l2.
    + apply (add_ok alloc vsyscall_page_start init_size incr_size alloc_fresh alloc_nonnull Hinit Hincr B HB st l); try done; try lia.
      by apply Hb.
Qed.
End Update.
