(* ===== verification/MemCacheSpec.v ===== *)
(** * What the cache of the address space guarantees

    Any sequence of updates, removals, moves, changes of the break and queries
    keeps the map of the address space that its operations describe, and frees
    what it allocated. *)
From S2P Require Export MemCacheUpdate.

(** ** Operations, on the cache and on the map *)

Inductive cache_op :=
| CUpdate (s e p t : Z)
| CRemove (s e : Z)
| CMremap (base size old_base old_size p t : Z)
| CBrk (lowest_brk old_brk new_brk : Z)
| CQuery (pc : Z).

Section Ops.
Context (alloc : heap -> Z) (vsyscall_page_start init_size incr_size : Z) (hw : bool).
Context (from_os : Z -> option (Z * Z * Z)).

Definition cache_step (st : state) (o : cache_op) : cres state :=
  match o with
  | CUpdate s e p t => memcache_update_locked alloc vsyscall_page_start init_size incr_size hw st s e p t
  | CRemove s e => '(_, st) ← memcache_remove init_size incr_size hw st s e; Val st
  | CMremap b n ob on p t => memcache_handle_mremap alloc vsyscall_page_start init_size incr_size hw st b n ob on p t
  | CBrk lowest old new => memcache_handle_app_brk alloc vsyscall_page_start init_size incr_size hw st lowest old new
  | CQuery pc => '(_, st) ← memcache_query_memory alloc vsyscall_page_start init_size incr_size hw from_os st pc; Val st
  end.

Fixpoint cache_run (st : state) (os : list cache_op) : cres state :=
  match os with
  | [] => Val st
  | o :: os => st ← cache_step st o; cache_run st os
  end.

(** The protection of the memory that a larger break adds. *)
Definition brk_prot (lowest old : Z) (m : region_map) : Z :=
  if negb (lowest =? 0) && (old =? lowest) then 3
  else match m (old - 1) with Some (p, _) => p | None => 3 end.

(** What the system knows of an address that the cache does not. *)
Definition os_region (m : region_map) (pc : Z) : option (Z * Z * Z) :=
  if mapped m pc then None else
  match from_os pc with Some (b, n, p) => if p =? MEMPROT_NONE then None else Some (b, n, p) | None => None end.

Definition map_step (o : cache_op) (m : region_map) : region_map :=
  match o with
  | CUpdate s e p t => m_update s e p t m
  | CRemove s e => m_clear s e m
  | CMremap b n ob on p t => m_update b (b + n) p t (m_clear ob (ob + on) m)
  | CBrk lowest old new =>
      if new <? old then m_clear new old m
      else if old <? new then m_update old new (brk_prot lowest old m) DR_MEMTYPE_DATA m
      else m
  | CQuery pc => match os_region m pc with Some (b, n, p) => m_update b (b + n) p (-1) m | None => m end
  end.

Definition map_run (os : list cache_op) (m : region_map) : region_map := fold_left (fun m o => map_step o m) os m.

(** Ranges are not empty and leave out the first byte and the last page of the
    address space. *)
Definition range_ok (s e : Z) : Prop := 0 < s < e /\ e <= w64 - 4096.

Definition cache_op_ok (o : cache_op) : Prop :=
  match o with
  | CUpdate s e p t => range_ok s e /\ -1 <= t
  | CRemove s e => range_ok s e
  | CMremap b n ob on p t => range_ok b (b + n) /\ range_ok ob (ob + on) /\ -1 <= t
  | CBrk lowest old new => 0 < old <= w64 - 4096 /\ 0 < new <= w64 - 4096
  | CQuery pc => 0 <= pc < ULONG_MAX
  end.

(** The bounds that an operation may add. *)
Definition op_points (o : cache_op) : list Z :=
  match o with
  | CUpdate s e p t => [s; align_forward e 4096]
  | CRemove s e => [s; e]
  | CMremap b n ob on p t => [b; align_forward (b + n) 4096; ob; ob + on]
  | CBrk lowest old new => [old; new; align_forward new 4096]
  | CQuery pc => match from_os pc with Some (b, n, p) => [b; align_forward (b + n) 4096] | None => [] end
  end.
Definition points (os : list cache_op) : gset Z := list_to_set (flat_map op_points os).

Lemma points_size os : (size (points os) <= 4 * length os)%nat.
Proof using.
  clear. unfold points. assert (H : (length (flat_map op_points os) <= 4 * length os)%nat).
  { induction os as [|o os IH]; [done|]. cbn [flat_map length]. rewrite length_app.
    assert (length (op_points o) <= 4)%nat; [|lia]. destruct o; cbn; try lia. destruct (from_os pc) as [[[b n] p]|]; cbn; lia. }
  etransitivity; [|exact H]. clear H. generalize (flat_map op_points os). intros ps. induction ps as [|x ps IH]; [done|].
  cbn [list_to_set length]. etransitivity; [apply size_union_add|]. rewrite size_singleton. lia.
Qed.

Lemma elem_of_points os o x : o ∈ os -> x ∈ op_points o -> x ∈ points os.
Proof using. clear. intros Ho Hx. apply elem_of_list_to_set, elem_of_flat_map. by exists o. Qed.

(** ** Maps that agree *)

Definition agree (m m' : region_map) : Prop := forall x, 0 <= x < w64 -> m x = m' x.

Lemma kept_type_agree m m' s x : agree m m' -> 0 <= s -> x < w64 -> s <= x -> kept_type m s x = kept_type m' s x.
Proof using.
  clear. intros H Hs Hx Hsx. destruct (kept_type_cases m s x) as [E|E], (kept_type_cases m' s x) as [E'|E']; try congruence; exfalso.
  - assert (kept_type m' s x = DR_MEMTYPE_IMAGE) as E3; [|by rewrite E3 in E']. apply kept_type_image in E as [E1 E2]; [|done]. apply kept_type_image; [done|].
    unfold is_image in *. rewrite <- (H x) by lia. split; [|done]. intros y Hy. rewrite <- H by lia. by apply E1.
  - assert (kept_type m s x = DR_MEMTYPE_IMAGE) as E3; [|by rewrite E3 in E]. apply kept_type_image in E' as [E1 E2]; [|done]. apply kept_type_image; [done|].
    unfold is_image in *. rewrite (H x) by lia. split; [|done]. intros y Hy. rewrite H by lia. by apply E1.
Qed.

Lemma m_update_agree m m' s e p t : agree m m' -> 0 <= s -> agree (m_update s e p t m) (m_update s e p t m').
Proof using.
  clear. intros H Hs x Hx. unfold m_update. destruct (_ && _) eqn:E; [|by apply H]. zbool.
  by rewrite (kept_type_agree m m') by (done || lia).
Qed.
Lemma m_clear_agree m m' s e : agree m m' -> agree (m_clear s e m) (m_clear s e m').
Proof using. clear. intros H x Hx. unfold m_clear. case_match; [done|]. by apply H. Qed.

(** What the system says of an address is a region around it. *)
Context (Hos : forall pc b n p, from_os pc = Some (b, n, p) -> b <= pc < b + n /\ range_ok b (b + n)).

Lemma map_step_agree m m' o : cache_op_ok o -> agree m m' -> agree (map_step o m) (map_step o m').
Proof using Hos.
  clear alloc vsyscall_page_start init_size incr_size hw. unfold range_ok in *.
  intros Ho H. destruct o as [s e p t|s e|b n ob on p t|lowest old new|pc]; cbn [map_step cache_op_ok] in *; unfold range_ok in *.
  - apply m_update_agree; [done|lia].
  - by apply m_clear_agree.
  - apply m_update_agree; [by apply m_clear_agree|lia].
  - assert (brk_prot lowest old m = brk_prot lowest old m') as -> by (unfold brk_prot; case_match; [done|]; by rewrite (H (old - 1)) by lia).
    case_match; [by apply m_clear_agree|]. case_match; [|done]. apply m_update_agree; [done|lia].
  - assert (os_region m' pc = os_region m pc) as -> by (unfold os_region, mapped; by rewrite (H pc) by (unfold ULONG_MAX in Ho; lia)).
    destruct (os_region m pc) as [[[b n] p]|] eqn:E; [|done]. apply m_update_agree; [done|].
    unfold os_region in E. case_match; [done|]. destruct (from_os pc) as [[[b' n'] p']|] eqn:E'; [|done].
    case_match; [done|]. simplify_eq. apply Hos in E'. lia.
Qed.

(** ** The operations *)

Context (alloc_fresh : forall w, w !! alloc w = None) (alloc_nonnull : forall w, alloc w <> 0).
Context (Hinit : 0 < init_size < 1073741824) (Hincr : 0 < incr_size < 1073741824).
Context (B : gset Z) (HB : Z.of_nat (size B) < 1073741823) (HB0 : forall x, x ∈ B -> 0 < x).
Implicit Types (st : state) (l : list (vm_area_t Z)).

Local Abbreviation cache_ok := (cache_ok alloc B).
Local Abbreviation query := (memcache_query_memory alloc vsyscall_page_start init_size incr_size hw from_os).

Lemma init_ok : cache_ok (memcache_init alloc ∅) [].
Proof using.
  clear. split; [apply init_represents|done|done|]. split; cbn.
  - apply wf_nil.
  - intros a Ha. by apply elem_of_nil in Ha.
  - intros q Hq. by apply elem_of_nil in Hq.
  - constructor.
  - intros q. rewrite lookup_empty. split; [by intros [? [=]]|]. intros H. by apply elem_of_nil in H.
  - apply lookup_empty.
Qed.

Lemma cache_exit_ok st l : cache_ok st l -> memcache_exit st = Val ∅.
Proof using.
  clear. intros [R Hc Hf Hl]. destruct st as [v w]. cbn [fst snd] in *. unfold memcache_exit, vmvector_delete_vector. cbn [fst snd].
  pose proof (reset_spec v l w R) as X. rewrite (free_fold_ok alloc v Hc) in X.
  2:{ split; [apply (lo_nodup _ _ _ Hl)|]. intros p. apply (lo_dom _ _ _ Hl). }
  destruct X as (v' & -> & _). cbn. f_equal. apply map_eq. intros p. rewrite lookup_remove_all, lookup_empty.
  case_decide as Hp; [done|]. apply eq_None_not_Some. by rewrite (lo_dom _ _ _ Hl).
Qed.

(** The gap around an address that nothing is mapped at. *)
Lemma gap_before l pc : wf_ranges (rngs l) ->
  match last (List.filter (fun a => area_end a <=? pc) l) with
  | Some a => a ∈ l /\ area_end a <= pc /\ forall c, c ∈ l -> area_end c <= pc -> area_end c <= area_end a
  | None => forall c, c ∈ l -> pc < area_end c
  end.
Proof using.
  clear. induction l as [|a l IH]; intros Wf; cbn [List.filter]; [intros c Hc; by apply elem_of_nil in Hc|].
  cbn [rngs map] in Wf. apply wf_ranges_cons in Wf as (Wa & Hlt & Wf). specialize (IH Wf). cbn in Wa.
  assert (Hord : forall c, c ∈ l -> area_end a <= area_start c < area_end c).
  { intros c Hc. pose proof (wf_area _ _ Wf Hc). specialize (Hlt (rng c) (elem_of_rngs _ _ Hc)). cbn in Hlt. lia. }
  destruct (area_end a <=? pc) eqn:E; zbool.
  - rewrite last_cons. destruct (last _) as [b|]; cbn.
    + destruct IH as (Hb & Hbp & Hmax). split; [set_solver|]. split; [done|]. intros c Hc Hcp.
      apply elem_of_cons in Hc as [->|Hc]; [specialize (Hord b Hb); lia|by apply Hmax].
    + split; [set_solver|]. split; [done|]. intros c Hc Hcp. apply elem_of_cons in Hc as [->|Hc]; [lia|]. specialize (IH c Hc). lia.
  - destruct (last _) as [b|].
    + destruct IH as (Hb & Hbp & _). specialize (Hord b Hb). lia.
    + intros c Hc. apply elem_of_cons in Hc as [->|Hc]; [done|by apply IH].
Qed.

Lemma gap_after l pc : wf_ranges (rngs l) ->
  match List.filter (fun a => pc <? area_start a) l with
  | a :: _ => a ∈ l /\ pc < area_start a /\ forall c, c ∈ l -> pc < area_start c -> area_start a <= area_start c
  | [] => forall c, c ∈ l -> area_start c <= pc
  end.
Proof using.
  clear. induction l as [|a l IH]; intros Wf; cbn [List.filter]; [intros c Hc; by apply elem_of_nil in Hc|].
  cbn [rngs map] in Wf. apply wf_ranges_cons in Wf as (Wa & Hlt & Wf). specialize (IH Wf). cbn in Wa.
  destruct (pc <? area_start a) eqn:E; zbool.
  - split; [set_solver|]. split; [done|]. intros c Hc _. apply elem_of_cons in Hc as [->|Hc]; [lia|].
    specialize (Hlt (rng c) (elem_of_rngs _ _ Hc)). cbn in Hlt. lia.
  - destruct (List.filter _ l) as [|b t].
    + intros c Hc. apply elem_of_cons in Hc as [->|Hc]; [done|by apply IH].
    + destruct IH as (Hb & Hbp & Hmin). split; [set_solver|]. split; [done|]. intros c Hc Hcp.
      apply elem_of_cons in Hc as [->|Hc]; [lia|by apply Hmin].
Qed.

Lemma gap_ok st l pc : cache_ok st l -> 0 <= pc < ULONG_MAX -> cached st pc = None ->
  exists prev next b, vmvector_lookup_prev_next (fst st) pc = Val (Some (prev, next)) /\
    (if negb (prev =? 0) then r ← vmvector_lookup_data (fst st) prev;
                              match r with Some (_, e, _) => Val e | None => Undef end
     else Val 0) = Val b /\
    0 <= b <= pc /\ pc < next <= ULONG_MAX /\ (forall x, b <= x < next -> cached st x = None) /\
    (b = 0 \/ cached st (b - 1) <> None) /\ (next = ULONG_MAX \/ cached st next <> None).
Proof using HB HB0.
  clear Hinit Hincr. intros H Hpc Hn. unfold ULONG_MAX in *. pose proof (co_length _ _ HB _ _ H) as Hlen. pose proof (co_list _ _ _ _ H) as Hl. pose proof (lo_wf _ _ _ Hl) as Wf.
  destruct (lookup_ok alloc B HB st l pc H ltac:(lia)) as [(a & i & _ & _ & Hpa & _ & Hc)|(_ & Hno & _)]; [rewrite (Hc pc Hpa) in Hn; done|].
  rewrite (prev_next_spec (fst st) l pc (co_rep _ _ _ _ H) Wf ltac:(lia) ltac:(lia)).
  destruct (List.find (contains pc) l) as [a|] eqn:Ef.
  { exfalso. apply List.find_some in Ef as [Ha Hca]. apply list_elem_of_In in Ha. apply contains_spec in Hca. by apply (Hno a). }
  pose proof (gap_before l pc Wf) as Hb. pose proof (gap_after l pc Wf) as Ha.
  set (ns := List.filter (fun a => pc <? area_start a) l) in *.
  set (prev := match last _ with Some a => area_start a | None => 0 end).
  set (next := match ns with a :: _ => area_start a | [] => ULONG_MAX end).
  assert (Hnone : forall x b, 0 <= x < w64 -> b <= x -> x < next -> (forall c, c ∈ l -> area_end c <= pc -> area_end c <= b) -> cached st x = None).
  { intros x b Hx Hbx Hxn Hend. destruct (lookup_ok alloc B HB st l x H Hx) as [(c & j & _ & Hcl & Hxc & _)|(_ & _ & ->)]; [exfalso|done].
    specialize (Hno c Hcl). destruct (decide (area_end c <= pc)); [specialize (Hend c Hcl); lia|]. unfold next in Hxn.
    destruct ns as [|d t]; [specialize (Ha c Hcl); lia|]. destruct Ha as (_ & _ & Hmin). specialize (Hmin c Hcl). lia. }
  assert (Hnext : pc < next <= 18446744073709551615 /\ (next = 18446744073709551615 \/ cached st next <> None)).
  { unfold next. destruct ns as [|d t]; [unfold ULONG_MAX; auto with lia|]. destruct Ha as (Hd & Hpd & _).
    pose proof (wf_area _ _ Wf Hd). split; [lia|]. right.
    destruct (lookup_ok alloc B HB st l (area_start d) H ltac:(lia)) as [(c & j & _ & _ & Hxc & _ & Hcc)|(_ & Hnd & _)]; [by rewrite Hcc|].
    exfalso. apply (Hnd d Hd). lia. }
  exists prev, next. unfold prev. destruct (last _) as [a|].
  - destruct Hb as (Hal & Hap & Hmax). pose proof (wf_area _ _ Wf Hal). destruct (lo_bounded _ _ _ Hl (rng a) (elem_of_rngs _ _ Hal)) as [HaB _].
    apply HB0 in HaB. cbn in HaB. rewrite (proj2 (Z.eqb_neq (area_start a) 0)) by lia. cbn [negb].
    destruct (lookup_ok alloc B HB st l (area_start a) H ltac:(lia)) as [(c & j & -> & Hcl & Hxc & _ & Hcc)|(_ & Hna & _)];
      [|exfalso; apply (Hna a Hal); lia].
    assert (c = a) as ->.
    { apply list_elem_of_lookup_1 in Hcl as [n Hn1], Hal as [n' Hn2].
      assert (n = n') as <- by (eapply (contains_unique l n n' c a (area_start a)); try done; apply contains_spec; lia). congruence. }
    exists (area_end a). split; [done|]. split; [done|]. split; [lia|]. split; [tauto|]. split.
    + intros x Hx. apply (Hnone x (area_end a)); [lia|lia|lia|done].
    + split; [right; by rewrite Hcc by lia|tauto].
  - exists 0. split; [done|]. split; [done|]. split; [lia|]. split; [tauto|]. split; [|tauto].
    intros x Hx. apply (Hnone x 0); [lia|lia|lia|]. intros c Hc. specialize (Hb c Hc). lia.
Qed.

(** What a query answers about the map. *)
Definition answer_ok (m : region_map) (pc : Z) (info : dr_mem_info_t) : Prop :=
  match m pc with
  | Some (p, t) => mem_prot info = p /\ info_type info = t /\ base_pc info <= pc < base_pc info + mem_size info /\
      forall x, base_pc info <= x < base_pc info + mem_size info -> m x = Some (p, t)
  | None =>
      match os_region m pc with
      | Some (b, n, p) => info = mk_mem_info b n p DR_MEMTYPE_DATA
      | None => mem_prot info = MEMPROT_NONE /\ info_type info = DR_MEMTYPE_FREE /\
          let b := base_pc info in let e := b + mem_size info in
          0 <= b <= pc /\ pc < e <= ULONG_MAX /\ (forall x, b <= x < e -> m x = None) /\
          (b = 0 \/ m (b - 1) <> None) /\ (e = ULONG_MAX \/ m e <> None)
      end
  end.

Lemma query_ok st l pc : cache_ok st l -> 0 <= pc < ULONG_MAX -> (forall x, x ∈ op_points (CQuery pc) -> x ∈ B) ->
  exists info st' l', query st pc = Val (info, st') /\ cache_ok st' l' /\ answer_ok (cached st) pc info /\
    forall x, 0 <= x < w64 -> cached st' x = map_step (CQuery pc) (cached st) x.
Proof using HB HB0 Hinit Hincr alloc_fresh alloc_nonnull Hos.
  intros H Hpc HpB. unfold memcache_query_memory, answer_ok, map_step, os_region, mapped. cbn [op_points] in HpB.
  destruct (lookup_ok alloc B HB st l pc H ltac:(unfold ULONG_MAX in Hpc; lia)) as [(a & i & -> & Ha & Hpa & Hi & Hc)|(E & _ & Hn)].
  - cbn [mbind cres_bind]. unfold deref. rewrite Hi. cbn [cres_of_option mbind cres_bind]. eexists _, st, l. split; [done|]. split; [done|].
    rewrite (Hc pc Hpa). split; [|done]. cbn. split; [done|]. split; [done|]. split; [lia|]. intros x Hx. apply Hc. lia.
  - rewrite E, Hn. cbn [mbind cres_bind]. destruct (gap_ok st l pc H Hpc Hn) as (prev & next & b & -> & Eb & Hb & Hnx & Hg & Hg1 & Hg2).
    cbn [mbind cres_bind cres_of_option]. rewrite Eb. cbn [mbind cres_bind].
    assert (Hfree : 0 <= b <= pc /\
              pc < b + (next - b) <= ULONG_MAX /\ (forall x, b <= x < b + (next - b) -> cached st x = None) /\
              (b = 0 \/ cached st (b - 1) <> None) /\ (b + (next - b) = ULONG_MAX \/ cached st (b + (next - b)) <> None)).
    { replace (b + (next - b)) with next by lia. tauto. }
    destruct (from_os pc) as [[[ob on] op]|] eqn:Eo; [destruct (op =? MEMPROT_NONE) eqn:Ep; cbn [negb]|].
    + eexists _, st, l. split; [done|]. split; [done|]. split; [|done]. split; [done|]. split; [done|exact Hfree].
    + destruct (Hos pc ob on op Eo) as [Hin [Hr1 Hr2]]. rewrite (u64_small (ob + on)) by lia. unfold memcache_update_locked.
      destruct (update_ok alloc vsyscall_page_start init_size incr_size hw alloc_fresh alloc_nonnull Hinit Hincr B HB
        st l ob (ob + on) op (-1) H ltac:(lia) Hr2 ltac:(lia)) as (st' & l' & -> & Ok' & C'); [apply HpB; set_solver|apply HpB; set_solver|].
      cbn [mbind cres_bind]. eexists _, st', l'. done.
    + eexists _, st, l. split; [done|]. split; [done|]. split; [|done]. split; [done|]. split; [done|exact Hfree].
Qed.

Lemma cache_step_ok st l o : cache_ok st l -> cache_op_ok o -> (forall x, x ∈ op_points o -> x ∈ B) ->
  exists st' l', cache_step st o = Val st' /\ cache_ok st' l' /\ forall x, 0 <= x < w64 -> cached st' x = map_step o (cached st) x.
Proof using HB HB0 Hinit Hincr alloc_fresh alloc_nonnull Hos.
  intros H Ho HoB.
  assert (Hrem : forall st l s e, cache_ok st l -> range_ok s e -> s ∈ B -> e ∈ B -> exists st' l',
    ('(_, st') ← memcache_remove init_size incr_size hw st s e; Val st') = Val st' /\ cache_ok st' l' /\
    forall x, 0 <= x < w64 -> cached st' x = m_clear s e (cached st) x).
  { intros st0 l0 s e H0 [Hs He] HsB HeB. unfold memcache_remove.
    destruct (remove_ok alloc init_size incr_size hw alloc_fresh alloc_nonnull Hinit Hincr B HB st0 l0 s e H0 ltac:(lia) ltac:(lia) HsB HeB)
      as (ok & st' & l' & -> & ?). by exists st', l'. }
  assert (Hupd : forall st l s e p t, cache_ok st l -> range_ok s e -> -1 <= t -> s ∈ B -> align_forward e 4096 ∈ B -> exists st' l',
    memcache_update alloc vsyscall_page_start init_size incr_size hw st s e p t = Val st' /\ cache_ok st' l' /\
    forall x, 0 <= x < w64 -> cached st' x = m_update s e p t (cached st) x).
  { intros st0 l0 s e p t H0 [Hs He] Ht HsB HeB.
    apply (update_ok alloc vsyscall_page_start init_size incr_size hw alloc_fresh alloc_nonnull Hinit Hincr B HB st0 l0); done || lia. }
  destruct o as [s e p t|s e|b n ob on p t|lowest old new|pc]; cbn [cache_step cache_op_ok op_points map_step] in *.
  - destruct Ho as [Hr Ht]. apply (Hupd st l); try done; apply HoB; set_solver.
  - apply (Hrem st l); try done; apply HoB; set_solver.
  - destruct Ho as (Hr & Hr' & Ht). unfold memcache_handle_mremap. rewrite !u64_small by (unfold range_ok in *; lia).
    destruct (Hrem st l ob (ob + on) H Hr') as (st1 & l1 & E & Ok1 & C1); [apply HoB; set_solver|apply HoB; set_solver|].
    destruct (memcache_remove init_size incr_size hw st ob (ob + on)) as [[ok st1']|]; cbn [mbind cres_bind] in *; [|done]. simplify_eq.
    destruct (Hupd st1 l1 b (b + n) p t Ok1 Hr Ht) as (st2 & l2 & -> & Ok2 & C2); [apply HoB; set_solver|apply HoB; set_solver|].
    exists st2, l2. split; [done|]. split; [done|]. intros x Hx. rewrite C2 by done. by apply m_update_agree; [|unfold range_ok in *; lia|].
  - destruct Ho as [Ho1 Ho2]. unfold memcache_handle_app_brk. destruct (Z.ltb_spec new old) as [Hlt|Hge].
    { apply (Hrem st l); [done|unfold range_ok; lia|apply HoB; set_solver|apply HoB; set_solver]. }
    destruct (Z.ltb_spec old new) as [Hlt|Hge']; [|by exists st, l].
    assert (Ep : (if negb (lowest =? 0) && (old =? lowest) then Val (Z.lor MEMPROT_READ MEMPROT_WRITE)
                  else data ← vmvector_lookup 0 (fst st) (u64 (old - 1));
                       if data =? 0 then Val (Z.lor MEMPROT_READ MEMPROT_WRITE) else info ← deref data (snd st); Val (prot info)) =
                 Val (brk_prot lowest old (cached st))).
    { unfold brk_prot. destruct (negb _ && _); [done|]. rewrite u64_small by lia. unfold vmvector_lookup.
      destruct (lookup_ok alloc B HB st l (old - 1) H ltac:(lia)) as [(a & i & -> & Ha & Hpa & Hi & Hc)|(-> & _ & Hn)]; cbn [mbind cres_bind].
      - rewrite (Hc (old - 1) Hpa). unfold deref. rewrite Hi. destruct (client a =? 0) eqn:E0; [|done]. zbool.
        rewrite E0, (lo_null _ _ _ (co_list _ _ _ _ H)) in Hi. done.
      - by rewrite Hn. }
    rewrite Ep. cbn [mbind cres_bind]. apply (Hupd st l); [done|unfold range_ok; lia|done|apply HoB; set_solver|apply HoB; set_solver].
  - destruct (query_ok st l pc H Ho HoB) as (info & st' & l' & -> & ? & _ & ?). by exists st', l'.
Qed.

Lemma cache_run_ok os : forall st l m, cache_ok st l -> agree (cached st) m -> Forall cache_op_ok os ->
  (forall o x, o ∈ os -> x ∈ op_points o -> x ∈ B) ->
  exists st' l', cache_run st os = Val st' /\ cache_ok st' l' /\ agree (cached st') (map_run os m).
Proof using HB HB0 Hinit Hincr alloc_fresh alloc_nonnull Hos.
  induction os as [|o os IH]; intros st l m H Hm Ho HoB; cbn [cache_run]; [by exists st, l|].
  apply Forall_cons in Ho as [Ho Hos']. destruct (cache_step_ok st l o H Ho) as (st1 & l1 & -> & Ok1 & C1); [intros x; apply HoB; set_solver|].
  cbn [mbind cres_bind]. apply (IH st1 l1 (map_step o m) Ok1); [|done|intros o' x Ho' Hx; apply (HoB o' x); [set_solver|done]].
  intros x Hx. rewrite C1 by done. by apply map_step_agree.
Qed.
End Ops.

(** ** The theorems *)

Section Theorems.
Context (alloc : heap -> Z) (vsyscall_page_start init_size incr_size : Z) (hw : bool).
Context (from_os : Z -> option (Z * Z * Z)).
Context (alloc_fresh : forall w, w !! alloc w = None) (alloc_nonnull : forall w, alloc w <> 0).
Context (Hos : forall pc b n p, from_os pc = Some (b, n, p) -> b <= pc < b + n /\ range_ok b (b + n)).
Context (Hinit : 0 < init_size < 1073741824) (Hincr : 0 < incr_size < 1073741824).

(** Every bound an operation may add lies behind address 0. *)
Lemma points_positive os : Forall cache_op_ok os -> forall x, x ∈ points from_os os -> 0 < x.
Proof using Hos.
  clear alloc_fresh alloc_nonnull Hinit Hincr. intros Ho x Hx. apply elem_of_list_to_set, elem_of_flat_map in Hx as (o & Hin & Hx). rewrite Forall_forall in Ho. specialize (Ho o Hin).
  assert (Ha : forall y, 0 < y <= w64 - 4096 -> 0 < align_forward y 4096).
  { intros y Hy. pose proof (align_forward_spec y 12 ltac:(lia) ltac:(lia) ltac:(lia)) as [H _]. change (2 ^ 12) with 4096 in H. lia. }
  destruct o as [s e p t|s e|b n ob on p t|lowest old new|pc]; cbn [cache_op_ok op_points] in *; unfold range_ok in *.
  - pose proof (Ha e ltac:(lia)). set_unfold. lia.
  - set_unfold. lia.
  - pose proof (Ha (b + n) ltac:(lia)). set_unfold. lia.
  - pose proof (Ha new ltac:(lia)). set_unfold. lia.
  - destruct (from_os pc) as [[[b n] p]|] eqn:E; [|by apply elem_of_nil in Hx]. destruct (Hos pc b n p E) as [H1 [H2 H3]].
    pose proof (Ha (b + n) ltac:(lia)). set_unfold. lia.
Qed.

(** A reached state, with room for the bounds of one more operation. *)
Lemma reached_ok os more : Forall cache_op_ok (os ++ more) -> Z.of_nat (length (os ++ more)) < 134217728 ->
  exists st l, cache_run alloc vsyscall_page_start init_size incr_size hw from_os (memcache_init alloc ∅) os = Val st /\
    cache_ok alloc (points from_os (os ++ more)) st l /\ agree (cached st) (map_run from_os os (fun _ => None)).
Proof using Hos alloc_fresh alloc_nonnull Hinit Hincr.
  intros Ho Hlen. pose proof (points_size from_os (os ++ more)) as Hsz. pose proof Ho as Ho'. apply Forall_app in Ho' as [Ho1 _].
  apply (cache_run_ok alloc vsyscall_page_start init_size incr_size hw from_os Hos alloc_fresh alloc_nonnull Hinit Hincr
    (points from_os (os ++ more)) ltac:(lia) (points_positive _ Ho) os (memcache_init alloc ∅) []); [apply init_ok|intros x _; done|done|].
  intros o x Hin Hx. by eapply elem_of_points; [apply elem_of_app; left|].
Qed.

(** C10. Whatever the order in which a process maps, changes, moves and unmaps
    memory, moves its break and asks about addresses, the cache runs without
    leaving its array or following a dangling pointer, answers for every
    address the protection and the type that the operations gave it, and
    leaves nothing on the heap when it is closed. *)
Theorem memcache_represents_map os : Forall cache_op_ok os -> Z.of_nat (length os) < 134217728 ->
  exists st, cache_run alloc vsyscall_page_start init_size incr_size hw from_os (memcache_init alloc ∅) os = Val st /\
    (forall x, 0 <= x < w64 -> cached st x = map_run from_os os (fun _ => None) x) /\ memcache_exit st = Val ∅.
Proof using Hos alloc_fresh alloc_nonnull Hinit Hincr.
  intros Ho Hlen. destruct (reached_ok os []) as (st & l & E & Ok & Hm); rewrite ?app_nil_r; try done.
  exists st. split; [done|]. split; [done|]. by eapply cache_exit_ok.
Qed.

(** C29. A query for a mapped address answers a region around it that has the
    protection and the type of the address throughout.  For an address that is
    not mapped the answer is what the system says, which the cache then learns;
    and if the system says nothing, the whole gap around the address. *)
Theorem memcache_query_answers os pc : Forall cache_op_ok os -> Z.of_nat (length os) < 134217727 -> 0 <= pc < ULONG_MAX ->
  exists st info st', cache_run alloc vsyscall_page_start init_size incr_size hw from_os (memcache_init alloc ∅) os = Val st /\
    memcache_query_memory alloc vsyscall_page_start init_size incr_size hw from_os st pc = Val (info, st') /\
    answer_ok from_os (cached st) pc info /\
    forall x, 0 <= x < w64 -> cached st' x = match os_region from_os (cached st) pc with
                                             | Some (b, n, p) => m_update b (b + n) p (-1) (cached st) x
                                             | None => cached st x
                                             end.
Proof using Hos alloc_fresh alloc_nonnull Hinit Hincr.
  intros Ho Hlen Hpc. assert (Ho' : Forall cache_op_ok (os ++ [CQuery pc])) by (apply Forall_app; split; [done|by apply Forall_singleton]).
  assert (Hlen' : Z.of_nat (length (os ++ [CQuery pc])) < 134217728) by (rewrite length_app; cbn; lia).
  destruct (reached_ok os [CQuery pc] Ho' Hlen') as (st & l & E & Ok & _). pose proof (points_size from_os (os ++ [CQuery pc])) as Hsz.
  destruct (query_ok alloc vsyscall_page_start init_size incr_size hw from_os Hos alloc_fresh alloc_nonnull Hinit Hincr
    (points from_os (os ++ [CQuery pc])) ltac:(lia) (points_positive _ Ho') st l pc Ok Hpc) as (info & st' & l' & Eq & _ & Ha & Hc).
  { intros x Hx. apply (elem_of_points from_os _ (CQuery pc)); [set_solver|done]. }
  exists st, info, st'. split; [done|]. split; [done|]. split; [done|]. intros x Hx. rewrite Hc by done. cbn [map_step].
  by destruct (os_region from_os (cached st) pc) as [[[b n] p]|].
Qed.

(** An update that gives no type is to preserve the types of what exists,
    as the cache must not merge images into data.  But behind the first address
    of the range that is not mapped every image becomes data. *)
Theorem memcache_gap_loses_images os s e p y x :
  Forall cache_op_ok os -> Z.of_nat (length os) < 134217727 -> range_ok s e -> s <= y < x -> x < e ->
  exists st, cache_run alloc vsyscall_page_start init_size incr_size hw from_os (memcache_init alloc ∅) os = Val st /\
    (cached st y = None -> exists st', memcache_update alloc vsyscall_page_start init_size incr_size hw st s e p (-1) = Val st' /\
       cached st' x = Some (p, DR_MEMTYPE_DATA)).
Proof using Hos alloc_fresh alloc_nonnull Hinit Hincr.
  intros Ho Hlen Hr Hy Hx. set (o := CUpdate s e p (-1)).
  assert (Ho' : Forall cache_op_ok (os ++ [o])) by (apply Forall_app; split; [done|]; apply Forall_singleton; cbn; split; [done|lia]).
  destruct (reached_ok os [o] Ho') as (st & l & E & Ok & _); [rewrite length_app; cbn; lia|]. pose proof (points_size from_os (os ++ [o])) as Hsz.
  exists st. split; [done|]. intros Hgap. unfold range_ok in Hr. rewrite length_app in Hsz. cbn [length] in Hsz.
  destruct (update_ok alloc vsyscall_page_start init_size incr_size hw alloc_fresh alloc_nonnull Hinit Hincr
    (points from_os (os ++ [o])) ltac:(lia) st l s e p (-1) Ok ltac:(lia) ltac:(lia) ltac:(lia)) as (st' & l' & -> & _ & Hc).
  { apply (elem_of_points from_os _ o); set_solver. }
  { apply (elem_of_points from_os _ o); set_solver. }
  exists st'. split; [done|]. rewrite Hc by lia. unfold m_update.
  pose proof (align_forward_spec e 12 ltac:(lia) ltac:(lia) ltac:(lia)) as [Ha _]. change (2 ^ 12) with 4096 in Ha.
  rewrite (proj2 (Z.leb_le s x)), (proj2 (Z.ltb_lt x _)) by lia. cbn [andb Z.eqb]. do 2 f_equal.
  destruct (kept_type_cases (cached st) s x) as [K|K]; [|done]. apply kept_type_image in K as [K _]; [|lia]. by destruct (K y ltac:(lia)).
Qed.
End Theorems.

(** ** The theorems at concrete inputs *)

(** An allocator that never reuses an address, and a system that knows one
    region the cache was not told of. *)
Definition bump_alloc (w : heap) : Z := 1 + foldr Z.max 0 (map fst (map_to_list w)).

Lemma bump_alloc_above w p i : w !! p = Some i -> p < bump_alloc w.
Proof.
  intros H. apply elem_of_map_to_list in H. unfold bump_alloc. induction (map_to_list w) as [|[q j] ps IH]; [by apply elem_of_nil in H|].
  cbn. apply elem_of_cons in H as [[= <- <-]|H]; [lia|]. specialize (IH H). lia.
Qed.
Lemma bump_alloc_fresh w : w !! bump_alloc w = None.
Proof. destruct (w !! bump_alloc w) as [i|] eqn:E; [|done]. apply bump_alloc_above in E. lia. Qed.
Lemma bump_alloc_nonnull w : bump_alloc w <> 0.
Proof.
  unfold bump_alloc. assert (0 <= foldr Z.max 0 (map fst (map_to_list w))); [|lia].
  induction (map fst (map_to_list w)); cbn; lia.
Qed.

Definition maps (pc : Z) : option (Z * Z * Z) := if (65536 <=? pc) && (pc <? 73728) then Some (65536, 8192, 1) else None.
Lemma maps_ok pc b n p : maps pc = Some (b, n, p) -> b <= pc < b + n /\ range_ok b (b + n).
Proof. unfold maps, range_ok. destruct (_ && _) eqn:E; [|done]. intros [= <- <- <-]. zbool. lia. Qed.

(** A library of two pages at 8192, then data; the second page of the library
    is changed, the end of the data is unmapped, and the break grows. *)
Definition history : list cache_op :=
  [CUpdate 8192 16384 5 DR_MEMTYPE_IMAGE; CUpdate 20480 24576 3 DR_MEMTYPE_DATA; CUpdate 12288 22000 1 (-1);
   CRemove 22528 24576; CBrk 0 22528 28672; CQuery 70000; CMremap 40960 4096 8192 4096 5 DR_MEMTYPE_IMAGE].

Lemma history_ok : Forall cache_op_ok history.
Proof. unfold history. rewrite !Forall_cons. cbn [cache_op_ok]. unfold range_ok, ULONG_MAX. split_and!; lia || apply Forall_nil_2 || done. Qed.

Lemma memcache_represents_map_witness : Forall cache_op_ok history /\
  exists st, cache_run bump_alloc 0 100 100 true maps (memcache_init bump_alloc ∅) history = Val st /\
    (forall x, 0 <= x < w64 -> cached st x = map_run maps history (fun _ => None) x) /\ memcache_exit st = Val ∅.
Proof.
  split; [apply history_ok|].
  apply (memcache_represents_map bump_alloc 0 100 100 true maps bump_alloc_fresh bump_alloc_nonnull maps_ok ltac:(lia) ltac:(lia));
    [apply history_ok|cbn; lia].
Defined.

Lemma memcache_query_answers_witness :
  exists st info st', cache_run bump_alloc 0 100 100 true maps (memcache_init bump_alloc ∅) history = Val st /\
    memcache_query_memory bump_alloc 0 100 100 true maps st 30000 = Val (info, st') /\ answer_ok maps (cached st) 30000 info /\
    forall x, 0 <= x < w64 -> cached st' x = match os_region maps (cached st) 30000 with
                                             | Some (b, n, p) => m_update b (b + n) p (-1) (cached st) x
                                             | None => cached st x
                                             end.
Proof.
  apply (memcache_query_answers bump_alloc 0 100 100 true maps bump_alloc_fresh bump_alloc_nonnull maps_ok ltac:(lia) ltac:(lia) history 30000);
    [apply history_ok|cbn; lia|unfold ULONG_MAX; lia].
Defined.

(** The library is at 8192, and nothing is mapped at 4096. *)
Lemma memcache_gap_loses_images_witness :
  exists st, cache_run bump_alloc 0 100 100 true maps (memcache_init bump_alloc ∅) [CUpdate 8192 16384 5 DR_MEMTYPE_IMAGE] = Val st /\
    cached st 8192 = Some (5, DR_MEMTYPE_IMAGE) /\
    (cached st 4096 = None -> exists st', memcache_update bump_alloc 0 100 100 true st 4096 16384 1 (-1) = Val st' /\
       cached st' 8192 = Some (1, DR_MEMTYPE_DATA)).
Proof.
  destruct (memcache_gap_loses_images bump_alloc 0 100 100 true maps bump_alloc_fresh bump_alloc_nonnull maps_ok ltac:(lia) ltac:(lia)
    [CUpdate 8192 16384 5 DR_MEMTYPE_IMAGE] 4096 16384 1 4096 8192) as (st & E & H);
    [apply Forall_singleton; cbn [cache_op_ok]; unfold range_ok, DR_MEMTYPE_IMAGE; lia|cbn; lia|unfold range_ok; lia|lia|lia|].
  exists st. split; [exact E|]. split; [|exact H]. vm_compute in E. injection E as <-. vm_compute. reflexivity.
Defined.

(** The history at work: what is left of the library, and of the data. *)
Example history_runs :
  match cache_run bump_alloc 0 100 100 true maps (memcache_init bump_alloc ∅) history with
  | Val st => map (cached st) [8192; 12288; 16384; 20480; 22528; 28671; 40960; 70000; 80000] =
              [None; Some (1, 1); Some (1, 2); Some (1, 2); Some (1, 2); Some (1, 2); Some (5, 1); Some (1, 2); None]
  | Undef => False
  end.
Proof. vm_compute. reflexivity. Qed.
