(* ===== verification/TraceEntry.v ===== *)
(** * The two trace formats

    [clients/drcachesim/common/trace_entry.h]: the raw format a traced thread
    writes, one 64-bit word per entry ([offline_entry_t]), and the format the
    readers take ([trace_entry_t]); with the functions that write the one
    (tracer/instru_offline.cpp) and the other (tracer/instru_online.cpp, which
    raw2trace.cpp calls through [trace_metadata_writer_t]).

    A word is a [Z] below 2^64 and a bit field of it is a shift and a mask.  A
    writer answers the entries it leaves in the buffer.  [process_id_t] and
    [thread_id_t] are [pid_t], a signed 32-bit integer.  The [phys_addr] of
    [trace_entry_t], which nothing reads or writes, is left out. *)
From stdpp Require Export strings.
From S2P Require Export Prelude CachingDevice.

(** ** The values of [trace_type_t] that the simulator does not name *)

Definition TRACE_TYPE_PREFETCHT0 : Z := 33.
Definition TRACE_TYPE_PREFETCHT1 : Z := 34.
Definition TRACE_TYPE_PREFETCHT2 : Z := 35.
Definition TRACE_TYPE_PREFETCHNTA : Z := 36.
Definition TRACE_TYPE_PREFETCH_READ : Z := 37.
Definition TRACE_TYPE_PREFETCH_WRITE : Z := 38.
Definition TRACE_TYPE_INSTR_DIRECT_JUMP : Z := 41.
Definition TRACE_TYPE_INSTR_INDIRECT_JUMP : Z := 42.
Definition TRACE_TYPE_INSTR_CONDITIONAL_JUMP : Z := 43.
Definition TRACE_TYPE_INSTR_DIRECT_CALL : Z := 44.
Definition TRACE_TYPE_INSTR_INDIRECT_CALL : Z := 45.
Definition TRACE_TYPE_INSTR_BUNDLE : Z := 47.
Definition TRACE_TYPE_INSTR_FLUSH_END : Z := 49.
Definition TRACE_TYPE_DATA_FLUSH_END : Z := 51.
Definition TRACE_TYPE_THREAD : Z := 52.
Definition TRACE_TYPE_PID : Z := 54.
Definition TRACE_TYPE_HEADER : Z := 55.
Definition TRACE_TYPE_FOOTER : Z := 56.
Definition TRACE_TYPE_INSTR_MAYBE_FETCH : Z := 60.

(** [trace_marker_type_t]. *)
Definition TRACE_MARKER_TYPE_KERNEL_EVENT : Z := 0.
Definition TRACE_MARKER_TYPE_TIMESTAMP : Z := 2.
Definition TRACE_MARKER_TYPE_CPU_ID : Z := 3.

Definition TRACE_ENTRY_VERSION : Z := 1.

Record trace_entry_t := { te_type : Z; te_size : Z; te_addr : Z }.

#[export] Instance trace_entry_eq_dec : EqDecision trace_entry_t.
Proof. solve_decision. Defined.

(** The byte [length[i]] of the union with [addr], on a little-endian machine. *)
Definition te_length (e : trace_entry_t) (i : Z) : Z := Z.land (Z.shiftr (te_addr e) (8 * i)) 255.

(** ** [offline_entry_t] *)

Definition OFFLINE_TYPE_MEMREF : Z := 0.
Definition OFFLINE_TYPE_PC : Z := 1.
Definition OFFLINE_TYPE_THREAD : Z := 2.
Definition OFFLINE_TYPE_PID : Z := 3.
Definition OFFLINE_TYPE_TIMESTAMP : Z := 4.
Definition OFFLINE_TYPE_IFLUSH : Z := 5.
Definition OFFLINE_TYPE_EXTENDED : Z := 6.
Definition OFFLINE_TYPE_MEMREF_HIGH : Z := 7.

Definition OFFLINE_EXT_TYPE_HEADER : Z := 0.
Definition OFFLINE_EXT_TYPE_FOOTER : Z := 1.
Definition OFFLINE_EXT_TYPE_MARKER : Z := 2.
Definition OFFLINE_EXT_TYPE_MEMINFO : Z := 3.

Definition EXT_VALUE_A_BITS : Z := 48.
Definition EXT_VALUE_B_BITS : Z := 8.
Definition PC_MODOFFS_BITS : Z := 33.
Definition PC_MODIDX_BITS : Z := 16.
Definition PC_INSTR_COUNT_BITS : Z := 12.
Definition OFFLINE_FILE_VERSION : Z := 2.

(** The [w] bits of a word from bit [lo] on. *)
Definition field (lo w e : Z) : Z := Z.land (Z.shiftr e lo) (Z.ones w).

(** All the alternatives have their [type] in the three highest bits. *)
Definition oe_type (e : Z) : Z := field 61 3 e.
(** [addr.addr], [tid.tid], [pid.pid] and [timestamp.usec]. *)
Definition oe_addr (e : Z) : Z := field 0 61 e.
Definition pc_modoffs (e : Z) : Z := field 0 PC_MODOFFS_BITS e.
Definition pc_modidx (e : Z) : Z := field PC_MODOFFS_BITS PC_MODIDX_BITS e.
Definition pc_instr_count (e : Z) : Z := field 49 PC_INSTR_COUNT_BITS e.
Definition ext_valueA (e : Z) : Z := field 0 EXT_VALUE_A_BITS e.
Definition ext_valueB (e : Z) : Z := field EXT_VALUE_A_BITS EXT_VALUE_B_BITS e.
Definition ext_ext (e : Z) : Z := field 56 5 e.

(** An assignment to all the fields of an alternative: each keeps the low bits
    of its value. *)
Definition addr_entry (type a : Z) : Z := Z.land a (Z.ones 61) + Z.shiftl type 61.
Definition pc_entry (modoffs modidx instr_count : Z) : Z :=
  Z.land modoffs (Z.ones PC_MODOFFS_BITS) + Z.shiftl (Z.land modidx (Z.ones PC_MODIDX_BITS)) PC_MODOFFS_BITS +
  Z.shiftl (Z.land instr_count (Z.ones PC_INSTR_COUNT_BITS)) 49 + Z.shiftl OFFLINE_TYPE_PC 61.
Definition ext_entry (ext valueA valueB : Z) : Z :=
  Z.land valueA (Z.ones EXT_VALUE_A_BITS) + Z.shiftl (Z.land valueB (Z.ones EXT_VALUE_B_BITS)) EXT_VALUE_A_BITS +
  Z.shiftl ext 56 + Z.shiftl OFFLINE_TYPE_EXTENDED 61.

Definition is_memref (e : Z) : bool := (oe_type e =? OFFLINE_TYPE_MEMREF) || (oe_type e =? OFFLINE_TYPE_MEMREF_HIGH).

(** ** What a traced thread writes ([offline_instru_t]) *)

Module Offline.
(** A failed [DR_ASSERT] aborts, in every build. *)
Definition DR_ASSERT (b : bool) : outcome unit := if b then Ret () else Abort.

Definition append_pid (pid : Z) : list Z := [addr_entry OFFLINE_TYPE_PID (u64 pid)].
Definition append_tid (tid : Z) : list Z := [addr_entry OFFLINE_TYPE_THREAD (u64 tid)].
Definition append_thread_exit : list Z := [ext_entry OFFLINE_EXT_TYPE_FOOTER 0 0].

Definition append_marker (type val : Z) : outcome (list Z) :=
  _ ← DR_ASSERT (type <? Z.shiftl 1 EXT_VALUE_B_BITS);
  _ ← DR_ASSERT (u64 val <? Z.shiftl 1 EXT_VALUE_A_BITS);
  Ret [ext_entry OFFLINE_EXT_TYPE_MARKER (u64 val) type].

Definition append_iflush (start size : Z) : list Z :=
  [addr_entry OFFLINE_TYPE_IFLUSH start; addr_entry OFFLINE_TYPE_IFLUSH (u64 (start + size))].

(** [dr_get_process_id()] is [pid]. *)
Definition append_thread_header (tid pid : Z) : list Z :=
  [ext_entry OFFLINE_EXT_TYPE_HEADER OFFLINE_FILE_VERSION 0] ++ append_tid tid ++ append_pid pid.

(** [get_timestamp()] and [get_cpu_id()] are [usec] and [cpu], which is -1 when
    the processor is not known. *)
Definition append_unit_header (usec cpu : Z) : outcome (list Z) :=
  marker ← append_marker TRACE_MARKER_TYPE_CPU_ID (u64 cpu);
  Ret (addr_entry OFFLINE_TYPE_TIMESTAMP usec :: marker).

(** The entry that [insert_save_pc] has the code write: the module's index, or
    0 and the offset 0 when the address is in no module. *)
Definition save_pc (modidx modoffs instr_count : Z) : outcome (list Z) :=
  _ ← DR_ASSERT (modoffs <? Z.shiftl 1 PC_MODOFFS_BITS);
  _ ← DR_ASSERT (modidx <? Z.shiftl 1 PC_MODIDX_BITS);
  _ ← DR_ASSERT (instr_count <? Z.shiftl 1 PC_INSTR_COUNT_BITS);
  Ret [pc_entry modoffs modidx instr_count].
End Offline.

(** ** The entries of a trace ([online_instru_t]) *)

Module Online.
Definition append_pid (pid : Z) : list trace_entry_t := [{| te_type := TRACE_TYPE_PID; te_size := 4; te_addr := u64 pid |}].
Definition append_tid (tid : Z) : list trace_entry_t := [{| te_type := TRACE_TYPE_THREAD; te_size := 4; te_addr := u64 tid |}].
Definition append_thread_exit (tid : Z) : list trace_entry_t :=
  [{| te_type := TRACE_TYPE_THREAD_EXIT; te_size := 4; te_addr := u64 tid |}].
Definition append_marker (type val : Z) : list trace_entry_t :=
  [{| te_type := TRACE_TYPE_MARKER; te_size := type mod 65536; te_addr := val |}].

(** A size above [USHRT_MAX], or 0, takes a second entry for the end. *)
Definition append_iflush (start size : Z) : list trace_entry_t :=
  let entry_size := if size <=? 65535 then size else 0 in
  {| te_type := TRACE_TYPE_INSTR_FLUSH; te_size := entry_size; te_addr := start |} ::
  (if entry_size =? 0 then [{| te_type := TRACE_TYPE_INSTR_FLUSH_END; te_size := 0; te_addr := u64 (start + size) |}] else []).
End Online.

(** [trace_metadata_writer_t]. *)
Definition write_thread_exit := Online.append_thread_exit.
Definition write_marker := Online.append_marker.
Definition write_iflush := Online.append_iflush.
Definition write_pid := Online.append_pid.
Definition write_tid := Online.append_tid.
Definition write_timestamp (timestamp : Z) : list trace_entry_t := Online.append_marker TRACE_MARKER_TYPE_TIMESTAMP timestamp.

(** [trace_metadata_reader_t]. *)
Definition is_thread_start (e : Z) : bool + string :=
  if negb (oe_type e =? OFFLINE_TYPE_EXTENDED) || negb (ext_ext e =? OFFLINE_EXT_TYPE_HEADER) then inl false
  else if negb (ext_valueA e =? OFFLINE_FILE_VERSION) then inr "Version mismatch"
  else inl true.

(** [Some] is an error. *)
Definition check_entry_thread_start (e : Z) : option string :=
  match is_thread_start e with
  | inl true => None
  | inl false => Some "Thread log file is corrupted: missing version entry"
  | inr error => Some error
  end.

(** ** Fields *)

Lemma field_spec lo w e : 0 <= lo -> 0 <= w -> field lo w e = e / 2 ^ lo mod 2 ^ w.
Proof. intros. unfold field. rewrite Z.land_ones by lia. by rewrite shiftr_div. Qed.

Lemma field_bound lo w e : 0 <= lo -> 0 <= w -> 0 <= field lo w e < 2 ^ w.
Proof. intros. rewrite field_spec by lia. apply Z.mod_pos_bound. by apply Z.pow_pos_nonneg. Qed.

(** The field of a word written as what is below it, itself, and what is above. *)
Lemma field_at lo w low v high : 0 <= lo -> 0 <= w -> 0 <= low < 2 ^ lo -> 0 <= v < 2 ^ w ->
  field lo w (low + v * 2 ^ lo + high * 2 ^ (lo + w)) = v.
Proof.
  intros Hlo Hw Hl Hv. rewrite field_spec by lia. rewrite Z.pow_add_r by lia.
  pose proof (Z.pow_pos_nonneg 2 lo ltac:(lia) Hlo). pose proof (Z.pow_pos_nonneg 2 w ltac:(lia) Hw).
  replace (low + v * 2 ^ lo + high * (2 ^ lo * 2 ^ w)) with (low + (v + high * 2 ^ w) * 2 ^ lo) by ring.
  rewrite Z.div_add, Z.div_small by lia. rewrite Z.add_0_l, Z.mod_add by lia. by apply Z.mod_small.
Qed.
