(* ===== verification/Raw2Trace.v ===== *)
(** * The conversion of raw traces

    [clients/drcachesim/tracer/raw2trace.cpp] and raw2trace.h: the words that
    the traced threads wrote, one file per thread, become one trace in
    timestamp order, with an entry for every instruction of each basic block
    and its references behind it.

    The decoder of the core is a parameter: [decode pc] is the instruction at a
    mapped address, as the functions of DynamoRIO's interface answer about it,
    and the address behind it, 0 for NULL.  The decode cache is a map, which is
    what Hashtable.v shows of the table behind it.  The output file is the list
    of the entries written; [accepts] says whether a write succeeds.  Members
    of the converter that are vectors with one element per thread file are one
    list of records.  Logging is left out, and the numbers in two of the error
    messages. *)
From S2P Require Export TraceEntry.

(** ** Instructions *)

Inductive opcode_t := OP_prefetcht0 | OP_prefetcht1 | OP_prefetcht2 | OP_prefetchnta | OP_clflush | OP_sysenter | OP_other.

Record opnd_t := {
  opnd_is_memory_reference : bool;
  opnd_is_near_base_disp : bool;
  opnd_has_base : bool;      (* opnd_get_base(ref) != DR_REG_NULL *)
  opnd_has_index : bool;     (* opnd_get_index(ref) != DR_REG_NULL *)
  opnd_get_disp : Z;
  opnd_size_in_bytes : Z
}.

(** The answers about a decoded instruction. *)
Record instr_t := {
  instr_valid : bool;
  instr_get_opcode : opcode_t;
  instr_is_prefetch : bool;
  instr_reads_memory : bool;
  instr_writes_memory : bool;
  instr_is_cti : bool;
  instr_is_call_direct : bool;
  instr_is_call_indirect : bool;
  instr_is_return : bool;
  instr_is_ubr : bool;
  instr_is_mbr : bool;
  instr_is_cbr : bool;
  instr_is_rep_string_op : bool;
  instr_length : Z;
  instr_srcs : list opnd_t;
  instr_dsts : list opnd_t
}.

(** [instru_t]; the third argument, [repstr_expanded], is false here. *)
Definition instr_to_instr_type (instr : instr_t) : Z :=
  if instr_is_call_direct instr then TRACE_TYPE_INSTR_DIRECT_CALL
  else if instr_is_call_indirect instr then TRACE_TYPE_INSTR_INDIRECT_CALL
  else if instr_is_return instr then TRACE_TYPE_INSTR_RETURN
  else if instr_is_ubr instr then TRACE_TYPE_INSTR_DIRECT_JUMP
  else if instr_is_mbr instr then TRACE_TYPE_INSTR_INDIRECT_JUMP
  else if instr_is_cbr instr then TRACE_TYPE_INSTR_CONDITIONAL_JUMP
  else if (match instr_get_opcode instr with OP_sysenter => true | _ => false end) then TRACE_TYPE_INSTR_SYSENTER
  else if instr_is_rep_string_op instr then TRACE_TYPE_INSTR_MAYBE_FETCH
  else TRACE_TYPE_INSTR.

Definition instr_to_prefetch_type (instr : instr_t) : Z :=
  match instr_get_opcode instr with
  | OP_prefetcht0 => TRACE_TYPE_PREFETCHT0
  | OP_prefetcht1 => TRACE_TYPE_PREFETCHT1
  | OP_prefetcht2 => TRACE_TYPE_PREFETCHT2
  | OP_prefetchnta => TRACE_TYPE_PREFETCHNTA
  | _ => TRACE_TYPE_PREFETCH
  end.

Definition instr_is_flush (instr : instr_t) : bool := match instr_get_opcode instr with OP_clflush => true | _ => false end.

(** ** Summaries of instructions ([instr_summary_t]) *)

Record instr_summary_t := {
  type_ : Z;
  prefetch_type_ : Z;
  length_ : Z;
  next_pc_ : Z;
  mem_srcs_and_dests_ : list opnd_t;
  num_mem_srcs_ : Z;
  packed_ : Z
}.

Definition kReadsMemMask : Z := 1.
Definition kWritesMemMask : Z := 2.
Definition kIsPrefetchMask : Z := 4.
Definition kIsFlushMask : Z := 8.
Definition kIsCtiMask : Z := 16.

Definition TESTANY (mask var : Z) : bool := negb (Z.land mask var =? 0).
Definition reads_memory (s : instr_summary_t) : bool := TESTANY kReadsMemMask (packed_ s).
Definition writes_memory (s : instr_summary_t) : bool := TESTANY kWritesMemMask (packed_ s).
Definition is_prefetch (s : instr_summary_t) : bool := TESTANY kIsPrefetchMask (packed_ s).
Definition is_flush_instr (s : instr_summary_t) : bool := TESTANY kIsFlushMask (packed_ s).
Definition is_cti (s : instr_summary_t) : bool := TESTANY kIsCtiMask (packed_ s).
Definition num_mem_srcs (s : instr_summary_t) : nat := Z.to_nat (num_mem_srcs_ s).
Definition num_mem_dests (s : instr_summary_t) : nat := length (mem_srcs_and_dests_ s) - num_mem_srcs s.

Definition set_bit (b : bool) (mask packed : Z) : Z := if b then Z.lor packed mask else packed.

(** [None] for false: the caller leaves the description unused. *)
Definition construct (decode : Z -> instr_t * Z) (pc : Z) : option instr_summary_t :=
  let '(instr, next_pc) := decode pc in
  if (next_pc =? 0) || negb (instr_valid instr) then None
  else
    let reads := instr_reads_memory instr in
    let writes := instr_writes_memory instr in
    let srcs := List.filter opnd_is_memory_reference (instr_srcs instr) in
    let dsts := List.filter opnd_is_memory_reference (instr_dsts instr) in
    Some {| type_ := instr_to_instr_type instr;
            prefetch_type_ := if instr_is_prefetch instr then instr_to_prefetch_type instr else 0;
            length_ := instr_length instr mod 256;
            next_pc_ := next_pc;
            mem_srcs_and_dests_ := if reads || writes then srcs ++ dsts else [];
            num_mem_srcs_ := if reads || writes then Z.of_nat (length srcs) mod 256 else 0;
            packed_ := set_bit (instr_is_cti instr) kIsCtiMask (set_bit (instr_is_flush instr) kIsFlushMask
              (set_bit (instr_is_prefetch instr) kIsPrefetchMask
                (set_bit writes kWritesMemMask (set_bit reads kReadsMemMask 0)))) |}.

(** ** The converter's state *)

(** A thread file: what is left of it, whether a read has hit its end, whether
    it is a file whose reads fail before the end; with the words put back and
    the branch kept for the thread's next segment. *)
Record thread_file_t := {
  rest : list Z;
  at_end : bool;
  broken : bool;
  pre_read : list Z;
  delayed_branch : list trace_entry_t
}.

Record raw2trace_t := {
  thread_files : list thread_file_t;
  out_file : list trace_entry_t;
  decode_cache : gmap Z instr_summary_t;
  last_entry : Z;
  tidx : nat;
  thread_count : Z;
  prev_instr_was_rep_string : bool;
  instrs_are_separate : bool
}.

Record module_t := { orig_base : Z; map_base : Z; map_size : Z }.

(** [tids], [pids], [wrote_pid] and [times] of the merge. *)
Record thread_t := { th_tid : Z; th_pid : Z; th_wrote_pid : bool; th_time : Z }.

Definition INVALID_THREAD_ID : Z := 0.
Definition INVALID_PROCESS_ID : Z := -1.
Definition WRITE_BUFFER_SIZE : Z := 64.
Definition sizeof_trace_entry_t : Z := 20.

Definition with_files s fs : raw2trace_t :=
  {| thread_files := fs; out_file := out_file s; decode_cache := decode_cache s; last_entry := last_entry s; tidx := tidx s;
     thread_count := thread_count s; prev_instr_was_rep_string := prev_instr_was_rep_string s;
     instrs_are_separate := instrs_are_separate s |}.
Definition with_out s es : raw2trace_t :=
  {| thread_files := thread_files s; out_file := es; decode_cache := decode_cache s; last_entry := last_entry s; tidx := tidx s;
     thread_count := thread_count s; prev_instr_was_rep_string := prev_instr_was_rep_string s;
     instrs_are_separate := instrs_are_separate s |}.
Definition with_cache s c : raw2trace_t :=
  {| thread_files := thread_files s; out_file := out_file s; decode_cache := c; last_entry := last_entry s; tidx := tidx s;
     thread_count := thread_count s; prev_instr_was_rep_string := prev_instr_was_rep_string s;
     instrs_are_separate := instrs_are_separate s |}.
Definition with_last s e : raw2trace_t :=
  {| thread_files := thread_files s; out_file := out_file s; decode_cache := decode_cache s; last_entry := e; tidx := tidx s;
     thread_count := thread_count s; prev_instr_was_rep_string := prev_instr_was_rep_string s;
     instrs_are_separate := instrs_are_separate s |}.
Definition with_tidx s i : raw2trace_t :=
  {| thread_files := thread_files s; out_file := out_file s; decode_cache := decode_cache s; last_entry := last_entry s; tidx := i;
     thread_count := thread_count s; prev_instr_was_rep_string := prev_instr_was_rep_string s;
     instrs_are_separate := instrs_are_separate s |}.
Definition with_count s n : raw2trace_t :=
  {| thread_files := thread_files s; out_file := out_file s; decode_cache := decode_cache s; last_entry := last_entry s; tidx := tidx s;
     thread_count := n; prev_instr_was_rep_string := prev_instr_was_rep_string s;
     instrs_are_separate := instrs_are_separate s |}.
Definition with_rep s b : raw2trace_t :=
  {| thread_files := thread_files s; out_file := out_file s; decode_cache := decode_cache s; last_entry := last_entry s; tidx := tidx s;
     thread_count := thread_count s; prev_instr_was_rep_string := b;
     instrs_are_separate := instrs_are_separate s |}.
Definition with_separate s b : raw2trace_t :=
  {| thread_files := thread_files s; out_file := out_file s; decode_cache := decode_cache s; last_entry := last_entry s; tidx := tidx s;
     thread_count := thread_count s; prev_instr_was_rep_string := prev_instr_was_rep_string s;
     instrs_are_separate := b |}.

Definition with_pre_read f l : thread_file_t :=
  {| rest := rest f; at_end := at_end f; broken := broken f; pre_read := l; delayed_branch := delayed_branch f |}.
Definition with_delayed f l : thread_file_t :=
  {| rest := rest f; at_end := at_end f; broken := broken f; pre_read := pre_read f; delayed_branch := l |}.

(** The constructor of [raw2trace_t] for thread files that have been checked. *)
Definition new_raw2trace (files : list thread_file_t) : raw2trace_t :=
  {| thread_files := files; out_file := []; decode_cache := ∅; last_entry := 0; tidx := 0; thread_count := 0;
     prev_instr_was_rep_string := false; instrs_are_separate := false |}.

(** ** Operations *)

(** A run ends with a value, with the error it returns, with an abort (a failed
    assertion, or an access outside a vector or a buffer), or without fuel. *)
Inductive result (A : Type) : Type :=
| Done (a : A)
| Failed (msg : string)
| Aborted
| Exhausted.
Arguments Done {A} a.
Arguments Failed {A} msg.
Arguments Aborted {A}.
Arguments Exhausted {A}.

Definition conv (A : Type) : Type := raw2trace_t -> result A * raw2trace_t.

#[export] Instance conv_ret : MRet conv := fun A a s => (Done a, s).
#[export] Instance conv_bind : MBind conv := fun A B k m s =>
  match m s with
  | (Done a, s') => k a s'
  | (Failed msg, s') => (Failed msg, s')
  | (Aborted, s') => (Aborted, s')
  | (Exhausted, s') => (Exhausted, s')
  end.

Definition fail {A} (msg : string) : conv A := fun s => (Failed msg, s).
Definition abort {A} : conv A := fun s => (Aborted, s).
Definition get : conv raw2trace_t := fun s => (Done s, s).
Definition modify (f : raw2trace_t -> raw2trace_t) : conv unit := fun s => (Done tt, f s).
Definition at_index {A} (l : list A) (i : nat) : conv A := match l !! i with Some a => mret a | None => abort end.

(** [DR_CHECK], [CHECK] and [DR_ASSERT]. *)
Definition check (b : bool) (msg : string) : conv unit := if b then mret tt else fail msg.
Definition dr_assert (b : bool) : conv unit := if b then mret tt else abort.

Section Converter.
Context (decode : Z -> instr_t * Z) (modvec : list module_t).
Context (accepts : list trace_entry_t -> list trace_entry_t -> bool).

(** *** The thread files *)

(** [istream::read] of [count] words. *)
Definition stream_read (f : thread_file_t) (count : nat) : option (list Z) * thread_file_t :=
  if (count <=? length (rest f))%nat
  then (Some (take count (rest f)),
        {| rest := drop count (rest f); at_end := at_end f; broken := broken f; pre_read := pre_read f; delayed_branch := delayed_branch f |})
  else (None, {| rest := []; at_end := at_end f || negb (broken f); broken := broken f; pre_read := pre_read f;
                 delayed_branch := delayed_branch f |}).

Definition set_file (i : nat) (f : thread_file_t) : conv unit := modify (fun s => with_files s (<[i := f]> (thread_files s))).

(** [None] for false; no caller passes [num_read]. *)
Definition read_from_thread_file (i count : nat) : conv (option (list Z)) :=
  s ← get;
  f ← at_index (thread_files s) i;
  let from_buf := Nat.min (length (pre_read f)) count in
  let dest := take from_buf (pre_read f) in
  let f := with_pre_read f (drop from_buf (pre_read f)) in
  let count := (count - from_buf)%nat in
  if (0 <? count)%nat then
    let '(r, f) := stream_read f count in
    _ ← set_file i f;
    mret (match r with Some es => Some (dest ++ es) | None => None end)
  else
    _ ← set_file i f;
    mret (Some dest).

Definition unread_from_thread_file (i : nat) (es : list Z) : conv unit :=
  s ← get;
  f ← at_index (thread_files s) i;
  set_file i (with_pre_read f (pre_read f ++ es)).

Definition thread_file_at_eof (i : nat) : conv bool :=
  s ← get;
  f ← at_index (thread_files s) i;
  mret (match pre_read f with [] => at_end f | _ => false end).

(** A failed read may leave part of a word in [last_entry], which is not read
    before the next successful one. *)
Definition get_next_entry : conv (option Z) :=
  s ← get;
  r ← read_from_thread_file (tidx s) 1;
  match r with
  | Some (e :: _) => _ ← modify (fun s => with_last s e); mret (Some e)
  | _ => mret None
  end.

Definition unread_last_entry : conv unit := s ← get; unread_from_thread_file (tidx s) [last_entry s].

(** *** The output *)

Definition write (es : list trace_entry_t) : conv bool :=
  s ← get;
  if accepts (out_file s) es then _ ← modify (fun s => with_out s (out_file s ++ es)); mret true else mret false.

Definition write_or_fail (es : list trace_entry_t) : conv unit :=
  ok ← write es;
  if (ok : bool) then mret tt else fail "Failed to write to output file".

Definition append_delayed_branch (i : nat) : conv unit :=
  s ← get;
  f ← at_index (thread_files s) i;
  match delayed_branch f with
  | [] => mret tt
  | es => _ ← write_or_fail es; set_file i (with_delayed f [])
  end.

Definition write_delayed_branches (es : list trace_entry_t) : conv unit :=
  s ← get;
  f ← at_index (thread_files s) (tidx s);
  _ ← check (match delayed_branch f with [] => true | _ => false end) "Failed to flush delayed branch";
  set_file (tidx s) (with_delayed f es).

Definition on_thread_end : conv unit :=
  s ← get;
  r ← read_from_thread_file (tidx s) 1;
  match r with
  | Some _ => fail "Footer is not the final entry"
  | None =>
      eof ← thread_file_at_eof (tidx s);
      if (eof : bool) then modify (fun s => with_count s (u32 (thread_count s - 1))) else fail "Footer is not the final entry"
  end.

(** *** Instructions and their references *)

(** [None] for an instruction that cannot be decoded. *)
Definition get_instr_summary (pc : Z) : conv (option instr_summary_t) :=
  s ← get;
  match decode_cache s !! pc with
  | Some desc => mret (Some desc)
  | None =>
      match construct decode pc with
      | None => mret None
      | Some desc => _ ← modify (fun s => with_cache s (<[pc := desc]> (decode_cache s))); mret (Some desc)
      end
  end.

(** A store to the entry behind [buf]. *)
Definition in_buffer (buf : list trace_entry_t) : conv unit := dr_assert (Z.of_nat (length buf) <? WRITE_BUFFER_SIZE).

(** The type and size of a reference without an entry of its own for them. *)
Definition memref_kind (instr : instr_summary_t) (ref : opnd_t) (write : bool) : Z * Z :=
  if is_prefetch instr then (prefetch_type_ instr, 1)
  else if is_flush_instr instr then (TRACE_TYPE_DATA_FLUSH, opnd_size_in_bytes ref mod 65536)
  else (if write then TRACE_TYPE_WRITE else TRACE_TYPE_READ, opnd_size_in_bytes ref mod 65536).

Definition memref_addr (ref : opnd_t) (combined_value : Z) : Z :=
  if opnd_is_near_base_disp ref && opnd_has_base ref && negb (opnd_has_index ref)
  then u64 (combined_value + opnd_get_disp ref) else combined_value.

Definition is_kernel_event (e : Z) : bool :=
  (oe_type e =? OFFLINE_TYPE_EXTENDED) && (ext_ext e =? OFFLINE_EXT_TYPE_MARKER) &&
  (ext_valueB e =? TRACE_MARKER_TYPE_KERNEL_EVENT).

(** The buffer, and whether a signal or exception interrupted the block. *)
Definition append_memref (buf : list trace_entry_t) (instr : instr_summary_t) (ref : opnd_t) (write : bool)
    : conv (list trace_entry_t * bool) :=
  in_entry ← get_next_entry;
  match in_entry with
  | None => fail "Trace ends mid-block"
  | Some e =>
      '(e, kind) ←
        (if (oe_type e =? OFFLINE_TYPE_EXTENDED) && (ext_ext e =? OFFLINE_EXT_TYPE_MEMINFO) then
           _ ← in_buffer buf;
           in_entry ← get_next_entry;
           match in_entry with
           | None => fail "Trace ends mid-block"
           | Some e' => mret (e', Some (ext_valueB e, ext_valueA e mod 65536))
           end
         else mret (e, None));
      if negb (oe_type e =? OFFLINE_TYPE_MEMREF) && negb (oe_type e =? OFFLINE_TYPE_MEMREF_HIGH) then
        _ ← unread_last_entry;
        mret (buf, false)
      else
        _ ← in_buffer buf;
        let '(type, size) := match kind with Some k => k | None => memref_kind instr ref write end in
        let buf := buf ++ [{| te_type := type; te_size := size; te_addr := memref_addr ref e |}] in
        in_entry ← get_next_entry;
        match in_entry with
        | None => mret (buf, false)
        | Some e' => _ ← unread_last_entry; mret (buf, is_kernel_event e')
        end
  end.

(** One of the two loops over the operands: those at the places [js]. *)
Fixpoint append_refs (js : list nat) (buf : list trace_entry_t) (instr : instr_summary_t) (write : bool)
    : conv (list trace_entry_t * bool) :=
  match js with
  | [] => mret (buf, false)
  | j :: js =>
      ref ← at_index (mem_srcs_and_dests_ instr) j;
      '(buf, interrupted) ← append_memref buf instr ref write;
      if (interrupted : bool) then mret (buf, true) else append_refs js buf instr write
  end.

(** The references of an instruction, and whether the block is truncated. *)
Definition append_operands (buf : list trace_entry_t) (instr : instr_summary_t) : conv (list trace_entry_t * bool) :=
  '(buf, truncated) ← append_refs (seq 0 (num_mem_srcs instr)) buf instr false;
  if (truncated : bool) then mret (buf, true)
  else append_refs (seq (num_mem_srcs instr) (num_mem_dests instr)) buf instr true.

(** The type of the entry for an instruction; the flag is a member, which all
    the threads share. *)
Definition fetch_type (instr : instr_summary_t) : conv Z :=
  if type_ instr =? TRACE_TYPE_INSTR_MAYBE_FETCH then
    s ← get;
    if prev_instr_was_rep_string s then mret TRACE_TYPE_INSTR_NO_FETCH
    else _ ← modify (fun s => with_rep s true); mret TRACE_TYPE_INSTR
  else _ ← modify (fun s => with_rep s false); mret (type_ instr).

(** The loop of [append_bb_entries] with [n] instructions to go. *)
Fixpoint bb_loop (n : nat) (m : module_t) (skip_icache : bool) (decode_pc : Z) : conv unit :=
  match n with
  | O => mret tt
  | S n =>
      let orig_pc := u64 (decode_pc - map_base m + orig_base m) in
      instr ← get_instr_summary decode_pc;
      match instr with
      | None => mret tt
      | Some instr =>
          _ ← check (negb (is_cti instr) || (n =? 0)%nat) "invalid cti";
          type ← fetch_type instr;
          let buf := [{| te_type := type; te_size := if skip_icache then 0 else length_ instr; te_addr := orig_pc |}] in
          s ← get;
          '(buf, truncated) ←
            (if (negb (instrs_are_separate s) || skip_icache) && (reads_memory instr || writes_memory instr)
             then append_operands buf instr else mret (buf, false));
          _ ← check (Z.of_nat (length buf) <? WRITE_BUFFER_SIZE) "Too many entries";
          _ ← (if is_cti instr then write_delayed_branches buf else write_or_fail buf);
          if (truncated : bool) then mret tt else bb_loop n m skip_icache (next_pc_ instr)
      end
  end.

(** The new value of [*handled]. *)
Definition append_bb_entries (in_entry : Z) : conv bool :=
  let instr_count := pc_instr_count in_entry in
  m ← at_index modvec (Z.to_nat (pc_modidx in_entry));
  let start_pc := u64 (map_base m + pc_modoffs in_entry) in
  if ((pc_modidx in_entry =? 0) && (pc_modoffs in_entry =? 0)) || (map_base m =? 0) then mret false
  else
    let skip_icache := instr_count =? 0 in
    let instr_count := if skip_icache then 1 else instr_count in
    _ ← (if skip_icache then modify (fun s => with_separate s true) else mret tt);
    s ← get;
    _ ← check (negb (instrs_are_separate s) || (instr_count =? 1)) "cannot mix 0-count and >1-count";
    _ ← bb_loop (Z.to_nat instr_count) m skip_icache start_pc;
    mret true.

(** The end of [process_offline_entry]. *)
Definition write_buffered (buf : list trace_entry_t) : conv unit :=
  _ ← check (Z.of_nat (length buf) <? WRITE_BUFFER_SIZE) "Too many entries";
  match buf with [] => mret tt | _ => write_or_fail buf end.

(** The new values of [*end_of_record], false before, and [*last_bb_handled]. *)
Definition process_offline_entry (in_entry tid : Z) (last_bb_handled : bool) : conv (bool * bool) :=
  if oe_type in_entry =? OFFLINE_TYPE_EXTENDED then
    if ext_ext in_entry =? OFFLINE_EXT_TYPE_FOOTER then
      _ ← check (negb (tid =? INVALID_THREAD_ID)) "Missing thread id";
      _ ← write_or_fail (write_thread_exit tid);
      _ ← on_thread_end;
      mret (true, last_bb_handled)
    else if ext_ext in_entry =? OFFLINE_EXT_TYPE_MARKER then
      _ ← write_buffered (write_marker (ext_valueB in_entry) (ext_valueA in_entry));
      mret (false, last_bb_handled)
    else fail "Invalid extension type"
  else if (oe_type in_entry =? OFFLINE_TYPE_MEMREF) || (oe_type in_entry =? OFFLINE_TYPE_MEMREF_HIGH) then
    if negb last_bb_handled then
      _ ← write_buffered [{| te_type := TRACE_TYPE_READ; te_size := 1; te_addr := in_entry |}];
      mret (false, last_bb_handled)
    else fail "memref entry found outside of bb"
  else if oe_type in_entry =? OFFLINE_TYPE_PC then
    handled ← append_bb_entries in_entry;
    mret (false, handled)
  else if oe_type in_entry =? OFFLINE_TYPE_IFLUSH then
    entry ← get_next_entry;
    match entry with
    | None => fail "Flush missing 2nd entry"
    | Some e =>
        _ ← check (oe_type e =? OFFLINE_TYPE_IFLUSH) "Flush missing 2nd entry";
        _ ← write_buffered (write_iflush (oe_addr in_entry) (u64 (oe_addr e - oe_addr in_entry)));
        mret (false, last_bb_handled)
    end
  else fail "Unknown trace type".

(** *** The merge *)

Definition next_or_fail (msg : string) : conv Z :=
  e ← get_next_entry;
  match e with Some e => mret e | None => fail msg end.

Definition read_header : conv thread_t :=
  e ← next_or_fail "Failed to read header from input file";
  '(timestamp, e) ←
    (if oe_type e =? OFFLINE_TYPE_TIMESTAMP
     then e' ← next_or_fail "Failed to read header from input file"; mret (oe_addr e, e')
     else mret (0, e));
  _ ← dr_assert (oe_type e =? OFFLINE_TYPE_THREAD);
  e' ← next_or_fail "Failed to read header from input file";
  _ ← dr_assert (oe_type e' =? OFFLINE_TYPE_PID);
  mret {| th_tid := s32 (oe_addr e); th_pid := s32 (oe_addr e'); th_wrote_pid := false; th_time := timestamp |}.

(** The loop over the thread files with [n] to go. *)
Fixpoint read_headers (n : nat) : conv (list thread_t) :=
  match n with
  | O => mret []
  | S n =>
      th ← read_header;
      _ ← modify (fun s => with_tidx s (S (tidx s)));
      ths ← read_headers n;
      mret (th :: ths)
  end.

Definition with_time (th : thread_t) (t : Z) : thread_t :=
  {| th_tid := th_tid th; th_pid := th_pid th; th_wrote_pid := th_wrote_pid th; th_time := t |}.

(** [times[i]], read from the file if it is not known. *)
Definition next_time (i : nat) (th : thread_t) : conv thread_t :=
  eof ← thread_file_at_eof i;
  if (th_time th =? 0) && negb eof then
    r ← read_from_thread_file i 1;
    match r with
    | Some (e :: _) =>
        _ ← check (oe_type e =? OFFLINE_TYPE_TIMESTAMP) "Missing timestamp entry";
        mret (with_time th (oe_addr e))
    | _ => fail "Failed to read from input file"
    end
  else mret th.

(** The thread with the smallest timestamp, of those from [i] on. *)
Fixpoint pick_thread (ths : list thread_t) (i : nat) (min_time : Z) (next_tidx : nat) : conv (list thread_t * nat) :=
  match ths with
  | [] => mret ([], next_tidx)
  | th :: ths =>
      th ← next_time i th;
      let better := negb (th_time th =? 0) && (th_time th <? min_time) in
      '(ths, next) ← pick_thread ths (S i) (if better then th_time th else min_time) (if better then i else next_tidx);
      mret (th :: ths, next)
  end.

(** The start of a thread's segment in the output. *)
Definition start_segment (ths : list thread_t) : conv (list thread_t) :=
  '(ths, next) ← pick_thread ths 0 ULONG_MAX 0%nat;
  _ ← modify (fun s => with_tidx s next);
  th ← at_index ths next;
  _ ← dr_assert (negb (th_tid th =? INVALID_THREAD_ID));
  _ ← dr_assert (th_wrote_pid th || negb (th_pid th =? INVALID_PROCESS_ID));
  let buf := write_tid (th_tid th) ++ (if th_wrote_pid th then [] else write_pid (th_pid th)) ++ write_timestamp (th_time th) in
  _ ← check (sizeof_trace_entry_t * Z.of_nat (length buf) <? WRITE_BUFFER_SIZE) "Too many entries";
  _ ← write_or_fail buf;
  mret (<[next := {| th_tid := th_tid th; th_pid := th_pid th; th_wrote_pid := true; th_time := 0 |}]> ths).

(** The next entry of the current thread, the footer of a truncated file. *)
Definition next_in_segment : conv Z :=
  s ← get;
  r ← read_from_thread_file (tidx s) 1;
  match r with
  | Some (e :: _) => mret e
  | _ =>
      eof ← thread_file_at_eof (tidx s);
      if (eof : bool) then mret (ext_entry OFFLINE_EXT_TYPE_FOOTER 0 0) else fail "Failed to read from file for thread"
  end.

(** The body of the loop. *)
Definition merge_step (ths : list thread_t) (last_bb_handled : bool) : conv (list thread_t * bool) :=
  s ← get;
  ths ← (if (length (thread_files s) <=? tidx s)%nat then start_segment ths else mret ths);
  in_entry ← next_in_segment;
  s ← get;
  th ← at_index ths (tidx s);
  if oe_type in_entry =? OFFLINE_TYPE_TIMESTAMP then
    _ ← modify (fun s => with_tidx s (length (thread_files s)));
    mret (<[tidx s := with_time th (oe_addr in_entry)]> ths, last_bb_handled)
  else
    _ ← (if negb (oe_type in_entry =? OFFLINE_TYPE_EXTENDED) || negb (ext_ext in_entry =? OFFLINE_EXT_TYPE_MARKER)
         then append_delayed_branch (tidx s) else mret tt);
    '(end_of_record, handled) ← process_offline_entry in_entry (th_tid th) last_bb_handled;
    _ ← (if (end_of_record : bool) then modify (fun s => with_tidx s (length (thread_files s))) else mret tt);
    mret (ths, handled).

(** [do ... while (thread_count > 0)]. *)
Fixpoint merge_loop (fuel : nat) (ths : list thread_t) (last_bb_handled : bool) : conv unit :=
  match fuel with
  | O => fun s => (Exhausted, s)
  | S fuel =>
      '(ths, handled) ← merge_step ths last_bb_handled;
      s ← get;
      if 0 <? thread_count s then merge_loop fuel ths handled else mret tt
  end.

Definition merge_and_process_thread_files (fuel : nat) : conv unit :=
  s ← get;
  _ ← check (match thread_files s with [] => false | _ => true end) "No thread files found.";
  let n := length (thread_files s) in
  _ ← modify (fun s => with_count s (Z.of_nat n));
  _ ← modify (fun s => with_tidx s 0%nat);
  ths ← read_headers n;
  merge_loop fuel ths true.

(** [do_conversion] once the modules are mapped. *)
Definition do_conversion (fuel : nat) : conv unit :=
  ok ← write [{| te_type := TRACE_TYPE_HEADER; te_size := 0; te_addr := TRACE_ENTRY_VERSION |}];
  _ ← check ok "Failed to write header to output file";
  _ ← merge_and_process_thread_files fuel;
  ok ← write [{| te_type := TRACE_TYPE_FOOTER; te_size := 0; te_addr := 0 |}];
  check ok "Failed to write footer to output file".
End Converter.

(** *** Opening a thread file ([raw2trace_directory.cpp], [check_thread_file]) *)

Definition open_file (words : list Z) : thread_file_t :=
  {| rest := words; at_end := false; broken := false; pre_read := []; delayed_branch := [] |}.

(** The stream behind its version header, or the error. *)
Definition check_thread_file (f : thread_file_t) : (thread_file_t + string) :=
  match stream_read f 1 with
  | (Some (e :: _), f) => match check_entry_thread_start e with None => inl f | Some error => inr error end
  | _ => inr "Unable to read thread log file"
  end.

Definition open_thread_log_file (words : list Z) : thread_file_t + string := check_thread_file (open_file words).

Fixpoint open_thread_files (logs : list (list Z)) : list thread_file_t + string :=
  match logs with
  | [] => inl []
  | l :: logs =>
      match open_thread_log_file l with
      | inr error => inr error
      | inl f => match open_thread_files logs with inl fs => inl (f :: fs) | inr error => inr error end
      end
  end.

(** [drmemtrace_get_timestamp_from_offline_trace]; [None] is
    [DRMEMTRACE_ERROR_INVALID_PARAMETER]. *)
Definition get_timestamp_from_offline_trace (trace : list Z) : option Z :=
  e ← trace !! 0%nat;
  pos ← (if (match is_thread_start e with inl true => true | _ => false end) then
           if (length trace <? 4)%nat then None
           else e1 ← trace !! 1%nat; e2 ← trace !! 2%nat;
                if negb (oe_type e1 =? OFFLINE_TYPE_THREAD) || negb (oe_type e2 =? OFFLINE_TYPE_PID) then None else Some 3%nat
         else Some 0%nat);
  e ← trace !! pos;
  if oe_type e =? OFFLINE_TYPE_TIMESTAMP then Some (oe_addr e) else None.

(** ** A program to try the converter on

    A load, a store and a jump at 0x1000, a rep string instruction at 0x1010. *)

Definition example_opnd (disp size : Z) : opnd_t :=
  {| opnd_is_memory_reference := true; opnd_is_near_base_disp := true; opnd_has_base := true; opnd_has_index := false;
     opnd_get_disp := disp; opnd_size_in_bytes := size |}.
Definition example_instr (jump rep : bool) (len : Z) (srcs dsts : list opnd_t) : instr_t :=
  {| instr_valid := true; instr_get_opcode := OP_other; instr_is_prefetch := false;
     instr_reads_memory := (match srcs with [] => false | _ => true end);
     instr_writes_memory := (match dsts with [] => false | _ => true end);
     instr_is_cti := jump; instr_is_call_direct := false; instr_is_call_indirect := false; instr_is_return := false;
     instr_is_ubr := jump; instr_is_mbr := false; instr_is_cbr := false; instr_is_rep_string_op := rep; instr_length := len;
     instr_srcs := srcs; instr_dsts := dsts |}.
Definition example_image (pc : Z) : instr_t * Z :=
  if pc =? 0x1000 then (example_instr false false 4 [example_opnd 8 8] [], 0x1004)
  else if pc =? 0x1004 then (example_instr false false 3 [] [example_opnd 0 4], 0x1007)
  else if pc =? 0x1007 then (example_instr true false 2 [] [], 0x1009)
  else if pc =? 0x1010 then (example_instr false true 2 [example_opnd 0 1] [example_opnd 0 1], 0x1012)
  else (example_instr false false 1 [] [], u64 (pc + 1)).
Definition example_modules : list module_t :=
  [{| orig_base := 0x400000; map_base := 0xf00; map_size := 0x200 |}; {| orig_base := 0x7ff000; map_base := 0; map_size := 0 |}].
