(* ===== verification/Raw2TraceTerm.v ===== *)
(** * The conversion ends

    Whatever words the thread files hold, the merge ends: every turn of its
    loop takes a word of a file or ends a thread. *)
From S2P Require Export Raw2Trace.

(** The words that are left to read. *)
Definition file_words (f : thread_file_t) : nat := (length (pre_read f) + length (rest f))%nat.
Definition words_of (fs : list thread_file_t) : nat := sum_list_with file_words fs.
Definition words (s : raw2trace_t) : nat := words_of (thread_files s).

Lemma words_of_insert fs i f g : fs !! i = Some f ->
  (words_of (<[i := g]> fs) + file_words f = words_of fs + file_words g)%nat.
Proof.
  unfold words_of. revert i. induction fs as [|h fs IH]; intros [|i] E; try done.
  - injection E as ->. cbn. lia.
  - change (<[S i := g]> (h :: fs)) with (h :: <[i := g]> fs). cbn [sum_list_with]. specialize (IH i E). lia.
Qed.

(** The words after an update of the file [Ef] looks up. *)
Ltac file_words_tac Ef :=
  match goal with
  | |- context [<[?i := ?g]> (thread_files ?s)] =>
      let Hw := fresh in pose proof (words_of_insert (thread_files s) i _ g Ef) as Hw;
      cbn [words thread_files with_files] in *; cbv [file_words] in Hw; cbn [pre_read rest with_pre_read with_delayed] in Hw;
      cbn [pre_read rest with_pre_read with_delayed] in *; rewrite ?length_drop in *; unfold words; cbn [thread_files with_files]; cbn [length] in *; lia
  end.

(** An operation that ends, puts back no more than it reads and leaves the
    number of threads. *)
Definition quiet {A} (m : conv A) : Prop :=
  forall s r s', m s = (r, s') -> r <> Exhausted /\ (words s' <= words s)%nat /\ thread_count s' = thread_count s.

Create HintDb quiet.

(** Runs a program in a hypothesis as far as it goes. *)
Ltac run_in E := cbv [mbind conv_bind mret conv_ret get modify set_file fail abort check dr_assert] in E; cbn beta iota in E.

Lemma quiet_ret {A} (a : A) : quiet (mret a).
Proof. intros s r s' [= <- <-]. done. Qed.
Lemma quiet_fail {A} msg : quiet (@fail A msg).
Proof. intros s r s' [= <- <-]. done. Qed.
Lemma quiet_abort {A} : quiet (@abort A).
Proof. intros s r s' [= <- <-]. done. Qed.
Lemma quiet_get : quiet get.
Proof. intros s r s' [= <- <-]. done. Qed.
Lemma quiet_modify f : (forall s, words (f s) = words s /\ thread_count (f s) = thread_count s) -> quiet (modify f).
Proof. intros H s r s' [= <- <-]. destruct (H s) as [-> ->]. done. Qed.
Lemma quiet_at_index {A} (l : list A) i : quiet (at_index l i).
Proof. unfold at_index. case_match; [apply quiet_ret|apply quiet_abort]. Qed.
Lemma quiet_check b msg : quiet (check b msg).
Proof. destruct b; [apply quiet_ret|apply quiet_fail]. Qed.
Lemma quiet_assert b : quiet (dr_assert b).
Proof. destruct b; [apply quiet_ret|apply quiet_abort]. Qed.

Lemma quiet_bind {A B} (m : conv A) (k : A -> conv B) : quiet m -> (forall a, quiet (k a)) -> quiet (m ≫= k).
Proof.
  intros Hm Hk s r s' E. unfold mbind, conv_bind in E. destruct (m s) as [r1 s1] eqn:E1.
  destruct (Hm _ _ _ E1) as (N1 & W1 & C1). destruct r1 as [a|msg| |]; try (injection E as <- <-; done).
  destruct (Hk _ _ _ _ E) as (N2 & W2 & C2). split; [done|]. split; [lia|congruence].
Qed.

(** The first part of a run and the rest. *)
Lemma bind_cases {A B} (m : conv A) (k : A -> conv B) s r s' : (m ≫= k) s = (r, s') ->
  exists r1 s1, m s = (r1, s1) /\
    match r1 with
    | Done a => k a s1 = (r, s')
    | Failed msg => r = Failed msg /\ s' = s1
    | Aborted => r = Aborted /\ s' = s1
    | Exhausted => r = Exhausted /\ s' = s1
    end.
Proof.
  unfold mbind, conv_bind. destruct (m s) as [r1 s1]. intros E. exists r1, s1. split; [done|]. destruct r1; [done|by injection E as <- <-..].
Qed.

#[export] Hint Resolve quiet_ret quiet_fail quiet_abort quiet_get quiet_at_index quiet_check quiet_assert : quiet.

(** One constructor of a program at a time. *)
Ltac quiet_step :=
  first
  [ solve [auto with quiet]
  | solve [apply quiet_modify; done]
  | apply quiet_bind; [|intros ?]
  | match goal with
    | |- quiet (let '(_, _) := ?p in _) => destruct p
    | |- quiet (if ?b then _ else _) => destruct b
    | |- quiet (match ?x with _ => _ end) => destruct x
    end ].
Ltac quiet_tac := repeat quiet_step.

Section Termination.
Context (decode : Z -> instr_t * Z) (modvec : list module_t).
Context (accepts : list trace_entry_t -> list trace_entry_t -> bool).

(** ** The thread files *)

(** What a read does to its file. *)
Lemma read_cases i count s r s' : read_from_thread_file i count s = (r, s') ->
  r <> Exhausted /\ thread_count s' = thread_count s /\ tidx s' = tidx s /\
  match r with
  | Done (Some es) => length es = count /\ (words s' + count = words s)%nat /\ is_Some (thread_files s' !! i)
  | _ => (words s' <= words s)%nat
  end.
Proof.
  intros E. unfold read_from_thread_file, at_index in E. run_in E.
  destruct (thread_files s !! i) as [f|] eqn:Ef; run_in E; [|by injection E as <- <-].
  set (n := Nat.min (length (pre_read f)) count) in E. set (f1 := with_pre_read f _) in E.
  assert (Hi : forall g, is_Some (<[i := g]> (thread_files s) !! i)).
  { intros g. rewrite list_lookup_insert_eq by (by eapply lookup_lt_Some). by eexists. }
  destruct (0 <? count - n)%nat eqn:Hc; run_in E.
  - apply Nat.ltb_lt in Hc. unfold stream_read in E. destruct (count - n <=? length (rest f1))%nat eqn:Hl; run_in E; injection E as <- <-; subst f1; cbn [rest with_pre_read] in Hl.
    + apply Nat.leb_le in Hl. split_and!; [done..| |by file_words_tac Ef|apply Hi].
      rewrite length_app, !length_take. lia.
    + split_and!; [done..|by file_words_tac Ef].
  - apply Nat.ltb_ge in Hc. injection E as <- <-. subst f1. split_and!; [done..| |by file_words_tac Ef|apply Hi].
    rewrite length_take. lia.
Qed.

Lemma quiet_read i count : quiet (read_from_thread_file i count).
Proof.
  intros s r s' E. destruct (read_cases _ _ _ _ _ E) as (H1 & H2 & _ & H4). split; [done|]. split; [|done].
  destruct r as [[es|]|msg| |]; try lia. all: done.
Qed.

Lemma quiet_get_next_entry : quiet get_next_entry.
Proof. unfold get_next_entry. apply quiet_bind; [apply quiet_get|]. intros s. apply quiet_bind; [apply quiet_read|]. intros r. quiet_tac. Qed.

#[local] Hint Resolve quiet_read quiet_get_next_entry : quiet.

Lemma quiet_at_eof i : quiet (thread_file_at_eof i).
Proof. unfold thread_file_at_eof. quiet_tac. Qed.

Lemma quiet_write_or_fail es : quiet (write_or_fail accepts es).
Proof. unfold write_or_fail, write. quiet_tac. Qed.

#[local] Hint Resolve quiet_at_eof quiet_write_or_fail : quiet.

Lemma quiet_append_delayed i : quiet (append_delayed_branch accepts i).
Proof.
  intros s r s' E. unfold append_delayed_branch, at_index in E. run_in E.
  destruct (thread_files s !! i) as [f|] eqn:Ef; run_in E; [|by injection E as <- <-].
  destruct (delayed_branch f) as [|e es]; run_in E; [by injection E as <- <-|].
  unfold write_or_fail, write in E. run_in E. destruct (accepts _ _); run_in E; injection E as <- <-; [|done].
  split_and!; [done|by file_words_tac Ef|done].
Qed.

Lemma quiet_write_delayed es : quiet (write_delayed_branches es).
Proof.
  intros s r s' E. unfold write_delayed_branches, at_index in E. run_in E.
  destruct (thread_files s !! tidx s) as [f|] eqn:Ef; run_in E; [|by injection E as <- <-].
  destruct (delayed_branch f); run_in E; injection E as <- <-; [|done].
  split_and!; [done|by file_words_tac Ef|done].
Qed.

#[local] Hint Resolve quiet_append_delayed quiet_write_delayed : quiet.

(** ** The entries of a block *)

Lemma quiet_get_instr_summary pc : quiet (get_instr_summary decode pc).
Proof. unfold get_instr_summary. quiet_tac. Qed.

Lemma quiet_fetch_type instr : quiet (fetch_type instr).
Proof. unfold fetch_type. quiet_tac. Qed.

(** Putting one word back. *)
Lemma unread_words s r s' : unread_last_entry s = (r, s') ->
  r <> Exhausted /\ (words s' <= S (words s))%nat /\ thread_count s' = thread_count s.
Proof using.
  intros E. unfold unread_last_entry, unread_from_thread_file, at_index in E. run_in E.
  destruct (thread_files s !! tidx s) as [f|] eqn:Ef; run_in E; injection E as <- <-; [|split_and!; [done|lia|done]].
  split_and!; [done| |done]. pose proof (words_of_insert (thread_files s) (tidx s) f (with_pre_read f (pre_read f ++ [last_entry s])) Ef) as Hw.
  cbv [file_words] in Hw. cbn [pre_read rest with_pre_read] in Hw. rewrite length_app in Hw. unfold words. cbn [thread_files with_files]. cbn in Hw. lia.
Qed.

Lemma next_words s r s' : get_next_entry s = (r, s') ->
  r <> Exhausted /\ thread_count s' = thread_count s /\
  match r with Done (Some _) => (S (words s') <= words s)%nat | _ => (words s' <= words s)%nat end.
Proof using.
  intros E. unfold get_next_entry in E. run_in E. destruct (read_from_thread_file (tidx s) 1 s) as [r1 s1] eqn:E1.
  destruct (read_cases _ _ _ _ _ E1) as (N & C & _ & W).
  destruct r1 as [[[|e es]|]|msg| |]; run_in E; injection E as <- <-; cbn [words thread_files with_last thread_count]; try done; try (split_and!; [done|done|lia]).
  destruct W as (W1 & W2 & _). split_and!; [done|done|]. change (words (with_last s1 e)) with (words s1). lia.
Qed.

(** [quiet] with one word more than before. *)
Definition loud {A} (m : conv A) : Prop :=
  forall s r s', m s = (r, s') -> r <> Exhausted /\ (words s' <= S (words s))%nat /\ thread_count s' = thread_count s.

Lemma loud_quiet {A} (m : conv A) : quiet m -> loud m.
Proof using. intros H s r s' E. destruct (H _ _ _ E) as (? & ? & ?). split_and!; [done|lia|done]. Qed.

Lemma loud_bind {A B} (m : conv A) (k : A -> conv B) : loud m -> (forall a, quiet (k a)) -> loud (m ≫= k).
Proof using.
  intros Hm Hk s r s' E. unfold mbind, conv_bind in E. destruct (m s) as [r1 s1] eqn:E1.
  destruct (Hm _ _ _ E1) as (N1 & W1 & C1). destruct r1 as [a|msg| |]; try (injection E as <- <-; done).
  destruct (Hk _ _ _ _ E) as (N2 & W2 & C2). split_and!; [done|lia|congruence].
Qed.

Lemma quiet_then_loud {A B} (m : conv A) (k : A -> conv B) : quiet m -> (forall a, loud (k a)) -> loud (m ≫= k).
Proof using.
  intros Hm Hk s r s' E. unfold mbind, conv_bind in E. destruct (m s) as [r1 s1] eqn:E1.
  destruct (Hm _ _ _ E1) as (N1 & W1 & C1). destruct r1 as [a|msg| |]; try (injection E as <- <-; split_and!; (done || lia)).
  destruct (Hk _ _ _ _ E) as (N2 & W2 & C2). split_and!; [done|lia|congruence].
Qed.

Lemma loud_unread {A} (a : A) : loud (_ ← unread_last_entry; mret a).
Proof using. apply loud_bind; [exact unread_words|]. intros _. apply quiet_ret. Qed.

(** Reading a word and putting it back, or not. *)
Lemma quiet_next {A} (k : option Z -> conv A) :
  (forall e, loud (k (Some e))) ->
  quiet (k None) -> quiet (o ← get_next_entry; k o).
Proof using.
  intros Hs Hn s r s' E. unfold mbind, conv_bind in E. destruct (get_next_entry s) as [r1 s1] eqn:E1.
  destruct (next_words _ _ _ E1) as (N & C & W). destruct r1 as [[e|]|msg| |]; try (injection E as <- <-; done).
  - destruct (Hs _ _ _ _ E) as (N2 & W2 & C2). split_and!; [done|lia|congruence].
  - destruct (Hn _ _ _ E) as (N2 & W2 & C2). split_and!; [done|lia|congruence].
Qed.

Lemma quiet_append_memref buf instr ref write : quiet (append_memref buf instr ref write).
Proof using.
  unfold append_memref, in_buffer. apply quiet_next; [|apply quiet_fail]. intros e.
  apply quiet_then_loud; [quiet_tac|]. intros [e1 kind]. case_match; [apply loud_unread|].
  apply loud_quiet. apply quiet_bind; [apply quiet_assert|]. intros _. case_match.
  apply quiet_next; [intros e2; apply loud_unread|apply quiet_ret].
Qed.

Lemma quiet_append_refs js buf instr write : quiet (append_refs js buf instr write).
Proof using.
  revert buf. induction js as [|j js IH]; intros buf; cbn [append_refs]; [apply quiet_ret|].
  apply quiet_bind; [apply quiet_at_index|]. intros ref. apply quiet_bind; [apply quiet_append_memref|]. intros [b i]. quiet_tac.
Qed.

#[local] Hint Resolve quiet_get_instr_summary quiet_fetch_type quiet_append_refs : quiet.

Lemma quiet_append_operands buf instr : quiet (append_operands buf instr).
Proof using. unfold append_operands. quiet_tac. Qed.

#[local] Hint Resolve quiet_append_operands : quiet.

Lemma quiet_bb_loop n m skip pc : quiet (bb_loop decode accepts n m skip pc).
Proof using. revert pc. induction n as [|n IH]; intros pc; cbn [bb_loop]; quiet_tac. Qed.

#[local] Hint Resolve quiet_bb_loop : quiet.

Lemma quiet_append_bb e : quiet (append_bb_entries decode modvec accepts e).
Proof using. unfold append_bb_entries. quiet_tac. Qed.

Lemma quiet_write_buffered buf : quiet (write_buffered accepts buf).
Proof using. unfold write_buffered. quiet_tac. Qed.

#[local] Hint Resolve quiet_append_bb quiet_write_buffered : quiet.

(** ** The loop *)

Definition FOOTER_ENTRY : Z := ext_entry OFFLINE_EXT_TYPE_FOOTER 0 0.

(** The end of a thread. *)
Lemma on_thread_end_counts s r s' : on_thread_end s = (r, s') ->
  r <> Exhausted /\ (words s' <= words s)%nat /\
  match r with Done _ => thread_count s' = u32 (thread_count s - 1) | _ => thread_count s' = thread_count s end.
Proof using.
  intros E. unfold on_thread_end in E. run_in E. destruct (read_from_thread_file (tidx s) 1 s) as [r1 s1] eqn:E1.
  destruct (quiet_read _ _ _ _ _ E1) as (N1 & W1 & C1).
  destruct r1 as [[es|]|msg| |]; run_in E; try (injection E as <- <-; split_and!; done).
  destruct (thread_file_at_eof (tidx s) s1) as [r2 s2] eqn:E2. destruct (quiet_at_eof _ _ _ _ E2) as (N2 & W2 & C2).
  destruct r2 as [[]|msg| |]; run_in E; injection E as <- <-; cbn [thread_count with_count]; split_and!;
    try done; try congruence; try lia. change (words (with_count s2 _)) with (words s2). lia.
Qed.

Lemma process_counts e tid h s r s' : process_offline_entry decode modvec accepts e tid h s = (r, s') ->
  r <> Exhausted /\ (words s' <= words s)%nat /\
  (thread_count s' = thread_count s \/ thread_count s' = u32 (thread_count s - 1)) /\
  (e = FOOTER_ENTRY -> forall a, r = Done a -> thread_count s' = u32 (thread_count s - 1)).
Proof using.
  intros E. unfold process_offline_entry in E.
  assert (Hq : forall m : conv (bool * bool), quiet m -> m s = (r, s') -> e <> FOOTER_ENTRY ->
     r <> Exhausted /\ (words s' <= words s)%nat /\ (thread_count s' = thread_count s \/ thread_count s' = u32 (thread_count s - 1)) /\
     (e = FOOTER_ENTRY -> forall a, r = Done a -> thread_count s' = u32 (thread_count s - 1))).
  { intros m Hm Em He. destruct (Hm _ _ _ Em) as (? & ? & ?). split_and!; try done. by left. }
  destruct (oe_type e =? OFFLINE_TYPE_EXTENDED) eqn:Ht.
  2:{ apply (Hq _) in E; [done| |by intros ->]. quiet_tac. }
  destruct (ext_ext e =? OFFLINE_EXT_TYPE_FOOTER) eqn:Hx.
  2:{ apply (Hq _) in E; [done| |by intros ->]. quiet_tac. }
  apply bind_cases in E as (r1 & s1 & E1 & E). destruct (quiet_check _ _ _ _ _ E1) as (N1 & W1 & C1).
  destruct r1 as [a1|msg| |]; try (destruct E as [-> ->]; split_and!; (done || (by left) || (by intros ?))).
  apply bind_cases in E as (r2 & s2 & E2 & E). destruct (quiet_write_or_fail _ _ _ _ E2) as (N2 & W2 & C2).
  destruct r2 as [a2|msg| |]; try (destruct E as [-> ->]; split_and!; (done || lia || (left; congruence) || (by intros ?))).
  apply bind_cases in E as (r3 & s3 & E3 & E). destruct (on_thread_end_counts _ _ _ E3) as (N3 & W3 & C3).
  destruct r3 as [a3|msg| |]; try (destruct E as [-> ->]; split_and!; (done || lia || (left; congruence) || (by intros ?))).
  injection E as <- <-. split_and!; [done|lia|right; congruence|intros _ ? _; congruence].
Qed.

Lemma quiet_next_time i th : quiet (next_time i th).
Proof using. unfold next_time. quiet_tac. Qed.

#[local] Hint Resolve quiet_next_time : quiet.

Lemma quiet_pick ths i min_time next : quiet (pick_thread ths i min_time next).
Proof using. revert i min_time next. induction ths as [|th ths IH]; intros i min_time next; cbn [pick_thread]; quiet_tac. Qed.

#[local] Hint Resolve quiet_pick : quiet.

Lemma quiet_start_segment ths : quiet (start_segment accepts ths).
Proof using. unfold start_segment. quiet_tac. Qed.

(** The next entry is a word of the file, or stands for the end of the thread. *)
Lemma next_in_segment_words s r s' : next_in_segment s = (r, s') ->
  r <> Exhausted /\ (words s' <= words s)%nat /\ thread_count s' = thread_count s /\
  (forall e, r = Done e -> (words s' < words s)%nat \/ e = FOOTER_ENTRY).
Proof using.
  intros E. unfold next_in_segment in E. apply bind_cases in E as (r0 & s0 & [= <- <-] & E).
  apply bind_cases in E as (r1 & s1 & E1 & E). destruct (read_cases _ _ _ _ _ E1) as (N & C & _ & W).
  destruct r1 as [o|msg| |]; try (destruct E as [-> ->]; split_and!; (done || by intros ?)).
  assert (Heof : (words s1 <= words s)%nat -> (eof ← thread_file_at_eof (tidx s);
      if (eof : bool) then mret (ext_entry OFFLINE_EXT_TYPE_FOOTER 0 0) else fail "Failed to read from file for thread") s1 = (r, s') ->
      r <> Exhausted /\ (words s' <= words s)%nat /\ thread_count s' = thread_count s /\
      (forall e, r = Done e -> (words s' < words s)%nat \/ e = FOOTER_ENTRY)).
  { intros W1 E3. apply bind_cases in E3 as (r2 & s2 & E2 & E3). destruct (quiet_at_eof _ _ _ _ E2) as (N2 & W2 & C2).
    destruct r2 as [[]|msg| |]; try (destruct E3 as [-> ->]; split_and!; (done || lia || congruence || by intros ?)).
    - injection E3 as <- <-. split_and!; [done|lia|congruence|]. intros e [= <-]. by right.
    - injection E3 as <- <-. split_and!; [done|lia|congruence|]. by intros e. }
  destruct o as [[|e es]|]; [apply Heof; [lia|exact E]| |apply Heof; [lia|exact E]].
  destruct W as (W1 & W2 & _). injection E as <- <-. cbn in W1. split_and!; [done|lia|done|]. intros e0 [= <-]. left. lia.
Qed.

(** The next part of the run [E], which [Q] says is quiet. *)
Ltac part E Q s' W C :=
  let r := fresh "r" in let E1 := fresh "E" in let N := fresh "N" in
  apply bind_cases in E as (r & s' & E1 & E); destruct (Q _ _ _ E1) as (N & W & C) || destruct (Q _ _ _ _ _ E1) as (N & W & C);
  destruct r; try (destruct E as [-> ->]; by split).

(** A turn of the loop. *)
Definition measure (s : raw2trace_t) : nat := (words s + Z.to_nat (thread_count s))%nat.

Lemma merge_step_measure ths h s r s' : 0 < thread_count s < w32 -> merge_step decode modvec accepts ths h s = (r, s') ->
  r <> Exhausted /\ (forall a, r = Done a -> (measure s' < measure s)%nat /\ 0 <= thread_count s' < w32).
Proof using.
  intros Hc E. unfold merge_step in E. apply bind_cases in E as (r0 & s0 & [= <- <-] & E).
  assert (Q1 : quiet (if (length (thread_files s) <=? tidx s)%nat then start_segment accepts ths else mret ths)).
  { destruct (_ <=? _)%nat; [apply quiet_start_segment|apply quiet_ret]. }
  part E Q1 s1 W1 C1. clear Q1. apply bind_cases in E as (r2 & s2 & E2 & E).
  destruct (next_in_segment_words _ _ _ E2) as (N2 & W2 & C2 & D2). destruct r2 as [e|msg| |]; try (destruct E as [-> ->]; by split).
  specialize (D2 e eq_refl). apply bind_cases in E as (r0 & s0 & [= <- <-] & E).
  part E (quiet_at_index (A:=thread_t)) s3 W3 C3. rename a0 into th.
  destruct (oe_type e =? OFFLINE_TYPE_TIMESTAMP) eqn:Ht.
  { run_in E. injection E as <- <-. split; [done|]. intros _ _. destruct D2 as [D2| ->]; [|done].
    unfold measure. cbn [thread_count with_tidx]. change (words (with_tidx s3 _)) with (words s3). split; [lia|]. rewrite C3, C2, C1. lia. }
  assert (Q4 : quiet (if negb (oe_type e =? OFFLINE_TYPE_EXTENDED) || negb (ext_ext e =? OFFLINE_EXT_TYPE_MARKER)
    then append_delayed_branch accepts (tidx s2) else mret tt)) by quiet_tac.
  part E Q4 s4 W4 C4. clear Q4. apply bind_cases in E as (r5 & s5 & E5 & E). destruct (process_counts _ _ _ _ _ _ E5) as (N5 & W5 & C5 & D5).
  destruct r5 as [[eor h']|msg| |]; try (destruct E as [-> ->]; by split).
  assert (Q6 : quiet (if eor then modify (fun s => with_tidx s (length (thread_files s))) else mret tt)) by quiet_tac.
  part E Q6 s6 W6 C6. clear Q6. injection E as <- <-. split; [done|]. intros _ _. specialize (fun H => D5 H _ eq_refl).
  assert (Hn : thread_count s4 = thread_count s) by congruence. assert (Hu : u32 (thread_count s - 1) = thread_count s - 1) by (apply u32_small; lia).
  rewrite Hn, Hu in C5. rewrite Hn, Hu in D5. unfold measure. rewrite C6. split; [|destruct C5 as [-> | ->]; lia].
  destruct D2 as [D2| ->]; [destruct C5 as [-> | ->]; lia|]. rewrite (D5 eq_refl). lia.
Qed.

Lemma merge_loop_ends fuel ths h s : 0 < thread_count s < w32 -> (measure s <= fuel)%nat ->
  (merge_loop decode modvec accepts fuel ths h s).1 <> Exhausted.
Proof using.
  revert ths h s. induction fuel as [|fuel IH]; intros ths h s Hc Hf.
  { unfold measure in Hf. lia. }
  cbn [merge_loop]. match goal with |- ?p.1 <> _ => destruct p as [r s'] eqn:E end. apply bind_cases in E as (r1 & s1 & E1 & E).
  destruct (merge_step_measure _ _ _ _ _ Hc E1) as [N1 D1]. destruct r1 as [[ths1 h1]|msg| |]; try (by destruct E as [-> ->]).
  destruct (D1 _ eq_refl) as [M1 C1]. apply bind_cases in E as (r0 & s0 & [= <- <-] & E).
  destruct (0 <? thread_count s1) eqn:Hp; [|by injection E as <- <-].
  rewrite <- E. apply IH; lia.
Qed.

Lemma quiet_read_headers n : quiet (read_headers n).
Proof using.
  induction n as [|n IH]; cbn [read_headers]; [apply quiet_ret|]. apply quiet_bind; [|intros th; quiet_tac].
  unfold read_header, next_or_fail. quiet_tac.
Qed.

(** C14. The conversion of raw traces ends, whatever the thread files hold: each
    turn of the merge takes a word of a file or ends a thread, so that as many
    turns as there are words and files are enough. *)
Theorem conversion_ends (files : list thread_file_t) (fuel : nat) :
  Z.of_nat (length files) < w32 -> (words_of files + length files <= fuel)%nat ->
  (do_conversion decode modvec accepts fuel (new_raw2trace files)).1 <> Exhausted.
Proof using.
  intros Hl Hf. destruct (do_conversion _ _ _ _ _) as [r s'] eqn:E. cbn. unfold do_conversion in E.
  assert (Qw : forall es, quiet (write accepts es)) by (intros es; unfold write; quiet_tac).
  apply bind_cases in E as (r1 & s1 & E1 & E). destruct (Qw _ _ _ _ E1) as (N1 & W1 & C1). cbn in C1.
  assert (F1 : thread_files s1 = files).
  { unfold write in E1. run_in E1. destruct (accepts _ _); by injection E1 as <- <-. }
  destruct r1 as [ok|msg| |]; try (by destruct E as [-> ->]).
  apply bind_cases in E as (r2 & s2 & E2 & E).
  assert (r2 <> Exhausted /\ (forall a, r2 = Done a -> s2 = s1)) as [N2 S2].
  { destruct ok; by injection E2 as <- <-. }
  destruct r2 as [u|msg| |]; try (by destruct E as [-> ->]). rewrite (S2 u eq_refl) in E. clear S2.
  apply bind_cases in E as (r3 & s3 & E3 & E).
  assert (r3 <> Exhausted) as N3.
  { unfold merge_and_process_thread_files in E3. apply bind_cases in E3 as (r0 & s0 & [= <- <-] & E3).
    rewrite F1 in E3. destruct files as [|f files]; [by injection E3 as <- <-|].
    apply bind_cases in E3 as (r0 & s0 & [= <- <-] & E3). apply bind_cases in E3 as (r0 & s0 & [= <- <-] & E3).
    apply bind_cases in E3 as (r0 & s0 & [= <- <-] & E3). apply bind_cases in E3 as (r4 & s4 & E4 & E3).
    destruct (quiet_read_headers _ _ _ _ E4) as (N4 & W4 & C4). destruct r4 as [ths|msg| |]; try (by destruct E3 as [-> ->]).
    cbn [thread_count with_tidx with_count] in C4. change (words (with_tidx _ _)) with (words s1) in W4.
    change (words (new_raw2trace _)) with (words_of (f :: files)) in W1.
    change r3 with (r3, s3).1. rewrite <- E3. apply merge_loop_ends.
    - rewrite C4. cbn [length] in Hl |- *. lia.
    - unfold measure. rewrite C4. cbn [length] in *. lia. }
  destruct r3 as [u3|msg| |]; try (by destruct E as [-> ->]).
  assert (Q5 : quiet (ok ← write accepts [{| te_type := TRACE_TYPE_FOOTER; te_size := 0; te_addr := 0 |}];
    check ok "Failed to write footer to output file")) by quiet_tac.
  by destruct (Q5 _ _ _ E).
Qed.
End Termination.

(** Two files that are not captures: one ends inside a block, the other in the
    middle of its header. *)
Definition broken_files : list thread_file_t :=
  [open_file (Offline.append_tid 5 ++ Offline.append_pid 4 ++ [addr_entry OFFLINE_TYPE_TIMESTAMP 100; pc_entry 0 1 1]);
   open_file (Offline.append_tid 6)].

Lemma conversion_ends_witness :
  (do_conversion example_image example_modules (fun _ _ => true) 8 (new_raw2trace broken_files)).1 <> Exhausted.
Proof. apply (conversion_ends example_image example_modules (fun _ _ => true) broken_files 8); vm_compute; [done|]. lia. Defined.
