(* ===== verification/Raw2TraceView.v ===== *)
(** * What the converter sees

    A view of the converter's state without what does not matter to its
    result: how a file's words are split between the stream and the buffer of
    words put back, which instructions the cache holds, and the last entry
    read.  The lemmas say what each operation does to a view. *)
From S2P Require Export Raw2Trace.

Record vfile := VF { vf_words : list Z; vf_end : bool; vf_delayed : list trace_entry_t }.
Record view := V { v_files : list vfile; v_out : list trace_entry_t; v_tidx : nat; v_count : Z; v_rep : bool }.

Definition file_view (f : thread_file_t) : vfile :=
  {| vf_words := pre_read f ++ rest f; vf_end := at_end f; vf_delayed := delayed_branch f |}.
Definition file_ok (f : thread_file_t) : Prop := (length (pre_read f) <= 1)%nat /\ broken f = false.

Section View.
Context (decode : Z -> instr_t * Z) (accepts : list trace_entry_t -> list trace_entry_t -> bool).

Definition cache_ok (c : gmap Z instr_summary_t) : Prop := forall pc d, c !! pc = Some d -> construct decode pc = Some d.

Record sees (s : raw2trace_t) (v : view) : Prop := {
  se_files : file_view <$> thread_files s = v_files v;
  se_ok : Forall file_ok (thread_files s);
  se_out : out_file s = v_out v;
  se_tidx : tidx s = v_tidx v;
  se_count : thread_count s = v_count v;
  se_rep : prev_instr_was_rep_string s = v_rep v;
  se_separate : instrs_are_separate s = false;
  se_cache : cache_ok (decode_cache s)
}.

(** From every state with the view [v] the program has the result [a] and
    leaves the view [v']. *)
Definition does {A} (m : conv A) (v : view) (a : A) (v' : view) : Prop :=
  forall s, sees s v -> exists s', m s = (Done a, s') /\ sees s' v'.

(** The same after the word [e] has been read from the current file. *)
Definition after_read {A} (e : Z) (m : conv A) (v : view) (a : A) (v' : view) : Prop :=
  forall s f, sees s v -> last_entry s = e -> thread_files s !! v_tidx v = Some f -> pre_read f = [] ->
    exists s', m s = (Done a, s') /\ sees s' v'.

Create HintDb does.

Lemma does_ret {A} (a : A) v : does (mret a) v a v.
Proof. intros s Hs. by exists s. Qed.

Lemma does_bind {A B} (m : conv A) (k : A -> conv B) v a v1 b v2 : does m v a v1 -> does (k a) v1 b v2 -> does (m ≫= k) v b v2.
Proof.
  intros Hm Hk s Hs. destruct (Hm s Hs) as (s1 & E1 & H1). destruct (Hk s1 H1) as (s2 & E2 & H2).
  exists s2. split; [|done]. unfold mbind, conv_bind. by rewrite E1.
Qed.

Lemma does_get {B} (k : raw2trace_t -> conv B) v b v' : (forall s, sees s v -> does (k s) v b v') -> does (get ≫= k) v b v'.
Proof. intros H s Hs. exact (H s Hs s Hs). Qed.

Lemma does_check b msg v : b = true -> does (check b msg) v tt v.
Proof. intros ->. apply does_ret. Qed.
Lemma does_assert b v : b = true -> does (dr_assert b) v tt v.
Proof. intros ->. apply does_ret. Qed.
Lemma does_at_index {A} (l : list A) i a v : l !! i = Some a -> does (at_index l i) v a v.
Proof. intros E. unfold at_index. rewrite E. apply does_ret. Qed.

Lemma does_after {A} (m : conv A) e v a v' : does m v a v' -> after_read e m v a v'.
Proof. intros H s f Hs _ _ _. exact (H s Hs). Qed.

Lemma after_ret_bind {A B} (x : A) (k : A -> conv B) e v b v' : after_read e (k x) v b v' -> after_read e (mret x ≫= k) v b v'.
Proof. done. Qed.

Lemma does_tidx files out i c r j : does (modify (fun s => with_tidx s j)) (V files out i c r) tt (V files out j c r).
Proof. intros s []. eexists. split; [reflexivity|]. by constructor. Qed.
Lemma does_next_tidx files out i c r : does (modify (fun s => with_tidx s (S (tidx s)))) (V files out i c r) tt (V files out (S i) c r).
Proof. intros s []. eexists. split; [reflexivity|]. constructor; cbn in *; try done. congruence. Qed.
Lemma does_count files out i c r n : does (modify (fun s => with_count s n)) (V files out i c r) tt (V files out i n r).
Proof. intros s []. eexists. split; [reflexivity|]. by constructor. Qed.
Lemma does_rep files out i c r b : does (modify (fun s => with_rep s b)) (V files out i c r) tt (V files out i c b).
Proof. intros s []. eexists. split; [reflexivity|]. by constructor. Qed.

(** ** Files *)

Lemma sees_length s v : sees s v -> length (thread_files s) = length (v_files v).
Proof. intros H. rewrite <- (se_files _ _ H). by rewrite length_fmap. Qed.

Lemma sees_file s v i vf : sees s v -> v_files v !! i = Some vf ->
  exists f, thread_files s !! i = Some f /\ file_view f = vf /\ file_ok f.
Proof.
  intros H E. rewrite <- (se_files _ _ H), list_lookup_fmap in E. destruct (thread_files s !! i) as [f|] eqn:Ef; [|done].
  injection E as <-. exists f. split_and!; try done; apply (Forall_lookup_1 _ _ _ _ (se_ok _ _ H) Ef).
Qed.

(** An update of one file. *)
Lemma sees_update s files out t c r i f vf : sees s (V files out t c r) -> file_view f = vf -> file_ok f ->
  sees (with_files s (<[i := f]> (thread_files s))) (V (<[i := vf]> files) out t c r).
Proof.
  intros [H1 H2 H3 H4 H5 H6 H7 H8] Hv Hf. constructor; cbn in *; try done.
  - rewrite list_fmap_insert, H1, Hv. done.
  - by apply Forall_insert.
Qed.

Lemma read_word files out t c r i e ws en d s : files !! i = Some (VF (e :: ws) en d) -> sees s (V files out t c r) ->
  exists s' f, read_from_thread_file i 1 s = (Done (Some [e]), s') /\ sees s' (V (<[i := VF ws en d]> files) out t c r) /\
    thread_files s' !! i = Some f /\ pre_read f = [].
Proof.
  intros E Hs. destruct (sees_file _ _ _ _ Hs E) as (f & Ef & Hv & Hl & Hb). pose proof (lookup_lt_Some _ _ _ Ef) as Hi.
  unfold read_from_thread_file, at_index, mbind, conv_bind, get. rewrite Ef. cbn [mret conv_ret].
  injection Hv as Hw <- <-. destruct (pre_read f) as [|e0 p] eqn:Hp; cbn in Hl, Hw.
  - unfold stream_read. cbn. rewrite Hw. cbn. eexists _, _. split; [reflexivity|]. split; [|split].
    + apply sees_update; [done| |]; unfold file_view, file_ok; cbn; [done|]. split; [lia|done].
    + cbn. by rewrite list_lookup_insert_eq by done.
    + done.
  - destruct p; [|cbn in Hl; lia]. injection Hw as -> Hw. cbn. eexists _, _. split; [reflexivity|]. split; [|split].
    + apply sees_update; [done| |]; [unfold file_view; cbn; by rewrite Hw|split; [cbn; lia|done]].
    + cbn. by rewrite list_lookup_insert_eq by done.
    + done.
Qed.

Lemma does_read files out t c r i e ws en d : files !! i = Some (VF (e :: ws) en d) ->
  does (read_from_thread_file i 1) (V files out t c r) (Some [e]) (V (<[i := VF ws en d]> files) out t c r).
Proof. intros E s Hs. destruct (read_word _ _ _ _ _ _ _ _ _ _ s E Hs) as (s' & f & -> & H & _). by exists s'. Qed.

Lemma does_read_end files out t c r i en d : files !! i = Some (VF [] en d) ->
  does (read_from_thread_file i 1) (V files out t c r) None (V (<[i := VF [] true d]> files) out t c r).
Proof.
  intros E s Hs. destruct (sees_file _ _ _ _ Hs E) as (f & Ef & Hv & Hl & Hb). injection Hv as Hw <- <-.
  apply app_eq_nil in Hw as [Hp Hr]. unfold read_from_thread_file, at_index, mbind, conv_bind, get. rewrite Ef. cbn [mret conv_ret].
  rewrite Hp. unfold stream_read. cbn. rewrite Hr. cbn. eexists. split; [reflexivity|]. apply sees_update; [done| |].
  - unfold file_view. cbn. by rewrite Hb, orb_true_r.
  - split; [cbn; lia|done].
Qed.

Lemma does_at_eof files out t c r i ws en d : files !! i = Some (VF ws en d) -> (en = true -> ws = []) ->
  does (thread_file_at_eof i) (V files out t c r) en (V files out t c r).
Proof.
  intros E Hen s Hs. destruct (sees_file _ _ _ _ Hs E) as (f & Ef & Hv & _). exists s. split; [|done].
  unfold thread_file_at_eof, at_index, mbind, conv_bind, get. rewrite Ef. cbn. injection Hv as Hw <- <-.
  destruct (pre_read f); [done|]. destruct (at_end f); [|done]. specialize (Hen eq_refl). by subst ws.
Qed.

Lemma does_next {A} (k : option Z -> conv A) files out t c r e ws en d a v' : files !! t = Some (VF (e :: ws) en d) ->
  after_read e (k (Some e)) (V (<[t := VF ws en d]> files) out t c r) a v' ->
  does (get_next_entry ≫= k) (V files out t c r) a v'.
Proof.
  intros E Hk s Hs. destruct (read_word _ _ _ _ _ _ _ _ _ _ s E Hs) as (s1 & f & E1 & H1 & Ef & Hp).
  destruct (Hk (with_last s1 e) f) as (s' & E2 & H2); try done.
  { destruct H1. by constructor. }
  exists s'. split; [|done]. unfold get_next_entry, mbind, conv_bind, get. cbv beta iota. rewrite (se_tidx _ _ Hs). cbn [v_tidx].
  by rewrite E1.
Qed.

Lemma after_unread {A} (k : unit -> conv A) files out t c r e ws en d a v' : files !! t = Some (VF ws en d) ->
  does (k tt) (V (<[t := VF (e :: ws) en d]> files) out t c r) a v' ->
  after_read e (unread_last_entry ≫= k) (V files out t c r) a v'.
Proof.
  intros E Hk s f Hs He Ef Hp. destruct (sees_file _ _ _ _ Hs E) as (f' & Ef' & Hv & Hl & Hb). cbn in Ef.
  replace f' with f in * by congruence. injection Hv as Hw <- <-. rewrite Hp in Hw. cbn in Hw. subst ws.
  destruct (Hk (with_files s (<[t := with_pre_read f [e]]> (thread_files s)))) as (s' & E' & H').
  { apply sees_update; [done|done|]. split; [cbn; lia|done]. }
  exists s'. split; [|done]. unfold unread_last_entry, unread_from_thread_file, at_index, mbind, conv_bind, get. cbv beta iota.
  rewrite (se_tidx _ _ Hs). cbn [v_tidx]. rewrite Ef. cbn [mret conv_ret]. rewrite Hp, He. exact E'.
Qed.

(** ** Output *)

Hypothesis accepts_all : forall out es, accepts out es = true.

Lemma does_write files out t c r es : does (write accepts es) (V files out t c r) true (V files (out ++ es) t c r).
Proof using accepts_all.
  intros s []. unfold write, mbind, conv_bind, get. cbv beta iota. rewrite accepts_all. eexists. split; [reflexivity|].
  constructor; cbn in *; try done. congruence.
Qed.

Lemma does_write_or_fail files out t c r es : does (write_or_fail accepts es) (V files out t c r) tt (V files (out ++ es) t c r).
Proof using accepts_all. unfold write_or_fail. eapply does_bind; [apply does_write|]. apply does_ret. Qed.

Lemma does_append_delayed files out t c r i ws en d : files !! i = Some (VF ws en d) ->
  does (append_delayed_branch accepts i) (V files out t c r) tt (V (<[i := VF ws en []]> files) (out ++ d) t c r).
Proof using accepts_all.
  intros E s Hs. destruct (sees_file _ _ _ _ Hs E) as (f & Ef & Hv & Hf). injection Hv as Hw <- <-.
  unfold append_delayed_branch, at_index, mbind, conv_bind, get. cbv beta iota. rewrite Ef. cbn [mret conv_ret].
  destruct (delayed_branch f) as [|e0 d] eqn:Hd.
  - exists s. split; [done|]. rewrite app_nil_r. rewrite list_insert_id; done.
  - destruct (does_write_or_fail files out t c r (e0 :: d) s Hs) as (s1 & -> & H1).
    eexists. split; [reflexivity|]. apply sees_update; [exact H1| |exact Hf]. unfold file_view. cbn. by rewrite Hw.
Qed.

Lemma does_write_delayed files out t c r es ws en : files !! t = Some (VF ws en []) ->
  does (write_delayed_branches es) (V files out t c r) tt (V (<[t := VF ws en es]> files) out t c r).
Proof using.
  intros E s Hs. destruct (sees_file _ _ _ _ Hs E) as (f & Ef & Hv & Hf). injection Hv as Hw <- Hd.
  unfold write_delayed_branches, at_index, mbind, conv_bind, get. cbv beta iota. rewrite (se_tidx _ _ Hs). cbn [v_tidx]. rewrite Ef.
  cbn [mret conv_ret]. rewrite Hd. eexists. split; [reflexivity|]. apply sees_update; [exact Hs| |exact Hf]. unfold file_view. cbn. by rewrite Hw.
Qed.

Lemma does_thread_end files out t c r en d : files !! t = Some (VF [] en d) -> 0 < c < w32 ->
  does on_thread_end (V files out t c r) tt (V (<[t := VF [] true d]> files) out t (c - 1) r).
Proof using.
  intros E Hc. unfold on_thread_end. apply does_get. intros s Hs. rewrite (se_tidx _ _ Hs). cbn [v_tidx].
  eapply does_bind; [by eapply does_read_end|]. cbv beta iota.
  eapply does_bind. { apply (does_at_eof _ _ _ _ _ t [] true d); [|done]. apply list_lookup_insert_eq. by eapply lookup_lt_Some. }
  cbv beta iota. intros s1 H1. eexists. split; [reflexivity|]. rewrite (se_count _ _ H1). cbn [v_count]. rewrite u32_small by lia.
  destruct H1. by constructor.
Qed.
End View.
