(* ===== verification/Raw2TraceBlock.v ===== *)
(** * A block of the trace

    What a basic block becomes: an entry for each instruction, behind it the
    references the thread recorded, in the order of the operands, the branch at
    its end kept back.  The second half shows that the converter's loop writes
    this. *)
From S2P Require Export Raw2TraceView.

(** ** The specification *)

(** The operands with a reference each; the stores are the ones marked. *)
Definition operands (d : instr_summary_t) : list (opnd_t * bool) :=
  if reads_memory d || writes_memory d
  then map (fun o => (o, false)) (take (num_mem_srcs d) (mem_srcs_and_dests_ d)) ++
       map (fun o => (o, true)) (drop (num_mem_srcs d) (mem_srcs_and_dests_ d))
  else [].

Definition ref_entry (d : instr_summary_t) (o : opnd_t * bool) (word : Z) : trace_entry_t :=
  let '(t, n) := memref_kind d o.1 o.2 in {| te_type := t; te_size := n; te_addr := memref_addr o.1 word |}.

(** The type of a fetch after an instruction that was, or was not, a rep string
    instruction, and whether this one is. *)
Definition fetch (rep : bool) (d : instr_summary_t) : Z * bool :=
  if type_ d =? TRACE_TYPE_INSTR_MAYBE_FETCH then (if rep then TRACE_TYPE_INSTR_NO_FETCH else TRACE_TYPE_INSTR, true)
  else (type_ d, false).

Definition nonempty {A} (l : list A) : bool := match l with [] => false | _ => true end.

(** A fault ends the block behind the last reference. *)
Definition interrupted (fault : bool) (n : nat) (refs : list Z) : bool :=
  fault && (0 <? n)%nat && nonempty refs && negb (nonempty (drop n refs)).

(** The instructions of a block: whether each is a branch, and its entries. *)
Fixpoint block_out (m : module_t) (fault rep : bool) (instrs : list (Z * instr_summary_t)) (refs : list Z)
    : list (bool * list trace_entry_t) * bool :=
  match instrs with
  | [] => ([], rep)
  | (pc, d) :: instrs =>
      let '(t, rep) := fetch rep d in
      let ops := operands d in
      let es := {| te_type := t; te_size := length_ d; te_addr := u64 (pc - map_base m + orig_base m) |} :: zip_with (ref_entry d) ops refs in
      if interrupted fault (length ops) refs then ([(is_cti d, es)], rep)
      else let '(os, rep) := block_out m fault rep instrs (drop (length ops) refs) in ((is_cti d, es) :: os, rep)
  end.

(** What is written at once, and the branch that is kept back. *)
Definition written (os : list (bool * list trace_entry_t)) : list trace_entry_t :=
  concat (map snd (List.filter (fun o => negb o.1) os)).
Definition kept (os : list (bool * list trace_entry_t)) : list trace_entry_t :=
  concat (map snd (List.filter (fun o => o.1) os)).

(** The instructions at [pc]. *)
Fixpoint instrs_at (decode : Z -> instr_t * Z) (n : nat) (pc : Z) : option (list (Z * instr_summary_t)) :=
  match n with
  | O => Some []
  | S n => d ← construct decode pc; l ← instrs_at decode n (next_pc_ d); Some ((pc, d) :: l)
  end.

Definition num_refs (instrs : list (Z * instr_summary_t)) : nat := sum_list_with (fun i => length (operands i.2)) instrs.

(** Instructions that can be one block: only the last is a branch, and each has
    room in the buffer. *)
Fixpoint is_block (instrs : list (Z * instr_summary_t)) : bool :=
  match instrs with
  | [] => true
  | (_, d) :: instrs => (negb (is_cti d) || negb (nonempty instrs)) && (Z.of_nat (length (operands d)) <? 63) && is_block instrs
  end.

(** ** The loop writes it *)

(** A word that is not a reference, or the type of one. *)
Definition not_ref (e : Z) : Prop :=
  is_memref e = false /\ ((oe_type e =? OFFLINE_TYPE_EXTENDED) && (ext_ext e =? OFFLINE_EXT_TYPE_MEMINFO)) = false.

Lemma is_memref_types e : is_memref e = true ->
  ((oe_type e =? OFFLINE_TYPE_EXTENDED) && (ext_ext e =? OFFLINE_EXT_TYPE_MEMINFO)) = false /\
  (negb (oe_type e =? OFFLINE_TYPE_MEMREF) && negb (oe_type e =? OFFLINE_TYPE_MEMREF_HIGH)) = false.
Proof.
  unfold is_memref. intros H. assert (oe_type e = 0 \/ oe_type e = 7) as [-> | ->].
  { apply orb_prop in H as [H|H]; apply Z.eqb_eq in H; auto. }
  all: done.
Qed.

Section Block.
Context (decode : Z -> instr_t * Z) (accepts : list trace_entry_t -> list trace_entry_t -> bool).
Hypothesis accepts_all : forall out es, accepts out es = true.
Abbreviation does := (does decode).
Abbreviation after_read := (after_read decode).

Lemma does_in_buffer buf v : Z.of_nat (length buf) < WRITE_BUFFER_SIZE -> does (in_buffer buf) v tt v.
Proof using. intros H. apply does_assert. by apply Z.ltb_lt. Qed.

Lemma update_twice {A} (l : list A) i a b : <[i := b]> (<[i := a]> l) = <[i := b]> l.
Proof using. apply list_insert_insert_eq. Qed.

(** A reference was recorded for the operand. *)
Lemma append_ref files out t c r e e2 ws d buf instr o : is_memref e = true -> Z.of_nat (length buf) < WRITE_BUFFER_SIZE ->
  files !! t = Some (VF (e :: e2 :: ws) false d) ->
  does (append_memref buf instr o.1 o.2) (V files out t c r) (buf ++ [ref_entry instr o e], is_kernel_event e2)
       (V (<[t := VF (e2 :: ws) false d]> files) out t c r).
Proof using.
  intros He Hb E. pose proof (lookup_lt_Some _ _ _ E) as Ht. destruct (is_memref_types e He) as [H1 H2].
  unfold append_memref. eapply does_next; [done|]. cbv beta iota. rewrite H1. cbn [mbind]. apply after_ret_bind. cbv beta iota.
  rewrite H2. apply does_after. eapply does_bind; [by apply does_in_buffer|]. unfold ref_entry. destruct (memref_kind instr o.1 o.2) as [ty n].
  eapply does_next; [by apply list_lookup_insert_eq|]. cbv beta iota. eapply after_unread; [rewrite update_twice; by apply list_lookup_insert_eq|].
  rewrite !update_twice. apply does_ret.
Qed.

(** None was. *)
Lemma skip_ref files out t c r e ws d buf instr ref w : not_ref e -> files !! t = Some (VF (e :: ws) false d) ->
  does (append_memref buf instr ref w) (V files out t c r) (buf, false) (V files out t c r).
Proof using.
  intros [He1 He2] E. pose proof (lookup_lt_Some _ _ _ E) as Ht. unfold append_memref. eapply does_next; [done|]. cbv beta iota. rewrite He2.
  apply after_ret_bind. cbv beta iota. rewrite <- negb_orb. change (_ || _) with (is_memref e). rewrite He1. cbn [negb].
  eapply after_unread; [by apply list_lookup_insert_eq|]. rewrite update_twice, (list_insert_id _ _ _ E). apply does_ret.
Qed.

Lemma skip_refs files out t c r e ws d buf instr js os w : not_ref e -> files !! t = Some (VF (e :: ws) false d) ->
  Forall2 (fun j o => mem_srcs_and_dests_ instr !! j = Some o) js os ->
  does (append_refs js buf instr w) (V files out t c r) (buf, false) (V files out t c r).
Proof using.
  intros He E H. induction H as [|j o js os Hj _ IH]; cbn [append_refs]; [apply does_ret|].
  eapply does_bind; [by apply does_at_index|]. eapply does_bind; [by eapply skip_ref|]. exact IH.
Qed.

Lemma append_refs_spec files out t c r refs e ws d buf instr js os w : Forall (fun x => is_memref x = true) refs -> not_ref e ->
  Z.of_nat (length buf + length os) < WRITE_BUFFER_SIZE -> files !! t = Some (VF (refs ++ e :: ws) false d) ->
  Forall2 (fun j o => mem_srcs_and_dests_ instr !! j = Some o) js os ->
  does (append_refs js buf instr w) (V files out t c r)
    (buf ++ zip_with (ref_entry instr) (map (fun o => (o, w)) os) refs, interrupted (is_kernel_event e) (length os) refs)
    (V (<[t := VF (drop (length os) refs ++ e :: ws) false d]> files) out t c r).
Proof using.
  intros Hr He Hb E H. revert files refs buf Hr Hb E. induction H as [|j o js os Hj Hjs IH]; intros files refs buf Hr Hb E.
  { unfold interrupted. rewrite andb_false_r. cbn [append_refs map zip_with length drop]. rewrite app_nil_r. rewrite drop_0, (list_insert_id _ _ _ E). apply does_ret. }
  destruct refs as [|x refs].
  { unfold interrupted. cbn [nonempty]. rewrite andb_false_r, drop_nil, zip_with_nil_r, app_nil_r, (list_insert_id _ _ _ E).
    apply (skip_refs _ _ _ _ _ _ _ _ _ _ _ (o :: os) _ He E). by constructor. }
  apply Forall_cons in Hr as [Hx Hr]. pose proof (lookup_lt_Some _ _ _ E) as Ht. cbn [append_refs map zip_with length drop] in Hb |- *.
  eapply does_bind; [by apply does_at_index|].
  destruct (refs ++ e :: ws) as [|e2 ws2] eqn:E2; [by destruct refs|].
  eapply does_bind. { apply (append_ref files out t c r x e2 ws2 d buf instr (o, w)); [done|lia|]. cbn in E. by rewrite E, E2. }
  cbv beta iota. destruct (is_kernel_event e2) eqn:Ek.
  - destruct refs as [|x2 refs].
    + injection E2 as <- <-. rewrite drop_nil. unfold interrupted. rewrite Ek. cbn. rewrite drop_nil. cbn. rewrite zip_with_nil_r. apply does_ret.
    + exfalso. injection E2 as <- _. apply Forall_cons in Hr as [Hx2 _]. unfold is_kernel_event in Ek. destruct (is_memref_types _ Hx2) as [_ H].
      destruct (oe_type x2 =? OFFLINE_TYPE_EXTENDED) eqn:Ht2; [|done]. apply Z.eqb_eq in Ht2. unfold is_memref in Hx2. rewrite Ht2 in Hx2. done.
  - assert (Hi : interrupted (is_kernel_event e) (S (length os)) (x :: refs) = interrupted (is_kernel_event e) (length os) refs).
    { unfold interrupted. cbn. destruct refs as [|x2 refs]; cbn.
      - injection E2 as <- <-. by rewrite Ek.
      - destruct (is_kernel_event e), os; done. }
    cbn [length]. rewrite Hi. rewrite <- E2.
    rewrite (cons_middle (ref_entry instr (o, w) x) buf (zip_with (ref_entry instr) (map (fun o => (o, w)) os) refs)), app_assoc.
    specialize (IH (<[t := VF (refs ++ e :: ws) false d]> files) refs (buf ++ [ref_entry instr (o, w) x]) Hr).
    rewrite update_twice in IH. apply IH; [rewrite length_app; cbn [length]; lia|by apply list_lookup_insert_eq].
Qed.

(** The operands of an instruction, first the sources, then the destinations. *)
Lemma operand_places (l : list opnd_t) i n : Forall2 (fun j o => l !! j = Some o) (seq i (Nat.min n (length l - i))) (take n (drop i l)).
Proof using.
  clear. revert i. induction n as [|n IH]; intros i; [constructor|].
  destruct (l !! i) as [o|] eqn:E.
  - pose proof (lookup_lt_Some _ _ _ E) as Hi. rewrite (drop_S _ _ _ E). cbn [take].
    replace (Nat.min (S n) (length l - i)) with (S (Nat.min n (length l - S i))) by lia. constructor; [done|apply IH].
  - apply lookup_ge_None_1 in E. rewrite drop_ge by done. replace (length l - i)%nat with 0%nat by lia. rewrite Nat.min_0_r. constructor.
Qed.

Lemma interrupted_app fault n1 n2 refs : interrupted fault (n1 + n2) refs = interrupted fault n1 refs || interrupted fault n2 (drop n1 refs).
Proof using.
  clear. unfold interrupted. destruct fault; [|done]. rewrite drop_drop. destruct n1 as [|n1].
  { by cbn [Nat.add drop Nat.ltb andb orb]. }
  destruct refs as [|x refs]; [by rewrite !drop_nil, !andb_false_r|]. destruct n2 as [|n2].
  { rewrite Nat.add_0_r. cbn. by rewrite orb_false_r. }
  cbn [Nat.add nonempty]. replace (0 <? S (n1 + S n2))%nat with true by done. replace (0 <? S n1)%nat with true by done. cbn [andb].
  destruct (drop (S n1) (x :: refs)) eqn:E1; [|done].
  apply (f_equal (drop (S n2))) in E1. rewrite drop_drop, drop_nil in E1. cbn in E1 |- *. by rewrite E1.
Qed.

Lemma zip_refs_app instr (a b : list (opnd_t * bool)) refs :
  zip_with (ref_entry instr) (a ++ b) refs = zip_with (ref_entry instr) a refs ++ zip_with (ref_entry instr) b (drop (length a) refs).
Proof using. clear. revert refs. induction a as [|o a IH]; intros [|x refs]; cbn; rewrite ?drop_nil, ?zip_with_nil_r; [done..|]. by rewrite IH. Qed.

Lemma append_operands_spec files out t c r refs e ws d buf instr : Forall (fun x => is_memref x = true) refs -> not_ref e ->
  reads_memory instr || writes_memory instr = true ->
  (num_mem_srcs instr <= length (mem_srcs_and_dests_ instr))%nat ->
  Z.of_nat (length buf + length (operands instr)) < WRITE_BUFFER_SIZE -> files !! t = Some (VF (refs ++ e :: ws) false d) ->
  does (append_operands buf instr) (V files out t c r)
    (buf ++ zip_with (ref_entry instr) (operands instr) refs, interrupted (is_kernel_event e) (length (operands instr)) refs)
    (V (<[t := VF (drop (length (operands instr)) refs ++ e :: ws) false d]> files) out t c r).
Proof using.
  intros Hr He Hm Hn Hb E. pose proof (lookup_lt_Some _ _ _ E) as Ht. unfold operands in *. rewrite Hm in *.
  set (l := mem_srcs_and_dests_ instr) in *. set (n := num_mem_srcs instr) in *.
  rewrite length_app, !length_map in Hb |- *. rewrite zip_refs_app, interrupted_app, length_map, app_assoc.
  pose proof (operand_places l 0 n) as Hs. rewrite drop_0, Nat.sub_0_r, Nat.min_l in Hs by done.
  pose proof (operand_places l n (length l - n)) as Hd. rewrite Nat.min_id in Hd.
  rewrite (take_ge (drop n l)) in Hd by (rewrite length_drop; lia).
  unfold append_operands. eapply does_bind.
  { apply (append_refs_spec files out t c r refs e ws d buf instr _ (take n l) false); [done..| |done|done]. rewrite length_take in *. lia. }
  cbv beta iota. destruct (interrupted (is_kernel_event e) (length (take n l)) refs) eqn:Ei; cbn [orb].
  - unfold interrupted in Ei. apply andb_prop in Ei as [_ Ei]. destruct (drop (length (take n l)) refs) as [|] eqn:Ed; [|done].
    rewrite zip_with_nil_r, app_nil_r. rewrite <- drop_drop, Ed, drop_nil. apply does_ret.
  - fold n. change (num_mem_dests instr) with (length l - n)%nat. rewrite <- drop_drop.
    set (refs' := drop (length (take n l)) refs). set (files' := <[t := VF (refs' ++ e :: ws) false d]> files).
    replace (<[t := VF (drop (length (drop n l)) refs' ++ e :: ws) false d]> files)
      with (<[t := VF (drop (length (drop n l)) refs' ++ e :: ws) false d]> files') by (unfold files'; by rewrite update_twice).
    apply append_refs_spec; [by apply Forall_drop|done| |by apply list_lookup_insert_eq|done].
    rewrite length_app, length_zip_with, length_map. lia.
Qed.

Lemma construct_srcs pc d : construct decode pc = Some d -> (num_mem_srcs d <= length (mem_srcs_and_dests_ d))%nat.
Proof using.
  unfold construct. destruct (decode pc) as [instr next]. case_match; [done|]. intros [= <-]. unfold num_mem_srcs. cbn.
  case_match; [|done]. rewrite length_app. pose proof (Z.mod_le (Z.of_nat (length (List.filter opnd_is_memory_reference (instr_srcs instr)))) 256). lia.
Qed.

Lemma does_summary pc d v : construct decode pc = Some d -> does (get_instr_summary decode pc) v (Some d) v.
Proof using.
  intros E s Hs. unfold get_instr_summary, mbind, conv_bind, get. cbv beta iota. destruct (decode_cache s !! pc) as [d'|] eqn:Ec.
  - pose proof (se_cache _ _ _ Hs _ _ Ec). exists s. split; [|done]. unfold mret, conv_ret. congruence.
  - rewrite E. eexists. split; [reflexivity|]. destruct Hs. constructor; try done. cbn. intros pc' d' H.
    apply lookup_insert_Some in H as [[<- <-]|[_ H]]; auto.
Qed.

Lemma does_fetch_type files out t c r d :
  does (fetch_type d) (V files out t c r) (fetch r d).1 (V files out t c (fetch r d).2).
Proof using.
  unfold fetch_type, fetch. destruct (type_ d =? TRACE_TYPE_INSTR_MAYBE_FETCH).
  - apply does_get. intros s Hs. rewrite (se_rep _ _ _ Hs). cbn [v_rep]. destruct r; [apply does_ret|].
    eapply does_bind; [apply does_rep|]. apply does_ret.
  - eapply does_bind; [apply does_rep|]. apply does_ret.
Qed.

(** The entries of one instruction. *)
Lemma does_operands files out t c r refs e ws buf d : Forall (fun x => is_memref x = true) refs -> not_ref e ->
  (num_mem_srcs d <= length (mem_srcs_and_dests_ d))%nat ->
  Z.of_nat (length buf + length (operands d)) < WRITE_BUFFER_SIZE -> files !! t = Some (VF (refs ++ e :: ws) false []) ->
  does (if (negb false || false) && (reads_memory d || writes_memory d) then append_operands buf d else mret (buf, false))
    (V files out t c r) (buf ++ zip_with (ref_entry d) (operands d) refs, interrupted (is_kernel_event e) (length (operands d)) refs)
    (V (<[t := VF (drop (length (operands d)) refs ++ e :: ws) false []]> files) out t c r).
Proof using.
  intros Hr He Hn Hb E. cbn [negb orb andb]. destruct (reads_memory d || writes_memory d) eqn:Hm.
  - by apply append_operands_spec.
  - unfold operands. rewrite Hm. cbn [zip_with length]. rewrite drop_0, (list_insert_id _ _ _ E), app_nil_r. unfold interrupted.
    rewrite andb_false_r. apply does_ret.
Qed.

Lemma instrs_at_nil n pc : instrs_at decode n pc = Some [] -> n = 0%nat.
Proof using.
  destruct n as [|n]; [done|]. cbn. destruct (construct decode pc) as [d|]; [|done]. cbn. by destruct (instrs_at decode n _).
Qed.

Lemma bb_loop_spec n : forall m pc instrs files out t c r refs e ws, instrs_at decode n pc = Some instrs -> is_block instrs = true ->
  Forall (fun x => is_memref x = true) refs -> not_ref e -> (length refs <= num_refs instrs)%nat ->
  files !! t = Some (VF (refs ++ e :: ws) false []) ->
  does (bb_loop decode accepts n m false pc) (V files out t c r) tt
    (V (<[t := VF (e :: ws) false (kept (block_out m (is_kernel_event e) r instrs refs).1)]> files)
       (out ++ written (block_out m (is_kernel_event e) r instrs refs).1) t c (block_out m (is_kernel_event e) r instrs refs).2).
Proof using accepts_all.
  induction n as [|n IH]; intros m pc instrs files out t c r refs e ws Hi Hb Hr He Hl E; cbn [instrs_at] in Hi.
  { injection Hi as <-. destruct refs; [|cbn in Hl; lia]. cbn [app] in E. cbn. rewrite app_nil_r, (list_insert_id _ _ _ E). apply does_ret. }
  destruct (construct decode pc) as [d|] eqn:Ed; [|done]. cbn [mbind option_bind] in Hi.
  destruct (instrs_at decode n (next_pc_ d)) as [l|] eqn:El; [|done]. injection Hi as <-.
  cbn [is_block] in Hb. rewrite !andb_true_iff in Hb. destruct Hb as [[Hc Hs] Hb]. apply Z.ltb_lt in Hs.
  pose proof (lookup_lt_Some _ _ _ E) as Ht. cbn [bb_loop block_out]. set (ops := operands d) in *.
  destruct (fetch r d) as [ty r1] eqn:Ef. set (es := _ :: zip_with _ _ _).
  eapply does_bind; [by apply does_summary|]. cbv beta iota. eapply does_bind.
  { apply does_check. destruct (is_cti d); [|done]. destruct l; [|done]. by rewrite (instrs_at_nil _ _ El). }
  eapply does_bind; [apply does_fetch_type|]. rewrite Ef. cbn [fst snd]. apply does_get. intros s0 Hs0.
  rewrite (se_separate _ _ _ Hs0). clear s0 Hs0. eapply does_bind.
  { apply (does_operands files out t c r1 refs e ws [_] d); [done..|by eapply construct_srcs|fold ops; cbn [length]; unfold WRITE_BUFFER_SIZE; lia|done]. }
  cbv beta iota. cbn [app]. fold ops. fold es. eapply does_bind.
  { apply does_check, Z.ltb_lt. unfold es. cbn [length]. rewrite length_zip_with. unfold WRITE_BUFFER_SIZE. lia. }
  set (refs' := drop (length ops) refs). set (files1 := <[t := VF (refs' ++ e :: ws) false []]> files).
  assert (E1 : files1 !! t = Some (VF (refs' ++ e :: ws) false [])) by by apply list_lookup_insert_eq.
  assert (Hl' : interrupted (is_kernel_event e) (length ops) refs = true -> refs' = []).
  { unfold interrupted. fold refs'. destruct refs'; [done|]. by rewrite !andb_false_r. }
  assert (Hr' : refs' = [] -> files1 = <[t := VF (e :: ws) false []]> files) by (unfold files1; by intros ->).
  destruct (is_cti d) eqn:Hcti; cbn [negb orb] in Hc.
  - destruct l; [|done]. rewrite (instrs_at_nil _ _ El).
    assert (Hnil : refs' = []). { apply drop_ge. cbn in Hl. fold ops in Hl. lia. }
    eapply does_bind; [by apply does_write_delayed|]. cbn [bb_loop block_out].
    rewrite Hnil. unfold files1. rewrite update_twice. unfold kept, written.
    destruct (interrupted _ _ _); cbn; rewrite !app_nil_r; apply does_ret.
  - eapply does_bind; [by apply does_write_or_fail|]. destruct (interrupted _ _ _) eqn:Ei.
    + rewrite Hr' by auto. unfold kept, written. cbn. rewrite app_nil_r. apply does_ret.
    + specialize (IH m (next_pc_ d) l files1 (out ++ es) t c r1 refs' e ws El Hb (Forall_drop _ _ _ Hr) He).
      destruct (block_out m (is_kernel_event e) r1 l refs') as [os r2]. unfold kept, written in *. cbn [fst snd List.filter negb map concat] in *.
      rewrite app_assoc. unfold files1 in IH. rewrite update_twice in IH. apply IH; [|done].
      unfold refs'. rewrite length_drop. cbn in Hl. fold ops in Hl. unfold num_refs. lia.
Qed.
End Block.
