(* ===== verification/Capture.v ===== *)
(** * Captures and the trace they become

    A capture is what the traced threads recorded: each thread's segments, a
    buffer written out at a time each, of blocks, markers and flushes.  Here are
    the words of its files, which the tracer's own functions write, and the
    trace: the segments in the order of their times, a thread's name in front
    of each, and a branch at the end of a segment at the start of the
    thread's next one. *)
From S2P Require Export Raw2TraceBlock.

(** ** Captures *)

Inductive item :=
| Block (modidx modoffs : Z) (count : nat) (refs : list Z)
| Unmapped (modidx modoffs : Z) (count : nat) (refs : list Z)
| Marker (type val : Z)
| Flush (start size : Z).

Record segment := { seg_time : Z; seg_items : list item }.
Record log := { log_tid : Z; log_pid : Z; log_segs : list segment }.

Definition item_words (it : item) : list Z :=
  match it with
  | Block modidx modoffs count refs | Unmapped modidx modoffs count refs => pc_entry modoffs modidx (Z.of_nat count) :: refs
  | Marker type val => [ext_entry OFFLINE_EXT_TYPE_MARKER val type]
  | Flush start size => Offline.append_iflush start size
  end.
Definition items_words (its : list item) : list Z := concat (map item_words its).
Definition segment_words (g : segment) : list Z := addr_entry OFFLINE_TYPE_TIMESTAMP (seg_time g) :: items_words (seg_items g).

(** What is left of a file with the segments [gs] to come. *)
Definition segments_words (gs : list segment) : list Z := concat (map segment_words gs) ++ Offline.append_thread_exit.
Definition log_words (l : log) : list Z := Offline.append_thread_header (log_tid l) (log_pid l) ++ segments_words (log_segs l).

(** ** The trace *)

Section Trace.
Context (decode : Z -> instr_t * Z) (modvec : list module_t).

Definition block_start (m : module_t) (modoffs : Z) : Z := u64 (map_base m + modoffs).

(** The instructions of a block, the module they are in. *)
Definition block_instrs (modidx modoffs : Z) (count : nat) : option (module_t * list (Z * instr_summary_t)) :=
  m ← modvec !! Z.to_nat modidx; l ← instrs_at decode count (block_start m modoffs); Some (m, l).

Definition guess (word : Z) : trace_entry_t := {| te_type := TRACE_TYPE_READ; te_size := 1; te_addr := word |}.

(** An item after which a fault is, or is not, recorded: what is written, the
    branch kept back, and whether the last instruction was a rep string one.
    Every item but a marker lets go of the branch [pending] from before. *)
Definition item_out (fault rep : bool) (pending : list trace_entry_t) (it : item)
    : list trace_entry_t * list trace_entry_t * bool :=
  match it with
  | Marker type val => (write_marker type val, pending, rep)
  | Flush start size => (pending ++ write_iflush start size, [], rep)
  | Unmapped _ _ _ refs => (pending ++ map guess refs, [], rep)
  | Block modidx modoffs count refs =>
      match block_instrs modidx modoffs count with
      | Some (m, l) => let '(os, rep) := block_out m fault rep l refs in (pending ++ written os, kept os, rep)
      | None => (pending, [], rep)
      end
  end.

Definition starts_with_fault (its : list item) : bool :=
  match its with Marker type _ :: _ => type =? TRACE_MARKER_TYPE_KERNEL_EVENT | _ => false end.

Fixpoint items_out (rep : bool) (pending : list trace_entry_t) (its : list item) : list trace_entry_t * list trace_entry_t * bool :=
  match its with
  | [] => ([], pending, rep)
  | it :: its =>
      let '(out, pending, rep) := item_out (starts_with_fault its) rep pending it in
      let '(out', pending, rep) := items_out rep pending its in
      (out ++ out', pending, rep)
  end.

(** *** The order of the segments *)

(** The first of the segments that the threads have next, the first thread's if
    the times are the same. *)
Definition earliest (gss : list (list segment)) (i : nat) (t : Z) : Prop :=
  forall j g gs, gss !! j = Some (g :: gs) -> t <= seg_time g /\ ((j < i)%nat -> t < seg_time g).

(** The schedule says of a segment whose it is and whether it is the thread's
    last. *)
Inductive merges : list (list segment) -> list (nat * segment * bool) -> Prop :=
| merges_nil gss : Forall (fun gs => gs = []) gss -> merges gss []
| merges_cons gss i g gs sched : gss !! i = Some (g :: gs) -> earliest gss i (seg_time g) -> merges (<[i := gs]> gss) sched ->
    merges gss ((i, g, negb (nonempty gs)) :: sched).

(** *** The segments as they are written *)

(** A thread: its branch kept back, and whether its process has been named. *)
Record tview := { tv_tid : Z; tv_pid : Z; tv_pending : list trace_entry_t; tv_named : bool }.
Definition new_tview (l : log) : tview := {| tv_tid := log_tid l; tv_pid := log_pid l; tv_pending := []; tv_named := false |}.
Definition after_segment (t : tview) (pending : list trace_entry_t) : tview :=
  {| tv_tid := tv_tid t; tv_pid := tv_pid t; tv_pending := pending; tv_named := true |}.

Definition segment_head (t : tview) (time : Z) : list trace_entry_t :=
  write_tid (tv_tid t) ++ (if tv_named t then [] else write_pid (tv_pid t)) ++ write_timestamp time.

Definition segment_out (rep : bool) (t : tview) (g : segment) (last : bool) : list trace_entry_t * list trace_entry_t * bool :=
  let '(out, pending, rep) := items_out rep (tv_pending t) (seg_items g) in
  if last then (segment_head t (seg_time g) ++ out ++ pending ++ write_thread_exit (tv_tid t), [], rep)
  else (segment_head t (seg_time g) ++ out, pending, rep).

Fixpoint render (rep : bool) (ts : list tview) (sched : list (nat * segment * bool)) : list trace_entry_t :=
  match sched with
  | [] => []
  | (i, g, last) :: sched =>
      match ts !! i with
      | None => []
      | Some t =>
          let '(out, pending, rep) := segment_out rep t g last in
          out ++ render rep (<[i := after_segment t pending]> ts) sched
      end
  end.

Definition header_entry : trace_entry_t := {| te_type := TRACE_TYPE_HEADER; te_size := 0; te_addr := TRACE_ENTRY_VERSION |}.
Definition footer_entry : trace_entry_t := {| te_type := TRACE_TYPE_FOOTER; te_size := 0; te_addr := 0 |}.

(** *** Captures of the program *)

Definition item_ok (it : item) : Prop :=
  match it with
  | Block modidx modoffs count refs =>
      0 <= modidx < 2 ^ 16 /\ 0 <= modoffs < 2 ^ 33 /\ (0 < count)%nat /\ Z.of_nat count < 2 ^ 12 /\
      negb ((modidx =? 0) && (modoffs =? 0)) = true /\ Forall (fun x => is_memref x = true) refs /\
      exists m l, block_instrs modidx modoffs count = Some (m, l) /\ map_base m <> 0 /\ is_block l = true /\ (length refs <= num_refs l)%nat
  | Unmapped modidx modoffs count refs =>
      0 <= modidx < 2 ^ 16 /\ 0 <= modoffs < 2 ^ 33 /\ Z.of_nat count < 2 ^ 12 /\ Forall (fun x => is_memref x = true) refs /\
      exists m, modvec !! Z.to_nat modidx = Some m /\ ((modidx =? 0) && (modoffs =? 0)) || (map_base m =? 0) = true
  | Marker type val => 0 <= type < 2 ^ 8 /\ 0 <= val < 2 ^ 48
  | Flush start size => 0 <= start /\ 0 <= size /\ start + size < 2 ^ 61
  end.

Definition segment_ok (g : segment) : Prop := 0 < seg_time g < 2 ^ 61 /\ Forall item_ok (seg_items g).

Record log_ok (l : log) : Prop := {
  lo_tid : 0 < log_tid l < 2 ^ 31;
  lo_pid : 0 < log_pid l < 2 ^ 31;
  lo_some : log_segs l <> [];
  lo_segs : Forall segment_ok (log_segs l)
}.
End Trace.

(** ** The fields of the words *)

Lemma type_addr_entry t a : 0 <= t < 8 -> oe_type (addr_entry t a) = t.
Proof.
  intros Ht. unfold oe_type, addr_entry. rewrite Z.land_ones, shiftl_mul by lia.
  pose proof (Z.mod_pos_bound a (2 ^ 61) ltac:(lia)).
  rewrite <- (Z.add_0_r (_ + _)). rewrite <- (Z.mul_0_l (2 ^ (61 + 3))). apply field_at; lia.
Qed.

Lemma addr_addr_entry t a : 0 <= a < 2 ^ 61 -> oe_addr (addr_entry t a) = a.
Proof.
  intros Ha. unfold oe_addr, addr_entry. rewrite Z.land_ones, shiftl_mul, Z.mod_small by lia.
  replace (a + t * 2 ^ 61) with (0 + a * 2 ^ 0 + t * 2 ^ (0 + 61)) by lia. apply field_at; lia.
Qed.

Lemma pc_entry_fields modoffs modidx count : 0 <= modoffs < 2 ^ 33 -> 0 <= modidx < 2 ^ 16 -> 0 <= count < 2 ^ 12 ->
  oe_type (pc_entry modoffs modidx count) = OFFLINE_TYPE_PC /\ pc_modoffs (pc_entry modoffs modidx count) = modoffs /\
  pc_modidx (pc_entry modoffs modidx count) = modidx /\ pc_instr_count (pc_entry modoffs modidx count) = count.
Proof.
  intros H1 H2 H3. unfold pc_entry, oe_type, pc_modoffs, pc_modidx, pc_instr_count, PC_MODOFFS_BITS, PC_MODIDX_BITS, PC_INSTR_COUNT_BITS, OFFLINE_TYPE_PC.
  rewrite !Z.land_ones, !shiftl_mul, !Z.mod_small by lia. split_and!.
  - replace (_ + 1 * 2 ^ 61) with ((modoffs + modidx * 2 ^ 33 + count * 2 ^ 49) + 1 * 2 ^ 61 + 0 * 2 ^ (61 + 3)) by lia. apply field_at; lia.
  - replace (_ + 1 * 2 ^ 61) with (0 + modoffs * 2 ^ 0 + (modidx + count * 2 ^ 16 + 2 ^ 28) * 2 ^ (0 + 33)) by lia. apply field_at; lia.
  - replace (_ + 1 * 2 ^ 61) with (modoffs + modidx * 2 ^ 33 + (count + 2 ^ 12) * 2 ^ (33 + 16)) by lia. apply field_at; lia.
  - replace (_ + 1 * 2 ^ 61) with ((modoffs + modidx * 2 ^ 33) + count * 2 ^ 49 + 1 * 2 ^ (49 + 12)) by lia. apply field_at; lia.
Qed.

Lemma ext_entry_fields ext a b : 0 <= ext < 32 -> 0 <= a < 2 ^ 48 -> 0 <= b < 2 ^ 8 ->
  oe_type (ext_entry ext a b) = OFFLINE_TYPE_EXTENDED /\ ext_ext (ext_entry ext a b) = ext /\
  ext_valueA (ext_entry ext a b) = a /\ ext_valueB (ext_entry ext a b) = b.
Proof.
  intros H1 H2 H3. unfold ext_entry, oe_type, ext_ext, ext_valueA, ext_valueB, EXT_VALUE_A_BITS, EXT_VALUE_B_BITS, OFFLINE_TYPE_EXTENDED.
  rewrite !Z.land_ones, !shiftl_mul, !Z.mod_small by lia. split_and!.
  - replace (_ + 6 * 2 ^ 61) with ((a + b * 2 ^ 48 + ext * 2 ^ 56) + 6 * 2 ^ 61 + 0 * 2 ^ (61 + 3)) by lia. apply field_at; lia.
  - replace (_ + 6 * 2 ^ 61) with ((a + b * 2 ^ 48) + ext * 2 ^ 56 + 6 * 2 ^ (56 + 5)) by lia. apply field_at; lia.
  - replace (_ + 6 * 2 ^ 61) with (0 + a * 2 ^ 0 + (b + ext * 2 ^ 8 + 6 * 2 ^ 13) * 2 ^ (0 + 48)) by lia. apply field_at; lia.
  - replace (_ + 6 * 2 ^ 61) with (a + b * 2 ^ 48 + (ext + 6 * 2 ^ 5) * 2 ^ (48 + 8)) by lia. apply field_at; lia.
Qed.

(** ** A capture to try the definitions on *)

(** Two threads of one process: the second runs between the two segments of the
    first, whose jump at the end of its first segment waits for its second. *)
Definition example_seg1 : segment := {| seg_time := 100; seg_items := [Block 0 0x100 3 [0x7008; 0x8000]] |}.
Definition example_seg2 : segment := {| seg_time := 200; seg_items := [Block 0 0x104 2 [0x9000]; Unmapped 1 0x50 1 [0x6000]] |}.
Definition example_seg3 : segment :=
  {| seg_time := 300; seg_items := [Marker TRACE_MARKER_TYPE_CPU_ID 3; Block 0 0x110 1 [0x7008; 0x8000]; Flush 0x40 64] |}.
Definition example_logs : list log :=
  [{| log_tid := 5; log_pid := 4; log_segs := [example_seg1; example_seg3] |}; {| log_tid := 6; log_pid := 4; log_segs := [example_seg2] |}].

Ltac item_tac := match goal with
  | |- item_ok _ _ (Block _ _ _ _) => split_and!; [lia..|reflexivity|repeat constructor|do 2 eexists; split; [vm_compute; reflexivity|split_and!; [vm_compute; congruence|vm_compute; reflexivity|vm_compute; lia]]]
  | |- item_ok _ _ (Unmapped _ _ _ _) => split_and!; [lia..|repeat constructor|eexists; split; vm_compute; reflexivity]
  | |- item_ok _ _ _ => vm_compute; repeat split; congruence
  end.

Ltac each_tac := repeat (apply Forall_cons_2; [first [cbn [seg_time]; lia | item_tac]|]); apply Forall_nil_2.

Lemma example_logs_ok : Forall (log_ok example_image example_modules) example_logs.
Proof.
  assert (H : forall gs, Forall (fun g => 0 < seg_time g < 2 ^ 61) gs -> Forall (item_ok example_image example_modules) (concat (map seg_items gs)) ->
    Forall (segment_ok example_image example_modules) gs).
  { intros gs H1 H2. induction gs as [|g gs IH]; [constructor|]. apply Forall_cons in H1 as [? ?]. cbn in H2. apply Forall_app in H2 as [? ?].
    constructor; [by split|by apply IH]. }
  unfold example_logs, example_seg1, example_seg2, example_seg3. repeat (apply Forall_cons_2; [constructor; [cbn; lia|cbn; lia|done|apply H; cbn; each_tac]|]). apply Forall_nil_2.
Qed.
