(* ===== verification/TraceWords.v ===== *)
(** * The tracer's words

    What the traced threads write is what the converter reads: the functions of
    instru_offline.cpp leave the words of a capture, and the bit fields of the
    words hold what was put in them, or the traced program is aborted. *)
From S2P Require Export Capture.

Lemma ext_bound ext a b : 0 <= ext < 32 -> 0 <= a < 2 ^ 48 -> 0 <= b < 2 ^ 8 -> 0 <= ext_entry ext a b < w64.
Proof.
  intros H1 H2 H3. unfold ext_entry, EXT_VALUE_A_BITS, EXT_VALUE_B_BITS, OFFLINE_TYPE_EXTENDED.
  rewrite !Z.land_ones, !shiftl_mul, !Z.mod_small by lia. lia.
Qed.

Lemma pc_bound modoffs modidx count : 0 <= modoffs < 2 ^ 33 -> 0 <= modidx < 2 ^ 16 -> 0 <= count < 2 ^ 12 -> 0 <= pc_entry modoffs modidx count < w64.
Proof.
  intros H1 H2 H3. unfold pc_entry, PC_MODOFFS_BITS, PC_MODIDX_BITS, PC_INSTR_COUNT_BITS, OFFLINE_TYPE_PC.
  rewrite !Z.land_ones, !shiftl_mul, !Z.mod_small by lia. lia.
Qed.

(** A thread's or a process's id comes back from the low 61 bits of its sign
    extension. *)
Lemma id_addr_entry t x : - 2 ^ 31 <= x < 2 ^ 31 -> 0 <= t < 8 -> s32 (oe_addr (addr_entry t (u64 x))) = x.
Proof.
  intros Hx Ht. unfold oe_addr, addr_entry. rewrite Z.land_ones, shiftl_mul by lia.
  pose proof (Z.mod_pos_bound (u64 x) (2 ^ 61) ltac:(lia)).
  replace (u64 x mod 2 ^ 61 + t * 2 ^ 61) with (0 + (u64 x mod 2 ^ 61) * 2 ^ 0 + t * 2 ^ (0 + 61)) by lia. rewrite field_at by lia.
  unfold u64, s32. Z.to_euclidean_division_equations. lia.
Qed.

(** Whether the fields of a word hold the values. *)
Definition pc_fits (modidx modoffs count : Z) : bool := (modoffs <? 2 ^ 33) && (modidx <? 2 ^ 16) && (count <? 2 ^ 12).
Definition marker_fits (type val : Z) : bool := (type <? 2 ^ 8) && (val <? 2 ^ 48).

(** The words that the functions of the tracer leave for an item. *)
Definition tracer_words (it : item) : outcome (list Z) :=
  match it with
  | Block modidx modoffs count refs | Unmapped modidx modoffs count refs =>
      w ← Offline.save_pc modidx modoffs (Z.of_nat count); Ret (w ++ refs)
  | Marker type val => Offline.append_marker type val
  | Flush start size => Ret (Offline.append_iflush start size)
  end.

Lemma save_pc_spec modidx modoffs count :
  Offline.save_pc modidx modoffs count = if pc_fits modidx modoffs count then Ret [pc_entry modoffs modidx count] else Abort.
Proof.
  unfold Offline.save_pc, Offline.DR_ASSERT, pc_fits. change (Z.shiftl 1 PC_MODOFFS_BITS) with (2 ^ 33). change (Z.shiftl 1 PC_MODIDX_BITS) with (2 ^ 16).
  change (Z.shiftl 1 PC_INSTR_COUNT_BITS) with (2 ^ 12). by destruct (modoffs <? _), (modidx <? _), (count <? _).
Qed.

Lemma append_marker_spec type val : 0 <= val < w64 ->
  Offline.append_marker type val = if marker_fits type val then Ret [ext_entry OFFLINE_EXT_TYPE_MARKER val type] else Abort.
Proof.
  intros Hv. unfold Offline.append_marker, Offline.DR_ASSERT, marker_fits. rewrite u64_small by done. change (Z.shiftl 1 EXT_VALUE_B_BITS) with (2 ^ 8).
  change (Z.shiftl 1 EXT_VALUE_A_BITS) with (2 ^ 48). by destruct (type <? _), (val <? _).
Qed.

Lemma item_tracer_words decode modvec it : item_ok decode modvec it -> tracer_words it = Ret (item_words it).
Proof.
  destruct it as [mi mo n refs|mi mo n refs|ty val|start size]; cbn [item_ok tracer_words item_words].
  - intros (H1 & H2 & H3 & H4 & _). rewrite save_pc_spec. unfold pc_fits. by rewrite !(proj2 (Z.ltb_lt _ _)) by lia.
  - intros (H1 & H2 & H3 & _). rewrite save_pc_spec. unfold pc_fits. by rewrite !(proj2 (Z.ltb_lt _ _)) by lia.
  - intros (H1 & H2). rewrite append_marker_spec by lia. unfold marker_fits. by rewrite !(proj2 (Z.ltb_lt _ _)) by lia.
  - done.
Qed.

(** C34. What the tracer writes is what the converter reads.  The word of a block
    and that of a marker hold the values exactly when they fit their bit fields,
    and the traced program is aborted otherwise: always when the processor is not
    known.  The ids of threads and processes come back with their signs, and the
    two words of a flush give its start and its size.  The items of a capture are
    what these functions write. *)
Theorem tracer_words_read_back :
  (forall modidx modoffs count, 0 <= modidx -> 0 <= modoffs -> 0 <= count ->
     if pc_fits modidx modoffs count
     then exists w, Offline.save_pc modidx modoffs count = Ret [w] /\ 0 <= w < w64 /\ oe_type w = OFFLINE_TYPE_PC /\
            pc_modidx w = modidx /\ pc_modoffs w = modoffs /\ pc_instr_count w = count
     else Offline.save_pc modidx modoffs count = Abort) /\
  (forall type val, 0 <= type -> 0 <= val < w64 ->
     if marker_fits type val
     then exists w, Offline.append_marker type val = Ret [w] /\ 0 <= w < w64 /\ oe_type w = OFFLINE_TYPE_EXTENDED /\
            ext_ext w = OFFLINE_EXT_TYPE_MARKER /\ ext_valueB w = type /\ ext_valueA w = val
     else Offline.append_marker type val = Abort) /\
  (forall usec, Offline.append_unit_header usec (-1) = Abort) /\
  (forall id, - 2 ^ 31 <= id < 2 ^ 31 -> exists w w', Offline.append_tid id = [w] /\ oe_type w = OFFLINE_TYPE_THREAD /\ s32 (oe_addr w) = id /\
     Offline.append_pid id = [w'] /\ oe_type w' = OFFLINE_TYPE_PID /\ s32 (oe_addr w') = id) /\
  (forall start size, 0 <= start -> 0 <= size -> start + size < 2 ^ 61 -> exists w w', Offline.append_iflush start size = [w; w'] /\
     oe_type w = OFFLINE_TYPE_IFLUSH /\ oe_type w' = OFFLINE_TYPE_IFLUSH /\ oe_addr w = start /\ u64 (oe_addr w' - oe_addr w) = size) /\
  (forall decode modvec it, item_ok decode modvec it -> tracer_words it = Ret (item_words it)).
Proof.
  split_and!.
  - intros mi mo n H1 H2 H3. rewrite save_pc_spec. destruct (pc_fits mi mo n) eqn:E; [|done]. unfold pc_fits in E.
    apply andb_true_iff in E as [[E1%Z.ltb_lt E2%Z.ltb_lt]%andb_true_iff E3%Z.ltb_lt]. eexists. split; [done|]. split; [by apply pc_bound|].
    destruct (pc_entry_fields mo mi n) as (F1 & F2 & F3 & F4); [lia..|done].
  - intros ty v H1 H2. rewrite append_marker_spec by done. destruct (marker_fits ty v) eqn:E; [|done]. unfold marker_fits in E.
    apply andb_true_iff in E as [E1%Z.ltb_lt E2%Z.ltb_lt]. exists (ext_entry OFFLINE_EXT_TYPE_MARKER v ty). split; [done|]. split; [apply ext_bound; unfold OFFLINE_EXT_TYPE_MARKER; lia|].
    destruct (ext_entry_fields OFFLINE_EXT_TYPE_MARKER v ty) as (F1 & F2 & F3 & F4); [done|lia|lia|done].
  - done.
  - intros id H. exists (addr_entry OFFLINE_TYPE_THREAD (u64 id)), (addr_entry OFFLINE_TYPE_PID (u64 id)). unfold OFFLINE_TYPE_THREAD, OFFLINE_TYPE_PID.
    rewrite !type_addr_entry, !id_addr_entry by lia. done.
  - intros a n H1 H2 H3. exists (addr_entry OFFLINE_TYPE_IFLUSH a), (addr_entry OFFLINE_TYPE_IFLUSH (u64 (a + n))). split; [done|]. unfold OFFLINE_TYPE_IFLUSH. rewrite !type_addr_entry by lia. rewrite (u64_small (a + n)) by lia.
    rewrite !addr_addr_entry by lia. rewrite u64_small by lia. split_and!; done || lia.
  - exact item_tracer_words.
Qed.

Lemma tracer_words_read_back_witness :
  (exists w, Offline.save_pc 3 0x1000 5 = Ret [w] /\ 0 <= w < w64 /\ oe_type w = OFFLINE_TYPE_PC /\ pc_modidx w = 3 /\ pc_modoffs w = 0x1000 /\ pc_instr_count w = 5) /\
  Offline.append_marker TRACE_MARKER_TYPE_CPU_ID (2 ^ 48) = Abort /\ Offline.append_unit_header 100 (-1) = Abort.
Proof.
  destruct tracer_words_read_back as (H1 & H2 & H3 & _). split; [|split].
  - apply (H1 3 0x1000 5); lia.
  - apply (H2 3 (2 ^ 48)); lia.
  - apply H3.
Defined.
