(* ===== verification/Raw2TraceMerge.v ===== *)
(** * The merge of the thread files

    The turns of the merge's loop on the files of a capture: one turn for an
    entry, the run of a segment, and the choice of the next one. *)
From S2P Require Export Capture.

Section Merge.
Context (decode : Z -> instr_t * Z) (modvec : list module_t).
Context (accepts : list trace_entry_t -> list trace_entry_t -> bool).
Hypothesis accepts_all : forall out es, accepts out es = true.
Abbreviation does := (does decode).
Abbreviation sees := (sees decode).
Abbreviation step := (merge_step decode modvec accepts).
Abbreviation loop := (merge_loop decode modvec accepts).
Abbreviation process := (process_offline_entry decode modvec accepts).

(** ** Turns of the loop *)

(** The loop gets from one view to another, or ends. *)
Definition reach (ths : list thread_t) (h : bool) (v : view) (ths' : list thread_t) (h' : bool) (v' : view) : Prop :=
  forall s, sees s v -> exists s' k, sees s' v' /\ forall fuel, loop (k + S fuel)%nat ths h s = loop (S fuel) ths' h' s'.
Definition ends (ths : list thread_t) (h : bool) (v v' : view) : Prop :=
  forall s, sees s v -> exists s' k, sees s' v' /\ forall fuel, loop (k + fuel)%nat ths h s = (Done tt, s').

Lemma reach_refl ths h v : reach ths h v ths h v.
Proof using. intros s Hs. by exists s, 0%nat. Qed.

Lemma reach_trans ths h v ths1 h1 v1 ths2 h2 v2 : reach ths h v ths1 h1 v1 -> reach ths1 h1 v1 ths2 h2 v2 -> reach ths h v ths2 h2 v2.
Proof using.
  intros H1 H2 s Hs. destruct (H1 s Hs) as (s1 & k1 & S1 & E1). destruct (H2 s1 S1) as (s2 & k2 & S2 & E2).
  exists s2, (k1 + k2)%nat. split; [done|]. intros fuel. rewrite <- E2. destruct (k2 + S fuel)%nat eqn:Ek; [lia|].
  rewrite <- E1. f_equal. lia.
Qed.

Lemma reach_ends ths h v ths1 h1 v1 v2 : reach ths h v ths1 h1 v1 -> ends ths1 h1 v1 v2 -> ends ths h v v2.
Proof using.
  intros H1 H2 s Hs. destruct (H1 s Hs) as (s1 & k1 & S1 & E1). destruct (H2 s1 S1) as (s2 & k2 & S2 & E2).
  exists s2, (k1 + S k2)%nat. split; [done|]. intros fuel. rewrite <- (E2 (S fuel)). replace (k2 + S fuel)%nat with (S (k2 + fuel)) by lia.
  rewrite <- E1. f_equal. lia.
Qed.

Lemma loop_S fuel ths h s : loop (S fuel) ths h s =
  ('(ths, handled) ← step ths h; s ← get; if 0 <? thread_count s then loop fuel ths handled else mret tt) s.
Proof using. done. Qed.

Lemma reach_step ths h v ths' h' v' : does (step ths h) v (ths', h') v' -> 0 < v_count v' -> reach ths h v ths' h' v'.
Proof using.
  intros H Hc s Hs. destruct (H s Hs) as (s' & E & S'). exists s', 1%nat. split; [done|]. intros fuel.
  change (1 + S fuel)%nat with (S (S fuel)). rewrite loop_S. unfold mbind, conv_bind, get. rewrite E.
  rewrite (se_count _ _ _ S'). by rewrite (proj2 (Z.ltb_lt 0 _) Hc).
Qed.

Lemma ends_step ths h v ths' h' v' : does (step ths h) v (ths', h') v' -> v_count v' = 0 -> ends ths h v v'.
Proof using.
  intros H Hc s Hs. destruct (H s Hs) as (s' & E & S'). exists s', 1%nat. split; [done|]. intros fuel.
  change (1 + fuel)%nat with (S fuel). rewrite loop_S. unfold mbind, conv_bind, get. rewrite E.
  rewrite (se_count _ _ _ S'), Hc. done.
Qed.

(** ** One entry *)

Section Entry.
Context (ths : list thread_t) (th : thread_t) (files : list vfile) (t : nat).
Hypothesis Hth : ths !! t = Some th.

Lemma does_next_in_segment out c r w ws en d : files !! t = Some (VF (w :: ws) en d) ->
  does next_in_segment (V files out t c r) w (V (<[t := VF ws en d]> files) out t c r).
Proof using.
  intros E. unfold next_in_segment. apply does_get. intros s Hs. rewrite (se_tidx _ _ _ Hs). cbn [v_tidx].
  eapply does_bind; [by eapply does_read|]. apply does_ret.
Qed.

(** The beginning of a turn. *)
Lemma step_start h out c r w ws d a v' : files !! t = Some (VF (w :: ws) false d) ->
  does (if oe_type w =? OFFLINE_TYPE_TIMESTAMP then
     _ ← modify (fun s => with_tidx s (length (thread_files s)));
     mret (<[t := with_time th (oe_addr w)]> ths, h)
   else
     _ ← (if negb (oe_type w =? OFFLINE_TYPE_EXTENDED) || negb (ext_ext w =? OFFLINE_EXT_TYPE_MARKER)
          then append_delayed_branch accepts t else mret tt);
     '(end_of_record, handled) ← process w (th_tid th) h;
     _ ← (if (end_of_record : bool) then modify (fun s => with_tidx s (length (thread_files s))) else mret tt);
     mret (ths, handled)) (V (<[t := VF ws false d]> files) out t c r) a v' ->
  does (step ths h) (V files out t c r) a v'.
Proof using Hth.
  intros E H. pose proof (lookup_lt_Some _ _ _ E) as Ht. unfold merge_step. apply does_get. intros s Hs.
  rewrite (sees_length _ _ _ Hs), (se_tidx _ _ _ Hs). cbn [v_files v_tidx]. rewrite (proj2 (Nat.leb_gt _ _) Ht).
  eapply does_bind; [apply does_ret|]. eapply does_bind; [by apply does_next_in_segment|]. apply does_get. intros s1 Hs1.
  rewrite (se_tidx _ _ _ Hs1). cbn [v_tidx]. eapply does_bind; [by apply does_at_index|]. exact H.
Qed.

Lemma does_tidx_end out c r : does (modify (fun s => with_tidx s (length (thread_files s)))) (V files out t c r) tt
  (V files out (length files) c r).
Proof using. clear. intros s Hs. eexists. split; [reflexivity|]. rewrite (sees_length _ _ _ Hs). destruct Hs. by constructor. Qed.

Lemma step_timestamp h out c r time ws d : 0 <= time < 2 ^ 61 ->
  files !! t = Some (VF (addr_entry OFFLINE_TYPE_TIMESTAMP time :: ws) false d) ->
  does (step ths h) (V files out t c r) (<[t := with_time th time]> ths, h) (V (<[t := VF ws false d]> files) out (length files) c r).
Proof using Hth.
  intros Hb E. eapply step_start; [done|]. rewrite type_addr_entry by done. cbn [Z.eqb Pos.eqb OFFLINE_TYPE_TIMESTAMP].
  rewrite addr_addr_entry by done. eapply does_bind; [|apply does_ret].
  intros s Hs. eexists. split; [reflexivity|]. rewrite (sees_length _ _ _ Hs). cbn [v_files]. rewrite length_insert. destruct Hs. by constructor.
Qed.

Definition is_marker (w : Z) : bool := (oe_type w =? OFFLINE_TYPE_EXTENDED) && (ext_ext w =? OFFLINE_EXT_TYPE_MARKER).

(** Any entry but a marker or a timestamp lets go of the branch kept back. *)
Lemma step_entry h out c r w ws d h' files' out' c' r' : oe_type w <> OFFLINE_TYPE_TIMESTAMP -> is_marker w = false ->
  files !! t = Some (VF (w :: ws) false d) ->
  does (process w (th_tid th) h) (V (<[t := VF ws false []]> files) (out ++ d) t c r) (false, h') (V files' out' t c' r') ->
  does (step ths h) (V files out t c r) (ths, h') (V files' out' t c' r').
Proof using Hth accepts_all.
  intros Hw Hm E H. pose proof (lookup_lt_Some _ _ _ E) as Ht. eapply step_start; [done|]. rewrite (proj2 (Z.eqb_neq _ _) Hw).
  rewrite <- negb_andb. change (_ && _) with (is_marker w). rewrite Hm. cbn [negb].
  eapply does_bind. { eapply does_append_delayed; [done|]. by apply list_lookup_insert_eq. }
  rewrite update_twice. eapply does_bind; [exact H|]. cbv beta iota. eapply does_bind; [apply does_ret|]. apply does_ret.
Qed.

Lemma step_marker h out c r type val ws d : 0 <= type < 2 ^ 8 -> 0 <= val < 2 ^ 48 ->
  files !! t = Some (VF (ext_entry OFFLINE_EXT_TYPE_MARKER val type :: ws) false d) ->
  does (step ths h) (V files out t c r) (ths, h) (V (<[t := VF ws false d]> files) (out ++ write_marker type val) t c r).
Proof using Hth accepts_all.
  intros Hty Hv E. destruct (ext_entry_fields OFFLINE_EXT_TYPE_MARKER val type ltac:(done) Hv Hty) as (F1 & F2 & F3 & F4).
  eapply step_start; [done|]. rewrite F1, F2. cbn [Z.eqb Pos.eqb negb orb OFFLINE_TYPE_TIMESTAMP OFFLINE_TYPE_EXTENDED OFFLINE_EXT_TYPE_MARKER].
  eapply does_bind; [apply does_ret|]. unfold process_offline_entry. rewrite F1, F2, F3, F4.
  cbn [Z.eqb Pos.eqb OFFLINE_TYPE_EXTENDED OFFLINE_EXT_TYPE_MARKER OFFLINE_EXT_TYPE_FOOTER].
  eapply does_bind. { eapply does_bind; [|apply does_ret]. unfold write_buffered. eapply does_bind; [by apply does_check|]. by apply does_write_or_fail. }
  cbv beta iota. eapply does_bind; apply does_ret.
Qed.

Lemma step_footer h out c r d : 0 < c < w32 -> th_tid th <> 0 -> files !! t = Some (VF Offline.append_thread_exit false d) ->
  does (step ths h) (V files out t c r) (ths, h)
    (V (<[t := VF [] true []]> files) (out ++ d ++ write_thread_exit (th_tid th)) (length files) (c - 1) r).
Proof using Hth accepts_all.
  intros Hc Hti E. pose proof (lookup_lt_Some _ _ _ E) as Ht. eapply step_start; [exact E|].
  set (w := ext_entry OFFLINE_EXT_TYPE_FOOTER 0 0). change (oe_type w =? OFFLINE_TYPE_TIMESTAMP) with false.
  change (negb (oe_type w =? OFFLINE_TYPE_EXTENDED) || negb (ext_ext w =? OFFLINE_EXT_TYPE_MARKER)) with true. cbv beta iota.
  eapply does_bind. { eapply does_append_delayed; [done|]. by apply list_lookup_insert_eq. }
  rewrite update_twice. unfold process_offline_entry. change (oe_type w =? OFFLINE_TYPE_EXTENDED) with true.
  change (ext_ext w =? OFFLINE_EXT_TYPE_FOOTER) with true. cbv beta iota.
  eapply does_bind.
  { eapply does_bind; [apply does_check; by apply negb_true_iff, Z.eqb_neq|].
    eapply does_bind; [by apply does_write_or_fail|].
    eapply does_bind; [eapply does_thread_end; [by apply list_lookup_insert_eq|done]|]. apply does_ret. }
  cbv beta iota. rewrite update_twice, <- app_assoc. eapply does_bind; [|apply does_ret].
  intros s Hs. eexists. split; [reflexivity|]. rewrite (sees_length _ _ _ Hs). cbn [v_files]. rewrite length_insert. destruct Hs. by constructor.
Qed.

(** ** One item *)

Lemma not_ref_types e : not_ref e -> oe_type e <> OFFLINE_TYPE_MEMREF /\ oe_type e <> OFFLINE_TYPE_MEMREF_HIGH.
Proof using. intros [H _]. unfold is_memref in H. apply orb_false_elim in H as [H1%Z.eqb_neq H2%Z.eqb_neq]. done. Qed.

Lemma memref_cases w : is_memref w = true -> oe_type w = 0 \/ oe_type w = 7.
Proof using. unfold is_memref. intros H. apply orb_prop in H as [H|H]; apply Z.eqb_eq in H; auto. Qed.

(** References to code that is in no module. *)
Lemma step_guess out c r w ws : is_memref w = true -> files !! t = Some (VF (w :: ws) false []) ->
  does (step ths false) (V files out t c r) (ths, false) (V (<[t := VF ws false []]> files) (out ++ [guess w]) t c r).
Proof using Hth accepts_all.
  intros Hw E. assert (H2 : oe_type w <> OFFLINE_TYPE_TIMESTAMP /\ is_marker w = false /\ (oe_type w =? OFFLINE_TYPE_EXTENDED) = false /\
    (oe_type w =? OFFLINE_TYPE_MEMREF) || (oe_type w =? OFFLINE_TYPE_MEMREF_HIGH) = true).
  { unfold is_marker. destruct (memref_cases w Hw) as [-> | ->]; done. }
  destruct H2 as (H2 & H3 & H4 & H5). eapply step_entry; [done..|]. rewrite app_nil_r. unfold process_offline_entry. rewrite H4, H5. cbn [negb].
  eapply does_bind; [|apply does_ret]. unfold write_buffered. eapply does_bind; [by apply does_check|]. by apply does_write_or_fail.
Qed.
End Entry.

Section Item.
Context (ths : list thread_t) (th : thread_t) (t : nat).
Hypothesis Hth : ths !! t = Some th.

Lemma reach_guesses refs : forall files out c r ws, Forall (fun x => is_memref x = true) refs -> 0 < c ->
  files !! t = Some (VF (refs ++ ws) false []) ->
  reach ths false (V files out t c r) ths false (V (<[t := VF ws false []]> files) (out ++ map guess refs) t c r).
Proof using Hth accepts_all.
  induction refs as [|w refs IH]; intros files out c r ws Hr Hc E.
  { cbn [app] in E. rewrite (list_insert_id _ _ _ E). cbn. rewrite app_nil_r. apply reach_refl. }
  apply Forall_cons in Hr as [Hw Hr]. pose proof (lookup_lt_Some _ _ _ E) as Ht. eapply reach_trans.
  { eapply reach_step; [by eapply step_guess|done]. }
  cbn [map]. rewrite (cons_middle (guess w) out (map guess refs)), app_assoc.
  rewrite <- (update_twice files t (VF (refs ++ ws) false []) (VF ws false [])). apply IH; [done|done|]. by apply list_lookup_insert_eq.
Qed.

Lemma item_reach it h files out c r e ws d : item_ok decode modvec it -> not_ref e -> 0 < c ->
  files !! t = Some (VF (item_words it ++ e :: ws) false d) ->
  let '(o, p, r') := item_out decode modvec (is_kernel_event e) r d it in
  exists h', reach ths h (V files out t c r) ths h' (V (<[t := VF (e :: ws) false p]> files) (out ++ o) t c r').
Proof using Hth accepts_all.
  intros Hit He Hc E. pose proof (lookup_lt_Some _ _ _ E) as Ht. destruct it as [mi mo n refs|mi mo n refs|ty val|start size]; cbn [item_words item_out] in *.
  - destruct Hit as (H1 & H2 & H3 & H4 & H5 & H6 & m & l & H7 & H8 & H9 & H10). rewrite H7.
    destruct (block_out m (is_kernel_event e) r l refs) as [os r'] eqn:Eo. exists true.
    eapply reach_step; [|done]. destruct (pc_entry_fields mo mi (Z.of_nat n) H2 H1 ltac:(lia)) as (F1 & F2 & F3 & F4).
    eapply step_entry; [exact Hth|by rewrite F1|unfold is_marker; by rewrite F1|exact E|].
    unfold process_offline_entry. rewrite F1. cbn [Z.eqb Pos.eqb orb OFFLINE_TYPE_EXTENDED OFFLINE_TYPE_MEMREF OFFLINE_TYPE_MEMREF_HIGH OFFLINE_TYPE_PC].
    eapply does_bind; [|apply does_ret]. unfold append_bb_entries. rewrite F2, F3, F4.
    unfold block_instrs in H7. destruct (modvec !! Z.to_nat mi) as [m'|] eqn:Em; [|done]. cbn [mbind option_bind] in H7.
    destruct (instrs_at decode n _) as [l'|] eqn:El; [|done]. injection H7 as -> ->.
    eapply does_bind; [by apply does_at_index|]. apply negb_true_iff in H5. rewrite H5, (proj2 (Z.eqb_neq _ _) H8). cbn [orb].
    rewrite (proj2 (Z.eqb_neq _ _)) by lia. eapply does_bind; [apply does_ret|]. apply does_get. intros s Hs.
    rewrite (se_separate _ _ _ Hs). clear s Hs. eapply does_bind; [by apply does_check|]. rewrite Nat2Z.id.
    eapply does_bind; [|apply does_ret].
    pose proof (bb_loop_spec decode accepts accepts_all n m (block_start m mo) l (<[t := VF (refs ++ e :: ws) false []]> files) (out ++ d) t c r refs e ws El H9 H6 He H10) as Hbb.
    rewrite Eo, update_twice, <- app_assoc in Hbb. apply Hbb. by apply list_lookup_insert_eq.
  - destruct Hit as (H1 & H2 & H3 & H4 & m & H5 & H6). exists false. rewrite app_assoc.
    rewrite <- (update_twice files t (VF (refs ++ e :: ws) false []) (VF (e :: ws) false [])).
    eapply reach_trans; [|apply reach_guesses; [done|done|by apply list_lookup_insert_eq]].
    eapply reach_step; [|done]. destruct (pc_entry_fields mo mi (Z.of_nat n) H2 H1 ltac:(lia)) as (F1 & F2 & F3 & F4).
    eapply step_entry; [exact Hth|by rewrite F1|unfold is_marker; by rewrite F1|exact E|].
    unfold process_offline_entry. rewrite F1. cbn [Z.eqb Pos.eqb orb OFFLINE_TYPE_EXTENDED OFFLINE_TYPE_MEMREF OFFLINE_TYPE_MEMREF_HIGH OFFLINE_TYPE_PC].
    eapply does_bind; [|apply does_ret]. unfold append_bb_entries. rewrite F2, F3.
    eapply does_bind; [by apply does_at_index|]. rewrite H6. apply does_ret.
  - destruct Hit as [H1 H2]. exists h. eapply reach_step; [|done]. by eapply step_marker.
  - destruct Hit as (H1 & H2 & H3). exists h. eapply reach_step; [|done].
    assert (F1 : forall a, oe_type (addr_entry OFFLINE_TYPE_IFLUSH a) = OFFLINE_TYPE_IFLUSH) by (intros a; by apply type_addr_entry).
    eapply step_entry; [exact Hth|by rewrite F1|unfold is_marker; by rewrite F1|exact E|].
    unfold process_offline_entry. rewrite F1. cbn [Z.eqb Pos.eqb orb OFFLINE_TYPE_EXTENDED OFFLINE_TYPE_MEMREF OFFLINE_TYPE_MEMREF_HIGH OFFLINE_TYPE_PC OFFLINE_TYPE_IFLUSH].
    eapply does_next; [by apply list_lookup_insert_eq|]. apply does_after. cbv beta iota. rewrite F1.
    eapply does_bind; [by apply does_check|]. rewrite !addr_addr_entry by (rewrite ?u64_small; lia).
    rewrite !update_twice. eapply does_bind; [|apply does_ret]. rewrite !u64_small by (rewrite ?u64_small; lia).
    replace (start + size - start) with size by lia. unfold write_buffered. rewrite app_assoc.
    eapply does_bind. { apply does_check. unfold write_iflush, Online.append_iflush. by destruct (size <=? 65535), (_ =? 0). }
    destruct (write_iflush start size) eqn:Ew; [done|]. by apply does_write_or_fail.
Qed.

(** ** A segment *)

Lemma first_word it : item_ok decode modvec it -> exists w l, item_words it = w :: l /\ not_ref w /\ is_kernel_event w = starts_with_fault [it].
Proof using.
  assert (Hpc : forall mi mo (n : nat), 0 <= mi < 2 ^ 16 -> 0 <= mo < 2 ^ 33 -> Z.of_nat n < 2 ^ 12 ->
    not_ref (pc_entry mo mi (Z.of_nat n)) /\ is_kernel_event (pc_entry mo mi (Z.of_nat n)) = false).
  { intros mi mo n H1 H2 H3. destruct (pc_entry_fields mo mi (Z.of_nat n) H2 H1 ltac:(lia)) as (F1 & _).
    unfold not_ref, is_memref, is_kernel_event. by rewrite F1. }
  destruct it as [mi mo n refs|mi mo n refs|ty val|start size]; cbn [item_words item_ok starts_with_fault]; intros Hit; eexists _, _; (split; [reflexivity|]).
  - apply Hpc; apply Hit.
  - apply Hpc; apply Hit.
  - destruct Hit as [H1 H2]. destruct (ext_entry_fields OFFLINE_EXT_TYPE_MARKER val ty ltac:(done) H2 H1) as (F1 & F2 & _ & F4).
    unfold not_ref, is_memref, is_kernel_event. by rewrite F1, F2, F4.
  - unfold not_ref, is_memref, is_kernel_event. by rewrite type_addr_entry.
Qed.

Lemma items_reach its : forall h files out c r e ws d, Forall (item_ok decode modvec) its -> not_ref e -> is_kernel_event e = false -> 0 < c ->
  files !! t = Some (VF (items_words its ++ e :: ws) false d) ->
  let '(o, p, r') := items_out decode modvec r d its in
  exists h', reach ths h (V files out t c r) ths h' (V (<[t := VF (e :: ws) false p]> files) (out ++ o) t c r').
Proof using Hth accepts_all.
  induction its as [|it its IH]; intros h files out c r e ws d Hok He Hk Hc E; cbn [items_out].
  { exists h. cbn in E. rewrite (list_insert_id _ _ _ E), app_nil_r. apply reach_refl. }
  apply Forall_cons in Hok as [Hit Hok]. pose proof (lookup_lt_Some _ _ _ E) as Ht.
  assert (exists w l, items_words its ++ e :: ws = w :: l /\ not_ref w /\ is_kernel_event w = starts_with_fault its) as (w & l & Ew & Hw & Hf).
  { destruct its as [|it2 its]; [by eexists _, _|]. apply Forall_cons in Hok as [Hit2 _]. destruct (first_word it2 Hit2) as (w & l & Ew & Hw & Hf).
    exists w, (l ++ items_words its ++ e :: ws). unfold items_words. cbn [map concat]. by rewrite Ew, <- !app_assoc. }
  unfold items_words in E. cbn [map concat] in E. rewrite <- app_assoc in E. change (concat (map item_words its)) with (items_words its) in E.
  rewrite Ew in E. pose proof (item_reach it h files out c r w l d Hit Hw Hc E) as H1. rewrite Hf in H1.
  destruct (item_out decode modvec (starts_with_fault its) r d it) as [[o1 p1] r1]. destruct H1 as [h1 H1].
  specialize (IH h1 (<[t := VF (w :: l) false p1]> files) (out ++ o1) c r1 e ws p1 Hok He Hk Hc).
  rewrite <- Ew in IH at 1. rewrite list_lookup_insert_eq in IH by done. specialize (IH eq_refl).
  destruct (items_out decode modvec r1 p1 its) as [[o2 p2] r2]. destruct IH as [h2 IH]. exists h2.
  rewrite update_twice, <- app_assoc in IH. by eapply reach_trans.
Qed.
End Item.
End Merge.
