(* ===== verification/Raw2TraceSpec.v ===== *)
(** * What the conversion guarantees

    The files of any capture of the program are converted, and the trace is
    the capture's segments in the order of their times. *)
From Stdlib Require Import Sorting.Sorted.
From S2P Require Export Raw2TraceMerge Raw2TraceTerm.

Section Spec.
Context (decode : Z -> instr_t * Z) (modvec : list module_t).
Context (accepts : list trace_entry_t -> list trace_entry_t -> bool).
Hypothesis accepts_all : forall out es, accepts out es = true.
Abbreviation does := (does decode).
Abbreviation sees := (sees decode).
Abbreviation step := (merge_step decode modvec accepts).
Abbreviation loop := (merge_loop decode modvec accepts).
Abbreviation reach := (reach decode modvec accepts).
Abbreviation ends := (ends decode modvec accepts).

(** ** The threads and their files *)

(** What the loop holds of a thread with the segments [gs] to come: its next
    time may have been read from its file or not. *)
Definition time_known (th : thread_t) (vf : vfile) (g : segment) (gs : list segment) : Prop :=
  th_time th = seg_time g /\ vf_words vf = items_words (seg_items g) ++ segments_words gs.
Definition time_unknown (th : thread_t) (vf : vfile) (g : segment) (gs : list segment) : Prop :=
  th_time th = 0 /\ vf_words vf = segments_words (g :: gs).

Record thread_at (th : thread_t) (vf : vfile) (a : tview * list segment) : Prop := {
  ta_tid : th_tid th = tv_tid a.1 /\ 0 < tv_tid a.1 < 2 ^ 31;
  ta_pid : th_pid th = tv_pid a.1 /\ 0 < tv_pid a.1 < 2 ^ 31;
  ta_named : th_wrote_pid th = tv_named a.1;
  ta_pending : vf_delayed vf = tv_pending a.1;
  ta_end : vf_end vf = negb (nonempty a.2);
  ta_segs : Forall (segment_ok decode modvec) a.2;
  ta_words : match a.2 with
    | [] => vf_words vf = [] /\ th_time th = 0
    | g :: gs => time_unknown th vf g gs \/ time_known th vf g gs
    end
}.

Lemma Forall3_insert {A B C} (R : A -> B -> C -> Prop) l k k' i x y z :
  Forall3 R l k k' -> R x y z -> Forall3 R (<[i := x]> l) (<[i := y]> k) (<[i := z]> k').
Proof using. intros H Hr. revert i. induction H; intros [|i]; cbn; by constructor. Qed.

(** ** The choice of the next thread *)

(** The first of the earliest of the threads from [i] on, among those before [mn]. *)
Fixpoint pick (ats : list (tview * list segment)) (i : nat) (mn : Z) (next : nat) : nat :=
  match ats with
  | [] => next
  | (_, g :: _) :: ats => if seg_time g <? mn then pick ats (S i) (seg_time g) i else pick ats (S i) mn next
  | _ :: ats => pick ats (S i) mn next
  end.

Lemma pick_spec ats : forall i mn next,
  (pick ats i mn next = next /\ forall j tv g gs, ats !! j = Some (tv, g :: gs) -> mn <= seg_time g) \/
  (exists j tv g gs, pick ats i mn next = (i + j)%nat /\ ats !! j = Some (tv, g :: gs) /\ seg_time g < mn /\
     forall j' tv' g' gs', ats !! j' = Some (tv', g' :: gs') -> seg_time g <= seg_time g' /\ ((j' < j)%nat -> seg_time g < seg_time g')).
Proof using.
  clear. induction ats as [|[tv [|g gs]] ats IH]; intros i mn next; cbn [pick].
  - left. by split.
  - destruct (IH (S i) mn next) as [[-> H]|(j & tv1 & g1 & gs1 & E & E1 & E2 & E3)].
    + left. split; [done|]. intros [|j] tv' g' gs' Ej; [done|]. by eapply H.
    + right. exists (S j), tv1, g1, gs1. split_and!; [lia|done|done|]. intros [|j'] tv' g' gs' Ej; [done|].
      destruct (E3 _ _ _ _ Ej). split; [done|]. intros ?. lia.
  - destruct (seg_time g <? mn) eqn:Hg; [apply Z.ltb_lt in Hg|apply Z.ltb_ge in Hg].
    + right. destruct (IH (S i) (seg_time g) i) as [[-> H]|(j & tv1 & g1 & gs1 & E & E1 & E2 & E3)].
      * exists 0%nat, tv, g, gs. split_and!; [lia|done|done|]. intros [|j'] tv' g' gs' Ej.
        -- injection Ej as <- <- <-. split; lia.
        -- split; [by eapply H|lia].
      * exists (S j), tv1, g1, gs1. split_and!; [lia|done|lia|]. intros [|j'] tv' g' gs' Ej.
        -- injection Ej as <- <- <-. lia.
        -- destruct (E3 _ _ _ _ Ej). lia.
    + destruct (IH (S i) mn next) as [[-> H]|(j & tv1 & g1 & gs1 & E & E1 & E2 & E3)].
      * left. split; [done|]. intros [|j] tv' g' gs' Ej; [injection Ej as <- <- <-; done|]. by eapply H.
      * right. exists (S j), tv1, g1, gs1. split_and!; [lia|done|done|]. intros [|j'] tv' g' gs' Ej.
        -- injection Ej as <- <- <-. lia.
        -- destruct (E3 _ _ _ _ Ej). lia.
Qed.

(** The threads and the files once all times are known. *)
Definition fill (th : thread_t) (a : tview * list segment) : thread_t :=
  match a.2 with [] => th | g :: _ => with_time th (seg_time g) end.
Definition drain (vf : vfile) (a : tview * list segment) : vfile :=
  match a.2 with [] => vf | g :: gs => VF (items_words (seg_items g) ++ segments_words gs) (vf_end vf) (vf_delayed vf) end.

Lemma filled th vf a : thread_at th vf a -> thread_at (fill th a) (drain vf a) a /\
  match a.2 with [] => True | g :: gs => time_known (fill th a) (drain vf a) g gs end.
Proof using.
  intros []. unfold fill, drain. destruct a as [tv [|g gs]]; cbn in *; [by split|]. split; [|done]. constructor; cbn; try done. by right.
Qed.

Lemma does_next_time files i th vf a out t c r : files !! i = Some vf -> thread_at th vf a ->
  does (next_time i th) (V files out t c r) (fill th a) (V (<[i := drain vf a]> files) out t c r).
Proof using.
  intros E Ha. destruct vf as [ws en d]. destruct a as [tv gs]. pose proof (ta_end _ _ _ Ha) as He. pose proof (ta_words _ _ _ Ha) as Hw.
  pose proof (ta_segs _ _ _ Ha) as Hs. cbn in He, Hw, Hs. unfold next_time, fill, drain. cbn [snd vf_end vf_delayed].
  eapply does_bind. { eapply does_at_eof; [done|]. intros ->. destruct gs; [by destruct Hw|done]. }
  destruct gs as [|g gs]; cbn in He; subst en.
  - rewrite andb_false_r, (list_insert_id _ _ _ E). apply does_ret.
  - apply Forall_cons in Hs as [[Hg _] _]. destruct Hw as [[Ht Hw]|[Ht Hw]]; cbn in Hw; rewrite Ht; subst ws.
    + cbn [Z.eqb andb negb]. eapply does_bind; [by eapply does_read|]. cbv beta iota. rewrite type_addr_entry by done.
      eapply does_bind; [by apply does_check|]. rewrite addr_addr_entry by lia. rewrite <- app_assoc. apply does_ret.
    + rewrite (proj2 (Z.eqb_neq _ _)) by lia. cbn [andb]. rewrite (list_insert_id _ _ _ E). rewrite <- Ht.
      replace (with_time th (th_time th)) with th by by destruct th. apply does_ret.
Qed.

Lemma does_pick ths fs ats : Forall3 thread_at ths fs ats -> forall pre mn next out t c r,
  does (pick_thread ths (length pre) mn next) (V (pre ++ fs) out t c r)
    (zip_with fill ths ats, pick ats (length pre) mn next) (V (pre ++ zip_with drain fs ats) out t c r).
Proof using.
  induction 1 as [|th vf a ths fs ats Ha H IH]; intros pre mn next out t c r; cbn [pick_thread pick zip_with]; [apply does_ret|].
  eapply does_bind. { apply (does_next_time _ (length pre) th vf a); [by rewrite list_lookup_middle|done]. }
  rewrite insert_app_r_alt, Nat.sub_diag by done. cbn [insert list_insert].
  set (better := negb (th_time (fill th a) =? 0) && (th_time (fill th a) <? mn)).
  specialize (IH (pre ++ [drain vf a])). rewrite length_app, Nat.add_1_r in IH. setoid_rewrite <- app_assoc in IH. cbn [app] in IH.
  eapply does_bind; [apply IH|]. cbv beta iota.
  replace (pick ats (S (length pre)) (if better then th_time (fill th a) else mn) (if better then length pre else next)) with
    (match a with (_, g :: _) => if seg_time g <? mn then pick ats (S (length pre)) (seg_time g) (length pre) else pick ats (S (length pre)) mn next
     | _ => pick ats (S (length pre)) mn next end); [by destruct a as [tv [|g gs]]; apply does_ret|].
  unfold better. pose proof (ta_segs _ _ _ Ha) as Hs. pose proof (ta_words _ _ _ Ha) as Hw. destruct a as [tv [|g gs]]; cbn in *.
  - destruct Hw as [_ ->]. done.
  - apply Forall_cons in Hs as [[Hg _] _]. rewrite (proj2 (Z.eqb_neq _ _)) by lia. cbn. by destruct (seg_time g <? mn).
Qed.

(** ** One segment of the merge *)

Definition unfinished (ats : list (tview * list segment)) : Z := countb (fun a => nonempty a.2) ats.

Lemma unfinished_insert ats k a b : ats !! k = Some a ->
  unfinished (<[k := b]> ats) = unfinished ats - (if nonempty a.2 then 1 else 0) + (if nonempty b.2 then 1 else 0).
Proof using.
  clear. unfold unfinished. revert k. induction ats as [|x ats IH]; intros [|k] E; try done.
  - injection E as ->. change (<[0%nat := b]> (a :: ats)) with (b :: ats). rewrite !countb_cons. lia.
  - change (<[S k := b]> (x :: ats)) with (x :: <[k := b]> ats). rewrite !countb_cons, (IH k E). lia.
Qed.

Lemma unfinished_some ats : 0 < unfinished ats -> exists j tv g gs, ats !! j = Some (tv, g :: gs).
Proof using.
  clear. unfold unfinished. induction ats as [|[tv [|g gs]] ats IH]; [done| |].
  - rewrite countb_cons. cbn. intros H. destruct IH as (j & tv' & g & gs & E); [lia|]. by exists (S j), tv', g, gs.
  - intros _. by exists 0%nat, tv, g, gs.
Qed.

Definition started (th : thread_t) : thread_t := {| th_tid := th_tid th; th_pid := th_pid th; th_wrote_pid := true; th_time := 0 |}.

Lemma does_start_segment ths files ats out t c r : Forall3 thread_at ths files ats -> 0 < unfinished ats ->
  exists k tv g gs th vf, ats !! k = Some (tv, g :: gs) /\ earliest (map snd ats) k (seg_time g) /\
    zip_with fill ths ats !! k = Some th /\ zip_with drain files ats !! k = Some vf /\
    does (start_segment accepts ths) (V files out t c r) (<[k := started th]> (zip_with fill ths ats))
      (V (zip_with drain files ats) (out ++ segment_head tv (seg_time g)) k c r) /\
    thread_at th vf (tv, g :: gs) /\ time_known th vf g gs.
Proof using accepts_all.
  intros H Hu. destruct (unfinished_some _ Hu) as (j0 & tv0 & g0 & gs0 & E0).
  destruct (pick_spec ats 0 ULONG_MAX 0) as [[_ Hn]|(k & tv & g & gs & Ek & E & _ & Hmin)].
  { exfalso. specialize (Hn _ _ _ _ E0). destruct (Forall3_lookup_r _ _ _ _ _ _ H E0) as (th0 & vf0 & _ & _ & Ha).
    pose proof (ta_segs _ _ _ Ha) as Hs. apply Forall_cons in Hs as [[Hg _] _]. unfold ULONG_MAX in Hn. lia. }
  destruct (Forall3_lookup_r _ _ _ _ _ _ H E) as (th & vf & Eth & Evf & Ha). destruct (filled _ _ _ Ha) as [Ha' Hk'].
  exists k, tv, g, gs, (fill th (tv, g :: gs)), (drain vf (tv, g :: gs)).
  assert (Eth' : zip_with fill ths ats !! k = Some (fill th (tv, g :: gs))) by (rewrite lookup_zip_with, Eth, E; done).
  assert (Evf' : zip_with drain files ats !! k = Some (drain vf (tv, g :: gs))) by (rewrite lookup_zip_with, Evf, E; done).
  split_and!; [done| |done|done| |done|done].
  { intros j g' gs' Ej. rewrite list_lookup_fmap in Ej. destruct (ats !! j) as [[tv' gs1]|] eqn:E1; [|done]. injection Ej as ->. by eapply Hmin. }
  unfold start_segment. pose proof (does_pick _ _ _ H [] ULONG_MAX 0%nat out t c r) as Hp. cbn [app length] in Hp. rewrite Ek in Hp.
  eapply does_bind; [exact Hp|]. cbv beta iota. cbn [Nat.add]. eapply does_bind; [apply does_tidx|]. eapply does_bind; [by apply does_at_index|].
  destruct (ta_tid _ _ _ Ha) as [T1 T2]. destruct (ta_pid _ _ _ Ha) as [P1 P2]. cbn in T1, T2, P1, P2.
  unfold fill. cbn [snd with_time th_tid th_pid th_wrote_pid th_time]. rewrite (ta_named _ _ _ Ha). rewrite T1, P1. cbn [fst].
  eapply does_bind. { apply does_assert, negb_true_iff, Z.eqb_neq. unfold INVALID_THREAD_ID. lia. }
  eapply does_bind. { apply does_assert. rewrite (proj2 (Z.eqb_neq _ _)); [by rewrite orb_true_r|unfold INVALID_PROCESS_ID; lia]. }
  eapply does_bind. { apply does_check. by destruct (tv_named tv). }
  eapply does_bind; [by apply does_write_or_fail|]. unfold started. cbn [with_time th_tid th_pid]. rewrite T1, P1. apply does_ret.
Qed.

(** The loop gets to the view, and goes on from it while a thread is left. *)
Definition runs_to (ths : list thread_t) (h : bool) (v : view) (ths' : list thread_t) (h' : bool) (v' : view) : Prop :=
  if 0 <? v_count v' then reach ths h v ths' h' v' else ends ths h v v'.

Lemma runs_to_step ths h v ths' h' v' : does (step ths h) v (ths', h') v' -> 0 <= v_count v' -> runs_to ths h v ths' h' v'.
Proof using.
  intros H Hc. unfold runs_to. destruct (0 <? v_count v') eqn:E; [apply Z.ltb_lt in E|apply Z.ltb_ge in E].
  - by apply reach_step.
  - eapply ends_step; [done|lia].
Qed.

Lemma reach_runs ths h v ths1 h1 v1 ths2 h2 v2 : reach ths h v ths1 h1 v1 -> runs_to ths1 h1 v1 ths2 h2 v2 -> runs_to ths h v ths2 h2 v2.
Proof using. unfold runs_to. destruct (0 <? v_count v2); [apply reach_trans|apply reach_ends]. Qed.

(** The choice of a thread is part of the turn for its first entry. *)
Lemma start_runs ths h files out c r ths1 files1 out1 k ths2 h2 v2 : length files1 = length files -> (k < length files)%nat ->
  does (start_segment accepts ths) (V files out (length files) c r) ths1 (V files1 out1 k c r) ->
  runs_to ths1 h (V files1 out1 k c r) ths2 h2 v2 -> runs_to ths h (V files out (length files) c r) ths2 h2 v2.
Proof using.
  intros Hl Hk Hd Hr. assert (Hs : forall s, sees s (V files out (length files) c r) ->
    exists s1, sees s1 (V files1 out1 k c r) /\ forall fuel, loop (S fuel) ths h s = loop (S fuel) ths1 h s1).
  { intros s Hs. destruct (Hd s Hs) as (s1 & E & Hs1). exists s1. split; [done|]. intros fuel. rewrite !loop_S. unfold mbind at 1 3, conv_bind at 1 3.
    assert (step ths h s = step ths1 h s1) as ->; [|done]. unfold merge_step. cbv [mbind conv_bind get mret conv_ret].
    rewrite (sees_length _ _ _ Hs), (se_tidx _ _ _ Hs), (sees_length _ _ _ Hs1), (se_tidx _ _ _ Hs1). cbn [v_files v_tidx].
    rewrite Nat.leb_refl, (proj2 (Nat.leb_gt _ _)) by lia. by rewrite E. }
  unfold runs_to in *. destruct (0 <? v_count v2); intros s S0; destruct (Hs s S0) as (s1 & S1 & E1); destruct (Hr s1 S1) as (s2 & k2 & S2 & E2).
  - exists s2, k2. split; [done|]. intros fuel. replace (k2 + S fuel)%nat with (S (k2 + fuel)) by lia. rewrite E1, <- E2. f_equal. lia.
  - exists s2, (S k2). split; [done|]. intros fuel. change (S k2 + fuel)%nat with (S (k2 + fuel)). rewrite E1, <- (E2 (S fuel)). f_equal. lia.
Qed.

(** The rest of a segment, once it has been started. *)
Lemma segment_runs ths h files ats out k c r tv g gs th vf : Forall3 thread_at ths files ats -> ats !! k = Some (tv, g :: gs) ->
  ths !! k = Some th -> files !! k = Some vf -> thread_at th vf (tv, g :: gs) -> time_known th vf g gs ->
  c = unfinished ats -> c < w32 ->
  let '(o, p, r') := items_out decode modvec r (tv_pending tv) (seg_items g) in
  let ats' := <[k := (after_segment tv (if nonempty gs then p else []), gs)]> ats in
  exists ths' h' files', Forall3 thread_at ths' files' ats' /\
    runs_to (<[k := started th]> ths) h (V files out k c r) ths' h'
      (V files' (out ++ o ++ (if nonempty gs then [] else p ++ write_thread_exit (tv_tid tv))) (length files) (unfinished ats') r').
Proof using accepts_all.
  intros H E Eth Evf Ha [Htime Hwords] Hc Hw. destruct vf as [ws en d]. pose proof (ta_end _ _ _ Ha) as He. pose proof (ta_pending _ _ _ Ha) as Hd.
  pose proof (ta_segs _ _ _ Ha) as Hs. cbn in He, Hd, Hs, Hwords. subst ws en d. apply Forall_cons in Hs as [[Hg Hits] Hgs].
  pose proof (lookup_lt_Some _ _ _ Eth) as Hkt. pose proof (lookup_lt_Some _ _ _ Evf) as Hkf.
  set (th1 := started th). assert (Eth1 : <[k := th1]> ths !! k = Some th1) by by apply list_lookup_insert_eq.
  pose proof (unfinished_insert ats k (tv, g :: gs)) as Hu.
  assert (Hpos : 0 < unfinished ats).
  { specialize (Hu (tv, []) E). cbn in Hu. pose proof (countb_nonneg (fun a : tview * list segment => nonempty a.2) (<[k := (tv, [])]> ats)). unfold unfinished in *. lia. }
  assert (exists e ws, segments_words gs = e :: ws /\ not_ref e /\ is_kernel_event e = false) as (e & ws & Ew & Hne & Hke).
  { destruct gs as [|g2 gs]; [by eexists _, _|]. eexists _, _. split; [reflexivity|]. unfold not_ref, is_memref, is_kernel_event. by rewrite type_addr_entry. }
  pose proof (items_reach decode modvec accepts accepts_all (<[k := th1]> ths) th1 k Eth1 (seg_items g) h files out c r e ws (tv_pending tv) Hits Hne Hke ltac:(lia)) as Hr.
  rewrite <- Ew in Hr. specialize (Hr Evf). destruct (items_out decode modvec r (tv_pending tv) (seg_items g)) as [[o p] r']. destruct Hr as [h1 Hr]. cbv zeta.
  set (files1 := <[k := VF (segments_words gs) false p]> files) in *.
  assert (Ef1 : files1 !! k = Some (VF (segments_words gs) false p)) by by apply list_lookup_insert_eq.
  assert (Hl1 : length files1 = length files) by (unfold files1; by rewrite length_insert).
  destruct (ta_tid _ _ _ Ha) as [T1 T2]. destruct (ta_pid _ _ _ Ha) as [P1 P2]. cbn in T1, T2, P1, P2.
  destruct gs as [|g2 gs]; cbn [nonempty].
  - pose proof (step_footer decode modvec accepts accepts_all (<[k := th1]> ths) th1 files1 k Eth1 h1 (out ++ o) c r' p ltac:(lia) ltac:(cbn; lia) Ef1) as Hstep.
    rewrite Hl1 in Hstep. exists (<[k := th1]> ths), h1, (<[k := VF [] true []]> files). split.
    { apply Forall3_insert; [done|]. constructor; cbn; try done. }
    eapply reach_runs; [exact Hr|]. rewrite Hu by done. cbn [nonempty snd]. rewrite <- Hc, Z.add_0_r. rewrite <- app_assoc in Hstep.
    unfold files1 in Hstep at 2. rewrite update_twice in Hstep. change (th_tid th1) with (th_tid th) in Hstep. rewrite T1 in Hstep.
    apply runs_to_step; [exact Hstep|cbn; lia].
  - apply Forall_cons in Hgs as [Hg2 Hgs]. destruct (id Hg2) as [Ht2 _].
    pose proof (step_timestamp decode modvec accepts (<[k := th1]> ths) th1 files1 k Eth1 h1 (out ++ o) c r' (seg_time g2) (items_words (seg_items g2) ++ segments_words gs) p ltac:(lia)) as Hstep.
    rewrite Hl1 in Hstep. exists (<[k := with_time th1 (seg_time g2)]> ths), h1, (<[k := VF (items_words (seg_items g2) ++ segments_words gs) false p]> files). split.
    { apply Forall3_insert; [done|]. constructor; cbn; try done; [by apply Forall_cons|by right]. }
    eapply reach_runs; [exact Hr|]. rewrite Hu by done. cbn [nonempty snd]. rewrite <- Hc, app_nil_r. replace (c - 1 + 1) with c by lia.
    unfold files1 in Hstep at 3. rewrite !update_twice in Hstep. apply runs_to_step; [|cbn; lia]. apply Hstep. rewrite Ef1.
    unfold segments_words. cbn [map concat segment_words]. by rewrite <- app_assoc.
Qed.

(** ** The whole merge *)

Definition segments_left (ats : list (tview * list segment)) : nat := sum_list_with (fun a => length a.2) ats.

Lemma segments_left_insert ats k tv g gs tv' : ats !! k = Some (tv, g :: gs) -> segments_left ats = S (segments_left (<[k := (tv', gs)]> ats)).
Proof using.
  clear. unfold segments_left. revert k. induction ats as [|a ats IH]; intros [|k] E; try done.
  - injection E as ->. cbn. lia.
  - change (<[S k := (tv', gs)]> (a :: ats)) with (a :: <[k := (tv', gs)]> ats). cbn [sum_list_with]. rewrite (IH k E). lia.
Qed.

Lemma segment_out_eq rep t g (gs : list segment) : segment_out decode modvec rep t g (negb (nonempty gs)) =
  let '(o, p, rep) := items_out decode modvec rep (tv_pending t) (seg_items g) in
  (segment_head t (seg_time g) ++ o ++ (if nonempty gs then [] else p ++ write_thread_exit (tv_tid t)), (if nonempty gs then p else []), rep).
Proof using.
  clear. unfold segment_out. destruct (items_out decode modvec rep (tv_pending t) (seg_items g)) as [[o p] r].
  destruct gs; cbn [nonempty negb]; [done|]. by rewrite app_nil_r.
Qed.

Lemma merge_ends n : forall ats ths h files out r, segments_left ats = n -> Forall3 thread_at ths files ats -> 0 < unfinished ats < w32 ->
  exists sched files' i r', merges (snd <$> ats) sched /\
    ends ths h (V files out (length files) (unfinished ats) r) (V files' (out ++ render decode modvec r (fst <$> ats) sched) i 0 r').
Proof using accepts_all.
  induction n as [|n IH]; intros ats ths h files out r Hn H [Hu1 Hu2];
    destruct (does_start_segment ths files ats out (length files) (unfinished ats) r H Hu1) as (k & tv & g & gs & th & vf & E & He & Eth & Evf & Hs & Ha & Hk).
  { by rewrite (segments_left_insert _ _ _ _ _ tv E) in Hn. }
  assert (H1 : Forall3 thread_at (zip_with fill ths ats) (zip_with drain files ats) ats).
  { clear -H. induction H; cbn; constructor; [|done]. by apply filled. }
  pose proof (segment_runs _ h _ _ (out ++ segment_head tv (seg_time g)) k _ r tv g gs th vf H1 E Eth Evf Ha Hk eq_refl Hu2) as Hr.
  pose proof (segment_out_eq r tv g gs) as Ho. destruct (items_out decode modvec r (tv_pending tv) (seg_items g)) as [[o p] r1].
  cbv zeta in Hr. set (p' := if nonempty gs then p else []) in *. set (ats1 := <[k := (after_segment tv p', gs)]> ats) in *.
  destruct Hr as (ths1 & h1 & files1 & H2 & Hr).
  assert (Lk : (k < length files)%nat).
  { rewrite <- (Forall3_length_lm _ _ _ _ H). apply lookup_lt_Some in Eth. by rewrite length_zip_with_l_eq in Eth by apply (Forall3_length_lr _ _ _ _ H). }
  assert (Ld : length (zip_with drain files ats) = length files).
  { apply length_zip_with_l_eq. rewrite <- (Forall3_length_lm _ _ _ _ H). apply (Forall3_length_lr _ _ _ _ H). }
  assert (L1 : length files1 = length files).
  { rewrite <- (Forall3_length_lm _ _ _ _ H2), (Forall3_length_lr _ _ _ _ H2). unfold ats1. rewrite length_insert.
    by rewrite <- (Forall3_length_lr _ _ _ _ H), (Forall3_length_lm _ _ _ _ H). }
  rewrite Ld in Hr. apply (start_runs ths h files out _ r _ _ _ k) in Hr; [|done..]. unfold runs_to in Hr. cbn [v_count] in Hr.
  assert (Hm : forall sched, merges (snd <$> ats1) sched -> merges (snd <$> ats) ((k, g, negb (nonempty gs)) :: sched)).
  { intros sched Hm. eapply merges_cons; [by rewrite list_lookup_fmap, E|exact He|]. unfold ats1 in Hm. by rewrite list_fmap_insert in Hm. }
  assert (Hren : forall sched, render decode modvec r (fst <$> ats) ((k, g, negb (nonempty gs)) :: sched) =
     (segment_head tv (seg_time g) ++ o ++ (if nonempty gs then [] else p ++ write_thread_exit (tv_tid tv))) ++ render decode modvec r1 (fst <$> ats1) sched).
  { intros sched. cbn [render]. rewrite list_lookup_fmap, E. cbn [fmap option_fmap option_map fst]. rewrite Ho. unfold ats1. by rewrite list_fmap_insert. }
  rewrite (segments_left_insert ats k tv g gs (after_segment tv p') E) in Hn. fold ats1 in Hn. injection Hn as Hn.
  pose proof (unfinished_insert ats k (tv, g :: gs) (after_segment tv p', gs) E) as Hu. fold ats1 in Hu. cbn [nonempty snd] in Hu.
  destruct (0 <? unfinished ats1) eqn:E0; [apply Z.ltb_lt in E0|apply Z.ltb_ge in E0].
  - destruct (IH ats1 ths1 h1 files1 (out ++ segment_head tv (seg_time g) ++ o ++ (if nonempty gs then [] else p ++ write_thread_exit (tv_tid tv))) r1 Hn H2)
      as (sched & files' & i & r' & M & F); [destruct (nonempty gs); lia|].
    exists ((k, g, negb (nonempty gs)) :: sched), files', i, r'. split; [by apply Hm|]. rewrite Hren, app_assoc.
    rewrite <- app_assoc in Hr. rewrite L1 in F. eapply reach_ends; [exact Hr|exact F].
  - assert (Z0 : unfinished ats1 = 0) by (pose proof (countb_nonneg (fun a : tview * list segment => nonempty a.2) ats1); unfold unfinished in *; lia).
    eexists [(k, g, negb (nonempty gs))], files1, (length files), r1. split.
    { apply Hm, merges_nil. apply Forall_fmap, Forall_forall. intros [tv1 [|g1 gs1]] Hin; [done|]. exfalso.
      apply list_elem_of_lookup in Hin as [j Ej]. pose proof (unfinished_insert ats1 j _ (tv1, []) Ej) as Hu1'. cbn in Hu1'.
      pose proof (countb_nonneg (fun a : tview * list segment => nonempty a.2) (<[j := (tv1, [])]> ats1)). unfold unfinished in *. lia. }
    rewrite Hren. cbn [render]. rewrite app_nil_r. rewrite <- app_assoc in Hr. by rewrite Z0 in Hr.
Qed.

(** ** The headers *)

Definition header_file (l : log) : vfile :=
  VF (Offline.append_tid (log_tid l) ++ Offline.append_pid (log_pid l) ++ segments_words (log_segs l)) false [].
Definition body_file (l : log) : vfile := VF (segments_words (log_segs l)) false [].
Definition new_thread (l : log) : thread_t := {| th_tid := log_tid l; th_pid := log_pid l; th_wrote_pid := false; th_time := 0 |}.

Lemma id_entry t id : 0 < id < 2 ^ 31 -> s32 (oe_addr (addr_entry t (u64 id))) = id.
Proof using. clear. intros H. rewrite u64_small, addr_addr_entry, s32_small by lia. done. Qed.

Lemma does_next_or_fail msg files out t c r e ws en d : files !! t = Some (VF (e :: ws) en d) ->
  does (next_or_fail msg) (V files out t c r) e (V (<[t := VF ws en d]> files) out t c r).
Proof using. clear. intros E. unfold next_or_fail. eapply does_next; [done|]. apply does_after, does_ret. Qed.

Lemma does_read_header l files out t c r : log_ok decode modvec l -> files !! t = Some (header_file l) ->
  does read_header (V files out t c r) (new_thread l) (V (<[t := body_file l]> files) out t c r).
Proof using.
  intros [H1 H2 _ _] E. pose proof (lookup_lt_Some _ _ _ E) as Ht. unfold read_header.
  eapply does_bind; [eapply does_next_or_fail; exact E|]. rewrite !type_addr_entry by done.
  cbn [Z.eqb Pos.eqb OFFLINE_TYPE_THREAD OFFLINE_TYPE_TIMESTAMP]. eapply does_bind; [apply does_ret|]. cbv beta iota.
  rewrite type_addr_entry by done. eapply does_bind; [by apply does_assert|].
  eapply does_bind; [eapply does_next_or_fail; by apply list_lookup_insert_eq|]. rewrite type_addr_entry by done.
  eapply does_bind; [by apply does_assert|]. rewrite update_twice, !id_entry by done. apply does_ret.
Qed.

Lemma does_read_headers logs : forall pre out c r, Forall (log_ok decode modvec) logs ->
  does (read_headers (length logs)) (V (pre ++ map header_file logs) out (length pre) c r) (map new_thread logs)
    (V (pre ++ map body_file logs) out (length pre + length logs) c r).
Proof using.
  clear accepts_all. induction logs as [|l logs IH]; intros pre out c r Hl; cbn [length map read_headers].
  { rewrite Nat.add_0_r. apply does_ret. }
  apply Forall_cons in Hl as [Hl Hls]. eapply does_bind.
  { apply (does_read_header l); [done|]. by rewrite list_lookup_middle. }
  rewrite insert_app_r_alt, Nat.sub_diag by done. cbn [insert list_insert].
  eapply does_bind; [apply does_next_tidx|].
  specialize (IH (pre ++ [body_file l]) out c r Hls). rewrite length_app, <- !app_assoc in IH. cbn [app length v_tidx] in IH |- *.
  replace (length pre + 1)%nat with (S (length pre)) in IH by lia. rewrite Nat.add_succ_r. eapply does_bind; [exact IH|]. apply does_ret.
Qed.

(** The files as they are opened. *)
Lemma open_log l : log_ok decode modvec l -> exists f, open_thread_log_file (log_words l) = inl f /\ file_view f = header_file l /\ file_ok f.
Proof using. intros _. eexists. split; [reflexivity|]. split; [done|]. split; [cbn; lia|done]. Qed.

Lemma open_logs logs : Forall (log_ok decode modvec) logs ->
  exists files, open_thread_files (map log_words logs) = inl files /\ file_view <$> files = map header_file logs /\ Forall file_ok files.
Proof using.
  clear accepts_all. induction 1 as [|l logs Hl Hls IH]; [by exists []|]. destruct IH as (files & E & E1 & E2).
  destruct (open_log l Hl) as (f & Ef & Ef1 & Ef2). exists (f :: files). cbn [map open_thread_files]. rewrite Ef, E. split; [done|].
  cbn. rewrite Ef1. split; [by rewrite <- E1|]. by constructor.
Qed.

(** The words a view has left. *)
Lemma sees_words s v : sees s v -> words s = sum_list_with (fun f => length (vf_words f)) (v_files v).
Proof using.
  clear. intros H. rewrite <- (se_files _ _ _ H). unfold words, words_of. induction (thread_files s) as [|f fs IH]; [done|].
  cbn. rewrite IH. by rewrite length_app.
Qed.

Lemma body_words logs : (sum_list_with (fun f => length (vf_words f)) (map body_file logs) + length logs <= length (concat (map log_words logs)))%nat.
Proof using. clear. induction logs as [|l logs IH]; [done|]. cbn. rewrite length_app. lia. Qed.

Lemma loop_more fuel : forall fuel' ths h s r s', loop fuel ths h s = (r, s') -> r <> Exhausted -> (fuel <= fuel')%nat -> loop fuel' ths h s = (r, s').
Proof using.
  clear. induction fuel as [|fuel IH]; intros fuel' ths h s r s' E Hr Hf; [by injection E as <- <-|].
  destruct fuel' as [|fuel']; [lia|]. rewrite loop_S in *. apply bind_cases in E as (r1 & s1 & E1 & E).
  unfold mbind at 1, conv_bind at 1. rewrite E1. destruct r1 as [[ths1 h1]|msg| |]; try (by destruct E as [-> ->]).
  apply bind_cases in E as (r2 & s2 & [= <- <-] & E). unfold mbind, conv_bind, get. destruct (0 <? thread_count s1); [|done].
  eapply IH; [done|done|lia].
Qed.

(** The threads at the start of the merge. *)
Definition start_of (l : log) : tview * list segment := (new_tview l, log_segs l).

Lemma threads_at_start logs : Forall (log_ok decode modvec) logs -> Forall3 thread_at (map new_thread logs) (map body_file logs) (map start_of logs).
Proof using.
  clear accepts_all. induction 1 as [|l logs [H1 H2 H3 H4] _ IH]; cbn; constructor; [|done]. constructor; cbn; try done.
  - by destruct (log_segs l).
  - destruct (log_segs l) as [|g gs] eqn:E; [done|]. left. unfold body_file. rewrite E. split; reflexivity.
Qed.

Lemma all_unfinished logs : Forall (log_ok decode modvec) logs -> unfinished (map start_of logs) = Z.of_nat (length logs).
Proof using.
  clear accepts_all. unfold unfinished. induction 1 as [|l logs [_ _ H _] _ IH]; [done|]. cbn [map]. rewrite countb_cons, IH. cbn [start_of snd].
  destruct (log_segs l); [done|]. cbn [nonempty length]. lia.
Qed.

Lemma merge_does logs v' fuel : logs <> [] -> Z.of_nat (length logs) < w32 -> Forall (log_ok decode modvec) logs ->
  ends (map new_thread logs) true (V (map body_file logs) [header_entry] (length logs) (Z.of_nat (length logs)) false) v' ->
  (length (concat (map log_words logs)) <= fuel)%nat ->
  does (merge_and_process_thread_files decode modvec accepts fuel) (V (map header_file logs) [header_entry] 0 0 false) tt v'.
Proof using accepts_all.
  intros Hne Hl Hok He Hfuel. unfold merge_and_process_thread_files. apply does_get. intros s Hs.
  pose proof (sees_length _ _ _ Hs) as Hlen. cbn [v_files] in Hlen. rewrite length_map in Hlen.
  eapply does_bind; [apply does_check; destruct (thread_files s), logs; done|]. rewrite Hlen.
  eapply does_bind; [apply does_count|]. eapply does_bind; [apply does_tidx|].
  eapply does_bind; [apply (does_read_headers logs [] _ _ _ Hok)|]. cbn [app length Nat.add]. intros s1 Hs1.
  destruct (He s1 Hs1) as (s2 & k & Hs2 & E). exists s2. split; [|done]. specialize (E fuel).
  pose proof (merge_loop_ends decode modvec accepts fuel (map new_thread logs) true s1) as Hend.
  destruct (loop fuel (map new_thread logs) true s1) as [r s3] eqn:E3. rewrite (loop_more fuel (k + fuel) _ _ _ _ _ E3) in E; [done| |lia].
  apply Hend. { rewrite (se_count _ _ _ Hs1). cbn [v_count]. destruct logs; [done|cbn [length] in *; lia]. }
  unfold measure. rewrite (se_count _ _ _ Hs1), (sees_words _ _ Hs1). cbn [v_count v_files]. pose proof (body_words logs). lia.
Qed.

Lemma conversion_runs (logs : list log) :
  logs <> [] -> Z.of_nat (length logs) < w32 -> Forall (log_ok decode modvec) logs ->
  exists files sched, open_thread_files (map log_words logs) = inl files /\ merges (map log_segs logs) sched /\
    forall fuel, (length (concat (map log_words logs)) <= fuel)%nat ->
      exists s, do_conversion decode modvec accepts fuel (new_raw2trace files) = (Done tt, s) /\
        out_file s = header_entry :: render decode modvec false (map new_tview logs) sched ++ [footer_entry].
Proof using accepts_all.
  intros Hne Hl Hok. destruct (open_logs logs Hok) as (files & Eo & Ev & Ef).
  pose proof (threads_at_start logs Hok) as H3. pose proof (all_unfinished logs Hok) as Hu.
  assert (Hpos : (0 < length logs)%nat) by (destruct logs; [done|cbn; lia]).
  destruct (merge_ends _ (map start_of logs) (map new_thread logs) true (map body_file logs) [header_entry] false eq_refl H3 ltac:(lia))
    as (sched & files' & i & r' & Hm & He).
  assert (Hsnd : snd <$> map start_of logs = map log_segs logs) by apply List.map_map.
  assert (Hfst : fst <$> map start_of logs = map new_tview logs) by apply List.map_map.
  rewrite Hsnd in Hm. rewrite Hfst, Hu, length_map in He. clear Hsnd Hfst. exists files, sched. split; [done|]. split; [done|].
  intros fuel Hfuel.
  assert (Hd : does (do_conversion decode modvec accepts fuel) (V (map header_file logs) [] 0 0 false) tt
    (V files' (([header_entry] ++ render decode modvec false (map new_tview logs) sched) ++ [footer_entry]) i 0 r')).
  { unfold do_conversion. eapply does_bind; [by apply does_write|]. eapply does_bind; [by apply does_check|].
    eapply does_bind; [by apply (merge_does logs _ fuel Hne Hl Hok He)|]. eapply does_bind; [by apply does_write|]. by apply does_check. }
  destruct (Hd (new_raw2trace files)) as (s & E & Hs); [by constructor|]. exists s. split; [done|]. exact (se_out _ _ _ Hs).
Qed.

(** ** The order of the segments *)

Lemma merges_all (P : segment -> Prop) gss sched : merges gss sched -> Forall (Forall P) gss -> Forall (fun x => P x.1.2) sched.
Proof using.
  clear. induction 1 as [|gss i g gs sched E _ _ IH]; intros Hall; [constructor|]. pose proof (Forall_lookup_1 _ _ _ _ Hall E) as Hg.
  apply Forall_cons in Hg as [Hg Hgs]. constructor; [done|]. apply IH. by apply Forall_insert.
Qed.

(** There is one order only. *)
Lemma merges_unique gss sched sched' : merges gss sched -> merges gss sched' -> sched = sched'.
Proof using.
  clear. intros H. revert sched'. induction H as [gss Hnil|gss i g gs sched E He _ IH]; intros sched' H';
    inversion H' as [gss' Hnil'|gss' j g' gs' sched1 E' He' Hm']; subst; [done|..].
  - by pose proof (Forall_lookup_1 _ _ _ _ Hnil E').
  - by pose proof (Forall_lookup_1 _ _ _ _ Hnil' E).
  - destruct (He _ _ _ E'), (He' _ _ _ E). assert (i = j) as <- by lia. rewrite E in E'. injection E' as <- <-. f_equal. by apply IH.
Qed.

(** The segments of one thread, in its order, the last marked. *)
Lemma merges_thread gss sched : merges gss sched -> forall i gs, gss !! i = Some gs ->
  map (fun x => x.1.2) (filter (fun x => x.1.1 = i) sched) = gs.
Proof using.
  clear. induction 1 as [gss Hnil|gss i g gs sched E _ _ IH]; intros j gs' Ej.
  - by rewrite (Forall_lookup_1 _ _ _ _ Hnil Ej).
  - rewrite filter_cons. cbn. destruct (decide (i = j)) as [->|Hij].
    + replace gs' with (g :: gs) by congruence. cbn. f_equal. apply IH. apply list_lookup_insert_eq. by eapply lookup_lt_Some.
    + apply IH. by rewrite list_lookup_insert_ne.
Qed.

Lemma merges_sorted gss sched : merges gss sched -> Forall (StronglySorted (fun g g' => seg_time g <= seg_time g')) gss ->
  StronglySorted (fun x y => seg_time x.1.2 <= seg_time y.1.2) sched.
Proof using.
  clear. induction 1 as [|gss i g gs sched E He Hm IH]; intros Hss; [constructor|]. pose proof (Forall_lookup_1 _ _ _ _ Hss E) as Hg.
  apply StronglySorted_inv in Hg as [Hgs Hg]. constructor; [apply IH; by apply Forall_insert|].
  apply (merges_all (fun g' => seg_time g <= seg_time g') _ _ Hm). apply Forall_insert; [|done].
  apply Forall_lookup. intros j [|g' gs'] Ej; [constructor|]. destruct (He _ _ _ Ej) as [Hle _]. constructor; [done|].
  pose proof (Forall_lookup_1 _ _ _ _ Hss Ej) as Hs. apply StronglySorted_inv in Hs as [_ Hs]. eapply Forall_impl; [exact Hs|]. cbn. lia.
Qed.

(** C3. The conversion of a capture of the program: the files the traced threads
    wrote are converted without an error, with as much fuel as there are words,
    and the trace holds all the segments of every thread between the header and
    the footer, each thread's in its order and always the earliest of those that
    are next, the first thread's when two times are the same: the times of the
    trace do not decrease if no thread's do.  In front of a segment are its thread's id, the process's the first
    time, and the time; each instruction is followed by its references; a branch
    at the end of a segment moves to the start of the thread's next one, and a
    thread's exit ends its last one. *)
Theorem conversion_of_captures (logs : list log) :
  logs <> [] -> Z.of_nat (length logs) < w32 -> Forall (log_ok decode modvec) logs ->
  exists files sched, open_thread_files (map log_words logs) = inl files /\
    (forall i l, logs !! i = Some l -> map (fun x => x.1.2) (filter (fun x => x.1.1 = i) sched) = log_segs l) /\
    (Forall (fun l => StronglySorted (fun g g' => seg_time g <= seg_time g') (log_segs l)) logs ->
       StronglySorted (fun x y => seg_time x.1.2 <= seg_time y.1.2) sched) /\
    merges (map log_segs logs) sched /\
    forall fuel, (length (concat (map log_words logs)) <= fuel)%nat ->
      exists s, do_conversion decode modvec accepts fuel (new_raw2trace files) = (Done tt, s) /\
        out_file s = header_entry :: render decode modvec false (map new_tview logs) sched ++ [footer_entry].
Proof using accepts_all.
  intros Hne Hl Hok. destruct (conversion_runs logs Hne Hl Hok) as (files & sched & Eo & Hm & Hc). exists files, sched.
  split; [done|]. split; [|split; [|by split]].
  - intros i l El. apply (merges_thread _ _ Hm). change (map log_segs logs) with (log_segs <$> logs). by rewrite list_lookup_fmap, El.
  - intros Hs. apply (merges_sorted _ _ Hm). by apply Forall_map.
Qed.
End Spec.

Lemma conversion_of_captures_witness : exists files sched,
  open_thread_files (map log_words example_logs) = inl files /\ merges (map log_segs example_logs) sched /\
  exists s, do_conversion example_image example_modules (fun _ _ => true) 40 (new_raw2trace files) = (Done tt, s) /\
    out_file s = header_entry :: render example_image example_modules false (map new_tview example_logs) sched ++ [footer_entry].
Proof.
  destruct (conversion_of_captures example_image example_modules (fun _ _ => true) (fun _ _ => eq_refl) example_logs)
    as (files & sched & E & _ & _ & M & C); [done|vm_compute; reflexivity|exact example_logs_ok|].
  exists files, sched. split; [exact E|]. split; [exact M|]. apply (C 40%nat). vm_compute. lia.
Defined.

(** The entries of the example's trace: the first thread's jump, of 2 bytes,
    comes after its name and its time at 300. *)
Example example_converted : match open_thread_files (map log_words example_logs) with
  | inr _ => []
  | inl files => map (fun e => (te_type e, te_size e, te_addr e)) (out_file (do_conversion example_image example_modules (fun _ _ => true) 40 (new_raw2trace files)).2)
  end =
  [(55, 0, 1);
   (52, 4, 5); (54, 4, 4); (58, 2, 100); (40, 4, 0x400100); (0, 8, 0x7010); (40, 3, 0x400104); (1, 4, 0x8000);
   (52, 4, 6); (54, 4, 4); (58, 2, 200); (40, 3, 0x400104); (1, 4, 0x9000); (41, 2, 0x400107); (0, 1, 0x6000); (53, 4, 6);
   (52, 4, 5); (58, 2, 300); (58, 3, 3); (41, 2, 0x400107); (40, 2, 0x400110); (0, 1, 0x7008); (1, 1, 0x8000); (48, 64, 64); (53, 4, 5);
   (56, 0, 0)].
Proof. vm_compute. reflexivity. Qed.
