(* ===== verification/Reader.v ===== *)
(** * The reader of a trace and the analyzer's loop

    [clients/drcachesim/reader/reader.cpp] and file_reader.cpp: the iterator
    that turns the entries of a trace file into the references the simulator
    takes; and [analyzer_t::run] (analyzer.cpp), which hands them to a tool.

    The file is the list of its entries.  The reference the iterator stands on
    is one union, in which an entry leaves the fields it does not set.  The
    [assert]s are compiled in or not: [ndebug] says that they are not, and a
    failed one is [Abort] when they are. *)
From S2P Require Export TraceEntry.

Definition s64 (z : Z) : Z := (z + 9223372036854775808) mod w64 - 9223372036854775808.

Lemma s64_small z : -9223372036854775808 <= z < 9223372036854775808 -> s64 z = z.
Proof. intros. unfold s64. rewrite Z.mod_small; lia. Qed.

Record reader_t := {
  at_eof : bool;
  cur_ref : memref_t;        (* the fields that start every member of the union *)
  cur_ref_pc : Z;            (* data.pc *)
  cur_tid : Z;
  cur_pid : Z;
  cur_pc : Z;
  next_pc : Z;
  prev_instr_addr : Z;
  bundle_idx : Z;
  tid2pid : gmap Z Z;
  input_entry : option trace_entry_t;
  fstream : list trace_entry_t   (* what is left of the file *)
}.

Definition set_ref r m pc : reader_t :=
  {| at_eof := at_eof r; cur_ref := m; cur_ref_pc := pc; cur_tid := cur_tid r; cur_pid := cur_pid r; cur_pc := cur_pc r; next_pc := next_pc r;
     prev_instr_addr := prev_instr_addr r; bundle_idx := bundle_idx r; tid2pid := tid2pid r; input_entry := input_entry r; fstream := fstream r |}.
Definition set_thread r t p pids : reader_t :=
  {| at_eof := at_eof r; cur_ref := cur_ref r; cur_ref_pc := cur_ref_pc r; cur_tid := t; cur_pid := p; cur_pc := cur_pc r; next_pc := next_pc r;
     prev_instr_addr := prev_instr_addr r; bundle_idx := bundle_idx r; tid2pid := pids; input_entry := input_entry r; fstream := fstream r |}.
Definition set_pc r pc npc prev idx : reader_t :=
  {| at_eof := at_eof r; cur_ref := cur_ref r; cur_ref_pc := cur_ref_pc r; cur_tid := cur_tid r; cur_pid := cur_pid r; cur_pc := pc; next_pc := npc;
     prev_instr_addr := prev; bundle_idx := idx; tid2pid := tid2pid r; input_entry := input_entry r; fstream := fstream r |}.
Definition set_eof r b : reader_t :=
  {| at_eof := b; cur_ref := cur_ref r; cur_ref_pc := cur_ref_pc r; cur_tid := cur_tid r; cur_pid := cur_pid r; cur_pc := cur_pc r; next_pc := next_pc r;
     prev_instr_addr := prev_instr_addr r; bundle_idx := bundle_idx r; tid2pid := tid2pid r; input_entry := input_entry r; fstream := fstream r |}.
Definition set_input r i es : reader_t :=
  {| at_eof := at_eof r; cur_ref := cur_ref r; cur_ref_pc := cur_ref_pc r; cur_tid := cur_tid r; cur_pid := cur_pid r; cur_pc := cur_pc r; next_pc := next_pc r;
     prev_instr_addr := prev_instr_addr r; bundle_idx := bundle_idx r; tid2pid := tid2pid r; input_entry := i; fstream := es |}.

(** The constructor, with what the fields it does not set hold. *)
Definition new_reader (junk : memref_t) (junk_pc junk_next : Z) (file : list trace_entry_t) : reader_t :=
  {| at_eof := true; cur_ref := junk; cur_ref_pc := junk_pc; cur_tid := 0; cur_pid := 0; cur_pc := 0; next_pc := junk_next;
     prev_instr_addr := 0; bundle_idx := 0; tid2pid := ∅; input_entry := None; fstream := file |}.

(** The cases of the switch. *)
Definition is_data_entry (t : Z) : bool :=
  existsb (Z.eqb t) [TRACE_TYPE_READ; TRACE_TYPE_WRITE; TRACE_TYPE_PREFETCH; TRACE_TYPE_PREFETCHT0; TRACE_TYPE_PREFETCHT1; TRACE_TYPE_PREFETCHT2;
                     TRACE_TYPE_PREFETCHNTA; TRACE_TYPE_PREFETCH_READ; TRACE_TYPE_PREFETCH_WRITE; TRACE_TYPE_PREFETCH_INSTR].
Definition is_instr_entry (t : Z) : bool :=
  existsb (Z.eqb t) [TRACE_TYPE_INSTR; TRACE_TYPE_INSTR_DIRECT_JUMP; TRACE_TYPE_INSTR_INDIRECT_JUMP; TRACE_TYPE_INSTR_CONDITIONAL_JUMP;
                     TRACE_TYPE_INSTR_DIRECT_CALL; TRACE_TYPE_INSTR_INDIRECT_CALL; TRACE_TYPE_INSTR_RETURN; TRACE_TYPE_INSTR_SYSENTER;
                     TRACE_TYPE_INSTR_NO_FETCH].

Section Reader.
Context (ndebug : bool).

Definition assert_ (b : bool) : outcome unit := if ndebug || b then Ret () else Abort.

(** The fields that most members of the union have. *)
Definition ref_of (r : reader_t) (t a n : Z) : memref_t := {| type := t; pid := cur_pid r; tid := cur_tid r; addr := a; size := n |}.

(** An instruction; [t] is the type its entry has, or gets. *)
Definition read_instr (r : reader_t) (e : trace_entry_t) (t : Z) : outcome (reader_t * bool) :=
  _ ← assert_ (negb (cur_tid r =? 0) && negb (cur_pid r =? 0));
  if te_size e =? 0 then Ret (set_pc r (te_addr e) (next_pc r) (prev_instr_addr r) (bundle_idx r), false)
  else Ret (set_pc (set_ref r (ref_of r t (te_addr e) (te_size e)) (cur_ref_pc r)) (te_addr e) (u64 (te_addr e + te_size e)) (te_addr e) (bundle_idx r), true).

(** The next instruction of a bundle. *)
Definition read_bundle (r : reader_t) (e : trace_entry_t) : outcome (reader_t * bool) :=
  _ ← assert_ (type_is_instr (type (cur_ref r)));
  if 8 <=? bundle_idx r then Abort
  else
    let n := te_length e (bundle_idx r) in
    let idx := bundle_idx r + 1 in
    let pc := next_pc r in
    _ ← assert_ (te_size e <=? 8);
    Ret (set_pc (set_ref r (with_range (cur_ref r) pc n) (cur_ref_pc r)) pc (u64 (pc + n)) (prev_instr_addr r)
           (if idx =? te_size e then 0 else idx), true).

(** [tid2pid[t]]: an absent thread gets 0. *)
Definition pid_of (r : reader_t) (t : Z) : Z * gmap Z Z :=
  match tid2pid r !! t with Some p => (p, tid2pid r) | None => (0, <[t := 0]> (tid2pid r)) end.

(** The switch on an entry, and [have_memref]. *)
Definition read_entry (r : reader_t) (e : trace_entry_t) : outcome (reader_t * bool) :=
  let t := te_type e in
  let named := negb (cur_tid r =? 0) && negb (cur_pid r =? 0) in
  if is_data_entry t then
    _ ← assert_ named;
    Ret (set_ref r (ref_of r t (te_addr e) (te_size e)) (cur_pc r), true)
  else if t =? TRACE_TYPE_INSTR_MAYBE_FETCH then
    let t := if prev_instr_addr r =? te_addr e then TRACE_TYPE_INSTR_NO_FETCH else TRACE_TYPE_INSTR in
    read_instr (set_input r (Some {| te_type := t; te_size := te_size e; te_addr := te_addr e |}) (fstream r)) e t
  else if is_instr_entry t then read_instr r e t
  else if t =? TRACE_TYPE_INSTR_BUNDLE then read_bundle r e
  else if (t =? TRACE_TYPE_INSTR_FLUSH) || (t =? TRACE_TYPE_DATA_FLUSH) then
    _ ← assert_ named;
    Ret (set_ref r (ref_of r t (te_addr e) (te_size e)) (cur_ref_pc r), negb (te_size e =? 0))
  else if (t =? TRACE_TYPE_INSTR_FLUSH_END) || (t =? TRACE_TYPE_DATA_FLUSH_END) then
    let m := cur_ref r in
    Ret (set_ref r (with_range m (addr m) (u64 (te_addr e - addr m))) (cur_ref_pc r), true)
  else if t =? TRACE_TYPE_THREAD then
    let t := s64 (te_addr e) in
    let '(p, pids) := pid_of r t in
    Ret (set_thread r t p pids, false)
  else if t =? TRACE_TYPE_THREAD_EXIT then
    let tid := s64 (te_addr e) in
    let '(p, pids) := pid_of r tid in
    let r := set_thread r tid p pids in
    _ ← assert_ (negb (tid =? 0) && negb (p =? 0));
    Ret (set_ref r (ref_of r t (addr (cur_ref r)) (size (cur_ref r))) (cur_ref_pc r), true)
  else if t =? TRACE_TYPE_PID then
    let p := s64 (te_addr e) in
    Ret (set_thread r (cur_tid r) p (<[cur_tid r := p]> (tid2pid r)), false)
  else if t =? TRACE_TYPE_MARKER then
    _ ← assert_ named;
    (* marker_type is the low half of addr, marker_value is where size is *)
    Ret (set_ref r (ref_of r t (addr (cur_ref r) / w32 * w32 + te_size e) (te_addr e)) (cur_ref_pc r), true)
  else
    _ ← assert_ false;
    Ret (set_eof r true, false).

(** [operator++] when no bundle is open, on the entries [es] left. *)
Fixpoint advance (es : list trace_entry_t) (r : reader_t) : outcome reader_t :=
  match es with
  | [] => _ ← assert_ false; Ret (set_eof (set_input r None []) true)
  | e :: es =>
      let r := set_input r (Some e) es in
      if te_type e =? TRACE_TYPE_FOOTER then Ret (set_eof r true)
      else
        '(r, have_memref) ← read_entry r e;
        if (have_memref : bool) then Ret r else advance es r
  end.

(** [operator++]: an open bundle goes on with its entry. *)
Definition increment (r : reader_t) : outcome reader_t :=
  if bundle_idx r =? 0 then advance (fstream r) r
  else
    match input_entry r with
    | None => advance [] r
    | Some e => '(r, have_memref) ← read_entry r e; if (have_memref : bool) then Ret r else advance (fstream r) r
    end.

(** [file_reader_t::init] of a file that could be opened. *)
Definition init (r : reader_t) : outcome (reader_t * bool) :=
  let r := set_eof r false in
  match fstream r with
  | [] => Ret (r, false)
  | e :: es =>
      let r := set_input r (input_entry r) es in
      if negb (te_type e =? TRACE_TYPE_HEADER) || negb (te_addr e =? TRACE_ENTRY_VERSION) then Ret (r, false)
      else r ← increment r; Ret (r, true)
  end.

(** [file_reader_t::is_complete]. *)
Definition is_complete (file : list trace_entry_t) : bool :=
  match last file with Some e => te_type e =? TRACE_TYPE_FOOTER | None => false end.

Section Tool.
Context {S : Type} (process_memref : S -> memref_t -> outcome (S * bool)).

(** The loop of [analyzer_t::run] with one tool. *)
Fixpoint run_loop (fuel : nat) (r : reader_t) (st : S) : outcome (S * bool) :=
  match fuel with
  | O => Out_of_fuel
  | Datatypes.S fuel =>
      if at_eof r then Ret (st, true)
      else
        '(st, ok) ← process_memref st (cur_ref r);
        if (ok : bool) then r ← increment r; run_loop fuel r st else Ret (st, false)
  end.

Definition run (fuel : nat) (r : reader_t) (st : S) : outcome (S * bool) :=
  '(r, ok) ← init r;
  if (ok : bool) then run_loop fuel r st else Ret (st, false).
End Tool.
End Reader.
