(* ===== verification/ReaderRun.v ===== *)
(** * The references a trace delivers

    Reading the entries of a segment, and the analyzer's loop as a fold over
    the references delivered. *)
From S2P Require Export Reader.

(** ** What the entries of a thread stand for *)

(** A reference without the fields its kind does not have. *)
Definition seen (m : memref_t) : memref_t :=
  if type m =? TRACE_TYPE_THREAD_EXIT then {| type := type m; pid := pid m; tid := tid m; addr := 0; size := 0 |}
  else if type m =? TRACE_TYPE_MARKER then {| type := type m; pid := pid m; tid := tid m; addr := addr m mod w32; size := size m |}
  else m.

(** The reference of one entry of the thread [t] of the process [p]. *)
Definition tagged_entry (t p : Z) (e : trace_entry_t) : memref_t :=
  if te_type e =? TRACE_TYPE_THREAD_EXIT then {| type := te_type e; pid := p; tid := t; addr := 0; size := 0 |}
  else if te_type e =? TRACE_TYPE_MARKER then {| type := te_type e; pid := p; tid := t; addr := te_size e; size := te_addr e |}
  else {| type := te_type e; pid := p; tid := t; addr := te_addr e; size := te_size e |}.

(** A flush whose size has no room in its entry takes the next one too. *)
Definition opens_flush (e : trace_entry_t) : bool := (te_type e =? TRACE_TYPE_INSTR_FLUSH) && (te_size e =? 0).

Fixpoint tagged (t p : Z) (es : list trace_entry_t) : list memref_t :=
  match es with
  | [] => []
  | e :: es =>
      if opens_flush e then
        match es with
        | [] => []
        | e2 :: es => {| type := te_type e; pid := p; tid := t; addr := te_addr e; size := u64 (te_addr e2 - te_addr e) |} :: tagged t p es
        end
      else tagged_entry t p e :: tagged t p es
  end.

(** An entry that is a reference by itself. *)
Definition simple (t : Z) (e : trace_entry_t) : bool :=
  is_data_entry (te_type e) ||
  ((is_instr_entry (te_type e) || (te_type e =? TRACE_TYPE_INSTR_FLUSH) || (te_type e =? TRACE_TYPE_DATA_FLUSH)) && negb (te_size e =? 0)) ||
  ((te_type e =? TRACE_TYPE_THREAD_EXIT) && (te_addr e =? u64 t)) ||
  ((te_type e =? TRACE_TYPE_MARKER) && (0 <=? te_size e) && (te_size e <? 65536)).

Inductive readable (t : Z) : list trace_entry_t -> Prop :=
| readable_nil : readable t []
| readable_cons e es : simple t e = true -> readable t es -> readable t (e :: es)
| readable_flush start end_ es : readable t es ->
    readable t ({| te_type := TRACE_TYPE_INSTR_FLUSH; te_size := 0; te_addr := start |} ::
                {| te_type := TRACE_TYPE_INSTR_FLUSH_END; te_size := 0; te_addr := end_ |} :: es).

Lemma readable_app t es es' : readable t es -> readable t es' -> readable t (es ++ es').
Proof. induction 1; cbn; [done|constructor; auto|intros; apply readable_flush; auto]. Qed.

Lemma readable_all t es : (forall e, e ∈ es -> simple t e = true) -> readable t es.
Proof.
  induction es as [|e es IH]; intros H; constructor; [apply H; by left|]. apply IH. intros e' He'. apply H. by right.
Qed.

(** The kinds of entries exclude each other. *)
Lemma entry_types (l : list Z) (P : Z -> Prop) t : Forall P l -> existsb (Z.eqb t) l = true -> P t.
Proof. rewrite existsb_exists. intros H (x & Hx & ->%Z.eqb_eq). rewrite Forall_forall in H. by apply H, list_elem_of_In. Qed.

Lemma data_types t : is_data_entry t = true ->
  t <> TRACE_TYPE_FOOTER /\ (t =? TRACE_TYPE_THREAD_EXIT) = false /\ (t =? TRACE_TYPE_MARKER) = false /\ (t =? TRACE_TYPE_INSTR_FLUSH) = false.
Proof. intros H. pattern t. eapply entry_types; [|exact H]. by repeat constructor. Qed.

Lemma instr_types t : is_instr_entry t = true ->
  is_data_entry t = false /\ (t =? TRACE_TYPE_INSTR_MAYBE_FETCH) = false /\
  t <> TRACE_TYPE_FOOTER /\ (t =? TRACE_TYPE_THREAD_EXIT) = false /\ (t =? TRACE_TYPE_MARKER) = false /\ (t =? TRACE_TYPE_INSTR_FLUSH) = false.
Proof. intros H. pattern t. eapply entry_types; [|exact H]. by repeat constructor. Qed.

Section Run.
Context (ndebug : bool).

(** ** Deliveries *)

(** Reading on from [r] delivers the references [ms] and leaves [r']. *)
Inductive delivers : reader_t -> list memref_t -> reader_t -> Prop :=
| delivers_nil r : delivers r [] r
| delivers_skip r e es r1 ms r2 : bundle_idx r = 0 -> fstream r = e :: es -> te_type e <> TRACE_TYPE_FOOTER ->
    read_entry ndebug (set_input r (Some e) es) e = Ret (r1, false) -> fstream r1 = es -> bundle_idx r1 = 0 ->
    delivers r1 ms r2 -> delivers r ms r2
| delivers_ref r e es r1 ms r2 : bundle_idx r = 0 -> fstream r = e :: es -> te_type e <> TRACE_TYPE_FOOTER ->
    read_entry ndebug (set_input r (Some e) es) e = Ret (r1, true) -> at_eof r1 = false ->
    delivers r1 ms r2 -> delivers r (cur_ref r1 :: ms) r2.

Lemma delivers_app r1 ms1 r2 ms2 r3 : delivers r1 ms1 r2 -> delivers r2 ms2 r3 -> delivers r1 (ms1 ++ ms2) r3.
Proof using. induction 1; intros H'; [done|eapply delivers_skip; eauto|]. cbn. eapply delivers_ref; eauto. Qed.

Section Tool.
Context {S : Type} (process_memref : S -> memref_t -> outcome (S * bool)).

(** The tool on a list of references, to the first that it refuses. *)
Fixpoint feed (st : S) (ms : list memref_t) : outcome (S * bool) :=
  match ms with
  | [] => Ret (st, true)
  | m :: ms => '(st, ok) ← process_memref st m; if (ok : bool) then feed st ms else Ret (st, false)
  end.

(** The loop from the next [++] on. *)
Definition run_on (fuel : nat) (r : reader_t) (st : S) : outcome (S * bool) := r ← increment ndebug r; run_loop ndebug process_memref fuel r st.

Lemma delivers_run r ms r' : delivers r ms r' -> forall fuel st,
  run_on (length ms + fuel) r st = '(st, ok) ← feed st ms; if (ok : bool) then run_on fuel r' st else Ret (st, false).
Proof using.
  induction 1 as [r|r e es r1 ms r2 Hb Hf Ht Hr Hf1 Hb1 _ IH|r e es r1 ms r2 Hb Hf Ht Hr He _ IH]; intros fuel st.
  - done.
  - rewrite <- IH. unfold run_on, increment. rewrite Hb, Hb1, Hf, Hf1. cbn [Z.eqb advance]. rewrite (proj2 (Z.eqb_neq _ _) Ht), Hr. done.
  - cbn [feed length Nat.add]. unfold run_on at 1, increment. rewrite Hb, Hf. cbn [Z.eqb advance]. rewrite (proj2 (Z.eqb_neq _ _) Ht), Hr.
    cbn [mbind outcome_bind run_loop]. rewrite He. destruct (process_memref st (cur_ref r1)) as [[st1 ok]| |]; cbn [mbind outcome_bind]; [|done..].
    destruct ok; [|done]. exact (IH fuel st1).
Qed.

(** The end of the trace. *)
Lemma footer_run r st fuel e : bundle_idx r = 0 -> fstream r = [e] -> te_type e = TRACE_TYPE_FOOTER ->
  run_on (Datatypes.S fuel) r st = Ret (st, true).
Proof using. intros Hb Hf Ht. unfold run_on, increment. rewrite Hb, Hf. cbn [Z.eqb advance]. rewrite Ht. done. Qed.
End Tool.

(** ** The entries of a thread *)

(** The reader between the entries of the thread [t] of the process [p]. *)
Record stands (r : reader_t) (t p : Z) : Prop := {
  st_tid : cur_tid r = t;
  st_pid : cur_pid r = p;
  st_map : tid2pid r !! t = Some p;
  st_eof : at_eof r = false;
  st_bundle : bundle_idx r = 0
}.

Lemma assert_true b : b = true -> assert_ ndebug b = Ret ().
Proof using. intros ->. unfold assert_. by rewrite orb_true_r. Qed.

(** One entry with a reference. *)
Lemma deliver_one r t p e es r1 : stands r t p -> fstream r = e :: es -> te_type e <> TRACE_TYPE_FOOTER ->
  read_entry ndebug (set_input r (Some e) es) e = Ret (r1, true) -> stands r1 t p -> seen (cur_ref r1) = tagged_entry t p e ->
  fstream r1 = es -> tid2pid r1 = tid2pid r ->
  exists r1, delivers r [cur_ref r1] r1 /\ seen (cur_ref r1) = tagged_entry t p e /\ stands r1 t p /\ fstream r1 = es /\ tid2pid r1 = tid2pid r.
Proof using.
  intros H Hf Hx Hr Hst Hs Hes Hmap. exists r1. split_and!; [|done..]. eapply delivers_ref; [apply H|exact Hf|done|exact Hr|apply Hst|constructor].
Qed.

(** The reference that the reader makes of the fields of an entry. *)
Lemma seen_ref r t p a n ty : cur_tid r = t -> cur_pid r = p -> (ty =? TRACE_TYPE_THREAD_EXIT) = false -> (ty =? TRACE_TYPE_MARKER) = false ->
  seen (ref_of r ty a n) = {| type := ty; pid := p; tid := t; addr := a; size := n |}.
Proof using. intros <- <- H1 H2. unfold seen, ref_of. cbn [type]. by rewrite H1, H2. Qed.

Lemma deliver_simple r t p e es : stands r t p -> 0 < t < 2 ^ 31 -> 0 < p < 2 ^ 31 -> simple t e = true -> fstream r = e :: es ->
  exists r1, delivers r [cur_ref r1] r1 /\ seen (cur_ref r1) = tagged_entry t p e /\ stands r1 t p /\ fstream r1 = es /\ tid2pid r1 = tid2pid r.
Proof using.
  intros H Ht Hp He Hf. pose proof H as [H1 H2 H3 H4 H5].
  assert (Hn : assert_ ndebug (negb (cur_tid (set_input r (Some e) es) =? 0) && negb (cur_pid (set_input r (Some e) es) =? 0)) = Ret ()).
  { apply assert_true. cbn [set_input cur_tid cur_pid]. rewrite H1, H2, !(proj2 (Z.eqb_neq _ _)) by lia. done. }
  unfold simple in He. rewrite !orb_true_iff, !andb_true_iff, !orb_true_iff, negb_true_iff in He.
  destruct He as [[[He|[He Hs]]|[He%Z.eqb_eq Ha%Z.eqb_eq]]|[[He%Z.eqb_eq Hs1%Z.leb_le] Hs2%Z.ltb_lt]].
  - destruct (data_types _ He) as (T1 & T2 & T3 & _). eapply deliver_one; [done|exact Hf|done|unfold read_entry; rewrite He; cbv zeta; rewrite Hn; reflexivity|by constructor| |done|done].
    unfold tagged_entry. rewrite T2, T3. by apply seen_ref.
  - destruct He as [[He|He%Z.eqb_eq]|He%Z.eqb_eq].
    + destruct (instr_types _ He) as (T0 & T1 & T2 & T3 & T4 & _). eapply deliver_one; [done|exact Hf|done|
        unfold read_entry; cbv zeta; rewrite T0, T1, He; unfold read_instr; rewrite Hn; cbn [mbind outcome_bind]; rewrite Hs; reflexivity|by constructor| |done|done].
      unfold tagged_entry. rewrite T3, T4. by apply seen_ref.
    + eapply deliver_one; [done|exact Hf|by rewrite He|unfold read_entry; rewrite He; cbv zeta; rewrite Hn; cbn [mbind outcome_bind]; rewrite Hs; reflexivity|by constructor| |done|done].
      unfold tagged_entry. rewrite He. by apply seen_ref.
    + eapply deliver_one; [done|exact Hf|by rewrite He|unfold read_entry; rewrite He; cbv zeta; rewrite Hn; cbn [mbind outcome_bind]; rewrite Hs; reflexivity|by constructor| |done|done].
      unfold tagged_entry. rewrite He. by apply seen_ref.
  - assert (Hs : s64 (te_addr e) = t) by (rewrite Ha, u64_small, s64_small; lia).
    assert (Hpid : pid_of (set_input r (Some e) es) t = (p, tid2pid r)) by (unfold pid_of; cbn; by rewrite H3).
    assert (Hn' : assert_ ndebug (negb (t =? 0) && negb (p =? 0)) = Ret ()) by (apply assert_true; rewrite !(proj2 (Z.eqb_neq _ _)) by lia; done).
    eapply deliver_one; [done|exact Hf|by rewrite He|
      unfold read_entry; rewrite He; cbn -[s64 pid_of assert_ negb]; rewrite Hs, Hpid, Hn'; reflexivity|by constructor| |done|done].
    unfold tagged_entry. rewrite He. done.
  - eapply deliver_one; [done|exact Hf|by rewrite He|unfold read_entry; rewrite He; cbv zeta; rewrite Hn; reflexivity|by constructor| |done|done].
    unfold tagged_entry. rewrite He. unfold seen, ref_of. cbn. rewrite H1, H2. f_equal. rewrite Z.add_comm, Z.mod_add by lia. apply Z.mod_small. lia.
Qed.

(** A flush of two entries. *)
Lemma deliver_flush r t p start end_ es : stands r t p -> 0 < t < 2 ^ 31 -> 0 < p < 2 ^ 31 ->
  fstream r = {| te_type := TRACE_TYPE_INSTR_FLUSH; te_size := 0; te_addr := start |} ::
              {| te_type := TRACE_TYPE_INSTR_FLUSH_END; te_size := 0; te_addr := end_ |} :: es ->
  exists r1, delivers r [cur_ref r1] r1 /\
    seen (cur_ref r1) = {| type := TRACE_TYPE_INSTR_FLUSH; pid := p; tid := t; addr := start; size := u64 (end_ - start) |} /\
    stands r1 t p /\ fstream r1 = es /\ tid2pid r1 = tid2pid r.
Proof using.
  intros [H1 H2 H3 H4 H5] Ht Hp Hf.
  assert (Hn : assert_ ndebug (negb (cur_tid r =? 0) && negb (cur_pid r =? 0)) = Ret ()).
  { apply assert_true. rewrite H1, H2, !(proj2 (Z.eqb_neq _ _)) by lia. done. }
  eexists. split; [eapply delivers_skip; [done|exact Hf|done|unfold read_entry; cbn -[assert_ negb]; rewrite Hn; reflexivity|reflexivity|exact H5|]|].
  - eapply delivers_ref; [exact H5|reflexivity|done|reflexivity|exact H4|constructor].
  - split_and!; [|constructor; done|done|done]. rewrite <- H1, <- H2. reflexivity.
Qed.

Lemma tagged_app t p es es' : readable t es -> tagged t p (es ++ es') = tagged t p es ++ tagged t p es'.
Proof using.
  induction 1 as [|e es He _ IH|start end_ es _ IH]; [done| |cbn; by rewrite IH].
  assert (Ho : opens_flush e = false).
  { unfold opens_flush. destruct (te_type e =? TRACE_TYPE_INSTR_FLUSH) eqn:Et; [|done]. apply Z.eqb_eq in Et. unfold simple in He. rewrite Et in He. cbn in He.
    destruct (te_size e =? 0); [done|done]. }
  cbn [app tagged]. rewrite Ho. cbn. by rewrite IH.
Qed.

Lemma deliver_readable t p es : readable t es -> 0 < t < 2 ^ 31 -> 0 < p < 2 ^ 31 -> forall r tail, stands r t p -> fstream r = es ++ tail ->
  exists ms r', delivers r ms r' /\ map seen ms = tagged t p es /\ stands r' t p /\ fstream r' = tail /\ tid2pid r' = tid2pid r.
Proof using.
  intros H Ht Hp. induction H as [|e es He Hes IH|start end_ es Hes IH]; intros r tail Hr Hf.
  - exists [], r. split; [constructor|done].
  - destruct (deliver_simple r t p e (es ++ tail) Hr Ht Hp He Hf) as (r1 & D1 & S1 & St1 & F1 & M1).
    destruct (IH r1 tail St1 F1) as (ms & r2 & D2 & S2 & St2 & F2 & M2). exists (cur_ref r1 :: ms), r2.
    split; [by apply (delivers_app _ _ _ _ _ D1 D2)|]. split_and!; [|done|done|congruence].
    change (e :: es) with ([e] ++ es). rewrite tagged_app by (by repeat constructor). cbn [map]. rewrite S1, S2. cbn [tagged].
    assert (Ho : opens_flush e = false); [|by rewrite Ho].
    unfold opens_flush. destruct (te_type e =? TRACE_TYPE_INSTR_FLUSH) eqn:Et; [|done]. apply Z.eqb_eq in Et. unfold simple in He. rewrite Et in He. cbn in He.
    by destruct (te_size e =? 0).
  - destruct (deliver_flush r t p start end_ (es ++ tail) Hr Ht Hp Hf) as (r1 & D1 & S1 & St1 & F1 & M1).
    destruct (IH r1 tail St1 F1) as (ms & r2 & D2 & S2 & St2 & F2 & M2). exists (cur_ref r1 :: ms), r2.
    split; [by apply (delivers_app _ _ _ _ _ D1 D2)|]. split_and!; [|done|done|congruence]. cbn [map]. by rewrite S1, S2.
Qed.

(** The name of a thread, and of its process the first time. *)
Lemma deliver_name r t p (named : bool) es : at_eof r = false -> bundle_idx r = 0 -> 0 < t < 2 ^ 31 -> 0 < p < 2 ^ 31 ->
  (named = true -> tid2pid r !! t = Some p) -> fstream r = write_tid t ++ (if named then [] else write_pid p) ++ es ->
  exists r', delivers r [] r' /\ stands r' t p /\ fstream r' = es /\ tid2pid r' = <[t := p]> (tid2pid r).
Proof using.
  intros He Hb Ht Hp Hn Hf. assert (Hs : s64 (u64 t) = t) by (rewrite u64_small, s64_small; lia).
  assert (Hsp : s64 (u64 p) = p) by (rewrite u64_small, s64_small; lia).
  destruct named; cbn [write_tid write_pid Online.append_tid Online.append_pid app] in Hf.
  - specialize (Hn eq_refl). eexists. split; [|].
    { eapply delivers_skip; [done|exact Hf|done|
        unfold read_entry; cbn -[s64 u64 pid_of]; rewrite Hs; unfold pid_of; cbn [tid2pid set_input]; rewrite Hn; reflexivity|reflexivity|exact Hb|constructor]. }
    split; [constructor; done|]. split; [done|]. cbn. by rewrite insert_id.
  - destruct (pid_of r t) as [p0 pids] eqn:E0.
    assert (Hpids : <[t := p]> pids = <[t := p]> (tid2pid r)).
    { unfold pid_of in E0. destruct (tid2pid r !! t); injection E0 as <- <-; [done|]. by rewrite insert_insert_eq. }
    eexists. split; [|].
    { eapply delivers_skip; [done|exact Hf|done|
        unfold read_entry; cbn -[s64 u64 pid_of]; rewrite Hs; unfold pid_of in E0 |- *; cbn [tid2pid set_input]; rewrite E0; reflexivity|reflexivity|exact Hb|].
      eapply delivers_skip; [exact Hb|reflexivity|done|unfold read_entry; cbn -[s64 u64 pid_of]; rewrite Hsp; reflexivity|reflexivity|exact Hb|constructor]. }
    cbn. rewrite Hpids. split; [constructor; try done; cbn; by rewrite lookup_insert_eq|done].
Qed.
End Run.
