(* ===== verification/ReaderSpec.v ===== *)
(** * Reading back a converted capture

    The references that the reader delivers from the trace of a capture: the
    trace's way from the traced threads' files to the analyzer's tool. *)
From S2P Require Export Raw2TraceSpec ReaderRun.

(** ** The references of a capture *)

Section Refs.
Context (decode : Z -> instr_t * Z) (modvec : list module_t).

(** The references of the segments of a schedule: each has the ids of its
    thread and process. *)
Fixpoint capture_refs (rep : bool) (ts : list tview) (sched : list (nat * segment * bool)) : list memref_t :=
  match sched with
  | [] => []
  | (i, g, last) :: sched =>
      match ts !! i with
      | None => []
      | Some t =>
          let '(o, p, rep) := items_out decode modvec rep (tv_pending t) (seg_items g) in
          tagged (tv_tid t) (tv_pid t) (write_timestamp (seg_time g) ++ o ++ (if last then p ++ write_thread_exit (tv_tid t) else [])) ++
          capture_refs rep (<[i := after_segment t (if last then [] else p)]> ts) sched
      end
  end.

(** Instructions have a length, and what is flushed a size. *)
Definition decoder_ok : Prop := forall pc, instr_length (decode pc).1 mod 256 <> 0 /\
  (instr_is_flush (decode pc).1 = true -> Forall (fun o => opnd_size_in_bytes o mod 65536 <> 0) (instr_srcs (decode pc).1 ++ instr_dsts (decode pc).1)).

(** ** The converter's entries can be read *)

Definition plain (e : trace_entry_t) : Prop := forall t, simple t e = true.

Lemma plain_data ty n a : is_data_entry ty = true -> plain {| te_type := ty; te_size := n; te_addr := a |}.
Proof using. intros H t. unfold simple. cbn [te_type]. by rewrite H. Qed.
Lemma plain_instr ty n a : is_instr_entry ty = true -> n <> 0 -> plain {| te_type := ty; te_size := n; te_addr := a |}.
Proof using. intros H Hn t. unfold simple. cbn [te_type te_size]. rewrite H, (proj2 (Z.eqb_neq _ _) Hn). cbn [negb andb orb]. by rewrite orb_true_r. Qed.

Record summary_ok (d : instr_summary_t) : Prop := {
  so_type : is_instr_entry (type_ d) = true \/ type_ d = TRACE_TYPE_INSTR_MAYBE_FETCH;
  so_length : length_ d <> 0;
  so_prefetch : is_prefetch d = true -> is_data_entry (prefetch_type_ d) = true;
  so_flush : is_flush_instr d = true -> Forall (fun o => opnd_size_in_bytes o mod 65536 <> 0) (mem_srcs_and_dests_ d)
}.

Lemma instr_type_ok i : is_instr_entry (instr_to_instr_type i) = true \/ instr_to_instr_type i = TRACE_TYPE_INSTR_MAYBE_FETCH.
Proof using. unfold instr_to_instr_type. repeat case_match; (by left) || (by right). Qed.

(** What the bits of a summary say. *)
Lemma construct_bits pc d : construct decode pc = Some d ->
  is_prefetch d = instr_is_prefetch (decode pc).1 /\ is_flush_instr d = instr_is_flush (decode pc).1.
Proof using.
  unfold construct. destruct (decode pc) as [i n]. case_match; [done|]. intros [= <-]. unfold is_prefetch, is_flush_instr. cbn [packed_ fst].
  by destruct (instr_is_cti i), (instr_is_flush i), (instr_is_prefetch i), (instr_writes_memory i), (instr_reads_memory i).
Qed.

Lemma construct_ok pc d : decoder_ok -> construct decode pc = Some d -> summary_ok d.
Proof using.
  intros Hd E. destruct (construct_bits _ _ E) as [B1 B2]. destruct (Hd pc) as [L F]. unfold construct in E. destruct (decode pc) as [i n].
  cbn [fst] in *. case_match; [done|]. injection E as <-. constructor.
  - apply instr_type_ok.
  - exact L.
  - rewrite B1. cbn [prefetch_type_]. intros ->. unfold instr_to_prefetch_type. by destruct (instr_get_opcode i).
  - rewrite B2. cbn [mem_srcs_and_dests_]. intros Hf. specialize (F Hf). destruct (instr_reads_memory i || instr_writes_memory i); [|constructor].
    apply Forall_app in F as [F1 F2]. rewrite Forall_forall in F1, F2. apply Forall_app. split; apply Forall_forall; intros o Ho.
    + apply F1. apply list_elem_of_In, filter_In in Ho as [Ho _]. by apply list_elem_of_In.
    + apply F2. apply list_elem_of_In, filter_In in Ho as [Ho _]. by apply list_elem_of_In.
Qed.

Lemma ref_entry_plain d o w : summary_ok d -> o ∈ operands d -> plain (ref_entry d o w).
Proof using.
  intros [_ _ Hp Hf] Ho. unfold ref_entry, memref_kind. destruct (is_prefetch d); [apply plain_data; auto|].
  destruct (is_flush_instr d); [|destruct o.2; by apply plain_data].
  intros t. unfold simple. cbn [te_type te_size]. specialize (Hf eq_refl). rewrite Forall_forall in Hf.
  assert (Hin : o.1 ∈ mem_srcs_and_dests_ d).
  { unfold operands in Ho. destruct (_ || _); [|by apply not_elem_of_nil in Ho].
    rewrite <- (take_drop (num_mem_srcs d) (mem_srcs_and_dests_ d)). apply elem_of_app.
    apply elem_of_app in Ho as [Ho|Ho]; apply list_elem_of_fmap in Ho as (x & -> & Hx); auto. }
  by rewrite (proj2 (Z.eqb_neq _ _) (Hf _ Hin)).
Qed.

Lemma fetch_plain rep d a : summary_ok d -> plain {| te_type := (fetch rep d).1; te_size := length_ d; te_addr := a |}.
Proof using.
  intros [Ht Hl _ _]. apply plain_instr; [|done]. unfold fetch. destruct (type_ d =? TRACE_TYPE_INSTR_MAYBE_FETCH) eqn:E; [by destruct rep|].
  destruct Ht as [Ht|Ht]; [done|]. by rewrite Ht in E.
Qed.

Lemma zip_plain d ops refs : summary_ok d -> (forall o, o ∈ ops -> o ∈ operands d) -> Forall plain (zip_with (ref_entry d) ops refs).
Proof using.
  intros Hd. revert refs. induction ops as [|o ops IH]; intros [|w refs] H; cbn; [constructor..|].
  constructor; [apply ref_entry_plain; [done|apply H; by left]|]. apply IH. intros o' Ho'. apply H. by right.
Qed.

Lemma block_out_plain m fault rep instrs refs : Forall (fun i => summary_ok i.2) instrs ->
  Forall (fun o : bool * list trace_entry_t => Forall plain o.2) (block_out m fault rep instrs refs).1.
Proof using.
  intros H. revert rep refs. induction H as [|[pc d] instrs Hd _ IH]; intros rep refs; cbn [block_out]; [constructor|].
  pose proof (fetch_plain rep d) as Hf. destruct (fetch rep d) as [ty rep1]. cbn [fst snd] in *.
  assert (He : Forall plain ({| te_type := ty; te_size := length_ d; te_addr := u64 (pc - map_base m + orig_base m) |} :: zip_with (ref_entry d) (operands d) refs)).
  { constructor; [by apply Hf|]. by apply zip_plain. }
  destruct (interrupted _ _ _); [by apply Forall_singleton|].
  specialize (IH rep1 (drop (length (operands d)) refs)). destruct (block_out m fault rep1 instrs _) as [os rep2]. by constructor.
Qed.

Lemma concat_plain (f : bool * list trace_entry_t -> bool) os : Forall (fun o => Forall plain o.2) os -> Forall plain (concat (map snd (List.filter f os))).
Proof using.
  intros H. induction H as [|o os Ho _ IH]; cbn; [constructor|]. destruct (f o); cbn; [by apply Forall_app|done].
Qed.

Lemma readable_plain t es : Forall plain es -> readable t es.
Proof using. intros H. apply readable_all. intros e He. rewrite Forall_forall in H. by apply H. Qed.

Lemma instrs_at_ok n pc l : decoder_ok -> instrs_at decode n pc = Some l -> Forall (fun i => summary_ok i.2) l.
Proof using.
  intros Hd. revert pc l. induction n as [|n IH]; intros pc l; cbn [instrs_at]; [intros [= <-]; constructor|].
  destruct (construct decode pc) as [d|] eqn:E; [|done]. cbn [mbind option_bind]. destruct (instrs_at decode n (next_pc_ d)) as [l'|] eqn:El; [|done].
  intros [= <-]. constructor; [by eapply construct_ok|]. by eapply IH.
Qed.

(** An item leaves readable entries, and keeps plain ones back. *)
Lemma item_readable fault rep pending it t : decoder_ok -> Forall plain pending -> item_ok decode modvec it ->
  let '(o, p, _) := item_out decode modvec fault rep pending it in readable t o /\ Forall plain p.
Proof using.
  intros Hd Hp Hit. pose proof (readable_plain t _ Hp) as Hr. destruct it as [mi mo n refs|mi mo n refs|ty val|start size]; cbn [item_out].
  - destruct (block_instrs decode modvec mi mo n) as [[m l]|] eqn:E; [|done].
    assert (Hl : Forall (fun i => summary_ok i.2) l).
    { unfold block_instrs in E. destruct (modvec !! _); [|done]. cbn [mbind option_bind] in E. destruct (instrs_at _ _ _) eqn:El; [|done].
      injection E as _ <-. by eapply instrs_at_ok. }
    pose proof (block_out_plain m fault rep l refs Hl) as Ho. destruct (block_out m fault rep l refs) as [os rep']. cbn [fst] in Ho.
    split; [apply readable_app; [done|]; apply readable_plain|]; by apply concat_plain.
  - split; [|constructor]. apply readable_app; [done|]. apply readable_plain, Forall_fmap, Forall_true. intros w. by apply plain_data.
  - destruct Hit as [Hty Hv]. split; [|done]. apply readable_all. intros e He. apply list_elem_of_singleton in He as ->.
    unfold simple. cbn. rewrite !Z.mod_small by lia. rewrite (proj2 (Z.leb_le 0 ty)), (proj2 (Z.ltb_lt ty 65536)) by lia. done.
  - split; [|constructor]. apply readable_app; [done|]. unfold write_iflush, Online.append_iflush.
    destruct (if size <=? 65535 then size else 0) as [|n|n] eqn:En; cbn [Z.eqb]; [apply readable_flush; constructor|..];
      (constructor; [unfold simple; cbn; done|constructor]).
Qed.

Lemma items_readable rep pending its t : decoder_ok -> Forall plain pending -> Forall (item_ok decode modvec) its ->
  let '(o, p, _) := items_out decode modvec rep pending its in readable t o /\ Forall plain p.
Proof using.
  intros Hd Hp Hits. revert rep pending Hp. induction Hits as [|it its Hit _ IH]; intros rep pending Hp; cbn [items_out]; [split; [constructor|done]|].
  pose proof (item_readable (starts_with_fault its) rep pending it t Hd Hp Hit) as H1. destruct (item_out _ _ _ _ _ _) as [[o1 p1] rep1].
  destruct H1 as [H1 H2]. specialize (IH rep1 p1 H2). destruct (items_out _ _ _ _ _) as [[o2 p2] rep2]. destruct IH as [H3 H4].
  split; [by apply readable_app|done].
Qed.

(** ** Reading them *)

(** What the reader needs of the threads whose segments are to come: one tid
    has one pid, and the reader knows the pids that the trace has named. *)
Record threads_ok (ts : list tview) : Prop := {
  tk_ids : Forall (fun t => 0 < tv_tid t < 2 ^ 31 /\ 0 < tv_pid t < 2 ^ 31 /\ Forall plain (tv_pending t)) ts;
  tk_same : forall i j t t', ts !! i = Some t -> ts !! j = Some t' -> tv_tid t = tv_tid t' -> tv_pid t = tv_pid t'
}.
Definition pids_known (ts : list tview) (pids : gmap Z Z) : Prop :=
  forall i t, ts !! i = Some t -> tv_named t = true -> pids !! tv_tid t = Some (tv_pid t).

Lemma threads_ok_after ts i t p : threads_ok ts -> ts !! i = Some t -> Forall plain p -> threads_ok (<[i := after_segment t p]> ts).
Proof using.
  intros [H1 H2] E Hp. pose proof (proj1 (Forall_lookup _ _) H1 i t E) as (T1 & T2 & _). constructor; [by apply Forall_insert|].
  assert (Hl : forall j u, <[i := after_segment t p]> ts !! j = Some u -> exists u', ts !! j = Some u' /\ tv_tid u = tv_tid u' /\ tv_pid u = tv_pid u').
  { intros j u Ej. apply list_lookup_insert_Some in Ej as [(<- & <- & _)|[_ Ej]]; [by exists t|by exists u]. }
  intros j1 j2 u1 u2 E1 E2 He. destruct (Hl _ _ E1) as (u1' & F1 & A1 & ->). destruct (Hl _ _ E2) as (u2' & F2 & A2 & ->).
  apply (H2 _ _ _ _ F1 F2). congruence.
Qed.

Lemma pids_known_after ts pids i t p : threads_ok ts -> pids_known ts pids -> ts !! i = Some t ->
  pids_known (<[i := after_segment t p]> ts) (<[tv_tid t := tv_pid t]> pids).
Proof using.
  intros [_ Hs] Hk E j u Ej Hn. apply list_lookup_insert_Some in Ej as [(<- & <- & _)|[_ Ej]]; [apply lookup_insert_eq|].
  destruct (decide (tv_tid t = tv_tid u)) as [Ht|Ht]; [rewrite <- Ht, lookup_insert_eq; f_equal; by eapply Hs|].
  rewrite lookup_insert_ne by done. by eapply Hk.
Qed.

Section Deliver.
Context (ndebug : bool) (Hd : decoder_ok).

Lemma deliver_segment r t rep g (last : bool) es : 0 < tv_tid t < 2 ^ 31 -> 0 < tv_pid t < 2 ^ 31 -> Forall plain (tv_pending t) ->
  Forall (item_ok decode modvec) (seg_items g) -> at_eof r = false -> bundle_idx r = 0 ->
  (tv_named t = true -> tid2pid r !! tv_tid t = Some (tv_pid t)) ->
  let '(o, p, rep') := items_out decode modvec rep (tv_pending t) (seg_items g) in
  let body := write_timestamp (seg_time g) ++ o ++ (if last then p ++ write_thread_exit (tv_tid t) else []) in
  fstream r = write_tid (tv_tid t) ++ (if tv_named t then [] else write_pid (tv_pid t)) ++ body ++ es ->
  Forall plain p /\ exists ms r', delivers ndebug r ms r' /\ map seen ms = tagged (tv_tid t) (tv_pid t) body /\ at_eof r' = false /\ bundle_idx r' = 0 /\
    fstream r' = es /\ tid2pid r' = <[tv_tid t := tv_pid t]> (tid2pid r).
Proof using Hd.
  intros Ht Hp Hpl Hits He Hb Hn. pose proof (items_readable rep (tv_pending t) (seg_items g) (tv_tid t) Hd Hpl Hits) as Hr.
  destruct (items_out _ _ _ _ _) as [[o p] rep']. destruct Hr as [Ho Hp']. cbv zeta. intros Hf. split; [done|].
  destruct (deliver_name ndebug r _ _ _ _ He Hb Ht Hp Hn Hf) as (r1 & D1 & S1 & F1 & M1).
  assert (Hbody : readable (tv_tid t) (write_timestamp (seg_time g) ++ o ++ (if last then p ++ write_thread_exit (tv_tid t) else []))).
  { apply readable_app; [by repeat constructor|]. apply readable_app; [done|]. destruct last; [|constructor].
    apply readable_app; [by apply readable_plain|]. constructor; [|constructor]. unfold simple. cbn. by rewrite Z.eqb_refl. }
  destruct (deliver_readable ndebug _ (tv_pid t) _ Hbody Ht Hp r1 es S1 F1) as (ms & r2 & D2 & V2 & S2 & F2 & M2).
  exists ms, r2. split; [exact (delivers_app _ _ _ _ _ _ D1 D2)|]. split_and!; [done|apply S2|apply S2|done|congruence].
Qed.

Lemma deliver_render sched : forall rep ts r es, Forall (fun x => segment_ok decode modvec x.1.2) sched -> threads_ok ts ->
  at_eof r = false -> bundle_idx r = 0 -> pids_known ts (tid2pid r) -> fstream r = render decode modvec rep ts sched ++ es ->
  exists ms r', delivers ndebug r ms r' /\ map seen ms = capture_refs rep ts sched /\ at_eof r' = false /\ bundle_idx r' = 0 /\ fstream r' = es.
Proof using Hd.
  induction sched as [|[[i g] last] sched IH]; intros rep ts r es Hs Ht He Hb Hk Hf; cbn [render capture_refs] in *.
  { exists [], r. split; [constructor|done]. }
  apply Forall_cons in Hs as [[_ Hits] Hs]. cbn in Hits. destruct (ts !! i) as [t|] eqn:Ei; [|exists [], r; split; [constructor|done]].
  destruct (proj1 (Forall_lookup _ _) (tk_ids _ Ht) i t Ei) as (T1 & T2 & T3).
  pose proof (fun es => deliver_segment r t rep g last es T1 T2 T3 Hits He Hb (Hk i t Ei)) as Hseg.
  unfold segment_out in Hf. destruct (items_out decode modvec rep (tv_pending t) (seg_items g)) as [[o p] rep'].
  specialize (Hseg (render decode modvec rep' (<[i := after_segment t (if last then [] else p)]> ts) sched ++ es)). cbv zeta in Hseg.
  destruct Hseg as (Hp & ms1 & r1 & D1 & V1 & E1 & B1 & F1 & M1).
  { rewrite Hf. unfold segment_head. destruct last; cbn [fst snd]; rewrite ?app_nil_r, <- !app_assoc; done. }
  assert (Hpl : Forall plain (if last then [] else p)) by (destruct last; [constructor|done]).
  destruct (IH rep' (<[i := after_segment t (if last then [] else p)]> ts) r1 es Hs) as (ms2 & r2 & D2 & V2 & E2 & B2 & F2); try done.
  { by apply threads_ok_after. } { rewrite M1. by apply pids_known_after. }
  exists (ms1 ++ ms2), r2. split; [by eapply delivers_app|]. split; [|done]. by rewrite map_app, V1, V2.
Qed.
End Deliver.
End Refs.

(** ** From the threads' files to the tool *)

Section Whole.
Context (decode : Z -> instr_t * Z) (modvec : list module_t).
Context (accepts : list trace_entry_t -> list trace_entry_t -> bool).
Hypothesis accepts_all : forall out es, accepts out es = true.

(** A thread id is one process's. *)
Definition pids_agree (logs : list log) : Prop :=
  forall i j l l', logs !! i = Some l -> logs !! j = Some l' -> log_tid l = log_tid l' -> log_pid l = log_pid l'.

Lemma new_threads_ok logs : Forall (log_ok decode modvec) logs -> pids_agree logs -> threads_ok (map new_tview logs).
Proof using.
  intros Hok Hs. constructor.
  - apply Forall_map. eapply Forall_impl; [exact Hok|]. intros l [H1 H2 _ _]. split; [exact H1|]. split; [exact H2|constructor].
  - intros i j t t' Ei Ej. change (map new_tview logs) with (new_tview <$> logs) in *. rewrite list_lookup_fmap in Ei, Ej.
    destruct (logs !! i) as [l|] eqn:El; [|done]. destruct (logs !! j) as [l'|] eqn:El'; [|done]. injection Ei as <-. injection Ej as <-. by eapply Hs.
Qed.

(** The analyzer's run over a converted trace is the tool on its references. *)
Lemma trace_delivers logs sched ndebug junk jpc jnext : decoder_ok decode -> Forall (log_ok decode modvec) logs -> pids_agree logs ->
  merges (map log_segs logs) sched ->
  exists ms, map seen ms = capture_refs decode modvec false (map new_tview logs) sched /\
    forall (S : Type) (tool : S -> memref_t -> outcome (S * bool)) st fuel, (length ms < fuel)%nat ->
      run ndebug tool fuel (new_reader junk jpc jnext (header_entry :: render decode modvec false (map new_tview logs) sched ++ [footer_entry])) st = feed tool st ms.
Proof using.
  intros Hd Hok Hs Hm. set (es := render decode modvec false (map new_tview logs) sched).
  set (r := set_input (set_eof (new_reader junk jpc jnext (header_entry :: es ++ [footer_entry])) false) None (es ++ [footer_entry])).
  destruct (deliver_render decode modvec ndebug Hd sched false (map new_tview logs) r [footer_entry]) as (ms & r' & D & V & E & B & F); try done.
  { apply (merges_all _ _ _ Hm). apply Forall_map. eapply Forall_impl; [exact Hok|]. intros l Hlog. apply (lo_segs _ _ _ Hlog). }
  { by apply new_threads_ok. }
  { intros i t Ei. change (map new_tview logs) with (new_tview <$> logs) in Ei. rewrite list_lookup_fmap in Ei. destruct (logs !! i); [|done]. by injection Ei as <-. }
  exists ms. split; [done|]. intros S tool st fuel Hf.
  assert (Hrun : run ndebug tool fuel (new_reader junk jpc jnext (header_entry :: es ++ [footer_entry])) st = run_on ndebug tool fuel r st).
  { unfold run, init, run_on. cbn [fstream set_eof new_reader te_type te_addr header_entry]. cbn [Z.eqb Pos.eqb negb orb TRACE_TYPE_HEADER TRACE_ENTRY_VERSION].
    change (set_input _ _ _) with r. by destruct (increment ndebug r). }
  rewrite Hrun. replace fuel with (length ms + Datatypes.S (fuel - length ms - 1))%nat by lia. rewrite (delivers_run ndebug tool r ms r' D).
  destruct (feed tool st ms) as [[st1 ok]| |]; cbn [mbind outcome_bind]; [|done..]. destruct ok; [|done]. by apply (footer_run ndebug tool r' st1 _ footer_entry).
Qed.

(** C4. A converted capture can be read back: the trace is complete, and the
    analyzer's loop on it is its tool on the references of the capture, the
    segments in order of their times, each reference with the ids of its thread
    and process, up to the first that the tool refuses.  It holds with the
    reader's assertions and without them: none fails.  Instructions have a
    length, and a thread's id is one process's. *)
Theorem capture_reads_back (logs : list log) :
  decoder_ok decode -> logs <> [] -> Z.of_nat (length logs) < w32 -> Forall (log_ok decode modvec) logs -> pids_agree logs ->
  exists files sched, open_thread_files (map log_words logs) = inl files /\ merges (map log_segs logs) sched /\
    forall fuel, (length (concat (map log_words logs)) <= fuel)%nat ->
      exists s, do_conversion decode modvec accepts fuel (new_raw2trace files) = (Done tt, s) /\ is_complete (out_file s) = true /\
        forall ndebug junk jpc jnext, exists ms, map seen ms = capture_refs decode modvec false (map new_tview logs) sched /\
          forall (S : Type) (tool : S -> memref_t -> outcome (S * bool)) st fuel', (length ms < fuel')%nat ->
            run ndebug tool fuel' (new_reader junk jpc jnext (out_file s)) st = feed tool st ms.
Proof using accepts_all.
  intros Hd Hne Hl Hok Hs. destruct (conversion_runs decode modvec accepts accepts_all logs Hne Hl Hok) as (files & sched & Eo & Hm & Hc).
  exists files, sched. split; [done|]. split; [done|]. intros fuel Hf. destruct (Hc fuel Hf) as (s & E & Eout). exists s. split; [done|].
  rewrite Eout. split.
  { unfold is_complete. by rewrite app_comm_cons, last_snoc. }
  intros ndebug junk jpc jnext. by apply trace_delivers.
Qed.
End Whole.

(** ** The capture of the example, read back *)

Lemma example_decoder_ok : decoder_ok example_image.
Proof.
  intros pc. unfold example_image. repeat case_match; cbn; (split; [done|]); done.
Qed.

Lemma example_pids_agree : pids_agree example_logs.
Proof. intros [|[|]] [|[|]] l l'; cbn; intros; simplify_eq; done. Qed.

Lemma capture_reads_back_witness : exists files sched,
  open_thread_files (map log_words example_logs) = inl files /\ merges (map log_segs example_logs) sched /\
  exists s, do_conversion example_image example_modules (fun _ _ => true) 40 (new_raw2trace files) = (Done tt, s) /\ is_complete (out_file s) = true.
Proof.
  destruct (capture_reads_back example_image example_modules (fun _ _ => true) (fun _ _ => eq_refl) example_logs example_decoder_ok)
    as (files & sched & E & M & C); [done|vm_compute; reflexivity|exact example_logs_ok|exact example_pids_agree|].
  exists files, sched. split; [exact E|]. split; [exact M|]. destruct (C 40%nat) as (s & R & I & _); [vm_compute; lia|]. exists s. by split.
Defined.

(** The references of the example: those of the threads 5, 6 and 5 again. *)
Definition read_all (file : list trace_entry_t) : outcome (list memref_t * bool) :=
  run true (fun ms m => Ret (ms ++ [m], true)) 100 (new_reader {| type := 0; pid := 0; tid := 0; addr := 0; size := 0 |} 0 0 file) [].
Example example_read_back : match open_thread_files (map log_words example_logs) with
  | inr _ => None
  | inl files => match read_all (out_file (do_conversion example_image example_modules (fun _ _ => true) 40 (new_raw2trace files)).2) with
                 | Ret (ms, ok) => Some (map (fun m => (tid m, type m, addr m, size m)) ms)
                 | _ => None
                 end
  end =
  Some [(5, 58, 2, 100); (5, 40, 0x400100, 4); (5, 0, 0x7010, 8); (5, 40, 0x400104, 3); (5, 1, 0x8000, 4);
        (6, 58, 2, 200); (6, 40, 0x400104, 3); (6, 1, 0x9000, 4); (6, 41, 0x400107, 2); (6, 0, 0x6000, 1); (6, 53, 0x6000, 1);
        (5, 58, 2, 300); (5, 58, 3, 3); (5, 41, 0x400107, 2); (5, 40, 0x400110, 2); (5, 0, 0x7008, 1); (5, 1, 0x8000, 1);
        (5, 48, 64, 64); (5, 53, 64, 64)].
Proof. vm_compute. reflexivity. Qed.
