(* ===== verification/CaptureSim.v ===== *)
(** * The simulator on a capture

    The whole way of a trace: from the files that the traced threads wrote, over
    the converter and the reader, to the page walks that the simulator counts. *)
From S2P Require Import CText CachingProof CacheRequest CacheSpec Tlb PageWalk WalkProof WalkSpec SimSpec.
From S2P Require Import ReaderSpec.

Lemma feed_simulate k past uninit st ms : feed (process_memref k past uninit) st ms = simulate k past uninit st ms.
Proof. revert st. induction ms as [|m ms IH]; intros st; [done|]. cbn [feed simulate]. destruct (process_memref k past uninit st m) as [[st1 ok]| |]; [|reflexivity..]. cbn [mbind outcome_bind]. destruct ok; [apply IH|done]. Qed.

(** Whether a reference is one the simulator takes does not depend on the
    fields its kind does not have. *)
Lemma seen_ok k m : ref_ok k (seen m) -> ref_ok k m.
Proof.
  unfold seen. destruct (type m =? TRACE_TYPE_THREAD_EXIT) eqn:E1; [|destruct (type m =? TRACE_TYPE_MARKER) eqn:E2; [|done]].
  - intros [H1 H2 H3 H4]. apply Z.eqb_eq in E1. assert (Ha : accesses m = false) by (unfold accesses, is_instr, is_data; by rewrite E1).
    constructor; [by rewrite Ha|by rewrite Ha|exact H3|exact H4].
  - intros [H1 H2 H3 H4]. apply Z.eqb_eq in E2. assert (Ha : accesses m = false) by (unfold accesses, is_instr, is_data; by rewrite E2).
    constructor; [by rewrite Ha|by rewrite Ha|exact H3|exact H4].
Qed.

Section Whole.
Context (decode : Z -> instr_t * Z) (modvec : list module_t).
Context (accepts : list trace_entry_t -> list trace_entry_t -> bool).
Hypothesis accepts_all : forall out es, accepts out es = true.

(** C2. From the traced threads to the counts.  The files of a capture are
    converted, the trace is read, and the simulator runs on it to the end or to
    the first reference it refuses, without an abort, whatever the page tables
    hold: if the simulator takes the capture's references, which are under 2^64.
    Then each reference whose page both tables have is one walk or TLB hit of
    the statistic, and nothing is counted that the capture does not have. *)
Theorem capture_simulates (logs : list log) (k : knobs_t) (junk junk' : nat -> Z * Z) (guest host : text) (st : sim_t)
    (past : nat -> Z) (uninit : memref_t) :
  decoder_ok decode -> logs <> [] -> Z.of_nat (length logs) < w32 -> Forall (log_ok decode modvec) logs -> pids_agree logs ->
  knobs_ok k -> new_sim k junk junk' guest host = Some st ->
  exists files sched, open_thread_files (map log_words logs) = inl files /\ merges (map log_segs logs) sched /\
    let refs := capture_refs decode modvec false (map new_tview logs) sched in
    (Forall (ref_ok k) refs -> Z.of_nat (length refs) < w64 ->
     forall fuel, (length (concat (map log_words logs)) <= fuel)%nat ->
       exists s, do_conversion decode modvec accepts fuel (new_raw2trace files) = (Done tt, s) /\
         forall ndebug stale jpc jnext fuel', (length refs < fuel')%nat ->
           exists st' ok, run ndebug (process_memref k past uninit) fuel' (new_reader stale jpc jnext (out_file s)) st = Ret (st', ok) /\
             sim_ok k st' /\
             (knob_warmup_refs k = 0 -> stat_total (hm_full_statistic st') = num_range_found st' /\
                num_not_found st' + vt_num_not_found st' + num_range_found st' <= Z.of_nat (length refs))).
Proof using accepts_all.
  intros Hd Hne Hl Hok Hs Hk Hst. destruct (conversion_runs decode modvec accepts accepts_all logs Hne Hl Hok) as (files & sched & Eo & Hm & Hc).
  exists files, sched. split; [done|]. split; [done|]. intros refs Hr Hlen fuel Hf. destruct (Hc fuel Hf) as (s & E & Eout). exists s. split; [done|].
  rewrite Eout. intros ndebug stale jpc jnext fuel' Hf'.
  destruct (trace_delivers decode modvec logs sched ndebug stale jpc jnext Hd Hok Hs Hm) as (ms & V & Hrun). fold refs in V.
  assert (Hms : length ms = length refs) by (by rewrite <- V, length_map). rewrite Hrun, feed_simulate by lia. rewrite <- Hms in *.
  destruct (new_sim_ok k junk junk' guest host st Hk Hst) as [S0 A0].
  destruct (simulate_ok k past uninit ms st 0 Hk S0) as (st' & ok & E' & S' & C'); [|lia|].
  { rewrite <- V in Hr. apply (proj1 (Forall_map _ _ _)) in Hr. eapply Forall_impl; [exact Hr|]. intros m. apply seen_ok. }
  exists st', ok. split; [exact E'|]. split; [done|]. intros Hw. destruct (C' (A0 Hw)) as [_ _ _ A4 A5]. by split.
Qed.
End Whole.

(** The example's only order. *)
Definition example_sched : list (nat * segment * bool) :=
  [(0%nat, example_seg1, false); (1%nat, example_seg2, true); (0%nat, example_seg3, true)].

Lemma example_merges : merges (map log_segs example_logs) example_sched.
Proof.
  assert (He : forall (g1 g2 : list segment) i t, (forall g gs, g1 = g :: gs -> t <= seg_time g /\ ((0 < i)%nat -> t < seg_time g)) ->
    (forall g gs, g2 = g :: gs -> t <= seg_time g /\ ((1 < i)%nat -> t < seg_time g)) -> earliest [g1; g2] i t).
  { intros g1 g2 i t H1 H2 [|[|j]] g gs E; cbn in E; [injection E as E..|done]; eauto. }
  apply (merges_cons [[example_seg1; example_seg3]; [example_seg2]] 0 example_seg1 [example_seg3]); [reflexivity|apply He; intros g gs [= <- <-]; cbn; lia|].
  apply (merges_cons [[example_seg3]; [example_seg2]] 1 example_seg2 []); [reflexivity|apply He; intros g gs [= <- <-]; cbn; lia|].
  apply (merges_cons [[example_seg3]; []] 0 example_seg3 []); [reflexivity|apply He; intros g gs; [intros [= <- <-]; cbn; lia|done]|].
  constructor. repeat constructor.
Qed.

Lemma capture_simulates_witness : match small_sim with
  | None => False
  | Some st => exists files s st' ok, open_thread_files (map log_words example_logs) = inl files /\
      do_conversion example_image example_modules (fun _ _ => true) 40 (new_raw2trace files) = (Done tt, s) /\
      run false (process_memref small_knobs (fun _ => 0) no_ref) 40 (new_reader no_ref 0 0 (out_file s)) st = Ret (st', ok) /\
      stat_total (hm_full_statistic st') = num_range_found st'
  end.
Proof.
  destruct small_sim as [st|] eqn:E; [|by vm_compute in E].
  destruct (capture_simulates example_image example_modules (fun _ _ => true) (fun _ _ => eq_refl) example_logs small_knobs
              (fun _ => (0, 0)) (fun _ => (0, 0)) small_pt small_vt_pt st (fun _ => 0) no_ref example_decoder_ok)
    as (files & sched & Eo & M & C); [done|vm_compute; reflexivity|exact example_logs_ok|exact example_pids_agree|exact small_knobs_ok|exact E|].
  pose proof (merges_unique _ _ _ M example_merges) as ->.
  destruct C with (fuel := 40%nat) as (s & Ec & Cs).
  { vm_compute. repeat constructor; vm_compute; congruence. }
  { vm_compute. reflexivity. }
  { vm_compute. lia. }
  destruct (Cs false no_ref 0 0 40%nat) as (st' & ok & Er & _ & Hw); [vm_compute; lia|].
  exists files, s, st', ok. split; [exact Eo|]. split; [exact Ec|]. split; [exact Er|]. apply Hw. reflexivity.
Defined.
