(* ===== verification/IoPrint.v ===== *)
(** * The formatted output of DynamoRIO

    [core/iox.h] in its narrow version: [our_vsnprintf], which
    [dr_snprintf] of the interface for clients calls, on a 64-bit UNIX.

    A format and a string are the characters before the terminating NUL.  What
    is written at [s] is the list of the characters from the start of the
    buffer on.  The arguments are the values of the variable argument list,
    with the types they were passed with; to read one with another type is
    undefined, and [Abort], as is a failed [ASSERT] of a debug build ([debug]),
    a read behind the end of the format and an overflow of the 64 characters of
    [buf].  The text of a floating-point value, with its prefix, is a
    parameter. *)
From S2P Require Export Outcome CText.

Definition BUF_SIZE : Z := 64.

(** [base_letters] and [base_letters_cap]. *)
Definition base_letters (caps : bool) (d : Z) : ascii :=
  if caps && (10 <=? d) then ascii_of_N (Z.to_N (55 + d)) else hexchar d.

(** The loop that fills [buf] from [end] down, [cnt] digits. *)
Fixpoint fill_digits (cnt : nat) (num base : Z) (caps : bool) (acc : text) : text :=
  match cnt with
  | O => acc
  | S cnt => fill_digits cnt (num / base) base caps (base_letters caps (num mod base) :: acc)
  end.

(** The loop that skips zeros: [p] and [decimal] move together. *)
Fixpoint skip_zeros (p : text) (end_ decimal : Z) : text :=
  match p with
  | c :: p' => if decide (c = "0"%char) then if 0 <? end_ - decimal then skip_zeros p' end_ (decimal + 1) else p else p
  | [] => []
  end.

(** [uint64_to_str] with [min_end] 43 and [ulong_to_str] with 22. *)
Definition to_str (debug : bool) (min_end num base decimal : Z) (caps : bool) : outcome text :=
  let end_ := if decimal <? min_end then min_end else decimal in
  if (BUF_SIZE <=? end_) || (debug && (BUF_SIZE - 1 <=? decimal)) then Abort
  else Ret (skip_zeros (fill_digits (Z.to_nat end_) num base caps []) end_ decimal).
Definition uint64_to_str (debug : bool) : Z -> Z -> Z -> bool -> outcome text := to_str debug 43.
Definition ulong_to_str (debug : bool) : Z -> Z -> Z -> bool -> outcome text := to_str debug 22.

Section Print.
Context (double : Type).

(** The arguments; a wide string is the list of its characters. *)
Inductive varg :=
| VInt (z : Z)
| VLong (z : Z)
| VStr (s : option text)
| VWide (s : option (list Z))
| VDouble (d : double)
| VPtr.                     (* the address that %n writes to *)

Definition arg_int (ap : list varg) : outcome (Z * list varg) := match ap with VInt z :: ap => Ret (s32 z, ap) | _ => Abort end.
Definition arg_uint (ap : list varg) : outcome (Z * list varg) := match ap with VInt z :: ap => Ret (u32 z, ap) | _ => Abort end.
(** [uint64], [ulong] and pointers. *)
Definition arg_ulong (ap : list varg) : outcome (Z * list varg) := match ap with VLong z :: ap => Ret (u64 z, ap) | _ => Abort end.
Definition s64_of (z : Z) : Z := (z + 9223372036854775808) mod w64 - 9223372036854775808.
Definition arg_long (ap : list varg) : outcome (Z * list varg) := match ap with VLong z :: ap => Ret (s64_of z, ap) | _ => Abort end.

(** What [float_str] is given: the value, the conversion, the precision and the
    flags for a blank, a plus and a pound sign. *)
Context (our_vsnprintf_float : double -> ascii -> Z -> bool -> bool -> bool -> text * text).
Context (debug : bool).

(** ** A conversion *)

Record spec_t := {
  fill : Z;
  filler : ascii;
  decimal : Z;
  minus_flag : bool;
  plus_flag : bool;
  pound_flag : bool;
  space_flag : bool;
  h_type : bool;
  l_type : bool;
  ll_type : bool
}.
Definition new_spec : spec_t :=
  {| fill := 0; filler := " "; decimal := -1; minus_flag := false; plus_flag := false; pound_flag := false; space_flag := false;
     h_type := false; l_type := false; ll_type := false |}.

Definition is_flag (c : ascii) : bool := bool_decide (c ∈ ["0"; "-"; "#"; "+"; " "]%char).
Definition set_flag (f : spec_t) (c : ascii) : spec_t :=
  {| fill := fill f; filler := if decide (c = "0"%char) then "0"%char else filler f; decimal := decimal f;
     minus_flag := minus_flag f || bool_decide (c = "-"%char); plus_flag := plus_flag f || bool_decide (c = "+"%char);
     pound_flag := pound_flag f || bool_decide (c = "#"%char); space_flag := space_flag f || bool_decide (c = " "%char);
     h_type := h_type f; l_type := l_type f; ll_type := ll_type f |}.
Definition set_width (f : spec_t) (minus : bool) (n : Z) : spec_t :=
  {| fill := n; filler := filler f; decimal := decimal f; minus_flag := minus; plus_flag := plus_flag f; pound_flag := pound_flag f;
     space_flag := space_flag f; h_type := h_type f; l_type := l_type f; ll_type := ll_type f |}.
Definition set_decimal (f : spec_t) (n : Z) : spec_t :=
  {| fill := fill f; filler := filler f; decimal := n; minus_flag := minus_flag f; plus_flag := plus_flag f; pound_flag := pound_flag f;
     space_flag := space_flag f; h_type := h_type f; l_type := l_type f; ll_type := ll_type f |}.
Definition set_filler (f : spec_t) (c : ascii) (space : bool) : spec_t :=
  {| fill := fill f; filler := c; decimal := decimal f; minus_flag := minus_flag f; plus_flag := plus_flag f; pound_flag := pound_flag f;
     space_flag := space; h_type := h_type f; l_type := l_type f; ll_type := ll_type f |}.
Definition set_size (f : spec_t) (h l ll : bool) : spec_t :=
  {| fill := fill f; filler := filler f; decimal := decimal f; minus_flag := minus_flag f; plus_flag := plus_flag f; pound_flag := pound_flag f;
     space_flag := space_flag f; h_type := h; l_type := l; ll_type := ll |}.

(** The loop over the flags, and what they say of each other. *)
Fixpoint get_flags (c : text) (f : spec_t) : spec_t * text :=
  match c with
  | x :: c' => if is_flag x then get_flags c' (set_flag f x) else (f, c)
  | [] => (f, [])
  end.
Definition flags (c : text) : spec_t * text :=
  let '(f, c) := get_flags c new_spec in
  (set_filler f (if minus_flag f then " "%char else filler f) (if plus_flag f then false else space_flag f), c).

Fixpoint get_digits (c : text) (n : Z) : Z * text :=
  match c with
  | x :: c' => match decval x with Some d => get_digits c' (s32 (s32 (n * 10) + d)) | None => (n, c) end
  | [] => (n, [])
  end.

Definition width (f : spec_t) (c : text) (ap : list varg) : outcome (spec_t * text * list varg) :=
  match c with
  | "*"%char :: c =>
      '(n, ap) ← arg_int ap;
      Ret (if n <? 0 then set_width f true (s32 (- n)) else set_width f (minus_flag f) n, c, ap)
  | _ => let '(n, c) := get_digits c 0 in Ret (set_width f (minus_flag f) n, c, ap)
  end.

Definition precision (f : spec_t) (c : text) (ap : list varg) : outcome (spec_t * text * list varg) :=
  match c with
  | "."%char :: "*"%char :: c => '(n, ap) ← arg_int ap; Ret (set_decimal f n, c, ap)
  | "."%char :: c => let '(n, c) := get_digits c 0 in Ret (set_decimal f n, c, ap)
  | _ => Ret (f, c, ap)
  end.

(** The size modifiers; on a 64-bit UNIX [z] is [l]. *)
Definition size_modifier (f : spec_t) (c : text) : outcome (spec_t * text) :=
  match c with
  | "L"%char :: c => Ret (set_size f false false true, c)
  | "h"%char :: c => Ret (set_size f true false false, c)
  | "z"%char :: c => Ret (set_size f false true false, c)
  | "l"%char :: "l"%char :: c => Ret (set_size f false false true, c)
  | "l"%char :: c => Ret (set_size f false true false, c)
  | "I"%char :: "6"%char :: "4"%char :: c => Ret (set_size f false false true, c)
  | "I"%char :: "3"%char :: "2"%char :: c => Ret (set_size f false true false, c)
  | "I"%char :: _ => if debug then Abort else Ret (f, c)
  | _ => Ret (f, c)
  end.

(** ** What a conversion prints *)

(** The string to print: [str], which outlives the conversion: it may be NULL,
    point to characters, or to [charbuf], which does not outlive it. *)
Inductive cstring := Null | At (t : text) | Dangling.

Record piece_t := {
  p_spec : spec_t;
  prefixbuf : text;
  str : cstring;
  in_charbuf : bool;
  wstr : option (list Z);
  stored : list Z          (* by %n *)
}.
Definition piece f prefix s : piece_t :=
  {| p_spec := f; prefixbuf := prefix; str := At s; in_charbuf := false; wstr := None; stored := [] |}.

(** The precision of an integer: 1, or the one given, which cancels zeros. *)
Definition int_precision (f : spec_t) : spec_t :=
  if decimal f =? -1 then set_decimal f 1 else set_filler f " " (space_flag f).

Definition sign_prefix (f : spec_t) (negative : bool) : text :=
  if negative then ["-"%char] else if plus_flag f then ["+"%char] else if space_flag f then [" "%char] else [].

(** [%d] and [%i]. *)
Definition signed_conversion (f : spec_t) (ap : list varg) : outcome (piece_t * list varg) :=
  let f := int_precision f in
  '(val, ap) ← (if ll_type f || l_type f then arg_long ap else arg_int ap);
  let abval := u64 (if val <? 0 then - val else val) in
  t ← (if ll_type f then uint64_to_str debug abval 10 (decimal f) false else ulong_to_str debug abval 10 (decimal f) false);
  Ret (piece f (sign_prefix f (val <? 0)) t, ap).

(** [%x], [%X], [%o], [%p], and [%u] behind its own treatment of the
    precision. *)
Definition unsigned_conversion (f : spec_t) (ch : ascii) (ap : list varg) : outcome (piece_t * list varg) :=
  let caps := bool_decide (ch = "X"%char) in
  let f := int_precision f in
  let is_p := bool_decide (ch = "p"%char) in
  let f := if is_p then set_decimal f 16 else f in
  let prefix :=
    if (pound_flag f && negb (bool_decide (ch = "u"%char))) || is_p
    then "0"%char :: (if bool_decide (ch = "x"%char) || is_p then ["x"%char] else if caps then ["X"%char] else [])
    else [] in
  let base := if decide (ch = "o"%char) then 8 else if bool_decide (ch = "x"%char) || caps || is_p then 16 else 10 in
  if is_p then
    '(val, ap) ← arg_ulong ap;
    t ← uint64_to_str debug val base (decimal f) caps;
    Ret (piece f prefix t, ap)
  else if l_type f then
    '(val, ap) ← arg_ulong ap;
    t ← ulong_to_str debug val base (decimal f) caps;
    Ret (piece f prefix t, ap)
  else if negb (h_type f) && ll_type f then
    '(val, ap) ← arg_ulong ap;
    t ← uint64_to_str debug val base (decimal f) caps;
    Ret (piece f prefix t, ap)
  else
    '(val, ap) ← arg_uint ap;
    t ← ulong_to_str debug val base (decimal f) caps;
    Ret (piece f prefix t, ap).

(** The switch on the conversion [ch]; [old] is [str] before. *)
Definition dispatch (f : spec_t) (ch : ascii) (ap : list varg) (old : cstring) (printed : Z) : outcome (piece_t * list varg) :=
  match ch with
  | "%"%char => Ret ({| p_spec := f; prefixbuf := []; str := At ["%"%char]; in_charbuf := true; wstr := None; stored := [] |}, ap)
  | "d"%char | "i"%char => signed_conversion f ap
  | "u"%char =>
      let f := int_precision f in
      if ll_type f then
        '(val, ap) ← arg_ulong ap;
        t ← uint64_to_str debug val 10 (decimal f) false;
        Ret (piece f [] t, ap)
      else unsigned_conversion f ch ap
  | "x"%char | "X"%char | "o"%char | "p"%char => unsigned_conversion f ch ap
  | "c"%char =>
      '(val, ap) ← arg_int ap;
      let c := ascii_of_N (Z.to_N (val mod 256)) in
      Ret ({| p_spec := f; prefixbuf := []; str := At (if decide (c = NUL) then [] else [c]); in_charbuf := true; wstr := None; stored := [] |}, ap)
  | "s"%char | "S"%char =>
      if negb (l_type f) && bool_decide (ch = "s"%char) then
        match ap with
        | VStr s :: ap =>
            Ret ({| p_spec := f; prefixbuf := []; str := match s with Some t => At (cstr t) | None => Null end; in_charbuf := false;
                    wstr := None; stored := [] |}, ap)
        | _ => Abort
        end
      else
        match ap with
        | VWide s :: ap => Ret ({| p_spec := set_size f (h_type f) true (ll_type f); prefixbuf := []; str := old; in_charbuf := false; wstr := s; stored := [] |}, ap)
        | _ => Abort
        end
  | "g"%char | "G"%char | "e"%char | "E"%char | "f"%char =>
      let decimal := if bool_decide (ch = "g"%char) || bool_decide (ch = "G"%char) then
                       if (decimal f =? 0) || (decimal f =? -1) then 1 else decimal f
                     else decimal f in
      match ap with
      | VDouble d :: ap =>
          let '(prefix, t) := our_vsnprintf_float d ch decimal (space_flag f) (plus_flag f) (pound_flag f) in
          Ret (piece (set_decimal f decimal) prefix t, ap)
      | _ => Abort
      end
  | "n"%char =>
      match ap with
      | VPtr :: ap =>
          let val := if negb (l_type f) && h_type f then (printed + 32768) mod 65536 - 32768 else printed in
          Ret ({| p_spec := f; prefixbuf := []; str := At []; in_charbuf := false; wstr := None; stored := [val] |}, ap)
      | _ => Abort
      end
  | _ => if debug then Abort
         else Ret ({| p_spec := f; prefixbuf := []; str := old; in_charbuf := false; wstr := None; stored := [] |}, ap)
  end.

(** ** Writing *)

(** [inl]: all of it was written; [inr]: [max] was reached. *)
Fixpoint put (max : nat) (out t : text) : text + text :=
  match t with
  | [] => inl out
  | c :: t => if (max <=? length out)%nat then inr out else put max (out ++ [c]) t
  end.

Definition bind_put (r : text + text) (k : text -> text + text) : text + text := match r with inl out => k out | inr out => inr out end.

(** The string of a conversion, which for [%s] ends at the precision; with what
    [str] points to behind the loop. *)
Fixpoint put_str (max : nat) (out t : text) (limited : bool) (decimal : Z) : text * text + text :=
  match t with
  | [] => inl (out, [])
  | c :: t' =>
      if (max <=? length out)%nat then inr out
      else if limited && (decimal =? 0) then inl (out, t) else put_str max (out ++ [c]) t' limited (decimal - 1)
  end.

(** A wide string. *)
Fixpoint put_wide (max : nat) (out : text) (w : list Z) (limited : bool) (decimal : Z) : outcome (text + text) :=
  match w with
  | [] => Ret (inl out)
  | c :: w =>
      if (max <=? length out)%nat then Ret (inr out)
      else if limited && (decimal =? 0) then Ret (inl out)
      else if debug && (255 <? c mod 65536) then Abort
      else put_wide max (out ++ [ascii_of_N (Z.to_N (c mod 256))]) w limited (decimal - 1)
  end.

(** The number of fill characters. *)
Definition fill_count (p : piece_t) : outcome Z :=
  let n := fill (p_spec p) in
  if 0 <? n then
    match wstr p, str p with
    | Some w, _ => Ret (s32 (n - (Z.of_nat (length w) + Z.of_nat (length (prefixbuf p)))))
    | None, At t => Ret (s32 (n - (Z.of_nat (length t) + Z.of_nat (length (prefixbuf p)))))
    | None, _ => Abort
    end
  else Ret n.

Definition null_text : text := s2l "<NULL>".

(** The characters of the string itself, [ch] being the conversion's letter, and
    [str] behind it. *)
Definition put_body (max : nat) (out : text) (p : piece_t) (ch : ascii) : outcome ((text + text) * cstring) :=
  let d := decimal (p_spec p) in
  let is_s := bool_decide (ch = "s"%char) in
  match wstr p with
  | Some w => r ← put_wide max out w (is_s || bool_decide (ch = "S"%char)) d; Ret (r, str p)
  | None =>
      match str p with
      | Dangling => Abort
      | s =>
          let t := match s with At t => t | _ => null_text end in
          Ret (match put_str max out t is_s d with inl (out, rest) => (inl out, At rest) | inr out => (inr out, At []) end)
      end
  end.

(** The characters of a conversion: a prefix in front of zeros or behind
    blanks, and the fill on one side. *)
Definition put_piece (max : nat) (out : text) (p : piece_t) (ch : ascii) : outcome ((text + text) * cstring) :=
  n ← fill_count p;
  let f := p_spec p in
  let zero := bool_decide (filler f = "0"%char) in
  let fills := repeat (filler f) (Z.to_nat n) in
  match bind_put (put max out (if zero then prefixbuf p else [])) (fun out =>
        bind_put (put max out (if minus_flag f then [] else fills)) (fun out =>
        put max out (if zero then [] else prefixbuf p))) with
  | inr out => Ret (inr out, At [])
  | inl out =>
      '(r, s) ← put_body max out p ch;
      Ret (bind_put r (fun out => put max out (if minus_flag f then fills else [])), if in_charbuf p then Dangling else s)
  end.

(** A conversion after its [%]: what is behind it, the arguments left, and
    [str] afterwards. *)
Definition conversion (max : nat) (out c : text) (ap : list varg) (old : cstring)
    : outcome ((text + text) * text * list varg * cstring * list Z) :=
  let '(f, c) := flags c in
  '(f, c, ap) ← width f c ap;
  '(f, c, ap) ← precision f c ap;
  '(f, c) ← size_modifier f c;
  match c with
  | [] => Abort
  | ch :: c =>
      '(p, ap) ← dispatch f ch ap old (Z.of_nat (length out));
      '(r, s) ← put_piece max out p ch;
      Ret (r, c, ap, s, stored p)
  end.

(** The literal characters up to the next [%]. *)
Fixpoint literal (c : text) : text * text :=
  match c with
  | x :: c' => if decide (x = "%"%char) then ([], c) else let '(l, r) := literal c' in (x :: l, r)
  | [] => ([], [])
  end.

(** The result, the characters written, whether a NUL is behind them, and what
    %n stored. *)
Record printed_t := { ret : Z; written : text; terminated : bool; stores : list Z }.

Fixpoint print_loop (fuel : nat) (max : nat) (out c : text) (ap : list varg) (old : cstring) (st : list Z) : outcome printed_t :=
  match fuel with
  | O => Out_of_fuel
  | S fuel =>
      match c with
      | [] => Ret {| ret := Z.of_nat (length out); written := out; terminated := (length out <? max)%nat; stores := st |}
      | x :: c' =>
          if decide (x = "%"%char) then
            '(r, c, ap, old, vs) ← conversion max out c' ap old;
            match r with
            | inl out => print_loop fuel max out c ap old (st ++ vs)
            | inr out => Ret {| ret := -1; written := out; terminated := false; stores := st ++ vs |}
            end
          else
            let '(l, c) := literal c in
            match put max out l with
            | inl out => print_loop fuel max out c ap old st
            | inr out => Ret {| ret := -1; written := out; terminated := false; stores := st |}
            end
      end
  end.

(** One turn of the loop takes at least a character of the format. *)
Definition our_vsnprintf (max : nat) (fmt : text) (ap : list varg) : outcome printed_t :=
  match max with
  | O => Ret {| ret := -1; written := []; terminated := false; stores := [] |}
  | _ => print_loop (S (length fmt)) max [] fmt ap Null []
  end.
End Print.
Arguments VInt {double} z.
Arguments VLong {double} z.
Arguments VStr {double} s.
Arguments VWide {double} s.
Arguments VDouble {double} d.
Arguments VPtr {double}.
