(* ===== verification/IoScan.v ===== *)
(** * The formatted input of DynamoRIO

    [core/io.c]: [our_vsscanf], which [dr_sscanf] of the interface for clients
    calls, and [parse_int], on a 64-bit UNIX.

    A string is the characters before its NUL ([cstr]); what is stored through
    the pointers of the variable arguments is a list, in their order, an
    integer as the bits of its size.  A failed [CLIENT_ASSERT] of a debug build
    ([debug]) is [Abort]. *)
From S2P Require Export Outcome CText.

Definition our_isspace (c : ascii) : bool := bool_decide (c ∈ [" "; "012"; "010"; "013"; "009"; "011"]%char).

(** A [char] as an [int]. *)
Definition scode (c : ascii) : Z := if code c <? 128 then code c else code c - 256.

(** [in_charset_helper]: the set up to the [']'] that ends it, one at the start
    not ending it. *)
Fixpoint in_charset_helper (fp : text) (start : bool) (c : ascii) : bool :=
  match fp with
  | [] => false
  | x :: fp' =>
      if negb start && bool_decide (x = "]"%char) then false
      else if decide (c = x) then true
      else
        match fp' with
        | "-"%char :: y :: fp'' =>
            if decide (y = "]"%char) then in_charset_helper fp' false c
            else if (scode x <=? scode c) && (scode c <=? scode y) then true
            else in_charset_helper fp'' false c
        | _ => in_charset_helper fp' false c
        end
  end.

Definition in_charset (charset : text) (c : ascii) : bool :=
  match charset with
  | "^"%char :: fp => negb (in_charset_helper fp true c)
  | fp => in_charset_helper fp true c
  end.

(** ** Integers *)

Definition digit_of (c : ascii) : option Z :=
  let d := code c in
  if (48 <=? d) && (d <=? 57) then Some (d - 48)
  else if (97 <=? d) && (d <=? 122) then Some (d - 97 + 10)
  else if (65 <=? d) && (d <=? 90) then Some (d - 65 + 10)
  else None.

(** The loop: the number of digits, their value, and what is behind them. *)
Fixpoint int_loop (sp : text) (i width base res : Z) : Z * Z * text :=
  match sp with
  | [] => (i, res, [])
  | c :: sp' =>
      if (width =? 0) || (i <? width) then
        match digit_of c with
        | None => (i, res, sp)
        | Some d => if base <=? d then (i, res, sp) else int_loop sp' (i + 1) width base (u64 (res * base + d))
        end
      else (i, res, sp)
  end.

(** [None] is NULL. *)
Definition parse_int (sp : text) (base width : Z) (is_signed : bool) : option (Z * text) :=
  if (36 <? base) || (base =? 1) then None
  else
    let '(negative, sp) := match sp with "-"%char :: sp' => if is_signed then (true, sp') else (false, sp) | _ => (false, sp) end in
    let sp := match sp with "+"%char :: sp' => if negative then sp else sp' | _ => sp end in
    let '(base, sp) :=
      match sp with
      | "0"%char :: "x"%char :: sp' => if (base =? 0) || (base =? 16) then (16, sp') else (base, sp)
      | _ => (base, sp)
      end in
    let '(base, sp) := match sp with "0"%char :: sp' => if base =? 0 then (8, sp') else (base, sp) | _ => (base, sp) end in
    let base := if base =? 0 then 10 else base in
    let '(i, res, sp) := int_loop sp 0 width base 0 in
    if i =? 0 then None else Some (if negative then u64 (- res) else res, sp).

(** ** Formats *)

Inductive specifier_t := SPEC_INT | SPEC_CHAR | SPEC_STRING | SPEC_CHARSET (charset : text).
Inductive int_sz_t := SZ_SHORT | SZ_INT | SZ_LONG | SZ_LONGLONG.
#[export] Instance int_sz_eq_dec : EqDecision int_sz_t.
Proof. solve_decision. Defined.

Record scan_spec := {
  spec : specifier_t;
  int_size : int_sz_t;
  base : Z;
  is_signed : bool;
  is_ignored : bool;
  width : Z
}.
Definition new_scan_spec : scan_spec :=
  {| spec := SPEC_INT; int_size := SZ_INT; base := 10; is_signed := false; is_ignored := false; width := 0 |}.
Definition with_size (m : scan_spec) (n : int_sz_t) : scan_spec :=
  {| spec := spec m; int_size := n; base := base m; is_signed := is_signed m; is_ignored := is_ignored m; width := width m |}.
Definition with_width (m : scan_spec) (n : Z) : scan_spec :=
  {| spec := spec m; int_size := int_size m; base := base m; is_signed := is_signed m; is_ignored := is_ignored m; width := n |}.
Definition with_ignored (m : scan_spec) : scan_spec :=
  {| spec := spec m; int_size := int_size m; base := base m; is_signed := is_signed m; is_ignored := true; width := width m |}.
Definition with_spec (m : scan_spec) (s : specifier_t) (b : Z) (signed : bool) : scan_spec :=
  {| spec := s; int_size := int_size m; base := b; is_signed := signed; is_ignored := is_ignored m; width := width m |}.

(** The end of a set: what is left from its [']'] on, if it has one. *)
Fixpoint to_bracket (fp : text) : option text :=
  match fp with
  | [] => None
  | x :: fp' => if decide (x = "]"%char) then Some fp else to_bracket fp'
  end.
Definition charset_end (charset : text) : option text :=
  let fp := match charset with "^"%char :: fp => fp | fp => fp end in
  let fp := match fp with "]"%char :: fp => fp | fp => fp end in
  to_bracket fp.

Section Scan.
Context (debug : bool).

(** A format that is not supported ends the scan, or aborts. *)
Definition unsupported : outcome (option (scan_spec * text)) := if debug then Abort else Ret None.
Definition client_assert (b : bool) : outcome unit := if b || negb debug then Ret () else Abort.

(** The loop over a specifier: [None] for an error. *)
Fixpoint get_spec (fp : text) (m : scan_spec) : outcome (option (scan_spec * text)) :=
  match fp with
  | [] => unsupported
  | c :: fp =>
      match c with
      | "l"%char =>
          match int_size m with
          | SZ_INT => get_spec fp (with_size m SZ_LONG)
          | SZ_LONG => get_spec fp (with_size m SZ_LONGLONG)
          | _ => unsupported
          end
      | "h"%char => _ ← client_assert (bool_decide (int_size m = SZ_INT)); get_spec fp (with_size m SZ_SHORT)
      | "z"%char => _ ← client_assert (bool_decide (int_size m = SZ_INT)); get_spec fp (with_size m SZ_LONG)
      | "*"%char => get_spec fp (with_ignored m)
      | "I"%char =>
          match fp with
          | "3"%char :: "2"%char :: _ => get_spec fp (with_size m SZ_INT)
          | "6"%char :: "4"%char :: _ => get_spec fp (with_size m SZ_LONGLONG)
          | _ => unsupported
          end
      | "u"%char => Ret (Some (with_spec m SPEC_INT (base m) false, fp))
      | "d"%char => Ret (Some (with_spec m SPEC_INT (base m) true, fp))
      | "x"%char => Ret (Some (with_spec m SPEC_INT 16 false, fp))
      | "p"%char => Ret (Some (with_spec (with_size m SZ_LONG) SPEC_INT 16 false, fp))
      | "c"%char => Ret (Some (with_spec m SPEC_CHAR (base m) (is_signed m), fp))
      | "s"%char => Ret (Some (with_spec m SPEC_STRING (base m) (is_signed m), fp))
      | "["%char =>
          match charset_end fp with
          | Some fp' => Ret (Some (with_spec m (SPEC_CHARSET fp) (base m) (is_signed m), fp'))
          | None => unsupported
          end
      | _ =>
          match decval c with
          | Some d => get_spec fp (with_width m (u32 (width m * 10 + d)))
          | None => unsupported
          end
      end
  end.

(** ** Scanning *)

Inductive stored_t := SShort (z : Z) | SInt (z : Z) | SLong (z : Z) | SLongLong (z : Z) | SChar (c : ascii) | SStr (t : text).

(** The characters for which [p] holds, [n] at most if [n] is not 0. *)
Fixpoint take_while (p : ascii -> bool) (n i : Z) (sp : text) : text * text :=
  match sp with
  | [] => ([], [])
  | c :: sp' =>
      if ((n =? 0) || (i <? n)) && p c then let '(t, r) := take_while p n (i + 1) sp' in (c :: t, r) else ([], sp)
  end.

Fixpoint skip_while (p : ascii -> bool) (sp : text) : text :=
  match sp with c :: sp' => if p c then skip_while p sp' else sp | [] => [] end.

Definition store_int (size : int_sz_t) (res : Z) : stored_t :=
  match size with
  | SZ_SHORT => SShort (res mod 65536)
  | SZ_INT => SInt (u32 res)
  | SZ_LONG => SLong (u64 res)
  | SZ_LONGLONG => SLongLong (u64 res)
  end.

(** A specifier on the string: what it stores, and the rest; [None] when no
    integer is there.  An ignored string is not limited by the width. *)
Definition convert (m : scan_spec) (sp : text) : option (list stored_t * text) :=
  let one s := if is_ignored m then [] else [s] in
  let limit := if is_ignored m then 0 else width m in
  match spec m with
  | SPEC_CHAR => match sp with c :: sp' => Some (one (SChar c), sp') | [] => None end
  | SPEC_STRING => let '(t, r) := take_while (fun c => negb (our_isspace c)) limit 0 sp in Some (one (SStr t), r)
  | SPEC_INT =>
      match parse_int (skip_while our_isspace sp) (base m) (width m) (is_signed m) with
      | None => None
      | Some (res, sp) => Some (one (store_int (int_size m) res), sp)
      end
  | SPEC_CHARSET charset => let '(t, r) := take_while (in_charset charset) limit 0 sp in Some (one (SStr t), r)
  end.

Fixpoint scan_loop (fuel : nat) (fp sp : text) (num_parsed : Z) (st : list stored_t) : outcome (Z * list stored_t) :=
  match fuel with
  | O => Out_of_fuel
  | S fuel =>
      match fp, sp with
      | c :: fp, x :: sp' =>
          if our_isspace c then scan_loop fuel fp (skip_while our_isspace sp) num_parsed st
          else if negb (bool_decide (c = "%"%char)) then
            if decide (c = x) then scan_loop fuel fp sp' num_parsed st else Ret (num_parsed, st)
          else
            r ← get_spec fp new_scan_spec;
            match r with
            | None => Ret (num_parsed, st)
            | Some (m, fp) =>
                match convert m sp with
                | None => Ret (num_parsed, st)
                | Some (vs, sp) => scan_loop fuel fp sp (if is_ignored m then num_parsed else num_parsed + 1) (st ++ vs)
                end
            end
      | _, _ => Ret (num_parsed, st)
      end
  end.

Definition our_vsscanf (string fmt : text) : outcome (Z * list stored_t) := scan_loop (S (length fmt)) fmt (cstr string) 0 [].
End Scan.
