(* ===== verification/IoPrintProof.v ===== *)
(** * What formatted output leaves

    The digits of a number; and the effect of the buffer's size: a smaller
    buffer gets a prefix of what a larger one gets. *)
From S2P Require Export IoPrint.

(** ** Digits *)

(** The [k] last digits of [num]. *)
Fixpoint pad_digits (k : nat) (base num : Z) (caps : bool) : text :=
  match k with
  | O => []
  | S k => pad_digits k base (num / base) caps ++ [base_letters caps (num mod base)]
  end.

Lemma fill_digits_pad cnt num base caps acc : fill_digits cnt num base caps acc = pad_digits cnt base num caps ++ acc.
Proof. revert num acc. induction cnt as [|cnt IH]; intros num acc; [done|]. cbn. by rewrite IH, <- app_assoc. Qed.

Lemma length_pad_digits k base num caps : length (pad_digits k base num caps) = k.
Proof. revert num. induction k as [|k IH]; intros num; [done|]. cbn. rewrite length_app, IH. cbn. lia. Qed.

(** Zeros in front of more than [n] characters are left out. *)
Fixpoint trim_zeros (p : text) (n : Z) : text :=
  match p with
  | c :: p' => if decide (c = "0"%char) then if n <? Z.of_nat (length p) then trim_zeros p' n else p else p
  | [] => []
  end.

Lemma skip_zeros_trim p e d n : Z.of_nat (length p) = e + n - d -> skip_zeros p e d = trim_zeros p n.
Proof.
  revert d. induction p as [|c p IH]; intros d H; [done|]. cbn [skip_zeros trim_zeros]. case_decide; [|done].
  assert (Eb : (0 <? e - d) = (n <? Z.of_nat (length (c :: p)))).
  { destruct (Z.ltb_spec 0 (e - d)), (Z.ltb_spec n (Z.of_nat (length (c :: p)))); (done || lia). }
  rewrite Eb. destruct (n <? _); [|done]. apply IH. cbn [length] in H. lia.
Qed.

Lemma trim_zeros_app n p : exists zs, Forall (fun c => c = "0"%char) zs /\ p = zs ++ trim_zeros p n.
Proof.
  induction p as [|c p IH]; [by exists []|]. cbn [trim_zeros]. case_decide as Hc; [|by exists []].
  destruct (n <? _); [|by exists []]. destruct IH as (zs & Hz & E). exists (c :: zs). split; [by constructor|]. cbn. by rewrite <- E.
Qed.

Lemma trim_zeros_shape n p : n <= Z.of_nat (length p) ->
  n <= Z.of_nat (length (trim_zeros p n)) /\
  (n < Z.of_nat (length (trim_zeros p n)) -> match trim_zeros p n with c :: _ => c <> "0"%char | [] => True end).
Proof.
  induction p as [|c p IH]; intros H; [done|]. cbn [trim_zeros]. case_decide as Hc; [|done].
  destruct (Z.ltb_spec n (Z.of_nat (length (c :: p)))) as [Hl|Hl]; [|lia]. apply IH. cbn [length] in Hl. lia.
Qed.

Lemma to_str_trim debug min_end num base decimal caps : 0 <= decimal < BUF_SIZE - 1 -> 0 < min_end < BUF_SIZE ->
  to_str debug min_end num base decimal caps =
  Ret (trim_zeros (pad_digits (Z.to_nat (Z.max min_end decimal)) base num caps) decimal).
Proof.
  intros Hd Hm. unfold to_str. assert (He : (if decimal <? min_end then min_end else decimal) = Z.max min_end decimal).
  { destruct (Z.ltb_spec decimal min_end); lia. }
  rewrite He, !(proj2 (Z.leb_gt _ _)), andb_false_r by lia. cbn [orb]. f_equal.
  rewrite fill_digits_pad, app_nil_r. apply skip_zeros_trim. rewrite length_pad_digits. lia.
Qed.

(** ** Writing into a buffer *)

(** What is left of [T] in a buffer of [max] characters. *)
Definition truncated (max : nat) (T : text) (r : text + text) : Prop :=
  (r = inl T /\ (length T <= max)%nat) \/ (r = inr (take max T) /\ (max <= length T)%nat).

Lemma put_all max out t : (length out + length t <= max)%nat -> put max out t = inl (out ++ t).
Proof.
  revert out. induction t as [|c t IH]; intros out H; cbn [put length] in *; [by rewrite app_nil_r|].
  destruct (Nat.leb_spec max (length out)); [lia|]. rewrite IH, <- app_assoc; [done|]. rewrite length_app. cbn. lia.
Qed.

Lemma put_inl max out t T : put max out t = inl T -> T = out ++ t /\ (t <> [] -> (length T <= max)%nat).
Proof.
  revert out. induction t as [|c t IH]; intros out; cbn [put].
  - intros [= <-]. by rewrite app_nil_r.
  - destruct (Nat.leb_spec max (length out)); [done|]. intros E. apply IH in E as [-> H']. rewrite <- app_assoc in *. split; [done|]. intros _.
    destruct t; [|by apply H']. rewrite length_app. cbn. lia.
Qed.

Lemma put_truncated max out t : (length out <= max)%nat -> truncated max (out ++ t) (put max out t).
Proof.
  revert out. induction t as [|c t IH]; intros out H; cbn [put].
  - left. by rewrite app_nil_r.
  - destruct (Nat.leb_spec max (length out)) as [Hm|Hm].
    + right. assert (max = length out) as -> by lia. rewrite take_app_length, length_app. split; [done|]. lia.
    + change (c :: t) with ([c] ++ t). rewrite app_assoc. apply IH. rewrite length_app. cbn. lia.
Qed.

Lemma truncated_bind max T1 T2 r (k : text -> text + text) : truncated max T1 r -> T1 `prefix_of` T2 ->
  ((length T1 <= max)%nat -> truncated max T2 (k T1)) -> truncated max T2 (bind_put r k).
Proof.
  intros [[-> Hl]|[-> Hl]] [t ->] Hk; cbn [bind_put]; [by apply Hk|]. right. rewrite length_app. split; [|lia].
  by rewrite take_app_le.
Qed.

(** The string of a conversion. *)
Lemma put_str_inl max out t limited d T rest : put_str max out t limited d = inl (T, rest) ->
  exists t', T = out ++ t' /\ t = t' ++ rest /\ (rest <> [] -> (length T < max)%nat).
Proof.
  revert out d. induction t as [|c t IH]; intros out d; cbn [put_str].
  - intros [= <- <-]. exists []. by rewrite app_nil_r.
  - destruct (Nat.leb_spec max (length out)); [done|]. case_match.
    + intros [= <- <-]. exists []. by rewrite app_nil_r.
    + intros E. apply IH in E as (t' & -> & -> & H'). exists (c :: t'). by rewrite <- app_assoc in *.
Qed.

Lemma put_str_truncated max max' out t limited d T rest : put_str max out t limited d = inl (T, rest) -> (length out <= max')%nat ->
  (put_str max' out t limited d = inl (T, rest) /\ (length T <= max')%nat) \/
  (put_str max' out t limited d = inr (take max' T) /\ (max' <= length T)%nat).
Proof.
  revert out d. induction t as [|c t IH]; intros out d; cbn [put_str].
  - intros [= <- <-] H. by left.
  - destruct (Nat.leb_spec max (length out)); [done|]. intros E Hl. destruct (Nat.leb_spec max' (length out)) as [Hm|Hm].
    + right. assert (max' = length out) as -> by lia.
      assert (Hp : out `prefix_of` T).
      { case_match; [by injection E as <- <-|]. apply put_str_inl in E as (t' & -> & _). exists (c :: t'). by rewrite <- app_assoc. }
      destruct Hp as [u ->]. rewrite take_app_length, length_app. split; [done|]. lia.
    + case_match; [injection E as <- <-; left; split; [done|lia]|]. apply IH; [done|]. rewrite length_app. cbn. lia.
Qed.

Section Print.
Context (double : Type) (float : double -> ascii -> Z -> bool -> bool -> bool -> text * text) (debug : bool).

Lemma put_wide_grows max out w limited d T : put_wide debug max out w limited d = Ret (inl T) -> out `prefix_of` T.
Proof using.
  revert out d. induction w as [|c w IH]; intros out d; cbn [put_wide]; [by intros [= <-]|].
  case_match; [done|]. case_match; [by intros [= <-]|]. case_match; [done|]. intros E. apply IH in E. etrans; [|exact E]. by eexists.
Qed.

Lemma put_wide_truncated max max' out w limited d T : put_wide debug max out w limited d = Ret (inl T) -> (length out <= max')%nat ->
  exists r, put_wide debug max' out w limited d = Ret r /\ truncated max' T r.
Proof using.
  revert out d. induction w as [|c w IH]; intros out d E Hl.
  - injection E as <-. eexists. split; [done|]. by left.
  - cbn [put_wide] in *. destruct (Nat.leb_spec max (length out)); [done|]. destruct (Nat.leb_spec max' (length out)) as [Hm|Hm].
    + eexists. split; [done|]. right. assert (max' = length out) as -> by lia.
      assert (Hp : out `prefix_of` T).
      { case_match; [by injection E as <-|]. case_match; [done|]. apply put_wide_grows in E. etrans; [|exact E]. by eexists. }
      destruct Hp as [u ->]. rewrite take_app_length, length_app. split; [done|]. lia.
    + case_match; [injection E as <-; eexists; split; [done|]; left; split; [done|lia]|]. case_match; [done|].
      apply IH; [done|]. rewrite length_app. cbn. lia.
Qed.

Lemma put_body_truncated max max' out p ch T s : put_body debug max out p ch = Ret (inl T, s) -> (length out <= max')%nat ->
  out `prefix_of` T /\ exists r s', put_body debug max' out p ch = Ret (r, s') /\ truncated max' T r /\ (r = inl T -> s' = s).
Proof using.
  unfold put_body. destruct (wstr p) as [w|].
  - destruct (put_wide debug max out w _ _) as [r| |] eqn:E; try done. cbn [mbind outcome_bind]. intros [= -> <-] Hl.
    split; [by eapply put_wide_grows|]. destruct (put_wide_truncated _ max' _ _ _ _ _ E Hl) as (r' & -> & Ht). eexists _, _. split; [done|]. by split.
  - destruct (str p) as [|t|] eqn:Es; [set (t := null_text)| |done].
    all: destruct (put_str max out t _ _) as [[T' rest]|T'] eqn:E; [|done]; intros [= -> <-] Hl.
    all: split; [destruct (put_str_inl _ _ _ _ _ _ _ E) as (u & -> & _); by eexists|].
    all: destruct (put_str_truncated _ max' _ _ _ _ _ _ E Hl) as [[-> Hm]|[-> Hm]]; eexists _, _; (split; [reflexivity|]); (split; [|done]); [by left|by right].
Qed.

Lemma bind_put_inl r k T : bind_put r k = inl T -> exists T', r = inl T' /\ k T' = inl T.
Proof using. destruct r as [T'|]; [|done]. intros E. by exists T'. Qed.

Lemma put_piece_truncated max max' out p ch T s : put_piece debug max out p ch = Ret (inl T, s) -> (length out <= max')%nat ->
  out `prefix_of` T /\ exists r s', put_piece debug max' out p ch = Ret (r, s') /\ truncated max' T r /\ (r = inl T -> s' = s).
Proof using.
  unfold put_piece. destruct (fill_count p) as [n| |]; try done. cbn [mbind outcome_bind]. cbv zeta.
  set (fills := repeat _ _). set (zero := bool_decide _).
  destruct (bind_put (put max out _) _) as [T1|] eqn:E1; [|done].
  apply bind_put_inl in E1 as (A & EA & E1). apply bind_put_inl in E1 as (B & EB & E1).
  apply put_inl in EA as [-> _]. apply put_inl in EB as [-> _]. apply put_inl in E1 as [-> _].
  destruct (put_body debug max _ p ch) as [[r s1]| |] eqn:E2; try done. cbn [mbind outcome_bind]. intros [= E3 <-] Hl.
  apply bind_put_inl in E3 as (C & -> & E3). apply put_inl in E3 as [-> _].
  set (out1 := ((out ++ _) ++ _) ++ _) in *.
  assert (Hout : out `prefix_of` out1) by (unfold out1; rewrite <- !app_assoc; by eexists).
  assert (H1 : truncated max' out1 (bind_put (put max' out (if zero then prefixbuf p else [])) (fun out =>
        bind_put (put max' out (if minus_flag (p_spec p) then [] else fills)) (fun out => put max' out (if zero then [] else prefixbuf p))))).
  { apply (truncated_bind max' (out ++ (if zero then prefixbuf p else []))); [exact (put_truncated _ _ _ Hl)|unfold out1; rewrite <- (app_assoc _ (if minus_flag _ then _ else _)); by eexists|].
    intros HA. apply (truncated_bind max' ((out ++ (if zero then prefixbuf p else [])) ++ (if minus_flag (p_spec p) then [] else fills)));
      [exact (put_truncated _ _ _ HA)|by eexists|]. intros HB. exact (put_truncated _ _ _ HB). }
  assert (Hbody : (length out1 <= max')%nat -> out1 `prefix_of` C /\ exists r s', put_body debug max' out1 p ch = Ret (r, s') /\ truncated max' C r /\ (r = inl C -> s' = s1)).
  { by apply (put_body_truncated max). }
  assert (HC : out1 `prefix_of` C) by (by eapply (proj1 (put_body_truncated _ (length out1) _ _ _ _ _ E2 (Nat.le_refl _)))).
  split; [etrans; [exact Hout|]; etrans; [exact HC|]; by eexists|].
  destruct H1 as [[-> H1]|[-> H1]].
  - destruct (Hbody H1) as (_ & r & s' & -> & Hr & Hs). cbn [mbind outcome_bind]. eexists _, _. split; [reflexivity|]. split.
    + eapply truncated_bind; [exact Hr|by eexists|]. intros Hlc. exact (put_truncated _ _ _ Hlc).
    + intros E. apply bind_put_inl in E as (C' & -> & E). destruct Hr as [[[= ->] _]|[[=] _]]. by rewrite Hs.
  - eexists _, _. split; [reflexivity|]. split; [|done]. right. destruct HC as [u ->]. rewrite <- app_assoc, length_app, take_app_le by done. split; [done|lia].
Qed.

Abbreviation varg := (varg double).
Abbreviation conversion := (conversion double float debug).
Abbreviation print_loop := (print_loop double float debug).
Abbreviation our_vsnprintf := (our_vsnprintf double float debug).

Lemma conversion_truncated max max' out c ap old T c1 ap1 s vs : conversion max out c ap old = Ret (inl T, c1, ap1, s, vs) -> (length out <= max')%nat ->
  out `prefix_of` T /\ exists r s', conversion max' out c ap old = Ret (r, c1, ap1, s', vs) /\ truncated max' T r /\ (r = inl T -> s' = s).
Proof using.
  unfold IoPrint.conversion. destruct (flags c) as [f c0].
  destruct (width _ _ _ _) as [[[f1 c2] ap2]| |]; try done. cbn [mbind outcome_bind].
  destruct (precision _ _ _ _) as [[[f2 c3] ap3]| |]; try done. cbn [mbind outcome_bind].
  destruct (size_modifier _ _ _) as [[f3 c4]| |]; try done. cbn [mbind outcome_bind].
  destruct c4 as [|ch c5]; [done|]. destruct (dispatch _ _ _ _ _ _ _ _) as [[p ap4]| |]; try done. cbn [mbind outcome_bind].
  destruct (put_piece debug max out p ch) as [[r s1]| |] eqn:E; try done. cbn [mbind outcome_bind]. intros [= -> <- <- <- <-] Hl.
  destruct (put_piece_truncated _ max' _ _ _ _ _ E Hl) as (Hp & r & s' & -> & H). split; [done|]. eexists _, _. split; [reflexivity|]. exact H.
Qed.

(** *** The length of the format *)

Lemma get_flags_length c f : (length (get_flags c f).2 <= length c)%nat.
Proof using. revert f. induction c as [|x c IH]; intros f; cbn [get_flags]; [done|]. destruct (is_flag x); [|done]. specialize (IH (set_flag f x)). cbn. lia. Qed.
Lemma flags_length c f c' : flags c = (f, c') -> (length c' <= length c)%nat.
Proof using. unfold flags. pose proof (get_flags_length c new_spec) as H. destruct (get_flags c new_spec) as [f0 c0]. by intros [= <- <-]. Qed.
Lemma get_digits_length c n : (length (get_digits c n).2 <= length c)%nat.
Proof using. revert n. induction c as [|x c IH]; intros n; cbn [get_digits]; [done|]. destruct (decval x) as [d|]; [|done]. specialize (IH (s32 (s32 (n * 10) + d))). cbn. lia. Qed.

Lemma width_length f c ap f' c' ap' : width double f c ap = Ret (f', c', ap') -> (length c' <= length c)%nat.
Proof using.
  unfold width. pose proof (get_digits_length c 0) as H.
  assert (Hd : forall n c1, get_digits c 0 = (n, c1) -> Ret (set_width f (minus_flag f) n, c1, ap) = Ret (f', c', ap') -> (length c' <= length c)%nat).
  { intros n c1 E [= _ <- _]. by rewrite E in H. }
  destruct c as [|x c]; [destruct (get_digits [] 0) eqn:E; by eapply Hd|].
  destruct (decide (x = "*"%char)) as [->|Hx].
  - destruct (arg_int double ap) as [[n ap1]| |]; try done. cbn [mbind outcome_bind]. intros [= _ <- _]. cbn. lia.
  - assert (Hw : width double f (x :: c) ap = let '(n, c1) := get_digits (x :: c) 0 in Ret (set_width f (minus_flag f) n, c1, ap)).
    { unfold width. destruct x as [[] [] [] [] [] [] [] []]; try reflexivity. by destruct Hx. }
    unfold width in Hw. rewrite Hw. destruct (get_digits (x :: c) 0) eqn:E. by eapply Hd.
Qed.

Lemma precision_length f c ap f' c' ap' : precision double f c ap = Ret (f', c', ap') -> (length c' <= length c)%nat.
Proof using.
  destruct c as [|x c]; [by intros [= _ <- _]|].
  destruct (decide (x = "."%char)) as [->|Hx].
  - assert (Hd : forall n c1, get_digits c 0 = (n, c1) -> Ret (set_decimal f n, c1, ap) = Ret (f', c', ap') -> (length c' <= length ("."%char :: c))%nat).
    { intros n c1 E [= _ <- _]. pose proof (get_digits_length c 0) as H. rewrite E in H. cbn in *. lia. }
    destruct c as [|y c]; [destruct (get_digits [] 0) eqn:E; by eapply Hd|].
    destruct (decide (y = "*"%char)) as [->|Hy].
    + cbn [precision]. destruct (arg_int double ap) as [[n ap1]| |]; try done. cbn [mbind outcome_bind]. intros [= _ <- _]. cbn. lia.
    + assert (Hw : precision double f ("."%char :: y :: c) ap = let '(n, c1) := get_digits (y :: c) 0 in Ret (set_decimal f n, c1, ap)).
      { destruct y as [[] [] [] [] [] [] [] []]; try reflexivity. by destruct Hy. }
      rewrite Hw. destruct (get_digits (y :: c) 0) eqn:E. by eapply Hd.
  - assert (Hw : precision double f (x :: c) ap = Ret (f, x :: c, ap)).
    { destruct x as [[] [] [] [] [] [] [] []]; try reflexivity. by destruct Hx. }
    rewrite Hw. by intros [= _ <- _].
Qed.

Ltac letters := repeat match goal with
  | |- context [match ?c with _ => _ end] => is_var c; destruct c
  | |- context [if ?b then _ else _] => is_var b; destruct b
  end.

Lemma size_length f c f' c' : size_modifier debug f c = Ret (f', c') -> (length c' <= length c)%nat.
Proof using.
  destruct c as [|x c]; [by intros [= _ <-]|].
  assert (Hs : (length c' <= length (x :: c))%nat \/ size_modifier debug f (x :: c) <> Ret (f', c')).
  { destruct c as [|y [|z c]]; unfold size_modifier; letters; try (right; discriminate);
      match goal with |- _ \/ Ret (_, ?l) <> _ => destruct (decide (l = c')) as [<-|Hc]; [left; cbn; lia|right; by intros [= _ E]] end. }
  intros E. by destruct Hs.
Qed.

Lemma conversion_length max out c ap old r c1 ap1 s vs : conversion max out c ap old = Ret (r, c1, ap1, s, vs) -> (length c1 < length c)%nat.
Proof using.
  unfold IoPrint.conversion. destruct (flags c) as [f c0] eqn:E0. apply flags_length in E0.
  destruct (width _ _ _ _) as [[[f1 c2] ap2]| |] eqn:E1; try done. apply width_length in E1. cbn [mbind outcome_bind].
  destruct (precision _ _ _ _) as [[[f2 c3] ap3]| |] eqn:E2; try done. apply precision_length in E2. cbn [mbind outcome_bind].
  destruct (size_modifier _ _ _) as [[f3 c4]| |] eqn:E3; try done. apply size_length in E3. cbn [mbind outcome_bind].
  destruct c4 as [|ch c5]; [done|]. destruct (dispatch _ _ _ _ _ _ _ _) as [[p ap4]| |]; try done. cbn [mbind outcome_bind].
  destruct (put_piece debug max out p ch) as [[r' s1]| |]; try done. cbn [mbind outcome_bind]. intros [= _ <- _ _ _]. cbn [length] in E3. lia.
Qed.

(** *** It ends *)

Definition fueled {A} (o : outcome A) : Prop := o <> Out_of_fuel.

Lemma fueled_bind {A B} (o : outcome A) (k : A -> outcome B) : fueled o -> (forall a, fueled (k a)) -> fueled (o ≫= k).
Proof using. intros H Hk. destruct o; [apply Hk|done|done]. Qed.

Ltac fueled_tac := repeat match goal with
  | |- fueled (mbind _ _) => apply fueled_bind; [|intros]
  | |- fueled (Ret _) => discriminate
  | |- fueled Abort => discriminate
  | |- context [match ?x with _ => _ end] => is_var x; destruct x
  | |- fueled (if ?b then _ else _) => destruct b
  | |- fueled (match ?x with _ => _ end) => destruct x
  | |- fueled (let '(_, _) := ?x in _) => destruct x
  | |- fueled (let _ := _ in _) => cbv zeta
  end.

Lemma to_str_fueled g e n b d caps : fueled (to_str g e n b d caps).
Proof using. unfold to_str. fueled_tac. Qed.
Lemma signed_fueled f ap : fueled (signed_conversion double debug f ap).
Proof using. unfold signed_conversion, arg_long, arg_int, uint64_to_str, ulong_to_str. fueled_tac; apply to_str_fueled. Qed.
Lemma unsigned_fueled f ch ap : fueled (unsigned_conversion double debug f ch ap).
Proof using. unfold unsigned_conversion, arg_ulong, arg_uint, uint64_to_str, ulong_to_str. fueled_tac; apply to_str_fueled. Qed.
Lemma dispatch_fueled f ch ap old n : fueled (dispatch double float debug f ch ap old n).
Proof using.
  assert (Hu : fueled (let f := int_precision f in
    if ll_type f then '(val, ap) ← arg_ulong double ap; t ← uint64_to_str debug val 10 (decimal f) false; Ret (piece f [] t, ap)
    else unsigned_conversion double debug f "u" ap)).
  { unfold arg_ulong, uint64_to_str. cbv zeta. case_match; [|apply unsigned_fueled]. fueled_tac. apply to_str_fueled. }
  unfold dispatch. destruct ch as [[] [] [] [] [] [] [] []]; cbv beta iota; first
    [exact Hu | apply signed_fueled | apply unsigned_fueled | unfold arg_int; fueled_tac].
Qed.

Lemma put_wide_fueled max out w limited d : fueled (put_wide debug max out w limited d).
Proof using. revert out d. induction w as [|c w IH]; intros out d; cbn [put_wide]; fueled_tac. apply IH. Qed.

Lemma conversion_fueled max out c ap old : fueled (conversion max out c ap old).
Proof using.
  unfold IoPrint.conversion, put_piece, fill_count, put_body. destruct (flags c) as [f c0]. apply fueled_bind.
  { unfold width, arg_int. fueled_tac. } intros [[f1 c2] ap2]. apply fueled_bind.
  { unfold precision, arg_int. fueled_tac. } intros [[f2 c3] ap3]. apply fueled_bind.
  { unfold size_modifier. fueled_tac. } intros [f3 c4]. destruct c4 as [|ch c5]; [done|]. apply fueled_bind; [apply dispatch_fueled|]. intros [p ap4].
  fueled_tac; apply put_wide_fueled.
Qed.

Lemma literal_length c : (length (literal c).2 <= length c)%nat.
Proof using. induction c as [|x c IH]; [done|]. cbn [literal]. case_decide; [done|]. destruct (literal c) as [l r]. cbn in *. lia. Qed.

Lemma loop_fueled fuel max out c ap old st : (length c < fuel)%nat -> fueled (print_loop fuel max out c ap old st).
Proof using.
  revert max out c ap old st. induction fuel as [|fuel IH]; intros max out c ap old st Hf; [lia|]. cbn [IoPrint.print_loop].
  destruct c as [|x c]; [done|]. cbn [length] in Hf. case_decide.
  - destruct (conversion max out c ap old) as [[[[[r c1] ap1] s] vs]| |] eqn:E; [|done|by destruct (conversion_fueled max out c ap old)].
    cbn [mbind outcome_bind]. apply conversion_length in E. destruct r; [|done]. apply IH. lia.
  - pose proof (literal_length c) as Hl. cbn [literal]. rewrite decide_False by done. destruct (literal c) as [l c1]. cbn [snd] in Hl.
    destruct (put _ _ _); [|done]. apply IH. lia.
Qed.

(** *** Smaller buffers *)

(** What a run of the loop leaves that ends at the end of the format. *)
Record complete (max : nat) (out : text) (r : printed_t) : Prop := {
  cp_prefix : out `prefix_of` written r;
  cp_ret : ret r = Z.of_nat (length (written r));
  cp_nul : terminated r = (length (written r) <? max)%nat
}.

(** The same run in a buffer of [max] characters. *)
Definition shortened (max : nat) (r r' : printed_t) : Prop :=
  (r' = {| ret := ret r; written := written r; terminated := (length (written r) <? max)%nat; stores := stores r |} /\ (length (written r) <= max)%nat) \/
  (ret r' = -1 /\ written r' = take max (written r) /\ terminated r' = false /\ (max <= length (written r))%nat).

Lemma loop_truncated fuel max max' out c ap old st r : print_loop fuel max out c ap old st = Ret r -> ret r <> -1 -> (length out <= max')%nat ->
  complete max out r /\ exists r', print_loop fuel max' out c ap old st = Ret r' /\ shortened max' r r'.
Proof using.
  revert max' out c ap old st. induction fuel as [|fuel IH]; intros max' out c ap old st; [done|]. cbn [IoPrint.print_loop].
  destruct c as [|x c].
  { intros [= <-] _ Hl. split; [by constructor|]. eexists. split; [done|]. by left. }
  (* a step to [T], after which [k] goes on *)
  assert (Hstep : forall T (r1 : text + text) c1 ap1 s s' st1, truncated max' T r1 -> (r1 = inl T -> s' = s) -> out `prefix_of` T ->
    print_loop fuel max T c1 ap1 s st1 = Ret r -> ret r <> -1 ->
    complete max out r /\ exists r', match r1 with
      | inl out => print_loop fuel max' out c1 ap1 s' st1
      | inr out => Ret {| ret := -1; written := out; terminated := false; stores := st1 |}
      end = Ret r' /\ shortened max' r r').
  { intros T r1 c1 ap1 s s' st1 Ht Hs Hp Er Hr. destruct (IH (length T) _ _ _ _ _ Er Hr (Nat.le_refl _)) as [[H1 H2 H3] _].
    split; [constructor; [by etrans|done..]|]. destruct Ht as [[-> Hm]|[-> Hm]].
    - rewrite (Hs eq_refl). destruct (IH max' _ _ _ _ _ Er Hr Hm) as [_ H4]. exact H4.
    - eexists. split; [done|]. right. cbn. destruct H1 as [u ->]. rewrite length_app, take_app_le by lia. split_and!; (done || lia). }
  case_decide as Hx.
  - destruct (conversion max out c ap old) as [[[[[[T|T] c1] ap1] s] vs]| |] eqn:E; try done; cbn [mbind outcome_bind]; [|by intros [= <-]].
    intros Er Hr Hl. destruct (conversion_truncated _ max' _ _ _ _ _ _ _ _ _ E Hl) as (Hp & r1 & s' & -> & Ht & Hs). cbn [mbind outcome_bind].
    by eapply Hstep.
  - destruct (literal (x :: c)) as [l c1]. destruct (put max out l) as [T|T] eqn:E; [|by intros [= <-]].
    intros Er Hr Hl. apply put_inl in E as [-> _]. eapply Hstep; [by apply put_truncated|done|by eexists|done|done].
Qed.
End Print.
