(* ===== verification/IoRound.v ===== *)
(** * Scanning what was printed

    Formats of literal characters, blanks and integers: what [our_vsnprintf]
    prints of them, [our_vsscanf] reads back. *)
From S2P Require Export IoPrintProof IoScan.

(** ** Values of digits *)

Definition not_digit (r : text) : Prop := match r with c :: _ => digit_of c = None | [] => True end.

Lemma digit_letter caps d : 0 <= d < 16 -> digit_of (base_letters caps d) = Some d.
Proof.
  intros H. unfold base_letters. destruct caps; pattern d; apply (small_digit _ 16 16 d eq_refl H);
    intros i Hi; do 16 (destruct i as [|i]; [reflexivity|]); exfalso; lia.
Qed.

Lemma int_loop_stop r i base acc : not_digit r -> int_loop r i 0 base acc = (i, acc, r).
Proof. destruct r as [|c r]; [done|]. cbn. by intros ->. Qed.

Lemma int_loop_pad k base num caps r i acc : 2 <= base <= 16 -> 0 <= num < base ^ Z.of_nat k -> 0 <= acc ->
  acc * base ^ Z.of_nat k + num < w64 ->
  int_loop (pad_digits k base num caps ++ r) i 0 base acc = int_loop r (i + Z.of_nat k) 0 base (acc * base ^ Z.of_nat k + num).
Proof.
  intros Hb. revert num r i acc. induction k as [|k IH]; intros num r i acc Hn Ha Hs.
  - change (base ^ Z.of_nat 0) with 1 in *. cbn [pad_digits app]. f_equal; lia.
  - rewrite Nat2Z.inj_succ, Z.pow_succ_r in * by lia. cbn [pad_digits]. rewrite <- app_assoc.
    pose proof (Z.div_mod num base ltac:(lia)). pose proof (Z.mod_pos_bound num base ltac:(lia)). pose proof (Z.pow_pos_nonneg base (Z.of_nat k) ltac:(lia) ltac:(lia)).
    assert (Hq : 0 <= num / base < base ^ Z.of_nat k) by (split; [apply Z.div_pos|apply Z.div_lt_upper_bound]; lia).
    rewrite IH by nia. cbn [app int_loop Z.eqb orb]. rewrite digit_letter by lia. rewrite (proj2 (Z.leb_gt _ _)) by lia.
    rewrite u64_small by nia. f_equal; nia.
Qed.

Lemma int_loop_zeros zs r i base : 2 <= base -> Forall (fun c => c = "0"%char) zs -> int_loop (zs ++ r) i 0 base 0 = int_loop r (i + Z.of_nat (length zs)) 0 base 0.
Proof.
  intros Hb Hz. revert i. induction Hz as [|c zs -> _ IH]; intros i; cbn [app length]; [f_equal; lia|]. cbn [int_loop Z.eqb orb].
  change (digit_of "0") with (Some 0). cbn iota beta. rewrite (proj2 (Z.leb_gt _ _)) by lia. rewrite Z.mul_0_l, Z.add_0_l. change (u64 0) with 0.
  rewrite IH. f_equal. lia.
Qed.

(** The digits [ds] are those of [num], with or without zeros in front. *)
Definition digits_of (base num : Z) (ds : text) : Prop :=
  ds <> [] /\ Forall (fun c => exists d, digit_of c = Some d /\ d < base) ds /\
  forall r i, not_digit r -> int_loop (ds ++ r) i 0 base 0 = (i + Z.of_nat (length ds), num, r).

Lemma Forall_pad_digits k base num caps : 2 <= base <= 16 -> Forall (fun c => exists d, digit_of c = Some d /\ d < base) (pad_digits k base num caps).
Proof.
  intros Hb. revert num. induction k as [|k IH]; intros num; cbn [pad_digits]; [constructor|]. apply Forall_app. split; [apply IH|].
  pose proof (Z.mod_pos_bound num base ltac:(lia)). apply Forall_singleton. exists (num mod base). rewrite digit_letter by lia. split; [done|lia].
Qed.

Lemma digits_of_trim k base num caps : 2 <= base <= 16 -> (0 < k)%nat -> 0 <= num < base ^ Z.of_nat k -> num < w64 ->
  digits_of base num (trim_zeros (pad_digits k base num caps) 1).
Proof.
  intros Hb Hk Hn Hw. set (p := pad_digits k base num caps). assert (Hlp : length p = k) by apply length_pad_digits.
  destruct (trim_zeros_app 1 p) as (zs & Hz & E). destruct (trim_zeros_shape 1 p) as [Hl _]; [lia|].
  pose proof (Forall_pad_digits k base num caps Hb) as Hd. fold p in Hd. rewrite E in Hd. apply Forall_app in Hd as [_ Hd].
  split; [destruct (trim_zeros p 1); [cbn in Hl; lia|done]|]. split; [done|]. intros r i Hr.
  assert (Hv : int_loop (p ++ r) (i - Z.of_nat (length zs)) 0 base 0 = int_loop r (i - Z.of_nat (length zs) + Z.of_nat k) 0 base (0 * base ^ Z.of_nat k + num)).
  { apply int_loop_pad; (done || lia || (rewrite Z.mul_0_l; lia)). }
  rewrite E, <- app_assoc, int_loop_zeros in Hv by (done || lia). replace (i - Z.of_nat (length zs) + Z.of_nat (length zs)) with i in Hv by lia.
  rewrite Hv, int_loop_stop by done. rewrite Z.mul_0_l, Z.add_0_l. f_equal. f_equal.
  assert (Hlen : length p = (length zs + length (trim_zeros p 1))%nat) by (rewrite E at 1; apply length_app). lia.
Qed.

Lemma digits_of_zeros base num ds n : 2 <= base -> digits_of base num ds -> digits_of base num (repeat "0"%char n ++ ds).
Proof.
  intros Hb (H1 & H2 & H3). assert (Hz : Forall (fun c => c = "0"%char) (repeat "0"%char n)) by (apply Forall_forall; intros c Hc; by apply list_elem_of_In, repeat_spec in Hc).
  split; [destruct n; [done|by cbn]|]. split.
  - apply Forall_app. split; [|done]. eapply Forall_impl; [exact Hz|]. intros c ->. exists 0. split; [done|lia].
  - intros r i Hr. rewrite <- app_assoc, int_loop_zeros, H3 by done. rewrite length_app. f_equal. f_equal. lia.
Qed.

(** ** [parse_int] on a number *)

Lemma digit_facts c d : digit_of c = Some d -> c <> "-"%char /\ c <> "+"%char /\ our_isspace c = false /\ c <> NUL /\ c <> "%"%char.
Proof.
  intros E. destruct c as [[] [] [] [] [] [] [] []]; (discriminate E || (split_and!; [discriminate..|reflexivity|discriminate|discriminate])).
Qed.

Lemma parse_digits base num ds r (signed negative : bool) : base = 10 \/ base = 16 -> digits_of base num ds -> not_digit r -> (negative = true -> signed = true) ->
  parse_int ((if negative then ["-"%char] else []) ++ ds ++ r) base 0 signed = Some (if negative then u64 (- num) else num, r).
Proof.
  intros Hb (Hne & Hall & Hv) Hr Hs. specialize (Hv r 0 Hr). unfold parse_int.
  assert (Hg : (36 <? base) || (base =? 1) = false) by (by destruct Hb as [->| ->]). rewrite Hg.
  destruct ds as [|c ds]; [done|]. apply Forall_cons in Hall as [(d & Ed & Hd) Hall]. destruct (digit_facts c d Ed) as (F1 & F2 & _).
  assert (Hsign : match (if negative then ["-"%char] else []) ++ (c :: ds) ++ r with
     | "-"%char :: sp' => if signed then (true, sp') else (false, (if negative then ["-"%char] else []) ++ (c :: ds) ++ r)
     | _ => (false, (if negative then ["-"%char] else []) ++ (c :: ds) ++ r)
     end = (negative, (c :: ds) ++ r)).
  { destruct negative; cbn [app]; [by rewrite Hs|]. destruct c as [[] [] [] [] [] [] [] []]; (reflexivity || by destruct F1). }
  rewrite Hsign. clear Hsign.
  assert (Hplus : match (c :: ds) ++ r with "+"%char :: sp' => if negative then (c :: ds) ++ r else sp' | _ => (c :: ds) ++ r end = (c :: ds) ++ r).
  { cbn [app]. destruct c as [[] [] [] [] [] [] [] []]; (reflexivity || by destruct F2). }
  rewrite Hplus. clear Hplus.
  assert (Hx : match (c :: ds) ++ r with
      | "0"%char :: "x"%char :: sp' => if (base =? 0) || (base =? 16) then (16, sp') else (base, (c :: ds) ++ r)
      | _ => (base, (c :: ds) ++ r) end = (base, (c :: ds) ++ r)).
  { cbn [app]. destruct (ds ++ r) as [|x l] eqn:El; [by destruct c as [[] [] [] [] [] [] [] []]|].
    destruct (decide (x = "x"%char)) as [->|Hxx].
    - exfalso. destruct ds as [|y ds]; cbn [app] in El.
      + subst r. cbn in Hr. discriminate.
      + injection El as -> _. apply Forall_cons in Hall as [(d' & E' & Hd') _]. change (Some 33 = Some d') in E'. injection E' as <-. destruct Hb; lia.
    - destruct c as [[] [] [] [] [] [] [] []]; try reflexivity. destruct x as [[] [] [] [] [] [] [] []]; (reflexivity || by destruct Hxx). }
  rewrite Hx. clear Hx.
  assert (Ho : match (c :: ds) ++ r with "0"%char :: sp' => if base =? 0 then (8, sp') else (base, (c :: ds) ++ r) | _ => (base, (c :: ds) ++ r) end = (base, (c :: ds) ++ r)).
  { replace (base =? 0) with false by (by destruct Hb as [->| ->]). cbn [app]. by destruct c as [[] [] [] [] [] [] [] []]. }
  rewrite Ho. clear Ho. replace (base =? 0) with false by (by destruct Hb as [->| ->]). rewrite Hv.
  rewrite (proj2 (Z.eqb_neq _ _)); [done|]. cbn [length]. lia.
Qed.
