(* ===== verification/IoItems.v ===== *)
(** * Formats of numbers and of plain characters

    The conversions [%d], [%u] and [%x] with a fill of zeros or blanks, a width
    and the sizes [l] and [ll], between plain characters: what
    [our_vsnprintf] prints of them. *)
From S2P Require Export IoRound.

(** ** Items of a format *)

Inductive num_size := NInt | NLong | NLongLong.
Inductive num_kind := KDec | KUnsigned | KHex.
Record number := { zero : bool; wide : text; nsize : num_size; kind : num_kind }.
Inductive item := Lit (c : ascii) | Num (n : number).

Definition size_text (n : number) : text := match nsize n with NInt => [] | NLong => ["l"%char] | NLongLong => ["l"%char; "l"%char] end.
Definition kind_char (n : number) : ascii := match kind n with KDec => "d"%char | KUnsigned => "u"%char | KHex => "x"%char end.
Definition num_base (n : number) : Z := match kind n with KHex => 16 | _ => 10 end.

(** What is behind the [%] when printing; a width has no [0] in front. *)
Definition print_text (n : number) : text := (if zero n then ["0"%char] else []) ++ wide n ++ size_text n ++ [kind_char n].
Definition wide_ok (w : text) : Prop := Forall (fun c => decval c <> None) w /\ match w with c :: _ => c <> "0"%char | [] => True end.

(** The value as the conversion takes it from the bits [z] of the argument. *)
Definition value (n : number) (z : Z) : Z :=
  match kind n, nsize n with
  | KDec, NInt => s32 z
  | KDec, _ => s64_of z
  | _, NInt => u32 z
  | _, _ => u64 z
  end.
Definition sign (n : number) (z : Z) : text := if value n z <? 0 then ["-"%char] else [].
Definition digits (n : number) (z : Z) : text :=
  trim_zeros (pad_digits (match nsize n with NLongLong => 43 | _ => 22 end) (num_base n) (Z.abs (value n z)) false) 1.

(** Zeros are lost with [u] unless it is [llu]. *)
Definition zero_fill (n : number) : bool := zero n && match kind n, nsize n with KUnsigned, NInt | KUnsigned, NLong => false | _, _ => true end.
Definition fills (n : number) (z : Z) : text :=
  let w := (get_digits (wide n) 0).1 in
  repeat (if zero_fill n then "0"%char else " "%char)
    (Z.to_nat (if 0 <? w then s32 (w - (Z.of_nat (length (digits n z)) + Z.of_nat (length (sign n z)))) else w)).
Definition number_text (n : number) (z : Z) : text :=
  if zero_fill n then sign n z ++ fills n z ++ digits n z else fills n z ++ sign n z ++ digits n z.

(** ** The value and its digits *)

Lemma value_range n z : - (w64 / 2) <= value n z < w64 /\ (kind n <> KDec -> 0 <= value n z).
Proof.
  change (w64 / 2) with 9223372036854775808. unfold value, s32, s64_of, u32, u64.
  pose proof (Z.mod_pos_bound z w32 eq_refl). pose proof (Z.mod_pos_bound z w64 eq_refl).
  pose proof (Z.mod_pos_bound (z + 2147483648) w32 eq_refl). pose proof (Z.mod_pos_bound (z + 9223372036854775808) w64 eq_refl).
  destruct (kind n), (nsize n); (split; [lia|intros Hk]); (lia || by destruct Hk).
Qed.

Lemma abs_range n z : 0 <= Z.abs (value n z) < w64.
Proof. pose proof (value_range n z). change (w64 / 2) with 9223372036854775808 in *. lia. Qed.

Lemma digits_of_value n z : digits_of (num_base n) (Z.abs (value n z)) (digits n z).
Proof.
  pose proof (abs_range n z) as H. unfold digits, num_base.
  apply digits_of_trim; [destruct (kind n); lia|destruct (nsize n); lia| |lia]. split; [lia|].
  eapply Z.lt_le_trans; [apply H|]. apply Z.leb_le. destruct (kind n), (nsize n); vm_compute; reflexivity.
Qed.

(** ** The head of a conversion *)

Lemma get_digits_app w c n : Forall (fun x => decval x <> None) w -> match c with x :: _ => decval x = None | [] => True end ->
  get_digits (w ++ c) n = ((get_digits w n).1, c).
Proof.
  intros Hw Hc. revert n. induction Hw as [|x w Hx Hw IH]; intros n; cbn [app get_digits].
  - destruct c as [|x c]; [done|]. cbn [get_digits]. by rewrite Hc.
  - destruct (decval x) as [d|]; [|done]. apply IH.
Qed.

Lemma decval_facts c : decval c <> None -> c <> "0"%char -> is_flag c = false /\ c <> "*"%char.
Proof. intros H1 H2. destruct c as [[] [] [] [] [] [] [] []]; try (by destruct H1); try (by destruct H2); done. Qed.

Lemma flags_number (b : bool) c : match c with x :: _ => is_flag x = false | [] => True end ->
  flags ((if b then ["0"%char] else []) ++ c) = (set_filler new_spec (if b then "0"%char else " "%char) false, c).
Proof.
  intros Hc. assert (Hg : forall f, get_flags c f = (f, c)) by (intros f; destruct c as [|x c]; [done|]; cbn [get_flags]; by rewrite Hc).
  unfold flags. destruct b; cbn [app get_flags]; [change (is_flag "0") with true; cbn iota|]; by rewrite Hg.
Qed.

Section Print.
Context (double : Type) (float : double -> ascii -> Z -> bool -> bool -> bool -> text * text) (debug : bool).

Abbreviation varg := (varg double).
Abbreviation conversion := (conversion double float debug).
Abbreviation print_loop := (print_loop double float debug).

Definition num_arg (n : number) (z : Z) : varg := match nsize n with NInt => VInt z | _ => VLong z end.

Lemma width_number f w c ap : Forall (fun x => decval x <> None) w -> match w ++ c with x :: _ => x <> "*"%char | [] => True end ->
  match c with x :: _ => decval x = None | [] => True end ->
  IoPrint.width double f (w ++ c) ap = Ret (set_width f (minus_flag f) (get_digits w 0).1, c, ap).
Proof using.
  intros Hw Hs Hc. pose proof (get_digits_app w c 0 Hw Hc) as H. unfold IoPrint.width. destruct (w ++ c) as [|x l]; [by rewrite H|].
  rewrite H. destruct x as [[] [] [] [] [] [] [] []]; try reflexivity. by destruct Hs.
Qed.

(** ** What a conversion leaves *)

Lemma put_str_all max out t d : (length out + length t <= max)%nat -> put_str max out t false d = inl (out ++ t, []).
Proof using.
  revert out d. induction t as [|c t IH]; intros out d H; cbn [put_str length] in *; [by rewrite app_nil_r|].
  destruct (Nat.leb_spec max (length out)); [lia|]. cbn [andb]. rewrite IH, <- app_assoc; [done|]. rewrite length_app. cbn. lia.
Qed.

Lemma put_piece_fits max out f prefix ds ch : minus_flag f = false -> ch <> "s"%char ->
  let fl := repeat (filler f) (Z.to_nat (if 0 <? fill f then s32 (fill f - (Z.of_nat (length ds) + Z.of_nat (length prefix))) else fill f)) in
  let T := if bool_decide (filler f = "0"%char) then prefix ++ fl ++ ds else fl ++ prefix ++ ds in
  (length out + length T <= max)%nat -> put_piece debug max out (piece f prefix ds) ch = Ret (inl (out ++ T), At []).
Proof using.
  intros Hm Hch fl T Hl. unfold put_piece, fill_count. cbn [piece p_spec wstr str prefixbuf in_charbuf]. rewrite Hm.
  replace (if 0 <? fill f then _ else Ret (fill f)) with (Ret (if 0 <? fill f then s32 (fill f - (Z.of_nat (length ds) + Z.of_nat (length prefix))) else fill f))
    by (by destruct (0 <? fill f)).
  cbn [mbind outcome_bind]. fold fl. unfold put_body. cbn [piece p_spec wstr str]. rewrite (bool_decide_eq_false_2 _ Hch).
  unfold T in *. destruct (bool_decide _); rewrite !length_app in Hl.
  all: repeat (rewrite put_all by (rewrite ?length_app; cbn [length]; lia); cbn [bind_put]).
  all: rewrite put_str_all by (rewrite ?length_app; cbn [length]; lia); cbn [mbind outcome_bind bind_put put].
  all: by rewrite ?app_nil_r, <- ?app_assoc.
Qed.

(** The conversion before and after the dispatch. *)
Definition head_spec (n : number) : spec_t :=
  {| fill := (get_digits (wide n) 0).1; filler := if zero n then "0"%char else " "%char; decimal := -1; minus_flag := false; plus_flag := false;
     pound_flag := false; space_flag := false; h_type := false; l_type := match nsize n with NLong => true | _ => false end;
     ll_type := match nsize n with NLongLong => true | _ => false end |}.
Definition tail_spec (n : number) : spec_t := set_filler (set_decimal (head_spec n) 1) (if zero_fill n then "0"%char else " "%char) false.

Lemma to_str_value n z e : (e = match nsize n with NLongLong => 43 | _ => 22 end) ->
  to_str debug e (Z.abs (value n z)) (num_base n) 1 false = Ret (digits n z).
Proof using. intros ->. rewrite to_str_trim by (destruct (nsize n); split; by vm_compute). unfold digits. by destruct (nsize n). Qed.

Lemma dispatch_number n z ap old printed :
  dispatch double float debug (head_spec n) (kind_char n) (num_arg n z :: ap) old printed = Ret (piece (tail_spec n) (sign n z) (digits n z), ap).
Proof using.
  pose proof (abs_range n z) as Ha. pose proof (value_range n z) as [Hr Hu].
  assert (Ht : to_str debug (match nsize n with NLongLong => 43 | _ => 22 end) (Z.abs (value n z)) (num_base n) 1 false = Ret (digits n z)) by by apply to_str_value.
  assert (Hv : forall v, v = value n z -> u64 (if v <? 0 then - v else v) = Z.abs (value n z)).
  { intros v ->. rewrite <- (u64_small (Z.abs (value n z))) by done. f_equal. destruct (Z.ltb_spec (value n z) 0); lia. }
  assert (Hs : kind n <> KDec -> sign n z = [] /\ value n z = Z.abs (value n z)).
  { intros Hk. specialize (Hu Hk). unfold sign. rewrite (proj2 (Z.ltb_ge _ _)) by done. split; [done|lia]. }
  generalize dependent (digits n z). intros D Ht.
  unfold head_spec, tail_spec, zero_fill, kind_char, num_arg, num_base, sign, value, dispatch, signed_conversion, unsigned_conversion, uint64_to_str, ulong_to_str in *.
  destruct n as [zr w sz kd]; cbn [zero wide nsize kind] in *; destruct kd.
  - destruct sz; cbn -[to_str s32 s64_of u64 Z.ltb get_digits]; rewrite (Hv _ eq_refl), Ht; by destruct zr.
  - destruct (Hs ltac:(done)) as [-> Hv']. destruct sz; rewrite <- Hv' in Ht; lazy -[to_str u32 u64 get_digits] in Ht |- *; rewrite Ht; by destruct zr.
  - destruct (Hs ltac:(done)) as [-> Hv']. destruct sz; rewrite <- Hv' in Ht; lazy -[to_str u32 u64 get_digits] in Ht |- *; rewrite Ht; by destruct zr.
Qed.

Lemma conversion_number max out n z c ap old : wide_ok (wide n) -> (length out + length (number_text n z) <= max)%nat ->
  conversion max out (print_text n ++ c) (num_arg n z :: ap) old = Ret (inl (out ++ number_text n z), c, ap, At [], []).
Proof using.
  intros [Hw Hz] Hl. unfold IoPrint.conversion, print_text. rewrite <- !app_assoc.
  assert (Hhead : match wide n ++ size_text n ++ [kind_char n] ++ c with x :: _ => is_flag x = false /\ x <> "*"%char | [] => True end).
  { destruct (wide n) as [|x w].
    - unfold size_text, kind_char. by destruct (nsize n), (kind n).
    - apply Forall_cons in Hw as [Hx _]. by apply decval_facts. }
  rewrite flags_number by (destruct (wide n ++ _); [done|by destruct Hhead]).
  rewrite width_number; [|done|destruct (wide n ++ _); [done|by destruct Hhead]|unfold size_text, kind_char; by destruct (nsize n), (kind n)].
  cbn [mbind outcome_bind].
  assert (Hsize : forall f, precision double f (size_text n ++ [kind_char n] ++ c) (num_arg n z :: ap) = Ret (f, size_text n ++ [kind_char n] ++ c, num_arg n z :: ap)).
  { intros f. unfold size_text, kind_char. by destruct (nsize n), (kind n). }
  rewrite Hsize. cbn [mbind outcome_bind]. clear Hsize.
  assert (Hsize : size_modifier debug (set_width (set_filler new_spec (if zero n then "0"%char else " "%char) false) false (get_digits (wide n) 0).1)
                    (size_text n ++ [kind_char n] ++ c) = Ret (head_spec n, kind_char n :: c)).
  { unfold size_text, kind_char, head_spec. by destruct (nsize n), (kind n). }
  cbn [minus_flag set_filler new_spec]. rewrite Hsize. cbn [mbind outcome_bind]. rewrite dispatch_number. cbn [mbind outcome_bind].
  assert (Hp : put_piece debug max out (piece (tail_spec n) (sign n z) (digits n z)) (kind_char n) = Ret (inl (out ++ number_text n z), At [])).
  { rewrite put_piece_fits; [|done|unfold kind_char; by destruct (kind n)|]; unfold number_text, fills in *; cbn [tail_spec set_filler filler fill set_decimal head_spec];
      by destruct (zero_fill n). }
  rewrite Hp. done.
Qed.

(** ** Printing a format *)

Lemma print_loop_fuel f1 f2 max out c ap old st : (length c < f1)%nat -> (length c < f2)%nat ->
  print_loop f1 max out c ap old st = print_loop f2 max out c ap old st.
Proof using.
  revert f2 max out c ap old st. induction f1 as [|f1 IH]; intros [|f2] max out c ap old st H1 H2; [lia..|]. cbn [IoPrint.print_loop].
  destruct c as [|x c]; [done|]. cbn [length] in *. case_decide.
  - destruct (conversion max out c ap old) as [[[[[r c1] ap1] s] vs]| |] eqn:E; try done. cbn [mbind outcome_bind].
    apply conversion_length in E. destruct r; [|done]. apply IH; lia.
  - pose proof (literal_length c) as Hl. cbn [literal]. rewrite decide_False by done. destruct (literal c) as [l c1]. cbn [snd] in Hl.
    destruct (put _ _ _); [|done]. apply IH; lia.
Qed.

Definition prints max out c ap old st : outcome printed_t := print_loop (S (length c)) max out c ap old st.

(** The format [f] takes the arguments [a] and writes [T]. *)
Definition emits (f : text) (a : list varg) (T : text) : Prop :=
  forall max out c ap old st, (length out + length T <= max)%nat ->
    exists old', prints max out (f ++ c) (a ++ ap) old st = prints max (out ++ T) c ap old' st.

Lemma emits_nil : emits [] [] [].
Proof using. intros max out c ap old st _. exists old. by rewrite app_nil_r. Qed.

Lemma emits_app f1 a1 T1 f2 a2 T2 : emits f1 a1 T1 -> emits f2 a2 T2 -> emits (f1 ++ f2) (a1 ++ a2) (T1 ++ T2).
Proof using.
  intros H1 H2 max out c ap old st Hl. rewrite length_app in Hl. rewrite <- !app_assoc.
  destruct (H1 max out (f2 ++ c) (a2 ++ ap) old st) as [old1 ->]; [lia|].
  destruct (H2 max (out ++ T1) c ap old1 st) as [old2 ->]; [rewrite length_app; lia|]. exists old2. by rewrite <- app_assoc.
Qed.

Lemma put_app max out t1 t2 : put max out (t1 ++ t2) = bind_put (put max out t1) (fun out => put max out t2).
Proof using. revert out. induction t1 as [|c t1 IH]; intros out; cbn [app put bind_put]; [done|]. by case_match. Qed.

Lemma print_loop_lit fuel max out x c ap old st : x <> "%"%char ->
  print_loop (S fuel) max out (x :: c) ap old st =
  match put max out (x :: (literal c).1) with
  | inl out => print_loop fuel max out (literal c).2 ap old st
  | inr out => Ret {| ret := -1; written := out; terminated := false; stores := st |}
  end.
Proof using. intros Hx. cbn [IoPrint.print_loop literal]. rewrite !decide_False by done. by destruct (literal c). Qed.

Lemma emits_lit x : x <> "%"%char -> emits [x] [] [x].
Proof using.
  intros Hx max out c ap old st Hl. exists old. unfold prints. cbn [app length] in *. rewrite print_loop_lit by done.
  assert (Hone : put max out [x] = inl (out ++ [x])) by (apply put_all; cbn; lia).
  change (x :: (literal c).1) with ([x] ++ (literal c).1). rewrite put_app, Hone. cbn [bind_put].
  destruct c as [|y c]; [done|]. destruct (decide (y = "%"%char)) as [->|Hy]; [done|].
  rewrite print_loop_lit by done. cbn [literal]. rewrite decide_False by done. pose proof (literal_length c) as Hc.
  destruct (literal c) as [l c1]. cbn [fst snd length] in *. destruct (put max (out ++ [x]) (y :: l)); [|done]. apply print_loop_fuel; lia.
Qed.

Lemma print_loop_conversion fuel max out c ap old st T c1 ap1 s vs : conversion max out c ap old = Ret (inl T, c1, ap1, s, vs) ->
  print_loop (S fuel) max out ("%"%char :: c) ap old st = print_loop fuel max T c1 ap1 s (st ++ vs).
Proof using. intros E. change (print_loop (S fuel) max out ("%"%char :: c) ap old st) with
  ('(r, c, ap, old, vs) ← conversion max out c ap old;
    match r with
    | inl out => print_loop fuel max out c ap old (st ++ vs)
    | inr out => Ret {| ret := -1; written := out; terminated := false; stores := st ++ vs |}
    end). by rewrite E.
Qed.

(** A conversion that writes [T] and takes one argument. *)
Lemma emits_conversion f a T :
  (forall max out c ap old, (length out + length T <= max)%nat -> exists s, conversion max out (f ++ c) (a :: ap) old = Ret (inl (out ++ T), c, ap, s, [])) ->
  emits ("%"%char :: f) [a] T.
Proof using.
  intros H max out c ap old st Hl. destruct (H max out c ap old Hl) as [s E]. exists s. unfold prints. cbn [app length].
  rewrite (print_loop_conversion _ _ _ _ _ _ _ _ _ _ _ _ E), app_nil_r. apply print_loop_fuel; rewrite ?length_app; lia.
Qed.

Lemma emits_number n z : wide_ok (wide n) -> emits ("%"%char :: print_text n) [num_arg n z] (number_text n z).
Proof using. intros Hw. apply emits_conversion. intros max out c ap old Hl. exists (At []). by apply conversion_number. Qed.

(** A whole format. *)
Definition item_print (i : item) : text := match i with Lit c => [c] | Num n => "%"%char :: print_text n end.
Definition print_fmt (f : list item) : text := concat (map item_print f).
Definition item_ok (i : item) : Prop := match i with Lit c => c <> "%"%char /\ c <> NUL | Num n => wide_ok (wide n) end.

(** The arguments, and the text, for the bits [zs] of the numbers. *)
Fixpoint item_args (f : list item) (zs : list Z) : list varg :=
  match f with
  | [] => []
  | Lit _ :: f => item_args f zs
  | Num n :: f => match zs with z :: zs => num_arg n z :: item_args f zs | [] => [] end
  end.
Fixpoint items_text (f : list item) (zs : list Z) : text :=
  match f with
  | [] => []
  | Lit c :: f => c :: items_text f zs
  | Num n :: f => match zs with z :: zs => number_text n z ++ items_text f zs | [] => [] end
  end.
Fixpoint numbers (f : list item) : list number := match f with [] => [] | Lit _ :: f => numbers f | Num n :: f => n :: numbers f end.

Lemma emits_items f zs : Forall item_ok f -> length zs = length (numbers f) -> emits (print_fmt f) (item_args f zs) (items_text f zs).
Proof using.
  intros Hf. revert zs. induction Hf as [|[c|n] f Hi Hf IH]; intros zs Hz; [exact emits_nil| |].
  - exact (emits_app [c] [] [c] _ _ _ (emits_lit c (proj1 Hi)) (IH zs Hz)).
  - destruct zs as [|z zs]; [done|]. exact (emits_app _ [num_arg n z] _ _ _ _ (emits_number n z Hi) (IH zs (eq_add_S _ _ Hz))).
Qed.

(** What [emits] says of a whole run. *)
Lemma emits_run f a T max : emits f a T -> (length T <= max)%nat -> (0 < max)%nat ->
  our_vsnprintf double float debug max f a = Ret {| ret := Z.of_nat (length T); written := T; terminated := (length T <? max)%nat; stores := [] |}.
Proof using.
  intros H Hl Hm. unfold our_vsnprintf. destruct max as [|max]; [lia|]. destruct (H (S max) [] [] [] Null []) as [old' E]; [exact Hl|].
  rewrite !app_nil_r in E. exact E.
Qed.
End Print.
