(* ===== verification/IoSpec.v ===== *)
(** * Printing and scanning

    What [our_vsscanf] makes of the text of a format of numbers; the properties
    of the two routines. *)
From S2P Require Export IoItems.

(** ** The scan of a format *)

Definition scan_text (n : number) : text := size_text n ++ [kind_char n].
Definition item_scan (i : item) : text := match i with Lit c => [c] | Num n => "%"%char :: scan_text n end.
Definition scan_fmt (f : list item) : text := concat (map item_scan f).

(** What is stored for the bits [z]. *)
Definition stored_number (n : number) (z : Z) : stored_t :=
  match nsize n with NInt => SInt (u32 z) | NLong => SLong (u64 z) | NLongLong => SLongLong (u64 z) end.

(** No letter or digit is behind a number. *)
Fixpoint delimited (f : list item) (r : text) : Prop :=
  match f with
  | [] => True
  | Lit _ :: f => delimited f r
  | Num _ :: f => match f with Lit c :: _ => digit_of c = None | [] => not_digit r | _ => False end /\ delimited f r
  end.

(** ** Blanks *)

Lemma skip_while_idem p sp : skip_while p (skip_while p sp) = skip_while p sp.
Proof. induction sp as [|c sp IH]; [done|]. cbn. destruct (p c) eqn:E; [done|]. cbn. by rewrite E. Qed.
Lemma skip_while_nil p sp : skip_while p sp = [] -> Forall (fun c => p c = true) sp.
Proof. induction sp as [|c sp IH]; [by constructor|]. cbn. destruct (p c) eqn:E; [|done]. intros H. constructor; [done|by apply IH]. Qed.
Lemma skip_while_stop p c sp : p c = false -> skip_while p (c :: sp) = c :: sp.
Proof. intros H. cbn. by rewrite H. Qed.
Lemma skip_while_repeat p c n sp : p c = true -> skip_while p (repeat c n ++ sp) = skip_while p sp.
Proof. intros H. induction n as [|n IH]; [done|]. cbn. by rewrite H. Qed.

(** ** A number in front *)

Lemma u32_s32 z : u32 (s32 z) = u32 z.
Proof. unfold u32, s32. rewrite Zminus_mod_idemp_l. f_equal. lia. Qed.
Lemma u64_s64 z : u64 (s64_of z) = u64 z.
Proof. unfold u64, s64_of. rewrite Zminus_mod_idemp_l. f_equal. lia. Qed.
Lemma u32_u64 z : u32 (u64 z) = u32 z.
Proof. unfold u32, u64. apply Z.mod_mod_divide. by exists 4294967296. Qed.
Lemma u32_u32 z : u32 (u32 z) = u32 z.
Proof. unfold u32. by rewrite Zmod_mod. Qed.
Lemma u64_u64 z : u64 (u64 z) = u64 z.
Proof. unfold u64. by rewrite Zmod_mod. Qed.

Lemma stored_value n z res : u64 res = u64 (value n z) ->
  store_int (match nsize n with NInt => SZ_INT | NLong => SZ_LONG | NLongLong => SZ_LONGLONG end) res = stored_number n z.
Proof.
  intros E. unfold stored_number, store_int, value in *. destruct (nsize n); f_equal.
  - rewrite <- u32_u64, E, u32_u64. destruct (kind n); [apply u32_s32|apply u32_u32..].
  - rewrite E. destruct (kind n); [apply u64_s64|apply u64_u64..].
  - rewrite E. destruct (kind n); [apply u64_s64|apply u64_u64..].
Qed.

(** Blanks, then a sign, then digits. *)
Lemma number_shape n z : exists b ds, number_text n z = repeat " "%char b ++ sign n z ++ ds /\ digits_of (num_base n) (Z.abs (value n z)) ds.
Proof.
  pose proof (digits_of_value n z) as Hd. unfold number_text, fills. destruct (zero_fill n).
  - set (k := Z.to_nat _). exists 0%nat, (repeat "0"%char k ++ digits n z). split; [done|]. apply digits_of_zeros; [unfold num_base; destruct (kind n); lia|done].
  - set (k := Z.to_nat _). by exists k, (digits n z).
Qed.

Definition scan_of (n : number) : scan_spec :=
  {| spec := SPEC_INT; int_size := match nsize n with NInt => SZ_INT | NLong => SZ_LONG | NLongLong => SZ_LONGLONG end;
     base := num_base n; is_signed := match kind n with KDec => true | _ => false end; is_ignored := false; width := 0 |}.

Lemma get_spec_number debug n fp : get_spec debug (scan_text n ++ fp) new_scan_spec = Ret (Some (scan_of n, fp)).
Proof. unfold scan_text, size_text, kind_char, scan_of, num_base. by destruct (nsize n), (kind n). Qed.

Lemma convert_number n z r sp : not_digit r -> skip_while our_isspace sp = skip_while our_isspace (number_text n z ++ r) ->
  convert (scan_of n) sp = Some ([stored_number n z], r).
Proof.
  intros Hr Hs. destruct (number_shape n z) as (b & ds & E & Hd). unfold convert. cbn [scan_of spec base width is_signed is_ignored int_size].
  rewrite Hs, E, <- !app_assoc, skip_while_repeat by done.
  assert (Hsk : skip_while our_isspace (sign n z ++ ds ++ r) = sign n z ++ ds ++ r).
  { unfold sign. destruct (value n z <? 0); [done|]. destruct Hd as (Hne & Hall & _). destruct ds as [|c ds]; [done|].
    apply Forall_cons in Hall as [(d & Ed & _) _]. cbn [app]. apply skip_while_stop. by apply (digit_facts c d Ed). }
  rewrite Hsk. unfold sign. pose proof (value_range n z) as [Hv Hu].
  rewrite (parse_digits (num_base n) (Z.abs (value n z)) ds r); [|unfold num_base; destruct (kind n); auto|done|done|].
  - f_equal. f_equal. f_equal. apply stored_value. destruct (Z.ltb_spec (value n z) 0) as [Hn|Hn]; [rewrite u64_u64|]; f_equal; lia.
  - intros Hn. apply Z.ltb_lt in Hn. destruct (kind n); [done|exfalso; by apply (Zlt_not_le _ _ Hn), Hu..].
Qed.

(** ** The scan of the text *)

Lemma items_blank f zs r : length zs = length (numbers f) -> skip_while our_isspace (items_text f zs ++ r) = [] -> numbers f = [].
Proof.
  intros Hz H. apply skip_while_nil in H. revert zs Hz H. induction f as [|[c|n] f IH]; intros zs Hz H; [done| |].
  - apply Forall_cons in H as [_ H]. by eapply IH.
  - destruct zs as [|z zs]; [done|]. exfalso. cbn [items_text] in H. destruct (number_shape n z) as (b & ds & E & Hne & Hall & _).
    rewrite E in H. destruct ds as [|c ds]; [done|]. apply Forall_cons in Hall as [(d & Ed & _) _].
    rewrite !Forall_app in H. destruct H as [[[_ [_ H]] _] _]. apply Forall_cons in H as [H _]. destruct (digit_facts c d Ed) as (_ & _ & Hsp & _). congruence.
Qed.

Lemma scan_items debug f zs r fuel sp k st : Forall item_ok f -> length zs = length (numbers f) -> delimited f r ->
  (sp = items_text f zs ++ r \/ sp = skip_while our_isspace (items_text f zs ++ r)) -> (length (scan_fmt f) < fuel)%nat ->
  scan_loop debug fuel (scan_fmt f) sp k st = Ret (k + Z.of_nat (length zs), st ++ zip_with stored_number (numbers f) zs).
Proof.
  intros Hf. revert zs fuel sp k st. induction Hf as [|i f Hi Hf IH]; intros zs fuel sp k st Hz Hd Hsp Hfu.
  { destruct zs; [|done]. destruct fuel as [|fuel]; [cbn in Hfu; lia|]. cbn. by rewrite app_nil_r, Z.add_0_r. }
  assert (Hempty : sp = [] -> numbers (i :: f) = []).
  { intros ->. apply (items_blank (i :: f) zs r Hz). destruct Hsp as [<-|<-]; done. }
  destruct fuel as [|fuel]; [lia|]. destruct i as [c|n].
  - change (scan_fmt (Lit c :: f)) with (c :: scan_fmt f) in *. cbn [length items_text numbers delimited] in *.
    destruct sp as [|x sp'] eqn:Esp.
    { rewrite Hempty in * by done. destruct zs; [|done]. cbn. by rewrite app_nil_r, Z.add_0_r. }
    cbn [scan_loop]. destruct (our_isspace c) eqn:Ec.
    + apply IH; [done..| |lia]. right. destruct Hsp as [->| ->]; [|rewrite skip_while_idem]; cbn [app skip_while]; by rewrite Ec.
    + destruct Hi as [Hi _]. rewrite bool_decide_eq_false_2 by done. cbn [negb].
      assert (E : x :: sp' = c :: items_text f zs ++ r) by (destruct Hsp as [->| ->]; [done|]; by rewrite <- app_comm_cons, skip_while_stop).
      injection E as -> ->. rewrite decide_True by done. apply IH; [done..| |lia]. by left.
  - change (scan_fmt (Num n :: f)) with ("%"%char :: scan_text n ++ scan_fmt f) in *. cbn [length items_text numbers delimited] in *.
    rewrite length_app in Hfu. destruct zs as [|z zs]; [done|]. destruct sp as [|x sp'] eqn:Esp; [by specialize (Hempty eq_refl)|]. rewrite <- Esp in *.
    destruct Hd as [Hd1 Hd2].
    assert (Hnd : not_digit (items_text f zs ++ r)).
    { destruct f as [|[c|n'] f]; [destruct zs; [exact Hd1|done]|exact Hd1|done]. }
    assert (Hc : convert (scan_of n) sp = Some ([stored_number n z], items_text f zs ++ r)).
    { apply convert_number; [done|]. rewrite app_assoc. destruct Hsp as [->| ->]; [done|by rewrite skip_while_idem]. }
    assert (Hstep : scan_loop debug (S fuel) ("%"%char :: scan_text n ++ scan_fmt f) sp k st =
      scan_loop debug fuel (scan_fmt f) (items_text f zs ++ r) (k + 1) (st ++ [stored_number n z])).
    { subst sp. cbn [scan_loop]. change (our_isspace "%") with false. cbn [negb bool_decide]. cbn iota. rewrite get_spec_number. cbn [mbind outcome_bind].
      change (x :: sp') with (x :: sp'). rewrite Hc. done. }
    rewrite Hstep, (IH zs); [|by injection Hz|done|by left|lia]. cbn [zip_with length]. rewrite <- app_assoc. f_equal. f_equal. lia.
Qed.

Lemma cstr_app a b : no_char NUL a -> cstr (a ++ b) = a ++ cstr b.
Proof. induction 1 as [|c t Hc Ht IH]; [done|]. cbn. rewrite decide_False by done. by rewrite IH. Qed.

Lemma number_no_nul n z : no_char NUL (number_text n z).
Proof.
  destruct (number_shape n z) as (b & ds & -> & _ & Hall & _). unfold no_char. rewrite !Forall_app. split_and!.
  - apply Forall_forall. intros c Hc. apply list_elem_of_In, repeat_spec in Hc as ->. done.
  - unfold sign. destruct (_ <? _); by repeat constructor.
  - eapply Forall_impl; [exact Hall|]. intros c (d & Ed & _). by apply (digit_facts c d Ed).
Qed.

Lemma items_no_nul f zs : Forall item_ok f -> no_char NUL (items_text f zs).
Proof.
  intros Hf. revert zs. induction Hf as [|[c|n] f Hi Hf IH]; intros zs; [constructor| |]; cbn [items_text].
  - constructor; [apply Hi|apply IH].
  - destruct zs as [|z zs]; [constructor|]. apply Forall_app. split; [apply number_no_nul|apply IH].
Qed.

(** [our_vsscanf] on a text that is followed by [r]. *)
Lemma scan_items_text debug f zs r : Forall item_ok f -> length zs = length (numbers f) -> delimited f (cstr r) ->
  our_vsscanf debug (items_text f zs ++ r) (scan_fmt f) = Ret (Z.of_nat (length zs), zip_with stored_number (numbers f) zs).
Proof.
  intros Hf Hz Hd. unfold our_vsscanf. rewrite cstr_app by by apply items_no_nul. rewrite (scan_items debug f zs (cstr r)); [done|done..|by left|lia].
Qed.

(** ** The bounds of the buffer *)

Definition fits (max : nat) (r : text + text) : Prop := match r with inl out => (length out <= max)%nat | inr out => length out = max end.

Lemma put_fits max out t : (length out <= max)%nat -> fits max (put max out t).
Proof. intros H. destruct (put_truncated max out t H) as [[-> Hl]|[-> Hl]]; cbn; [done|]. rewrite length_take. lia. Qed.

Lemma bind_fits max r k : fits max r -> (forall out, (length out <= max)%nat -> fits max (k out)) -> fits max (bind_put r k).
Proof. destruct r as [out|out]; cbn; auto. Qed.

Lemma put_str_fits max out t limited d : (length out <= max)%nat ->
  match put_str max out t limited d with inl (out, _) => (length out <= max)%nat | inr out => length out = max end.
Proof.
  revert out d. induction t as [|c t IH]; intros out d H; cbn [put_str]; [done|].
  destruct (Nat.leb_spec max (length out)); [lia|]. destruct (limited && (d =? 0)); [exact H|]. apply IH. rewrite length_app. cbn. lia.
Qed.

Section Bounds.
Context (double : Type) (float : double -> ascii -> Z -> bool -> bool -> bool -> text * text) (debug : bool).

Lemma put_wide_fits max out w limited d r : (length out <= max)%nat -> put_wide debug max out w limited d = Ret r -> fits max r.
Proof using.
  revert out d. induction w as [|c w IH]; intros out d H; cbn [put_wide]; [by intros [= <-]|].
  destruct (Nat.leb_spec max (length out)); [intros [= <-]; cbn; lia|]. case_match; [by intros [= <-]|]. case_match; [done|].
  apply IH. rewrite length_app. cbn. lia.
Qed.

Lemma put_body_fits max out p ch r s : (length out <= max)%nat -> put_body debug max out p ch = Ret (r, s) -> fits max r.
Proof using.
  intros H. unfold put_body. destruct (wstr p) as [w|].
  - destruct (put_wide debug max out w _ _) as [r'| |] eqn:E; try done. cbn [mbind outcome_bind]. intros [= -> _]. by apply put_wide_fits in E.
  - destruct (str p) as [|t|]; [set (t := null_text)| |done].
    all: pose proof (put_str_fits max out t (bool_decide (ch = "s"%char)) (decimal (p_spec p)) H) as Hf.
    all: destruct (put_str _ _ _ _ _) as [[o rest]|o]; by intros [= <- _].
Qed.

Lemma conversion_fits max out c ap old r c1 ap1 s vs : (length out <= max)%nat ->
  conversion double float debug max out c ap old = Ret (r, c1, ap1, s, vs) -> fits max r.
Proof using.
  intros H. unfold IoPrint.conversion, put_piece. destruct (flags c) as [f c0].
  destruct (IoPrint.width _ _ _ _) as [[[f1 c2] ap2]| |]; try done. cbn [mbind outcome_bind].
  destruct (precision _ _ _ _) as [[[f2 c3] ap3]| |]; try done. cbn [mbind outcome_bind].
  destruct (size_modifier _ _ _) as [[f3 c4]| |]; try done. cbn [mbind outcome_bind].
  destruct c4 as [|ch c5]; [done|]. destruct (dispatch _ _ _ _ _ _ _ _) as [[p ap4]| |]; try done. cbn [mbind outcome_bind].
  destruct (fill_count p) as [n| |]; try done. cbn [mbind outcome_bind]. cbv zeta.
  destruct (bind_put (put max out _) _) as [o|o] eqn:E.
  all: assert (Ho : fits max (bind_put (put max out (if bool_decide (filler (p_spec p) = "0"%char) then prefixbuf p else [])) (fun out =>
        bind_put (put max out (if minus_flag (p_spec p) then [] else repeat (filler (p_spec p)) (Z.to_nat n))) (fun out =>
        put max out (if bool_decide (filler (p_spec p) = "0"%char) then [] else prefixbuf p))))) by (repeat (apply bind_fits; [by apply put_fits|intros ? ?]); by apply put_fits).
  all: rewrite E in Ho; cbn [fits] in Ho. 2: by intros [= <- _ _ _ _].
  destruct (put_body debug max o p ch) as [[r' s']| |] eqn:E'; try done. cbn [mbind outcome_bind]. intros [= <- _ _ _ _].
  apply bind_fits; [by eapply put_body_fits|]. intros o' Ho'. by apply put_fits.
Qed.

(** What a run leaves in the buffer. *)
Record in_bounds (max : nat) (r : printed_t) : Prop := {
  ib_written : (length (written r) <= max)%nat;
  ib_nul : terminated r = true -> (length (written r) < max)%nat;
  ib_ret : (ret r = Z.of_nat (length (written r)) /\ terminated r = (length (written r) <? max)%nat) \/
           (ret r = -1 /\ length (written r) = max /\ terminated r = false)
}.

Lemma loop_in_bounds fuel max out c ap old st r : (length out <= max)%nat -> print_loop double float debug fuel max out c ap old st = Ret r -> in_bounds max r.
Proof using.
  assert (Hfull : forall out st, length out = max -> in_bounds max {| ret := -1; written := out; terminated := false; stores := st |}).
  { intros o st' <-. constructor; cbn; [lia|done|by right]. }
  revert out c ap old st. induction fuel as [|fuel IH]; intros out c ap old st Hl; [done|]. cbn [IoPrint.print_loop].
  destruct c as [|x c].
  { intros [= <-]. constructor; cbn; [done|intros H; by apply Nat.ltb_lt|by left]. }
  case_decide.
  - destruct (conversion _ _ _ max out c ap old) as [[[[[r1 c1] ap1] s] vs]| |] eqn:E; try done. cbn [mbind outcome_bind].
    apply conversion_fits in E; [|done]. destruct r1 as [o|o]; cbn [fits] in E; [by apply IH|]. intros [= <-]. by apply Hfull.
  - destruct (literal (x :: c)) as [l c1]. pose proof (put_fits max out l Hl) as Hf. destruct (put max out l) as [o|o]; cbn [fits] in Hf; [by apply IH|].
    intros [= <-]. by apply Hfull.
Qed.
End Bounds.

(** ** Scans end *)

Lemma to_bracket_suffix l l' : to_bracket l = Some l' -> l' `suffix_of` l.
Proof.
  revert l'. induction l as [|x l IH]; intros l'; cbn [to_bracket]; [done|]. case_decide; [by intros [= <-]|]. intros E. by apply suffix_cons_r, IH.
Qed.

Lemma charset_end_suffix fp fp' : charset_end fp = Some fp' -> fp' `suffix_of` fp.
Proof.
  assert (Hc : forall l : text, match l with "^"%char :: t => t | t => t end `suffix_of` l).
  { intros [|c l]; [done|]. destruct c as [[] [] [] [] [] [] [] []]; (done || by apply suffix_cons_r). }
  assert (Hs : forall l : text, match l with "]"%char :: t => t | t => t end `suffix_of` l).
  { intros [|c l]; [done|]. destruct c as [[] [] [] [] [] [] [] []]; (done || by apply suffix_cons_r). }
  unfold charset_end. intros E. apply to_bracket_suffix in E. etrans; [exact E|]. etrans; [apply Hs|apply Hc].
Qed.

(** A release build takes a specifier, or ends the scan. *)
Definition specified (fp : text) (r : outcome (option (scan_spec * text))) : Prop :=
  match r with Ret (Some (_, fp')) => fp' `suffix_of` fp | Ret None => True | _ => False end.

Lemma specified_cons c fp r : specified fp r -> specified (c :: fp) r.
Proof. destruct r as [[[m fp']|]| |]; try done. cbn. apply suffix_cons_r. Qed.

Lemma get_spec_specified fp m : specified fp (get_spec false fp m).
Proof.
  revert m. induction fp as [|c fp IH]; intros m; [done|]. apply specified_cons.
  assert (H1 : forall b, specified fp (_ ← client_assert false b; get_spec false fp (with_size m SZ_SHORT)) /\
                         specified fp (_ ← client_assert false b; get_spec false fp (with_size m SZ_LONG))).
  { intros b. unfold client_assert. rewrite orb_true_r. split; apply IH. }
  assert (HI : specified fp match fp with
          | "3"%char :: "2"%char :: _ => get_spec false fp (with_size m SZ_INT)
          | "6"%char :: "4"%char :: _ => get_spec false fp (with_size m SZ_LONGLONG)
          | _ => unsupported false
          end).
  { destruct fp as [|x [|y l]]; [done|by destruct x as [[] [] [] [] [] [] [] []]|].
    destruct x as [[] [] [] [] [] [] [] []]; try exact I; destruct y as [[] [] [] [] [] [] [] []]; try exact I; apply IH. }
  assert (Hset : specified fp match charset_end fp with
          | Some fp' => Ret (Some (with_spec m (SPEC_CHARSET fp) (base m) (is_signed m), fp'))
          | None => unsupported false
          end).
  { destruct (charset_end fp) as [fp'|] eqn:E; [|done]. by apply charset_end_suffix. }
  cbn [get_spec]. destruct c as [[] [] [] [] [] [] [] []]; cbn beta iota; first
    [exact HI | exact Hset | (destruct (decval _); [apply IH|exact I]) | exact (proj1 (H1 _)) | exact (proj2 (H1 _)) | apply IH | (exact (reflexivity fp : fp `suffix_of` fp)) |
     (destruct (int_size m); (apply IH || exact I)) | exact I].
Qed.

Definition percents (fp : text) : nat := length (filter (fun c => c = "%"%char) fp).

Lemma percents_suffix fp fp' : fp' `suffix_of` fp -> (percents fp' <= percents fp)%nat.
Proof. intros [l ->]. unfold percents. rewrite filter_app, length_app. lia. Qed.

Lemma percents_cons fp : percents ("%"%char :: fp) = S (percents fp).
Proof. unfold percents. by rewrite filter_cons_True. Qed.

Lemma convert_one m sp vs sp' : convert m sp = Some (vs, sp') -> length vs = if is_ignored m then 0%nat else 1%nat.
Proof.
  unfold convert. destruct (spec m) as [| | |cs].
  - destruct (parse_int _ _ _ _) as [[res r]|]; [|done]. intros [= <- _]. by destruct (is_ignored m).
  - destruct sp; [done|]. intros [= <- _]. by destruct (is_ignored m).
  - destruct (take_while _ _ _ _) as [t r]. intros [= <- _]. by destruct (is_ignored m).
  - destruct (take_while _ _ _ _) as [t r]. intros [= <- _]. by destruct (is_ignored m).
Qed.

Lemma scan_loop_counts fuel fp sp k st : (length fp < fuel)%nat -> k = Z.of_nat (length st) ->
  exists st', scan_loop false fuel fp sp k st = Ret (Z.of_nat (length (st ++ st')), st ++ st') /\ (length st' <= percents fp)%nat.
Proof.
  revert fp sp k st. induction fuel as [|fuel IH]; intros fp sp k st Hf Hk; [lia|]. subst k.
  assert (Hend : exists st', Ret (Z.of_nat (length st), st) = Ret (Z.of_nat (length (st ++ st')), st ++ st') /\ (length st' <= percents fp)%nat).
  { exists []. rewrite app_nil_r. split; [done|]. cbn. lia. }
  cbn [scan_loop]. destruct fp as [|c fp]; [done|]. destruct sp as [|x sp]; [done|]. cbn [length] in Hf.
  pose proof (percents_suffix (c :: fp) fp ltac:(by apply suffix_cons_r)) as Hp.
  destruct (our_isspace c).
  { destruct (IH fp (skip_while our_isspace (x :: sp)) _ st ltac:(lia) eq_refl) as (st' & -> & H). exists st'. split; [done|lia]. }
  destruct (decide (c = "%"%char)) as [->|Hc].
  - rewrite bool_decide_eq_true_2 by done. cbn [negb].
    pose proof (get_spec_specified fp new_scan_spec) as Hs. destruct (get_spec false fp new_scan_spec) as [[[m fp']|]| |]; cbn [specified] in Hs; try done. cbn [mbind outcome_bind].
    pose proof (suffix_length _ _ Hs) as Hl. pose proof (percents_suffix _ _ Hs) as Hp'.
    destruct (convert m (x :: sp)) as [[vs sp']|] eqn:E; [|done]. apply convert_one in E.
    destruct (IH fp' sp' (if is_ignored m then Z.of_nat (length st) else Z.of_nat (length st) + 1) (st ++ vs)) as (st' & -> & H); [lia| |].
    { rewrite length_app, E. destruct (is_ignored m); lia. }
    exists (vs ++ st'). rewrite app_assoc. split; [done|]. rewrite length_app, E. rewrite percents_cons. destruct (is_ignored m); lia.
  - rewrite bool_decide_eq_false_2 by done. cbn [negb]. destruct (decide (c = x)); [|done].
    destruct (IH fp sp _ st ltac:(lia) eq_refl) as (st' & -> & H). exists st'. split; [done|lia].
Qed.

(** ** The properties *)


(** A smaller buffer gets the same text cut off: when a format fits a buffer
    of [max] characters, a buffer of [max'] characters gets the first [max'] of
    them, with -1 and no NUL if they do not fit, and the same arguments are
    taken. *)
Theorem snprintf_truncates double float debug max max' fmt (ap : list (varg double)) r : (0 < max')%nat ->
  our_vsnprintf double float debug max fmt ap = Ret r -> ret r <> -1 ->
  exists r', our_vsnprintf double float debug max' fmt ap = Ret r' /\ shortened max' r r'.
Proof.
  unfold our_vsnprintf. intros Hm. destruct max as [|max]; [by intros [= <-]|]. destruct max' as [|max']; [lia|]. intros E Hr.
  destruct (loop_truncated _ _ _ _ _ (S max') _ _ _ _ _ _ E Hr) as [_ H]; [cbn; lia|exact H].
Qed.

(** C22. Numbers are read back: for a format of plain characters and of [%d],
    [%u] and [%x] with any fill, width and size, the text that [our_vsnprintf]
    writes, with anything behind it, is scanned by [our_vsscanf] with the same
    format without fills and widths into the bits of the arguments, if no letter
    or digit follows a number. *)
Theorem numbers_read_back double float debug debug' max f zs r : Forall item_ok f -> length zs = length (numbers f) -> delimited f (cstr r) ->
  (0 < max)%nat -> (length (items_text f zs) <= max)%nat ->
  exists p, our_vsnprintf double float debug max (print_fmt f) (item_args double f zs) = Ret p /\ ret p = Z.of_nat (length (written p)) /\
    our_vsscanf debug' (written p ++ r) (scan_fmt f) = Ret (Z.of_nat (length zs), zip_with stored_number (numbers f) zs).
Proof.
  intros Hf Hz Hd Hm Hl. eexists. split; [exact (emits_run double float debug _ _ _ _ (emits_items double float debug f zs Hf Hz) Hl Hm)|].
  split; [done|]. by apply scan_items_text.
Qed.

(** In a release build [our_vsscanf] always returns, with the number of
    values it stored, and stores no more of them than the format has [%]. *)
Theorem sscanf_counts string fmt : exists vs, our_vsscanf false string fmt = Ret (Z.of_nat (length vs), vs) /\ (length vs <= percents fmt)%nat.
Proof. destruct (scan_loop_counts (S (length fmt)) fmt (cstr string) 0 [] ltac:(lia) eq_refl) as (vs & E & H). by exists vs. Qed.

(** ** Examples *)

Definition no_float (d : unit) (c : ascii) (p : Z) (a b e : bool) : text * text := ([], []).
Definition show (max : nat) (fmt : string) (ap : list (varg unit)) : option (Z * string) :=
  match our_vsnprintf unit no_float false max (s2l fmt) ap with Ret r => Some (ret r, String.string_of_list_ascii (written r)) | _ => None end.
Definition scan (s fmt : string) : option (Z * list stored_t) := match our_vsscanf false (s2l s) (s2l fmt) with Ret r => Some r | _ => None end.

(** The formats of the module list. *)
Example show_module : show 100 "%3u, %3u, 0x%016lx" [VInt 7; VInt 1234; VLong 0xdeadbeef] = Some (29, "  7, 1234, 0x00000000deadbeef"%string).
Proof. vm_compute. reflexivity. Qed.

(** The fill of zeros of [%05u] is lost, that of [%05d] is not. *)
Example show_unsigned_fill : show 100 "%05u|%05d|%05llu" [VInt 42; VInt 42; VLong 42] = Some (17, "   42|00042|00042"%string).
Proof. vm_compute. reflexivity. Qed.

(** A negative width keeps the zeros, behind the number. *)
Example show_negative_width : show 100 "%0*d" [VInt (-5); VInt 42] = Some (5, "42000"%string).
Proof. vm_compute. reflexivity. Qed.

(** The fill is computed from the whole string, not from what is printed. *)
Example show_string_fill : show 100 "%10.3s|" [VStr (Some (s2l "abcdef"))] = Some (8, "    abc|"%string).
Proof. vm_compute. reflexivity. Qed.

(** The text of [%.3s] fits three characters, but -1 is returned. *)
Example show_exact : show 3 "%.3s" [VStr (Some (s2l "abcdef"))] = Some (-1, "abc"%string) /\ show 3 "%s" [VStr (Some (s2l "abc"))] = Some (3, "abc"%string).
Proof. vm_compute. split; reflexivity. Qed.

(** A width of a NULL string reads through it. *)
Example show_null : show 64 "%s" [VStr None] = Some (6, "<NULL>"%string) /\ show 64 "%9s" [VStr None] = None.
Proof. vm_compute. split; reflexivity. Qed.

(** Behind a set nothing is scanned but a closing bracket. *)
Example scan_set : scan "abc12" "%[a-z]%d" = Some (1, [SStr (s2l "abc")]) /\ scan "abc]12" "%[a-z]%d" = Some (2, [SStr (s2l "abc"); SInt 12]).
Proof. vm_compute. split; reflexivity. Qed.

(** The documented [%%] is not known, and [%s] does not skip blanks. *)
Example scan_percent : scan "1% 5" "%d%% %d" = Some (1, [SInt 1]) /\ scan "1 abc" "%d%s" = Some (2, [SInt 1; SStr []]).
Proof. vm_compute. split; reflexivity. Qed.

(** ** Witnesses *)

Definition three_numbers : list item :=
  [Num {| zero := false; wide := s2l "3"; nsize := NInt; kind := KUnsigned |}; Lit ","; Lit " "; Lit "0"; Lit "x";
   Num {| zero := true; wide := s2l "16"; nsize := NLong; kind := KHex |}; Lit " "; Num {| zero := false; wide := []; nsize := NInt; kind := KDec |}].


Lemma snprintf_truncates_witness : exists r r', our_vsnprintf unit no_float false 20 (s2l "%d and %s") [VInt (-7); VStr (Some (s2l "more"))] = Ret r /\
  our_vsnprintf unit no_float false 5 (s2l "%d and %s") [VInt (-7); VStr (Some (s2l "more"))] = Ret r' /\ shortened 5 r r' /\ written r' = s2l "-7 an".
Proof.
  destruct (snprintf_truncates unit no_float false 20 5 (s2l "%d and %s") [VInt (-7); VStr (Some (s2l "more"))]
    {| ret := 11; written := s2l "-7 and more"; terminated := true; stores := [] |}) as (r' & E & H); [lia|vm_compute; reflexivity|discriminate|].
  exists {| ret := 11; written := s2l "-7 and more"; terminated := true; stores := [] |}, r'. split; [vm_compute; reflexivity|]. split; [exact E|]. split; [exact H|].
  vm_compute in E. injection E as <-. reflexivity.
Defined.

Lemma numbers_read_back_witness : exists p, our_vsnprintf unit no_float false 64 (print_fmt three_numbers) (item_args unit three_numbers [7; 0xdeadbeef; -5]) = Ret p /\
  ret p = Z.of_nat (length (written p)) /\
  our_vsscanf true (written p ++ s2l ", and more") (scan_fmt three_numbers) = Ret (3, [SInt 7; SLong 0xdeadbeef; SInt (u32 (-5))]).
Proof.
  apply (numbers_read_back unit no_float false true 64 three_numbers [7; 0xdeadbeef; -5] (s2l ", and more")).
  - repeat constructor; try discriminate.
  - reflexivity.
  - vm_compute. repeat split.
  - lia.
  - vm_compute. lia.
Defined.
