(* ===== verification/ModTrack.v ===== *)
(** * Module tracking

    [src/Simulator/ext/drcovlib/modules.c], the tracking of loaded modules on
    Linux: the table of segments, the global and the thread caches in front of
    it, the events of module loads and unloads and of threads, and
    [drmodtrack_lookup].

    The vector of pointers to entries is the list of the entries, and a pointer
    to an entry its position, which [id] is; an entry is never freed before
    [drmodtrack_exit].  The data of a module are copied on a load and not changed
    afterwards, so the segments of a module share them by value.  The caches of
    the threads are kept by thread.  Events are atomic: the reads of the caches
    that the code makes without the lock see a state between two events.  A
    failed [ASSERT] of a debug build ([debug]) is [Abort], as is an access outside
    an array or to a thread that is not initialised. *)
From stdpp Require Import gmap.
From S2P Require Export Outcome CText.

Definition NUM_GLOBAL_MODULE_CACHE : nat := 8.
Definition NUM_THREAD_MODULE_CACHE : nat := 4.

(** ** Modules ([core/lib/instrument_api.h]) *)

Record segment_t := { seg_start : Z; seg_end : Z; seg_offset : Z }.
Record module_data_t := {
  md_start : Z;
  md_end : Z;
  entry_point : Z;
  module_name : option text;   (* its names *)
  file_name : option text;
  full_path : option text;
  contiguous : bool;
  segments : list segment_t
}.

Definition dr_module_preferred_name (d : module_data_t) : option text := match module_name d with Some n => Some n | None => file_name d end.

Section Track.
Context {custom_t : Type} (module_load_cb : option (module_data_t -> custom_t)) (debug : bool).

Record module_entry_t := {
  id : nat;
  containing_id : nat;
  unload : bool;
  start : Z;
  end_ : Z;
  data : module_data_t;
  custom : option custom_t;   (* [None]: never set *)
  offset : Z
}.
Definition set_unload (b : bool) (e : module_entry_t) : module_entry_t :=
  {| id := id e; containing_id := containing_id e; unload := b; start := start e; end_ := end_ e; data := data e; custom := custom e; offset := offset e |}.

(** A cache holds pointers to entries, or NULL. *)
Record module_table_t := {
  vector : list module_entry_t;
  cache : list (option nat);
  per_thread : gmap Z (list (option nat))
}.

(** ** Caches *)

Definition global_module_cache_add (cache : list (option nat)) (entry : nat) : list (option nat) :=
  <[(entry mod NUM_GLOBAL_MODULE_CACHE)%nat := Some entry]> cache.

(** The entries before [pos] move back by one. *)
Fixpoint shift_back (cache : list (option nat)) (pos : nat) : list (option nat) :=
  match pos with
  | O => cache
  | S i => match cache !! i with Some e => shift_back (<[pos := e]> cache) i | None => cache end
  end.
Definition thread_module_cache_adjust (cache : list (option nat)) (entry pos : nat) : list (option nat) := <[0%nat := Some entry]> (shift_back cache pos).
Definition thread_module_cache_add (cache : list (option nat)) (entry : nat) : list (option nat) :=
  thread_module_cache_adjust cache entry (NUM_THREAD_MODULE_CACHE - 1).

(** ** Loops over the table *)

(** The loop from the last entry back to the first for which [p] holds. *)
Fixpoint find_back (p : module_entry_t -> bool) (l : list module_entry_t) : option nat :=
  match l with
  | [] => None
  | e :: l => match find_back p l with Some i => Some (S i) | None => if p e then Some 0%nat else None end
  end.

(** The loop over the entries behind a main entry, as long as they are its. *)
Fixpoint set_subs (b : bool) (main : nat) (l : list module_entry_t) : list module_entry_t :=
  match l with
  | e :: l' => if (containing_id e =? main)%nat then set_unload b e :: set_subs b main l' else l
  | [] => []
  end.

(** ** Events *)

Definition same_module (mod_ data : module_data_t) : bool :=
  (md_start mod_ =? md_start data) && (md_end mod_ =? md_end data) && (entry_point mod_ =? entry_point data) &&
  match dr_module_preferred_name data, dr_module_preferred_name mod_ with Some a, Some b => bool_decide (cstr a = cstr b) | _, _ => false end.

(** The entry to use again, and the table then. *)
Definition reload (v : list module_entry_t) (i : nat) : list module_entry_t :=
  match v !! i with
  | Some e =>
      let subs := drop (S i) v in
      take i v ++ set_unload false e :: (if contiguous (data e) then subs else set_subs false (id e) subs)
  | None => v
  end.

(** The entries of the segments but the first, numbered from [n]. *)
Fixpoint sub_entries (main : module_entry_t) (n : nat) (segs : list segment_t) : list module_entry_t :=
  match segs with
  | [] => []
  | s :: segs =>
      {| id := n; containing_id := id main; unload := false; start := seg_start s; end_ := seg_end s; data := data main; custom := custom main; offset := seg_offset s |}
      :: sub_entries main (S n) segs
  end.

Definition event_module_load (s : module_table_t) (d : module_data_t) : outcome module_table_t :=
  let v := vector s in
  match find_back (fun e => unload e && (id e =? containing_id e)%nat && same_module (data e) d) v with
  | Some i => Ret {| vector := reload v i; cache := global_module_cache_add (cache s) i; per_thread := per_thread s |}
  | None =>
      match segments d with
      | [] => Abort
      | s0 :: segs =>
          if debug && negb (md_start d =? seg_start s0) then Abort
          else
            let n := length v in
            let entry := {| id := n; containing_id := n; unload := false; start := md_start d; end_ := seg_end s0; data := d;
                            custom := match module_load_cb with Some f => Some (f d) | None => None end; offset := seg_offset s0 |} in
            let subs := sub_entries entry (S n) segs in
            Ret {| vector := v ++ entry :: subs;
                   cache := global_module_cache_add (foldl (fun c e => global_module_cache_add c (id e)) (cache s) subs) n;
                   per_thread := per_thread s |}
      end
  end.

Definition pc_is_in_module (e : module_entry_t) (pc : Z) : bool := negb (unload e) && ((start e <=? pc) && (pc <? end_ e)).

(** The first entry of a cache that holds [pc]: its place in the cache, and it. *)
Fixpoint cache_find (v : list module_entry_t) (c : list (option nat)) (pc : Z) : outcome (option (nat * nat)) :=
  match c with
  | [] => Ret None
  | None :: c => r ← cache_find v c pc; Ret (match r with Some (i, p) => Some (S i, p) | None => None end)
  | Some p :: c =>
      e ← or_abort (v !! p);
      if pc_is_in_module e pc then Ret (Some (0%nat, p))
      else r ← cache_find v c pc; Ret (match r with Some (i, p) => Some (S i, p) | None => None end)
  end.

(** [*mod_index] and [*mod_base]. *)
Definition lookup_helper_set_fields (e : module_entry_t) : nat * Z := (id e, md_start (data e)).

Definition found (v : list module_entry_t) (p : nat) : outcome (option (nat * Z)) := e ← or_abort (v !! p); Ret (Some (lookup_helper_set_fields e)).

(** [None] is [DRCOVLIB_ERROR_NOT_FOUND]. *)
Definition drmodtrack_lookup (s : module_table_t) (tid pc : Z) : outcome (module_table_t * option (nat * Z)) :=
  let v := vector s in
  c ← or_abort (per_thread s !! tid);
  r ← cache_find v c pc;
  match r with
  | Some (i, p) =>
      let c := if (0 <? i)%nat then thread_module_cache_adjust c p i else c in
      a ← found v p;
      Ret ({| vector := v; cache := cache s; per_thread := <[tid := c]> (per_thread s) |}, a)
  | None =>
      r ← cache_find v (cache s) pc;
      match r with
      | Some (_, p) => a ← found v p; Ret (s, a)
      | None =>
          match find_back (fun e => pc_is_in_module e pc) v with
          | Some p =>
              a ← found v p;
              Ret ({| vector := v; cache := global_module_cache_add (cache s) p; per_thread := <[tid := thread_module_cache_add c p]> (per_thread s) |}, a)
          | None => Ret (s, None)
          end
      end
  end.

Definition event_module_unload (s : module_table_t) (d : module_data_t) : outcome module_table_t :=
  let v := vector s in
  match find_back (fun e => (id e =? containing_id e)%nat && pc_is_in_module e (md_start d)) v with
  | Some i =>
      e ← or_abort (v !! i);
      Ret {| vector := take i v ++ set_unload true e :: set_subs true (id e) (drop (S i) v); cache := cache s; per_thread := per_thread s |}
  | None => if debug then Abort else Ret s
  end.

Definition event_thread_init (s : module_table_t) (tid : Z) : module_table_t :=
  {| vector := vector s; cache := cache s; per_thread := <[tid := replicate NUM_THREAD_MODULE_CACHE None]> (per_thread s) |}.
Definition event_thread_exit (s : module_table_t) (tid : Z) : outcome module_table_t :=
  _ ← or_abort (per_thread s !! tid);
  Ret {| vector := vector s; cache := cache s; per_thread := delete tid (per_thread s) |}.

(** The table that the first [drmodtrack_init] leaves. *)
Definition drmodtrack_init : module_table_t := {| vector := []; cache := replicate NUM_GLOBAL_MODULE_CACHE None; per_thread := ∅ |}.

(** ** Histories *)

Inductive event :=
| ELoad (d : module_data_t)
| EUnload (d : module_data_t)
| ELookup (tid pc : Z)
| EThreadInit (tid : Z)
| EThreadExit (tid : Z).

Definition run_event (s : module_table_t) (e : event) : outcome module_table_t :=
  match e with
  | ELoad d => event_module_load s d
  | EUnload d => event_module_unload s d
  | ELookup tid pc => '(s, _) ← drmodtrack_lookup s tid pc; Ret s
  | EThreadInit tid => Ret (event_thread_init s tid)
  | EThreadExit tid => event_thread_exit s tid
  end.

Fixpoint run_events (s : module_table_t) (h : list event) : outcome module_table_t :=
  match h with
  | [] => Ret s
  | e :: h => s ← run_event s e; run_events s h
  end.
End Track.
Arguments module_entry_t : clear implicits.
Arguments module_table_t : clear implicits.
