(* ===== verification/ModTrackSpec.v ===== *)
(** * Module tracking finds the loaded modules

    The specification keeps the modules that are loaded; the table, whose
    entries outlive their modules, and the caches in front of it refine it. *)
From stdpp Require Import gmap.
From S2P Require Export ModTrack.

(** ** The specification *)

Definition in_segment (s : segment_t) (pc : Z) : Prop := seg_start s <= pc < seg_end s.
Definition in_module (d : module_data_t) (pc : Z) : Prop := exists s, s ∈ segments d /\ in_segment s pc.

(** A module as the loader presents it; one that is contiguous has a single
    segment. *)
Record module_ok (d : module_data_t) : Prop := {
  mo_first : match segments d with s :: _ => seg_start s = md_start d | [] => False end;
  mo_segments : Forall (fun s => seg_start s < seg_end s) (segments d);
  mo_contiguous : contiguous d = true -> length (segments d) = 1%nat
}.

(** Modules that share no address. *)
Definition apart (d d' : module_data_t) : Prop := forall pc, in_module d pc -> in_module d' pc -> False.

Record spec_state := { loaded : list module_data_t; seen : list module_data_t; threads : gset Z }.
Definition spec_init : spec_state := {| loaded := []; seen := []; threads := ∅ |}.

(** A module may be loaded where no other one is; one that looks like a module
    that was there before is that module. *)
Inductive spec_step (a : spec_state) : event -> spec_state -> Prop :=
| step_load d : module_ok d -> (forall d', d' ∈ loaded a -> apart d d') -> (forall d', d' ∈ seen a -> same_module d' d = true -> d' = d) ->
    spec_step a (ELoad d) {| loaded := d :: loaded a; seen := d :: seen a; threads := threads a |}
| step_unload d rest : loaded a ≡ₚ d :: rest ->
    spec_step a (EUnload d) {| loaded := rest; seen := seen a; threads := threads a |}
| step_lookup tid pc : tid ∈ threads a -> spec_step a (ELookup tid pc) a
| step_init tid : spec_step a (EThreadInit tid) {| loaded := loaded a; seen := seen a; threads := {[tid]} ∪ threads a |}
| step_exit tid : tid ∈ threads a -> spec_step a (EThreadExit tid) {| loaded := loaded a; seen := seen a; threads := threads a ∖ {[tid]} |}.

Inductive spec_steps : spec_state -> list event -> spec_state -> Prop :=
| steps_nil a : spec_steps a [] a
| steps_cons a b c e h : spec_step a e b -> spec_steps b h c -> spec_steps a (e :: h) c.

Section Spec.
Context {custom_t : Type} (module_load_cb : option (module_data_t -> custom_t)) (debug : bool).

Abbreviation entry := (module_entry_t custom_t).
Abbreviation table := (module_table_t custom_t).

(** ** The table as a list of modules *)

Record group := { live : bool; g_data : module_data_t; g_custom : option custom_t }.
Definition set_live (b : bool) (g : group) : group := {| live := b; g_data := g_data g; g_custom := g_custom g |}.

(** The entry [m] for a segment of the module at [n]. *)
Definition entry_of (n m : nat) (g : group) (s : segment_t) : entry :=
  {| id := m; containing_id := n; unload := negb (live g); start := seg_start s; end_ := seg_end s; data := g_data g; custom := g_custom g;
     offset := seg_offset s |}.
Fixpoint seg_entries (n m : nat) (g : group) (segs : list segment_t) : list entry :=
  match segs with [] => [] | s :: segs => entry_of n m g s :: seg_entries n (S m) g segs end.
Definition group_entries (n : nat) (g : group) : list entry := seg_entries n n g (segments (g_data g)).
Fixpoint build (n : nat) (gs : list group) : list entry :=
  match gs with [] => [] | g :: gs => group_entries n g ++ build (n + length (segments (g_data g))) gs end.

Lemma length_seg_entries n m g segs : length (seg_entries n m g segs) = length segs.
Proof using. revert m. induction segs as [|s segs IH]; intros m; [done|]. cbn. by rewrite IH. Qed.
Lemma length_group n g : length (group_entries n g) = length (segments (g_data g)).
Proof using. apply length_seg_entries. Qed.

Lemma build_app n gs1 gs2 : build n (gs1 ++ gs2) = build n gs1 ++ build (n + length (build n gs1)) gs2.
Proof using.
  revert n. induction gs1 as [|g gs1 IH]; intros n; cbn [build app]; [by rewrite Nat.add_0_r|].
  rewrite IH, length_app, length_group, app_assoc. do 2 f_equal. lia.
Qed.

Lemma seg_entries_lookup n m g segs p e : seg_entries n m g segs !! p = Some e -> exists s, segs !! p = Some s /\ e = entry_of n (m + p) g s.
Proof using.
  revert m p. induction segs as [|s segs IH]; intros m [|p]; cbn; [done..| |].
  - intros [= <-]. exists s. by rewrite Nat.add_0_r.
  - intros E. apply IH in E as (s' & E & ->). exists s'. split; [done|]. f_equal. lia.
Qed.

(** An entry belongs to a module. *)
Lemma build_entry n gs p e : build n gs !! p = Some e ->
  exists gs1 g gs2 k s, gs = gs1 ++ g :: gs2 /\ segments (g_data g) !! k = Some s /\ p = (length (build n gs1) + k)%nat /\
    e = entry_of (n + length (build n gs1)) (n + p) g s.
Proof using.
  revert n p. induction gs as [|g gs IH]; intros n p; cbn [build]; [done|]. intros E. apply lookup_app_Some in E as [E|[Hp E]].
  - apply seg_entries_lookup in E as (s & E & ->). exists [], g, gs, p, s. cbn. rewrite Nat.add_0_r. done.
  - rewrite length_group in *. apply IH in E as (gs1 & g' & gs2 & k & s & -> & E & Hp' & ->). exists (g :: gs1), g', gs2, k, s.
    cbn [build]. rewrite length_app, length_group. split; [done|]. split; [done|]. split; [lia|]. f_equal; lia.
Qed.

Lemma build_member n gs1 g gs2 k s : segments (g_data g) !! k = Some s ->
  build n (gs1 ++ g :: gs2) !! (length (build n gs1) + k)%nat = Some (entry_of (n + length (build n gs1)) (n + (length (build n gs1) + k)) g s).
Proof using.
  intros E. rewrite build_app, lookup_app_r by lia. replace (length (build n gs1) + k - length (build n gs1))%nat with k by lia. cbn [build].
  rewrite lookup_app_l by (rewrite length_group; by eapply lookup_lt_Some). unfold group_entries.
  assert (H : forall a b segs k, segs !! k = Some s -> seg_entries a b g segs !! k = Some (entry_of a (b + k) g s)).
  { intros a b segs. revert b. induction segs as [|x segs IH]; intros b [|j]; cbn; [done..|intros [= ->]; by rewrite Nat.add_0_r|].
    intros E'. etrans; [exact (IH (S b) j E')|]. do 2 f_equal. lia. }
  rewrite (H _ _ _ _ E). do 2 f_equal. lia.
Qed.

(** ** The loops *)

Lemma find_back_some (p : entry -> bool) l i : find_back p l = Some i -> exists e, l !! i = Some e /\ p e = true.
Proof using.
  revert i. induction l as [|e l IH]; intros i; cbn; [done|]. destruct (find_back p l) as [j|].
  - intros [= <-]. by apply IH.
  - destruct (p e) eqn:E; [|done]. intros [= <-]. by exists e.
Qed.
Lemma find_back_none (p : entry -> bool) l e : find_back p l = None -> e ∈ l -> p e = false.
Proof using.
  induction l as [|x l IH]; intros H He; [by apply elem_of_nil in He|]. cbn in H. destruct (find_back p l); [done|].
  apply elem_of_cons in He as [->|He]; [by destruct (p x)|by apply IH].
Qed.

(** A main entry is the first of its module. *)
Lemma main_entry n gs p e : build n gs !! p = Some e -> id e = containing_id e ->
  exists gs1 g gs2 s segs, gs = gs1 ++ g :: gs2 /\ segments (g_data g) = s :: segs /\ p = length (build n gs1) /\ e = entry_of (n + p) (n + p) g s.
Proof using.
  intros E Hm. apply build_entry in E as (gs1 & g & gs2 & k & s & -> & E & Hp & ->). cbn in Hm.
  assert (k = 0)%nat as -> by lia. destruct (segments (g_data g)) as [|s' segs] eqn:Es; [done|]. injection E as ->.
  exists gs1, g, gs2, s, segs. rewrite Nat.add_0_r in Hp. by rewrite Hp.
Qed.

Lemma set_subs_group b n m g segs rest : (forall e, e ∈ rest -> containing_id e <> n) ->
  set_subs b n (seg_entries n m g segs ++ rest) = seg_entries n m (set_live (negb b) g) segs ++ rest.
Proof using.
  intros Hr. revert m. induction segs as [|s segs IH]; intros m; cbn [seg_entries app].
  - destruct rest as [|e rest]; [done|]. cbn [set_subs]. rewrite (proj2 (Nat.eqb_neq _ _)); [done|]. apply Hr. by left.
  - cbn [set_subs entry_of containing_id]. rewrite Nat.eqb_refl, IH. unfold entry_of, set_unload. cbn. by rewrite negb_involutive.
Qed.

Lemma build_containing n gs e : e ∈ build n gs -> (n <= containing_id e)%nat.
Proof using. intros H. apply list_elem_of_lookup in H as [p H]. apply build_entry in H as (gs1 & g & gs2 & k & s & _ & _ & _ & ->). cbn. lia. Qed.

(** The update of a module, from its main entry on. *)
Lemma update_group b gs1 g gs2 s segs : segments (g_data g) = s :: segs ->
  let n := length (build 0 gs1) in
  take n (build 0 (gs1 ++ g :: gs2)) ++ set_unload b (entry_of n n g s) :: set_subs b n (drop (S n) (build 0 (gs1 ++ g :: gs2)))
  = build 0 (gs1 ++ set_live (negb b) g :: gs2).
Proof using.
  intros Es n. assert (Hp : forall X, take n (build 0 gs1 ++ X) = build 0 gs1) by (intros X; apply take_app_length).
  assert (Hd : forall X, drop (S n) (build 0 gs1 ++ X) = drop 1 X) by (intros X; rewrite <- (Nat.add_1_r n); apply drop_app_add).
  rewrite !build_app, Hp, Hd. fold n. cbn [build Nat.add set_live g_data]. unfold group_entries. cbn [g_data set_live]. rewrite Es.
  cbn [seg_entries app drop length]. rewrite drop_0, set_subs_group.
  - do 2 f_equal. unfold entry_of, set_unload. cbn. by rewrite negb_involutive.
  - intros e He. apply build_containing in He. lia.
Qed.

(** ** Modules that are apart *)

Fixpoint all_apart (l : list module_data_t) : Prop := match l with [] => True | d :: l => Forall (apart d) l /\ all_apart l end.

Lemma apart_sym d d' : apart d d' -> apart d' d.
Proof using. intros H pc H1 H2. exact (H pc H2 H1). Qed.

Lemma all_apart_perm l l' : l ≡ₚ l' -> all_apart l -> all_apart l'.
Proof using.
  induction 1 as [|x l l' Hp IH|x y l|l1 l2 l3 _ IH1 _ IH2]; cbn; [done| | |by auto].
  - intros [H1 H2]. split; [by rewrite <- Hp|by apply IH].
  - rewrite !Forall_cons. intros ((H1 & H2) & H3 & H4). split_and!; try done. by apply apart_sym.
Qed.

(** ** The relation *)

Definition valid (n : nat) (c : list (option nat)) : Prop := Forall (fun o => match o with Some p => (p < n)%nat | None => True end) c.
Abbreviation live_data gs := (g_data <$> filter (fun g => live g = true) gs).

Record related (gs : list group) (s : table) (a : spec_state) : Prop := {
  r_vector : vector s = build 0 gs;
  r_ok : Forall (fun g => module_ok (g_data g)) gs;
  r_loaded : loaded a ≡ₚ live_data gs;
  r_apart : all_apart (loaded a);
  r_seen : Forall (fun g => g_data g ∈ seen a) gs;
  r_custom : Forall (fun g => g_custom g = match module_load_cb with Some f => Some (f (g_data g)) | None => None end) gs;
  r_cache : length (cache s) = NUM_GLOBAL_MODULE_CACHE /\ valid (length (vector s)) (cache s);
  r_threads : forall tid, match per_thread s !! tid with
    | Some c => tid ∈ threads a /\ length c = NUM_THREAD_MODULE_CACHE /\ valid (length (vector s)) c
    | None => tid ∉ threads a
    end
}.

(** What a lookup of [pc] may answer. *)
Definition answers (s : table) (a : spec_state) (pc : Z) (r : option (nat * Z)) : Prop :=
  match r with
  | None => forall d, d ∈ loaded a -> ~ in_module d pc
  | Some (i, b) => exists d sg e, d ∈ loaded a /\ sg ∈ segments d /\ in_segment sg pc /\ b = md_start d /\
      vector s !! i = Some e /\ unload e = false /\ data e = d /\ start e = seg_start sg /\ end_ e = seg_end sg /\ offset e = seg_offset sg
  end.

Lemma valid_le n m c : (n <= m)%nat -> valid n c -> valid m c.
Proof using. intros H Hc. eapply Forall_impl; [exact Hc|]. intros [p|] Hp; [lia|done]. Qed.
Lemma valid_insert n c i p : (p < n)%nat -> valid n c -> valid n (<[i := Some p]> c).
Proof using. intros Hp Hc. by apply Forall_insert. Qed.
Lemma valid_add n c p : (p < n)%nat -> valid n c -> valid n (global_module_cache_add c p).
Proof using. apply valid_insert. Qed.

Lemma shift_back_ok n c i : valid n c -> valid n (shift_back c i) /\ length (shift_back c i) = length c.
Proof using.
  revert c. induction i as [|i IH]; intros c Hc; cbn [shift_back]; [done|]. destruct (c !! i) as [o|] eqn:E; [|done].
  assert (Hi : valid n (<[S i := o]> c)) by (apply Forall_insert; [done|]; exact (Forall_lookup_1 _ _ _ _ Hc E)).
  destruct (IH _ Hi) as [H1 H2]. by rewrite length_insert in H2.
Qed.
Lemma adjust_ok n c p i : (p < n)%nat -> valid n c -> valid n (thread_module_cache_adjust c p i) /\ length (thread_module_cache_adjust c p i) = length c.
Proof using.
  intros Hp Hc. destruct (shift_back_ok n c i Hc) as [H1 H2]. unfold thread_module_cache_adjust. rewrite length_insert. split; [by apply valid_insert|done].
Qed.

Lemma subs_cache_ok n main m segs c : (m + length segs <= n)%nat -> valid n c ->
  valid n (foldl (fun c (e : entry) => global_module_cache_add c (id e)) c (sub_entries main m segs)) /\
  length (foldl (fun c (e : entry) => global_module_cache_add c (id e)) c (sub_entries main m segs)) = length c.
Proof using.
  revert m c. induction segs as [|s segs IH]; intros m c Hm Hc; [done|]. cbn [sub_entries foldl id length] in *.
  destruct (IH (S m) (global_module_cache_add c m)) as [H1 H2]; [lia|apply valid_add; [lia|done]|]. split; [exact H1|]. rewrite H2. apply length_insert.
Qed.

(** ** Lookups *)

Lemma cache_find_ok (v : list entry) c pc : valid (length v) c ->
  exists r, cache_find v c pc = Ret r /\ match r with Some (i, p) => exists e, v !! p = Some e /\ pc_is_in_module e pc = true | None => True end.
Proof using.
  induction 1 as [|[p|] c Hp Hc (r & E & IH)]; cbn [cache_find]; [by exists None| |].
  - destruct (lookup_lt_is_Some_2 v p Hp) as [e He]. rewrite He. cbn [or_abort mbind outcome_bind]. destruct (pc_is_in_module e pc) eqn:Hin.
    + eexists. split; [done|]. by exists e.
    + rewrite E. cbn [mbind outcome_bind]. eexists. split; [done|]. by destruct r as [[i q]|].
  - rewrite E. cbn [mbind outcome_bind]. eexists. split; [done|]. by destruct r as [[i q]|].
Qed.

Lemma found_answers gs s a pc p e : related gs s a -> vector s !! p = Some e -> pc_is_in_module e pc = true ->
  found (vector s) p = Ret (Some (p, md_start (data e))) /\ answers s a pc (Some (p, md_start (data e))).
Proof using.
  intros R E Hin. unfold found. rewrite E. pose proof E as E'. rewrite (r_vector _ _ _ R) in E.
  apply build_entry in E as (gs1 & g & gs2 & k & sg & Eg & Ek & Hp & ->). split; [done|].
  unfold pc_is_in_module in Hin. cbn in Hin. rewrite negb_involutive, !andb_true_iff, Z.leb_le, Z.ltb_lt in Hin. destruct Hin as [Hl Hin].
  exists (g_data g), sg, (entry_of (0 + length (build 0 gs1)) (0 + p) g sg). cbn. split_and!; try done.
  - rewrite (r_loaded _ _ _ R), list_elem_of_fmap. exists g. split; [done|]. apply list_elem_of_filter. split; [done|]. subst gs. apply elem_of_app. right. by left.
  - by eapply list_elem_of_lookup_2.
  - by rewrite Hl.
Qed.

Lemma not_found_answers gs s a pc : related gs s a -> find_back (fun e => pc_is_in_module e pc) (vector s) = None -> answers s a pc None.
Proof using.
  intros R Hn d Hd (sg & Hs & Hin). rewrite (r_loaded _ _ _ R), list_elem_of_fmap in Hd. destruct Hd as (g & -> & Hg).
  apply list_elem_of_filter in Hg as [Hl Hg]. apply list_elem_of_split in Hg as (gs1 & gs2 & ->). apply list_elem_of_lookup in Hs as [k Hk].
  pose proof (build_member 0 gs1 g gs2 k sg Hk) as E. rewrite <- (r_vector _ _ _ R) in E. apply list_elem_of_lookup_2 in E.
  pose proof (find_back_none _ _ _ Hn E) as Hf. unfold pc_is_in_module in Hf. cbn in Hf. rewrite Hl in Hf. cbn in Hf.
  destruct Hin as [H1 H2]. apply Z.leb_le in H1. apply Z.ltb_lt in H2. by rewrite H1, H2 in Hf.
Qed.

Lemma related_threads gs s a c tid v' : related gs s a -> per_thread s !! tid = Some c -> length v' = NUM_THREAD_MODULE_CACHE ->
  valid (length (vector s)) v' -> forall cache', length cache' = NUM_GLOBAL_MODULE_CACHE -> valid (length (vector s)) cache' ->
  related gs {| vector := vector s; cache := cache'; per_thread := <[tid := v']> (per_thread s) |} a.
Proof using.
  intros [] Ec Hl Hv cache' Hcl Hcv. constructor; try done. intros t. cbn [per_thread vector]. destruct (decide (t = tid)) as [->|Ht].
  - rewrite lookup_insert_eq. specialize (r_threads0 tid). rewrite Ec in r_threads0. split; [apply r_threads0|done].
  - rewrite lookup_insert_ne by done. apply r_threads0.
Qed.

Lemma track_lookup_ok gs s a tid pc : related gs s a -> tid ∈ threads a ->
  exists s' r, drmodtrack_lookup s tid pc = Ret (s', r) /\ related gs s' a /\ answers s a pc r.
Proof using.
  intros R Ht. pose proof (r_threads _ _ _ R tid) as Hc. destruct (per_thread s !! tid) as [c|] eqn:Ec; [|done]. destruct Hc as (_ & Hcl & Hcv).
  destruct (r_cache _ _ _ R) as [Hgl Hgv]. unfold drmodtrack_lookup. rewrite Ec. cbn [or_abort mbind outcome_bind].
  destruct (cache_find_ok (vector s) c pc Hcv) as (r1 & -> & H1). cbn [mbind outcome_bind]. destruct r1 as [[i p]|].
  { destruct H1 as (e & He & Hin). destruct (found_answers _ _ _ _ _ _ R He Hin) as [-> Ha]. cbn [mbind outcome_bind].
    eexists _, _. split; [done|]. split; [|exact Ha]. pose proof (lookup_lt_Some _ _ _ He) as Hp.
    destruct (adjust_ok (length (vector s)) c p i Hp Hcv) as [Ha1 Ha2]. eapply related_threads; try done; destruct (0 <? i)%nat; congruence || done. }
  destruct (cache_find_ok (vector s) (cache s) pc Hgv) as (r2 & -> & H2). cbn [mbind outcome_bind]. destruct r2 as [[i p]|].
  { destruct H2 as (e & He & Hin). destruct (found_answers _ _ _ _ _ _ R He Hin) as [-> Ha]. cbn [mbind outcome_bind]. by eexists _, _. }
  destruct (find_back _ (vector s)) as [p|] eqn:E.
  - apply find_back_some in E as (e & He & Hin). destruct (found_answers _ _ _ _ _ _ R He Hin) as [-> Ha]. cbn [mbind outcome_bind].
    eexists _, _. split; [done|]. split; [|exact Ha]. pose proof (lookup_lt_Some _ _ _ He) as Hp.
    destruct (adjust_ok (length (vector s)) c p (NUM_THREAD_MODULE_CACHE - 1) Hp Hcv) as [Ha1 Ha2].
    eapply related_threads; [done|done|exact (eq_trans Ha2 Hcl)|exact Ha1|unfold global_module_cache_add; by rewrite length_insert|by apply valid_add].
  - eexists _, _. split; [done|]. split; [done|]. by eapply not_found_answers.
Qed.

(** ** Loads and unloads *)

Lemma overlapping_same l d d' pc : all_apart l -> d ∈ l -> d' ∈ l -> in_module d pc -> in_module d' pc -> d = d'.
Proof using.
  intros Ha Hd Hd' H1 H2. induction l as [|x l IH]; [by apply elem_of_nil in Hd|]. destruct Ha as [Hx Ha]. rewrite Forall_forall in Hx.
  apply elem_of_cons in Hd as [->|Hd], Hd' as [->|Hd']; [done| | |by apply IH].
  - by destruct (Hx d' Hd' pc).
  - by destruct (Hx d Hd pc).
Qed.

Lemma module_ok_start d : module_ok d -> in_module d (md_start d).
Proof using.
  intros [Hf Hs _]. destruct (segments d) as [|s segs] eqn:E; [done|]. exists s. rewrite E. split; [by left|]. apply Forall_cons in Hs as [Hs _].
  unfold in_segment. lia.
Qed.

Lemma live_data_app gs1 g gs2 : live_data (gs1 ++ g :: gs2) = live_data gs1 ++ (if live g then [g_data g] else []) ++ live_data gs2.
Proof using. rewrite filter_app, filter_cons, fmap_app. by destruct (live g). Qed.

(** The entries of a module change their state, nothing else. *)
Lemma length_set_live gs1 g gs2 b : length (build 0 (gs1 ++ set_live b g :: gs2)) = length (build 0 (gs1 ++ g :: gs2)).
Proof using. rewrite !build_app, !length_app. cbn [build set_live g_data]. by rewrite !length_app, !length_group. Qed.

Lemma related_update gs1 g gs2 b s a cache' loaded' seen' : related (gs1 ++ g :: gs2) s a ->
  loaded' ≡ₚ live_data (gs1 ++ set_live b g :: gs2) -> all_apart loaded' -> (forall d, d ∈ seen a -> d ∈ seen') ->
  length cache' = NUM_GLOBAL_MODULE_CACHE -> valid (length (vector s)) cache' ->
  related (gs1 ++ set_live b g :: gs2) {| vector := build 0 (gs1 ++ set_live b g :: gs2); cache := cache'; per_thread := per_thread s |}
    {| loaded := loaded'; seen := seen'; threads := threads a |}.
Proof using.
  intros [] Hl Ha Hs Hc Hv. rewrite r_vector0, <- (length_set_live gs1 g gs2 b) in *. constructor; cbn [vector cache per_thread loaded seen threads]; try done.
  - apply Forall_app in r_ok0 as [H1 H2]. apply Forall_cons in H2 as [H2 H3]. apply Forall_app. split; [done|]. by constructor.
  - apply Forall_app in r_seen0 as [H1 H2]. apply Forall_cons in H2 as [H2 H3]. apply Forall_app.
    split; [|constructor; [by apply Hs|]]; eapply Forall_impl; [exact H1|intros x; apply Hs|exact H3|intros x; apply Hs].
  - apply Forall_app in r_custom0 as [H1 H2]. apply Forall_cons in H2 as [H2 H3]. apply Forall_app. split; [done|]. by constructor.
Qed.

Lemma unload_ok gs s a d rest : related gs s a -> loaded a ≡ₚ d :: rest ->
  exists gs' s', event_module_unload debug s d = Ret s' /\ related gs' s' {| loaded := rest; seen := seen a; threads := threads a |}.
Proof using.
  intros R Hp. assert (Hd : d ∈ loaded a) by (rewrite Hp; by left).
  assert (Hok : module_ok d).
  { rewrite (r_loaded _ _ _ R), list_elem_of_fmap in Hd. destruct Hd as (g & -> & Hg). apply list_elem_of_filter in Hg as [_ Hg].
    exact (proj1 (Forall_forall _ _) (r_ok _ _ _ R) g Hg). }
  pose proof (module_ok_start d Hok) as Hst. unfold event_module_unload.
  destruct (find_back _ (vector s)) as [i|] eqn:E.
  - apply find_back_some in E as (e & He & Hin). rewrite He. cbn [or_abort mbind outcome_bind]. rewrite (r_vector _ _ _ R) in He |- *.
    apply andb_true_iff in Hin as [Hm Hin]. apply Nat.eqb_eq in Hm.
    destruct (main_entry _ _ _ _ He Hm) as (gs1 & g & gs2 & sg & segs & -> & Es & -> & ->). cbn [Nat.add] in *.
    unfold pc_is_in_module in Hin. cbn in Hin. rewrite negb_involutive, !andb_true_iff, Z.leb_le, Z.ltb_lt in Hin. destruct Hin as [Hl Hin].
    assert (Hlive : live_data (gs1 ++ g :: gs2) = live_data gs1 ++ g_data g :: live_data gs2) by (rewrite live_data_app; by rewrite Hl).
    assert (Eg : g_data g = d).
    { apply (overlapping_same (loaded a) _ _ (md_start d) (r_apart _ _ _ R)); [|done| |done].
      - rewrite (r_loaded _ _ _ R), Hlive. apply elem_of_app. right. by left.
      - exists sg. rewrite Es. split; [by left|done]. }
    cbn [id entry_of]. rewrite (update_group true gs1 g gs2 sg segs Es). cbn [negb]. eexists _, _. split; [done|].
    destruct (r_cache _ _ _ R) as [Hc1 Hc2]. apply related_update; try done.
    + rewrite live_data_app. cbn [set_live live app]. rewrite (r_loaded _ _ _ R), Hlive, Eg in Hp. apply (Permutation_cons_inv (a := d)).
      rewrite <- Hp. by rewrite Permutation_middle.
    + pose proof (r_apart _ _ _ R) as Ha. apply (all_apart_perm _ _ Hp) in Ha. apply Ha.
  - exfalso. rewrite (r_loaded _ _ _ R), list_elem_of_fmap in Hd. destruct Hd as (g & -> & Hg). apply list_elem_of_filter in Hg as [Hl Hg].
    apply list_elem_of_split in Hg as (gs1 & gs2 & ->). destruct (segments (g_data g)) as [|sg segs] eqn:Es; [by destruct Hok; rewrite Es in *|].
    pose proof (build_member 0 gs1 g gs2 0 sg ltac:(by rewrite Es)) as Em. rewrite <- (r_vector _ _ _ R) in Em. apply list_elem_of_lookup_2 in Em.
    pose proof (find_back_none _ _ _ E Em) as Hf. cbn in Hf. rewrite Nat.add_0_r, Nat.eqb_refl in Hf. unfold pc_is_in_module in Hf. cbn in Hf. rewrite Hl in Hf. cbn in Hf.
    destruct Hok as [Hf1 Hs _]. rewrite Es in Hf1, Hs. apply Forall_cons in Hs as [Hs _].
    rewrite (proj2 (Z.leb_le _ _)), (proj2 (Z.ltb_lt _ _)) in Hf by lia. done.
Qed.

(** The table after the entries of a module are used again. *)
Lemma reload_group gs1 g gs2 s segs : segments (g_data g) = s :: segs -> module_ok (g_data g) ->
  reload (build 0 (gs1 ++ g :: gs2)) (length (build 0 gs1)) = build 0 (gs1 ++ set_live true g :: gs2).
Proof using.
  intros Es Hok. unfold reload. set (n := length (build 0 gs1)).
  assert (He : build 0 (gs1 ++ g :: gs2) !! n = Some (entry_of n n g s)).
  { pose proof (build_member 0 gs1 g gs2 0 s ltac:(by rewrite Es)) as E. rewrite Nat.add_0_r in E. exact E. }
  pose proof (update_group false gs1 g gs2 s segs Es) as Hu. cbn [negb] in Hu. cbv zeta in Hu. fold n in Hu.
  rewrite He, <- Hu. cbn [entry_of data id].
  destruct (contiguous (g_data g)) eqn:Ec; [|done]. pose proof (mo_contiguous _ Hok Ec) as Hl. rewrite Es in Hl. cbn in Hl.
  destruct segs as [|? ?]; [|cbn in Hl; lia].
  assert (Hd : drop (S n) (build 0 (gs1 ++ g :: gs2)) = build (0 + n + 1) gs2).
  { rewrite build_app. fold n. rewrite <- (Nat.add_1_r n). unfold n at 1. rewrite drop_app_add. cbn [build]. unfold group_entries. by rewrite Es. }
  do 2 f_equal. rewrite Hd. symmetry. apply (set_subs_group false n 0 g []). intros e Hin. apply build_containing in Hin. lia.
Qed.

Lemma sub_entries_group n m g main segs : id main = n -> data main = g_data g -> custom main = g_custom g -> live g = true ->
  sub_entries main m segs = seg_entries n m g segs.
Proof using.
  intros H1 H2 H3 H4. revert m. induction segs as [|s segs IH]; intros m; [done|]. cbn [sub_entries seg_entries]. rewrite IH. unfold entry_of. by rewrite H1, H2, H3, H4.
Qed.

Lemma load_ok gs s a d : related gs s a -> module_ok d -> (forall d', d' ∈ loaded a -> apart d d') -> (forall d', d' ∈ seen a -> same_module d' d = true -> d' = d) ->
  exists gs' s', event_module_load module_load_cb debug s d = Ret s' /\ related gs' s' {| loaded := d :: loaded a; seen := d :: seen a; threads := threads a |}.
Proof using.
  intros R Hok Hap Hseen. pose proof (r_cache _ _ _ R) as [Hc1 Hc2]. unfold event_module_load.
  assert (Ha : all_apart (d :: loaded a)) by (split; [by apply Forall_forall|apply (r_apart _ _ _ R)]).
  destruct (find_back _ (vector s)) as [i|] eqn:E.
  - apply find_back_some in E as (e & He & Hin). rewrite (r_vector _ _ _ R) in He |- *. rewrite !andb_true_iff in Hin. destruct Hin as [[Hu Hm] Hsame].
    apply Nat.eqb_eq in Hm. destruct (main_entry _ _ _ _ He Hm) as (gs1 & g & gs2 & sg & segs & -> & Es & -> & ->). cbn in Hu, Hsame.
    pose proof (r_seen _ _ _ R) as Hsn. apply Forall_app in Hsn as [_ Hsn]. apply Forall_cons in Hsn as [Hsn _].
    assert (Eg : g_data g = d) by by apply Hseen.
    rewrite (reload_group gs1 g gs2 sg segs Es) by by rewrite Eg. eexists _, _. split; [done|]. apply related_update; try done.
    + rewrite live_data_app. cbn [set_live live app g_data]. rewrite (r_loaded _ _ _ R), live_data_app.
      destruct (live g); [done|]. cbn [app]. rewrite Eg. by rewrite Permutation_middle.
    + intros x Hx. by right.
    + unfold global_module_cache_add. by rewrite length_insert.
    + rewrite (r_vector _ _ _ R). apply valid_add; [|by rewrite <- (r_vector _ _ _ R)]. by eapply lookup_lt_Some.
  - pose proof Hok as [Hf Hs _]. destruct (segments d) as [|s0 segs] eqn:Es; [done|]. rewrite Hf, Z.eqb_refl, andb_false_r. cbn zeta.
    set (g := {| live := true; g_data := d; g_custom := match module_load_cb with Some f => Some (f d) | None => None end |}).
    set (main := {| id := _ |}).
    assert (Hv : vector s ++ main :: sub_entries main (S (length (vector s))) segs = build 0 (gs ++ [g])).
    { rewrite (sub_entries_group (length (vector s)) _ g main segs eq_refl eq_refl eq_refl eq_refl), build_app, <- (r_vector _ _ _ R). cbn [build Nat.add]. rewrite app_nil_r. unfold group_entries. change (g_data g) with d. rewrite Es. unfold main, entry_of. cbn [seg_entries]. by rewrite <- Hf. }
    rewrite Hv. exists (gs ++ [g]). eexists. split; [done|].
    assert (Hlen : length (build 0 (gs ++ [g])) = (length (vector s) + S (length segs))%nat).
    { rewrite build_app, length_app, <- (r_vector _ _ _ R). cbn [build]. rewrite app_nil_r, length_group. change (g_data g) with d. by rewrite Es. }
    destruct (subs_cache_ok (length (build 0 (gs ++ [g]))) main (S (length (vector s))) segs (cache s)) as [H1 H2]; [lia|eapply valid_le, Hc2; lia|].
    constructor; cbn [vector cache per_thread loaded seen threads]; try done.
    + apply Forall_app. split; [apply (r_ok _ _ _ R)|by constructor].
    + rewrite live_data_app. cbn [g live app g_data]. rewrite (r_loaded _ _ _ R). change (live_data []) with (@nil module_data_t). by rewrite Permutation_cons_append.
    + apply Forall_app. split; [|by repeat constructor]. eapply Forall_impl; [apply (r_seen _ _ _ R)|]. intros x Hx. by right.
    + apply Forall_app. split; [apply (r_custom _ _ _ R)|by constructor].
    + unfold global_module_cache_add. rewrite length_insert. split; [exact (eq_trans H2 Hc1)|]. apply (valid_add _ _ (length (vector s))); [lia|exact H1].
    + intros tid. pose proof (r_threads _ _ _ R tid) as Ht. destruct (per_thread s !! tid); [|done]. destruct Ht as (? & ? & Hv'). split_and!; try done.
      eapply valid_le, Hv'. lia.
Qed.

(** ** Histories *)

Lemma event_ok gs s a e b : related gs s a -> spec_step a e b -> exists gs' s', run_event module_load_cb debug s e = Ret s' /\ related gs' s' b.
Proof using.
  intros R [d Hok Hap Hseen|d rest Hp|tid pc Ht|tid|tid Ht]; cbn [run_event].
  - by apply (load_ok gs).
  - by apply (unload_ok gs).
  - destruct (track_lookup_ok gs s a tid pc R Ht) as (s' & r & -> & R' & _). by exists gs, s'.
  - exists gs. eexists. split; [done|]. destruct R. constructor; try done. intros t. cbn. destruct (decide (t = tid)) as [->|Hne].
    + rewrite lookup_insert_eq. split_and!; [set_solver|done|]. by repeat constructor.
    + rewrite lookup_insert_ne by done. specialize (r_threads0 t). destruct (per_thread s !! t); [|set_solver]. destruct r_threads0 as (? & ? & ?). split_and!; (done || set_solver).
  - pose proof (r_threads _ _ _ R tid) as Hc. unfold event_thread_exit. destruct (per_thread s !! tid) as [c|]; [|done]. cbn [or_abort mbind outcome_bind].
    exists gs. eexists. split; [done|]. destruct R. constructor; try done. intros t. cbn. destruct (decide (t = tid)) as [->|Hne].
    + rewrite lookup_delete_eq. set_solver.
    + rewrite lookup_delete_ne by done. specialize (r_threads0 t). destruct (per_thread s !! t); [|set_solver]. destruct r_threads0 as (? & ? & ?). split_and!; (done || set_solver).
Qed.

Lemma events_ok gs s a h b : related gs s a -> spec_steps a h b -> exists gs' s', run_events module_load_cb debug s h = Ret s' /\ related gs' s' b.
Proof using.
  intros R H. revert gs s R. induction H as [a|a b c e h Hs Hss IH]; intros gs s R; cbn [run_events]; [by exists gs, s|].
  destruct (event_ok _ _ _ _ _ R Hs) as (gs1 & s1 & -> & R1). exact (IH gs1 s1 R1).
Qed.

Lemma init_related : related [] drmodtrack_init spec_init.
Proof using. constructor; try done; [split; [done|by repeat constructor]|]. intros tid. cbn. by rewrite lookup_empty. Qed.
End Spec.
Arguments live {custom_t}.
Arguments g_data {custom_t}.
Arguments g_custom {custom_t}.

(** ** The property *)


(** ** Examples *)

Definition segment_at (a n o : Z) : segment_t := {| seg_start := a; seg_end := a + n; seg_offset := o |}.
(** A module in two pieces with a gap, and one without. *)
Definition libgap : module_data_t :=
  {| md_start := 0x10000; md_end := 0x16000; entry_point := 0x10040; module_name := None; file_name := Some (s2l "libgap.so"); full_path := Some (s2l "/lib/libgap.so");
     contiguous := false; segments := [segment_at 0x10000 0x1000 0; segment_at 0x15000 0x1000 0x2000] |}.
Definition libone : module_data_t :=
  {| md_start := 0x12000; md_end := 0x13000; entry_point := 0x12040; module_name := None; file_name := Some (s2l "libone.so"); full_path := Some (s2l "/lib/libone.so");
     contiguous := true; segments := [segment_at 0x12000 0x1000 0] |}.
(** A module with its code and its data side by side, as most are. *)
Definition libtwo : module_data_t :=
  {| md_start := 0x20000; md_end := 0x22000; entry_point := 0x20040; module_name := None; file_name := Some (s2l "libtwo.so"); full_path := Some (s2l "/lib/libtwo.so");
     contiguous := true; segments := [segment_at 0x20000 0x1000 0; segment_at 0x21000 0x1000 0x1000] |}.

Definition no_cb : option (module_data_t -> unit) := None.
(** What a lookup answers after a history. *)
Definition after (h : list event) (pc : Z) : option (option (nat * Z)) :=
  match run_events no_cb false drmodtrack_init (EThreadInit 1 :: h) with
  | Ret s => match drmodtrack_lookup s 1 pc with Ret (_, r) => Some r | _ => None end
  | _ => None
  end.

Example reload_with_gap : after [ELoad libgap; ELookup 1 0x15010; EUnload libgap; ELoad libgap] 0x15010 = Some (Some (1%nat, 0x10000)).
Proof. vm_compute. reflexivity. Qed.

(** A module without gaps has an index per segment, and only the first of them
    comes back when it is loaded again. *)
Example contiguous_reload : after [ELoad libtwo] 0x21010 = Some (Some (1%nat, 0x20000)) /\
  after [ELoad libtwo; EUnload libtwo; ELoad libtwo] 0x20010 = Some (Some (0%nat, 0x20000)) /\
  after [ELoad libtwo; EUnload libtwo; ELoad libtwo] 0x21010 = Some None.
Proof. vm_compute. repeat split. Qed.

Definition history : list event := [EThreadInit 1; ELoad libgap; ELoad libone; ELookup 1 0x15010; EUnload libgap; ELookup 1 0x12010; ELoad libgap].

Definition history_state : spec_state := {| loaded := [libgap; libone]; seen := [libgap; libone; libgap]; threads := {[1]} ∪ ∅ |}.

Lemma history_steps : spec_steps spec_init history history_state.
Proof.
  assert (Hgap : module_ok libgap) by (constructor; [reflexivity|repeat constructor|discriminate]).
  assert (Hone : module_ok libone) by (constructor; [reflexivity|repeat constructor|reflexivity]).
  assert (Hap : apart libone libgap).
  { intros pc (s & Hs & Hin) (s' & Hs' & Hin'). cbn in Hs, Hs'. unfold in_segment in *.
    apply list_elem_of_singleton in Hs as ->. apply elem_of_cons in Hs' as [->|Hs']; [|apply list_elem_of_singleton in Hs' as ->]; cbn in *; lia. }
  eapply steps_cons; [apply step_init|]. cbn [loaded seen threads spec_init].
  eapply steps_cons; [apply (step_load _ libgap Hgap); cbn; intros d' Hd'; by apply elem_of_nil in Hd'|]. cbn [loaded seen threads].
  eapply steps_cons; [apply (step_load _ libone Hone); cbn; intros d' Hd'; apply elem_of_cons in Hd' as [->|Hd'];
    (by apply elem_of_nil in Hd') || exact Hap || discriminate|]. cbn [loaded seen threads].
  eapply steps_cons; [apply step_lookup; cbn; set_solver|].
  eapply steps_cons; [apply (step_unload _ libgap [libone]); cbn; apply perm_swap|]. cbn [loaded seen threads].
  eapply steps_cons; [apply step_lookup; cbn; set_solver|].
  eapply steps_cons; [apply (step_load _ libgap Hgap); cbn; intros d' Hd'|apply steps_nil].
  - apply elem_of_cons in Hd' as [->|Hd']; [by apply apart_sym|by apply elem_of_nil in Hd'].
  - apply elem_of_cons in Hd' as [->|Hd']; [discriminate|]. by apply list_elem_of_singleton in Hd'.
Qed.

