(* ===== verification/ModList.v ===== *)
(** * The list of modules

    [src/Simulator/ext/drcovlib/modules.c], the second half: the table of
    modules printed into a buffer ([drmodtrack_dump_buf], [drmodtrack_dump]),
    read back offline ([drmodtrack_offline_read], [drmodtrack_offline_lookup])
    and written again ([drmodtrack_offline_write]), on 64-bit Linux.

    A piece of text is printed by [dr_snprintf] into the room that is left; what
    a buffer holds before its NUL is the concatenation of the pieces.  [Abort] is
    a write behind the buffer, a store through a pointer that is not set, or the
    use of a field that is not set ([None]).  The callbacks for the custom
    fields are parameters; what the one that parses changes is a state of type
    [state_t].  Allocation does not fail. *)
From stdpp Require Import gmap.
From S2P Require Export ModTrack IoPrint IoScan.

Definition MODULE_FILE_VERSION : Z := 4.
Definition MAXIMUM_PATH : nat := 512.
Definition CR : ascii := "013"%char.

Inductive drcovlib_status_t := DRCOVLIB_SUCCESS | DRCOVLIB_ERROR | DRCOVLIB_ERROR_INVALID_PARAMETER | DRCOVLIB_ERROR_BUF_TOO_SMALL.

Section List.
Context {double : Type} (our_vsnprintf_float : double -> ascii -> Z -> bool -> bool -> bool -> text * text) (debug : bool).
Context {custom_t state_t : Type}.
Context (module_print_cb : option (custom_t -> nat -> outcome (option text)))
        (module_parse_cb : option (state_t -> text -> outcome (state_t * option (text * custom_t)))).

Abbreviation varg := (varg double).

Definition dr_snprintf : nat -> text -> list varg -> outcome printed_t := our_vsnprintf double our_vsnprintf_float debug.
Definition dr_sscanf : text -> text -> outcome (Z * list stored_t) := our_vsscanf debug.

(** ** Printing *)

(** [None] is -1; otherwise the text. *)
Definition pr (size : nat) (fmt : text) (ap : list varg) : outcome (option text) :=
  r ← dr_snprintf size fmt ap; Ret (if ret r =? -1 then None else Some (written r)).

(** A piece and those behind it. *)
Definition then_ (size : nat) (o : outcome (option text)) (k : nat -> outcome (option text)) : outcome (option text) :=
  t ← o;
  match t with
  | None => Ret None
  | Some t => r ← k (size - length t)%nat; Ret (match r with Some t' => Some (t ++ t') | None => None end)
  end.

Record module_read_entry_t := {
  re_containing_id : Z;
  re_base : Z;
  re_size : Z;
  re_entry : Z;
  re_path : text;
  re_custom : option custom_t;
  re_offset : option Z
}.

Definition entry_format : text := s2l "%3u, %3u, 0x%016lx, 0x%016lx, 0x%016lx, %016lx, ".
Definition path_format : text := s2l " %s" ++ [NL].

Definition print_custom (c : option custom_t) (size : nat) : outcome (option text) :=
  match module_print_cb with Some f => c ← or_abort c; f c size | None => Ret (Some []) end.

Definition module_read_entry_print (e : module_read_entry_t) (idx : Z) (size : nat) : outcome (option text) :=
  off ← or_abort (re_offset e);
  then_ size (pr size entry_format [VInt idx; VInt (re_containing_id e); VLong (re_base e); VLong (re_base e + re_size e); VLong (re_entry e); VLong off]) (fun size =>
  then_ size (print_custom (re_custom e) size) (fun size =>
  pr size path_format [VStr (Some (re_path e))])).

Definition unknown_path : text := s2l "<unknown>".
Definition path_of (d : module_data_t) : text := match full_path d with Some (c :: t) => if decide (c = NUL) then unknown_path else c :: t | _ => unknown_path end.

(** What is printed of an entry of the table. *)
Definition read_entry_of (e : module_entry_t custom_t) : module_read_entry_t :=
  {| re_containing_id := Z.of_nat (containing_id e); re_base := start e; re_size := u64 (end_ e - start e); re_entry := entry_point (data e);
     re_path := path_of (data e); re_custom := custom e; re_offset := Some (offset e) |}.
Definition module_table_entry_print (e : module_entry_t custom_t) (size : nat) : outcome (option text) :=
  module_read_entry_print (read_entry_of e) (Z.of_nat (id e)) size.

Definition header_format : text := s2l "Module Table: version %u, count %u" ++ [NL].
Definition columns_text : text := s2l "Columns: id, containing_id, start, end, entry, offset".
Definition custom_text : text := s2l ", (custom fields)".
Definition columns_end : text := s2l ", path" ++ [NL].

(** [inl]: an error. *)
Abbreviation result := (drcovlib_status_t + text)%type.

Definition drmodtrack_dump_buf_headers (size : nat) (count : Z) : outcome result :=
  if (size =? 0)%nat then Ret (inl DRCOVLIB_ERROR_INVALID_PARAMETER)
  else
    let size := (size - 1)%nat in
    r ← then_ size (pr size header_format [VInt MODULE_FILE_VERSION; VInt count]) (fun size =>
        then_ size (pr size columns_text []) (fun size =>
        then_ size (match module_print_cb with Some _ => pr size custom_text [] | None => Ret (Some []) end) (fun size =>
        pr size columns_end [])));
    Ret (match r with Some t => inr t | None => inl DRCOVLIB_ERROR_BUF_TOO_SMALL end).

(** The loop over the entries. *)
Fixpoint print_all {A} (print : A -> nat -> outcome (option text)) (l : list A) (size : nat) : outcome (option text) :=
  match l with
  | [] => Ret (Some [])
  | e :: l => then_ size (print e size) (print_all print l)
  end.

(** The headers, the entries and the NUL behind them, in a buffer of [size]. *)
Definition dump_entries {A} (print : A -> nat -> outcome (option text)) (l : list A) (size : nat) : outcome result :=
  h ← drmodtrack_dump_buf_headers size (Z.of_nat (length l));
  match h with
  | inl e => Ret (inl e)
  | inr h =>
      let size := (size - length h)%nat in
      r ← print_all print l size;
      match r with
      | None => Ret (inl DRCOVLIB_ERROR_BUF_TOO_SMALL)
      | Some t => if (size <=? length t)%nat then Abort else Ret (inr (h ++ t))
      end
  end.

(** [*wrote] is one more than the length of the text. *)
Definition drmodtrack_dump_buf (v : list (module_entry_t custom_t)) (size : nat) : outcome result := dump_entries module_table_entry_print v size.

(** The loop of [drmodtrack_dump]: what goes to the file. *)
Fixpoint dump_loop (fuel : nat) (v : list (module_entry_t custom_t)) (size : nat) : outcome result :=
  match fuel with
  | O => Out_of_fuel
  | S fuel =>
      r ← drmodtrack_dump_buf v size;
      match r with
      | inl DRCOVLIB_ERROR_BUF_TOO_SMALL => dump_loop fuel v (size * 2)
      | r => Ret r
      end
  end.
Definition drmodtrack_dump (fuel : nat) (v : list (module_entry_t custom_t)) : outcome result := dump_loop fuel v (200 + length v * (MAXIMUM_PATH + 40)).

(** ** Reading *)

Fixpoint strchr (c : ascii) (l : text) : option text :=
  match l with
  | [] => None
  | x :: l' => if decide (x = NUL) then None else if decide (x = c) then Some l else strchr c l'
  end.
(** The rest of a string from its NUL on. *)
Fixpoint str_end (l : text) : text := match l with [] => [] | x :: l' => if decide (x = NUL) then l else str_end l' end.

Definition is_newline (c : ascii) : bool := bool_decide (c = NL \/ c = CR).
Definition move_to_next_line (ptr : text) : text := match strchr NL ptr with None => str_end ptr | Some end_ => skip_while is_newline end_ end.

Fixpoint skip_commas_and_spaces (ptr : text) (num_skip : nat) : option text :=
  match num_skip with
  | O => Some (skip_while (fun c => bool_decide (c = " "%char \/ c = "009"%char)) ptr)
  | S n => match strchr COMMA ptr with Some (_ :: l) => skip_commas_and_spaces l n | _ => None end
  end.

Definition count_format : text := s2l "Module Table: %u" ++ [NL].
Definition v1_format : text := s2l " %u, %lu, %[^" ++ [NL; CR] ++ s2l "]".
Definition v2_format : text := s2l "%u, 0x%lx, 0x%lx, 0x%lx, ".
Definition v3_format : text := s2l "%u, %u, 0x%lx, 0x%lx, 0x%lx, ".
Definition v4_format : text := s2l "%u, %u, 0x%lx, 0x%lx, 0x%lx, %lx, ".
Definition name_format : text := s2l " %[^" ++ [NL; CR] ++ s2l "]".

(** The header: the version and the number of modules. *)
Definition read_header (buf : text) : outcome (option (Z * Z)) :=
  '(n, vs) ← dr_sscanf buf count_format;
  match vs with
  | [SInt num] => Ret (Some (1, num))
  | _ =>
      '(n, vs) ← dr_sscanf buf header_format;
      match vs with
      | [SInt version; SInt num] => Ret (if MODULE_FILE_VERSION <? version then None else Some (version, num))
      | _ => Ret None
      end
  end.

(** The numbers of a line: the index, the fields, and what is behind. *)
Definition read_numbers (version : Z) (buf : text) : outcome (option (Z * (Z * Z * Z * Z * option Z) * text)) :=
  let rest n k := match skip_commas_and_spaces buf n with Some buf => Some (k, buf) | None => None end in
  if version =? 2 then
    '(n, vs) ← dr_sscanf buf v2_format;
    match vs with
    | [SInt i; SLong b; SLong e; SLong p] => Ret (rest 4%nat (i, (i, b, e, p, None)))
    | _ => Ret None
    end
  else if version =? 3 then
    '(n, vs) ← dr_sscanf buf v3_format;
    match vs with
    | [SInt i; SInt c; SLong b; SLong e; SLong p] => Ret (rest 5%nat (i, (c, b, e, p, None)))
    | _ => Ret None
    end
  else
    '(n, vs) ← dr_sscanf buf v4_format;
    match vs with
    | [SInt i; SInt c; SLong b; SLong e; SLong p; SLong o] => Ret (rest 6%nat (i, (c, b, e, p, Some o)))
    | _ => Ret None
    end.

(** A line of the first version: it ends in a store through [path], which is
    not set. *)
Definition read_v1 (buf : text) : outcome (option (module_read_entry_t * text)) :=
  '(n, vs) ← dr_sscanf buf v1_format;
  if n <? 3 then Ret None else Abort.

Definition parse_custom (st : state_t) (buf : text) : outcome (state_t * option (text * option custom_t)) :=
  match module_parse_cb with
  | Some f => '(st, r) ← f st buf; Ret (st, match r with Some (buf, c) => Some (buf, Some c) | None => None end)
  | None => Ret (st, Some (buf, None))
  end.

(** Module [i]: [None] for an error. *)
Definition read_module (version : Z) (i : Z) (st : state_t) (buf : text) : outcome (state_t * option (module_read_entry_t * text)) :=
  if version =? 1 then r ← read_v1 buf; Ret (st, r)
  else
    r ← read_numbers version buf;
    match r with
    | None => Ret (st, None)
    | Some ((mod_id, (c, b, e, p, o)), buf) =>
        if negb (mod_id =? i) then Ret (st, None)
        else
          '(st, r) ← parse_custom st buf;
          match r with
          | None => Ret (st, None)
          | Some (buf, custom) =>
              '(n, vs) ← dr_sscanf buf name_format;
              match vs with
              | [SStr path] =>
                  if (MAXIMUM_PATH <=? length path)%nat then Abort
                  else Ret (st, Some ({| re_containing_id := c; re_base := b; re_size := u64 (e - b); re_entry := p; re_path := path; re_custom := custom; re_offset := o |}, buf))
              | _ => Ret (st, None)
              end
          end
    end.

(** The loop, [i] modules being read and [remaining] to read. *)
Fixpoint read_modules (version : Z) (want_next : bool) (i : Z) (remaining : nat) (st : state_t) (buf : text) : outcome (state_t * option (list module_read_entry_t * text)) :=
  match remaining with
  | O => Ret (st, Some ([], buf))
  | S remaining =>
      '(st, r) ← read_module version i st buf;
      match r with
      | None => Ret (st, None)
      | Some (m, buf) =>
          let buf := if (0 <? remaining)%nat || want_next then move_to_next_line buf else buf in
          '(st, r) ← read_modules version want_next (i + 1) remaining st buf;
          Ret (st, match r with Some (ms, buf) => Some (m :: ms, buf) | None => None end)
      end
  end.

(** A file is [None] when it is INVALID_FILE, and [Some None] when it cannot be
    mapped; with a file there is no [map] and no [next_line].  A table: the
    number of modules is that of the list. *)
Definition drmodtrack_offline_read (file : option (option text)) (map : option text) (want_next : bool) (st : state_t)
    : outcome (state_t * (drcovlib_status_t + list module_read_entry_t * text)) :=
  let map_start :=
    match file with
    | None => map
    | Some contents => if want_next || bool_decide (map <> None) then None else contents
    end in
  match map_start with
  | None => Ret (st, inl DRCOVLIB_ERROR_INVALID_PARAMETER)
  | Some buf =>
      h ← read_header buf;
      match h with
      | None => Ret (st, inl DRCOVLIB_ERROR)
      | Some (version, num) =>
          let buf := move_to_next_line buf in
          let buf := if 1 <? version then move_to_next_line buf else buf in
          '(st, r) ← read_modules version want_next 0 (Z.to_nat num) st buf;
          Ret (st, match r with Some r => inr r | None => inl DRCOVLIB_ERROR end)
      end
  end.

(** What the caller gets of a module; the last two fields only if its structure
    has room for them. *)
Record drmodtrack_info_t := {
  containing_index : Z;
  info_start : Z;
  info_size : Z;
  info_path : text;
  info_custom : option custom_t;
  info_index : option Z;
  info_offset : option (option Z)
}.
Definition offsetof_custom : Z := 40.
Definition offsetof_index : Z := 48.
Definition offsetof_offset : Z := 56.

Definition drmodtrack_offline_lookup (mods : list module_read_entry_t) (index : nat) (struct_size : Z) : drcovlib_status_t + drmodtrack_info_t :=
  match mods !! index with
  | None => inl DRCOVLIB_ERROR_INVALID_PARAMETER
  | Some m =>
      if struct_size <? offsetof_custom + 8 then inl DRCOVLIB_ERROR_INVALID_PARAMETER
      else inr {| containing_index := re_containing_id m; info_start := re_base m; info_size := re_size m; info_path := re_path m; info_custom := re_custom m;
                  info_index := if offsetof_index <? struct_size then Some (Z.of_nat index) else None;
                  info_offset := if offsetof_offset <? struct_size then Some (re_offset m) else None |}
  end.

Definition drmodtrack_offline_write (mods : list module_read_entry_t) (size : nat) : outcome result :=
  dump_entries (fun '(i, m) size => module_read_entry_print m (Z.of_nat i) size) (imap pair mods) size.
End List.
Arguments module_read_entry_t : clear implicits.
Arguments drmodtrack_info_t : clear implicits.
