(* ===== verification/ModListPrint.v ===== *)
(** * What is printed of the module list

    Every step of the dump prints a fixed text if there is room for it and
    fails otherwise; so does the whole dump. *)
From stdpp Require Import gmap.
From S2P Require Export ModList IoSpec.

(** [o] prints [T] if there is room. *)
Definition prints_text (o : nat -> outcome (option text)) (T : text) : Prop :=
  forall size, o size = Ret (if (length T <=? size)%nat then Some T else None).

Lemma prints_nil : prints_text (fun _ => Ret (Some [])) [].
Proof. done. Qed.

Lemma prints_then o1 o2 T1 T2 : prints_text o1 T1 -> prints_text o2 T2 -> prints_text (fun size => then_ size (o1 size) o2) (T1 ++ T2).
Proof.
  intros H1 H2 size. unfold then_. rewrite H1. cbn [mbind outcome_bind]. rewrite length_app.
  destruct (Nat.leb_spec (length T1) size) as [Hl|Hl].
  - rewrite H2. cbn [mbind outcome_bind]. destruct (Nat.leb_spec (length T2) (size - length T1)), (Nat.leb_spec (length T1 + length T2) size); (done || lia).
  - by rewrite (proj2 (Nat.leb_gt _ _)) by lia.
Qed.

(** ** The custom fields *)

(** What the callbacks that print ([W]) and that parse ([R]) the custom field of
    a module promise each other: [shown] is what is printed of it, [image] what
    is read back. *)
Class CustomCodec {W R S} (print_cb : option (W -> nat -> outcome (option text))) (parse_cb : option (S -> text -> outcome (S * option (text * R)))) := {
  custom_ok : option W -> Prop;
  shown : option W -> text;
  image : option W -> option R;
  shown_prints c : custom_ok c -> prints_text (print_custom print_cb c) (shown c);
  shown_parses c st rest : custom_ok c -> parse_custom parse_cb st (shown c ++ rest) = Ret (st, Some (rest, image c));
  shown_head c : custom_ok c -> match shown c with x :: _ => our_isspace x = false | [] => True end
}.

(** No callbacks. *)
#[export] Instance no_custom {W R S} : CustomCodec (@None (W -> nat -> outcome (option text))) (@None (S -> text -> outcome (S * option (text * R)))).
Proof. refine {| custom_ok := fun _ => True; shown := fun _ => []; image := fun _ => None |}; done. Defined.

(** ** Formats *)

Definition u_item (w : text) : item := Num {| zero := false; wide := w; nsize := NInt; kind := KUnsigned |}.
Definition x_item (b : bool) (w : text) : item := Num {| zero := b; wide := w; nsize := NLong; kind := KHex |}.
Definition lits (t : string) : list item := map Lit (s2l t).

Definition entry_items : list item :=
  [u_item (s2l "3")] ++ lits ", " ++ [u_item (s2l "3")] ++ lits ", 0x" ++ [x_item true (s2l "16")] ++ lits ", 0x" ++ [x_item true (s2l "16")] ++ lits ", 0x" ++
  [x_item true (s2l "16")] ++ lits ", " ++ [x_item true (s2l "16")] ++ lits ", ".
Definition header_items : list item := lits "Module Table: version " ++ [u_item []] ++ lits ", count " ++ [u_item []] ++ [Lit NL].

Lemma entry_items_format : print_fmt entry_items = entry_format /\ scan_fmt entry_items = v4_format.
Proof. split; reflexivity. Qed.
Lemma header_items_format : print_fmt header_items = header_format /\ scan_fmt header_items = header_format.
Proof. split; reflexivity. Qed.

Lemma items_ok : Forall item_ok entry_items /\ Forall item_ok header_items.
Proof. split; repeat constructor; discriminate. Qed.

Section Print.
Context {double : Type} (float : double -> ascii -> Z -> bool -> bool -> bool -> text * text) (debug : bool).
Abbreviation varg := (varg double).

Lemma pr_prints f a T : emits double float debug f a T -> T <> [] -> prints_text (fun size => pr float debug size f a) T.
Proof using.
  intros He Hne size. unfold pr, dr_snprintf. assert (Hp : (0 < length T)%nat) by (destruct T; [done|cbn; lia]).
  destruct (Nat.leb_spec (length T) size) as [Hl|Hl].
  - rewrite (emits_run _ _ _ _ _ _ size He) by lia. cbn [mbind outcome_bind ret written]. by rewrite (proj2 (Z.eqb_neq _ _)) by lia.
  - pose proof (emits_run _ _ _ _ _ _ (length T) He (Nat.le_refl _) Hp) as E. destruct size as [|size]; [done|].
    unfold our_vsnprintf in *. destruct (length T) as [|n] eqn:En; [lia|].
    destruct (loop_truncated _ _ _ _ _ (Datatypes.S size) _ _ _ _ _ _ E) as [_ (r' & -> & Hs)]; [cbn [ret]; lia|cbn; lia|].
    cbn [mbind outcome_bind]. destruct Hs as [[_ Hs]|(-> & _)]; [cbn [written] in Hs; lia|done].
Qed.

Lemma put_str_unlimited max out t d : d < 0 -> (length out + length t <= max)%nat -> put_str max out t true d = inl (out ++ t, []).
Proof using.
  revert out d. induction t as [|x t IH]; intros out d Hd Ho; cbn [put_str length] in *; [by rewrite app_nil_r|].
  rewrite (proj2 (Nat.leb_gt _ _)) by lia. rewrite (proj2 (Z.eqb_neq d 0)) by lia. cbn [andb].
  rewrite IH; [by rewrite <- app_assoc|lia|rewrite length_app; cbn; lia].
Qed.

Lemma emits_string p : emits double float debug (s2l "%s") [VStr (Some p)] (cstr p).
Proof using.
  apply (emits_conversion double float debug (s2l "s") (VStr (Some p)) (cstr p)). intros max out c ap old Hl. exists (At []).
  assert (Hb : put_body debug max out {| p_spec := set_width (set_filler new_spec " " false) false 0; prefixbuf := []; str := At (cstr p); in_charbuf := false; wstr := None; stored := [] |} "s"
    = Ret (inl (out ++ cstr p), At [])).
  { unfold put_body. cbn [wstr str]. change (bool_decide ("s"%char = "s"%char)) with true. by rewrite put_str_unlimited. }
  change (conversion double float debug max out (s2l "s" ++ c) (VStr (Some p) :: ap) old) with
    ('(r, s) ← ('(r, s) ← put_body debug max out {| p_spec := set_width (set_filler new_spec " " false) false 0; prefixbuf := []; str := At (cstr p); in_charbuf := false; wstr := None; stored := [] |} "s";
      Ret (bind_put r (fun out => put max out []), s)); Ret (r, c, ap, s, @nil Z)). rewrite Hb. done.
Qed.

Lemma emits_lits t : Forall (fun c => c <> "%"%char) t -> emits double float debug t [] t.
Proof using. induction 1 as [|c t Hc _ IH]; [apply emits_nil|]. exact (emits_app _ _ _ [c] [] [c] t [] t (emits_lit _ _ _ c Hc) IH). Qed.

(** ** An entry *)

Context {custom_t : Type} (print_cb : option (custom_t -> nat -> outcome (option text))).

Definition path_text (p : text) : text := " "%char :: cstr p ++ [NL].
Definition numbers_text (idx : Z) (e : module_read_entry_t custom_t) (off : Z) : text :=
  items_text entry_items [idx; re_containing_id e; re_base e; re_base e + re_size e; re_entry e; off].

Lemma path_prints p : prints_text (fun size => pr float debug size path_format [VStr (Some p)]) (path_text p).
Proof using.
  apply pr_prints; [|done]. apply (emits_app _ _ _ [" "%char] [] [" "%char] (s2l "%s" ++ [NL]) [VStr (Some p)] (cstr p ++ [NL])); [by apply emits_lit|].
  exact (emits_app _ _ _ (s2l "%s") [VStr (Some p)] (cstr p) [NL] [] [NL] (emits_string p) (emits_lit _ _ _ NL ltac:(done))).
Qed.

Lemma items_text_nonempty c f zs : items_text (Lit c :: f) zs <> [].
Proof using. done. Qed.

Lemma numbers_print idx e off : prints_text (fun size => pr float debug size entry_format
    [VInt idx; VInt (re_containing_id e); VLong (re_base e); VLong (re_base e + re_size e); VLong (re_entry e); VLong off]) (numbers_text idx e off).
Proof using.
  apply pr_prints.
  - exact (emits_items double float debug entry_items [idx; re_containing_id e; re_base e; re_base e + re_size e; re_entry e; off] (proj1 items_ok) eq_refl).
  - unfold numbers_text. cbn [entry_items u_item app items_text]. by destruct (number_text _ _).
Qed.

(** The line of an entry. *)
Definition line_text (custom : text) (idx : Z) (e : module_read_entry_t custom_t) (off : Z) : text := numbers_text idx e off ++ custom ++ path_text (re_path e).

Lemma entry_prints custom idx e off : re_offset e = Some off -> prints_text (print_custom print_cb (re_custom e)) custom ->
  prints_text (module_read_entry_print float debug print_cb e idx) (line_text custom idx e off).
Proof using.
  intros Ho Hc. unfold module_read_entry_print. rewrite Ho. cbn [or_abort mbind outcome_bind].
  exact (prints_then _ _ _ _ (numbers_print idx e off) (prints_then _ _ _ _ Hc (path_prints (re_path e)))).
Qed.

(** ** The headers *)

Definition columns : text := columns_text ++ (match print_cb with Some _ => custom_text | None => [] end) ++ columns_end.
Definition header_text (count : Z) : text := items_text header_items [MODULE_FILE_VERSION; count].

Lemma headers_print size count : drmodtrack_dump_buf_headers float debug print_cb size count =
  if (size =? 0)%nat then Ret (inl DRCOVLIB_ERROR_INVALID_PARAMETER)
  else if (length (header_text count ++ columns) <=? size - 1)%nat then Ret (inr (header_text count ++ columns)) else Ret (inl DRCOVLIB_ERROR_BUF_TOO_SMALL).
Proof using.
  unfold drmodtrack_dump_buf_headers. destruct (size =? 0)%nat; [done|].
  assert (H1 : prints_text (fun size => pr float debug size header_format [VInt MODULE_FILE_VERSION; VInt count]) (header_text count)).
  { apply pr_prints; [|done]. exact (emits_items double float debug header_items [MODULE_FILE_VERSION; count] (proj2 items_ok) eq_refl). }
  assert (Hlit : forall t, t <> [] -> Forall (fun c => c <> "%"%char) t -> prints_text (fun size => pr float debug size t []) t).
  { intros t Ht Hf. apply pr_prints; [by apply emits_lits|done]. }
  assert (H3 : prints_text (fun size => match print_cb with Some _ => pr float debug size custom_text [] | None => Ret (Some []) end) (match print_cb with Some _ => custom_text | None => [] end)).
  { destruct print_cb; [apply Hlit; [done|by repeat constructor]|apply prints_nil]. }
  pose proof (prints_then _ _ _ _ H1 (prints_then _ _ _ _ (Hlit columns_text ltac:(done) ltac:(by repeat constructor))
    (prints_then _ _ _ _ H3 (Hlit columns_end ltac:(done) ltac:(by repeat constructor)))) (size - 1)%nat) as H.
  cbv beta in H. rewrite H. cbn [mbind outcome_bind]. unfold columns. by destruct (_ <=? _)%nat.
Qed.

(** ** The list *)

Lemma all_print {A} (print : A -> nat -> outcome (option text)) (line : A -> text) l : (forall e, e ∈ l -> prints_text (print e) (line e)) ->
  prints_text (print_all print l) (concat (map line l)).
Proof using.
  induction l as [|e l IH]; intros H; [apply prints_nil|]. apply (prints_then (print e) (print_all print l)); [apply H; by left|]. apply IH. intros x Hx. apply H. by right.
Qed.

(** The text of a list whose entries print [line]. *)
Definition list_text {A} (line : A -> text) (l : list A) : text := (header_text (Z.of_nat (length l)) ++ columns) ++ concat (map line l).

Lemma dump_result {A} (print : A -> nat -> outcome (option text)) (line : A -> text) l size : (forall e, e ∈ l -> prints_text (print e) (line e) /\ line e <> []) ->
  dump_entries float debug print_cb print l size =
  if (size =? 0)%nat then Ret (inl DRCOVLIB_ERROR_INVALID_PARAMETER)
  else if (length (list_text line l) <? size)%nat then Ret (inr (list_text line l))
  else if (length (list_text line l) =? size)%nat && negb (bool_decide (l = [])) then Abort
  else Ret (inl DRCOVLIB_ERROR_BUF_TOO_SMALL).
Proof using.
  intros H. unfold dump_entries. rewrite headers_print. destruct (Nat.eqb_spec size 0) as [->|Hs]; [done|]. unfold list_text.
  set (hd := header_text _ ++ columns). rewrite !length_app. set (n := length hd). set (T := concat (map line l)).
  assert (HT : l <> [] -> (0 < length T)%nat).
  { destruct l as [|e l']; [done|]. intros _. destruct (H e ltac:(by left)) as [_ Hne]. unfold T. cbn [map concat]. rewrite length_app. destruct (line e); [done|cbn; lia]. }
  assert (HT0 : l = [] -> length T = 0%nat) by (intros ->; done).
  destruct (Nat.leb_spec n (size - 1)) as [Hn|Hn]; cbn [mbind outcome_bind].
  - rewrite (all_print print line l) by (intros e He; by apply H). cbn [mbind outcome_bind]. fold T n.
    destruct (Nat.leb_spec (length T) (size - n)) as [Ht|Ht].
    + destruct (Nat.leb_spec (size - n) (length T)) as [He|He].
      * rewrite (proj2 (Nat.ltb_ge _ _)) by lia. rewrite (proj2 (Nat.eqb_eq _ _)) by lia. rewrite bool_decide_eq_false_2; [done|]. intros ->. rewrite HT0 in * by done. lia.
      * by rewrite (proj2 (Nat.ltb_lt _ _)) by lia.
    + rewrite (proj2 (Nat.ltb_ge _ _)) by lia. by rewrite (proj2 (Nat.eqb_neq _ _)) by lia.
  - rewrite (proj2 (Nat.ltb_ge _ _)) by lia. destruct (Nat.eqb_spec (n + length T) size) as [E|E]; [|done]. rewrite bool_decide_eq_true_2; [done|].
    destruct l as [|e l']; [done|]. specialize (HT ltac:(done)). lia.
Qed.
End Print.
