(* ===== verification/ModListSpec.v ===== *)
(** * The module list is read back

    What [drmodtrack_offline_read] makes of a list that was dumped, whatever
    stands behind it, and what [drmodtrack_dump] writes. *)
From stdpp Require Import gmap.
From S2P Require Export ModListPrint.

(** ** Lines *)

Definition no_newline (t : text) : Prop := Forall (fun c => is_newline c = false /\ c <> NUL) t.
Definition starts_line (r : text) : Prop := match r with c :: _ => is_newline c = false | [] => True end.

Lemma strchr_app c a r : Forall (fun x => x <> c /\ x <> NUL) a -> c <> NUL -> strchr c (a ++ c :: r) = Some (c :: r).
Proof.
  intros Ha Hc. induction Ha as [|x a [H1 H2] _ IH]; cbn [app strchr].
  - by rewrite decide_False, decide_True.
  - by rewrite !decide_False.
Qed.

Lemma move_line a r : no_newline a -> starts_line r -> move_to_next_line (a ++ NL :: r) = r.
Proof.
  intros Ha Hr. unfold move_to_next_line. rewrite strchr_app; [|eapply Forall_impl; [exact Ha|]; intros x [H1 H2]; split; [|done]; by intros ->|done].
  cbn [skip_while]. change (is_newline NL) with true. cbn iota. destruct r as [|c r]; [done|]. apply skip_while_stop. exact Hr.
Qed.

(** ** Numbers *)

(** Only letters, digits, signs and blanks are in a number. *)
Definition plain (c : ascii) : bool := bool_decide (digit_of c <> None) || bool_decide (c = "-"%char) || bool_decide (c = " "%char).

Lemma plain_facts c : plain c = true -> is_newline c = false /\ c <> NUL /\ c <> COMMA.
Proof. intros H. destruct c as [[] [] [] [] [] [] [] []]; (discriminate H || (split_and!; [reflexivity|discriminate|discriminate])). Qed.

Lemma number_plain n z : Forall (fun c => plain c = true) (number_text n z).
Proof.
  destruct (number_shape n z) as (b & ds & -> & _ & Hall & _). rewrite !Forall_app. split_and!.
  - apply Forall_forall. intros c Hc. by apply list_elem_of_In, repeat_spec in Hc as ->.
  - unfold sign. destruct (_ <? _); by repeat constructor.
  - eapply Forall_impl; [exact Hall|]. intros c (d & Ed & _). unfold plain. by rewrite Ed.
Qed.

Lemma skip_comma a r n : Forall (fun c => c <> COMMA /\ c <> NUL) a -> skip_commas_and_spaces (a ++ COMMA :: r) (S n) = skip_commas_and_spaces r n.
Proof. intros H. cbn [skip_commas_and_spaces]. by rewrite strchr_app. Qed.

Lemma plain_no_comma t : Forall (fun c => plain c = true) t -> Forall (fun c => c <> COMMA /\ c <> NUL) t.
Proof. intros H. eapply Forall_impl; [exact H|]. intros c Hc. by destruct (plain_facts c Hc) as (_ & H1 & H2). Qed.

Lemma skip_numbers {custom_t} idx (e : module_read_entry_t custom_t) off r :
  skip_commas_and_spaces (numbers_text idx e off ++ r) 6 = skip_commas_and_spaces (" "%char :: r) 0.
Proof.
  set (pre := [" "%char; "0"%char; "x"%char]).
  assert (Hp : forall a n z, Forall (fun c => plain c = true) a -> Forall (fun c => c <> COMMA /\ c <> NUL) (a ++ number_text n z)).
  { intros a n z Ha. apply plain_no_comma, Forall_app. split; [done|apply number_plain]. }
  unfold numbers_text. cbn [entry_items u_item x_item lits s2l String.list_ascii_of_string map app items_text].
  match goal with |- skip_commas_and_spaces ((number_text ?n1 ?z1 ++ ","%char :: " "%char :: number_text ?n2 ?z2 ++ ","%char :: " "%char :: _ :: _ ::
      number_text ?n3 ?z3 ++ ","%char :: " "%char :: _ :: _ :: number_text ?n4 ?z4 ++ ","%char :: " "%char :: _ :: _ ::
      number_text ?n5 ?z5 ++ ","%char :: " "%char :: number_text ?n6 ?z6 ++ _) ++ r) 6 = _ =>
    pose proof (Hp [] n1 z1 ltac:(done)) as H1; pose proof (Hp [" "%char] n2 z2 ltac:(by repeat constructor)) as H2;
    pose proof (Hp pre n3 z3 ltac:(by repeat constructor)) as H3; pose proof (Hp pre n4 z4 ltac:(by repeat constructor)) as H4;
    pose proof (Hp pre n5 z5 ltac:(by repeat constructor)) as H5; pose proof (Hp [" "%char] n6 z6 ltac:(by repeat constructor)) as H6;
    revert H1 H2 H3 H4 H5 H6;
    generalize (number_text n1 z1), (number_text n2 z2), (number_text n3 z3), (number_text n4 z4), (number_text n5 z5), (number_text n6 z6)
  end.
  intros t1 t2 t3 t4 t5 t6 H1 H2 H3 H4 H5 H6.
  match goal with |- skip_commas_and_spaces ?X _ = _ => replace X with
    (([] ++ t1) ++ COMMA :: ([" "%char] ++ t2) ++ COMMA :: (pre ++ t3) ++ COMMA :: (pre ++ t4) ++ COMMA :: (pre ++ t5) ++ COMMA :: ([" "%char] ++ t6) ++ COMMA :: " "%char :: r)
    by (unfold pre; cbn [app]; rewrite <- !app_assoc; cbn [app]; repeat (rewrite <- ?app_assoc; cbn [app]; f_equal)) end.
  by rewrite !skip_comma.
Qed.

(** ** Names *)

(** A path that [%s] prints whole and [%[...]] reads whole. *)
Record path_ok (p : text) : Prop := {
  po_head : match p with c :: _ => our_isspace c = false | [] => False end;
  po_line : no_newline p;
  po_short : (length p < MAXIMUM_PATH)%nat
}.

Lemma in_name c : is_newline c = false -> in_charset ("^"%char :: NL :: CR :: s2l "]") c = true.
Proof.
  intros H. unfold is_newline in H. apply bool_decide_eq_false in H. unfold in_charset. cbn [s2l String.list_ascii_of_string in_charset_helper negb andb].
  rewrite !decide_False by tauto. done.
Qed.

Lemma take_name p r : no_newline p -> take_while (in_charset ("^"%char :: NL :: CR :: s2l "]")) 0 0 (p ++ NL :: r) = (p, NL :: r).
Proof.
  intros Hp. assert (H : forall i, take_while (in_charset ("^"%char :: NL :: CR :: s2l "]")) 0 i (p ++ NL :: r) = (p, NL :: r)).
  { induction Hp as [|c p [Hc _] _ IH]; intros i; [reflexivity|]. cbn [app take_while]. rewrite in_name by done. cbn [Z.eqb orb andb]. by rewrite IH. }
  apply H.
Qed.

Lemma cstr_no_nul_app a r : no_newline a -> cstr (a ++ NL :: r) = a ++ NL :: cstr r.
Proof. intros Ha. rewrite cstr_app; [done|]. eapply Forall_impl; [exact Ha|]. by intros c [_ H]. Qed.

Lemma scan_name debug sp p r : path_ok p -> (sp = p ++ NL :: r \/ sp = " "%char :: p ++ NL :: r) -> our_vsscanf debug sp name_format = Ret (1, [SStr p]).
Proof.
  intros [Hh Hl _] Hsp. assert (Ec : cstr sp = p ++ NL :: cstr r \/ cstr sp = " "%char :: p ++ NL :: cstr r).
  { destruct Hsp as [->| ->]; [left|right]; [by apply cstr_no_nul_app|]. change (cstr (" "%char :: p ++ NL :: r)) with (" "%char :: cstr (p ++ NL :: r)). by rewrite cstr_no_nul_app. }
  unfold our_vsscanf. generalize dependent (cstr sp). intros s Hs.
  assert (Hskip : skip_while our_isspace s = p ++ NL :: cstr r).
  { destruct p as [|c p]; [done|]. destruct Hs as [->| ->]; cbn; by rewrite Hh. }
  assert (Hne : s <> []) by (destruct p; [done|by destruct Hs as [->| ->]]).
  destruct s as [|x s]; [done|]. change name_format with (" "%char :: "%"%char :: "["%char :: "^"%char :: NL :: CR :: s2l "]").
  cbn [length scan_loop]. change (our_isspace " ") with true. cbn iota. rewrite Hskip.
  destruct p as [|c p]; [done|]. set (pr := (c :: p) ++ NL :: cstr r) in *.
  assert (Hcv : convert (with_spec new_scan_spec (SPEC_CHARSET ("^"%char :: NL :: CR :: s2l "]")) 10 false) pr = Some ([SStr (c :: p)], NL :: cstr r)).
  { unfold convert. cbn [spec with_spec is_ignored new_scan_spec IoScan.width]. unfold pr. by rewrite take_name. }
  unfold pr in Hcv |- *. cbn [app] in *. change (our_isspace "%") with false. cbn iota. change (negb (bool_decide ("%"%char = "%"%char))) with false. cbn iota.
  change (get_spec debug ("["%char :: "^"%char :: NL :: CR :: s2l "]") new_scan_spec) with
    (@Ret (option (scan_spec * text)) (Some (with_spec new_scan_spec (SPEC_CHARSET ("^"%char :: NL :: CR :: s2l "]")) 10 false, s2l "]"))).
  cbn [mbind outcome_bind]. rewrite Hcv. reflexivity.
Qed.

(** ** Headers *)

Lemma read_header_text debug count r : 0 <= count < w32 -> read_header debug (header_text count ++ r) = Ret (Some (MODULE_FILE_VERSION, count)).
Proof.
  intros Hc. unfold read_header, dr_sscanf, header_text.
  change (our_vsscanf debug (items_text header_items [MODULE_FILE_VERSION; count] ++ r) count_format) with (@Ret (Z * list stored_t) (0, [])).
  cbn [mbind outcome_bind]. destruct header_items_format as [_ E]. rewrite <- E.
  rewrite (scan_items_text debug header_items [MODULE_FILE_VERSION; count] r (proj2 items_ok) eq_refl) by (vm_compute; repeat split).
  cbn [mbind outcome_bind length numbers header_items u_item lits s2l String.list_ascii_of_string map app zip_with stored_number nsize].
  rewrite (u32_small count Hc). reflexivity.
Qed.

Lemma no_newline_plain t : Forall (fun c => plain c = true) t -> no_newline t.
Proof. intros H. eapply Forall_impl; [exact H|]. intros c Hc. by destruct (plain_facts c Hc) as (H1 & H2 & _). Qed.

Lemma header_line count r : starts_line r -> move_to_next_line (header_text count ++ r) = r.
Proof.
  intros Hr. set (n1 := number_text {| zero := false; wide := []; nsize := NInt; kind := KUnsigned |}).
  assert (E : header_text count ++ r = (s2l "Module Table: version " ++ n1 MODULE_FILE_VERSION ++ s2l ", count " ++ n1 count) ++ NL :: r).
  { unfold header_text. cbn [header_items u_item lits s2l String.list_ascii_of_string map app items_text]. fold n1.
    repeat (rewrite <- ?app_assoc; cbn [app s2l String.list_ascii_of_string]; f_equal). }
  rewrite E. apply move_line; [|done]. unfold no_newline. rewrite !Forall_app. split_and!; [by repeat constructor|apply no_newline_plain, number_plain|by repeat constructor|apply no_newline_plain, number_plain].
Qed.

Lemma columns_line {W} (print_cb : option (W -> nat -> outcome (option text))) r : starts_line r -> move_to_next_line (columns print_cb ++ r) = r.
Proof.
  intros Hr. assert (E : columns print_cb ++ r = (columns_text ++ (match print_cb with Some _ => custom_text | None => [] end) ++ s2l ", path") ++ NL :: r).
  { unfold columns, columns_end. by rewrite <- !app_assoc. }
  rewrite E. apply move_line; [|done]. unfold no_newline. rewrite !Forall_app. split_and!; [by repeat constructor|destruct print_cb; by repeat constructor|by repeat constructor].
Qed.

(** ** Modules *)

Section Read.
Context (debug : bool) {W R S : Type} (print_cb : option (W -> nat -> outcome (option text))) (parse_cb : option (S -> text -> outcome (S * option (text * R)))).
Context {codec : CustomCodec print_cb parse_cb}.

(** An entry whose fields fit their columns. *)
Record entry_ok (e : module_read_entry_t W) : Prop := {
  eo_containing : 0 <= re_containing_id e < w32;
  eo_base : 0 <= re_base e < w64;
  eo_size : 0 <= re_size e < w64;
  eo_entry : 0 <= re_entry e < w64;
  eo_offset : match re_offset e with Some o => 0 <= o < w64 | None => False end;
  eo_path : path_ok (re_path e);
  eo_custom : custom_ok (re_custom e)
}.

Definition line (idx : Z) (e : module_read_entry_t W) : text := line_text (shown (re_custom e)) idx e (default 0 (re_offset e)).
(** What is read back of it. *)
Definition read_back (e : module_read_entry_t W) : module_read_entry_t R :=
  {| re_containing_id := re_containing_id e; re_base := re_base e; re_size := re_size e; re_entry := re_entry e; re_path := re_path e;
     re_custom := image (re_custom e); re_offset := re_offset e |}.

Lemma line_starts idx e t : starts_line (line idx e ++ t).
Proof using.
  unfold line, line_text, numbers_text. cbn [entry_items u_item app items_text]. rewrite <- !app_assoc. set (n := {| zero := false |}).
  pose proof (number_plain n idx) as Hp. destruct (number_shape n idx) as (b & ds & E & Hne & _).
  destruct (number_text n idx) as [|c l]; [|apply Forall_cons in Hp as [Hp _]; by apply (plain_facts c Hp)].
  destruct ds; [done|]. by destruct b, (sign n idx).
Qed.

Lemma read_line_numbers idx e t : 0 <= idx < w32 -> entry_ok e ->
  read_numbers debug 4 (numbers_text idx e (default 0 (re_offset e)) ++ t) =
  Ret (Some ((idx, (re_containing_id e, re_base e, u64 (re_base e + re_size e), re_entry e, re_offset e)), skip_while (fun c => bool_decide (c = " "%char \/ c = "009"%char)) t)).
Proof using.
  intros Hi He. pose proof (eo_offset e He) as Ho. destruct (re_offset e) as [off|] eqn:Eo; [|done]. change (default 0 (Some off)) with off.
  unfold read_numbers, dr_sscanf. change (4 =? 2) with false. change (4 =? 3) with false. cbn iota. destruct entry_items_format as [_ Ef]. rewrite <- Ef.
  assert (Hs : our_vsscanf debug (numbers_text idx e off ++ t) (scan_fmt entry_items) =
    Ret (Z.of_nat 6, zip_with stored_number (numbers entry_items) [idx; re_containing_id e; re_base e; re_base e + re_size e; re_entry e; off])).
  { unfold numbers_text. apply (scan_items_text debug entry_items); [apply items_ok|reflexivity|]. cbn [entry_items u_item x_item lits s2l String.list_ascii_of_string map app delimited]. by repeat split. }
  rewrite Hs. clear Hs.
  cbn [mbind outcome_bind numbers entry_items u_item x_item lits s2l String.list_ascii_of_string map app zip_with stored_number nsize].
  rewrite skip_numbers. cbn [skip_commas_and_spaces skip_while]. rewrite (bool_decide_eq_true_2 (" "%char = " "%char \/ _)) by by left.
  rewrite (u32_small idx Hi), (u32_small (re_containing_id e)) by apply (eo_containing e He).
  rewrite (u64_small (re_base e)), (u64_small (re_entry e)), (u64_small off) by (apply (eo_base e He) || apply (eo_entry e He) || done). reflexivity.
Qed.

Lemma path_cstr p : path_ok p -> cstr p = p.
Proof using. intros [_ Hl _]. apply cstr_no_NUL. eapply Forall_impl; [exact Hl|]. by intros c [_ H]. Qed.

(** A line is read, and the next line found. *)
Lemma read_line idx e st r : 0 <= idx < w32 -> entry_ok e ->
  exists buf, read_module debug parse_cb 4 idx st (line idx e ++ r) = Ret (st, Some (read_back e, buf)) /\ (starts_line r -> move_to_next_line buf = r).
Proof using.
  intros Hi He. pose proof (eo_path e He) as Hp. unfold line, line_text, path_text. rewrite (path_cstr _ Hp), <- !app_assoc.
  set (tail := (" "%char :: re_path e ++ [NL]) ++ r). assert (Et : tail = " "%char :: re_path e ++ NL :: r) by (unfold tail; cbn; by rewrite <- app_assoc).
  unfold read_module. change (4 =? 1) with false. cbn iota. rewrite (read_line_numbers idx e _ Hi He). cbn [mbind outcome_bind].
  rewrite Z.eqb_refl. cbn [negb].
  assert (Hskip : exists buf, skip_while (fun c => bool_decide (c = " "%char \/ c = "009"%char)) (shown (re_custom e) ++ tail) = shown (re_custom e) ++ buf /\
    (buf = re_path e ++ NL :: r \/ buf = " "%char :: re_path e ++ NL :: r)).
  { pose proof (shown_head (re_custom e) (eo_custom e He)) as Hh. destruct (shown (re_custom e)) as [|c t].
    - exists (re_path e ++ NL :: r). split; [|by left]. rewrite Et. cbn [app skip_while]. rewrite bool_decide_eq_true_2 by by left.
      pose proof (po_head _ Hp) as Hph. destruct (re_path e) as [|c p]; [done|]. apply skip_while_stop. apply bool_decide_eq_false. intros [->| ->]; discriminate Hph.
    - exists tail. split; [|by right]. apply skip_while_stop. apply bool_decide_eq_false. intros [->| ->]; discriminate Hh. }
  destruct Hskip as (buf & -> & Hbuf). rewrite (shown_parses (re_custom e) st buf (eo_custom e He)). cbn [mbind outcome_bind].
  unfold dr_sscanf. rewrite (scan_name debug buf (re_path e) r Hp Hbuf). cbn [mbind outcome_bind]. pose proof (po_short _ Hp) as Hs.
  rewrite (proj2 (Nat.leb_gt _ _)) by done. exists buf. split.
  - assert (Hsz : u64 (u64 (re_base e + re_size e) - re_base e) = re_size e).
    { unfold u64. rewrite Zminus_mod_idemp_l. replace (re_base e + re_size e - re_base e) with (re_size e) by lia. exact (u64_small _ (eo_size e He)). }
    by rewrite Hsz.
  - intros Hr. destruct Hbuf as [->| ->]; [apply move_line; [exact (po_line _ Hp)|exact Hr]|].
    apply (move_line (" "%char :: re_path e)); [|done]. constructor; [by split|apply (po_line _ Hp)].
Qed.

(** The lines of a list, numbered from [i]. *)
Fixpoint lines (i : Z) (l : list (module_read_entry_t W)) : text := match l with [] => [] | e :: l => line i e ++ lines (i + 1) l end.

Lemma lines_start i l r : starts_line r -> starts_line (lines i l ++ r).
Proof using. intros Hr. destruct l as [|e l]; [done|]. cbn [lines]. rewrite <- app_assoc. apply line_starts. Qed.

Lemma read_lines l want i st r : 0 <= i -> i + Z.of_nat (length l) <= w32 -> Forall entry_ok l -> (want = true -> starts_line r) ->
  exists buf, read_modules debug parse_cb 4 want i (length l) st (lines i l ++ r) = Ret (st, Some (map read_back l, buf)) /\ (want = true -> buf = r).
Proof using.
  intros Hi Hl Hok Hr. revert i Hi Hl. induction Hok as [|e l He Hok IH]; intros i Hi Hl; cbn [read_modules length lines map]; [by exists r|].
  cbn [length] in Hl. rewrite <- app_assoc. destruct (read_line i e st (lines (i + 1) l ++ r) ltac:(lia) He) as (buf & -> & Hb). cbn [mbind outcome_bind].
  destruct ((0 <? length l)%nat || want) eqn:Ew.
  - assert (Hst : starts_line (lines (i + 1) l ++ r)).
    { destruct l as [|e' l]; [|cbn [lines]; rewrite <- app_assoc; apply line_starts]. cbn in Ew |- *. by apply Hr. }
    rewrite (Hb Hst). destruct (IH (i + 1) ltac:(lia) ltac:(lia)) as (buf' & -> & Hb'). cbn [mbind outcome_bind]. exists buf'. by split.
  - apply orb_false_iff in Ew as [El ->]. apply Nat.ltb_ge in El. destruct l; [|cbn in El; lia]. cbn [read_modules mbind outcome_bind map length]. exists buf. by split.
Qed.

(** ** The whole list *)

Definition whole_text (l : list (module_read_entry_t W)) : text := (header_text (Z.of_nat (length l)) ++ columns print_cb) ++ lines 0 l.

Lemma read_text l want st r : Z.of_nat (length l) < w32 -> Forall entry_ok l -> (want = true \/ l = [] -> starts_line r) ->
  exists buf, drmodtrack_offline_read debug parse_cb None (Some (whole_text l ++ r)) want st = Ret (st, inr (map read_back l, buf)) /\ (want = true -> buf = r).
Proof using.
  intros Hl Hok Hr. unfold drmodtrack_offline_read, whole_text. rewrite <- !app_assoc, read_header_text by lia. cbn [mbind outcome_bind].
  assert (Hst : starts_line (lines 0 l ++ r)) by (destruct l; [apply Hr; by right|cbn [lines]; rewrite <- app_assoc; apply line_starts]).
  rewrite header_line by done. rewrite columns_line by done. rewrite Nat2Z.id.
  change (1 <? MODULE_FILE_VERSION) with true. change MODULE_FILE_VERSION with 4. cbn iota.
  destruct (read_lines l want 0 st r ltac:(lia) ltac:(lia) Hok ltac:(by intros ->; apply Hr; left)) as (buf & -> & Hb). exists buf. by split.
Qed.
End Read.
