(* ===== verification/ModListMain.v ===== *)
(** * The properties of the module list

    The dump of a table of modules and what is read of it, for any custom
    fields whose callbacks keep their promise ([CustomCodec]). *)
From stdpp Require Import gmap.
From S2P Require Export ModListSpec.
From S2P Require Import ModTrackSpec.

Section Dump.
Context {double : Type} (float : double -> ascii -> Z -> bool -> bool -> bool -> text * text) (debug : bool).
Context {W R S : Type} (print_cb : option (W -> nat -> outcome (option text))) (parse_cb : option (S -> text -> outcome (S * option (text * R)))).
Context {codec : CustomCodec print_cb parse_cb}.

Abbreviation dump_buf := (drmodtrack_dump_buf float debug print_cb).
Abbreviation offline_read := (drmodtrack_offline_read debug parse_cb).

(** The text of a table. *)
Definition table_line (e : module_entry_t W) : text := line print_cb parse_cb (Z.of_nat (id e)) (read_entry_of e).
Definition table_text (v : list (module_entry_t W)) : text := list_text print_cb table_line v.

Lemma line_nonempty i e : line print_cb parse_cb i e <> [].
Proof using. unfold line, line_text, path_text. intros H. by apply app_eq_nil in H as [_ [_ H]%app_eq_nil]. Qed.

Lemma entry_line i e : re_offset e <> None -> custom_ok (re_custom e) ->
  prints_text (module_read_entry_print float debug print_cb e i) (line print_cb parse_cb i e).
Proof using.
  intros Ho Hc. unfold line. destruct (re_offset e) as [off|] eqn:E; [|done]. change (default 0 (Some off)) with off.
  by apply entry_prints, shown_prints.
Qed.

Lemma table_line_prints e : custom_ok (custom e) -> prints_text (module_table_entry_print float debug print_cb e) (table_line e) /\ table_line e <> [].
Proof using. intros Hc. unfold table_line. split; [|exact (line_nonempty (Z.of_nat (id e)) (read_entry_of e))]. intros size. unfold module_table_entry_print.
  assert (Ho : re_offset (read_entry_of e) <> None) by discriminate.
  exact (entry_line (Z.of_nat (id e)) (read_entry_of e) Ho Hc size).
Qed.

(** The entries have the numbers of their places, and their fields fit. *)
Definition table_ok (v : list (module_entry_t W)) : Prop :=
  (forall p e, v !! p = Some e -> id e = p /\ entry_ok print_cb parse_cb (read_entry_of e)) /\ Z.of_nat (length v) < w32.

Lemma table_lines i v : (forall p e, v !! p = Some e -> id e = (i + p)%nat) -> concat (map table_line v) = lines print_cb parse_cb (Z.of_nat i) (map read_entry_of v).
Proof using.
  revert i. induction v as [|e v IH]; intros i H; [done|]. cbn [map concat lines]. rewrite (IH (Datatypes.S i)).
  - unfold table_line. rewrite (H 0%nat e eq_refl), Nat.add_0_r. f_equal. f_equal. lia.
  - intros p x E. rewrite (H (Datatypes.S p) x E). lia.
Qed.

Lemma table_whole v : table_ok v -> table_text v = whole_text print_cb parse_cb (map read_entry_of v).
Proof using.
  intros [H _]. unfold table_text, list_text, whole_text. rewrite (table_lines 0); [by rewrite length_map|]. intros p e E. by apply H.
Qed.

Lemma table_read v want st r : table_ok v -> (want = true \/ v = [] -> starts_line r) ->
  exists buf, offline_read None (Some (table_text v ++ r)) want st = Ret (st, inr (map (fun e => read_back print_cb parse_cb (read_entry_of e)) v, buf)) /\ (want = true -> buf = r).
Proof using.
  intros Hv Hr. rewrite (table_whole v Hv). destruct Hv as [Hv Hl].
  destruct (read_text debug print_cb parse_cb (map read_entry_of v) want st r) as (buf & E & Hb).
  - by rewrite length_map.
  - apply Forall_forall. intros e He. apply list_elem_of_In, in_map_iff in He as (x & <- & Hx). apply list_elem_of_In, list_elem_of_lookup in Hx as [p Hp]. by apply (Hv p).
  - intros [->|Hn]; apply Hr; [by left|right]. by destruct v.
  - rewrite map_map in E. by exists buf.
Qed.

(** What is dumped is the text of the table. *)
Lemma dumped_text v size t : table_ok v -> dump_buf v size = Ret (inr t) -> t = table_text v.
Proof using.
  intros [Hv _] Hd. unfold drmodtrack_dump_buf in Hd. rewrite (dump_result _ _ _ _ table_line) in Hd.
  - fold (table_text v) in Hd. destruct (size =? 0)%nat; [done|]. destruct (_ <? _)%nat; [congruence|]. by destruct (_ && _).
  - intros e He. apply table_line_prints. apply list_elem_of_lookup in He as [p Hp]. destruct (Hv p e Hp) as [_ []]. done.
Qed.

(** The loop of [drmodtrack_dump]. *)
Lemma dump_loop_result v size fuel : Forall (fun e => custom_ok (custom e)) v -> (0 < size)%nat ->
  (forall k, (size * 2 ^ k)%nat <> length (table_text v)) -> (length (table_text v) < fuel + size)%nat ->
  exists n, forall f, (n <= f)%nat -> dump_loop float debug print_cb f v size = Ret (inr (table_text v)).
Proof using.
  intros Hc. rewrite Forall_forall in Hc. revert size. induction fuel as [|fuel IH]; intros size Hs Hk Hf.
  all: assert (Hr : forall s, dump_buf v s = if (s =? 0)%nat then Ret (inl DRCOVLIB_ERROR_INVALID_PARAMETER)
    else if (length (table_text v) <? s)%nat then Ret (inr (table_text v))
    else if (length (table_text v) =? s)%nat && negb (bool_decide (v = [])) then Abort else Ret (inl DRCOVLIB_ERROR_BUF_TOO_SMALL))
    by (intros s; apply dump_result; intros e He; by apply table_line_prints, Hc).
  all: destruct (Nat.ltb_spec (length (table_text v)) size) as [Hl|Hl].
  1, 3: exists 1%nat; intros [|f] Hn; [lia|]; cbn [dump_loop]; rewrite Hr; rewrite (proj2 (Nat.eqb_neq _ _)) by lia; rewrite (proj2 (Nat.ltb_lt _ _) Hl); done.
  - lia.
  - destruct (IH (size * 2)%nat) as [n Hn]; [lia| |lia|].
    { intros k. specialize (Hk (Datatypes.S k)). cbn [Nat.pow] in Hk. lia. }
    exists (Datatypes.S n). intros [|f] Hf'; [lia|]. cbn [dump_loop]. rewrite Hr. rewrite (proj2 (Nat.eqb_neq size 0)) by lia. rewrite (proj2 (Nat.ltb_ge _ _) Hl).
    specialize (Hk 0%nat). rewrite Nat.pow_0_r, Nat.mul_1_r in Hk. rewrite (proj2 (Nat.eqb_neq (length (table_text v)) size)) by done. cbn [andb mbind outcome_bind]. apply Hn. lia.
Qed.
End Dump.

(** ** The properties *)

(** C38. What a buffer of [size] characters gets: the whole list if there is room
    for a NUL behind it; [DRCOVLIB_ERROR_BUF_TOO_SMALL] if it does not fit; but
    if the list fills the buffer exactly, the NUL is written behind the
    buffer. *)
Theorem dump_buf_result {double} float debug {W R S} print_cb (parse_cb : option (S -> text -> outcome (S * option (text * R)))) {codec : CustomCodec (W := W) print_cb parse_cb}
    (v : list (module_entry_t W)) size : Forall (fun e => custom_ok (custom e)) v ->
  let T := table_text print_cb parse_cb v in
  drmodtrack_dump_buf (double := double) float debug print_cb v size =
  if (size =? 0)%nat then Ret (inl DRCOVLIB_ERROR_INVALID_PARAMETER)
  else if (length T <? size)%nat then Ret (inr T)
  else if (length T =? size)%nat && negb (bool_decide (v = [])) then Abort
  else Ret (inl DRCOVLIB_ERROR_BUF_TOO_SMALL).
Proof. intros Hc. apply dump_result. intros e He. apply table_line_prints. exact (proj1 (Forall_forall _ _) Hc e He). Qed.


(** [drmodtrack_dump] ends: however long the list, its buffer is doubled until
    the list fits, and the file gets the list, unless one of the sizes tried is
    exactly that of the list. *)
Theorem dump_ends {double} float debug {W R S} print_cb (parse_cb : option (S -> text -> outcome (S * option (text * R)))) {codec : CustomCodec (W := W) print_cb parse_cb}
    (v : list (module_entry_t W)) : Forall (fun e => custom_ok (custom e)) v ->
  (forall k, ((200 + length v * (MAXIMUM_PATH + 40)) * 2 ^ k)%nat <> length (table_text print_cb parse_cb v)) ->
  exists n, forall fuel, (n <= fuel)%nat -> drmodtrack_dump (double := double) float debug print_cb fuel v = Ret (inr (table_text print_cb parse_cb v)).
Proof.
  intros Hc Hk. unfold drmodtrack_dump. apply (dump_loop_result _ _ _ _ _ _ (length (table_text print_cb parse_cb v)) Hc); [lia|done|lia].
Qed.

(** ** Examples and witnesses *)

Definition example_table : list (module_entry_t unit) := match run_events no_cb false drmodtrack_init history with Ret s => vector s | _ => [] end.
Definition no_print : option (unit -> nat -> outcome (option text)) := None.
Definition no_parse : option (unit -> text -> outcome (unit * option (text * unit))) := None.

(** The list has 405 characters: a buffer of one more holds it, one less is too
    small, and the NUL is written behind a buffer of that size. *)
Example exact_buffer : drmodtrack_dump_buf no_float false no_print example_table 405 = Abort /\
  drmodtrack_dump_buf no_float false no_print example_table 404 = Ret (inl DRCOVLIB_ERROR_BUF_TOO_SMALL).
Proof. vm_compute. split; reflexivity. Qed.

(** A list of the first version ends in a store through a pointer that is not
    set. *)
Example first_version : drmodtrack_offline_read false no_parse None (Some (s2l "Module Table: 1" ++ [NL] ++ s2l " 0, 4096, /lib/libc.so" ++ [NL])) false tt = Abort.
Proof. vm_compute. reflexivity. Qed.

Lemma example_ok : table_ok no_print no_parse example_table.
Proof.
  assert (Hp : forall p, p = s2l "/lib/libgap.so" \/ p = s2l "/lib/libone.so" -> path_ok p).
  { intros p [->| ->]; (constructor; [reflexivity|repeat constructor; discriminate|apply Nat.ltb_lt; reflexivity]). }
  split; [|reflexivity]. intros p e E.
  assert (Hl : (p < 3)%nat) by (apply lookup_lt_Some in E; exact E).
  do 3 (destruct p as [|p]; [injection E as <-; split; [reflexivity|]; constructor;
    [vm_compute; split; congruence.. |apply Hp; vm_compute; auto|exact I]|]). lia.
Qed.

Lemma dump_buf_result_witness : drmodtrack_dump_buf no_float false no_print example_table 405 = Abort.
Proof. rewrite (dump_buf_result no_float false no_print no_parse example_table 405); [vm_compute; reflexivity|by repeat constructor]. Defined.


Lemma dump_ends_witness : exists n, forall fuel, (n <= fuel)%nat ->
  drmodtrack_dump no_float false no_print fuel example_table = Ret (inr (table_text no_print no_parse example_table)).
Proof.
  assert (Hl : length (table_text no_print no_parse example_table) = 405%nat) by (vm_compute; reflexivity).
  apply (dump_ends no_float false no_print no_parse example_table); [by repeat constructor|].
  intros k. rewrite Hl. change (length example_table) with 3%nat. change MAXIMUM_PATH with 512%nat. pose proof (Nat.pow_nonzero 2 k ltac:(lia)). lia.
Defined.
