(* ===== verification/ModuleMapper.v ===== *)
(** * From the tracer's module list to the mapped modules

    [src/Simulator/clients/drcachesim/tracer/]: the custom field that the tracer
    puts into the module list ([offline_instru_t] in instru_offline.cpp), the
    parsing of it, the mapping of the modules and the search for a traced
    address ([module_mapper_t] in raw2trace.cpp).

    The memory of the traced application is a function; a pointer into the list
    in memory is the text it points to.  The mapping of an executable file
    ([dr_map_executable_file]) and the callbacks of a user of the tracer are
    parameters; [None] is NULL.  [Abort] is the use of a NULL pointer, of a field
    that is not set, or of an element outside a vector.  Warnings, and the
    unmapping in the destructor, are left out. *)
From stdpp Require Import gmap.
From S2P Require Export ModList.

Definition CUSTOM_MODULE_VERSION : Z := 1.

(** [strstr (t, p) == t], and [strstr (t, p) != NULL]. *)
Fixpoint is_prefix (p t : text) : bool :=
  match p, t with
  | [], _ => true
  | x :: p, y :: t => bool_decide (x = y) && is_prefix p t
  | _, [] => false
  end.
Fixpoint contains (p t : text) : bool := is_prefix p t || match t with [] => false | _ :: t => contains p t end.

Section Mapper.
Context {double : Type} (our_vsnprintf_float : double -> ascii -> Z -> bool -> bool -> bool -> text * text) (debug : bool).
Context (memory : Z -> ascii).
Context {user_t : Type}.
Context (user_load : option (module_data_t -> option user_t))
        (user_print : option (option user_t -> nat -> outcome (option text)))
        (user_parse : option (text -> option (text * option user_t))).

(** ** The tracer's field *)

(** [offline_instru_t::custom_module_data_t]. *)
Record instru_custom_t := { c_base : Z; c_size : Z; c_user : option user_t }.

Definition vdso_name : text := s2l "[vdso]".

(** The names of modules whose contents go into the list. *)
Definition has_contents (module : module_data_t) : bool :=
  let name := dr_module_preferred_name module in
  match name with Some n => is_prefix (s2l "linux-gate.so") (cstr n) || is_prefix (s2l "linux-vdso.so") (cstr n) | None => false end
  || match file_name module, name with Some _, Some n => bool_decide (cstr n = vdso_name) | _, _ => false end.

Definition load_custom_module_data (module : module_data_t) : option instru_custom_t :=
  let user_data := match user_load with Some f => f module | None => None end in
  if has_contents module then Some {| c_base := md_start module; c_size := u64 (md_end module - md_start module); c_user := user_data |}
  else match user_data with Some _ => Some {| c_base := 0; c_size := 0; c_user := user_data |} | None => None end.

Definition bytes_at (a : Z) (n : nat) : text := map (fun i => memory (a + Z.of_nat i)) (seq 0 n).

Definition print_custom_module_data (custom : option instru_custom_t) (max_len : nat) : outcome (option text) :=
  match custom with
  | None => pr our_vsnprintf_float debug max_len (s2l "v#%d,0,") [VInt CUSTOM_MODULE_VERSION]
  | Some c =>
      t ← pr our_vsnprintf_float debug max_len (s2l "v#%d,%zu,") [VInt CUSTOM_MODULE_VERSION; VLong (c_size c)];
      match t with
      | None => Ret None
      | Some t =>
          let len := Z.of_nat (length t) in
          if Z.of_nat max_len <? u64 (len + c_size c) then Ret None
          else if Z.of_nat max_len <? len + c_size c then Abort
          else
            let t := t ++ bytes_at (c_base c) (Z.to_nat (c_size c)) in
            match user_print with
            | None => Ret (Some t)
            | Some f => r ← f (c_user c) (max_len - length t)%nat; Ret (match r with Some t' => Some (t ++ t') | None => None end)
            end
      end
  end.

(** The loop of the tracer's end: what goes to the module file. *)
Definition write_module_file (fuel : nat) (v : list (module_entry_t (option instru_custom_t))) : outcome (drcovlib_status_t + text) :=
  dump_loop our_vsnprintf_float debug (Some print_custom_module_data) fuel v (Z.to_nat 8192).

(** ** Parsing it *)

(** [module_mapper_t::custom_module_data_t]; [None]: not set. *)
Record mapper_custom_t := { contents_size : Z; contents : option text; user : option (option user_t) }.

Definition version_format : text := s2l "v#%d,".
Definition size_format : text := s2l "%zu,".

(** The version of the field, if it is ours. *)
Definition read_version (src : text) : outcome (option text) :=
  match strchr COMMA src with
  | Some (_ :: buf) =>
      '(n, vs) ← dr_sscanf debug src version_format;
      Ret (match vs with [SInt v] => if v =? CUSTOM_MODULE_VERSION then Some buf else None | _ => None end)
  | _ => Ret None
  end.

(** What is read, and the rest; [has_custom_data_global] is the state. *)
Definition parse_custom_module_data (has_custom_data_global : bool) (src : text) : outcome (bool * option (text * option mapper_custom_t)) :=
  v ← read_version src;
  match v with
  | None =>
      match user_parse with
      | Some f =>
          match f src with
          | Some (buf, u) => Ret (false, Some (buf, Some {| contents_size := 0; contents := None; user := Some u |}))
          | None => Abort
          end
      | None => Ret (false, if is_prefix (s2l "/") src || is_prefix vdso_name src then Some (src, None) else None)
      end
  | Some buf =>
      match strchr COMMA buf with
      | Some (_ :: rest) =>
          '(n, vs) ← dr_sscanf debug buf size_format;
          match vs with
          | [SLong sz] =>
              let n := Z.to_nat sz in
              if (length rest <? n)%nat then Abort
              else
                let contents := if sz =? 0 then None else Some (take n rest) in
                let buf := drop n rest in
                match user_parse with
                | None => Ret (has_custom_data_global, Some (buf, Some {| contents_size := sz; contents := contents; user := None |}))
                | Some f =>
                    match f buf with
                    | Some (buf, u) => Ret (has_custom_data_global, Some (buf, Some {| contents_size := sz; contents := contents; user := Some u |}))
                    | None => Ret (has_custom_data_global, None)
                    end
                end
          | _ => Ret (has_custom_data_global, None)
          end
      | _ => Ret (has_custom_data_global, None)
      end
  end.

(** ** The mapper *)

Abbreviation info_t := (drmodtrack_info_t (option mapper_custom_t)).

(** An address in this process: of a mapped file, or inside the list. *)
Inductive address := ANull | AMap (a : Z) | AContents (t : text) (offset : Z).
Definition address_add (a : address) (n : Z) : address :=
  match a with ANull => ANull | AMap a => AMap (u64 (a + n)) | AContents t i => AContents t (i + n) end.

Record module_t := { m_path : text; orig_base : Z; map_base : address; m_size : Z; is_external : bool }.

Inductive mapper_error := Failed_parse | Failed_query | Failed_process (e : text) | Failed_map (path : text) | No_list | Not_found.

Record module_mapper_t := {
  modlist : list info_t;
  modvec : list module_t;
  has_custom_data : bool;
  last_orig_base : Z;
  last_map_size : Z;
  last_map_base : address;
  last_error : option mapper_error
}.
Definition new_mapper (l : list info_t) (custom : bool) (e : option mapper_error) : module_mapper_t :=
  {| modlist := l; modvec := []; has_custom_data := custom; last_orig_base := 0; last_map_size := 0; last_map_base := ANull; last_error := e |}.

(** The callback that processes a module may change its path. *)
Context (user_process : option (info_t -> option user_t -> info_t * text)).

(** The loop that queries the modules, [i] being queried.  The entries behind
    an error, which [resize] made and nothing reads, are left out. *)
Fixpoint query_modules (mods : list (module_read_entry_t (option mapper_custom_t))) (i n : nat) : outcome (list info_t * option mapper_error) :=
  match n with
  | O => Ret ([], None)
  | S n =>
      match drmodtrack_offline_lookup mods i 64 with
      | inl _ => Ret ([], Some Failed_query)
      | inr info =>
          '(info, e) ← (match user_process with
                        | None => Ret (info, [])
                        | Some f =>
                            match info_custom info with
                            | Some (Some {| user := Some u |}) => Ret (f info u)
                            | _ => Abort
                            end
                        end);
          match e with
          | [] => '(l, err) ← query_modules mods (S i) n; Ret (info :: l, err)
          | _ => Ret ([info], Some (Failed_process e))
          end
      end
  end.

(** The constructor: [do_module_parsing] on the list in memory. *)
Definition create (modmap : text) : outcome module_mapper_t :=
  '(custom, r) ← drmodtrack_offline_read debug (Some parse_custom_module_data) None (Some modmap) false true;
  match r with
  | inl _ => Ret (new_mapper [] custom (Some Failed_parse))
  | inr (mods, _) => '(l, e) ← query_modules mods 0 (length mods); Ret (new_mapper l custom e)
  end.

Context (dr_map_executable_file : text -> option (Z * Z)).

(** The module that is appended for [info]; [inl] for an error. *)
Definition map_module (custom : bool) (vec : list module_t) (info : info_t) : outcome (mapper_error + module_t) :=
  let path := info_path info in
  let plain start := inr {| m_path := path; orig_base := start; map_base := ANull; m_size := 0; is_external := false |} in
  let stored := match info_custom info with Some (Some c) => if 0 <? contents_size c then Some c else None | _ => None end in
  match stored with
  | Some c =>
      t ← or_abort (contents c);
      Ret (inr {| m_path := path; orig_base := info_start info; map_base := AContents t 0; m_size := contents_size c; is_external := true |})
  | None =>
      if bool_decide (path = unknown_path) || (negb custom && bool_decide (path = vdso_name)) then Ret (plain (info_start info))
      else if negb (bool_decide (Some (containing_index info) = info_index info)) then
        m ← or_abort (vec !! Z.to_nat (containing_index info));
        Ret (inr {| m_path := path; orig_base := orig_base m; map_base := map_base m; m_size := 0; is_external := false |})
      else
        match dr_map_executable_file path with
        | None => Ret (if contains (s2l "dynamorio") path then plain (info_start info) else inl (Failed_map path))
        | Some (b, n) => Ret (inr {| m_path := path; orig_base := info_start info; map_base := AMap b; m_size := n; is_external := false |})
        end
  end.

Fixpoint map_modules (custom : bool) (l : list info_t) (vec : list module_t) : outcome (list module_t * option mapper_error) :=
  match l with
  | [] => Ret (vec, None)
  | info :: l =>
      r ← map_module custom vec info;
      match r with
      | inl e => Ret (vec, Some e)
      | inr m => map_modules custom l (vec ++ [m])
      end
  end.

Definition read_and_map_modules (s : module_mapper_t) : outcome module_mapper_t :=
  match last_error s with
  | Some _ => Ret s
  | None =>
      '(vec, e) ← map_modules (has_custom_data s) (modlist s) (modvec s);
      Ret {| modlist := modlist s; modvec := vec; has_custom_data := has_custom_data s; last_orig_base := last_orig_base s;
             last_map_size := last_map_size s; last_map_base := last_map_base s; last_error := e |}
  end.

Definition get_loaded_modules (s : module_mapper_t) : outcome (module_mapper_t * list module_t) :=
  s ← (match last_error s, modvec s with None, [] => read_and_map_modules s | _, _ => Ret s end);
  Ret (s, modvec s).

(** ** Finding an address *)

Definition in_range (a b n : Z) : bool := (b <=? a) && (a <? u64 (b + n)).

Fixpoint find_module (vec : list module_t) (a : Z) : option module_t :=
  match vec with [] => None | m :: vec => if in_range a (orig_base m) (m_size m) then Some m else find_module vec a end.

Definition with_error (s : module_mapper_t) (e : mapper_error) : module_mapper_t :=
  {| modlist := modlist s; modvec := modvec s; has_custom_data := has_custom_data s; last_orig_base := last_orig_base s;
     last_map_size := last_map_size s; last_map_base := last_map_base s; last_error := Some e |}.

Definition find_mapped_trace_address (s : module_mapper_t) (trace_address : Z) : module_mapper_t * address :=
  match modlist s with
  | [] => (with_error s No_list, ANull)
  | _ =>
      if in_range trace_address (last_orig_base s) (last_map_size s) then (s, address_add (last_map_base s) (trace_address - last_orig_base s))
      else
        match find_module (modvec s) trace_address with
        | Some m =>
            ({| modlist := modlist s; modvec := modvec s; has_custom_data := has_custom_data s; last_orig_base := orig_base m;
                last_map_size := m_size m; last_map_base := map_base m; last_error := last_error s |},
             address_add (map_base m) (trace_address - orig_base m))
        | None => (with_error s Not_found, ANull)
        end
  end.
End Mapper.
Arguments instru_custom_t : clear implicits.
Arguments mapper_custom_t : clear implicits.
Arguments module_mapper_t : clear implicits.
