(* ===== verification/ModuleCodec.v ===== *)
(** * The tracer's field is read back

    [offline_instru_t::print_custom_module_data] and
    [module_mapper_t::parse_custom_module_data] keep the promise that the module
    list asks of its callbacks, if the callbacks of the tracer's user do. *)
From stdpp Require Import gmap.
From S2P Require Export ModuleMapper ModListMain.

(** What the callbacks of the user promise each other. *)
Class UserCodec {U} (user_print : option (option U -> nat -> outcome (option text))) (user_parse : option (text -> option (text * option U))) := {
  user_ok : option U -> Prop;
  user_shown : option U -> text;
  user_image : option U -> option U;
  user_prints u : user_ok u -> match user_print with Some f => prints_text (f u) (user_shown u) | None => user_shown u = [] end;
  user_parses u rest : user_ok u -> match user_parse with Some f => f (user_shown u ++ rest) = Some (rest, user_image u) | None => user_shown u = [] end
}.
#[export] Instance no_user {U} : UserCodec (@None (option U -> nat -> outcome (option text))) (@None (text -> option (text * option U))).
Proof. refine {| user_ok := fun _ => True; user_shown := fun _ => []; user_image := fun _ => None |}; done. Defined.

Lemma length_bytes_at memory a n : length (bytes_at memory a n) = n.
Proof. unfold bytes_at. by rewrite length_map, length_seq. Qed.

(** ** The size *)

Definition lu : number := {| zero := false; wide := []; nsize := NLong; kind := KUnsigned |}.
Definition d_item : item := Num {| zero := false; wide := []; nsize := NInt; kind := KDec |}.
Definition field_head (sz : Z) : text := s2l "v#1," ++ number_text lu sz ++ [COMMA].
Definition null_field : text := s2l "v#1,0,".

Section Codec.
Context {double : Type} (float : double -> ascii -> Z -> bool -> bool -> bool -> text * text) (debug : bool) (memory : Z -> ascii).
Context {U : Type} (user_print : option (option U -> nat -> outcome (option text))) (user_parse : option (text -> option (text * option U))).

(** [z] is [l]. *)
Lemma conversion_z max out c (ap : list (varg double)) old : conversion double float debug max out ("z"%char :: "u"%char :: c) ap old = conversion double float debug max out ("l"%char :: "u"%char :: c) ap old.
Proof using.
  assert (Hf : forall x, x = "z"%char \/ x = "l"%char -> flags (x :: "u"%char :: c) = (set_filler new_spec " " false, x :: "u"%char :: c)) by (by intros x [->| ->]).
  assert (Hw : forall x f, x = "z"%char \/ x = "l"%char -> IoPrint.width double f (x :: "u"%char :: c) ap = Ret (set_width f (minus_flag f) 0, x :: "u"%char :: c, ap)) by (by intros x f [->| ->]).
  assert (Hp : forall x f, x = "z"%char \/ x = "l"%char -> precision double f (x :: "u"%char :: c) ap = Ret (f, x :: "u"%char :: c, ap)) by (by intros x f [->| ->]).
  unfold conversion. rewrite !Hf, !Hw by tauto. cbn [mbind outcome_bind]. rewrite !Hp by tauto. cbn [mbind outcome_bind]. reflexivity.
Qed.

Lemma emits_size sz : emits double float debug (s2l "v#%d,%zu,") [VInt CUSTOM_MODULE_VERSION; VLong sz] (field_head sz).
Proof using.
  assert (Hz : emits double float debug (s2l "%zu") [VLong sz] (number_text lu sz)).
  { apply (emits_conversion double float debug (s2l "zu") (VLong sz)). intros max out c ap old Hl. exists (At []).
    cbn [s2l String.list_ascii_of_string app]. rewrite conversion_z.
    exact (conversion_number double float debug max out lu sz c ap old ltac:(by repeat constructor) Hl). }
  exact (emits_app double float debug (s2l "v#%d,") [VInt CUSTOM_MODULE_VERSION] (s2l "v#1,") _ _ _
    (emits_items double float debug (lits "v#" ++ [d_item; Lit COMMA]) [1] ltac:(repeat constructor; done) eq_refl)
    (emits_app double float debug (s2l "%zu") [VLong sz] _ [COMMA] [] [COMMA] Hz (emits_lit _ _ _ COMMA ltac:(done)))).
Qed.

Lemma emits_null : emits double float debug (s2l "v#%d,0,") [VInt CUSTOM_MODULE_VERSION] null_field.
Proof using. exact (emits_items double float debug (lits "v#" ++ [d_item] ++ lits ",0,") [1] ltac:(repeat constructor; done) eq_refl). Qed.

Lemma scan_size sz r : 0 <= sz < w64 -> our_vsscanf debug (number_text lu sz ++ COMMA :: r) size_format = Ret (1, [SLong sz]).
Proof using.
  intros Hs. assert (E : forall s, our_vsscanf debug s size_format = our_vsscanf debug s (scan_fmt [Num lu; Lit COMMA])).
  { intros s. unfold our_vsscanf. destruct (cstr s) as [|c t]; [done|]. cbn [length scan_loop size_format s2l String.list_ascii_of_string]. change (our_isspace "%") with false.
    cbn iota. unfold negb, bool_decide. by destruct debug. }
  rewrite E. pose proof (scan_items_text debug [Num lu; Lit COMMA] [sz] r ltac:(repeat constructor; done) eq_refl ltac:(vm_compute; repeat split)) as Hsc.
  cbn [items_text] in Hsc. rewrite <- app_assoc in Hsc. cbn [app] in Hsc. rewrite Hsc. cbn [numbers zip_with stored_number nsize lu length]. by rewrite u64_small.
Qed.

Lemma scan_version r : our_vsscanf debug (s2l "v#1," ++ r) version_format = Ret (1, [SInt 1]).
Proof using. reflexivity. Qed.

(** ** The promise *)

Context {user_codec : UserCodec user_print user_parse}.
Abbreviation print_field := (print_custom_module_data float debug memory user_print).
Abbreviation parse_field := (parse_custom_module_data debug user_parse).

(** A module without a field of its own must not meet a parser of the user's. *)
Definition field_ok (c : option (option (instru_custom_t U))) : Prop :=
  match c with
  | Some None => user_parse = None
  | Some (Some ic) => 0 <= c_size ic < w64 / 2 /\ user_ok (c_user ic)
  | None => False
  end.
Definition field_text (c : option (option (instru_custom_t U))) : text :=
  match c with
  | Some (Some ic) => field_head (c_size ic) ++ bytes_at memory (c_base ic) (Z.to_nat (c_size ic)) ++ user_shown (c_user ic)
  | _ => null_field
  end.
Definition field_image (c : option (option (instru_custom_t U))) : option (option (mapper_custom_t U)) :=
  match c with
  | Some (Some ic) =>
      Some (Some {| contents_size := c_size ic; contents := if c_size ic =? 0 then None else Some (bytes_at memory (c_base ic) (Z.to_nat (c_size ic)));
                    user := match user_parse with Some _ => Some (user_image (c_user ic)) | None => None end |})
  | _ => Some (Some {| contents_size := 0; contents := None; user := None |})
  end.

Lemma field_head_short sz : (length (field_head sz) <= 40)%nat.
Proof using.
  assert (Hd : (length (digits lu sz) <= 22)%nat).
  { unfold digits. set (k := match nsize lu with NLongLong => 43%nat | _ => 22%nat end). assert (Hk : k = 22%nat) by done.
    destruct (trim_zeros_app 1 (pad_digits k (num_base lu) (Z.abs (value lu sz)) false)) as (zs & _ & E).
    apply (f_equal length) in E. rewrite length_pad_digits, length_app in E. lia. }
  assert (Hsg : (length (sign lu sz) <= 1)%nat) by (unfold sign; destruct (_ <? _); cbn; lia).
  assert (Hf : fills lu sz = []) by done.
  unfold field_head, number_text. rewrite Hf. destruct (zero_fill lu); rewrite !length_app; cbn [s2l String.list_ascii_of_string length]; lia.
Qed.

Lemma size_prints sz : prints_text (fun n => pr float debug n (s2l "v#%d,%zu,") [VInt CUSTOM_MODULE_VERSION; VLong sz]) (field_head sz).
Proof using. exact (pr_prints float debug _ _ _ (emits_size sz) ltac:(done)). Qed.
Lemma null_prints : prints_text (fun n => pr float debug n (s2l "v#%d,0,") [VInt CUSTOM_MODULE_VERSION]) null_field.
Proof using. exact (pr_prints float debug _ _ _ emits_null ltac:(done)). Qed.

Lemma field_prints c : field_ok c -> prints_text (print_custom (Some print_field) c) (field_text c).
Proof using.
  destruct c as [[ic|]|]; [|intros _; exact null_prints|done].
  intros [Hs Hu] n. unfold print_custom, print_custom_module_data. cbn [or_abort mbind outcome_bind]. change (w64 / 2) with 9223372036854775808 in Hs.
  rewrite (size_prints (c_size ic)). cbn [mbind outcome_bind field_text].
  set (t := field_head (c_size ic)). set (bs := bytes_at _ _ _). assert (Hbs : length bs = Z.to_nat (c_size ic)) by apply length_bytes_at. rewrite !length_app, Hbs.
  pose proof (user_prints (c_user ic) Hu) as Hp.
  destruct (Nat.leb_spec (length t) n) as [Ht|Ht]; [|by rewrite (proj2 (Nat.leb_gt _ _)) by lia].
  pose proof (field_head_short (c_size ic)) as Htl. fold t in Htl.
  rewrite u64_small by lia. destruct (Z.ltb_spec (Z.of_nat n) (Z.of_nat (length t) + c_size ic)) as [Hn|Hn]; [by rewrite (proj2 (Nat.leb_gt _ _)) by lia|].
  destruct user_print as [f|] eqn:Ef.
  - rewrite Hp. cbn [mbind outcome_bind]. rewrite length_app, Hbs.
    destruct (Nat.leb_spec (length (user_shown (c_user ic))) (n - (length t + Z.to_nat (c_size ic)))) as [Hl|Hl].
    + by rewrite (proj2 (Nat.leb_le _ _)), <- app_assoc by lia.
    + by rewrite (proj2 (Nat.leb_gt _ _)) by lia.
  - rewrite Hp. cbn [length]. by rewrite (proj2 (Nat.leb_le _ _)), app_nil_r by lia.
Qed.

Lemma read_version_ok r : read_version debug (s2l "v#1," ++ r) = Ret (Some r).
Proof using. unfold read_version, dr_sscanf. rewrite scan_version. reflexivity. Qed.

Lemma parse_field_ok st sz bs r : 0 <= sz < w64 -> length bs = Z.to_nat sz ->
  parse_field st (field_head sz ++ bs ++ r) =
  match user_parse with
  | None => Ret (st, Some (r, Some {| contents_size := sz; contents := if sz =? 0 then None else Some bs; user := None |}))
  | Some f =>
      match f r with
      | Some (buf, u) => Ret (st, Some (buf, Some {| contents_size := sz; contents := if sz =? 0 then None else Some bs; user := Some u |}))
      | None => Ret (st, None)
      end
  end.
Proof using.
  intros Hs Hb. unfold parse_custom_module_data, field_head. rewrite <- !app_assoc, read_version_ok. cbn [mbind outcome_bind app].
  rewrite strchr_app; [|by apply plain_no_comma, number_plain|done]. unfold dr_sscanf. rewrite scan_size by done. cbn [mbind outcome_bind].
  rewrite length_app, (proj2 (Nat.ltb_ge _ _)) by lia. rewrite <- Hb, take_app_length, drop_app_length. reflexivity.
Qed.

Lemma field_parses c st rest : field_ok c -> parse_custom (Some parse_field) st (field_text c ++ rest) = Ret (st, Some (rest, field_image c)).
Proof using.
  destruct c as [[ic|]|]; [| |done].
  - intros [Hs Hu]. change (w64 / 2) with 9223372036854775808 in Hs. cbn [field_text]. rewrite <- !app_assoc. unfold parse_custom.
    rewrite parse_field_ok by (rewrite ?length_bytes_at; lia). pose proof (user_parses (c_user ic) rest Hu) as Hp. unfold field_image.
    destruct user_parse as [f|]; rewrite Hp; reflexivity.
  - intros Hn. unfold parse_custom. pose proof (parse_field_ok st 0 [] rest ltac:(lia) eq_refl) as E. cbn [app] in E.
    change (field_head 0) with null_field in E. cbn [field_text]. rewrite E. unfold field_image. cbn in Hn. destruct user_parse; [done|]. reflexivity.
Qed.

#[export] Instance tracer_codec : CustomCodec (Some print_field) (Some parse_field).
Proof using memory user_codec.
  refine {| custom_ok := field_ok; shown := field_text; image := field_image; shown_prints := field_prints; shown_parses := fun c st rest => field_parses c st rest |}.
  by intros [[ic|]|] _.
Defined.
End Codec.
