(* ===== verification/ModuleSpec.v ===== *)
(** * Traced addresses find their modules

    The table that the tracer kept, the list it wrote, and what the converter
    makes of it: the index and the base of a module that a lookup gave while
    tracing mean the same module afterwards. *)
From stdpp Require Import gmap.
From S2P Require Export ModTrackSpec ModuleCodec.

(** ** Histories leave tables that can be written *)

Section Table.
Context {W R S : Type} (print_cb : option (W -> nat -> outcome (option text))) (parse_cb : option (S -> text -> outcome (S * option (text * R)))).
Context {codec : CustomCodec print_cb parse_cb} (load_cb : option (module_data_t -> W)).

Definition custom_of (d : module_data_t) : option W := match load_cb with Some f => Some (f d) | None => None end.

(** A module whose numbers are those of a 64-bit machine, and whose path is a
    line. *)
Record printable (d : module_data_t) : Prop := {
  pd_entry : 0 <= entry_point d < w64;
  pd_segments : Forall (fun s => 0 <= seg_start s /\ seg_end s < w64 /\ 0 <= seg_offset s < w64) (segments d);
  pd_path : path_ok (path_of d);
  pd_custom : custom_ok (custom_of d)
}.

Lemma related_entry gs s a p e : related load_cb gs s a -> vector s !! p = Some e ->
  exists g sg n, g ∈ gs /\ sg ∈ segments (g_data g) /\ e = entry_of n p g sg /\ g_custom g = custom_of (g_data g) /\
    (n <= p)%nat /\ (exists sg0, segments (g_data g) !! 0%nat = Some sg0 /\ vector s !! n = Some (entry_of n n g sg0)) /\ (n = p -> segments (g_data g) !! 0%nat = Some sg).
Proof using.
  intros Hr E. pose proof E as E0. rewrite (r_vector _ _ _ _ Hr) in E. apply build_entry in E as (gs1 & g & gs2 & k & sg & Eg & Ek & Hp & ->). cbn [Nat.add] in *.
  assert (Hg : g ∈ gs) by (subst gs; apply elem_of_app; right; by left).
  exists g, sg, (length (build 0 gs1)). split; [done|]. split; [by eapply list_elem_of_lookup_2|]. split; [done|].
  split; [exact (proj1 (Forall_forall _ _) (r_custom _ _ _ _ Hr) g Hg)|]. split; [lia|]. split.
  - destruct (segments (g_data g)) as [|sg0 segs] eqn:Es; [done|]. exists sg0. split; [done|].
    rewrite (r_vector _ _ _ _ Hr), Eg. pose proof (build_member 0 gs1 g gs2 0 sg0 ltac:(by rewrite Es)) as Em. rewrite Nat.add_0_r in Em. exact Em.
  - intros Hn. assert (k = 0)%nat as -> by lia. done.
Qed.

Lemma related_table_ok gs s a : related load_cb gs s a -> Forall printable (seen a) -> Z.of_nat (length (vector s)) < w32 -> table_ok print_cb parse_cb (vector s).
Proof using.
  intros Hr Hp Hl. split; [|done]. intros p e E. destruct (related_entry _ _ _ _ _ Hr E) as (g & sg & n & Hg & Hsg & -> & Hc & Hn & _). split; [done|].
  pose proof (proj1 (Forall_forall _ _) (r_seen _ _ _ _ Hr) g Hg) as Hs. pose proof (proj1 (Forall_forall _ _) Hp _ Hs) as [H1 H2 H3 H4].
  pose proof (proj1 (Forall_forall _ _) H2 sg Hsg) as (S1 & S2 & S3). pose proof (proj1 (Forall_forall _ _) (r_ok _ _ _ _ Hr) g Hg) as [_ Hlt _].
  pose proof (proj1 (Forall_forall _ _) Hlt sg Hsg) as S4. cbn in S4. apply lookup_lt_Some in E.
  constructor; cbn [read_entry_of entry_of re_containing_id re_base re_size re_entry re_offset re_path re_custom containing_id start end_ data custom offset]; try done.
  - lia.
  - lia.
  - apply u64_bound.
  - by rewrite Hc.
Qed.
End Table.

(** ** The mapper *)

Section Mapper.
Context {double : Type} (float : double -> ascii -> Z -> bool -> bool -> bool -> text * text) (debug : bool) (memory : Z -> ascii).
Context {U : Type} (user_load : option (module_data_t -> option U)) (user_print : option (option U -> nat -> outcome (option text)))
        (user_parse : option (text -> option (text * option U))).
Context {user_codec : UserCodec user_print user_parse}.
Context (dr_map_executable_file : text -> option (Z * Z)).

Abbreviation print_cb := (Some (print_custom_module_data float debug memory user_print)).
Abbreviation parse_cb := (Some (parse_custom_module_data debug user_parse)).
Abbreviation load_cb := (Some (load_custom_module_data user_load)).
Abbreviation entry := (module_entry_t (option (instru_custom_t U))).
Abbreviation info_t := (drmodtrack_info_t (option (mapper_custom_t U))).
Abbreviation map_modules := (map_modules dr_map_executable_file).
Abbreviation map_module := (map_module dr_map_executable_file).

(** What the mapper knows of an entry of the tracer's table. *)
Definition info_of (i : nat) (e : entry) : info_t :=
  {| containing_index := Z.of_nat (containing_id e); info_start := start e; info_size := u64 (end_ e - start e); info_path := path_of (data e);
     info_custom := image (print_cb := print_cb) (parse_cb := parse_cb) (custom e); info_index := Some (Z.of_nat i); info_offset := Some (Some (offset e)) |}.

Lemma imap_map {A B C} (f : nat -> B -> C) (g : A -> B) l : imap f (map g l) = imap (fun k x => f k (g x)) l.
Proof using. revert f. induction l as [|x l IH]; intros f; [done|]. cbn [map imap]. f_equal. apply (IH (f ∘ Datatypes.S)). Qed.

Lemma query_all (pre post : list (module_read_entry_t (option (mapper_custom_t U)))) :
  query_modules None (pre ++ post) (length pre) (length post) =
  Ret (imap (fun k m => {| containing_index := re_containing_id m; info_start := re_base m; info_size := re_size m; info_path := re_path m; info_custom := re_custom m;
    info_index := Some (Z.of_nat (length pre + k)); info_offset := Some (re_offset m) |}) post, None).
Proof using.
  revert pre. induction post as [|m post IH]; intros pre; [done|]. cbn [length query_modules]. unfold drmodtrack_offline_lookup.
  rewrite lookup_app_r, Nat.sub_diag by lia. cbn [lookup list_lookup mbind outcome_bind]. change (64 <? offsetof_custom + 8) with false. cbn iota beta.
  specialize (IH (pre ++ [m])). rewrite <- app_assoc, length_app in IH. cbn [app length] in IH. rewrite Nat.add_1_r in IH. rewrite IH. cbn [mbind outcome_bind imap].
  do 3 f_equal; [by rewrite Nat.add_0_r|]. apply imap_ext. intros k x _. cbn. by rewrite Nat.add_succ_r.
Qed.

Lemma create_ok (v : list entry) : table_ok print_cb parse_cb v ->
  create debug user_parse None (table_text print_cb parse_cb v) = Ret (new_mapper (imap info_of v) true None).
Proof using user_codec.
  intros Hv. destruct (table_read debug print_cb parse_cb v false true [] Hv) as (buf & E & _); [by intros [|]|].
  rewrite app_nil_r in E. unfold create. rewrite E. cbn [mbind outcome_bind]. clear E.
  set (mods := map _ v). pose proof (query_all [] mods) as Hq. cbn [app length] in Hq. rewrite Hq. cbn [mbind outcome_bind].
  unfold mods. rewrite imap_map. reflexivity.
Qed.

(** ** The mapped modules *)

(** A module that is mapped from its file. *)
Definition ordinary (e : entry) : Prop := path_of (data e) <> unknown_path /\ match custom e with Some (Some c) => c_size c = 0 | _ => True end.

Definition good (v : list entry) (vec : list module_t) : Prop :=
  forall p m e, vec !! p = Some m -> v !! p = Some e -> ordinary e -> orig_base m = md_start (data e).

Lemma map_module_ok gs s a vec e : related load_cb gs s a -> good (vector s) vec -> vector s !! length vec = Some e ->
  exists r, map_module true vec (info_of (length vec) e) = Ret r /\ match r with inl _ => True | inr m => ordinary e -> orig_base m = md_start (data e) end.
Proof using.
  intros Hr Hv E. destruct (related_entry load_cb gs s a _ _ Hr E) as (g & sg & n & Hg & Hsg & -> & Hc & Hn & (sg0 & Hs0 & E0) & Hmain).
  set (p := length vec) in *. unfold ModuleMapper.map_module, ordinary. cbn [info_of info_custom info_path containing_index info_index info_start entry_of custom data start containing_id].
  set (special := bool_decide _ || _). assert (Hsp : special = true -> path_of (g_data g) = unknown_path).
  { unfold special. cbn [negb andb]. rewrite orb_false_r. apply bool_decide_eq_true. }
  assert (Hown : forall m, ordinary (entry_of n p g sg) -> orig_base m = seg_start sg -> n = p -> orig_base m = md_start (g_data g)).
  { intros m _ -> Hnp. pose proof (mo_first _ (proj1 (Forall_forall _ _) (r_ok _ _ _ _ Hr) g Hg)) as Hf. specialize (Hmain Hnp).
    destruct (segments (g_data g)); [done|]. injection Hmain as ->. exact Hf. }
  set (st := match image _ with Some (Some c) => _ | _ => None end).
  assert (Hst : match st with Some c => contents c <> None /\ exists c', g_custom g = Some (Some c') /\ c_size c' <> 0 | None => True end).
  { unfold st. change (image (g_custom g)) with (field_image memory user_print user_parse (g_custom g)). rewrite Hc. unfold custom_of, field_image.
    destruct (load_custom_module_data user_load (g_data g)) as [ic|]; [|done]. cbn [contents_size]. destruct (Z.ltb_spec 0 (c_size ic)) as [Hl|Hl]; [|done]. cbn [contents].
    rewrite (proj2 (Z.eqb_neq _ _)) by lia. split; [done|]. exists ic. split; [done|lia]. }
  destruct st as [c|].
  { destruct Hst as (H1 & c' & H2 & H3). destruct (contents c) as [t|]; [|done]. eexists. split; [done|]. cbn beta iota.
    rewrite H2. by intros [_ Hord]. }
  destruct special; [eexists; split; [done|]; cbn; intros [Hu _]; by destruct Hu; apply Hsp|].
  destruct (bool_decide_reflect (Some (Z.of_nat n) = Some (Z.of_nat p))) as [Hnp|Hnp]; cbn [negb].
  - injection Hnp as Hnp. apply Nat2Z.inj in Hnp. destruct (dr_map_executable_file _) as [[b sz]|].
    + eexists. split; [done|]. cbn beta iota. intros Ho. by apply Hown.
    + destruct (contains _ _); eexists; (split; [done|]); cbn beta iota; [|done]. intros Ho. by apply Hown.
  - assert (Hlt : (n < p)%nat) by (assert (n <> p) by (intros ->; done); lia). destruct (lookup_lt_is_Some_2 vec n Hlt) as [m0 Hm0].
    rewrite Nat2Z.id, Hm0. cbn [or_abort mbind outcome_bind]. eexists. split; [done|]. cbn beta iota. intros Ho. exact (Hv n m0 _ Hm0 E0 Ho).
Qed.

Lemma good_snoc v vec m e : good v vec -> v !! length vec = Some e -> (ordinary e -> orig_base m = md_start (data e)) -> good v (vec ++ [m]).
Proof using.
  intros Hg E Hm p m' e' Hp He'. apply lookup_app_Some in Hp as [Hp|[Hl Hp]]; [by apply (Hg p)|].
  apply list_lookup_singleton_Some in Hp as [Hz ->]. replace p with (length vec) in He' by lia. rewrite E in He'. by injection He' as <-.
Qed.

Lemma map_modules_ok gs s a vec post : related load_cb gs s a -> good (vector s) vec -> (forall k e, post !! k = Some e -> vector s !! (length vec + k)%nat = Some e) ->
  exists vec' err, map_modules true (imap (fun k e => info_of (length vec + k) e) post) vec = Ret (vec', err) /\ good (vector s) vec' /\
    (err = None -> length vec' = (length vec + length post)%nat).
Proof using.
  intros Hr. revert vec. induction post as [|e post IH]; intros vec Hg Hp; cbn [imap ModuleMapper.map_modules].
  - exists vec, None. cbn [length]. split_and!; [done|done|lia].
  - assert (E : vector s !! length vec = Some e) by (rewrite <- (Nat.add_0_r (length vec)); by apply Hp).
    rewrite Nat.add_0_r. destruct (map_module_ok gs s a vec e Hr Hg E) as ([er|m] & -> & Hm); cbn [mbind outcome_bind].
    + exists vec, (Some er). done.
    + assert (Hi : imap ((fun k e => info_of (length vec + k) e) ∘ Datatypes.S) post = imap (fun k e => info_of (length (vec ++ [m]) + k) e) post).
      { apply imap_ext. intros k x _. cbn. rewrite length_app. cbn. f_equal. lia. }
      rewrite Hi. destruct (IH (vec ++ [m])) as (vec' & err & -> & Hg' & Hl).
      * by eapply good_snoc.
      * intros k x Ek. rewrite length_app. cbn [length]. replace (length vec + 1 + k)%nat with (length vec + Datatypes.S k)%nat by lia. by apply Hp.
      * exists vec', err. split_and!; [done|done|]. intros He. rewrite (Hl He), length_app. cbn [length]. lia.
Qed.

Lemma loaded_ok gs s a : related load_cb gs s a -> exists m' vec, get_loaded_modules dr_map_executable_file (new_mapper (imap info_of (vector s)) true None) = Ret (m', vec) /\
  good (vector s) vec /\ (last_error m' = None -> length vec = length (vector s)) /\ modlist m' = imap info_of (vector s).
Proof using.
  intros Hr. destruct (map_modules_ok gs s a [] (vector s) Hr) as (vec & err & E & Hg & Hl); [intros p m e Hp; by rewrite lookup_nil in Hp|done|].
  cbn [length] in E. change (imap (fun k e => info_of (0 + k) e) (vector s)) with (imap info_of (vector s)) in E.
  unfold get_loaded_modules, read_and_map_modules. cbn [last_error modvec modlist has_custom_data new_mapper]. rewrite E. cbn [mbind outcome_bind].
  eexists _, vec. split; [done|]. cbn [last_error modlist modvec]. split; [done|]. split; [|done]. intros He. by rewrite (Hl He).
Qed.
End Mapper.

(** ** Searching *)

(** The module that holds an address is the only one that does. *)
Definition ranges_apart (vec : list module_t) : Prop :=
  forall m m' a, m ∈ vec -> m' ∈ vec -> in_range a (orig_base m) (m_size m) = true -> in_range a (orig_base m') (m_size m') = true -> m = m'.

(** The answer without a cache. *)
Definition search (vec : list module_t) (a : Z) : address :=
  match find_module vec a with Some m => address_add (map_base m) (a - orig_base m) | None => ANull end.

Section Find.
Context {U : Type}.
Abbreviation mapper := (module_mapper_t U).

(** The cache is empty, or holds a module. *)
Definition cached (s : mapper) : Prop :=
  (forall a, in_range a (last_orig_base s) (last_map_size s) = false) \/
  exists m, m ∈ modvec s /\ last_orig_base s = orig_base m /\ last_map_size s = m_size m /\ last_map_base s = map_base m.

Lemma find_module_some vec a m : find_module vec a = Some m -> m ∈ vec /\ in_range a (orig_base m) (m_size m) = true.
Proof using.
  induction vec as [|x vec IH]; cbn [find_module]; [done|]. destruct (in_range a (orig_base x) (m_size x)) eqn:E; [intros [= ->]; by split; [left|]|].
  intros H. apply IH in H as [H1 H2]. split; [by right|done].
Qed.
Lemma find_module_unique vec a m : ranges_apart vec -> m ∈ vec -> in_range a (orig_base m) (m_size m) = true -> find_module vec a = Some m.
Proof using.
  intros Hr Hm Hin. destruct (find_module vec a) as [m'|] eqn:E.
  - apply find_module_some in E as [Hm' Hin']. f_equal. by apply (Hr m' m a).
  - exfalso. clear Hr. induction vec as [|x vec IH]; [by apply elem_of_nil in Hm|]. cbn [find_module] in E. destruct (in_range a (orig_base x) (m_size x)) eqn:Ex; [done|].
    apply elem_of_cons in Hm as [->|Hm]; [congruence|by apply IH].
Qed.

(** A run of searches: the answers, and the errors behind it. *)
Fixpoint find_all (s : mapper) (l : list Z) : mapper * list address :=
  match l with
  | [] => (s, [])
  | a :: l => let '(s, r) := find_mapped_trace_address s a in let '(s, rs) := find_all s l in (s, r :: rs)
  end.

Lemma find_step s a : modlist s <> [] -> ranges_apart (modvec s) -> cached s ->
  let '(s', r) := find_mapped_trace_address s a in
  r = search (modvec s) a /\ cached s' /\ modvec s' = modvec s /\ modlist s' = modlist s /\
  last_error s' = match find_module (modvec s) a with Some _ => last_error s | None => Some Not_found end.
Proof using.
  intros Hl Hr Hc. unfold find_mapped_trace_address. destruct (modlist s) as [|x l] eqn:El; [done|]. unfold search.
  destruct (in_range a (last_orig_base s) (last_map_size s)) eqn:Ein.
  - destruct Hc as [Hc|(m & Hm & E1 & E2 & E3)]; [by rewrite Hc in Ein|]. rewrite E1, E2 in Ein. rewrite (find_module_unique _ a m Hr Hm Ein), E1, E3.
    split_and!; try done. right. by exists m.
  - destruct (find_module (modvec s) a) as [m|] eqn:E.
    + split_and!; try done. right. exists m. apply find_module_some in E as [Hm _]. done.
    + split_and!; try done.
Qed.

(** An error stays. *)
Lemma find_all_error s l : last_error s <> None -> last_error (find_all s l).1 <> None.
Proof using.
  revert s. induction l as [|a l IH]; intros s He; [done|]. cbn [find_all].
  assert (H : last_error (find_mapped_trace_address s a).1 <> None).
  { unfold find_mapped_trace_address. destruct (modlist s); [done|]. destruct (in_range _ _ _); [done|]. by destruct (find_module _ _). }
  destruct (find_mapped_trace_address s a) as [s1 r]. specialize (IH s1 H). by destruct (find_all s1 l).
Qed.

Lemma find_all_ok s l : modlist s <> [] -> ranges_apart (modvec s) -> cached s ->
  let '(s', rs) := find_all s l in
  rs = map (search (modvec s)) l /\ (last_error s = None -> last_error s' = None <-> Forall (fun a => find_module (modvec s) a <> None) l).
Proof using.
  revert s. induction l as [|a l IH]; intros s Hl Hr Hc; cbn [find_all]; [done|].
  pose proof (find_step s a Hl Hr Hc) as H. destruct (find_mapped_trace_address s a) as [s1 r]. destruct H as (-> & Hc1 & Hv & Hml & He).
  specialize (IH s1). rewrite Hv, Hml in IH. specialize (IH Hl Hr Hc1). destruct (find_all s1 l) as [s2 rs] eqn:El. destruct IH as [-> IH]. split; [done|].
  intros Hn. rewrite Forall_cons. destruct (find_module (modvec s) a) as [m|] eqn:E.
  - rewrite IH by (by rewrite He). naive_solver.
  - split; [|by intros [H _]]. intros Hs2. exfalso. pose proof (find_all_error s1 l) as Hf. rewrite El, He in Hf. by apply Hf.
Qed.
End Find.

(** ** The properties *)



(** ** Witnesses *)

Definition no_load : option (module_data_t -> option unit) := None.
Definition no_user_print : option (option unit -> nat -> outcome (option text)) := None.
Definition no_user_parse : option (text -> option (text * option unit)) := None.
Definition zeros (a : Z) : ascii := NUL.
Definition map_at (path : text) : option (Z * Z) := if bool_decide (path = s2l "/lib/libgap.so") then Some (0x7f0000000000, 0x6000) else Some (0x7f0000100000, 0x1000).
Definition tracer_print := Some (print_custom_module_data no_float false zeros no_user_print).
Definition traced_state : module_table_t (option (instru_custom_t unit)) :=
  match run_events (Some (load_custom_module_data no_load)) false drmodtrack_init history with Ret s => s | _ => drmodtrack_init end.
Definition traced_list : text := match drmodtrack_dump_buf no_float false tracer_print (vector traced_state) 1000 with Ret (inr t) => t | _ => [] end.
Definition mapper_of (t : text) : module_mapper_t unit := match create false no_user_parse None t with Ret m => m | _ => new_mapper [] true None end.

Lemma gap_printable d : d = libgap \/ d = libone -> printable tracer_print (Some (parse_custom_module_data false no_user_parse)) (Some (load_custom_module_data no_load)) d.
Proof.
  intros [->| ->]; (constructor; [vm_compute; split; congruence|
    repeat (apply Forall_cons; split; [vm_compute; repeat split; congruence|]); apply Forall_nil; exact I| |reflexivity]);
    (constructor; [reflexivity|repeat constructor; discriminate|apply Nat.ltb_lt; reflexivity]).
Qed.


(** The second piece of [libgap], looked up while tracing and found again. *)
Example traced_piece : exists s' vec m', drmodtrack_lookup traced_state 1 0x15010 = Ret (s', Some (1%nat, 0x10000)) /\
  get_loaded_modules map_at (mapper_of traced_list) = Ret (m', vec) /\ orig_base <$> (vec !! 1%nat) = Some 0x10000 /\
  (find_mapped_trace_address m' 0x15010).2 = AMap 0x7f0000005010.
Proof. eexists _, _, _. split; [vm_compute; reflexivity|]. split; [vm_compute; reflexivity|]. split; vm_compute; reflexivity. Qed.

Definition loaded_mapper : module_mapper_t unit := match get_loaded_modules map_at (mapper_of traced_list) with Ret (m, _) => m | _ => new_mapper [] true None end.

(** [libone] lies in the gap of [libgap], whose mapping covers the gap: its
    addresses are looked for in the wrong file. *)
Example module_in_gap : orig_base <$> (modvec loaded_mapper !! 2%nat) = Some 0x12000 /\ map_base <$> (modvec loaded_mapper !! 2%nat) = Some (AMap 0x7f0000100000) /\
  (find_mapped_trace_address loaded_mapper 0x12010).2 = AMap 0x7f0000002010.
Proof. vm_compute. repeat split. Qed.

(** The contents of a module are in the list, with any characters. *)
Definition vdso : module_data_t :=
  {| md_start := 0x30000; md_end := 0x30003; entry_point := 0x30000; module_name := None; file_name := Some vdso_name; full_path := Some vdso_name;
     contiguous := true; segments := [{| seg_start := 0x30000; seg_end := 0x30003; seg_offset := 0 |}] |}.
Definition newlines (a : Z) : ascii := NL.
Example vdso_contents : exists t m vec m', match run_events (Some (load_custom_module_data no_load)) false drmodtrack_init [ELoad vdso; ELoad libtwo] with
    Ret s => drmodtrack_dump_buf no_float false (Some (print_custom_module_data no_float false newlines no_user_print)) (vector s) 1000 | _ => Abort end = Ret (inr t) /\
  create false no_user_parse None t = Ret m /\ get_loaded_modules map_at m = Ret (m', vec) /\ last_error m' = None /\
  (find_mapped_trace_address m' 0x30002).2 = AContents [NL; NL; NL] 2.
Proof.
  eexists _, _, _, _. split; [vm_compute; reflexivity|]. split; [vm_compute; reflexivity|]. split; [vm_compute; reflexivity|]. split; vm_compute; reflexivity.
Qed.

(** With a parser of the user's, a module whose data are NULL was printed
    without the user's text, and is not read; a parser that fails on a field of
    another version leaves a NULL pointer that is used. *)
Definition strict_parse : option (text -> option (text * option unit)) := Some (fun t => match t with "u"%char :: t => Some (t, Some tt) | _ => None end).
Example null_data : parse_custom_module_data false strict_parse true (s2l "v#1,0, /lib/libc.so") = Ret (true, None) /\
  parse_custom_module_data false strict_parse true (s2l "/lib/libc.so") = Abort.
Proof. vm_compute. split; reflexivity. Qed.

Definition two_modules : module_mapper_t unit :=
  {| modlist := modlist loaded_mapper;
     modvec := [{| m_path := s2l "a"; orig_base := 0x1000; map_base := AMap 0x70000; m_size := 0x1000; is_external := false |};
                {| m_path := s2l "b"; orig_base := 0x4000; map_base := AContents (s2l "xyz") 0; m_size := 3; is_external := true |}];
     has_custom_data := true; last_orig_base := 0; last_map_size := 0; last_map_base := ANull; last_error := None |}.

Lemma two_apart : ranges_apart (modvec two_modules).
Proof.
  intros m m' a Hm Hm' H1 H2. cbn in Hm, Hm'. unfold in_range in *. apply andb_true_iff in H1 as [H1 H3], H2 as [H2 H4].
  apply Z.leb_le in H1, H2. apply Z.ltb_lt in H3, H4.
  apply elem_of_cons in Hm as [->|Hm], Hm' as [->|Hm']; try apply list_elem_of_singleton in Hm as ->; try apply list_elem_of_singleton in Hm' as ->;
    cbn [orig_base m_size] in *; (reflexivity || (exfalso; rewrite u64_small in * by lia; lia)).
Qed.

