(* ===== verification/ReuseDistance.v ===== *)
(** * The reuse distance tool

    [src/Simulator/clients/drcachesim/tools/]: reuse_distance.h with the list of
    the cache lines in the order of their last references, over which a skip list
    runs, and reuse_distance.cpp, the tool that counts distances with it.

    A [line_ref_t] lives in the array [nodes], in which [new] appends, and a
    pointer to one is its index; the tool frees them at its end only.  [Abort] is
    a failed [assert] or a load or store through NULL; [verify] tells of a debug
    build with the option that walks the list to check each distance.  The loops
    over pointers take the number of nodes and one as their fuel.  The counters
    have 64 bits and are not wrapped: they count references.  The messages of
    the debug levels are left out, and of the results the arithmetic on
    floating-point numbers and the lists of the lines referenced most. *)
From stdpp Require Export sorting.
From S2P Require Export CachingDevice.

(** ** Nodes *)

(** [time_stamp] is not set by the constructor, and set before it is read. *)
Record line_ref_t := {
  prev : option nat;
  next : option nat;
  time_stamp : Z;
  total_refs : Z;
  distant_refs : Z;
  line_tag : Z;
  prev_skip : option nat;
  next_skip : option nat;
  depth : Z
}.
Definition new_line_ref (t : Z) : line_ref_t :=
  {| prev := None; next := None; time_stamp := 0; total_refs := 1; distant_refs := 0; line_tag := t; prev_skip := None; next_skip := None; depth := -1 |}.

Definition set_links (p n : option nat) (x : line_ref_t) : line_ref_t :=
  {| prev := p; next := n; time_stamp := time_stamp x; total_refs := total_refs x; distant_refs := distant_refs x; line_tag := line_tag x;
     prev_skip := prev_skip x; next_skip := next_skip x; depth := depth x |}.
Definition set_info (t a d : Z) (x : line_ref_t) : line_ref_t :=
  {| prev := prev x; next := next x; time_stamp := t; total_refs := a; distant_refs := d; line_tag := line_tag x;
     prev_skip := prev_skip x; next_skip := next_skip x; depth := depth x |}.
Definition set_skips (p n : option nat) (d : Z) (x : line_ref_t) : line_ref_t :=
  {| prev := prev x; next := next x; time_stamp := time_stamp x; total_refs := total_refs x; distant_refs := distant_refs x; line_tag := line_tag x;
     prev_skip := p; next_skip := n; depth := d |}.
Definition set_prev (p : option nat) (x : line_ref_t) : line_ref_t := set_links p (next x) x.
Definition set_next (n : option nat) (x : line_ref_t) : line_ref_t := set_links (prev x) n x.
Definition set_time (t : Z) (x : line_ref_t) : line_ref_t := set_info t (total_refs x) (distant_refs x) x.
Definition count_ref (x : line_ref_t) : line_ref_t := set_info (time_stamp x) (total_refs x + 1) (distant_refs x) x.
Definition count_distant (x : line_ref_t) : line_ref_t := set_info (time_stamp x) (total_refs x) (distant_refs x + 1) x.
Definition set_prev_skip (p : option nat) (x : line_ref_t) : line_ref_t := set_skips p (next_skip x) (depth x) x.
Definition set_next_skip (n : option nat) (x : line_ref_t) : line_ref_t := set_skips (prev_skip x) n (depth x) x.
Definition set_depth (d : Z) (x : line_ref_t) : line_ref_t := set_skips (prev_skip x) (next_skip x) d x.

(** A store through a pointer, and through one that may be NULL and is tested. *)
Definition upd (p : nat) (f : line_ref_t -> line_ref_t) (ns : list line_ref_t) : outcome (list line_ref_t) :=
  if (p <? length ns)%nat then Ret (alter f p ns) else Abort.
Definition upd_if (p : option nat) (f : line_ref_t -> line_ref_t) (ns : list line_ref_t) : outcome (list line_ref_t) :=
  match p with Some p => upd p f ns | None => Ret ns end.
Definition deref (ns : list line_ref_t) (p : nat) : outcome line_ref_t := or_abort (ns !! p).
Definition check (b : bool) : outcome unit := if b then Ret () else Abort.

(** ** The list *)

Record line_ref_list_t := {
  nodes : list line_ref_t;
  head : option nat;
  gate : option nat;
  cur_time : Z;
  unique_lines : Z;
  threshold : Z;
  skip_distance : Z;
  verify : bool
}.
Definition new_list (reuse_threshold skip_dist : Z) (v : bool) : line_ref_list_t :=
  {| nodes := []; head := None; gate := None; cur_time := 0; unique_lines := 0; threshold := reuse_threshold; skip_distance := skip_dist; verify := v |}.

(** The list after its nodes, its gate and its counters changed. *)
Definition with_list (l : line_ref_list_t) (ns : list line_ref_t) (h g : option nat) (t u : Z) : line_ref_list_t :=
  {| nodes := ns; head := h; gate := g; cur_time := t; unique_lines := u; threshold := threshold l; skip_distance := skip_distance l; verify := verify l |}.

Definition ref_is_distant (ns : list line_ref_t) (g : option nat) (ref : nat) : outcome bool :=
  match g with
  | None => Ret false
  | Some g => x ← deref ns ref; y ← deref ns g; Ret (time_stamp x <? time_stamp y)
  end.

(** [src] is read again after each store, as the code does. *)
Definition move_skip_fields (ns : list line_ref_t) (src dst : nat) : outcome (list line_ref_t) :=
  s ← deref ns src;
  ns ← upd dst (set_skips (prev_skip s) (next_skip s) (depth s)) ns;
  s ← deref ns src;
  ns ← upd_if (prev_skip s) (set_next_skip (Some dst)) ns;
  s ← deref ns src;
  ns ← upd_if (next_skip s) (set_prev_skip (Some dst)) ns;
  upd src (set_skips None None (-1)) ns.

(** The nodes in front of the first of the skip list are counted, and the one
    at its distance noted. *)
Fixpoint count_loop (fuel : nat) (ns : list line_ref_t) (dist : Z) (node : option nat) (count : Z) (skip : option nat)
    : outcome (Z * option nat * option nat) :=
  match fuel with
  | O => Out_of_fuel
  | S fuel =>
      match node with
      | None => Ret (count, None, skip)
      | Some n =>
          x ← deref ns n;
          if depth x =? -1 then
            let count := count + 1 in
            count_loop fuel ns dist (next x) count (if count =? dist then Some n else skip)
          else Ret (count, Some n, skip)
      end
  end.

(** A new node of the skip list in front of [node]. *)
Definition new_skip (ns : list line_ref_t) (dist : Z) (skip node : option nat) : outcome (list line_ref_t) :=
  s ← or_abort skip;
  ns ← upd s (set_depth (dist - 1)) ns;
  ns ← (match node with
        | None => Ret ns
        | Some n => x ← deref ns n; _ ← check (bool_decide (prev_skip x = None)); upd n (set_prev_skip (Some s)) ns
        end);
  ns ← upd s (set_next_skip node) ns;
  x ← deref ns s;
  _ ← check (bool_decide (prev_skip x = None));
  Ret ns.

Fixpoint deepen (fuel : nat) (ns : list line_ref_t) (node : option nat) : outcome (list line_ref_t) :=
  match fuel with
  | O => Out_of_fuel
  | S fuel =>
      match node with
      | None => Ret ns
      | Some n =>
          x ← deref ns n;
          ns ← upd n (set_depth (depth x + 1)) ns;
          deepen fuel ns (next_skip x)
      end
  end.

Definition add_to_front (l : line_ref_list_t) (ref : nat) : outcome line_ref_list_t :=
  let fuel := S (length (nodes l)) in
  ns ← upd ref (set_next (head l)) (nodes l);
  ns ← upd_if (head l) (set_prev (Some ref)) ns;
  let g := match gate l with None => Some ref | g => g end in
  g ← (if threshold l <? unique_lines l then g ← or_abort g; x ← deref ns g; Ret (prev x) else Ret g);
  ns ← upd ref (set_time (cur_time l)) ns;
  '(count, node, skip) ← count_loop fuel ns (skip_distance l) (Some ref) 0 None;
  ns ← (if u64 (2 * skip_distance l - 1) <=? count then new_skip ns (skip_distance l) skip node else Ret ns);
  ns ← deepen fuel ns node;
  Ret (with_list l ns (Some ref) g (cur_time l + 1) (unique_lines l + 1)).

(** The way back from a node to the next of the skip list. *)
Fixpoint back_loop (fuel : nat) (ns : list line_ref_t) (skip : option nat) (dist : Z) : outcome (Z * option nat) :=
  match fuel with
  | O => Out_of_fuel
  | S fuel =>
      match skip with
      | None => Ret (dist - 1, None)
      | Some s => x ← deref ns s; if depth x =? -1 then back_loop fuel ns (prev x) (dist + 1) else Ret (dist + depth x, Some s)
      end
  end.

Fixpoint brute_loop (fuel : nat) (ns : list line_ref_t) (p : option nat) (ref : nat) (dist : Z) : outcome Z :=
  match fuel with
  | O => Out_of_fuel
  | S fuel =>
      p ← or_abort p;
      if decide (p = ref) then Ret dist else x ← deref ns p; brute_loop fuel ns (next x) ref (dist + 1)
  end.

Fixpoint shift_loop (fuel : nat) (ns : list line_ref_t) (skip : option nat) : outcome (list line_ref_t) :=
  match fuel with
  | O => Out_of_fuel
  | S fuel =>
      match skip with
      | None => Ret ns
      | Some s =>
          x ← deref ns s;
          q ← or_abort (prev x);
          ns ← move_skip_fields ns s q;
          shift_loop fuel ns (prev_skip x)
      end
  end.

(** [ref] is taken out and put in front of [h]. *)
Definition relink (ns : list line_ref_t) (ref : nat) (h : option nat) : outcome (list line_ref_t) :=
  x ← deref ns ref;
  p ← or_abort (prev x);
  ns ← upd p (set_next (next x)) ns;
  ns ← upd_if (next x) (set_prev (Some p)) ns;
  ns ← upd ref (set_prev None) ns;
  ns ← upd ref (set_next h) ns;
  h ← or_abort h;
  upd h (set_prev (Some ref)) ns.

(** The gate moves if [ref] is at it or behind it. *)
Definition move_gate (ns : list line_ref_t) (g : option nat) (ref : nat) : outcome (list line_ref_t * option nat) :=
  distant ← ref_is_distant ns g ref;
  if (distant : bool) then
    ns ← upd ref count_distant ns;
    g ← or_abort g; x ← deref ns g; Ret (ns, prev x)
  else if decide (g = Some ref) then x ← deref ns ref; Ret (ns, prev x)
  else Ret (ns, g).

Definition move_to_front (l : line_ref_list_t) (ref : nat) : outcome (line_ref_list_t * Z) :=
  let fuel := S (length (nodes l)) in
  ns ← upd ref count_ref (nodes l);
  if decide (head l = Some ref) then Ret (with_list l ns (head l) (gate l) (cur_time l) (unique_lines l), 0)
  else
    '(ns, g) ← move_gate ns (gate l) ref;
    '(dist, skip) ← back_loop fuel ns (Some ref) 0;
    _ ← (if verify l then brute ← brute_loop fuel ns (head l) ref 0; check (brute =? dist) else Ret ());
    ns ← (match skip with
          | Some _ => shift_loop fuel ns skip
          | None => x ← deref ns ref; _ ← check (depth x =? -1); Ret ns
          end);
    ns ← relink ns ref (head l);
    ns ← upd ref (set_time (cur_time l)) ns;
    Ret (with_list l ns (Some ref) g (cur_time l + 1) (unique_lines l), dist).

(** ** The tool *)

Record reuse_distance_knobs_t := {
  line_size : Z;
  distance_threshold : Z;
  skip_list_distance : Z;
  verify_skip : bool
}.

Record reuse_distance_t := {
  cache_map : gmap Z nat;
  dist_map : gmap Z Z;
  ref_list : line_ref_list_t;
  line_size_bits : Z;
  refs_total : Z
}.
Definition new_reuse_distance (k : reuse_distance_knobs_t) (debug : bool) : reuse_distance_t :=
  {| cache_map := ∅; dist_map := ∅; ref_list := new_list (distance_threshold k) (skip_list_distance k) (debug && verify_skip k);
     line_size_bits := compute_log2 (line_size k); refs_total := 0 |}.

(** The references that count. *)
Definition is_reference (m : memref_t) : bool :=
  type_is_instr (type m) || (type m =? TRACE_TYPE_READ) || (type m =? TRACE_TYPE_WRITE) || type_is_prefetch (type m).

(** A shift by [(size_t)-1] is undefined. *)
Definition reuse_tag (s : reuse_distance_t) (m : memref_t) : outcome Z :=
  if line_size_bits s =? -1 then Abort else Ret (Z.shiftr (addr m) (line_size_bits s)).

Definition add_line (l : line_ref_list_t) (t : Z) : outcome line_ref_list_t :=
  add_to_front (with_list l (nodes l ++ [new_line_ref t]) (head l) (gate l) (cur_time l) (unique_lines l)) (length (nodes l)).

Definition process_reuse (s : reuse_distance_t) (m : memref_t) : outcome (reuse_distance_t * bool) :=
  if is_reference m then
    t ← reuse_tag s m;
    match cache_map s !! t with
    | None =>
        l ← add_line (ref_list s) t;
        Ret ({| cache_map := <[t := length (nodes (ref_list s))]> (cache_map s); dist_map := dist_map s; ref_list := l;
                line_size_bits := line_size_bits s; refs_total := refs_total s + 1 |}, true)
    | Some p =>
        '(l, dist) ← move_to_front (ref_list s) p;
        Ret ({| cache_map := cache_map s; dist_map := <[dist := default 0 (dist_map s !! dist) + 1]> (dist_map s); ref_list := l;
                line_size_bits := line_size_bits s; refs_total := refs_total s + 1 |}, true)
    end
  else Ret (s, true).

(** ** The results *)

(** [cmp_dist_key]; the keys of a map differ. *)
Definition cmp_dist_key (l r : Z * Z) : Prop := fst l <= fst r.
#[export] Instance cmp_dist_key_dec : RelDecision cmp_dist_key.
Proof. intros l r. unfold cmp_dist_key. apply _. Defined.
Definition sorted_distances (s : reuse_distance_t) : list (Z * Z) := merge_sort cmp_dist_key (map_to_list (dist_map s)).
Definition reuse_count (s : reuse_distance_t) : Z := foldr (fun x n => snd x + n) 0 (map_to_list (dist_map s)).

(** The distance that is printed for the median. *)
Fixpoint median_from (half recount : Z) (l : list (Z * Z)) : option Z :=
  match l with
  | [] => None
  | (d, n) :: l => if half <=? recount + n then Some d else median_from half (recount + n) l
  end.
Definition median (s : reuse_distance_t) : option Z := median_from (reuse_count s / 2) 0 (sorted_distances s).
