(* ===== verification/ReuseProof.v ===== *)
(** * The list of lines and its skip list

    The nodes of [ReuseDistance] as a list of pointers, with a skip list over
    the positions of a second list: what each loop over them does. *)
From S2P Require Import ReuseDistance.

(** ** Parts of a node *)

Definition lk (ns : list line_ref_t) (q : nat) : option (option nat * option nat) := (fun x => (prev x, next x)) <$> ns !! q.
Definition sk (ns : list line_ref_t) (q : nat) : option (option nat * option nat * Z) := (fun x => (prev_skip x, next_skip x, depth x)) <$> ns !! q.
Definition inf (ns : list line_ref_t) (q : nat) : option (Z * Z * Z * Z) := (fun x => (time_stamp x, total_refs x, distant_refs x, line_tag x)) <$> ns !! q.

(** What a step leaves: the number of nodes and the parts named. *)
Definition keeps {A} (part : list line_ref_t -> nat -> A) (ns ns' : list line_ref_t) : Prop := forall q, part ns' q = part ns q.

Lemma part_trans {A} (part : list line_ref_t -> nat -> A) a b c : keeps part a b -> keeps part b c -> keeps part a c.
Proof. intros H1 H2 q. by rewrite H2, H1. Qed.
Lemma part_refl {A} (part : list line_ref_t -> nat -> A) a : keeps part a a.
Proof. done. Qed.
#[export] Hint Resolve part_refl part_trans : core.

(** What a store through a pointer leaves at every place. *)
Lemma upd_if_ok (o : option nat) f (ns : list line_ref_t) : (forall p, o = Some p -> (p < length ns)%nat) ->
  exists ns', upd_if o f ns = Ret ns' /\ length ns' = length ns /\ forall q : nat, ns' !! q = if decide (o = Some q) then f <$> ns !! q else ns !! q.
Proof.
  intros H. destruct o as [p|]; [|exists ns; split_and!; [done|done|]; intros q; by rewrite decide_False].
  exists (alter f p ns). cbn. unfold upd. rewrite (proj2 (Nat.ltb_lt _ _)) by (by apply H). split_and!; [done|apply length_alter|].
  intros q. destruct (decide (Some p = Some q)) as [[= ->]|Hn]; [apply list_lookup_alter_eq|]. apply list_lookup_alter_ne. congruence.
Qed.
Lemma upd_ok (p : nat) f (ns : list line_ref_t) : (p < length ns)%nat ->
  exists ns', upd p f ns = Ret ns' /\ length ns' = length ns /\ forall q : nat, ns' !! q = if decide (p = q) then f <$> ns !! q else ns !! q.
Proof.
  intros H. destruct (upd_if_ok (Some p) f ns) as (ns' & E & Hl & Hq); [by intros ? [= <-]|]. exists ns'. split_and!; [exact E|done|].
  intros q. rewrite Hq. destruct (decide (p = q)) as [->|Hn]; [by rewrite decide_True|]. rewrite decide_False by congruence. done.
Qed.

Lemma lk_bound ns q x : lk ns q = Some x -> (q < length ns)%nat.
Proof. unfold lk. intros H. apply fmap_Some in H as (y & H & _). by eapply lookup_lt_Some. Qed.
Lemma sk_bound ns q x : sk ns q = Some x -> (q < length ns)%nat.
Proof. unfold sk. intros H. apply fmap_Some in H as (y & H & _). by eapply lookup_lt_Some. Qed.
Lemma sk_deref ns q a b d : sk ns q = Some (a, b, d) -> exists x, ns !! q = Some x /\ prev_skip x = a /\ next_skip x = b /\ depth x = d.
Proof. unfold sk. intros H. apply fmap_Some in H as (y & H & E). injection E as -> -> ->. by exists y. Qed.
Lemma lk_deref ns q a b : lk ns q = Some (a, b) -> exists x, ns !! q = Some x /\ prev x = a /\ next x = b.
Proof. unfold lk. intros H. apply fmap_Some in H as (y & H & E). injection E as -> ->. by exists y. Qed.

(** The element in front. *)
Definition pred_at {A} (l : list A) (i : nat) : option A := match i with O => None | S j => l !! j end.

(** ** The skip list

    Its nodes stand at the positions [P]; [f] gives the node of a position and
    [d] its depth. *)
Record skips_ok (ns : list line_ref_t) (f : nat -> nat) (d : nat -> Z) (P : list nat) : Prop := {
  sk_inj : forall i j, i ∈ P -> j ∈ P -> f i = f j -> i = j;
  sk_node : forall k i, P !! k = Some i -> sk ns (f i) = Some (f <$> pred_at P k, f <$> P !! S k, d i);
  sk_rest : forall q s, sk ns q = Some s -> (forall i, i ∈ P -> f i <> q) -> s = (None, None, -1)
}.

Lemma skips_ok_ext ns ns' f g d e P : keeps sk ns ns' -> (forall i, i ∈ P -> f i = g i) -> (forall i, i ∈ P -> d i = e i) -> skips_ok ns f d P -> skips_ok ns' g e P.
Proof.
  intros Hk Hf Hd [H1 H2 H3].
  assert (Ho : forall o : option nat, (forall x, o = Some x -> x ∈ P) -> f <$> o = g <$> o) by (intros [x|] Hx; [cbn; by rewrite Hf by auto|done]).
  constructor.
  - intros i j Hi Hj. rewrite <- !Hf by done. auto.
  - intros k i Hk'. pose proof (list_elem_of_lookup_2 _ _ _ Hk') as Hi. rewrite Hk, <- Hf, <- Hd, (H2 k i Hk') by done. do 3 f_equal; apply Ho.
    + intros x Hx. destruct k; [done|]. by eapply list_elem_of_lookup_2.
    + intros x Hx. by eapply list_elem_of_lookup_2.
  - intros q s. rewrite Hk. intros Hs Hq. apply (H3 q s Hs). intros i Hi. rewrite Hf by done. auto.
Qed.

Definition fn_upd (f : nat -> nat) (i q : nat) : nat -> nat := fun j => if decide (j = i) then q else f j.
Lemma fn_upd_eq f i q : fn_upd f i q i = q.
Proof. unfold fn_upd. by rewrite decide_True. Qed.
Lemma fn_upd_ne f i q j : j <> i -> fn_upd f i q j = f j.
Proof. intros. unfold fn_upd. by rewrite decide_False. Qed.

(** The stores of [move_skip_fields]: [a] and [b] are the neighbours. *)
Lemma move_skip_store ns p q a b d : sk ns p = Some (a, b, d) -> p <> q -> (q < length ns)%nat ->
  (forall r, a = Some r \/ b = Some r -> r <> p /\ r <> q /\ (r < length ns)%nat) ->
  exists ns', move_skip_fields ns p q = Ret ns' /\ length ns' = length ns /\ keeps lk ns ns' /\ keeps inf ns ns' /\
    forall r, sk ns' r = if decide (p = r) then Some (None, None, -1) else if decide (q = r) then Some (a, b, d) else
      (fun '(u, v, w) => (if decide (b = Some r) then Some q else u, if decide (a = Some r) then Some q else v, w)) <$> sk ns r.
Proof.
  intros Hi Hpq Hlen Hab. destruct (sk_deref _ _ _ _ _ Hi) as (x & Hx & Ea & Eb & Ed). pose proof (sk_bound _ _ _ Hi) as Hpl.
  assert (Hpa : a <> Some p /\ a <> Some q) by (split; intros E; by destruct (Hab _ (or_introl E)) as (? & ? & ?)).
  assert (Hpb : b <> Some p /\ b <> Some q) by (split; intros E; by destruct (Hab _ (or_intror E)) as (? & ? & ?)).
  destruct Hpa as [Hpa Hqa], Hpb as [Hpb Hqb].
  unfold move_skip_fields, deref. rewrite Hx. cbn [or_abort mbind outcome_bind]. rewrite Ea, Eb, Ed.
  destruct (upd_ok q (set_skips a b d) ns Hlen) as (n1 & -> & L1 & Q1). cbn [mbind outcome_bind].
  assert (X1 : n1 !! p = Some x) by (by rewrite Q1, decide_False). rewrite X1. cbn [or_abort mbind outcome_bind]. rewrite Ea.
  destruct (upd_if_ok a (set_next_skip (Some q)) n1) as (n2 & -> & L2 & Q2); [intros r E; rewrite L1; by apply Hab; left|].
  cbn [mbind outcome_bind]. assert (X2 : n2 !! p = Some x) by (by rewrite Q2, decide_False). rewrite X2. cbn [or_abort mbind outcome_bind]. rewrite Eb.
  destruct (upd_if_ok b (set_prev_skip (Some q)) n2) as (n3 & -> & L3 & Q3); [intros r E; rewrite L2, L1; by apply Hab; right|].
  cbn [mbind outcome_bind]. destruct (upd_ok p (set_skips None None (-1)) n3) as (n4 & E4 & L4 & Q4); [lia|].
  exists n4. split; [exact E4|]. split; [lia|]. split; [|split].
  - intros r. unfold lk. rewrite Q4, Q3, Q2, Q1. repeat case_decide; by destruct (ns !! r).
  - intros r. unfold inf. rewrite Q4, Q3, Q2, Q1. repeat case_decide; by destruct (ns !! r).
  - intros r. unfold sk. rewrite Q4, Q3, Q2, Q1. destruct (decide (p = r)) as [<-|N1].
    + rewrite !decide_False by done. by rewrite Hx.
    + destruct (decide (q = r)) as [<-|N2].
      * rewrite !decide_False by done. destruct (lookup_lt_is_Some_2 ns q Hlen) as [y ->]. done.
      * destruct (ns !! r) as [y|]; [|by repeat case_decide]. by repeat case_decide.
Qed.

Lemma move_skip_fields_ok ns f d P k i q : skips_ok ns f d P -> NoDup P -> P !! k = Some i -> (forall j, j ∈ P -> f j <> q) -> (q < length ns)%nat ->
  exists ns', move_skip_fields ns (f i) q = Ret ns' /\ length ns' = length ns /\ keeps lk ns ns' /\ keeps inf ns ns' /\ skips_ok ns' (fn_upd f i q) d P.
Proof.
  intros H Hnd Hk Hq Hlen. pose proof (sk_node _ _ _ _ H k i Hk) as Hi.
  assert (Hin : forall m j, P !! m = Some j -> j ∈ P) by (intros m j Hm; by eapply list_elem_of_lookup_2).
  assert (Hfq : forall m j, P !! m = Some j -> f j <> q) by (intros m j Hm; apply Hq; by eauto).
  assert (Hff : forall m j, P !! m = Some j -> m <> k -> f j <> f i).
  { intros m j Hm Hne E. apply (sk_inj _ _ _ _ H) in E; [|by eauto..]. subst j. apply Hne. exact (proj1 (NoDup_alt _) Hnd _ _ _ Hm Hk). }
  assert (Hpl : (f i < length ns)%nat) by (by eapply sk_bound).
  assert (Hfl : forall m j, P !! m = Some j -> (f j < length ns)%nat) by (intros m j Hm; eapply sk_bound; exact (sk_node _ _ _ _ H m j Hm)).
  set (a := f <$> pred_at P k) in *. set (b := f <$> P !! S k) in *.
  assert (Ha : forall r, a = Some r -> exists m j, k = S m /\ P !! m = Some j /\ r = f j).
  { intros r E. unfold a in E. destruct k as [|m]; [done|]. cbn in E. apply fmap_Some in E as (j & Hj & ->). by exists m, j. }
  assert (Hb : forall r, b = Some r -> exists j, P !! S k = Some j /\ r = f j).
  { intros r E. unfold b in E. apply fmap_Some in E as (j & Hj & ->). by exists j. }
  assert (Hpq : f i <> q) by (by apply (Hfq k i)).
  destruct (move_skip_store ns (f i) q a b (d i) Hi Hpq Hlen) as (n4 & E4 & L4 & Hlk & Hinf & Hsk).
  { intros r [E|E]; [destruct (Ha _ E) as (m & j & -> & Hm & ->)|destruct (Hb _ E) as (j & Hm & ->)]; (split; [|split; [by eapply Hfq|by eapply Hfl]]);
      [by apply (Hff m j Hm ltac:(lia))|by apply (Hff (S k) j Hm ltac:(lia))]. }
  exists n4. split; [exact E4|]. split; [lia|]. split; [exact Hlk|]. split; [exact Hinf|].
  constructor.
  - intros j j' Hj Hj'. unfold fn_upd. repeat case_decide; subst; try done.
    + intros E. by destruct (Hq j').
    + intros E. by destruct (Hq j).
    + intros E. by apply (sk_inj _ _ _ _ H) in E.
  - intros m j Hm. rewrite Hsk. destruct (decide (j = i)) as [->|Hne].
    + assert (m = k) as -> by exact (proj1 (NoDup_alt _) Hnd _ _ _ Hm Hk). rewrite fn_upd_eq, decide_False, decide_True by done. do 3 f_equal.
      * unfold a. destruct k as [|m]; [done|]. cbn. destruct (P !! m) as [j|] eqn:Ej; [|done]. cbn. rewrite fn_upd_ne; [done|].
        intros ->. pose proof (proj1 (NoDup_alt _) Hnd _ _ _ Ej Hk). lia.
      * unfold b. destruct (P !! S k) as [j|] eqn:Ej; [|done]. cbn. rewrite fn_upd_ne; [done|].
        intros ->. pose proof (proj1 (NoDup_alt _) Hnd _ _ _ Ej Hk). lia.
    + assert (Hmk : m <> k) by (intros ->; congruence). rewrite (fn_upd_ne f i q j) by done.
      rewrite decide_False by (apply not_eq_sym; by apply (Hff m)). rewrite decide_False by (apply not_eq_sym; by apply (Hfq m)).
      rewrite (sk_node _ _ _ _ H m j Hm). cbn. do 3 f_equal.
      * destruct (decide (b = Some (f j))) as [E|N].
        { destruct (Hb _ E) as (j' & Hj' & E'). apply (sk_inj _ _ _ _ H) in E'; [|by eauto..]. subst j'.
          assert (m = S k) as -> by exact (proj1 (NoDup_alt _) Hnd _ _ _ Hm Hj'). cbn. rewrite Hk. cbn. by rewrite fn_upd_eq. }
        destruct m as [|m]; [done|]. cbn. destruct (P !! m) as [j'|] eqn:Ej; [|done]. cbn. rewrite fn_upd_ne; [done|].
        intros ->. apply N. unfold b. assert (m = k) as -> by exact (proj1 (NoDup_alt _) Hnd _ _ _ Ej Hk). by rewrite Hm.
      * destruct (decide (a = Some (f j))) as [E|N].
        { destruct (Ha _ E) as (m' & j' & -> & Hj' & E'). apply (sk_inj _ _ _ _ H) in E'; [|by eauto..]. subst j'.
          assert (m = m') as -> by exact (proj1 (NoDup_alt _) Hnd _ _ _ Hm Hj'). rewrite Hk. cbn. by rewrite fn_upd_eq. }
        destruct (P !! S m) as [j'|] eqn:Ej; [|done]. cbn. rewrite fn_upd_ne; [done|].
        intros ->. apply N. assert (k = S m) as -> by exact (proj1 (NoDup_alt _) Hnd _ _ _ Hk Ej). unfold a. cbn. by rewrite Hm.
  - intros r s. rewrite Hsk. intros Hs Hr. destruct (decide (f i = r)) as [<-|N1]; [congruence|].
    destruct (decide (q = r)) as [<-|N2]; [destruct (Hr i ltac:(by eauto)); apply fn_upd_eq|].
    assert (Hr' : forall j, j ∈ P -> f j <> r). { intros j Hj. destruct (decide (j = i)) as [->|]; [done|]. rewrite <- (fn_upd_ne f i q j) by done. auto. }
    apply fmap_Some in Hs as ([[u v] w] & Hs & ->). rewrite !decide_False; [exact (sk_rest _ _ _ _ H r _ Hs Hr')|..].
    + intros E. destruct (Ha _ E) as (m & j & -> & Hm & ->). by destruct (Hr' j); eauto.
    + intros E. destruct (Hb _ E) as (j & Hm & ->). by destruct (Hr' j); eauto.
Qed.

(** ** Positions two apart, the first not in front of [lo] *)

Fixpoint spaced (lo : nat) (P : list nat) : Prop :=
  match P with [] => True | i :: P => (lo <= i)%nat /\ spaced (i + 2) P end.

Lemma spaced_mono lo lo' P : spaced lo P -> (lo' <= lo)%nat -> spaced lo' P.
Proof. destruct P; [done|]. cbn. intros [? ?] ?. split; [lia|done]. Qed.
Lemma spaced_ge lo P k i : spaced lo P -> P !! k = Some i -> (lo <= i)%nat.
Proof.
  revert lo k. induction P as [|j P IH]; intros lo [|k] H E; try done; destruct H as [H1 H2].
  - injection E as <-. done.
  - pose proof (IH _ _ H2 E). lia.
Qed.
Lemma spaced_lt lo P k k' i j : spaced lo P -> P !! k = Some i -> P !! k' = Some j -> (k < k')%nat -> (i + 2 <= j)%nat.
Proof.
  revert lo k k'. induction P as [|a P IH]; intros lo k k' H E E' Hk; [done|]. destruct H as [H1 H2], k' as [|k']; [lia|]. destruct k as [|k].
  - injection E as <-. exact (spaced_ge _ _ _ _ H2 E').
  - apply (IH _ _ _ H2 E E'). lia.
Qed.
Lemma spaced_index lo P k k' i j : spaced lo P -> P !! k = Some i -> P !! k' = Some j -> (i <= j)%nat -> (k <= k')%nat.
Proof. intros H E E' Hij. destruct (decide (k <= k')%nat); [done|]. pose proof (spaced_lt _ _ k' k _ _ H E' E ltac:(lia)). lia. Qed.
Lemma spaced_nodup lo P : spaced lo P -> NoDup P.
Proof.
  intros H. apply NoDup_alt. intros k k' i E E'. pose proof (spaced_index _ _ _ _ _ _ H E E' ltac:(lia)). pose proof (spaced_index _ _ _ _ _ _ H E' E ltac:(lia)). lia.
Qed.
Lemma spaced_apart lo P i j : spaced lo P -> i ∈ P -> j ∈ P -> (j = i \/ j + 2 <= i \/ i + 2 <= j)%nat.
Proof.
  intros H Hi Hj. apply list_elem_of_lookup in Hi as [k Hk], Hj as [k' Hk']. destruct (decide (k = k')) as [->|Hn]; [left; congruence|].
  destruct (decide (k < k')%nat); [right; right; by eapply spaced_lt|right; left; eapply spaced_lt; [done..|lia]].
Qed.
Lemma spaced_S lo P : spaced lo P -> spaced (S lo) (S <$> P).
Proof. revert lo. induction P as [|i P IH]; intros lo H; [done|]. destruct H as [H1 H2]. split; [lia|]. apply (IH _ H2). Qed.

(** *** Shifting *)
Lemma shift_step fuel ns s : shift_loop (S fuel) ns (Some s) =
  (x ← or_abort (ns !! s); q ← or_abort (prev x); ns ← move_skip_fields ns s q; shift_loop fuel ns (prev_skip x)).
Proof. done. Qed.
(** The nodes up to position [i] of the skip list hand their fields to those in
    front of them. *)
Lemma shift_loop_ok k : forall f ns i fuel g d P lo, spaced lo P -> P !! k = Some i -> skips_ok ns f d P -> (k < fuel)%nat ->
  (forall j, j ∈ P -> (j <= i)%nat -> exists b, lk ns (f j) = Some (Some (g j), b) /\ (g j < length ns)%nat) ->
  (forall j j', j ∈ P -> j' ∈ P -> (j <= i)%nat -> f j' <> g j) ->
  (forall j j', j ∈ P -> j' ∈ P -> (j <= i)%nat -> (j' <= i)%nat -> g j = g j' -> j = j') ->
  exists ns', shift_loop (S fuel) ns (Some (f i)) = Ret ns' /\ length ns' = length ns /\ keeps lk ns ns' /\ keeps inf ns ns' /\
    skips_ok ns' (fun j => if decide (j <= i)%nat then g j else f j) d P.
Proof.
  induction k as [|k IH]; intros f ns i fuel g d P lo Hsp Hk H Hfuel Hlk Hfg Hgg; assert (Hi : i ∈ P) by (by eapply list_elem_of_lookup_2);
    destruct (Hlk i Hi ltac:(lia)) as (b & Hb & Hgl); destruct (lk_deref _ _ _ _ Hb) as (x & Hx & Hp & _);
    destruct (sk_deref _ _ _ _ _ (sk_node _ _ _ _ H _ i Hk)) as (x' & Hx' & Hs & _); assert (x' = x) as -> by congruence;
    pose proof (fun j Hj => Hfg i j Hi Hj (Nat.le_refl i)) as Hq;
    destruct (move_skip_fields_ok ns f d P _ i (g i) H (spaced_nodup _ _ Hsp) Hk Hq Hgl) as (n1 & E1 & L1 & K1 & I1 & S1);
    (destruct fuel as [|fuel]; [lia|]); rewrite shift_step, Hx; cbn [or_abort mbind outcome_bind]; rewrite Hp; cbn [or_abort mbind outcome_bind];
    rewrite E1; cbn [mbind outcome_bind]; rewrite Hs; cbn [pred_at].
  - exists n1. split_and!; [done..|]. eapply skips_ok_ext; [done| |done|exact S1]. intros j Hj. cbn beta. unfold fn_upd.
    apply list_elem_of_lookup in Hj as [m Hm]. destruct (decide (j = i)) as [->|Hn]; [by rewrite decide_True|].
    rewrite decide_False; [done|]. intros Hle. pose proof (spaced_index _ _ _ _ _ _ Hsp Hm Hk Hle). assert (m = 0%nat) as -> by lia. congruence.
  - destruct (lookup_lt_is_Some_2 P k) as [i1 Hi1]; [apply lookup_lt_Some in Hk; lia|]. rewrite Hi1. cbn [fmap option_fmap option_map].
    pose proof (spaced_lt _ _ k (S k) _ _ Hsp Hi1 Hk ltac:(lia)) as Hlt.
    rewrite <- (fn_upd_ne f i (g i) i1) by lia.
    destruct (IH (fn_upd f i (g i)) n1 i1 fuel g d P lo Hsp Hi1 S1 ltac:(lia)) as (n2 & E2 & L2 & K2 & I2 & S2).
    + intros j Hj Hle. rewrite fn_upd_ne by lia. rewrite K1, L1. apply Hlk; [done|lia].
    + intros j j' Hj Hj' Hle. unfold fn_upd. case_decide as Hd; [subst j'|by apply Hfg; [..|lia]]. intros E. pose proof (Hgg i j Hi Hj ltac:(lia) ltac:(lia) E). lia.
    + intros j j' Hj Hj' Hle Hle'. apply Hgg; [done..|lia|lia].
    + exists n2. split; [exact E2|]. split; [lia|]. split; [by eauto|]. split; [by eauto|]. eapply skips_ok_ext; [done| |done|exact S2].
      intros j Hj. cbn beta. unfold fn_upd. apply list_elem_of_lookup in Hj as [m Hm].
      destruct (decide (j <= i1)%nat); [by rewrite decide_True by lia|]. destruct (decide (j = i)) as [->|Hn]; [by rewrite decide_True|].
      rewrite decide_False; [done|]. intros Hle. pose proof (spaced_index _ _ _ _ _ _ Hsp Hm Hk Hle).
      destruct (decide (m = S k)) as [->|]; [congruence|]. assert (m <= k)%nat by lia.
      destruct (decide (m = k)) as [->|]; [assert (j = i1) by congruence; lia|]. pose proof (spaced_lt _ _ m k _ _ Hsp Hm Hi1 ltac:(lia)). lia.
Qed.

(** ** The list *)

Record links_ok (ns : list line_ref_t) (L : list nat) : Prop := {
  lk_nodup : NoDup L;
  lk_node : forall i p, L !! i = Some p -> lk ns p = Some (pred_at L i, L !! S i)
}.

Lemma links_ok_keeps ns ns' L : keeps lk ns ns' -> links_ok ns L -> links_ok ns' L.
Proof. intros Hk [H1 H2]. constructor; [done|]. intros i p Hi. rewrite Hk. auto. Qed.

(** A position and its node: the depth says whether the skip list has it. *)
Lemma node_at ns L f d P i p : links_ok ns L -> skips_ok ns f d P -> (forall j, j ∈ P -> L !! j = Some (f j)) -> L !! i = Some p ->
  exists x, ns !! p = Some x /\ prev x = pred_at L i /\ next x = L !! S i /\ (i ∈ P -> f i = p /\ depth x = d i) /\ (i ∉ P -> depth x = -1).
Proof.
  intros HL HS Hf Hi. destruct (lk_deref _ _ _ _ (lk_node _ _ HL i p Hi)) as (x & Hx & E1 & E2). exists x. split_and!; [done..| |].
  - intros Hp. pose proof (Hf i Hp) as E. rewrite Hi in E. injection E as E. split; [done|]. apply list_elem_of_lookup in Hp as [k Hk].
    pose proof (sk_node _ _ _ _ HS k i Hk) as Hs. rewrite <- E in Hs. destruct (sk_deref _ _ _ _ _ Hs) as (y & Hy & _ & _ & Hd). congruence.
  - intros Hp. assert (Hs : sk ns p = Some (prev_skip x, next_skip x, depth x)) by (unfold sk; by rewrite Hx).
    cut ((prev_skip x, next_skip x, depth x) = (None, None, -1)); [congruence|]. apply (sk_rest _ _ _ _ HS p _ Hs).
    intros j Hj E'. pose proof (Hf j Hj) as Hj'. rewrite E' in Hj'. assert (j = i) as -> by exact (proj1 (NoDup_alt _) (lk_nodup _ _ HL) _ _ _ Hj' Hi). done.
Qed.

(** *** The way back *)
Lemma back_step fuel ns s dist : back_loop (S fuel) ns (Some s) dist =
  (x ← or_abort (ns !! s); if depth x =? -1 then back_loop fuel ns (prev x) (dist + 1) else Ret (dist + depth x, Some s)).
Proof. done. Qed.
Lemma back_loop_ok ns L f P : links_ok ns L -> skips_ok ns f Z.of_nat P -> (forall j, j ∈ P -> L !! j = Some (f j)) ->
  forall i fuel p dist, L !! i = Some p -> (i < fuel)%nat ->
  exists skip, back_loop (S fuel) ns (Some p) dist = Ret (dist + Z.of_nat i, skip) /\
    match skip with
    | Some s => exists k i0, P !! k = Some i0 /\ s = f i0 /\ (i0 <= i)%nat /\ forall j, j ∈ P -> (j <= i)%nat -> (j <= i0)%nat
    | None => forall j, j ∈ P -> (i < j)%nat
    end.
Proof.
  intros HL HS Hf. induction i as [|i IH]; intros fuel p dist Hi Hfuel; destruct (node_at _ _ _ _ _ _ _ HL HS Hf Hi) as (x & Hx & Hp & _ & Hin & Hout);
    (destruct fuel as [|fuel]; [lia|]); rewrite back_step, Hx; cbn [or_abort mbind outcome_bind].
  - destruct (decide (0%nat ∈ P)) as [H0|H0].
    + destruct (Hin H0) as [E ->]. rewrite (proj2 (Z.eqb_neq _ _)) by lia. exists (Some p). split; [done|].
      apply list_elem_of_lookup in H0 as [k Hk]. exists k, 0%nat. split_and!; [done..|]. intros; lia.
    + rewrite (Hout H0), Z.eqb_refl, Hp. cbn [pred_at back_loop]. exists None. split; [do 2 f_equal; lia|].
      intros j Hj. destruct j; [done|lia].
  - destruct (decide (S i ∈ P)) as [H0|H0].
    + destruct (Hin H0) as [E ->]. rewrite (proj2 (Z.eqb_neq _ _)) by lia. exists (Some p). split; [done|].
      apply list_elem_of_lookup in H0 as [k Hk]. exists k, (S i). split_and!; [done..|]. intros; lia.
    + rewrite (Hout H0), Z.eqb_refl, Hp. cbn [pred_at]. destruct (lookup_lt_is_Some_2 L i) as [q Hq]; [apply lookup_lt_Some in Hi; lia|]. rewrite Hq.
      destruct (IH fuel q (dist + 1) Hq ltac:(lia)) as (skip & E & Hs). exists skip. split; [rewrite E; do 2 f_equal; lia|].
      destruct skip as [s|].
      * destruct Hs as (k & i0 & Hk & -> & Hle & Hmax). exists k, i0. split_and!; [done|done|lia|]. intros j Hj Hj'.
        destruct (decide (j = S i)) as [->|]; [done|]. apply Hmax; [done|lia].
      * intros j Hj. pose proof (Hs j Hj). destruct (decide (j = S i)) as [->|]; [done|lia].
Qed.

Lemma brute_loop_ok ns L : links_ok ns L -> forall n i fuel p r q dist, L !! i = Some p -> L !! r = Some q -> (i + n = r)%nat -> (n < fuel)%nat ->
  brute_loop fuel ns (Some p) q dist = Ret (dist + Z.of_nat n).
Proof.
  intros HL. induction n as [|n IH]; intros i fuel p r q dist Hi Hr Hn Hf; (destruct fuel as [|fuel]; [lia|]); cbn [brute_loop or_abort mbind outcome_bind].
  - assert (i = r) as -> by lia. rewrite decide_True by congruence. f_equal. lia.
  - rewrite decide_False. 2: { intros ->. pose proof (proj1 (NoDup_alt _) (lk_nodup _ _ HL) _ _ _ Hi Hr). lia. }
    destruct (lk_deref _ _ _ _ (lk_node _ _ HL i p Hi)) as (x & Hx & _ & Hnx). unfold deref. rewrite Hx. cbn [or_abort mbind outcome_bind]. rewrite Hnx.
    destruct (lookup_lt_is_Some_2 L (S i)) as [p' Hp']; [apply lookup_lt_Some in Hr; lia|]. rewrite Hp'.
    rewrite (IH (S i) fuel p' r q (dist + 1) Hp' Hr ltac:(lia) ltac:(lia)). f_equal. lia.
Qed.

(** *** Taking a node out and putting it in front *)

Lemma lookup_moved (L : list nat) r ref j : (ref :: delete r L) !! S j = if decide (j < r)%nat then L !! j else L !! S j.
Proof. cbn. case_decide; [by apply list_lookup_delete_lt|apply list_lookup_delete_ge; lia]. Qed.

Lemma relink_ok ns L r ref h : links_ok ns L -> L !! r = Some ref -> (1 <= r)%nat -> L !! 0%nat = Some h ->
  exists ns', relink ns ref (Some h) = Ret ns' /\ length ns' = length ns /\ keeps sk ns ns' /\ keeps inf ns ns' /\ links_ok ns' (ref :: delete r L).
Proof.
  intros HL Hr Hr1 Hh. destruct (lookup_lt_is_Some_2 L (r - 1)) as [p Hp]; [apply lookup_lt_Some in Hr; lia|].
  assert (Hne : forall a b x y, L !! a = Some x -> L !! b = Some y -> a <> b -> x <> y).
  { intros a b x y Ha Hb Hab ->. exact (Hab (proj1 (NoDup_alt _) (lk_nodup _ _ HL) _ _ _ Ha Hb)). }
  assert (Hlen : forall a x, L !! a = Some x -> (x < length ns)%nat) by (intros a x Ha; eapply lk_bound; exact (lk_node _ _ HL a x Ha)).
  assert (Hpr : pred_at L r = Some p) by (destruct r as [|m]; [lia|]; cbn in *; by replace (m - 0)%nat with m in Hp by lia).
  destruct (lk_deref _ _ _ _ (lk_node _ _ HL r ref Hr)) as (x & Hx & E1 & E2). rewrite Hpr in E1.
  unfold relink, deref. rewrite Hx. cbn [or_abort mbind outcome_bind]. rewrite E1, E2. cbn [or_abort mbind outcome_bind].
  destruct (upd_ok p (set_next (L !! S r)) ns) as (n1 & -> & L1 & Q1); [by eapply Hlen|]. cbn [mbind outcome_bind].
  destruct (upd_if_ok (L !! S r) (set_prev (Some p)) n1) as (n2 & -> & L2 & Q2); [intros q Hq; rewrite L1; by eapply Hlen|]. cbn [mbind outcome_bind].
  destruct (upd_ok ref (set_prev None) n2) as (n3 & -> & L3 & Q3); [rewrite L2, L1; by eapply Hlen|]. cbn [mbind outcome_bind].
  destruct (upd_ok ref (set_next (Some h)) n3) as (n4 & -> & L4 & Q4); [rewrite L3, L2, L1; by eapply Hlen|]. cbn [mbind outcome_bind].
  destruct (upd_ok h (set_prev (Some ref)) n4) as (n5 & E5 & L5 & Q5); [rewrite L4, L3, L2, L1; by eapply Hlen|].
  exists n5. split; [exact E5|]. split; [lia|]. split; [|split].
  { intros q. unfold sk. rewrite Q5, Q4, Q3, Q2, Q1. repeat case_decide; by destruct (ns !! q). }
  { intros q. unfold inf. rewrite Q5, Q4, Q3, Q2, Q1. repeat case_decide; by destruct (ns !! q). }
  assert (Hlk : forall q, lk n5 q = (fun '(u, v) =>
      (if decide (h = q) then Some ref else if decide (ref = q) then None else if decide (L !! S r = Some q) then Some p else u,
       if decide (ref = q) then Some h else if decide (p = q) then L !! S r else v)) <$> lk ns q).
  { intros q. unfold lk. rewrite Q5, Q4, Q3, Q2, Q1. destruct (ns !! q) as [y|]; [|by repeat case_decide]. by repeat case_decide. }
  constructor.
  { apply NoDup_cons. split; [|apply (sublist_NoDup _ L); [apply HL|apply sublist_delete]].
    intros Hin. apply list_elem_of_lookup in Hin as [j Hj]. pose proof (lookup_moved L r ref j) as E. change ((ref :: delete r L) !! S j) with (delete r L !! j) in E. rewrite Hj in E.
    case_decide; symmetry in E; by apply (Hne _ _ _ _ E Hr ltac:(lia)). }
  intros [|j] q Hq.
  - injection Hq as <-. rewrite Hlk, (lk_node _ _ HL r ref Hr). cbn [fmap option_fmap option_map]. rewrite lookup_moved, (decide_True (P := (0 < r)%nat)) by lia.
    rewrite decide_False by (apply (Hne 0%nat r); [done..|lia]). rewrite !(decide_True (P := ref = ref)) by done. by rewrite Hh.
  - rewrite !lookup_moved in *. cbn [pred_at]. destruct (decide (j < r)%nat) as [Hj|Hj].
    + rewrite Hlk, (lk_node _ _ HL j q Hq). cbn [fmap option_fmap option_map].
      rewrite !(decide_False (P := ref = q)) by (apply not_eq_sym, (Hne j r); [done..|lia]).
      rewrite (decide_False (P := L !! S r = Some q)) by (intros E; apply (Hne _ _ _ _ E Hq); [lia|done]). f_equal. f_equal.
      * destruct j as [|j]; [rewrite decide_True by congruence; done|]. rewrite decide_False by (apply (Hne 0%nat (S j)); [done..|lia]).
        rewrite lookup_moved, decide_True by lia. done.
      * destruct (decide (S j < r)%nat); [rewrite decide_False by (apply (Hne (r - 1)%nat j); [done..|lia]); done|].
        assert (r = S j) as -> by lia. replace (S j - 1)%nat with j in Hp by lia. rewrite decide_True by congruence. done.
    + rewrite Hlk, (lk_node _ _ HL (S j) q Hq). cbn [fmap option_fmap option_map].
      rewrite !(decide_False (P := ref = q)) by (apply not_eq_sym, (Hne (S j) r); [done..|lia]).
      rewrite (decide_False (P := h = q)) by (apply (Hne 0%nat (S j)); [done..|lia]). rewrite (decide_False (P := p = q)) by (apply (Hne (r - 1)%nat (S j)); [done..|lia]).
      f_equal. f_equal; [|by rewrite decide_False by lia].
      destruct j as [|j]; [lia|]. rewrite lookup_moved. destruct (decide (j < r)%nat).
      * assert (r = S j) as -> by lia. rewrite decide_True by done. replace (S j - 1)%nat with j in Hp by lia. congruence.
      * rewrite decide_False; [done|]. intros E. apply (Hne _ _ _ _ E Hq); [lia|done].
Qed.

(** ** Adding a node *)

Definition first_skip (L P : list nat) : nat := match P with [] => length L | i :: _ => i end.

Lemma count_loop_ok ns L f d P D : links_ok ns L -> skips_ok ns f d P -> (forall j, j ∈ P -> L !! j = Some (f j)) -> (forall j, j ∈ P -> 0 <= d j) -> spaced 0 P ->
  forall n i fuel skip, (i + n = first_skip L P)%nat -> (n < fuel)%nat ->
  count_loop fuel ns D (L !! i) (Z.of_nat i) skip =
    Ret (Z.of_nat (first_skip L P), L !! first_skip L P, if decide (Z.of_nat i < D <= Z.of_nat (first_skip L P)) then L !! Z.to_nat (D - 1) else skip).
Proof.
  intros HL HS Hf Hd Hsp. induction n as [|n IH]; intros i fuel skip Hi Hfuel; (destruct fuel as [|fuel]; [lia|]).
  - assert (i = first_skip L P) as -> by lia. rewrite decide_False by lia. cbn [count_loop].
    destruct (L !! first_skip L P) as [p|] eqn:Hp; [|done].
    destruct (node_at _ _ _ _ _ _ _ HL HS Hf Hp) as (x & Hx & _ & _ & Hin & _). unfold deref. rewrite Hx. cbn [or_abort mbind outcome_bind].
    destruct P as [|a P]; [apply lookup_lt_Some in Hp; cbn in Hp; lia|]. assert (Ha : a ∈ a :: P) by apply list_elem_of_here.
    destruct (Hin Ha) as [_ ->]. rewrite (proj2 (Z.eqb_neq _ _)); [done|]. specialize (Hd a Ha). cbn. lia.
  - assert (Hc : (first_skip L P <= length L)%nat).
    { destruct P as [|a P]; [done|]. cbn. pose proof (Hf a ltac:(apply list_elem_of_here)) as E. apply lookup_lt_Some in E. lia. }
    destruct (lookup_lt_is_Some_2 L i) as [p Hp]; [lia|]. destruct (node_at _ _ _ _ _ _ _ HL HS Hf Hp) as (x & Hx & _ & Hnx & _ & Hout).
    assert (Hni : i ∉ P). { intros Hin. destruct P as [|a P]; [by apply elem_of_nil in Hin|]. apply list_elem_of_lookup in Hin as [k Hk].
      assert (a <= i)%nat; [|cbn in Hi; lia]. destruct k; [injection Hk as ->; lia|]. pose proof (spaced_lt _ _ 0 (S k) a i Hsp eq_refl Hk ltac:(lia)). lia. }
    cbn [count_loop]. rewrite Hp. unfold deref. rewrite Hx. cbn [or_abort mbind outcome_bind]. rewrite (Hout Hni), Z.eqb_refl, Hnx.
    replace (Z.of_nat i + 1) with (Z.of_nat (S i)) by lia. rewrite (IH (S i) fuel _ ltac:(lia) ltac:(lia)). do 2 f_equal.
    destruct (Z.eqb_spec (Z.of_nat (S i)) D) as [E|E].
    + rewrite decide_False by lia. rewrite decide_True by lia. rewrite <- Hp. f_equal. lia.
    + repeat case_decide; done || lia.
Qed.

(** The stores of [new_skip]. *)
Lemma new_skip_store ns s node D : sk ns s = Some (None, None, -1) -> (forall n, node = Some n -> n <> s /\ exists v w, sk ns n = Some (None, v, w)) ->
  exists ns', new_skip ns D (Some s) node = Ret ns' /\ length ns' = length ns /\ keeps lk ns ns' /\ keeps inf ns ns' /\
    forall q, sk ns' q = if decide (s = q) then Some (None, node, D - 1) else (fun '(u, v, w) => (if decide (node = Some q) then Some s else u, v, w)) <$> sk ns q.
Proof.
  intros Hi Hnode. destruct (sk_deref _ _ _ _ _ Hi) as (x & Hx & X1 & _ & _). pose proof (sk_bound _ _ _ Hi) as Hs.
  assert (Hns : node <> Some s) by (intros E; by destruct (Hnode _ E)).
  unfold new_skip. cbn [or_abort mbind outcome_bind]. destruct (upd_ok s (set_depth (D - 1)) ns Hs) as (n1 & -> & L1 & Q1). cbn [mbind outcome_bind].
  assert (exists n2, (match node with
        | None => Ret n1
        | Some n => x ← deref n1 n; _ ← check (bool_decide (prev_skip x = None)); upd n (set_prev_skip (Some s)) n1
        end) = Ret n2 /\ length n2 = length n1 /\ forall q : nat, n2 !! q = if decide (node = Some q) then set_prev_skip (Some s) <$> n1 !! q else n1 !! q) as (n2 & E2 & L2 & Q2).
  { destruct node as [n|]; [|exists n1; split_and!; [done..|]; intros q; by rewrite decide_False].
    destruct (Hnode _ eq_refl) as (Hn & v & w & Ha). destruct (sk_deref _ _ _ _ _ Ha) as (y & Hy & Y1 & _).
    unfold deref. rewrite Q1, decide_False by congruence. rewrite Hy. cbn [or_abort mbind outcome_bind]. rewrite Y1, bool_decide_eq_true_2 by done. cbn [check mbind outcome_bind].
    destruct (upd_ok n (set_prev_skip (Some s)) n1) as (n2 & E2 & L2 & Q2); [rewrite L1; by eapply sk_bound|]. exists n2. split_and!; [exact E2|done|].
    intros q. rewrite Q2. destruct (decide (n = q)) as [->|]; [by rewrite decide_True|]. rewrite decide_False by congruence. done. }
  setoid_rewrite E2. cbn [mbind outcome_bind]. destruct (upd_ok s (set_next_skip node) n2) as (n3 & -> & L3 & Q3); [lia|]. cbn [mbind outcome_bind].
  assert (Hx3 : n3 !! s = Some (set_next_skip node (set_depth (D - 1) x))) by (rewrite Q3, decide_True, Q2, decide_False, Q1, decide_True, Hx by done; done).
  unfold deref. rewrite Hx3. cbn [or_abort mbind outcome_bind]. cbn [prev_skip set_next_skip set_depth set_skips]. rewrite X1, bool_decide_eq_true_2 by done. cbn [check mbind outcome_bind].
  exists n3. split; [done|]. split; [lia|]. split; [|split].
  - intros q. unfold lk. rewrite Q3, Q2, Q1. repeat case_decide; by destruct (ns !! q).
  - intros q. unfold inf. rewrite Q3, Q2, Q1. repeat case_decide; by destruct (ns !! q).
  - intros q. unfold sk. destruct (decide (s = q)) as [<-|N]; [rewrite Hx3; cbn; by rewrite X1|].
    rewrite Q3, decide_False, Q2 by done. rewrite Q1, (decide_False (P := s = q)) by done. destruct (ns !! q); by case_decide.
Qed.

(** A node for position [e], in front of all others. *)
Lemma new_skip_ok ns f d P e s D : skips_ok ns f d P -> (s < length ns)%nat -> (forall j, j ∈ P -> f j <> s /\ j <> e) ->
  exists ns', new_skip ns D (Some s) (f <$> List.hd_error P) = Ret ns' /\ length ns' = length ns /\ keeps lk ns ns' /\ keeps inf ns ns' /\
    skips_ok ns' (fn_upd f e s) (fun j => if decide (j = e) then D - 1 else d j) (e :: P).
Proof.
  intros HS Hs Hj. set (node := f <$> List.hd_error P).
  assert (Hnode : forall n, node = Some n -> exists a P', P = a :: P' /\ n = f a /\ sk ns n = Some (None, f <$> P' !! 0%nat, d a)).
  { intros n E. unfold node in E. destruct P as [|a P']; [done|]. injection E as <-. exists a, P'. split_and!; [done..|]. exact (sk_node _ _ _ _ HS 0%nat a eq_refl). }
  assert (Hs0 : sk ns s = Some (None, None, -1)).
  { destruct (sk ns s) as [t|] eqn:E; [|unfold sk in E; apply fmap_None in E; apply lookup_ge_None in E; lia]. f_equal. apply (sk_rest _ _ _ _ HS s t E). intros i Hi. by apply Hj. }
  destruct (new_skip_store ns s node D Hs0) as (n3 & E3 & L3 & K3 & I3 & Hsk).
  { intros n E. destruct (Hnode _ E) as (a & P' & -> & -> & Ha). split; [apply Hj; apply list_elem_of_here|by eauto]. }
  exists n3. split; [exact E3|]. split; [done|]. split; [exact K3|]. split; [exact I3|].
  assert (Hfe : forall j, j ∈ P -> fn_upd f e s j = f j) by (intros j Hj'; apply fn_upd_ne; by apply Hj).
  assert (Hfo : forall o : option nat, (forall a, o = Some a -> a ∈ P) -> fn_upd f e s <$> o = f <$> o) by (intros [a|] Ho; [cbn; by rewrite Hfe by auto|done]).
  constructor.
  - intros i j [->|Hi]%elem_of_cons [->|Hj']%elem_of_cons; rewrite ?fn_upd_eq; rewrite ?(Hfe i), ?(Hfe j) by done; try done.
    + intros E. by destruct (Hj j Hj').
    + intros E. by destruct (Hj i Hi).
    + by apply (sk_inj _ _ _ _ HS).
  - intros [|k] i Hk.
    + injection Hk as <-. rewrite Hsk, fn_upd_eq, !decide_True by done. cbn [pred_at fmap option_fmap option_map]. do 3 f_equal.
      change ((e :: P) !! 1%nat) with (P !! 0%nat). unfold node. rewrite Hfo; [by destruct P|]. intros a Ha. by eapply list_elem_of_lookup_2.
    + change (P !! k = Some i) in Hk. assert (Hin : i ∈ P) by (by eapply list_elem_of_lookup_2). destruct (Hj i Hin) as [N1 N2].
      rewrite Hsk, (Hfe i Hin), decide_False, (decide_False (P := i = e)) by done. rewrite (sk_node _ _ _ _ HS k i Hk). cbn [fmap option_fmap option_map]. do 3 f_equal.
      * destruct (decide (node = Some (f i))) as [E|N].
        { destruct (Hnode _ E) as (a & P' & -> & E' & _). apply (sk_inj _ _ _ _ HS) in E'; [|done|apply list_elem_of_here]. subst a.
          destruct k as [|k]; [cbn; by rewrite fn_upd_eq|]. exfalso. pose proof (sk_node _ _ _ _ HS (S k) i Hk) as A1. pose proof (sk_node _ _ _ _ HS 0%nat i eq_refl) as A2.
          rewrite A1 in A2. injection A2 as A2 _. cbn in A2. cbn in Hk. destruct (lookup_lt_is_Some_2 (i :: P') k) as [z Hz]; [apply lookup_lt_Some in Hk; cbn; lia|].
          rewrite Hz in A2. done. }
        destruct k as [|k]; [exfalso; apply N; unfold node; destruct P; [done|]; by injection Hk as ->|].
        change (pred_at (e :: P) (S (S k))) with (P !! k). change (pred_at P (S k)) with (P !! k). rewrite (Hfo (P !! k)) by (intros a Ha; by eapply list_elem_of_lookup_2). done.
      * change ((e :: P) !! S (S k)) with (P !! S k). rewrite Hfo; [done|]. intros a Ha. by eapply list_elem_of_lookup_2.
  - intros q t. rewrite Hsk. intros Ht Hq. destruct (decide (s = q)) as [<-|N]; [destruct (Hq e ltac:(apply list_elem_of_here)); apply fn_upd_eq|].
    apply fmap_Some in Ht as ([[u v] w] & Ht & ->).
    assert (Hq' : forall i, i ∈ P -> f i <> q) by (intros i Hi; rewrite <- (Hfe i Hi); apply Hq; by apply elem_of_cons; right).
    rewrite decide_False; [exact (sk_rest _ _ _ _ HS q _ Ht Hq')|]. intros E. destruct (Hnode _ E) as (a & P' & -> & -> & _). by apply (Hq' a ltac:(apply list_elem_of_here)).
Qed.

Lemma deepen_ok B : forall A ns f d P fuel, P = A ++ B -> NoDup P -> skips_ok ns f d P -> (length B <= fuel)%nat ->
  exists ns', deepen (S fuel) ns (f <$> List.hd_error B) = Ret ns' /\ length ns' = length ns /\ keeps lk ns ns' /\ keeps inf ns ns' /\
    skips_ok ns' f (fun j => if decide (j ∈ B) then d j + 1 else d j) P.
Proof.
  induction B as [|i B IH]; intros A ns f d P fuel HP Hnd HS Hfuel.
  - exists ns. split; [done|]. split_and!; [done..|]. eapply skips_ok_ext; [..|exact HS]; [done|done|]. intros j Hj. rewrite decide_False; [done|]. by apply not_elem_of_nil.
  - destruct fuel as [|fuel]; [cbn in Hfuel; lia|]. assert (Hk : P !! length A = Some i) by (subst P; by apply list_lookup_middle).
    assert (Hi : i ∈ P) by (by eapply list_elem_of_lookup_2).
    assert (HiB : i ∉ B). { subst P. apply NoDup_app in Hnd as (_ & _ & Hnd). by apply NoDup_cons in Hnd as [? _]. }
    pose proof (sk_node _ _ _ _ HS _ _ Hk) as Hs. destruct (sk_deref _ _ _ _ _ Hs) as (x & Hx & _ & Hn & Hd).
    change (f <$> List.hd_error (i :: B)) with (Some (f i)).
    change (deepen (S (S fuel)) ns (Some (f i))) with (x ← or_abort (ns !! f i); ns ← upd (f i) (set_depth (depth x + 1)) ns; deepen (S fuel) ns (next_skip x)).
    rewrite Hx. cbn [or_abort mbind outcome_bind]. rewrite Hd.
    destruct (upd_ok (f i) (set_depth (d i + 1)) ns) as (n1 & -> & L1 & Q1); [by eapply sk_bound|]. cbn [mbind outcome_bind]. rewrite Hn.
    assert (HS1 : skips_ok n1 f (fun j => if decide (j = i) then d j + 1 else d j) P).
    { assert (Hsk : forall q, sk n1 q = if decide (f i = q) then (fun '(u, v, w) => (u, v, d i + 1)) <$> sk ns q else sk ns q).
      { intros q. unfold sk. rewrite Q1. case_decide; [|done]. by destruct (ns !! q). }
      constructor; [apply HS| |].
      - intros k j Hj. rewrite Hsk, (sk_node _ _ _ _ HS k j Hj). destruct (decide (f i = f j)) as [E|N].
        + apply (sk_inj _ _ _ _ HS) in E; [|done|by eapply list_elem_of_lookup_2]. subst j. by rewrite decide_True.
        + rewrite decide_False; [done|]. intros ->. done.
      - intros q t. rewrite Hsk. intros Ht Hq. rewrite decide_False in Ht by auto. exact (sk_rest _ _ _ _ HS q t Ht Hq). }
    assert (E : f <$> P !! S (length A) = f <$> List.hd_error B).
    { subst P. rewrite lookup_app_r by lia. replace (S (length A) - length A)%nat with 1%nat by lia. by destruct B. }
    rewrite E. destruct (IH (A ++ [i]) n1 f _ P fuel ltac:(by rewrite HP, <- app_assoc) Hnd HS1 ltac:(cbn in Hfuel; lia)) as (n2 & E2 & L2 & K2 & I2 & S2).
    exists n2. split; [exact E2|]. split; [lia|].
    assert (keeps lk ns n1) by (intros q; unfold lk; rewrite Q1; case_decide; by destruct (ns !! q)).
    assert (keeps inf ns n1) by (intros q; unfold inf; rewrite Q1; case_decide; by destruct (ns !! q)).
    split; [by eauto|]. split; [by eauto|]. eapply skips_ok_ext; [done|done| |exact S2]. intros j Hj. cbn beta.
    destruct (decide (j = i)) as [->|Hn']; [rewrite (decide_False (P := i ∈ B)) by done; rewrite decide_True by apply list_elem_of_here; done|].
    destruct (decide (j ∈ B)); [by rewrite decide_True by (by apply elem_of_cons; right)|]. rewrite decide_False; [done|]. by rewrite elem_of_cons; intros [?|?].
Qed.
