(* ===== verification/ReuseList.v ===== *)
(** * What the list of lines promises

    The list refines a list of lines in the order of their last references: a
    new line comes to the front, and a line that is referenced again is moved
    there, which answers its position. *)
From S2P Require Import ReuseDistance ReuseProof.

(** ** The invariant

    [L] is the list of the nodes, [R] that of their tags and counts, [ts] their
    times, and [P] the positions of the skip list. *)

(** The gate stands at the threshold or at the end; with a threshold of zero
    it is lost with the first reference to another line. *)
Definition gate_ok (T : Z) (g : option nat) (L : list nat) : Prop :=
  if decide (T = 0) then g = None \/ g = L !! 0%nat else g = L !! Nat.min (length L - 1) (Z.to_nat T).

Fixpoint falling (t : Z) (ts : list Z) : Prop := match ts with [] => True | s :: ts => s < t /\ falling s ts end.

Record list_rep (l : line_ref_list_t) (L : list nat) (R : list (Z * Z * Z)) (ts : list Z) (P : list nat) : Prop := {
  r_length : length L = length (nodes l) /\ length R = length L /\ length ts = length L;
  r_head : head l = L !! 0%nat;
  r_links : links_ok (nodes l) L;
  r_skips : skips_ok (nodes l) (L !!!.) Z.of_nat P;
  r_spaced : spaced 1 P;
  r_short : forall j, j ∈ P -> (j < length L)%nat;
  r_info : forall i p t a d s, L !! i = Some p -> R !! i = Some (t, a, d) -> ts !! i = Some s -> inf (nodes l) p = Some (s, a, d, t);
  r_times : falling (cur_time l) ts;
  r_gate : gate_ok (threshold l) (gate l) L;
  r_unique : unique_lines l = Z.of_nat (length L)
}.

(** The options: no skip list, or one of two steps at least. *)
Record options_ok (l : line_ref_list_t) : Prop := {
  o_threshold : 0 <= threshold l < w32;
  o_distance : 0 <= skip_distance l < w32;
  o_not_one : skip_distance l <> 1
}.

Lemma falling_lt t ts i s : falling t ts -> ts !! i = Some s -> s < t.
Proof. revert t i. induction ts as [|a ts IH]; intros t [|i] H E; try done; destruct H as [H1 H2]; [by injection E as <-|]. pose proof (IH _ _ H2 E). lia. Qed.
Lemma falling_at t ts i j a b : falling t ts -> ts !! i = Some a -> ts !! j = Some b -> (i < j)%nat -> b < a.
Proof.
  revert t i j. induction ts as [|x ts IH]; intros t i j H Ei Ej Hij; [done|]. destruct H as [H1 H2], j as [|j]; [lia|]. destruct i as [|i].
  - injection Ei as <-. by eapply falling_lt.
  - eapply (IH _ i j); [done..|lia].
Qed.
Lemma falling_mono t t' ts : falling t ts -> t <= t' -> falling t' ts.
Proof. destruct ts; [done|]. cbn. intros [? ?] ?. split; [lia|done]. Qed.
Lemma falling_delete t ts i : falling t ts -> falling t (delete i ts).
Proof.
  revert t i. induction ts as [|x ts IH]; intros t [|i] H; try done; destruct H as [H1 H2].
  - eapply falling_mono; [exact H2|lia].
  - split; [done|]. by apply IH.
Qed.

Lemma total_at (L : list nat) i p : L !! i = Some p -> L !!! i = p.
Proof. intros H. by apply list_lookup_total_correct. Qed.
Lemma at_total (L : list nat) i : (i < length L)%nat -> L !! i = Some (L !!! i).
Proof. intros H. by apply list_lookup_lookup_total_lt. Qed.

(** Numbers below a bound that differ. *)
Lemma NoDup_incl_length_lt P n : NoDup P -> (forall j, j ∈ P -> (j < n)%nat) -> (length P <= n)%nat.
Proof.
  intros Hnd H. rewrite <- (length_seq n 0). apply NoDup_incl_length; [by apply NoDup_ListNoDup|].
  intros j Hj. apply in_seq. apply list_elem_of_In in Hj. specialize (H j Hj). lia.
Qed.

Lemma lk_inf_bound ns q x : inf ns q = Some x -> (q < length ns)%nat.
Proof. unfold inf. intros H. apply fmap_Some in H as (y & H & _). by eapply lookup_lt_Some. Qed.

(** ** A new line *)

Section Add.
Context (l : line_ref_list_t) (L : list nat) (R : list (Z * Z * Z)) (ts : list Z) (P : list nat) (t : Z).
Context (Hrep : list_rep l L R ts P) (Hopt : options_ok l) (Hsmall : Z.of_nat (length L) + 2 < w64).

Let ref := length (nodes l).
Let n0 := nodes l ++ [new_line_ref t].
Let L2 := ref :: L.
Let P2 := S <$> P.

Lemma old_lt i p : L !! i = Some p -> (p < ref)%nat.
Proof. intros H. eapply lk_bound. exact (lk_node _ _ (r_links _ _ _ _ _ Hrep) i p H). Qed.

(** The new node is linked in front. *)
Lemma link_front : exists n2, (ns ← upd ref (set_next (head l)) n0; upd_if (head l) (set_prev (Some ref)) ns) = Ret n2 /\
  length n2 = length n0 /\ keeps sk n0 n2 /\ keeps inf n0 n2 /\ links_ok n2 L2.
Proof.
  rewrite (r_head _ _ _ _ _ Hrep). assert (Hl0 : length n0 = S ref) by (unfold n0; rewrite length_app; cbn; lia).
  destruct (upd_ok ref (set_next (L !! 0%nat)) n0) as (n1 & -> & L1 & Q1); [lia|]. cbn [mbind outcome_bind].
  destruct (upd_if_ok (L !! 0%nat) (set_prev (Some ref)) n1) as (n2 & E2 & Ln2 & Q2); [intros p Hp; pose proof (old_lt _ _ Hp); lia|].
  exists n2. split; [exact E2|]. split; [lia|]. split; [|split].
  { intros q. unfold sk. rewrite Q2, Q1. repeat case_decide; by destruct (n0 !! q). }
  { intros q. unfold inf. rewrite Q2, Q1. repeat case_decide; by destruct (n0 !! q). }
  assert (Hlk : forall q, lk n2 q = (fun '(u, v) => (if decide (L !! 0%nat = Some q) then Some ref else u, if decide (ref = q) then L !! 0%nat else v)) <$> lk n0 q).
  { intros q. unfold lk. rewrite Q2, Q1. destruct (n0 !! q) as [y|]; [|by repeat case_decide]. by repeat case_decide. }
  pose proof (lk_nodup _ _ (r_links _ _ _ _ _ Hrep)) as Hnd.
  constructor.
  - apply NoDup_cons. split; [|done]. intros Hin. apply list_elem_of_lookup in Hin as [i Hi]. pose proof (old_lt _ _ Hi). lia.
  - intros [|i] p Hp.
    + injection Hp as <-. rewrite Hlk. unfold lk at 1, n0. rewrite lookup_app_r by (fold ref; lia). fold ref. rewrite Nat.sub_diag. cbn.
      rewrite decide_False by (intros E; pose proof (old_lt _ _ E); lia). by rewrite decide_True.
    + change (L !! i = Some p) in Hp. pose proof (old_lt _ _ Hp) as Hlt. rewrite Hlk. unfold lk at 1, n0. rewrite lookup_app_l by done.
      fold (lk (nodes l) p). rewrite (lk_node _ _ (r_links _ _ _ _ _ Hrep) i p Hp). cbn [fmap option_fmap option_map]. rewrite (decide_False (P := ref = p)) by lia.
      change (L2 !! S (S i)) with (L !! S i). do 2 f_equal. destruct i as [|i]; [by rewrite decide_True|]. rewrite decide_False; [done|].
      intros E. pose proof (proj1 (NoDup_alt _) Hnd _ _ _ E Hp). lia.
Qed.

Lemma L2_agree j : j ∈ P2 -> L2 !! j = Some (L2 !!! j).
Proof. intros Hj. apply at_total. apply list_elem_of_fmap in Hj as (i & -> & Hi). cbn. pose proof (r_short _ _ _ _ _ Hrep i Hi). lia. Qed.

Lemma skips_shifted ns : keeps sk n0 ns -> skips_ok ns (L2 !!!.) (fun j => Z.of_nat j - 1) P2.
Proof.
  intros Hk. pose proof (r_skips _ _ _ _ _ Hrep) as [H1 H2 H3].
  assert (Hs : forall k, P2 !! k = S <$> P !! k) by (intros k; apply list_lookup_fmap).
  constructor.
  - intros i j Hi Hj. apply list_elem_of_fmap in Hi as (i' & -> & Hi), Hj as (j' & -> & Hj). change (L2 !!! S i') with (L !!! i'). change (L2 !!! S j') with (L !!! j').
    intros E. by rewrite (H1 i' j' Hi Hj E).
  - intros k j Hj. rewrite Hs in Hj. apply fmap_Some in Hj as (i & Hi & ->). change (L2 !!! S i) with (L !!! i). rewrite Hk.
    pose proof (H2 k i Hi) as E. unfold sk, n0 in *. rewrite lookup_app_l by (by apply (sk_bound _ _ _ E)). rewrite E. do 3 f_equal; [|rewrite Hs; by destruct (P !! S k)|lia].
    destruct k as [|k]; [done|]. cbn [pred_at]. rewrite Hs. by destruct (P !! k).
  - intros q s. rewrite Hk. unfold sk, n0. intros Hq Hf. destruct (decide (q < ref)%nat) as [Hlt|Hge].
    + rewrite lookup_app_l in Hq by done. apply (H3 q s Hq). intros i Hi. apply (Hf (S i)). apply list_elem_of_fmap. by exists i.
    + rewrite lookup_app_r in Hq by (fold ref; lia). fold ref in Hq. destruct (q - ref)%nat; [cbn in Hq; by injection Hq as <-|done].
Qed.

(** The gate. *)
Lemma add_gate n2 : links_ok n2 L2 -> exists g,
  (if threshold l <? unique_lines l then g ← or_abort (match gate l with None => Some ref | g => g end); x ← deref n2 g; Ret (prev x)
   else Ret (match gate l with None => Some ref | g => g end)) = Ret g /\ gate_ok (threshold l) g L2.
Proof.
  intros HL. pose proof (r_gate _ _ _ _ _ Hrep) as Hg. rewrite (r_unique _ _ _ _ _ Hrep). destruct Hopt as [HT _ _].
  assert (Hprev : forall i p, L2 !! i = Some p -> exists x, deref n2 p = Ret x /\ prev x = pred_at L2 i).
  { intros i p Hp. destruct (lk_deref _ _ _ _ (lk_node _ _ HL i p Hp)) as (x & Hx & E & _). exists x. unfold deref. by rewrite Hx. }
  unfold gate_ok in *. destruct (Z.ltb_spec (threshold l) (Z.of_nat (length L))) as [Hlt|Hge].
  - destruct (decide (threshold l = 0)) as [E0|N0].
    + destruct Hg as [-> | ->].
      * destruct (Hprev 0%nat ref eq_refl) as (x & Hx & Ex). cbn [or_abort mbind outcome_bind]. rewrite Hx. cbn [mbind outcome_bind]. rewrite Ex. exists None. split; [done|by left].
      * rewrite (at_total L 0) by lia. destruct (Hprev 1%nat _ (at_total L 0 ltac:(lia))) as (x & Hx & Ex). cbn [or_abort mbind outcome_bind]. rewrite Hx. cbn [mbind outcome_bind]. rewrite Ex.
        exists (Some ref). split; [done|by right].
    + rewrite Nat.min_r in Hg by lia. destruct (lookup_lt_is_Some_2 L (Z.to_nat (threshold l))) as [p Hp]; [lia|]. rewrite Hg, Hp.
      destruct (Hprev (S (Z.to_nat (threshold l))) p Hp) as (x & Hx & Ex). cbn [or_abort mbind outcome_bind]. rewrite Hx. cbn [mbind outcome_bind]. rewrite Ex.
      eexists. split; [reflexivity|]. cbn [length L2 pred_at]. f_equal. lia.
  - destruct L as [|p0 L'] eqn:EL.
    + assert (gate l = None) as -> by (destruct (decide (threshold l = 0)); [destruct Hg as [E|E]; exact E|exact Hg]). exists (Some ref). split; [done|]. destruct (decide (threshold l = 0)); [by right|done].
    + cbn [length] in Hge. rewrite decide_False in Hg by lia. rewrite Nat.min_l in Hg by (cbn; lia). cbn [length] in Hg. replace (S (length L') - 1)%nat with (length L') in Hg by lia.
      destruct (lookup_lt_is_Some_2 (p0 :: L') (length L')) as [p Hp]; [cbn; lia|]. rewrite Hg, Hp. exists (Some p). split; [done|].
      rewrite decide_False by lia. rewrite Nat.min_l by (cbn; lia). cbn [length L2]. replace (S (S (length L')) - 1)%nat with (S (length L')) by lia. symmetry. exact Hp.
Qed.
(** The skip list gets a node if its first one is far, and all others move on. *)
Lemma add_skips n3 : links_ok n3 L2 -> keeps sk n0 n3 -> length n3 = S ref ->
  exists count node skip n4 n5 P', count_loop (S (length n0)) n3 (skip_distance l) (Some ref) 0 None = Ret (count, node, skip) /\
    (if u64 (2 * skip_distance l - 1) <=? count then new_skip n3 (skip_distance l) skip node else Ret n3) = Ret n4 /\
    deepen (S (length n0)) n4 node = Ret n5 /\
    length n5 = length n3 /\ keeps lk n3 n5 /\ keeps inf n3 n5 /\ skips_ok n5 (L2 !!!.) Z.of_nat P' /\ spaced 1 P' /\ forall j, j ∈ P' -> (j < length L2)%nat.
Proof.
  intros HL Hk Hn3. pose proof (skips_shifted n3 Hk) as HS. pose proof (r_spaced _ _ _ _ _ Hrep) as Hsp. pose proof (spaced_S _ _ Hsp) as Hsp2. fold P2 in Hsp2.
  destruct (r_length _ _ _ _ _ Hrep) as (Hlen & _ & _). destruct Hopt as [_ HD HD1].
  assert (Hn0 : length n0 = S ref) by (unfold n0; rewrite length_app; cbn; lia).
  assert (Hd2 : forall j, j ∈ P2 -> 0 <= Z.of_nat j - 1) by (intros j Hj; apply list_elem_of_lookup in Hj as [k Hj]; pose proof (spaced_ge _ _ _ _ Hsp2 Hj); lia).
  set (c := first_skip L2 P2). assert (Hc : (1 <= c <= length L2)%nat).
  { unfold c, first_skip. destruct P2 as [|j P'] eqn:E; [cbn; lia|]. pose proof (spaced_ge _ _ 0 j Hsp2 eq_refl). pose proof (L2_agree j) as Hj. rewrite E in Hj.
    specialize (Hj ltac:(apply list_elem_of_here)). apply lookup_lt_Some in Hj. lia. }
  assert (Hlong : length L2 = S ref) by (cbn; unfold ref; lia).
  pose proof (count_loop_ok n3 L2 _ _ P2 (skip_distance l) HL HS L2_agree Hd2 (spaced_mono _ 0 _ Hsp2 ltac:(lia)) c 0 (S (length n0)) None eq_refl ltac:(lia)) as Ec.
  fold c in Ec. change (L2 !! 0%nat) with (Some ref) in Ec. change (Z.of_nat 0) with 0 in Ec.
  assert (Hnode : L2 !! c = (L2 !!!.) <$> List.hd_error P2).
  { unfold c, first_skip. destruct P2 as [|j P'] eqn:E; [by apply lookup_ge_None_2|]. cbn. rewrite <- (L2_agree j); [done|]. rewrite E. apply list_elem_of_here. }
  assert (HP2 : (length P2 <= length n0)%nat). { rewrite Hn0, <- Hlong. apply (NoDup_incl_length_lt P2 (length L2)); [by eapply spaced_nodup|]. intros j Hj. pose proof (L2_agree j Hj) as E. by apply lookup_lt_Some in E. }
  rewrite Hnode in Ec.
  destruct (Z.leb_spec (u64 (2 * skip_distance l - 1)) (Z.of_nat c)) as [Hfar|Hnear].
  - assert (H2 : 2 <= skip_distance l). { destruct (decide (skip_distance l = 0)) as [E|N]; [|lia]. rewrite E in Hfar. change (u64 (2 * 0 - 1)) with (w64 - 1) in Hfar. lia. }
    rewrite u64_small in Hfar by lia. set (e := Z.to_nat (skip_distance l - 1)). rewrite decide_True in Ec by lia. fold e in Ec.
    assert (He : (e < length L2)%nat) by lia. rewrite (at_total L2 e He) in Ec.
    assert (Hbehind : forall j, j ∈ P2 -> (e + 2 <= j)%nat).
    { intros j Hj. apply list_elem_of_lookup in Hj as [k Hj]. assert (c <= j)%nat; [|lia]. unfold c, first_skip. destruct P2 as [|a P']; [done|].
      destruct k; [injection Hj as ->; lia|]. pose proof (spaced_lt _ _ 0 (S k) a j Hsp2 eq_refl Hj ltac:(lia)). lia. }
    assert (Hs : (L2 !!! e < length n3)%nat) by (eapply lk_bound; exact (lk_node _ _ HL e _ (at_total L2 e He))).
    destruct (new_skip_ok n3 _ _ P2 e (L2 !!! e) (skip_distance l) HS Hs) as (n4 & E4 & L4 & K4 & I4 & S4).
    { intros j Hj. pose proof (Hbehind j Hj). split; [|lia]. intros E. pose proof (L2_agree j Hj) as Ej. rewrite E in Ej.
      pose proof (proj1 (NoDup_alt _) (lk_nodup _ _ HL) _ _ _ Ej (at_total L2 e He)). lia. }
    assert (Hsp3 : spaced 1 (e :: P2)). { split; [lia|]. destruct P2 as [|a P'] eqn:E; [done|]. split; [apply Hbehind; apply list_elem_of_here|apply Hsp2]. }
    destruct (deepen_ok P2 [e] n4 _ _ (e :: P2) (length n0) eq_refl (spaced_nodup _ _ Hsp3) S4 HP2) as (n5 & E5 & L5 & K5 & I5 & S5).
    assert (Hext : forall j, fn_upd (L2 !!!.) e (L2 !!! e) j = L2 !!! j) by (intros j; unfold fn_upd; by case_decide; subst).
    eexists _, _, _, n4, n5, (e :: P2). split; [exact Ec|]. split; [rewrite u64_small, (proj2 (Z.leb_le _ _)) by lia; exact E4|]. split.
    { rewrite <- E5. f_equal. destruct (List.hd_error P2); [cbn; by rewrite Hext|done]. }
    split; [lia|]. split; [by eauto|]. split; [by eauto|]. split; [|split; [exact Hsp3|]].
    + eapply skips_ok_ext; [done|by intros j _; apply Hext| |exact S5]. intros j [->|Hj]%elem_of_cons; cbn beta.
      * rewrite decide_False; [|intros Hj; pose proof (Hbehind e Hj); lia]. rewrite decide_True by done. lia.
      * rewrite decide_True by done. pose proof (Hbehind j Hj). rewrite decide_False by lia. lia.
    + intros j [->|Hj]%elem_of_cons; [done|]. pose proof (L2_agree j Hj) as E. by apply lookup_lt_Some in E.
  - destruct (deepen_ok P2 [] n3 _ _ P2 (length n0) eq_refl (spaced_nodup _ _ Hsp2) HS HP2) as (n5 & E5 & L5 & K5 & I5 & S5).
    eexists _, _, _, n3, n5, P2. split; [exact Ec|]. split; [by rewrite (proj2 (Z.leb_gt _ _)) by lia|]. split; [exact E5|]. split; [done|]. split; [done|]. split; [done|]. split; [|split; [eapply spaced_mono; [exact Hsp2|lia]|]].
    + eapply skips_ok_ext; [done|done| |exact S5]. intros j Hj. cbn beta. rewrite decide_True by done. lia.
    + intros j Hj. pose proof (L2_agree j Hj) as E. by apply lookup_lt_Some in E.
Qed.

Theorem add_line_ok : exists l' P', add_line l t = Ret l' /\ list_rep l' L2 ((t, 1, 0) :: R) (cur_time l :: ts) P' /\
  cur_time l' = cur_time l + 1 /\ threshold l' = threshold l /\ skip_distance l' = skip_distance l.
Proof.
  destruct (r_length _ _ _ _ _ Hrep) as (Hlen & HR & Hts). assert (Hn0 : length n0 = S ref) by (unfold n0; rewrite length_app; cbn; lia).
  destruct link_front as (n2 & E2 & L2' & K2 & I2 & HL2). destruct (upd ref (set_next (head l)) n0) as [n1| |] eqn:E1; try discriminate. cbn [mbind outcome_bind] in E2.
  destruct (add_gate n2 HL2) as (g & Eg & Hg).
  destruct (upd_ok ref (set_time (cur_time l)) n2) as (n3 & E3 & L3 & Q3); [lia|].
  assert (K3 : keeps sk n2 n3) by (intros q; unfold sk; rewrite Q3; case_decide; by destruct (n2 !! q)).
  assert (J3 : keeps lk n2 n3) by (intros q; unfold lk; rewrite Q3; case_decide; by destruct (n2 !! q)).
  destruct (add_skips n3) as (count & node & skip & n4 & n5 & P' & Ec & E4 & E5 & L5 & K5 & I5 & S5 & Hsp & Hsh); [by eapply links_ok_keeps|by eauto|lia|].
  exists (with_list l n5 (Some ref) g (cur_time l + 1) (unique_lines l + 1)), P'. split_and!; [|..|done|done|done].
  - unfold add_line, add_to_front. cbn [nodes head gate cur_time unique_lines threshold skip_distance with_list]. fold ref. fold n0. rewrite E1. cbn [mbind outcome_bind]. rewrite E2. cbn [mbind outcome_bind].
    rewrite Eg. cbn [mbind outcome_bind]. rewrite E3. cbn [mbind outcome_bind]. rewrite Ec. cbn [mbind outcome_bind]. rewrite E4. cbn [mbind outcome_bind]. rewrite E5. done.
  - constructor; cbn [nodes head gate cur_time unique_lines threshold skip_distance with_list].
    + cbn. unfold ref in *. lia.
    + done.
    + eapply links_ok_keeps; [exact K5|]. by eapply links_ok_keeps.
    + exact S5.
    + exact Hsp.
    + exact Hsh.
    + intros [|i] p t' a d s Hp Hr Hs.
      * injection Hp as <-. injection Hr as <- <- <-. injection Hs as <-. rewrite I5. unfold inf. rewrite Q3, decide_True by done.
        pose proof (I2 ref) as Hi. unfold inf, n0 in Hi. rewrite lookup_app_r in Hi by (fold ref; lia). fold ref in Hi. rewrite Nat.sub_diag in Hi. cbn in Hi.
        apply fmap_Some in Hi as (x & -> & Ex). cbn. by injection Ex as _ <- <- <-.
      * change (L !! i = Some p) in Hp. change (R !! i = Some (t', a, d)) in Hr. change (ts !! i = Some s) in Hs. pose proof (old_lt _ _ Hp) as Hlt. rewrite I5. unfold inf.
        rewrite Q3, decide_False by lia. fold (inf n2 p). rewrite I2. unfold inf, n0. rewrite lookup_app_l by done. exact (r_info _ _ _ _ _ Hrep i p t' a d s Hp Hr Hs).
    + split; [lia|apply Hrep].
    + exact Hg.
    + rewrite (r_unique _ _ _ _ _ Hrep). cbn. lia.
Qed.
End Add.

(** ** A line referenced again *)

Section Move.
Context (l : line_ref_list_t) (L : list nat) (R : list (Z * Z * Z)) (ts : list Z) (P : list nat) (r p : nat) (t a d : Z).
Context (Hrep : list_rep l L R ts P) (Hopt : options_ok l) (Hp : L !! r = Some p) (HR : R !! r = Some (t, a, d)).

Let L' := p :: delete r L.
Lemma r_lt : (r < length L)%nat.
Proof using Hp. by eapply lookup_lt_Some. Qed.
Lemma L_inj i j x : L !! i = Some x -> L !! j = Some x -> i = j.
Proof using Hrep. exact (proj1 (NoDup_alt _) (lk_nodup _ _ (r_links _ _ _ _ _ Hrep)) i j x). Qed.

Lemma time_at i : (i < length L)%nat -> exists q x s, L !! i = Some q /\ nodes l !! q = Some x /\ ts !! i = Some s /\ time_stamp x = s.
Proof using Hrep.
  intros Hi. destruct (r_length _ _ _ _ _ Hrep) as (_ & H2 & H3). destruct (lookup_lt_is_Some_2 L i Hi) as [q Hq].
  destruct (lookup_lt_is_Some_2 R i ltac:(lia)) as [[[t0 a0] d0] H0]. destruct (lookup_lt_is_Some_2 ts i ltac:(lia)) as [s Hs].
  pose proof (r_info _ _ _ _ _ Hrep _ _ _ _ _ _ Hq H0 Hs) as E. unfold inf in E. apply fmap_Some in E as (x & Hx & E). injection E as E _ _ _. by exists q, x, s.
Qed.

(** Whether a line is in front of another is a question of their times. *)
Lemma distant_at i q n1 : L !! i = Some q -> keeps (fun ns q => time_stamp <$> ns !! q) (nodes l) n1 ->
  ref_is_distant n1 (Some q) p = Ret (i <? r)%nat.
Proof using Hrep Hp.
  intros Hq Hk. destruct (time_at i) as (q' & y & s & Hq' & Hy & Hs & Ey); [by eapply lookup_lt_Some|]. assert (q' = q) as -> by congruence.
  destruct (time_at r r_lt) as (p' & x & s' & Hp' & Hx & Hs' & Ex). assert (p' = p) as -> by congruence.
  pose proof (Hk p) as K1. pose proof (Hk q) as K2. cbn beta in K1, K2. rewrite Hx in K1. rewrite Hy in K2. cbn in K1, K2.
  apply fmap_Some in K1 as (x' & Hx' & E1), K2 as (y' & Hy' & E2). unfold ref_is_distant, deref. rewrite Hx', Hy'. cbn [or_abort mbind outcome_bind]. f_equal.
  rewrite <- E1, <- E2, Ex, Ey. pose proof (r_times _ _ _ _ _ Hrep) as Hf.
  destruct (Nat.ltb_spec i r) as [Hlt|Hge].
  - apply Z.ltb_lt. exact (falling_at _ _ i r s s' Hf Hs Hs' Hlt).
  - apply Z.ltb_ge. destruct (decide (i = r)) as [->|]; [assert (s = s') by congruence; lia|]. pose proof (falling_at _ _ r i s' s Hf Hs' Hs ltac:(lia)). lia.
Qed.

Lemma L'_before j : (j < r)%nat -> L' !! S j = L !! j.
Proof. intros. unfold L'. rewrite lookup_moved. by rewrite decide_True. Qed.
Lemma L'_behind j : (r <= j)%nat -> L' !! S j = L !! S j.
Proof. intros. unfold L'. rewrite lookup_moved. rewrite decide_False by lia. done. Qed.
Lemma L'_length : length L' = length L.
Proof using Hp. unfold L'. cbn. rewrite length_delete by (by rewrite Hp). pose proof r_lt. lia. Qed.

Lemma move_gate_ok n1 : (1 <= r)%nat -> length n1 = length (nodes l) -> keeps lk (nodes l) n1 -> keeps (fun ns q => time_stamp <$> ns !! q) (nodes l) n1 ->
  exists n2 g far, move_gate n1 (gate l) p = Ret (n2, g) /\ length n2 = length n1 /\ keeps lk n1 n2 /\ keeps sk n1 n2 /\
    (forall q, inf n2 q = if decide (p = q) then (fun '(s, u, v, w) => (s, u, v + if (far : bool) then 1 else 0, w)) <$> inf n1 q else inf n1 q) /\
    gate_ok (threshold l) g L' /\ (threshold l <> 0 -> far = (threshold l <? Z.of_nat r)).
Proof using Hrep Hp Hopt.
  intros Hr1 Hlen Hk Ht. pose proof (links_ok_keeps _ _ _ Hk (r_links _ _ _ _ _ Hrep)) as HL. destruct Hopt as [HT _ _]. pose proof r_lt as Hrl.
  assert (Hprev : forall i q, L !! i = Some q -> exists x, n1 !! q = Some x /\ prev x = pred_at L i).
  { intros i q Hq. destruct (lk_deref _ _ _ _ (lk_node _ _ HL i q Hq)) as (x & Hx & E & _). by exists x. }
  assert (Hnone : (forall q, inf n1 q = if decide (p = q) then (fun '(s, u, v, w) => (s, u, v + 0, w)) <$> inf n1 q else inf n1 q)).
  { intros q. case_decide; [|done]. unfold inf. destruct (n1 !! q) as [x|]; [|done]. cbn. do 2 f_equal. f_equal. lia. }
  assert (Hfar : forall i q, gate l = Some q -> L !! i = Some q -> (i < r)%nat -> exists n2, move_gate n1 (gate l) p = Ret (n2, pred_at L i) /\ length n2 = length n1 /\ keeps lk n1 n2 /\ keeps sk n1 n2 /\
    (forall q, inf n2 q = if decide (p = q) then (fun '(s, u, v, w) => (s, u, v + 1, w)) <$> inf n1 q else inf n1 q)).
  { intros i q Eg Hq Hi. unfold move_gate. rewrite Eg, (distant_at i q n1 Hq Ht). rewrite (proj2 (Nat.ltb_lt _ _) Hi). cbn [mbind outcome_bind].
    destruct (upd_ok p count_distant n1) as (n2 & -> & L2 & Q2); [eapply lk_bound; exact (lk_node _ _ HL r p Hp)|]. cbn [mbind outcome_bind or_abort].
    assert (p <> q) by (intros ->; pose proof (L_inj _ _ _ Hq Hp); lia).
    destruct (Hprev i q Hq) as (x & Hx & Ex). unfold deref. rewrite Q2, decide_False, Hx by done. cbn [mbind outcome_bind or_abort]. rewrite Ex.
    exists n2. split_and!; [done|done|..].
    - intros z. unfold lk. rewrite Q2. case_decide; by destruct (n1 !! z).
    - intros z. unfold sk. rewrite Q2. case_decide; by destruct (n1 !! z).
    - intros z. unfold inf. rewrite Q2. case_decide; by destruct (n1 !! z). }
  assert (Hnear : forall i q, gate l = Some q -> L !! i = Some q -> (r <= i)%nat -> move_gate n1 (gate l) p = Ret (n1, if decide (r = i) then pred_at L i else Some q)).
  { intros i q Eg Hq Hi. unfold move_gate. rewrite Eg, (distant_at i q n1 Hq Ht). rewrite (proj2 (Nat.ltb_ge _ _) Hi). cbn [mbind outcome_bind].
    destruct (decide (r = i)) as [E|N].
    - rewrite decide_True by (rewrite E in Hp; congruence). destruct (Hprev r p Hp) as (x & Hx & Ex). unfold deref. rewrite Hx. cbn [mbind outcome_bind or_abort]. by rewrite Ex, E.
    - rewrite decide_False; [done|]. intros E. apply N. apply (L_inj r i p Hp). congruence. }
  pose proof (r_gate _ _ _ _ _ Hrep) as Hg. unfold gate_ok in *. rewrite L'_length. destruct (decide (threshold l = 0)) as [E0|N0].
  - destruct Hg as [Eg|Eg].
    + exists n1, None, false. unfold move_gate. rewrite Eg. cbn [ref_is_distant mbind outcome_bind]. split_and!; [done..|exact Hnone|by left|done].
    + rewrite (at_total L 0) in Eg by lia. destruct (Hfar 0%nat _ Eg (at_total L 0 ltac:(lia)) ltac:(lia)) as (n2 & E2 & L2 & K2 & S2 & I2).
      exists n2, None, true. split_and!; [exact E2|done..|exact I2|by left|done].
  - set (gi := Nat.min (length L - 1) (Z.to_nat (threshold l))) in *. assert (Hgi : (gi < length L)%nat) by lia. rewrite (at_total L gi Hgi) in Hg.
    destruct (decide (gi < r)%nat) as [Hlt|Hge].
    + destruct (Hfar gi _ Hg (at_total L gi Hgi) Hlt) as (n2 & E2 & L2 & K2 & S2 & I2). exists n2, (pred_at L gi), true. split_and!; [exact E2|done..|exact I2| |].
      * destruct gi as [|j] eqn:E; [lia|]. rewrite L'_before by lia. done.
      * intros _. symmetry. apply Z.ltb_lt. lia.
    + exists n1, (if decide (r = gi) then pred_at L gi else Some (L !!! gi)), false.
      split_and!; [by apply Hnear; [done|by apply at_total|lia]|done..|exact Hnone| |].
      * destruct (decide (r = gi)) as [E|N].
        { destruct gi as [|j] eqn:Ej; [lia|]. rewrite L'_before by lia. done. }
        destruct gi as [|j] eqn:Ej; [lia|]. rewrite L'_behind by lia. symmetry. by apply at_total.
      * intros _. symmetry. apply Z.ltb_ge. lia.
Qed.

(** The skip list keeps its positions. *)
Lemma move_skips n2 : (1 <= r)%nat -> links_ok n2 L -> skips_ok n2 (L !!!.) Z.of_nat P -> length n2 = length (nodes l) ->
  exists skip n3, back_loop (S (length (nodes l))) n2 (Some p) 0 = Ret (Z.of_nat r, skip) /\
    (match skip with
     | Some _ => shift_loop (S (length (nodes l))) n2 skip
     | None => x ← deref n2 p; _ ← check (depth x =? -1); Ret n2
     end) = Ret n3 /\ length n3 = length n2 /\ keeps lk n2 n3 /\ keeps inf n2 n3 /\ skips_ok n3 (L' !!!.) Z.of_nat P.
Proof using Hrep Hp.
  intros Hr1 HL HS Hlen. destruct (r_length _ _ _ _ _ Hrep) as (Hll & _ & _). pose proof (r_spaced _ _ _ _ _ Hrep) as Hsp. pose proof r_lt as Hrl.
  assert (Hf : forall j, j ∈ P -> L !! j = Some (L !!! j)) by (intros j Hj; apply at_total; by apply (r_short _ _ _ _ _ Hrep)).
  assert (Hge : forall j, j ∈ P -> (1 <= j)%nat) by (intros j Hj; apply list_elem_of_lookup in Hj as [k Hj]; exact (spaced_ge _ _ _ _ Hsp Hj)).
  assert (Hnew : forall j, j ∈ P -> L' !!! j = if decide (j <= r)%nat then L !!! (j - 1)%nat else L !!! j).
  { intros j Hj. pose proof (Hge j Hj). apply list_lookup_total_correct. destruct j as [|j]; [lia|]. case_decide.
    - rewrite L'_before by lia. replace (S j - 1)%nat with j by lia. apply at_total. lia.
    - rewrite L'_behind by lia. by apply Hf. }
  destruct (back_loop_ok n2 L _ P HL HS Hf r (length (nodes l)) p 0 Hp ltac:(lia)) as (skip & Eb & Hskip). rewrite Z.add_0_l in Eb.
  exists skip. destruct skip as [s|].
  - destruct Hskip as (k & i0 & Hk & -> & Hle & Hmax). assert (Hi0 : i0 ∈ P) by (by eapply list_elem_of_lookup_2).
    assert (HPl : (length P <= length L)%nat) by (apply NoDup_incl_length_lt; [by eapply spaced_nodup|apply Hrep]).
    assert (Hdiff : forall j j', j ∈ P -> j' ∈ P -> L !!! j' <> L !!! (j - 1)%nat).
    { intros j j' Hj Hj' E. pose proof (Hf j' Hj') as E1. pose proof (Hge j Hj). pose proof (r_short _ _ _ _ _ Hrep j Hj). rewrite E in E1.
      pose proof (L_inj _ _ _ E1 (at_total L (j - 1) ltac:(lia))). destruct (spaced_apart _ _ j j' Hsp Hj Hj') as [?|[?|?]]; lia. }
    destruct (shift_loop_ok k (L !!!.) n2 i0 (length (nodes l)) (fun j => L !!! (j - 1)%nat) _ P _ Hsp Hk HS) as (n3 & E3 & L3 & K3 & I3 & S3).
    + apply lookup_lt_Some in Hk. lia.
    + intros j Hj _. pose proof (Hge j Hj). pose proof (r_short _ _ _ _ _ Hrep j Hj). exists (L !! S j). rewrite (lk_node _ _ HL j _ (Hf j Hj)).
      destruct j as [|j]; [lia|]. cbn [pred_at]. replace (S j - 1)%nat with j by lia. rewrite (at_total L j) by lia. split; [done|].
      eapply lk_bound. exact (lk_node _ _ HL j _ (at_total L j ltac:(lia))).
    + intros j j' Hj Hj' _. by apply Hdiff.
    + intros j j' Hj Hj' _ _ E. pose proof (Hge j Hj). pose proof (Hge j' Hj'). pose proof (r_short _ _ _ _ _ Hrep j Hj). pose proof (r_short _ _ _ _ _ Hrep j' Hj').
      pose proof (at_total L (j - 1) ltac:(lia)) as E1. pose proof (at_total L (j' - 1) ltac:(lia)) as E2. rewrite E in E1. pose proof (L_inj _ _ _ E1 E2). lia.
    + exists n3. split; [exact Eb|]. split; [exact E3|]. split_and!; [done..|]. eapply skips_ok_ext; [done| |done|exact S3]. intros j Hj. cbn beta. rewrite (Hnew j Hj).
      destruct (decide (j <= i0)%nat); [by rewrite decide_True by lia|]. rewrite decide_False; [done|]. intros Hjr. by pose proof (Hmax j Hj Hjr).
  - exists n2. split; [exact Eb|]. destruct (node_at _ _ _ _ _ _ _ HL HS Hf Hp) as (x & Hx & _ & _ & _ & Hout). unfold deref. rewrite Hx. cbn [or_abort mbind outcome_bind].
    rewrite Hout, Z.eqb_refl by (intros Hin; pose proof (Hskip r Hin); lia). cbn [check mbind outcome_bind]. split_and!; [done..|].
    eapply skips_ok_ext; [done| |done|exact HS]. intros j Hj. cbn beta. rewrite (Hnew j Hj). pose proof (Hskip j Hj). by rewrite decide_False by lia.
Qed.
(** What the lines are after the move, whatever the store. *)
Lemma moved_info n1 n2 n3 far : (forall q, inf n1 q = if decide (p = q) then (fun '(s, u, v, w) => (s, u + 1, v, w)) <$> inf (nodes l) q else inf (nodes l) q) ->
  (forall q, inf n2 q = if decide (p = q) then (fun '(s, u, v, w) => (s, u, v + far, w)) <$> inf n1 q else inf n1 q) ->
  (forall q, inf n3 q = if decide (p = q) then (fun '(s, u, v, w) => (cur_time l, u, v, w)) <$> inf n2 q else inf n2 q) ->
  forall i q t' a' d' s, L' !! i = Some q -> ((t, a + 1, d + far) :: delete r R) !! i = Some (t', a', d') -> (cur_time l :: delete r ts) !! i = Some s ->
  inf n3 q = Some (s, a', d', t').
Proof using Hrep Hp HR.
  intros I1 I2 I3 [|i] q t' a' d' s Hq HR' Hs.
  - injection Hq as <-. injection HR' as <- <- <-. injection Hs as <-. destruct (time_at r r_lt) as (p' & x & s & Hp' & _ & Hs & _). assert (p' = p) as -> by congruence.
    rewrite I3, I2, I1, !decide_True by done. rewrite (r_info _ _ _ _ _ Hrep r p t a d s Hp HR Hs). done.
  - change (delete r R !! i = Some (t', a', d')) in HR'. change (delete r ts !! i = Some s) in Hs.
    assert (exists j, j <> r /\ L !! j = Some q /\ R !! j = Some (t', a', d') /\ ts !! j = Some s) as (j & Hj & E1 & E2 & E3).
    { destruct (decide (i < r)%nat).
      - exists i. rewrite L'_before in Hq by done. rewrite list_lookup_delete_lt in HR' by done. rewrite list_lookup_delete_lt in Hs by done. split_and!; [lia|done..].
      - exists (S i). rewrite L'_behind in Hq by lia. rewrite list_lookup_delete_ge in HR' by lia. rewrite list_lookup_delete_ge in Hs by lia. split_and!; [lia|done..]. }
    assert (p <> q) by (intros ->; by apply Hj, (L_inj _ _ q)). rewrite I3, I2, I1, !decide_False by done. exact (r_info _ _ _ _ _ Hrep j q t' a' d' s E1 E2 E3).
Qed.

Theorem move_to_front_ok : exists l' d' ts', move_to_front l p = Ret (l', Z.of_nat r) /\
  (threshold l <> 0 -> d' = d + if threshold l <? Z.of_nat r then 1 else 0) /\
  list_rep l' L' ((t, a + 1, d') :: delete r R) ts' P /\
  cur_time l' = cur_time l + (if decide (r = 0%nat) then 0 else 1) /\ threshold l' = threshold l /\ skip_distance l' = skip_distance l.
Proof using Hrep Hp HR Hopt.
  destruct (r_length _ _ _ _ _ Hrep) as (Hlen & HRl & Htl). pose proof r_lt as Hrl. destruct (Hopt) as [HT _ _].
  destruct (upd_ok p count_ref (nodes l)) as (n1 & E1 & L1 & Q1); [eapply lk_bound; exact (lk_node _ _ (r_links _ _ _ _ _ Hrep) r p Hp)|].
  assert (K1 : keeps lk (nodes l) n1) by (intros q; unfold lk; rewrite Q1; case_decide; by destruct (nodes l !! q)).
  assert (S1 : keeps sk (nodes l) n1) by (intros q; unfold sk; rewrite Q1; case_decide; by destruct (nodes l !! q)).
  assert (T1 : keeps (fun ns q => time_stamp <$> ns !! q) (nodes l) n1) by (intros q; rewrite Q1; case_decide; by destruct (nodes l !! q)).
  assert (I1 : forall q, inf n1 q = if decide (p = q) then (fun '(s, u, v, w) => (s, u + 1, v, w)) <$> inf (nodes l) q else inf (nodes l) q).
  { intros q. unfold inf. rewrite Q1. case_decide; [|done]. by destruct (nodes l !! q). }
  unfold move_to_front. rewrite E1. cbn [mbind outcome_bind]. rewrite (r_head _ _ _ _ _ Hrep). destruct (decide (L !! 0%nat = Some p)) as [E0|N0].
  - assert (Hr0 : r = 0%nat) by exact (L_inj _ _ p Hp E0). rewrite Hr0 in *. exists (with_list l n1 (L !! 0%nat) (gate l) (cur_time l) (unique_lines l)), d, ts.
    assert (EL : L' = L) by (unfold L'; rewrite Hr0; destruct L as [|x L0]; [done|by injection E0 as ->]).
    assert (ER : exists R0, R = (t, a, d) :: R0) by (destruct R as [|x R0]; [done|injection HR as ->; by exists R0]). destruct ER as [R0 ER].
    split_and!; [done|intros _; rewrite (proj2 (Z.ltb_ge _ _)) by lia; lia| |rewrite decide_True by done; cbn; lia|done|done]. rewrite EL, ER. cbn [delete list_delete].
    destruct Hrep as [A1 A2 A3 A4 A5 A6 A7 A8 A9 A10]. constructor; cbn [nodes head gate cur_time unique_lines threshold skip_distance with_list]; try done.
    + rewrite L1. rewrite ER in HRl. cbn in *. lia.
    + by eapply links_ok_keeps.
    + eapply skips_ok_ext; [exact S1|done|done|exact A4].
    + intros i q t' a' d' s Hq HR' Hs. rewrite I1. destruct i as [|i].
      * assert (q = p) as -> by congruence. injection HR' as <- <- <-. rewrite decide_True by done. rewrite (A7 0%nat p t a d s Hp HR Hs). done.
      * rewrite decide_False; [apply (A7 (S i)); [done|rewrite ER; exact HR'|done]|]. intros ->. pose proof (L_inj _ _ _ Hq E0). lia.
  - assert (Hr1 : (1 <= r)%nat) by (destruct r as [|r0]; [by rewrite Hp in N0|lia]).
    destruct (move_gate_ok n1 Hr1 L1 K1 T1) as (n2 & g & far & E2 & L2 & K2 & S2 & I2 & Hg & Hfar). rewrite E2. cbn [mbind outcome_bind].
    assert (HL2 : links_ok n2 L) by (eapply links_ok_keeps; [exact K2|]; eapply links_ok_keeps; [exact K1|apply Hrep]).
    destruct (move_skips n2 Hr1 HL2) as (skip & n3 & Eb & E3 & L3 & K3 & I3 & S3).
    { eapply skips_ok_ext; [|done|done|exact (r_skips _ _ _ _ _ Hrep)]. by eauto. }
    { lia. }
    rewrite Eb. cbn [mbind outcome_bind]. destruct (lookup_lt_is_Some_2 L 0 ltac:(lia)) as [h Hh]. rewrite Hh.
    rewrite (brute_loop_ok n2 L HL2 r 0 (S (length (nodes l))) h r p 0 Hh Hp ltac:(lia) ltac:(lia)), Z.add_0_l. cbn [mbind outcome_bind]. rewrite Z.eqb_refl. cbn [check].
    assert (forall (X : outcome (line_ref_list_t * Z)), (_ ← (if verify l then Ret () else Ret ()); X) = X) as -> by (intros X; by destruct (verify l)).
    rewrite E3. cbn [mbind outcome_bind]. assert (HL3 : links_ok n3 L) by (by eapply links_ok_keeps).
    destruct (relink_ok n3 L r p h HL3 Hp Hr1 Hh) as (n4 & E4 & L4 & K4 & I4 & HL4). rewrite E4. cbn [mbind outcome_bind].
    destruct (upd_ok p (set_time (cur_time l)) n4) as (n5 & E5 & L5 & Q5); [eapply lk_bound; exact (lk_node _ _ HL4 0%nat p eq_refl)|]. rewrite E5. cbn [mbind outcome_bind].
    exists (with_list l n5 (Some p) g (cur_time l + 1) (unique_lines l)), (d + if far then 1 else 0), (cur_time l :: delete r ts).
    split_and!; [done|intros N; by rewrite (Hfar N)| |rewrite decide_False by lia; done|done|done].
    constructor; cbn [nodes head gate cur_time unique_lines threshold skip_distance with_list].
    + rewrite L'_length. cbn [length]. rewrite !length_delete by (by eauto using lookup_lt_is_Some_2 with lia). lia.
    + done.
    + eapply links_ok_keeps; [|exact HL4]. intros q. unfold lk. rewrite Q5. case_decide; by destruct (n4 !! q).
    + eapply skips_ok_ext; [|done|done|exact S3]. intros q. rewrite <- K4. unfold sk. rewrite Q5. case_decide; by destruct (n4 !! q).
    + apply Hrep.
    + intros j Hj. rewrite L'_length. by apply Hrep.
    + apply (moved_info n1 n2 n5 (if far then 1 else 0) I1 I2). intros q. rewrite <- (I3 q), <- (I4 q). unfold inf. rewrite Q5. case_decide; [|done]. by destruct (n4 !! q).
    + split; [lia|]. apply falling_delete. apply Hrep.
    + exact Hg.
    + rewrite L'_length. apply Hrep.
Qed.
End Move.
