(* ===== verification/ReuseSpec.v ===== *)
(** * Reuse distances are counted

    The specification: the distance of a reference is the number of the
    different lines that were referenced since its line was. *)
From S2P Require Import ReuseDistance ReuseProof ReuseList Reader ReaderRun.

(** ** The specification

    [past] are the lines referenced, the last first. *)

Fixpoint since (t : Z) (past : list Z) : option (list Z) :=
  match past with [] => None | x :: past => if decide (x = t) then Some [] else (fun l => x :: l) <$> since t past end.
Definition distance (past : list Z) (t : Z) : option Z := (fun l => Z.of_nat (base.size (list_to_set l : gset Z))) <$> since t past.

(** The references with their distances; that of a first one is [None]. *)
Fixpoint distances (past : list Z) : list (Z * option Z) :=
  match past with [] => [] | t :: past => (t, distance past t) :: distances past end.

Definition references (t : Z) (past : list Z) : Z := countb (fun x => bool_decide (x = t)) past.
Definition is_far (T : Z) (o : option Z) : bool := match o with Some d => T <? d | None => false end.
Definition far_references (T t : Z) (past : list Z) : Z := countb (fun x => bool_decide (fst x = t) && is_far T (snd x)) (distances past).
Definition at_distance (d : Z) (past : list Z) : Z := countb (fun x => bool_decide (snd x = Some d)) (distances past).

(** The lines in the order of their last references. *)
Fixpoint recent (past : list Z) : list Z :=
  match past with [] => [] | t :: past => t :: filter (fun x => x <> t) (recent past) end.

Lemma recent_nodup past : NoDup (recent past).
Proof. induction past as [|t past IH]; constructor; [|by apply NoDup_filter]. rewrite list_elem_of_filter. naive_solver. Qed.
Lemma elem_of_recent past t : t ∈ recent past <-> t ∈ past.
Proof.
  induction past as [|x past IH]; [done|]. cbn [recent]. rewrite !elem_of_cons, list_elem_of_filter, IH. destruct (decide (t = x)); naive_solver.
Qed.
Lemma length_recent past : Z.of_nat (length (recent past)) = Z.of_nat (base.size (list_to_set past : gset Z)).
Proof.
  rewrite <- (size_list_to_set (C := gset Z)) by apply recent_nodup. f_equal. apply set_size_proper. intros t. rewrite !elem_of_list_to_set. apply elem_of_recent.
Qed.

Lemma nodup_split {A} (t : A) l1 l2 l1' l2' : NoDup (l1 ++ t :: l2) -> l1 ++ t :: l2 = l1' ++ t :: l2' -> l1 = l1' /\ l2 = l2'.
Proof.
  intros Hnd E. assert (length l1 = length l1') as Hl.
  { apply (proj1 (NoDup_alt _) Hnd _ _ t); [by apply list_lookup_middle|rewrite E; by apply list_lookup_middle]. }
  apply app_inj_1 in E as [-> E]; [|done]. by injection E.
Qed.

(** A filter that passes everything. *)
Lemma filter_every (l : list Z) t : t ∉ l -> filter (fun x => x <> t) l = l.
Proof. induction l as [|x l IH]; [done|]. intros [H1 H2]%not_elem_of_cons. rewrite filter_cons_True by congruence. by rewrite IH. Qed.

(** What is in front of a line are those referenced since. *)
Lemma recent_since past t A C : recent past = A ++ t :: C -> exists B, since t past = Some B /\ forall y, y ∈ A <-> y ∈ B.
Proof.
  revert A C. induction past as [|x past IH]; intros A C E; [by destruct A|]. cbn [recent since] in *. pose proof (recent_nodup (x :: past)) as Hnd. cbn [recent] in Hnd.
  destruct A as [|a A]; injection E as -> E.
  - rewrite decide_True by done. by exists [].
  - rewrite decide_False.
    2: { intros ->. apply NoDup_cons in Hnd as [Hnd _]. apply Hnd. rewrite E. apply elem_of_app. right. apply list_elem_of_here. }
    assert (Ht : t ∈ recent past). { assert (t ∈ filter (fun y => y <> a) (recent past)) as H by (rewrite E; apply elem_of_app; right; apply list_elem_of_here). by apply list_elem_of_filter in H as [_ H]. }
    apply list_elem_of_split in Ht as (A0 & C0 & E0). destruct (IH A0 C0 E0) as (B & -> & HB). exists (a :: B). split; [done|].
    assert (Hta : t <> a). { intros ->. apply NoDup_cons in Hnd as [Hnd _]. apply Hnd. rewrite E. apply elem_of_app. right. apply list_elem_of_here. }
    rewrite E0, filter_app, filter_cons_True in E by done. apply NoDup_cons in Hnd as [_ Hnd]. rewrite E0, filter_app, filter_cons_True in Hnd by done.
    apply nodup_split in E as [E _]; [|done]. intros y. rewrite !elem_of_cons, <- E, list_elem_of_filter, HB. destruct (decide (y = a)); naive_solver.
Qed.

(** The distance is the position in that order. *)
Lemma recent_distance past t r : recent past !! r = Some t -> distance past t = Some (Z.of_nat r).
Proof.
  intros H. destruct (list_elem_of_split_length _ _ _ H) as (A & C & E & Hr). destruct (recent_since past t A C E) as (B & HB & Hy). unfold distance. rewrite HB. cbn. do 2 f_equal.
  pose proof (recent_nodup past) as Hnd. rewrite E in Hnd. apply NoDup_app in Hnd as (Hnd & _ & _). rewrite Hr, <- (size_list_to_set (C := gset Z) A Hnd). apply set_size_proper.
  intros y. rewrite !elem_of_list_to_set. by rewrite Hy.
Qed.
Lemma fresh_distance past t : t ∉ past -> distance past t = None.
Proof.
  unfold distance. intros H. assert (since t past = None) as ->; [|done]. induction past as [|x past IH]; [done|]. cbn. rewrite not_elem_of_cons in H. destruct H as [H1 H2].
  rewrite decide_False by congruence. by rewrite IH.
Qed.
Lemma recent_again past t r : recent past !! r = Some t -> recent (t :: past) = t :: delete r (recent past).
Proof.
  intros H. destruct (list_elem_of_split_length _ _ _ H) as (A & C & E & Hr). cbn. f_equal. pose proof (recent_nodup past) as Hnd. rewrite E in *. rewrite filter_app, filter_cons_False by naive_solver.
  rewrite Hr, delete_middle. apply NoDup_app in Hnd as (_ & HA & HC). apply NoDup_cons in HC as [HC _].
  rewrite !filter_every; [done|done|]. intros Hy. apply (HA t Hy). apply list_elem_of_here.
Qed.
Lemma recent_fresh past t : t ∉ past -> recent (t :: past) = t :: recent past.
Proof. intros H. cbn. f_equal. apply filter_every. by rewrite elem_of_recent. Qed.

(** ** The tool *)

Definition tags (R : list (Z * Z * Z)) : list Z := (fun x => fst (fst x)) <$> R.

(** [past] has been counted. *)
Record reuse_rep (s : reuse_distance_t) (past : list Z) (L : list nat) (R : list (Z * Z * Z)) (ts : list Z) (P : list nat) : Prop := {
  u_list : list_rep (ref_list s) L R ts P;
  u_options : options_ok (ref_list s);
  u_tags : tags R = recent past;
  u_map : forall t p, cache_map s !! t = Some p <-> exists i a d, L !! i = Some p /\ R !! i = Some (t, a, d);
  u_lines : forall i t a d, R !! i = Some (t, a, d) -> a = references t past /\ (threshold (ref_list s) <> 0 -> d = far_references (threshold (ref_list s)) t past);
  u_dist : forall d, default 0 (dist_map s !! d) = at_distance d past;
  u_total : refs_total s = Z.of_nat (length past);
  u_time : cur_time (ref_list s) = countb (fun x => negb (bool_decide (snd x = Some 0))) (distances past)
}.

Lemma tags_at R i t a d : R !! i = Some (t, a, d) -> tags R !! i = Some t.
Proof. intros H. unfold tags. by rewrite list_lookup_fmap, H. Qed.
Lemma tags_delete R i : tags (delete i R) = delete i (tags R).
Proof. unfold tags. revert i. induction R as [|x R IH]; intros [|i]; [done..|]. cbn. f_equal. apply IH. Qed.
Lemma tags_inj s past L R ts P i j t a d a' d' : reuse_rep s past L R ts P -> R !! i = Some (t, a, d) -> R !! j = Some (t, a', d') -> i = j.
Proof.
  intros H Hi Hj. apply tags_at in Hi, Hj. rewrite (u_tags _ _ _ _ _ _ H) in Hi, Hj. exact (proj1 (NoDup_alt _) (recent_nodup past) _ _ _ Hi Hj).
Qed.

Lemma references_cons t x past : references t (x :: past) = references t past + if decide (x = t) then 1 else 0.
Proof. unfold references. rewrite countb_cons. case_bool_decide; case_decide; naive_solver lia. Qed.
Lemma far_cons T t x past : far_references T t (x :: past) = far_references T t past + if decide (x = t) then if is_far T (distance past t) then 1 else 0 else 0.
Proof.
  unfold far_references. cbn [distances]. rewrite countb_cons. cbn [fst snd]. case_bool_decide as E; case_decide; try naive_solver; [subst x|cbn; lia].
  cbn [andb]. destruct (is_far T (distance past t)); lia.
Qed.
Lemma at_cons d x past : at_distance d (x :: past) = at_distance d past + if decide (distance past x = Some d) then 1 else 0.
Proof. unfold at_distance. cbn [distances]. rewrite countb_cons. cbn [snd]. case_bool_decide; case_decide; naive_solver lia. Qed.
Lemma references_none t past : t ∉ past -> references t past = 0.
Proof. induction past as [|x past IH]; [done|]. intros [H1 H2]%not_elem_of_cons. rewrite references_cons, (IH H2), decide_False by congruence. done. Qed.
Lemma far_none T t past : t ∉ past -> far_references T t past = 0.
Proof. induction past as [|x past IH]; [done|]. intros [H1 H2]%not_elem_of_cons. rewrite far_cons, (IH H2), decide_False by congruence. done. Qed.

(** A line that was not referenced before. *)
Lemma step_new s past L R ts P t : reuse_rep s past L R ts P -> cache_map s !! t = None -> Z.of_nat (length past) + 2 < w64 ->
  exists l L' R' ts' P', add_line (ref_list s) t = Ret l /\
    reuse_rep {| cache_map := <[t := length (nodes (ref_list s))]> (cache_map s); dist_map := dist_map s; ref_list := l;
                 line_size_bits := line_size_bits s; refs_total := refs_total s + 1 |} (t :: past) L' R' ts' P' /\ threshold l = threshold (ref_list s).
Proof.
  intros H Hc Hlen. pose proof (u_list _ _ _ _ _ _ H) as Hl. pose proof (u_options _ _ _ _ _ _ H) as Ho. destruct (r_length _ _ _ _ _ Hl) as (HL1 & HL2 & _).
  assert (HLp : (length L <= length past)%nat).
  { rewrite <- HL2. assert (length R = length (recent past)) as -> by (rewrite <- (u_tags _ _ _ _ _ _ H); unfold tags; by rewrite length_fmap).
    clear. induction past as [|x past IH]; [done|]. cbn. pose proof (length_filter (fun y => y <> x) (recent past)). lia. }
  assert (Hnew : forall i a d, R !! i <> Some (t, a, d)).
  { intros i a d Hi. destruct (lookup_lt_is_Some_2 L i) as [p Hp]; [apply lookup_lt_Some in Hi; lia|]. assert (cache_map s !! t = Some p) by (apply (u_map _ _ _ _ _ _ H); by exists i, a, d). congruence. }
  assert (Hpast : t ∉ past).
  { intros Hin. apply elem_of_recent in Hin. rewrite <- (u_tags _ _ _ _ _ _ H) in Hin. apply list_elem_of_fmap in Hin as ([[t' a] d] & E & Hin). cbn in E. subst t'. apply list_elem_of_lookup in Hin as [i Hi]. by apply (Hnew i a d). }
  destruct (add_line_ok (ref_list s) L R ts P t Hl Ho ltac:(lia)) as (l & P' & E & Hl' & Ht & HT & HD).
  exists l, (length (nodes (ref_list s)) :: L), ((t, 1, 0) :: R), (cur_time (ref_list s) :: ts), P'. split; [exact E|]. split; [|done].
  constructor; cbn [cache_map dist_map ref_list refs_total].
  - exact Hl'.
  - destruct Ho. constructor; by rewrite ?HT, ?HD.
  - rewrite recent_fresh by done. cbn. by rewrite <- (u_tags _ _ _ _ _ _ H).
  - intros t' p. destruct (decide (t' = t)) as [->|N].
    + rewrite lookup_insert_eq. split; [intros [= <-]; by exists 0%nat, 1, 0|]. intros ([|i] & a & d & Hp & Hi); [by injection Hp as ->|]. by destruct (Hnew i a d).
    + rewrite lookup_insert_ne by done. rewrite (u_map _ _ _ _ _ _ H). split; [intros (i & a & d & Hi); by exists (S i), a, d|].
      intros ([|i] & a & d & Hp & Hi); [injection Hi as E1 _ _; congruence|by exists i, a, d].
  - intros [|i] t' a d Hi.
    + injection Hi as <- <- <-. rewrite references_cons, far_cons, (references_none t), (far_none _ t), !decide_True, fresh_distance by done. done.
    + rewrite HT, references_cons, far_cons. destruct (decide (t = t')) as [->|]; [by destruct (Hnew i a d)|]. rewrite !Z.add_0_r. by apply (u_lines _ _ _ _ _ _ H i).
  - intros d. rewrite at_cons, fresh_distance by done. rewrite decide_False by done. rewrite Z.add_0_r. apply H.
  - rewrite (u_total _ _ _ _ _ _ H). cbn. lia.
  - rewrite Ht, (u_time _ _ _ _ _ _ H). cbn [distances]. rewrite countb_cons, fresh_distance by done. cbn [snd]. rewrite bool_decide_eq_false_2 by done. cbn. lia.
Qed.

(** What stands where behind a move to the front. *)
Lemma moved_iff {A} (l : list A) r x x' i y : l !! r = Some x -> (x' :: delete r l) !! i = Some y <->
  (i = 0%nat /\ y = x') \/ (exists j, j <> r /\ l !! j = Some y /\ i = if decide (j < r)%nat then S j else j).
Proof.
  intros Hr. destruct i as [|i]; [change ((x' :: delete r l) !! 0%nat) with (Some x')|change ((x' :: delete r l) !! S i) with (delete r l !! i)].
  - split; [intros [= ->]; by left|]. intros [[_ ->]|(j & Hj & _ & E)]; [done|]. case_decide; [done|lia].
  - split.
    + intros H. right. destruct (decide (i < r)%nat).
      * rewrite list_lookup_delete_lt in H by done. exists i. split_and!; [lia|done|by rewrite decide_True].
      * rewrite list_lookup_delete_ge in H by lia. exists (S i). split_and!; [lia|done|by rewrite decide_False by lia].
    + intros [[? _]|(j & Hj & Hy & E)]; [done|]. case_decide.
      * injection E as ->. by rewrite list_lookup_delete_lt.
      * subst j. rewrite list_lookup_delete_ge by lia. done.
Qed.

(** A line referenced again. *)
Lemma step_again s past L R ts P t p : reuse_rep s past L R ts P -> cache_map s !! t = Some p ->
  exists l dist L' R' ts' P', move_to_front (ref_list s) p = Ret (l, dist) /\
    reuse_rep {| cache_map := cache_map s; dist_map := <[dist := default 0 (dist_map s !! dist) + 1]> (dist_map s); ref_list := l;
                 line_size_bits := line_size_bits s; refs_total := refs_total s + 1 |} (t :: past) L' R' ts' P' /\ threshold l = threshold (ref_list s).
Proof.
  intros H Hc. pose proof (u_list _ _ _ _ _ _ H) as Hl. pose proof (u_options _ _ _ _ _ _ H) as Ho. apply (u_map _ _ _ _ _ _ H) in Hc as (r & a & d & Hp & HR).
  destruct (move_to_front_ok (ref_list s) L R ts P r p t a d Hl Ho Hp HR) as (l & d' & ts' & E & Hd & Hl' & Ht & HT & HD).
  pose proof (tags_at _ _ _ _ _ HR) as Htag. rewrite (u_tags _ _ _ _ _ _ H) in Htag. pose proof (recent_distance _ _ _ Htag) as Hdist.
  exists l, (Z.of_nat r), (p :: delete r L), ((t, a + 1, d') :: delete r R), ts', P. split; [exact E|]. split; [|done].
  destruct (u_lines _ _ _ _ _ _ H r t a d HR) as [Ha Hfar].
  constructor; cbn [cache_map dist_map ref_list refs_total].
  - exact Hl'.
  - destruct Ho. constructor; by rewrite ?HT, ?HD.
  - rewrite (recent_again _ _ _ Htag). change (tags ((t, a + 1, d') :: delete r R)) with (t :: tags (delete r R)). by rewrite tags_delete, (u_tags _ _ _ _ _ _ H).
  - intros t' p'. rewrite (u_map _ _ _ _ _ _ H). split.
    + intros (j & a' & e & Hj & HRj). destruct (decide (j = r)) as [->|N].
      * assert (p' = p /\ t' = t) as [-> ->] by (split; congruence). by exists 0%nat, (a + 1), d'.
      * exists (if decide (j < r)%nat then S j else j), a', e. split; [apply (moved_iff L r p p _ p' Hp)|apply (moved_iff R r _ _ _ _ HR)]; right; by exists j.
    + intros (i & a' & e & Hi & HRi). apply (moved_iff L r p p i p' Hp) in Hi. apply (moved_iff R r _ _ _ _ HR) in HRi.
      destruct Hi as [[-> ->]|(j & Hj & Hy & Ei)], HRi as [[E1 E2]|(j' & Hj' & Hy' & Ei')].
      * injection E2 as -> _ _. by exists r, a, d.
      * exfalso. case_decide; lia.
      * exfalso. case_decide; lia.
      * assert (j' = j) as -> by (repeat case_decide; lia). by exists j, a', e.
  - intros i t' a' e Hi. apply (moved_iff R r _ _ _ _ HR) in Hi. rewrite HT, references_cons, far_cons. destruct Hi as [[-> E2]|(j & Hj & Hy & _)].
    + injection E2 as -> -> ->. rewrite !decide_True by done. split; [lia|]. intros N. rewrite (Hd N), <- (Hfar N). rewrite Hdist. done.
    + rewrite !decide_False, !Z.add_0_r by (intros ->; apply Hj; by eapply tags_inj). by apply (u_lines _ _ _ _ _ _ H j).
  - intros x. rewrite at_cons, Hdist. destruct (decide (Z.of_nat r = x)) as [->|N].
    + rewrite lookup_insert_eq, decide_True by done. cbn. by rewrite (u_dist _ _ _ _ _ _ H).
    + rewrite lookup_insert_ne, decide_False by congruence. rewrite Z.add_0_r. apply H.
  - rewrite (u_total _ _ _ _ _ _ H). cbn. lia.
  - rewrite Ht, (u_time _ _ _ _ _ _ H). cbn [distances]. rewrite countb_cons, Hdist. cbn [snd]. case_bool_decide as E0; case_decide as E1; cbn; try lia.
    + injection E0 as E0. lia.
    + exfalso. apply E0. subst r. done.
Qed.

(** ** The property *)

(** The lines that a trace references, in order. *)
Definition lines_of (bits : Z) (ms : list memref_t) : list Z := map (fun m => Z.shiftr (addr m) bits) (List.filter is_reference ms).

(** What the tool has counted of the references [past]. *)
Record reported (s : reuse_distance_t) (T : Z) (past : list Z) : Prop := {
  rep_distances : forall d, default 0 (dist_map s !! d) = at_distance d past;
  rep_lines : forall t, match cache_map s !! t with
    | None => t ∉ past
    | Some p => exists n, nodes (ref_list s) !! p = Some n /\ line_tag n = t /\ t ∈ past /\ total_refs n = references t past /\
                          (T <> 0 -> distant_refs n = far_references T t past)
    end;
  rep_total : refs_total s = Z.of_nat (length past);
  rep_unique : unique_lines (ref_list s) = Z.of_nat (base.size (list_to_set past : gset Z));
  rep_time : cur_time (ref_list s) = countb (fun x => negb (bool_decide (snd x = Some 0))) (distances past)
}.

Lemma rep_reported s past L R ts P : reuse_rep s past L R ts P -> reported s (threshold (ref_list s)) past.
Proof.
  intros H. pose proof (u_list _ _ _ _ _ _ H) as Hl. destruct (r_length _ _ _ _ _ Hl) as (HL1 & HL2 & HL3).
  assert (Hin : forall t, t ∈ past <-> exists i a d, R !! i = Some (t, a, d)).
  { intros t. rewrite <- elem_of_recent, <- (u_tags _ _ _ _ _ _ H). unfold tags. rewrite list_elem_of_fmap. split.
    - intros ([[t' a] d] & E & Hi). cbn in E. subst t'. apply list_elem_of_lookup in Hi as [i Hi]. by exists i, a, d.
    - intros (i & a & d & Hi). exists (t, a, d). split; [done|]. by eapply list_elem_of_lookup_2. }
  constructor; [apply H| |apply H| |apply H].
  - intros t. destruct (cache_map s !! t) as [p|] eqn:E.
    + apply (u_map _ _ _ _ _ _ H) in E as (i & a & d & Hp & Hi). destruct (lookup_lt_is_Some_2 ts i) as [st Hs]; [apply lookup_lt_Some in Hp; lia|].
      pose proof (r_info _ _ _ _ _ Hl i p t a d st Hp Hi Hs) as E. unfold inf in E. apply fmap_Some in E as (n & Hn & E). injection E as _ Ea Ed Et.
      exists n. split; [done|]. split; [done|]. rewrite <- Ea, <- Ed. split; [apply Hin; by eauto|]. exact (u_lines _ _ _ _ _ _ H i _ _ _ Hi).
    + intros (i & a & d & Hi)%Hin. destruct (lookup_lt_is_Some_2 L i) as [p Hp]; [apply lookup_lt_Some in Hi; lia|].
      assert (cache_map s !! t = Some p) by (apply (u_map _ _ _ _ _ _ H); by exists i, a, d). congruence.
  - rewrite (r_unique _ _ _ _ _ Hl), <- length_recent, <- (u_tags _ _ _ _ _ _ H). unfold tags. rewrite length_fmap. lia.
Qed.

Lemma process_reuse_ok s past L R ts P m : reuse_rep s past L R ts P -> line_size_bits s <> -1 -> Z.of_nat (length past) + 2 < w64 ->
  exists s' L' R' ts' P', process_reuse s m = Ret (s', true) /\
    reuse_rep s' (if is_reference m then Z.shiftr (addr m) (line_size_bits s) :: past else past) L' R' ts' P' /\
    line_size_bits s' = line_size_bits s /\ threshold (ref_list s') = threshold (ref_list s).
Proof.
  intros H Hb Hlen. unfold process_reuse. destruct (is_reference m); [|by exists s, L, R, ts, P]. unfold reuse_tag. rewrite (proj2 (Z.eqb_neq _ _) Hb). cbn [mbind outcome_bind].
  destruct (cache_map s !! Z.shiftr (addr m) (line_size_bits s)) as [p|] eqn:Hc.
  - destruct (step_again _ _ _ _ _ _ _ _ H Hc) as (l & dist & L' & R' & ts' & P' & E & Hr & HT). setoid_rewrite E. cbn [mbind outcome_bind].
    eexists _, L', R', ts', P'. split; [reflexivity|]. split; [exact Hr|]. by split.
  - destruct (step_new _ _ _ _ _ _ _ H Hc Hlen) as (l & L' & R' & ts' & P' & E & Hr & HT). setoid_rewrite E. cbn [mbind outcome_bind].
    eexists _, L', R', ts', P'. split; [reflexivity|]. split; [exact Hr|]. by split.
Qed.

Lemma feed_reuse ms : forall s past L R ts P, reuse_rep s past L R ts P -> line_size_bits s <> -1 -> Z.of_nat (length past) + Z.of_nat (length ms) + 2 < w64 ->
  exists s' L' R' ts' P', feed process_reuse s ms = Ret (s', true) /\ reuse_rep s' (rev (lines_of (line_size_bits s) ms) ++ past) L' R' ts' P' /\
    threshold (ref_list s') = threshold (ref_list s).
Proof.
  induction ms as [|m ms IH]; intros s past L R ts P H Hb Hlen; [by exists s, L, R, ts, P|]. cbn [length] in Hlen.
  destruct (process_reuse_ok s past L R ts P m H Hb ltac:(lia)) as (s1 & L1 & R1 & t1 & P1 & E & H1 & Hb1 & HT1). cbn [feed]. rewrite E. cbn [mbind outcome_bind].
  destruct (IH s1 _ _ _ _ _ H1 ltac:(congruence)) as (s2 & L2 & R2 & t2 & P2 & E2 & H2 & HT2); [destruct (is_reference m); cbn [length]; lia|].
  exists s2, L2, R2, t2, P2. split; [done|]. split; [|congruence]. rewrite Hb1 in H2. unfold lines_of in *. cbn [List.filter].
  destruct (is_reference m); [|exact H2]. cbn [map rev]. by rewrite <- app_assoc.
Qed.

Lemma new_reuse_rep k debug : 0 <= distance_threshold k < w32 -> 0 <= skip_list_distance k < w32 -> skip_list_distance k <> 1 ->
  reuse_rep (new_reuse_distance k debug) [] [] [] [] [].
Proof.
  intros HT HD HD1. constructor; cbn; try done.
  - constructor; cbn; try done.
    + constructor; [by apply NoDup_nil|by intros [|?] ?].
    + constructor; [by intros i j Hi%elem_of_nil|by intros [|?] ?|by intros [|?] ?].
    + by intros j Hj%elem_of_nil.
    + unfold gate_ok. cbn. case_decide; [by left|done].
  - intros t p. rewrite lookup_empty. split; [done|]. intros (i & a & d & Hi & _). by destruct i.
Qed.

(** C8. The tool computes every reuse distance with a list of the lines and a
    skip list over it, for whose links and depths it makes room as it goes.
    Whatever the trace, and whatever the distance between the nodes of the skip
    list but one, no assertion fails, the check by brute force included, and
    the histogram has every reference that is not a line's first under the
    number of different lines referenced since; each line has its references
    counted, and those whose distance is over the threshold, if that is not
    zero. *)
Theorem reuse_distances_counted (k : reuse_distance_knobs_t) debug ms :
  compute_log2 (line_size k) <> -1 -> 0 <= distance_threshold k < w32 -> 0 <= skip_list_distance k < w32 -> skip_list_distance k <> 1 ->
  Z.of_nat (length ms) + 2 < w64 ->
  exists s, feed process_reuse (new_reuse_distance k debug) ms = Ret (s, true) /\
    reported s (distance_threshold k) (rev (lines_of (compute_log2 (line_size k)) ms)).
Proof.
  intros Hb HT HD HD1 Hlen. destruct (feed_reuse ms _ _ _ _ _ _ (new_reuse_rep k debug HT HD HD1) Hb) as (s & L & R & ts & P & E & H & Ht); [cbn; lia|].
  exists s. split; [exact E|]. apply rep_reported in H. rewrite Ht, app_nil_r in H. exact H.
Qed.

(** ** Examples and the witness *)

Definition at_line (n : Z) : memref_t := {| type := TRACE_TYPE_READ; pid := 1; tid := 1; addr := n * 64; size := 4 |}.
Definition example_fetch (a : Z) : memref_t := {| type := TRACE_TYPE_INSTR; pid := 1; tid := 1; addr := a; size := 1 |}.
Definition example_knobs (T D : Z) : reuse_distance_knobs_t := {| line_size := 64; distance_threshold := T; skip_list_distance := D; verify_skip := true |}.
Definition example_refs : list memref_t := map at_line [1; 2; 3; 4; 5; 6; 7; 8; 3; 1; 1; 8; 6; 2; 9; 1; 2; 3; 4; 5].
Definition reuse_of (T D : Z) (ms : list memref_t) : outcome reuse_distance_t :=
  '(s, _) ← feed process_reuse (new_reuse_distance (example_knobs T D) true) ms; Ret s.

Lemma reuse_distances_counted_witness : exists s, feed process_reuse (new_reuse_distance (example_knobs 4 2) true) example_refs = Ret (s, true) /\
  reported s 4 (rev (map (fun m => Z.shiftr (addr m) 6) example_refs)) /\ dist_map s !! 7 = Some 2.
Proof.
  destruct (reuse_distances_counted (example_knobs 4 2) true example_refs) as (s & E & H); [vm_compute; discriminate|vm_compute; split; congruence..|vm_compute; discriminate|vm_compute; reflexivity|].
  exists s. split; [exact E|]. split; [exact H|]. pose proof (rep_distances _ _ _ H 7) as Hd.
  assert (at_distance 7 (rev (lines_of (compute_log2 (line_size (example_knobs 4 2))) example_refs)) = 2) as Ea by (vm_compute; reflexivity).
  rewrite Ea in Hd. destruct (dist_map s !! 7) as [n|]; cbn in Hd; congruence.
Defined.

(** A skip list with a node for every line makes the second reference to a line
    that is not the last one go through NULL. *)
Example skip_distance_one : reuse_of 100 1 (map at_line [1; 2; 1]) = Abort.
Proof. vm_compute. reflexivity. Qed.

(** With a threshold of zero the gate is lost: of five references whose distance
    is one, one is counted as distant. *)
Example threshold_zero : (s ← reuse_of 0 3 (map at_line [1; 2; 1; 2; 1; 2; 1]); Ret (map (fun x => (line_tag x, distant_refs x)) (nodes (ref_list s)), dist_map s !! 1)) =
  Ret ([(1, 1); (2, 0)], Some 5).
Proof. vm_compute. reflexivity. Qed.

(** Of the distances 0, 1 and 3 the tool takes 0 for the median. *)
Example median_of_three : (s ← reuse_of 100 3 (map at_line [1; 1; 2; 1; 3; 4; 5; 1]); Ret (sorted_distances s, median s)) = Ret ([(0, 1); (1, 1); (3, 1)], Some 0).
Proof. vm_compute. reflexivity. Qed.
