(* ===== verification/Tools.v ===== *)
(** * The counting tools

    [src/Simulator/clients/drcachesim/tools/]: the references that the cache line
    histogram (histogram.cpp), the reuse time tool (reuse_time.cpp), the basic
    counts (basic_counts.cpp) and the opcode mix (opcode_mix.cpp) count.

    An [unordered_map] of counters is a [gmap], in which an absent key counts as
    zero; the twelve counters of the basic counts, each in total and by thread,
    are functions of their names.  A marker's type is where the low half of the
    address is.  The opcode mix looks its instructions up with the module mapper
    of [ModuleMapper]; the decoder is a parameter, [None] for what is no valid
    instruction.  A line size that is no power of two is [Abort], being a shift
    by [(size_t)-1].  The printing, whose order among equals the library leaves
    open, is left out. *)
From stdpp Require Import gmap.
From S2P Require Import CachingDevice ReuseDistance.
From S2P Require ModuleMapper.

Definition bump (t : Z) (m : gmap Z Z) : gmap Z Z := <[t := default 0 (m !! t) + 1]> m.

Definition line_shift (line_size : Z) (a : Z) : outcome Z :=
  let bits := compute_log2 line_size in if bits =? -1 then Abort else Ret (Z.shiftr a bits).

Definition is_data_reference (m : memref_t) : bool := (type m =? TRACE_TYPE_READ) || (type m =? TRACE_TYPE_WRITE) || type_is_prefetch (type m).

(** ** The histogram of cache lines *)

Record histogram_t := { icache_map : gmap Z Z; dcache_map : gmap Z Z }.
Definition process_histogram (knob_line_size : Z) (s : histogram_t) (m : memref_t) : outcome (histogram_t * bool) :=
  if type_is_instr (type m) || (type m =? TRACE_TYPE_PREFETCH_INSTR) then
    t ← line_shift knob_line_size (addr m); Ret ({| icache_map := bump t (icache_map s); dcache_map := dcache_map s |}, true)
  else if is_data_reference m then
    t ← line_shift knob_line_size (addr m); Ret ({| icache_map := icache_map s; dcache_map := bump t (dcache_map s) |}, true)
  else Ret (s, true).

(** ** Reuse times *)

Record reuse_time_t := { time_map : gmap Z Z; rt_time_stamp : Z; total_instructions : Z; reuse_time_histogram : gmap Z Z }.
Definition new_reuse_time : reuse_time_t := {| time_map := ∅; rt_time_stamp := 0; total_instructions := 0; reuse_time_histogram := ∅ |}.
Definition process_reuse_time (knob_line_size : Z) (s : reuse_time_t) (m : memref_t) : outcome (reuse_time_t * bool) :=
  if type_is_instr (type m) then
    Ret ({| time_map := time_map s; rt_time_stamp := rt_time_stamp s; total_instructions := total_instructions s + 1; reuse_time_histogram := reuse_time_histogram s |}, true)
  else if negb (is_data_reference m) then Ret (s, true)
  else
    let now := rt_time_stamp s + 1 in
    line ← line_shift knob_line_size (addr m);
    Ret ({| time_map := <[line := now]> (time_map s); rt_time_stamp := now; total_instructions := total_instructions s;
            reuse_time_histogram := match time_map s !! line with Some t => bump (now - t) (reuse_time_histogram s) | None => reuse_time_histogram s end |}, true).

(** ** Basic counts *)

Inductive counted_t := Instrs | Instrs_nofetch | Prefetches | Loads | Stores | Sched_markers | Xfer_markers | Func_id_markers | Func_retaddr_markers |
  Func_arg_markers | Func_retval_markers | Other_markers.
#[export] Instance counted_eq_dec : EqDecision counted_t.
Proof. solve_decision. Defined.

Record basic_counts_t := { total_threads : Z; totals : counted_t -> Z; by_thread : counted_t -> gmap Z Z }.
Definition new_basic_counts : basic_counts_t := {| total_threads := 0; totals := fun _ => 0; by_thread := fun _ => ∅ |}.

Definition marker_type (m : memref_t) : Z := addr m mod w32.

(** The counter of a marker. *)
Definition marker_counter (t : Z) : counted_t :=
  if (t =? 2) || (t =? 3) then Sched_markers
  else if (t =? 0) || (t =? 1) then Xfer_markers
  else if t =? 4 then Func_id_markers
  else if t =? 5 then Func_retaddr_markers
  else if t =? 6 then Func_arg_markers
  else if t =? 7 then Func_retval_markers
  else Other_markers.

(** The counter of a reference. *)
Definition counter_of (m : memref_t) : option counted_t :=
  if type_is_instr (type m) then Some Instrs
  else if type m =? TRACE_TYPE_INSTR_NO_FETCH then Some Instrs_nofetch
  else if type_is_prefetch (type m) then Some Prefetches
  else if type m =? TRACE_TYPE_READ then Some Loads
  else if type m =? TRACE_TYPE_WRITE then Some Stores
  else if type m =? TRACE_TYPE_MARKER then Some (marker_counter (marker_type m))
  else None.

Definition process_basic_counts (s : basic_counts_t) (m : memref_t) : outcome (basic_counts_t * bool) :=
  match counter_of m with
  | Some c =>
      Ret ({| total_threads := total_threads s; totals := fun d => totals s d + (if decide (d = c) then 1 else 0);
              by_thread := fun d => if decide (d = c) then bump (tid m) (by_thread s d) else by_thread s d |}, true)
  | None =>
      Ret ({| total_threads := total_threads s + (if type m =? TRACE_TYPE_THREAD_EXIT then 1 else 0); totals := totals s; by_thread := by_thread s |}, true)
  end.

(** ** The opcode mix *)

#[export] Instance address_eq_dec : EqDecision ModuleMapper.address.
Proof. solve_decision. Defined.

Section Opcodes.
Context {U : Type} (decode : ModuleMapper.address -> option Z).

(** The cache of opcodes by mapped address. *)
Record opcode_mix_t := {
  mix_mapper : ModuleMapper.module_mapper_t U;
  opcode_cache : list (ModuleMapper.address * Z);
  opcode_counts : gmap Z Z;
  instr_count : Z;
  mix_failed : bool
}.

Fixpoint cached_opcode (c : list (ModuleMapper.address * Z)) (pc : ModuleMapper.address) : option Z :=
  match c with [] => None | (a, o) :: c => if decide (a = pc) then Some o else cached_opcode c pc end.

Definition process_opcode_mix (s : opcode_mix_t) (m : memref_t) : outcome (opcode_mix_t * bool) :=
  if negb (type_is_instr (type m)) && negb (type m =? TRACE_TYPE_INSTR_NO_FETCH) then Ret (s, true)
  else
    let '(mapper, pc) := ModuleMapper.find_mapped_trace_address (mix_mapper s) (addr m) in
    let failed := {| mix_mapper := mapper; opcode_cache := opcode_cache s; opcode_counts := opcode_counts s; instr_count := instr_count s + 1; mix_failed := true |} in
    match ModuleMapper.last_error mapper with
    | Some _ => Ret (failed, false)
    | None =>
        match cached_opcode (opcode_cache s) pc with
        | Some o => Ret ({| mix_mapper := mapper; opcode_cache := opcode_cache s; opcode_counts := bump o (opcode_counts s); instr_count := instr_count s + 1; mix_failed := mix_failed s |}, true)
        | None =>
            match decode pc with
            | None => Ret (failed, false)
            | Some o => Ret ({| mix_mapper := mapper; opcode_cache := (pc, o) :: opcode_cache s; opcode_counts := bump o (opcode_counts s); instr_count := instr_count s + 1; mix_failed := mix_failed s |}, true)
            end
        end
    end.
End Opcodes.
Arguments opcode_mix_t : clear implicits.
