(* ===== verification/ToolsSpec.v ===== *)
(** * What the counting tools count

    The reuse times, the totals of the basic counts, and the opcode mix with the
    module mapper beneath it. *)
From S2P Require Import CachingDevice ReuseDistance Tools Reader ReaderRun ReuseSpec.
From S2P Require Import ModuleMapper ModuleSpec.

Lemma bump_lookup t m k : default 0 (bump t m !! k) = default 0 (m !! k) + if decide (t = k) then 1 else 0.
Proof.
  unfold bump. destruct (decide (t = k)) as [->|N]; [by rewrite lookup_insert_eq|]. rewrite lookup_insert_ne by done. lia.
Qed.

Lemma feed_cons {S} (tool : S -> memref_t -> outcome (S * bool)) st m ms :
  feed tool st (m :: ms) = '(st, ok) ← tool st m; if (ok : bool) then feed tool st ms else Ret (st, false).
Proof. done. Qed.

(** Unfolds the head of one term. *)
Ltac unfold_head t := let u := eval red in t in change t with u.

(** ** Reuse times *)

(** The number of references since the last one to the line, itself included. *)
Definition reuse_time (past : list Z) (t : Z) : option Z := (fun l => Z.of_nat (length l) + 1) <$> since t past.
Fixpoint reuse_times (past : list Z) : list (option Z) := match past with [] => [] | t :: past => reuse_time past t :: reuse_times past end.
Definition data_lines (bits : Z) (ms : list memref_t) : list Z :=
  map (fun m => Z.shiftr (addr m) bits) (List.filter (fun m => negb (type_is_instr (type m)) && is_data_reference m) ms).

Record time_rep (s : reuse_time_t) (past : list Z) : Prop := {
  t_now : rt_time_stamp s = Z.of_nat (length past);
  t_map : forall t, time_map s !! t = (fun l => Z.of_nat (length past) - Z.of_nat (length l)) <$> since t past;
  t_hist : forall d, default 0 (reuse_time_histogram s !! d) = countb (fun o => bool_decide (o = Some d)) (reuse_times past)
}.

Lemma feed_reuse_time line_size ms : compute_log2 line_size <> -1 -> forall s past, time_rep s past ->
  exists s', feed (process_reuse_time line_size) s ms = Ret (s', true) /\ time_rep s' (rev (data_lines (compute_log2 line_size) ms) ++ past) /\
    total_instructions s' = total_instructions s + countb (fun m => type_is_instr (type m)) ms.
Proof.
  intros Hb. induction ms as [|m ms IH]; intros s past H; [exists s; split; [done|]; split; [exact H|unfold countb; cbn; lia]|]. rewrite feed_cons, countb_cons.
  unfold_head (process_reuse_time line_size s m). unfold data_lines. cbn [List.filter]. destruct (type_is_instr (type m)) eqn:Ei; cbn [negb andb mbind outcome_bind].
  { destruct (IH {| time_map := time_map s; rt_time_stamp := rt_time_stamp s; total_instructions := total_instructions s + 1; reuse_time_histogram := reuse_time_histogram s |} past) as (s' & E & H' & Hi); [by destruct H; constructor|].
    exists s'. split; [exact E|]. split; [exact H'|]. rewrite Hi. cbn. lia. }
  destruct (is_data_reference m); cbn [negb]; [|destruct (IH s past H) as (s' & E & H' & Hi); exists s'; split; [exact E|]; split; [exact H'|lia]].
  unfold line_shift. rewrite (proj2 (Z.eqb_neq _ _) Hb). cbn [mbind outcome_bind map rev]. set (t := Z.shiftr (addr m) (compute_log2 line_size)).
  match goal with |- context [feed _ ?st ms] => destruct (IH st (t :: past)) as (s' & E & H' & Hi) end.
  - destruct H as [H1 H2 H3]. constructor; cbn [time_map rt_time_stamp reuse_time_histogram].
    + cbn. lia.
    + intros k. cbn [since length]. destruct (decide (t = k)) as [->|N]; [rewrite lookup_insert_eq; cbn; f_equal; lia|].
      rewrite lookup_insert_ne, H2 by done. destruct (since k past); cbn; [f_equal; lia|done].
    + intros d. cbn [reuse_times]. rewrite countb_cons, <- H3. unfold reuse_time. rewrite H2. destruct (since t past) as [l|]; cbn [fmap option_fmap option_map]; [|rewrite bool_decide_eq_false_2 by done; lia].
      rewrite bump_lookup, H1. case_bool_decide as B; case_decide as A; [lia|injection B as B; lia|exfalso; apply B; f_equal; lia|lia].
  - exists s'. split; [exact E|]. split; [|rewrite Hi; cbn; lia]. by rewrite <- app_assoc.
Qed.

(** The histogram of reuse times: each data reference to a line that was
    referenced before stands under the number of data references since. *)
Theorem reuse_times_counted line_size ms : compute_log2 line_size <> -1 ->
  exists s, feed (process_reuse_time line_size) new_reuse_time ms = Ret (s, true) /\ total_instructions s = countb (fun m => type_is_instr (type m)) ms /\
    forall d, default 0 (reuse_time_histogram s !! d) = countb (fun o => bool_decide (o = Some d)) (reuse_times (rev (data_lines (compute_log2 line_size) ms))).
Proof.
  intros Hb. destruct (feed_reuse_time line_size ms Hb new_reuse_time []) as (s & E & H & Hi); [by constructor|]. exists s. split; [exact E|]. split; [exact Hi|].
  rewrite app_nil_r in H. apply H.
Qed.

(** ** Basic counts *)

Definition in_class (c : counted_t) (m : memref_t) : bool := bool_decide (counter_of m = Some c).

(** Every reference of a class is counted once, in total and for its thread. *)
Theorem basic_counts_count ms : exists s, feed process_basic_counts new_basic_counts ms = Ret (s, true) /\
  (forall c, totals s c = countb (in_class c) ms) /\
  (forall c t, default 0 (by_thread s c !! t) = countb (fun m => in_class c m && bool_decide (tid m = t)) ms) /\
  total_threads s = countb (fun m => type m =? TRACE_TYPE_THREAD_EXIT) ms.
Proof.
  assert (Hx : forall m c, counter_of m = Some c -> (type m =? TRACE_TYPE_THREAD_EXIT) = false).
  { intros m c Hc. destruct (Z.eqb_spec (type m) TRACE_TYPE_THREAD_EXIT) as [E|]; [|done]. unfold counter_of in Hc. by rewrite E in Hc. }
  cut (forall s, exists s', feed process_basic_counts s ms = Ret (s', true) /\ (forall c, totals s' c = totals s c + countb (in_class c) ms) /\
    (forall c t, default 0 (by_thread s' c !! t) = default 0 (by_thread s c !! t) + countb (fun m => in_class c m && bool_decide (tid m = t)) ms) /\
    total_threads s' = total_threads s + countb (fun m => type m =? TRACE_TYPE_THREAD_EXIT) ms).
  { intros H. destruct (H new_basic_counts) as (s & E & H1 & H2 & H3). exists s. split; [exact E|]. split; [exact H1|]. split; [exact H2|exact H3]. }
  induction ms as [|m ms IH]; intros s; [exists s; unfold countb; cbn; split_and!; [done|intros; lia|intros; lia|lia]|]. rewrite feed_cons. unfold_head (process_basic_counts s m).
  destruct (counter_of m) as [c|] eqn:Hc; cbn [mbind outcome_bind]; match goal with |- context [feed _ ?st ms] => destruct (IH st) as (s' & E & H1 & H2 & H3) end;
    exists s'; (split; [exact E|]); cbn [totals by_thread total_threads] in *.
  - split_and!.
    + intros d. rewrite H1, countb_cons. unfold in_class at 2. rewrite Hc. case_decide; case_bool_decide; (lia || congruence).
    + intros d t. rewrite H2, countb_cons. unfold in_class at 2. rewrite Hc. case_decide as Hd.
      * subst d. rewrite (bool_decide_eq_true_2 (Some c = Some c)) by done. cbn [andb]. rewrite bump_lookup. case_decide; case_bool_decide; (lia || done).
      * rewrite bool_decide_eq_false_2 by congruence. cbn [andb]. lia.
    + rewrite H3, countb_cons, (Hx m c Hc). lia.
  - split_and!.
    + intros d. rewrite H1, countb_cons. unfold in_class at 2. rewrite Hc. rewrite bool_decide_eq_false_2 by done. lia.
    + intros d t. rewrite H2, countb_cons. unfold in_class at 2. rewrite Hc. rewrite bool_decide_eq_false_2 by done. cbn [andb]. lia.
    + rewrite H3, countb_cons. lia.
Qed.

(** ** The opcode mix *)

Definition is_executed (m : memref_t) : bool := type_is_instr (type m) || (type m =? TRACE_TYPE_INSTR_NO_FETCH).
Definition executed (ms : list memref_t) : list Z := map addr (List.filter is_executed ms).

Lemma executed_cons m ms : executed (m :: ms) = if is_executed m then addr m :: executed ms else executed ms.
Proof. unfold executed. cbn [List.filter]. by destruct (is_executed m). Qed.

Section Mix.
Context {U : Type} (decode : address -> option Z) (vec : list module_t).

(** The opcode of an address of the trace. *)
Definition opcode_at (a : Z) : option Z := match find_module vec a with Some _ => decode (search vec a) | None => None end.

(** The opcodes of the instructions up to the first that has none. *)
Fixpoint opcodes (l : list Z) : list Z := match l with [] => [] | a :: l => match opcode_at a with Some o => o :: opcodes l | None => [] end end.

Record mix_rep (s : opcode_mix_t U) : Prop := {
  m_list : modlist (mix_mapper s) <> [];
  m_vec : modvec (mix_mapper s) = vec;
  m_cached : cached (mix_mapper s);
  m_error : last_error (mix_mapper s) = None;
  m_cache : forall pc o, cached_opcode (opcode_cache s) pc = Some o -> decode pc = Some o
}.

Lemma feed_mix (Hr : ranges_apart vec) ms : forall s, mix_rep s ->
  exists s', feed (process_opcode_mix decode) s ms = Ret (s', forallb (fun a => bool_decide (is_Some (opcode_at a))) (executed ms)) /\
    forall o, default 0 (opcode_counts s' !! o) = default 0 (opcode_counts s !! o) + countb (fun o' => bool_decide (o' = o)) (opcodes (executed ms)).
Proof.
  induction ms as [|m ms IH]; intros s H; [exists s; split; [done|]; intros o; unfold countb; cbn; lia|]. rewrite feed_cons, executed_cons. unfold_head (process_opcode_mix decode s m).
  rewrite <- negb_orb. fold (is_executed m). destruct (is_executed m); cbn [negb]; [|cbn [mbind outcome_bind]; exact (IH s H)].
  destruct H as [H1 H2 H3 H4 H5]. pose proof (find_step (mix_mapper s) (addr m) H1 ltac:(by rewrite H2) H3) as Hf.
  destruct (find_mapped_trace_address (mix_mapper s) (addr m)) as [mp pc]. destruct Hf as (-> & Hc & Hv & Hl & He). cbn [forallb opcodes]. rewrite He, H2, H4.
  destruct (find_module vec (addr m)) as [md|] eqn:Em; cbn [mbind outcome_bind].
  2: { assert (opcode_at (addr m) = None) as Hn by (unfold opcode_at; by rewrite Em). eexists. rewrite bool_decide_eq_false_2 by (rewrite Hn; by intros [? ?]). rewrite Hn.
       split; [reflexivity|]. intros o. unfold countb. cbn. lia. }
  assert (Ho : opcode_at (addr m) = decode (search vec (addr m))) by (unfold opcode_at; by rewrite Em).
  assert (Hgo : forall o c, decode (search vec (addr m)) = Some o -> (forall pc o, cached_opcode c pc = Some o -> decode pc = Some o) ->
    exists s', feed (process_opcode_mix decode) {| mix_mapper := mp; opcode_cache := c; opcode_counts := bump o (opcode_counts s); instr_count := instr_count s + 1; mix_failed := mix_failed s |} ms =
      Ret (s', forallb (fun a => bool_decide (is_Some (opcode_at a))) (executed ms)) /\
    forall o', default 0 (opcode_counts s' !! o') = default 0 (opcode_counts s !! o') + countb (fun x => bool_decide (x = o')) (o :: opcodes (executed ms))).
  { intros o c Hdo Hcc. destruct (IH {| mix_mapper := mp; opcode_cache := c; opcode_counts := bump o (opcode_counts s); instr_count := instr_count s + 1; mix_failed := mix_failed s |}) as (s' & E & Hs).
    - constructor; cbn [mix_mapper opcode_cache]; [by rewrite Hl|by rewrite Hv|done|by rewrite He, H2, Em|done].
    - exists s'. split; [exact E|]. intros o'. rewrite Hs. cbn [opcode_counts]. rewrite bump_lookup, countb_cons. case_decide; case_bool_decide; (lia || done). }
  destruct (cached_opcode (opcode_cache s) (search vec (addr m))) as [o|] eqn:Eo; cbn [mbind outcome_bind].
  - rewrite (H5 _ _ Eo) in Ho. rewrite bool_decide_eq_true_2 by (by rewrite Ho). rewrite Ho. cbn [andb]. apply Hgo; [by apply H5|done].
  - destruct (decode (search vec (addr m))) as [o|] eqn:Ed; cbn [mbind outcome_bind].
    + rewrite bool_decide_eq_true_2 by (by rewrite Ho). rewrite Ho. cbn [andb]. apply Hgo; [done|]. intros pc o'. cbn. case_decide as Hpc; [intros [= <-]; by subst pc|by apply H5].
    + rewrite bool_decide_eq_false_2 by (rewrite Ho; by intros [? ?]). rewrite Ho. cbn [andb]. eexists. split; [reflexivity|]. intros o. unfold countb. cbn. lia.
Qed.
End Mix.


(** ** Witnesses *)

Lemma reuse_times_counted_witness : exists s, feed (process_reuse_time 64) new_reuse_time example_refs = Ret (s, true) /\
  total_instructions s = 0 /\ default 0 (reuse_time_histogram s !! 6) = 1.
Proof.
  destruct (reuse_times_counted 64 example_refs) as (s & E & Hi & H); [vm_compute; discriminate|]. exists s. split; [exact E|]. split; [exact Hi|]. rewrite H. vm_compute. reflexivity.
Defined.

(** A decoder that takes the low digit of a mapped address for the opcode. *)
Definition example_decode (pc : address) : option Z := match pc with AMap a => Some (a mod 16) | AContents _ i => Some i | ANull => None end.
Definition example_mix (l : list Z) : outcome (opcode_mix_t unit * bool) :=
  feed (process_opcode_mix example_decode) {| mix_mapper := two_modules; opcode_cache := []; opcode_counts := ∅; instr_count := 0; mix_failed := false |} (map example_fetch l).


(** The third address is in no module. *)
Example mix_stops : (x ← example_mix [0x1011; 0x1011; 0x3000; 0x1011]; Ret (snd x, instr_count (fst x), opcode_counts (fst x) !! 1)) = Ret (false, 3, Some 2).
Proof. vm_compute. reflexivity. Qed.
